(* ===== verification/_CoqProject ===== *)
-Q . S2P
Prelude.v
Bitwise.v
Varint.v
SqlText.v
SqlNumber.v
Keywords.v
Tokenizer.v
RunParser.v
Busy.v
Complete.v
Utf.v
UnixLock.v
Double.v
RecordFmt.v
RecordOrder.v
UnixFile.v
Disk.v
Pager.v
Journal.v
PagerPlay.v
PagerRecover.v
PagerWrite.v
PagerTx.v
PagerCommit.v
PagerAtomic.v
PagerSafety.v
WalIndex.v
WalLog.v
WalIter.v
WalWrite.v
WalDurable.v
WalShm.v
WalInv.v
WalWp.v
WalReader.v
WalWriter.v
WalCheckpoint.v
WalIsolation.v
Frame.v
SQLiteSocket.v
External.v
Config.v
SqlWrapper.v
RequestHandler.v
Server.v
Concrete.v
EngineLink.v
