(* ===== verification/Prelude.v ===== *)
(** * sqlite-server: a verification library (root)

    This development models the program of this repository, a TCP server in C++ that executes
    SQL on SQLite databases, and the parts of the bundled SQLite amalgamation that its
    correctness stands on, as executable functions; it proves what makes each part correct.
    Paths below are relative to src/.

    ** The program and the files

    A listener accepts connections from whitelisted peers; each connection reads length-prefixed
    JSON requests, hands each to its own request handler, and queues the framed replies; the
    handler checks the password, resolves a database name inside one folder, keeps one open
    connection per name, and runs the SQL through thin wrappers over the C API of SQLite.

    The server, from the outside in:
    - [Frame] (Response.cpp): the reply buffer and its four-byte little-endian header.
    - [SQLiteSocket] (SQLiteSocket.cpp, Socket.cpp): a connection as a state machine over the
      completions of its asynchronous reads and writes, module [Socket]; module [Race] has the
      same handlers cut at their accesses of the shared queue, because nothing orders them when
      several workers run.
    - [Config] (Config.cpp, main.cpp): options, configuration file, whitelist.
    - [SqlWrapper] (sqlite3_wrapper/): constructors, destructors and accessors over the C API,
      which is the class [SqlApi].
    - [RequestHandler] (RequestHandler.cpp): every command, with the exceptions that leave it.
    - [Server] (ListenSocket.h, Network.h): accepting, the interleaving of all connections over
      the one outside world, and one whole conversation.
    - [External]: nlohmann/json, Boost.Filesystem, Boost.Regex and string algorithms as classes
      of operations, their documented behaviour as classes of laws; [Concrete]: small instances
      that satisfy the laws, on which the server's witnesses are evaluated.

    The engine (sqlite3/sqlite3.c; each file's header names the original source file):
    - [Bitwise]: shifts, masks and bytes as a reified language decided by computation.
    - [Varint], [Double], [RecordFmt], [RecordOrder]: the storage encoding of integers, the
      comparison of integers with doubles, the record format (OP_MakeRecord, unpacking) and the
      order in which index keys and registers compare.
    - [Utf], [SqlText], [SqlNumber]: encodings, names and quoting, checked 64-bit arithmetic and
      decimal text.
    - [Keywords], [Tokenizer], [RunParser], [Complete]: from SQL text to the tokens the parser is
      fed; the generated LALR automaton is the class [ParserEngine].
    - [Busy]: the busy handler and the retry loop around a lock; [UnixLock]: the advisory locks
      of os_unix.c as programs over fcntl and close, with the processes interleaved call by call.
    - [UnixFile] (os_unix.c): reading and writing a file with the loops over partial and
      interrupted calls; the class [Vfs] is what the log above it uses, [Reliable] a system that
      does not fail, and the Unix files are an instance of both.
    - [Disk], [Pager], [Journal], [PagerPlay], [PagerRecover], [PagerWrite], [PagerTx],
      [PagerCommit], [PagerAtomic], [PagerSafety] (pager.c, pcache.c): the rollback journal, the mode
      the server's connections run in unless a client changes it with a PRAGMA.  [Disk] has the
      files with what a loss of power may leave of them, programs over file operations any of
      which may fail, and a program logic whose crash condition holds after every operation;
      [Pager] the pager as such programs, up to the transaction of a connection; [Journal] the
      format of the journal and [Recoverable], what a disk must be for a database to be recovered
      from it; the next five the specifications of playback, recovery, journalling, reading and
      writing pages, and of the two phases of a commit; [PagerAtomic] whole transactions and
      sequences of them with crashes; [PagerSafety] the theorems and runs of them.
    - [WalIndex], [WalLog], [WalWrite], [WalDurable] (wal.c): the write-ahead log.  [WalIndex] has
      the shared hash tables and the abstract log they implement; [WalLog] the bytes of the file,
      the checksums, and recovery; [WalWrite] the writer, [walFrames]; [WalDurable] puts them
      together: runs of calls and rollbacks against an abstract database, reading a page as the
      pager does, and recovery after a crash.  [WalIter] has the merge sort and the iterator a
      checkpoint uses.
    - [WalShm], [WalInv], [WalWp], [WalReader], [WalWriter], [WalCheckpoint], [WalIsolation]
      (wal.c): many connections to one log.  [WalShm] has read transactions, write transactions
      and checkpoints as programs over atomic operations on the shared header, the read marks,
      the locks and the files, the system that interleaves any number of them and what one run of
      it sees; [WalInv] the invariant of what is shared, with what each connection knows as its
      ghost state; [WalWp] a program logic over it (a weakest precondition for one connection
      that every step of the others keeps); the next three the specifications of the routines;
      [WalIsolation] the theorems, with the iterator of [WalIter] as the instance of the class
      [Backfill] that the checkpoint is proved against.
    - [EngineLink]: where the two halves meet: the BLOB literal a reply carries is SQL for the
      same bytes, and a request waits for a lock as long as the configuration says.

    ** Conventions

    A C integer of width w is a [Z] with [wrapu w] or [wraps w] (u8, u32, i64 and so on) where
    the code truncates; a byte buffer is a [list Z]; a NUL-terminated string is the list of the
    bytes before its terminator, read by [zat], which gives 0 beyond the end.  Code with effects
    is in the state-and-exception monad of this file, [M S E A].  A double is its 64-bit pattern.
    Preconditions that the code asserts are hypotheses.

    ** What the theorems show

    Each property of the development carries an identifier, C1 to C40, in its comment.
    - The server (C1 to C3 and C8 to C16): a conversation is one reply per request, in order,
      whatever the chunking of the stream; nothing happens before the password; sessions only from
      allowed peers in every interleaving; a name is accepted exactly when it is a direct child of
      the folder; which requests end the process and which are answered; the data race of the
      queue.
    - The rollback journal (C4 to C7): after any sequence of transactions, kills, failed operations
      and losses of power a connection reads a database that some of the transactions make, in order
      and each as a whole; what each answer of one transaction promises, and what can be recovered
      at each of its moments; the playback of a hot journal ends and restores the database; with
      the directory synced a commit outlives a loss of power.  Their hypotheses are the
      settings [conf_ok] (journal_mode DELETE and full syncing), sizes that the code accepts, with a
      page at least as large as a sector, a connection that did nothing yet, and pages of the right
      size.
    - Sharing the write-ahead log (C17 to C21): in every interleaving of connections that read,
      write, checkpoint, start the log over, fail and die, what a connection reads is one commit
      with its own writes on top, a commit is the last one with the writes of its transaction on
      top, and the files hold the last commit at any moment; a checkpoint copies the last frame of
      each page; starting to read ends.
    - One log (C22 to C26): a writer reads its own writes, a rollback returns to the
      last commit, committed bytes are never overwritten, and recovery after a crash finds exactly
      the last commit, on machines of either byte order; the index implements a log.  These
      theorems have a system whose calls do not fail ([Reliable]), mapping of the index that
      succeeds ([map_page]) and locks that are granted as hypotheses, and for recovery arbitrary
      contents of the index and the buffers before it.
    - Files (C27): a write is whole however the system splits or interrupts its calls.
    - Records (C28 to C32): what is stored is read back; any bytes unpack to well-typed
      registers; every comparison function follows the order of the columns; the order is total;
      varints round trip.
    - SQL text (C33 to C36): tokens partition the text, a quoted text is one token with the same
      value, keywords are found exactly, the parser is fed the specified tokens.
    - Encodings of text (C37, C38).
    - Both halves and locking (C39, C40): a reply's BLOB literal reads back; no two processes hold
      conflicting locks in any reachable state.

    Theorems without an identifier are the components' other results: starting the server from its
    options, the cache of connections, the bound on the wait for a lock by the timeout, that a
    frame of the log is accepted exactly when the writer made it, that there is one writer,
    that a process killed while it starts the log over makes a later commit invisible, isolation
    of the readers of one index, reading of files, the unrolled varint decoder, conversions of
    numbers, the constructor of a
    statement, the listing of the folder, checked 64-bit arithmetic, the logarithmic estimate,
    case folding, dequoting, [sqlite3_complete], the portability of the checksum of the log, the
    linear search of the index.

    ** Fuel and bounds

    Loops that advance through a buffer recurse on it.  Fuel is an argument where the source has
    no bound of its own: the retry loop of a statement's constructor and the row loop (the
    theorems say that more than the number of busy answers, or of rows, is enough and that an
    unbounded run of busy answers never ends), the rounds of the lock loop, the varint writer (10
    groups always suffice, [varint_written]), and the tokenizer's callers (the length of the text,
    because every token is at least one byte long, [tokens_partition]).  A read or a write of a file
    has fuel for each byte and each interruption, which the contracts show to be enough; the padding
    of the log has the distance to the sector boundary.  Starting a read transaction has one round
    more than the limit the code counts to, which is enough whatever happens ([begin_ends]); the
    busy handler of a checkpoint is the number of times it asks for another try; the merge of two
    lists has their lengths.  The log holds fewer than 2^32 frames, a
    hypothesis on the length of a run.  The loops of a playback have the size of the journal and
    one, because each turn moves on by a record or a header; where they would be cut off they
    answer [NO_FUEL], which no playback does ([playback_restores]).

    ** Not modelled

    The SQL compiler and the virtual machine (their correctness needs a semantics of SQL), the
    b-tree and the module below the page cache; memory allocation (taken to succeed, except where
    it is an operation of [WalShm] or [Disk]), the Windows and memory VFS, printf and date formatting, the
    extensions, the logger, and the third-party libraries.  The manifest lists each part with its
    reason.

    Of the pager, savepoints, temporary and in-memory databases, super-journals, shrinking a
    database, backups and mapped pages.  [Pager] has the other journal modes, exclusive locking and
    sectors larger than a page as the code has them, but the theorems leave them out.  [Disk]
    considers a sector as written whole or not at all and the magic number as never there by
    chance; bytes of a file that was made longer but not synced are arbitrary; only journals
    that do not end with the name of a super-journal ([plain]) are considered.  One connection
    uses the database at a time: the exclusion of others is the subject of [UnixLock].

    Of the write-ahead log, opening, closing, mapping of the shared memory and snapshots.  The
    byte-level writer [walFrames] takes the restart of a log as its parameter [restart]; [WalShm]
    has the restart, and has pages for bytes.  In [WalShm] a copy of the shared header is read and
    written as a whole (the code compares two copies and a checksum to detect a torn one), the
    salts of a restarted log are not those of an earlier one (the code draws 32 random bits), the
    pages of one call are distinct and a commit writes the pages it adds (the pager does both), a
    failed write may leave anything in its frame or page, and processes die anywhere but between
    the two stores of a new header and, when that starts the log over, the store of [nBackfill]
    after it; [killed_restart_loses_commit] shows what happens where they do.  *)

From Stdlib Require Export Ascii.
From stdpp Require Export base list numbers strings gmap.
From stdpp Require Import options.

#[global] Open Scope Z_scope.

(** ** Scope, databases *)

Declare Scope c_scope.
Delimit Scope c_scope with c.

Create HintDb cint discriminated.
Create HintDb cbytes discriminated.

(** ** C integers: a value of width [w] is a [Z]; these are the conversions. *)

Definition wrapu (w z : Z) : Z := z mod 2 ^ w.

Definition wraps (w z : Z) : Z := (z + 2 ^ (w - 1)) mod 2 ^ w - 2 ^ (w - 1).

Abbreviation u8 := (wrapu 8).
Abbreviation u16 := (wrapu 16).
Abbreviation u32 := (wrapu 32).
Abbreviation u64 := (wrapu 64).
Abbreviation i8 := (wraps 8).
Abbreviation i16 := (wraps 16).
Abbreviation i32 := (wraps 32).
Abbreviation i64 := (wraps 64).

(** A C truth value. *)
Definition zbool (b : bool) : Z := if b then 1 else 0.

(** ** Bytes *)

Definition is_byte (b : Z) : Prop := 0 <= b < 256.

Abbreviation bytes_ok l := (Forall is_byte l).

(** Reading a NUL-terminated string [z] (the bytes before its terminator) at index [i]:
    the terminator and what a caller never reads are 0. *)
Definition zat (z : list Z) (i : Z) : Z := nth (Z.to_nat i) z 0.

Definition Z_of_ascii (c : ascii) : Z := Z.of_N (N_of_ascii c).

Definition ascii_of_Z (z : Z) : ascii := ascii_of_N (Z.to_N z).

Fixpoint bytes_of_string (s : string) : list Z :=
  match s with
  | EmptyString => []
  | String c s' => Z_of_ascii c :: bytes_of_string s'
  end.

Fixpoint string_of_bytes (l : list Z) : string :=
  match l with
  | [] => EmptyString
  | b :: l' => String (ascii_of_Z b) (string_of_bytes l')
  end.

(** Length of a list as a C size. *)
Definition zlen {A} (l : list A) : Z := Z.of_nat (length l).

(** ** Tactics *)

(** Turn boolean comparisons into propositions, everywhere. *)
Ltac breflect :=
  repeat match goal with
  | H : (_ && _)%bool = true |- _ => apply andb_true_iff in H as [? ?]
  | H : (_ || _)%bool = false |- _ => apply orb_false_iff in H as [? ?]
  | H : negb _ = true |- _ => apply negb_true_iff in H
  | H : negb _ = false |- _ => apply negb_false_iff in H
  | H : (_ <=? _) = true |- _ => apply Z.leb_le in H
  | H : (_ <=? _) = false |- _ => apply Z.leb_gt in H
  | H : (_ <? _) = true |- _ => apply Z.ltb_lt in H
  | H : (_ <? _) = false |- _ => apply Z.ltb_ge in H
  | H : (_ =? _) = true |- _ => apply Z.eqb_eq in H
  | H : (_ =? _) = false |- _ => apply Z.eqb_neq in H
  | H : (_ <=? _)%nat = true |- _ => apply Nat.leb_le in H
  | H : (_ <=? _)%nat = false |- _ => apply Nat.leb_gt in H
  | H : (_ <? _)%nat = true |- _ => apply Nat.ltb_lt in H
  | H : (_ <? _)%nat = false |- _ => apply Nat.ltb_ge in H
  | H : (_ =? _)%nat = true |- _ => apply Nat.eqb_eq in H
  | H : (_ =? _)%nat = false |- _ => apply Nat.eqb_neq in H
  | H : bool_decide _ = true |- _ => apply bool_decide_eq_true in H
  | H : bool_decide _ = false |- _ => apply bool_decide_eq_false in H
  end.

(** Split on the first boolean test of the goal, reflect it, and close by arithmetic. *)
Ltac case_if :=
  match goal with
  | |- context [if ?b then _ else _] =>
      lazymatch type of b with
      | bool => let E := fresh "Hif" in destruct b eqn:E
      | _ => let E := fresh "Hif" in destruct b as [E|E]
      end
  end; breflect.

Ltac case_if_in H :=
  match type of H with
  | context [if ?b then _ else _] =>
      lazymatch type of b with
      | bool => let E := fresh "Hif" in destruct b eqn:E
      | _ => let E := fresh "Hif" in destruct b as [E|E]
      end
  end; breflect.

Ltac bool_lia := breflect; try congruence; lia.

(** Evaluate the powers of two that [lia] does not see through. *)
Ltac pow2 :=
  change (2 ^ 7) with 128 in *; change (2 ^ 8) with 256 in *;
  change (2 ^ 15) with 32768 in *; change (2 ^ 16) with 65536 in *;
  change (2 ^ 31) with 2147483648 in *; change (2 ^ 32) with 4294967296 in *;
  change (2 ^ 63) with 9223372036854775808 in *;
  change (2 ^ 64) with 18446744073709551616 in *.

(** Equality of integers bit by bit. *)
Ltac zbits i Hi := apply Z.bits_inj'; intros i Hi.

(** ** Integer lemmas *)

Lemma wrapu_range w z : 0 <= w -> 0 <= wrapu w z < 2 ^ w.
Proof. intros. unfold wrapu. apply Z.mod_pos_bound, Z.pow_pos_nonneg; lia. Qed.

Lemma wrapu_small w z : 0 <= z < 2 ^ w -> wrapu w z = z.
Proof. intros. unfold wrapu. by apply Z.mod_small. Qed.

Lemma wrapu_land w z : 0 <= w -> wrapu w z = Z.land z (Z.ones w).
Proof. intros. unfold wrapu. by rewrite Z.land_ones. Qed.

Lemma wrapu_idemp w z : 0 <= w -> wrapu w (wrapu w z) = wrapu w z.
Proof. intros. by apply wrapu_small, wrapu_range. Qed.

Lemma wraps_range w z : 1 <= w -> - 2 ^ (w - 1) <= wraps w z < 2 ^ (w - 1).
Proof.
  intros. unfold wraps.
  pose proof (Z.mod_pos_bound (z + 2 ^ (w - 1)) (2 ^ w)) as Hb.
  assert (2 ^ w = 2 * 2 ^ (w - 1)) as Hp.
  { rewrite <- Z.pow_succ_r by lia. f_equal; lia. }
  assert (0 < 2 ^ (w - 1)) by (apply Z.pow_pos_nonneg; lia). lia.
Qed.

Lemma wraps_small w z : 1 <= w -> - 2 ^ (w - 1) <= z < 2 ^ (w - 1) -> wraps w z = z.
Proof.
  intros Hw Hz. unfold wraps.
  assert (2 ^ w = 2 * 2 ^ (w - 1)) as Hp.
  { rewrite <- Z.pow_succ_r by lia. f_equal; lia. }
  rewrite Z.mod_small by lia. lia.
Qed.

(** The signed reading of an unsigned value is congruent to it. *)
Lemma wraps_wrapu w z : 1 <= w -> wrapu w (wraps w z) = wrapu w z.
Proof.
  intros Hw. unfold wrapu, wraps.
  rewrite Zminus_mod_idemp_l. f_equal; lia.
Qed.

Lemma wrapu_wraps w z : 1 <= w -> wraps w (wrapu w z) = wraps w z.
Proof. intros Hw. unfold wrapu, wraps. by rewrite Zplus_mod_idemp_l. Qed.

#[export] Hint Resolve wrapu_range wraps_range : cint.

Lemma ones_testbit w i : 0 <= w -> 0 <= i -> Z.testbit (Z.ones w) i = (i <? w).
Proof.
  intros. destruct (i <? w) eqn:E; breflect.
  - apply Z.ones_spec_low; lia.
  - apply Z.ones_spec_high; lia.
Qed.

Lemma wrapu_testbit w z i : 0 <= w -> 0 <= i ->
  Z.testbit (wrapu w z) i = (i <? w) && Z.testbit z i.
Proof.
  intros. rewrite wrapu_land, Z.land_spec, ones_testbit by lia. apply andb_comm.
Qed.

Lemma testbit_above z n i : 0 <= n -> 0 <= z < 2 ^ n -> n <= i -> Z.testbit z i = false.
Proof.
  intros Hn Hz Hi. rewrite <- (Z.mod_small z (2 ^ n)) by lia.
  apply Z.mod_pow2_bits_high; lia.
Qed.

(** ** Byte and string lemmas *)

Lemma Z_of_ascii_range c : is_byte (Z_of_ascii c).
Proof.
  unfold Z_of_ascii, is_byte. pose proof (N_ascii_bounded c). lia.
Qed.

Lemma ascii_of_Z_of_ascii c : ascii_of_Z (Z_of_ascii c) = c.
Proof. unfold ascii_of_Z, Z_of_ascii. rewrite N2Z.id. apply ascii_N_embedding. Qed.

Lemma Z_of_ascii_of_Z z : is_byte z -> Z_of_ascii (ascii_of_Z z) = z.
Proof.
  intros [? ?]. unfold ascii_of_Z, Z_of_ascii. rewrite N_ascii_embedding by lia. lia.
Qed.

Lemma bytes_of_string_ok s : bytes_ok (bytes_of_string s).
Proof. induction s; simpl; constructor; auto using Z_of_ascii_range. Qed.

Lemma length_bytes_of_string s : length (bytes_of_string s) = String.length s.
Proof. induction s; simpl; congruence. Qed.

Lemma string_of_bytes_of_string s : string_of_bytes (bytes_of_string s) = s.
Proof. induction s; simpl; [done|]. by rewrite ascii_of_Z_of_ascii, IHs. Qed.

Lemma bytes_of_string_of_bytes l : bytes_ok l -> bytes_of_string (string_of_bytes l) = l.
Proof.
  induction 1; simpl; [done|]. by rewrite Z_of_ascii_of_Z, IHForall.
Qed.

Lemma bytes_of_string_inj s1 s2 : bytes_of_string s1 = bytes_of_string s2 -> s1 = s2.
Proof.
  intros H. by rewrite <- (string_of_bytes_of_string s1), H, string_of_bytes_of_string.
Qed.

#[export] Hint Resolve bytes_of_string_ok Z_of_ascii_range : cbytes.

Lemma zlen_nonneg {A} (l : list A) : 0 <= zlen l.
Proof. unfold zlen. lia. Qed.

Lemma zlen_app {A} (l1 l2 : list A) : zlen (l1 ++ l2) = zlen l1 + zlen l2.
Proof. unfold zlen. rewrite length_app. lia. Qed.

Lemma zlen_cons {A} (x : A) l : zlen (x :: l) = 1 + zlen l.
Proof. unfold zlen. simpl. lia. Qed.

Lemma zat_range z i : bytes_ok z -> is_byte (zat z i).
Proof.
  intros H. unfold zat. destruct (nth_in_or_default (Z.to_nat i) z 0) as [Hin| ->].
  - by apply (proj1 (List.Forall_forall _ _) H).
  - unfold is_byte. lia.
Qed.

(** The text from a position on. *)
Definition zdrop (n : Z) (z : list Z) : list Z := drop (Z.to_nat n) z.

Lemma zat_lt z i : 0 <= i -> zat z i <> 0 -> i < zlen z.
Proof.
  intros Hi H. unfold zat, zlen in *. destruct (decide (i < Z.of_nat (length z))); [done|].
  rewrite nth_overflow in H by lia. done.
Qed.

Lemma zlen_zdrop k z : 0 <= k -> zlen (zdrop k z) = Z.max 0 (zlen z - k).
Proof. intros. unfold zlen, zdrop. rewrite length_drop. lia. Qed.

Lemma zat_zdrop k i z : 0 <= k -> 0 <= i -> zat (zdrop k z) i = zat z (k + i).
Proof.
  intros Hk Hi. unfold zat, zdrop. rewrite Z2Nat.inj_add by lia.
  rewrite <- (Nat2Z.id (Z.to_nat i)) at 1. generalize (Z.to_nat i). clear i Hi. intros i.
  rewrite Nat2Z.id. revert z. induction (Z.to_nat k) as [|n IH]; intros z; [by rewrite drop_0|].
  destruct z as [|c z]; [by destruct i|]. apply IH.
Qed.

Lemma zdrop_zdrop a b (l : list Z) : 0 <= a -> 0 <= b -> zdrop b (zdrop a l) = zdrop (a + b) l.
Proof. intros Ha Hb. unfold zdrop. rewrite drop_drop. f_equal. lia. Qed.

Lemma zat_take i l j : 0 <= j -> zat (take (Z.to_nat i) l) j = if decide (j < i) then zat l j else 0.
Proof.
  intros Hj. unfold zat. destruct (decide (j < i)).
  - revert i j Hj l0. induction l as [|x l IH]; intros i j Hj Hl; [by rewrite take_nil|].
    destruct (Z.to_nat i) as [|n] eqn:E; [lia|]. destruct (Z.to_nat j) as [|m] eqn:Em; [done|].
    cbn [take nth]. specialize (IH (Z.of_nat n) (Z.of_nat m)). rewrite !Nat2Z.id in IH. apply IH; lia.
  - apply nth_overflow. rewrite length_take. lia.
Qed.

Lemma tl_zdrop z : tl z = zdrop 1 z.
Proof. unfold zdrop. change (Z.to_nat 1) with 1%nat. destruct z; [done|]. cbn [drop tl]. by rewrite drop_0. Qed.

Lemma zat_app_r l1 l2 i : 0 <= i -> zat (l1 ++ l2) (zlen l1 + i) = zat l2 i.
Proof.
  intros Hi. unfold zat, zlen. rewrite app_nth2 by lia. f_equal. lia.
Qed.

Lemma zdrop_app n l1 l2 : n = zlen l1 -> zdrop n (l1 ++ l2) = l2.
Proof. intros ->. unfold zdrop, zlen. rewrite Nat2Z.id. apply drop_app_length. Qed.

#[export] Hint Resolve zlen_nonneg zat_range : cbytes.

(** ** Fallible, stateful code: a state and error monad *)

(** [Ret] is a normal return, [Throw] an exception that propagates, [NoFuel] a run cut off
    before the code returned (the loop bound given to the definition was too small). *)
Inductive res (E A : Type) : Type :=
  | Ret (a : A)
  | Throw (e : E)
  | NoFuel.

Arguments Ret {E A} a.
Arguments Throw {E A} e.
Arguments NoFuel {E A}.

Definition M (S E A : Type) : Type := S -> res E A * S.

Definition mret {S E A} (a : A) : M S E A := fun s => (Ret a, s).

Definition mthrow {S E A} (e : E) : M S E A := fun s => (Throw e, s).

Definition mbnd {S E A B} (c : M S E A) (k : A -> M S E B) : M S E B := fun s =>
  match c s with
  | (Ret a, s') => k a s'
  | (Throw e, s') => (Throw e, s')
  | (NoFuel, s') => (NoFuel, s')
  end.

(** [try { c } catch (e) { h }] where [h] may decline ([None]) and let [e] propagate. *)
Definition mcatch {S E A} (c : M S E A) (h : E -> option (M S E A)) : M S E A := fun s =>
  match c s with
  | (Throw e, s') =>
      match h e with
      | Some c' => c' s'
      | None => (Throw e, s')
      end
  | r => r
  end.

Notation "'let!' x := c 'in' k" := (mbnd c (fun x => k))
  (at level 10, x binder, c at level 200, k at level 200) : c_scope.
Notation "c1 ';!' c2" := (mbnd c1 (fun _ => c2))
  (at level 100, right associativity) : c_scope.

#[global] Open Scope c_scope.

Section MonadLemmas.
Context {S E : Type}.

Lemma mbnd_ret {A B} (a : A) (k : A -> M S E B) s : mbnd (mret a) k s = k a s.
Proof. reflexivity. Qed.

Lemma mbnd_step {A B} (c : M S E A) (k : A -> M S E B) s a s' :
  c s = (Ret a, s') -> mbnd c k s = k a s'.
Proof. intros H. unfold mbnd. by rewrite H. Qed.

Lemma mbnd_throw {A B} (c : M S E A) (k : A -> M S E B) s e s' :
  c s = (Throw e, s') -> mbnd c k s = (Throw e, s').
Proof. intros H. unfold mbnd. by rewrite H. Qed.

(** A property of the state that every step keeps is kept by their sequence. *)
Lemma mbnd_inv {A B} (P : S -> Prop) (c : M S E A) (k : A -> M S E B) s :
  P (snd (c s)) -> (forall a s', c s = (Ret a, s') -> P s' -> P (snd (k a s'))) ->
  P (snd (mbnd c k s)).
Proof.
  intros Hc Hk. unfold mbnd. destruct (c s) as [[a|e|] s'] eqn:E1; simpl in *; auto.
Qed.

(** Every exception [c] can throw satisfies [P]. *)
Definition throws {A} (P : E -> Prop) (c : M S E A) : Prop :=
  forall s e, fst (c s) = Throw e -> P e.

Lemma throws_ret {A} P (a : A) : throws P (mret a).
Proof. intros s e. done. Qed.

Lemma throws_throw {A} (P : E -> Prop) e : P e -> throws P (@mthrow S E A e).
Proof. intros He s e' H. unfold mthrow in H. simpl in H. by simplify_eq. Qed.

Lemma throws_bnd {A B} P (c : M S E A) (k : A -> M S E B) :
  throws P c -> (forall a, throws P (k a)) -> throws P (mbnd c k).
Proof.
  intros Hc Hk s e. unfold mbnd. specialize (Hc s).
  destruct (c s) as [[a|e'|] s'] eqn:Hcs; simpl in *.
  - apply Hk.
  - intros ?; simplify_eq. by apply Hc.
  - done.
Qed.

Lemma throws_weaken {A} (P Q : E -> Prop) (c : M S E A) :
  throws P c -> (forall e, P e -> Q e) -> throws Q c.
Proof. intros Hc Hpq s e He. by eapply Hpq, Hc. Qed.

(** A handler that takes every exception of [P] leaves only its own and those outside [P]. *)
Lemma throws_catch {A} (P Q : E -> Prop) (c : M S E A) h :
  throws P c -> (forall e c', P e -> h e = Some c' -> throws Q c') ->
  (forall e, P e -> h e = None -> Q e) -> throws Q (mcatch c h).
Proof.
  intros Hc Hh Hn s e. unfold mcatch. specialize (Hc s).
  destruct (c s) as [[a|e'|] s'] eqn:Hcs; simpl in *; [done| |done].
  destruct (h e') as [c'|] eqn:E2.
  - eapply Hh; eauto.
  - simpl. intros ?; simplify_eq. by eapply Hn; eauto.
Qed.
End MonadLemmas.

Create HintDb throws discriminated.
#[export] Hint Resolve throws_ret throws_throw throws_bnd : throws.
