(* ===== verification/Bitwise.v ===== *)
(** * Bit-vector expressions

    The byte-packing code of the database engine (variable-length integers, big-endian words,
    UTF-8, page headers) is built from shifts, masks and disjunctions of bytes.  This file
    holds a reified language of such expressions with a symbolic evaluator of their bits, so
    that an equation between two of them is proved by computation ([bitblast]), and the
    big-endian load and store shared by the engine's files. *)

From S2P Require Import Prelude.
From stdpp Require Import options.

Inductive bexp : Type :=
  | BVar (k : nat)
  | BConst (c : N)
  | BShl (e : bexp) (n : N)
  | BShr (e : bexp) (n : N)
  | BLand (e : bexp) (c : N)
  | BLor (e1 e2 : bexp)
  | BWrap (w : N) (e : bexp).

(** A symbolic bit: true, or the disjunction of the listed (variable, bit index) pairs. *)
Definition sbit : Type := bool * list (nat * Z).

Definition sbit0 : sbit := (false, []).

(** The variables are given with the number of bits each may use. *)
Definition benv : Type := list (Z * N).

Definition env_ok (env : benv) : Prop := Forall (fun vw => 0 <= vw.1 < 2 ^ Z.of_N vw.2) env.

Definition env_val (env : benv) (k : nat) : Z := fst (nth k env (0, 0%N)).

Fixpoint bden (env : benv) (e : bexp) : Z :=
  match e with
  | BVar k => env_val env k
  | BConst c => Z.of_N c
  | BShl e n => Z.shiftl (bden env e) (Z.of_N n)
  | BShr e n => Z.shiftr (bden env e) (Z.of_N n)
  | BLand e c => Z.land (bden env e) (Z.of_N c)
  | BLor e1 e2 => Z.lor (bden env e1) (bden env e2)
  | BWrap w e => wrapu (Z.of_N w) (bden env e)
  end.

Fixpoint bbit (ws : list N) (e : bexp) (i : Z) : sbit :=
  match e with
  | BVar k => if i <? Z.of_N (nth k ws 0%N) then (false, [(k, i)]) else sbit0
  | BConst c => (Z.testbit (Z.of_N c) i, [])
  | BShl e n => if i <? Z.of_N n then sbit0 else bbit ws e (i - Z.of_N n)
  | BShr e n => bbit ws e (i + Z.of_N n)
  | BLand e c => if Z.testbit (Z.of_N c) i then bbit ws e i else sbit0
  | BLor e1 e2 =>
      let b1 := bbit ws e1 i in let b2 := bbit ws e2 i in
      (b1.1 || b2.1, b1.2 ++ b2.2)%bool
  | BWrap w e => if i <? Z.of_N w then bbit ws e i else sbit0
  end.

(** A number of bits no value of the expression exceeds. *)
Fixpoint bwidth (ws : list N) (e : bexp) : Z :=
  match e with
  | BVar k => Z.of_N (nth k ws 0%N)
  | BConst c => Z.of_N (N.size c)
  | BShl e n => bwidth ws e + Z.of_N n
  | BShr e n => bwidth ws e
  | BLand e c => Z.min (bwidth ws e) (Z.of_N (N.size c))
  | BLor e1 e2 => Z.max (bwidth ws e1) (bwidth ws e2)
  | BWrap w e => Z.min (bwidth ws e) (Z.of_N w)
  end.

Definition sbit_den (env : benv) (b : sbit) : bool :=
  (b.1 || existsb (fun kj : nat * Z => Z.testbit (env_val env kj.1) kj.2) b.2)%bool.

Definition pair_eqb (p q : nat * Z) : bool := ((p.1 =? q.1)%nat && (p.2 =? q.2))%bool.

Definition sbit_sub (l1 l2 : list (nat * Z)) : bool :=
  forallb (fun p => existsb (pair_eqb p) l2) l1.

Definition sbit_eqb (b1 b2 : sbit) : bool :=
  ((b1.1 && b2.1) ||
   (Bool.eqb b1.1 b2.1 && sbit_sub b1.2 b2.2 && sbit_sub b2.2 b1.2))%bool.

Definition beqb (ws : list N) (e1 e2 : bexp) : bool :=
  forallb (fun i => sbit_eqb (bbit ws e1 (Z.of_nat i)) (bbit ws e2 (Z.of_nat i)))
    (seq 0 (Z.to_nat (Z.max (bwidth ws e1) (bwidth ws e2)))).

(** ** Soundness *)

Lemma env_ok_var env k : env_ok env ->
  0 <= env_val env k < 2 ^ Z.of_N (nth k (env.*2) 0%N).
Proof.
  intros H. revert k. induction H as [|[v w] env Hv Henv IH]; intros [|k]; simpl in *.
  1,2: (unfold env_val; simpl; lia).
  - unfold env_val; simpl; lia.
  - apply IH.
Qed.

Lemma const_bits c i : Z.of_N (N.size c) <= i -> Z.testbit (Z.of_N c) i = false.
Proof.
  intros Hi. apply testbit_above with (Z.of_N (N.size c)); try lia.
  split; [lia|]. pose proof (N.size_gt c).
  change 2 with (Z.of_N 2). rewrite <- N2Z.inj_pow. lia.
Qed.

Lemma bbit_sound env e i : env_ok env -> 0 <= i ->
  Z.testbit (bden env e) i = sbit_den env (bbit (env.*2) e i).
Proof.
  intros He. revert i. induction e as [k|c|e IH n|e IH n|e IH c|e1 IH1 e2 IH2|w e IH];
    intros i Hi; simpl.
  - case_if; [unfold sbit_den; simpl; by rewrite orb_false_r|].
    eapply testbit_above, Hif; [lia|by apply env_ok_var].
  - unfold sbit_den; simpl. by rewrite orb_false_r.
  - rewrite Z.shiftl_spec by lia. case_if; [by rewrite Z.testbit_neg_r by lia|].
    apply IH; lia.
  - rewrite Z.shiftr_spec by lia. apply IH; lia.
  - rewrite Z.land_spec. destruct (Z.testbit (Z.of_N c) i).
    + rewrite andb_true_r. by apply IH.
    + by rewrite andb_false_r.
  - rewrite Z.lor_spec, IH1, IH2 by lia. unfold sbit_den; simpl.
    rewrite existsb_app. destruct (bbit _ e1 i) as [[] ?], (bbit _ e2 i) as [[] ?];
      simpl; rewrite ?orb_true_r; done.
  - rewrite wrapu_testbit by lia. case_if; simpl; [by apply IH|done].
Qed.

Lemma bwidth_sound env e i : env_ok env -> bwidth (env.*2) e <= i -> 0 <= i ->
  Z.testbit (bden env e) i = false.
Proof.
  intros He. revert i. induction e as [k|c|e IH n|e IH n|e IH c|e1 IH1 e2 IH2|w e IH];
    intros i Hw Hi; simpl in *.
  - eapply testbit_above, Hw; [lia|by apply env_ok_var].
  - by apply const_bits.
  - rewrite Z.shiftl_spec by lia.
    destruct (decide (i - Z.of_N n < 0)); [by apply Z.testbit_neg_r|apply IH; lia].
  - rewrite Z.shiftr_spec by lia. apply IH; lia.
  - rewrite Z.land_spec. destruct (decide (bwidth env.*2 e <= i)).
    + by rewrite IH.
    + rewrite const_bits by lia. apply andb_false_r.
  - rewrite Z.lor_spec, IH1, IH2 by lia. done.
  - rewrite wrapu_testbit by lia. destruct (decide (bwidth env.*2 e <= i)).
    + rewrite IH by lia. apply andb_false_r.
    + destruct (i <? Z.of_N w) eqn:E; breflect; [lia|done].
Qed.

Lemma pair_eqb_eq p q : pair_eqb p q = true -> p = q.
Proof. destruct p, q. unfold pair_eqb; simpl. intros. breflect. by subst. Qed.

Lemma sbit_sub_sound env l1 l2 : sbit_sub l1 l2 = true ->
  existsb (fun kj : nat * Z => Z.testbit (env_val env kj.1) kj.2) l1 = true ->
  existsb (fun kj : nat * Z => Z.testbit (env_val env kj.1) kj.2) l2 = true.
Proof.
  unfold sbit_sub. rewrite forallb_forall, !existsb_exists.
  intros Hsub (p & Hin & Hp). destruct (proj1 (existsb_exists _ _) (Hsub p Hin)) as (q & ? & Hq).
  apply pair_eqb_eq in Hq as ->. eauto.
Qed.

Lemma sbit_eqb_sound env b1 b2 : sbit_eqb b1 b2 = true -> sbit_den env b1 = sbit_den env b2.
Proof.
  destruct b1 as [c1 l1], b2 as [c2 l2]. unfold sbit_eqb, sbit_den; simpl.
  destruct (c1 && c2)%bool eqn:E; simpl; [by destruct c1, c2|].
  intros H. breflect. match goal with H : Bool.eqb _ _ = true |- _ => apply eqb_prop in H as -> end.
  f_equal. apply eq_true_iff_eq; split; by apply sbit_sub_sound.
Qed.

Lemma beqb_sound env e1 e2 : env_ok env ->
  beqb (env.*2) e1 e2 = true -> bden env e1 = bden env e2.
Proof.
  intros He Hb. apply Z.bits_inj'; intros i Hi.
  destruct (decide (Z.max (bwidth env.*2 e1) (bwidth env.*2 e2) <= i)).
  { rewrite !bwidth_sound by (done || lia). done. }
  rewrite !bbit_sound by done. apply sbit_eqb_sound.
  unfold beqb in Hb. rewrite forallb_forall in Hb.
  rewrite <- (Z2Nat.id i) by done. apply Hb, in_seq. lia.
Qed.

(** The value fits the computed number of bits. *)
Lemma bwidth_bound env e n : env_ok env -> 0 <= bwidth (env.*2) e <= n -> 0 <= bden env e ->
  bden env e < 2 ^ n.
Proof.
  intros He Hn Hpos. destruct (decide (bden env e = 0)) as [->|]; [apply Z.pow_pos_nonneg; lia|].
  apply Z.log2_lt_pow2; [lia|]. destruct (decide (Z.log2 (bden env e) < n)); [done|].
  pose proof (bwidth_sound env e (Z.log2 (bden env e)) He) as Hb.
  rewrite Z.bit_log2 in Hb by lia. lia.
Qed.

Lemma bden_nonneg env e : env_ok env -> 0 <= bden env e.
Proof.
  intros He. induction e; simpl.
  - apply env_ok_var with (k := k) in He. lia.
  - lia.
  - by apply Z.shiftl_nonneg.
  - by apply Z.shiftr_nonneg.
  - apply Z.land_nonneg; lia.
  - by apply Z.lor_nonneg.
  - apply wrapu_range; lia.
Qed.

(** ** Reification: the hypotheses [0 <= x < 2 ^ w] of the context give the variables. *)

Ltac env_index x env :=
  lazymatch env with
  | (x, _) :: _ => constr:(O)
  | _ :: ?env' => let n := env_index x env' in constr:(S n)
  end.

Ltac reify env t :=
  lazymatch t with
  | Z.shiftl ?a ?n => let e := reify env a in let n' := eval vm_compute in (Z.to_N n) in constr:(BShl e n')
  | Z.shiftr ?a ?n => let e := reify env a in let n' := eval vm_compute in (Z.to_N n) in constr:(BShr e n')
  | Z.land ?a ?c => let e := reify env a in let c' := eval vm_compute in (Z.to_N c) in constr:(BLand e c')
  | Z.lor ?a ?b => let e1 := reify env a in let e2 := reify env b in constr:(BLor e1 e2)
  | wrapu ?w ?a => let e := reify env a in let w' := eval vm_compute in (Z.to_N w) in constr:(BWrap w' e)
  | Z0 => constr:(BConst 0%N)
  | Zpos ?p => constr:(BConst (Npos p))
  | _ => let k := env_index t env in constr:(BVar k)
  end.

(** Collect the bounded variables of the context. *)
Ltac bound_env env :=
  match goal with
  | H : 0 <= ?x < 2 ^ ?w |- _ =>
      let _ := match goal with _ => is_var x end in
      lazymatch env with
      | context [(x, _)] => fail
      | _ => let w' := eval vm_compute in (Z.to_N w) in bound_env constr:((x, w') :: env)
      end
  | |- _ => env
  end.

Ltac env_ok_tac := repeat (apply Forall_cons; split; [assumption|]); apply Forall_nil_2.

(** Prove an equation of two bit-vector expressions over variables bounded by powers of two. *)
Ltac bitblast :=
  lazymatch goal with
  | |- ?l = ?r =>
      let env := bound_env (@nil (Z * N)) in
      let e1 := reify env l in
      let e2 := reify env r in
      change (bden env e1 = bden env e2);
      apply beqb_sound; [env_ok_tac|vm_compute; reflexivity]
  end.

(** Prove that a bit-vector expression is in [[0, 2 ^ n)]. *)
Ltac bitbound :=
  lazymatch goal with
  | |- 0 <= ?l < 2 ^ ?n =>
      let env := bound_env (@nil (Z * N)) in
      let e1 := reify env l in
      change (0 <= bden env e1 < 2 ^ n);
      let He := fresh in
      assert (env_ok env) as He by env_ok_tac;
      split; [by apply bden_nonneg|];
      apply bwidth_bound; [exact He| |by apply bden_nonneg];
      vm_compute; split; discriminate
  end.

(** The bytes of a concrete list. *)
Ltac solve_bytes :=
  repeat (apply Forall_cons_2; [unfold is_byte; lia|]); apply Forall_nil_2.

(** ** Big-endian words *)

Definition be_value (l : list Z) : Z := fold_left (fun acc b => 256 * acc + b) l 0.

Lemma be_value_app l1 l2 :
  be_value (l1 ++ l2) = be_value l1 * 2 ^ (8 * zlen l2) + be_value l2.
Proof.
  unfold be_value. rewrite fold_left_app. generalize (fold_left (fun acc b => 256 * acc + b) l1 0).
  induction l2 as [|b l2 IH] using rev_ind; intros a; [simpl; change (8 * zlen []) with 0; lia|].
  rewrite !fold_left_app, IH. simpl. rewrite zlen_app.
  replace (8 * (zlen l2 + zlen [b])) with (8 * zlen l2 + 8) by (change (zlen [b]) with 1; lia).
  rewrite Z.pow_add_r by (pose proof (zlen_nonneg l2); lia). lia.
Qed.

Lemma be_value_range l : bytes_ok l -> 0 <= be_value l < 2 ^ (8 * zlen l).
Proof.
  induction l as [|b l IH] using rev_ind; [simpl; change (8 * zlen []) with 0; unfold be_value; simpl; lia|].
  intros [Hl Hb]%Forall_app. apply Forall_inv in Hb. specialize (IH Hl).
  rewrite be_value_app, zlen_app. change (zlen [b]) with 1. unfold is_byte in Hb.
  replace (8 * (zlen l + 1)) with (8 * zlen l + 8) by lia.
  rewrite Z.pow_add_r by (pose proof (zlen_nonneg l); lia).
  change (be_value [b]) with b. lia.
Qed.
