(* ===== verification/Varint.v ===== *)
(** * Variable-length integers and big-endian words (util.c of sqlite3.c)

    Every record header, cell and journal of the database uses these encodings.  The decoder is
    the unrolled one of the source, with its 32-bit accumulators [a], [b], [s] and its masks;
    it is proved equal to the byte-by-byte reading the format describes. *)

From S2P Require Import Prelude Bitwise.
From stdpp Require Import options.

(** ** Writing *)

(** [for(i=7; i>=0; i--){ p[i] = (u8)((v & 0x7f) | 0x80); v >>= 7; }]: [acc] is what is
    already stored to the right. *)
Fixpoint put9_loop (n : nat) (v : Z) (acc : list Z) : list Z :=
  match n with
  | O => acc
  | S n' => put9_loop n' (Z.shiftr v 7) (u8 (Z.lor (Z.land v 0x7f) 0x80) :: acc)
  end.

(** [do{ buf[n++] = (u8)((v & 0x7f) | 0x80); v >>= 7; }while( v!=0 )] *)
Fixpoint put_loop (fuel : nat) (v : Z) (buf : list Z) : option (list Z) :=
  match fuel with
  | O => None
  | S fuel' =>
      let buf' := buf ++ [u8 (Z.lor (Z.land v 0x7f) 0x80)] in
      let v' := Z.shiftr v 7 in
      if negb (v' =? 0) then put_loop fuel' v' buf' else Some buf'
  end.

(** The bytes stored from [p[0]] on; their number is the result. *)
Definition putVarint64 (v : Z) : option (list Z) :=
  if negb (Z.land v (Z.shiftl 0xff000000 32) =? 0) then
    Some (put9_loop 8 (Z.shiftr v 8) [u8 v])
  else
    match put_loop 10 v [] with
    | Some (b0 :: buf) => Some (rev (Z.land b0 0x7f :: buf))
    | _ => None
    end.

Definition sqlite3PutVarint (v : Z) : option (list Z) :=
  if v <=? 0x7f then Some [u8 (Z.land v 0x7f)]
  else if v <=? 0x3fff then
    Some [u8 (Z.lor (Z.land (Z.shiftr v 7) 0x7f) 0x80); u8 (Z.land v 0x7f)]
  else putVarint64 v.

(** ** Reading *)

Definition SLOT_2_0 : Z := 0x001fc07f.
Definition SLOT_4_2_0 : Z := 0xf01fc07f.

(** The number of bytes read and the value.  Each [let] is an assignment of the source. *)
Definition sqlite3GetVarint (p : list Z) : Z * Z :=
  if 0 <=? i8 (zat p 0) then (1, zat p 0) else
  if 0 <=? i8 (zat p 1) then
    (2, Z.lor (u32 (Z.shiftl (Z.land (zat p 0) 0x7f) 7)) (zat p 1)) else
  let a := u32 (Z.shiftl (zat p 0) 14) in
  let b := zat p 1 in
  let a := Z.lor a (zat p 2) in
  if Z.land a 0x80 =? 0 then
    let a := Z.land a SLOT_2_0 in
    let b := Z.land b 0x7f in
    let b := u32 (Z.shiftl b 7) in
    (3, Z.lor a b) else
  let a := Z.land a SLOT_2_0 in
  let b := u32 (Z.shiftl b 14) in
  let b := Z.lor b (zat p 3) in
  if Z.land b 0x80 =? 0 then
    let b := Z.land b SLOT_2_0 in
    let a := u32 (Z.shiftl a 7) in
    (4, Z.lor a b) else
  let b := Z.land b SLOT_2_0 in
  let s := a in
  let a := u32 (Z.shiftl a 14) in
  let a := Z.lor a (zat p 4) in
  if Z.land a 0x80 =? 0 then
    let b := u32 (Z.shiftl b 7) in
    let a := Z.lor a b in
    let s := Z.shiftr s 18 in
    (5, Z.lor (u64 (Z.shiftl s 32)) a) else
  let s := u32 (Z.shiftl s 7) in
  let s := Z.lor s b in
  let b := u32 (Z.shiftl b 14) in
  let b := Z.lor b (zat p 5) in
  if Z.land b 0x80 =? 0 then
    let a := Z.land a SLOT_2_0 in
    let a := u32 (Z.shiftl a 7) in
    let a := Z.lor a b in
    let s := Z.shiftr s 18 in
    (6, Z.lor (u64 (Z.shiftl s 32)) a) else
  let a := u32 (Z.shiftl a 14) in
  let a := Z.lor a (zat p 6) in
  if Z.land a 0x80 =? 0 then
    let a := Z.land a SLOT_4_2_0 in
    let b := Z.land b SLOT_2_0 in
    let b := u32 (Z.shiftl b 7) in
    let a := Z.lor a b in
    let s := Z.shiftr s 11 in
    (7, Z.lor (u64 (Z.shiftl s 32)) a) else
  let a := Z.land a SLOT_2_0 in
  let b := u32 (Z.shiftl b 14) in
  let b := Z.lor b (zat p 7) in
  if Z.land b 0x80 =? 0 then
    let b := Z.land b SLOT_4_2_0 in
    let a := u32 (Z.shiftl a 7) in
    let a := Z.lor a b in
    let s := Z.shiftr s 4 in
    (8, Z.lor (u64 (Z.shiftl s 32)) a) else
  let a := u32 (Z.shiftl a 15) in
  let a := Z.lor a (zat p 8) in
  let b := Z.land b SLOT_2_0 in
  let b := u32 (Z.shiftl b 8) in
  let a := Z.lor a b in
  let s := u32 (Z.shiftl s 4) in
  let b := zat p 4 in
  let b := Z.land b 0x7f in
  let b := Z.shiftr b 3 in
  let s := Z.lor s b in
  (9, Z.lor (u64 (Z.shiftl s 32)) a).

Definition SQLITE_MAX_U32 : Z := 2 ^ 32 - 1.

Definition sqlite3GetVarint32 (p : list Z) : Z * Z :=
  if Z.land (zat p 1) 0x80 =? 0 then
    (2, Z.lor (Z.shiftl (Z.land (zat p 0) 0x7f) 7) (zat p 1))
  else if Z.land (zat p 2) 0x80 =? 0 then
    (3, Z.lor (Z.lor (Z.shiftl (Z.land (zat p 0) 0x7f) 14)
                     (Z.shiftl (Z.land (zat p 1) 0x7f) 7)) (zat p 2))
  else
    let '(n, v64) := sqlite3GetVarint p in
    if negb (Z.land v64 SQLITE_MAX_U32 =? v64) then (n, 0xffffffff) else (n, u32 v64).

(** [for(i=1; (v >>= 7)!=0; i++)] *)
Fixpoint varint_len_loop (fuel : nat) (i v : Z) : option Z :=
  match fuel with
  | O => None
  | S fuel' =>
      let v := Z.shiftr v 7 in
      if negb (v =? 0) then varint_len_loop fuel' (i + 1) v else Some i
  end.

Definition sqlite3VarintLen (v : Z) : option Z := varint_len_loop 10 1 v.

(** ** Four-byte words, the portable branch *)

Definition sqlite3Get4byte (p : list Z) : Z :=
  Z.lor (Z.lor (Z.lor (u32 (Z.shiftl (zat p 0) 24)) (Z.shiftl (zat p 1) 16))
               (Z.shiftl (zat p 2) 8)) (zat p 3).

Definition sqlite3Put4byte (v : Z) : list Z :=
  [u8 (Z.shiftr v 24); u8 (Z.shiftr v 16); u8 (Z.shiftr v 8); u8 v].

(** ** The format, as its description reads

    The low seven bits of each byte whose high bit is set, then the byte whose high bit is
    clear; the ninth byte, if it is reached, gives all its eight bits. *)
Fixpoint varint_ref (left : nat) (p : list Z) (i acc : Z) : Z * Z :=
  match left with
  | O => (i + 1, Z.lor (Z.shiftl acc 8) (zat p i))
  | S left' =>
      let acc' := Z.lor (Z.shiftl acc 7) (Z.land (zat p i) 0x7f) in
      if zat p i <? 128 then (i + 1, acc') else varint_ref left' p (i + 1) acc'
  end.

Definition varint_spec (p : list Z) : Z * Z := varint_ref 8 p 0 0.

(** ** Lemmas *)

Lemma byte_sign b : 0 <= b < 2 ^ 8 -> (0 <=? i8 b) = (b <? 128).
Proof.
  intros Hb. unfold wraps. change (2 ^ (8 - 1)) with 128. change (2 ^ 8) with 256 in *.
  destruct (b <? 128) eqn:E; breflect.
  - rewrite Z.mod_small by lia. apply Z.leb_le. lia.
  - replace (b + 128) with (b - 128 + 1 * 256) by lia.
    rewrite Z.mod_add, Z.mod_small by lia. apply Z.leb_gt. lia.
Qed.

Lemma high_bit b : 0 <= b < 2 ^ 8 -> (Z.land b 0x80 =? 0) = (b <? 128).
Proof.
  intros Hb. destruct (b <? 128) eqn:E; breflect.
  - assert (0 <= b < 2 ^ 7) as Hb' by (change (2 ^ 7) with 128; lia). clear Hb.
    apply Z.eqb_eq. bitblast.
  - apply Z.eqb_neq. intros H0.
    assert (Z.testbit (Z.land b 128) 7 = false) as H1 by (rewrite H0; done).
    rewrite Z.land_spec in H1. change (Z.testbit 128 7) with true in H1. rewrite andb_true_r in H1.
    assert (b = Z.land b 127) as H2.
    { apply Z.bits_inj'; intros i Hi. rewrite Z.land_spec.
      change 127 with (Z.ones 7). rewrite ones_testbit by lia.
      destruct (i <? 7) eqn:E2; breflect; [by rewrite andb_true_r|]. rewrite andb_false_r.
      destruct (decide (i = 7)) as [->|]; [done|]. apply testbit_above with 8; lia. }
    change 127 with (Z.ones 7) in H2. rewrite Z.land_ones in H2 by lia.
    pose proof (Z.mod_pos_bound b (2 ^ 7)). change (2 ^ 7) with 128 in *. lia.
Qed.

Lemma zat_byte p i : bytes_ok p -> 0 <= zat p i < 2 ^ 8.
Proof. intros H. apply (zat_range p i) in H. unfold is_byte in H. lia. Qed.

(** The bounds of a byte whose high bit is clear; one test of the unrolled decoder. *)
Ltac byte7 H :=
  lazymatch type of H with
  | 0 <= ?b < _ => let H' := fresh in
      assert (0 <= b < 2 ^ 7) as H' by (change (2 ^ 7) with 128; lia); clear H
  end.

Ltac varint_step b Hb :=
  match goal with
  | |- context [Z.land ?e 128 =? 0] =>
      replace (Z.land e 128) with (Z.land b 128) by bitblast;
      rewrite (high_bit b Hb)
  end;
  destruct (b <? 128) eqn:?; breflect; [byte7 Hb; f_equal; bitblast|].

Lemma varint_unrolled p : bytes_ok p -> sqlite3GetVarint p = varint_spec p.
Proof.
  intros Hp. unfold sqlite3GetVarint, varint_spec. cbv beta iota delta [varint_ref].
  change (0 + 1) with 1; change (1 + 1) with 2; change (2 + 1) with 3; change (3 + 1) with 4;
  change (4 + 1) with 5; change (5 + 1) with 6; change (6 + 1) with 7; change (7 + 1) with 8;
  change (8 + 1) with 9.
  pose proof (zat_byte p 0 Hp) as H0. pose proof (zat_byte p 1 Hp) as H1.
  pose proof (zat_byte p 2 Hp) as H2. pose proof (zat_byte p 3 Hp) as H3.
  pose proof (zat_byte p 4 Hp) as H4. pose proof (zat_byte p 5 Hp) as H5.
  pose proof (zat_byte p 6 Hp) as H6. pose proof (zat_byte p 7 Hp) as H7.
  pose proof (zat_byte p 8 Hp) as H8.
  revert H0 H1 H2 H3 H4 H5 H6 H7 H8.
  generalize (zat p 0) (zat p 1) (zat p 2) (zat p 3) (zat p 4) (zat p 5) (zat p 6) (zat p 7) (zat p 8).
  intros p0 p1 p2 p3 p4 p5 p6 p7 p8 H0 H1 H2 H3 H4 H5 H6 H7 H8. clear Hp.
  unfold SLOT_2_0, SLOT_4_2_0. cbv zeta.
  rewrite (byte_sign p0 H0). destruct (p0 <? 128) eqn:?; breflect; [byte7 H0; f_equal; bitblast|].
  rewrite (byte_sign p1 H1). destruct (p1 <? 128) eqn:?; breflect; [byte7 H1; f_equal; bitblast|].
  varint_step p2 H2. varint_step p3 H3. varint_step p4 H4. varint_step p5 H5. varint_step p6 H6. varint_step p7 H7.
  f_equal. bitblast.
Qed.

(** *** The encoder, by number of groups *)

Definition varint_enc (n : nat) (v : Z) : list Z :=
  put9_loop (n - 1) (Z.shiftr v 7) [Z.land v 0x7f].

Lemma put9_app n v acc : put9_loop n v acc = put9_loop n v [] ++ acc.
Proof.
  revert v acc. induction n as [|n IH]; intros v acc; simpl; [done|].
  rewrite IH, (IH _ [_]), <- app_assoc. done.
Qed.

Lemma put9_length n v acc : length (put9_loop n v acc) = (n + length acc)%nat.
Proof. revert v acc. induction n as [|n IH]; intros; simpl; [done|]. rewrite IH; simpl; lia. Qed.

Lemma low7_range v : 0 <= Z.land v 127 < 128.
Proof. change 127 with (Z.ones 7). rewrite Z.land_ones by lia. apply Z.mod_pos_bound. lia. Qed.

Lemma group_byte v : u8 (Z.lor (Z.land v 127) 128) = 128 + Z.land v 127.
Proof.
  pose proof (low7_range v) as Hx. generalize dependent (Z.land v 127). intros x Hx.
  assert (Z.lor x 128 = x + 128) as ->.
  { rewrite <- Z.lxor_lor, Z.add_nocarry_lxor; [done| |].
    all: apply Z.bits_inj'; intros i Hi; rewrite Z.land_spec, Z.bits_0;
      change 128 with (2 ^ 7); destruct (decide (i = 7)) as [->|];
      [rewrite (testbit_above x 7); [done|lia|change (2 ^ 7) with 128; lia|lia]
      |rewrite Z.pow2_bits_false by lia; apply andb_false_r]. }
  rewrite wrapu_small by (pow2; lia). lia.
Qed.

Lemma land_group v : Z.land (128 + Z.land v 127) 127 = Z.land v 127.
Proof.
  change 127 with (Z.ones 7). rewrite !Z.land_ones by lia. change (2 ^ 7) with 128.
  replace (128 + v mod 128) with (v mod 128 + 1 * 128) by lia.
  by rewrite Z.mod_add, Z.mod_mod by lia.
Qed.

Lemma zlen_put4 v : zlen (sqlite3Put4byte v) = 4.
Proof. done. Qed.

Lemma zat_app pre b rest : zat (pre ++ b :: rest) (zlen pre) = b.
Proof. unfold zat, zlen. rewrite Nat2Z.id, app_nth2, Nat.sub_diag by lia. done. Qed.

Lemma put9_ok n v acc : bytes_ok acc -> bytes_ok (put9_loop n v acc).
Proof.
  revert v acc. induction n as [|n IH]; intros v acc Hacc; simpl; [done|].
  apply IH. constructor; [|done]. rewrite group_byte. pose proof (low7_range v).
  unfold is_byte. lia.
Qed.

Lemma shiftl_lor_shiftr v acc n : 0 <= n ->
  Z.lor (Z.shiftl (Z.lor (Z.shiftl acc n) (Z.shiftr v 7)) 7) (Z.land v 127) =
  Z.lor (Z.shiftl acc (n + 7)) v.
Proof.
  intros Hn. apply Z.bits_inj'; intros i Hi.
  change 127 with (Z.ones 7). rewrite !Z.lor_spec, Z.land_spec, ones_testbit, !Z.shiftl_spec by lia.
  destruct (decide (i < 7)).
  - rewrite (Z.testbit_neg_r _ (i - 7)), (Z.testbit_neg_r _ (i - (n + 7))) by lia.
    rewrite (proj2 (Z.ltb_lt i 7)) by lia. by rewrite andb_true_r.
  - rewrite Z.lor_spec, Z.shiftl_spec, Z.shiftr_spec by lia.
    rewrite (proj2 (Z.ltb_ge i 7)), andb_false_r, orb_false_r by lia.
    f_equal; f_equal; lia.
Qed.

(** Reading [n] groups with the high bit set moves [n] bytes on and appends their bits. *)
Lemma read_groups n : forall left v pre rest acc,
  (n <= left)%nat -> 0 <= v < 2 ^ (7 * Z.of_nat n) ->
  varint_ref left (pre ++ put9_loop n v [] ++ rest) (zlen pre) acc =
  varint_ref (left - n) (pre ++ put9_loop n v [] ++ rest) (zlen pre + Z.of_nat n)
    (Z.lor (Z.shiftl acc (7 * Z.of_nat n)) v).
Proof.
  induction n as [|n IH]; intros left v pre rest acc Hn Hv.
  { replace v with 0 by (change (2 ^ (7 * Z.of_nat 0)) with 1 in Hv; lia).
    rewrite Nat.sub_0_r, Z.lor_0_r, Z.shiftl_0_r, Z.add_0_r. done. }
  cbn [put9_loop]. rewrite put9_app, <- app_assoc.
  assert (0 <= Z.shiftr v 7 < 2 ^ (7 * Z.of_nat n)) as Hv'.
  { rewrite Z.shiftr_div_pow2 by lia. split; [apply Z.div_pos; lia|].
    apply Z.div_lt_upper_bound; [lia|]. rewrite <- Z.pow_add_r by lia.
    replace (7 + 7 * Z.of_nat n) with (7 * Z.of_nat (S n)) by lia. lia. }
  rewrite IH by lia. destruct (left - n)%nat as [|m] eqn:Em; [lia|].
  replace (left - S n)%nat with m by lia. cbn [varint_ref].
  assert (zat (pre ++ put9_loop n (Z.shiftr v 7) [] ++ [u8 (Z.lor (Z.land v 127) 128)] ++ rest)
            (zlen pre + Z.of_nat n) = 128 + Z.land v 127) as ->.
  { rewrite app_assoc. replace (zlen pre + Z.of_nat n) with (zlen (pre ++ put9_loop n (Z.shiftr v 7) [])).
    - cbn [app]. rewrite zat_app. apply group_byte.
    - rewrite zlen_app. unfold zlen at 2. rewrite put9_length; simpl. lia. }
  pose proof (low7_range v) as Hl. rewrite (proj2 (Z.ltb_ge _ 128)) by lia.
  f_equal; [lia|].
  rewrite land_group.
  rewrite shiftl_lor_shiftr by lia. f_equal; f_equal; lia.
Qed.

Lemma varint_enc_read n v rest : (1 <= n <= 8)%nat -> 0 <= v < 2 ^ (7 * Z.of_nat n) ->
  varint_spec (varint_enc n v ++ rest) = (Z.of_nat n, v).
Proof.
  intros Hn Hv. unfold varint_spec, varint_enc. rewrite put9_app, <- app_assoc.
  assert (0 <= Z.shiftr v 7 < 2 ^ (7 * Z.of_nat (n - 1))) as Hv'.
  { rewrite Z.shiftr_div_pow2 by lia. split; [apply Z.div_pos; lia|].
    apply Z.div_lt_upper_bound; [lia|]. rewrite <- Z.pow_add_r by lia.
    replace (7 + 7 * Z.of_nat (n - 1)) with (7 * Z.of_nat n) by lia. lia. }
  pose proof (read_groups (n - 1) 8 (Z.shiftr v 7) [] ([Z.land v 127] ++ rest) 0) as E.
  cbn [app] in E. change (zlen []) with 0 in E. cbn [app]. rewrite E by lia. clear E.
  destruct (8 - (n - 1))%nat as [|m] eqn:Em; [lia|]. cbn [varint_ref].
  assert (zat (put9_loop (n - 1) (Z.shiftr v 7) [] ++ Z.land v 127 :: rest)
            (0 + Z.of_nat (n - 1)) = Z.land v 127) as ->.
  { replace (0 + Z.of_nat (n - 1)) with (zlen (put9_loop (n - 1) (Z.shiftr v 7) [])).
    - apply zat_app.
    - unfold zlen. rewrite put9_length; simpl. lia. }
  pose proof (low7_range v) as Hl. rewrite (proj2 (Z.ltb_lt _ 128)) by lia.
  f_equal; [lia|]. rewrite <- Z.land_assoc. change (Z.land 127 127) with 127.
  rewrite shiftl_lor_shiftr by lia. by rewrite Z.shiftl_0_l, Z.lor_0_l.
Qed.

Lemma varint_enc9_read v rest : 0 <= v < 2 ^ 64 ->
  varint_spec (put9_loop 8 (Z.shiftr v 8) [u8 v] ++ rest) = (9, v).
Proof.
  intros Hv. unfold varint_spec. rewrite put9_app, <- app_assoc.
  pose proof (read_groups 8 8 (Z.shiftr v 8) [] ([u8 v] ++ rest) 0) as E.
  cbn [app] in E. change (zlen []) with 0 in E. cbn [app]. rewrite E; [|lia|].
  2: { rewrite Z.shiftr_div_pow2 by lia. split; [apply Z.div_pos; lia|].
       apply Z.div_lt_upper_bound; [lia|]. rewrite <- Z.pow_add_r by lia.
       change (8 + 7 * Z.of_nat 8) with 64. lia. }
  clear E. cbn [varint_ref Nat.sub].
  replace (0 + Z.of_nat 8) with (zlen (put9_loop 8 (Z.shiftr v 8) []))
    by (unfold zlen; by rewrite put9_length).
  rewrite zat_app. f_equal.
  rewrite Z.shiftl_0_l, Z.lor_0_l. bitblast.
Qed.

(** The number of seven-bit groups of a value that needs at most eight. *)
Lemma groups_exist v : 0 <= v < 2 ^ 56 ->
  exists n, (1 <= n <= 8)%nat /\ 0 <= v < 2 ^ (7 * Z.of_nat n) /\
            (n = 1%nat \/ 2 ^ (7 * Z.of_nat (n - 1)) <= v).
Proof.
  intros Hv.
  destruct (decide (v < 2 ^ 7)); [exists 1%nat; simpl; lia|].
  destruct (decide (v < 2 ^ 14)); [exists 2%nat; simpl; lia|].
  destruct (decide (v < 2 ^ 21)); [exists 3%nat; simpl; lia|].
  destruct (decide (v < 2 ^ 28)); [exists 4%nat; simpl; lia|].
  destruct (decide (v < 2 ^ 35)); [exists 5%nat; simpl; lia|].
  destruct (decide (v < 2 ^ 42)); [exists 6%nat; simpl; lia|].
  destruct (decide (v < 2 ^ 49)); [exists 7%nat; simpl; lia|].
  exists 8%nat; simpl; lia.
Qed.

Lemma shiftr7_groups n v : (1 < n)%nat -> 2 ^ (7 * Z.of_nat (n - 1)) <= v < 2 ^ (7 * Z.of_nat n) ->
  2 ^ (7 * Z.of_nat (n - 1 - 1)) <= Z.shiftr v 7 < 2 ^ (7 * Z.of_nat (n - 1)).
Proof.
  intros Hn Hv. rewrite Z.shiftr_div_pow2 by lia. split.
  - apply Z.div_le_lower_bound; [lia|]. rewrite <- Z.pow_add_r by lia.
    replace (7 + 7 * Z.of_nat (n - 1 - 1)) with (7 * Z.of_nat (n - 1)) by lia. lia.
  - apply Z.div_lt_upper_bound; [lia|]. rewrite <- Z.pow_add_r by lia.
    replace (7 + 7 * Z.of_nat (n - 1)) with (7 * Z.of_nat n) by lia. lia.
Qed.

Lemma shiftr7_zero v : 0 <= v < 2 ^ 7 -> Z.shiftr v 7 = 0.
Proof. intros. rewrite Z.shiftr_div_pow2 by lia. by apply Z.div_small. Qed.

Lemma put_loop_spec n : forall fuel v buf, (n <= fuel)%nat -> (1 <= n)%nat ->
  0 <= v < 2 ^ (7 * Z.of_nat n) -> (n = 1%nat \/ 2 ^ (7 * Z.of_nat (n - 1)) <= v) ->
  put_loop fuel v buf = Some (buf ++ rev (put9_loop n v [])).
Proof.
  induction n as [|n IH]; intros fuel v buf Hf H1 Hv Hlo; [lia|].
  destruct fuel as [|fuel]; [lia|]. cbn [put_loop put9_loop].
  rewrite put9_app, rev_app_distr. cbn [rev app].
  destruct n as [|n].
  - rewrite shiftr7_zero by (change (7 * Z.of_nat 1) with 7 in Hv; lia). done.
  - destruct Hlo as [|Hlo]; [lia|].
    pose proof (shiftr7_groups (S (S n)) v) as Hs. specialize (Hs ltac:(lia) ltac:(lia)).
    replace (S (S n) - 1)%nat with (S n) in Hs by lia.
    assert (0 < 2 ^ (7 * Z.of_nat (S n - 1))) by (apply Z.pow_pos_nonneg; lia).
    rewrite (proj2 (Z.eqb_neq _ 0)) by lia. cbn [negb].
    rewrite IH by lia. rewrite <- app_assoc. done.
Qed.

Lemma varint_len_spec n : forall fuel v i, (n <= fuel)%nat -> (1 <= n)%nat ->
  0 <= v < 2 ^ (7 * Z.of_nat n) -> (n = 1%nat \/ 2 ^ (7 * Z.of_nat (n - 1)) <= v) ->
  varint_len_loop fuel i v = Some (i + Z.of_nat n - 1).
Proof.
  induction n as [|n IH]; intros fuel v i Hf H1 Hv Hlo; [lia|].
  destruct fuel as [|fuel]; [lia|]. cbn [varint_len_loop].
  destruct n as [|n].
  - rewrite shiftr7_zero by (change (7 * Z.of_nat 1) with 7 in Hv; lia). simpl. f_equal; lia.
  - destruct Hlo as [|Hlo]; [lia|].
    pose proof (shiftr7_groups (S (S n)) v) as Hs. specialize (Hs ltac:(lia) ltac:(lia)).
    replace (S (S n) - 1)%nat with (S n) in Hs by lia.
    assert (0 < 2 ^ (7 * Z.of_nat (S n - 1))) by (apply Z.pow_pos_nonneg; lia).
    rewrite (proj2 (Z.eqb_neq _ 0)) by lia. cbn [negb].
    rewrite IH by lia. f_equal; lia.
Qed.

Lemma u8_low7 v : u8 (Z.land v 127) = Z.land v 127.
Proof. apply wrapu_small. pose proof (low7_range v). pow2. lia. Qed.

(** The encoder writes the groups of the value, most significant first. *)
Lemma put_enc n v : (1 <= n <= 8)%nat -> 0 <= v < 2 ^ (7 * Z.of_nat n) ->
  (n = 1%nat \/ 2 ^ (7 * Z.of_nat (n - 1)) <= v) -> sqlite3PutVarint v = Some (varint_enc n v).
Proof.
  intros Hn Hv Hlo. unfold sqlite3PutVarint, varint_enc.
  destruct (v <=? 127) eqn:E1; breflect.
  { assert (n = 1%nat) as ->.
    { destruct Hlo as [|Hlo]; [done|]. destruct (decide (n = 1%nat)); [done|].
      assert (2 ^ 7 <= 2 ^ (7 * Z.of_nat (n - 1))) by (apply Z.pow_le_mono_r; lia).
      change (2 ^ 7) with 128 in *. lia. }
    cbn [put9_loop Nat.sub]. by rewrite u8_low7. }
  destruct (v <=? 16383) eqn:E2; breflect.
  { assert (n = 2%nat) as ->.
    { destruct (decide (n <= 1)%nat).
      - replace n with 1%nat in Hv by lia. change (2 ^ (7 * Z.of_nat 1)) with 128 in Hv. lia.
      - destruct Hlo as [|Hlo]; [lia|]. destruct (decide (n = 2%nat)); [done|].
        assert (2 ^ 14 <= 2 ^ (7 * Z.of_nat (n - 1))) by (apply Z.pow_le_mono_r; lia).
        change (2 ^ 14) with 16384 in *. lia. }
    cbn [put9_loop Nat.sub]. by rewrite u8_low7. }
  unfold putVarint64.
  assert (v < 2 ^ 56) as Hv56.
  { assert (2 ^ (7 * Z.of_nat n) <= 2 ^ 56) by (apply Z.pow_le_mono_r; lia). lia. }
  assert (Z.land v (Z.shiftl 4278190080 32) = 0) as ->.
  { assert (0 <= v < 2 ^ 56) by lia. clear Hv Hlo Hv56. bitblast. }
  cbn [Z.eqb negb]. rewrite (put_loop_spec n) by lia. cbn [app].
  destruct n as [|n]; [lia|]. cbn [put9_loop]. rewrite put9_app, rev_app_distr. cbn [rev app].
  rewrite rev_involutive, (put9_app _ _ [Z.land v 127]).
  replace (S n - 1)%nat with n by lia. do 3 f_equal.
  by rewrite group_byte, land_group.
Qed.

Lemma put_enc9 v : 2 ^ 56 <= v < 2 ^ 64 ->
  sqlite3PutVarint v = Some (put9_loop 8 (Z.shiftr v 8) [u8 v]).
Proof.
  intros Hv. unfold sqlite3PutVarint.
  rewrite (proj2 (Z.leb_gt _ 127)), (proj2 (Z.leb_gt _ 16383)) by lia.
  unfold putVarint64.
  assert (Z.land v (Z.shiftl 4278190080 32) <> 0) as Hne.
  { intros H0. assert (v = Z.land v (Z.ones 56)) as H1.
    { assert (v = Z.lor (Z.land v (Z.shiftl 4278190080 32)) (Z.land v (Z.ones 56))) as E.
      { assert (0 <= v < 2 ^ 64) by lia. clear Hv H0.
        change (Z.ones 56) with 72057594037927935. bitblast. }
      rewrite H0, Z.lor_0_l in E. done. }
    rewrite Z.land_ones in H1 by lia. pose proof (Z.mod_pos_bound v (2 ^ 56)). lia. }
  rewrite (proj2 (Z.eqb_neq _ 0)) by done. done.
Qed.

Lemma varint_len_big v : 2 ^ 56 <= v < 2 ^ 64 ->
  sqlite3VarintLen v = Some (if v <? 2 ^ 63 then 9 else 10).
Proof.
  intros Hv. unfold sqlite3VarintLen. destruct (v <? 2 ^ 63) eqn:E; breflect.
  - rewrite (varint_len_spec 9); [done|lia|lia| |right];
      (change (7 * Z.of_nat 9) with 63 || change (7 * Z.of_nat (9 - 1)) with 56); lia.
  - rewrite (varint_len_spec 10); [done|lia|lia| |right].
    + change (7 * Z.of_nat 10) with 70. lia.
    + change (7 * Z.of_nat (10 - 1)) with 63. lia.
Qed.

Lemma varint_enc_ok n v : (1 <= n)%nat ->
  bytes_ok (varint_enc n v) /\ zlen (varint_enc n v) = Z.of_nat n.
Proof.
  intros Hn. unfold varint_enc. split.
  - apply put9_ok. constructor; [|done]. pose proof (low7_range v). unfold is_byte. lia.
  - unfold zlen. rewrite put9_length; simpl. lia.
Qed.

(** Writing and reading back, the shared lemma. *)
Lemma varint_written v rest : 0 <= v < 2 ^ 64 -> bytes_ok rest ->
  exists bs, sqlite3PutVarint v = Some bs /\ bytes_ok bs /\ 1 <= zlen bs <= 9 /\
    sqlite3GetVarint (bs ++ rest) = (zlen bs, v) /\
    sqlite3VarintLen v = Some (if v <? 2 ^ 63 then zlen bs else 10).
Proof.
  intros Hv Hrest. destruct (decide (v < 2 ^ 56)).
  - destruct (groups_exist v) as (n & Hn & Hr & Hlo); [lia|].
    destruct (varint_enc_ok n v) as [Hok Hlen]; [lia|].
    exists (varint_enc n v). rewrite Hlen, (put_enc n) by done.
    split_and!; try lia; try done.
    + rewrite varint_unrolled by (by apply Forall_app). apply varint_enc_read; lia.
    + rewrite (proj2 (Z.ltb_lt _ _)) by lia. unfold sqlite3VarintLen.
      rewrite (varint_len_spec n) by lia. f_equal; lia.
  - exists (put9_loop 8 (Z.shiftr v 8) [u8 v]).
    assert (bytes_ok (put9_loop 8 (Z.shiftr v 8) [u8 v])) as Hok.
    { apply put9_ok. constructor; [apply wrapu_range; lia|done]. }
    assert (zlen (put9_loop 8 (Z.shiftr v 8) [u8 v]) = 9) as Hlen
      by (unfold zlen; by rewrite put9_length).
    rewrite Hlen, put_enc9, varint_len_big by lia. split_and!; try done.
    rewrite varint_unrolled by (by apply Forall_app). apply varint_enc9_read; lia.
Qed.

(** C32: an integer written with [sqlite3PutVarint] takes one to nine bytes and
    [sqlite3GetVarint] reads exactly those bytes and the same integer back, whatever follows
    them.  [sqlite3VarintLen] gives their number up to [2^63]; from there on it answers ten,
    one more than is ever written. *)
Theorem varint_roundtrip v rest : 0 <= v < 2 ^ 64 -> bytes_ok rest ->
  exists bs, sqlite3PutVarint v = Some bs /\ bytes_ok bs /\ 1 <= zlen bs <= 9 /\
    sqlite3GetVarint (bs ++ rest) = (zlen bs, v) /\
    sqlite3VarintLen v = Some (if v <? 2 ^ 63 then zlen bs else 10).
Proof. apply varint_written. Qed.

Lemma varint_roundtrip_witness :
  (0 <= 300 < 2 ^ 64 /\ bytes_ok [7]) /\
  exists bs, sqlite3PutVarint 300 = Some bs /\ bytes_ok bs /\ 1 <= zlen bs <= 9 /\
    sqlite3GetVarint (bs ++ [7]) = (zlen bs, 300) /\
    sqlite3VarintLen 300 = Some (if 300 <? 2 ^ 63 then zlen bs else 10).
Proof.
  assert (bytes_ok [7]) by solve_bytes.
  split; [split; [lia|done]|]. apply varint_roundtrip; [lia|done].
Defined.

Lemma varint_ref_nonneg left : forall p i acc, bytes_ok p -> 0 <= acc ->
  0 <= (varint_ref left p i acc).2.
Proof.
  induction left as [|left IH]; intros p i acc Hp Hacc; cbn [varint_ref].
  - cbn [snd]. apply Z.lor_nonneg. split; [by apply Z.shiftl_nonneg|].
    pose proof (zat_byte p i Hp). lia.
  - assert (0 <= Z.lor (Z.shiftl acc 7) (Z.land (zat p i) 0x7f)).
    { apply Z.lor_nonneg. split; [by apply Z.shiftl_nonneg|]. apply Z.land_nonneg. lia. }
    case_if; [done|]. by apply IH.
Qed.

(** Both decoders read the format. *)
Lemma getvarint_spec p : bytes_ok p -> 128 <= zat p 0 ->
  sqlite3GetVarint p = varint_spec p /\
  sqlite3GetVarint32 p = ((varint_spec p).1, Z.min (varint_spec p).2 0xffffffff).
Proof.
  intros Hp Hhi. rewrite <- varint_unrolled by done. split; [done|].
  pose proof (zat_byte p 0 Hp) as H0. pose proof (zat_byte p 1 Hp) as H1.
  pose proof (zat_byte p 2 Hp) as H2.
  unfold sqlite3GetVarint32. rewrite (high_bit (zat p 1)), (high_bit (zat p 2)) by done.
  assert (forall v64, 0 <= v64 -> (if negb (Z.land v64 SQLITE_MAX_U32 =? v64) then 0xffffffff
            else u32 v64) = Z.min v64 0xffffffff) as Hsat.
  { intros v64 Hnn. unfold SQLITE_MAX_U32. change (2 ^ 32 - 1) with (Z.ones 32). rewrite Z.land_ones by lia. unfold wrapu. pow2.
    case_if; [rewrite Z.min_r; [done|]|rewrite Z.min_l; [done|]].
    - destruct (decide (v64 < 4294967296)); [|lia]. rewrite Z.mod_small in Hif by lia. done.
    - pose proof (Z.mod_pos_bound v64 4294967296). lia. }
  destruct (zat p 1 <? 128) eqn:E1; [|destruct (zat p 2 <? 128) eqn:E2].
  - breflect. rewrite varint_unrolled by done. unfold varint_spec. cbn [varint_ref].
    change (0 + 1) with 1. rewrite (proj2 (Z.ltb_ge _ _)), (proj2 (Z.ltb_lt _ _)) by lia.
    cbn [fst snd]. revert H0 H1 H2 E1. generalize (zat p 0) (zat p 1) (zat p 2).
    intros p0 p1 p2 H0 H1 H2 E1. byte7 H1. clear Hhi E1.
    assert (0 <= Z.lor (Z.shiftl (Z.land p0 127) 7) p1 < 2 ^ 14) as Hb by bitbound.
    replace (Z.lor _ (Z.land p1 127)) with (Z.lor (Z.shiftl (Z.land p0 127) 7) p1) by bitblast.
    rewrite Z.min_l by (change (2 ^ 14) with 16384 in Hb; lia). done.
  - breflect. rewrite varint_unrolled by done. unfold varint_spec. cbn [varint_ref].
    change (0 + 1) with 1; change (1 + 1) with 2.
    rewrite !(proj2 (Z.ltb_ge _ _)), (proj2 (Z.ltb_lt _ _)) by lia.
    cbn [fst snd]. revert H0 H1 H2 E2. generalize (zat p 0) (zat p 1) (zat p 2).
    intros p0 p1 p2 H0 H1 H2 E2. byte7 H2. clear Hhi E1 E2.
    assert (0 <= Z.lor (Z.lor (Z.shiftl (Z.land p0 127) 14) (Z.shiftl (Z.land p1 127) 7)) p2
      < 2 ^ 21) as Hb by bitbound.
    replace (Z.lor _ (Z.land p2 127)) with
      (Z.lor (Z.lor (Z.shiftl (Z.land p0 127) 14) (Z.shiftl (Z.land p1 127) 7)) p2) by bitblast.
    rewrite Z.min_l by (change (2 ^ 21) with 2097152 in Hb; lia). done.
  - assert (0 <= (sqlite3GetVarint p).2) as Hnn.
    { rewrite varint_unrolled by done. apply varint_ref_nonneg; [done|lia]. }
    destruct (sqlite3GetVarint p) as [n v64]. cbn [fst snd] in *.
    rewrite <- Hsat by done. by destruct (negb _).
Qed.

(** The unrolled decoder reads what the format says, and its 32-bit form reads the same
    bytes and the value saturated at [0xffffffff] (its caller has handled the one-byte case). *)
Theorem getvarint_reads_format p : bytes_ok p -> 128 <= zat p 0 ->
  sqlite3GetVarint p = varint_spec p /\
  sqlite3GetVarint32 p = ((varint_spec p).1, Z.min (varint_spec p).2 0xffffffff).
Proof. apply getvarint_spec. Qed.

Lemma getvarint_reads_format_witness :
  (bytes_ok [0x90; 0x80; 0x80; 0x80; 0x00] /\ 128 <= zat [0x90; 0x80; 0x80; 0x80; 0x00] 0) /\
  sqlite3GetVarint [0x90; 0x80; 0x80; 0x80; 0x00] = varint_spec [0x90; 0x80; 0x80; 0x80; 0x00] /\
  sqlite3GetVarint32 [0x90; 0x80; 0x80; 0x80; 0x00] = (5, 0xffffffff).
Proof.
  assert (bytes_ok [0x90; 0x80; 0x80; 0x80; 0x00]) as H
    by solve_bytes.
  assert (128 <= zat [0x90; 0x80; 0x80; 0x80; 0x00] 0) as H0 by (vm_compute; discriminate).
  split; [done|]. exact (getvarint_reads_format _ H H0).
Defined.

(** The macro [getVarint32]. *)
Definition getVarint32 (p : list Z) : Z * Z :=
  if zat p 0 <? 0x80 then (1, zat p 0) else sqlite3GetVarint32 p.

(** A 32-bit value written as a varint is read back by the macro. *)
Lemma varint32_written v rest : 0 <= v < 2 ^ 32 -> bytes_ok rest ->
  exists bs, sqlite3PutVarint v = Some bs /\ bytes_ok bs /\ sqlite3VarintLen v = Some (zlen bs) /\ 1 <= zlen bs <= 9 /\
    getVarint32 (bs ++ rest) = (zlen bs, v) /\ (v < 128 -> bs = [v]) /\
    (zat (bs ++ rest) 0 < 128 <-> v < 128).
Proof.
  intros Hv Hrest. destruct (varint_written v rest) as (bs & Hp & Hok & Hlen & Hg & Hl); [|done|].
  { change (2 ^ 64) with (2 ^ 32 * 2 ^ 32). lia. }
  assert (bytes_ok (bs ++ rest)) as Hall by (by apply Forall_app).
  rewrite varint_unrolled in Hg by done.
  pose proof (zat_byte _ 0 Hall) as H0.
  assert (sqlite3VarintLen v = Some (zlen bs)) as Hl'.
  { rewrite Hl, (proj2 (Z.ltb_lt _ _)); [done|]. change (2 ^ 63) with (2 ^ 31 * 2 ^ 32). lia. }
  assert (zat (bs ++ rest) 0 < 128 -> zlen bs = 1 /\ v = zat (bs ++ rest) 0) as Hsmall.
  { intros Hlt. unfold varint_spec in Hg. cbn [varint_ref] in Hg. rewrite (proj2 (Z.ltb_lt _ _)) in Hg by done.
    injection Hg as <- <-. split; [done|]. change 0x7f with (Z.ones 7). rewrite Z.shiftl_0_l, Z.lor_0_l, Z.land_ones by lia.
    apply Z.mod_small. change (2 ^ 7) with 128. lia. }
  assert (v < 128 -> bs = [v]) as Hone.
  { intros Hlt. unfold sqlite3PutVarint in Hp. rewrite (proj2 (Z.leb_le v 0x7f)) in Hp by lia.
    injection Hp as <-. f_equal. change 0x7f with (Z.ones 7). rewrite Z.land_ones by lia. unfold wrapu.
    rewrite (Z.mod_small v (2 ^ 7)), Z.mod_small by (change (2 ^ 7) with 128; change (2 ^ 8) with 256; lia). done. }
  exists bs. split_and!; try (done || lia).
  - unfold getVarint32. destruct (Z.ltb_spec (zat (bs ++ rest) 0) 0x80) as [Hlt|Hge].
    + destruct (Hsmall Hlt) as [-> ->]. done.
    + destruct (getvarint_spec _ Hall Hge) as [_ ->]. rewrite Hg. cbn [fst snd]. rewrite Z.min_l; [done|]. lia.
  - split; [intros Hlt; destruct (Hsmall Hlt); lia|]. intros Hlt. rewrite (Hone Hlt). done.
Qed.

Lemma put4_get4 v rest : 0 <= v < 2 ^ 32 -> sqlite3Get4byte (sqlite3Put4byte v ++ rest) = v.
Proof.
  intros Hv. unfold sqlite3Get4byte, sqlite3Put4byte, zat. cbn [app].
  change (Z.to_nat 0) with 0%nat; change (Z.to_nat 1) with 1%nat;
    change (Z.to_nat 2) with 2%nat; change (Z.to_nat 3) with 3%nat. cbn [nth].
  bitblast.
Qed.

Lemma get4_be p : bytes_ok p -> sqlite3Get4byte p = be_value [zat p 0; zat p 1; zat p 2; zat p 3].
Proof.
  intros Hp. unfold sqlite3Get4byte.
  pose proof (zat_byte p 0 Hp) as H0. pose proof (zat_byte p 1 Hp) as H1.
  pose proof (zat_byte p 2 Hp) as H2. pose proof (zat_byte p 3 Hp) as H3.
  unfold be_value. cbn [fold_left].
  assert (forall x b n, 0 <= n -> 0 <= b < 2 ^ n -> Z.lor (Z.shiftl x n) b = x * 2 ^ n + b) as Hlor.
  { intros x b n Hn Hb. rewrite Z.shiftl_mul_pow2 by lia.
    rewrite <- Z.lxor_lor, Z.add_nocarry_lxor; [done| |];
      apply Z.bits_inj'; intros i Hi; rewrite Z.land_spec, Z.bits_0;
      (destruct (decide (i < n));
       [rewrite Z.mul_pow2_bits_low by lia; done
       |rewrite (testbit_above b n) by lia; apply andb_false_r]). }
  generalize dependent (zat p 0). generalize dependent (zat p 1).
  generalize dependent (zat p 2). generalize dependent (zat p 3).
  intros p3 H3 p2 H2 p1 H1 p0 H0.
  replace (Z.lor _ p3) with (Z.lor (Z.shiftl (Z.lor (Z.shiftl (Z.lor (Z.shiftl p0 8) p1) 8) p2) 8) p3)
    by bitblast.
  rewrite !Hlor by lia. pow2. lia.
Qed.
