(* ===== verification/SqlText.v ===== *)
(** * Characters and strings (global.c and util.c of sqlite3.c)

    The character tables, the case-insensitive comparisons that identify databases, tables and
    collations, SQL quoting and hexadecimal literals.  A NUL-terminated string is the list of the
    bytes before its terminator; a pointer into it is a suffix of that list. *)

From S2P Require Import Prelude Bitwise.
From stdpp Require Import options.

(** ** Tables *)

Definition sqlite3UpperToLower : list Z :=
  [
   0; 1; 2; 3; 4; 5; 6; 7; 8; 9; 10; 11; 12; 13; 14; 15; 16; 17;
   18; 19; 20; 21; 22; 23; 24; 25; 26; 27; 28; 29; 30; 31; 32; 33; 34; 35;
   36; 37; 38; 39; 40; 41; 42; 43; 44; 45; 46; 47; 48; 49; 50; 51; 52; 53;
   54; 55; 56; 57; 58; 59; 60; 61; 62; 63; 64; 97; 98; 99; 100; 101; 102; 103;
   104; 105; 106; 107; 108; 109; 110; 111; 112; 113; 114; 115; 116; 117; 118; 119; 120; 121;
   122; 91; 92; 93; 94; 95; 96; 97; 98; 99; 100; 101; 102; 103; 104; 105; 106; 107;
   108; 109; 110; 111; 112; 113; 114; 115; 116; 117; 118; 119; 120; 121; 122; 123; 124; 125;
   126; 127; 128; 129; 130; 131; 132; 133; 134; 135; 136; 137; 138; 139; 140; 141; 142; 143;
   144; 145; 146; 147; 148; 149; 150; 151; 152; 153; 154; 155; 156; 157; 158; 159; 160; 161;
   162; 163; 164; 165; 166; 167; 168; 169; 170; 171; 172; 173; 174; 175; 176; 177; 178; 179;
   180; 181; 182; 183; 184; 185; 186; 187; 188; 189; 190; 191; 192; 193; 194; 195; 196; 197;
   198; 199; 200; 201; 202; 203; 204; 205; 206; 207; 208; 209; 210; 211; 212; 213; 214; 215;
   216; 217; 218; 219; 220; 221; 222; 223; 224; 225; 226; 227; 228; 229; 230; 231; 232; 233;
   234; 235; 236; 237; 238; 239; 240; 241; 242; 243; 244; 245; 246; 247; 248; 249; 250; 251;
   252; 253; 254; 255;
   (* aLTb, aEQb, aGTb *)
   1; 0; 0; 1; 1; 0;
   0; 1; 0; 1; 0; 1;
   1; 0; 1; 0; 0; 1].

Definition sqlite3CtypeMap : list Z :=
  [
   0; 0; 0; 0; 0; 0; 0; 0; 0; 1; 1; 1; 1; 1; 0; 0;
   0; 0; 0; 0; 0; 0; 0; 0; 0; 0; 0; 0; 0; 0; 0; 0;
   1; 0; 128; 0; 64; 0; 0; 128; 0; 0; 0; 0; 0; 0; 0; 0;
   12; 12; 12; 12; 12; 12; 12; 12; 12; 12; 0; 0; 0; 0; 0; 0;
   0; 10; 10; 10; 10; 10; 10; 2; 2; 2; 2; 2; 2; 2; 2; 2;
   2; 2; 2; 2; 2; 2; 2; 2; 2; 2; 2; 128; 0; 0; 0; 64;
   128; 42; 42; 42; 42; 42; 42; 34; 34; 34; 34; 34; 34; 34; 34; 34;
   34; 34; 34; 34; 34; 34; 34; 34; 34; 34; 34; 0; 0; 0; 0; 0;
   64; 64; 64; 64; 64; 64; 64; 64; 64; 64; 64; 64; 64; 64; 64; 64;
   64; 64; 64; 64; 64; 64; 64; 64; 64; 64; 64; 64; 64; 64; 64; 64;
   64; 64; 64; 64; 64; 64; 64; 64; 64; 64; 64; 64; 64; 64; 64; 64;
   64; 64; 64; 64; 64; 64; 64; 64; 64; 64; 64; 64; 64; 64; 64; 64;
   64; 64; 64; 64; 64; 64; 64; 64; 64; 64; 64; 64; 64; 64; 64; 64;
   64; 64; 64; 64; 64; 64; 64; 64; 64; 64; 64; 64; 64; 64; 64; 64;
   64; 64; 64; 64; 64; 64; 64; 64; 64; 64; 64; 64; 64; 64; 64; 64;
   64; 64; 64; 64; 64; 64; 64; 64; 64; 64; 64; 64; 64; 64; 64; 64].

Definition UpperToLower (c : Z) : Z := zat sqlite3UpperToLower c.

Definition ctype (c mask : Z) : bool := negb (Z.land (zat sqlite3CtypeMap (u8 c)) mask =? 0).

Definition sqlite3Isspace (c : Z) : bool := ctype c 0x01.
Definition sqlite3Isalnum (c : Z) : bool := ctype c 0x06.
Definition sqlite3Isalpha (c : Z) : bool := ctype c 0x02.
Definition sqlite3Isdigit (c : Z) : bool := ctype c 0x04.
Definition sqlite3Isxdigit (c : Z) : bool := ctype c 0x08.
Definition sqlite3Isquote (c : Z) : bool := ctype c 0x80.
Definition sqlite3Tolower (c : Z) : Z := UpperToLower (u8 c).
Definition sqlite3Toupper (c : Z) : Z :=
  Z.ldiff c (Z.land (zat sqlite3CtypeMap (u8 c)) 0x20).

(** ** Comparing *)

(** [a] and [b] are the pointers that advance together. *)
Fixpoint sqlite3StrICmp (a b : list Z) : Z :=
  let c := zat a 0 in
  let x := zat b 0 in
  match a with
  | [] => if c =? x then c else UpperToLower c - UpperToLower x
  | _ :: a' =>
      if c =? x then (if c =? 0 then c else sqlite3StrICmp a' (tl b))
      else
        let c := UpperToLower c - UpperToLower x in
        if negb (c =? 0) then c else sqlite3StrICmp a' (tl b)
  end.

(** A null pointer is [None]. *)
Definition sqlite3_stricmp (zLeft zRight : option (list Z)) : Z :=
  match zLeft, zRight with
  | None, None => 0
  | None, Some _ => -1
  | Some _, None => 1
  | Some l, Some r => sqlite3StrICmp l r
  end.

(** [while( N-- > 0 && *a!=0 && UpperToLower[*a]==UpperToLower[*b] )]; the number of loop
    turns is bounded by the characters left in [a]. *)
Fixpoint strnicmp_loop (a b : list Z) (N : Z) : Z :=
  if 0 <? N then
    match a with
    | c :: a' =>
        if negb (c =? 0) && (UpperToLower c =? UpperToLower (zat b 0)) then
          strnicmp_loop a' (tl b) (N - 1)
        else if N - 1 <? 0 then 0 else UpperToLower c - UpperToLower (zat b 0)
    | [] => if N - 1 <? 0 then 0 else UpperToLower 0 - UpperToLower (zat b 0)
    end
  else if N - 1 <? 0 then 0 else UpperToLower (zat a 0) - UpperToLower (zat b 0).

Definition sqlite3_strnicmp (zLeft zRight : option (list Z)) (N : Z) : Z :=
  match zLeft, zRight with
  | None, None => 0
  | None, Some _ => -1
  | Some _, None => 1
  | Some l, Some r => strnicmp_loop l r N
  end.

Fixpoint str_ihash (h : Z) (z : list Z) : Z :=
  match z with
  | [] => h
  | c :: z' => str_ihash (u8 (h + UpperToLower c)) z'
  end.

Definition sqlite3StrIHash (z : option (list Z)) : Z :=
  match z with None => 0 | Some z => str_ihash 0 z end.

Definition sqlite3Strlen30 (z : option (list Z)) : Z :=
  match z with None => 0 | Some z => Z.land 0x3fffffff (i32 (zlen z)) end.

(** ** Quoting *)

Definition chr (c : ascii) : Z := Z_of_ascii c.

(** The loop of [sqlite3Dequote]; [z] is what is left from [z[i]] on and [out] what is stored
    before [z[j]].  Writing in place is behind the reads ([j < i]).  [None] is a run past
    the terminator, which the source excludes with [assert( z[i] )]. *)
Fixpoint dequote_loop (quote : Z) (z out : list Z) : option (list Z) :=
  match z with
  | [] => None
  | c :: z' =>
      if c =? quote then
        match z' with
        | d :: z'' => if d =? quote then dequote_loop quote z'' (out ++ [quote]) else Some out
        | [] => Some out
        end
      else dequote_loop quote z' (out ++ [c])
  end.

Definition sqlite3Dequote (z : list Z) : option (list Z) :=
  let quote := zat z 0 in
  if negb (sqlite3Isquote quote) then Some z
  else
    let quote := if quote =? chr "[" then chr "]" else quote in
    dequote_loop quote (tl z) [].

(** A token: the text it starts at, and its length. *)
Record Token := mkToken { tok_z : list Z; tok_n : Z }.

(** [for(i=1; i<p->n-1; i++)]: is a character strictly between the first and the last a quote? *)
Fixpoint has_inner_quote (z : list Z) (k : nat) : bool :=
  match k with
  | O => false
  | S k' => sqlite3Isquote (zat z 0) || has_inner_quote (tl z) k'
  end.

Definition sqlite3DequoteToken (p : Token) : Token :=
  if tok_n p <? 2 then p
  else if negb (sqlite3Isquote (zat (tok_z p) 0)) then p
  else if has_inner_quote (tl (tok_z p)) (Z.to_nat (tok_n p - 2)) then p
  else mkToken (tl (tok_z p)) (tok_n p - 2).

Definition sqlite3TokenInit (z : list Z) : Token := mkToken z (sqlite3Strlen30 (Some z)).

(** ** Hexadecimal *)

Definition sqlite3HexToInt (h : Z) : Z :=
  let h := h + 9 * Z.land 1 (Z.shiftr h 6) in
  u8 (Z.land h 0xf).

(** [for(i=0; i<n; i+=2)] after [n--]; the two characters read at each turn. *)
Fixpoint hex_to_blob_loop (z : list Z) (n : Z) (k : nat) : list Z :=
  match k with
  | O => []
  | S k' =>
      if 0 <? n then
        u8 (Z.lor (Z.shiftl (sqlite3HexToInt (zat z 0)) 4) (sqlite3HexToInt (zat z 1)))
        :: hex_to_blob_loop (tl (tl z)) (n - 2) k'
      else []
  end.

(** The [n/2] bytes stored, then the terminating zero. *)
Definition sqlite3HexToBlob (z : list Z) (n : Z) : list Z :=
  hex_to_blob_loop z (n - 1) (Z.to_nat n) ++ [0].

(** ** Lemmas *)

(** Check a decidable fact of every byte. *)
Definition all_bytes (f : Z -> bool) : bool := forallb f (map Z.of_nat (seq 0 256)).

Lemma all_bytes_spec f b : all_bytes f = true -> is_byte b -> f b = true.
Proof.
  unfold all_bytes, is_byte. rewrite forallb_forall. intros H Hb. apply H.
  apply in_map_iff. exists (Z.to_nat b). split; [lia|]. apply in_seq. lia.
Qed.

(** Case folding as the documentation has it: the letters A to Z only. *)
Definition fold (c : Z) : Z := if (65 <=? c) && (c <=? 90) then c + 32 else c.

Lemma UpperToLower_fold c : is_byte c -> UpperToLower c = fold c.
Proof.
  intros Hc. apply Z.eqb_eq.
  apply (all_bytes_spec (fun c => UpperToLower c =? fold c)); [by vm_compute|done].
Qed.

Lemma fold_range c : is_byte c -> is_byte (fold c).
Proof. unfold fold, is_byte. intros. destruct (_ && _) eqn:E; breflect; lia. Qed.

Lemma fold_zero c : is_byte c -> fold c = 0 <-> c = 0.
Proof. unfold fold, is_byte. intros. destruct (_ && _) eqn:E; breflect; lia. Qed.

Lemma isspace_spec c : is_byte c ->
  sqlite3Isspace c = ((c =? 32) || ((9 <=? c) && (c <=? 13))).
Proof.
  intros Hc. apply eqb_prop.
  apply (all_bytes_spec (fun c => Bool.eqb (sqlite3Isspace c)
    ((c =? 32) || ((9 <=? c) && (c <=? 13))))); [by vm_compute|done].
Qed.

Lemma isdigit_spec c : is_byte c -> sqlite3Isdigit c = ((48 <=? c) && (c <=? 57)).
Proof.
  intros Hc. apply eqb_prop.
  apply (all_bytes_spec (fun c => Bool.eqb (sqlite3Isdigit c)
    ((48 <=? c) && (c <=? 57)))); [by vm_compute|done].
Qed.

Lemma ctype_neg c m : ctype (i8 c) m = ctype c m.
Proof. unfold ctype. by rewrite wraps_wrapu by lia. Qed.

(** C strings: no zero byte before the terminator. *)
Abbreviation cstring z := (Forall (fun b => 1 <= b < 256) z).

Lemma cstring_bytes z : cstring z -> bytes_ok z.
Proof. intros H. eapply Forall_impl; [exact H|]. unfold is_byte. intros; lia. Qed.

Lemma cstring_tl z : cstring z -> cstring (tl z).
Proof. destruct 1; simpl; [apply Forall_nil_2|done]. Qed.

Lemma hex_val_spec b : is_byte b -> sqlite3Isxdigit b = true ->
  sqlite3HexToInt b = if b <=? 57 then b - 48 else if b <=? 70 then b - 55 else b - 87.
Proof.
  intros Hb Hx. apply Z.eqb_eq.
  pose proof (all_bytes_spec (fun b => implb (sqlite3Isxdigit b) (sqlite3HexToInt b =?
    if b <=? 57 then b - 48 else if b <=? 70 then b - 55 else b - 87)) b) as H.
  cbv beta in H. rewrite Hx in H. apply H; [by vm_compute|done].
Qed.

(** Lexicographic difference of two strings, the terminator counting as 0. *)
Fixpoint lex (a b : list Z) : Z :=
  match a, b with
  | [], [] => 0
  | [], x :: _ => - x
  | c :: _, [] => c
  | c :: a', x :: b' => if c =? x then lex a' b' else c - x
  end.

Lemma lex_anti a : forall b, lex b a = - lex a b.
Proof.
  induction a as [|c a IH]; intros [|x b]; simpl; try lia.
  rewrite Z.eqb_sym. destruct (c =? x); [apply IH|lia].
Qed.

Lemma lex_zero a : forall b, Forall (fun c => c <> 0) a -> Forall (fun c => c <> 0) b ->
  lex a b = 0 <-> a = b.
Proof.
  induction a as [|c a IH]; intros b Ha Hb.
  { destruct Hb; simpl; [done|]. split; [lia|done]. }
  inversion Ha as [|? ? Hc Ha']; subst. destruct Hb as [|x b Hx Hb]; simpl.
  { split; [lia|done]. }
  case_if.
  - subst. rewrite IH by done. split; [by intros ->|]. by intros [= ->].
  - split; [lia|]. intros [= ? ?]; lia.
Qed.

Lemma fold_nonzero z : cstring z -> Forall (fun c => c <> 0) (map fold z).
Proof.
  induction 1 as [|c z Hc _ IH]; simpl; constructor; [|done].
  rewrite fold_zero by (unfold is_byte; lia). lia.
Qed.

Lemma stricmp_lex a : forall b, cstring a -> cstring b ->
  sqlite3StrICmp a b = lex (map fold a) (map fold b).
Proof.
  induction a as [|c a IH]; intros b Ha Hb.
  - destruct Hb as [|x b Hx Hb]; [done|]. cbn [sqlite3StrICmp map lex].
    change (zat [] 0) with 0. change (zat (x :: b) 0) with x.
    rewrite (proj2 (Z.eqb_neq 0 x)), (UpperToLower_fold x) by (unfold is_byte; lia).
    change (UpperToLower 0) with 0. lia.
  - inversion Ha as [|? ? Hc Ha']; subst. cbn [sqlite3StrICmp map].
    change (zat (c :: a) 0) with c.
    destruct Hb as [|x b Hx Hb]; cbn [lex map tl].
    + change (zat [] 0) with 0. rewrite (proj2 (Z.eqb_neq c 0)) by lia.
      change (UpperToLower 0) with 0. rewrite UpperToLower_fold by (unfold is_byte; lia).
      rewrite (proj2 (Z.eqb_neq (fold c - 0) 0)); [cbn [negb]; lia|].
      rewrite Z.sub_0_r, fold_zero by (unfold is_byte; lia). lia.
    + change (zat (x :: b) 0) with x. rewrite !UpperToLower_fold, (IH b) by (done || unfold is_byte; lia).
      rewrite (proj2 (Z.eqb_neq c 0)) by lia.
      destruct (c =? x) eqn:E; breflect; [subst; by rewrite Z.eqb_refl|].
      destruct (fold c =? fold x) eqn:E2; breflect.
      * by rewrite (proj2 (Z.eqb_eq (fold c - fold x) 0)) by lia.
      * by rewrite (proj2 (Z.eqb_neq (fold c - fold x) 0)) by lia.
Qed.

Lemma strnicmp_lex a : forall b N, cstring a -> cstring b -> 0 <= N ->
  strnicmp_loop a b N = lex (take (Z.to_nat N) (map fold a)) (take (Z.to_nat N) (map fold b)).
Proof.
  induction a as [|c a IH]; intros b N Ha Hb HN; cbn [strnicmp_loop].
  - destruct (0 <? N) eqn:E; breflect.
    + rewrite (proj2 (Z.ltb_ge (N - 1) 0)) by lia. change (UpperToLower 0) with 0.
      destruct (Z.to_nat N) as [|n] eqn:En; [lia|].
      destruct Hb as [|x b Hx Hb]; cbn [take map lex]; [done|].
      change (zat (x :: b) 0) with x. rewrite UpperToLower_fold by (unfold is_byte; lia). lia.
    + rewrite (proj2 (Z.ltb_lt (N - 1) 0)) by lia. by replace N with 0 by lia.
  - inversion Ha as [|? ? Hc Ha']; subst. destruct (0 <? N) eqn:E; breflect.
    2: { rewrite (proj2 (Z.ltb_lt (N - 1) 0)) by lia. by replace N with 0 by lia. }
    rewrite (proj2 (Z.ltb_ge (N - 1) 0)) by lia.
    rewrite (proj2 (Z.eqb_neq c 0)), (UpperToLower_fold c) by (unfold is_byte; lia).
    cbn [negb andb]. destruct (Z.to_nat N) as [|n] eqn:En; [lia|].
    destruct Hb as [|x b Hx Hb]; cbn [take map lex tl].
    + change (zat [] 0) with 0. change (UpperToLower 0) with 0.
      rewrite (proj2 (Z.eqb_neq (fold c) 0)) by (rewrite fold_zero by (unfold is_byte; lia); lia). lia.
    + change (zat (x :: b) 0) with x. rewrite UpperToLower_fold by (unfold is_byte; lia).
      case_if; [|done]. rewrite IH by (done || lia). by replace (Z.to_nat (N - 1)) with n by lia.
Qed.

Lemma ihash_fold z : forall h, cstring z ->
  str_ihash h z = str_ihash h (map fold z).
Proof.
  induction z as [|c z IH]; intros h Hz; [done|]. inversion Hz; subst.
  cbn [str_ihash map]. rewrite !UpperToLower_fold, <- IH; try done.
  - do 2 f_equal. unfold fold at 1 3. f_equal. destruct (_ && _) eqn:E; breflect.
    + unfold fold. destruct (_ && _) eqn:E2; breflect; lia.
    + unfold fold. by rewrite E.
  - apply fold_range. unfold is_byte; lia.
  - unfold is_byte; lia.
Qed.

(** Names are compared without case: [sqlite3_stricmp] is the lexicographic difference of
    the strings with A to Z folded, so it is zero exactly for names equal up to case and
    antisymmetric; [sqlite3_strnicmp] is the same on the first [N] bytes; and names that
    compare equal have the same [sqlite3StrIHash]. *)
Theorem stricmp_ignores_case a b N : cstring a -> cstring b -> 0 <= N ->
  sqlite3_stricmp (Some a) (Some b) = lex (map fold a) (map fold b) /\
  (sqlite3_stricmp (Some a) (Some b) = 0 <-> map fold a = map fold b) /\
  sqlite3_stricmp (Some b) (Some a) = - sqlite3_stricmp (Some a) (Some b) /\
  (sqlite3_strnicmp (Some a) (Some b) N = 0 <->
   take (Z.to_nat N) (map fold a) = take (Z.to_nat N) (map fold b)) /\
  (sqlite3_stricmp (Some a) (Some b) = 0 -> sqlite3StrIHash (Some a) = sqlite3StrIHash (Some b)).
Proof.
  intros Ha Hb HN. unfold sqlite3_stricmp, sqlite3_strnicmp, sqlite3StrIHash.
  rewrite !stricmp_lex, strnicmp_lex by done.
  assert (lex (map fold a) (map fold b) = 0 <-> map fold a = map fold b) as Hz
    by (apply lex_zero; by apply fold_nonzero).
  split_and!; try done.
  - apply lex_anti.
  - apply lex_zero; apply Forall_take; by apply fold_nonzero.
  - intros H0%Hz. by rewrite ihash_fold, H0, <- ihash_fold.
Qed.

Definition text_Users : list Z := bytes_of_string "Users".
Definition text_uSERS : list Z := bytes_of_string "uSERS".

Lemma stricmp_ignores_case_witness :
  (cstring text_Users /\ cstring text_uSERS /\ 0 <= 3) /\
  sqlite3_stricmp (Some text_Users) (Some text_uSERS) = 0 /\
  sqlite3StrIHash (Some text_Users) = sqlite3StrIHash (Some text_uSERS).
Proof.
  assert (cstring text_Users) as H1 by (repeat (apply Forall_cons_2; [vm_compute; split; [discriminate|done]|]); apply Forall_nil_2).
  assert (cstring text_uSERS) as H2 by (repeat (apply Forall_cons_2; [vm_compute; split; [discriminate|done]|]); apply Forall_nil_2).
  assert (0 <= 3) as H3 by lia.
  pose proof (stricmp_ignores_case text_Users text_uSERS 3 H1 H2 H3) as (_ & Hz & _ & _ & Hh).
  assert (map fold text_Users = map fold text_uSERS) as E by reflexivity.
  split; [done|]. split; [by apply Hz|]. apply Hh. by apply Hz.
Defined.

(** ** Quoting and dequoting *)

Definition closing (q : Z) : Z := if q =? chr "[" then chr "]" else q.

(** The text of [s] between quote characters, the closing one doubled inside. *)
Definition sql_quote (q : Z) (s : list Z) : list Z :=
  q :: concat (map (fun c => if c =? closing q then [c; c] else [c]) s) ++ [closing q].

Lemma dequote_loop_quoted q s : forall out rest,
  zat rest 0 <> q ->
  dequote_loop q (concat (map (fun c => if c =? q then [c; c] else [c]) s) ++ q :: rest) out
  = Some (out ++ s).
Proof.
  induction s as [|c s IH]; intros out rest Hr; cbn [map concat app].
  - cbn [dequote_loop]. rewrite Z.eqb_refl, app_nil_r. destruct rest as [|d rest]; [done|].
    change (zat (d :: rest) 0) with d in Hr. by rewrite (proj2 (Z.eqb_neq d q)) by done.
  - destruct (c =? q) eqn:E; breflect; cbn [app dequote_loop].
    + subst. rewrite Z.eqb_refl. by rewrite IH, <- app_assoc.
    + rewrite (proj2 (Z.eqb_neq c q)) by done. by rewrite IH, <- app_assoc.
Qed.

Lemma inner_quote_free s : forall rest, has_inner_quote (s ++ rest) (length s) = false ->
  Forall (fun c => sqlite3Isquote c = false) s.
Proof.
  induction s as [|c s IH]; intros rest H; [apply Forall_nil_2|].
  cbn [length has_inner_quote app tl] in H. change (zat (c :: s ++ rest) 0) with c in H.
  apply orb_false_iff in H as [Hc Hs]. apply Forall_cons_2; [done|by eapply IH].
Qed.

Lemma quote_plain q s : closing q ∉ s ->
  concat (map (fun c => if c =? closing q then [c; c] else [c]) s) = s.
Proof.
  induction s as [|c s IH]; intros Hn; cbn [map concat]; [done|].
  apply not_elem_of_cons in Hn as [Hc Hn].
  rewrite (proj2 (Z.eqb_neq c (closing q))) by congruence. cbn [app]. by rewrite IH.
Qed.

(** Dequoting undoes quoting with any of the quote characters, whatever else is not the
    quote follows; text that starts with none is left alone; and where the shortcut on
    tokens applies it gives the same text. *)
Theorem dequote_undoes_quote q s rest : sqlite3Isquote q = true -> zat rest 0 <> closing q ->
  sqlite3Dequote (sql_quote q s ++ rest) = Some s /\
  (forall z, sqlite3Isquote (zat z 0) = false -> sqlite3Dequote z = Some z) /\
  ((q = chr "[" -> closing q ∉ s) ->
   let p := mkToken (sql_quote q s ++ rest) (zlen (sql_quote q s)) in
   let p' := sqlite3DequoteToken p in
   p' = p \/ take (Z.to_nat (tok_n p')) (tok_z p') = s).
Proof.
  intros Hq Hrest. split_and!.
  - unfold sqlite3Dequote, sql_quote. cbn [app].
    change (zat (q :: _) 0) with q. rewrite Hq. cbn [negb tl].
    rewrite <- app_assoc. exact (dequote_loop_quoted (closing q) s [] rest Hrest).
  - intros z Hz. unfold sqlite3Dequote. by rewrite Hz.
  - intros Hbr p p'. subst p' p. unfold sqlite3DequoteToken. cbn [tok_n tok_z].
    case_if; [by left|]. change (zat (sql_quote q s ++ rest) 0) with q. rewrite Hq. cbn [negb].
    case_if; [by left|]. right. cbn [tok_n tok_z tl].
    remember (concat (map (fun c => if c =? closing q then [c; c] else [c]) s)) as body.
    assert (zlen (sql_quote q s) - 2 = zlen body) as Hlen.
    { unfold sql_quote. rewrite <- Heqbody, zlen_cons, zlen_app. change (zlen [_]) with 1. lia. }
    rewrite Hlen in *. unfold sql_quote in *. rewrite <- Heqbody in *. cbn [app tl] in *.
    unfold zlen in *. rewrite Nat2Z.id in *. rewrite <- app_assoc in *.
    rewrite take_app_length. apply inner_quote_free in Hif0. subst body. apply quote_plain.
    destruct (decide (q = chr "[")) as [->|Hne]; [by apply Hbr|].
    unfold closing in *. rewrite (proj2 (Z.eqb_neq q _)) in * by done.
    intros Hin. apply list_elem_of_split in Hin as (l1 & l2 & ->).
    rewrite map_app, concat_app in Hif0. cbn [map concat] in Hif0. rewrite Z.eqb_refl in Hif0.
    apply Forall_app in Hif0 as [_ Hif0]. apply Forall_inv in Hif0. congruence.
Qed.

Lemma dequote_undoes_quote_witness :
  (sqlite3Isquote 39 = true /\ zat [] 0 <> closing 39) /\
  sqlite3Dequote (sql_quote 39 (bytes_of_string "it's") ++ []) = Some (bytes_of_string "it's").
Proof.
  assert (sqlite3Isquote 39 = true) as H1 by reflexivity.
  assert (zat [] 0 <> closing 39) as H2 by (vm_compute; discriminate).
  split; [done|]. exact (proj1 (dequote_undoes_quote 39 (bytes_of_string "it's") [] H1 H2)).
Defined.
