(* ===== verification/SqlNumber.v ===== *)
(** * 64-bit arithmetic, logarithmic estimates and decimal text (util.c of sqlite3.c)

    The overflow-checked integer operators of the SQL expressions, the [LogEst] cost
    estimates, and the conversions between integers and text.  The portable branch of each
    routine is the one modelled (the one taken by a compiler without the overflow
    built-ins); [i64], [u64] and [u32] are the widths of the C variables. *)

From S2P Require Import Prelude Bitwise SqlText.
From stdpp Require Import options.

Definition LARGEST_INT64 : Z := 2 ^ 63 - 1.
Definition SMALLEST_INT64 : Z := - 2 ^ 63.

(** ** Checked arithmetic: the return code and [*pA] afterwards *)

Definition sqlite3AddInt64 (iA iB : Z) : Z * Z :=
  if 0 <=? iB then
    if (0 <? iA) && (i64 (LARGEST_INT64 - iA) <? iB) then (1, iA) else (0, i64 (iA + iB))
  else
    if (iA <? 0) && (i64 (iB + 1) <? i64 (- i64 (iA + LARGEST_INT64))) then (1, iA)
    else (0, i64 (iA + iB)).

Definition sqlite3SubInt64 (iA iB : Z) : Z * Z :=
  if iB =? SMALLEST_INT64 then
    if 0 <=? iA then (1, iA) else (0, i64 (iA - iB))
  else sqlite3AddInt64 iA (i64 (- iB)).

Definition sqlite3MulInt64 (iA iB : Z) : Z * Z :=
  let ok := (0, i64 (iA * iB)) in
  if 0 <? iB then
    if Z.quot LARGEST_INT64 iB <? iA then (1, iA)
    else if iA <? Z.quot SMALLEST_INT64 iB then (1, iA)
    else ok
  else if iB <? 0 then
    if 0 <? iA then
      if iB <? Z.quot SMALLEST_INT64 iA then (1, iA) else ok
    else if iA <? 0 then
      if iB =? SMALLEST_INT64 then (1, iA)
      else if iA =? SMALLEST_INT64 then (1, iA)
      else if Z.quot LARGEST_INT64 (i64 (- iB)) <? i64 (- iA) then (1, iA)
      else ok
    else ok
  else ok.

Definition sqlite3AbsInt32 (x : Z) : Z :=
  if 0 <=? x then x else if x =? i32 0x80000000 then 0x7fffffff else i32 (- x).

(** ** Logarithmic estimates *)

Definition logest_add_x : list Z :=
  [10; 10; 9; 9; 8; 8; 7; 7; 7; 6; 6; 6; 5; 5; 5; 4; 4; 4; 4;
   3; 3; 3; 3; 3; 3; 2; 2; 2; 2; 2; 2; 2].

Definition sqlite3LogEstAdd (a b : Z) : Z :=
  if b <=? a then
    if b + 49 <? a then a
    else if b + 31 <? a then i16 (a + 1)
    else i16 (a + zat logest_add_x (a - b))
  else
    if a + 49 <? b then b
    else if a + 31 <? b then i16 (b + 1)
    else i16 (b + zat logest_add_x (b - a)).

Definition logest_a : list Z := [0; 2; 3; 5; 6; 7; 8; 9].

Fixpoint logest_up (fuel : nat) (x y : Z) : option (Z * Z) :=
  match fuel with
  | O => None
  | S fuel => if x <? 8 then logest_up fuel (u64 (Z.shiftl x 1)) (i16 (y - 10)) else Some (x, y)
  end.

Fixpoint logest_down (fuel : nat) (lim sh dy x y : Z) : option (Z * Z) :=
  match fuel with
  | O => None
  | S fuel =>
      if lim <? x then logest_down fuel lim sh dy (Z.shiftr x sh) (i16 (y + dy)) else Some (x, y)
  end.

Definition sqlite3LogEst (x : Z) : option Z :=
  let y := 40 in
  let fin '(x, y) := i16 (zat logest_a (Z.land x 7) + y - 10) in
  if x <? 8 then
    if x <? 2 then Some 0 else fin <$> logest_up 4 x y
  else
    '(x, y) ← logest_down 17 255 4 40 x y;
    fin <$> logest_down 9 15 1 10 x y.

Definition sqlite3LogEstToInt (x : Z) : Z :=
  let n := u64 (Z.rem x 10) in
  let x := Z.quot x 10 in
  let n := if 5 <=? n then n - 2 else if 1 <=? n then n - 1 else n in
  if 60 <? x then LARGEST_INT64
  else if 3 <=? x then u64 (Z.shiftl (n + 8) (x - 3)) else Z.shiftr (n + 8) (3 - x).

(** ** Integers to text *)

(** [sqlite3DigitPairs.a]: the two digits of each number below 100. *)
Definition sqlite3DigitPairs : list Z := bytes_of_string
  ("0001020304050607080910111213141516171819" +:+
   "2021222324252627282930313233343536373839" +:+
   "4041424344454647484950515253545556575859" +:+
   "6061626364656667686970717273747576777879" +:+
   "8081828384858687888990919293949596979899").

(** [while( x>=10 )]: [out] is what is stored in [u.a] from index [i] on. *)
Fixpoint int64_text_loop (fuel : nat) (x : Z) (out : list Z) : option (list Z) :=
  match fuel with
  | O => None
  | S fuel =>
      if 10 <=? x then
        let kk := (x mod 100) * 2 in
        int64_text_loop fuel (x / 100)
          (zat sqlite3DigitPairs kk :: zat sqlite3DigitPairs (kk + 1) :: out)
      else if negb (x =? 0) then Some (u8 (x + 48) :: out) else Some out
  end.

(** The bytes stored in [zOut] before its terminator. *)
Definition sqlite3Int64ToText (v : Z) : option (list Z) :=
  if v =? 0 then Some [48]
  else
    let x := if 0 <? v then v else if v =? SMALLEST_INT64 then 2 ^ 63 else u64 (- v) in
    out ← int64_text_loop 11 x [];
    Some (if v <? 0 then 45 :: out else out).

(** ** Text to integers *)

Definition pow63_digits : list Z := bytes_of_string "922337203685477580".

Fixpoint compare2pow63_loop (k : nat) (zNum : list Z) (incr i : Z) : Z :=
  match k with
  | O => 0
  | S k =>
      let c := (i8 (zat zNum (i * incr)) - zat pow63_digits i) * 10 in
      if c =? 0 then compare2pow63_loop k zNum incr (i + 1) else c
  end.

Definition compare2pow63 (zNum : list Z) (incr : Z) : Z :=
  let c := compare2pow63_loop 18 zNum incr 0 in
  if c =? 0 then i8 (zat zNum (18 * incr)) - 56 else c.

Definition SQLITE_UTF8 : Z := 1.
Definition SQLITE_UTF16LE : Z := 2.
Definition SQLITE_UTF16BE : Z := 3.

(** [while( zNum<zEnd && f( *zNum ) ) zNum += incr]: [z] is the text from [zNum] to [zEnd]. *)
Fixpoint skip_while (k : nat) (f : Z -> bool) (incr : nat) (z : list Z) : list Z :=
  match k, z with
  | S k, c :: _ => if f c then skip_while k f incr (drop incr z) else z
  | _, _ => z
  end.

(** [for(i=0; &zNum[i]<zEnd && (c=(unsigned)zNum[i]-'0')<=9; i+=incr) u = u*10 + c]: the number
    read, [i], and the text left. *)
Fixpoint atoi_digits (k : nat) (incr : nat) (z : list Z) (u i : Z) : Z * Z * list Z :=
  match k, z with
  | S k, c :: _ =>
      let c := u32 (i8 c - 48) in
      if c <=? 9 then atoi_digits k incr (drop incr z) (u64 (u * 10 + c)) (i + Z.of_nat incr)
      else (u, i, z)
  | _, _ => (u, i, z)
  end.

(** [for(i=3-enc; i<length && zNum[i]==0; i+=2){}] *)
Fixpoint utf16_high (k : nat) (z : list Z) (i length : Z) : Z :=
  match k with
  | S k => if (i <? length) && (zat z i =? 0) then utf16_high k z (i + 2) length else i
  | O => i
  end.

(** From [zStart] on: the digits, what follows them, and the result. *)
Definition atoi64_number (fuel incr : nat) (neg nonNum : bool) (zStart : list Z) : Z * Z :=
  let z := skip_while fuel (fun c => c =? 48) incr zStart in
  let '(u, i, rest) := atoi_digits fuel incr z 0 0 in
  let pNum := if LARGEST_INT64 <? u then (if neg then SMALLEST_INT64 else LARGEST_INT64)
              else if neg then i64 (- u) else u in
  let rc :=
    if (i =? 0) && (zlen zStart =? zlen z) then -1
    else if nonNum then 1
    else match skip_while fuel sqlite3Isspace incr rest with [] => 0 | _ => 1 end in
  if i <? 19 * Z.of_nat incr then (rc, pNum)
  else
    let j := if 19 * Z.of_nat incr <? i then 1 else compare2pow63 z (Z.of_nat incr) in
    if j <? 0 then (rc, pNum)
    else
      let pNum := if neg then SMALLEST_INT64 else LARGEST_INT64 in
      if 0 <? j then (2, pNum) else (if neg then rc else 3, pNum).

(** The return code and [*pNum]. *)
Definition sqlite3Atoi64 (zNum : list Z) (length enc : Z) : Z * Z :=
  let fuel := S (Z.to_nat length) in
  (* the text up to zEnd, the step between characters, and nonNum *)
  let '(z, incr, nonNum) :=
    if enc =? SQLITE_UTF8 then (take (Z.to_nat length) zNum, 1%nat, false)
    else
      let length := Z.ldiff length 1 in
      let i := utf16_high fuel zNum (3 - enc) length in
      (drop (Z.to_nat (Z.land enc 1)) (take (Z.to_nat (Z.lxor i 1)) zNum), 2%nat, i <? length) in
  match skip_while fuel sqlite3Isspace incr z with
  | [] => atoi64_number fuel incr false nonNum []
  | c :: z' =>
      if c =? 45 then atoi64_number fuel incr true nonNum (drop incr (c :: z'))
      else if c =? 43 then atoi64_number fuel incr false nonNum (drop incr (c :: z'))
      else atoi64_number fuel incr false nonNum (c :: z')
  end.

(** [for(k=i; sqlite3Isxdigit(z[k]); k++) u = u*16 + sqlite3HexToInt(z[k])] in a [w]-bit [u]
    and over at most [k] digits: the number, how many digits, and the text left. *)
Fixpoint hex_digits (w : Z) (k : nat) (z : list Z) (u n : Z) : Z * Z * list Z :=
  match k, z with
  | S k, c :: z' =>
      if sqlite3Isxdigit c then hex_digits w k z' (wrapu w (u * 16 + sqlite3HexToInt c)) (n + 1)
      else (u, n, z)
  | _, _ => (u, n, z)
  end.

Fixpoint strspn (f : Z -> bool) (z : list Z) : Z :=
  match z with
  | c :: z' => if f c then 1 + strspn f z' else 0
  | [] => 0
  end.

Definition dec_set : list Z := bytes_of_string "+- " ++ [10; 9] ++ bytes_of_string "0123456789".

Definition sqlite3DecOrHexToI64 (z : list Z) : Z * Z :=
  if (zat z 0 =? chr "0") && ((zat z 1 =? chr "x") || (zat z 1 =? chr "X")) then
    let z2 := skip_while (length z) (fun c => c =? 48) 1 (drop 2 z) in
    let '(u, n, rest) := hex_digits 64 (length z) z2 0 0 in
    let pOut := i64 u in
    (if 16 <? n then 2 else if negb (zat rest 0 =? 0) then 1 else 0, pOut)
  else
    let n := Z.land 0x3fffffff (strspn (fun c => bool_decide (c ∈ dec_set)) z) in
    let n := if negb (zat z n =? 0) then n + 1 else n in
    sqlite3Atoi64 z n SQLITE_UTF8.

(** [for(i=0; i<11 && (c = zNum[i] - '0')>=0 && c<=9; i++) v = v*10 + c] *)
Fixpoint getint_digits (k : nat) (z : list Z) (v i : Z) : Z * Z :=
  match k with
  | O => (v, i)
  | S k =>
      let c := i8 (zat z 0) - 48 in
      if (0 <=? c) && (c <=? 9) then getint_digits k (tl z) (i64 (v * 10 + c)) (i + 1) else (v, i)
  end.

(** The decimal branch. *)
Definition getint_dec (neg : bool) (z : list Z) : option Z :=
  if negb (sqlite3Isdigit (zat z 0)) then None
  else
    let z := skip_while (length z) (fun c => c =? 48) 1 z in
    let '(v, i) := getint_digits 11 z 0 0 in
    if 10 <? i then None
    else if 2147483647 <? v - zbool neg then None
    else Some (i32 (if neg then - v else v)).

(** [None] is the return value 0; [Some v] is 1 with [*pValue = v]. *)
Definition sqlite3GetInt32 (zNum : list Z) : option Z :=
  if zat zNum 0 =? chr "-" then getint_dec true (tl zNum)
  else if zat zNum 0 =? chr "+" then getint_dec false (tl zNum)
  else if (zat zNum 0 =? chr "0") && ((zat zNum 1 =? chr "x") || (zat zNum 1 =? chr "X"))
          && sqlite3Isxdigit (zat zNum 2) then
    let z := skip_while (length zNum) (fun c => c =? 48) 1 (drop 2 zNum) in
    let '(u, _, rest) := hex_digits 32 8 z 0 0 in
    if (Z.land u 0x80000000 =? 0) && negb (sqlite3Isxdigit (zat rest 0)) then Some (i32 u)
    else None
  else getint_dec false zNum.

Definition sqlite3Atoi (z : list Z) : Z := default 0 (sqlite3GetInt32 z).

(** [for(i=0; sqlite3Isdigit(z[i]); i++)]: [None] is the return from inside the loop. *)
Fixpoint getuint_loop (z : list Z) (v i : Z) : option (Z * Z * list Z) :=
  match z with
  | c :: z' =>
      if sqlite3Isdigit c then
        let v := u64 (v * 10 + i8 c - 48) in
        if 4294967296 <? v then None else getuint_loop z' v (i + 1)
      else Some (v, i, z)
  | [] => Some (v, i, z)
  end.

(** The return value and [*pI]. *)
Definition sqlite3GetUInt32 (z : list Z) : Z * Z :=
  match getuint_loop z 0 0 with
  | None => (0, 0)
  | Some (v, i, rest) => if (i =? 0) || negb (zat rest 0 =? 0) then (0, 0) else (1, u32 v)
  end.

Example atoi64_1 : sqlite3Atoi64 (bytes_of_string " -9223372036854775808 ") 22 SQLITE_UTF8
  = (0, SMALLEST_INT64). Proof. reflexivity. Qed.
Example atoi64_2 : sqlite3Atoi64 (bytes_of_string "9223372036854775808x") 20 SQLITE_UTF8
  = (3, LARGEST_INT64). Proof. reflexivity. Qed.
Example atoi64_3 : sqlite3Atoi64 [49; 0; 50; 0; 0; 1; 51; 0] 8 SQLITE_UTF16LE
  = (1, 12). Proof. reflexivity. Qed.
Example getuint : sqlite3GetUInt32 (bytes_of_string "4294967296") = (1, 0).
Proof. reflexivity. Qed.
Example totext : sqlite3Int64ToText SMALLEST_INT64 = Some (bytes_of_string "-9223372036854775808").
Proof. reflexivity. Qed.

(** ** Lemmas: arithmetic *)

Definition in_i64 (z : Z) : Prop := SMALLEST_INT64 <= z <= LARGEST_INT64.

#[global] Instance in_i64_dec z : Decision (in_i64 z).
Proof. unfold in_i64. apply _. Defined.

Lemma i64_small z : in_i64 z -> i64 z = z.
Proof.
  unfold in_i64, SMALLEST_INT64, LARGEST_INT64. intros. apply wraps_small; [lia|].
  change (64 - 1) with 63. lia.
Qed.

Lemma div_lt_iff L a b : 0 < b -> L / b < a <-> L < a * b.
Proof.
  intros Hb. pose proof (Z.div_mod L b ltac:(lia)). pose proof (Z.mod_pos_bound L b Hb). nia.
Qed.

Lemma add_int64_exact a b : in_i64 a -> in_i64 b ->
  sqlite3AddInt64 a b = if decide (in_i64 (a + b)) then (0, a + b) else (1, a).
Proof.
  intros Ha Hb. unfold sqlite3AddInt64.
  destruct (decide (in_i64 (a + b))) as [Hs|Hs].
  - unfold in_i64, SMALLEST_INT64, LARGEST_INT64 in *.
    destruct (0 <=? b) eqn:Eb; breflect.
    + destruct (0 <? a) eqn:Ea; breflect; cbn [andb]; [|by rewrite i64_small].
      rewrite i64_small by (unfold in_i64, SMALLEST_INT64, LARGEST_INT64; lia).
      rewrite (proj2 (Z.ltb_ge _ _)) by lia. by rewrite i64_small.
    + destruct (a <? 0) eqn:Ea; breflect; cbn [andb]; [|by rewrite i64_small].
      rewrite (i64_small (a + _)), (i64_small (b + 1)), (i64_small (- _))
        by (unfold in_i64, SMALLEST_INT64, LARGEST_INT64; lia).
      rewrite (proj2 (Z.ltb_ge _ _)) by lia. by rewrite i64_small.
  - unfold in_i64, SMALLEST_INT64, LARGEST_INT64 in *.
    destruct (0 <=? b) eqn:Eb; breflect.
    + rewrite (proj2 (Z.ltb_lt 0 a)) by lia.
      rewrite i64_small by (unfold in_i64, SMALLEST_INT64, LARGEST_INT64; lia).
      by rewrite (proj2 (Z.ltb_lt _ _)) by lia.
    + rewrite (proj2 (Z.ltb_lt a 0)) by lia.
      rewrite (i64_small (a + _)), (i64_small (b + 1)), (i64_small (- _))
        by (unfold in_i64, SMALLEST_INT64, LARGEST_INT64; lia).
      by rewrite (proj2 (Z.ltb_lt _ _)) by lia.
Qed.

Lemma sub_int64_exact a b : in_i64 a -> in_i64 b ->
  sqlite3SubInt64 a b = if decide (in_i64 (a - b)) then (0, a - b) else (1, a).
Proof.
  intros Ha Hb. unfold sqlite3SubInt64. case_if.
  - subst b. destruct (decide (in_i64 (a - SMALLEST_INT64))) as [Hs|Hs].
    + rewrite (i64_small (a - _)) by done.
      unfold in_i64, SMALLEST_INT64, LARGEST_INT64 in *. by rewrite (proj2 (Z.leb_gt _ _)) by lia.
    + unfold in_i64, SMALLEST_INT64, LARGEST_INT64 in *. by rewrite (proj2 (Z.leb_le _ _)) by lia.
  - assert (in_i64 (- b)) by (unfold in_i64, SMALLEST_INT64, LARGEST_INT64 in *; lia).
    rewrite (i64_small (- b)), add_int64_exact by done. done.
Qed.

Lemma quot_small_neg c : 0 < c -> Z.quot SMALLEST_INT64 c = - (2 ^ 63 / c).
Proof.
  intros. unfold SMALLEST_INT64. rewrite Z.quot_opp_l by lia. by rewrite Z.quot_div_nonneg by lia.
Qed.

Lemma mul_int64_exact a b : in_i64 a -> in_i64 b ->
  sqlite3MulInt64 a b = if decide (in_i64 (a * b)) then (0, a * b) else (1, a).
Proof.
  intros Ha Hb. unfold sqlite3MulInt64.
  assert (forall x, (~ in_i64 (a * b)) ->
    x = (1, a) -> x = if decide (in_i64 (a * b)) then (0, a * b) else (1, a)) as Hov.
  { intros x Hn ->. by rewrite decide_False. }
  assert (in_i64 (a * b) -> (0, i64 (a * b)) = if decide (in_i64 (a * b)) then (0, a * b) else (1, a))
    as Hok by (intros Hr; by rewrite decide_True, i64_small).
  unfold in_i64, SMALLEST_INT64, LARGEST_INT64 in Ha, Hb.
  destruct (0 <? b) eqn:Eb; breflect; [|destruct (b <? 0) eqn:Eb'; breflect].
  - rewrite quot_small_neg, Z.quot_div_nonneg by (unfold LARGEST_INT64; lia).
    pose proof (div_lt_iff LARGEST_INT64 a b ltac:(lia)).
    pose proof (div_lt_iff (2 ^ 63) (- a) b ltac:(lia)).
    case_if; [apply Hov; [|done]; unfold in_i64, LARGEST_INT64 in *; lia|].
    case_if; [apply Hov; [|done]; unfold in_i64, SMALLEST_INT64 in *; lia|].
    apply Hok. unfold in_i64, SMALLEST_INT64, LARGEST_INT64 in *. lia.
  - destruct (0 <? a) eqn:Ea; breflect; [|destruct (a <? 0) eqn:Ea'; breflect].
    + rewrite quot_small_neg by lia.
      pose proof (div_lt_iff (2 ^ 63) (- b) a ltac:(lia)).
      case_if; [apply Hov; [|done]; unfold in_i64, SMALLEST_INT64 in *; lia|].
      apply Hok. unfold in_i64, SMALLEST_INT64, LARGEST_INT64 in *. nia.
    + case_if; [apply Hov; [|done]; unfold in_i64, SMALLEST_INT64, LARGEST_INT64 in *; nia|].
      case_if; [apply Hov; [|done]; unfold in_i64, SMALLEST_INT64, LARGEST_INT64 in *; nia|].
      rewrite (i64_small (- a)), (i64_small (- b))
        by (unfold in_i64, SMALLEST_INT64, LARGEST_INT64 in *; lia).
      rewrite Z.quot_div_nonneg by (unfold LARGEST_INT64; lia).
      pose proof (div_lt_iff LARGEST_INT64 (- a) (- b) ltac:(lia)).
      case_if; [apply Hov; [|done]; unfold in_i64, LARGEST_INT64 in *; lia|].
      apply Hok. unfold in_i64, SMALLEST_INT64, LARGEST_INT64 in *. nia.
    + apply Hok. replace a with 0 by lia. unfold in_i64, SMALLEST_INT64, LARGEST_INT64. lia.
  - apply Hok. replace b with 0 by lia. unfold in_i64, SMALLEST_INT64, LARGEST_INT64. lia.
Qed.

(** The checked operators answer the exact result when it fits 64 bits and otherwise report
    the overflow and leave the operand as it was; the 32-bit absolute value saturates. *)
Theorem int64_overflow_checked a b x : in_i64 a -> in_i64 b -> - 2 ^ 31 <= x < 2 ^ 31 ->
  sqlite3AddInt64 a b = (if decide (in_i64 (a + b)) then (0, a + b) else (1, a)) /\
  sqlite3SubInt64 a b = (if decide (in_i64 (a - b)) then (0, a - b) else (1, a)) /\
  sqlite3MulInt64 a b = (if decide (in_i64 (a * b)) then (0, a * b) else (1, a)) /\
  sqlite3AbsInt32 x = Z.min (Z.abs x) (2 ^ 31 - 1).
Proof.
  intros Ha Hb Hx. split_and!.
  - by apply add_int64_exact.
  - by apply sub_int64_exact.
  - by apply mul_int64_exact.
  - unfold sqlite3AbsInt32. change (i32 2147483648) with (- 2 ^ 31). pow2.
    repeat case_if; [lia|lia|]. rewrite wraps_small; [lia|lia|].
    change (2 ^ (32 - 1)) with 2147483648. lia.
Qed.

Lemma int64_overflow_checked_witness :
  (in_i64 LARGEST_INT64 /\ in_i64 2 /\ - 2 ^ 31 <= - 2 ^ 31 < 2 ^ 31) /\
  sqlite3MulInt64 LARGEST_INT64 2 = (1, LARGEST_INT64).
Proof.
  assert (in_i64 LARGEST_INT64) as H1 by (vm_compute; split; discriminate).
  assert (in_i64 2) as H2 by (vm_compute; split; discriminate).
  assert (- 2 ^ 31 <= - 2 ^ 31 < 2 ^ 31) as H3 by lia.
  split; [done|].
  pose proof (int64_overflow_checked LARGEST_INT64 2 (- 2 ^ 31) H1 H2 H3) as (_ & _ & Hm & _).
  rewrite Hm. reflexivity.
Defined.

(** ** Lemmas: logarithmic estimates *)

(** [x] has the four leading bits [m] at position [k]; [y] is the state of the code's scale. *)
Definition scaled (x0 x y : Z) : Prop :=
  exists k, 0 <= k <= 60 /\ x = x0 / 2 ^ k /\ y = 40 + 10 * k.

Lemma scaled_div x0 x y sh : 0 <= x0 < 2 ^ 64 -> 0 <= sh <= 4 -> 2 ^ (sh + 3) <= x ->
  scaled x0 x y -> scaled x0 (Z.shiftr x sh) (i16 (y + 10 * sh)).
Proof.
  intros H0 Hsh Hx (k & Hk & -> & ->). exists (k + sh).
  assert (k + sh <= 60).
  { destruct (decide (k + sh <= 60)); [done|].
    assert (x0 / 2 ^ k < 2 ^ (sh + 3)); [|lia].
    apply Z.div_lt_upper_bound; [apply Z.pow_pos_nonneg; lia|].
    rewrite <- Z.pow_add_r by lia.
    assert (2 ^ 64 <= 2 ^ (k + (sh + 3))) by (apply Z.pow_le_mono_r; lia). lia. }
  split; [lia|]. split.
  - rewrite Z.shiftr_div_pow2, Z.div_div, <- Z.pow_add_r by (lia || apply Z.pow_nonzero; lia || apply Z.pow_pos_nonneg; lia).
    done.
  - rewrite wraps_small; [lia|lia|]. change (2 ^ (16 - 1)) with 32768. lia.
Qed.

Lemma logest_down_spec x0 lim sh dy n : forall fuel x y,
  0 <= x0 < 2 ^ 64 -> 0 < sh <= 4 -> dy = 10 * sh -> 2 ^ (sh + 3) <= lim + 1 -> 0 <= x ->
  x < 2 ^ (sh * Z.of_nat n) -> (n < fuel)%nat -> scaled x0 x y -> 8 <= x ->
  exists x' y', logest_down fuel lim sh dy x y = Some (x', y') /\ scaled x0 x' y' /\
    8 <= x' <= Z.max 8 lim.
Proof.
  induction n as [|n IH]; intros fuel x y H0 Hsh Hdy Hlim Hx Hn Hf Hs H8;
    (destruct fuel as [|fuel]; [lia|]); cbn [logest_down].
  - rewrite Z.mul_0_r in Hn. lia.
  - case_if; [|by exists x, y; repeat split; [done|lia|lia]].
    assert (2 ^ (sh + 3) = 8 * 2 ^ sh) as Hp by (rewrite Z.pow_add_r by lia; lia).
    assert (0 < 2 ^ sh) by (apply Z.pow_pos_nonneg; lia).
    apply IH; try done.
    + apply Z.shiftr_nonneg; lia.
    + rewrite Z.shiftr_div_pow2 by lia. apply Z.div_lt_upper_bound; [done|].
      rewrite <- Z.pow_add_r by lia. replace (sh + sh * Z.of_nat n) with (sh * Z.of_nat (S n)) by lia. lia.
    + lia.
    + subst dy. apply scaled_div; [done|lia|lia|done].
    + rewrite Z.shiftr_div_pow2 by lia. apply Z.div_le_lower_bound; lia.
Qed.

(** The estimate is the leading four bits' table entry plus ten times the exponent. *)
Definition logest_of (m k : Z) : Z := zat logest_a (m - 8) + 10 * k + 30.

Lemma logest_big x : 8 <= x < 2 ^ 64 ->
  exists m k, 8 <= m < 16 /\ 0 <= k <= 60 /\ m = x / 2 ^ k /\
    sqlite3LogEst x = Some (logest_of m k).
Proof.
  intros Hx. unfold sqlite3LogEst. rewrite (proj2 (Z.ltb_ge x 8)) by lia.
  assert (scaled x x 40) as Hs by (exists 0; rewrite Z.div_1_r; lia).
  destruct (logest_down_spec x 255 4 40 16 17 x 40) as (x1 & y1 & E1 & Hs1 & Hr1);
    try done; try lia.
  rewrite E1. cbn [mbind option_bind].
  destruct (logest_down_spec x 15 1 10 8 9 x1 y1) as (x2 & y2 & E2 & Hs2 & Hr2);
    try done; try lia.
  rewrite E2. destruct Hs2 as (k & Hk & Hx2 & Hy2).
  exists x2, k. split_and!; try done; try lia. cbn [fmap option_fmap option_map].
  f_equal. unfold logest_of. subst y2.
  assert (Z.land x2 7 = x2 - 8) as ->.
  { change 7 with (Z.ones 3). rewrite Z.land_ones by lia. change (2 ^ 3) with 8.
    replace x2 with (x2 - 8 + 1 * 8) at 1 by lia. rewrite Z.mod_add, Z.mod_small by lia. done. }
  assert (0 <= zat logest_a (x2 - 8) < 256) as Ha.
  { apply (zat_range logest_a). unfold logest_a. solve_bytes. }
  rewrite wraps_small; [lia|lia|]. change (2 ^ (16 - 1)) with 32768. lia.
Qed.

(** [m^10] against the table entry of [m]: a tenth of the exponent is a tenth of the bits. *)
Lemma logest_table m : 8 <= m < 16 ->
  2 ^ (zat logest_a (m - 8) + 29) <= m ^ 10 /\ (m + 1) ^ 10 <= 2 ^ (zat logest_a (m - 8) + 32) /\
  0 <= zat logest_a (m - 8) < 10.
Proof.
  intros Hm. assert (m = 8 \/ m = 9 \/ m = 10 \/ m = 11 \/ m = 12 \/ m = 13 \/ m = 14 \/ m = 15)
    as H by lia.
  repeat (destruct H as [->|H]; [vm_compute; repeat split; discriminate|]).
  subst. vm_compute. repeat split; discriminate.
Qed.

Lemma logest_table_mono m1 m2 : 8 <= m1 <= m2 -> m2 < 16 ->
  zat logest_a (m1 - 8) <= zat logest_a (m2 - 8).
Proof.
  intros H1 H2.
  assert (forallb (fun a => forallb (fun b => implb (a <=? b)%nat
    (zat logest_a (Z.of_nat a) <=? zat logest_a (Z.of_nat b))) (seq 0 8)) (seq 0 8) = true) as H
    by (vm_compute; reflexivity).
  rewrite forallb_forall in H. specialize (H (Z.to_nat (m1 - 8)) ltac:(apply in_seq; lia)).
  cbv beta in H. rewrite forallb_forall in H.
  specialize (H (Z.to_nat (m2 - 8)) ltac:(apply in_seq; lia)). cbv beta in H.
  rewrite (proj2 (Nat.leb_le _ _)) in H by lia. cbn [implb] in H. breflect.
  rewrite !Z2Nat.id in H by lia. done.
Qed.

Lemma logest_bounds x m k : 8 <= m < 16 -> 0 <= k -> m = x / 2 ^ k ->
  2 ^ (logest_of m k - 1) <= x ^ 10 < 2 ^ (logest_of m k + 2).
Proof.
  intros Hm Hk Hd. destruct (logest_table m Hm) as (Hlo & Hhi & Ha).
  assert (0 < 2 ^ k) as Hp by (apply Z.pow_pos_nonneg; lia).
  pose proof (Z.div_mod x (2 ^ k) ltac:(lia)) as Hdm.
  pose proof (Z.mod_pos_bound x (2 ^ k) Hp) as Hmod. rewrite <- Hd in Hdm.
  unfold logest_of. split.
  - replace (zat logest_a (m - 8) + 10 * k + 30 - 1) with (zat logest_a (m - 8) + 29 + k * 10) by lia.
    rewrite Z.pow_add_r, Z.pow_mul_r by lia.
    transitivity (m ^ 10 * (2 ^ k) ^ 10); [apply Z.mul_le_mono_nonneg_r; [lia|done]|].
    rewrite <- Z.pow_mul_l. apply Z.pow_le_mono_l. nia.
  - replace (zat logest_a (m - 8) + 10 * k + 30 + 2) with (zat logest_a (m - 8) + 32 + k * 10) by lia.
    rewrite Z.pow_add_r, Z.pow_mul_r by lia.
    apply Z.lt_le_trans with ((m + 1) ^ 10 * (2 ^ k) ^ 10);
      [|apply Z.mul_le_mono_nonneg_r; [lia|done]].
    rewrite <- Z.pow_mul_l. apply Z.pow_lt_mono_l; nia.
Qed.

Definition logest_small : list Z := [0; 0; 10; 16; 20; 23; 26; 28].

Lemma logest_below8 x : 0 <= x < 8 -> sqlite3LogEst x = Some (zat logest_small x).
Proof.
  intros Hx. assert (x = 0 \/ x = 1 \/ x = 2 \/ x = 3 \/ x = 4 \/ x = 5 \/ x = 6 \/ x = 7) as H by lia.
  repeat (destruct H as [->|H]; [reflexivity|]). by subst.
Qed.

Lemma logest_mono_big x1 x2 m1 k1 m2 k2 : 8 <= m1 < 16 -> 8 <= m2 < 16 -> 0 <= k1 -> 0 <= k2 ->
  m1 = x1 / 2 ^ k1 -> m2 = x2 / 2 ^ k2 -> 0 <= x1 <= x2 -> logest_of m1 k1 <= logest_of m2 k2.
Proof.
  intros H1 H2 Hk1 Hk2 E1 E2 Hx. unfold logest_of.
  destruct (logest_table m1 H1) as (_ & _ & Ha1). destruct (logest_table m2 H2) as (_ & _ & Ha2).
  destruct (decide (k1 < k2)); [lia|].
  assert (k1 = k2) as ->.
  { destruct (decide (k1 = k2)); [done|].
    assert (x2 < 16 * 2 ^ k2).
    { pose proof (Z.div_mod x2 (2 ^ k2)). assert (0 < 2 ^ k2) by (apply Z.pow_pos_nonneg; lia).
      pose proof (Z.mod_pos_bound x2 (2 ^ k2)). nia. }
    assert (8 * 2 ^ k1 <= x1).
    { assert (0 < 2 ^ k1) by (apply Z.pow_pos_nonneg; lia).
      pose proof (Z.div_mod x1 (2 ^ k1)). pose proof (Z.mod_pos_bound x1 (2 ^ k1)). nia. }
    assert (2 * 2 ^ k2 <= 2 ^ k1).
    { replace (2 * 2 ^ k2) with (2 ^ (k2 + 1)) by (rewrite Z.pow_add_r by lia; lia).
      apply Z.pow_le_mono_r; lia. }
    lia. }
  assert (m1 <= m2).
  { rewrite E1, E2. apply Z.div_le_mono; [apply Z.pow_pos_nonneg; lia|lia]. }
  pose proof (logest_table_mono m1 m2). lia.
Qed.

Lemma logest_small_ok x : 1 <= x < 8 ->
  0 <= zat logest_small x <= 28 /\ 2 ^ (Z.max 0 (zat logest_small x - 1)) <= x ^ 10
    < 2 ^ (zat logest_small x + 2) /\
  forall x', x <= x' < 8 -> zat logest_small x <= zat logest_small x'.
Proof.
  intros Hx. assert (x = 1 \/ x = 2 \/ x = 3 \/ x = 4 \/ x = 5 \/ x = 6 \/ x = 7) as H by lia.
  split; [|split].
  - repeat (destruct H as [->|H]; [vm_compute; split; discriminate|]). subst. vm_compute. split; discriminate.
  - repeat (destruct H as [->|H]; [vm_compute; split; [discriminate|reflexivity]|]).
    subst. vm_compute. split; [discriminate|reflexivity].
  - intros x' Hx'.
    assert (x' = 1 \/ x' = 2 \/ x' = 3 \/ x' = 4 \/ x' = 5 \/ x' = 6 \/ x' = 7) as H' by lia.
    repeat (destruct H as [->|H];
      [repeat (destruct H' as [->|H']; [lia || (vm_compute; discriminate)|]); subst;
       lia || (vm_compute; discriminate)|]).
    subst. assert (x' = 7) as -> by lia. vm_compute; discriminate.
Qed.

Lemma logest_add_x_range i : 0 <= i <= 31 -> 2 <= zat logest_add_x i <= 10.
Proof.
  intros Hi. pose proof (proj1 (forallb_forall (fun n => (2 <=? zat logest_add_x (Z.of_nat n)) &&
    (zat logest_add_x (Z.of_nat n) <=? 10)) (seq 0 32)) ltac:(vm_compute; reflexivity)
    (Z.to_nat i) ltac:(apply in_seq; lia)) as H.
  cbv beta in H. rewrite Z2Nat.id in H by lia. breflect. lia.
Qed.

Lemma logest_add_bounds e b : 0 <= e <= 640 -> 0 <= b <= 640 ->
  Z.max e b <= sqlite3LogEstAdd e b <= Z.max e b + 10 /\
  sqlite3LogEstAdd e b = sqlite3LogEstAdd b e.
Proof.
  assert (forall z, 0 <= z <= 1000 -> i16 z = z) as Hw.
  { intros z Hz. apply wraps_small; [lia|]. change (2 ^ (16 - 1)) with 32768. lia. }
  intros He Hb. unfold sqlite3LogEstAdd.
  pose proof (logest_add_x_range (e - b)) as R1. pose proof (logest_add_x_range (b - e)) as R2.
  destruct (b <=? e) eqn:E1, (e <=? b) eqn:E2; breflect; try lia.
  - replace b with e in * by lia. repeat case_if; rewrite ?Hw by lia; lia.
  - repeat case_if; rewrite ?Hw by lia; lia.
  - repeat case_if; rewrite ?Hw by lia; lia.
Qed.

(** For every 64-bit [x] the estimate exists, lies within one below and two above ten times
    the binary logarithm of [x] (so [2^(e-1) <= x^10 < 2^(e+2)]), and is monotone in [x]; the
    estimate of a sum is at least the larger and at most ten more. *)
Theorem logest_accuracy x : 1 <= x < 2 ^ 64 ->
  exists e, sqlite3LogEst x = Some e /\ 0 <= e <= 640 /\
    2 ^ (Z.max 0 (e - 1)) <= x ^ 10 < 2 ^ (e + 2) /\
    (forall x' e', x <= x' < 2 ^ 64 -> sqlite3LogEst x' = Some e' -> e <= e') /\
    (forall b, 0 <= b <= 640 -> Z.max e b <= sqlite3LogEstAdd e b <= Z.max e b + 10 /\
       sqlite3LogEstAdd e b = sqlite3LogEstAdd b e).
Proof.
  intros Hx.
  assert (forall e, 0 <= e <= 640 -> forall b, 0 <= b <= 640 ->
    Z.max e b <= sqlite3LogEstAdd e b <= Z.max e b + 10 /\
    sqlite3LogEstAdd e b = sqlite3LogEstAdd b e) as Hadd by (intros; by apply logest_add_bounds).
  destruct (decide (x < 8)) as [Hs|Hs].
  - exists (zat logest_small x). rewrite logest_below8 by lia.
    assert (0 <= zat logest_small x <= 28 /\ 2 ^ (Z.max 0 (zat logest_small x - 1)) <= x ^ 10
      < 2 ^ (zat logest_small x + 2) /\ forall x', x <= x' < 8 -> zat logest_small x <= zat logest_small x')
      as (He & Hb & Hm) by (apply logest_small_ok; lia).
    split_and!; try done; try lia.
    + intros x' e' Hx' He'. destruct (decide (x' < 8)).
      * rewrite logest_below8 in He' by lia. simplify_eq. apply Hm. lia.
      * destruct (logest_big x') as (m & k & Hm' & Hk & _ & E); [lia|].
        rewrite E in He'. simplify_eq. unfold logest_of.
        pose proof (logest_table m Hm'). lia.
    + apply Hadd. lia.
  - destruct (logest_big x) as (m & k & Hm & Hk & Hd & E); [lia|].
    exists (logest_of m k). rewrite E. pose proof (logest_table m Hm) as (_ & _ & Ha).
    pose proof (logest_bounds x m k Hm ltac:(lia) Hd) as Hb.
    assert (30 <= logest_of m k <= 640) by (unfold logest_of; lia).
    rewrite Z.max_r by lia. split_and!; try done; try lia.
    + intros x' e' Hx' He'. destruct (logest_big x') as (m' & k' & Hm' & Hk' & Hd' & E'); [lia|].
      rewrite E' in He'. simplify_eq. eapply logest_mono_big; eauto; lia.
    + apply Hadd. lia.
Qed.

Lemma logest_accuracy_witness :
  1 <= 1000 < 2 ^ 64 /\ exists e, sqlite3LogEst 1000 = Some e /\
    2 ^ (Z.max 0 (e - 1)) <= 1000 ^ 10 < 2 ^ (e + 2).
Proof.
  assert (1 <= 1000 < 2 ^ 64) as H by lia. split; [done|].
  destruct (logest_accuracy 1000 H) as (e & He & _ & Hb & _). exists e. split; [exact He|exact Hb].
Defined.

(** ** Decimal text *)

Definition isdig (c : Z) : bool := (48 <=? c) && (c <=? 57).

Definition dval (l : list Z) : Z := fold_left (fun a c => 10 * a + (c - 48)) l 0.

Fixpoint dropw (f : Z -> bool) (z : list Z) : list Z :=
  match z with c :: z' => if f c then dropw f z' else z | [] => [] end.

Fixpoint takew (f : Z -> bool) (z : list Z) : list Z :=
  match z with c :: z' => if f c then c :: takew f z' else [] | [] => [] end.

(** The text as spaces, a sign, digits and a rest; the number over the unbounded integers; and
    what a conversion to 64 bits makes of it. *)
Definition split_sign (z : list Z) : bool * list Z :=
  match z with
  | c :: z' => if c =? 45 then (true, z') else if c =? 43 then (false, z') else (false, z)
  | [] => (false, z)
  end.

Definition atoi_result (neg : bool) (ds after : list Z) : Z * Z :=
  let V := if neg then - dval ds else dval ds in
  (if bool_decide (ds = []) then -1
   else if bool_decide (in_i64 V) then
     match dropw sqlite3Isspace after with [] => 0 | _ => 1 end
   else if V =? 2 ^ 63 then 3 else 2,
   Z.max SMALLEST_INT64 (Z.min LARGEST_INT64 V)).

Definition atoi_spec (t : list Z) : Z * Z :=
  let '(neg, t2) := split_sign (dropw sqlite3Isspace t) in
  atoi_result neg (takew isdig t2) (dropw isdig t2).

Lemma dval_app l1 l2 : dval (l1 ++ l2) = dval l1 * 10 ^ zlen l2 + dval l2.
Proof.
  unfold dval. rewrite fold_left_app. generalize (fold_left (fun a c => 10 * a + (c - 48)) l1 0).
  induction l2 as [|c l2 IH] using rev_ind; intros a; [simpl; change (zlen []) with 0; lia|].
  rewrite !fold_left_app, IH. simpl. rewrite zlen_app. change (zlen [c]) with 1.
  rewrite Z.pow_add_r by (pose proof (zlen_nonneg l2); lia). lia.
Qed.

Lemma dval_cons c l : dval (c :: l) = (c - 48) * 10 ^ zlen l + dval l.
Proof. pose proof (dval_app [c] l) as E. cbn [app] in E. rewrite E. unfold dval at 1. simpl. lia. Qed.

Lemma dval_range l : Forall (fun c => isdig c = true) l -> 0 <= dval l < 10 ^ zlen l.
Proof.
  induction 1 as [|c l Hc _ IH]; [vm_compute; split; [discriminate|done]|].
  rewrite dval_cons, zlen_cons, Z.pow_add_r by (pose proof (zlen_nonneg l); lia).
  unfold isdig in Hc. breflect. nia.
Qed.

Lemma takew_all f z : Forall (fun c => f c = true) (takew f z).
Proof. induction z as [|c z IH]; simpl; [done|]. destruct (f c) eqn:E; constructor; done. Qed.

Lemma skip_while_dropw f z : forall k, (length z <= k)%nat -> skip_while k f 1 z = dropw f z.
Proof.
  induction z as [|c z IH]; intros [|k] Hk; simpl in *; try done; try lia.
  destruct (f c); [|done]. rewrite drop_0. apply IH. lia.
Qed.

Lemma dropw_length f z : (length (dropw f z) <= length z)%nat.
Proof. induction z as [|c z IH]; simpl; [lia|]. destruct (f c); simpl; lia. Qed.

Lemma dropw_bytes f z : bytes_ok z -> bytes_ok (dropw f z).
Proof. induction 1 as [|c z Hc Hz IH]; simpl; [done|]. destruct (f c); [done|by constructor]. Qed.

Lemma digit_char c : is_byte c -> (u32 (i8 c - 48) <=? 9) = isdig c /\
  (isdig c = true -> u32 (i8 c - 48) = c - 48 /\ i8 c = c).
Proof.
  intros Hc.
  pose proof (all_bytes_spec (fun c => Bool.eqb (u32 (i8 c - 48) <=? 9) (isdig c) &&
    implb (isdig c) ((u32 (i8 c - 48) =? c - 48) && (i8 c =? c))) c ltac:(vm_compute; reflexivity) Hc)
    as H. cbv beta in H. breflect.
  match goal with H : Bool.eqb _ _ = true |- _ => apply eqb_prop in H end.
  split; [done|]. intros Hd. rewrite Hd in *. cbn [implb] in *. breflect. done.
Qed.

Lemma u64_step a d : u64 (u64 a * 10 + d) = u64 (a * 10 + d).
Proof. unfold wrapu. by rewrite Zplus_mod, Zmult_mod_idemp_l, <- Zplus_mod. Qed.

Lemma atoi_digits_spec z : forall k a i, (length z <= k)%nat -> bytes_ok z ->
  atoi_digits k 1 z (u64 a) i =
  (u64 (a * 10 ^ zlen (takew isdig z) + dval (takew isdig z)),
   i + zlen (takew isdig z), dropw isdig z).
Proof.
  induction z as [|c z IH]; intros [|k] a i Hk Hz; cbn [length] in Hk; try lia.
  1,2: (simpl; change (zlen []) with 0; unfold dval; simpl; repeat f_equal; lia).
  inversion Hz as [|? ? Hc Hz']; subst.
  destruct (digit_char c Hc) as [Hd Hv]. cbn [atoi_digits takew dropw]. rewrite Hd.
  destruct (isdig c) eqn:E.
  - destruct (Hv eq_refl) as [-> _]. cbn [drop]. rewrite u64_step, IH by (done || lia).
    rewrite dval_cons, zlen_cons, Z.pow_add_r by (pose proof (zlen_nonneg (takew isdig z)); lia).
    f_equal. f_equal; [f_equal; ring|lia].
  - change (zlen []) with 0. unfold dval; simpl. repeat f_equal; lia.
Qed.

(** Leading zeros do not change the number, nor what follows it. *)
Lemma skip_zeros z : let z' := dropw (fun c => c =? 48) z in
  dval (takew isdig z') = dval (takew isdig z) /\ dropw isdig z' = dropw isdig z /\
  (zlen z' = zlen z -> z' = z) /\ (z' <> z -> takew isdig z <> []) /\
  (takew isdig z' = [] \/ 49 <= zat (takew isdig z') 0).
Proof.
  induction z as [|c z IH]; cbn [dropw takew]; [by repeat split; auto|].
  destruct (c =? 48) eqn:E; breflect.
  - subst c. change (isdig 48) with true. cbv iota. destruct IH as (H1 & H2 & H3 & H4 & H5).
    split_and!; try done.
    + intros Hl. rewrite zlen_cons in Hl. pose proof (dropw_length (fun c => c =? 48) z).
      unfold zlen in Hl. lia.
  - split_and!; try done. cbn [takew]. destruct (isdig c) eqn:Ed; [right|by left].
    change (zat _ 0) with c. unfold isdig in Ed. breflect. lia.
Qed.

Lemma zat_drop z i : zat (drop i z) 0 = zat z (Z.of_nat i).
Proof.
  unfold zat. rewrite Nat2Z.id. change (Z.to_nat 0) with 0%nat.
  revert z. induction i as [|i IH]; intros [|c z]; cbn [drop nth]; try done.
Qed.

Lemma take_S_drop k i (z : list Z) : (i < length z)%nat ->
  take (S k) (drop i z) = zat z (Z.of_nat i) :: take k (drop (S i) z).
Proof.
  intros Hi. rewrite <- zat_drop. replace (S i) with (i + 1)%nat by lia. rewrite <- drop_drop.
  assert (length (drop i z) <> 0%nat) as Hl by (rewrite length_drop; lia).
  destruct (drop i z); [done|]. reflexivity.
Qed.

Lemma compare_loop_spec k : forall z i, (i + k <= length z)%nat -> (i + k = 18)%nat -> bytes_ok z ->
  Forall (fun c => isdig c = true) (take k (drop i z)) ->
  Z.sgn (compare2pow63_loop k z 1 (Z.of_nat i)) =
  Z.sgn (dval (take k (drop i z)) - dval (take k (drop i pow63_digits))).
Proof.
  induction k as [|k IH]; intros z i Hz Hi Hb Hd; [done|]. cbn [compare2pow63_loop].
  rewrite !take_S_drop in * by (done || lia || (change (length pow63_digits) with 18%nat; lia)).
  rewrite !dval_cons. apply Forall_cons in Hd as [Hc Hd].
  rewrite Z.mul_1_r. destruct (digit_char (zat z (Z.of_nat i)) (zat_range _ _ Hb)) as [_ Hv].
  destruct (Hv Hc) as [_ ->].
  assert (zlen (take k (drop (S i) z)) = Z.of_nat k) as ->.
  { unfold zlen. rewrite length_take, length_drop. lia. }
  assert (zlen (take k (drop (S i) pow63_digits)) = Z.of_nat k) as Hl.
  { unfold zlen. rewrite length_take, length_drop. change (length pow63_digits) with 18%nat. lia. }
  rewrite Hl.
  pose proof (dval_range _ Hd) as R1.
  assert (Forall (fun c => isdig c = true) (take k (drop (S i) pow63_digits))) as Hp.
  { apply Forall_take, Forall_drop. repeat (apply Forall_cons_2; [reflexivity|]). apply Forall_nil_2. }
  pose proof (dval_range _ Hp) as R2. rewrite Hl in R2.
  assert (zlen (take k (drop (S i) z)) = Z.of_nat k) as Hl1.
  { unfold zlen. rewrite length_take, length_drop. lia. }
  rewrite Hl1 in R1. assert (0 < 10 ^ Z.of_nat k) by (apply Z.pow_pos_nonneg; lia).
  case_if.
  - replace (Z.of_nat i + 1) with (Z.of_nat (S i)) by lia. rewrite IH by (done || lia).
    f_equal. replace (zat z (Z.of_nat i)) with (zat pow63_digits (Z.of_nat i)) by lia. lia.
  - destruct (Z.lt_total (zat z (Z.of_nat i)) (zat pow63_digits (Z.of_nat i))) as [|[|]]; [|lia|].
    + rewrite !Z.sgn_neg by nia. done.
    + rewrite !Z.sgn_pos by nia. done.
Qed.

Lemma compare2pow63_spec ds rest : bytes_ok (ds ++ rest) -> zlen ds = 19 ->
  Forall (fun c => isdig c = true) ds ->
  Z.sgn (compare2pow63 (ds ++ rest) 1) = Z.sgn (dval ds - 2 ^ 63).
Proof.
  intros Hb Hl Hd. unfold compare2pow63.
  assert (length ds = 19%nat) as Hn by (unfold zlen in Hl; lia).
  pose proof (compare_loop_spec 18 (ds ++ rest) 0) as Hc. rewrite length_app in Hc.
  specialize (Hc ltac:(lia) eq_refl Hb). rewrite !drop_0, take_app_le in Hc by lia.
  specialize (Hc ltac:(by apply Forall_take)). change (Z.of_nat 0) with 0 in Hc.
  change (dval (take 18 pow63_digits)) with 922337203685477580 in Hc.
  assert (exists d, ds = take 18 ds ++ [d] /\ zat (ds ++ rest) 18 = d) as (d & Hsplit & Hat).
  { exists (zat ds 18). split.
    - rewrite <- (take_drop 18 ds) at 1. f_equal.
      change [zat ds 18] with (zat ds (Z.of_nat 18) :: take 0 (drop 19 ds)).
      rewrite <- (take_S_drop 0 18) by lia. symmetry. apply take_ge. rewrite length_drop. lia.
    - unfold zat. change (Z.to_nat 18) with 18%nat. apply app_nth1. lia. }
  rewrite Hsplit in Hd. apply Forall_app in Hd as [Hd1 Hd2]. apply Forall_inv in Hd2.
  assert (is_byte d) as Hdb by (subst d; by apply zat_range).
  pose proof (dval_app (take 18 ds) [d]) as Hdv. rewrite <- Hsplit in Hdv.
  change (zlen [d]) with 1 in Hdv. change (dval [d]) with (10 * 0 + (d - 48)) in Hdv.
  change (18 * 1) with 18. rewrite Hat.
  destruct (digit_char d Hdb) as [_ Hv]. destruct (Hv Hd2) as [_ ->].
  unfold isdig in Hd2. breflect. change (2 ^ 63) with 9223372036854775808.
  case_if.
  - rewrite Hif in Hc. change (Z.sgn 0) with 0 in Hc.
    assert (dval (take 18 ds) = 922337203685477580) by lia. lia.
  - lia.
Qed.

Lemma in_i64_iff V : in_i64 V <-> - 2 ^ 63 <= V <= 2 ^ 63 - 1.
Proof. done. Qed.

Lemma takew_dropw f z : takew f z ++ dropw f z = z.
Proof. induction z as [|c z IH]; simpl; [done|]. destruct (f c); simpl; congruence. Qed.

Lemma dval_lower ds : Forall (fun c => isdig c = true) ds -> 49 <= zat ds 0 ->
  10 ^ (zlen ds - 1) <= dval ds.
Proof.
  destruct 1 as [|c l Hc Hl]; [intros H; vm_compute in H; congruence|].
  change (zat (c :: l) 0) with c. intros H. rewrite dval_cons, zlen_cons.
  pose proof (dval_range l Hl). replace (1 + zlen l - 1) with (zlen l) by lia. nia.
Qed.

(** The result when the digits fit. *)
Lemma atoi_result_fits (neg : bool) ds after : 0 <= dval ds < 2 ^ 63 ->
  (if bool_decide (ds = []) then -1 else
     match dropw sqlite3Isspace after with [] => 0 | _ => 1 end,
   if LARGEST_INT64 <? u64 (dval ds) then (if neg then SMALLEST_INT64 else LARGEST_INT64)
   else if neg then i64 (- u64 (dval ds)) else u64 (dval ds)) = atoi_result neg ds after.
Proof.
  intros H. unfold atoi_result. rewrite (wrapu_small 64) by lia.
  assert (in_i64 (dval ds) /\ in_i64 (- dval ds)) as [HN1 HN2] by (rewrite !in_i64_iff; lia).
  rewrite (bool_decide_eq_true_2 (in_i64 _)) by (by destruct neg). f_equal.
  rewrite (proj2 (Z.ltb_ge _ _)) by (unfold LARGEST_INT64; lia).
  unfold SMALLEST_INT64, LARGEST_INT64. destruct neg; [rewrite i64_small by done|]; lia.
Qed.

(** The result when they reach [2^63]: [j] compares them with it. *)
Lemma atoi_result_big (neg : bool) ds after rc j : ds <> [] -> 2 ^ 63 <= dval ds ->
  Z.sgn j = Z.sgn (dval ds - 2 ^ 63) ->
  rc = (if bool_decide (ds = []) then -1 else
     match dropw sqlite3Isspace after with [] => 0 | _ => 1 end) ->
  (if 0 <? j then (2, if neg then SMALLEST_INT64 else LARGEST_INT64)
   else (if neg then rc else 3, if neg then SMALLEST_INT64 else LARGEST_INT64)) =
  atoi_result neg ds after.
Proof.
  intros Hds Hbig Hsg ->. unfold atoi_result, SMALLEST_INT64, LARGEST_INT64.
  rewrite (bool_decide_eq_false_2 (ds = [])) by done.
  destruct (0 <? j) eqn:Ej; breflect.
  - destruct neg; rewrite (bool_decide_eq_false_2 (in_i64 _)) by (rewrite in_i64_iff; lia);
      rewrite (proj2 (Z.eqb_neq _ _)) by lia; f_equal; lia.
  - assert (dval ds = 2 ^ 63) as -> by lia. destruct neg.
    + by rewrite (bool_decide_eq_true_2 (in_i64 _)) by (rewrite in_i64_iff; lia).
    + by rewrite (bool_decide_eq_false_2 (in_i64 _)) by (rewrite in_i64_iff; lia).
Qed.

(** The leading digit is not zero, so the number of digits bounds the number from below. *)
Lemma dval_many ds n : Forall (fun c => isdig c = true) ds -> ds = [] \/ 49 <= zat ds 0 ->
  0 < n < zlen ds -> 10 ^ n <= dval ds.
Proof.
  intros Hd [->|Hl] Hn; [change (zlen []) with 0 in Hn; lia|].
  pose proof (dval_lower ds Hd Hl).
  assert (10 ^ n <= 10 ^ (zlen ds - 1)) by (apply Z.pow_le_mono_r; lia). lia.
Qed.

Lemma atoi64_number_spec fuel neg z : (length z < fuel)%nat -> bytes_ok z ->
  atoi64_number fuel 1 neg false z = atoi_result neg (takew isdig z) (dropw isdig z).
Proof.
  intros Hf Hz. unfold atoi64_number. rewrite skip_while_dropw by lia.
  destruct (skip_zeros z) as (Hv & Hrest & Hlen & Hne & Hlead).
  set (z' := dropw (fun c => c =? 48) z) in *.
  assert (bytes_ok z') as Hz' by by apply dropw_bytes.
  assert (length z' <= length z)%nat as Hl' by apply dropw_length.
  change (atoi_digits fuel 1 z' 0 0) with (atoi_digits fuel 1 z' (u64 0) 0).
  rewrite (atoi_digits_spec z' fuel 0 0) by (done || lia). rewrite Z.mul_0_l, !Z.add_0_l.
  rewrite skip_while_dropw by (pose proof (dropw_length isdig z'); lia).
  rewrite Hv, Hrest. cbv zeta. set (ds' := takew isdig z') in *.
  pose proof (takew_all isdig z') as Hd'. fold ds' in Hd'. pose proof (dval_range ds' Hd') as Hr.
  assert ((zlen ds' =? 0) && (zlen z =? zlen z') = bool_decide (takew isdig z = [])) as ->.
  { apply eq_true_iff_eq. rewrite bool_decide_eq_true. split.
    - intros H. breflect. assert (z' = z) as E by (apply Hlen; lia). subst ds'. rewrite <- E.
      destruct (takew isdig z'); [done|]. rewrite zlen_cons in *. pose proof (zlen_nonneg l). lia.
    - intros H. assert (z' = z) as E.
      { destruct (decide (z' = z)); [done|]. by destruct Hne. }
      subst ds'. rewrite E, H, (Z.eqb_refl (zlen z)). done. }
  change (19 * Z.of_nat 1) with 19. change (Z.of_nat 1) with 1.
  assert (zlen ds' <> 0 -> takew isdig z <> []) as Hnn.
  { intros H0 H1. destruct (decide (z' = z)) as [E|]; [|by destruct Hne].
    subst ds'. rewrite E, H1 in H0. done. }
  rewrite Hv in Hr. destruct (zlen ds' <? 19) eqn:E19; breflect.
  { apply atoi_result_fits.
    assert (10 ^ zlen ds' <= 10 ^ 18) by (apply Z.pow_le_mono_r; lia). lia. }
  set (j := if 19 <? zlen ds' then 1 else compare2pow63 z' 1).
  assert (Z.sgn j = Z.sgn (dval (takew isdig z) - 2 ^ 63)) as Hsg.
  { subst j. rewrite <- Hv. case_if.
    - pose proof (dval_many ds' 19 Hd' Hlead ltac:(lia)). rewrite (Z.sgn_pos (dval _ - _)) by lia. done.
    - rewrite <- (takew_dropw isdig z') at 1. apply compare2pow63_spec; [|unfold ds' in *; lia|done].
      unfold ds'. by rewrite takew_dropw. }
  clearbody j. destruct (j <? 0) eqn:Ej; breflect; [apply atoi_result_fits; lia|].
  eapply atoi_result_big; [apply Hnn; lia|lia|done|done].
Qed.

Lemma atoi64_head t fuel : bytes_ok t -> (length t < fuel)%nat ->
  match skip_while fuel sqlite3Isspace 1 t with
  | [] => atoi64_number fuel 1 false false []
  | c :: z' =>
      if c =? 45 then atoi64_number fuel 1 true false (drop 1 (c :: z'))
      else if c =? 43 then atoi64_number fuel 1 false false (drop 1 (c :: z'))
      else atoi64_number fuel 1 false false (c :: z')
  end = atoi_spec t.
Proof.
  intros Hb Hf. rewrite skip_while_dropw by lia. unfold atoi_spec.
  pose proof (dropw_bytes sqlite3Isspace t Hb) as Hb1.
  pose proof (dropw_length sqlite3Isspace t) as Hl1.
  destruct (dropw sqlite3Isspace t) as [|c z']; cbn [split_sign drop length] in *.
  { by rewrite atoi64_number_spec by (done || simpl; lia). }
  inversion Hb1; subst. rewrite drop_0.
  repeat (case_if; [by rewrite atoi64_number_spec by (done || lia)|]).
  by rewrite atoi64_number_spec by (done || simpl; lia).
Qed.

Lemma atoi64_utf8 zNum n : bytes_ok zNum -> 0 <= n ->
  sqlite3Atoi64 zNum n SQLITE_UTF8 = atoi_spec (take (Z.to_nat n) zNum).
Proof.
  intros Hb Hn. rewrite <- (atoi64_head _ (S (Z.to_nat n))); [done|by apply Forall_take|].
  rewrite length_take. lia.
Qed.

Lemma digit_pair r : 0 <= r < 100 ->
  isdig (zat sqlite3DigitPairs (r * 2)) = true /\ isdig (zat sqlite3DigitPairs (r * 2 + 1)) = true /\
  dval [zat sqlite3DigitPairs (r * 2); zat sqlite3DigitPairs (r * 2 + 1)] = r /\
  (10 <= r -> 49 <= zat sqlite3DigitPairs (r * 2)).
Proof.
  intros Hr.
  pose proof (proj1 (forallb_forall (fun n => let r := Z.of_nat n in
    isdig (zat sqlite3DigitPairs (r * 2)) && isdig (zat sqlite3DigitPairs (r * 2 + 1)) &&
    (dval [zat sqlite3DigitPairs (r * 2); zat sqlite3DigitPairs (r * 2 + 1)] =? r) &&
    implb (10 <=? r) (49 <=? zat sqlite3DigitPairs (r * 2))) (seq 0 100))
    ltac:(vm_compute; reflexivity) (Z.to_nat r) ltac:(apply in_seq; lia)) as H.
  cbv beta zeta in H. rewrite Z2Nat.id in H by lia. breflect. split_and!; try done.
  intros Hge. rewrite (proj2 (Z.leb_le _ _)) in * by done. cbn [implb] in *. by breflect.
Qed.

(** The digits of [x], two at a time from the right: exact, and without a leading zero. *)
Lemma int64_text_loop_spec n : forall fuel x out, (n < fuel)%nat -> 0 <= x < 10 ^ (2 * Z.of_nat n) ->
  exists ds, int64_text_loop fuel x out = Some (ds ++ out) /\
    Forall (fun c => isdig c = true) ds /\ dval ds = x /\ (zlen ds <= 2 * Z.of_nat n) /\
    (x <> 0 -> 49 <= zat ds 0) /\ (x = 0 -> ds = []).
Proof.
  induction n as [|n IH]; intros [|fuel] x out Hf Hx; try lia; cbn [int64_text_loop].
  { assert (x = 0) as -> by (change (10 ^ (2 * Z.of_nat 0)) with 1 in Hx; lia).
    exists []. repeat split; try done. }
  destruct (10 <=? x) eqn:E; breflect.
  - pose proof (Z.mod_pos_bound x 100 ltac:(lia)) as Hm. pose proof (Z.div_mod x 100 ltac:(lia)) as Hd.
    destruct (digit_pair (x mod 100) Hm) as (Hp1 & Hp2 & Hv & Hlead).
    assert (10 ^ (2 * Z.of_nat (S n)) = 100 * 10 ^ (2 * Z.of_nat n)) as Hpow.
    { replace (2 * Z.of_nat (S n)) with (2 + 2 * Z.of_nat n) by lia. by rewrite Z.pow_add_r by lia. }
    destruct (IH fuel (x / 100)
      (zat sqlite3DigitPairs (x mod 100 * 2) :: zat sqlite3DigitPairs (x mod 100 * 2 + 1) :: out))
      as (ds & E1 & Hds & Hval & Hlen & Hnz & Hz).
    { lia. } { split; [apply Z.div_pos; lia|apply Z.div_lt_upper_bound; lia]. }
    exists (ds ++ [zat sqlite3DigitPairs (x mod 100 * 2); zat sqlite3DigitPairs (x mod 100 * 2 + 1)]).
    rewrite E1, <- app_assoc. split_and!; try done.
    + apply Forall_app. split; [done|]. repeat constructor; done.
    + rewrite dval_app, Hval, Hv. change (10 ^ zlen [_; _]) with 100. lia.
    + rewrite zlen_app. change (zlen [_; _]) with 2. lia.
    + intros _. destruct (decide (x / 100 = 0)) as [E0|E0].
      * rewrite (Hz E0). change (49 <= zat sqlite3DigitPairs (x mod 100 * 2)). apply Hlead. lia.
      * destruct ds as [|d ds]; [unfold dval in Hval; simpl in Hval; lia|]. by apply Hnz.
    + lia.
  - destruct (x =? 0) eqn:E0; breflect; cbn [negb].
    + exists []. subst x. repeat split; try done.
    + exists [x + 48]. assert (u8 (x + 48) = x + 48) as -> by (apply wrapu_small; pow2; lia).
      split_and!; [done| | | | |lia].
      * constructor; [|done]. unfold isdig. apply andb_true_iff.
        rewrite Z.leb_le, Z.leb_le. lia.
      * unfold dval; simpl. lia.
      * change (zlen [_]) with 1. lia.
      * intros _. change (49 <= x + 48). lia.
Qed.

Lemma takew_digits ds c rest : Forall (fun c => isdig c = true) ds -> isdig c = false ->
  takew isdig (ds ++ c :: rest) = ds /\ dropw isdig (ds ++ c :: rest) = c :: rest.
Proof.
  intros Hd Hc. induction Hd as [|d ds Hdd Hd IH]; cbn [app takew dropw]; [by rewrite Hc|].
  rewrite Hdd. destruct IH as [-> ->]. done.
Qed.

Lemma takew_all_digits ds : Forall (fun c => isdig c = true) ds ->
  takew isdig ds = ds /\ dropw isdig ds = [].
Proof.
  induction 1 as [|d ds Hd _ IH]; cbn [takew dropw]; [done|]. rewrite Hd.
  by destruct IH as [-> ->].
Qed.

Lemma digit_is_byte c : isdig c = true -> is_byte c.
Proof. unfold isdig, is_byte. intros. breflect. lia. Qed.

Lemma digits_bytes ds : Forall (fun c => isdig c = true) ds -> bytes_ok ds.
Proof. intros H. eapply Forall_impl; [exact H|]. apply digit_is_byte. Qed.

(** The text of an integer: a sign and digits that do not start with a superfluous zero. *)
Lemma int64_text_digits v : in_i64 v -> exists ds,
  sqlite3Int64ToText v = Some (if v <? 0 then 45 :: ds else ds) /\
  Forall (fun c => isdig c = true) ds /\ dval ds = Z.abs v /\ 1 <= zlen ds <= 20 /\
  (v <> 0 -> 49 <= zat ds 0).
Proof.
  intros Hv. unfold sqlite3Int64ToText. destruct (v =? 0) eqn:E; breflect.
  { subst v. exists [48]. repeat split; try done. by repeat constructor. }
  assert ((if 0 <? v then v else if v =? SMALLEST_INT64 then 2 ^ 63 else u64 (- v)) = Z.abs v) as ->.
  { unfold in_i64, SMALLEST_INT64, LARGEST_INT64 in *. repeat case_if; try lia.
    rewrite wrapu_small; lia. }
  destruct (int64_text_loop_spec 10 11 (Z.abs v) []) as (ds & -> & Hd & Hval & Hl & Hnz & _).
  { lia. } { unfold in_i64, SMALLEST_INT64, LARGEST_INT64 in *. change (10 ^ (2 * Z.of_nat 10)) with (10 ^ 20). lia. }
  exists ds. rewrite app_nil_r. split_and!; try done; [|intros _; apply Hnz; lia].
  destruct ds; [unfold dval in Hval; simpl in Hval; lia|]. rewrite zlen_cons. pose proof (zlen_nonneg ds). lia.
Qed.

Lemma dropw_first f z : f (zat z 0) = false -> dropw f z = z.
Proof. destruct z as [|c z]; [done|]. change (zat (c :: z) 0) with c. cbn [dropw]. by intros ->. Qed.

Lemma digit_not_space c : isdig c = true -> sqlite3Isspace c = false.
Proof.
  intros H. rewrite isspace_spec by (by apply digit_is_byte). unfold isdig in H. breflect.
  apply orb_false_iff. rewrite Z.eqb_neq, andb_false_iff, !Z.leb_gt. lia.
Qed.

(** [sqlite3Atoi64] over any UTF-8 text is conversion through the unbounded integers: the
    value is the number clamped to 64 bits, and the code says whether there were digits,
    whether the number fits (2 if not, 3 for exactly 2^63), and whether anything but spaces
    follows.  The text that [sqlite3Int64ToText] renders for any 64-bit integer is at most 20
    characters and converts back to it. *)
Theorem atoi64_converts : 
  (forall zNum n, bytes_ok zNum -> 0 <= n ->
     sqlite3Atoi64 zNum n SQLITE_UTF8 = atoi_spec (take (Z.to_nat n) zNum)) /\
  (forall v, in_i64 v -> exists t, sqlite3Int64ToText v = Some t /\ 1 <= zlen t <= 21 /\
     sqlite3Atoi64 t (zlen t) SQLITE_UTF8 = (0, v)).
Proof.
  split; [exact atoi64_utf8|]. intros v Hv.
  destruct (int64_text_digits v Hv) as (ds & -> & Hd & Hval & Hlen & _).
  eexists; split; [done|]. destruct ds as [|d ds]; [change (zlen []) with 0 in Hlen; lia|].
  pose proof (Forall_inv Hd) as Hd0. pose proof (digits_bytes _ Hd) as Hb.
  destruct (takew_all_digits _ Hd) as [Ht Hr].
  destruct (v <? 0) eqn:E; breflect; rewrite ?zlen_cons in *; (split; [lia|]).
  - rewrite atoi64_utf8; [|by constructor|pose proof (zlen_nonneg ds); lia].
    rewrite take_ge by (unfold zlen; simpl; lia). unfold atoi_spec.
    rewrite dropw_first by reflexivity. cbn [split_sign]. change (45 =? 45) with true. cbv iota.
    rewrite Ht, Hr. unfold atoi_result. rewrite Hval.
    rewrite (bool_decide_eq_false_2 (d :: ds = [])) by done.
    replace (- Z.abs v) with v by lia. rewrite bool_decide_eq_true_2 by done.
    cbn [dropw]. f_equal. unfold in_i64 in Hv. lia.
  - rewrite atoi64_utf8; [|done|pose proof (zlen_nonneg ds); lia].
    rewrite take_ge by (unfold zlen; simpl; lia). unfold atoi_spec.
    rewrite dropw_first by by apply digit_not_space.
    assert (split_sign (d :: ds) = (false, d :: ds)) as ->.
    { cbn [split_sign]. unfold isdig in Hd0. breflect.
      by rewrite (proj2 (Z.eqb_neq d 45)), (proj2 (Z.eqb_neq d 43)) by lia. }
    rewrite Ht, Hr. unfold atoi_result. rewrite Hval.
    rewrite (bool_decide_eq_false_2 (d :: ds = [])) by done.
    replace (Z.abs v) with v by lia. rewrite bool_decide_eq_true_2 by done.
    cbn [dropw]. f_equal. unfold in_i64 in Hv. lia.
Qed.

Lemma atoi64_converts_witness :
  (bytes_ok (bytes_of_string " 12a") /\ 0 <= 4 /\ in_i64 SMALLEST_INT64) /\
  sqlite3Atoi64 (bytes_of_string " 12a") 4 SQLITE_UTF8 = (1, 12) /\
  exists t, sqlite3Int64ToText SMALLEST_INT64 = Some t /\
    sqlite3Atoi64 t (zlen t) SQLITE_UTF8 = (0, SMALLEST_INT64).
Proof.
  assert (bytes_ok (bytes_of_string " 12a")) as H1 by apply bytes_of_string_ok.
  assert (0 <= 4) as H2 by lia.
  assert (in_i64 SMALLEST_INT64) as H3 by (vm_compute; split; discriminate).
  destruct atoi64_converts as [Ha Hb]. split; [done|]. split.
  - rewrite (Ha _ 4 H1 H2). reflexivity.
  - destruct (Hb _ H3) as (t & Ht & _ & Hr). by exists t.
Defined.

(** ** 32-bit readers *)

Definition hval (l : list Z) : Z := fold_left (fun a c => 16 * a + sqlite3HexToInt c) l 0.

Definition in_i32 (z : Z) : Prop := - 2 ^ 31 <= z < 2 ^ 31.

#[global] Instance in_i32_dec z : Decision (in_i32 z).
Proof. unfold in_i32. apply _. Defined.

(** An optional sign and digits, over the unbounded integers. *)
Definition getint_dec_spec (neg : bool) (z : list Z) : option Z :=
  let ds := takew isdig z in
  let V := if neg then - dval ds else dval ds in
  if bool_decide (ds <> []) && bool_decide (in_i32 V) then Some V else None.

(** Hexadecimal after [0x], without a sign. *)
Definition getint_spec (z : list Z) : option Z :=
  if zat z 0 =? 45 then getint_dec_spec true (tl z)
  else if zat z 0 =? 43 then getint_dec_spec false (tl z)
  else if (zat z 0 =? 48) && ((zat z 1 =? 120) || (zat z 1 =? 88)) && sqlite3Isxdigit (zat z 2) then
    let V := hval (takew sqlite3Isxdigit (drop 2 z)) in
    if bool_decide (in_i32 V) then Some V else None
  else getint_dec_spec false z.

Lemma isdig_ctype c : is_byte c -> sqlite3Isdigit c = isdig c.
Proof. apply isdigit_spec. Qed.

Lemma getuint_loop_spec z : forall v i, bytes_ok z -> 0 <= v <= 2 ^ 32 ->
  getuint_loop z v i =
  (let ds := takew isdig z in
   if 2 ^ 32 <? v * 10 ^ zlen ds + dval ds then None
   else Some (v * 10 ^ zlen ds + dval ds, i + zlen ds, dropw isdig z)).
Proof.
  change (2 ^ 32) with 4294967296.
  induction z as [|c z IH]; intros v i Hz Hv; cbn [getuint_loop takew dropw].
  { change (zlen []) with 0. change (dval []) with 0. cbv zeta.
    rewrite (proj2 (Z.ltb_ge _ _)) by lia. repeat f_equal; lia. }
  inversion Hz as [|? ? Hc Hz']; subst. rewrite isdig_ctype by done.
  destruct (isdig c) eqn:E; cbv zeta.
  2: { change (zlen []) with 0. change (dval []) with 0.
       rewrite (proj2 (Z.ltb_ge _ _)) by lia. repeat f_equal; lia. }
  destruct (digit_char c Hc) as [_ Hd]. destruct (Hd E) as [_ ->].
  unfold isdig in E. breflect. rewrite wrapu_small by (pow2; lia).
  pose proof (dval_range _ (takew_all isdig z)) as Hr.
  rewrite dval_cons, zlen_cons, Z.pow_add_r by (pose proof (zlen_nonneg (takew isdig z)); lia).
  change (10 ^ 1) with 10.
  assert (0 < 10 ^ zlen (takew isdig z)) by (apply Z.pow_pos_nonneg; [lia|apply zlen_nonneg]).
  case_if.
  - rewrite (proj2 (Z.ltb_lt _ _)) by nia. done.
  - rewrite IH by (done || lia). cbv zeta.
    replace ((v * 10 + c - 48) * 10 ^ zlen (takew isdig z) + dval (takew isdig z)) with
      (v * (10 * 10 ^ zlen (takew isdig z)) +
       ((c - 48) * 10 ^ zlen (takew isdig z) + dval (takew isdig z))) by ring.
    by rewrite (Z.add_assoc i 1).
Qed.

Lemma getint_digits_spec k : forall z v i, bytes_ok z -> 0 <= v < 10 ^ i -> 0 <= i ->
  i + Z.of_nat k <= 18 ->
  getint_digits k z v i =
  (let ds := take k (takew isdig z) in (v * 10 ^ zlen ds + dval ds, i + zlen ds)).
Proof.
  induction k as [|k IH]; intros z v i Hz Hv Hi Hk; cbn [getint_digits].
  { cbv zeta. rewrite take_0. change (zlen []) with 0. change (dval []) with 0; rewrite ?Z.pow_0_r. f_equal; lia. }
  assert (forall b, (0 <=? i8 b - 48) && (i8 b - 48 <=? 9) = (u32 (i8 b - 48) <=? 9) \/ ~ is_byte b) as Hc.
  { intros b. destruct (decide (0 <= b < 256)) as [Hb|]; [left|right; done].
    apply eqb_prop. apply (all_bytes_spec (fun b => Bool.eqb
      ((0 <=? i8 b - 48) && (i8 b - 48 <=? 9)) (u32 (i8 b - 48) <=? 9))); [by vm_compute|done]. }
  destruct z as [|c z].
  { change (zat [] 0) with 0. cbn [takew take]. cbv zeta. change (zlen []) with 0. change (dval []) with 0; rewrite ?Z.pow_0_r.
    replace ((0 <=? i8 0 - 48) && (i8 0 - 48 <=? 9)) with false by reflexivity. f_equal; lia. }
  inversion Hz as [|? ? Hcb Hz']; subst. change (zat (c :: z) 0) with c. cbn [takew tl].
  destruct (Hc c) as [->|]; [|done]. destruct (digit_char c Hcb) as [-> Hd].
  destruct (isdig c) eqn:E.
  - destruct (Hd eq_refl) as [_ ->]. cbn [take]. cbv zeta.
    unfold isdig in E. breflect.
    assert (10 ^ (i + 1) = 10 * 10 ^ i) as Hp by (rewrite Z.pow_add_r by lia; lia).
    assert (10 ^ (i + 1) <= 10 ^ 18) by (apply Z.pow_le_mono_r; lia).
    rewrite i64_small by (rewrite in_i64_iff; lia). rewrite IH by (done || lia). cbv zeta.
    rewrite dval_cons, zlen_cons, Z.pow_add_r by (pose proof (zlen_nonneg (take k (takew isdig z))); lia).
    f_equal; [ring|lia].
  - cbn [take]. cbv zeta. change (zlen []) with 0. change (dval []) with 0; rewrite ?Z.pow_0_r. f_equal; lia.
Qed.

Lemma bytes_tl z : bytes_ok z -> bytes_ok (tl z).
Proof. destruct 1; simpl; [apply Forall_nil_2|done]. Qed.

Lemma first_digit z : bytes_ok z ->
  sqlite3Isdigit (zat z 0) = bool_decide (takew isdig z <> []).
Proof.
  intros Hz. destruct Hz as [|c z Hc Hz]; [reflexivity|]. change (zat (c :: z) 0) with c.
  rewrite isdig_ctype by done. cbn [takew]. by destruct (isdig c).
Qed.

Lemma getint_dec_ok neg z : bytes_ok z -> getint_dec neg z = getint_dec_spec neg z.
Proof.
  intros Hz. unfold getint_dec, getint_dec_spec. rewrite first_digit by done.
  destruct (bool_decide (takew isdig z <> [])) eqn:Hne; cbn [negb andb]; [|done].
  rewrite skip_while_dropw by lia. destruct (skip_zeros z) as (Hv & _ & _ & _ & Hlead).
  set (z' := dropw (fun c => c =? 48) z) in *.
  rewrite getint_digits_spec by (try (by apply dropw_bytes); lia). cbv zeta.
  rewrite Z.mul_0_l, !Z.add_0_l, <- Hv.
  pose proof (takew_all isdig z') as Hd. pose proof (dval_range _ Hd) as Hr.
  set (ds := takew isdig z') in *. unfold in_i32. pow2.
  destruct (decide (zlen ds <= 10)) as [Hle|Hgt].
  - rewrite take_ge by (unfold zlen in Hle; lia). rewrite (proj2 (Z.ltb_ge 10 _)) by lia.
    assert (0 <= zbool neg <= 1) by (destruct neg; simpl; lia).
    destruct (2147483647 <? dval ds - zbool neg) eqn:E; breflect.
    + rewrite bool_decide_eq_false_2 by (destruct neg; simpl in *; lia). done.
    + rewrite bool_decide_eq_true_2 by (destruct neg; simpl in *; lia).
      rewrite wraps_small; [done|lia|]. change (2 ^ (32 - 1)) with 2147483648.
      destruct neg; simpl in *; lia.
  - assert (zlen (take 11 ds) = 11) as ->.
    { unfold zlen in *. rewrite length_take. lia. }
    change (10 <? 11) with true. cbv iota.
    pose proof (dval_many ds 10 Hd Hlead ltac:(lia)) as Hbig. change (10 ^ 10) with 10000000000 in Hbig.
    rewrite bool_decide_eq_false_2 by (destruct neg; lia). done.
Qed.

Lemma hexint_range c : is_byte c -> sqlite3Isxdigit c = true ->
  0 <= sqlite3HexToInt c < 16 /\ (sqlite3HexToInt c = 0 -> c = 48).
Proof.
  intros Hc Hx. rewrite hex_val_spec by done.
  pose proof (all_bytes_spec (fun c => implb (sqlite3Isxdigit c) (((48 <=? c) && (c <=? 57)) ||
    ((65 <=? c) && (c <=? 70)) || ((97 <=? c) && (c <=? 102)))) c ltac:(vm_compute; reflexivity) Hc) as H.
  cbv beta in H. rewrite Hx in H. cbn [implb] in H. rewrite !orb_true_iff, !andb_true_iff, !Z.leb_le in H.
  repeat case_if; lia.
Qed.

Lemma hval_app l1 l2 : hval (l1 ++ l2) = hval l1 * 16 ^ zlen l2 + hval l2.
Proof.
  unfold hval. rewrite fold_left_app. generalize (fold_left (fun a c => 16 * a + sqlite3HexToInt c) l1 0).
  induction l2 as [|c l2 IH] using rev_ind; intros a; [simpl; change (zlen []) with 0; lia|].
  rewrite !fold_left_app, IH. simpl. rewrite zlen_app. change (zlen [c]) with 1.
  rewrite Z.pow_add_r by (pose proof (zlen_nonneg l2); lia). lia.
Qed.

Lemma hval_cons c l : hval (c :: l) = sqlite3HexToInt c * 16 ^ zlen l + hval l.
Proof.
  pose proof (hval_app [c] l) as E. cbn [app] in E. rewrite E. unfold hval at 1. simpl. lia.
Qed.

Lemma hval_range l : bytes_ok l -> Forall (fun c => sqlite3Isxdigit c = true) l ->
  0 <= hval l < 16 ^ zlen l.
Proof.
  induction 1 as [|c l Hc _ IH]; [intros _; vm_compute; split; [discriminate|done]|].
  intros H. apply Forall_cons in H as [Hx H]. specialize (IH H).
  rewrite hval_cons, zlen_cons, Z.pow_add_r by (pose proof (zlen_nonneg l); lia).
  pose proof (hexint_range c Hc Hx). change (16 ^ 1) with 16. nia.
Qed.

Lemma hex_digits_spec k : forall w z u n, bytes_ok z -> 0 <= u < 16 ^ n -> 0 <= n ->
  16 ^ (n + Z.of_nat k) <= 2 ^ w ->
  hex_digits w k z u n =
  (let hs := take k (takew sqlite3Isxdigit z) in
   (u * 16 ^ zlen hs + hval hs, n + zlen hs, drop (length hs) z)).
Proof.
  induction k as [|k IH]; intros w z u n Hz Hu Hn Hw; cbn [hex_digits].
  { rewrite take_0. cbv zeta. change (zlen []) with 0. change (hval []) with 0.
    cbn [length]. rewrite drop_0, Z.pow_0_r. repeat f_equal; lia. }
  destruct Hz as [|c z Hc Hz]; cbn [takew].
  { rewrite take_nil. cbv zeta. change (zlen []) with 0. change (hval []) with 0.
    cbn [length]. rewrite drop_0, Z.pow_0_r. repeat f_equal; lia. }
  destruct (sqlite3Isxdigit c) eqn:E.
  2: { rewrite take_nil. cbv zeta. change (zlen []) with 0. change (hval []) with 0.
    cbn [length]. rewrite drop_0, Z.pow_0_r. repeat f_equal; lia. }
  pose proof (hexint_range c Hc E) as [Hr _].
  assert (16 ^ (n + 1) = 16 * 16 ^ n) as Hp by (rewrite Z.pow_add_r by lia; lia).
  assert (16 ^ (n + 1) <= 16 ^ (n + Z.of_nat (S k))) by (apply Z.pow_le_mono_r; lia).
  rewrite wrapu_small by lia.
  rewrite IH; [|done|lia|lia|replace (n + 1 + Z.of_nat k) with (n + Z.of_nat (S k)) by lia; done].
  cbv zeta. rewrite firstn_cons, hval_cons, zlen_cons, Z.pow_add_r by
    (pose proof (zlen_nonneg (take k (takew sqlite3Isxdigit z))); lia).
  cbn [length drop]. change (16 ^ 1) with 16. f_equal. f_equal; [ring|lia].
Qed.

(** Leading zeros of a hexadecimal number. *)
Lemma skip_hex_zeros z : let z' := dropw (fun c => c =? 48) z in
  hval (takew sqlite3Isxdigit z') = hval (takew sqlite3Isxdigit z) /\
  (takew sqlite3Isxdigit z' = [] \/ zat (takew sqlite3Isxdigit z') 0 <> 48).
Proof.
  induction z as [|c z IH]; cbn [dropw takew]; [by auto|].
  destruct (c =? 48) eqn:E; breflect.
  - subst c. change (sqlite3Isxdigit 48) with true. cbv iota. destruct IH as [H1 H2].
    split; [|done]. rewrite hval_cons. change (sqlite3HexToInt 48) with 0. lia.
  - split; [done|]. cbn [takew]. destruct (sqlite3Isxdigit c); [right|by left]. done.
Qed.

Lemma hval_many hs n : bytes_ok hs -> Forall (fun c => sqlite3Isxdigit c = true) hs ->
  hs = [] \/ zat hs 0 <> 48 -> 0 <= n < zlen hs -> 16 ^ n <= hval hs.
Proof.
  intros Hb Hx [->|Hl] Hn; [change (zlen []) with 0 in Hn; lia|].
  destruct Hb as [|c l Hc Hb]; [change (zlen []) with 0 in Hn; lia|].
  change (zat (c :: l) 0) with c in Hl. apply Forall_cons in Hx as [Hx1 Hx2].
  pose proof (hexint_range c Hc Hx1) as [Hr H0]. pose proof (hval_range l Hb Hx2).
  rewrite hval_cons. rewrite zlen_cons in Hn.
  assert (16 ^ n <= 16 ^ zlen l) by (apply Z.pow_le_mono_r; lia).
  assert (1 <= sqlite3HexToInt c) by (destruct (decide (sqlite3HexToInt c = 0)); [by destruct Hl, H0|lia]).
  nia.
Qed.

Lemma takew_bytes f z : bytes_ok z -> bytes_ok (takew f z).
Proof. induction 1 as [|c z Hc Hz IH]; simpl; [done|]. destruct (f c); [by constructor|done]. Qed.

(** What stops the digits is not one, unless the count does. *)
Lemma after_takew f z k : f 0 = false ->
  f (zat (drop (length (take k (takew f z))) z) 0) = bool_decide (k < length (takew f z))%nat.
Proof.
  intros H0. revert k. induction z as [|c z IH]; intros k; cbn [takew].
  { rewrite take_nil. cbn [length drop]. rewrite bool_decide_eq_false_2 by (simpl; lia). exact H0. }
  destruct (f c) eqn:E.
  - destruct k as [|k].
    + rewrite take_0. cbn [length drop]. change (zat (c :: z) 0) with c. rewrite E.
      symmetry. apply bool_decide_eq_true_2. simpl. lia.
    + rewrite firstn_cons. cbn [length drop]. rewrite IH. apply bool_decide_ext. lia.
  - rewrite take_nil. cbn [length drop]. change (zat (c :: z) 0) with c. rewrite E.
    symmetry. apply bool_decide_eq_false_2. simpl. lia.
Qed.

Lemma land_high_bit u : 0 <= u < 2 ^ 32 -> (Z.land u 0x80000000 =? 0) = (u <? 2 ^ 31).
Proof.
  intros Hu. change 2147483648 with (2 ^ 31).
  destruct (u <? 2 ^ 31) eqn:E; breflect.
  - apply Z.eqb_eq, Z.bits_inj'. intros i Hi. rewrite Z.land_spec, Z.bits_0.
    destruct (decide (i = 31)) as [->|].
    + rewrite (testbit_above u 31) by lia. done.
    + rewrite Z.pow2_bits_false by lia. apply andb_false_r.
  - apply Z.eqb_neq. intros H. assert (Z.testbit (Z.land u (2 ^ 31)) 31 = false) as H1 by by rewrite H.
    rewrite Z.land_spec, Z.pow2_bits_true, andb_true_r in H1 by lia.
    assert (Z.testbit u 31 = true); [|congruence].
    rewrite Z.testbit_true by lia. pow2.
    assert (u / 2147483648 = 1) as ->; [|done].
    symmetry. apply Z.div_unique with (u - 2147483648); lia.
Qed.

Lemma getint32_ok z : bytes_ok z -> sqlite3GetInt32 z = getint_spec z.
Proof.
  intros Hz. unfold sqlite3GetInt32, getint_spec.
  change (chr "-") with 45. change (chr "+") with 43. change (chr "0") with 48.
  change (chr "x") with 120. change (chr "X") with 88.
  case_if; [by apply getint_dec_ok, bytes_tl|]. case_if; [by apply getint_dec_ok, bytes_tl|].
  destruct (_ && _) eqn:E; [|by apply getint_dec_ok]. clear E Hif Hif0.
  set (z2 := drop 2 z). assert (bytes_ok z2) as Hz2 by by apply Forall_drop.
  rewrite skip_while_dropw by (unfold z2; rewrite length_drop; lia).
  destruct (skip_hex_zeros z2) as [Hv Hlead]. set (z' := dropw (fun c => c =? 48) z2) in *.
  assert (bytes_ok z') as Hz' by by apply dropw_bytes.
  rewrite hex_digits_spec; [|done|lia|lia|done]. cbv zeta. rewrite Z.mul_0_l, Z.add_0_l, <- Hv.
  rewrite after_takew by reflexivity.
  pose proof (takew_all sqlite3Isxdigit z') as Hx. pose proof (takew_bytes sqlite3Isxdigit z' Hz') as Hb.
  pose proof (hval_range _ Hb Hx) as Hr. set (hs := takew sqlite3Isxdigit z') in *.
  destruct (decide (8 < length hs)%nat) as [Hgt|Hle].
  - rewrite (bool_decide_eq_true_2 (8 < length hs)%nat) by done. rewrite andb_false_r.
    pose proof (hval_many hs 8 Hb Hx Hlead ltac:(unfold zlen; lia)) as Hbig.
    change (16 ^ 8) with (2 ^ 32) in Hbig.
    rewrite bool_decide_eq_false_2; [done|]. unfold in_i32. lia.
  - rewrite (bool_decide_eq_false_2 (8 < length hs)%nat) by done. rewrite andb_true_r, take_ge by lia.
    assert (16 ^ zlen hs <= 16 ^ 8) by (apply Z.pow_le_mono_r; unfold zlen; lia).
    change (16 ^ 8) with (2 ^ 32) in *. rewrite land_high_bit by lia.
    destruct (hval hs <? 2 ^ 31) eqn:E; breflect.
    + rewrite bool_decide_eq_true_2 by (unfold in_i32; lia).
      rewrite wraps_small; [done|lia|]. change (32 - 1) with 31. lia.
    + rewrite bool_decide_eq_false_2; [done|]. unfold in_i32. lia.
Qed.

(** [sqlite3GetInt32] (and so [sqlite3Atoi]) reads a decimal or hexadecimal prefix exactly
    when it fits 32 bits.  [sqlite3GetUInt32] accepts a text of digits up to 2^32 inclusive and
    answers it modulo 2^32: the one value above the range, 4294967296, is taken as 0. *)
Theorem getint32_reads z : cstring z ->
  sqlite3GetInt32 z = getint_spec z /\ sqlite3Atoi z = default 0 (getint_spec z) /\
  sqlite3GetUInt32 z =
    (if bool_decide (z <> [] /\ Forall (fun c => isdig c = true) z /\ dval z <= 2 ^ 32)
     then (1, dval z mod 2 ^ 32) else (0, 0)).
Proof.
  intros Hc. pose proof (cstring_bytes z Hc) as Hz. unfold sqlite3Atoi.
  rewrite getint32_ok by done. split_and!; [done|done|]. unfold sqlite3GetUInt32.
  rewrite getuint_loop_spec by (done || lia). cbv zeta. rewrite Z.mul_0_l, !Z.add_0_l.
  pose proof (takew_dropw isdig z) as Hsplit.
  destruct (dropw isdig z) as [|c rest] eqn:Hd.
  - rewrite app_nil_r in Hsplit. pose proof (takew_all isdig z) as Hall. rewrite Hsplit in *.
    case_if; [rewrite bool_decide_eq_false_2 by lia; done|].
    change (zat [] 0) with 0. cbn [Z.eqb negb]. rewrite orb_false_r.
    destruct z as [|c z]; [by rewrite bool_decide_eq_false_2 by naive_solver|].
    rewrite bool_decide_eq_true_2 by done. rewrite (proj2 (Z.eqb_neq _ 0)); [done|].
    rewrite zlen_cons. pose proof (zlen_nonneg z). lia.
  - rewrite bool_decide_eq_false_2.
    + case_if; [done|]. change (zat (c :: rest) 0) with c.
      rewrite <- Hsplit in Hc. apply Forall_app in Hc as [_ Hc]. apply Forall_inv in Hc.
      rewrite (proj2 (Z.eqb_neq c 0)) by lia. by rewrite orb_true_r.
    + intros (_ & Hall & _). destruct (takew_all_digits z Hall) as [_ E]. congruence.
Qed.

Lemma getint32_reads_witness :
  cstring (bytes_of_string "4294967296") /\
  sqlite3GetUInt32 (bytes_of_string "4294967296") = (1, 0).
Proof.
  assert (cstring (bytes_of_string "4294967296")) as H.
  { repeat (apply Forall_cons_2; [vm_compute; split; [discriminate|done]|]). apply Forall_nil_2. }
  split; [exact H|]. destruct (getint32_reads _ H) as (_ & _ & E). rewrite E. by vm_compute.
Defined.
