(* ===== verification/Keywords.v ===== *)
(** * Token codes and the keyword table (parse.h and keywordhash.h of sqlite3.c)

    The codes the grammar gives to tokens, and the tables in which the tokenizer looks keywords
    up: the overlapping text of all keywords, the hash buckets, the collision chains, and each
    keyword's length, offset and code. *)

From S2P Require Import Prelude Bitwise SqlText.
From stdpp Require Import options.

(** ** Codes *)

Definition TK_SEMI : Z := 1.
Definition TK_EXPLAIN : Z := 2.
Definition TK_QUERY : Z := 3.
Definition TK_PLAN : Z := 4.
Definition TK_BEGIN : Z := 5.
Definition TK_TRANSACTION : Z := 6.
Definition TK_DEFERRED : Z := 7.
Definition TK_IMMEDIATE : Z := 8.
Definition TK_EXCLUSIVE : Z := 9.
Definition TK_COMMIT : Z := 10.
Definition TK_END : Z := 11.
Definition TK_ROLLBACK : Z := 12.
Definition TK_SAVEPOINT : Z := 13.
Definition TK_RELEASE : Z := 14.
Definition TK_TO : Z := 15.
Definition TK_TABLE : Z := 16.
Definition TK_CREATE : Z := 17.
Definition TK_IF : Z := 18.
Definition TK_NOT : Z := 19.
Definition TK_EXISTS : Z := 20.
Definition TK_TEMP : Z := 21.
Definition TK_LP : Z := 22.
Definition TK_RP : Z := 23.
Definition TK_AS : Z := 24.
Definition TK_COMMA : Z := 25.
Definition TK_WITHOUT : Z := 26.
Definition TK_ABORT : Z := 27.
Definition TK_ACTION : Z := 28.
Definition TK_AFTER : Z := 29.
Definition TK_ANALYZE : Z := 30.
Definition TK_ASC : Z := 31.
Definition TK_ATTACH : Z := 32.
Definition TK_BEFORE : Z := 33.
Definition TK_BY : Z := 34.
Definition TK_CASCADE : Z := 35.
Definition TK_CAST : Z := 36.
Definition TK_CONFLICT : Z := 37.
Definition TK_DATABASE : Z := 38.
Definition TK_DESC : Z := 39.
Definition TK_DETACH : Z := 40.
Definition TK_EACH : Z := 41.
Definition TK_FAIL : Z := 42.
Definition TK_OR : Z := 43.
Definition TK_AND : Z := 44.
Definition TK_IS : Z := 45.
Definition TK_ISNOT : Z := 46.
Definition TK_MATCH : Z := 47.
Definition TK_LIKE_KW : Z := 48.
Definition TK_BETWEEN : Z := 49.
Definition TK_IN : Z := 50.
Definition TK_ISNULL : Z := 51.
Definition TK_NOTNULL : Z := 52.
Definition TK_NE : Z := 53.
Definition TK_EQ : Z := 54.
Definition TK_GT : Z := 55.
Definition TK_LE : Z := 56.
Definition TK_LT : Z := 57.
Definition TK_GE : Z := 58.
Definition TK_ESCAPE : Z := 59.
Definition TK_ID : Z := 60.
Definition TK_COLUMNKW : Z := 61.
Definition TK_DO : Z := 62.
Definition TK_FOR : Z := 63.
Definition TK_IGNORE : Z := 64.
Definition TK_INITIALLY : Z := 65.
Definition TK_INSTEAD : Z := 66.
Definition TK_NO : Z := 67.
Definition TK_KEY : Z := 68.
Definition TK_OF : Z := 69.
Definition TK_OFFSET : Z := 70.
Definition TK_PRAGMA : Z := 71.
Definition TK_RAISE : Z := 72.
Definition TK_RECURSIVE : Z := 73.
Definition TK_REPLACE : Z := 74.
Definition TK_RESTRICT : Z := 75.
Definition TK_ROW : Z := 76.
Definition TK_ROWS : Z := 77.
Definition TK_TRIGGER : Z := 78.
Definition TK_VACUUM : Z := 79.
Definition TK_VIEW : Z := 80.
Definition TK_VIRTUAL : Z := 81.
Definition TK_WITH : Z := 82.
Definition TK_NULLS : Z := 83.
Definition TK_FIRST : Z := 84.
Definition TK_LAST : Z := 85.
Definition TK_CURRENT : Z := 86.
Definition TK_FOLLOWING : Z := 87.
Definition TK_PARTITION : Z := 88.
Definition TK_PRECEDING : Z := 89.
Definition TK_RANGE : Z := 90.
Definition TK_UNBOUNDED : Z := 91.
Definition TK_EXCLUDE : Z := 92.
Definition TK_GROUPS : Z := 93.
Definition TK_OTHERS : Z := 94.
Definition TK_TIES : Z := 95.
Definition TK_GENERATED : Z := 96.
Definition TK_ALWAYS : Z := 97.
Definition TK_MATERIALIZED : Z := 98.
Definition TK_REINDEX : Z := 99.
Definition TK_RENAME : Z := 100.
Definition TK_CTIME_KW : Z := 101.
Definition TK_ANY : Z := 102.
Definition TK_BITAND : Z := 103.
Definition TK_BITOR : Z := 104.
Definition TK_LSHIFT : Z := 105.
Definition TK_RSHIFT : Z := 106.
Definition TK_PLUS : Z := 107.
Definition TK_MINUS : Z := 108.
Definition TK_STAR : Z := 109.
Definition TK_SLASH : Z := 110.
Definition TK_REM : Z := 111.
Definition TK_CONCAT : Z := 112.
Definition TK_PTR : Z := 113.
Definition TK_COLLATE : Z := 114.
Definition TK_BITNOT : Z := 115.
Definition TK_ON : Z := 116.
Definition TK_INDEXED : Z := 117.
Definition TK_STRING : Z := 118.
Definition TK_JOIN_KW : Z := 119.
Definition TK_CONSTRAINT : Z := 120.
Definition TK_DEFAULT : Z := 121.
Definition TK_NULL : Z := 122.
Definition TK_PRIMARY : Z := 123.
Definition TK_UNIQUE : Z := 124.
Definition TK_CHECK : Z := 125.
Definition TK_REFERENCES : Z := 126.
Definition TK_AUTOINCR : Z := 127.
Definition TK_INSERT : Z := 128.
Definition TK_DELETE : Z := 129.
Definition TK_UPDATE : Z := 130.
Definition TK_SET : Z := 131.
Definition TK_DEFERRABLE : Z := 132.
Definition TK_FOREIGN : Z := 133.
Definition TK_DROP : Z := 134.
Definition TK_UNION : Z := 135.
Definition TK_ALL : Z := 136.
Definition TK_EXCEPT : Z := 137.
Definition TK_INTERSECT : Z := 138.
Definition TK_SELECT : Z := 139.
Definition TK_VALUES : Z := 140.
Definition TK_DISTINCT : Z := 141.
Definition TK_DOT : Z := 142.
Definition TK_FROM : Z := 143.
Definition TK_JOIN : Z := 144.
Definition TK_USING : Z := 145.
Definition TK_ORDER : Z := 146.
Definition TK_GROUP : Z := 147.
Definition TK_HAVING : Z := 148.
Definition TK_LIMIT : Z := 149.
Definition TK_WHERE : Z := 150.
Definition TK_RETURNING : Z := 151.
Definition TK_INTO : Z := 152.
Definition TK_NOTHING : Z := 153.
Definition TK_FLOAT : Z := 154.
Definition TK_BLOB : Z := 155.
Definition TK_INTEGER : Z := 156.
Definition TK_VARIABLE : Z := 157.
Definition TK_CASE : Z := 158.
Definition TK_WHEN : Z := 159.
Definition TK_THEN : Z := 160.
Definition TK_ELSE : Z := 161.
Definition TK_INDEX : Z := 162.
Definition TK_ALTER : Z := 163.
Definition TK_ADD : Z := 164.
Definition TK_WINDOW : Z := 165.
Definition TK_OVER : Z := 166.
Definition TK_FILTER : Z := 167.
Definition TK_COLUMN : Z := 168.
Definition TK_AGG_FUNCTION : Z := 169.
Definition TK_AGG_COLUMN : Z := 170.
Definition TK_TRUEFALSE : Z := 171.
Definition TK_FUNCTION : Z := 172.
Definition TK_UPLUS : Z := 173.
Definition TK_UMINUS : Z := 174.
Definition TK_TRUTH : Z := 175.
Definition TK_REGISTER : Z := 176.
Definition TK_VECTOR : Z := 177.
Definition TK_SELECT_COLUMN : Z := 178.
Definition TK_IF_NULL_ROW : Z := 179.
Definition TK_ASTERISK : Z := 180.
Definition TK_SPAN : Z := 181.
Definition TK_ERROR : Z := 182.
Definition TK_QNUMBER : Z := 183.
Definition TK_SPACE : Z := 184.
Definition TK_COMMENT : Z := 185.
Definition TK_ILLEGAL : Z := 186.

(** ** The keyword table *)

Definition zKWText : list Z := bytes_of_string (
  "REINDEXEDESCAPEACHECKEYBEFOREIGNOREGEXPLAINSTEADDATABASELECTABLEFTHENDEFER" +:+
  "RABLELSEXCLUDELETEMPORARYISNULLSAVEPOINTERSECTIESNOTNULLIKEXCEPTRANSACTION" +:+
  "ATURALTERAISEXCLUSIVEXISTSCONSTRAINTOFFSETRIGGERANGENERATEDETACHAVINGLOBEG" +:+
  "INNEREFERENCESUNIQUERYWITHOUTERELEASEATTACHBETWEENOTHINGROUPSCASCADEFAULTC" +:+
  "ASECOLLATECREATECURRENT_DATEIMMEDIATEJOINSERTMATCHPLANALYZEPRAGMATERIALIZE" +:+
  "DEFERREDISTINCTUPDATEVALUESVIRTUALWAYSWHENWHERECURSIVEABORTAFTERENAMEANDRO" +:+
  "PARTITIONAUTOINCREMENTCASTCOLUMNCOMMITCONFLICTCROSSCURRENT_TIMESTAMPRECEDI" +:+
  "NGFAILASTFILTEREPLACEFIRSTFOLLOWINGFROMFULLIMITIFORDERESTRICTOTHERSOVERETU" +:+
  "RNINGRIGHTROLLBACKROWSUNBOUNDEDUNIONUSINGVACUUMVIEWINDOWBYINITIALLYPRIMARY").

Definition aKWHash : list Z :=
  [84; 92; 134; 82; 105; 29; 0; 0; 94; 0; 85; 72; 0; 53; 35; 86; 15; 0; 42; 97; 54; 89;
   135; 19; 0; 0; 140; 0; 40; 129; 0; 22; 107; 0; 9; 0; 0; 123; 80; 0; 78; 6; 0; 65; 103;
   147; 0; 136; 115; 0; 0; 48; 0; 90; 24; 0; 17; 0; 27; 70; 23; 26; 5; 60; 142; 110; 122;
   0; 73; 91; 71; 145; 61; 120; 74; 0; 49; 0; 11; 41; 0; 113; 0; 0; 0; 109; 10; 111; 116;
   125; 14; 50; 124; 0; 100; 0; 18; 121; 144; 56; 130; 139; 88; 83; 37; 30; 126; 0; 0;
   108; 51; 131; 128; 0; 34; 0; 0; 132; 0; 98; 38; 39; 0; 20; 45; 117; 93].

Definition aKWNext : list Z :=
  [0; 0; 0; 0; 0; 4; 0; 43; 0; 0; 106; 114; 0; 0; 0; 2; 0; 0; 143; 0; 0; 0; 13; 0; 0; 0;
   0; 141; 0; 0; 119; 52; 0; 0; 137; 12; 0; 0; 62; 0; 138; 0; 133; 0; 0; 36; 0; 0; 28; 77;
   0; 0; 0; 0; 59; 0; 47; 0; 0; 0; 0; 0; 0; 0; 0; 0; 0; 69; 0; 0; 0; 0; 0; 146; 3; 0; 58;
   0; 1; 75; 0; 0; 0; 31; 0; 0; 0; 0; 0; 127; 0; 104; 0; 64; 66; 63; 0; 0; 0; 0; 0; 46; 0;
   16; 8; 0; 0; 0; 0; 0; 0; 0; 0; 0; 0; 81; 101; 0; 112; 21; 7; 67; 0; 79; 96; 118; 0; 0;
   68; 0; 0; 99; 44; 0; 55; 0; 76; 0; 95; 32; 33; 57; 25; 0; 102; 0; 0; 87].

Definition aKWLen : list Z :=
  [0; 7; 7; 5; 4; 6; 4; 5; 3; 6; 7; 3; 6; 6; 7; 7; 3; 8; 2; 6; 5; 4; 4; 3; 10; 4; 7; 6; 9;
   4; 2; 6; 5; 9; 9; 4; 7; 3; 2; 4; 4; 6; 11; 6; 2; 7; 5; 5; 9; 6; 10; 4; 6; 2; 3; 7; 5;
   9; 6; 6; 4; 5; 5; 10; 6; 5; 7; 4; 5; 7; 6; 7; 7; 6; 5; 7; 3; 7; 4; 7; 6; 12; 9; 4; 6;
   5; 4; 7; 6; 12; 8; 8; 2; 6; 6; 7; 6; 4; 5; 9; 5; 5; 6; 3; 4; 9; 13; 2; 2; 4; 6; 6; 8;
   5; 17; 12; 7; 9; 4; 4; 6; 7; 5; 9; 4; 4; 5; 2; 5; 8; 6; 4; 9; 5; 8; 4; 3; 9; 5; 5; 6;
   4; 6; 2; 2; 9; 3; 7].

Definition aKWOffset : list Z :=
  [0; 0; 2; 2; 8; 9; 14; 16; 20; 23; 25; 25; 29; 33; 36; 41; 46; 48; 53; 54; 59; 62; 65;
   67; 69; 78; 81; 86; 90; 90; 94; 99; 101; 105; 111; 119; 123; 123; 123; 126; 129; 132;
   137; 142; 146; 147; 152; 156; 160; 168; 174; 181; 184; 184; 187; 189; 195; 198; 206;
   211; 216; 219; 222; 226; 236; 239; 244; 244; 248; 252; 259; 265; 271; 277; 277; 283;
   284; 288; 295; 299; 306; 312; 324; 333; 335; 341; 346; 348; 355; 359; 370; 377; 378;
   385; 391; 397; 402; 408; 412; 415; 424; 429; 433; 439; 441; 444; 453; 455; 457; 466;
   470; 476; 482; 490; 495; 495; 495; 511; 520; 523; 527; 532; 539; 544; 553; 557; 560;
   565; 567; 571; 579; 585; 588; 597; 602; 610; 610; 614; 623; 628; 633; 639; 642; 645;
   648; 650; 655; 659].

Definition aKWCode : list Z :=
  [0; TK_REINDEX; TK_INDEXED; TK_INDEX; TK_DESC; TK_ESCAPE; TK_EACH; TK_CHECK; TK_KEY;
   TK_BEFORE; TK_FOREIGN; TK_FOR; TK_IGNORE; TK_LIKE_KW; TK_EXPLAIN; TK_INSTEAD; TK_ADD;
   TK_DATABASE; TK_AS; TK_SELECT; TK_TABLE; TK_JOIN_KW; TK_THEN; TK_END; TK_DEFERRABLE;
   TK_ELSE; TK_EXCLUDE; TK_DELETE; TK_TEMP; TK_TEMP; TK_OR; TK_ISNULL; TK_NULLS;
   TK_SAVEPOINT; TK_INTERSECT; TK_TIES; TK_NOTNULL; TK_NOT; TK_NO; TK_NULL; TK_LIKE_KW;
   TK_EXCEPT; TK_TRANSACTION; TK_ACTION; TK_ON; TK_JOIN_KW; TK_ALTER; TK_RAISE;
   TK_EXCLUSIVE; TK_EXISTS; TK_CONSTRAINT; TK_INTO; TK_OFFSET; TK_OF; TK_SET; TK_TRIGGER;
   TK_RANGE; TK_GENERATED; TK_DETACH; TK_HAVING; TK_LIKE_KW; TK_BEGIN; TK_JOIN_KW;
   TK_REFERENCES; TK_UNIQUE; TK_QUERY; TK_WITHOUT; TK_WITH; TK_JOIN_KW; TK_RELEASE;
   TK_ATTACH; TK_BETWEEN; TK_NOTHING; TK_GROUPS; TK_GROUP; TK_CASCADE; TK_ASC; TK_DEFAULT;
   TK_CASE; TK_COLLATE; TK_CREATE; TK_CTIME_KW; TK_IMMEDIATE; TK_JOIN; TK_INSERT;
   TK_MATCH; TK_PLAN; TK_ANALYZE; TK_PRAGMA; TK_MATERIALIZED; TK_DEFERRED; TK_DISTINCT;
   TK_IS; TK_UPDATE; TK_VALUES; TK_VIRTUAL; TK_ALWAYS; TK_WHEN; TK_WHERE; TK_RECURSIVE;
   TK_ABORT; TK_AFTER; TK_RENAME; TK_AND; TK_DROP; TK_PARTITION; TK_AUTOINCR; TK_TO;
   TK_IN; TK_CAST; TK_COLUMNKW; TK_COMMIT; TK_CONFLICT; TK_JOIN_KW; TK_CTIME_KW;
   TK_CTIME_KW; TK_CURRENT; TK_PRECEDING; TK_FAIL; TK_LAST; TK_FILTER; TK_REPLACE;
   TK_FIRST; TK_FOLLOWING; TK_FROM; TK_JOIN_KW; TK_LIMIT; TK_IF; TK_ORDER; TK_RESTRICT;
   TK_OTHERS; TK_OVER; TK_RETURNING; TK_JOIN_KW; TK_ROLLBACK; TK_ROWS; TK_ROW;
   TK_UNBOUNDED; TK_UNION; TK_USING; TK_VACUUM; TK_VIEW; TK_WINDOW; TK_DO; TK_BY;
   TK_INITIALLY; TK_ALL; TK_PRIMARY].

(** ** Lookup *)

Definition charMap (c : Z) : Z := UpperToLower (u8 c).

(** [z[j] & ~0x20] on a signed [char]. *)
Definition kw_mask (c : Z) : Z := Z.land (i8 c) (Z.lnot 0x20).

(** [while( j<n && (z[j]&~0x20)==zKW[j] ){ j++; }]: is the rest of the keyword matched? *)
Fixpoint kw_rest (z zKW : list Z) (j : Z) (k : nat) : bool :=
  match k with
  | O => true
  | S k => (kw_mask (zat z j) =? zat zKW j) && kw_rest z zKW (j + 1) k
  end.

(** [for(i=(int)aKWHash[i]; i>0; i=aKWNext[i])] *)
Fixpoint keyword_chain (fuel : nat) (z : list Z) (n i : Z) : option Z :=
  match fuel with
  | O => None
  | S fuel =>
      if 0 <? i then
        let zKW := drop (Z.to_nat (zat aKWOffset i)) zKWText in
        if negb (zat aKWLen i =? n) then keyword_chain fuel z n (zat aKWNext i)
        else if negb (kw_mask (zat z 0) =? zat zKW 0) then keyword_chain fuel z n (zat aKWNext i)
        else if negb (kw_mask (zat z 1) =? zat zKW 1) then keyword_chain fuel z n (zat aKWNext i)
        else if kw_rest z zKW 2 (Z.to_nat (n - 2)) then Some i
        else keyword_chain fuel z n (zat aKWNext i)
      else None
  end.

Definition kw_hash (z : list Z) (n : Z) : Z :=
  Z.lxor (Z.lxor (charMap (zat z 0) * 4) (charMap (zat z (n - 1)) * 3)) (n * 1) mod 127.

(** The index of the keyword that [z[0..n-1]] is. *)
Definition keyword_index (z : list Z) (n : Z) : option Z :=
  keyword_chain 148 z n (zat aKWHash (kw_hash z n)).

(** [*pType] afterwards; the result of the function is [n]. *)
Definition keywordCode (z : list Z) (n pType : Z) : Z :=
  match keyword_index z n with Some i => zat aKWCode i | None => pType end.

Definition sqlite3KeywordCode (z : list Z) (n : Z) : Z :=
  if 2 <=? n then keywordCode z n TK_ID else TK_ID.

Definition SQLITE_N_KEYWORD : Z := 147.

(** [None] is [SQLITE_ERROR]; otherwise the text at [*pzName] and [*pnName]. *)
Definition sqlite3_keyword_name (i : Z) : option (list Z * Z) :=
  if (i <? 0) || (SQLITE_N_KEYWORD <=? i) then None
  else
    let i := i + 1 in
    Some (drop (Z.to_nat (zat aKWOffset i)) zKWText, zat aKWLen i).

Definition sqlite3_keyword_count : Z := SQLITE_N_KEYWORD.

Definition sqlite3_keyword_check (zName : list Z) (nName : Z) : bool :=
  negb (TK_ID =? sqlite3KeywordCode zName nName).

(** ** The keywords *)

Definition kw_text (i : Z) : list Z :=
  take (Z.to_nat (zat aKWLen i)) (drop (Z.to_nat (zat aKWOffset i)) zKWText).

Example kw_select : kw_text 19 = bytes_of_string "SELECT" /\ zat aKWCode 19 = TK_SELECT.
Proof. vm_compute. done. Qed.

(** The characters the tokenizer passes to the lookup: ASCII letters and the underscore. *)
Definition kwchar (c : Z) : bool :=
  ((65 <=? c) && (c <=? 90)) || ((97 <=? c) && (c <=? 122)) || (c =? 95).

Definition kw_indices : list Z := map Z.of_nat (seq 1 147).

Definition list_eqb (l1 l2 : list Z) : bool := bool_decide (l1 = l2).

Fixpoint chain_find (fuel : nat) (f : Z -> bool) (i : Z) : option Z :=
  match fuel with
  | O => None
  | S fuel => if 0 <? i then if f i then Some i else chain_find fuel f (zat aKWNext i) else None
  end.

Lemma kw_indices_spec f : forallb f kw_indices = true -> forall i, 1 <= i <= 147 -> f i = true.
Proof.
  intros H i Hi. rewrite forallb_forall in H. apply H. apply in_map_iff.
  exists (Z.to_nat i). split; [lia|]. apply in_seq. lia.
Qed.

Lemma kw_lengths i : 1 <= i <= 147 ->
  zlen (kw_text i) = zat aKWLen i /\ 2 <= zat aKWLen i /\ 0 <= zat aKWNext i <= 147 /\
  0 <= zat aKWOffset i.
Proof.
  intros Hi. pose proof (kw_indices_spec (fun i => (zlen (kw_text i) =? zat aKWLen i) &&
    (2 <=? zat aKWLen i) && (0 <=? zat aKWNext i) && (zat aKWNext i <=? 147) &&
    (0 <=? zat aKWOffset i)) ltac:(vm_compute; reflexivity) i Hi) as H.
  cbv beta in H. breflect. lia.
Qed.

Lemma kw_rest_spec k : forall z zKW j, 0 <= j ->
  kw_rest z zKW j k = true <->
  (forall m, j <= m < j + Z.of_nat k -> kw_mask (zat z m) = zat zKW m).
Proof.
  induction k as [|k IH]; intros z zKW j Hj; cbn [kw_rest]; [split; [lia|done]|].
  rewrite andb_true_iff, Z.eqb_eq, IH by lia. split.
  - intros [H0 H] m Hm. destruct (decide (m = j)) as [->|]; [done|]. apply H. lia.
  - intros H. split; [apply H; lia|]. intros m Hm. apply H. lia.
Qed.

Lemma list_eq_zat l1 l2 : length l1 = length l2 ->
  (forall m, 0 <= m < zlen l1 -> zat l1 m = zat l2 m) -> l1 = l2.
Proof.
  intros Hl H. apply nth_ext with 0 0; [done|]. intros n Hn.
  specialize (H (Z.of_nat n)). unfold zat, zlen in H. rewrite Nat2Z.id in H. apply H. lia.
Qed.

Lemma zat_map f (l : list Z) m : 0 <= m < zlen l -> zat (map f l) m = f (zat l m).
Proof.
  intros Hm. unfold zat, zlen in *. rewrite (nth_indep _ 0 (f 0)) by (rewrite length_map; lia).
  apply map_nth.
Qed.

(** The tests of one turn of the loop say that the masked text is the [i]-th keyword. *)
Lemma kw_test z n i : 2 <= n <= zlen z -> 1 <= i <= 147 ->
  (let zKW := drop (Z.to_nat (zat aKWOffset i)) zKWText in
   (zat aKWLen i =? n) && (kw_mask (zat z 0) =? zat zKW 0) && (kw_mask (zat z 1) =? zat zKW 1) &&
   kw_rest z zKW 2 (Z.to_nat (n - 2))) =
  list_eqb (map kw_mask (take (Z.to_nat n) z)) (kw_text i).
Proof.
  intros Hn Hi. cbv zeta. set (zKW := drop (Z.to_nat (zat aKWOffset i)) zKWText).
  destruct (kw_lengths i Hi) as (Hl & Hl2 & _ & _).
  assert (length (map kw_mask (take (Z.to_nat n) z)) = Z.to_nat n) as Hlen.
  { rewrite length_map, length_take. unfold zlen in Hn. lia. }
  assert (forall m, 0 <= m < n -> zat (map kw_mask (take (Z.to_nat n) z)) m = kw_mask (zat z m)) as Hm.
  { intros m Hm. rewrite zat_map; [by rewrite zat_take, decide_True by lia|].
    rewrite length_map in Hlen. unfold zlen. rewrite Hlen. lia. }
  apply eq_true_iff_eq. unfold list_eqb. rewrite bool_decide_eq_true, !andb_true_iff, !Z.eqb_eq.
  rewrite kw_rest_spec by lia. split.
  - intros (((Hn' & H0) & H1) & Hr). apply list_eq_zat.
    + rewrite Hlen. unfold zlen in Hl. lia.
    + intros m Hmr. unfold zlen in Hmr. rewrite Hlen in Hmr. rewrite Hm by lia.
      unfold kw_text. rewrite zat_take, decide_True by lia. fold zKW.
      destruct (decide (m = 0)) as [->|]; [done|]. destruct (decide (m = 1)) as [->|]; [done|].
      apply Hr. lia.
  - intros E. assert (zat aKWLen i = n) as Hn'.
    { rewrite <- Hl, <- E. unfold zlen. rewrite Hlen. lia. }
    assert (forall m, 0 <= m < n -> kw_mask (zat z m) = zat zKW m) as Hall.
    { intros m Hmr. rewrite <- Hm, E by lia. unfold kw_text. rewrite zat_take, decide_True by lia. done. }
    split_and!; [done|apply Hall; lia|apply Hall; lia|]. intros m Hmr. apply Hall. lia.
Qed.

Lemma keyword_chain_find fuel : forall z n i, 2 <= n <= zlen z -> 0 <= i <= 147 ->
  keyword_chain fuel z n i =
  chain_find fuel (fun i => list_eqb (map kw_mask (take (Z.to_nat n) z)) (kw_text i)) i.
Proof.
  induction fuel as [|fuel IH]; intros z n i Hn Hi; cbn [keyword_chain chain_find]; [done|].
  destruct (0 <? i) eqn:E; breflect; [|done].
  rewrite <- kw_test by lia. destruct (kw_lengths i ltac:(lia)) as (_ & _ & Hnext & _).
  rewrite IH by lia. cbv zeta.
  repeat match goal with |- context [negb ?b] => destruct b; cbn [negb andb] end; done.
Qed.

Lemma chain_find_sound fuel f : forall i, 0 <= i <= 147 ->
  match chain_find fuel f i with Some j => 1 <= j <= 147 /\ f j = true | None => True end.
Proof.
  induction fuel as [|fuel IH]; intros i Hi; cbn [chain_find]; [done|].
  destruct (0 <? i) eqn:E; breflect; [|done]. destruct (f i) eqn:Ef; [split; [lia|done]|].
  destruct (kw_lengths i ltac:(lia)) as (_ & _ & Hnext & _). apply IH. lia.
Qed.

(** Every keyword is found in its own bucket, and by itself only. *)
Lemma kw_found i : 1 <= i <= 147 ->
  chain_find 148 (fun j => list_eqb (kw_text i) (kw_text j))
    (zat aKWHash (kw_hash (kw_text i) (zlen (kw_text i)))) = Some i.
Proof.
  intros Hi. pose proof (kw_indices_spec (fun i =>
    match chain_find 148 (fun j => list_eqb (kw_text i) (kw_text j))
      (zat aKWHash (kw_hash (kw_text i) (zlen (kw_text i)))) with
    | Some j => j =? i
    | None => false
    end) ltac:(vm_compute; reflexivity) i Hi) as H. cbv beta in H.
  destruct (chain_find _ _ _); [|done]. breflect. by subst.
Qed.

Lemma kwchar_mask c : kwchar c = true ->
  is_byte c /\ kw_mask c = sqlite3Toupper c /\ charMap (sqlite3Toupper c) = charMap c.
Proof.
  intros H. assert (is_byte c) as Hc.
  { unfold kwchar in H. rewrite !orb_true_iff, !andb_true_iff, !Z.leb_le, Z.eqb_eq in H.
    unfold is_byte. lia. }
  pose proof (all_bytes_spec (fun c => implb (kwchar c) ((kw_mask c =? sqlite3Toupper c) &&
    (charMap (sqlite3Toupper c) =? charMap c))) c ltac:(vm_compute; reflexivity) Hc) as Hb.
  cbv beta in Hb. rewrite H in Hb. cbn [implb] in Hb. breflect. done.
Qed.

Lemma bucket_range h : 0 <= h < 127 -> 0 <= zat aKWHash h <= 147.
Proof.
  intros Hh. pose proof (proj1 (forallb_forall (fun n => (0 <=? zat aKWHash (Z.of_nat n)) &&
    (zat aKWHash (Z.of_nat n) <=? 147)) (seq 0 127)) ltac:(vm_compute; reflexivity)
    (Z.to_nat h) ltac:(apply in_seq; lia)) as H.
  cbv beta in H. rewrite Z2Nat.id in H by lia. breflect. lia.
Qed.

Lemma keyword_index_find z n : 2 <= n <= zlen z ->
  Forall (fun c => kwchar c = true) (take (Z.to_nat n) z) ->
  let u := map sqlite3Toupper (take (Z.to_nat n) z) in
  keyword_index z n = chain_find 148 (fun j => list_eqb u (kw_text j)) (zat aKWHash (kw_hash u (zlen u))).
Proof.
  intros Hn Hk u.
  assert (zlen u = n) as Hu.
  { unfold u, zlen. rewrite length_map, length_take. unfold zlen in Hn. lia. }
  assert (map kw_mask (take (Z.to_nat n) z) = u) as Hmask.
  { unfold u. apply map_ext_in. intros c Hc. apply (proj1 (List.Forall_forall _ _) Hk) in Hc.
    by apply kwchar_mask in Hc as (_ & -> & _). }
  assert (forall m, 0 <= m < n -> charMap (zat z m) = charMap (zat u m)) as Hch.
  { intros m Hm. unfold u. rewrite zat_map by (unfold zlen in *; rewrite length_take; lia).
    rewrite zat_take, decide_True by lia.
    assert (kwchar (zat z m) = true) as Hkm.
    { pose proof (zat_take n z m ltac:(lia)) as Hzt. rewrite decide_True in Hzt by lia. rewrite <- Hzt. apply (proj1 (List.Forall_forall _ _) Hk).
      apply nth_In. unfold zlen in *. rewrite length_take. lia. }
    by apply kwchar_mask in Hkm as (_ & _ & ->). }
  unfold keyword_index. rewrite keyword_chain_find; [|done|].
  2: { apply bucket_range. unfold kw_hash. apply Z.mod_pos_bound. lia. }
  rewrite Hmask. unfold kw_hash. rewrite Hu, !Hch by lia. done.
Qed.

Definition kw_del : list Z := bytes_of_string "CURRENT" ++ [127] ++ bytes_of_string "TIME".

(** C36: keyword lookup is exact on words of letters and underscores: if the word is a keyword up
    to case, its code is returned, and [TK_ID] otherwise; the chains of the hash table are
    finite, all keywords are distinct, and [sqlite3_keyword_check] tells exactly the keywords.
    On other bytes the case-folding by one bit confuses DEL with the underscore. *)
Theorem keyword_lookup_exact z n : 2 <= n <= zlen z ->
  Forall (fun c => kwchar c = true) (take (Z.to_nat n) z) ->
  let u := map sqlite3Toupper (take (Z.to_nat n) z) in
  (forall i, 1 <= i <= 147 -> u = kw_text i ->
     sqlite3KeywordCode z n = zat aKWCode i /\ sqlite3_keyword_check z n = true) /\
  ((forall i, 1 <= i <= 147 -> u <> kw_text i) ->
     sqlite3KeywordCode z n = TK_ID /\ sqlite3_keyword_check z n = false) /\
  sqlite3_keyword_check kw_del (zlen kw_del) = true.
Proof.
  intros Hn Hk u. pose proof (keyword_index_find z n Hn Hk) as Hi. cbv zeta in Hi. fold u in Hi.
  unfold sqlite3_keyword_check, sqlite3KeywordCode, keywordCode.
  rewrite (proj2 (Z.leb_le 2 n)), Hi by lia. split_and!.
  - intros i Hir Hu. rewrite Hu, kw_found by done. split; [done|].
    apply (kw_indices_spec (fun i => negb (TK_ID =? zat aKWCode i))); [by vm_compute|done].
  - intros Hno. pose proof (chain_find_sound 148 (fun j => list_eqb u (kw_text j))
      (zat aKWHash (kw_hash u (zlen u)))) as Hs.
    specialize (Hs ltac:(apply bucket_range; unfold kw_hash; apply Z.mod_pos_bound; lia)).
    destruct (chain_find _ _ _) as [j|]; [|by rewrite Z.eqb_refl].
    destruct Hs as [Hj Hm]. apply bool_decide_eq_true in Hm. by destruct (Hno j).
  - vm_compute. done.
Qed.

Lemma keyword_lookup_exact_witness :
  (2 <= 6 <= zlen (bytes_of_string "selectx") /\
   Forall (fun c => kwchar c = true) (take (Z.to_nat 6) (bytes_of_string "selectx"))) /\
  sqlite3KeywordCode (bytes_of_string "selectx") 6 = TK_SELECT.
Proof.
  assert (2 <= 6 <= zlen (bytes_of_string "selectx")) as H1 by (vm_compute; split; discriminate).
  assert (Forall (fun c => kwchar c = true) (take (Z.to_nat 6) (bytes_of_string "selectx"))) as H2.
  { repeat (apply Forall_cons_2; [reflexivity|]). apply Forall_nil_2. }
  split; [done|].
  destruct (keyword_lookup_exact _ 6 H1 H2) as [H _].
  destruct (H 19 ltac:(lia) eq_refl) as [E _]. exact E.
Defined.
