(* ===== verification/Tokenizer.v ===== *)
(** * The SQL tokenizer (tokenize.c of sqlite3.c)

    [sqlite3GetToken] splits SQL text into tokens by the class of the first byte; each case of
    its switch is a definition here.  [sqlite3RunParser] feeds the tokens to the parser, which
    is an argument: it resolves the words WINDOW, OVER and FILTER by looking ahead, drops
    spaces and comments, and closes the input with a semicolon and the end token. *)

From S2P Require Import Prelude Bitwise SqlText Keywords.
From stdpp Require Import options.

(** ** Character classes *)

Definition CC_X : Z := 0.
Definition CC_KYWD0 : Z := 1.
Definition CC_KYWD : Z := 2.
Definition CC_DIGIT : Z := 3.
Definition CC_DOLLAR : Z := 4.
Definition CC_VARALPHA : Z := 5.
Definition CC_VARNUM : Z := 6.
Definition CC_SPACE : Z := 7.
Definition CC_QUOTE : Z := 8.
Definition CC_QUOTE2 : Z := 9.
Definition CC_PIPE : Z := 10.
Definition CC_MINUS : Z := 11.
Definition CC_LT : Z := 12.
Definition CC_GT : Z := 13.
Definition CC_EQ : Z := 14.
Definition CC_BANG : Z := 15.
Definition CC_SLASH : Z := 16.
Definition CC_LP : Z := 17.
Definition CC_RP : Z := 18.
Definition CC_SEMI : Z := 19.
Definition CC_PLUS : Z := 20.
Definition CC_STAR : Z := 21.
Definition CC_PERCENT : Z := 22.
Definition CC_COMMA : Z := 23.
Definition CC_AND : Z := 24.
Definition CC_TILDA : Z := 25.
Definition CC_DOT : Z := 26.
Definition CC_ID : Z := 27.
Definition CC_ILLEGAL : Z := 28.
Definition CC_NUL : Z := 29.
Definition CC_BOM : Z := 30.

Definition aiClass : list Z :=
  [
   29; 28; 28; 28; 28; 28; 28; 28; 28; 7; 7; 28; 7; 7; 28; 28;
   28; 28; 28; 28; 28; 28; 28; 28; 28; 28; 28; 28; 28; 28; 28; 28;
   7; 15; 8; 5; 4; 22; 24; 8; 17; 18; 21; 20; 23; 11; 26; 16;
   3; 3; 3; 3; 3; 3; 3; 3; 3; 3; 5; 19; 12; 14; 13; 6;
   5; 1; 1; 1; 1; 1; 1; 1; 1; 1; 1; 1; 1; 1; 1; 1;
   1; 1; 1; 1; 1; 1; 1; 1; 0; 2; 2; 9; 28; 28; 28; 2;
   8; 1; 1; 1; 1; 1; 1; 1; 1; 1; 1; 1; 1; 1; 1; 1;
   1; 1; 1; 1; 1; 1; 1; 1; 0; 2; 2; 28; 10; 28; 25; 28;
   27; 27; 27; 27; 27; 27; 27; 27; 27; 27; 27; 27; 27; 27; 27; 27;
   27; 27; 27; 27; 27; 27; 27; 27; 27; 27; 27; 27; 27; 27; 27; 27;
   27; 27; 27; 27; 27; 27; 27; 27; 27; 27; 27; 27; 27; 27; 27; 27;
   27; 27; 27; 27; 27; 27; 27; 27; 27; 27; 27; 27; 27; 27; 27; 27;
   27; 27; 27; 27; 27; 27; 27; 27; 27; 27; 27; 27; 27; 27; 27; 27;
   27; 27; 27; 27; 27; 27; 27; 27; 27; 27; 27; 27; 27; 27; 27; 27;
   27; 27; 27; 27; 27; 27; 27; 27; 27; 27; 27; 27; 27; 27; 27; 30;
   27; 27; 27; 27; 27; 27; 27; 27; 27; 27; 27; 27; 27; 27; 27; 27].

Definition yyFallback : list Z :=
  [
   0; 0; 60; 60; 60; 60; 0; 60; 60; 60; 0; 60; 60; 60; 60; 0; 0; 0; 60; 0;
   0; 60; 0; 0; 0; 0; 60; 60; 60; 60; 60; 60; 60; 60; 60; 60; 60; 60; 60; 60;
   60; 60; 60; 0; 0; 0; 0; 60; 60; 0; 0; 0; 0; 0; 0; 0; 0; 0; 0; 0;
   0; 60; 60; 60; 60; 60; 60; 60; 60; 60; 60; 60; 60; 60; 60; 60; 60; 60; 60; 60;
   60; 60; 60; 60; 60; 60; 60; 60; 60; 60; 60; 60; 60; 60; 60; 60; 60; 60; 60; 60;
   60; 60; 0; 0; 0; 0; 0; 0; 0; 0; 0; 0; 0; 0; 0; 0; 0; 0; 0; 0;
   0; 0; 0; 0; 0; 0; 0; 0; 0; 0; 0; 0; 0; 0; 0; 0; 0; 0; 0; 0;
   0; 0; 0; 0; 0; 0; 0; 0; 0; 0; 0; 0; 0; 0; 0; 0; 0; 0; 0; 0;
   0; 0; 0; 0; 0; 0; 0; 0; 0; 0; 0; 0; 0; 0; 0; 0; 0; 0; 0; 0;
   0; 0; 0; 0; 0; 0; 0].

Definition sqlite3ParserFallback (iToken : Z) : Z := zat yyFallback iToken.

Definition IdChar (c : Z) : bool := ctype c 0x46.

(** ** Scanning loops *)

(** [for(i=k; f(z[i]); i++){}]: the number of turns. *)
Fixpoint span (f : Z -> bool) (z : list Z) : Z :=
  match z with
  | c :: z' => if f c then 1 + span f z' else 0
  | [] => 0
  end.

Definition tok_space (z : list Z) : Z * Z := (1 + span sqlite3Isspace (tl z), TK_SPACE).

Definition tok_minus (z : list Z) : Z * Z :=
  if zat z 1 =? chr "-" then
    (2 + span (fun c => negb (c =? 0) && negb (c =? 10)) (zdrop 2 z), TK_COMMENT)
  else if zat z 1 =? chr ">" then (2 + zbool (zat z 2 =? chr ">"), TK_PTR)
  else (1, TK_MINUS).

(** [for(...; (c!='*' || z[i]!='/') && (c=z[i])!=0; i++)]: [z] starts at [z[i]]; the values of
    [i] and [c] when the loop ends. *)
Fixpoint comment_loop (z : list Z) (c i : Z) : Z * Z :=
  if (c =? chr "*") && (zat z 0 =? chr "/") then (i, c)
  else
    match z with
    | [] => (i, 0)
    | d :: z' => if d =? 0 then (i, 0) else comment_loop z' d (i + 1)
    end.

Definition tok_slash (z : list Z) : Z * Z :=
  if negb (zat z 1 =? chr "*") || (zat z 2 =? 0) then (1, TK_SLASH)
  else
    let '(i, c) := comment_loop (zdrop 3 z) (zat z 2) 3 in
    (if negb (c =? 0) then i + 1 else i, TK_COMMENT).

Definition tok_eq (z : list Z) : Z * Z := (1 + zbool (zat z 1 =? chr "="), TK_EQ).

Definition tok_lt (z : list Z) : Z * Z :=
  let c := zat z 1 in
  if c =? chr "=" then (2, TK_LE)
  else if c =? chr ">" then (2, TK_NE)
  else if c =? chr "<" then (2, TK_LSHIFT)
  else (1, TK_LT).

Definition tok_gt (z : list Z) : Z * Z :=
  let c := zat z 1 in
  if c =? chr "=" then (2, TK_GE)
  else if c =? chr ">" then (2, TK_RSHIFT)
  else (1, TK_GT).

Definition tok_bang (z : list Z) : Z * Z :=
  if negb (zat z 1 =? chr "=") then (1, TK_ILLEGAL) else (2, TK_NE).

Definition tok_pipe (z : list Z) : Z * Z :=
  if negb (zat z 1 =? chr "|") then (1, TK_BITOR) else (2, TK_CONCAT).

(** The quoted-text loop from [z[i]] on: [i] and [c] when it ends. *)
Fixpoint quote_loop (delim : Z) (z : list Z) (i : Z) : Z * Z :=
  match z with
  | [] => (i, 0)
  | c :: z' =>
      if c =? 0 then (i, 0)
      else if c =? delim then
        match z' with
        | d :: z'' => if d =? delim then quote_loop delim z'' (i + 2) else (i, c)
        | [] => (i, c)
        end
      else quote_loop delim z' (i + 1)
  end.

Definition tok_quote (z : list Z) : Z * Z :=
  let '(i, c) := quote_loop (zat z 0) (tl z) 1 in
  if c =? 39 then (i + 1, TK_STRING)
  else if negb (c =? 0) then (i + 1, TK_ID)
  else (i, TK_ILLEGAL).

Definition SQLITE_DIGIT_SEPARATOR : Z := 95.

(** [for(...; 1; i++){ if( digit(z[i])==0 ){ if( z[i]=='_' ) *tokenType = TK_QNUMBER; else break; } }]:
    [i] and the token type when the loop ends. *)
Fixpoint digit_run (digit : Z -> bool) (z : list Z) (i t : Z) : Z * Z :=
  match z with
  | [] => (i, t)
  | c :: z' =>
      if digit c then digit_run digit z' (i + 1) t
      else if c =? SQLITE_DIGIT_SEPARATOR then digit_run digit z' (i + 1) TK_QNUMBER
      else (i, t)
  end.

Definition tok_number (z : list Z) : Z * Z :=
  let '(i, t) :=
    if (zat z 0 =? chr "0") && ((zat z 1 =? chr "x") || (zat z 1 =? chr "X"))
       && sqlite3Isxdigit (zat z 2) then
      digit_run sqlite3Isxdigit (zdrop 3 z) 3 TK_INTEGER
    else
      let '(i, t) := digit_run sqlite3Isdigit z 0 TK_INTEGER in
      let '(i, t) :=
        if zat z i =? chr "." then
          digit_run sqlite3Isdigit (zdrop (i + 1) z) (i + 1)
            (if t =? TK_INTEGER then TK_FLOAT else t)
        else (i, t) in
      if ((zat z i =? chr "e") || (zat z i =? chr "E")) &&
         (sqlite3Isdigit (zat z (i + 1)) ||
          (((zat z (i + 1) =? chr "+") || (zat z (i + 1) =? chr "-")) &&
           sqlite3Isdigit (zat z (i + 2)))) then
        digit_run sqlite3Isdigit (zdrop (i + 2) z) (i + 2) (if t =? TK_INTEGER then TK_FLOAT else t)
      else (i, t) in
  let k := span IdChar (zdrop i z) in
  (i + k, if 0 <? k then TK_ILLEGAL else t).

(** [for(i=1, c=z[0]; c!=']' && (c=z[i])!=0; i++){}] *)
Fixpoint bracket_loop (z : list Z) (c i : Z) : Z * Z :=
  if c =? chr "]" then (i, c)
  else
    match z with
    | [] => (i, 0)
    | d :: z' => if d =? 0 then (i, 0) else bracket_loop z' d (i + 1)
    end.

Definition tok_quote2 (z : list Z) : Z * Z :=
  let '(i, c) := bracket_loop (tl z) (zat z 0) 1 in
  (i, if c =? chr "]" then TK_ID else TK_ILLEGAL).

Definition tok_varnum (z : list Z) : Z * Z := (1 + span sqlite3Isdigit (tl z), TK_VARIABLE).

(** The loop over a named parameter from [z[i]] on: [i], [n], and whether a parenthesis was left
    open. *)
Fixpoint var_loop (z : list Z) (i n : Z) : Z * Z * bool :=
  match z with
  | [] => (i, n, false)
  | c :: z' =>
      if IdChar c then var_loop z' (i + 1) (n + 1)
      else if (c =? chr "(") && (0 <? n) then
        let k := span (fun c => negb (c =? 0) && negb (sqlite3Isspace c) && negb (c =? chr ")")) z' in
        if zat z' k =? chr ")" then (i + 1 + k + 1, n, false) else (i + 1 + k, n, true)
      else
        match z' with
        | d :: z'' => if (c =? chr ":") && (d =? chr ":") then var_loop z'' (i + 2) n else (i, n, false)
        | [] => (i, n, false)
        end
  end.

Definition tok_variable (z : list Z) : Z * Z :=
  let '(i, n, open) := var_loop (tl z) 1 0 in
  (i, if n =? 0 then TK_ILLEGAL else if (open : bool) then TK_ILLEGAL else TK_VARIABLE).

(** After the switch: [while( IdChar(z[i]) ){ i++; } *tokenType = TK_ID]. *)
Definition tok_ident (z : list Z) (i : Z) : Z * Z := (i + span IdChar (zdrop i z), TK_ID).

Definition kywd_class (c : Z) : bool := zat aiClass c <=? CC_KYWD.

Definition tok_kywd0 (z : list Z) : Z * Z :=
  if CC_KYWD <? zat aiClass (zat z 1) then tok_ident z 1
  else
    let i := 2 + span kywd_class (zdrop 2 z) in
    if IdChar (zat z i) then tok_ident z (i + 1)
    else (i, keywordCode z i TK_ID).

Definition tok_x (z : list Z) : Z * Z :=
  if zat z 1 =? 39 then
    let i := 2 + span sqlite3Isxdigit (zdrop 2 z) in
    let '(i, t) :=
      if negb (zat z i =? 39) || negb (Z.land i 1 =? 0) then
        (i + span (fun c => negb (c =? 0) && negb (c =? 39)) (zdrop i z), TK_ILLEGAL)
      else (i, TK_BLOB) in
    (if negb (zat z i =? 0) then i + 1 else i, t)
  else tok_ident z 1.

Definition tok_bom (z : list Z) : Z * Z :=
  if (zat z 1 =? 0xbb) && (zat z 2 =? 0xbf) then (3, TK_SPACE) else tok_ident z 1.

(** ** The tokenizer: the length of the token at [z] and its type *)

(** The switch on the class of the first byte. *)
Definition get_token_class (cc : Z) (z : list Z) : Z * Z :=
  if cc =? CC_SPACE then tok_space z
  else if cc =? CC_MINUS then tok_minus z
  else if cc =? CC_LP then (1, TK_LP)
  else if cc =? CC_RP then (1, TK_RP)
  else if cc =? CC_SEMI then (1, TK_SEMI)
  else if cc =? CC_PLUS then (1, TK_PLUS)
  else if cc =? CC_STAR then (1, TK_STAR)
  else if cc =? CC_SLASH then tok_slash z
  else if cc =? CC_PERCENT then (1, TK_REM)
  else if cc =? CC_EQ then tok_eq z
  else if cc =? CC_LT then tok_lt z
  else if cc =? CC_GT then tok_gt z
  else if cc =? CC_BANG then tok_bang z
  else if cc =? CC_PIPE then tok_pipe z
  else if cc =? CC_COMMA then (1, TK_COMMA)
  else if cc =? CC_AND then (1, TK_BITAND)
  else if cc =? CC_TILDA then (1, TK_BITNOT)
  else if cc =? CC_QUOTE then tok_quote z
  else if cc =? CC_DOT then
    if negb (sqlite3Isdigit (zat z 1)) then (1, TK_DOT) else tok_number z
  else if cc =? CC_DIGIT then tok_number z
  else if cc =? CC_QUOTE2 then tok_quote2 z
  else if cc =? CC_VARNUM then tok_varnum z
  else if (cc =? CC_DOLLAR) || (cc =? CC_VARALPHA) then tok_variable z
  else if cc =? CC_KYWD0 then tok_kywd0 z
  else if cc =? CC_X then tok_x z
  else if (cc =? CC_KYWD) || (cc =? CC_ID) then tok_ident z 1
  else if cc =? CC_BOM then tok_bom z
  else if cc =? CC_NUL then (0, TK_ILLEGAL)
  else (1, TK_ILLEGAL).

Definition sqlite3GetToken (z : list Z) : Z * Z := get_token_class (zat aiClass (zat z 0)) z.

Definition tok_of (s : string) : Z * Z := sqlite3GetToken (bytes_of_string s).

Example tok1 : tok_of "SELECT * FROM t" = (6, TK_SELECT). Proof. reflexivity. Qed.
Example tok2 : tok_of "1_000.5e-3+x" = (10, TK_QNUMBER). Proof. reflexivity. Qed.
Example tok3 : tok_of "/* a */b" = (7, TK_COMMENT). Proof. reflexivity. Qed.
Example tok4 : tok_of "$a::b(c)d" = (8, TK_VARIABLE). Proof. reflexivity. Qed.
Example tok5 : tok_of "x'ABC'" = (6, TK_ILLEGAL). Proof. reflexivity. Qed.
Example tok6 : tok_of "0x1Fg" = (5, TK_ILLEGAL). Proof. reflexivity. Qed.
Example tok7 : tok_of "'it''s' x" = (7, TK_STRING). Proof. reflexivity. Qed.

(** ** Lemmas: every token is a non-empty prefix *)

Lemma span_range f z : 0 <= span f z <= zlen z.
Proof.
  induction z as [|c z IH]; cbn [span]; [by change (zlen []) with 0|]. rewrite zlen_cons.
  case_if; pose proof (zlen_nonneg z); lia.
Qed.

Lemma span_zdrop f k z : 0 <= k -> 0 <= span f (zdrop k z) <= Z.max 0 (zlen z - k).
Proof. intros Hk. rewrite <- zlen_zdrop by done. apply span_range. Qed.

(** A character found where the token looks says how far the text reaches. *)
Ltac reach :=
  repeat match goal with
  | H : zat ?z ?i = ?c |- _ =>
      lazymatch goal with
      | _ : i < zlen z |- _ => fail
      | _ => assert (i < zlen z) by (apply zat_lt; [lia|rewrite H; discriminate])
      end
  end.

Lemma comment_loop_range z : forall c i, c <> 0 ->
  let '(i', c') := comment_loop z c i in i <= i' <= i + zlen z /\ (c' <> 0 -> i' < i + zlen z).
Proof.
  assert (forall z c i, (c =? chr "*") && (zat z 0 =? chr "/") = true -> i < i + zlen z) as Hex.
  { intros z' c i H. breflect. assert (0 < zlen z'); [|lia]. apply zat_lt; [lia|].
    match goal with H : zat _ 0 = _ |- _ => rewrite H end. done. }
  induction z as [|d z IH]; intros c i Hc; cbn [comment_loop].
  - case_if; [|change (zlen []) with 0; lia]. specialize (Hex [] c i). change (zlen []) with 0 in *.
    breflect. match goal with H : zat [] 0 = _ |- _ => vm_compute in H; discriminate end.
  - rewrite zlen_cons in *. pose proof (zlen_nonneg z).
    destruct ((c =? chr "*") && (zat (d :: z) 0 =? chr "/")); [lia|].
    destruct (d =? 0) eqn:E; breflect; [lia|].
    specialize (IH d (i + 1) E). destruct (comment_loop z d (i + 1)) as [i' c']. lia.
Qed.

Lemma quote_loop_range delim z : forall i,
  let '(i', c') := quote_loop delim z i in i <= i' <= i + zlen z /\ (c' <> 0 -> i' < i + zlen z).
Proof.
  remember (length z) as n eqn:Hn. revert z Hn.
  induction n as [n IH] using lt_wf_ind; intros z -> i.
  destruct z as [|c z]; cbn [quote_loop]; [change (zlen []) with 0; lia|]. rewrite zlen_cons.
  pose proof (zlen_nonneg z). destruct (c =? 0); [lia|]. destruct (c =? delim).
  - destruct z as [|d z]; [change (zlen []) with 0; lia|]. rewrite zlen_cons in *.
    pose proof (zlen_nonneg z). destruct (d =? delim); [|lia].
    specialize (IH (length z) ltac:(simpl; lia) z eq_refl (i + 2)).
    destruct (quote_loop delim z (i + 2)). lia.
  - specialize (IH (length z) ltac:(simpl; lia) z eq_refl (i + 1)).
    destruct (quote_loop delim z (i + 1)). lia.
Qed.

Lemma digit_run_range digit z : forall i t,
  let '(i', _) := digit_run digit z i t in i <= i' <= i + zlen z.
Proof.
  induction z as [|c z IH]; intros i t; cbn [digit_run]; [change (zlen []) with 0; lia|].
  rewrite zlen_cons. pose proof (zlen_nonneg z). destruct (digit c); [|destruct (c =? _)]; [| |lia].
  - specialize (IH (i + 1) t). destruct (digit_run digit z (i + 1) t). lia.
  - specialize (IH (i + 1) TK_QNUMBER). destruct (digit_run digit z (i + 1) TK_QNUMBER). lia.
Qed.

Lemma bracket_loop_range z : forall c i,
  let '(i', _) := bracket_loop z c i in i <= i' <= i + zlen z.
Proof.
  induction z as [|d z IH]; intros c i; cbn [bracket_loop].
  - change (zlen []) with 0. destruct (c =? _); lia.
  - rewrite zlen_cons. pose proof (zlen_nonneg z). destruct (c =? _); [lia|].
    destruct (d =? 0); [lia|]. specialize (IH d (i + 1)). destruct (bracket_loop z d (i + 1)). lia.
Qed.

Lemma var_loop_range z : forall i n,
  let '(i', _, _) := var_loop z i n in i <= i' <= i + zlen z.
Proof.
  remember (length z) as k eqn:Hk. revert z Hk.
  induction k as [k IH] using lt_wf_ind; intros z -> i n.
  destruct z as [|c z]; cbn [var_loop]; [change (zlen []) with 0; lia|]. rewrite zlen_cons.
  pose proof (zlen_nonneg z). destruct (IdChar c).
  - specialize (IH (length z) ltac:(simpl; lia) z eq_refl (i + 1) (n + 1)).
    destruct (var_loop z (i + 1) (n + 1)) as [[? ?] ?]. lia.
  - destruct ((c =? chr "(") && (0 <? n)).
    + set (f := fun c => negb (c =? 0) && negb (sqlite3Isspace c) && negb (c =? chr ")")).
      pose proof (span_range f z). case_if; [|lia]. reach. lia.
    + destruct z as [|d z]; [change (zlen []) with 0; lia|]. rewrite zlen_cons in *.
      pose proof (zlen_nonneg z). destruct ((c =? chr ":") && (d =? chr ":")); [|lia].
      specialize (IH (length z) ltac:(simpl; lia) z eq_refl (i + 2) n).
      destruct (var_loop z (i + 2) n) as [[? ?] ?]. lia.
Qed.

Lemma tok_ident_range z i : 1 <= i <= zlen z -> 1 <= (tok_ident z i).1 <= zlen z.
Proof. intros Hi. unfold tok_ident. cbn [fst]. pose proof (span_zdrop IdChar i z). lia. Qed.

Lemma tok_number_range z : 0 < zlen z -> sqlite3Isdigit (zat z 0) = true \/ zat z 0 = chr "." ->
  1 <= (tok_number z).1 <= zlen z.
Proof.
  intros Hz H0. unfold tok_number.
  match goal with |- context [let '(i, t) := ?e in _] => set (p := e) end.
  assert (1 <= p.1 <= zlen z) as Hp.
  { subst p. destruct (_ && _ && _) eqn:E.
    - breflect. reach. assert (2 < zlen z) as Hlt2.
      { apply zat_lt; [lia|]. intros E0. rewrite E0 in *. vm_compute in *. discriminate. }
      pose proof (digit_run_range sqlite3Isxdigit (zdrop 3 z) 3 TK_INTEGER) as Hr.
      rewrite zlen_zdrop in Hr by lia. destruct (digit_run _ _ _ _). cbn [fst]. lia.
    - clear E. pose proof (digit_run_range sqlite3Isdigit z 0 TK_INTEGER) as Hr.
      assert (let '(i, _) := digit_run sqlite3Isdigit z 0 TK_INTEGER in 1 <= i \/ i = 0 /\ zat z 0 = chr ".") as H1.
      { destruct z as [|c z]; [change (zlen []) with 0 in Hz; lia|]. cbn [digit_run].
        change (zat (c :: z) 0) with c in *. destruct H0 as [-> | ->].
        - pose proof (digit_run_range sqlite3Isdigit z (0 + 1) TK_INTEGER) as Hr2.
          destruct (digit_run _ _ (0 + 1) _). lia.
        - change (sqlite3Isdigit (chr ".")) with false. change (chr "." =? _) with false.
          cbv iota. lia. }
      destruct (digit_run sqlite3Isdigit z 0 TK_INTEGER) as [i t].
      match goal with |- context [let '(i, t) := ?e in _] => set (q := e) end.
      assert (1 <= q.1 <= zlen z) as Hq.
      { subst q. destruct (zat z i =? chr ".") eqn:E; breflect.
        - reach. pose proof (digit_run_range sqlite3Isdigit (zdrop (i + 1) z) (i + 1)
            (if t =? TK_INTEGER then TK_FLOAT else t)) as Hr2.
          rewrite zlen_zdrop in Hr2 by lia. destruct (digit_run _ (zdrop _ _) _ _). cbn [fst]. lia.
        - cbn [fst]. destruct H1 as [|[-> H1]]; [lia|congruence]. }
      destruct q as [i2 t2]. cbn [fst] in Hq. clear H1 Hr. destruct (_ && _) eqn:E; [|cbn [fst]; lia].
      assert (i2 + 1 < zlen z) as Hlt.
      { apply zat_lt; [lia|]. intros E0. rewrite E0 in E.
        rewrite andb_true_iff in E. destruct E as [_ E]. vm_compute in E. discriminate. }
      pose proof (digit_run_range sqlite3Isdigit (zdrop (i2 + 2) z) (i2 + 2)
        (if t2 =? TK_INTEGER then TK_FLOAT else t2)) as Hr2.
      rewrite zlen_zdrop in Hr2 by lia. destruct (digit_run _ (zdrop _ _) _ _). cbn [fst]. lia. }
  destruct p as [i t]. cbn [fst] in *. pose proof (span_zdrop IdChar i z). lia.
Qed.

Lemma class_of_first z : cstring z -> 0 < zlen z ->
  let c := zat z 0 in
  zat aiClass c <> CC_NUL /\ (zat aiClass c = CC_DOT -> c = chr ".") /\
  (zat aiClass c = CC_DIGIT -> sqlite3Isdigit c = true).
Proof.
  intros Hz Hl c. destruct Hz as [|d z Hd Hz]; [by change (zlen []) with 0 in Hl|].
  change c with d. assert (is_byte d) as Hb by (unfold is_byte; lia).
  pose proof (all_bytes_spec (fun d => (d =? 0) || (negb (zat aiClass d =? CC_NUL) &&
    implb (zat aiClass d =? CC_DOT) (d =? chr ".") &&
    implb (zat aiClass d =? CC_DIGIT) (sqlite3Isdigit d))) d ltac:(vm_compute; reflexivity) Hb) as H.
  cbv beta in H. rewrite (proj2 (Z.eqb_neq d 0)) in H by lia. cbn [orb] in H. breflect.
  split_and!; [done|intros E; rewrite E in *|intros E; rewrite E in *]; cbn in *; breflect; done.
Qed.

Ltac next_class := match goal with |- context [if ?b then _ else _] => destruct b end.

Lemma get_token_range z : cstring z -> 0 < zlen z -> 1 <= (sqlite3GetToken z).1 <= zlen z.
Proof.
  intros Hz Hl. destruct (class_of_first z Hz Hl) as (Hnul & Hdot & Hdig).
  unfold sqlite3GetToken. set (cc := zat aiClass (zat z 0)) in *. unfold get_token_class.
  assert (forall p : Z * Z, p.1 = 1 -> 1 <= p.1 <= zlen z) as H1 by (intros p ->; lia).
  assert (forall i, 1 <= i -> zat z i <> 0 -> i + 1 <= zlen z) as Hr
    by (intros i Hi H; apply zat_lt in H; lia).
  destruct (cc =? CC_SPACE).
  { unfold tok_space. cbn [fst]. rewrite tl_zdrop. pose proof (span_zdrop sqlite3Isspace 1 z). lia. }
  destruct (cc =? CC_MINUS).
  { unfold tok_minus. case_if; [|case_if]; cbn [fst]; reach; [|destruct (zat z 2 =? _) eqn:E; simpl; breflect; reach; lia|lia].
    pose proof (span_zdrop (fun c => negb (c =? 0) && negb (c =? 10)) 2 z). lia. }
  do 5 (next_class; [by apply H1|]).
  destruct (cc =? CC_SLASH).
  { unfold tok_slash. destruct (_ || _) eqn:E; [by apply H1|]. breflect. reach.
    assert (2 < zlen z) by (apply zat_lt; [lia|done]).
    pose proof (comment_loop_range (zdrop 3 z) (zat z 2) 3 ltac:(done)) as Hc.
    destruct (comment_loop _ _ _) as [i c]. rewrite zlen_zdrop in Hc by lia. cbn [fst].
    case_if; lia. }
  next_class; [by apply H1|].
  destruct (cc =? CC_EQ); [unfold tok_eq; cbn [fst]; destruct (zat z 1 =? _) eqn:E; simpl; breflect; reach; lia|].
  destruct (cc =? CC_LT); [unfold tok_lt; cbv zeta; repeat case_if; cbn [fst]; reach; lia|].
  destruct (cc =? CC_GT); [unfold tok_gt; cbv zeta; repeat case_if; cbn [fst]; reach; lia|].
  destruct (cc =? CC_BANG); [unfold tok_bang; case_if; cbn [fst]; reach; lia|].
  destruct (cc =? CC_PIPE); [unfold tok_pipe; case_if; cbn [fst]; reach; lia|].
  do 3 (next_class; [by apply H1|]).
  destruct (cc =? CC_QUOTE).
  { unfold tok_quote. pose proof (quote_loop_range (zat z 0) (tl z) 1) as Hq.
    rewrite tl_zdrop in *. destruct (quote_loop _ _ _) as [i c]. rewrite zlen_zdrop in Hq by lia.
    repeat case_if; cbn [fst]; lia. }
  destruct (cc =? CC_DOT) eqn:Ed.
  { next_class; [by apply H1|]. apply tok_number_range; [done|]. breflect. right. by apply Hdot. }
  clear Ed Hdot.
  destruct (cc =? CC_DIGIT) eqn:Eg.
  { apply tok_number_range; [done|]. breflect. left. by apply Hdig. }
  clear Eg Hdig.
  destruct (cc =? CC_QUOTE2).
  { unfold tok_quote2. pose proof (bracket_loop_range (tl z) (zat z 0) 1) as Hq.
    rewrite tl_zdrop in *. destruct (bracket_loop _ _ _) as [i c]. rewrite zlen_zdrop in Hq by lia.
    cbn [fst]. lia. }
  destruct (cc =? CC_VARNUM).
  { unfold tok_varnum. cbn [fst]. rewrite tl_zdrop. pose proof (span_zdrop sqlite3Isdigit 1 z). lia. }
  destruct ((cc =? CC_DOLLAR) || _).
  { unfold tok_variable. pose proof (var_loop_range (tl z) 1 0) as Hq.
    rewrite tl_zdrop in *. destruct (var_loop _ _ _) as [[i n] o]. rewrite zlen_zdrop in Hq by lia.
    cbn [fst]. lia. }
  destruct (cc =? CC_KYWD0).
  { unfold tok_kywd0. destruct (CC_KYWD <? _) eqn:Ek; [apply tok_ident_range; lia|]. breflect.
    assert (zat z 1 <> 0) as Hz1 by (intros E0; rewrite E0 in Ek; vm_compute in Ek; done).
    apply Hr in Hz1; [|lia].
    pose proof (span_zdrop kywd_class 2 z). cbv zeta. case_if; [|cbn [fst]; lia].
    assert (zat z (2 + span kywd_class (zdrop 2 z)) <> 0) as Hz2.
    { intros E0. rewrite E0 in *. vm_compute in Hif. done. }
    apply Hr in Hz2; [|lia]. apply tok_ident_range. lia. }
  destruct (cc =? CC_X).
  { unfold tok_x. destruct (zat z 1 =? 39) eqn:E1; [|apply tok_ident_range; lia].
    breflect. reach. pose proof (span_zdrop sqlite3Isxdigit 2 z). cbv zeta.
    set (i := 2 + span sqlite3Isxdigit (zdrop 2 z)) in *.
    match goal with |- context [let '(i, t) := ?e in _] => set (p := e) end.
    assert (2 <= p.1 <= zlen z) as Hp.
    { subst p. case_if; cbn [fst]; [|lia].
      pose proof (span_zdrop (fun c => negb (c =? 0) && negb (c =? 39)) i z). lia. }
    destruct p as [i2 t2]. cbn [fst] in *. case_if; [|lia].
    assert (i2 + 1 <= zlen z) by (apply Hr; [lia|done]). lia. }
  destruct ((cc =? CC_KYWD) || _); [apply tok_ident_range; lia|].
  destruct (cc =? CC_BOM).
  { unfold tok_bom. destruct (_ && _) eqn:E; [|apply tok_ident_range; lia]. breflect. reach. cbn [fst]. lia. }
  destruct (cc =? CC_NUL) eqn:E; [by breflect|by apply H1].
Qed.

(** The tokens of a text: their types and texts. *)
Fixpoint sql_tokens (fuel : nat) (z : list Z) : option (list (Z * list Z)) :=
  match fuel with
  | O => None
  | S fuel =>
      match z with
      | [] => Some []
      | _ =>
          let '(n, t) := sqlite3GetToken z in
          rest ← sql_tokens fuel (zdrop n z); Some ((t, take (Z.to_nat n) z) :: rest)
      end
  end.

Lemma sql_tokens_partition fuel : forall z, (length z < fuel)%nat -> cstring z ->
  exists ts, sql_tokens fuel z = Some ts /\ concat ts.*2 = z /\
    Forall (fun t => t.2 <> []) ts.
Proof.
  induction fuel as [|fuel IH]; intros z Hf Hz; [lia|]. cbn [sql_tokens].
  destruct z as [|c z0] eqn:Ez; [by exists []|]. rewrite <- Ez in *.
  assert (0 < zlen z) as Hl by (subst z; rewrite zlen_cons; pose proof (zlen_nonneg z0); lia).
  pose proof (get_token_range z Hz Hl) as Hr. destruct (sqlite3GetToken z) as [n t]. cbn [fst] in Hr.
  destruct (IH (zdrop n z)) as (ts & E & Hc & Hne).
  { unfold zdrop. rewrite length_drop. unfold zlen in *. lia. }
  { by apply Forall_drop. }
  exists ((t, take (Z.to_nat n) z) :: ts). rewrite E. split_and!; [done| |].
  - cbn [fmap list_fmap concat snd]. rewrite Hc. apply take_drop.
  - constructor; [|done]. cbn [snd]. intros E0. apply (f_equal length) in E0.
    rewrite length_take in E0. unfold zlen in *. simpl in E0. lia.
Qed.

(** ** Quoted text *)

Lemma get_token_quote z : zat aiClass (zat z 0) = CC_QUOTE -> sqlite3GetToken z = tok_quote z.
Proof. intros E. unfold sqlite3GetToken. rewrite E. reflexivity. Qed.

Lemma get_token_x z : zat aiClass (zat z 0) = CC_X -> sqlite3GetToken z = tok_x z.
Proof. intros E. unfold sqlite3GetToken. rewrite E. reflexivity. Qed.

Lemma quote_loop_quoted q s : q <> 0 -> cstring s -> forall rest i, zat rest 0 <> q ->
  let body := concat (map (fun c => if c =? q then [c; c] else [c]) s) in
  quote_loop q (body ++ q :: rest) i = (i + zlen body, q).
Proof.
  intros Hq. induction 1 as [|c s Hc Hs IH]; intros rest i Hr; cbn [map concat app].
  - cbn [quote_loop]. rewrite (proj2 (Z.eqb_neq q 0)), Z.eqb_refl by done.
    change (zlen []) with 0. rewrite Z.add_0_r. destruct rest as [|d rest]; [done|].
    change (zat (d :: rest) 0) with d in Hr. by rewrite (proj2 (Z.eqb_neq d q)) by done.
  - destruct (c =? q) eqn:E; breflect; cbn [app quote_loop].
    + subst c. rewrite (proj2 (Z.eqb_neq q 0)), Z.eqb_refl by done. rewrite IH by done.
      rewrite !zlen_cons. f_equal. lia.
    + rewrite (proj2 (Z.eqb_neq c 0)), (proj2 (Z.eqb_neq c q)) by (done || lia). rewrite IH by done.
      rewrite !zlen_cons. f_equal. lia.
Qed.

Lemma span_all f s c rest : Forall (fun c => f c = true) s -> f c = false ->
  span f (s ++ c :: rest) = zlen s.
Proof.
  induction 1 as [|d s Hd Hs IH]; intros Hc; cbn [app span]; [by rewrite Hc|].
  rewrite Hd, IH by done. by rewrite zlen_cons.
Qed.

(** The text [x'hh..'] of a BLOB, for either case of the letter. *)
Definition blob_text (x : Z) (hs : list Z) : list Z := x :: 39 :: hs ++ [39].

Lemma get_token_blob x hs rest : x = 120 \/ x = 88 ->
  Forall (fun c => sqlite3Isxdigit c = true) hs -> Z.even (zlen hs) = true ->
  sqlite3GetToken (blob_text x hs ++ rest) = (zlen (blob_text x hs), TK_BLOB).
Proof.
  intros Hx Hhs Hev. rewrite get_token_x by (destruct Hx as [-> | ->]; reflexivity).
  unfold tok_x, blob_text. cbn [app]. rewrite <- app_assoc. cbn [app].
  change (zat (x :: 39 :: hs ++ 39 :: rest) 1) with 39. change (39 =? 39) with true. cbv iota zeta.
  change (zdrop 2 (x :: 39 :: hs ++ 39 :: rest)) with (hs ++ 39 :: rest).
  rewrite span_all by done.
  assert (zat (x :: 39 :: hs ++ 39 :: rest) (2 + zlen hs) = 39) as Hat.
  { replace (2 + zlen hs) with (zlen (x :: 39 :: hs) + 0) by (rewrite !zlen_cons; lia).
    apply (zat_app_r (x :: 39 :: hs) (39 :: rest) 0). lia. }
  rewrite Hat. change (negb (39 =? 39)) with false. cbn [orb].
  assert (Z.land (2 + zlen hs) 1 = 0) as ->.
  { change 1 with (Z.ones 1). rewrite Z.land_ones by lia. change (2 ^ 1) with 2.
    apply Z.even_spec in Hev as [k ->]. replace (2 + 2 * k) with ((1 + k) * 2) by lia.
    by rewrite Z.mod_mul by lia. }
  change (negb (0 =? 0)) with false. cbv iota. rewrite Hat. change (negb (39 =? 0)) with true. cbv iota.
  f_equal. rewrite !zlen_cons, zlen_app. change (zlen [39]) with 1. lia.
Qed.

(** C35: The tokens of any text partition it: the tokenizer always advances by at least one byte
    and never beyond the end, so splitting a text into tokens ends, and the token texts
    concatenate to the text. *)
Theorem tokens_partition z : cstring z ->
  (z = [] -> sqlite3GetToken z = (0, TK_ILLEGAL)) /\
  (z <> [] -> 1 <= (sqlite3GetToken z).1 <= zlen z) /\
  exists ts, sql_tokens (S (length z)) z = Some ts /\ concat ts.*2 = z /\
    Forall (fun t => t.2 <> []) ts.
Proof.
  intros Hz. split_and!.
  - by intros ->.
  - intros Hne. apply get_token_range; [done|]. destruct z as [|c z]; [done|].
    rewrite zlen_cons. pose proof (zlen_nonneg z). lia.
  - apply sql_tokens_partition; [lia|done].
Qed.

Definition sample_sql : list Z := bytes_of_string "SELECT 'a''b', x'0Af0' FROM t -- end".

Lemma tokens_partition_witness :
  cstring sample_sql /\
  exists ts, sql_tokens (S (length sample_sql)) sample_sql = Some ts /\ concat ts.*2 = sample_sql.
Proof.
  assert (cstring sample_sql) as H.
  { repeat (apply Forall_cons_2; [vm_compute; split; [discriminate|done]|]). apply Forall_nil_2. }
  split; [exact H|]. destruct (tokens_partition _ H) as (_ & _ & ts & E & Hc & _).
  exists ts. split; [exact E|exact Hc].
Defined.

(** C34: Text between quotes is one token, whatever it contains: with the quote doubled inside,
    the tokenizer takes exactly the quoted text (a string for the apostrophe, an identifier
    for the double quote and the back-tick), and dequoting that token gives the text back.
    An even number of hexadecimal digits between [x'] and an apostrophe is one BLOB token. *)
Theorem quoted_text_is_one_token q s rest x hs : q = 39 \/ q = 34 \/ q = 96 ->
  cstring s -> zat rest 0 <> q -> x = 120 \/ x = 88 ->
  Forall (fun c => sqlite3Isxdigit c = true) hs -> Z.even (zlen hs) = true ->
  let z := sql_quote q s ++ rest in
  sqlite3GetToken z = (zlen (sql_quote q s), if q =? 39 then TK_STRING else TK_ID) /\
  sqlite3Dequote (take (Z.to_nat (sqlite3GetToken z).1) z) = Some s /\
  sqlite3GetToken (blob_text x hs ++ rest) = (zlen (blob_text x hs), TK_BLOB).
Proof.
  intros Hq Hs Hr Hx Hhs Hev z. assert (sqlite3GetToken z = (zlen (sql_quote q s), if q =? 39 then TK_STRING else TK_ID)) as E.
  { subst z. assert (closing q = q) as Hcl by (destruct Hq as [-> | [-> | ->]]; reflexivity).
    rewrite get_token_quote by (destruct Hq as [-> | [-> | ->]]; reflexivity).
    unfold tok_quote, sql_quote. rewrite Hcl. cbn [app tl]. change (zat (q :: _) 0) with q.
    rewrite <- app_assoc. cbn [app]. rewrite quote_loop_quoted by (done || lia).
    rewrite zlen_cons, zlen_app. change (zlen [q]) with 1.
    destruct Hq as [-> | [-> | ->]]; cbv iota beta; f_equal; simpl; lia. }
  split_and!; [done| |by apply get_token_blob].
  rewrite E. cbn [fst]. subst z. unfold zlen. rewrite Nat2Z.id, take_app_length.
  rewrite <- (app_nil_r (sql_quote q s)). unfold sqlite3Dequote, sql_quote. cbn [app].
  change (zat (q :: _) 0) with q.
  replace (sqlite3Isquote q) with true by (destruct Hq as [-> | [-> | ->]]; reflexivity).
  assert (closing q = q) as Hcl by (destruct Hq as [-> | [-> | ->]]; reflexivity).
  cbn [negb tl]. unfold closing in Hcl. rewrite Hcl. rewrite <- app_assoc.
  unfold closing. rewrite Hcl.
  apply (dequote_loop_quoted q s [] []). change (zat [] 0) with 0. lia.
Qed.

Lemma quoted_text_is_one_token_witness :
  (39 = 39 \/ 39 = 34 \/ 39 = 96) /\
  sqlite3GetToken (sql_quote 39 (bytes_of_string "a'; DROP TABLE t; --") ++ bytes_of_string " x")
  = (zlen (sql_quote 39 (bytes_of_string "a'; DROP TABLE t; --")), TK_STRING).
Proof.
  assert (39 = 39 \/ 39 = 34 \/ 39 = 96) as H1 by (left; reflexivity).
  assert (cstring (bytes_of_string "a'; DROP TABLE t; --")) as H2.
  { repeat (apply Forall_cons_2; [vm_compute; split; [discriminate|done]|]). apply Forall_nil_2. }
  assert (zat (bytes_of_string " x") 0 <> 39) as H3 by (vm_compute; discriminate).
  assert (120 = 120 \/ 120 = 88) as H4 by (left; reflexivity).
  assert (Forall (fun c => sqlite3Isxdigit c = true) [48; 65]) as H5.
  { repeat (apply Forall_cons_2; [reflexivity|]). apply Forall_nil_2. }
  split; [exact H1|].
  exact (proj1 (quoted_text_is_one_token 39 _ _ 120 [48; 65] H1 H2 H3 H4 H5 eq_refl)).
Defined.
