(* ===== verification/RunParser.v ===== *)
(** * Feeding the parser (tokenize.c of sqlite3.c)

[sqlite3RunParser] walks a text token by token and calls the grammar's engine.  The engine
(the generated LALR automaton and the code of its actions) is a parameter: a state and a
step that consumes a token and leaves [pParse->rc]. *)

From S2P Require Import Prelude Bitwise SqlText Keywords Tokenizer.
From stdpp Require Import options.

Class ParserEngine := {
  engine : Type;
(** [sqlite3Parser(pEngine, tokenType, sLastToken)]: the engine after the token, and
    [pParse->rc]; an error message is set only together with an error code. *)
sqlite3Parser : engine -> Z -> list Z -> engine * Z
}.

Definition SQLITE_OK : Z := 0.
Definition SQLITE_ERROR : Z := 1.
Definition SQLITE_INTERRUPT : Z := 9.
Definition SQLITE_TOOBIG : Z := 18.
Definition SQLITE_DONE : Z := 101.

(** ** Looking ahead *)

(** The next token that is not a space or a comment, with the words that can be identifiers
    read as identifiers; and the text after it. *)
Fixpoint getToken (fuel : nat) (z : list Z) : option (Z * list Z) :=
  match fuel with
  | O => None
  | S fuel =>
      let '(n, t) := sqlite3GetToken z in
      let z := zdrop n z in
      if (t =? TK_SPACE) || (t =? TK_COMMENT) then getToken fuel z
      else
        Some (if (t =? TK_ID) || (t =? TK_STRING) || (t =? TK_JOIN_KW) || (t =? TK_WINDOW)
                 || (t =? TK_OVER) || (sqlite3ParserFallback t =? TK_ID) then TK_ID else t, z)
  end.

Definition analyzeWindowKeyword (z : list Z) : option Z :=
  '(t, z) ← getToken (S (length z)) z;
  if negb (t =? TK_ID) then Some TK_ID
  else
    '(t, _) ← getToken (S (length z)) z;
    Some (if negb (t =? TK_AS) then TK_ID else TK_WINDOW).

Definition analyzeOverKeyword (z : list Z) (lastToken : Z) : option Z :=
  if lastToken =? TK_RP then
    '(t, _) ← getToken (S (length z)) z;
    Some (if (t =? TK_LP) || (t =? TK_ID) then TK_OVER else TK_ID)
  else Some TK_ID.

Definition analyzeFilterKeyword (z : list Z) (lastToken : Z) : option Z :=
  if lastToken =? TK_RP then
    '(t, _) ← getToken (S (length z)) z;
    Some (if t =? TK_LP then TK_FILTER else TK_ID)
  else Some TK_ID.

Section Run.
Context {E : ParserEngine}.

(** What the loop keeps: [zSql], the engine, [pParse->rc], [lastTokenParsed], [mxSqlLen]. *)
Record run := mkRun {
  rn_z : list Z;
  rn_eng : engine;
  rn_rc : Z;
  rn_last : Z;
  rn_left : Z
}.

Definition rn_stop (st : run) (rc : Z) : run :=
  mkRun (rn_z st) (rn_eng st) rc (rn_last st) (rn_left st).

(** One token handed to the engine. *)
Definition rn_feed (st : run) (n t left : Z) : run :=
  let '(eng, rc) := sqlite3Parser (rn_eng st) t (take (Z.to_nat n) (rn_z st)) in
  mkRun (zdrop n (rn_z st)) eng rc t left.

Definition rn_skip (st : run) (n left : Z) : run :=
  mkRun (zdrop n (rn_z st)) (rn_eng st) (rn_rc st) (rn_last st) left.

(** One turn of [while( 1 )]: the state, and whether the loop goes on.  [intr] is what
    [isInterrupted] reads and [comments] whether comments are allowed. *)
Definition run_turn (intr comments : bool) (st : run) : option (run * bool) :=
  let z := rn_z st in
  let '(n, tokenType) := sqlite3GetToken z in
  let left := rn_left st - n in
  let feed n t := let st := rn_feed st n t left in Some (st, rn_rc st =? SQLITE_OK) in
  if left <? 0 then Some (rn_stop st SQLITE_TOOBIG, false)
  else if TK_WINDOW <=? tokenType then
    if intr then Some (rn_stop st SQLITE_INTERRUPT, false)
    else if tokenType =? TK_SPACE then Some (rn_skip st n left, true)
    else if zat z 0 =? 0 then
      if rn_last st =? TK_SEMI then feed 0 0
      else if rn_last st =? 0 then Some (st, false)
      else feed 0 TK_SEMI
    else if tokenType =? TK_WINDOW then
      t ← analyzeWindowKeyword (zdrop 6 z); feed n t
    else if tokenType =? TK_OVER then
      t ← analyzeOverKeyword (zdrop 4 z) (rn_last st); feed n t
    else if tokenType =? TK_FILTER then
      t ← analyzeFilterKeyword (zdrop 6 z) (rn_last st); feed n t
    else if (tokenType =? TK_COMMENT) && comments then Some (rn_skip st n left, true)
    else if negb (tokenType =? TK_QNUMBER) then Some (rn_stop st SQLITE_ERROR, false)
    else feed n tokenType
  else feed n tokenType.

Fixpoint run_loop (fuel : nat) (intr : nat -> bool) (comments : bool) (st : run) : option run :=
  match fuel with
  | O => None
  | S fuel =>
      '(st, more) ← run_turn (intr fuel) comments st;
      if (more : bool) then run_loop fuel intr comments st else Some st
  end.

(** The result of the function, [pParse->rc], [pParse->zTail] and the engine. *)
Definition sqlite3RunParser (eng : engine) (mxSqlLen : Z) (intr : nat -> bool) (comments : bool)
    (zSql : list Z) : option (Z * Z * list Z * engine) :=
  st ← run_loop (length zSql + 4) intr comments (mkRun zSql eng SQLITE_OK (-1) mxSqlLen);
  let rc := rn_rc st in
  Some (zbool (negb (rc =? SQLITE_OK) && negb (rc =? SQLITE_DONE)), rc, rn_z st, rn_eng st).

(** ** What the engine is meant to see, over the list of tokens *)

Definition is_blank (t : Z) : bool := (t =? TK_SPACE) || (t =? TK_COMMENT).

Fixpoint skip_blank (toks : list (Z * list Z)) : list (Z * list Z) :=
  match toks with
  | (t, x) :: rest => if is_blank t then skip_blank rest else toks
  | [] => []
  end.

Definition as_id (t : Z) : Z :=
  if (t =? TK_ID) || (t =? TK_STRING) || (t =? TK_JOIN_KW) || (t =? TK_WINDOW)
     || (t =? TK_OVER) || (sqlite3ParserFallback t =? TK_ID) then TK_ID else t.

(** The type of the next significant token (the end reads as an illegal token). *)
Definition peek (toks : list (Z * list Z)) : Z :=
  match skip_blank toks with (t, _) :: _ => as_id t | [] => TK_ILLEGAL end.

(** WINDOW is a keyword before an identifier and AS, OVER after a parenthesis and before an
    identifier or a parenthesis, FILTER between parentheses. *)
Definition resolve (t last : Z) (rest : list (Z * list Z)) : Z :=
  if t =? TK_WINDOW then
    if (peek rest =? TK_ID) && (peek (tl (skip_blank rest)) =? TK_AS) then TK_WINDOW else TK_ID
  else if t =? TK_OVER then
    if (last =? TK_RP) && ((peek rest =? TK_LP) || (peek rest =? TK_ID)) then TK_OVER else TK_ID
  else if t =? TK_FILTER then
    if (last =? TK_RP) && (peek rest =? TK_LP) then TK_FILTER else TK_ID
  else t.

Fixpoint feed_tokens (toks : list (Z * list Z)) (eng : engine) (last : Z) : engine * Z :=
  match toks with
  | [] =>
      let '(eng, rc) := if last =? TK_SEMI then (eng, SQLITE_OK) else sqlite3Parser eng TK_SEMI [] in
      if rc =? SQLITE_OK then sqlite3Parser eng 0 [] else (eng, rc)
  | (t, x) :: rest =>
      if is_blank t then feed_tokens rest eng last
      else if (TK_FILTER <? t) && negb (t =? TK_QNUMBER) then (eng, SQLITE_ERROR)
      else
        let t := resolve t last rest in
        let '(eng, rc) := sqlite3Parser eng t x in
        if rc =? SQLITE_OK then feed_tokens rest eng t else (eng, rc)
  end.

(** ** Lemmas *)

Lemma sql_tokens_cons fuel z : (length z < S fuel)%nat -> cstring z -> z <> [] ->
  sql_tokens (S fuel) z =
    (rest ← sql_tokens fuel (zdrop (sqlite3GetToken z).1 z);
     Some (((sqlite3GetToken z).2, take (Z.to_nat (sqlite3GetToken z).1) z) :: rest)).
Proof. intros Hf Hz Hne. destruct z; [done|]. cbn [sql_tokens]. by destruct (sqlite3GetToken _). Qed.

Lemma drop_shorter z : cstring z -> z <> [] ->
  (length (zdrop (sqlite3GetToken z).1 z) < length z)%nat.
Proof.
  intros Hz Hne. assert (0 < zlen z) by (destruct z as [|c z0]; [done|]; rewrite zlen_cons; pose proof (zlen_nonneg z0); lia).
  pose proof (get_token_range z Hz ltac:(done)). unfold zdrop, zlen in *. rewrite length_drop. lia.
Qed.

Lemma cstring_zdrop n z : cstring z -> cstring (zdrop n z).
Proof. apply Forall_drop. Qed.

(** The tokens of a text do not depend on the fuel, if it is enough. *)
Lemma sql_tokens_fuel f1 : forall f2 z, (length z < f1)%nat -> (length z < f2)%nat -> cstring z ->
  sql_tokens f1 z = sql_tokens f2 z.
Proof.
  induction f1 as [|f1 IH]; intros f2 z H1 H2 Hz; [lia|]. destruct f2 as [|f2]; [lia|].
  destruct (decide (z = [])) as [->|Hne]; [done|].
  rewrite !sql_tokens_cons by done. pose proof (drop_shorter z Hz Hne).
  rewrite (IH f2); [done|lia|lia|by apply cstring_zdrop].
Qed.

Definition toks_of (z : list Z) : list (Z * list Z) := default [] (sql_tokens (S (length z)) z).

Lemma toks_of_cons z : cstring z -> z <> [] ->
  toks_of z = ((sqlite3GetToken z).2, take (Z.to_nat (sqlite3GetToken z).1) z) ::
              toks_of (zdrop (sqlite3GetToken z).1 z).
Proof.
  intros Hz Hne. unfold toks_of. rewrite sql_tokens_cons by (done || lia).
  pose proof (drop_shorter z Hz Hne).
  rewrite (sql_tokens_fuel (length z) (S (length (zdrop (sqlite3GetToken z).1 z))))
    by (lia || by apply cstring_zdrop).
  destruct (sql_tokens_partition (S (length (zdrop (sqlite3GetToken z).1 z)))
    (zdrop (sqlite3GetToken z).1 z)) as (ts & -> & _); [lia|by apply cstring_zdrop|]. done.
Qed.

Lemma getToken_peek fuel : forall z, (length z < fuel)%nat -> cstring z ->
  exists z', getToken fuel z = Some (peek (toks_of z), z') /\ cstring z' /\
    toks_of z' = tl (skip_blank (toks_of z)).
Proof.
  induction fuel as [|fuel IH]; intros z Hf Hz; [lia|]. cbn [getToken].
  destruct (decide (z = [])) as [->|Hne]; [by exists []|].
  pose proof (drop_shorter z Hz Hne) as Hd. unfold peek. rewrite (toks_of_cons z) by done.
  destruct (sqlite3GetToken z) as [n t]. cbn [fst snd] in *. cbn [skip_blank].
  change ((t =? TK_SPACE) || (t =? TK_COMMENT)) with (is_blank t).
  destruct (is_blank t); [apply IH; [lia|by apply cstring_zdrop]|].
  exists (zdrop n z). split_and!; [done|by apply cstring_zdrop|done].
Qed.

Lemma window_resolved z : cstring z ->
  analyzeWindowKeyword z = Some (resolve TK_WINDOW (-1) (toks_of z)).
Proof.
  intros Hz. unfold analyzeWindowKeyword, resolve. change (TK_WINDOW =? TK_WINDOW) with true. cbv iota.
  destruct (getToken_peek (S (length z)) z ltac:(lia) Hz) as (z' & -> & Hz' & Ht).
  cbn [mbind option_bind]. destruct (peek (toks_of z) =? TK_ID); cbn [negb andb]; [|done].
  destruct (getToken_peek (S (length z')) z' ltac:(lia) Hz') as (z'' & -> & _ & _).
  cbn [mbind option_bind]. rewrite Ht. by destruct (peek (tl _) =? TK_AS).
Qed.

Lemma over_resolved z last : cstring z ->
  analyzeOverKeyword z last = Some (resolve TK_OVER last (toks_of z)).
Proof.
  intros Hz. unfold analyzeOverKeyword, resolve. change (TK_OVER =? TK_WINDOW) with false.
  change (TK_OVER =? TK_OVER) with true. cbv iota.
  destruct (last =? TK_RP); cbn [andb]; [|done].
  by destruct (getToken_peek (S (length z)) z ltac:(lia) Hz) as (z' & -> & _ & _).
Qed.

Lemma filter_resolved z last : cstring z ->
  analyzeFilterKeyword z last = Some (resolve TK_FILTER last (toks_of z)).
Proof.
  intros Hz. unfold analyzeFilterKeyword, resolve. change (TK_FILTER =? TK_WINDOW) with false.
  change (TK_FILTER =? TK_OVER) with false. change (TK_FILTER =? TK_FILTER) with true. cbv iota.
  destruct (last =? TK_RP); cbn [andb]; [|done].
  by destruct (getToken_peek (S (length z)) z ltac:(lia) Hz) as (z' & -> & _ & _).
Qed.

(** *** The window words have their own length *)

Lemma keyword_chain_len fuel : forall z n i j, 0 <= i <= 147 -> keyword_chain fuel z n i = Some j ->
  1 <= j <= 147 /\ zat aKWLen j = n.
Proof.
  induction fuel as [|fuel IH]; intros z n i j Hi; cbn [keyword_chain]; [done|].
  destruct (0 <? i) eqn:E0; [|done]. cbv zeta. breflect.
  destruct (kw_lengths i ltac:(lia)) as (_ & _ & Hnext & _).
  destruct (zat aKWLen i =? n) eqn:E1; cbn [negb]; [|by apply IH].
  destruct (kw_mask (zat z 0) =? _); cbn [negb]; [|by apply IH].
  destruct (kw_mask (zat z 1) =? _); cbn [negb]; [|by apply IH].
  destruct (kw_rest _ _ _ _); [|by apply IH]. intros ?; simplify_eq. breflect. split; [lia|done].
Qed.

Lemma keyword_index_len z n j : keyword_index z n = Some j -> 1 <= j <= 147 /\ zat aKWLen j = n.
Proof.
  apply keyword_chain_len. apply bucket_range. unfold kw_hash. apply Z.mod_pos_bound. lia.
Qed.

Definition window_len (t : Z) : Z := if t =? TK_OVER then 4 else 6.

Lemma keywordCode_window z n t : TK_WINDOW <= t <= TK_FILTER -> keywordCode z n TK_ID = t ->
  n = window_len t.
Proof.
  intros Ht. unfold keywordCode.
  destruct (keyword_index _ _) as [j|] eqn:Ek; [|unfold TK_ID, TK_WINDOW in *; lia].
  apply keyword_index_len in Ek as [Hj <-]. intros Hc.
  pose proof (kw_indices_spec (fun j => implb ((TK_WINDOW <=? zat aKWCode j) && (zat aKWCode j <=? TK_FILTER))
    (zat aKWLen j =? window_len (zat aKWCode j))) ltac:(vm_compute; reflexivity) j ltac:(lia)) as H.
  cbv beta in H. rewrite Hc in H. rewrite (proj2 (Z.leb_le _ _)), (proj2 (Z.leb_le t _)) in H by lia.
  cbn in H. by breflect.
Qed.

Lemma keywordCode_pos z n : 0 < keywordCode z n TK_ID.
Proof.
  unfold keywordCode. destruct (keyword_index z n) as [j|] eqn:Ek; [|done].
  apply keyword_index_len in Ek as [Hj _].
  pose proof (kw_indices_spec (fun j => 0 <? zat aKWCode j) ltac:(vm_compute; reflexivity) j Hj) as H.
  cbv beta in H. by breflect.
Qed.

(** A type is an actual token's, and one of the three only for a word of the right length. *)
Definition window_ok (p : Z * Z) : Prop :=
  0 < p.2 /\ (TK_WINDOW <= p.2 <= TK_FILTER -> p.1 = window_len p.2).

Definition plain (t : Z) : bool := (0 <? t) && ((t <? TK_WINDOW) || (TK_FILTER <? t)).

Lemma plain_ok n t : plain t = true -> window_ok (n, t).
Proof.
  unfold plain, window_ok. rewrite andb_true_iff, orb_true_iff, !Z.ltb_lt. cbn [fst snd]. lia.
Qed.

Lemma digit_run_type digit z : forall i t, plain t = true ->
  let '(_, t') := digit_run digit z i t in plain t' = true.
Proof.
  induction z as [|c z IH]; intros i t Ht; cbn [digit_run]; [done|].
  destruct (digit c); [by apply IH|]. destruct (c =? _); [|done]. by apply IH.
Qed.

Lemma tok_number_type z : plain (tok_number z).2 = true.
Proof.
  unfold tok_number. match goal with |- context [let '(i, t) := ?e in _] => set (p := e) end.
  assert (plain p.2 = true) as Hp.
  { assert (plain TK_INTEGER = true) as Hint by done.
    assert (forall t, plain t = true -> plain (if t =? TK_INTEGER then TK_FLOAT else t) = true) as Hfl
      by (intros t Ht; by destruct (t =? TK_INTEGER)).
    subst p. destruct (_ && _ && _).
    - pose proof (digit_run_type sqlite3Isxdigit (zdrop 3 z) 3 TK_INTEGER Hint).
      by destruct (digit_run _ _ _ _).
    - pose proof (digit_run_type sqlite3Isdigit z 0 TK_INTEGER Hint) as H1.
      destruct (digit_run sqlite3Isdigit z 0 _) as [i t].
      match goal with |- context [let '(i, t) := ?e in _] => set (q := e) end.
      assert (plain q.2 = true) as Hq.
      { subst q. destruct (zat z i =? _); [|done].
        pose proof (digit_run_type sqlite3Isdigit (zdrop (i + 1) z) (i + 1) _ (Hfl _ H1)).
        by destruct (digit_run _ _ _ _). }
      destruct q as [i2 t2]. cbn [snd] in Hq. destruct (_ && _); [|done].
      pose proof (digit_run_type sqlite3Isdigit (zdrop (i2 + 2) z) (i2 + 2) _ (Hfl _ Hq)).
      by destruct (digit_run _ _ _ _). }
  destruct p as [i t]. cbn [snd] in *. by destruct (0 <? _).
Qed.

Lemma ident_ok z i : window_ok (tok_ident z i).
Proof. by apply plain_ok. Qed.

Lemma number_ok z : window_ok (tok_number z).
Proof. pose proof (tok_number_type z). destruct (tok_number z). by apply plain_ok. Qed.

Lemma minus_ok z : window_ok (tok_minus z).
Proof. unfold tok_minus. repeat next_class; by apply plain_ok. Qed.

Lemma slash_ok z : window_ok (tok_slash z).
Proof. unfold tok_slash. next_class; [by apply plain_ok|]. destruct (comment_loop _ _ _). by apply plain_ok. Qed.

Lemma compare_ok z : window_ok (tok_lt z) /\ window_ok (tok_gt z) /\ window_ok (tok_bang z) /\
  window_ok (tok_pipe z).
Proof.
  unfold tok_lt, tok_gt, tok_bang, tok_pipe. cbv zeta.
  split_and!; repeat next_class; by apply plain_ok.
Qed.

Lemma quote_ok z : window_ok (tok_quote z) /\ window_ok (tok_quote2 z) /\ window_ok (tok_variable z).
Proof.
  unfold tok_quote, tok_quote2, tok_variable. split_and!.
  - destruct (quote_loop _ _ _). repeat next_class; by apply plain_ok.
  - destruct (bracket_loop _ _ _). apply plain_ok. by next_class.
  - destruct (var_loop _ _ _) as [[? ?] ?]. apply plain_ok. by repeat next_class.
Qed.

Lemma kywd0_ok z : window_ok (tok_kywd0 z).
Proof.
  unfold tok_kywd0. destruct (CC_KYWD <? _); [apply ident_ok|]. cbv zeta.
  generalize (2 + span kywd_class (zdrop 2 z)). intros i.
  destruct (IdChar _); [apply ident_ok|].
  unfold window_ok, fst, snd. split; [apply keywordCode_pos|].
  intros Ht. exact (keywordCode_window z i _ Ht eq_refl).
Qed.

Lemma x_ok z : window_ok (tok_x z).
Proof.
  unfold tok_x. destruct (zat z 1 =? 39); [|apply ident_ok]. cbv zeta.
  generalize (2 + span sqlite3Isxdigit (zdrop 2 z)). intros i.
  destruct (_ || _); by apply plain_ok.
Qed.

Lemma bom_ok z : window_ok (tok_bom z).
Proof. unfold tok_bom. destruct (_ && _); [by apply plain_ok|apply ident_ok]. Qed.

(** Only a keyword is given one of the three types. *)
Lemma window_token_len z : window_ok (sqlite3GetToken z).
Proof.
  destruct (compare_ok z) as (H1 & H2 & H3 & H4). destruct (quote_ok z) as (H5 & H6 & H7).
  pose proof (kywd0_ok z). pose proof (x_ok z). pose proof (bom_ok z).
  pose proof (minus_ok z). pose proof (slash_ok z). pose proof (number_ok z). pose proof (ident_ok z 1).
  unfold sqlite3GetToken. generalize (zat aiClass (zat z 0)). intros cc. unfold get_token_class.
  repeat (next_class; [assumption || (by apply plain_ok) || (next_class; [by apply plain_ok|assumption])|]).
  by apply plain_ok.
Qed.

(** *** One turn *)

Lemma get_token_end : sqlite3GetToken [] = (0, TK_ILLEGAL).
Proof. reflexivity. Qed.

(** On a token (not at the end) the turn does what the list of tokens says. *)
Lemma run_turn_token z eng last left : cstring z -> z <> [] -> (sqlite3GetToken z).1 <= left ->
  let '(n, t) := sqlite3GetToken z in
  let st := mkRun z eng SQLITE_OK last left in
  run_turn false true st =
  if is_blank t then Some (mkRun (zdrop n z) eng SQLITE_OK last (left - n), true)
  else if (TK_FILTER <? t) && negb (t =? TK_QNUMBER) then Some (rn_stop st SQLITE_ERROR, false)
  else
    let t' := resolve t last (toks_of (zdrop n z)) in
    let st' := rn_feed st n t' (left - n) in
    Some (st', rn_rc st' =? SQLITE_OK).
Proof.
  intros Hz Hne Hl. destruct (window_token_len z) as [_ Hw]. unfold run_turn. cbn [rn_z rn_left rn_last].
  destruct (sqlite3GetToken z) as [n t]. cbn [fst snd] in *.
  cbv zeta. rewrite (proj2 (Z.ltb_ge _ _)) by lia. unfold is_blank.
  assert (zat z 0 <> 0) as Hz0.
  { destruct Hz as [|c z0 Hc Hz0]; [done|]. change (zat (c :: z0) 0) with c. lia. }
  rewrite (proj2 (Z.eqb_neq (zat z 0) 0)) by done.
  destruct (TK_WINDOW <=? t) eqn:Et; breflect.
  - destruct (t =? TK_SPACE) eqn:E1; breflect; [by subst|]. cbn [orb].
    destruct (t =? TK_WINDOW) eqn:E2; breflect.
    { subst t. rewrite Hw by (unfold TK_WINDOW, TK_FILTER; lia). change (window_len TK_WINDOW) with 6.
      rewrite window_resolved by by apply cstring_zdrop. done. }
    destruct (t =? TK_OVER) eqn:E3; breflect.
    { subst t. rewrite Hw by (unfold TK_WINDOW, TK_OVER, TK_FILTER; lia). change (window_len TK_OVER) with 4.
      rewrite over_resolved by by apply cstring_zdrop. done. }
    destruct (t =? TK_FILTER) eqn:E4; breflect.
    { subst t. rewrite Hw by (unfold TK_WINDOW, TK_FILTER; lia). change (window_len TK_FILTER) with 6.
      rewrite filter_resolved by by apply cstring_zdrop. done. }
    destruct (t =? TK_COMMENT) eqn:E5; breflect; [by subst|]. cbn [andb].
    rewrite (proj2 (Z.ltb_lt TK_FILTER t)) by (unfold TK_WINDOW, TK_OVER, TK_FILTER in *; lia).
    cbn [andb]. destruct (t =? TK_QNUMBER) eqn:E6; breflect; [by subst|done].
  - unfold TK_WINDOW in Et.
    rewrite (proj2 (Z.eqb_neq t TK_SPACE)), (proj2 (Z.eqb_neq t TK_COMMENT)),
      (proj2 (Z.ltb_ge TK_FILTER t)) by (unfold TK_SPACE, TK_COMMENT, TK_FILTER; lia).
    cbn [orb andb]. unfold resolve.
    rewrite (proj2 (Z.eqb_neq t TK_WINDOW)), (proj2 (Z.eqb_neq t TK_OVER)), (proj2 (Z.eqb_neq t TK_FILTER))
      by (unfold TK_WINDOW, TK_OVER, TK_FILTER; lia). done.
Qed.

Lemma run_turn_end eng last left : 0 <= left ->
  run_turn false true (mkRun [] eng SQLITE_OK last left) =
  let st := mkRun [] eng SQLITE_OK last left in
  if last =? TK_SEMI then let st := rn_feed st 0 0 left in Some (st, rn_rc st =? SQLITE_OK)
  else if last =? 0 then Some (st, false)
  else let st := rn_feed st 0 TK_SEMI left in Some (st, rn_rc st =? SQLITE_OK).
Proof.
  intros Hl. unfold run_turn. cbn [rn_z rn_left rn_last]. rewrite get_token_end. cbv zeta.
  rewrite Z.sub_0_r, (proj2 (Z.ltb_ge left 0)) by done. reflexivity.
Qed.

(** The engine's result: the last state and return code. *)
Definition outcome (r : option run) : option (engine * Z) :=
  st ← r; Some (rn_eng st, rn_rc st).

Lemma run_loop_end fuel eng last left : 0 <= left -> last <> 0 -> (3 <= fuel)%nat ->
  outcome (run_loop fuel (fun _ => false) true (mkRun [] eng SQLITE_OK last left)) =
  Some (feed_tokens [] eng last).
Proof.
  intros Hl H0 Hf. destruct fuel as [|[|[|fuel]]]; try lia. cbn [run_loop feed_tokens].
  assert (forall eng f, (2 <= f)%nat ->
    outcome (run_loop f (fun _ => false) true (mkRun [] eng SQLITE_OK TK_SEMI left)) =
    Some (sqlite3Parser eng 0 [])) as Hz.
  { intros eng' f Hf'. destruct f as [|[|f]]; try lia. cbn [run_loop].
    rewrite run_turn_end by done. cbv zeta. change (TK_SEMI =? TK_SEMI) with true. cbv iota.
    cbn [mbind option_bind]. unfold rn_feed. cbn [rn_eng rn_z]. rewrite take_nil.
    destruct (sqlite3Parser eng' 0 []) as [e' rc']. cbn [rn_rc].
    destruct (rc' =? SQLITE_OK) eqn:Er; [|done]. breflect. subst rc'.
    change (zdrop 0 []) with (@nil Z). cbn [run_loop]. rewrite run_turn_end by done. done. }
  destruct (last =? TK_SEMI) eqn:E1; breflect.
  - subst last. change (SQLITE_OK =? SQLITE_OK) with true. cbv iota.
    exact (Hz eng (S (S (S fuel))) ltac:(lia)).
  - rewrite run_turn_end by done. cbv zeta. rewrite (proj2 (Z.eqb_neq last TK_SEMI)), (proj2 (Z.eqb_neq last 0)) by done.
    cbn [mbind option_bind]. unfold rn_feed. cbn [rn_eng rn_z]. rewrite take_nil.
    destruct (sqlite3Parser eng TK_SEMI []) as [e' rc']. cbn [rn_rc].
    destruct (rc' =? SQLITE_OK) eqn:Er; [|done]. breflect. subst rc'.
    change (zdrop 0 []) with (@nil Z). exact (Hz e' (S (S fuel)) ltac:(lia)).
Qed.

(** Types that an engine is fed are never the end token, so the loop does not stop early. *)
Lemma resolve_nonzero t last rest : 0 < t -> resolve t last rest <> 0.
Proof. intros Ht. unfold resolve. repeat next_class; try done. lia. Qed.

Lemma run_loop_feeds n : forall z eng last left fuel, (length z <= n)%nat -> cstring z ->
  zlen z <= left -> last <> 0 -> (length z + 3 <= fuel)%nat ->
  outcome (run_loop fuel (fun _ => false) true (mkRun z eng SQLITE_OK last left)) =
  Some (feed_tokens (toks_of z) eng last).
Proof.
  induction n as [|n IH]; intros z eng last left fuel Hn Hz Hl H0 Hf.
  { destruct z; [|simpl in Hn; lia]. apply run_loop_end; [done|done|simpl in Hf; lia]. }
  destruct (decide (z = [])) as [->|Hne]; [apply run_loop_end; [done|done|simpl in Hf; lia]|].
  destruct fuel as [|fuel]; [lia|]. cbn [run_loop].
  pose proof (drop_shorter z Hz Hne) as Hd.
  assert (0 < zlen z) as Hpos by (unfold zlen in *; lia).
  pose proof (get_token_range z Hz Hpos) as Hr. destruct (window_token_len z) as [Ht _].
  pose proof (run_turn_token z eng last left Hz Hne ltac:(lia)) as Hturn.
  rewrite (toks_of_cons z) by done. destruct (sqlite3GetToken z) as [k t]. cbn [fst snd] in *.
  cbv zeta in Hturn. rewrite Hturn. cbn [feed_tokens].
  assert (zlen (zdrop k z) <= left - k) as Hleft by (rewrite zlen_zdrop; lia).
  destruct (is_blank t).
  { cbn [mbind option_bind]. apply IH; [lia|by apply cstring_zdrop|done|done|lia]. }
  destruct ((TK_FILTER <? t) && negb (t =? TK_QNUMBER)); [done|]. cbn [mbind option_bind].
  unfold rn_feed. cbn [rn_eng rn_z].
  destruct (sqlite3Parser eng (resolve t last (toks_of (zdrop k z))) (take (Z.to_nat k) z)) as [e rc].
  cbn [rn_rc]. destruct (rc =? SQLITE_OK) eqn:Erc; [|done]. breflect. subst rc.
  apply IH; [lia|by apply cstring_zdrop|done|by apply resolve_nonzero|lia].
Qed.

(** *** The loop ends, whatever the engine, the limit and the interrupts *)

Definition turns_left (st : run) : nat :=
  match rn_z st with
  | [] => if rn_last st =? 0 then 1 else if rn_last st =? TK_SEMI then 2 else 3
  | z => length z + 3
  end.

Lemma turns_left_le st : (turns_left st <= length (rn_z st) + 3)%nat.
Proof. unfold turns_left. destruct (rn_z st); repeat next_class; simpl; lia. Qed.

Lemma analyze_total z last : cstring z ->
  (exists t, analyzeWindowKeyword z = Some t) /\ (exists t, analyzeOverKeyword z last = Some t) /\
  (exists t, analyzeFilterKeyword z last = Some t).
Proof.
  intros Hz. rewrite window_resolved, over_resolved, filter_resolved by done. split_and!; by eexists.
Qed.

Lemma run_turn_total intr comments st : cstring (rn_z st) ->
  exists st' more, run_turn intr comments st = Some (st', more) /\
    (more = true -> cstring (rn_z st') /\ (turns_left st' < turns_left st)%nat).
Proof.
  intros Hz. destruct st as [z eng rc last left]. cbn [rn_z] in Hz.
  assert (forall st n left', rn_z st = z -> z <> [] -> n = (sqlite3GetToken z).1 -> forall t,
    cstring (rn_z (rn_feed st n t left')) /\ (turns_left (rn_feed st n t left') < length z + 3)%nat) as Hfeed.
  { intros st n left' Hs Hne -> t. unfold rn_feed. rewrite Hs.
    destruct (sqlite3Parser _ _ _) as [e r]. split; [by apply cstring_zdrop|].
    pose proof (turns_left_le (mkRun (zdrop (sqlite3GetToken z).1 z) e r t left')).
    pose proof (drop_shorter z Hz Hne). cbn [rn_z] in *. lia. }
  assert (forall st n left', rn_z st = z -> z <> [] -> n = (sqlite3GetToken z).1 ->
    cstring (rn_z (rn_skip st n left')) /\ (turns_left (rn_skip st n left') < length z + 3)%nat) as Hskip.
  { intros st n left' Hs Hne ->. unfold rn_skip. rewrite Hs. split; [by apply cstring_zdrop|].
    match goal with |- (turns_left ?s < _)%nat => pose proof (turns_left_le s) end.
    pose proof (drop_shorter z Hz Hne). cbn [rn_z] in *. lia. }
  unfold run_turn. cbn [rn_z rn_left rn_last].
  destruct (decide (z = [])) as [->|Hne].
  - clear Hfeed Hskip. rewrite get_token_end. cbv zeta.
    destruct (left - 0 <? 0); [by do 2 eexists|].
    change (TK_WINDOW <=? TK_ILLEGAL) with true. change (TK_ILLEGAL =? TK_SPACE) with false.
    change (zat [] 0 =? 0) with true. cbv iota. destruct intr; [by do 2 eexists|].
    destruct (last =? TK_SEMI) eqn:E1; [|destruct (last =? 0) eqn:E2; [by do 2 eexists|]];
      do 2 eexists; (split; [done|]); intros _; unfold rn_feed; cbn [rn_z rn_eng];
      destruct (sqlite3Parser _ _ _) as [e r]; (split; [done|]); unfold turns_left; cbn [rn_z rn_last zdrop].
    + rewrite E1. breflect. subst last. change (drop _ []) with (@nil Z). simpl. lia.
    + rewrite E1, E2. change (drop _ []) with (@nil Z). simpl. lia.
  - assert (turns_left (mkRun z eng rc last left) = (length z + 3)%nat) as Htl by by destruct z.
    destruct (sqlite3GetToken z) as [n t] eqn:Et. cbn [fst] in *.
    destruct (left - n <? 0); [by do 2 eexists|].
    destruct (analyze_total (zdrop 6 z) last) as ((t1 & E1) & _ & (t3 & E3)); [by apply cstring_zdrop|].
    destruct (analyze_total (zdrop 4 z) last) as (_ & (t2 & E2) & _); [by apply cstring_zdrop|].
    assert (zat z 0 <> 0) as Hz0.
    { destruct Hz as [|c z0 Hc Hz0]; [done|]. change (zat (c :: z0) 0) with c. lia. }
    rewrite (proj2 (Z.eqb_neq (zat z 0) 0)), E1, E2, E3, Htl by done. cbn [mbind option_bind].
    repeat (next_class; try (do 2 eexists; split; [reflexivity|]; (done || (intros _; by (apply Hfeed || apply Hskip))))).
Qed.

Lemma run_loop_total fuel : forall intr comments st, cstring (rn_z st) -> (turns_left st < fuel)%nat ->
  exists st', run_loop fuel intr comments st = Some st'.
Proof.
  induction fuel as [|fuel IH]; intros intr comments st Hz Hf; [lia|]. cbn [run_loop].
  destruct (run_turn_total (intr fuel) comments st Hz) as (st' & more & -> & Hm).
  cbn [mbind option_bind]. destruct more; [|by eexists].
  destruct (Hm eq_refl) as [Hz' Ht]. apply IH; [done|lia].
Qed.

(** C33: running the parser over any text ends, under any limit, interrupts and comment setting;
    and without interrupts and within the length limit the engine is fed exactly the
    significant tokens in order, with WINDOW, OVER and FILTER resolved by what surrounds
    them, then a semicolon if the last was none, then the end token, stopping at the first
    return code other than [SQLITE_OK]; a text with a bad token before that is an error. *)
Theorem run_parser_feeds z eng mx intr comments : cstring z ->
  (exists r, sqlite3RunParser eng mx intr comments z = Some r) /\
  (zlen z <= mx ->
   exists tail, sqlite3RunParser eng mx (fun _ => false) true z =
     (let '(eng', rc) := feed_tokens (toks_of z) eng (-1) in
      Some (zbool (negb (rc =? SQLITE_OK) && negb (rc =? SQLITE_DONE)), rc, tail, eng'))).
Proof.
  intros Hz. unfold sqlite3RunParser. split.
  - destruct (run_loop_total (length z + 4) intr comments (mkRun z eng SQLITE_OK (-1) mx)) as (st & ->);
      [done| |by eexists].
    pose proof (turns_left_le (mkRun z eng SQLITE_OK (-1) mx)). cbn [rn_z] in *. lia.
  - intros Hl. pose proof (run_loop_feeds (length z) z eng (-1) mx (length z + 4) ltac:(lia) Hz Hl
      ltac:(done) ltac:(lia)) as H.
    unfold outcome in H. destruct (run_loop _ _ _ _) as [st|]; [|done]. cbn [mbind option_bind] in *.
    injection H as H. rewrite <- H. by exists (rn_z st).
Qed.
End Run.

(** A recording engine: it stops at the end of the first statement. *)
#[export] Instance recorder : ParserEngine := {
  engine := list (Z * list Z);
  sqlite3Parser e t x := (e ++ [(t, x)], if t =? TK_SEMI then SQLITE_DONE else SQLITE_OK)
}.

Definition two_statements : list Z := bytes_of_string "BEGIN/**/;END".

Lemma run_parser_feeds_witness :
  (cstring two_statements /\ zlen two_statements <= 100) /\
  exists tail, @sqlite3RunParser recorder [] 100 (fun _ => false) true two_statements =
    Some (0, SQLITE_DONE, tail,
          [(TK_BEGIN, bytes_of_string "BEGIN"); (TK_SEMI, bytes_of_string ";")]).
Proof.
  assert (cstring two_statements) as H1.
  { repeat (apply Forall_cons_2; [vm_compute; split; [discriminate|done]|]). apply Forall_nil_2. }
  assert (zlen two_statements <= 100) as H2 by (vm_compute; discriminate).
  split; [done|].
  destruct (proj2 (@run_parser_feeds recorder two_statements [] 100 (fun _ => false) true H1) H2) as (tail & E).
  exists tail. exact E.
Defined.
