(* ===== verification/Busy.v ===== *)
(** * Waiting for a lock (main.c and btree.c of sqlite3.c)

    The busy handler that [sqlite3_busy_timeout] installs, the counter of the connection that
    drives it, and the loop that retries a lock until it is free or the handler gives up.
    Sleeping is the number of microseconds asked of the operating system. *)

From S2P Require Import Prelude Bitwise RunParser.
From stdpp Require Import options.

Definition SQLITE_BUSY : Z := 5.

(** [xBusyHandler]: null, the default callback, or a function of the application that is given
    the count and returns whether to retry. *)
Inductive busy_callback :=
  | NoCallback
  | DefaultCallback
  | UserCallback (xBusy : Z -> Z).

(** [BusyHandler] and the timeout of a connection. *)
Record busy_conn := mkBusy {
  xBusyHandler : busy_callback;
  nBusy : Z;
  busyTimeout : Z
}.

Definition busy_delays : list Z := [1; 2; 5; 10; 15; 20; 25; 25; 25; 50; 50; 100].
Definition busy_totals : list Z := [0; 1; 3; 8; 18; 33; 53; 78; 103; 128; 178; 228].
Definition NDELAY : Z := 12.

(** The return value and the microseconds slept. *)
Definition sqliteDefaultBusyCallback (tmout count : Z) : Z * Z :=
  let '(delay, prior) :=
    if count <? NDELAY then (zat busy_delays count, zat busy_totals count)
    else
      let delay := zat busy_delays (NDELAY - 1) in
      (delay, i32 (zat busy_totals (NDELAY - 1) + i32 (delay * i32 (count - (NDELAY - 1))))) in
  if tmout <? i32 (prior + delay) then
    let delay := i32 (tmout - prior) in
    if delay <=? 0 then (0, 0) else (1, i32 (delay * 1000))
  else (1, i32 (delay * 1000)).

Definition sqlite3InvokeBusyHandler (p : busy_conn) : Z * Z * busy_conn :=
  match xBusyHandler p with
  | NoCallback => (0, 0, p)
  | cb =>
      if nBusy p <? 0 then (0, 0, p)
      else
        let '(rc, us) :=
          match cb with
          | UserCallback xBusy => (xBusy (nBusy p), 0)
          | _ => sqliteDefaultBusyCallback (busyTimeout p) (nBusy p)
          end in
        (rc, us, mkBusy cb (if rc =? 0 then -1 else i32 (nBusy p + 1)) (busyTimeout p))
  end.

Definition sqlite3_busy_handler (db : busy_conn) (xBusy : busy_callback) : busy_conn :=
  mkBusy xBusy 0 0.

Definition sqlite3_busy_timeout (db : busy_conn) (ms : Z) : busy_conn :=
  if 0 <? ms then
    let db := sqlite3_busy_handler db DefaultCallback in
    mkBusy (xBusyHandler db) (nBusy db) ms
  else sqlite3_busy_handler db NoCallback.

(** [do{ ... lock ... }while( rc==SQLITE_BUSY && btreeInvokeBusyHandler(pBt) )]: [busy k] is
    whether the [k]-th attempt finds the lock taken.  The return code, the time slept, the
    attempts made and the connection afterwards. *)
Fixpoint lock_loop (fuel : nat) (busy : nat -> bool) (k : nat) (db : busy_conn) (slept : Z)
    : option (Z * Z * nat * busy_conn) :=
  match fuel with
  | O => None
  | S fuel =>
      if busy k then
        let '(rc, us, db) := sqlite3InvokeBusyHandler db in
        if rc =? 0 then Some (SQLITE_BUSY, slept + us, S k, db)
        else lock_loop fuel busy (S k) db (slept + us)
      else Some (SQLITE_OK, slept, S k, db)
  end.

Example busy_1 : lock_loop 10 (fun _ => true) 0 (sqlite3_busy_timeout (mkBusy NoCallback 0 0) 20) 0
  = Some (SQLITE_BUSY, 20000, 6%nat, mkBusy DefaultCallback (-1) 20).
Proof. vm_compute. done. Qed.

(** ** Lemmas *)

(** Milliseconds slept before the [k]-th call, were the timeout unbounded. *)
Definition prior_of (k : nat) : Z :=
  if Z.of_nat k <? 12 then zat busy_totals (Z.of_nat k) else 228 + 100 * (Z.of_nat k - 11).

Definition delay_of (k : nat) : Z := if Z.of_nat k <? 12 then zat busy_delays (Z.of_nat k) else 100.

Lemma prior_step k : prior_of (S k) = prior_of k + delay_of k /\ 1 <= delay_of k <= 100 /\
  Z.of_nat k <= prior_of k.
Proof.
  unfold prior_of, delay_of. destruct (decide (k < 12)%nat) as [Hk|Hk].
  - do 12 (destruct k as [|k]; [vm_compute; repeat split; discriminate|]). lia.
  - rewrite !(proj2 (Z.ltb_ge _ 12)) by lia. lia.
Qed.

Lemma prior_range k : 0 <= prior_of k.
Proof. pose proof (prior_step k). lia. Qed.

Lemma prior_far k : 100 * Z.of_nat k - 872 <= prior_of k.
Proof.
  unfold prior_of. destruct (decide (k < 12)%nat) as [Hk|Hk].
  - do 12 (destruct k as [|k]; [vm_compute; discriminate|]). lia.
  - rewrite (proj2 (Z.ltb_ge _ 12)) by lia. lia.
Qed.

(** No arithmetic of the callback leaves 32 bits while the timeout has 201 to spare. *)
Lemma default_callback k tm : 0 < tm <= 2 ^ 31 - 201 -> prior_of k <= tm + 100 ->
  sqliteDefaultBusyCallback tm (Z.of_nat k) =
  (if tm <=? prior_of k then (0, 0)
   else (1, 1000 * (Z.min tm (prior_of k + delay_of k) - prior_of k))).
Proof.
  intros Htm Hp. destruct (prior_step k) as (_ & Hd & Hk). pose proof (prior_range k) as H0.
  assert (forall z, - 2 ^ 31 <= z < 2 ^ 31 -> i32 z = z) as Hw by (intros; by apply wraps_small).
  assert ((if Z.of_nat k <? NDELAY then (zat busy_delays (Z.of_nat k), zat busy_totals (Z.of_nat k))
    else let delay := zat busy_delays (NDELAY - 1) in
      (delay, i32 (zat busy_totals (NDELAY - 1) + i32 (delay * i32 (Z.of_nat k - (NDELAY - 1))))))
    = (delay_of k, prior_of k)) as E.
  { unfold prior_of, delay_of, NDELAY in *. destruct (Z.of_nat k <? 12) eqn:E; [done|]. breflect. cbv zeta.
    change (zat busy_delays (12 - 1)) with 100. change (zat busy_totals (12 - 1)) with 228.
    change (12 - 1) with 11. f_equal. rewrite (Hw (Z.of_nat k - 11)), (Hw (100 * _)), Hw; lia. }
  unfold sqliteDefaultBusyCallback. cbv zeta in *. rewrite E. rewrite (Hw (prior_of k + delay_of k)), (Hw (tm - _)) by lia.
  cbv zeta. destruct (tm <? prior_of k + delay_of k) eqn:E1; breflect.
  - rewrite Z.min_l by lia. destruct (tm <=? prior_of k) eqn:E2; breflect.
    + by rewrite (proj2 (Z.leb_le _ _)) by lia.
    + rewrite (proj2 (Z.leb_gt _ _)), Hw by lia. f_equal. lia.
  - rewrite Z.min_r, (proj2 (Z.leb_gt _ _)), Hw by lia. f_equal. lia.
Qed.

(** The state of the connection after [k] retries that all slept. *)
Definition waiting (k : nat) (tm : Z) : busy_conn := mkBusy DefaultCallback (Z.of_nat k) tm.

Lemma invoke_waiting k tm : 0 < tm <= 2 ^ 31 - 201 -> prior_of k <= tm + 100 ->
  sqlite3InvokeBusyHandler (waiting k tm) =
  (if tm <=? prior_of k then (0, 0, mkBusy DefaultCallback (-1) tm)
   else (1, 1000 * (Z.min tm (prior_of (S k)) - Z.min tm (prior_of k)), waiting (S k) tm)).
Proof.
  intros Htm Hp. unfold sqlite3InvokeBusyHandler, waiting. cbn [xBusyHandler nBusy busyTimeout].
  destruct (prior_step k) as (Hn & Hd & Hk).
  rewrite (proj2 (Z.ltb_ge _ 0)), default_callback by (done || lia).
  destruct (tm <=? prior_of k) eqn:E; [done|]. breflect. change (1 =? 0) with false. cbv iota.
  rewrite wraps_small by (lia || change (2 ^ (32 - 1)) with (2 ^ 31); lia).
  rewrite Hn, (Z.min_r tm (prior_of k)) by lia. do 2 f_equal. lia.
Qed.

Lemma lock_loop_waits fuel : forall busy k tm slept, 0 < tm <= 2 ^ 31 - 201 ->
  prior_of k <= tm + 100 -> slept = 1000 * Z.min tm (prior_of k) ->
  (Z.to_nat (tm + 101 - prior_of k) < fuel)%nat ->
  exists rc us n db, lock_loop fuel busy k (waiting k tm) slept = Some (rc, us, n, db) /\
    slept <= us <= 1000 * tm /\
    (rc = SQLITE_OK /\ busy (n - 1)%nat = false \/ rc = SQLITE_BUSY /\ us = 1000 * tm /\ nBusy db = -1) /\
    (k < n)%nat /\ (forall j, (k <= j < n - 1)%nat -> busy j = true) /\
    (n = S k \/ prior_of (n - 2) < tm).
Proof.
  induction fuel as [|fuel IH]; intros busy k tm slept Htm Hp Hs Hf; [lia|]. cbn [lock_loop].
  destruct (prior_step k) as (Hn & Hd & Hk).
  destruct (busy k) eqn:Eb.
  2: { do 4 eexists. split; [done|]. rewrite Nat.sub_succ, Nat.sub_0_r. subst slept.
       split_and!; [lia|lia|by left|lia|lia|by left]. }
  rewrite invoke_waiting by done. destruct (tm <=? prior_of k) eqn:E; breflect.
  - change (0 =? 0) with true. cbv iota. do 4 eexists. split; [done|].
    subst slept. split_and!; [lia|lia|right; split_and!; [done|lia|done]|lia|lia|by left].
  - change (1 =? 0) with false. cbv iota.
    destruct (IH busy (S k) tm (slept + 1000 * (Z.min tm (prior_of (S k)) - Z.min tm (prior_of k))))
      as (rc & us & n & db & -> & Hus & Hrc & Hkn & Hall & Hlast); [done|lia|lia|lia|].
    do 4 eexists. split; [done|]. split_and!; try done; try lia.
    + intros j Hj. destruct (decide (j = k)) as [->|]; [done|]. apply Hall. lia.
    + right. destruct Hlast as [->|]; [|done]. by replace (S (S k) - 2)%nat with k by lia.
Qed.

(** Waiting for a lock, for every timeout. *)
Lemma busy_wait db busy ms :
  (0 < ms <= 2 ^ 31 - 201 ->
   exists fuel rc us n db', lock_loop fuel busy 0 (sqlite3_busy_timeout db ms) 0 = Some (rc, us, n, db') /\
     0 <= us <= 1000 * ms /\ Z.of_nat n <= ms / 100 + 11 /\
     (rc = SQLITE_OK /\ busy (n - 1)%nat = false \/
      rc = SQLITE_BUSY /\ us = 1000 * ms /\ (forall j, (j < n - 1)%nat -> busy j = true) /\
      sqlite3InvokeBusyHandler db' = (0, 0, db'))) /\
  (ms <= 0 -> busy 0%nat = true ->
   lock_loop 1 busy 0 (sqlite3_busy_timeout db ms) 0 =
     Some (SQLITE_BUSY, 0, 1%nat, sqlite3_busy_timeout db ms)).
Proof.
  split.
  - intros Hms. unfold sqlite3_busy_timeout. rewrite (proj2 (Z.ltb_lt 0 ms)) by lia.
    destruct (lock_loop_waits (Z.to_nat (ms + 102)) busy 0 ms 0) as
      (rc & us & n & db' & E & Hus & Hrc & Hkn & Hall & Hlast).
    { done. } { change (prior_of 0) with 0. lia. } { change (prior_of 0) with 0. lia. }
    { change (prior_of 0) with 0. lia. }
    exists (Z.to_nat (ms + 102)), rc, us, n, db'. split; [exact E|]. split; [lia|]. split.
    + destruct Hlast as [->|Hlast]; [pose proof (Z.div_pos ms 100); lia|].
      pose proof (prior_far (n - 2)). pose proof (Z.div_mod ms 100). pose proof (Z.mod_pos_bound ms 100). lia.
    + destruct Hrc as [?|(? & ? & Hneg)]; [by left|right]. split_and!; try done.
      * intros j Hj. apply Hall. lia.
      * unfold sqlite3InvokeBusyHandler. rewrite Hneg. by destruct (xBusyHandler db').
  - intros Hms Hb. unfold sqlite3_busy_timeout. rewrite (proj2 (Z.ltb_ge 0 ms)) by lia.
    cbn [lock_loop]. rewrite Hb. done.
Qed.

(** With a timeout of [ms] milliseconds, at most [2^31 - 201], waiting for a lock always
    ends: either the lock is found free, having slept no longer than the timeout, or the
    answer is [SQLITE_BUSY] after having slept exactly the timeout; the lock is tried at most
    [ms/100 + 11] times, and the handler then stays silent until its counter is reset.
    A timeout of zero or less removes the handler: the first busy attempt fails at once. *)
Theorem busy_wait_bounded db busy ms :
  (0 < ms <= 2 ^ 31 - 201 ->
   exists fuel rc us n db', lock_loop fuel busy 0 (sqlite3_busy_timeout db ms) 0 = Some (rc, us, n, db') /\
     0 <= us <= 1000 * ms /\ Z.of_nat n <= ms / 100 + 11 /\
     (rc = SQLITE_OK /\ busy (n - 1)%nat = false \/
      rc = SQLITE_BUSY /\ us = 1000 * ms /\ (forall j, (j < n - 1)%nat -> busy j = true) /\
      sqlite3InvokeBusyHandler db' = (0, 0, db'))) /\
  (ms <= 0 -> busy 0%nat = true ->
   lock_loop 1 busy 0 (sqlite3_busy_timeout db ms) 0 =
     Some (SQLITE_BUSY, 0, 1%nat, sqlite3_busy_timeout db ms)).
Proof. apply busy_wait. Qed.


Lemma busy_wait_bounded_witness :
  0 < 5000 <= 2 ^ 31 - 201 /\
  exists fuel rc us n db', lock_loop fuel (fun _ => true) 0
    (sqlite3_busy_timeout (mkBusy NoCallback 0 0) 5000) 0 = Some (rc, us, n, db') /\
    0 <= us <= 1000 * 5000 /\ Z.of_nat n <= 61.
Proof.
  assert (0 < 5000 <= 2 ^ 31 - 201) as H by lia. split; [exact H|].
  destruct (proj1 (busy_wait_bounded (mkBusy NoCallback 0 0) (fun _ => true) 5000) H)
    as (fuel & rc & us & n & db' & E & Hus & Hn & _).
  exists fuel, rc, us, n, db'. split; [exact E|]. split; [exact Hus|exact Hn].
Defined.
