(* ===== verification/Complete.v ===== *)
(** * Is a text a complete statement? (complete.c of sqlite3.c)

    The state machine of [sqlite3_complete]: eight states over eight classes of tokens, with its
    own scanner that only tells strings, comments and a few words apart. *)

From S2P Require Import Prelude Bitwise SqlText SqlNumber Keywords Tokenizer.
From stdpp Require Import options.

Definition tkSEMI : Z := 0.
Definition tkWS : Z := 1.
Definition tkOTHER : Z := 2.
Definition tkEXPLAIN : Z := 3.
Definition tkCREATE : Z := 4.
Definition tkTEMP : Z := 5.
Definition tkTRIGGER : Z := 6.
Definition tkEND : Z := 7.

Definition complete_trans : list (list Z) :=
  [ [1; 0; 2; 3; 4; 2; 2; 2];   (* 0 INVALID *)
    [1; 1; 2; 3; 4; 2; 2; 2];   (* 1 START *)
    [1; 2; 2; 2; 2; 2; 2; 2];   (* 2 NORMAL *)
    [1; 3; 3; 2; 4; 2; 2; 2];   (* 3 EXPLAIN *)
    [1; 4; 2; 2; 2; 4; 5; 2];   (* 4 CREATE *)
    [6; 5; 5; 5; 5; 5; 5; 5];   (* 5 TRIGGER *)
    [6; 6; 5; 5; 5; 5; 5; 7];   (* 6 SEMI *)
    [1; 7; 5; 5; 5; 5; 5; 5] ]. (* 7 END *)

Definition complete_next (state token : Z) : Z :=
  zat (nth (Z.to_nat state) complete_trans []) token.

(** [nId==n && sqlite3StrNICmp(zSql, word, n)==0] *)
Definition is_word (z : list Z) (nId : Z) (w : string) : bool :=
  (nId =? Z.of_nat (String.length w)) &&
  (sqlite3_strnicmp (Some z) (Some (bytes_of_string w)) (Z.of_nat (String.length w)) =? 0).

Definition complete_word (z : list Z) (nId : Z) : Z :=
  let c := zat z 0 in
  if (c =? chr "c") || (c =? chr "C") then if is_word z nId "create" then tkCREATE else tkOTHER
  else if (c =? chr "t") || (c =? chr "T") then
    if is_word z nId "trigger" then tkTRIGGER
    else if is_word z nId "temp" then tkTEMP
    else if is_word z nId "temporary" then tkTEMP
    else tkOTHER
  else if (c =? chr "e") || (c =? chr "E") then
    if is_word z nId "end" then tkEND
    else if is_word z nId "explain" then tkEXPLAIN
    else tkOTHER
  else tkOTHER.

(** [while( zSql[0] && (zSql[0]!='*' || zSql[1]!='/') ){ zSql++; }] *)
Fixpoint comment_end (z : list Z) : list Z :=
  match z with
  | [] => []
  | c :: z' => if (c =? chr "*") && (zat z' 0 =? chr "/") then z else comment_end z'
  end.

Inductive scanned :=
  | Tok (token : Z) (rest : list Z)   (** the token, and [zSql] after the final increment *)
  | Return (r : bool).                (** an early return *)

(** The switch on [*zSql], in state [state]. *)
Definition complete_scan (state : Z) (z : list Z) : scanned :=
  let c := zat z 0 in
  if c =? chr ";" then Tok tkSEMI (tl z)
  else if (c =? chr " ") || (c =? 13) || (c =? 9) || (c =? 10) || (c =? 12) then Tok tkWS (tl z)
  else if c =? chr "/" then
    if negb (zat z 1 =? chr "*") then Tok tkOTHER (tl z)
    else
      match comment_end (zdrop 2 z) with
      | [] => Return false
      | _ :: z' => Tok tkWS (tl z')
      end
  else if c =? chr "-" then
    if negb (zat z 1 =? chr "-") then Tok tkOTHER (tl z)
    else
      match dropw (fun c => negb (c =? 10)) z with
      | [] => Return (state =? 1)
      | _ :: z' => Tok tkWS z'
      end
  else if c =? chr "[" then
    match dropw (fun c => negb (c =? chr "]")) (tl z) with
    | [] => Return false
    | _ :: z' => Tok tkOTHER z'
    end
  else if (c =? 96) || (c =? 34) || (c =? 39) then
    match dropw (fun d => negb (d =? c)) (tl z) with
    | [] => Return false
    | _ :: z' => Tok tkOTHER z'
    end
  else if IdChar c then
    let nId := 1 + span IdChar (tl z) in
    Tok (complete_word z nId) (zdrop nId z)
  else Tok tkOTHER (tl z).

Fixpoint complete_loop (fuel : nat) (state : Z) (z : list Z) : option bool :=
  match fuel with
  | O => None
  | S fuel =>
      match z with
      | [] => Some (state =? 1)
      | _ =>
          match complete_scan state z with
          | Return r => Some r
          | Tok token rest => complete_loop fuel (complete_next state token) rest
          end
      end
  end.

Definition sqlite3_complete (zSql : list Z) : option bool := complete_loop (S (length zSql)) 0 zSql.

Definition complete_of (s : string) : option bool := sqlite3_complete (bytes_of_string s).

Example complete_1 : complete_of "select ';' ; -- done" = Some true. Proof. reflexivity. Qed.
Example complete_2 : complete_of "create temp trigger t begin select 1; end" = Some false.
Proof. reflexivity. Qed.
Example complete_3 : complete_of "Create TEMP trigger t begin select 1; End;" = Some true.
Proof. reflexivity. Qed.
Example complete_4 : complete_of "" = Some false. Proof. reflexivity. Qed.
Example complete_5 : complete_of "explain create trigger t; x" = Some false. Proof. reflexivity. Qed.

(** ** What completeness means *)

(** Spaces and comments; a line comment may be cut off by the end. *)
Inductive blank : list Z -> Prop :=
  | blank_end : blank []
  | blank_space c w : c = 32 \/ c = 13 \/ c = 9 \/ c = 10 \/ c = 12 -> blank w -> blank (c :: w)
  | blank_c a w : blank w -> blank (47 :: 42 :: a ++ 42 :: 47 :: w)
  | blank_line a w : 10 ∉ a -> blank w -> blank (45 :: 45 :: a ++ 10 :: w)
  | blank_open a : 10 ∉ a -> blank (45 :: 45 :: a).

Definition ends_in_semicolon (z : list Z) : Prop := exists p w, z = p ++ 59 :: w /\ blank w.

(** Inside a trigger definition: between its start and the semicolon after END. *)
Definition in_trigger (state : Z) : bool := (5 <=? state) && (state <=? 7).

Lemma ends_app p z : ends_in_semicolon z -> ends_in_semicolon (p ++ z).
Proof. intros (q & w & -> & Hw). exists (p ++ q), w. by rewrite app_assoc. Qed.

Lemma comment_end_suffix z : exists a, z = a ++ comment_end z /\
  (comment_end z <> [] -> exists w, comment_end z = 42 :: 47 :: w).
Proof.
  induction z as [|c z IH]; cbn [comment_end]; [by exists []|].
  destruct ((c =? chr "*") && (zat z 0 =? chr "/")) eqn:E.
  - exists []. split; [done|]. intros _. breflect. destruct z as [|d z]; [done|].
    change (zat (d :: z) 0) with d in *. subst. by exists z.
  - destruct IH as (a & Ha & Hw). exists (c :: a). split; [|done]. cbn [app]. congruence.
Qed.

Lemma dropw_split f z c w : dropw f z = c :: w ->
  exists a, z = a ++ c :: w /\ Forall (fun d => f d = true) a /\ f c = false.
Proof.
  induction z as [|d z IH]; cbn [dropw]; [done|]. destruct (f d) eqn:E.
  - intros H. destruct (IH H) as (a & -> & Ha & Hc). exists (d :: a). split_and!; [done|by constructor|done].
  - intros [= -> ->]. by exists [].
Qed.

Lemma dropw_nil f z : dropw f z = [] -> Forall (fun d => f d = true) z.
Proof.
  induction z as [|d z IH]; cbn [dropw]; [done|]. destruct (f d) eqn:E; [|done].
  intros H. constructor; [done|by apply IH].
Qed.

Lemma not_newline a : Forall (fun d => negb (d =? 10) = true) a -> 10 ∉ a.
Proof.
  intros H Hin. apply list_elem_of_In in Hin. apply (proj1 (List.Forall_forall _ _) H) in Hin.
  vm_compute in Hin. done.
Qed.

Lemma complete_word_other z n : complete_word z n <> tkSEMI /\ complete_word z n <> tkWS.
Proof. unfold complete_word. cbv zeta. repeat next_class; done. Qed.

(** What a scanned token leaves: a proper suffix; a semicolon is one, and white space is blank. *)
Lemma complete_scan_spec state z : z <> [] ->
  match complete_scan state z with
  | Tok token rest =>
      (length rest < length z)%nat /\ (exists p, z = p ++ rest) /\
      (token = tkSEMI -> z = 59 :: rest) /\ (token = tkWS -> blank rest -> blank z)
  | Return r => r = true -> state = 1 /\ blank z
  end.
Proof.
  intros Hne. destruct z as [|c z]; [done|]. unfold complete_scan.
  change (zat (c :: z) 0) with c. cbn [tl].
  assert (forall t, t <> tkSEMI -> t <> tkWS -> (length z < length (c :: z))%nat /\
    (exists p, c :: z = p ++ z) /\ (t = tkSEMI -> c :: z = 59 :: z) /\ (t = tkWS -> blank z -> blank (c :: z)))
    as Hone by (intros t H1 H2; split_and!; [simpl; lia|by exists [c]|done|done]).
  destruct (c =? chr ";") eqn:E1; breflect.
  { split_and!; [simpl; lia|by exists [c]|by intros _; subst|done]. }
  destruct ((c =? chr " ") || _ || _ || _ || _) eqn:E2.
  { rewrite !orb_true_iff, !Z.eqb_eq in E2.
    split_and!; [simpl; lia|by exists [c]|done|]. intros _ Hb. apply blank_space; [|done].
    change (chr " ") with 32 in E2. tauto. }
  clear E1 E2. destruct (c =? chr "/") eqn:E3; breflect.
  { destruct (zat (c :: z) 1 =? chr "*") eqn:E4; cbn [negb]; [|by apply Hone]. breflect.
    destruct z as [|d z]; [done|]. change (zat (c :: d :: z) 1) with d in E4.
    change (zdrop 2 (c :: d :: z)) with z. destruct (comment_end_suffix z) as (a & Ha & Hw).
    destruct (comment_end z) as [|e z'] eqn:Ec; [done|]. destruct (Hw ltac:(done)) as (w & [= -> ->]).
    cbn [tl]. rewrite Ha. split_and!.
    - simpl. rewrite length_app. simpl. lia.
    - exists (c :: d :: a ++ [42; 47]). cbn [app]. by rewrite <- app_assoc.
    - done.
    - intros _ Hb. subst c d. apply (blank_c a w Hb). }
  clear E3. destruct (c =? chr "-") eqn:E3; breflect.
  { destruct (zat (c :: z) 1 =? chr "-") eqn:E4; cbn [negb]; [|by apply Hone]. breflect.
    destruct z as [|d z]; [done|]. change (zat (c :: d :: z) 1) with d in E4. subst c d.
    cbn [dropw]. change (negb (chr "-" =? 10)) with true. cbv iota.
    destruct (dropw (fun c => negb (c =? 10)) z) as [|e z'] eqn:Ed.
    - intros Hs. breflect. split; [done|]. apply blank_open, not_newline, dropw_nil, Ed.
    - apply dropw_split in Ed as (a & -> & Ha & He). breflect. subst e. split_and!.
      + simpl. rewrite length_app. simpl. lia.
      + exists (45 :: 45 :: a ++ [10]). cbn [app]. by rewrite <- app_assoc.
      + done.
      + intros _ Hb. apply blank_line; [by apply not_newline|done]. }
  clear E3. assert (forall f e z', dropw f z = e :: z' -> (length z' < length (c :: z))%nat /\
    (exists p, c :: z = p ++ z') /\ (tkOTHER = tkSEMI -> c :: z = 59 :: z') /\
    (tkOTHER = tkWS -> blank z' -> blank (c :: z))) as Hskip.
  { intros f e z' Hd. apply dropw_split in Hd as (a & -> & _). split_and!; [|exists (c :: a ++ [e])|done|done].
    - simpl. rewrite length_app. simpl. lia.
    - cbn [app]. by rewrite <- app_assoc. }
  destruct (c =? chr "["); [destruct (dropw _ z) eqn:Ed; [done|by eapply Hskip]|].
  destruct (_ || _ || _); [destruct (dropw _ z) eqn:Ed; [done|by eapply Hskip]|].
  destruct (IdChar c); [|by apply Hone].
  destruct (complete_word_other (c :: z) (1 + span IdChar z)) as [Hw1 Hw2].
  split_and!; [| |by intros ?|by intros ?].
  - pose proof (span_range IdChar z). unfold zdrop. rewrite length_drop. simpl. lia.
  - exists (take (Z.to_nat (1 + span IdChar z)) (c :: z)). symmetry. apply take_drop.
Qed.

Lemma complete_next_one state token : 0 <= state <= 7 -> 0 <= token <= 7 ->
  0 <= complete_next state token <= 7 /\
  (complete_next state token = 1 -> token = tkSEMI \/ state = 1 /\ token = tkWS) /\
  (in_trigger state = true -> complete_next state token = 1 -> state = 7 /\ token = tkSEMI).
Proof.
  intros Hs Ht.
  assert (forallb (fun s => forallb (fun t => let n := complete_next (Z.of_nat s) (Z.of_nat t) in
    (0 <=? n) && (n <=? 7) && implb (n =? 1) ((t =? 0)%nat || ((s =? 1)%nat && (t =? 1)%nat)) &&
    implb (in_trigger (Z.of_nat s) && (n =? 1)) ((s =? 7)%nat && (t =? 0)%nat))
    (seq 0 8)) (seq 0 8) = true) as H by (vm_compute; reflexivity).
  rewrite forallb_forall in H. specialize (H (Z.to_nat state) ltac:(apply in_seq; lia)). cbv beta in H.
  rewrite forallb_forall in H. specialize (H (Z.to_nat token) ltac:(apply in_seq; lia)). cbv beta zeta in H.
  rewrite !Z2Nat.id in H by lia. breflect. unfold tkSEMI, tkWS. split; [lia|]. split.
  - intros E. rewrite (proj2 (Z.eqb_eq _ 1) E) in *. cbn [implb] in *.
    rewrite orb_true_iff, andb_true_iff, !Nat.eqb_eq in *. lia.
  - intros Htr E. rewrite Htr, (proj2 (Z.eqb_eq _ 1) E) in *. cbn [implb andb] in *.
    breflect. lia.
Qed.

Lemma complete_scan_token state z token rest : complete_scan state z = Tok token rest -> 0 <= token <= 7.
Proof.
  unfold complete_scan. cbv zeta.
  assert (forall n, 0 <= complete_word z n <= 7) as Hw
    by (intros n; unfold complete_word; cbv zeta; repeat next_class; unfold tkOTHER, tkCREATE, tkTRIGGER,
        tkTEMP, tkEND, tkEXPLAIN; lia).
  repeat (next_class; try (intros [= <- _]; unfold tkSEMI, tkWS, tkOTHER; lia)).
  all: repeat match goal with |- context [match ?l with [] => _ | _ => _ end] => destruct l end;
    try done; intros [= <- _]; try apply Hw; unfold tkSEMI, tkWS, tkOTHER; lia.
Qed.

Lemma complete_loop_spec fuel : forall state z, (length z < fuel)%nat -> 0 <= state <= 7 ->
  exists r, complete_loop fuel state z = Some r /\
    (r = true -> (state = 1 /\ blank z) \/ ends_in_semicolon z).
Proof.
  induction fuel as [|fuel IH]; intros state z Hf Hs; [lia|]. cbn [complete_loop].
  destruct (decide (z = [])) as [->|Hne].
  { eexists. split; [done|]. intros H. breflect. left. split; [done|constructor]. }
  pose proof (complete_scan_spec state z Hne) as Hspec.
  pose proof (complete_scan_token state z) as Htok.
  assert (match z with [] => Some (state =? 1) | _ => match complete_scan state z with
    | Return r => Some r | Tok token rest => complete_loop fuel (complete_next state token) rest end end
    = match complete_scan state z with
    | Return r => Some r | Tok token rest => complete_loop fuel (complete_next state token) rest end) as ->
    by by destruct z.
  destruct (complete_scan state z) as [token rest|r]; [|by exists r; split; [done|intros ->; left; apply Hspec]].
  specialize (Htok token rest eq_refl). destruct Hspec as (Hlen & (p & Hp) & Hsemi & Hws).
  destruct (complete_next_one state token Hs Htok) as (Hnext & Hone & _).
  destruct (IH (complete_next state token) rest ltac:(lia) Hnext) as (r & -> & Hr).
  exists r. split; [done|]. intros Ht. destruct (Hr Ht) as [[H1 Hb]|He].
  - destruct (Hone H1) as [Hts|[Hs1 Hts]].
    + right. rewrite (Hsemi Hts). by exists [], rest.
    + left. split; [done|by apply Hws].
  - right. rewrite Hp. by apply ends_app.
Qed.

(** [sqlite3_complete] answers for every text, and a text it calls complete ends in a
    semicolon followed by nothing but spaces and comments; inside a trigger definition only
    the semicolon after END completes the statement. *)
Theorem complete_ends_in_semicolon z :
  (exists r, sqlite3_complete z = Some r) /\
  (sqlite3_complete z = Some true -> ends_in_semicolon z) /\
  (forall state token, 5 <= state <= 7 -> 0 <= token <= 7 ->
     complete_next state token = 1 -> state = 7 /\ token = tkSEMI).
Proof.
  unfold sqlite3_complete.
  destruct (complete_loop_spec (S (length z)) 0 z ltac:(lia) ltac:(lia)) as (r & -> & Hr).
  split_and!; [by exists r| |].
  - intros [= ->]. by destruct (Hr eq_refl) as [[? _]|].
  - intros state token Hs Ht. apply (complete_next_one state token); [lia|done|].
    unfold in_trigger. by rewrite !(proj2 (Z.leb_le _ _)) by lia.
Qed.

Lemma complete_ends_in_semicolon_witness :
  sqlite3_complete (bytes_of_string "x; /**/") = Some true /\
  ends_in_semicolon (bytes_of_string "x; /**/").
Proof.
  assert (sqlite3_complete (bytes_of_string "x; /**/") = Some true) as H by reflexivity.
  split; [exact H|]. exact (proj1 (proj2 (complete_ends_in_semicolon _)) H).
Defined.
