(* ===== verification/Utf.v ===== *)
(** * UTF-8 and UTF-16 (utf.c of sqlite3.c)

    Reading and writing characters, and the translation of a text value between its encodings.
    A buffer is the list of its bytes; a pointer that advances is the list that is left. *)

From S2P Require Import Prelude Bitwise SqlText SqlNumber.
From stdpp Require Import options.

Definition sqlite3Utf8Trans1 : list Z :=
  [ 0; 1; 2; 3; 4; 5; 6; 7;
    8; 9; 10; 11; 12; 13; 14; 15;
    16; 17; 18; 19; 20; 21; 22; 23;
    24; 25; 26; 27; 28; 29; 30; 31;
    0; 1; 2; 3; 4; 5; 6; 7;
    8; 9; 10; 11; 12; 13; 14; 15;
    0; 1; 2; 3; 4; 5; 6; 7;
    0; 1; 2; 3; 0; 1; 0; 0 ].

(** ** Writing one character *)

Definition WRITE_UTF8 (c : Z) : list Z :=
  if c <? 0x80 then [u8 (Z.land c 0xff)]
  else if c <? 0x800 then
    [0xc0 + u8 (Z.land (Z.shiftr c 6) 0x1f); 0x80 + u8 (Z.land c 0x3f)]
  else if c <? 0x10000 then
    [0xe0 + u8 (Z.land (Z.shiftr c 12) 0x0f); 0x80 + u8 (Z.land (Z.shiftr c 6) 0x3f);
     0x80 + u8 (Z.land c 0x3f)]
  else
    [0xf0 + u8 (Z.land (Z.shiftr c 18) 0x07); 0x80 + u8 (Z.land (Z.shiftr c 12) 0x3f);
     0x80 + u8 (Z.land (Z.shiftr c 6) 0x3f); 0x80 + u8 (Z.land c 0x3f)].

(** The bytes stored in [zOut]; their number is the result. *)
Definition sqlite3AppendOneUtf8Character (v : Z) : list Z :=
  if v <? 0x80 then [u8 (Z.land v 0xff)]
  else if v <? 0x800 then
    [0xc0 + u8 (Z.land (Z.shiftr v 6) 0x1f); 0x80 + u8 (Z.land v 0x3f)]
  else if v <? 0x10000 then
    [0xe0 + u8 (Z.land (Z.shiftr v 12) 0x0f); 0x80 + u8 (Z.land (Z.shiftr v 6) 0x3f);
     0x80 + u8 (Z.land v 0x3f)]
  else
    [0xf0 + u8 (Z.land (Z.shiftr v 18) 0x07); 0x80 + u8 (Z.land (Z.shiftr v 12) 0x3f);
     0x80 + u8 (Z.land (Z.shiftr v 6) 0x3f); 0x80 + u8 (Z.land v 0x3f)].

Definition utf16_units (c : Z) : list (Z * Z) :=
  if c <=? 0xffff then [(u8 (Z.land c 0xff), u8 (Z.land (Z.shiftr c 8) 0xff))]
  else
    [(u8 (Z.land (Z.shiftr c 10) 0x3f + Z.land (Z.shiftr (u32 (c - 0x10000)) 10) 0xc0),
      u8 (0xd8 + Z.land (Z.shiftr (u32 (c - 0x10000)) 18) 0x03));
     (u8 (Z.land c 0xff), u8 (0xdc + Z.land (Z.shiftr c 8) 0x03))].

(** The two macros store the same bytes in the two orders. *)
Definition WRITE_UTF16LE (c : Z) : list Z := concat (map (fun lh => [lh.1; lh.2]) (utf16_units c)).
Definition WRITE_UTF16BE (c : Z) : list Z := concat (map (fun lh => [lh.2; lh.1]) (utf16_units c)).

(** ** Reading one character *)

(** [while( zIn<zTerm && ( *zIn & 0xc0)==0x80 ) c = (c<<6) + (0x3f & *(zIn++))] *)
Fixpoint utf8_tail (z : list Z) (c : Z) : Z * list Z :=
  match z with
  | b :: z' =>
      if Z.land b 0xc0 =? 0x80 then
        utf8_tail z' (u32 (u32 (Z.shiftl c 6) + Z.land 0x3f b))
      else (c, z)
  | [] => (c, [])
  end.

Definition utf8_fix (c : Z) : Z :=
  if (c <? 0x80) || (Z.land c 0xFFFFF800 =? 0xD800) || (Z.land c 0xFFFFFFFE =? 0xFFFE)
  then 0xFFFD else c.

(** [zIn] is the text up to [zTerm]; the character, and the text left. *)
Definition READ_UTF8 (zIn : list Z) : Z * list Z :=
  let c := zat zIn 0 in
  if 0xc0 <=? c then
    let '(c, zIn) := utf8_tail (tl zIn) (zat sqlite3Utf8Trans1 (c - 0xc0)) in
    (utf8_fix c, zIn)
  else (c, tl zIn).

(** The same on a NUL-terminated text: the terminator ends the continuation bytes. *)
Definition sqlite3Utf8Read (z : list Z) : Z * list Z := READ_UTF8 z.

Fixpoint utf8_limited (z : list Z) (k : nat) (c i : Z) : Z * Z :=
  match k, z with
  | S k, b :: z' =>
      if Z.land b 0xc0 =? 0x80 then
        utf8_limited z' k (u32 (u32 (Z.shiftl c 6) + Z.land 0x3f b)) (i + 1)
      else (c, i)
  | _, _ => (c, i)
  end.

(** [*piOut] and the result. *)
Definition sqlite3Utf8ReadLimited (z : list Z) (n : Z) : Z * Z :=
  let c := zat z 0 in
  if 0xc0 <=? c then
    let n := if 4 <? n then 4 else n in
    utf8_limited (tl z) (Z.to_nat (n - 1)) (zat sqlite3Utf8Trans1 (c - 0xc0)) 1
  else (c, 1).

(** The two bytes of a unit to its value. *)
Definition unit_of (be : bool) (b1 b2 : Z) : Z :=
  if be then u32 (Z.shiftl b1 8) + b2 else b1 + Z.shiftl b2 8.

(** One character of UTF-16: a surrogate takes the next unit whatever it is, if there is one. *)
Definition read_utf16 (be : bool) (z : list Z) : Z * list Z :=
  match z with
  | b1 :: b2 :: z =>
      let c := unit_of be b1 b2 in
      if (0xd800 <=? c) && (c <? 0xe000) then
        match z with
        | b3 :: b4 :: z =>
            let c2 := unit_of be b3 b4 in
            (u32 (Z.land c2 0x03ff + Z.shiftl (Z.land c 0x003f) 10 +
                  Z.shiftl (Z.land c 0x03c0 + 0x0040) 10), z)
        | _ => (c, z)
        end
      else (c, z)
  | _ => (0, [])
  end.

(** ** Translating a text *)

Fixpoint swap_bytes (z : list Z) : list Z :=
  match z with
  | a :: b :: z => b :: a :: swap_bytes z
  | z => z
  end.

Fixpoint utf8_to (k : nat) (write : Z -> list Z) (z : list Z) : list Z :=
  match k, z with
  | S k, _ :: _ => let '(c, z) := READ_UTF8 z in write c ++ utf8_to k write z
  | _, _ => []
  end.

Fixpoint utf16_to8 (k : nat) (be : bool) (z : list Z) : list Z :=
  match k, z with
  | S k, _ :: _ => let '(c, z) := read_utf16 be z in WRITE_UTF8 c ++ utf16_to8 k be z
  | _, _ => []
  end.

(** The bytes of the value before and after; an odd last byte of UTF-16 is dropped, except when
    only the byte order changes. *)
Definition sqlite3VdbeMemTranslate (enc desiredEnc : Z) (z : list Z) : list Z :=
  if negb (enc =? SQLITE_UTF8) && negb (desiredEnc =? SQLITE_UTF8) then swap_bytes z
  else if enc =? SQLITE_UTF8 then
    utf8_to (length z) (if desiredEnc =? SQLITE_UTF16LE then WRITE_UTF16LE else WRITE_UTF16BE) z
  else
    let z := take (Z.to_nat (Z.ldiff (zlen z) 1)) z in
    utf16_to8 (length z) (negb (enc =? SQLITE_UTF16LE)) z.

(** The encoding and the bytes after the byte-order mark, if there is one. *)
Definition sqlite3VdbeMemHandleBom (enc : Z) (z : list Z) : Z * list Z :=
  let bom :=
    if 1 <? zlen z then
      if (zat z 0 =? 0xff) && (zat z 1 =? 0xfe) then SQLITE_UTF16LE
      else if (zat z 0 =? 0xfe) && (zat z 1 =? 0xff) then SQLITE_UTF16BE else 0
    else 0 in
  if negb (bom =? 0) then (bom, drop 2 z) else (enc, z).

(** [SQLITE_SKIP_UTF8]; [z] runs to the terminator. *)
Fixpoint skip_tail (z : list Z) : list Z :=
  match z with
  | b :: z' => if Z.land b 0xc0 =? 0x80 then skip_tail z' else z
  | [] => []
  end.

Definition SQLITE_SKIP_UTF8 (z : list Z) : list Z :=
  if 0xc0 <=? zat z 0 then skip_tail (tl z) else tl z.

(** [left] is the length of the text that was left at [zTerm]; none is a negative [nByte]. *)
Fixpoint charlen_loop (k : nat) (z : list Z) (left : option Z) (r : Z) : Z :=
  match k with
  | O => r
  | S k =>
      if negb (zat z 0 =? 0) && match left with Some l => l <? zlen z | None => true end then
        charlen_loop k (SQLITE_SKIP_UTF8 z) left (r + 1)
      else r
  end.

Definition sqlite3Utf8CharLen (zIn : list Z) (nByte : Z) : Z :=
  charlen_loop (length zIn) zIn (if 0 <=? nByte then Some (zlen zIn - nByte) else None) 0.

Example utf_1 : sqlite3VdbeMemTranslate SQLITE_UTF8 SQLITE_UTF16LE [0xe2; 0x82; 0xac; 0xf0; 0x9f; 0x98; 0x80]
  = [0xac; 0x20; 0x3d; 0xd8; 0x00; 0xde]. Proof. reflexivity. Qed.
Example utf_2 : sqlite3VdbeMemTranslate SQLITE_UTF16LE SQLITE_UTF8 [0xac; 0x20; 0x3d; 0xd8; 0x00; 0xde]
  = [0xe2; 0x82; 0xac; 0xf0; 0x9f; 0x98; 0x80]. Proof. reflexivity. Qed.
Example utf_3 : sqlite3Utf8CharLen [0xe2; 0x82; 0xac; 0x41] (-1) = 2. Proof. reflexivity. Qed.

(** ** Lemmas *)

(** The characters that survive reading: no surrogates, no U+FFFE, no U+FFFF. *)
Definition valid_cp (c : Z) : Prop :=
  0 <= c < 0x110000 /\ ~ (0xd800 <= c < 0xe000) /\ c <> 0xfffe /\ c <> 0xffff.

Definition is_cont (b : Z) : bool := Z.land b 0xc0 =? 0x80.

(** Shifts and masks of the code as divisions, for the arithmetic of the proofs. *)
Ltac utf_arith :=
  change 0xff with (Z.ones 8); change 0x1f with (Z.ones 5); change 0x0f with (Z.ones 4);
  change 0x07 with (Z.ones 3); change 0x3f with (Z.ones 6); change 0x03ff with (Z.ones 10);
  rewrite ?(Z.land_comm (Z.ones 6)), ?Z.land_ones, ?Z.shiftr_div_pow2, ?Z.shiftl_mul_pow2 by lia;
  unfold wrapu;
  change (2 ^ 32) with 4294967296; change (2 ^ 18) with 262144; change (2 ^ 12) with 4096;
  change (2 ^ 10) with 1024; change (2 ^ 8) with 256; change (2 ^ 6) with 64; change (2 ^ 5) with 32;
  change (2 ^ 4) with 16; change (2 ^ 3) with 8.

Lemma cont_byte y : 0 <= y < 64 -> (Z.land (128 + y) 0xc0 =? 0x80) = true /\
  Z.land 0x3f (128 + y) = y.
Proof.
  intros Hy. pose proof (proj1 (forallb_forall (fun n => (Z.land (128 + Z.of_nat n) 0xc0 =? 0x80) &&
    (Z.land 0x3f (128 + Z.of_nat n) =? Z.of_nat n)) (seq 0 64)) ltac:(vm_compute; reflexivity)
    (Z.to_nat y) ltac:(apply in_seq; lia)) as H.
  cbv beta in H. rewrite Z2Nat.id in H by lia. apply andb_true_iff in H as [H1 H2].
  split; [done|by apply Z.eqb_eq].
Qed.

Lemma trans1_lead b n : (n = 32 /\ 0xc0 <= b < 0xe0) \/ (n = 16 /\ 0xe0 <= b < 0xf0) \/
  (n = 8 /\ 0xf0 <= b < 0xf8) -> zat sqlite3Utf8Trans1 (b - 0xc0) = (b - 0xc0) mod n.
Proof.
  intros H.
  pose proof (proj1 (forallb_forall (fun k => let b := Z.of_nat k in
    zat sqlite3Utf8Trans1 (b - 0xc0) =? (b - 0xc0) mod (if b <? 0xe0 then 32 else if b <? 0xf0 then 16 else 8))
    (seq 192 56)) ltac:(vm_compute; reflexivity) (Z.to_nat b) ltac:(apply in_seq; lia)) as Hb.
  cbv beta zeta in Hb. rewrite Z2Nat.id in Hb by lia. breflect. rewrite Hb.
  repeat case_if; f_equal; lia.
Qed.

Lemma utf8_fix_valid c : valid_cp c -> 0x80 <= c -> utf8_fix c = c.
Proof.
  intros (Hr & Hs & H1 & H2) Hc. unfold utf8_fix.
  assert (0 <= c < 2 ^ 32) as H32 by lia.
  assert (Z.land c 0xFFFFF800 = Z.shiftl (Z.shiftr c 11) 11) as -> by (clear - H32; bitblast).
  assert (Z.land c 0xFFFFFFFE = Z.shiftl (Z.shiftr c 1) 1) as -> by (clear - H32; bitblast).
  rewrite !Z.shiftr_div_pow2, !Z.shiftl_mul_pow2 by lia. change (2 ^ 11) with 2048. change (2 ^ 1) with 2.
  pose proof (Z.div_mod c 2048). pose proof (Z.mod_pos_bound c 2048).
  pose proof (Z.div_mod c 2). pose proof (Z.mod_pos_bound c 2).
  rewrite (proj2 (Z.ltb_ge _ _)), !(proj2 (Z.eqb_neq _ _)) by lia. done.
Qed.

Lemma utf8_tail_stop z c : is_cont (zat z 0) = false -> utf8_tail z c = (c, z).
Proof.
  destruct z as [|b z]; [done|]. change (zat (b :: z) 0) with b. unfold is_cont. cbn [utf8_tail].
  by intros ->.
Qed.

Lemma utf8_tail_cont y z c : 0 <= y < 64 -> 0 <= c < 2 ^ 26 ->
  utf8_tail (128 + y :: z) c = utf8_tail z (64 * c + y).
Proof.
  intros Hy Hc. cbn [utf8_tail]. destruct (cont_byte y Hy) as [-> ->]. f_equal.
  rewrite Z.shiftl_mul_pow2 by lia. change (2 ^ 6) with 64. change (2 ^ 26) with 67108864 in Hc.
  rewrite (wrapu_small 32 (c * 64)), wrapu_small by (change (2 ^ 32) with 4294967296; lia). lia.
Qed.

Lemma cons_eq {A} (x y : A) l m : x = y -> l = m -> x :: l = y :: m.
Proof. by intros -> ->. Qed.

(** The written bytes, as leading byte and continuation values. *)
Lemma write_utf8_parts c : valid_cp c ->
  WRITE_UTF8 c =
  (if c <? 0x80 then [c]
   else if c <? 0x800 then [0xc0 + c / 64; 128 + c mod 64]
   else if c <? 0x10000 then [0xe0 + c / 4096; 128 + c / 64 mod 64; 128 + c mod 64]
   else [0xf0 + c / 262144; 128 + c / 4096 mod 64; 128 + c / 64 mod 64; 128 + c mod 64]).
Proof.
  intros (Hr & _). unfold WRITE_UTF8. utf_arith.
  repeat case_if; repeat (apply cons_eq); try done; Z.to_euclidean_division_equations; lia.
Qed.

(** Reading back what was written. *)
Lemma read_write c rest : valid_cp c -> is_cont (zat rest 0) = false ->
  READ_UTF8 (WRITE_UTF8 c ++ rest) = (c, rest).
Proof.
  intros Hv Hr. pose proof Hv as (Hc & _). rewrite write_utf8_parts by done.
  destruct (c <? 0x80) eqn:E1; [|destruct (c <? 0x800) eqn:E2; [|destruct (c <? 0x10000) eqn:E3]]; breflect;
    unfold READ_UTF8; cbn [app tl].
  - change (zat (c :: rest) 0) with c. by rewrite (proj2 (Z.leb_gt _ _)) by lia.
  - change (zat (0xc0 + c / 64 :: _) 0) with (0xc0 + c / 64). pose proof (Z.div_mod c 64). pose proof (Z.mod_pos_bound c 64).
    assert (2 <= c / 64 < 32) by lia.
    rewrite (proj2 (Z.leb_le _ _)) by lia.
    rewrite (trans1_lead _ 32) by (left; lia). replace (0xc0 + c / 64 - 0xc0) with (c / 64) by lia.
    rewrite (Z.mod_small (c / 64) 32) by lia.
    rewrite utf8_tail_cont, utf8_tail_stop by (done || lia).
    rewrite <- Z.div_mod by lia. rewrite utf8_fix_valid by (done || lia). done.
  - pose proof (Z.div_mod c 64). pose proof (Z.mod_pos_bound c 64).
    pose proof (Z.div_mod (c / 64) 64). pose proof (Z.mod_pos_bound (c / 64) 64).
    assert (c / 4096 = c / 64 / 64) as Hd by (rewrite Z.div_div by lia; done).
    change (zat (0xe0 + c / 4096 :: _) 0) with (0xe0 + c / 4096).
    rewrite (proj2 (Z.leb_le _ _)) by lia. rewrite (trans1_lead _ 16) by (right; left; lia).
    replace (0xe0 + c / 4096 - 0xc0) with (c / 4096 + 2 * 16) by lia.
    rewrite (Z.mod_add (c / 4096)), (Z.mod_small (c / 4096) 16) by lia.
    rewrite !utf8_tail_cont, utf8_tail_stop by (done || lia).
    replace (64 * (64 * (c / 4096) + c / 64 mod 64) + c mod 64) with c by lia.
    rewrite utf8_fix_valid by (done || lia). done.
  - pose proof (Z.div_mod c 64). pose proof (Z.mod_pos_bound c 64).
    pose proof (Z.div_mod (c / 64) 64). pose proof (Z.mod_pos_bound (c / 64) 64).
    pose proof (Z.div_mod (c / 4096) 64). pose proof (Z.mod_pos_bound (c / 4096) 64).
    assert (c / 4096 = c / 64 / 64) as Hd by (rewrite Z.div_div by lia; done).
    assert (c / 262144 = c / 4096 / 64) as Hd2 by (rewrite Z.div_div by lia; done).
    change (zat (0xf0 + c / 262144 :: _) 0) with (0xf0 + c / 262144).
    rewrite (proj2 (Z.leb_le _ _)) by lia. rewrite (trans1_lead _ 8) by (right; right; lia).
    replace (0xf0 + c / 262144 - 0xc0) with (c / 262144 + 6 * 8) by lia.
    rewrite (Z.mod_add (c / 262144)), (Z.mod_small (c / 262144) 8) by lia.
    rewrite !utf8_tail_cont, utf8_tail_stop by (done || lia).
    replace (64 * (64 * (64 * (c / 262144) + c / 4096 mod 64) + c / 64 mod 64) + c mod 64) with c by lia.
    rewrite utf8_fix_valid by (done || lia). done.
Qed.

(** A written character starts with no continuation byte. *)
Lemma write_lead c rest : valid_cp c ->
  exists b t, WRITE_UTF8 c = b :: t /\ is_cont b = false /\ is_cont (zat (WRITE_UTF8 c ++ rest) 0) = false /\
    (b = 0 <-> c = 0).
Proof.
  intros Hv. pose proof Hv as (Hc & _). rewrite write_utf8_parts by done.
  assert (forall b, is_byte b -> b < 128 \/ 192 <= b -> is_cont b = false) as Hb.
  { intros b Hb Hr. pose proof (all_bytes_spec (fun b => Bool.eqb (is_cont b) ((128 <=? b) && (b <? 192))) b
      ltac:(vm_compute; reflexivity) Hb) as H. apply eqb_prop in H. rewrite H.
    apply andb_false_iff. rewrite Z.leb_gt, Z.ltb_ge. lia. }
  assert (forall n, 0 < n -> 0 <= c / n) as Hp by (intros; apply Z.div_pos; lia).
  pose proof (Hp 64 ltac:(lia)). pose proof (Hp 4096 ltac:(lia)). pose proof (Hp 262144 ltac:(lia)).
  repeat case_if; do 2 eexists; (split; [reflexivity|]); cbn [app];
    match goal with |- context [zat (?x :: _) 0] => change (zat (x :: _) 0) with x end.
  - assert (is_cont c = false) by (apply Hb; unfold is_byte; lia). split_and!; done || lia.
  - assert (c / 64 < 32) by (apply Z.div_lt_upper_bound; lia).
    assert (is_cont (192 + c / 64) = false) by (apply Hb; unfold is_byte; lia). split_and!; done || lia.
  - assert (c / 4096 < 16) by (apply Z.div_lt_upper_bound; lia).
    assert (is_cont (224 + c / 4096) = false) by (apply Hb; unfold is_byte; lia). split_and!; done || lia.
  - assert (c / 262144 < 8) by (apply Z.div_lt_upper_bound; lia).
    assert (is_cont (240 + c / 262144) = false) by (apply Hb; unfold is_byte; lia). split_and!; done || lia.
Qed.

Definition utf8_text (cs : list Z) : list Z := concat (map WRITE_UTF8 cs).
Lemma text_lead cs : Forall valid_cp cs -> is_cont (zat (utf8_text cs) 0) = false.
Proof.
  destruct 1 as [|c cs Hc Hcs]; [reflexivity|]. unfold utf8_text. cbn [map concat].
  by destruct (write_lead c (concat (map WRITE_UTF8 cs)) Hc) as (_ & _ & _ & _ & H & _).
Qed.

Lemma utf8_to_text write cs : Forall valid_cp cs -> forall k, (length (utf8_text cs) <= k)%nat ->
  utf8_to k write (utf8_text cs) = concat (map write cs).
Proof.
  induction 1 as [|c cs Hc Hcs IH]; intros k Hk; [by destruct k|].
  unfold utf8_text in *. cbn [map concat] in *. rewrite length_app in Hk.
  destruct (write_lead c (concat (map WRITE_UTF8 cs)) Hc) as (b & t & E & _ & _ & _).
  destruct k as [|k]; [rewrite E in Hk; simpl in Hk; lia|].
  assert (utf8_to (S k) write (WRITE_UTF8 c ++ concat (map WRITE_UTF8 cs)) =
    let '(c, z) := READ_UTF8 (WRITE_UTF8 c ++ concat (map WRITE_UTF8 cs)) in write c ++ utf8_to k write z) as ->
    by (rewrite E; reflexivity).
  rewrite read_write by (done || by apply text_lead). f_equal. apply IH.
  rewrite E in Hk. simpl in Hk. lia.
Qed.

(** *** UTF-16 *)

Lemma utf16_parts c : valid_cp c ->
  utf16_units c =
  (if c <=? 0xffff then [(c mod 256, c / 256)]
   else let d := c - 0x10000 in
     [(d / 1024 mod 256, 0xd8 + d / 262144); (d mod 256, 0xdc + d / 256 mod 4)]).
Proof.
  intros (Hr & _). unfold utf16_units. cbv zeta.
  destruct (c <=? 0xffff) eqn:E; breflect.
  - utf_arith. apply cons_eq; [|done]. apply pair_equal_spec; split; Z.to_euclidean_division_equations; lia.
  - assert (Z.land (Z.shiftr (u32 (c - 0x10000)) 10) 0xc0 = 64 * ((c - 0x10000) / 65536 mod 4)) as ->.
    { rewrite wrapu_small by (change (2 ^ 32) with 4294967296; lia).
      assert (0 <= c - 0x10000 < 2 ^ 32) as Hb by lia. generalize dependent (c - 0x10000). intros d Hb.
      assert (Z.land (Z.shiftr d 10) 192 = Z.shiftl (Z.land (Z.shiftr d 16) 3) 6) as ->
        by (clear - Hb; bitblast).
      change 3 with (Z.ones 2). rewrite Z.land_ones, Z.shiftr_div_pow2, Z.shiftl_mul_pow2 by lia.
      change (2 ^ 16) with 65536. change (2 ^ 2) with 4. change (2 ^ 6) with 64. lia. }
    change 0x03 with (Z.ones 2). utf_arith. change (2 ^ 2) with 4.
    repeat (apply cons_eq); try done; f_equal; Z.to_euclidean_division_equations; lia.
Qed.

(** The bytes of one unit in the chosen order. *)
Definition unit_bytes (be : bool) (lh : Z * Z) : list Z := if be then [lh.2; lh.1] else [lh.1; lh.2].

Definition write16 (be : bool) : Z -> list Z := if be then WRITE_UTF16BE else WRITE_UTF16LE.

Lemma write16_units be c : write16 be c = concat (map (unit_bytes be) (utf16_units c)).
Proof. by destruct be. Qed.

Lemma unit_of_bytes be lo hi z : 0 <= lo < 256 -> 0 <= hi < 256 ->
  exists b1 b2, unit_bytes be (lo, hi) ++ z = b1 :: b2 :: z /\ unit_of be b1 b2 = 256 * hi + lo.
Proof.
  intros Hl Hh. destruct be; do 2 eexists; (split; [reflexivity|]); unfold unit_of; cbn [fst snd];
    rewrite Z.shiftl_mul_pow2 by lia; change (2 ^ 8) with 256; [|lia].
  rewrite wrapu_small by (change (2 ^ 32) with 4294967296; lia). lia.
Qed.

Lemma surrogate_value a b : 0 <= a < 1024 -> 0 <= b < 1024 ->
  u32 (Z.land (0xdc00 + b) 0x03ff + Z.shiftl (Z.land (0xd800 + a) 0x003f) 10 +
       Z.shiftl (Z.land (0xd800 + a) 0x03c0 + 0x0040) 10) = 0x10000 + 1024 * a + b.
Proof.
  intros Ha Hb.
  assert (Z.land (0xdc00 + b) 0x3ff = b) as ->.
  { change 0x3ff with (Z.ones 10). rewrite Z.land_ones by lia. change (2 ^ 10) with 1024.
    Z.to_euclidean_division_equations; lia. }
  assert (Z.land (0xd800 + a) 0x3f = a mod 64) as ->.
  { change 0x3f with (Z.ones 6). rewrite Z.land_ones by lia. change (2 ^ 6) with 64.
    Z.to_euclidean_division_equations; lia. }
  assert (Z.land (0xd800 + a) 0x3c0 = 64 * (a / 64)) as ->.
  { assert (0 <= 0xd800 + a < 2 ^ 16) as Hr by lia.
    assert (Z.land (0xd800 + a) 0x3c0 = 64 * ((0xd800 + a) / 64 mod 16)) as ->.
    { generalize dependent (0xd800 + a). intros d Hd.
      assert (Z.land d 0x3c0 = Z.shiftl (Z.land (Z.shiftr d 6) 15) 6) as -> by (clear - Hd; bitblast).
      change 15 with (Z.ones 4). rewrite Z.land_ones, Z.shiftr_div_pow2, Z.shiftl_mul_pow2 by lia.
      change (2 ^ 6) with 64. change (2 ^ 4) with 16. lia. }
    Z.to_euclidean_division_equations; lia. }
  rewrite !Z.shiftl_mul_pow2 by lia. change (2 ^ 10) with 1024.
  rewrite wrapu_small by (change (2 ^ 32) with 4294967296; Z.to_euclidean_division_equations; lia).
  Z.to_euclidean_division_equations; lia.
Qed.

Lemma read16_write be c rest : valid_cp c -> read_utf16 be (write16 be c ++ rest) = (c, rest).
Proof.
  intros Hv. pose proof Hv as (Hr & Hs & _). rewrite write16_units, utf16_parts by done.
  destruct (c <=? 0xffff) eqn:E; breflect; cbv zeta; cbn [map concat]; rewrite <- !app_assoc, app_nil_l.
  - destruct (unit_of_bytes be (c mod 256) (c / 256) rest) as (b1 & b2 & -> & Hu);
      [Z.to_euclidean_division_equations; lia..|].
    cbn [read_utf16]. rewrite Hu, <- Z.div_mod by lia.
    destruct (Z.leb_spec 0xd800 c), (Z.ltb_spec c 0xe000); try done; lia.
  - set (d := c - 0x10000). assert (0 <= d < 0x100000) as Hd by lia.
    destruct (unit_of_bytes be (d mod 256) (0xdc + d / 256 mod 4) rest) as (b3 & b4 & -> & Hu2);
      [Z.to_euclidean_division_equations; lia..|].
    destruct (unit_of_bytes be (d / 1024 mod 256) (0xd8 + d / 262144) (b3 :: b4 :: rest))
      as (b1 & b2 & -> & Hu1); [Z.to_euclidean_division_equations; lia..|].
    cbn [read_utf16]. rewrite Hu1, Hu2.
    replace (256 * (0xd8 + d / 262144) + d / 1024 mod 256) with (0xd800 + d / 1024)
      by (Z.to_euclidean_division_equations; lia).
    replace (256 * (0xdc + d / 256 mod 4) + d mod 256) with (0xdc00 + d mod 1024)
      by (Z.to_euclidean_division_equations; lia).
    assert (0 <= d / 1024 < 1024) by (Z.to_euclidean_division_equations; lia).
    rewrite (proj2 (Z.leb_le 0xd800 _)), (proj2 (Z.ltb_lt _ 0xe000)) by lia. cbn [andb].
    rewrite surrogate_value by (lia || (apply Z.mod_pos_bound; lia)).
    f_equal. unfold d in *. pose proof (Z.div_mod (c - 0x10000) 1024). lia.
Qed.

Lemma write16_len be c : exists n, length (write16 be c) = (2 * S n)%nat /\ (n <= 1)%nat.
Proof.
  rewrite write16_units. unfold utf16_units. destruct (c <=? 0xffff); [exists 0%nat|exists 1%nat];
    destruct be; cbn; lia.
Qed.

Definition utf16_text (be : bool) (cs : list Z) : list Z := concat (map (write16 be) cs).

Lemma utf16_text_even be cs : Z.of_nat (length (utf16_text be cs)) mod 2 = 0.
Proof.
  induction cs as [|c cs IH]; [done|]. unfold utf16_text in *. cbn [map concat]. rewrite length_app.
  destruct (write16_len be c) as (n & -> & _). Z.to_euclidean_division_equations; lia.
Qed.

Lemma write_utf8_len c : (1 <= length (WRITE_UTF8 c) <= 4)%nat /\ (c <= 0xffff -> (length (WRITE_UTF8 c) <= 3)%nat).
Proof.
  unfold WRITE_UTF8. destruct (c <? 0x80) eqn:E1; [cbn; lia|]. destruct (c <? 0x800) eqn:E2; [cbn; lia|].
  destruct (c <? 0x10000) eqn:E3; breflect; cbn; lia.
Qed.

Lemma utf16_to8_text be cs : Forall valid_cp cs -> forall k, (length (utf16_text be cs) <= k)%nat ->
  utf16_to8 k be (utf16_text be cs) = utf8_text cs.
Proof.
  induction 1 as [|c cs Hc Hcs IH]; intros k Hk; [by destruct k|].
  unfold utf16_text, utf8_text in *. cbn [map concat] in *. rewrite length_app in Hk.
  destruct (write16_len be c) as (n & Hn & _).
  pose proof (read16_write be c (concat (map (write16 be) cs)) Hc) as Hr.
  destruct k as [|k]; [lia|].
  destruct (write16 be c) as [|b t] eqn:E; [cbn in Hn; lia|].
  cbn [app] in *. cbn [utf16_to8]. rewrite Hr. f_equal. apply IH. cbn in Hk, Hn. lia.
Qed.

Lemma even_prefix {A} (z : list A) : Z.of_nat (length z) mod 2 = 0 ->
  take (Z.to_nat (Z.ldiff (zlen z) 1)) z = z.
Proof.
  intros H. apply take_ge. unfold zlen. change 1 with (Z.ones 1). rewrite Z.ldiff_ones_r by lia.
  rewrite Z.shiftr_div_pow2, Z.shiftl_mul_pow2 by lia. change (2 ^ 1) with 2.
  pose proof (Z.div_mod (Z.of_nat (length z)) 2). lia.
Qed.

Lemma swap_units be us z :
  swap_bytes (concat (map (unit_bytes be) us) ++ z) = concat (map (unit_bytes (negb be)) us) ++ swap_bytes z.
Proof. induction us as [|[l h] us IH]; [done|]. destruct be; cbn in *; by rewrite IH. Qed.

Lemma swap_text be cs : swap_bytes (utf16_text be cs) = utf16_text (negb be) cs.
Proof.
  unfold utf16_text. induction cs as [|c cs IH]; [done|]. cbn [map concat].
  by rewrite !write16_units, swap_units, IH.
Qed.

Lemma skip_written c rest : valid_cp c -> is_cont (zat rest 0) = false ->
  SQLITE_SKIP_UTF8 (WRITE_UTF8 c ++ rest) = rest.
Proof.
  intros Hv Hr. pose proof Hv as (Hc & _).
  assert (forall z, is_cont (zat z 0) = false -> skip_tail z = z) as Hstop.
  { intros [|b z]; [done|]. unfold is_cont. change (zat (b :: z) 0) with b. cbn [skip_tail]. by intros ->. }
  assert (forall y z, 0 <= y < 64 -> skip_tail (128 + y :: z) = skip_tail z) as Hstep.
  { intros y z Hy. cbn [skip_tail]. by destruct (cont_byte y Hy) as [-> _]. }
  assert (forall x, 0 <= x mod 64 < 64) as Hm by (intros; apply Z.mod_pos_bound; lia).
  assert (forall n, 0 < n -> 0 <= c / n) as Hp by (intros; apply Z.div_pos; lia).
  rewrite write_utf8_parts by done.
  destruct (c <? 0x80) eqn:E1; [|destruct (c <? 0x800); [|destruct (c <? 0x10000)]]; breflect;
    unfold SQLITE_SKIP_UTF8; cbn [app tl];
    match goal with |- context [zat (?x :: _) 0] => change (zat (x :: _) 0) with x end.
  - by rewrite (proj2 (Z.leb_gt _ _)) by lia.
  - specialize (Hp 64). rewrite (proj2 (Z.leb_le _ _)), !Hstep by (done || lia). by apply Hstop.
  - specialize (Hp 4096). rewrite (proj2 (Z.leb_le _ _)), !Hstep by (done || lia). by apply Hstop.
  - specialize (Hp 262144). rewrite (proj2 (Z.leb_le _ _)), !Hstep by (done || lia). by apply Hstop.
Qed.

Lemma charlen_text cs : Forall (fun c => valid_cp c /\ c <> 0) cs -> forall k r,
  (length (utf8_text cs) <= k)%nat -> charlen_loop k (utf8_text cs) None r = r + zlen cs.
Proof.
  induction 1 as [|c cs [Hc H0] Hcs IH]; intros k r Hk; [destruct k; cbn; by rewrite Z.add_0_r|].
  assert (Forall valid_cp cs) as Hv by (eapply Forall_impl; [exact Hcs|]; by intros ? []).
  unfold utf8_text in *. cbn [map concat] in *. rewrite length_app in Hk.
  destruct (write_lead c (concat (map WRITE_UTF8 cs)) Hc) as (b & t & E & _ & _ & Hb).
  pose proof (skip_written c (concat (map WRITE_UTF8 cs)) Hc (text_lead cs Hv)) as Hs.
  rewrite E in Hk, Hs |- *. destruct k as [|k]; [simpl in Hk; lia|]. cbn [app] in *. cbn [charlen_loop].
  change (zat (b :: _) 0) with b. rewrite (proj2 (Z.eqb_neq b 0)) by tauto. cbn [negb andb].
  rewrite Hs, IH by (simpl in Hk; lia). unfold zlen. cbn [length]. lia.
Qed.

(** *** The output buffer *)

Lemma utf8_tail_bound z c m : 0 <= c -> forall c' z', utf8_tail z c = (c', z') ->
  c < 32 * 64 ^ Z.of_nat m -> (length z' <= length z)%nat /\
  c' < 32 * 64 ^ Z.of_nat (m + (length z - length z')).
Proof.
  revert c m. induction z as [|b z IH]; intros c m Hc c' z' H Hm; cbn [utf8_tail] in H.
  - simplify_eq. split; [done|]. by rewrite Nat.sub_diag, Nat.add_0_r.
  - destruct (Z.land b 0xc0 =? 0x80).
    + assert (0 <= Z.land 0x3f b < 64) as Hl.
      { rewrite Z.land_comm. change 0x3f with (Z.ones 6). rewrite Z.land_ones by lia. apply Z.mod_pos_bound. lia. }
      assert (0 <= u32 (u32 (Z.shiftl c 6) + Z.land 0x3f b) <= 64 * c + Z.land 0x3f b) as Hu.
      { rewrite Z.shiftl_mul_pow2 by lia. unfold wrapu. change (2 ^ 6) with 64. split.
        { apply Z.mod_pos_bound. lia. }
        etransitivity; [apply Z.mod_le; [|lia]; pose proof (Z.mod_pos_bound (c * 64) (2 ^ 32)); lia|].
        pose proof (Z.mod_le (c * 64) (2 ^ 32)). lia. }
      assert (0 <= u32 (u32 (Z.shiftl c 6) + Z.land 0x3f b)) as H0 by lia.
      destruct (IH _ (S m) H0 _ _ H) as [H1 H2].
      { rewrite Nat2Z.inj_succ, Z.pow_succ_r by lia. lia. }
      split; [cbn; lia|]. cbn [length]. replace (m + (S (length z) - length z'))%nat
        with (S m + (length z - length z'))%nat by lia. done.
    + simplify_eq. split; [done|]. by rewrite Nat.sub_diag, Nat.add_0_r.
Qed.

(** A character read takes at least one byte, and one above U+FFFF takes at least two. *)
Lemma read_consumes b z c z' : Forall is_byte (b :: z) -> READ_UTF8 (b :: z) = (c, z') ->
  (length z' <= length z)%nat /\ (0xffff < c -> (length z' < length z)%nat).
Proof.
  intros Hb. apply Forall_cons in Hb as [Hb _]. unfold is_byte in Hb. unfold READ_UTF8. cbn [tl].
  change (zat (b :: z) 0) with b. destruct (0xc0 <=? b) eqn:Eb; breflect; [|intros; simplify_eq; lia].
  assert (0 <= zat sqlite3Utf8Trans1 (b - 0xc0) < 32) as Ht.
  { pose proof (proj1 (forallb_forall (fun k => (0 <=? zat sqlite3Utf8Trans1 (Z.of_nat k)) &&
      (zat sqlite3Utf8Trans1 (Z.of_nat k) <? 32)) (seq 0 64)) ltac:(vm_compute; reflexivity)
      (Z.to_nat (b - 0xc0)) ltac:(apply in_seq; lia)) as H.
    cbv beta in H. rewrite Z2Nat.id in H by lia. breflect. lia. }
  destruct (utf8_tail z _) as [c1 z1] eqn:E. intros; simplify_eq.
  destruct (utf8_tail_bound z (zat sqlite3Utf8Trans1 (b - 0xc0)) 0 ltac:(lia) _ _ E
    ltac:(change (64 ^ Z.of_nat 0) with 1; lia)) as [H1 H2].
  split; [done|]. intros Hc. destruct (decide (length z' = length z)) as [Heq|]; [|lia].
  rewrite Heq, Nat.sub_diag in H2. change (64 ^ Z.of_nat (0 + 0)) with 1 in H2.
  unfold utf8_fix in Hc. destruct (_ || _); lia.
Qed.

Lemma utf8_tail_suffix z c : exists p, z = p ++ (utf8_tail z c).2.
Proof.
  revert c. induction z as [|b z IH]; intros c; [by exists []|]. cbn [utf8_tail].
  case_if; [|by exists []]. destruct (IH (u32 (u32 (Z.shiftl c 6) + Z.land 0x3f b))) as (p & Hp).
  exists (b :: p). cbn [app]. by f_equal.
Qed.

Lemma read_suffix b z : exists p, z = p ++ (READ_UTF8 (b :: z)).2.
Proof.
  unfold READ_UTF8. cbn [tl]. case_if; [|by exists []].
  destruct (utf8_tail_suffix z (zat sqlite3Utf8Trans1 (zat (b :: z) 0 - 0xc0))) as (p & Hp). exists p.
  by destruct (utf8_tail z _).
Qed.

Lemma utf8_to_fits be : forall k z, Forall is_byte z -> (length (utf8_to k (write16 be) z) <= 2 * length z)%nat.
Proof.
  induction k as [|k IH]; intros [|b z] Hz; [cbn; lia..|].
  assert (utf8_to (S k) (write16 be) (b :: z) =
    let '(c, z) := READ_UTF8 (b :: z) in write16 be c ++ utf8_to k (write16 be) z) as -> by reflexivity.
  destruct (READ_UTF8 (b :: z)) as [c z'] eqn:E. rewrite length_app.
  destruct (read_consumes b z c z' Hz E) as [H1 H2].
  destruct (read_suffix b z) as (p & Hp). rewrite E in Hp. cbn [snd] in Hp.
  assert (Forall is_byte z') as Hz'.
  { apply Forall_cons in Hz as [_ Hz]. rewrite Hp in Hz. by apply Forall_app in Hz as [_ Hz]. }
  specialize (IH z' Hz').
  rewrite write16_units. unfold utf16_units. destruct (c <=? 0xffff) eqn:Ec; breflect; destruct be; cbn [map concat unit_bytes app length]; lia.
Qed.

(** A unit of UTF-16 is at most U+FFFF; anything larger took two units. *)
Lemma read16_consumes be b1 b2 z c z' : is_byte b1 -> is_byte b2 -> read_utf16 be (b1 :: b2 :: z) = (c, z') ->
  (z' = z /\ c <= 0xffff) \/ exists b3 b4, z = b3 :: b4 :: z'.
Proof.
  unfold is_byte. intros H1 H2. cbn [read_utf16].
  assert (unit_of be b1 b2 <= 0xffff) as Hu.
  { unfold unit_of. destruct be; rewrite Z.shiftl_mul_pow2 by lia; change (2 ^ 8) with 256; [|lia].
    rewrite wrapu_small by (change (2 ^ 32) with 4294967296; lia). lia. }
  case_if; [|intros; simplify_eq; by left].
  destruct z as [|b3 [|b4 z]]; intros; simplify_eq; [by left..|]. right. by exists b3, b4.
Qed.

Lemma utf16_to8_fits be : forall k z, Forall is_byte z -> (length (utf16_to8 k be z) <= 2 * length z)%nat.
Proof.
  induction k as [|k IH]; intros [|b1 z] Hz; [cbn; lia..|]. cbn [utf16_to8].
  destruct (read_utf16 be (b1 :: z)) as [c z'] eqn:E. rewrite length_app.
  destruct (write_utf8_len c) as [H4 H3].
  destruct z as [|b2 z]; [cbn in E; simplify_eq; destruct k; cbn; lia|].
  apply Forall_cons in Hz as [Hb1 Hz]. apply Forall_cons in Hz as [Hb2 Hz].
  destruct (read16_consumes be b1 b2 z c z' Hb1 Hb2 E) as [[-> Hc]|(b3 & b4 & ->)].
  - specialize (IH z Hz). specialize (H3 Hc). cbn [length]. lia.
  - apply Forall_cons in Hz as [_ Hz]. apply Forall_cons in Hz as [_ Hz]. specialize (IH z' Hz). cbn [length]. lia.
Qed.

Lemma swap_length z : length (swap_bytes z) = length z.
Proof.
  enough (forall n z, (length z <= n)%nat -> length (swap_bytes z) = length z) as H by (by eapply H).
  clear z. induction n as [|n IH]; intros [|a [|b z]] Hn; try done; cbn [length] in *; [lia|].
  cbn [swap_bytes length]. rewrite IH by lia. done.
Qed.

(** Fuel beyond the length of the text changes nothing. *)
Lemma utf8_to_fuel write z : forall k, (length z <= k)%nat -> utf8_to k write z = utf8_to (length z) write z.
Proof.
  enough (forall n z, (length z <= n)%nat -> forall k, (length z <= k)%nat ->
    utf8_to k write z = utf8_to (length z) write z) as H by (by eapply H).
  clear z. induction n as [|n IH]; intros [|b z] Hn k Hk; cbn [length] in *; [by destruct k|lia|by destruct k|].
  destruct k as [|k]; [lia|].
  assert (forall k, utf8_to (S k) write (b :: z) =
    let '(c, z) := READ_UTF8 (b :: z) in write c ++ utf8_to k write z) as Hs by reflexivity.
  rewrite !Hs. destruct (read_suffix b z) as (p & Hp). destruct (READ_UTF8 (b :: z)) as [c z'].
  cbn [snd] in Hp. assert (length z = length p + length z')%nat as Hl by (rewrite Hp at 1; apply length_app).
  by rewrite (IH z' ltac:(lia) k ltac:(lia)), (IH z' ltac:(lia) (length z) ltac:(lia)).
Qed.

Definition utf16_enc (be : bool) : Z := if be then SQLITE_UTF16BE else SQLITE_UTF16LE.

(** ** Properties *)

(** C37: translation between the encodings loses nothing.  For a text of valid characters,
    translating its UTF-8 bytes to UTF-16 of either byte order gives exactly that encoding of the
    same characters, surrogate pairs included; translating those back gives the UTF-8 bytes;
    going from one byte order to the other gives the other order's bytes; and when no character
    is NUL, [sqlite3Utf8CharLen] counts the characters. *)
Theorem translate_roundtrip (be : bool) cs : Forall valid_cp cs ->
  sqlite3VdbeMemTranslate SQLITE_UTF8 (utf16_enc be) (utf8_text cs) = utf16_text be cs /\
  sqlite3VdbeMemTranslate (utf16_enc be) SQLITE_UTF8 (utf16_text be cs) = utf8_text cs /\
  sqlite3VdbeMemTranslate (utf16_enc be) (utf16_enc (negb be)) (utf16_text be cs) = utf16_text (negb be) cs /\
  (~ In 0 cs -> sqlite3Utf8CharLen (utf8_text cs) (-1) = zlen cs).
Proof.
  intros Hv. split_and!.
  - pose proof (utf8_to_text (write16 be) cs Hv (length (utf8_text cs)) (Nat.le_refl _)) as H.
    by destruct be.
  - unfold sqlite3VdbeMemTranslate. destruct be; cbn [utf16_enc Z.eqb negb andb];
      rewrite even_prefix by apply utf16_text_even; by apply utf16_to8_text.
  - rewrite <- swap_text. by destruct be.
  - intros H0. unfold sqlite3Utf8CharLen. cbn [Z.leb]. rewrite charlen_text; [done| |done].
    apply Forall_forall. intros c Hc. rewrite Forall_forall in Hv. split; [by apply Hv|].
    intros ->. apply H0. by apply list_elem_of_In.
Qed.

Lemma translate_roundtrip_witness :
  let cs := [65; 0xe9; 0x20ac; 0x1f600; 0x10ffff] in
  sqlite3VdbeMemTranslate SQLITE_UTF8 SQLITE_UTF16BE (utf8_text cs) = utf16_text true cs /\
  utf16_text true cs = [0; 65; 0; 0xe9; 0x20; 0xac; 0xd8; 0x3d; 0xde; 0; 0xdb; 0xff; 0xdf; 0xff].
Proof.
  split; [|vm_compute; reflexivity]. refine (proj1 (translate_roundtrip true _ _)).
  repeat (apply Forall_cons_2; [unfold valid_cp; lia|]). apply Forall_nil_2.
Defined.

(** C38: the translation stays inside its output buffer.  Whatever the bytes of the value,
    malformed text included, the result is at most twice as long as the input, which with the
    terminator is what the routine allocates ([len]); a change of byte order keeps the length;
    and the reading loop is over within one round per byte. *)
Theorem translate_fits enc desiredEnc z : Forall is_byte z ->
  zlen (sqlite3VdbeMemTranslate enc desiredEnc z) <= 2 * zlen z /\
  (enc <> SQLITE_UTF8 -> desiredEnc <> SQLITE_UTF8 ->
   zlen (sqlite3VdbeMemTranslate enc desiredEnc z) = zlen z) /\
  (forall k write, (length z <= k)%nat -> utf8_to k write z = utf8_to (length z) write z).
Proof.
  intros Hz. split; [|split; [|by intros; apply utf8_to_fuel]]; revert z Hz.
  - intros z Hz. unfold sqlite3VdbeMemTranslate, zlen.
    pose proof (utf8_to_fits (negb (desiredEnc =? SQLITE_UTF16LE)) (length z) z Hz) as H8.
    set (k := Z.to_nat (Z.ldiff (Z.of_nat (length z)) 1)).
    pose proof (utf16_to8_fits (negb (enc =? SQLITE_UTF16LE)) (length (take k z)) (take k z)
      (Forall_take _ _ _ Hz)) as H16. rewrite length_take in H16 at 2.
    destruct (enc =? SQLITE_UTF8), (desiredEnc =? SQLITE_UTF8); cbn [negb andb]; rewrite ?swap_length; try lia;
      destruct (desiredEnc =? SQLITE_UTF16LE); cbn [negb] in *; unfold write16 in *; lia.
  - intros z Hz He Hd. unfold sqlite3VdbeMemTranslate, zlen.
    rewrite !(proj2 (Z.eqb_neq _ _)) by done. cbn [negb andb]. by rewrite swap_length.
Qed.

Lemma translate_fits_witness :
  zlen (sqlite3VdbeMemTranslate SQLITE_UTF8 SQLITE_UTF16LE [0xff; 0xbf; 0xbf; 0xbf; 0xbf; 65]) <= 12 /\
  sqlite3VdbeMemTranslate SQLITE_UTF16LE SQLITE_UTF8 [0x41; 0xd8; 0x41] = [0xed; 0xa1; 0x81].
Proof.
  split; [|vm_compute; reflexivity].
  apply (translate_fits SQLITE_UTF8 SQLITE_UTF16LE [0xff; 0xbf; 0xbf; 0xbf; 0xbf; 65]).
  repeat (apply Forall_cons_2; [unfold is_byte; lia|]). apply Forall_nil_2.
Defined.
