(* ===== verification/UnixLock.v ===== *)
(** * File locks (os_unix.c of sqlite3.c)

    The POSIX-advisory locking of the "unix" VFS: [unixLock], [posixUnlock], [unixClose] and the
    inode record the connections of one process share.  A routine is a program over two system
    calls, [fcntl(F_SETLK)] and [close], so that other processes can run between any two calls;
    within a process the routines run under the mutex of the inode.  One database file is
    considered: the list of inodes of a process is at most the record of that file.

    [closePendingFds] closes a number of descriptors, so the list [pUnused] is that number. *)

From S2P Require Import Prelude.
From stdpp Require Import options.

Definition NO_LOCK : Z := 0.
Definition SHARED_LOCK : Z := 1.
Definition RESERVED_LOCK : Z := 2.
Definition PENDING_LOCK : Z := 3.
Definition EXCLUSIVE_LOCK : Z := 4.

Definition PENDING_BYTE : Z := 0x40000000.
Definition RESERVED_BYTE : Z := PENDING_BYTE + 1.
Definition SHARED_FIRST : Z := PENDING_BYTE + 2.
Definition SHARED_SIZE : Z := 510.

Definition SQLITE_OK : Z := 0.
Definition SQLITE_PERM : Z := 3.
Definition SQLITE_BUSY : Z := 5.
Definition SQLITE_IOERR_UNLOCK : Z := 10 + Z.shiftl 8 8.
Definition SQLITE_IOERR_RDLOCK : Z := 10 + Z.shiftl 9 8.
Definition SQLITE_IOERR_LOCK : Z := 10 + Z.shiftl 15 8.

(** ** System calls *)

(** [l_type] of a [struct flock]. *)
Inductive ltype := F_UNLCK | F_RDLCK | F_WRLCK.

#[export] Instance ltype_eq_dec : EqDecision ltype.
Proof. solve_decision. Defined.

(** A program: [fcntl(F_SETLK)] answers 0 or the error number; [close] drops the descriptor. *)
Inductive lprog (A : Type) :=
  | PRet (a : A)
  | PFcntl (l_start l_len : Z) (l_type : ltype) (k : Z -> lprog A)
  | PClose (k : lprog A).

Arguments PRet {A} a.
Arguments PFcntl {A} l_start l_len l_type k.
Arguments PClose {A} k.

Fixpoint lbind {A B} (m : lprog A) (f : A -> lprog B) : lprog B :=
  match m with
  | PRet a => f a
  | PFcntl s l t k => PFcntl s l t (fun e => lbind (k e) f)
  | PClose k => PClose (lbind k f)
  end.

Declare Scope lprog_scope.
Delimit Scope lprog_scope with lprog.
Notation "'let?' x := m 'in' k" := (lbind m (fun x => k))
  (at level 10, x pattern, m at level 100, k at level 200) : lprog_scope.
Open Scope lprog_scope.

Definition EPERM : Z := 1.
Definition EINTR : Z := 4.
Definition EAGAIN : Z := 11.
Definition EACCES : Z := 13.
Definition EBUSY : Z := 16.
Definition ENOLCK : Z := 37.
Definition ETIMEDOUT : Z := 110.

Definition sqliteErrorFromPosixError (posixError sqliteIOErr : Z) : Z :=
  if (posixError =? EACCES) || (posixError =? EAGAIN) || (posixError =? ETIMEDOUT)
     || (posixError =? EBUSY) || (posixError =? EINTR) || (posixError =? ENOLCK) then SQLITE_BUSY
  else if posixError =? EPERM then SQLITE_PERM
  else sqliteIOErr.

(** ** State *)

Record unixInodeInfo := mkInode {
  nShared : Z;
  nLock : Z;
  i_eFileLock : Z;
  bProcessLock : bool;
  nUnused : nat;
  nRef : Z
}.

Record unixFile := mkFile {
  f_eFileLock : Z;
  f_excl : bool;       (** [UNIXFILE_EXCL] *)
  f_rdonly : bool;     (** [UNIXFILE_RDONLY] *)
  f_shm : bool;        (** [pShm!=0] *)
  f_open : bool;       (** [h>=0] *)
  f_lastErrno : Z
}.

Definition set_ilock (i : unixInodeInfo) (e : Z) : unixInodeInfo :=
  mkInode (nShared i) (nLock i) e (bProcessLock i) (nUnused i) (nRef i).
Definition set_nshared (i : unixInodeInfo) (n : Z) : unixInodeInfo :=
  mkInode n (nLock i) (i_eFileLock i) (bProcessLock i) (nUnused i) (nRef i).
Definition set_nlock (i : unixInodeInfo) (n : Z) : unixInodeInfo :=
  mkInode (nShared i) n (i_eFileLock i) (bProcessLock i) (nUnused i) (nRef i).
Definition set_unused (i : unixInodeInfo) (n : nat) : unixInodeInfo :=
  mkInode (nShared i) (nLock i) (i_eFileLock i) (bProcessLock i) n (nRef i).
Definition set_nref (i : unixInodeInfo) (n : Z) : unixInodeInfo :=
  mkInode (nShared i) (nLock i) (i_eFileLock i) (bProcessLock i) (nUnused i) n.
Definition set_flock (f : unixFile) (e : Z) : unixFile :=
  mkFile e (f_excl f) (f_rdonly f) (f_shm f) (f_open f) (f_lastErrno f).
Definition set_fopen (f : unixFile) (b : bool) : unixFile :=
  mkFile (f_eFileLock f) (f_excl f) (f_rdonly f) (f_shm f) b (f_lastErrno f).
Definition storeLastErrno (f : unixFile) (e : Z) : unixFile :=
  mkFile (f_eFileLock f) (f_excl f) (f_rdonly f) (f_shm f) (f_open f) e.

(** ** Operations *)

(** The error number, 0 when the lock was set. *)
Definition unixFileLock (pInode : unixInodeInfo) (pFile : unixFile) (l_start l_len : Z) (l_type : ltype)
  : lprog (Z * unixInodeInfo) :=
  if f_excl pFile && negb (f_rdonly pFile) then
    if negb (bProcessLock pInode) then
      PFcntl SHARED_FIRST SHARED_SIZE F_WRLCK (fun errno =>
        if negb (errno =? 0) then PRet (errno, pInode)
        else PRet (0, mkInode (nShared pInode) (nLock pInode + 1) (i_eFileLock pInode) true
                        (nUnused pInode) (nRef pInode)))
    else PRet (0, pInode)
  else PFcntl l_start l_len l_type (fun errno => PRet (errno, pInode)).

Definition SQLITE_IOERR_CHECKRESERVEDLOCK : Z := 10 + Z.shiftl 14 8.

(** [getlk]: what [F_GETLK] answers about the reserved byte, 0 and the type of a lock in the way,
    or the error number.  The return code and [*pResOut]. *)
Definition unixCheckReservedLock (pInode : unixInodeInfo) (getlk : Z * ltype) : Z * Z :=
  if SHARED_LOCK <? i_eFileLock pInode then (SQLITE_OK, 1)
  else if negb (bProcessLock pInode) then
    let '(errno, l_type) := getlk in
    if negb (errno =? 0) then (SQLITE_IOERR_CHECKRESERVEDLOCK, 0)
    else if decide (l_type = F_UNLCK) then (SQLITE_OK, 0) else (SQLITE_OK, 1)
  else (SQLITE_OK, 0).

(** [held]: the answer of [F_GETLK] about the dead-man-switch byte of the shared memory file. *)
Definition unixIsSharingShmNode (pFile : unixFile) (held : bool) : bool :=
  if negb (f_shm pFile) then false
  else if f_excl pFile then false
  else held.

(** The error branch of a failed lock request. *)
Definition lock_failed (pInode : unixInodeInfo) (pFile : unixFile) (tErrno : Z)
  : Z * unixInodeInfo * unixFile :=
  let rc := sqliteErrorFromPosixError tErrno SQLITE_IOERR_LOCK in
  (rc, pInode, if negb (rc =? SQLITE_BUSY) then storeLastErrno pFile tErrno else pFile).

(** From "Now get the read-lock" to the end of that branch. *)
Definition lock_shared (pInode : unixInodeInfo) (pFile : unixFile)
  : lprog (Z * unixInodeInfo * unixFile) :=
  let? (tErrno, pInode) := unixFileLock pInode pFile SHARED_FIRST SHARED_SIZE F_RDLCK in
  let rc := if tErrno =? 0 then SQLITE_OK else sqliteErrorFromPosixError tErrno SQLITE_IOERR_LOCK in
  let? (err, pInode) := unixFileLock pInode pFile PENDING_BYTE 1 F_UNLCK in
  let '(rc, tErrno) :=
    if negb (err =? 0) && (rc =? SQLITE_OK) then (SQLITE_IOERR_UNLOCK, err) else (rc, tErrno) in
  PRet (
    if negb (rc =? SQLITE_OK) then
      (rc, pInode, if negb (rc =? SQLITE_BUSY) then storeLastErrno pFile tErrno else pFile)
    else
      (SQLITE_OK, set_ilock (set_nshared (set_nlock pInode (nLock pInode + 1)) 1) SHARED_LOCK,
       set_flock pFile SHARED_LOCK)).

(** The last two branches: RESERVED or EXCLUSIVE. *)
Definition lock_write (held : bool) (pInode : unixInodeInfo) (pFile : unixFile) (eFileLock : Z)
  : lprog (Z * unixInodeInfo * unixFile) :=
  if (eFileLock =? EXCLUSIVE_LOCK) && (1 <? nShared pInode) then PRet (SQLITE_BUSY, pInode, pFile)
  else if unixIsSharingShmNode pFile held then PRet (SQLITE_BUSY, pInode, pFile)
  else
    let '(l_start, l_len) :=
      if eFileLock =? RESERVED_LOCK then (RESERVED_BYTE, 1) else (SHARED_FIRST, SHARED_SIZE) in
    let? (tErrno, pInode) := unixFileLock pInode pFile l_start l_len F_WRLCK in
    PRet (if negb (tErrno =? 0) then lock_failed pInode pFile tErrno
          else (SQLITE_OK, set_ilock pInode eFileLock, set_flock pFile eFileLock)).

Definition unixLock (held : bool) (pInode : unixInodeInfo) (pFile : unixFile) (eFileLock : Z)
  : lprog (Z * unixInodeInfo * unixFile) :=
  if eFileLock <=? f_eFileLock pFile then PRet (SQLITE_OK, pInode, pFile)
  else if negb (f_eFileLock pFile =? i_eFileLock pInode)
          && ((PENDING_LOCK <=? i_eFileLock pInode) || (SHARED_LOCK <? eFileLock)) then
    PRet (SQLITE_BUSY, pInode, pFile)
  else if (eFileLock =? SHARED_LOCK)
          && ((i_eFileLock pInode =? SHARED_LOCK) || (i_eFileLock pInode =? RESERVED_LOCK)) then
    PRet (SQLITE_OK, set_nlock (set_nshared pInode (nShared pInode + 1)) (nLock pInode + 1),
          set_flock pFile SHARED_LOCK)
  else if eFileLock =? SHARED_LOCK then
    let? (tErrno, pInode) := unixFileLock pInode pFile PENDING_BYTE 1 F_RDLCK in
    if negb (tErrno =? 0) then PRet (lock_failed pInode pFile tErrno)
    else lock_shared pInode pFile
  else if (eFileLock =? EXCLUSIVE_LOCK) && (f_eFileLock pFile =? RESERVED_LOCK) then
    let? (tErrno, pInode) := unixFileLock pInode pFile PENDING_BYTE 1 F_WRLCK in
    if negb (tErrno =? 0) then PRet (lock_failed pInode pFile tErrno)
    else lock_write held (set_ilock pInode PENDING_LOCK) (set_flock pFile PENDING_LOCK) eFileLock
  else lock_write held pInode pFile eFileLock.

Fixpoint close_fds {A} (n : nat) (k : lprog A) : lprog A :=
  match n with O => k | S n => PClose (close_fds n k) end.

Definition closePendingFds (pInode : unixInodeInfo) : lprog unixInodeInfo :=
  close_fds (nUnused pInode) (PRet (set_unused pInode 0)).

(** The part of [posixUnlock] for a handle above SHARED: the code, and whether to go on. *)
Definition unlock_write (pInode : unixInodeInfo) (pFile : unixFile) (eFileLock : Z)
  : lprog (Z * unixInodeInfo * unixFile) :=
  let? (err, pInode) :=
    if eFileLock =? SHARED_LOCK then unixFileLock pInode pFile SHARED_FIRST SHARED_SIZE F_RDLCK
    else PRet (0, pInode) in
  if negb (err =? 0) then PRet (SQLITE_IOERR_RDLOCK, pInode, storeLastErrno pFile err)
  else
    let? (err, pInode) := unixFileLock pInode pFile PENDING_BYTE 2 F_UNLCK in
    PRet (if err =? 0 then (SQLITE_OK, set_ilock pInode SHARED_LOCK, pFile)
          else (SQLITE_IOERR_UNLOCK, pInode, storeLastErrno pFile err)).

(** The part for [NO_LOCK]. *)
Definition unlock_shared (pInode : unixInodeInfo) (pFile : unixFile)
  : lprog (Z * unixInodeInfo * unixFile) :=
  let pInode := set_nshared pInode (nShared pInode - 1) in
  let? (rc, pInode, pFile) :=
    if nShared pInode =? 0 then
      let? (err, pInode) := unixFileLock pInode pFile 0 0 F_UNLCK in
      PRet (if err =? 0 then (SQLITE_OK, set_ilock pInode NO_LOCK, pFile)
            else (SQLITE_IOERR_UNLOCK, set_ilock pInode NO_LOCK, set_flock (storeLastErrno pFile err) NO_LOCK))
    else PRet (SQLITE_OK, pInode, pFile) in
  let pInode := set_nlock pInode (nLock pInode - 1) in
  let? pInode := if nLock pInode =? 0 then closePendingFds pInode else PRet pInode in
  PRet (rc, pInode, pFile).

Definition posixUnlock (pInode : unixInodeInfo) (pFile : unixFile) (eFileLock : Z)
  : lprog (Z * unixInodeInfo * unixFile) :=
  if f_eFileLock pFile <=? eFileLock then PRet (SQLITE_OK, pInode, pFile)
  else
    let? (rc, pInode, pFile) :=
      if SHARED_LOCK <? f_eFileLock pFile then unlock_write pInode pFile eFileLock
      else PRet (SQLITE_OK, pInode, pFile) in
    if negb (rc =? SQLITE_OK) then PRet (rc, pInode, pFile)
    else
      let? (rc, pInode, pFile) :=
        if eFileLock =? NO_LOCK then unlock_shared pInode pFile else PRet (SQLITE_OK, pInode, pFile) in
      PRet (rc, pInode, if rc =? SQLITE_OK then set_flock pFile eFileLock else pFile).

Definition unixUnlock := posixUnlock.

(** [findInodeInfo] for the one file: the record found, or a new one. *)
Definition findInodeInfo (inodeList : option unixInodeInfo) : unixInodeInfo :=
  match inodeList with
  | None => mkInode 0 0 NO_LOCK false 0 1
  | Some pInode => set_nref pInode (nRef pInode + 1)
  end.

Definition setPendingFd (pInode : unixInodeInfo) (pFile : unixFile) : unixInodeInfo * unixFile :=
  (set_unused pInode (S (nUnused pInode)), set_fopen pFile false).

Definition releaseInodeInfo (pInode : unixInodeInfo) : lprog (option unixInodeInfo) :=
  let pInode := set_nref pInode (nRef pInode - 1) in
  if nRef pInode =? 0 then let? _ := closePendingFds pInode in PRet None
  else PRet (Some pInode).

(** [unixClose] in three parts: [unixUnlock]; then, under the mutex of the inode again, the
    decision to keep the descriptor; then the rest, outside that mutex. *)
Definition close_decide (pInode : unixInodeInfo) (pFile : unixFile) : unixInodeInfo * unixFile :=
  if negb (nLock pInode =? 0) then setPendingFd pInode pFile else (pInode, pFile).

Definition close_finish (pInode : unixInodeInfo) (pFile : unixFile) : lprog (option unixInodeInfo) :=
  let? inodeList := releaseInodeInfo pInode in
  if f_open pFile then PClose (PRet inodeList) else PRet inodeList.

Definition unixClose (pInode : unixInodeInfo) (pFile : unixFile) : lprog (option unixInodeInfo) :=
  let? (_, pInode, pFile) := unixUnlock pInode pFile NO_LOCK in
  let '(pInode, pFile) := close_decide pInode pFile in
  close_finish pInode pFile.

(** ** The operating system *)

(** What a process holds on each byte of the file. *)
Definition hold := Z -> ltype.

Definition in_range (l_start l_len b : Z) : bool := (l_start <=? b) && ((l_len =? 0) || (b <? l_start + l_len)).

Definition set_range (h : hold) (l_start l_len : Z) (t : ltype) : hold :=
  fun b => if in_range l_start l_len b then t else h b.

(** Advisory locks of one file, by process. *)
Class PosixLocks (K : Type) := {
  held : K -> nat -> hold;
  setlk : K -> nat -> Z -> Z -> ltype -> Z * K;
  closefd : K -> nat -> K;
  kvalid : K -> Prop
}.

(** The documented behaviour: a granted request changes exactly the bytes asked for, a refused
    one nothing; a write lock excludes every lock of another process; closing any descriptor
    drops all locks of the process on the file.  Unlocking is not refused. *)
Class PosixLaws {K} (P : PosixLocks K) := {
  setlk_valid k p s l t : kvalid k -> kvalid (setlk k p s l t).2;
  closefd_valid k p : kvalid k -> kvalid (closefd k p);
  setlk_granted k p s l t b : kvalid k -> (setlk k p s l t).1 = 0 ->
    held (setlk k p s l t).2 p b = set_range (held k p) s l t b;
  setlk_refused k p s l t b : kvalid k -> (setlk k p s l t).1 <> 0 ->
    held (setlk k p s l t).2 p b = held k p b;
  setlk_others k p q s l t b : kvalid k -> q <> p -> held (setlk k p s l t).2 q b = held k q b;
  setlk_unlock k p s l : kvalid k -> (setlk k p s l F_UNLCK).1 = 0;
  closefd_drops k p b : kvalid k -> held (closefd k p) p b = F_UNLCK;
  closefd_others k p q b : kvalid k -> q <> p -> held (closefd k p) q b = held k q b;
  held_exclusive k p q b : kvalid k -> p <> q -> held k p b = F_WRLCK -> held k q b = F_UNLCK
}.

(** ** Processes

    The handles of a process are numbered in the order they were opened, a closed one is
    [None].  [p_run] is the call that holds the mutex: the handle, the level the handle can be
    relied on to have until the call returns, and the rest of the program. *)
Record proc := mkProc {
  p_inode : option unixInodeInfo;
  p_files : list (option unixFile);
  p_run : option (nat * Z * lprog (option unixInodeInfo * option unixFile))
}.

Inductive call :=
  | CLock (shm_held : bool) (eFileLock : Z)
  | CUnlock (eFileLock : Z)
  | CClose.

(** The assertions at the head of the routines, and the levels their callers pass. *)
Definition call_ok (f : unixFile) (c : call) : bool :=
  match c with
  | CLock _ e =>
      ((e =? SHARED_LOCK) || (e =? RESERVED_LOCK) || (e =? EXCLUSIVE_LOCK))
      && (negb (f_eFileLock f =? NO_LOCK) || (e =? SHARED_LOCK))
      && (negb (e =? RESERVED_LOCK) || (f_eFileLock f =? SHARED_LOCK))
  | CUnlock e => (e =? NO_LOCK) || (e =? SHARED_LOCK)
  | CClose => true
  end.

(** A lock that is being lowered is no longer relied on. *)
Definition call_level (f : unixFile) (c : call) : Z :=
  match c with
  | CLock _ _ => f_eFileLock f
  | CUnlock e => Z.min (f_eFileLock f) e
  | CClose => 0
  end.

Definition keep (m : lprog (Z * unixInodeInfo * unixFile)) : lprog (option unixInodeInfo * option unixFile) :=
  let? (_, pInode, pFile) := m in PRet (Some pInode, Some pFile).

Definition call_prog (i : unixInodeInfo) (f : unixFile) (c : call)
  : lprog (option unixInodeInfo * option unixFile) :=
  match c with
  | CLock held e => keep (unixLock held i f e)
  | CUnlock e => keep (unixUnlock i f e)
  | CClose => let? inodeList := unixClose i f in PRet (inodeList, None)
  end.

Section System.
Context {K : Type} {P : PosixLocks K}.

Record sys := mkSys { s_locks : K; s_procs : nat -> proc }.

Definition set_proc (s : sys) (k : K) (p : nat) (pr : proc) : sys :=
  mkSys k (fun q => if decide (q = p) then pr else s_procs s q).

(** One step of one process: a handle is opened, a call begins, makes a system call, returns. *)
Inductive sys_step : sys -> sys -> Prop :=
  | step_open s p pr rdonly shm :
      s_procs s p = pr -> p_run pr = None ->
      sys_step s (set_proc s (s_locks s) p
        (mkProc (Some (findInodeInfo (p_inode pr)))
                (p_files pr ++ [Some (mkFile NO_LOCK false rdonly shm true 0)]) None))
  | step_call s p pr n ino f c :
      s_procs s p = pr -> p_run pr = None -> p_inode pr = Some ino ->
      p_files pr !! n = Some (Some f) -> call_ok f c = true ->
      sys_step s (set_proc s (s_locks s) p
        (mkProc (p_inode pr) (p_files pr) (Some (n, call_level f c, call_prog ino f c))))
  | step_fcntl s p pr n e st l t k :
      s_procs s p = pr -> p_run pr = Some (n, e, PFcntl st l t k) ->
      sys_step s (let r := setlk (s_locks s) p st l t in
        set_proc s r.2 p (mkProc (p_inode pr) (p_files pr) (Some (n, e, k r.1))))
  | step_close s p pr n e k :
      s_procs s p = pr -> p_run pr = Some (n, e, PClose k) ->
      sys_step s (set_proc s (closefd (s_locks s) p) p
        (mkProc (p_inode pr) (p_files pr) (Some (n, e, k))))
  | step_return s p pr n e ino f :
      s_procs s p = pr -> p_run pr = Some (n, e, PRet (ino, f)) ->
      sys_step s (set_proc s (s_locks s) p (mkProc ino (<[n := f]> (p_files pr)) None)).

Definition init_sys (k : K) : sys := mkSys k (fun _ => mkProc None [] None).

Definition lock_level (o : option unixFile) : Z := match o with Some f => f_eFileLock f | None => 0 end.

(** The levels the handles of a process can be relied on to have. *)
Definition relied (pr : proc) : list Z :=
  match p_run pr with
  | None => map lock_level (p_files pr)
  | Some (n, e, _) => <[n := e]> (map lock_level (p_files pr))
  end.

Definition level (pr : proc) (n : nat) : Z := default 0 (relied pr !! n).
End System.

(** ** Reasoning about programs

    [wpI I m Q h]: run from what the process holds in [h], whatever the other processes do, the
    program keeps [I] true at every step and ends with [Q]. *)
Fixpoint wpI {A} (I : hold -> Prop) (m : lprog A) (Q : A -> hold -> Prop) (h : hold) : Prop :=
  match m with
  | PRet a => I h /\ Q a h
  | PFcntl s l t k =>
      I h /\ wpI I (k 0) Q (set_range h s l t) /\ (t <> F_UNLCK -> forall e, e <> 0 -> wpI I (k e) Q h)
  | PClose k => I h /\ wpI I k Q (fun _ => F_UNLCK)
  end.

Abbreviation hold_eq := (pointwise_relation Z eq).

#[export] Instance set_range_proper s l t : Proper (hold_eq ==> hold_eq) (fun h => set_range h s l t).
Proof. intros h h' Hh b. unfold set_range. by rewrite (Hh b). Qed.

Lemma wpI_ext {A} I (m : lprog A) Q : Proper (hold_eq ==> iff) I -> (forall a, Proper (hold_eq ==> iff) (Q a)) ->
  forall h h', hold_eq h h' -> wpI I m Q h -> wpI I m Q h'.
Proof.
  intros HI HQ. induction m as [a|s l t k IH|k IH]; intros h h' Hh; cbn [wpI].
  - by rewrite (HI h h' Hh), (HQ a h h' Hh).
  - intros (H1 & H2 & H3). split_and!; [by rewrite <- (HI h h' Hh)| |intros Ht e He].
    + eapply IH; [|exact H2]. by apply set_range_proper.
    + eapply IH; [exact Hh|]. by apply H3.
  - intros (H1 & H2). split; [by rewrite <- (HI h h' Hh)|done].
Qed.

Lemma wpI_bind {A B} I (m : lprog A) (f : A -> lprog B) Q h :
  wpI I m (fun a h => wpI I (f a) Q h) h -> wpI I (lbind m f) Q h.
Proof. revert h. induction m as [a|s l t k IH|k IH]; intros h; cbn; intuition eauto. Qed.

Lemma wpI_mono {A} I (m : lprog A) (Q Q' : A -> hold -> Prop) h :
  (forall a h, Q a h -> Q' a h) -> wpI I m Q h -> wpI I m Q' h.
Proof. intros HQ. revert h. induction m as [a|s l t k IH|k IH]; intros h; cbn; intuition eauto. Qed.

Lemma wpI_now {A} I (m : lprog A) Q h : wpI I m Q h -> I h.
Proof. destruct m; cbn; tauto. Qed.

Lemma wpI_close_fds {A} I n (k : lprog A) Q h : I h -> (0 < n -> I (fun _ => F_UNLCK))%nat ->
  wpI I k Q h -> ((0 < n)%nat -> wpI I k Q (fun _ => F_UNLCK)) -> wpI I (close_fds n k) Q h.
Proof.
  revert h. induction n as [|n IH]; intros h H1 H2 H3 H4; [done|]. cbn. split; [done|].
  apply IH; eauto with lia.
Qed.

(** *** Levels *)

Definition at_least (n x : Z) : Z := if n <=? x then 1 else 0.

Definition count_at (n : Z) (lv : list Z) : Z := foldr (fun x c => at_least n x + c) 0 lv.
Definition top (lv : list Z) : Z := foldr Z.max 0 lv.

(** The levels of the handles of one process. *)
Definition lv_ok (lv : list Z) : Prop :=
  Forall (fun x => 0 <= x <= 4) lv /\ count_at 2 lv <= 1 /\ (top lv = 4 -> count_at 1 lv = 1).

(** What a process whose highest level is [e] holds. *)
Definition in_shared (b : Z) : Prop := SHARED_FIRST <= b < SHARED_FIRST + SHARED_SIZE.

Definition kern (e : Z) (h : hold) : Prop :=
  (1 <= e -> forall b, in_shared b -> h b <> F_UNLCK) /\
  (e = 2 \/ e = 3 -> h RESERVED_BYTE = F_WRLCK) /\
  (e = 4 -> forall b, in_shared b -> h b = F_WRLCK).

Arguments kern : simpl never.

#[export] Instance kern_proper e : Proper (hold_eq ==> iff) (kern e).
Proof.
  assert (forall h h', hold_eq h h' -> kern e h -> kern e h') as H.
  { intros h h' Hh (H1 & H2 & H3). split_and!.
    - intros He b Hb. rewrite <- (Hh b). by apply H1.
    - intros He. rewrite <- (Hh RESERVED_BYTE). by apply H2.
    - intros He b Hb. rewrite <- (Hh b). by apply H3. }
  intros h h' Hh. split; apply H; [done|]. intros b. by rewrite (Hh b).
Qed.

Lemma kern_none h : kern 0 h.
Proof. split_and!; lia. Qed.

(** The levels without one handle, as far as they matter. *)
Record rest_of (lv : list Z) (n : nat) (c d t : Z) : Prop := {
  rest_count y : count_at 1 (<[n := y]> lv) = c + at_least 1 y;
  rest_count2 y : count_at 2 (<[n := y]> lv) = d + at_least 2 y;
  rest_top y : top (<[n := y]> lv) = Z.max t y;
  rest_bound y : Forall (fun x => 0 <= x <= 4) (<[n := y]> lv) <-> t <= 4 /\ 0 <= y <= 4;
  rest_stats : 0 <= t /\ (1 <= t <-> 1 <= c) /\ (2 <= t <-> 1 <= d) /\ 0 <= d <= c
}.

Lemma count_at_cons n x l : count_at n (x :: l) = at_least n x + count_at n l.
Proof. done. Qed.

Lemma top_cons x l : top (x :: l) = Z.max x (top l).
Proof. done. Qed.

Lemma levels_nil n : count_at n [] = 0 /\ top [] = 0.
Proof. done. Qed.

Lemma count_at_app n l1 l2 : count_at n (l1 ++ l2) = count_at n l1 + count_at n l2.
Proof. induction l1 as [|x l1 IH]; [done|]. change ((x :: l1) ++ l2) with (x :: (l1 ++ l2)). rewrite !count_at_cons. lia. Qed.

Lemma top_nonneg l : 0 <= top l.
Proof. induction l; [done|]. rewrite top_cons. lia. Qed.

Lemma top_app l1 l2 : top (l1 ++ l2) = Z.max (top l1) (top l2).
Proof.
  induction l1 as [|x l1 IH]; [pose proof (top_nonneg l2); rewrite (proj2 (levels_nil 0)), app_nil_l; lia|].
  change ((x :: l1) ++ l2) with (x :: (l1 ++ l2)). rewrite !top_cons. lia.
Qed.

Lemma stats_of l : (1 <= top l <-> 1 <= count_at 1 l) /\ (2 <= top l <-> 1 <= count_at 2 l) /\
  0 <= count_at 2 l <= count_at 1 l.
Proof.
  induction l as [|x l IH]; [cbv; intuition discriminate|].
  rewrite !count_at_cons, top_cons. unfold at_least. destruct (Z.leb_spec 1 x), (Z.leb_spec 2 x); lia.
Qed.

Lemma top_le l n : Forall (fun x => 0 <= x) l -> (top l <= n <-> 0 <= n /\ Forall (fun x => x <= n) l).
Proof.
  induction 1 as [|x l Hx _ IH]; [split; [intros H; split; [exact H|constructor]|by intros []]|].
  rewrite Forall_cons, top_cons, Z.max_lub_iff, IH. tauto.
Qed.

Lemma rest_exists lv n x : Forall (fun x => 0 <= x <= 4) lv -> lv !! n = Some x ->
  exists c d t, rest_of lv n c d t.
Proof.
  intros Hlv Hx. set (l1 := take n lv). set (l2 := drop (S n) lv).
  assert (forall y, <[n := y]> lv = l1 ++ y :: l2) as Hins.
  { intros y. apply lookup_lt_Some in Hx. by apply insert_take_drop. }
  assert (Forall (fun x => 0 <= x <= 4) (l1 ++ l2)) as Hr.
  { apply Forall_app. split; [by apply Forall_take|by apply Forall_drop]. }
  exists (count_at 1 (l1 ++ l2)), (count_at 2 (l1 ++ l2)), (top (l1 ++ l2)). constructor.
  - intros y. rewrite Hins, !count_at_app, count_at_cons. lia.
  - intros y. rewrite Hins, !count_at_app, count_at_cons. lia.
  - intros y. rewrite Hins, !top_app, top_cons. lia.
  - intros y. rewrite Hins, Forall_app, Forall_cons. rewrite Forall_app in Hr.
    rewrite top_le by (apply Forall_app; split; eapply Forall_impl; try apply Hr; cbn; lia).
    split; [intros (_ & ? & _); split; [split; [lia|]|done]|tauto].
    apply Forall_app; split; eapply Forall_impl; try apply Hr; cbn; lia.
  - pose proof (stats_of (l1 ++ l2)). pose proof (top_nonneg (l1 ++ l2)). lia.
Qed.

(** *** What a system call does to what a level needs *)

Ltac levels :=
  unfold at_least, NO_LOCK, SHARED_LOCK, RESERVED_LOCK, PENDING_LOCK, EXCLUSIVE_LOCK in *;
  repeat match goal with
         | |- context [?a <=? ?b] => destruct (Z.leb_spec a b)
         | H : context [?a <=? ?b] |- _ => destruct (Z.leb_spec a b)
         end; lia.

Lemma set_range_in h s l t b : in_range s l b = true -> set_range h s l t b = t.
Proof. unfold set_range. by intros ->. Qed.

Lemma set_range_out h s l t b : in_range s l b = false -> set_range h s l t b = h b.
Proof. unfold set_range. by intros ->. Qed.

Lemma in_shared_range b : in_shared b <-> in_range SHARED_FIRST SHARED_SIZE b = true.
Proof. unfold in_shared, in_range, SHARED_SIZE. change (510 =? 0) with false. cbn [orb]. by rewrite andb_true_iff, Z.leb_le, Z.ltb_lt. Qed.

Lemma shared_not_below b l : in_shared b -> 1 <= l <= 2 -> in_range PENDING_BYTE l b = false.
Proof. unfold in_shared, in_range, SHARED_FIRST, RESERVED_BYTE. intros. breflect. lia. Qed.

Lemma kern_pending e h t : kern e h -> kern e (set_range h PENDING_BYTE 1 t).
Proof.
  intros (H1 & H2 & H3). split_and!.
  - intros He b Hb. rewrite set_range_out by (apply shared_not_below; [done|lia]). by apply H1.
  - intros He. rewrite set_range_out by done. by apply H2.
  - intros He b Hb. rewrite set_range_out by (apply shared_not_below; [done|lia]). by apply H3.
Qed.

Lemma kern_lower e e' h : kern e h -> e' <= e -> e' <= 1 -> kern e' h.
Proof. intros (H1 & _ & _) Hle H. split_and!; [intros; apply H1; [lia|done]|lia..]. Qed.

Lemma kern_unpend e h : kern e h -> e <= 1 -> kern e (set_range h PENDING_BYTE 2 F_UNLCK).
Proof.
  intros (H1 & _ & _) He. split_and!; [|lia..].
  intros He' b Hb. rewrite set_range_out by (apply shared_not_below; [done|lia]). by apply H1.
Qed.

Lemma kern_read e h : e <= 1 -> kern e (set_range h SHARED_FIRST SHARED_SIZE F_RDLCK).
Proof.
  intros He. split_and!; [|lia..]. intros _ b Hb. by rewrite set_range_in by (by apply in_shared_range).
Qed.

Lemma kern_write e h : kern e h -> kern e (set_range h SHARED_FIRST SHARED_SIZE F_WRLCK).
Proof.
  intros (H1 & H2 & H3). split_and!.
  - intros _ b Hb. by rewrite set_range_in by (by apply in_shared_range).
  - intros He. rewrite set_range_out by done. by apply H2.
  - intros _ b Hb. by rewrite set_range_in by (by apply in_shared_range).
Qed.

Lemma kern_exclusive e h : e = 4 -> kern e (set_range h SHARED_FIRST SHARED_SIZE F_WRLCK).
Proof.
  intros ->. split_and!; [|lia|]; intros _ b Hb; by rewrite set_range_in by (by apply in_shared_range).
Qed.

Lemma kern_reserve e h : kern e h -> kern e (set_range h RESERVED_BYTE 1 F_WRLCK).
Proof.
  assert (forall b, in_shared b -> in_range RESERVED_BYTE 1 b = false) as Hout.
  { unfold in_shared, in_range, SHARED_FIRST, RESERVED_BYTE. intros. breflect. lia. }
  intros (H1 & H2 & H3). split_and!; [intros He b Hb; rewrite set_range_out by auto; by apply H1|done|].
  intros He b Hb. rewrite set_range_out by auto. by apply H3.
Qed.

Lemma kern_reserved e h : kern 1 h -> e = 2 -> kern e (set_range h RESERVED_BYTE 1 F_WRLCK).
Proof.
  intros (H1 & _ & _) ->. split_and!; [|done|lia]. intros _ b Hb.
  rewrite set_range_out; [by apply H1|]. unfold in_shared, in_range, SHARED_FIRST, RESERVED_BYTE in *. breflect. lia.
Qed.

(** *** The routines on one handle

    [c], [d] and [t] sum up the other handles of the process: how many are locked, how many are
    locked for writing, and the highest level. *)

Section Handle.
Context (c d t : Z) (Hstats : 0 <= t /\ (1 <= t <-> 1 <= c) /\ (2 <= t <-> 1 <= d) /\ 0 <= d <= c).

Record handle_ok (i : unixInodeInfo) (f : unixFile) (h : hold) : Prop := {
  ho_excl : f_excl f = false;
  ho_level : 0 <= f_eFileLock f <= 4 /\ t <= 4;
  ho_shared : nShared i = c + at_least 1 (f_eFileLock f);
  ho_lock : nLock i = c + at_least 1 (f_eFileLock f);
  ho_top : i_eFileLock i = Z.max t (f_eFileLock f);
  ho_writer : d + at_least 2 (f_eFileLock f) <= 1;
  ho_alone : Z.max t (f_eFileLock f) = 4 -> c + at_least 1 (f_eFileLock f) = 1;
  ho_kern : kern (Z.max t (f_eFileLock f)) h
}.

(** The result of a call: the handle's invariant again, and what the return code says. *)
Definition handle_post (n : Z) (done : unixFile -> Prop)
  (r : Z * unixInodeInfo * unixFile) (h : hold) : Prop :=
  let '(rc, i, f) := r in
  handle_ok i f h /\ nRef i = n /\ (rc = SQLITE_OK -> done f).

Lemma posix_error_nonzero e io : io <> SQLITE_OK -> sqliteErrorFromPosixError e io <> SQLITE_OK.
Proof. unfold sqliteErrorFromPosixError. intros. repeat case_if; done. Qed.

Lemma fileLock_unix i f s l ty : f_excl f = false ->
  unixFileLock i f s l ty = PFcntl s l ty (fun e => PRet (e, i)).
Proof. unfold unixFileLock. by intros ->. Qed.

Lemma lock_failed_post i f h n e done : handle_ok i f h -> nRef i = n ->
  handle_post n done (lock_failed i f e) h.
Proof.
  intros Hok Hn. unfold lock_failed. cbn. split_and!; [|done|].
  - case_if; [|done]. destruct Hok. by constructor.
  - intros H. by destruct (posix_error_nonzero e SQLITE_IOERR_LOCK ltac:(done) H).
Qed.

Lemma lock_shared_ok i f h : handle_ok i f h -> f_eFileLock f = 0 -> t = 0 ->
  wpI (kern (Z.max t (f_eFileLock f))) (lock_shared i f)
      (handle_post (nRef i) (fun f' => SHARED_LOCK <= f_eFileLock f')) h.
Proof using Hstats.
  intros Hok Hf Ht. pose proof Hok as [He _ Hs Hl Htop Hw Ha _].
  assert (forall h, kern (Z.max t (f_eFileLock f)) h) as Hk0.
  { intros h'. rewrite Hf, Ht. apply kern_none. }
  assert (forall h, handle_ok i f h) as Hok0 by (intros h'; destruct Hok; by constructor).
  unfold lock_shared. rewrite fileLock_unix by done. cbn [lbind wpI]. split_and!; [done| |].
  - rewrite fileLock_unix by done. cbn. split_and!; [done|done| |done|done|done].
    constructor; cbn; try (done || levels). rewrite Ht.
    apply kern_pending, kern_read. done.
  - intros _ e Hne. rewrite fileLock_unix by done. cbn [lbind wpI]. split_and!; [done| |done].
    rewrite (proj2 (Z.eqb_neq e 0)) by done. cbn [Z.eqb negb andb].
    pose proof (posix_error_nonzero e SQLITE_IOERR_LOCK ltac:(done)) as Hrc.
    rewrite (proj2 (Z.eqb_neq _ SQLITE_OK)) by done. cbn [negb wpI]. split; [done|].
    apply (lock_failed_post i f _ (nRef i) e); done.
Qed.

Lemma lock_write_ok held i f h e0 want : handle_ok i f h -> want = RESERVED_LOCK \/ want = EXCLUSIVE_LOCK ->
  1 <= f_eFileLock f < want -> t <= 1 -> f_eFileLock f = i_eFileLock i ->
  e0 <= Z.max t (f_eFileLock f) -> (e0 = Z.max t (f_eFileLock f) \/ e0 <= 1 \/ e0 = 2 /\ f_eFileLock f = 3) ->
  wpI (kern e0) (lock_write held i f want)
      (handle_post (nRef i) (fun f' => want <= f_eFileLock f')) h.
Proof using Hstats.
  intros Hok Hwant Hf Ht Heq Hle He0. pose proof Hok as [He Hlv Hs Hl Htop Hw Ha Hk].
  assert (forall h, kern (Z.max t (f_eFileLock f)) h -> kern e0 h) as Hweak.
  { intros h' (H1 & H2 & H3). destruct He0 as [->|[?|[-> E3]]]; [done|by eapply kern_lower|].
    split_and!; [intros; apply H1; [lia|done]|intros; apply H2; lia|lia]. }
  unfold lock_write.
  destruct ((want =? EXCLUSIVE_LOCK) && (1 <? nShared i)) eqn:Ex.
  { cbn. split; [by apply Hweak|]. by split_and!. }
  destruct (unixIsSharingShmNode f held).
  { cbn. split; [by apply Hweak|]. by split_and!. }
  destruct Hwant as [-> | ->]; cbn [Z.eqb]; unfold RESERVED_LOCK, EXCLUSIVE_LOCK in *; breflect.
  - change (2 =? 2) with true. cbv iota. rewrite fileLock_unix by done. cbn [lbind wpI]. split; [by apply Hweak|split].
    + cbn. split; [by apply Hweak, kern_reserve|]. split_and!; [|done|done].
      constructor; cbn; try (done || levels). apply kern_reserved; [|lia]. by replace 1 with (Z.max t (f_eFileLock f)) by lia.
    + intros _ e Hne. cbn. rewrite (proj2 (Z.eqb_neq e 0)) by done. split; [by apply Hweak|]. by apply lock_failed_post.
  - change (4 =? 4) with true in Ex. change (4 =? 2) with false. cbv iota. cbn [andb] in Ex. breflect.
    rewrite fileLock_unix by done. cbn [lbind wpI]. split; [by apply Hweak|split].
    + cbn. split; [by apply Hweak, kern_write|]. split_and!; [|done|done].
      constructor; cbn; try (done || levels). apply kern_exclusive; lia.
    + intros _ e Hne. cbn. rewrite (proj2 (Z.eqb_neq e 0)) by done. split; [by apply Hweak|]. by apply lock_failed_post.
Qed.

(** [unixLock] keeps the level the handle had, and answers [SQLITE_OK] only with the level asked
    for. *)
Lemma unixLock_ok held i f h want : handle_ok i f h -> call_ok f (CLock held want) = true ->
  wpI (kern (Z.max t (f_eFileLock f))) (unixLock held i f want)
      (handle_post (nRef i) (fun f' => want <= f_eFileLock f')) h.
Proof using Hstats.
  intros Hok Hcall. pose proof Hok as [He Hlv Hs Hl Htop Hw Ha Hk]. cbn in Hcall.
  apply andb_true_iff in Hcall as [Hcall Hc3]. apply andb_true_iff in Hcall as [Hc1 Hc2].
  rewrite !orb_true_iff, !negb_true_iff, ?Z.eqb_eq, ?Z.eqb_neq in *.
  unfold NO_LOCK, SHARED_LOCK, RESERVED_LOCK, EXCLUSIVE_LOCK in *.
  unfold unixLock. destruct (want <=? f_eFileLock f) eqn:E1; breflect.
  { cbn. split; [done|]. by split_and!. }
  destruct (negb (f_eFileLock f =? i_eFileLock i) && _) eqn:E2.
  { cbn. split; [done|]. split_and!; done. }
  apply andb_false_iff in E2. rewrite negb_false_iff, orb_false_iff, Z.eqb_eq, Z.leb_gt, Z.ltb_ge in E2.
  destruct ((want =? SHARED_LOCK) && _) eqn:E3.
  { cbn. split; [done|]. unfold SHARED_LOCK, RESERVED_LOCK in E3.
    apply andb_true_iff in E3 as [E3 E3']. rewrite orb_true_iff, !Z.eqb_eq in *.
    split_and!; [|done|by intros _; cbn; lia].
    constructor; cbn; try (done || levels). unfold SHARED_LOCK.
    by replace (Z.max t 1) with (Z.max t (f_eFileLock f)) by lia. }
  destruct (want =? SHARED_LOCK) eqn:E4; unfold SHARED_LOCK, RESERVED_LOCK in E3, E4.
  - cbn [andb] in E3. apply orb_false_iff in E3 as [E3 E3']. breflect.
    assert (t = 0 /\ f_eFileLock f = 0) as [Ht Hf] by (unfold PENDING_LOCK in E2; lia).
    rewrite fileLock_unix by done. cbn [lbind wpI]. split; [done|split].
    + change (negb (0 =? 0)) with false. cbv iota.
      replace want with SHARED_LOCK by done. apply lock_shared_ok; [|done|done].
      destruct Hok. constructor; try done. by apply kern_pending.
    + intros _ e Hne. rewrite (proj2 (Z.eqb_neq e 0)) by done. cbn [negb wpI]. split; [done|].
      by apply lock_failed_post.
  - breflect. assert (f_eFileLock f = i_eFileLock i) as Heq by (unfold SHARED_LOCK in E2; lia).
    assert (1 <= f_eFileLock f) as Hf1 by lia.
    assert (t <= 1) as Ht by levels.
    destruct ((want =? EXCLUSIVE_LOCK) && (f_eFileLock f =? RESERVED_LOCK)) eqn:E5;
      unfold EXCLUSIVE_LOCK, RESERVED_LOCK in E5.
    + breflect. rewrite fileLock_unix by done. cbn [lbind wpI]. split; [done|split].
      * change (negb (0 =? 0)) with false. cbv iota. subst want.
        apply (wpI_mono _ _ (handle_post (nRef (set_ilock i PENDING_LOCK)) (fun f' => EXCLUSIVE_LOCK <= f_eFileLock f'))).
        { done. }
        apply lock_write_ok; cbn; unfold EXCLUSIVE_LOCK, PENDING_LOCK; try lia.
        constructor; cbn; try (done || levels). destruct Hk as (H1 & H2 & H3).
        apply kern_pending. split_and!; [intros; apply H1; [lia|done]|intros; apply H2; lia|lia].
      * intros _ e Hne. rewrite (proj2 (Z.eqb_neq e 0)) by done. cbn [negb wpI]. split; [done|].
        by apply lock_failed_post.
    + apply lock_write_ok; unfold RESERVED_LOCK, EXCLUSIVE_LOCK; try done; try lia.
Qed.

Lemma unlock_write_ok i f h want : handle_ok i f h -> 2 <= f_eFileLock f -> want = 0 \/ want = 1 ->
  wpI (kern (Z.max t want)) (unlock_write i f want)
      (fun '(rc, i', f') h' => f_eFileLock f' = f_eFileLock f /\ f_excl f' = false /\ nRef i' = nRef i /\
         nShared i' = nShared i /\ nLock i' = nLock i /\
         (rc <> SQLITE_OK -> want = 1 /\ handle_ok i' f' h') /\
         (rc = SQLITE_OK -> i_eFileLock i' = SHARED_LOCK /\ kern 1 h')) h.
Proof using Hstats.
  intros Hok Hf Hwant. pose proof Hok as [He Hlv Hs Hl Htop Hw Ha Hk].
  assert (t <= 1) as Ht by levels.
  assert (kern 1 h) as Hk1 by (eapply kern_lower; [exact Hk|lia..]).
  assert (forall h, kern 1 h -> kern (Z.max t want) h) as Hweak.
  { intros h' Hh. eapply kern_lower; [exact Hh|lia..]. }
  unfold unlock_write.
  destruct Hwant as [-> | ->]; [change (0 =? SHARED_LOCK) with false|change (1 =? SHARED_LOCK) with true];
    cbv iota.
  - cbn [lbind]. change (negb (0 =? 0)) with false. cbv iota. rewrite fileLock_unix by done. cbn [lbind wpI].
    split; [by apply Hweak|split; [|done]]. cbn. split; [by apply Hweak, kern_unpend|].
    split_and!; try done. intros _. split; [done|by apply kern_unpend].
  - rewrite fileLock_unix by done. cbn [lbind wpI]. split; [by apply Hweak|split].
    + change (negb (0 =? 0)) with false. cbv iota. rewrite fileLock_unix by done. cbn [lbind wpI].
      assert (kern 1 (set_range h SHARED_FIRST SHARED_SIZE F_RDLCK)) as Hr by (apply kern_read; lia).
      split; [by apply Hweak|split; [|done]]. cbn. split; [by apply Hweak, kern_unpend|].
      split_and!; try done. intros _. split; [done|by apply kern_unpend].
    + intros _ e Hne. rewrite (proj2 (Z.eqb_neq e 0)) by done. cbn. split; [by apply Hweak|].
      split_and!; try done.
Qed.

(** Dropping the last level: what is left is what the other handles need. *)
Lemma unlock_shared_ok i f h : f_excl f = false -> 1 <= f_eFileLock f -> t <= 4 -> d <= 1 ->
  (t = 4 -> c = 1) -> nShared i = c + 1 -> nLock i = c + 1 -> i_eFileLock i = Z.max t 1 -> kern (Z.max t 1) h ->
  wpI (kern t) (unlock_shared i f)
      (fun '(rc, i', f') h' => rc = SQLITE_OK /\ handle_ok i' (set_flock f' NO_LOCK) h' /\ nRef i' = nRef i) h.
Proof using Hstats.
  intros Hx Hf Ht Hd H4 Hs Hl Htop Hk.
  assert (kern t h) as Hkt.
  { destruct (Z.leb_spec 1 t); [by replace t with (Z.max t 1) by lia|].
    apply (kern_lower (Z.max t 1)); [done|lia..]. }
  unfold unlock_shared. cbn [nShared set_nshared nLock set_nlock set_ilock].
  replace (nShared i - 1) with c by lia. destruct (Z.eqb_spec c 0) as [Hc|Hc].
  - assert (t = 0) as Ht0 by lia. assert (forall h, kern t h) as Hk0 by (intros h'; rewrite Ht0; apply kern_none).
    rewrite fileLock_unix by done. cbn [lbind wpI]. split; [done|split; [|done]].
    change (0 =? 0) with true. cbn [lbind nLock set_ilock set_nshared set_nlock]. rewrite Hl.
    replace (c + 1 - 1 =? 0) with true by (symmetry; apply Z.eqb_eq; lia).
    apply wpI_bind. unfold closePendingFds. apply wpI_close_fds; [done|done| |intros _];
      (cbn; split; [done|]; split_and!; [done|done| |done]; constructor; cbn; try (done || levels); rewrite Ht0; apply kern_none).
  - cbn [lbind nLock set_ilock set_nshared set_nlock].
    rewrite (proj2 (Z.eqb_neq _ 0)) by lia. cbn. split; [done|]. split_and!; [done| |done].
    constructor; cbn; try (done || levels). by replace (Z.max t NO_LOCK) with t by (unfold NO_LOCK; lia).
Qed.

(** [posixUnlock] leaves the handle at the lower of its level and the one asked for, and never
    fails when asked for [NO_LOCK]. *)
Lemma posixUnlock_ok i f h want : handle_ok i f h -> want = 0 \/ want = 1 ->
  wpI (kern (Z.max t (Z.min (f_eFileLock f) want))) (posixUnlock i f want)
      (fun r h => handle_post (nRef i) (fun f' => f_eFileLock f' = Z.min (f_eFileLock f) want) r h /\
                  (want = 0 -> r.1.1 = SQLITE_OK)) h.
Proof using Hstats.
  intros Hok Hwant. pose proof Hok as [He Hlv Hs Hl Htop Hw Ha Hk]. unfold posixUnlock.
  destruct (Z.leb_spec (f_eFileLock f) want) as [Hle|Hgt].
  { cbn. replace (Z.min (f_eFileLock f) want) with (f_eFileLock f) by lia. split_and!; done. }
  replace (Z.min (f_eFileLock f) want) with want by lia.
  destruct (SHARED_LOCK <? f_eFileLock f) eqn:E; unfold SHARED_LOCK in E; breflect.
  - assert (t <= 1) as Ht by levels.
    apply wpI_bind. eapply wpI_mono; [|apply unlock_write_ok; [done|lia|done]].
    intros [[rc i'] f'] h' (Hf' & Hx & Hn & Hs' & Hl' & Hbad & Hgood). cbn [fst snd].
    destruct (Z.eqb_spec rc SQLITE_OK) as [->|Hrc]; cbn [negb].
    + destruct Hgood as [Hi' Hk']; [done|]. destruct Hwant as [-> | ->].
      * change (0 =? NO_LOCK) with true. cbv iota. apply wpI_bind.
        eapply wpI_mono; [|replace (Z.max t 0) with t by lia; apply unlock_shared_ok]; try (done || levels).
        -- intros [[rc2 i2] f2] h2 (-> & Hok2 & Hn2). cbn. split; [|split; [split_and!|]]; try done; [|by rewrite Hn2].
           replace (Z.max t 0) with (Z.max t (f_eFileLock (set_flock f2 NO_LOCK))) by (cbn; unfold NO_LOCK; lia).
           apply Hok2.
        -- by replace (Z.max t 1) with 1 by lia.
      * change (1 =? NO_LOCK) with false. cbv iota. cbn. split; [by replace (Z.max t 1) with 1 by lia|].
        split; [|done]. split_and!; [|done|done].
        constructor; cbn; try (done || levels). by replace (Z.max t 1) with 1 by lia.
    + cbn. destruct (Hbad Hrc) as [-> Hok']. split; [|split; [by split_and!|]].
      * destruct Hok' as [_ _ _ _ _ _ _ Hk']. eapply kern_lower; [exact Hk'|lia..].
      * done.
  - cbn [lbind]. change (negb (SQLITE_OK =? SQLITE_OK)) with false. cbv iota.
    assert (f_eFileLock f = 1 /\ want = 0) as [Hf ->] by lia. change (0 =? NO_LOCK) with true. cbv iota.
    apply wpI_bind.
    eapply wpI_mono; [|replace (Z.max t 0) with t by lia; apply unlock_shared_ok]; try (done || levels).
    + intros [[rc2 i2] f2] h2 (-> & Hok2 & Hn2). cbn. split; [|split; [split_and!|]]; try done.
      replace (Z.max t 0) with (Z.max t (f_eFileLock (set_flock f2 NO_LOCK))) by (cbn; unfold NO_LOCK; lia).
      apply Hok2.
    + by rewrite <- Hf.
Qed.
End Handle.

(** *** Processes *)

Definition nopen (l : list (option unixFile)) : Z :=
  foldr (fun x n => (match x with Some _ => 1 | None => 0 end) + n) 0 l.

Abbreviation levels_of l := (map lock_level l).

Definition proc_ok (o : option unixInodeInfo) (l : list (option unixFile)) (h : hold) : Prop :=
  Forall (fun x => match x with Some f => f_excl f = false | None => True end) l /\
  lv_ok (levels_of l) /\ kern (top (levels_of l)) h /\
  match o with
  | None => nopen l = 0
  | Some i => nRef i = nopen l /\ nShared i = count_at 1 (levels_of l) /\
              nLock i = count_at 1 (levels_of l) /\ i_eFileLock i = top (levels_of l)
  end.

#[export] Instance proc_ok_proper o l : Proper (hold_eq ==> iff) (proc_ok o l).
Proof. intros h h' Hh. unfold proc_ok. by rewrite (kern_proper _ h h' Hh). Qed.

Lemma nopen_cons x l : nopen (x :: l) = (match x with Some _ => 1 | None => 0 end) + nopen l.
Proof. done. Qed.

Lemma nopen_app l1 l2 : nopen (l1 ++ l2) = nopen l1 + nopen l2.
Proof.
  induction l1 as [|x l1 IH]; [done|]. change ((x :: l1) ++ l2) with (x :: (l1 ++ l2)). rewrite !nopen_cons. lia.
Qed.

Lemma count_nopen l : 0 <= count_at 1 (levels_of l) <= nopen l.
Proof.
  induction l as [|x l IH]; [done|]. cbn [map]. rewrite count_at_cons, nopen_cons.
  unfold at_least. destruct x as [f|]; cbn [lock_level]; case_if; breflect; lia.
Qed.

Lemma none_open l : nopen l = 0 -> count_at 1 (levels_of l) = 0 /\ top (levels_of l) = 0.
Proof.
  intros H. pose proof (count_nopen l). pose proof (stats_of (levels_of l)). pose proof (top_nonneg (levels_of l)). lia.
Qed.

Lemma nopen_insert l n f x : l !! n = Some (Some f) ->
  nopen (<[n := x]> l) = nopen l - 1 + (match x with Some _ => 1 | None => 0 end).
Proof.
  intros Hn. rewrite <- (take_drop_middle l n (Some f)) at 2 by done.
  rewrite insert_take_drop by (by eapply lookup_lt_Some). rewrite !nopen_app, !nopen_cons. destruct x; lia.
Qed.

Lemma levels_insert l n x : levels_of (<[n := x]> l) = <[n := lock_level x]> (levels_of l).
Proof. apply list_fmap_insert. Qed.

Lemma open_ok o l h rdonly shm : proc_ok o l h ->
  proc_ok (Some (findInodeInfo o)) (l ++ [Some (mkFile NO_LOCK false rdonly shm true 0)]) h.
Proof.
  intros (Hx & (Hb & H2 & H4) & Hk & Ho). unfold proc_ok, lv_ok.
  rewrite map_app, !count_at_app, !top_app, nopen_app.
  change (levels_of [Some (mkFile NO_LOCK false rdonly shm true 0)]) with [0].
  change (count_at 1 [0]) with 0. change (count_at 2 [0]) with 0. change (top [0]) with 0.
  change (nopen [Some (mkFile NO_LOCK false rdonly shm true 0)]) with 1.
  rewrite !Z.add_0_r, Z.max_l by apply top_nonneg. split_and!; try done.
  { apply Forall_app. split; [done|]. by repeat constructor. }
  { apply Forall_app. split; [done|]. repeat constructor; lia. }
  all: destruct o as [i|]; cbn; [lia || tauto|].
  all: pose proof (none_open l Ho); unfold NO_LOCK; lia.
Qed.

(** A handle among the others of its process. *)
Lemma handle_of i l h n f : proc_ok (Some i) l h -> l !! n = Some (Some f) ->
  exists c d t, rest_of (levels_of l) n c d t /\ handle_ok c d t i f h.
Proof.
  intros (Hx & (Hb & H2 & H4) & Hk & Hr & Hs & Hl & Ht) Hn.
  assert (levels_of l !! n = Some (f_eFileLock f)) as Hn' by (rewrite list_lookup_fmap; by rewrite Hn).
  destruct (rest_exists (levels_of l) n (f_eFileLock f) Hb Hn') as (c & d & t & R).
  exists c, d, t. split; [done|].
  pose proof (list_insert_id (levels_of l) n (f_eFileLock f) Hn') as Hid.
  pose proof (rest_count _ _ _ _ _ R (f_eFileLock f)) as R1. pose proof (rest_count2 _ _ _ _ _ R (f_eFileLock f)) as R2.
  pose proof (rest_top _ _ _ _ _ R (f_eFileLock f)) as R3. pose proof (rest_bound _ _ _ _ _ R (f_eFileLock f)) as R4.
  rewrite Hid in R1, R2, R3, R4. apply R4 in Hb.
  constructor; try congruence; try lia.
  - eapply (Forall_lookup_1 _ _ _ _ Hx Hn).
Qed.

Lemma of_handle l n f c d t : rest_of (levels_of l) n c d t -> l !! n = Some (Some f) ->
  Forall (fun x => match x with Some f => f_excl f = false | None => True end) l ->
  forall i' f' h, handle_ok c d t i' f' h -> nRef i' = nopen l -> proc_ok (Some i') (<[n := Some f']> l) h.
Proof.
  intros R Hn Hx i' f' h [Hx' Hl Hs Hlk Ht Hw Ha Hk] Hr. unfold proc_ok, lv_ok.
  rewrite levels_insert. cbn [lock_level].
  rewrite (rest_count _ _ _ _ _ R), (rest_count2 _ _ _ _ _ R), (rest_top _ _ _ _ _ R), (rest_bound _ _ _ _ _ R).
  rewrite (nopen_insert l n f) by done.
  split_and!; try done; try lia. by apply Forall_insert.
Qed.

(** Lowering one handle keeps the levels of a process in order. *)
Lemma lv_ok_lower l n c d t e e' : rest_of (levels_of l) n c d t -> 0 <= e' <= e ->
  lv_ok (<[n := e]> (levels_of l)) -> lv_ok (<[n := e']> (levels_of l)).
Proof.
  intros R He (Hb & H2 & H4). unfold lv_ok in *.
  pose proof (rest_stats _ _ _ _ _ R) as Hst.
  rewrite (rest_bound _ _ _ _ _ R) in *. rewrite (rest_count2 _ _ _ _ _ R), (rest_top _ _ _ _ _ R) in *.
  rewrite (rest_count _ _ _ _ _ R) in *. split_and!; levels.
Qed.

(** What a call that began must still establish: its result fits the process. *)
Definition call_post (l : list (option unixFile)) (n : nat)
  (r : option unixInodeInfo * option unixFile) (h : hold) : Prop := proc_ok r.1 (<[n := r.2]> l) h.

Lemma keep_ok c d t l n f I (m : lprog (Z * unixInodeInfo * unixFile)) done h :
  rest_of (levels_of l) n c d t -> l !! n = Some (Some f) ->
  Forall (fun x => match x with Some f => f_excl f = false | None => True end) l ->
  wpI I m (handle_post c d t (nopen l) done) h -> wpI I (keep m) (call_post l n) h.
Proof.
  intros R Hn Hx Hm. unfold keep. apply wpI_bind. revert h Hm. induction m as [[[rc i] f']|s ln ty k IH|k IH];
    intros h; cbn [wpI].
  - intros (HI & Hok & Hr & _). split; [done|]. split; [done|]. eapply of_handle; eauto.
  - intros (HI & H1 & H2). split_and!; eauto.
  - intros (HI & H1). split; eauto.
Qed.

Lemma close_ok i f h l n c d t : rest_of (levels_of l) n c d t -> l !! n = Some (Some f) ->
  Forall (fun x => match x with Some f => f_excl f = false | None => True end) l ->
  nRef i = nopen l -> handle_ok c d t i f h ->
  wpI (kern t) (call_prog i f CClose) (call_post l n) h.
Proof.
  intros R Hn Hx Hr Hok. pose proof (rest_stats _ _ _ _ _ R) as Hst.
  assert (c <= nopen l - 1) as Hc.
  { pose proof (count_nopen (<[n := None]> l)) as H. rewrite levels_insert, (nopen_insert l n f) in H by done.
    cbn [lock_level] in H. rewrite (rest_count _ _ _ _ _ R) in H. change (at_least 1 0) with 0 in H. lia. }
  cbn [call_prog]. unfold unixClose, unixUnlock. do 2 apply wpI_bind.
  pose proof Hok as [_ Hlv _ _ _ _ _ _].
  pose proof (posixUnlock_ok c d t Hst i f h NO_LOCK Hok ltac:(by left)) as Hu.
  replace (Z.max t (Z.min (f_eFileLock f) NO_LOCK)) with t in Hu by (unfold NO_LOCK; lia).
  eapply wpI_mono; [|exact Hu]. intros [[rc i1] f1] h1 [(Hok1 & Hr1 & Hf1) Hrc]. cbn [fst] in Hrc.
  specialize (Hf1 (Hrc eq_refl)). destruct Hok1 as [Hx1 _ Hs1 Hl1 Ht1 Hw1 Ha1 Hk1].
  replace (Z.min (f_eFileLock f) NO_LOCK) with 0 in Hf1 by (unfold NO_LOCK; lia). rewrite Hf1 in *.
  change (at_least 1 0) with 0 in *. change (at_least 2 0) with 0 in *. rewrite Z.add_0_r, Z.max_l in * by lia.
  assert (forall o, match o with None => nopen l = 1 | Some i => nRef i = nopen l - 1 /\ nShared i = c /\ nLock i = c /\ i_eFileLock i = t end ->
    forall h, kern t h -> call_post l n (o, None) h) as Hpost.
  { intros o Ho h' Hk'. unfold call_post, proc_ok, lv_ok. cbn [fst snd].
    rewrite levels_insert. cbn [lock_level].
    rewrite (rest_count _ _ _ _ _ R), (rest_count2 _ _ _ _ _ R), (rest_top _ _ _ _ _ R), (rest_bound _ _ _ _ _ R).
    rewrite (nopen_insert l n f) by done. change (at_least 1 0) with 0. change (at_least 2 0) with 0.
    rewrite !Z.add_0_r, Z.max_l by lia. split_and!; try done; try lia; [by apply Forall_insert|].
    destruct o; [done|lia]. }
  unfold close_decide, close_finish, releaseInodeInfo. rewrite Hl1.
  destruct (Z.eqb_spec c 0) as [Hc0|Hc0]; cbn [negb].
  - assert (t = 0) as Ht0 by lia. assert (forall h, kern t h) as Hk0 by (intros h'; rewrite Ht0; apply kern_none).
    assert (forall o h', match o with None => nopen l = 1 | Some i => nRef i = nopen l - 1 /\ nShared i = c /\ nLock i = c /\ i_eFileLock i = t end ->
      wpI (kern t) (if f_open f1 then PClose (PRet o) else PRet o)
        (fun a h => wpI (kern t) (PRet (a, None)) (call_post l n) h) h') as Hend.
    { intros o h' Ho. destruct (f_open f1); cbn; split_and!; try done; by apply Hpost. }
    apply wpI_bind. cbn [nRef set_nref]. rewrite Hr1, Hr. destruct (Z.eqb_spec (nopen l - 1) 0).
    + apply wpI_bind. unfold closePendingFds.
      apply wpI_close_fds; [done|done| |intros _]; cbn [wpI lbind]; (split; [done|]); split; try done; apply Hend; lia.
    + cbn [wpI lbind]. split; [done|]. apply Hend. cbn. split_and!; done || lia.
  - cbn [setPendingFd f_open set_fopen nRef set_nref set_unused]. rewrite Hr1, Hr, (proj2 (Z.eqb_neq _ 0)) by lia.
    cbn. split_and!; try done. apply Hpost; [|done]. cbn. split_and!; done || lia.
Qed.

Lemma call_ok_inv i f c h l n : proc_ok (Some i) l h -> l !! n = Some (Some f) -> call_ok f c = true ->
  lv_ok (<[n := call_level f c]> (levels_of l)) /\
  wpI (kern (top (<[n := call_level f c]> (levels_of l)))) (call_prog i f c) (call_post l n) h.
Proof.
  intros Hok Hn Hcall. destruct (handle_of i l h n f Hok Hn) as (c0 & d & t & R & Hh).
  pose proof Hok as (Hx & Hlv & _ & Hr & _). pose proof (rest_stats _ _ _ _ _ R) as Hst.
  assert (levels_of l !! n = Some (f_eFileLock f)) as Hn' by (rewrite list_lookup_fmap; by rewrite Hn).
  pose proof (ho_level _ _ _ _ _ _ Hh) as Hb.
  assert (0 <= call_level f c <= f_eFileLock f) as Hlow.
  { destruct c as [held e|e|]; cbn in *; [lia| |lia]. rewrite orb_true_iff, !Z.eqb_eq in Hcall.
    unfold NO_LOCK, SHARED_LOCK in Hcall. lia. }
  split.
  { apply (lv_ok_lower l n c0 d t (f_eFileLock f)); [done..|]. by rewrite list_insert_id. }
  rewrite (rest_top _ _ _ _ _ R). destruct c as [held e|e|].
  - eapply keep_ok; eauto. rewrite <- Hr. by apply unixLock_ok.
  - eapply keep_ok; eauto. rewrite <- Hr. eapply wpI_mono; [|apply posixUnlock_ok; [done..|]].
    + intros r h' [Hp _]. exact Hp.
    + cbn in Hcall. rewrite orb_true_iff, !Z.eqb_eq in Hcall. done.
  - cbn [call_level]. rewrite Z.max_l by lia. by eapply close_ok.
Qed.

Section Safety.
Context {K : Type} {P : PosixLocks K} {L : PosixLaws P}.

(** The invariant of one process, idle or in the middle of a call. *)
Definition proc_inv (pr : proc) (h : hold) : Prop :=
  match p_run pr with
  | None => proc_ok (p_inode pr) (p_files pr) h
  | Some (n, e, m) =>
      lv_ok (<[n := e]> (levels_of (p_files pr))) /\
      wpI (kern (top (<[n := e]> (levels_of (p_files pr))))) m (call_post (p_files pr) n) h
  end.

#[export] Instance proc_inv_proper pr : Proper (hold_eq ==> iff) (proc_inv pr).
Proof.
  assert (forall h h', hold_eq h h' -> proc_inv pr h -> proc_inv pr h') as H.
  { intros h h' Hh. unfold proc_inv. destruct (p_run pr) as [[[n e] m]|]; [|by rewrite (proc_ok_proper _ _ h h' Hh)].
    intros [H1 H2]. split; [done|]. eapply wpI_ext; [..|exact Hh|exact H2].
    - apply kern_proper.
    - intros a. apply proc_ok_proper. }
  intros h h' Hh. split; apply H; [done|]. intros b. by rewrite (Hh b).
Qed.

Definition sys_inv (s : sys) : Prop :=
  kvalid (s_locks s) /\ forall p, proc_inv (s_procs s p) (held (s_locks s) p).

Lemma set_proc_inv s k p pr : sys_inv s -> kvalid k ->
  (forall q, q <> p -> hold_eq (held (s_locks s) q) (held k q)) -> proc_inv pr (held k p) ->
  sys_inv (set_proc s k p pr).
Proof.
  intros [Hv Hp] Hk Hq Hpr. split; [done|]. intros q. cbn. destruct (decide (q = p)) as [->|Hne]; [done|].
  by rewrite <- (proc_inv_proper _ _ _ (Hq q Hne)).
Qed.

Lemma step_inv s s' : sys_inv s -> sys_step s s' -> sys_inv s'.
Proof using L.
  intros Hs Hstep. pose proof Hs as [Hv Hp].
  destruct Hstep as [s p pr rdonly shm Hpr Hrun|s p pr n ino f c Hpr Hrun Hino Hf Hcall|s p pr n e st l t k Hpr Hrun
    |s p pr n e k Hpr Hrun|s p pr n e ino f Hpr Hrun];
    specialize (Hp p); rewrite Hpr in Hp; unfold proc_inv in Hp; rewrite Hrun in Hp; apply set_proc_inv; try done.
  - by apply open_ok.
  - rewrite Hino in Hp. by apply call_ok_inv.
  - by apply setlk_valid.
  - intros q Hq b. symmetry. by apply setlk_others.
  - destruct Hp as [H1 H2]. split; [done|]. cbn [p_files]. destruct H2 as (_ & H2 & H3). cbv zeta.
    destruct (decide ((setlk (s_locks s) p st l t).1 = 0)) as [E|E].
    + rewrite E. eapply wpI_ext; [apply kern_proper|intros a; apply proc_ok_proper| |exact H2].
      intros b. symmetry. by apply setlk_granted.
    + eapply wpI_ext; [apply kern_proper|intros a; apply proc_ok_proper| |apply H3; [|exact E]].
      * intros b. symmetry. by apply setlk_refused.
      * intros ->. apply E. by apply setlk_unlock.
  - by apply closefd_valid.
  - intros q Hq b. symmetry. by apply closefd_others.
  - destruct Hp as [H1 [_ H2]]. split; [done|]. cbn [p_files].
    eapply wpI_ext; [apply kern_proper|intros a; apply proc_ok_proper| |exact H2].
    intros b. symmetry. by apply closefd_drops.
  - by destruct Hp as [_ [_ H2]].
Qed.

(** The levels of a process are in order, and it holds what the highest needs. *)
Lemma inv_relied pr h : proc_inv pr h -> lv_ok (relied pr) /\ kern (top (relied pr)) h.
Proof.
  unfold proc_inv, relied. destruct (p_run pr) as [[[n e] m]|]; [|intros (_ & ? & ? & _); done].
  intros [H1 H2]. split; [done|]. by eapply wpI_now.
Qed.

Lemma lookup_top lv n x : lv !! n = Some x -> x <= top lv /\ forall k, at_least k x <= count_at k lv.
Proof.
  intros Hn. rewrite <- (take_drop_middle lv n x Hn).
  split; [rewrite top_app, top_cons; lia|]. intros k. rewrite count_at_app, count_at_cons.
  assert (forall l, 0 <= count_at k l) as H.
  { intros l. induction l as [|y l IH]; [done|]. rewrite count_at_cons. unfold at_least. case_if; lia. }
  pose proof (H (take n lv)). pose proof (H (drop (S n) lv)). lia.
Qed.

Lemma relied_exclude lv n m x y : lv_ok lv -> n <> m -> lv !! n = Some x -> lv !! m = Some y ->
  (x = 4 -> y = 0) /\ (2 <= x -> y <= 1).
Proof.
  intros (Hb & H2 & H4) Hne Hn Hm. destruct (rest_exists lv n x Hb Hn) as (c & d & t & R).
  pose proof (rest_stats _ _ _ _ _ R) as Hst.
  assert (<[n := 0]> lv !! m = Some y) as Hm' by (by rewrite list_lookup_insert_ne).
  destruct (lookup_top _ _ _ Hm') as [Ht Hc]. specialize (Hc 1) as Hc1. specialize (Hc 2) as Hc2.
  rewrite (rest_top _ _ _ _ _ R) in Ht. rewrite (rest_count _ _ _ _ _ R) in Hc1. rewrite (rest_count2 _ _ _ _ _ R) in Hc2.
  pose proof (list_insert_id lv n x Hn) as Hid.
  pose proof (rest_top _ _ _ _ _ R x) as R3. pose proof (rest_count _ _ _ _ _ R x) as R1.
  pose proof (rest_count2 _ _ _ _ _ R x) as R2. rewrite Hid in R1, R2, R3.
  pose proof (proj1 (Forall_lookup _ _) Hb _ _ Hn) as Hx. pose proof (proj1 (Forall_lookup _ _) Hb _ _ Hm) as Hy.
  cbv beta in Hx, Hy. change (at_least 1 0) with 0 in *. change (at_least 2 0) with 0 in *. split; levels.
Qed.

Lemma reachable_inv k s : kvalid k -> rtc sys_step (init_sys k) s -> sys_inv s.
Proof using L.
  intros Hk H. remember (init_sys k) as s0 eqn:E0.
  assert (sys_inv s0) as Hs0.
  { subst. split; [done|]. intros p. split; [by constructor|]. split; [|split; [apply kern_none|done]].
    split; [by constructor|done]. }
  clear E0. induction H as [|s0 s1 s2 Hstep _ IH]; [done|]. apply IH. by eapply step_inv.
Qed.

Lemma level_cases pr n : level pr n = 0 \/ relied pr !! n = Some (level pr n).
Proof. unfold level. destruct (relied pr !! n); [by right|by left]. Qed.

(** C40: the locking protocol excludes.  Any number of processes with any number of handles on the
    file open, lock, unlock and close in any order, a call of one process interleaved with the
    others between any two system calls, each lock request granted or refused by the system.  In
    every state reached, while one handle can rely on an EXCLUSIVE lock no other handle, of the
    same or of another process, can rely on any lock; and while one has a RESERVED lock or more,
    every other has at most SHARED.  The calls of one process follow one another. *)
Theorem locks_exclude k s p n q m : kvalid k -> rtc sys_step (init_sys k) s -> (p, n) <> (q, m) ->
  (level (s_procs s p) n = EXCLUSIVE_LOCK -> level (s_procs s q) m = NO_LOCK) /\
  (RESERVED_LOCK <= level (s_procs s p) n -> level (s_procs s q) m <= SHARED_LOCK).
Proof using L.
  intros Hk Hr Hne. destruct (reachable_inv k s Hk Hr) as [Hv Hp].
  destruct (inv_relied _ _ (Hp p)) as [Hlp Hkp]. destruct (inv_relied _ _ (Hp q)) as [Hlq Hkq].
  unfold EXCLUSIVE_LOCK, NO_LOCK, RESERVED_LOCK, SHARED_LOCK.
  destruct (level_cases (s_procs s p) n) as [E|Ep]; [rewrite E; lia|].
  destruct (level_cases (s_procs s q) m) as [E|Eq]; [rewrite E; lia|].
  destruct (decide (p = q)) as [->|Hpq].
  { apply (relied_exclude (relied (s_procs s q)) n m); try done. intros ->. done. }
  set (x := level (s_procs s p) n) in *. set (y := level (s_procs s q) m) in *.
  pose proof (lookup_top _ _ _ Ep) as [Htp _]. pose proof (lookup_top _ _ _ Eq) as [Htq _].
  pose proof (proj1 (Forall_lookup _ _) (proj1 Hlp) _ _ Ep) as Hx.
  pose proof (proj1 (Forall_lookup _ _) (proj1 Hlq) _ _ Eq) as Hy. cbv beta in Hx, Hy.
  assert (forall lv, lv_ok lv -> top lv <= 4) as Htop.
  { intros lv (Hb & _). apply top_le; [eapply Forall_impl; [exact Hb|cbn; lia]|].
    split; [lia|]. eapply Forall_impl; [exact Hb|cbn; lia]. }
  pose proof (Htop _ Hlp). pose proof (Htop _ Hlq).
  set (tp := top (relied (s_procs s p))) in *. set (tq := top (relied (s_procs s q))) in *.
  assert (in_shared SHARED_FIRST) as Hb by (unfold in_shared, SHARED_SIZE; lia).
  destruct Hkp as (P1 & P2 & P3), Hkq as (Q1 & Q2 & Q3).
  assert (tp = 4 -> 1 <= tq -> False) as X1.
  { intros H4 H1. apply (Q1 H1 _ Hb). eapply held_exclusive; [exact Hv|exact Hpq|]. by apply P3. }
  assert (tq = 4 -> 1 <= tp -> False) as X2.
  { intros H4 H1. apply (P1 H1 _ Hb). eapply held_exclusive; [exact Hv|by apply not_eq_sym|]. by apply Q3. }
  assert (tp = 2 \/ tp = 3 -> tq = 2 \/ tq = 3 -> False) as X3.
  { intros H2 H3. specialize (Q2 H3). rewrite (held_exclusive _ p q RESERVED_BYTE Hv Hpq (P2 H2)) in Q2. done. }
  lia.
Qed.
End Safety.

(** ** Two processes on a local file system *)

(** What processes 0 and 1 hold; a request is granted whenever it does not conflict. *)
Definition conflict (other : hold) (s l : Z) (t : ltype) : bool :=
  existsb (fun n => let b := s + Z.of_nat n in
    match t, other b with F_UNLCK, _ | _, F_UNLCK | F_RDLCK, F_RDLCK => false | _, _ => true end)
    (seq 0 (Z.to_nat l)).

Definition two_set (k : hold * hold) (p : nat) (h : hold) : hold * hold :=
  match p with O => (h, k.2) | S O => (k.1, h) | _ => k end.

Definition two_held (k : hold * hold) (p : nat) : hold :=
  match p with O => k.1 | S O => k.2 | _ => fun _ => F_UNLCK end.

Definition two_setlk (k : hold * hold) (p : nat) (s l : Z) (t : ltype) : Z * (hold * hold) :=
  if decide (t = F_UNLCK) then (0, two_set k p (set_range (two_held k p) s l t))
  else if (2 <=? p)%nat || (l <=? 0) || conflict (two_held k (1 - p)) s l t then (EAGAIN, k)
  else (0, two_set k p (set_range (two_held k p) s l t)).

#[export] Instance two_locks : PosixLocks (hold * hold) := {|
  held := two_held;
  setlk := two_setlk;
  closefd k p := two_set k p (fun _ => F_UNLCK);
  kvalid k := forall b, (k.1 b = F_WRLCK -> k.2 b = F_UNLCK) /\ (k.2 b = F_WRLCK -> k.1 b = F_UNLCK)
|}.

Lemma no_conflict other s l t b : conflict other s l t = false -> 0 < l -> t <> F_UNLCK ->
  in_range s l b = true -> other b = F_UNLCK \/ (t = F_RDLCK /\ other b = F_RDLCK).
Proof.
  intros Hc Hl Ht Hb. unfold in_range in Hb. rewrite (proj2 (Z.eqb_neq l 0)) in Hb by lia. cbn [orb] in Hb. breflect.
  destruct (other b) eqn:Eo; [by left| |]; destruct t; try done; [by right|..]; exfalso;
    apply not_true_iff_false in Hc; apply Hc, existsb_exists; exists (Z.to_nat (b - s));
    (split; [apply in_seq; lia|]); cbv beta zeta; rewrite Z2Nat.id by lia; replace (s + (b - s)) with b by lia; by rewrite Eo.
Qed.

Lemma two_set_held k p h q : (p < 2)%nat -> two_held (two_set k p h) q = if decide (q = p) then h else two_held k q.
Proof. intros Hp. destruct p as [|[|p]]; [| |lia]; destruct q as [|[|q]]; done. Qed.

Lemma two_set_far k p h : (2 <= p)%nat -> two_set k p h = k.
Proof. destruct p as [|[|p]]; [lia..|done]. Qed.

Lemma two_other k p q b : kvalid k -> p <> q -> two_held k p b = F_WRLCK -> two_held k q b = F_UNLCK.
Proof.
  intros Hv Hne. destruct (Hv b) as [H1 H2].
  destruct p as [|[|p]], q as [|[|q]]; cbn; try done; auto.
Qed.

(** Valid is: of two different processes, one that writes is alone. *)
Lemma two_valid k : (forall b, two_held k 0 b = F_WRLCK -> two_held k 1 b = F_UNLCK) ->
  (forall b, two_held k 1 b = F_WRLCK -> two_held k 0 b = F_UNLCK) -> kvalid k.
Proof. intros H1 H2 b. split; [apply H1|apply H2]. Qed.

Lemma two_grant_valid k p s l t : (p < 2)%nat -> kvalid k -> 
  (forall b, in_range s l b = true -> t = F_UNLCK \/ two_held k (1 - p) b = F_UNLCK \/ (t = F_RDLCK /\ two_held k (1 - p) b = F_RDLCK)) ->
  kvalid (two_set k p (set_range (two_held k p) s l t)).
Proof.
  intros Hp Hv Hc. apply two_valid; intros b; rewrite !two_set_held by done; specialize (Hc b);
    destruct p as [|[|p]]; try lia; repeat case_decide; try lia; unfold set_range;
    destruct (Hv b) as [H1 H2]; destruct (in_range s l b); cbn in *; try done; auto;
    destruct (Hc eq_refl) as [?|[?|[? ?]]]; intuition congruence.
Qed.

#[export] Instance two_laws : PosixLaws two_locks.
Proof.
  split; cbn [held setlk closefd two_locks].
  - intros k p s l t Hv. unfold two_setlk. case_decide as Et; cbn [snd].
    + destruct (decide (p < 2)%nat) as [Hp|Hp]; [|by rewrite two_set_far by lia].
      apply two_grant_valid; [done..|]. by left.
    + destruct (_ || _) eqn:E; [done|]. cbn [snd]. apply orb_false_iff in E as [E Hc].
      apply orb_false_iff in E as [Hp Hl]. apply Nat.leb_gt in Hp. apply Z.leb_gt in Hl.
      apply two_grant_valid; [done..|]. intros b Hb. right. by eapply no_conflict.
  - intros k p Hv. destruct (decide (p < 2)%nat) as [Hp|Hp]; [|by rewrite two_set_far by lia].
    apply two_valid; intros b; rewrite !two_set_held by done; destruct (Hv b); repeat case_decide; done || auto.
  - intros k p s l t b Hv H0. unfold two_setlk in *. case_decide as Et.
    + cbn [snd]. destruct (decide (p < 2)%nat) as [Hp|Hp]; [by rewrite two_set_held, decide_True by done|].
      rewrite two_set_far by lia. subst t. unfold set_range. destruct p as [|[|p]]; [lia..|]. cbn. by case_if.
    + destruct (_ || _) eqn:E; [done|]. cbn [snd]. apply orb_false_iff in E as [E _].
      apply orb_false_iff in E as [Hp _]. apply Nat.leb_gt in Hp. by rewrite two_set_held, decide_True by done.
  - intros k p s l t b Hv H. unfold two_setlk in *. case_decide; [done|]. by destruct (_ || _).
  - intros k p q s l t b Hv Hq. unfold two_setlk.
    assert (two_held (two_set k p (set_range (two_held k p) s l t)) q b = two_held k q b) as H.
    { destruct (decide (p < 2)%nat) as [Hp|Hp]; [|by rewrite two_set_far by lia].
      rewrite two_set_held by done. by rewrite decide_False. }
    case_decide; [done|]. by destruct (_ || _).
  - intros k p s l Hv. unfold two_setlk. by rewrite decide_True.
  - intros k p b Hv. destruct p as [|[|p]]; done.
  - intros k p q b Hv Hq. destruct (decide (p < 2)%nat) as [Hp|Hp]; [|by rewrite two_set_far by lia].
    rewrite two_set_held by done. by rewrite decide_False.
  - intros. by eapply two_other.
Qed.

(** *** Schedules *)

Inductive act :=
  | AOpen (p : nat)
  | ACall (p n : nat) (c : call)
  | AStep (p : nat).

(** One action of a schedule, when it is possible. *)
Definition do_act (a : act) (s : @sys (hold * hold)) : option (@sys (hold * hold)) :=
  match a with
  | AOpen p =>
      let pr := s_procs s p in
      match p_run pr with
      | Some _ => None
      | None => Some (set_proc s (s_locks s) p
          (mkProc (Some (findInodeInfo (p_inode pr)))
                  (p_files pr ++ [Some (mkFile NO_LOCK false false false true 0)]) None))
      end
  | ACall p n c =>
      let pr := s_procs s p in
      match p_run pr, p_inode pr, p_files pr !! n with
      | None, Some ino, Some (Some f) =>
          if call_ok f c then
            Some (set_proc s (s_locks s) p
              (mkProc (p_inode pr) (p_files pr) (Some (n, call_level f c, call_prog ino f c))))
          else None
      | _, _, _ => None
      end
  | AStep p =>
      let pr := s_procs s p in
      match p_run pr with
      | None => None
      | Some (n, e, PRet (ino, f)) => Some (set_proc s (s_locks s) p (mkProc ino (<[n := f]> (p_files pr)) None))
      | Some (n, e, PFcntl st l t k) =>
          let r := setlk (s_locks s) p st l t in
          Some (set_proc s r.2 p (mkProc (p_inode pr) (p_files pr) (Some (n, e, k r.1))))
      | Some (n, e, PClose k) =>
          Some (set_proc s (closefd (s_locks s) p) p (mkProc (p_inode pr) (p_files pr) (Some (n, e, k))))
      end
  end.

Fixpoint do_acts (l : list act) (s : sys) : option sys :=
  match l with
  | [] => Some s
  | a :: l => s' ← do_act a s; do_acts l s'
  end.

Lemma do_act_step a s s' : do_act a s = Some s' -> sys_step s s'.
Proof.
  destruct a as [p|p n c|p]; cbn [do_act].
  - destruct (p_run _) eqn:E; [done|]. intros H. simplify_eq. by eapply step_open.
  - destruct (p_run _) eqn:E; [done|]. destruct (p_inode _) eqn:E2; [|done].
    destruct (p_files _ !! n) as [[f|]|] eqn:E3; [|done..]. destruct (call_ok f c) eqn:E4; [|done].
    intros H. apply Some_inj in H as <-. rewrite <- E2. by eapply step_call.
  - destruct (p_run _) as [[[n e] m]|] eqn:E; [|done]. destruct m as [[ino f]|st l t k|k]; intros H;
      apply Some_inj in H as <-; [by eapply step_return|by eapply step_fcntl|by eapply step_close].
Qed.

Lemma do_acts_steps l s s' : do_acts l s = Some s' -> rtc sys_step s s'.
Proof.
  revert s. induction l as [|a l IH]; intros s H; cbn [do_acts] in H; [simplify_eq; constructor|].
  destruct (do_act a s) as [s1|] eqn:E; [|done]. eapply rtc_l; [by eapply do_act_step|by apply IH].
Qed.

Definition free_locks : hold * hold := (fun _ => F_UNLCK, fun _ => F_UNLCK).

(** Two processes open the file; the first reads, then takes the EXCLUSIVE lock while the second
    asks for SHARED. *)
Definition two_readers : list act :=
  [AOpen 0; AOpen 1; ACall 0 0 (CLock false SHARED_LOCK); AStep 0; AStep 0; AStep 0; AStep 0;
   ACall 0 0 (CLock false EXCLUSIVE_LOCK); ACall 1 0 (CLock false SHARED_LOCK); AStep 1; AStep 0; AStep 0;
   AStep 1; AStep 1; AStep 1].

Lemma do_acts_default l s : match do_acts l s with Some _ => true | None => false end = true ->
  do_acts l s = Some (default s (do_acts l s)).
Proof. by destruct (do_acts l s). Qed.

Lemma free_valid : kvalid free_locks.
Proof. done. Qed.

Lemma locks_exclude_witness :
  let s := default (init_sys free_locks) (do_acts two_readers (init_sys free_locks)) in
  level (s_procs s 0) 0 = EXCLUSIVE_LOCK /\ level (s_procs s 1) 0 = NO_LOCK.
Proof.
  intros s. assert (level (s_procs s 0) 0 = EXCLUSIVE_LOCK) as H by (vm_compute; reflexivity).
  split; [exact H|]. refine (proj1 (locks_exclude free_locks s 0 0 1 0 free_valid _ _) H).
  - apply (do_acts_steps two_readers), do_acts_default. vm_compute. reflexivity.
  - discriminate.
Defined.

(** ** Closing a handle outside the mutex

    [unixClose] decides under the mutex of the inode whether the descriptor may be closed, but
    closes it after releasing that mutex.  [locks_exclude] takes the whole of [unixClose] as one
    call; here the three parts are taken apart, with a lock taken by another thread of the
    process in between. *)

(** Run a call of process [p] to its end, no one else running. *)
Fixpoint exec {A} (p : nat) (m : lprog A) (k : hold * hold) : A * (hold * hold) :=
  match m with
  | PRet a => (a, k)
  | PFcntl st l t m => let r := setlk k p st l t in exec p (m r.1) r.2
  | PClose m => exec p m (closefd k p)
  end.

Definition new_file : unixFile := mkFile NO_LOCK false false false true 0.

(** Process 0 has handles A and B, process 1 a handle C.  A is unlocked and about to be closed,
    B takes a SHARED lock, then A's descriptor is closed; C asks for SHARED and EXCLUSIVE.  The
    results are B's and C's return codes and levels. *)
Definition close_race : Z * Z * Z * Z :=
  let i := findInodeInfo (Some (findInodeInfo None)) in
  let '((_, i, a), k) := exec 0 (unixLock false i new_file SHARED_LOCK) free_locks in
  let '((_, i, a), k) := exec 0 (unixUnlock i a NO_LOCK) k in
  let '(i, a) := close_decide i a in
  let '((rcB, i, b), k) := exec 0 (unixLock false i new_file SHARED_LOCK) k in
  let '(_, k) := exec 0 (close_finish i a) k in
  let '((_, j, c), k) := exec 1 (unixLock false (findInodeInfo None) new_file SHARED_LOCK) k in
  let '((rcC, j, c), k) := exec 1 (unixLock false j c EXCLUSIVE_LOCK) k in
  (rcB, f_eFileLock b, rcC, f_eFileLock c).

(** B's lock is lost: another process gets the EXCLUSIVE lock while B has SHARED. *)
Theorem close_loses_a_lock : close_race = (SQLITE_OK, SHARED_LOCK, SQLITE_OK, EXCLUSIVE_LOCK).
Proof. vm_compute. reflexivity. Qed.
