(* ===== verification/Double.v ===== *)
(** * Doubles and integers (util.c and vdbeaux.c of sqlite3.c)

    A [double] is the 64-bit pattern of an IEEE 754 binary64 number, as it is stored in a record.
    The operations of the language on it ([<], [==], the conversions from and to [i64]) are
    written out on the pattern; the comparison of an integer with a double, which decides the
    order of mixed columns, is proved exact. *)

From S2P Require Import Prelude.
From stdpp Require Import options.

Definition EXP754 : Z := Z.shiftl 0x7ff 52.
Definition MAN754 : Z := Z.shiftl 1 52 - 1.
Definition IsNaN (X : Z) : bool := (Z.land X EXP754 =? EXP754) && negb (Z.land X MAN754 =? 0).

Definition sqlite3IsNaN (x : Z) : bool := IsNaN x.

(** ** The language's operations *)

(** Patterns order like sign and magnitude: [-0.0] and [0.0] share the key 0. *)
Definition dkey (r : Z) : Z := if r <? 2 ^ 63 then r else - (r - 2 ^ 63).

Definition double_lt (a b : Z) : bool := negb (IsNaN a) && negb (IsNaN b) && (dkey a <? dkey b).
Definition double_gt (a b : Z) : bool := double_lt b a.
Definition double_ge (a b : Z) : bool := negb (IsNaN a) && negb (IsNaN b) && (dkey b <=? dkey a).

(** The value of a finite pattern times [2^1074]; an infinity is the next power of two. *)
Definition dmag (k : Z) : Z :=
  let e := k / 2 ^ 52 in
  if e =? 0 then k mod 2 ^ 52 else (2 ^ 52 + k mod 2 ^ 52) * 2 ^ (e - 1).

Definition dscaled (r : Z) : Z := if r <? 2 ^ 63 then dmag r else - dmag (r - 2 ^ 63).

(** [(i64)r], for a value in range: the fraction is dropped. *)
Definition i64_of_double (r : Z) : Z := Z.quot (dscaled r) (2 ^ 1074).

(** [a / 2^s] to the nearest integer, to the even one from halfway. *)
Definition round_even (a s : Z) : Z :=
  let q := a / 2 ^ s in
  let rem := a mod 2 ^ s in
  if 2 * rem <? 2 ^ s then q
  else if 2 ^ s <? 2 * rem then q + 1
  else q + q mod 2.

(** [(double)i]; a carry out of the fraction goes into the exponent. *)
Definition double_of_i64 (i : Z) : Z :=
  if i =? 0 then 0
  else
    let a := Z.abs i in
    let k := Z.log2 a in
    let q := if k <=? 52 then a * 2 ^ (52 - k) else round_even a (k - 52) in
    (if i <? 0 then 2 ^ 63 else 0) + (k + 1023) * 2 ^ 52 + (q - 2 ^ 52).

(** -9223372036854775808.0 and 9223372036854775808.0 *)
Definition DBL_MIN_I64 : Z := 0xC3E0000000000000.
Definition DBL_MAX_I64 : Z := 0x43E0000000000000.

(** ** Comparing *)

Definition sqlite3IntFloatCompare (i r : Z) : Z :=
  if sqlite3IsNaN r then 1
  else if double_lt r DBL_MIN_I64 then 1
  else if double_ge r DBL_MAX_I64 then -1
  else
    let y := i64_of_double r in
    if i <? y then -1
    else if y <? i then 1
    else if double_lt (double_of_i64 i) r then -1
    else if double_gt (double_of_i64 i) r then 1 else 0.

Example dbl_1 : double_of_i64 1 = 0x3ff0000000000000. Proof. reflexivity. Qed.
Example dbl_2 : double_of_i64 9007199254740993 = double_of_i64 9007199254740992. Proof. reflexivity. Qed.
Example dbl_3 : double_of_i64 (-9223372036854775808) = DBL_MIN_I64. Proof. reflexivity. Qed.
Example dbl_4 : i64_of_double 0xbff8000000000000 = -1. Proof. vm_compute. reflexivity. Qed.
Example dbl_5 : sqlite3IntFloatCompare 9007199254740993 0x4340000000000000 = 1. Proof. vm_compute. reflexivity. Qed.
Example dbl_6 : sqlite3IntFloatCompare (-1) 0xbff8000000000000 = 1. Proof. vm_compute. reflexivity. Qed.

(** ** Lemmas *)

Lemma dmag_step k : 0 <= k -> dmag k < dmag (k + 1).
Proof.
  intros Hk. unfold dmag. change (2 ^ 52) with 4503599627370496.
  pose proof (Z.div_mod k 4503599627370496 ltac:(lia)) as Hd.
  pose proof (Z.mod_pos_bound k 4503599627370496 ltac:(lia)) as Hm.
  pose proof (Z.div_pos k 4503599627370496 Hk ltac:(lia)) as He.
  set (e := k / 4503599627370496) in *. set (m := k mod 4503599627370496) in *.
  destruct (Z.eq_dec (m + 1) 4503599627370496) as [Hc|Hc].
  - assert ((k + 1) / 4503599627370496 = e + 1) as -> by (symmetry; apply (Z.div_unique _ _ _ 0); lia).
    assert ((k + 1) mod 4503599627370496 = 0) as -> by (symmetry; apply (Z.mod_unique _ _ (e + 1)); lia).
    rewrite (proj2 (Z.eqb_neq (e + 1) 0)) by lia. replace (e + 1 - 1) with e by lia.
    destruct (Z.eqb_spec e 0) as [->|He0]; [change (2 ^ 0) with 1; lia|].
    replace (2 ^ e) with (2 * 2 ^ (e - 1)) by (rewrite <- Z.pow_succ_r by lia; f_equal; lia).
    pose proof (Z.pow_pos_nonneg 2 (e - 1)). nia.
  - assert ((k + 1) / 4503599627370496 = e) as -> by (symmetry; apply (Z.div_unique _ _ _ (m + 1)); lia).
    assert ((k + 1) mod 4503599627370496 = m + 1) as -> by (symmetry; apply (Z.mod_unique _ _ e); lia).
    destruct (Z.eqb_spec e 0); [lia|]. pose proof (Z.pow_pos_nonneg 2 (e - 1)). nia.
Qed.

Lemma dmag_mono a b : 0 <= a < b -> dmag a < dmag b.
Proof.
  intros H. replace b with (a + 1 + Z.of_nat (Z.to_nat (b - a - 1))) by lia.
  induction (Z.to_nat (b - a - 1)) as [|n IH].
  - rewrite Z.add_0_r. apply dmag_step. lia.
  - etransitivity; [exact IH|]. replace (a + 1 + Z.of_nat (S n)) with (a + 1 + Z.of_nat n + 1) by lia.
    apply dmag_step. lia.
Qed.

Lemma dmag_0 : dmag 0 = 0.
Proof. reflexivity. Qed.

Lemma dmag_lt a b : 0 <= a -> 0 <= b -> (dmag a < dmag b <-> a < b).
Proof.
  intros Ha Hb. split; [|by intros; apply dmag_mono].
  intros H. destruct (Z.lt_trichotomy a b) as [|[->|Hgt]]; [done|lia|]. pose proof (dmag_mono b a). lia.
Qed.

Lemma dmag_nonneg a : 0 <= a -> 0 <= dmag a.
Proof. intros Ha. destruct (decide (a = 0)) as [->|]; [done|]. pose proof (dmag_mono 0 a). rewrite dmag_0 in *. lia. Qed.

(** The pattern order is the order of the values. *)
Lemma dscaled_lt a b : 0 <= a < 2 ^ 64 -> 0 <= b < 2 ^ 64 -> (dscaled a < dscaled b <-> dkey a < dkey b).
Proof.
  intros Ha Hb. unfold dscaled, dkey. change (2 ^ 64) with (2 * 2 ^ 63) in *.
  pose proof (Z.pow_pos_nonneg 2 63).
  destruct (Z.ltb_spec a (2 ^ 63)), (Z.ltb_spec b (2 ^ 63)).
  - apply dmag_lt; lia.
  - pose proof (dmag_nonneg a). pose proof (dmag_nonneg (b - 2 ^ 63)). lia.
  - pose proof (dmag_nonneg b ltac:(lia)). pose proof (dmag_nonneg (a - 2 ^ 63) ltac:(lia)).
    pose proof (dmag_lt 0 b). pose proof (dmag_lt 0 (a - 2 ^ 63)). rewrite dmag_0 in *. lia.
  - rewrite <- !Z.opp_lt_mono. apply dmag_lt; lia.
Qed.

(** A finite magnitude is a fraction below [2^53] times a power of two. *)
Lemma dmag_parts k : 0 <= k -> exists m e, dmag k = m * 2 ^ e /\ 0 <= m < 2 ^ 53 /\ 0 <= e /\
  (2 ^ 53 <= dmag k -> 2 ^ 52 <= m).
Proof.
  intros Hk. unfold dmag. pose proof (Z.mod_pos_bound k (2 ^ 52) ltac:(lia)) as Hm.
  pose proof (Z.div_pos k (2 ^ 52) Hk ltac:(lia)). destruct (Z.eqb_spec (k / 2 ^ 52) 0).
  - exists (k mod 2 ^ 52), 0. change (2 ^ 0) with 1. change (2 ^ 53) with (2 * 2 ^ 52). lia.
  - exists (2 ^ 52 + k mod 2 ^ 52), (k / 2 ^ 52 - 1). change (2 ^ 53) with (2 * 2 ^ 52). lia.
Qed.

Lemma round_even_exact m s : 0 < s -> round_even (m * 2 ^ s) s = m.
Proof.
  intros Hs. unfold round_even. pose proof (Z.pow_pos_nonneg 2 s).
  rewrite Z.div_mul, Z.mod_mul by lia. by rewrite (proj2 (Z.ltb_lt _ _)) by lia.
Qed.

(** The magnitude of a pattern assembled from exponent and fraction. *)
Lemma dmag_build e q : 1 <= e -> 2 ^ 52 <= q < 2 ^ 53 -> dmag (e * 2 ^ 52 + (q - 2 ^ 52)) = q * 2 ^ (e - 1).
Proof.
  intros He Hq. unfold dmag. change (2 ^ 53) with (2 * 2 ^ 52) in Hq.
  assert ((e * 2 ^ 52 + (q - 2 ^ 52)) / 2 ^ 52 = e) as -> by (symmetry; apply (Z.div_unique _ _ _ (q - 2 ^ 52)); lia).
  assert ((e * 2 ^ 52 + (q - 2 ^ 52)) mod 2 ^ 52 = q - 2 ^ 52) as -> by (symmetry; apply (Z.mod_unique _ _ e); lia).
  rewrite (proj2 (Z.eqb_neq e 0)) by lia. f_equal. lia.
Qed.

(** An integer that is a fraction of 53 bits times a power of two converts exactly. *)
Lemma double_of_exact a m e : 0 < a < 2 ^ 64 -> a = m * 2 ^ e -> 0 <= m < 2 ^ 53 -> 0 <= e ->
  let k := Z.log2 a in
  let q := if k <=? 52 then a * 2 ^ (52 - k) else round_even a (k - 52) in
  2 ^ 52 <= q < 2 ^ 53 /\ dmag ((k + 1023) * 2 ^ 52 + (q - 2 ^ 52)) = a * 2 ^ 1074 /\ 0 <= k < 64.
Proof.
  intros Ha Heq Hm He k q. destruct (Z.log2_spec a ltac:(lia)) as [Hk1 Hk2]. fold k in Hk1, Hk2.
  pose proof (Z.log2_nonneg a) as Hk0. fold k in Hk0.
  assert (k < 64) as Hk64 by (apply Z.log2_lt_pow2; lia).
  assert (2 ^ Z.succ k = 2 * 2 ^ k) as Hs by (apply Z.pow_succ_r; lia).
  assert (2 ^ 52 <= q < 2 ^ 53 /\ q * 2 ^ k = a * 2 ^ 52) as [Hq1 Hq2].
  { unfold q. destruct (Z.leb_spec k 52) as [Hle|Hgt].
    - assert (2 ^ 52 = 2 ^ k * 2 ^ (52 - k)) as H52 by (rewrite <- Z.pow_add_r by lia; f_equal; lia).
      pose proof (Z.pow_pos_nonneg 2 (52 - k) ltac:(lia) ltac:(lia)).
      change (2 ^ 53) with (2 * 2 ^ 52). rewrite H52. split; nia.
    - assert (2 ^ k = 2 ^ 52 * 2 ^ (k - 52)) as Hpk by (rewrite <- Z.pow_add_r by lia; f_equal; lia).
      pose proof (Z.pow_pos_nonneg 2 (k - 52) ltac:(lia) ltac:(lia)) as Hp.
      assert (k - 52 <= e) as Hke.
      { destruct (Z.le_gt_cases (k - 52) e) as [|Hlt]; [done|].
        assert (2 ^ e * 2 <= 2 ^ (k - 52)) as Hpe.
        { rewrite Z.mul_comm, <- Z.pow_succ_r by lia. apply Z.pow_le_mono_r; lia. }
        pose proof (Z.pow_pos_nonneg 2 e ltac:(lia) He). change (2 ^ 53) with (2 * 2 ^ 52) in Hm. nia. }
      assert (a = m * 2 ^ (e - (k - 52)) * 2 ^ (k - 52)) as Hdiv.
      { rewrite <- Z.mul_assoc, <- Z.pow_add_r by lia. rewrite Heq. do 2 f_equal. lia. }
      rewrite Hdiv at 1 2 3. rewrite round_even_exact by lia.
      set (w := m * 2 ^ (e - (k - 52))) in *. change (2 ^ 53) with (2 * 2 ^ 52). split; nia. }
  split; [done|]. split; [|lia]. rewrite dmag_build by lia.
  replace (k + 1023 - 1) with (k + 1022) by lia. rewrite Z.pow_add_r by lia.
  rewrite Z.mul_assoc, Hq2, <- Z.mul_assoc. f_equal. 
Qed.

(** A NaN is above infinity in magnitude. *)
Lemma nan_key r : 0 <= r < 2 ^ 64 -> IsNaN r = (0x7ff0000000000000 <? Z.abs (dkey r)).
Proof.
  intros Hr.
  assert (Z.land r MAN754 = r mod 2 ^ 52) as Hm by (change MAN754 with (Z.ones 52); by apply Z.land_ones).
  assert (Z.land r EXP754 = (r / 2 ^ 52 mod 2 ^ 11) * 2 ^ 52) as He.
  { change EXP754 with (Z.shiftl (Z.ones 11) 52).
    assert (Z.land r (Z.shiftl (Z.ones 11) 52) = Z.shiftl (Z.land (Z.shiftr r 52) (Z.ones 11)) 52) as ->.
    { apply Z.bits_inj_iff'; intros n Hn. rewrite !Z.land_spec. destruct (Z.ltb_spec n 52).
      - rewrite !Z.shiftl_spec_low by lia. apply andb_false_r.
      - rewrite !Z.shiftl_spec, Z.land_spec, Z.shiftr_spec by lia. f_equal. f_equal. lia. }
    rewrite Z.land_ones, Z.shiftr_div_pow2, Z.shiftl_mul_pow2 by lia. done. }
  unfold IsNaN. rewrite Hm, He. change EXP754 with (0x7ff * 2 ^ 52). unfold dkey.
  change 0x7ff0000000000000 with (0x7ff * 2 ^ 52).
  change (2 ^ 64) with (4096 * 2 ^ 52) in Hr. change (2 ^ 63) with (2048 * 2 ^ 52). change (2 ^ 11) with 2048.
  change (2 ^ 52) with 4503599627370496 in *.
  apply eq_true_iff_eq. rewrite andb_true_iff, negb_true_iff, Z.eqb_eq, Z.eqb_neq, Z.ltb_lt.
  destruct (Z.ltb_spec r (2048 * 4503599627370496)); Z.to_euclidean_division_equations; lia.
Qed.

(** A converted integer is a finite double: its mantissa may round up to [2^53], which carries
    into the exponent. *)
Lemma double_of_i64_ok i : - 2 ^ 63 <= i < 2 ^ 63 ->
  0 <= double_of_i64 i < 2 ^ 64 /\ IsNaN (double_of_i64 i) = false.
Proof.
  intros Hi. unfold double_of_i64. destruct (Z.eqb_spec i 0) as [->|Hi0]; [done|].
  assert (0 < Z.abs i) as Ha by lia. destruct (Z.log2_spec _ Ha) as [Hlo Hhi].
  assert (Z.log2 (Z.abs i) <= 63) as Hk63 by (apply (Z.log2_le_mono _ (2 ^ 63)); lia).
  pose proof (Z.log2_nonneg (Z.abs i)) as Hk0.
  set (a := Z.abs i) in *. set (k := Z.log2 a) in *. rewrite Z.pow_succ_r in Hhi by done.
  set (q := if k <=? 52 then a * 2 ^ (52 - k) else round_even a (k - 52)).
  assert (2 ^ 52 <= q <= 2 * 2 ^ 52) as Hq.
  { unfold q. destruct (Z.leb_spec k 52) as [Hle|Hgt].
    - replace (2 ^ 52) with (2 ^ k * 2 ^ (52 - k)) by (rewrite <- Z.pow_add_r by lia; f_equal; lia).
      pose proof (Z.pow_pos_nonneg 2 (52 - k)). nia.
    - pose proof (Z.pow_pos_nonneg 2 (k - 52) ltac:(lia) ltac:(lia)) as Hp.
      assert (2 ^ k = 2 ^ 52 * 2 ^ (k - 52)) as E by (rewrite <- Z.pow_add_r by lia; f_equal; lia).
      rewrite E in Hlo, Hhi. set (P := 2 ^ (k - 52)) in *. set (W := 2 ^ 52) in *.
      assert (W <= a / P) by (apply Z.div_le_lower_bound; lia).
      assert (a / P < 2 * W) by (apply Z.div_lt_upper_bound; lia).
      unfold round_even. fold P. pose proof (Z.mod_pos_bound (a / P) 2). repeat case_if; lia. }
  change (2 ^ 64) with (4096 * 2 ^ 52). change (2 ^ 63) with (2048 * 2 ^ 52).
  assert (0 <= (if i <? 0 then 2048 * 2 ^ 52 else 0) + (k + 1023) * 2 ^ 52 + (q - 2 ^ 52) < 4096 * 2 ^ 52) as Hr
    by (change (2 ^ 52) with 4503599627370496 in *; case_if; lia).
  split; [done|]. rewrite nan_key by done. apply Z.ltb_ge. unfold dkey. change (2 ^ 63) with (2048 * 2 ^ 52).
  change (2 ^ 52) with 4503599627370496 in *. repeat case_if; lia.
Qed.

(** Conversion of an integer that 53 bits can hold, up to a power of two, is exact. *)
Lemma double_of_i64_exact i m e : - 2 ^ 63 <= i < 2 ^ 63 -> Z.abs i = m * 2 ^ e -> 0 <= m < 2 ^ 53 -> 0 <= e ->
  dscaled (double_of_i64 i) = i * 2 ^ 1074 /\ 0 <= double_of_i64 i < 2 ^ 64 /\ IsNaN (double_of_i64 i) = false.
Proof.
  intros Hi Habs Hm He. split; [|by apply double_of_i64_ok].
  unfold double_of_i64. destruct (Z.eqb_spec i 0) as [->|Hi0]; [done|].
  destruct (double_of_exact (Z.abs i) m e ltac:(lia) Habs Hm He) as (Hq & Hd & Hk).
  set (a := Z.abs i) in *. set (k := Z.log2 a) in *.
  set (q := if k <=? 52 then a * 2 ^ (52 - k) else round_even a (k - 52)) in *.
  set (b := (k + 1023) * 2 ^ 52 + (q - 2 ^ 52)) in *.
  assert (0 <= b < 0x7ff0000000000000) as Hb by (unfold b; change (2 ^ 53) with (2 * 2 ^ 52) in Hq; change (2 ^ 52) with 4503599627370496 in *; lia).
  rewrite <- Z.add_assoc. fold b. assert (0x7ff0000000000000 < 2 ^ 63) as H63 by lia.
  unfold dscaled. destruct (Z.ltb_spec i 0) as [Hneg|Hpos].
  - rewrite (proj2 (Z.ltb_ge _ _)) by lia. replace (2 ^ 63 + b - 2 ^ 63) with b by lia. rewrite Hd. unfold a.
    rewrite Z.abs_neq by lia. lia.
  - rewrite (proj2 (Z.ltb_lt _ _)) by lia. rewrite Z.add_0_l, Hd. unfold a. by rewrite Z.abs_eq by lia.
Qed.

(** The integer part of a double converts back to a double exactly, as far as the double is
    within half a unit: above [2^53] a double is an integer, below it every integer is a double. *)
Lemma i64_of_double_exact r : 0 <= r < 2 ^ 64 -> - 2 ^ 63 <= i64_of_double r < 2 ^ 63 ->
  exists m e, Z.abs (i64_of_double r) = m * 2 ^ e /\ 0 <= m < 2 ^ 53 /\ 0 <= e.
Proof.
  intros Hr Hi. assert (exists k, 0 <= k /\ Z.abs (dscaled r) = dmag k) as (k & Hk & Habs).
  { unfold dscaled. destruct (Z.ltb_spec r (2 ^ 63)); [exists r|exists (r - 2 ^ 63)];
      (split; [lia|]); rewrite ?Z.abs_opp; apply Z.abs_eq, dmag_nonneg; lia. }
  assert (Z.abs (i64_of_double r) = dmag k / 2 ^ 1074) as ->.
  { unfold i64_of_double. rewrite <- Z.quot_abs by lia. rewrite Habs. rewrite (Z.abs_eq (2 ^ 1074)) by lia.
    apply Z.quot_div_nonneg; [by apply dmag_nonneg|lia]. }
  destruct (dmag_parts k Hk) as (m & e & Heq & Hm & He & Hbig).
  destruct (Z.le_gt_cases 1074 e) as [Hge|Hlt].
  - exists m, (e - 1074). split; [|lia]. rewrite Heq.
    replace (2 ^ e) with (2 ^ (e - 1074) * 2 ^ 1074) by (rewrite <- Z.pow_add_r by lia; f_equal; lia).
    rewrite Z.mul_assoc, Z.div_mul by lia. done.
  - exists (dmag k / 2 ^ 1074), 0. change (2 ^ 0) with 1. split; [lia|]. split; [|lia].
    pose proof (dmag_nonneg k Hk). split; [apply Z.div_pos; lia|]. apply Z.div_lt_upper_bound; [lia|].
    rewrite Heq. assert (2 ^ e <= 2 ^ 1074) by (apply Z.pow_le_mono_r; lia).
    pose proof (Z.pow_pos_nonneg 2 e ltac:(lia) He). nia.
Qed.

Lemma double_lt_scaled a b : 0 <= a < 2 ^ 64 -> 0 <= b < 2 ^ 64 -> IsNaN a = false -> IsNaN b = false ->
  double_lt a b = (dscaled a <? dscaled b).
Proof.
  intros Ha Hb HNa HNb. unfold double_lt. rewrite HNa, HNb. cbn [negb andb].
  apply eq_true_iff_eq. rewrite !Z.ltb_lt. symmetry. by apply dscaled_lt.
Qed.

Lemma dkey_le_scaled a b : 0 <= a < 2 ^ 64 -> 0 <= b < 2 ^ 64 -> (dkey a <=? dkey b) = (dscaled a <=? dscaled b).
Proof.
  intros Ha Hb. apply eq_true_iff_eq. rewrite !Z.leb_le. rewrite <- !Z.nlt_ge. by rewrite dscaled_lt.
Qed.

Lemma bounds_scaled : dscaled DBL_MIN_I64 = - 2 ^ 63 * 2 ^ 1074 /\ dscaled DBL_MAX_I64 = 2 ^ 63 * 2 ^ 1074.
Proof. split; vm_compute; reflexivity. Qed.

(** Truncated division against the multiples of the divisor. *)
Lemma quot_order a P : 0 < P ->
  (forall j, (j < Z.quot a P -> j * P < a) /\ (Z.quot a P < j -> a < j * P)) /\
  (0 <= a -> Z.quot a P * P <= a) /\ (a < 0 -> a <= Z.quot a P * P).
Proof.
  intros HP. pose proof (Z.quot_rem a P ltac:(lia)) as Hq. rewrite (Z.mul_comm P) in Hq. set (q := Z.quot a P) in *.
  assert (forall j, j <= q - 1 -> j * P <= q * P - P) as Hlo by (intros; nia).
  assert (forall j, q + 1 <= j -> q * P + P <= j * P) as Hhi by (intros; nia).
  destruct (Z.le_gt_cases 0 a).
  - pose proof (Z.rem_bound_pos a P ltac:(lia) ltac:(lia)). split; [|lia].
    intros j. split; intros Hj; [specialize (Hlo j)|specialize (Hhi j)]; lia.
  - pose proof (Z.rem_bound_pos_neg a P HP ltac:(lia)). split; [|lia].
    intros j. split; intros Hj; [specialize (Hlo j)|specialize (Hhi j)]; lia.
Qed.

(** The comparison by cases on the sign and the range of the double. *)
Lemma int_float_spec i r : - 2 ^ 63 <= i < 2 ^ 63 -> 0 <= r < 2 ^ 64 ->
  sqlite3IntFloatCompare i r =
  if IsNaN r then 1
  else match i * 2 ^ 1074 ?= dscaled r with Lt => -1 | Eq => 0 | Gt => 1 end.
Proof.
  intros Hi Hr. unfold sqlite3IntFloatCompare, sqlite3IsNaN. destruct (IsNaN r) eqn:HN; [done|].
  destruct bounds_scaled as [Hlo Hhi]. set (P := 2 ^ 1074) in *.
  assert (0 < P) as HP by (apply Z.pow_pos_nonneg; lia).
  rewrite double_lt_scaled by (done || (unfold DBL_MIN_I64; lia)). rewrite Hlo.
  destruct (Z.ltb_spec (dscaled r) (- 2 ^ 63 * P)) as [Hl|Hl].
  { rewrite (proj2 (Z.compare_gt_iff _ _)); [done|]. nia. }
  unfold double_ge. rewrite HN. change (IsNaN DBL_MAX_I64) with false. cbn [negb andb].
  rewrite dkey_le_scaled by (done || (unfold DBL_MAX_I64; lia)). rewrite Hhi.
  destruct (Z.leb_spec (2 ^ 63 * P) (dscaled r)) as [Hh|Hh].
  { rewrite (proj2 (Z.compare_lt_iff _ _)); [done|]. nia. }
  destruct (quot_order (dscaled r) P HP) as (Hord & Hpos & Hneg). 
  change (Z.quot (dscaled r) P) with (i64_of_double r) in Hord, Hpos, Hneg.
  assert (- 2 ^ 63 <= i64_of_double r < 2 ^ 63) as Hy.
  { split; [apply Z.nlt_ge|apply Z.nle_gt]; intros Hc.
    - destruct (Hord (- 2 ^ 63)) as [_ H]. specialize (H Hc). lia.
    - destruct (Hord 0) as [H0 _]. specialize (H0 ltac:(lia)). specialize (Hpos ltac:(lia)).
      assert (2 ^ 63 * P <= i64_of_double r * P) by (apply Z.mul_le_mono_nonneg_r; lia). lia. }
  destruct (Hord i) as [H1 H2].
  destruct (Z.ltb_spec i (i64_of_double r)) as [Hlt|Hge].
  { by rewrite (proj2 (Z.compare_lt_iff _ _)) by auto. }
  destruct (Z.ltb_spec (i64_of_double r) i) as [Hgt|Hle].
  { by rewrite (proj2 (Z.compare_gt_iff _ _)) by auto. }
  assert (i = i64_of_double r) as Heq by lia.
  destruct (i64_of_double_exact r Hr Hy) as (m & e & Habs & Hm & He). rewrite <- Heq in Habs.
  destruct (double_of_i64_exact i m e Hi Habs Hm He) as (Hd & Hrange & HNi).
  unfold double_gt. rewrite !double_lt_scaled, Hd by done. fold P.
  destruct (Z.ltb_spec (i * P) (dscaled r)); [by rewrite (proj2 (Z.compare_lt_iff _ _))|].
  destruct (Z.ltb_spec (dscaled r) (i * P)); [by rewrite (proj2 (Z.compare_gt_iff _ _))|].
  rewrite (proj2 (Z.compare_eq_iff _ _)); [done|lia].
Qed.

(** ** Property *)

(** An integer and a double compare by their exact values.  For every 64-bit integer and
    every double that is not NaN (infinities included), the result is -1, 0 or 1 exactly as the
    integer is below, equal to or above the double's value, also beyond [2^53], where converting
    the integer to a double would round; NaN, which stands for NULL, is below every integer. *)
Theorem int_float_compare_exact i r : - 2 ^ 63 <= i < 2 ^ 63 -> 0 <= r < 2 ^ 64 ->
  sqlite3IntFloatCompare i r =
  if IsNaN r then 1
  else match i * 2 ^ 1074 ?= dscaled r with Lt => -1 | Eq => 0 | Gt => 1 end.
Proof. apply int_float_spec. Qed.

Lemma int_float_compare_exact_witness :
  sqlite3IntFloatCompare 9007199254740993 0x4340000000000000 = 1 /\
  sqlite3IntFloatCompare 9223372036854775807 DBL_MAX_I64 = -1.
Proof.
  assert (- 2 ^ 63 <= 9007199254740993 < 2 ^ 63) as H1 by (split; [discriminate|reflexivity]).
  assert (0 <= 0x4340000000000000 < 2 ^ 64) as H2 by (split; [discriminate|reflexivity]).
  assert (- 2 ^ 63 <= 9223372036854775807 < 2 ^ 63) as H3 by (split; [discriminate|reflexivity]).
  assert (0 <= DBL_MAX_I64 < 2 ^ 64) as H4 by (split; [discriminate|reflexivity]).
  split.
  - rewrite (int_float_compare_exact _ _ H1 H2). vm_compute. reflexivity.
  - rewrite (int_float_compare_exact _ _ H3 H4). vm_compute. reflexivity.
Defined.
