(* ===== verification/RecordFmt.v ===== *)
(** * Records (vdbeaux.c and OP_MakeRecord in vdbe.c of sqlite3.c)

    The format in which a row or an index key is stored: a header of serial types followed by
    the values.  Writing ([OP_MakeRecord]), reading, and the comparisons of a stored key with an
    unpacked one that every index search uses.

    A register is a [Mem]; the members of its union [u] are separate fields, of which the code
    reads only the one the flags select.  A stored record is the list of its bytes; reading
    beyond its end gives 0 (the buffers are padded).  Memory never runs out. *)

From S2P Require Import Prelude Bitwise Varint SqlText SqlNumber Utf Double.
From stdpp Require Import options.

Definition MEM_Null : Z := 0x0001.
Definition MEM_Str : Z := 0x0002.
Definition MEM_Int : Z := 0x0004.
Definition MEM_Real : Z := 0x0008.
Definition MEM_Blob : Z := 0x0010.
Definition MEM_IntReal : Z := 0x0020.
Definition MEM_Term : Z := 0x0200.
Definition MEM_Zero : Z := 0x0400.
Definition MEM_Ephem : Z := 0x4000.

Record Mem := mkMem {
  m_flags : Z;
  u_i : Z;
  u_r : Z;
  u_nZero : Z;
  m_n : Z;
  m_z : list Z;
  uTemp : Z
}.

Definition has (f bit : Z) : bool := negb (Z.land f bit =? 0).

(** ** Serial types *)

Definition sqlite3SmallTypeSizes : list Z :=
  [ 0;  1;  2;  3;  4;  6;  8;  8;  0;  0;
    0;  0;  0;  0;  1;  1;  2;  2;  3;  3;
    4;  4;  5;  5;  6;  6;  7;  7;  8;  8;
    9;  9; 10; 10; 11; 11; 12; 12; 13; 13;
   14; 14; 15; 15; 16; 16; 17; 17; 18; 18;
   19; 19; 20; 20; 21; 21; 22; 22; 23; 23;
   24; 24; 25; 25; 26; 26; 27; 27; 28; 28;
   29; 29; 30; 30; 31; 31; 32; 32; 33; 33;
   34; 34; 35; 35; 36; 36; 37; 37; 38; 38;
   39; 39; 40; 40; 41; 41; 42; 42; 43; 43;
   44; 44; 45; 45; 46; 46; 47; 47; 48; 48;
   49; 49; 50; 50; 51; 51; 52; 52; 53; 53;
   54; 54; 55; 55; 56; 56; 57; 57 ].

Definition sqlite3VdbeSerialTypeLen (serial_type : Z) : Z :=
  if 128 <=? serial_type then (serial_type - 12) / 2
  else zat sqlite3SmallTypeSizes serial_type.

Definition sqlite3VdbeOneByteSerialTypeLen (serial_type : Z) : Z := zat sqlite3SmallTypeSizes serial_type.

Definition ONE_BYTE_INT (x : list Z) : Z := i8 (zat x 0).
Definition TWO_BYTE_INT (x : list Z) : Z := Z.lor (256 * i8 (zat x 0)) (zat x 1).
Definition THREE_BYTE_INT (x : list Z) : Z :=
  Z.lor (Z.lor (65536 * i8 (zat x 0)) (Z.shiftl (zat x 1) 8)) (zat x 2).
Definition FOUR_BYTE_UINT (x : list Z) : Z :=
  Z.lor (Z.lor (Z.lor (u32 (Z.shiftl (zat x 0) 24)) (Z.shiftl (zat x 1) 16)) (Z.shiftl (zat x 2) 8)) (zat x 3).
Definition FOUR_BYTE_INT (x : list Z) : Z :=
  Z.lor (Z.lor (Z.lor (16777216 * i8 (zat x 0)) (Z.shiftl (zat x 1) 16)) (Z.shiftl (zat x 2) 8)) (zat x 3).

(** ** Reading a value *)

Definition set_int (m : Mem) (i : Z) : Mem := mkMem MEM_Int i (u_r m) (u_nZero m) (m_n m) (m_z m) (uTemp m).
Definition set_real (m : Mem) (f r : Z) : Mem := mkMem f (u_i m) r (u_nZero m) (m_n m) (m_z m) (uTemp m).
Definition set_flags (m : Mem) (f : Z) : Mem := mkMem f (u_i m) (u_r m) (u_nZero m) (m_n m) (m_z m) (uTemp m).
Definition set_uTemp (m : Mem) (t : Z) : Mem := mkMem (m_flags m) (u_i m) (u_r m) (u_nZero m) (m_n m) (m_z m) t.

Definition eight_bytes (buf : list Z) : Z :=
  u64 (u64 (Z.shiftl (FOUR_BYTE_UINT buf) 32) + FOUR_BYTE_UINT (zdrop 4 buf)).

Definition serialGet (buf : list Z) (serial_type : Z) (pMem : Mem) : Mem :=
  let x := eight_bytes buf in
  if serial_type =? 6 then set_int pMem (i64 x)
  else set_real pMem (if IsNaN x then MEM_Null else MEM_Real) x.

(** The result, 1 for a NaN, and the cell. *)
Definition serialGet7 (buf : list Z) (pMem : Mem) : Z * Mem :=
  let x := eight_bytes buf in
  if IsNaN x then (1, set_real pMem MEM_Null x) else (0, set_real pMem MEM_Real x).

Definition sqlite3VdbeSerialGet (buf : list Z) (serial_type : Z) (pMem : Mem) : Mem :=
  if serial_type =? 10 then mkMem (Z.lor MEM_Null MEM_Zero) (u_i pMem) (u_r pMem) 0 0 (m_z pMem) (uTemp pMem)
  else if (serial_type =? 11) || (serial_type =? 0) then set_flags pMem MEM_Null
  else if serial_type =? 1 then set_int pMem (ONE_BYTE_INT buf)
  else if serial_type =? 2 then set_int pMem (TWO_BYTE_INT buf)
  else if serial_type =? 3 then set_int pMem (THREE_BYTE_INT buf)
  else if serial_type =? 4 then set_int pMem (FOUR_BYTE_INT buf)
  else if serial_type =? 5 then
    set_int pMem (FOUR_BYTE_UINT (zdrop 2 buf) + Z.shiftl 1 32 * TWO_BYTE_INT buf)
  else if (serial_type =? 6) || (serial_type =? 7) then serialGet buf serial_type pMem
  else if (serial_type =? 8) || (serial_type =? 9) then set_int pMem (serial_type - 8)
  else
    let len := (serial_type - 12) / 2 in
    mkMem (Z.lor (if Z.land serial_type 1 =? 0 then MEM_Blob else MEM_Str) MEM_Ephem)
          (u_i pMem) (u_r pMem) (u_nZero pMem) len (take (Z.to_nat len) buf) (uTemp pMem).

Definition vdbeRecordDecodeInt (serial_type : Z) (aKey : list Z) : Z :=
  if (serial_type =? 0) || (serial_type =? 1) then ONE_BYTE_INT aKey
  else if serial_type =? 2 then TWO_BYTE_INT aKey
  else if serial_type =? 3 then THREE_BYTE_INT aKey
  else if serial_type =? 4 then i32 (FOUR_BYTE_UINT aKey)
  else if serial_type =? 5 then FOUR_BYTE_UINT (zdrop 2 aKey) + Z.shiftl 1 32 * TWO_BYTE_INT aKey
  else if serial_type =? 6 then
    i64 (Z.lor (u64 (Z.shiftl (FOUR_BYTE_UINT aKey) 32)) (FOUR_BYTE_UINT (zdrop 4 aKey)))
  else serial_type - 8.

(** ** Writing: OP_MakeRecord

    The opcode without an affinity string ([P4] is 0), on the registers of the row. *)

Definition varint_len (v : Z) : Z := default 0 (sqlite3VarintLen v).
Definition put_varint (v : Z) : list Z := default [] (sqlite3PutVarint v).

Definition sqlite3VdbeMemExpandBlob (m : Mem) : Mem :=
  mkMem (Z.ldiff (m_flags m) (Z.lor MEM_Zero MEM_Term)) (u_i m) (u_r m) (u_nZero m) (m_n m + u_nZero m)
        (m_z m ++ repeat 0 (Z.to_nat (u_nZero m))) (uTemp m).

(** [nHdr], [nData], [nZero] and the registers done, the last first. *)
Record sizing := mkSizing { nHdr : Z; nData : Z; nZero : Z; sized : list Mem }.

Definition size_int (minWriteFileFormat : Z) (pRec : Mem) (nData : Z) : Z * Mem :=
  let i := u_i pRec in
  let uu := if i <? 0 then u64 (Z.lnot i) else u64 i in
  if uu <=? 127 then
    if (Z.land i 1 =? i) && (4 <=? minWriteFileFormat) then (nData, set_uTemp pRec (8 + u32 uu))
    else (nData + 1, set_uTemp pRec 1)
  else if uu <=? 32767 then (nData + 2, set_uTemp pRec 2)
  else if uu <=? 8388607 then (nData + 3, set_uTemp pRec 3)
  else if uu <=? 2147483647 then (nData + 4, set_uTemp pRec 4)
  else if uu <=? 140737488355327 then (nData + 6, set_uTemp pRec 5)
  else if has (m_flags pRec) MEM_IntReal then
    (nData + 8, mkMem (Z.lor (Z.ldiff (m_flags pRec) MEM_IntReal) MEM_Real) (u_i pRec) (double_of_i64 (u_i pRec))
                      (u_nZero pRec) (m_n pRec) (m_z pRec) 7)
  else (nData + 8, set_uTemp pRec 6).

Definition size_field (minWriteFileFormat : Z) (pRec : Mem) (s : sizing) : sizing :=
  if has (m_flags pRec) MEM_Null then
    mkSizing (nHdr s + 1) (nData s) (nZero s)
      (set_uTemp pRec (if has (m_flags pRec) MEM_Zero then 10 else 0) :: sized s)
  else if has (m_flags pRec) (Z.lor MEM_Int MEM_IntReal) then
    let '(d, m) := size_int minWriteFileFormat pRec (nData s) in
    mkSizing (nHdr s + 1) d (nZero s) (m :: sized s)
  else if has (m_flags pRec) MEM_Real then
    mkSizing (nHdr s + 1) (nData s + 8) (nZero s) (set_uTemp pRec 7 :: sized s)
  else
    let len := u32 (m_n pRec) in
    let serial_type := u32 (len * 2 + 12 + (if has (m_flags pRec) MEM_Str then 1 else 0)) in
    let '(serial_type, len, nz, pRec) :=
      if has (m_flags pRec) MEM_Zero then
        let serial_type := u32 (serial_type + u32 (u_nZero pRec) * 2) in
        if negb (nData s =? 0) then
          (serial_type, u32 (len + u_nZero pRec), nZero s, sqlite3VdbeMemExpandBlob pRec)
        else (serial_type, len, nZero s + u_nZero pRec, pRec)
      else (serial_type, len, nZero s, pRec) in
    mkSizing (nHdr s + varint_len serial_type) (nData s + len) nz (set_uTemp pRec serial_type :: sized s).

(** The stores [zPayload[k] = (u8)(v&0xff); v >>= 8] for [k] from [len-1] down to 0. *)
Fixpoint store_be (len : nat) (v : Z) (acc : list Z) : list Z :=
  match len with
  | O => acc
  | S k => store_be k (Z.shiftr v 8) (u8 (Z.land v 0xff) :: acc)
  end.

(** What one register adds to the header and to the payload. *)
Definition write_field (pRec : Mem) : list Z * list Z :=
  let serial_type := uTemp pRec in
  if serial_type <=? 7 then
    ([u8 serial_type],
     if serial_type =? 0 then []
     else
       let v := if serial_type =? 7 then u_r pRec else u64 (u_i pRec) in
       store_be (Z.to_nat (zat sqlite3SmallTypeSizes serial_type)) v [])
  else if serial_type <? 0x80 then
    ([u8 serial_type],
     if (14 <=? serial_type) && (0 <? m_n pRec) then take (Z.to_nat (m_n pRec)) (m_z pRec) else [])
  else
    (put_varint serial_type, if negb (m_n pRec =? 0) then take (Z.to_nat (m_n pRec)) (m_z pRec) else []).

Inductive made :=
  | Made (rec : list Z) (nZero : Z)
  | TooBig.

Definition header_size (nHdr : Z) : Z :=
  if nHdr <=? 126 then nHdr + 1
  else
    let nVarint := varint_len nHdr in
    let nHdr := nHdr + nVarint in
    if nVarint <? varint_len nHdr then nHdr + 1 else nHdr.

(** [szMalloc] is the size of the output register's buffer, [limit] the length limit.  The
    payload is written at [nHdr], where the header ends. *)
Definition OP_MakeRecord (minWriteFileFormat szMalloc limit : Z) (regs : list Mem) : made :=
  let s := foldr (size_field minWriteFileFormat) (mkSizing 0 0 0 []) regs in
  let nHdr := header_size (nHdr s) in
  let nByte := nHdr + nData s in
  if negb (nByte + nZero s <=? szMalloc) && (limit <? nByte + nZero s) then TooBig
  else
    let size := if nHdr <? 0x80 then [u8 nHdr] else put_varint nHdr in
    Made (size ++ concat (map (fun m => (write_field m).1) (sized s))
               ++ concat (map (fun m => (write_field m).2) (sized s))) (nZero s).

Definition new_mem : Mem := mkMem MEM_Null 0 0 0 0 [] 0.
Definition mem_int (i : Z) : Mem := mkMem MEM_Int i 0 0 0 [] 0.
Definition mem_real (r : Z) : Mem := mkMem MEM_Real 0 r 0 0 [] 0.
Definition mem_text (s : list Z) : Mem := mkMem MEM_Str 0 0 0 (zlen s) s 0.
Definition mem_blob (s : list Z) : Mem := mkMem MEM_Blob 0 0 0 (zlen s) s 0.

Example rec_1 : OP_MakeRecord 4 0 1000 [mem_int 1; mem_text [97; 98]; new_mem; mem_int (-129); mem_blob [7]]
  = Made [6; 9; 17; 0; 2; 14; 97; 98; 255; 127; 7] 0. Proof. vm_compute. reflexivity. Qed.
Example rec_2 : OP_MakeRecord 4 0 1000 [mem_real 0x3ff0000000000000; mem_int 140737488355327]
  = Made [3; 7; 5; 63; 240; 0; 0; 0; 0; 0; 0; 127; 255; 255; 255; 255; 255] 0. Proof. vm_compute. reflexivity. Qed.

(** ** Comparing values *)

(** [memcmp]: the difference of the first bytes that differ. *)
Fixpoint memcmp (a b : list Z) (k : nat) : Z :=
  match k with
  | O => 0
  | S k =>
      if zat a 0 =? zat b 0 then memcmp (tl a) (tl b) k else zat a 0 - zat b 0
  end.

Definition isAllZero (b : list Z) (len : Z) : bool := forallb (fun c => c =? 0) (take (Z.to_nat len) b).

Definition sqlite3BlobCompare (pB1 pB2 : Mem) : Z :=
  let n1 := m_n pB1 in
  let n2 := m_n pB2 in
  if has (Z.lor (m_flags pB1) (m_flags pB2)) MEM_Zero then
    if has (Z.land (m_flags pB1) (m_flags pB2)) MEM_Zero then i32 (u_nZero pB1 - u_nZero pB2)
    else if has (m_flags pB1) MEM_Zero then
      if negb (isAllZero (m_z pB2) (m_n pB2)) then -1 else i32 (u_nZero pB1 - n2)
    else
      if negb (isAllZero (m_z pB1) (m_n pB1)) then 1 else i32 (n1 - u_nZero pB2)
  else
    let c := memcmp (m_z pB1) (m_z pB2) (Z.to_nat (if n2 <? n1 then n2 else n1)) in
    if negb (c =? 0) then c else i32 (n1 - n2).

(** A collating sequence: the encoding it wants and its function, on texts of that encoding. *)
Record CollSeq := mkColl { c_enc : Z; xCmp : list Z -> list Z -> Z }.

Definition vdbeCompareMemStringWithEncodingChange (enc : Z) (pMem1 pMem2 : Mem) (pColl : CollSeq) : Z :=
  let v m := take (Z.to_nat (m_n m)) (m_z m) in
  xCmp pColl (sqlite3VdbeMemTranslate enc (c_enc pColl) (v pMem1)) (sqlite3VdbeMemTranslate enc (c_enc pColl) (v pMem2)).

(** [enc]: the encoding of both texts. *)
Definition vdbeCompareMemString (enc : Z) (pMem1 pMem2 : Mem) (pColl : CollSeq) : Z :=
  if enc =? c_enc pColl then
    xCmp pColl (take (Z.to_nat (m_n pMem1)) (m_z pMem1)) (take (Z.to_nat (m_n pMem2)) (m_z pMem2))
  else vdbeCompareMemStringWithEncodingChange enc pMem1 pMem2 pColl.

Definition compare_ints (a b : Z) : Z := if a <? b then -1 else if b <? a then 1 else 0.

Definition sqlite3MemCompare (enc : Z) (pMem1 pMem2 : Mem) (pColl : option CollSeq) : Z :=
  let f1 := m_flags pMem1 in
  let f2 := m_flags pMem2 in
  let combined_flags := Z.lor f1 f2 in
  let MEM_AnyInt := Z.lor MEM_Int MEM_IntReal in
  if has combined_flags MEM_Null then Z.land f2 MEM_Null - Z.land f1 MEM_Null
  else if has combined_flags (Z.lor (Z.lor MEM_Int MEM_Real) MEM_IntReal) then
    if has (Z.land f1 f2) MEM_AnyInt then compare_ints (u_i pMem1) (u_i pMem2)
    else if has (Z.land f1 f2) MEM_Real then
      if double_lt (u_r pMem1) (u_r pMem2) then -1
      else if double_gt (u_r pMem1) (u_r pMem2) then 1 else 0
    else if has f1 MEM_AnyInt then
      if has f2 MEM_Real then sqlite3IntFloatCompare (u_i pMem1) (u_r pMem2)
      else if has f2 MEM_AnyInt then compare_ints (u_i pMem1) (u_i pMem2)
      else -1
    else if has f1 MEM_Real then
      if has f2 MEM_AnyInt then - sqlite3IntFloatCompare (u_i pMem2) (u_r pMem1) else -1
    else 1
  else if has combined_flags MEM_Str then
    if negb (has f1 MEM_Str) then 1
    else if negb (has f2 MEM_Str) then -1
    else match pColl with
         | Some pColl => vdbeCompareMemString enc pMem1 pMem2 pColl
         | None => sqlite3BlobCompare pMem1 pMem2
         end
  else sqlite3BlobCompare pMem1 pMem2.

(** ** Comparing a stored key with an unpacked one *)

Definition KEYINFO_ORDER_DESC : Z := 0x01.
Definition KEYINFO_ORDER_BIGNULL : Z := 0x02.

Record KeyInfo := mkKeyInfo {
  k_enc : Z;
  nAllField : Z;
  aSortFlags : list Z;
  aColl : list (option CollSeq)
}.

(** [u_i_cache], [u_z_cache] and [n_cache] are the members [u.i], [u.z] and [n]. *)
Record UnpackedRecord := mkUnpacked {
  pKeyInfo : KeyInfo;
  aMem : list Mem;
  u_i_cache : Z;
  u_z_cache : list Z;
  n_cache : Z;
  nField : Z;
  default_rc : Z;
  errCode : Z;
  r1 : Z;
  r2 : Z;
  eqSeen : Z
}.

Definition SQLITE_CORRUPT : Z := 11.

Definition set_corrupt (p : UnpackedRecord) : UnpackedRecord :=
  mkUnpacked (pKeyInfo p) (aMem p) (u_i_cache p) (u_z_cache p) (n_cache p) (nField p) (default_rc p)
             SQLITE_CORRUPT (r1 p) (r2 p) (eqSeen p).
Definition set_eqSeen (p : UnpackedRecord) : UnpackedRecord :=
  mkUnpacked (pKeyInfo p) (aMem p) (u_i_cache p) (u_z_cache p) (n_cache p) (nField p) (default_rc p)
             (errCode p) (r1 p) (r2 p) 1.

Definition sort_flags (ki : KeyInfo) (i : nat) : Z := nth i (aSortFlags ki) 0.
Definition coll (ki : KeyInfo) (i : nat) : option CollSeq := nth i (aColl ki) None.

(** One round: the comparison of field [i], with the serial type read; [None] is corruption. *)
Definition compare_field (nKey1 : Z) (aKey1 : list Z) (ki : KeyInfo) (idx1 d1 : Z) (i : nat) (pRhs : Mem)
  : option (Z * Z) :=
  let at_d1 := zdrop d1 aKey1 in
  let f := m_flags pRhs in
  if has f (Z.lor MEM_Int MEM_IntReal) then
    let serial_type := zat aKey1 idx1 in
    Some (if 10 <=? serial_type then (if serial_type =? 10 then -1 else 1)
          else if serial_type =? 0 then -1
          else if serial_type =? 7 then
            - sqlite3IntFloatCompare (u_i pRhs) (u_r (serialGet7 at_d1 new_mem).2)
          else compare_ints (vdbeRecordDecodeInt serial_type at_d1) (u_i pRhs),
          serial_type)
  else if has f MEM_Real then
    let serial_type := zat aKey1 idx1 in
    Some (if 10 <=? serial_type then (if serial_type =? 10 then -1 else 1)
          else if serial_type =? 0 then -1
          else if serial_type =? 7 then
            let '(nan, mem1) := serialGet7 at_d1 new_mem in
            if negb (nan =? 0) then -1
            else if double_lt (u_r mem1) (u_r pRhs) then -1
            else if double_gt (u_r mem1) (u_r pRhs) then 1 else 0
          else sqlite3IntFloatCompare (u_i (sqlite3VdbeSerialGet at_d1 serial_type new_mem)) (u_r pRhs),
          serial_type)
  else if has f MEM_Str then
    let serial_type := (getVarint32 (zdrop idx1 aKey1)).2 in
    if serial_type <? 12 then Some (-1, serial_type)
    else if Z.land serial_type 1 =? 0 then Some (1, serial_type)
    else
      let len := (serial_type - 12) / 2 in
      if (nKey1 <? d1 + len) || (nAllField ki <=? Z.of_nat i) then None
      else match coll ki i with
           | Some pColl =>
               Some (vdbeCompareMemString (k_enc ki) (mkMem MEM_Str 0 0 0 len at_d1 0) pRhs pColl, serial_type)
           | None =>
               let nCmp := Z.min len (m_n pRhs) in
               let rc := memcmp at_d1 (m_z pRhs) (Z.to_nat nCmp) in
               Some (if rc =? 0 then i32 (len - m_n pRhs) else rc, serial_type)
           end
  else if has f MEM_Blob then
    let serial_type := (getVarint32 (zdrop idx1 aKey1)).2 in
    if (serial_type <? 12) || negb (Z.land serial_type 1 =? 0) then Some (-1, serial_type)
    else
      let nStr := (serial_type - 12) / 2 in
      if nKey1 <? d1 + nStr then None
      else if has f MEM_Zero then
        Some (if negb (isAllZero at_d1 nStr) then 1 else i32 (nStr - u_nZero pRhs), serial_type)
      else
        let nCmp := Z.min nStr (m_n pRhs) in
        let rc := memcmp at_d1 (m_z pRhs) (Z.to_nat nCmp) in
        Some (if rc =? 0 then i32 (nStr - m_n pRhs) else rc, serial_type)
  else
    let serial_type := zat aKey1 idx1 in
    Some (if (serial_type =? 0) || (serial_type =? 10)
             || ((serial_type =? 7) && negb ((serialGet7 at_d1 new_mem).1 =? 0)) then 0 else 1,
          serial_type).

(** The sort order of the column applied to a difference. *)
Definition apply_sort (sortFlags serial_type : Z) (pRhs : Mem) (rc : Z) : Z :=
  if negb (sortFlags =? 0) then
    if (Z.land sortFlags KEYINFO_ORDER_BIGNULL =? 0)
       || negb (Z.land sortFlags KEYINFO_ORDER_DESC
                =? (if (serial_type =? 0) || has (m_flags pRhs) MEM_Null then 1 else 0))
    then - rc else rc
  else rc.

(** The loop from field [i]; the fields of the right key from there on. *)
Fixpoint compare_loop (nKey1 : Z) (aKey1 : list Z) (szHdr1 : Z) (p : UnpackedRecord) (rhs : list Mem)
  (i : nat) (idx1 d1 : Z) : Z * UnpackedRecord :=
  match rhs with
  | [] => (default_rc p, set_eqSeen p)
  | pRhs :: rhs =>
      match compare_field nKey1 aKey1 (pKeyInfo p) idx1 d1 i pRhs with
      | None => (0, set_corrupt p)
      | Some (rc, serial_type) =>
          if negb (rc =? 0) then (apply_sort (sort_flags (pKeyInfo p) i) serial_type pRhs rc, p)
          else if Z.of_nat i + 1 =? nField p then (default_rc p, set_eqSeen p)
          else
            let d1 := d1 + sqlite3VdbeSerialTypeLen serial_type in
            if nKey1 <? d1 then (default_rc p, set_eqSeen p)
            else
              let idx1 := idx1 + varint_len serial_type in
              if szHdr1 <=? idx1 then (0, set_corrupt p)
              else compare_loop nKey1 aKey1 szHdr1 p rhs (S i) idx1 d1
      end
  end.

Definition sqlite3VdbeRecordCompareWithSkip (nKey1 : Z) (aKey1 : list Z) (pPKey2 : UnpackedRecord) (bSkip : bool)
  : Z * UnpackedRecord :=
  let '(idx1, szHdr1, d1, i) :=
    if bSkip then
      let s1 := zat aKey1 1 in
      let '(idx1, s1) :=
        if s1 <? 0x80 then (2, s1)
        else let '(k, s1) := sqlite3GetVarint32 (zdrop 1 aKey1) in (1 + k, s1) in
      (idx1, zat aKey1 0, zat aKey1 0 + sqlite3VdbeSerialTypeLen s1, 1%nat)
    else
      let '(idx1, szHdr1) := getVarint32 aKey1 in
      (idx1, szHdr1, szHdr1, 0%nat) in
  if nKey1 <? d1 then (0, set_corrupt pPKey2)
  else compare_loop nKey1 aKey1 szHdr1 pPKey2 (drop i (aMem pPKey2)) i idx1 d1.

Definition sqlite3VdbeRecordCompare (nKey1 : Z) (pKey1 : list Z) (pPKey2 : UnpackedRecord) : Z * UnpackedRecord :=
  sqlite3VdbeRecordCompareWithSkip nKey1 pKey1 pPKey2 false.

Definition vdbeRecordCompareInt (nKey1 : Z) (pKey1 : list Z) (pPKey2 : UnpackedRecord) : Z * UnpackedRecord :=
  let aKey := zdrop (Z.land (zat pKey1 0) 0x3F) pKey1 in
  let serial_type := zat pKey1 1 in
  let lhs :=
    if serial_type =? 1 then Some (ONE_BYTE_INT aKey)
    else if serial_type =? 2 then Some (TWO_BYTE_INT aKey)
    else if serial_type =? 3 then Some (THREE_BYTE_INT aKey)
    else if serial_type =? 4 then Some (i32 (FOUR_BYTE_UINT aKey))
    else if serial_type =? 5 then Some (FOUR_BYTE_UINT (zdrop 2 aKey) + Z.shiftl 1 32 * TWO_BYTE_INT aKey)
    else if serial_type =? 6 then
      Some (i64 (Z.lor (u64 (Z.shiftl (FOUR_BYTE_UINT aKey) 32)) (FOUR_BYTE_UINT (zdrop 4 aKey))))
    else if serial_type =? 8 then Some 0
    else if serial_type =? 9 then Some 1
    else None in
  match lhs with
  | None => sqlite3VdbeRecordCompare nKey1 pKey1 pPKey2
  | Some lhs =>
      let v := u_i_cache pPKey2 in
      if lhs <? v then (r1 pPKey2, pPKey2)
      else if v <? lhs then (r2 pPKey2, pPKey2)
      else if 1 <? nField pPKey2 then sqlite3VdbeRecordCompareWithSkip nKey1 pKey1 pPKey2 true
      else (default_rc pPKey2, set_eqSeen pPKey2)
  end.

(** From [serial_type>=12] on. *)
Definition compare_string_text (nKey1 : Z) (aKey1 : list Z) (pPKey2 : UnpackedRecord) (serial_type : Z)
  : Z * UnpackedRecord :=
  if Z.land serial_type 1 =? 0 then (r2 pPKey2, pPKey2)
  else
    let szHdr := zat aKey1 0 in
    let nStr := (serial_type - 12) / 2 in
    if nKey1 <? szHdr + nStr then (0, set_corrupt pPKey2)
    else
      let nCmp := Z.min (n_cache pPKey2) nStr in
      let res := memcmp (zdrop szHdr aKey1) (u_z_cache pPKey2) (Z.to_nat nCmp) in
      if 0 <? res then (r2 pPKey2, pPKey2)
      else if res <? 0 then (r1 pPKey2, pPKey2)
      else
        let res := i32 (nStr - n_cache pPKey2) in
        if res =? 0 then
          if 1 <? nField pPKey2 then sqlite3VdbeRecordCompareWithSkip nKey1 aKey1 pPKey2 true
          else (default_rc pPKey2, set_eqSeen pPKey2)
        else if 0 <? res then (r2 pPKey2, pPKey2)
        else (r1 pPKey2, pPKey2).

Definition vdbeRecordCompareString (nKey1 : Z) (aKey1 : list Z) (pPKey2 : UnpackedRecord) : Z * UnpackedRecord :=
  let serial_type := i8 (zat aKey1 1) in
  if serial_type <? 12 then
    if serial_type <? 0 then
      let serial_type := i32 (sqlite3GetVarint32 (zdrop 1 aKey1)).2 in
      if 12 <=? serial_type then compare_string_text nKey1 aKey1 pPKey2 serial_type
      else (r1 pPKey2, pPKey2)
    else (r1 pPKey2, pPKey2)
  else compare_string_text nKey1 aKey1 pPKey2 serial_type.

Definition set_compare (p : UnpackedRecord) (ui : Z) (uz : list Z) (nn a b : Z) : UnpackedRecord :=
  mkUnpacked (pKeyInfo p) (aMem p) ui uz nn (nField p) (default_rc p) (errCode p) a b (eqSeen p).

(** The function chosen, and the record with the caches it uses filled in. *)
Definition sqlite3VdbeFindCompare (p : UnpackedRecord)
  : (Z -> list Z -> UnpackedRecord -> Z * UnpackedRecord) * UnpackedRecord :=
  let m := nth 0 (aMem p) new_mem in
  let f := m_flags m in
  let sf := sort_flags (pKeyInfo p) 0 in
  if nAllField (pKeyInfo p) <=? 13 then
    if negb (sf =? 0) && negb (Z.land sf KEYINFO_ORDER_BIGNULL =? 0) then (sqlite3VdbeRecordCompare, p)
    else
      let '(a, b) := if negb (sf =? 0) then (1, -1) else (-1, 1) in
      if has f MEM_Int then
        (vdbeRecordCompareInt, set_compare p (u_i m) (u_z_cache p) (n_cache p) a b)
      else
        let p := set_compare p (u_i_cache p) (u_z_cache p) (n_cache p) a b in
        if negb (has f (Z.lor (Z.lor MEM_Real MEM_IntReal) (Z.lor MEM_Null MEM_Blob)))
           && match coll (pKeyInfo p) 0 with None => true | Some _ => false end then
          (vdbeRecordCompareString, set_compare p (u_i_cache p) (m_z m) (m_n m) a b)
        else (sqlite3VdbeRecordCompare, p)
  else (sqlite3VdbeRecordCompare, p).

(** ** Unpacking a key *)

(** [while( idx<szHdr && d<=(u32)nKey )], at most [room] fields; the fields read, the last
    first, and the final [d]. *)
Fixpoint unpack_loop (room : nat) (nKey : Z) (aKey : list Z) (szHdr idx d : Z) (done : list Mem)
  : list Mem * Z :=
  match room with
  | O => (done, d)
  | S room =>
      if (idx <? szHdr) && (d <=? nKey) then
        let '(k, serial_type) := getVarint32 (zdrop idx aKey) in
        let m := sqlite3VdbeSerialGet (zdrop d aKey) serial_type new_mem in
        unpack_loop room nKey aKey szHdr (idx + k) (d + sqlite3VdbeSerialTypeLen serial_type) (m :: done)
      else (done, d)
  end.

(** The key unpacked into [p], which has room for [nField p] (at least 1) fields; the rest of the
    array is not used. *)
Definition sqlite3VdbeRecordUnpack (nKey : Z) (aKey : list Z) (p : UnpackedRecord) : UnpackedRecord :=
  let '(idx, szHdr) := getVarint32 aKey in
  let '(fields, d) := unpack_loop (Z.to_nat (nField p)) nKey aKey szHdr idx szHdr [] in
  let fields :=
    match fields with
    | m :: fields => (if nKey <? d then set_flags m MEM_Null else m) :: fields
    | [] => []
    end in
  mkUnpacked (pKeyInfo p) (rev fields) (u_i_cache p) (u_z_cache p) (n_cache p) (zlen fields) 0
             (errCode p) (r1 p) (r2 p) (eqSeen p).

Definition key_of (l : list Mem) : list Z :=
  match OP_MakeRecord 4 0 1000 l with Made r _ => r | TooBig => [] end.

Definition ki2 : KeyInfo := mkKeyInfo 1 3 [0; 1; 0] [None; None; None].
Definition unpacked (l : list Mem) : UnpackedRecord := mkUnpacked ki2 l 0 [] 0 (zlen l) 0 0 0 0 0.

Example rec_3 : map (fun m => (m_flags m, u_i m, m_z m))
    (aMem (sqlite3VdbeRecordUnpack 9 (key_of [mem_int (-129); mem_text [97]; new_mem]) (unpacked [new_mem; new_mem; new_mem])))
  = [(MEM_Int, -129, []); (Z.lor MEM_Str MEM_Ephem, 0, [97]); (MEM_Null, 0, [])].
Proof. vm_compute. reflexivity. Qed.
Example rec_4 : let k := key_of [mem_int 5; mem_text [97; 98]; mem_int 1] in
  fst (sqlite3VdbeRecordCompare (zlen k) k (unpacked [mem_int 5; mem_text [97; 99]])) = 1.
Proof. vm_compute. reflexivity. Qed.

(** ** What a register means *)

Inductive sval :=
  | SNull
  | SInt (i : Z)
  | SReal (r : Z)
  | SText (b : list Z)
  | SBlob (b : list Z).

Definition mem_bytes (m : Mem) : list Z := take (Z.to_nat (m_n m)) (m_z m).

(** The value of a register, by the flags in the order every routine tests them. *)
Definition mem_val (m : Mem) : sval :=
  let f := m_flags m in
  if has f MEM_Null then SNull
  else if has f (Z.lor MEM_Int MEM_IntReal) then SInt (u_i m)
  else if has f MEM_Real then SReal (u_r m)
  else if has f MEM_Str then SText (mem_bytes m)
  else SBlob (mem_bytes m ++ (if has f MEM_Zero then repeat 0 (Z.to_nat (u_nZero m)) else [])).

(** An integer that prints as a real becomes one when it needs eight bytes. *)
Definition stored_val (m : Mem) : sval :=
  match mem_val m with
  | SInt i =>
      if has (m_flags m) MEM_IntReal && negb ((- 2 ^ 47 <=? i) && (i <? 2 ^ 47)) then SReal (double_of_i64 i)
      else SInt i
  | v => v
  end.

(** The combinations of type flags a register has; other bits do not matter here. *)
Definition type_flags : Z :=
  Z.lor (Z.lor (Z.lor MEM_Null MEM_Str) (Z.lor MEM_Int MEM_Real)) (Z.lor (Z.lor MEM_Blob MEM_IntReal) MEM_Zero).

Definition flag_kinds : list Z :=
  [MEM_Null; MEM_Int; MEM_IntReal; MEM_Real; MEM_Str; MEM_Blob; Z.lor MEM_Blob MEM_Zero;
   Z.lor MEM_Int MEM_Str; Z.lor MEM_IntReal MEM_Str; Z.lor MEM_Real MEM_Str].

Record mem_ok (m : Mem) : Prop := {
  mo_flags : In (Z.land (m_flags m) type_flags) flag_kinds;
  mo_int : - 2 ^ 63 <= u_i m < 2 ^ 63;
  mo_real : 0 <= u_r m < 2 ^ 64 /\ (has (m_flags m) MEM_Real = true -> IsNaN (u_r m) = false);
  mo_bytes : bytes_ok (m_z m) /\ m_n m = zlen (m_z m);
  mo_size : 0 <= u_nZero m /\ m_n m + u_nZero m < 2 ^ 30
}.

(** ** The format *)

Definition int_type (fmt i : Z) : Z :=
  if (- 2 ^ 7 <=? i) && (i <? 2 ^ 7) then
    if ((i =? 0) || (i =? 1)) && (4 <=? fmt) then 8 + i else 1
  else if (- 2 ^ 15 <=? i) && (i <? 2 ^ 15) then 2
  else if (- 2 ^ 23 <=? i) && (i <? 2 ^ 23) then 3
  else if (- 2 ^ 31 <=? i) && (i <? 2 ^ 31) then 4
  else if (- 2 ^ 47 <=? i) && (i <? 2 ^ 47) then 5
  else 6.

Definition val_type (fmt : Z) (v : sval) : Z :=
  match v with
  | SNull => 0
  | SInt i => int_type fmt i
  | SReal _ => 7
  | SText b => 13 + 2 * zlen b
  | SBlob b => 12 + 2 * zlen b
  end.

Definition val_data (fmt : Z) (v : sval) : list Z :=
  match v with
  | SNull => []
  | SInt i => store_be (Z.to_nat (zat sqlite3SmallTypeSizes (int_type fmt i))) (u64 i) []
  | SReal r => store_be 8 r []
  | SText b | SBlob b => b
  end.

Definition hdr_bytes (fmt : Z) (vs : list sval) : list Z := concat (map (fun v => put_varint (val_type fmt v)) vs).
Definition data_bytes (fmt : Z) (vs : list sval) : list Z := concat (map (val_data fmt) vs).

(** ** Lemmas: flags *)

Lemma has_mask f b : Z.land b type_flags = b -> has f b = has (Z.land f type_flags) b.
Proof. intros H. unfold has. rewrite <- Z.land_assoc, (Z.land_comm type_flags), H. done. Qed.

(** The five kinds of registers, with the outcome of every test of the flags. *)
Inductive mem_class (m : Mem) : sval -> Prop :=
  | mc_null : has (m_flags m) MEM_Null = true -> has (m_flags m) (Z.lor MEM_Int MEM_IntReal) = false ->
      has (m_flags m) MEM_Real = false -> has (m_flags m) MEM_Str = false -> has (m_flags m) MEM_Blob = false ->
      has (m_flags m) MEM_Zero = false -> mem_class m SNull
  | mc_int : has (m_flags m) MEM_Null = false -> has (m_flags m) (Z.lor MEM_Int MEM_IntReal) = true ->
      has (m_flags m) MEM_Int = negb (has (m_flags m) MEM_IntReal) -> has (m_flags m) MEM_Real = false ->
      mem_class m (SInt (u_i m))
  | mc_real : has (m_flags m) MEM_Null = false -> has (m_flags m) (Z.lor MEM_Int MEM_IntReal) = false ->
      has (m_flags m) MEM_Real = true -> IsNaN (u_r m) = false -> mem_class m (SReal (u_r m))
  | mc_text : has (m_flags m) MEM_Null = false -> has (m_flags m) (Z.lor MEM_Int MEM_IntReal) = false ->
      has (m_flags m) MEM_Real = false -> has (m_flags m) MEM_Str = true -> has (m_flags m) MEM_Blob = false ->
      has (m_flags m) MEM_Zero = false -> mem_class m (SText (m_z m))
  | mc_blob zs : has (m_flags m) MEM_Null = false -> has (m_flags m) (Z.lor MEM_Int MEM_IntReal) = false ->
      has (m_flags m) MEM_Real = false -> has (m_flags m) MEM_Str = false -> has (m_flags m) MEM_Blob = true ->
      zs = (if has (m_flags m) MEM_Zero then repeat 0 (Z.to_nat (u_nZero m)) else []) ->
      mem_class m (SBlob (m_z m ++ zs)).

Lemma mem_bytes_ok m : mem_ok m -> mem_bytes m = m_z m.
Proof.
  intros [_ _ _ [_ Hn] _]. unfold mem_bytes. rewrite Hn. unfold zlen. rewrite Nat2Z.id. apply take_ge. lia.
Qed.

Lemma mem_classify m : mem_ok m -> mem_class m (mem_val m).
Proof.
  intros Hm. pose proof (mo_flags _ Hm) as Hf. pose proof (mo_real _ Hm) as [_ Hnan].
  unfold mem_val. rewrite (mem_bytes_ok m Hm).
  assert (forall b, Z.land b type_flags = b -> has (m_flags m) b = has (Z.land (m_flags m) type_flags) b) as Hmask
    by (intros; by apply has_mask).
  unfold flag_kinds in Hf. cbn [In] in Hf.
  repeat match type of Hf with _ \/ _ => destruct Hf as [Hf|Hf] | False => destruct Hf end; rewrite <- Hf in Hmask;
    (destruct (has (m_flags m) MEM_Null) eqn:E1; rewrite (Hmask MEM_Null) in E1 by reflexivity; try discriminate E1);
    (destruct (has (m_flags m) (Z.lor MEM_Int MEM_IntReal)) eqn:E2;
       rewrite (Hmask (Z.lor MEM_Int MEM_IntReal)) in E2 by reflexivity; try discriminate E2);
    (destruct (has (m_flags m) MEM_Real) eqn:E3; rewrite (Hmask MEM_Real) in E3 by reflexivity; try discriminate E3);
    (destruct (has (m_flags m) MEM_Str) eqn:E4; rewrite (Hmask MEM_Str) in E4 by reflexivity; try discriminate E4).
  all: first [apply mc_null | apply mc_int | apply mc_real | apply mc_text | apply mc_blob];
    try reflexivity; rewrite ?(Hmask MEM_Null), ?(Hmask (Z.lor MEM_Int MEM_IntReal)), ?(Hmask MEM_Real), ?(Hmask MEM_Str),
      ?(Hmask MEM_Int), ?(Hmask MEM_IntReal), ?(Hmask MEM_Blob), ?(Hmask MEM_Zero) by reflexivity; try reflexivity.
  all: by apply Hnan.
Qed.

(** ** Lemmas: integers *)

Lemma store_be_app k v acc : store_be k v acc = store_be k v [] ++ acc.
Proof.
  revert v acc. induction k as [|k IH]; intros v acc; [done|]. cbn [store_be].
  rewrite (IH _ (_ :: acc)), (IH _ [_]), <- app_assoc. done.
Qed.

Lemma store_be_length k v : length (store_be k v []) = k.
Proof.
  revert v. induction k as [|k IH]; intros v; [done|]. cbn [store_be]. rewrite store_be_app, length_app, IH. simpl. lia.
Qed.

Lemma store_be_ok k v : bytes_ok (store_be k v []).
Proof.
  revert v. induction k as [|k IH]; intros v; [constructor|]. cbn [store_be]. rewrite store_be_app.
  apply Forall_app. split; [apply IH|]. constructor; [apply wrapu_range; lia|constructor].
Qed.

(** The bytes stored are the big-endian ones of the value modulo [256^k]. *)
Lemma store_be_value k v : be_value (store_be k v []) = v mod 2 ^ (8 * Z.of_nat k).
Proof.
  revert v. induction k as [|k IH]; intros v; [change (2 ^ (8 * Z.of_nat 0)) with 1; by rewrite Z.mod_1_r|].
  cbn [store_be]. rewrite store_be_app, be_value_app, IH.
  change (be_value [u8 (Z.land v 0xff)]) with (u8 (Z.land v 0xff)). change (zlen [u8 (Z.land v 255)]) with 1.
  assert (u8 (Z.land v 0xff) = v mod 256) as ->.
  { change 0xff with (Z.ones 8). rewrite Z.land_ones by lia. unfold wrapu. change (2 ^ 8) with 256. apply Z.mod_mod. lia. }
  rewrite Z.shiftr_div_pow2 by lia. change (2 ^ 8) with 256. change (2 ^ (8 * 1)) with 256.
  replace (2 ^ (8 * Z.of_nat (S k))) with (256 * 2 ^ (8 * Z.of_nat k)).
  2:{ change 256 with (2 ^ 8). rewrite <- Z.pow_add_r by lia. f_equal. lia. }
  pose proof (Z.pow_pos_nonneg 2 (8 * Z.of_nat k) ltac:(lia) ltac:(lia)).
  rewrite Z.rem_mul_r by lia. lia.
Qed.

(** Reading the bytes of an integer of each size. *)
Lemma zat_store k v rest : forall i, 0 <= i < Z.of_nat k -> zat (store_be k v [] ++ rest) i = zat (store_be k v []) i.
Proof.
  intros i Hi. unfold zat. rewrite app_nth1; [done|]. rewrite store_be_length. lia.
Qed.

Lemma one_byte b : is_byte b -> forall rest, ONE_BYTE_INT (b :: rest) = wraps 8 b.
Proof. done. Qed.

Lemma i8_split b : is_byte b -> i8 b = b - (if b <? 128 then 0 else 256).
Proof.
  intros Hb. unfold is_byte in Hb. unfold wraps. change (2 ^ (8 - 1)) with 128. change (2 ^ 8) with 256.
  case_if; breflect; Z.to_euclidean_division_equations; lia.
Qed.

Lemma lor_add k a b : 0 <= k -> 0 <= b < 2 ^ k -> Z.lor (2 ^ k * a) b = 2 ^ k * a + b.
Proof.
  intros Hk Hb. symmetry. apply Z.add_nocarry_lor. apply Z.bits_inj_0. intros j.
  rewrite Z.land_spec, Z.mul_comm. destruct (Z.lt_ge_cases j 0); [by rewrite !Z.testbit_neg_r|].
  destruct (Z.lt_ge_cases j k).
  - by rewrite Z.mul_pow2_bits_low by lia.
  - rewrite <- (Z.mod_small b (2 ^ k)) by lia. rewrite Z.mod_pow2_bits_high by lia. apply andb_false_r.
Qed.

(** The multi-byte readers on the bytes of a big-endian value. *)
Lemma four_uint p : bytes_ok p -> FOUR_BYTE_UINT p = be_value [zat p 0; zat p 1; zat p 2; zat p 3].
Proof. apply get4_be. Qed.

Lemma signed_top w b0 v : is_byte b0 -> 0 <= w -> 0 <= v < 2 ^ w ->
  2 ^ w * i8 b0 + v = wraps (8 + w) (2 ^ w * b0 + v).
Proof.
  intros Hb Hw Hv. rewrite i8_split by done. unfold is_byte in Hb.
  unfold wraps. replace (8 + w - 1) with (7 + w) by lia. rewrite !Z.pow_add_r by lia.
  change (2 ^ 7) with 128. change (2 ^ 8) with 256. set (W := 2 ^ w) in *.
  destruct (Z.ltb_spec b0 128).
  - rewrite Z.mod_small by nia. lia.
  - rewrite <- (Z.mod_unique_pos (W * b0 + v + 128 * W) (256 * W) 1 (W * b0 + v - 128 * W)) by nia. lia.
Qed.

Lemma two_int a b r : is_byte a -> is_byte b -> TWO_BYTE_INT (a :: b :: r) = wraps 16 (be_value [a; b]).
Proof.
  intros Ha Hb. unfold TWO_BYTE_INT. change (zat (a :: b :: r) 0) with a. change (zat (a :: b :: r) 1) with b.
  change 256 with (2 ^ 8). unfold is_byte in Hb. rewrite lor_add by (change (2 ^ 8) with 256; lia).
  rewrite (signed_top 8) by (done || (change (2 ^ 8) with 256; lia)). done.
Qed.

Lemma three_int a b c r : is_byte a -> is_byte b -> is_byte c ->
  THREE_BYTE_INT (a :: b :: c :: r) = wraps 24 (be_value [a; b; c]).
Proof.
  intros Ha Hb Hc. unfold THREE_BYTE_INT. change (zat (a :: b :: c :: r) 0) with a.
  change (zat (a :: b :: c :: r) 1) with b. change (zat (a :: b :: c :: r) 2) with c.
  unfold is_byte in Hb, Hc. rewrite <- Z.lor_assoc. rewrite Z.shiftl_mul_pow2, (Z.mul_comm b) by lia.
  rewrite (lor_add 8 b c) by (change (2 ^ 8) with 256; lia).
  change 65536 with (2 ^ 16). change (2 ^ 8) with 256. rewrite lor_add by (change (2 ^ 16) with 65536; lia).
  rewrite (signed_top 16) by (done || (change (2 ^ 16) with 65536; lia)).
  change (8 + 16) with 24. f_equal. unfold be_value. cbn [fold_left]. change (2 ^ 16) with 65536. lia.
Qed.

Lemma four_int a b c d r : is_byte a -> is_byte b -> is_byte c -> is_byte d ->
  FOUR_BYTE_INT (a :: b :: c :: d :: r) = wraps 32 (be_value [a; b; c; d]).
Proof.
  intros Ha Hb Hc Hd. unfold FOUR_BYTE_INT. change (zat (a :: b :: c :: d :: r) 0) with a.
  change (zat (a :: b :: c :: d :: r) 1) with b. change (zat (a :: b :: c :: d :: r) 2) with c.
  change (zat (a :: b :: c :: d :: r) 3) with d. unfold is_byte in Hb, Hc, Hd.
  rewrite <- !Z.lor_assoc. rewrite !Z.shiftl_mul_pow2, (Z.mul_comm b), (Z.mul_comm c) by lia.
  rewrite (lor_add 8 c d) by (change (2 ^ 8) with 256; lia). change (2 ^ 8) with 256.
  rewrite (lor_add 16 b) by (change (2 ^ 16) with 65536; lia). change (2 ^ 16) with 65536.
  change 16777216 with (2 ^ 24). rewrite lor_add by (change (2 ^ 24) with 16777216; lia).
  rewrite (signed_top 24) by (done || (change (2 ^ 24) with 16777216; lia)).
  change (8 + 24) with 32. f_equal. unfold be_value. cbn [fold_left]. change (2 ^ 24) with 16777216. lia.
Qed.

(** The bytes of a value, one by one. *)
Lemma store_be_list k v : exists l, store_be k v [] = l /\ length l = k /\ bytes_ok l /\ be_value l = v mod 2 ^ (8 * Z.of_nat k).
Proof. exists (store_be k v []). split_and!; [done|apply store_be_length|apply store_be_ok|apply store_be_value]. Qed.

Lemma wraps_mod w i : 1 <= w <= 64 -> - 2 ^ (w - 1) <= i < 2 ^ (w - 1) -> wraps w (u64 i mod 2 ^ w) = i.
Proof.
  intros Hw Hi. assert (u64 i mod 2 ^ w = wrapu w i) as ->.
  { unfold wrapu. replace (2 ^ 64) with (2 ^ w * 2 ^ (64 - w)) by (rewrite <- Z.pow_add_r by lia; f_equal; lia).
    pose proof (Z.pow_pos_nonneg 2 w). pose proof (Z.pow_pos_nonneg 2 (64 - w)).
    rewrite Z.rem_mul_r by lia. rewrite Z.mul_comm, Z.mod_add by lia. apply Z.mod_mod. lia. }
  unfold wraps, wrapu. rewrite Zplus_mod_idemp_l. apply wraps_small; lia.
Qed.

Lemma bytes_four l rest : length l = 4%nat -> bytes_ok l -> bytes_ok rest -> FOUR_BYTE_UINT (l ++ rest) = be_value l.
Proof.
  intros Hl Hb Hr. destruct l as [|a [|b [|c [|d [|]]]]]; try done. rewrite four_uint; [done|]. by apply Forall_app.
Qed.

Lemma eight_be l rest : length l = 8%nat -> bytes_ok l -> bytes_ok rest ->
  eight_bytes (l ++ rest) = be_value l /\
  Z.lor (u64 (Z.shiftl (FOUR_BYTE_UINT (l ++ rest)) 32)) (FOUR_BYTE_UINT (zdrop 4 (l ++ rest))) = be_value l.
Proof.
  intros Hl Hb Hr. rewrite <- (take_drop 4 l) in Hb |- *. set (l1 := take 4 l) in *. set (l2 := drop 4 l) in *.
  apply Forall_app in Hb as [Hb1 Hb2].
  assert (length l1 = 4%nat) as H1 by (unfold l1; rewrite length_take; lia).
  assert (length l2 = 4%nat) as H2 by (unfold l2; rewrite length_drop; lia).
  pose proof (be_value_range l1 Hb1) as B1. pose proof (be_value_range l2 Hb2) as B2.
  unfold zlen in B1, B2. rewrite H1 in B1. rewrite H2 in B2. change (2 ^ (8 * Z.of_nat 4)) with (2 ^ 32) in *.
  unfold eight_bytes. rewrite <- !app_assoc.
  rewrite (zdrop_app 4 l1) by (unfold zlen; by rewrite H1).
  rewrite !bytes_four by (done || by apply Forall_app).
  rewrite be_value_app. unfold zlen. rewrite H2. change (2 ^ (8 * Z.of_nat 4)) with (2 ^ 32).
  rewrite Z.shiftl_mul_pow2 by lia. change (2 ^ 32) with 4294967296 in *.
  rewrite (wrapu_small 64 (be_value l1 * 4294967296)) by (change (2 ^ 64) with (4294967296 * 4294967296); lia).
  split.
  - apply wrapu_small. change (2 ^ 64) with (4294967296 * 4294967296). lia.
  - rewrite (Z.mul_comm (be_value l1)). apply (lor_add 32); [lia|]. change (2 ^ 32) with 4294967296. lia.
Qed.

Lemma i64_of_u64 i : - 2 ^ 63 <= i < 2 ^ 63 -> i64 (u64 i) = i.
Proof.
  intros Hi. pose proof (wraps_mod 64 i ltac:(lia) Hi) as H.
  rewrite Z.mod_small in H; [done|]. apply wrapu_range. lia.
Qed.

(** Serial types of integers. *)
Lemma int_type_cases fmt i : - 2 ^ 63 <= i < 2 ^ 63 ->
  (int_type fmt i = 8 /\ i = 0) \/ (int_type fmt i = 9 /\ i = 1) \/
  (int_type fmt i = 1 /\ - 2 ^ 7 <= i < 2 ^ 7) \/ (int_type fmt i = 2 /\ - 2 ^ 15 <= i < 2 ^ 15) \/
  (int_type fmt i = 3 /\ - 2 ^ 23 <= i < 2 ^ 23) \/ (int_type fmt i = 4 /\ - 2 ^ 31 <= i < 2 ^ 31) \/
  (int_type fmt i = 5 /\ - 2 ^ 47 <= i < 2 ^ 47) \/ int_type fmt i = 6.
Proof.
  intros Hi. unfold int_type.
  destruct ((- 2 ^ 7 <=? i) && (i <? 2 ^ 7)) eqn:E1.
  { destruct ((i =? 0) || (i =? 1)) eqn:E0; cbn [andb].
    - destruct (4 <=? fmt); breflect; [|lia]. apply orb_true_iff in E0. rewrite !Z.eqb_eq in E0. lia.
    - breflect. lia. }
  destruct ((- 2 ^ 15 <=? i) && (i <? 2 ^ 15)) eqn:E2; [breflect; lia|].
  destruct ((- 2 ^ 23 <=? i) && (i <? 2 ^ 23)) eqn:E3; [breflect; lia|].
  destruct ((- 2 ^ 31 <=? i) && (i <? 2 ^ 31)) eqn:E4; [breflect; lia|].
  destruct ((- 2 ^ 47 <=? i) && (i <? 2 ^ 47)) eqn:E5; [breflect; lia|]. lia.
Qed.

Lemma read_int fmt i rest : - 2 ^ 63 <= i < 2 ^ 63 -> bytes_ok rest ->
  let t := int_type fmt i in
  let buf := val_data fmt (SInt i) ++ rest in
  vdbeRecordDecodeInt t buf = i /\ (forall m, sqlite3VdbeSerialGet buf t m = set_int m i) /\
  sqlite3VdbeSerialTypeLen t = zlen (val_data fmt (SInt i)).
Proof.
  intros Hi Hr t buf. subst t buf. cbn [val_data].
  destruct (int_type_cases fmt i Hi) as [[-> ->]|[[-> ->]|[[-> H]|[[-> H]|[[-> H]|[[-> H]|[[-> H]| -> ]]]]]]].
  - done.
  - done.
  - change (Z.to_nat (zat sqlite3SmallTypeSizes 1)) with 1%nat.
    destruct (store_be_list 1 (u64 i)) as (l & -> & Hl & Hb & Hv). destruct l as [|a [|]]; try done.
    apply Forall_cons in Hb as [Ha _].
    assert (ONE_BYTE_INT (a :: rest) = i) as E.
    { rewrite one_byte by done. change (be_value [a]) with a in Hv. rewrite Hv. by apply wraps_mod. }
    cbn [app]. split_and!; [exact E|intros m; cbn; by rewrite E|done].
  - change (Z.to_nat (zat sqlite3SmallTypeSizes 2)) with 2%nat.
    destruct (store_be_list 2 (u64 i)) as (l & -> & Hl & Hb & Hv). destruct l as [|a [|b [|]]]; try done.
    repeat (apply Forall_cons in Hb as [? Hb]).
    assert (TWO_BYTE_INT (a :: b :: rest) = i) as E.
    { rewrite two_int by done. rewrite Hv. by apply wraps_mod. }
    cbn [app]. split_and!; [exact E|intros m; cbn; by rewrite E|done].
  - change (Z.to_nat (zat sqlite3SmallTypeSizes 3)) with 3%nat.
    destruct (store_be_list 3 (u64 i)) as (l & -> & Hl & Hb & Hv). destruct l as [|a [|b [|c [|]]]]; try done.
    repeat (apply Forall_cons in Hb as [? Hb]).
    assert (THREE_BYTE_INT (a :: b :: c :: rest) = i) as E.
    { rewrite three_int by done. rewrite Hv. by apply wraps_mod. }
    cbn [app]. split_and!; [exact E|intros m; cbn; by rewrite E|done].
  - change (Z.to_nat (zat sqlite3SmallTypeSizes 4)) with 4%nat.
    destruct (store_be_list 4 (u64 i)) as (l & -> & Hl & Hb & Hv).
    pose proof (bytes_four l rest Hl Hb Hr) as H4.
    destruct l as [|a [|b [|c [|d [|]]]]]; try done. repeat (apply Forall_cons in Hb as [? Hb]). cbn [app] in *.
    assert (FOUR_BYTE_INT (a :: b :: c :: d :: rest) = i) as E.
    { rewrite four_int by done. rewrite Hv. by apply wraps_mod. }
    split_and!; [|intros m; cbn; by rewrite E|done].
    change (i32 (FOUR_BYTE_UINT (a :: b :: c :: d :: rest)) = i). rewrite H4, Hv. by apply wraps_mod.
  - change (Z.to_nat (zat sqlite3SmallTypeSizes 5)) with 6%nat.
    destruct (store_be_list 6 (u64 i)) as (l & -> & Hl & Hb & Hv).
    destruct l as [|a [|b l]]; try done. pose proof Hb as Hb0. apply Forall_cons in Hb0 as [Ha Hb0]. apply Forall_cons in Hb0 as [Hb1 Hb0].
    assert (FOUR_BYTE_UINT (zdrop 2 ((a :: b :: l) ++ rest)) + Z.shiftl 1 32 * TWO_BYTE_INT ((a :: b :: l) ++ rest) = i) as E.
    { change (zdrop 2 ((a :: b :: l) ++ rest)) with (l ++ rest). cbn [app]. injection Hl as Hl.
      rewrite bytes_four, two_int by done. change (a :: b :: l) with ([a; b] ++ l) in Hv. rewrite be_value_app in Hv.
      pose proof (be_value_range l Hb0) as Hlr. unfold zlen in Hv, Hlr. rewrite Hl in Hv, Hlr.
      change (8 * Z.of_nat 4) with 32 in *. change (Z.shiftl 1 32) with (2 ^ 32). rewrite (Z.mul_comm _ (2 ^ 32)) in Hv.
      assert (be_value [a; b] = 256 * a + b) as Eab by reflexivity. rewrite Eab in *.
      unfold is_byte in Hb1.
      pose proof (signed_top 8 a b Ha ltac:(lia) ltac:(change (2 ^ 8) with 256; lia)) as Hs8.
      change (8 + 8) with 16 in Hs8. change (2 ^ 8) with 256 in Hs8. rewrite <- Hs8.
      pose proof (signed_top 40 a (2 ^ 32 * b + be_value l) Ha) as Hs. change (2 ^ 40) with (256 * 2 ^ 32) in Hs.
      change (8 + 40) with 48 in Hs. specialize (Hs ltac:(lia) ltac:(change (2 ^ 32) with 4294967296 in *; lia)).
      replace (256 * 2 ^ 32 * a + (2 ^ 32 * b + be_value l)) with (2 ^ 32 * (256 * a + b) + be_value l) in Hs by lia.
      rewrite Hv in Hs. rewrite wraps_mod in Hs by (done || lia). rewrite <- Hs. lia. }
    split_and!; [exact E|intros m; exact (f_equal (set_int m) E)|unfold zlen; by rewrite Hl].
  - change (Z.to_nat (zat sqlite3SmallTypeSizes 6)) with 8%nat.
    destruct (store_be_list 8 (u64 i)) as (l & -> & Hl & Hb & Hv).
    destruct (eight_be l rest Hl Hb Hr) as [E1 E2].
    assert (be_value l = u64 i) as Hu by (rewrite Hv; unfold wrapu; apply Z.mod_mod; lia).
    split_and!.
    + change (vdbeRecordDecodeInt 6 (l ++ rest)) with
        (i64 (Z.lor (u64 (Z.shiftl (FOUR_BYTE_UINT (l ++ rest)) 32)) (FOUR_BYTE_UINT (zdrop 4 (l ++ rest))))).
      rewrite E2, Hu. by apply i64_of_u64.
    + intros m. change (sqlite3VdbeSerialGet (l ++ rest) 6 m) with (set_int m (i64 (eight_bytes (l ++ rest)))).
      by rewrite E1, Hu, i64_of_u64.
    + unfold zlen. by rewrite Hl.
Qed.

(** ** Lemmas: fields *)

Lemma put_varint_spec v rest : 0 <= v < 2 ^ 32 -> bytes_ok rest ->
  bytes_ok (put_varint v) /\ varint_len v = zlen (put_varint v) /\ 1 <= zlen (put_varint v) <= 9 /\
  getVarint32 (put_varint v ++ rest) = (zlen (put_varint v), v) /\ (v < 128 -> put_varint v = [v]) /\
  (zat (put_varint v ++ rest) 0 < 128 <-> v < 128).
Proof.
  intros Hv Hr. destruct (varint32_written v rest Hv Hr) as (bs & Hp & Hok & Hl & Hlen & Hg & H1 & H2).
  unfold put_varint, varint_len. rewrite Hp, Hl. repeat (split; [done|]). done.
Qed.

Definition val_ok (v : sval) : Prop :=
  match v with
  | SNull => True
  | SInt i => - 2 ^ 63 <= i < 2 ^ 63
  | SReal r => 0 <= r < 2 ^ 64 /\ IsNaN r = false
  | SText b | SBlob b => bytes_ok b /\ zlen b < 2 ^ 30
  end.

Lemma int_type_range fmt i : - 2 ^ 63 <= i < 2 ^ 63 -> 1 <= int_type fmt i <= 9 /\ int_type fmt i <> 7.
Proof. intros Hi. pose proof (int_type_cases fmt i Hi). lia. Qed.

Lemma val_type_range fmt v : val_ok v -> 0 <= val_type fmt v < 2 ^ 32.
Proof.
  destruct v as [|i|r|b|b]; cbn [val_ok val_type]; intros H; [lia| |lia|..].
  - pose proof (int_type_range fmt i H). lia.
  - pose proof (zlen_nonneg b). change (2 ^ 32) with (4 * 2 ^ 30). lia.
  - pose proof (zlen_nonneg b). change (2 ^ 32) with (4 * 2 ^ 30). lia.
Qed.

Lemma type_len_bytes n : 0 <= n -> sqlite3VdbeSerialTypeLen (12 + 2 * n) = n /\ sqlite3VdbeSerialTypeLen (13 + 2 * n) = n.
Proof.
  intros Hn. unfold sqlite3VdbeSerialTypeLen.
  assert ((12 + 2 * n - 12) / 2 = n) as -> by (Z.to_euclidean_division_equations; lia).
  assert ((13 + 2 * n - 12) / 2 = n) as -> by (Z.to_euclidean_division_equations; lia).
  destruct (Z.leb_spec 128 (12 + 2 * n)), (Z.leb_spec 128 (13 + 2 * n)); [done|lia|lia|].
  pose proof (proj1 (forallb_forall (fun k => (zat sqlite3SmallTypeSizes (12 + 2 * Z.of_nat k) =? Z.of_nat k) &&
    (zat sqlite3SmallTypeSizes (13 + 2 * Z.of_nat k) =? Z.of_nat k)) (seq 0 58)) ltac:(vm_compute; reflexivity)
    (Z.to_nat n) ltac:(apply in_seq; lia)) as Hk.
  cbv beta in Hk. rewrite Z2Nat.id in Hk by lia. breflect. by split.
Qed.

Lemma val_len fmt v : val_ok v -> sqlite3VdbeSerialTypeLen (val_type fmt v) = zlen (val_data fmt v).
Proof.
  destruct v as [|i|r|b|b]; cbn [val_ok val_type val_data]; intros H; [done| |done|..].
  - apply (read_int fmt i [] H (Forall_nil_2 _)).
  - apply type_len_bytes, zlen_nonneg.
  - apply type_len_bytes, zlen_nonneg.
Qed.

Lemma val_data_ok fmt v : val_ok v -> bytes_ok (val_data fmt v).
Proof. destruct v as [|i|r|b|b]; cbn [val_ok val_data]; intros H; try apply store_be_ok; [constructor|tauto..]. Qed.

Lemma read_real r rest : 0 <= r < 2 ^ 64 -> bytes_ok rest -> eight_bytes (store_be 8 r [] ++ rest) = r.
Proof.
  intros Hr Hb. destruct (store_be_list 8 r) as (l & -> & Hl & Hlb & Hv).
  rewrite (proj1 (eight_be l rest Hl Hlb Hb)), Hv. apply Z.mod_small. done.
Qed.

Lemma odd_type b : Z.land (13 + 2 * zlen (b : list Z)) 1 = 1 /\ Z.land (12 + 2 * zlen b) 1 = 0.
Proof.
  assert (forall x, Z.land x 1 = x mod 2) as Hl by (intros x; change 1 with (Z.ones 1); by rewrite Z.land_ones).
  rewrite !Hl.
  split; Z.to_euclidean_division_equations; lia.
Qed.

(** A stored field reads back as its value. *)
Lemma read_val fmt v rest m : val_ok v -> bytes_ok rest ->
  mem_val (sqlite3VdbeSerialGet (val_data fmt v ++ rest) (val_type fmt v) m) = v.
Proof.
  intros Hv Hr. destruct v as [|i|r|b|b]; cbn [val_ok] in Hv.
  - done.
  - cbn [val_type]. rewrite (proj1 (proj2 (read_int fmt i rest Hv Hr))). done.
  - change (mem_val (serialGet (store_be 8 r [] ++ rest) 7 m) = SReal r).
    unfold serialGet. rewrite read_real by tauto. change (7 =? 6) with false. cbv iota.
    destruct Hv as [_ ->]. done.
  - cbn [val_type val_data]. pose proof (zlen_nonneg b). destruct (odd_type b) as [Ho _].
    unfold sqlite3VdbeSerialGet. rewrite !(proj2 (Z.eqb_neq (13 + 2 * zlen b) _)) by lia. cbn [orb]. rewrite Ho.
    change (1 =? 0) with false. cbv iota.
    assert ((13 + 2 * zlen b - 12) / 2 = zlen b) as -> by (Z.to_euclidean_division_equations; lia).
    assert (take (Z.to_nat (zlen b)) (b ++ rest) = b) as -> by (unfold zlen; rewrite Nat2Z.id; apply take_app_length).
    unfold mem_val, mem_bytes. cbn [m_flags m_n m_z u_i u_r].
    change (has (Z.lor MEM_Str MEM_Ephem) MEM_Null) with false. change (has (Z.lor MEM_Str MEM_Ephem) (Z.lor MEM_Int MEM_IntReal)) with false.
    change (has (Z.lor MEM_Str MEM_Ephem) MEM_Real) with false. change (has (Z.lor MEM_Str MEM_Ephem) MEM_Str) with true.
    cbv iota. f_equal. unfold zlen. rewrite Nat2Z.id. apply take_ge. lia.
  - cbn [val_type val_data]. pose proof (zlen_nonneg b). destruct (odd_type b) as [_ Ho].
    unfold sqlite3VdbeSerialGet. rewrite !(proj2 (Z.eqb_neq (12 + 2 * zlen b) _)) by lia. cbn [orb]. rewrite Ho.
    change (0 =? 0) with true. cbv iota.
    assert ((12 + 2 * zlen b - 12) / 2 = zlen b) as -> by (Z.to_euclidean_division_equations; lia).
    assert (take (Z.to_nat (zlen b)) (b ++ rest) = b) as -> by (unfold zlen; rewrite Nat2Z.id; apply take_app_length).
    unfold mem_val, mem_bytes. cbn [m_flags m_n m_z u_i u_r].
    change (has (Z.lor MEM_Blob MEM_Ephem) MEM_Null) with false. change (has (Z.lor MEM_Blob MEM_Ephem) (Z.lor MEM_Int MEM_IntReal)) with false.
    change (has (Z.lor MEM_Blob MEM_Ephem) MEM_Real) with false. change (has (Z.lor MEM_Blob MEM_Ephem) MEM_Str) with false.
    change (has (Z.lor MEM_Blob MEM_Ephem) MEM_Zero) with false.
    cbv iota. rewrite app_nil_r. f_equal. unfold zlen. rewrite Nat2Z.id. apply take_ge. lia.
Qed.

(** ** Lemmas: writing a field *)

Lemma put_small v : 0 <= v < 128 -> put_varint v = [v] /\ u8 v = v.
Proof.
  intros Hv. destruct (put_varint_spec v [] ltac:(lia) (Forall_nil_2 _)) as (_ & _ & _ & _ & H & _).
  split; [apply H; lia|]. apply wrapu_small. lia.
Qed.

(** The width the writer chooses for an integer, from its magnitude. *)
Lemma size_int_spec fmt m d : - 2 ^ 63 <= u_i m < 2 ^ 63 ->
  let t := int_type fmt (u_i m) in
  size_int fmt m d =
  if has (m_flags m) MEM_IntReal && (t =? 6) then
    (d + 8, mkMem (Z.lor (Z.ldiff (m_flags m) MEM_IntReal) MEM_Real) (u_i m) (double_of_i64 (u_i m))
                  (u_nZero m) (m_n m) (m_z m) 7)
  else (d + zlen (val_data fmt (SInt (u_i m))), set_uTemp m t).
Proof.
  intros Hi t. subst t. unfold size_int. set (i := u_i m) in *. set (fl := has (m_flags m) MEM_IntReal).
  assert ((if i <? 0 then u64 (Z.lnot i) else u64 i) = if i <? 0 then - i - 1 else i) as ->.
  { unfold Z.lnot. destruct (i <? 0) eqn:E; breflect; apply wrapu_small; lia. }
  assert ((Z.land i 1 =? i) = ((i =? 0) || (i =? 1))) as ->.
  { change 1 with (Z.ones 1) at 1. rewrite Z.land_ones by lia. change (2 ^ 1) with 2.
    destruct (Z.eqb_spec i 0) as [->|]; [done|]. destruct (Z.eqb_spec i 1) as [->|]; [done|].
    apply Z.eqb_neq. pose proof (Z.mod_pos_bound i 2). lia. }
  assert (forall K, ((if i <? 0 then - i - 1 else i) <=? K) = ((- (K + 1) <=? i) && (i <? K + 1))) as Hb.
  { intros K. apply eq_true_iff_eq. rewrite andb_true_iff, !Z.leb_le, Z.ltb_lt. case_if; lia. }
  rewrite !Hb. clear Hb.
  assert ((i =? 0) || (i =? 1) = true -> 8 + u32 (if i <? 0 then - i - 1 else i) = 8 + i) as H8.
  { intros H. assert (i = 0 \/ i = 1) as [-> | ->] by (apply orb_true_iff in H; rewrite !Z.eqb_eq in H; done); done. }
  unfold val_data, zlen. rewrite store_be_length. unfold int_type.
  change (127 + 1) with (2 ^ 7). change (32767 + 1) with (2 ^ 15). change (8388607 + 1) with (2 ^ 23).
  change (2147483647 + 1) with (2 ^ 31). change (140737488355327 + 1) with (2 ^ 47).
  destruct ((- 2 ^ 7 <=? i) && (i <? 2 ^ 7)).
  { destruct ((i =? 0) || (i =? 1)) eqn:E01; cbn [andb]; [destruct (4 <=? fmt)|].
    - rewrite H8 by done. assert ((8 + i =? 6) = false) as -> by (apply orb_true_iff in E01; rewrite !Z.eqb_eq in E01; apply Z.eqb_neq; lia).
      rewrite andb_false_r. assert (zat sqlite3SmallTypeSizes (8 + i) = 0) as ->
        by (apply orb_true_iff in E01 as [->%Z.eqb_eq | ->%Z.eqb_eq]; done).
      f_equal. lia.
    - change (1 =? 6) with false. by rewrite andb_false_r.
    - change (1 =? 6) with false. by rewrite andb_false_r. }
  destruct ((- 2 ^ 15 <=? i) && (i <? 2 ^ 15)); [change (2 =? 6) with false; by rewrite andb_false_r|].
  destruct ((- 2 ^ 23 <=? i) && (i <? 2 ^ 23)); [change (3 =? 6) with false; by rewrite andb_false_r|].
  destruct ((- 2 ^ 31 <=? i) && (i <? 2 ^ 31)); [change (4 =? 6) with false; by rewrite andb_false_r|].
  destruct ((- 2 ^ 47 <=? i) && (i <? 2 ^ 47)); [change (5 =? 6) with false; by rewrite andb_false_r|].
  change (6 =? 6) with true. rewrite andb_true_r. destruct fl; done.
Qed.

Lemma int_type_6 fmt i : (int_type fmt i =? 6) = negb ((- 2 ^ 47 <=? i) && (i <? 2 ^ 47)).
Proof.
  unfold int_type. pow2. change (2 ^ 23) with 8388608. change (2 ^ 47) with 140737488355328.
  apply eq_true_iff_eq. rewrite negb_true_iff, andb_false_iff, Z.eqb_eq, Z.leb_gt, Z.ltb_ge.
  repeat (case_if; try lia).
Qed.

Lemma write_small m t : uTemp m = t -> 1 <= t <= 6 \/ t = 8 \/ t = 9 ->
  write_field m = (put_varint t, store_be (Z.to_nat (zat sqlite3SmallTypeSizes t)) (u64 (u_i m)) []).
Proof.
  intros Ht Hr. destruct (put_small t ltac:(lia)) as [-> Hu]. unfold write_field. rewrite Ht, Hu.
  destruct (Z.leb_spec t 7).
  - rewrite (proj2 (Z.eqb_neq t 0)), (proj2 (Z.eqb_neq t 7)) by lia. done.
  - rewrite (proj2 (Z.ltb_lt t 128)), (proj2 (Z.leb_gt 14 t)) by lia.
    destruct Hr as [|[-> | ->]]; [lia|done..].
Qed.

Lemma write_real m : uTemp m = 7 -> write_field m = (put_varint 7, store_be 8 (u_r m) []).
Proof. intros Ht. unfold write_field. rewrite Ht. rewrite (proj1 (put_small 7 ltac:(lia))). done. Qed.

Lemma write_bytes m t : uTemp m = t -> 12 <= t < 2 ^ 32 -> m_n m = zlen (m_z m) -> 12 + 2 * m_n m <= t ->
  write_field m = (put_varint t, m_z m).
Proof.
  intros Ht Hr Hn He. unfold write_field. rewrite Ht. rewrite (proj2 (Z.leb_gt t 7)) by lia.
  assert (take (Z.to_nat (m_n m)) (m_z m) = m_z m) as Htk.
  { rewrite Hn. unfold zlen. rewrite Nat2Z.id. apply take_ge. lia. }
  rewrite Htk. assert (m_n m <= 0 -> m_z m = []) as Hz.
  { intros H. rewrite Hn in H. destruct (m_z m); [done|]. rewrite zlen_cons in H. pose proof (zlen_nonneg l). lia. }
  pose proof (zlen_nonneg (m_z m)). rewrite <- Hn in H.
  destruct (Z.ltb_spec t 128).
  - destruct (put_small t ltac:(lia)) as [-> ->]. f_equal. destruct (Z.leb_spec 14 t); cbn [andb].
    + case_if; [done|]. symmetry. by apply Hz.
    + symmetry. apply Hz. lia.
  - f_equal. case_if; [done|]. symmetry. apply Hz. lia.
Qed.

Lemma zlen_zeros n : 0 <= n -> zlen (repeat 0 (Z.to_nat n)) = n.
Proof. intros Hn. unfold zlen. rewrite repeat_length. lia. Qed.

(** What one register contributes: [dat] now, and [k] zero bytes left for the end. *)
Definition sizes_as (fmt : Z) (m : Mem) (s : sizing) : Prop :=
  exists m' dat k,
    size_field fmt m s =
      mkSizing (nHdr s + zlen (put_varint (val_type fmt (stored_val m)))) (nData s + zlen dat) (nZero s + k) (m' :: sized s) /\
    write_field m' = (put_varint (val_type fmt (stored_val m)), dat) /\
    0 <= k /\ (nData s <> 0 -> k = 0) /\ val_data fmt (stored_val m) = dat ++ repeat 0 (Z.to_nat k).

Lemma zlen_put_small v : 0 <= v < 128 -> zlen (put_varint v) = 1.
Proof. intros Hv. by rewrite (proj1 (put_small v Hv)). Qed.

Lemma sizes_int fmt m s : mem_ok m -> has (m_flags m) MEM_Null = false ->
  has (m_flags m) (Z.lor MEM_Int MEM_IntReal) = true -> mem_val m = SInt (u_i m) -> sizes_as fmt m s.
Proof.
  intros Hm H0 H1 Hv. unfold sizes_as, size_field, stored_val. rewrite H0, H1, Hv.
  rewrite size_int_spec by apply Hm. rewrite <- (int_type_6 fmt).
  pose proof (int_type_range fmt (u_i m) (mo_int _ Hm)) as Hr.
  destruct (has (m_flags m) MEM_IntReal && (int_type fmt (u_i m) =? 6)).
  - eexists _, (store_be 8 (double_of_i64 (u_i m)) []), 0. rewrite zlen_put_small by (cbn; lia).
    unfold zlen at 1. rewrite store_be_length, Z.add_0_r. split; [done|]. split; [by rewrite write_real|].
    split; [lia|]. split; [done|]. cbn [val_data Z.to_nat repeat]. by rewrite app_nil_r.
  - eexists _, (val_data fmt (SInt (u_i m))), 0. rewrite zlen_put_small by (cbn; lia). rewrite Z.add_0_r.
    split; [done|]. split; [rewrite (write_small _ (int_type fmt (u_i m))) by (done || lia); done|].
    split; [lia|]. split; [done|]. cbn [Z.to_nat repeat]. by rewrite app_nil_r.
Qed.

Lemma sizes_text fmt m s : mem_ok m -> has (m_flags m) MEM_Null = false ->
  has (m_flags m) (Z.lor MEM_Int MEM_IntReal) = false -> has (m_flags m) MEM_Real = false ->
  has (m_flags m) MEM_Str = true -> has (m_flags m) MEM_Zero = false -> mem_val m = SText (m_z m) -> sizes_as fmt m s.
Proof.
  intros Hm H0 H1 H2 H3 H4 Hv. destruct (mo_bytes _ Hm) as [_ Hn]. destruct (mo_size _ Hm) as [Hz Hs].
  pose proof (zlen_nonneg (m_z m)). unfold sizes_as, size_field, stored_val. rewrite H0, H1, H2, H3, H4, Hv. cbn [val_type val_data].
  rewrite (wrapu_small 32 (m_n m)) by (pow2; lia). rewrite (wrapu_small 32) by (pow2; lia). rewrite Hn.
  replace (zlen (m_z m) * 2 + 12 + 1) with (13 + 2 * zlen (m_z m)) by lia.
  eexists _, (m_z m), 0. split; [by rewrite Z.add_0_r, (proj1 (proj2 (put_varint_spec (13 + 2 * zlen (m_z m)) [] ltac:(pow2; lia) (Forall_nil_2 _))))|].
  split; [|split; [lia|split; [done|cbn [Z.to_nat repeat]; by rewrite app_nil_r]]].
  rewrite (write_bytes _ (13 + 2 * zlen (m_z m))); [done|done|pow2; lia|done|cbn; lia].
Qed.

Lemma sizes_blob fmt m s : mem_ok m -> has (m_flags m) MEM_Null = false ->
  has (m_flags m) (Z.lor MEM_Int MEM_IntReal) = false -> has (m_flags m) MEM_Real = false ->
  has (m_flags m) MEM_Str = false -> 
  mem_val m = SBlob (m_z m ++ (if has (m_flags m) MEM_Zero then repeat 0 (Z.to_nat (u_nZero m)) else [])) ->
  sizes_as fmt m s.
Proof.
  intros Hm H0 H1 H2 H3 Hv. destruct (mo_bytes _ Hm) as [_ Hn]. destruct (mo_size _ Hm) as [Hz Hs].
  pose proof (zlen_nonneg (m_z m)) as Hp. unfold sizes_as, size_field, stored_val. rewrite H0, H1, H2, H3, Hv. cbn [val_type val_data].
  rewrite (wrapu_small 32 (m_n m)) by (pow2; lia). rewrite Hn in *.
  rewrite (wrapu_small 32 (zlen (m_z m) * 2 + 12 + 0)) by (pow2; lia).
  destruct (has (m_flags m) MEM_Zero).
  - rewrite (wrapu_small 32 (u_nZero m)) by (pow2; lia). rewrite (wrapu_small 32) by (pow2; lia).
    pose proof (zlen_zeros _ Hz) as Hzl.
    rewrite zlen_app, Hzl.
    replace (zlen (m_z m) * 2 + 12 + 0 + u_nZero m * 2) with (12 + 2 * (zlen (m_z m) + u_nZero m)) by lia.
    pose proof (proj1 (proj2 (put_varint_spec (12 + 2 * (zlen (m_z m) + u_nZero m)) [] ltac:(pow2; lia) (Forall_nil_2 _)))) as Hvl.
    destruct (Z.eqb_spec (nData s) 0) as [E|E]; cbn [negb]; cbv beta iota zeta; rewrite Hvl.
    + eexists _, (m_z m), (u_nZero m). split; [done|]. split; [|split; [lia|split; [done|done]]].
      apply (write_bytes (set_uTemp m _)); [done|pow2; lia|done|cbn; lia].
    + rewrite (wrapu_small 32) by (pow2; lia).
      eexists _, (m_z m ++ repeat 0 (Z.to_nat (u_nZero m))), 0. rewrite zlen_app, Hzl, Z.add_0_r.
      split; [done|]. split; [|split; [lia|split; [done|cbn [Z.to_nat repeat]; by rewrite app_nil_r]]].
      apply (write_bytes (set_uTemp (sqlite3VdbeMemExpandBlob m) _)); [done|pow2; lia|cbn; rewrite zlen_app, Hzl; lia|cbn; lia].
  - rewrite app_nil_r. replace (zlen (m_z m) * 2 + 12 + 0) with (12 + 2 * zlen (m_z m)) by lia.
    rewrite (proj1 (proj2 (put_varint_spec (12 + 2 * zlen (m_z m)) [] ltac:(pow2; lia) (Forall_nil_2 _)))).
    eexists _, (m_z m), 0. split; [by rewrite Z.add_0_r|].
    split; [|split; [lia|split; [done|cbn [Z.to_nat repeat]; by rewrite app_nil_r]]].
    apply (write_bytes (set_uTemp m _)); [done|pow2; lia|done|cbn; lia].
Qed.

Lemma sizes_all fmt m s : mem_ok m -> sizes_as fmt m s.
Proof.
  intros Hm. pose proof (mem_classify m Hm) as Hc. remember (mem_val m) as v eqn:Ev. symmetry in Ev.
  destruct Hc as [H0 H1 H2 H3 H4 H5|H0 H1 _ _|H0 H1 H2 H3|H0 H1 H2 H3 H4 H5|zs H0 H1 H2 H3 H4 Hzs].
  - unfold sizes_as, size_field, stored_val. rewrite H0, H5, Ev. cbn [val_type val_data].
    eexists _, [], 0. rewrite zlen_put_small by lia. change (zlen (@nil Z)) with 0. rewrite !Z.add_0_r.
    split; [done|]. split; [|split; [lia|done]]. by rewrite (proj1 (put_small 0 ltac:(lia))).
  - by apply sizes_int.
  - unfold sizes_as, size_field, stored_val. rewrite H0, H1, H2, Ev. cbn [val_type val_data].
    eexists _, (store_be 8 (u_r m) []), 0. rewrite zlen_put_small by lia. unfold zlen. rewrite store_be_length, Z.add_0_r.
    split; [done|]. split; [by rewrite write_real|]. split; [lia|split; [done|]]. cbn [Z.to_nat repeat]. by rewrite app_nil_r.
  - by apply sizes_text.
  - apply sizes_blob; [done..|]. by rewrite Ev, Hzs.
Qed.

(** The whole sizing pass: what it counts is what the second pass writes. *)
Lemma sizing_spec fmt regs : Forall mem_ok regs ->
  let s := foldr (size_field fmt) (mkSizing 0 0 0 []) regs in
  let vs := map stored_val regs in
  let dat := concat (map (fun m => (write_field m).2) (sized s)) in
  concat (map (fun m => (write_field m).1) (sized s)) = hdr_bytes fmt vs /\
  nHdr s = zlen (hdr_bytes fmt vs) /\ nData s = zlen dat /\ 0 <= nZero s /\
  data_bytes fmt vs = dat ++ repeat 0 (Z.to_nat (nZero s)).
Proof.
  intros Hr. induction Hr as [|m regs Hm _ (IH1 & IH2 & IH3 & IH4 & IH5)]; [done|].
  cbn [foldr map] in *. cbv zeta. set (s := foldr _ _ regs) in *.
  destruct (sizes_all fmt m s Hm) as (m' & dat & k & -> & Hw & Hk & Hk0 & Hd).
  cbn [nHdr nData nZero sized map concat]. unfold hdr_bytes, data_bytes in *. cbn [map concat].
  rewrite Hw. cbn [fst snd]. rewrite IH1, IH2, IH5, Hd, !zlen_app.
  split; [done|]. split; [lia|]. split; [lia|]. split; [lia|].
  rewrite <- !app_assoc. f_equal. destruct (decide (nData s = 0)) as [E|E].
  - rewrite IH3 in E. assert (concat (map (fun m => (write_field m).2) (sized s)) = []) as ->.
    { apply length_zero_iff_nil. unfold zlen in E. lia. }
    cbn [app]. rewrite <- repeat_app. f_equal. lia.
  - by rewrite (Hk0 E), Z.add_0_r.
Qed.

(** ** Lemmas: the size of the header *)

Lemma varint_len_eq n v : (1 <= n <= 5)%nat -> 0 <= v -> (n = 1%nat \/ 2 ^ (7 * Z.of_nat (n - 1)) <= v) ->
  v < 2 ^ (7 * Z.of_nat n) -> varint_len v = Z.of_nat n.
Proof.
  intros Hn Hv Hlo Hhi. unfold varint_len, sqlite3VarintLen. rewrite (varint_len_spec n) by (done || lia).
  transitivity (1 + Z.of_nat n - 1); [done|lia].
Qed.

(** The header size counts its own bytes. *)
Lemma header_size_spec n : 0 <= n < 2 ^ 28 ->
  varint_len (header_size n) + n = header_size n /\ n < header_size n < n + 6.
Proof.
  intros Hn. unfold header_size. destruct (Z.leb_spec n 126).
  { rewrite (varint_len_eq 1); change (2 ^ (7 * Z.of_nat 1)) with 128; lia. }
  assert (exists k, (1 <= k <= 4)%nat /\ (k = 1%nat \/ 2 ^ (7 * Z.of_nat (k - 1)) <= n) /\ n < 2 ^ (7 * Z.of_nat k)) as (k & Hk & Hlo & Hhi).
  { destruct (Z.lt_ge_cases n (2 ^ 7)); [exists 1%nat; change (7 * Z.of_nat 1) with 7; lia|].
    destruct (Z.lt_ge_cases n (2 ^ 14)); [exists 2%nat; change (7 * Z.of_nat 2) with 14; change (7 * Z.of_nat (2 - 1)) with 7; lia|].
    destruct (Z.lt_ge_cases n (2 ^ 21)); [exists 3%nat; change (7 * Z.of_nat 3) with 21; change (7 * Z.of_nat (3 - 1)) with 14; lia|].
    exists 4%nat. change (7 * Z.of_nat 4) with 28. change (7 * Z.of_nat (4 - 1)) with 21. lia. }
  rewrite (varint_len_eq k n) by (done || lia).
  assert (2 ^ (7 * Z.of_nat (S k)) = 128 * 2 ^ (7 * Z.of_nat k)) as Hpow.
  { change 128 with (2 ^ 7). rewrite <- Z.pow_add_r by lia. f_equal. lia. }
  destruct (Z.lt_ge_cases (n + Z.of_nat k) (2 ^ (7 * Z.of_nat k))).
  - rewrite (varint_len_eq k (n + Z.of_nat k)) by lia. rewrite Z.ltb_irrefl. rewrite (varint_len_eq k) by lia. lia.
  - rewrite (varint_len_eq (S k) (n + Z.of_nat k)) by (replace (S k - 1)%nat with k by lia; lia).
    rewrite (proj2 (Z.ltb_lt _ _)) by lia. rewrite (varint_len_eq (S k)) by (replace (S k - 1)%nat with k by lia; lia). lia.
Qed.

(** ** Lemmas: a whole record *)

Definition record_of (fmt : Z) (vs : list sval) : list Z :=
  put_varint (header_size (zlen (hdr_bytes fmt vs))) ++ hdr_bytes fmt vs ++ data_bytes fmt vs.

Lemma zeros_ok n : bytes_ok (repeat 0 n).
Proof. induction n; constructor; [unfold is_byte; lia|done]. Qed.

Lemma stored_val_ok m : mem_ok m -> val_ok (stored_val m).
Proof.
  intros Hm. pose proof (mem_classify m Hm) as Hc. unfold stored_val.
  destruct Hc as [|? ? ? ?|? ? Hr ?| |zs ? ? ? ? ? ->]; cbn [val_ok].
  - done.
  - destruct (has (m_flags m) MEM_IntReal && _); [apply double_of_i64_ok|]; apply Hm.
  - split; [apply Hm|done].
  - destruct (mo_bytes _ Hm) as [Hb Hn]. destruct (mo_size _ Hm). split; [done|lia].
  - destruct (mo_bytes _ Hm) as [Hb Hn]. destruct (mo_size _ Hm). split.
    + apply Forall_app. split; [done|]. destruct (has _ MEM_Zero); [|done].
      apply zeros_ok.
    + rewrite zlen_app. destruct (has _ MEM_Zero); [unfold zlen at 2; rewrite repeat_length; lia|change (zlen (@nil Z)) with 0; lia].
Qed.

Lemma hdr_ok fmt vs : Forall val_ok vs -> bytes_ok (hdr_bytes fmt vs).
Proof.
  intros H. unfold hdr_bytes. induction H as [|v vs Hv _ IH]; [constructor|]. cbn [map concat].
  apply Forall_app. split; [|done]. by apply (put_varint_spec _ [] (val_type_range fmt v Hv)).
Qed.

Lemma data_ok fmt vs : Forall val_ok vs -> bytes_ok (data_bytes fmt vs).
Proof.
  intros H. unfold data_bytes. induction H as [|v vs Hv _ IH]; [constructor|]. cbn [map concat].
  apply Forall_app. split; [|done]. by apply val_data_ok.
Qed.

Lemma hdr_len fmt vs : Forall val_ok vs -> zlen vs <= zlen (hdr_bytes fmt vs) <= 9 * zlen vs.
Proof.
  intros H. unfold hdr_bytes. induction H as [|v vs Hv _ IH]; [done|]. cbn [map concat].
  rewrite zlen_app, zlen_cons. pose proof (put_varint_spec _ [] (val_type_range fmt v Hv) (Forall_nil_2 _)). lia.
Qed.

(** The reading loop takes the fields one by one. *)
Lemma unpack_fields fmt nKey aKey szHdr vs : forall room idx d acc r1 r2,
  Forall val_ok vs -> bytes_ok r1 -> bytes_ok r2 -> 0 <= idx -> 0 <= d ->
  zdrop idx aKey = hdr_bytes fmt vs ++ r1 -> zdrop d aKey = data_bytes fmt vs ++ r2 ->
  szHdr = idx + zlen (hdr_bytes fmt vs) -> d + zlen (data_bytes fmt vs) <= nKey ->
  exists ms d', unpack_loop room nKey aKey szHdr idx d acc = (rev ms ++ acc, d') /\
    map mem_val ms = take room vs /\ d' <= nKey.
Proof.
  induction vs as [|v vs IH]; intros room idx d acc r1 r2 Hvs Hr1 Hr2 Hi Hd Hh Hdat -> Hn.
  - exists [], d. rewrite take_nil. change (zlen (data_bytes fmt [])) with 0 in Hn. split; [|split; [done|lia]].
    destruct room; [done|]. cbn [unpack_loop]. change (zlen (hdr_bytes fmt [])) with 0.
    rewrite (proj2 (Z.ltb_ge _ _)) by lia. done.
  - destruct room as [|room].
    { exists [], d. pose proof (zlen_nonneg (data_bytes fmt (v :: vs))). split; [done|]. split; [done|lia]. }
    apply Forall_cons in Hvs as [Hv Hvs]. 
    assert (hdr_bytes fmt (v :: vs) = put_varint (val_type fmt v) ++ hdr_bytes fmt vs) as Eh by done.
    assert (data_bytes fmt (v :: vs) = val_data fmt v ++ data_bytes fmt vs) as Ed by done.
    rewrite Eh in *. rewrite Ed in *. rewrite !zlen_app in *. rewrite <- app_assoc in Hh, Hdat.
    assert (bytes_ok (hdr_bytes fmt vs ++ r1)) as Hb1 by (apply Forall_app; split; [by apply hdr_ok|done]).
    assert (bytes_ok (data_bytes fmt vs ++ r2)) as Hb2 by (apply Forall_app; split; [by apply data_ok|done]).
    destruct (put_varint_spec _ _ (val_type_range fmt v Hv) Hb1) as (_ & _ & Hl & Hg & _).
    pose proof (zlen_nonneg (hdr_bytes fmt vs)). pose proof (zlen_nonneg (data_bytes fmt vs)). pose proof (zlen_nonneg (val_data fmt v)).
    cbn [unpack_loop]. rewrite (proj2 (Z.ltb_lt _ _)), (proj2 (Z.leb_le _ _)) by lia. cbn [andb].
    rewrite Hh, Hg, Hdat, val_len by done.
    destruct (IH room (idx + zlen (put_varint (val_type fmt v))) (d + zlen (val_data fmt v))
      (sqlite3VdbeSerialGet (val_data fmt v ++ data_bytes fmt vs ++ r2) (val_type fmt v) new_mem :: acc) r1 r2)
      as (ms & d' & Hloop & Hms & Hd'); try done; try lia.
    + rewrite <- zdrop_zdrop, Hh by lia. by apply zdrop_app.
    + rewrite <- zdrop_zdrop, Hdat by lia. by apply zdrop_app.
    + rewrite Hloop.
      exists (sqlite3VdbeSerialGet (val_data fmt v ++ data_bytes fmt vs ++ r2) (val_type fmt v) new_mem :: ms), d'.
      split; [|split; [|done]].
      * cbn [rev]. by rewrite <- app_assoc.
      * cbn [map firstn]. rewrite Hms. f_equal. by apply read_val.
Qed.

(** What the opcode builds, when it fits. *)
Lemma make_record_spec fmt szMalloc limit regs : Forall mem_ok regs -> zlen regs <= 65536 ->
  let full := record_of fmt (map stored_val regs) in
  match OP_MakeRecord fmt szMalloc limit regs with
  | Made r nz => 0 <= nz /\ r ++ repeat 0 (Z.to_nat nz) = full /\ (zlen full <= szMalloc \/ zlen full <= limit)
  | TooBig => szMalloc < zlen full /\ limit < zlen full
  end.
Proof.
  intros Hr Hn full. destruct (sizing_spec fmt regs Hr) as (H1 & H2 & H3 & H4 & H5).
  assert (Forall val_ok (map stored_val regs)) as Hok by (apply Forall_map; eapply Forall_impl; [exact Hr|apply stored_val_ok]).
  pose proof (hdr_len fmt _ Hok) as Hl. assert (zlen (map stored_val regs) = zlen regs) as El by (unfold zlen; by rewrite length_map).
  rewrite El in Hl. pose proof (zlen_nonneg regs).
  unfold OP_MakeRecord. set (s := foldr _ _ regs) in *.
  subst full. unfold record_of. set (hb := hdr_bytes fmt (map stored_val regs)) in *.
  destruct (header_size_spec (zlen hb)) as [Hs1 Hs2]; [lia|].
  destruct (put_varint_spec (header_size (zlen hb)) [] ltac:(pow2; lia) (Forall_nil_2 _)) as (_ & Hvl & Hv1 & _ & Hv2 & _).
  assert ((if header_size (nHdr s) <? 128 then [u8 (header_size (nHdr s))] else put_varint (header_size (nHdr s)))
          = put_varint (header_size (zlen hb))) as Esz.
  { rewrite H2. destruct (Z.ltb_spec (header_size (zlen hb)) 128) as [Hlt|]; [|done].
    rewrite Hv2, wrapu_small by lia. done. }
  assert (header_size (nHdr s) + nData s + nZero s = zlen (put_varint (header_size (zlen hb)) ++ hb ++ data_bytes fmt (map stored_val regs))) as Et.
  { rewrite H2, H3, H5, !zlen_app, <- Hvl. rewrite zlen_zeros by done. lia. }
  cbv zeta. rewrite Esz, Et, H1.
  set (full := put_varint (header_size (zlen hb)) ++ hb ++ data_bytes fmt (map stored_val regs)) in *.
  assert (forall P Q : Prop, P -> Q ->
    0 <= nZero s /\ (put_varint (header_size (zlen hb)) ++ hb ++ concat (map (fun m => (write_field m).2) (sized s)))
      ++ repeat 0 (Z.to_nat (nZero s)) = full /\ P) as Hmade.
  { intros P _ HP _. split; [done|]. split; [|done]. unfold full. by rewrite H5, <- !app_assoc. }
  destruct (Z.leb_spec (zlen full) szMalloc), (Z.ltb_spec limit (zlen full)); cbn [negb andb];
    (lia || (apply (Hmade _ True); [lia|done])).
Qed.

Lemma record_prefix fmt vs pad : Forall val_ok vs -> zlen vs <= 65536 -> bytes_ok pad ->
  let hb := hdr_bytes fmt vs in
  let k := zlen (put_varint (header_size (zlen hb))) in
  let aKey := record_of fmt vs ++ pad in
  getVarint32 aKey = (k, k + zlen hb) /\ zdrop k aKey = hb ++ data_bytes fmt vs ++ pad /\
  zdrop (k + zlen hb) aKey = data_bytes fmt vs ++ pad /\
  zlen (record_of fmt vs) = k + zlen hb + zlen (data_bytes fmt vs) /\ 1 <= k.
Proof.
  intros Hv Hn Hp. cbv zeta. pose proof (hdr_len fmt vs Hv) as Hl. pose proof (zlen_nonneg vs) as Hn0.
  unfold record_of. set (hb := hdr_bytes fmt vs) in *. set (db := data_bytes fmt vs).
  destruct (header_size_spec (zlen hb)) as [Hs1 Hs2]; [lia|].
  assert (bytes_ok (hb ++ db ++ pad)) as Hb.
  { apply Forall_app; split; [by apply hdr_ok|]. apply Forall_app; split; [by apply data_ok|done]. }
  destruct (put_varint_spec (header_size (zlen hb)) (hb ++ db ++ pad) ltac:(pow2; lia) Hb) as (_ & Hvl & Hv1 & Hg & _).
  rewrite <- !app_assoc. split_and!.
  - rewrite Hg. f_equal. lia.
  - by apply zdrop_app.
  - rewrite app_assoc. apply zdrop_app. by rewrite zlen_app.
  - rewrite !zlen_app. lia.
  - lia.
Qed.

(** ** Lemmas: any bytes at all *)

Ltac solve_range := split; [vm_compute; congruence|vm_compute; reflexivity].

(** A register with one of the combinations of type flags the code sets, and values in range. *)
Record mem_typed (m : Mem) : Prop := {
  mt_flags : In (Z.land (m_flags m) type_flags) (Z.lor MEM_Null MEM_Zero :: flag_kinds);
  mt_int : - 2 ^ 63 <= u_i m < 2 ^ 63;
  mt_real : 0 <= u_r m < 2 ^ 64;
  mt_nan : has (m_flags m) MEM_Real = true -> IsNaN (u_r m) = false;
  mt_size : has (m_flags m) (Z.lor MEM_Str MEM_Blob) = true -> zlen (m_z m) <= m_n m < 2 ^ 31;
  mt_bytes : bytes_ok (m_z m)
}.

Lemma typed_int m i : mem_typed m -> - 2 ^ 63 <= i < 2 ^ 63 -> mem_typed (set_int m i).
Proof. intros [? ? ? ? ? ?] Hi. constructor; try done. cbn. tauto. Qed.

Lemma two_range x : bytes_ok x -> - 2 ^ 15 <= TWO_BYTE_INT x < 2 ^ 15.
Proof.
  intros Hb. change (TWO_BYTE_INT x) with (TWO_BYTE_INT [zat x 0; zat x 1]).
  rewrite two_int by (by apply zat_range). apply (wraps_range 16). lia.
Qed.

Lemma four_range x : bytes_ok x -> 0 <= FOUR_BYTE_UINT x < 2 ^ 32.
Proof.
  intros Hb. rewrite four_uint by done. apply (be_value_range [_; _; _; _]).
  repeat (apply Forall_cons_2; [by apply zat_range|]). constructor.
Qed.

Lemma zdrop_ok k x : bytes_ok x -> bytes_ok (zdrop k x).
Proof. apply Forall_drop. Qed.

(** The integer read for each serial type fits in 64 bits. *)
Lemma get_int_typed buf t m : bytes_ok buf -> mem_typed m -> 1 <= t <= 5 \/ t = 8 \/ t = 9 ->
  mem_typed (sqlite3VdbeSerialGet buf t m).
Proof.
  intros Hb Hm Ht. assert (t = 1 \/ t = 2 \/ t = 3 \/ t = 4 \/ t = 5 \/ t = 8 \/ t = 9) as Hc by lia. clear Ht.
  pose proof (two_range buf Hb). pose proof (four_range (zdrop 2 buf) (zdrop_ok 2 buf Hb)).
  repeat destruct Hc as [Hc|Hc]; subst t; apply typed_int; try done.
  - pose proof (wraps_range 8 (zat buf 0) ltac:(lia)) as H1. change (2 ^ (8 - 1)) with 128 in H1. unfold ONE_BYTE_INT. lia.
  - lia.
  - change (THREE_BYTE_INT buf) with (THREE_BYTE_INT [zat buf 0; zat buf 1; zat buf 2]).
    rewrite three_int by (by apply zat_range).
    match goal with |- context [wraps 24 ?x] => pose proof (wraps_range 24 x ltac:(lia)) as H1 end.
    change (2 ^ (24 - 1)) with 8388608 in H1. lia.
  - change (FOUR_BYTE_INT buf) with (FOUR_BYTE_INT [zat buf 0; zat buf 1; zat buf 2; zat buf 3]).
    rewrite four_int by (by apply zat_range).
    match goal with |- context [wraps 32 ?x] => pose proof (wraps_range 32 x ltac:(lia)) as H1 end.
    change (2 ^ (32 - 1)) with 2147483648 in H1. lia.
  - change (Z.shiftl 1 32) with 4294967296. change (2 ^ 15) with 32768 in *. change (2 ^ 32) with 4294967296 in *. lia.
Qed.

Lemma get_typed buf t m : bytes_ok buf -> mem_typed m -> 0 <= t < 2 ^ 32 -> mem_typed (sqlite3VdbeSerialGet buf t m).
Proof.
  intros Hb Hm Ht. assert (1 <= t <= 5 \/ t = 8 \/ t = 9 \/ t = 0 \/ t = 10 \/ t = 11 \/ t = 6 \/ t = 7 \/ 12 <= t) as Hc by lia.
  destruct Hc as [Hc|[Hc|[Hc|Hc]]]; try (apply get_int_typed; [done|done|lia]).
  assert (0 <= eight_bytes buf < 2 ^ 64) as H8 by (apply wrapu_range; lia).
  destruct Hm as [Hf Hi Hr Hn Hs Hz].
  destruct Hc as [->|[->|[->|[->|[->|Hc]]]]].
  1-3: apply Build_mem_typed; [vm_compute; tauto|exact Hi|exact Hr|discriminate|discriminate|exact Hz].
  - apply typed_int; [by constructor|]. apply (wraps_range 64). lia.
  - change (sqlite3VdbeSerialGet buf 7 m) with (set_real m (if IsNaN (eight_bytes buf) then MEM_Null else MEM_Real) (eight_bytes buf)).
    destruct (IsNaN (eight_bytes buf)) eqn:Enan.
    + apply Build_mem_typed; [vm_compute; tauto|exact Hi|exact H8|discriminate|discriminate|exact Hz].
    + apply Build_mem_typed; [vm_compute; tauto|exact Hi|exact H8|intros _; exact Enan|discriminate|exact Hz].
  - unfold sqlite3VdbeSerialGet. rewrite !(proj2 (Z.eqb_neq t _)) by lia. cbn [orb]. set (len := (t - 12) / 2).
    assert (0 <= len < 2 ^ 31) as Hl by (unfold len; split; [apply Z.div_pos; lia|apply Z.div_lt_upper_bound; pow2; lia]).
    apply Build_mem_typed; cbn [m_flags u_i u_r m_n m_z]; [|exact Hi|exact Hr|..].
    + destruct (Z.land t 1 =? 0); vm_compute; tauto.
    + destruct (Z.land t 1 =? 0); discriminate.
    + intros _. split; [|lia]. unfold zlen. rewrite length_take. lia.
    + by apply Forall_take.
Qed.

Lemma read32_range p : bytes_ok p -> 0 <= (getVarint32 p).2 < 2 ^ 32.
Proof.
  intros Hp. pose proof (zat_byte p 0 Hp). unfold getVarint32. pow2. destruct (Z.ltb_spec (zat p 0) 128); [cbn [snd]; lia|].
  destruct (getvarint_spec p Hp ltac:(lia)) as [_ ->]. cbn [snd].
  pose proof (varint_ref_nonneg 8 p 0 0 Hp ltac:(lia)) as Hn. change (varint_ref 8 p 0 0) with (varint_spec p) in Hn. lia.
Qed.

Lemma unpack_typed nKey aKey szHdr : bytes_ok aKey -> forall room idx d acc,
  Forall mem_typed acc ->
  let r := unpack_loop room nKey aKey szHdr idx d acc in
  Forall mem_typed r.1 /\ (length r.1 <= length acc + room)%nat.
Proof.
  intros Hb room. induction room as [|room IH]; intros idx d acc Ha; cbn [unpack_loop]; [split; [done|cbn; lia]|].
  destruct ((idx <? szHdr) && (d <=? nKey)); [|split; [done|cbn; lia]].
  pose proof (read32_range (zdrop idx aKey) (zdrop_ok _ _ Hb)) as Ht.
  destruct (getVarint32 (zdrop idx aKey)) as [k t]. cbn [snd] in Ht.
  destruct (IH (idx + k) (d + sqlite3VdbeSerialTypeLen t) (sqlite3VdbeSerialGet (zdrop d aKey) t new_mem :: acc)) as [H1 H2].
  - constructor; [|done]. apply get_typed; [by apply zdrop_ok| |done].
    apply Build_mem_typed; [vm_compute; tauto|solve_range|solve_range|discriminate|discriminate|constructor].
  - split; [done|]. cbn [length] in H2. lia.
Qed.


(** ** Property *)

(** C29: a row is read back as it was stored.  For any registers (NULL, integers, reals, text,
    blobs, blobs with a tail of zeros that is not written out), in either file format,
    [OP_MakeRecord] either builds a record within the size it was allowed, or reports "too big"
    exactly when the record exceeds both the buffer and the length limit; and unpacking what it
    built, with the zero tail written out and whatever follows it in the buffer, into a record
    with room for [nField] fields gives the first [nField] values, an integer that is to print as
    a real becoming one where it would take eight bytes. *)
Theorem record_roundtrip fmt szMalloc limit regs p pad :
  Forall mem_ok regs -> zlen regs <= 65536 -> bytes_ok pad ->
  let full := record_of fmt (map stored_val regs) in
  match OP_MakeRecord fmt szMalloc limit regs with
  | Made r nz =>
      let rec := r ++ repeat 0 (Z.to_nat nz) in
      (zlen rec <= szMalloc \/ zlen rec <= limit) /\
      let q := sqlite3VdbeRecordUnpack (zlen rec) (rec ++ pad) p in
      map mem_val (aMem q) = take (Z.to_nat (nField p)) (map stored_val regs) /\
      nField q = zlen (aMem q) /\ default_rc q = 0
  | TooBig => szMalloc < zlen full /\ limit < zlen full
  end.
Proof.
  intros Hr Hn Hp full. pose proof (make_record_spec fmt szMalloc limit regs Hr Hn) as Hm. fold full in Hm.
  destruct (OP_MakeRecord fmt szMalloc limit regs) as [r nz|]; [|done]. destruct Hm as (_ & -> & Hsz).
  split; [done|]. subst full.
  assert (Forall val_ok (map stored_val regs)) as Hok by (apply Forall_map; eapply Forall_impl; [exact Hr|apply stored_val_ok]).
  destruct (record_prefix fmt (map stored_val regs) pad Hok) as (Hg & Hd1 & Hd2 & Hl & Hk); [unfold zlen; by rewrite length_map|done|].
  set (hb := hdr_bytes fmt (map stored_val regs)) in *. set (k := zlen (put_varint (header_size (zlen hb)))) in *.
  pose proof (zlen_nonneg hb). unfold sqlite3VdbeRecordUnpack. rewrite Hg, Hl.
  destruct (unpack_fields fmt (k + zlen hb + zlen (data_bytes fmt (map stored_val regs)))
    (record_of fmt (map stored_val regs) ++ pad) (k + zlen hb) (map stored_val regs) (Z.to_nat (nField p)) k (k + zlen hb) []
    (data_bytes fmt (map stored_val regs) ++ pad) pad) as (ms & d' & -> & Hms & Hd'); try done; try lia.
  { apply Forall_app; split; [by apply data_ok|done]. }
  rewrite app_nil_r, (proj2 (Z.ltb_ge _ d')) by lia. cbn [aMem nField default_rc].
  assert (match rev ms with m :: fields => m :: fields | [] => [] end = rev ms) as -> by (by destruct (rev ms)).
  rewrite rev_involutive. split; [done|]. split; [|done]. unfold zlen. by rewrite length_rev.
Qed.

(** C30: unpacking is type safe.  From any bytes, a stored record, a corrupt one or none at all,
    [sqlite3VdbeRecordUnpack] returns no more fields than there is room for, and every one of
    them is a well-typed register: one of the combinations of type flags the code uses, a 64-bit
    integer, a real that is not a NaN, a text or blob no longer than its announced length. *)
Theorem unpack_is_well_typed nKey aKey p : bytes_ok aKey -> 0 <= nField p ->
  let q := sqlite3VdbeRecordUnpack nKey aKey p in
  Forall mem_typed (aMem q) /\ nField q = zlen (aMem q) /\ nField q <= nField p.
Proof.
  intros Hb Hn. unfold sqlite3VdbeRecordUnpack. destruct (getVarint32 aKey) as [idx szHdr].
  destruct (unpack_typed nKey aKey szHdr Hb (Z.to_nat (nField p)) idx szHdr [] (Forall_nil_2 _)) as [Ht Hl].
  destruct (unpack_loop _ nKey aKey szHdr idx szHdr []) as [ms d]. cbn [fst length] in *. cbn [aMem nField].
  set (ms' := match ms with m :: fields => _ | [] => [] end).
  assert (Forall mem_typed ms' /\ length ms' = length ms) as [Ht' Hl'].
  { unfold ms'. destruct Ht as [|m ms Hm Hms]; [done|]. split; [|done]. constructor; [|done].
    destruct (nKey <? d); [|done]. destruct Hm as [? Hi Hr ? ? Hz].
    apply Build_mem_typed; [vm_compute; tauto|exact Hi|exact Hr|discriminate|discriminate|exact Hz]. }
  split; [by apply Forall_rev|]. unfold zlen. rewrite length_rev. split; [done|lia].
Qed.

Lemma unpack_is_well_typed_witness :
  let p := unpacked [new_mem; new_mem; new_mem] in
  let aKey := [4; 15; 7; 99; 1; 2] in
  (bytes_ok aKey /\ 0 <= nField p) /\
  map m_flags (aMem (sqlite3VdbeRecordUnpack 6 aKey p)) = [Z.lor MEM_Str MEM_Ephem; MEM_Null] /\
  Forall mem_typed (aMem (sqlite3VdbeRecordUnpack 6 aKey p)).
Proof.
  intros p aKey. assert (bytes_ok aKey) as H1 by (subst aKey; solve_bytes).
  assert (0 <= nField p) as H2 by (vm_compute; discriminate).
  split; [done|]. split; [vm_compute; reflexivity|]. apply (unpack_is_well_typed 6 aKey p H1 H2).
Defined.

Ltac solve_mem :=
  apply Build_mem_ok;
  [ vm_compute; tauto | solve_range | split; [solve_range|vm_compute; congruence]
  | split; [cbn [m_z mem_int mem_real mem_text mem_blob]; solve_bytes|vm_compute; reflexivity] | solve_range ].

Ltac solve_mems := repeat (apply Forall_cons_2; [solve_mem|]); apply Forall_nil_2.

Lemma record_roundtrip_witness :
  let regs := [mem_int (-129); mkMem MEM_IntReal (2 ^ 60) 0 0 0 [] 0; mem_text [97; 98];
               mkMem (Z.lor MEM_Blob MEM_Zero) 0 0 3 2 [7; 8] 0] in
  (Forall mem_ok regs /\ zlen regs <= 65536 /\ bytes_ok [9]) /\
  match OP_MakeRecord 4 0 1000 regs with
  | Made r nz => nz = 3 /\
      map mem_val (aMem (sqlite3VdbeRecordUnpack (zlen r + 3) ((r ++ repeat 0 3) ++ [9]) (unpacked regs))) =
      [SInt (-129); SReal 0x43b0000000000000; SText [97; 98]; SBlob [7; 8; 0; 0; 0]]
  | TooBig => False
  end.
Proof.
  intros regs.
  assert (Forall mem_ok regs) as H1 by (subst regs; solve_mems).
  assert (zlen regs <= 65536) as H2 by (vm_compute; discriminate).
  assert (bytes_ok [9]) as H3 by solve_bytes.
  split; [done|]. pose proof (record_roundtrip 4 0 1000 regs (unpacked regs) [9] H1 H2 H3) as H. subst regs.
  cbv zeta in H. destruct (OP_MakeRecord 4 0 1000 _) as [r nz|] eqn:E; [|vm_compute in E; discriminate E].
  assert (nz = 3) as -> by (vm_compute in E; by injection E as _ <-). split; [done|].
  destruct H as (_ & H & _). rewrite zlen_app in H. etransitivity; [exact H|]. vm_compute. reflexivity.
Defined.
