(* ===== verification/RecordOrder.v ===== *)
(** * The order of keys (vdbeaux.c of sqlite3.c)

    What the comparison routines of [RecordFmt] compute: the order of SQL values (NULL, numbers
    by their exact value, texts by the collating sequence, blobs byte by byte), adjusted to each
    column's sort flags, and the lexicographic order of keys; and the proof that comparing a
    stored record with an unpacked key, by whichever of the three functions
    [sqlite3VdbeFindCompare] picks, follows it. *)

From S2P Require Import Prelude Bitwise Varint SqlText SqlNumber Utf Double RecordFmt.
From stdpp Require Import options.

(** ** The order, as the documentation of index keys has it *)

Fixpoint bytes_compare (a b : list Z) : comparison :=
  match a, b with
  | [], [] => Eq
  | [], _ => Lt
  | _, [] => Gt
  | x :: a, y :: b => match x ?= y with Eq => bytes_compare a b | c => c end
  end.

(** Texts of encoding [enc], by a collating sequence or by their bytes. *)
Definition text_compare (enc : Z) (c : option CollSeq) (a b : list Z) : comparison :=
  match c with
  | None => bytes_compare a b
  | Some c =>
      let tr x := if enc =? c_enc c then x else sqlite3VdbeMemTranslate enc (c_enc c) x in
      xCmp c (tr a) (tr b) ?= 0
  end.

(** NULLs come first, or last where they count as the largest value. *)
Definition rank (big_null : bool) (v : sval) : Z :=
  match v with
  | SNull => if big_null then 4 else 0
  | SInt _ | SReal _ => 1
  | SText _ => 2
  | SBlob _ => 3
  end.

(** A number in units of [2^-1074]. *)
Definition num_key (v : sval) : Z :=
  match v with
  | SInt i => i * 2 ^ 1074
  | SReal r => dscaled r
  | _ => 0
  end.

Definition val_compare (enc : Z) (c : option CollSeq) (big_null : bool) (v w : sval) : comparison :=
  match rank big_null v ?= rank big_null w with
  | Eq =>
      match v, w with
      | SText a, SText b => text_compare enc c a b
      | SBlob a, SBlob b => bytes_compare a b
      | _, _ => num_key v ?= num_key w
      end
  | o => o
  end.

Definition field_compare (enc : Z) (c : option CollSeq) (flags : Z) (v w : sval) : comparison :=
  let o := val_compare enc c (negb (Z.land flags KEYINFO_ORDER_BIGNULL =? 0)) v w in
  if Z.land flags KEYINFO_ORDER_DESC =? 0 then o else CompOpp o.

(** The fields from number [i] on, as far as both keys go. *)
Fixpoint key_compare (ki : KeyInfo) (i : nat) (vs ws : list sval) : comparison :=
  match vs, ws with
  | v :: vs, w :: ws =>
      match field_compare (k_enc ki) (coll ki i) (sort_flags ki i) v w with
      | Eq => key_compare ki (S i) vs ws
      | o => o
      end
  | _, _ => Eq
  end.

(** What a comparison answers: the sign of the order, or the default and a mark. *)
Definition reports (p : UnpackedRecord) (o : comparison) (res : Z * UnpackedRecord) : Prop :=
  match o with
  | Eq => res = (default_rc p, set_eqSeen p)
  | Lt => res.1 < 0 /\ res.2 = p
  | Gt => 0 < res.1 /\ res.2 = p
  end.

(** A register of the right key: blobs with a zero tail have nothing else. *)
Record rhs_ok (m : Mem) : Prop := {
  ro_mem : mem_ok m;
  ro_zero : has (m_flags m) MEM_Zero = true -> m_n m = 0
}.

(** ** Lemmas: bytes *)

Lemma memcmp_compare a : forall b rest,
  let rc := memcmp (a ++ rest) b (Nat.min (length a) (length b)) in
  bytes_compare a b = if rc =? 0 then zlen a ?= zlen b else rc ?= 0.
Proof.
  induction a as [|x a IH]; intros b rest; cbn [length Nat.min memcmp bytes_compare].
  - change (0 =? 0) with true. cbv iota. destruct b; [done|]. symmetry. apply Z.compare_lt_iff. rewrite zlen_cons.
    change (zlen (@nil Z)) with 0. pose proof (zlen_nonneg b). lia.
  - destruct b as [|y b]; cbn [length Nat.min memcmp bytes_compare].
    + change (0 =? 0) with true. cbv iota. symmetry. apply Z.compare_gt_iff. rewrite zlen_cons.
      change (zlen (@nil Z)) with 0. pose proof (zlen_nonneg a). lia.
    + cbn [app tl]. change (zat (x :: a ++ rest) 0) with x. change (zat (y :: b) 0) with y.
      specialize (IH b rest). cbv zeta in IH. destruct (Z.eqb_spec x y) as [->|Hne].
      * rewrite Z.compare_refl, IH. case_if; [|done]. rewrite !zlen_cons, Z.add_compare_mono_l. done.
      * rewrite (proj2 (Z.eqb_neq (x - y) 0)) by lia. rewrite <- Z.compare_sub.
        destruct (x ?= y) eqn:E; [apply Z.compare_eq in E; lia|done..].
Qed.

(** The comparison of the common bytes and then of the lengths, as the code writes it. *)
Lemma bytes_rc a b rest k : zlen a < 2 ^ 30 -> zlen b < 2 ^ 30 -> k = Z.min (zlen a) (zlen b) ->
  let rc := memcmp (a ++ rest) b (Z.to_nat k) in
  ((if rc =? 0 then i32 (zlen a - zlen b) else rc) ?= 0) = bytes_compare a b.
Proof.
  intros Ha Hb ->. rewrite (memcmp_compare a b rest).
  assert (Z.to_nat (Z.min (zlen a) (zlen b)) = Nat.min (length a) (length b)) as -> by (unfold zlen; lia).
  cbv zeta. case_if; [|done]. pose proof (zlen_nonneg a). pose proof (zlen_nonneg b).
  rewrite wraps_small by (try change (2 ^ (32 - 1)) with (2 * 2 ^ 30); lia). symmetry. apply Z.compare_sub.
Qed.

Lemma all_zero_compare a n : 0 <= n < 2 ^ 30 -> bytes_ok a -> zlen a < 2 ^ 30 -> forall rest,
  ((if negb (isAllZero (a ++ rest) (zlen a)) then 1 else i32 (zlen a - n)) ?= 0) = bytes_compare a (repeat 0 (Z.to_nat n)).
Proof.
  intros Hn Hb Hl rest. unfold isAllZero. assert (take (Z.to_nat (zlen a)) (a ++ rest) = a) as ->
    by (unfold zlen; rewrite Nat2Z.id; apply take_app_length).
  pose proof (zlen_nonneg a). assert (i32 (zlen a - n) = zlen a - n) as ->
    by (apply wraps_small; [lia|change (2 ^ (32 - 1)) with (2 * 2 ^ 30); lia]).
  clear Hl H. rewrite <- (Z2Nat.id n) by lia. rewrite Nat2Z.id. generalize (Z.to_nat n) as k. clear n Hn.
  induction Hb as [|x a Hx Ha IH]; intros k; [destruct k; done|].
  cbn [forallb]. destruct k as [|k]; cbn [repeat bytes_compare].
  - case_if; [done|]. rewrite zlen_cons. pose proof (zlen_nonneg a). apply Z.compare_gt_iff. lia.
  - specialize (IH k). destruct (Z.eqb_spec x 0) as [->|Hne]; cbn [andb negb].
    + rewrite Z.compare_refl, <- IH. rewrite zlen_cons. case_if; [done|]. f_equal. lia.
    + unfold is_byte in Hx. rewrite (proj2 (Z.compare_gt_iff x 0)) by lia. done.
Qed.

(** ** Lemmas: sort flags *)

Lemma field_eq enc c fl v w : field_compare enc c fl v w = Eq <-> val_compare enc c false v w = Eq.
Proof.
  unfold field_compare, val_compare.
  assert (forall big, (rank big v ?= rank big w) = Eq <-> (rank false v ?= rank false w) = Eq) as Hr.
  { intros big. rewrite !Z.compare_eq_iff. destruct big, v, w; done. }
  specialize (Hr (negb (Z.land fl KEYINFO_ORDER_BIGNULL =? 0))).
  set (r := rank _ v ?= rank _ w) in *.
  set (x := match v with SNull => _ | SInt _ => _ | SReal _ => _ | SText _ => _ | SBlob _ => _ end).
  assert (forall o, (if Z.land fl KEYINFO_ORDER_DESC =? 0 then o else CompOpp o) = Eq <-> o = Eq) as ->
    by (intros o; case_if; destruct o; done).
  destruct r, (rank false v ?= rank false w); naive_solver.
Qed.

(** With NULL as the largest value only the comparisons with NULL change. *)
Lemma big_null_compare enc c v w :
  val_compare enc c true v w =
  match v, w with
  | SNull, SNull => Eq
  | SNull, _ | _, SNull => CompOpp (val_compare enc c false v w)
  | _, _ => val_compare enc c false v w
  end.
Proof. by destruct v, w. Qed.

Lemma opp_compare rc : (- rc ?= 0) = CompOpp (rc ?= 0).
Proof. by destruct rc. Qed.

(** The sort flags turn the order of the values into the order of the column. *)
Lemma apply_sort_spec enc c fl t v m rc : In fl [0; 1; 2; 3] -> mem_ok m -> rc <> 0 ->
  (t = 0 <-> v = SNull) -> (rc ?= 0) = val_compare enc c false v (mem_val m) ->
  (apply_sort fl t m rc ?= 0) = field_compare enc c fl v (mem_val m).
Proof.
  intros Hfl Hm Hrc Ht Hv.
  assert ((t =? 0) = match v with SNull => true | _ => false end) as Ht'.
  { destruct (Z.eqb_spec t 0); destruct v; naive_solver. }
  assert (has (m_flags m) MEM_Null = match mem_val m with SNull => true | _ => false end) as Hn.
  { destruct (mem_classify m Hm); done. }
  assert (val_compare enc c false v (mem_val m) <> Eq) as Hne by (rewrite <- Hv, Z.compare_eq_iff; done).
  unfold apply_sort. rewrite Ht', Hn. unfold field_compare. clear Ht Ht' Hn.
  cbn [In] in Hfl. destruct Hfl as [<-|[<-|[<-|[<-|[]]]]].
  - exact Hv.
  - transitivity (- rc ?= 0); [done|]. by rewrite opp_compare, Hv.
  - change (negb (Z.land 2 KEYINFO_ORDER_BIGNULL =? 0)) with true. rewrite big_null_compare.
    destruct v, (mem_val m); first [done | transitivity (- rc ?= 0); [done|by rewrite opp_compare, Hv]].
  - change (negb (Z.land 3 KEYINFO_ORDER_BIGNULL =? 0)) with true. rewrite big_null_compare.
    destruct v, (mem_val m);
      first [done | transitivity (- rc ?= 0); [done|by rewrite opp_compare, Hv] | transitivity (rc ?= 0); [done|by rewrite Hv, CompOpp_involutive]].
Qed.

(** ** Lemmas: numbers *)

Lemma compare_ints_spec a b : (compare_ints a b ?= 0) = (a * 2 ^ 1074 ?= b * 2 ^ 1074).
Proof.
  rewrite <- Zmult_compare_compat_r by reflexivity. unfold compare_ints.
  destruct (Z.ltb_spec a b); [by rewrite (proj2 (Z.compare_lt_iff a b))|].
  destruct (Z.ltb_spec b a); [by rewrite (proj2 (Z.compare_gt_iff a b))|].
  by rewrite (proj2 (Z.compare_eq_iff a b)) by lia.
Qed.

Lemma int_float_sign i r : - 2 ^ 63 <= i < 2 ^ 63 -> 0 <= r < 2 ^ 64 -> IsNaN r = false ->
  (sqlite3IntFloatCompare i r ?= 0) = (i * 2 ^ 1074 ?= dscaled r).
Proof. intros Hi Hr Hn. rewrite int_float_spec, Hn by done. by destruct (_ ?= dscaled r). Qed.

Lemma double_sign a b : 0 <= a < 2 ^ 64 -> IsNaN a = false -> 0 <= b < 2 ^ 64 -> IsNaN b = false ->
  ((if double_lt a b then -1 else if double_gt a b then 1 else 0) ?= 0) = (dscaled a ?= dscaled b).
Proof.
  intros Ha Hna Hb Hnb. unfold double_gt. rewrite !double_lt_scaled by done.
  destruct (Z.ltb_spec (dscaled a) (dscaled b)); [by rewrite (proj2 (Z.compare_lt_iff (dscaled a) (dscaled b)))|].
  destruct (Z.ltb_spec (dscaled b) (dscaled a)); [by rewrite (proj2 (Z.compare_gt_iff (dscaled a) (dscaled b)))|].
  by rewrite (proj2 (Z.compare_eq_iff (dscaled a) (dscaled b))) by lia.
Qed.

Lemma opp_sign a b x y : (a ?= 0) = (x ?= y) -> b = - a -> (b ?= 0) = (y ?= x).
Proof. intros H ->. rewrite opp_compare, H. symmetry. apply Z.compare_antisym. Qed.

Arguments num_key : simpl never.

Lemma real_back fmt r rest m : val_ok (SReal r) -> bytes_ok rest ->
  serialGet7 (val_data fmt (SReal r) ++ rest) m = (0, set_real m MEM_Real r).
Proof.
  intros [Hr Hn] Hb. unfold serialGet7. change (val_data fmt (SReal r)) with (store_be 8 r []).
  by rewrite read_real, Hn.
Qed.

(** ** Lemmas: one field *)

(** Value [v] is stored with its type at [idx] and its bytes at [d] of the key. *)
Record field_at (fmt nKey1 : Z) (aKey : list Z) (idx d : Z) (v : sval) (r1 r2 : list Z) : Prop := {
  fa_ok : val_ok v;
  fa_r1 : bytes_ok r1;
  fa_r2 : bytes_ok r2;
  fa_idx : 0 <= idx;
  fa_type : zdrop idx aKey = put_varint (val_type fmt v) ++ r1;
  fa_data : zdrop d aKey = val_data fmt v ++ r2;
  fa_end : d + zlen (val_data fmt v) <= nKey1
}.

Section field.
Context (fmt : Z) (nKey1 : Z) (aKey : list Z) (ki : KeyInfo) (idx d : Z) (i : nat) (r1 r2 : list Z).

(** What comparing one field has to answer. *)
Definition field_spec (v : sval) (m : Mem) (res : option (Z * Z)) : Prop :=
  exists rc t, res = Some (rc, t) /\
    (rc ?= 0) = val_compare (k_enc ki) (coll ki i) false v (mem_val m) /\
    (rc = 0 -> t = val_type fmt v) /\ (t = 0 <-> v = SNull).

Lemma type_byte v : field_at fmt nKey1 aKey idx d v r1 r2 ->
  (val_type fmt v < 128 -> zat aKey idx = val_type fmt v) /\ (128 <= val_type fmt v -> 128 <= zat aKey idx).
Proof.
  intros [Hv Hr1 _ Hidx Hh _ _]. destruct (put_varint_spec _ r1 (val_type_range fmt v Hv) Hr1) as (_ & _ & _ & _ & Hs & Hb). rewrite <- Hh in Hb.
  rewrite zat_zdrop, Z.add_0_r in Hb by done. split; [|lia].
  intros Hlt. rewrite <- (Z.add_0_r idx), <- zat_zdrop, Hh, Hs by done. done.
Qed.

Lemma type_null v : val_ok v -> (val_type fmt v = 0 <-> v = SNull).
Proof.
  intros Hv. destruct v as [|j|r|b|b]; cbn [val_type val_ok] in *; split; try done; intros H; exfalso.
  - pose proof (int_type_range fmt j Hv). lia.
  - pose proof (zlen_nonneg b). lia.
  - pose proof (zlen_nonneg b). lia.
Qed.

(** The types of texts and blobs are out of the range of numbers, also by their first byte. *)
Lemma bytes_type v : field_at fmt nKey1 aKey idx d v r1 r2 -> 12 <= val_type fmt v -> 10 <= zat aKey idx /\ zat aKey idx <> 10.
Proof. intros Hf H. destruct (type_byte v Hf). lia. Qed.

Lemma read_type v : field_at fmt nKey1 aKey idx d v r1 r2 -> (getVarint32 (zdrop idx aKey)).2 = val_type fmt v.
Proof.
  intros [Hv Hr1 _ Hidx Hh _ _]. destruct (put_varint_spec _ r1 (val_type_range fmt v Hv) Hr1) as (_ & _ & _ & Hg & _). by rewrite Hh, Hg.
Qed.

Lemma field_int v m : field_at fmt nKey1 aKey idx d v r1 r2 -> mem_ok m -> has (m_flags m) (Z.lor MEM_Int MEM_IntReal) = true -> mem_val m = SInt (u_i m) ->
  field_spec v m (compare_field nKey1 aKey ki idx d i m).
Proof.
  intros Hf Hm H1 Hmv. unfold compare_field, field_spec. rewrite H1, Hmv. eexists _, _. split; [done|].
  destruct (type_byte v Hf) as [Hb1 Hb2]. pose proof Hf as [Hv Hr1 Hr2 Hidx Hh Hd Hn].
  destruct v as [|j|r|b|b]; cbn [val_type val_ok] in *.
  - rewrite Hb1 by lia. done.
  - pose proof (int_type_range fmt j Hv) as Ht. rewrite Hb1 by lia. rewrite Hd.
    rewrite (proj2 (Z.leb_gt 10 _)), (proj2 (Z.eqb_neq (int_type fmt j) 0)), (proj2 (Z.eqb_neq (int_type fmt j) 7)) by lia.
    rewrite (proj1 (read_int fmt j r2 Hv Hr2)). split; [apply compare_ints_spec|]. split; [done|]. split; [lia|done].
  - rewrite Hb1 by lia. rewrite Hd. change (10 <=? 7) with false. change (7 =? 0) with false. change (7 =? 7) with true. cbv iota.
    rewrite real_back by done. split; [|done]. apply (opp_sign (sqlite3IntFloatCompare (u_i m) r) _ (u_i m * 2 ^ 1074)); [|done].
    apply int_float_sign; [apply Hm|tauto..].
  - pose proof (zlen_nonneg b). destruct (bytes_type _ Hf) as [Hb3 Hb4]; [cbn; lia|].
    rewrite (proj2 (Z.leb_le 10 _)), (proj2 (Z.eqb_neq _ 10)) by done. split; [done|]. split; [done|]. split; [lia|done].
  - pose proof (zlen_nonneg b). destruct (bytes_type _ Hf) as [Hb3 Hb4]; [cbn; lia|].
    rewrite (proj2 (Z.leb_le 10 _)), (proj2 (Z.eqb_neq _ 10)) by done. split; [done|]. split; [done|]. split; [lia|done].
Qed.

Lemma field_real v m : field_at fmt nKey1 aKey idx d v r1 r2 -> mem_ok m -> has (m_flags m) (Z.lor MEM_Int MEM_IntReal) = false -> has (m_flags m) MEM_Real = true ->
  IsNaN (u_r m) = false -> mem_val m = SReal (u_r m) -> field_spec v m (compare_field nKey1 aKey ki idx d i m).
Proof.
  intros Hf Hm H1 H2 Hnan Hmv. unfold compare_field, field_spec. rewrite H1, H2, Hmv. eexists _, _. split; [done|].
  destruct (type_byte v Hf) as [Hb1 Hb2]. pose proof Hf as [Hv Hr1 Hr2 Hidx Hh Hd Hn]. destruct (mo_real _ Hm) as [Hrr _].
  destruct v as [|j|r|b|b]; cbn [val_type val_ok] in *.
  - rewrite Hb1 by lia. done.
  - pose proof (int_type_range fmt j Hv) as Ht. rewrite Hb1 by lia. rewrite Hd.
    rewrite (proj2 (Z.leb_gt 10 _)), (proj2 (Z.eqb_neq (int_type fmt j) 0)), (proj2 (Z.eqb_neq (int_type fmt j) 7)) by lia.
    rewrite (proj1 (proj2 (read_int fmt j r2 Hv Hr2))). cbn [set_int u_i].
    split; [by apply int_float_sign|]. split; [done|]. split; [lia|done].
  - rewrite Hb1 by lia. rewrite Hd. change (10 <=? 7) with false. change (7 =? 0) with false. change (7 =? 7) with true. cbv iota.
    rewrite real_back by done. destruct Hv. split; [|done]. by apply double_sign.
  - pose proof (zlen_nonneg b). destruct (bytes_type _ Hf) as [Hb3 Hb4]; [cbn; lia|].
    rewrite (proj2 (Z.leb_le 10 _)), (proj2 (Z.eqb_neq _ 10)) by done. split; [done|]. split; [done|]. split; [lia|done].
  - pose proof (zlen_nonneg b). destruct (bytes_type _ Hf) as [Hb3 Hb4]; [cbn; lia|].
    rewrite (proj2 (Z.leb_le 10 _)), (proj2 (Z.eqb_neq _ 10)) by done. split; [done|]. split; [done|]. split; [lia|done].
Qed.

Lemma field_null v m : field_at fmt nKey1 aKey idx d v r1 r2 -> has (m_flags m) (Z.lor MEM_Int MEM_IntReal) = false -> has (m_flags m) MEM_Real = false ->
  has (m_flags m) MEM_Str = false -> has (m_flags m) MEM_Blob = false -> mem_val m = SNull ->
  field_spec v m (compare_field nKey1 aKey ki idx d i m).
Proof.
  intros Hf H1 H2 H3 H4 Hmv. unfold compare_field, field_spec. rewrite H1, H2, H3, H4, Hmv. eexists _, _. split; [done|].
  destruct (type_byte v Hf) as [Hb1 Hb2]. pose proof Hf as [Hv Hr1 Hr2 Hidx Hh Hd Hn].
  destruct v as [|j|r|b|b]; cbn [val_type val_ok] in *.
  - rewrite Hb1 by lia. done.
  - pose proof (int_type_range fmt j Hv) as Ht. rewrite Hb1 by lia.
    rewrite (proj2 (Z.eqb_neq (int_type fmt j) 0)), (proj2 (Z.eqb_neq (int_type fmt j) 7)), (proj2 (Z.eqb_neq (int_type fmt j) 10)) by lia.
    split; [done|]. split; [done|]. split; [lia|done].
  - rewrite Hb1 by lia. rewrite Hd, real_back by done. done.
  - pose proof (zlen_nonneg b). destruct (bytes_type _ Hf) as [Hb3 Hb4]; [cbn; lia|].
    rewrite (proj2 (Z.eqb_neq (zat aKey idx) 0)), (proj2 (Z.eqb_neq (zat aKey idx) 7)), (proj2 (Z.eqb_neq _ 10)) by lia.
    split; [done|]. split; [done|]. split; [lia|done].
  - pose proof (zlen_nonneg b). destruct (bytes_type _ Hf) as [Hb3 Hb4]; [cbn; lia|].
    rewrite (proj2 (Z.eqb_neq (zat aKey idx) 0)), (proj2 (Z.eqb_neq (zat aKey idx) 7)), (proj2 (Z.eqb_neq _ 10)) by lia.
    split; [done|]. split; [done|]. split; [lia|done].
Qed.

Lemma take_all (b rest : list Z) : take (Z.to_nat (zlen b)) (b ++ rest) = b.
Proof. unfold zlen. rewrite Nat2Z.id. apply take_app_length. Qed.

Lemma half_types n : (13 + 2 * n - 12) / 2 = n /\ (12 + 2 * n - 12) / 2 = n.
Proof. split; Z.to_euclidean_division_equations; lia. Qed.

Lemma small_type v : val_ok v -> (val_type fmt v < 12 <-> match v with SText _ | SBlob _ => False | _ => True end).
Proof.
  intros Hv. destruct v as [|j|r|b|b]; cbn [val_type val_ok] in *; [lia| |lia|..].
  - pose proof (int_type_range fmt j Hv). lia.
  - pose proof (zlen_nonneg b). lia.
  - pose proof (zlen_nonneg b). lia.
Qed.

Lemma field_text v m : field_at fmt nKey1 aKey idx d v r1 r2 -> mem_ok m -> Z.of_nat i < nAllField ki ->
  has (m_flags m) (Z.lor MEM_Int MEM_IntReal) = false -> has (m_flags m) MEM_Real = false ->
  has (m_flags m) MEM_Str = true -> mem_val m = SText (m_z m) ->
  field_spec v m (compare_field nKey1 aKey ki idx d i m).
Proof.
  intros Hf Hm Hi H1 H2 H3 Hmv. unfold compare_field, field_spec. rewrite H1, H2, H3, Hmv, (read_type v) by done.
  pose proof Hf as [Hv Hr1 Hr2 Hidx Hh Hd Hn]. pose proof (small_type v Hv) as Hs. pose proof (type_null v Hv) as Hnull.
  destruct (mo_bytes _ Hm) as [_ Hmn]. destruct (mo_size _ Hm) as [Hz1 Hz2].
  destruct v as [|j|r|b|b]; cbn [val_ok] in Hv;
    try (rewrite (proj2 (Z.ltb_lt _ _)) by tauto; eexists _, _; split; [done|]; done).
  - rewrite (proj2 (Z.ltb_ge _ _)) by lia. cbn [val_type val_data] in *. rewrite (proj1 (odd_type b)).
    change (1 =? 0) with false. rewrite (proj1 (half_types (zlen b))). cbv iota zeta.
    rewrite (proj2 (Z.ltb_ge _ _)), (proj2 (Z.leb_gt _ _)) by lia. cbn [orb]. rewrite Hd.
    unfold val_compare, text_compare. cbn [rank]. rewrite Z.compare_refl.
    destruct (coll ki i) as [c|]; eexists _, _; (split; [done|]).
    + split; [|done]. unfold vdbeCompareMemString, vdbeCompareMemStringWithEncodingChange. cbn [m_n m_z].
      rewrite take_all. rewrite (mem_bytes_ok m Hm : take _ _ = _). by destruct (_ =? _).
    + split; [|done]. rewrite Hmn. apply bytes_rc; [tauto|lia|done].
  - rewrite (proj2 (Z.ltb_ge _ _)) by lia. cbn [val_type]. rewrite (proj2 (odd_type b)). eexists _, _. split; [done|].
    split; [done|]. split; [done|]. split; [pose proof (zlen_nonneg b); lia|done].
Qed.

Lemma field_blob v m : field_at fmt nKey1 aKey idx d v r1 r2 -> rhs_ok m ->
  has (m_flags m) (Z.lor MEM_Int MEM_IntReal) = false -> has (m_flags m) MEM_Real = false ->
  has (m_flags m) MEM_Str = false -> has (m_flags m) MEM_Blob = true ->
  mem_val m = SBlob (m_z m ++ (if has (m_flags m) MEM_Zero then repeat 0 (Z.to_nat (u_nZero m)) else [])) ->
  field_spec v m (compare_field nKey1 aKey ki idx d i m).
Proof.
  intros Hf [Hm Hzero] H1 H2 H3 H4 Hmv. unfold compare_field, field_spec. rewrite H1, H2, H3, H4, Hmv, (read_type v) by done.
  pose proof Hf as [Hv Hr1 Hr2 Hidx Hh Hd Hn]. pose proof (small_type v Hv) as Hs. pose proof (type_null v Hv) as Hnull.
  destruct (mo_bytes _ Hm) as [_ Hmn]. destruct (mo_size _ Hm) as [Hz1 Hz2].
  destruct v as [|j|r|b|b]; cbn [val_ok] in Hv;
    try (rewrite (proj2 (Z.ltb_lt _ _)) by tauto; eexists _, _; split; [done|]; done).
  - rewrite (proj2 (Z.ltb_ge _ _)) by lia. cbn [val_type]. rewrite (proj1 (odd_type b)). eexists _, _. split; [done|].
    split; [done|]. split; [done|]. split; [pose proof (zlen_nonneg b); lia|done].
  - rewrite (proj2 (Z.ltb_ge _ _)) by lia. cbn [val_type val_data] in *. rewrite (proj2 (odd_type b)).
    change (0 =? 0) with true. cbn [negb orb]. cbv zeta. rewrite (proj2 (half_types (zlen b))).
    rewrite (proj2 (Z.ltb_ge _ _)) by lia. rewrite Hd.
    unfold val_compare. cbn [rank]. rewrite Z.compare_refl.
    destruct (has (m_flags m) MEM_Zero); eexists _, _; (split; [done|]); (split; [|done]).
    + assert (m_z m = []) as -> by (apply length_zero_iff_nil; specialize (Hzero eq_refl); unfold zlen in Hmn; lia).
      cbn [app]. apply all_zero_compare; [lia|tauto..].
    + rewrite app_nil_r, Hmn. apply bytes_rc; [tauto|lia|done].
Qed.

(** One field against one register. *)
Lemma field_all v m : field_at fmt nKey1 aKey idx d v r1 r2 -> rhs_ok m -> Z.of_nat i < nAllField ki ->
  field_spec v m (compare_field nKey1 aKey ki idx d i m).
Proof.
  intros Hf Hm Hi. pose proof (ro_mem _ Hm) as Hm'. pose proof (mem_classify m Hm') as Hc.
  remember (mem_val m) as w eqn:Ew. symmetry in Ew.
  destruct Hc as [? ? ? ? ? ?|? ? ? ?|? ? ? ?|? ? ? ? ? ?|zs ? ? ? ? ? Hzs].
  - by apply field_null.
  - by apply field_int.
  - by apply field_real.
  - by apply field_text.
  - apply field_blob; [done..|]. by rewrite Ew, Hzs.
Qed.
End field.

(** ** Lemmas: the loop *)

Lemma reports_sign p o rc : rc <> 0 -> (rc ?= 0) = o -> reports p o (rc, p).
Proof.
  intros Hrc <-. unfold reports. destruct (rc ?= 0) eqn:E.
  - apply Z.compare_eq in E. lia.
  - apply Z.compare_lt_iff in E. done.
  - apply Z.compare_gt_iff in E. done.
Qed.

Lemma varint_len_put v : 0 <= v < 2 ^ 32 -> varint_len v = zlen (put_varint v).
Proof. intros Hv. by apply (put_varint_spec v [] Hv (Forall_nil_2 _)). Qed.

Lemma loop_spec fmt nKey1 aKey szHdr p vs : forall rhs i idx d r1 r2,
  Forall val_ok vs -> Forall rhs_ok rhs -> bytes_ok r1 -> bytes_ok r2 -> 0 <= idx -> 0 <= d ->
  zdrop idx aKey = hdr_bytes fmt vs ++ r1 -> zdrop d aKey = data_bytes fmt vs ++ r2 ->
  szHdr = idx + zlen (hdr_bytes fmt vs) -> d + zlen (data_bytes fmt vs) <= nKey1 ->
  rhs <> [] -> (length rhs <= length vs)%nat ->
  nField p = Z.of_nat i + zlen rhs -> nField p <= nAllField (pKeyInfo p) ->
  (forall j, In (sort_flags (pKeyInfo p) j) [0; 1; 2; 3]) ->
  reports p (key_compare (pKeyInfo p) i vs (map mem_val rhs))
    (compare_loop nKey1 aKey szHdr p rhs i idx d).
Proof.
  induction vs as [|v vs IH]; intros rhs i idx d r1 r2 Hvs Hrhs Hr1 Hr2 Hi Hd Hh Hdat -> Hn Hne Hl Hf Hall Hfl;
    destruct rhs as [|m rhs]; try done; [cbn [length] in Hl; lia|].
  apply Forall_cons in Hvs as [Hv Hvs]. apply Forall_cons in Hrhs as [Hm Hrhs].
  assert (hdr_bytes fmt (v :: vs) = put_varint (val_type fmt v) ++ hdr_bytes fmt vs) as Eh by done.
  assert (data_bytes fmt (v :: vs) = val_data fmt v ++ data_bytes fmt vs) as Ed by done.
  rewrite Eh in *. rewrite Ed in *. rewrite !zlen_app in *. rewrite <- app_assoc in Hh, Hdat.
  pose proof (zlen_nonneg (hdr_bytes fmt vs)). pose proof (zlen_nonneg (data_bytes fmt vs)). pose proof (zlen_nonneg (val_data fmt v)).
  pose proof (zlen_nonneg rhs). rewrite zlen_cons in Hf.
  assert (bytes_ok (hdr_bytes fmt vs ++ r1)) as Hb1 by (apply Forall_app; split; [by apply hdr_ok|done]).
  assert (bytes_ok (data_bytes fmt vs ++ r2)) as Hb2 by (apply Forall_app; split; [by apply data_ok|done]).
  assert (field_at fmt nKey1 aKey idx d v (hdr_bytes fmt vs ++ r1) (data_bytes fmt vs ++ r2)) as Hat
    by (constructor; done || lia).
  destruct (field_all fmt nKey1 aKey (pKeyInfo p) idx d i _ _ v m Hat Hm) as (rc & t & Hc & Hsgn & Ht & Hnull); [lia|].
  cbn [compare_loop map key_compare]. rewrite Hc.
  destruct (Z.eqb_spec rc 0) as [Hrc|Hrc]; cbn [negb].
  - specialize (Ht Hrc). subst t. rewrite Hrc in Hsgn. change (0 ?= 0) with Eq in Hsgn. symmetry in Hsgn.
    apply (field_eq _ _ (sort_flags (pKeyInfo p) i)) in Hsgn. rewrite Hsgn.
    destruct (Z.eqb_spec (Z.of_nat i + 1) (nField p)) as [Hlast|Hmore].
    + assert (rhs = []) as -> by (apply length_zero_iff_nil; unfold zlen in Hf; lia).
      by destruct vs.
    + cbv zeta. rewrite val_len, varint_len_put by (done || by apply val_type_range).
      rewrite (proj2 (Z.ltb_ge _ _)) by lia.
      assert (1 <= zlen vs) as Hvs1 by (unfold zlen in *; cbn [length] in Hl; lia).
      pose proof (hdr_len fmt vs Hvs) as Hhl.
      rewrite (proj2 (Z.leb_gt _ _)) by lia.
      destruct (put_varint_spec _ _ (val_type_range fmt v Hv) Hb1) as (_ & _ & Hpl & _).
      apply (IH rhs (S i) _ _ r1 r2); try done; try lia.
      * rewrite <- zdrop_zdrop, Hh by lia. by apply zdrop_app.
      * rewrite <- zdrop_zdrop, Hdat by lia. by apply zdrop_app.
      * intros ->. change (zlen (@nil Mem)) with 0 in Hf. lia.
      * cbn [length] in Hl. lia.
  - assert ((apply_sort (sort_flags (pKeyInfo p) i) t m rc ?= 0) = field_compare (k_enc (pKeyInfo p)) (coll (pKeyInfo p) i) (sort_flags (pKeyInfo p) i) v (mem_val m)) as Hs
      by (apply apply_sort_spec; [done|apply Hm|done..]).
    assert (field_compare (k_enc (pKeyInfo p)) (coll (pKeyInfo p) i) (sort_flags (pKeyInfo p) i) v (mem_val m) <> Eq) as Hneq
      by (rewrite field_eq, <- Hsgn, Z.compare_eq_iff; done).
    replace (match field_compare _ _ _ v (mem_val m) with Eq => _ | o => o end)
      with (field_compare (k_enc (pKeyInfo p)) (coll (pKeyInfo p) i) (sort_flags (pKeyInfo p) i) v (mem_val m))
      by (by destruct (field_compare _ _ _ _ _)).
    apply reports_sign; [|done]. intros Hz. rewrite Hz in Hs. by rewrite <- Hs in Hneq.
Qed.

(** ** Lemmas: whole keys *)

Lemma put_varint_len5 v : 0 <= v < 2 ^ 32 -> zlen (put_varint v) <= 5.
Proof.
  intros Hv. rewrite <- varint_len_put by done.
  destruct (Z.lt_ge_cases v (2 ^ 7)); [rewrite (varint_len_eq 1); change (7 * Z.of_nat 1) with 7; lia|].
  destruct (Z.lt_ge_cases v (2 ^ 14));
    [rewrite (varint_len_eq 2); change (7 * Z.of_nat 2) with 14; change (7 * Z.of_nat (2 - 1)) with 7; lia|].
  destruct (Z.lt_ge_cases v (2 ^ 21));
    [rewrite (varint_len_eq 3); change (7 * Z.of_nat 3) with 21; change (7 * Z.of_nat (3 - 1)) with 14; lia|].
  destruct (Z.lt_ge_cases v (2 ^ 28));
    [rewrite (varint_len_eq 4); change (7 * Z.of_nat 4) with 28; change (7 * Z.of_nat (4 - 1)) with 21; lia|].
  rewrite (varint_len_eq 5); change (7 * Z.of_nat 5) with 35; change (7 * Z.of_nat (5 - 1)) with 28; lia.
Qed.

Lemma hdr_len5 fmt vs : Forall val_ok vs -> zlen (hdr_bytes fmt vs) <= 5 * zlen vs.
Proof.
  intros H. unfold hdr_bytes. induction H as [|v vs Hv _ IH]; [done|]. cbn [map concat].
  rewrite zlen_app, zlen_cons. pose proof (put_varint_len5 _ (val_type_range fmt v Hv)). lia.
Qed.

Definition SQLITE_MAX_LENGTH : Z := 1000000000.

(** A stored row and an unpacked key for the same index. *)
Record key_pair (fmt : Z) (vs : list sval) (p : UnpackedRecord) : Prop := {
  kp_vals : Forall val_ok vs;
  kp_size : zlen (record_of fmt vs) <= SQLITE_MAX_LENGTH;
  kp_rhs : Forall rhs_ok (aMem p);
  kp_fields : 1 <= nField p /\ nField p = zlen (aMem p);
  kp_enough : nField p <= zlen vs <= nAllField (pKeyInfo p);
  kp_limit : nAllField (pKeyInfo p) <= 65536;
  kp_flags : forall j, In (sort_flags (pKeyInfo p) j) [0; 1; 2; 3]
}.

Section whole.
Context (fmt : Z) (vs : list sval) (p : UnpackedRecord) (pad : list Z).
Context (Hkp : key_pair fmt vs p) (Hpad : bytes_ok pad).

Lemma generic_spec :
  reports p (key_compare (pKeyInfo p) 0 vs (map mem_val (aMem p)))
    (sqlite3VdbeRecordCompare (zlen (record_of fmt vs)) (record_of fmt vs ++ pad) p).
Proof using All.
  destruct Hkp as [Hvs Hsz Hrhs [Hf1 Hf] Hen Hlim Hfl].
  destruct (record_prefix fmt vs pad Hvs ltac:(lia) Hpad) as (Hg & Hd1 & Hd2 & Hl & Hk).
  set (hb := hdr_bytes fmt vs) in *. set (k := zlen (put_varint (header_size (zlen hb)))) in *.
  pose proof (zlen_nonneg hb). pose proof (zlen_nonneg (data_bytes fmt vs)).
  unfold sqlite3VdbeRecordCompare, sqlite3VdbeRecordCompareWithSkip. rewrite Hg.
  rewrite (proj2 (Z.ltb_ge _ _)) by lia. cbn [drop].
  apply (loop_spec fmt _ _ _ p vs (aMem p) 0 k (k + zlen hb) (data_bytes fmt vs ++ pad) pad); try done; try lia.
  - apply Forall_app; split; [by apply data_ok|done].
  - intros E. rewrite E in Hf. change (zlen (@nil Mem)) with 0 in Hf. lia.
  - unfold zlen in *. lia.
Qed.

Lemma short_header : zlen vs <= 13 ->
  let hb := hdr_bytes fmt vs in
  put_varint (header_size (zlen hb)) = [1 + zlen hb] /\ 1 + zlen hb <= 66.
Proof using All.
  intros Hn hb. destruct Hkp as [Hvs Hsz _ _ _ _ _]. pose proof (hdr_len5 fmt vs Hvs) as H5. fold hb in H5.
  pose proof (zlen_nonneg hb). unfold header_size. rewrite (proj2 (Z.leb_le _ 126)) by lia.
  split; [|lia]. rewrite Z.add_comm. apply put_small. lia.
Qed.

(** Where the comparison starts when the first field is skipped. *)
Lemma skip_start nKey aKey q n t : getVarint32 (zdrop 1 aKey) = (n, t) ->
  sqlite3VdbeRecordCompareWithSkip nKey aKey q true =
  if nKey <? zat aKey 0 + sqlite3VdbeSerialTypeLen t then (0, set_corrupt q)
  else compare_loop nKey aKey (zat aKey 0) q (drop 1 (aMem q)) 1 (1 + n) (zat aKey 0 + sqlite3VdbeSerialTypeLen t).
Proof using.
  intros Hg. unfold getVarint32 in Hg. rewrite zat_zdrop in Hg by lia. change (1 + 0) with 1 in Hg.
  unfold sqlite3VdbeRecordCompareWithSkip. cbv zeta. destruct (zat aKey 1 <? 128).
  - injection Hg as <- <-. done.
  - rewrite Hg. done.
Qed.

(** Skipping the first field. *)
Lemma skip_spec v vs' m ms : vs = v :: vs' -> aMem p = m :: ms -> 1 < nField p -> zlen vs <= 13 ->
  reports p (key_compare (pKeyInfo p) 1 vs' (map mem_val ms))
    (sqlite3VdbeRecordCompareWithSkip (zlen (record_of fmt vs)) (record_of fmt vs ++ pad) p true).
Proof using All.
  intros Evs Em Hf2 Hn13. destruct (short_header Hn13) as [Hk1 Hk66].
  destruct Hkp as [Hvs Hsz Hrhs [Hf1 Hf] Hen Hlim Hfl].
  destruct (record_prefix fmt vs pad Hvs ltac:(lia) Hpad) as (Hg & Hd1 & Hd2 & Hl & Hk).
  rewrite Hk1 in *. change (zlen [1 + zlen (hdr_bytes fmt vs)]) with 1 in *.
  assert (zat (record_of fmt vs ++ pad) 0 = 1 + zlen (hdr_bytes fmt vs)) as H0.
  { unfold record_of. rewrite Hk1. done. }
  set (aKey := record_of fmt vs ++ pad) in *. rewrite Evs in Hvs, Hd1, Hd2, Hl, H0 |- *. rewrite Em in Hrhs, Hf.
  apply Forall_cons in Hvs as [Hv Hvs]. apply Forall_cons in Hrhs as [_ Hrhs].
  assert (hdr_bytes fmt (v :: vs') = put_varint (val_type fmt v) ++ hdr_bytes fmt vs') as Eh by done.
  assert (data_bytes fmt (v :: vs') = val_data fmt v ++ data_bytes fmt vs') as Ed by done.
  rewrite Eh, Ed in *. rewrite !zlen_app in *.
  rewrite <- (app_assoc (put_varint _)), <- (app_assoc (val_data fmt v)) in Hd1. rewrite <- app_assoc in Hd2.
  assert (bytes_ok (hdr_bytes fmt vs' ++ val_data fmt v ++ data_bytes fmt vs' ++ pad)) as Hb1.
  { apply Forall_app; split; [by apply hdr_ok|]. apply Forall_app; split; [by apply val_data_ok|].
    apply Forall_app; split; [by apply data_ok|done]. }
  destruct (put_varint_spec _ _ (val_type_range fmt v Hv) Hb1) as (_ & _ & Hpl & Hgt & _).
  pose proof (zlen_nonneg (hdr_bytes fmt vs')). pose proof (zlen_nonneg (data_bytes fmt vs')). pose proof (zlen_nonneg (val_data fmt v)).
  rewrite <- Hd1 in Hgt. rewrite (skip_start _ _ _ _ _ Hgt), H0, val_len by done.
  rewrite (proj2 (Z.ltb_ge _ _)) by lia. rewrite Em. cbn [drop].
  apply (loop_spec fmt _ _ _ p vs' ms 1 _ _ (val_data fmt v ++ data_bytes fmt vs' ++ pad) pad); try done; try lia.
  - apply Forall_app; split; [by apply val_data_ok|]. apply Forall_app; split; [by apply data_ok|done].
  - rewrite <- zdrop_zdrop, Hd1 by lia. by apply zdrop_app.
  - rewrite <- zdrop_zdrop, Hd2 by lia. by apply zdrop_app.
  - intros ->. rewrite zlen_cons in Hf. change (zlen (@nil Mem)) with 0 in Hf. lia.
  - rewrite Evs in Hen. rewrite !zlen_cons in *. unfold zlen in *. lia.
  - rewrite zlen_cons in Hf. lia.
Qed.

(** The answers prepared for the first field. *)
Definition dirs : Prop :=
  (sort_flags (pKeyInfo p) 0 = 0 /\ RecordFmt.r1 p = -1 /\ RecordFmt.r2 p = 1) \/
  (sort_flags (pKeyInfo p) 0 = 1 /\ RecordFmt.r1 p = 1 /\ RecordFmt.r2 p = -1).

Lemma first_differs v vs' m ms : vs = v :: vs' -> aMem p = m :: ms -> dirs ->
  let o := val_compare (k_enc (pKeyInfo p)) (coll (pKeyInfo p) 0) false v (mem_val m) in
  let res := reports p (key_compare (pKeyInfo p) 0 vs (map mem_val (aMem p))) in
  (o = Lt -> res (RecordFmt.r1 p, p)) /\ (o = Gt -> res (RecordFmt.r2 p, p)).
Proof using All.
  intros -> -> Hd. cbn [map key_compare]. unfold field_compare.
  destruct Hd as [(-> & -> & ->)|(-> & -> & ->)];
    [change (negb (Z.land 0 KEYINFO_ORDER_BIGNULL =? 0)) with false; change (Z.land 0 KEYINFO_ORDER_DESC =? 0) with true
    |change (negb (Z.land 1 KEYINFO_ORDER_BIGNULL =? 0)) with false; change (Z.land 1 KEYINFO_ORDER_DESC =? 0) with false];
    cbv iota zeta; split; intros ->; done.
Qed.

Lemma first_equal v vs' m ms : vs = v :: vs' -> aMem p = m :: ms -> zlen vs <= 13 ->
  val_compare (k_enc (pKeyInfo p)) (coll (pKeyInfo p) 0) false v (mem_val m) = Eq ->
  reports p (key_compare (pKeyInfo p) 0 vs (map mem_val (aMem p)))
    (if 1 <? nField p then
       sqlite3VdbeRecordCompareWithSkip (zlen (record_of fmt vs)) (record_of fmt vs ++ pad) p true
     else (default_rc p, set_eqSeen p)).
Proof using All.
  intros Evs Em Hn Ho. apply (field_eq _ _ (sort_flags (pKeyInfo p) 0)) in Ho.
  assert (key_compare (pKeyInfo p) 0 vs (map mem_val (aMem p)) = key_compare (pKeyInfo p) 1 vs' (map mem_val ms)) as ->
    by (rewrite Evs, Em; cbn [map key_compare]; by rewrite Ho).
  destruct (Z.ltb_spec 1 (nField p)) as [Hlt|Hge]; [by apply (skip_spec v vs' m ms)|].
  destruct Hkp as [_ _ _ [Hf1 Hf] _ _ _]. rewrite Em, zlen_cons in Hf. pose proof (zlen_nonneg ms).
  assert (ms = []) as -> by (apply length_zero_iff_nil; unfold zlen in *; lia). by destruct vs'.
Qed.

(** The first type of the key, and its value behind the header. *)
Lemma key_first v vs' : vs = v :: vs' -> zlen vs <= 13 ->
  let aKey := record_of fmt vs ++ pad in
  exists r1 r2 h, field_at fmt (zlen (record_of fmt vs)) aKey 1 h v r1 r2 /\ zat aKey 0 = h /\
    h = 1 + zlen (put_varint (val_type fmt v)) + zlen (hdr_bytes fmt vs').
Proof using All.
  intros Evs Hn aKey. destruct (short_header Hn) as [Hk1 _]. destruct Hkp as [Hvs _ _ _ Hen Hlim _].
  destruct (record_prefix fmt vs pad Hvs ltac:(lia) Hpad) as (_ & Hd1 & Hd2 & Hl & Hk). fold aKey in Hd1, Hd2.
  rewrite Hk1 in *. change (zlen [1 + zlen (hdr_bytes fmt vs)]) with 1 in *.
  assert (zat aKey 0 = 1 + zlen (hdr_bytes fmt vs)) as H0 by (unfold aKey, record_of; by rewrite Hk1).
  rewrite Evs in Hvs, Hd1, Hd2, Hl, H0. apply Forall_cons in Hvs as [Hv Hvs].
  change (hdr_bytes fmt (v :: vs')) with (put_varint (val_type fmt v) ++ hdr_bytes fmt vs') in *.
  change (data_bytes fmt (v :: vs')) with (val_data fmt v ++ data_bytes fmt vs') in *.
  rewrite !zlen_app in *. rewrite <- (app_assoc (put_varint _)), <- (app_assoc (val_data fmt v)) in Hd1. rewrite <- app_assoc in Hd2.
  pose proof (zlen_nonneg (hdr_bytes fmt vs')). pose proof (zlen_nonneg (data_bytes fmt vs')). pose proof (zlen_nonneg (put_varint (val_type fmt v))).
  eexists _, (data_bytes fmt vs' ++ pad), (zat aKey 0). split; [|split; [done|lia]].
  constructor; [done| | |lia|exact Hd1|rewrite H0; exact Hd2|].
  - apply Forall_app; split; [by apply hdr_ok|]. apply Forall_app; split; [by apply val_data_ok|].
    apply Forall_app; split; [by apply data_ok|done].
  - apply Forall_app; split; [by apply data_ok|done].
  - rewrite Evs, Hl. lia.
Qed.

(** *** A first field that is an integer *)

Lemma int_start nKey key q :
  let t := zat key 1 in
  let lhs := vdbeRecordDecodeInt t (zdrop (Z.land (zat key 0) 0x3F) key) in
  vdbeRecordCompareInt nKey key q =
  if (1 <=? t) && (t <=? 9) && negb (t =? 7) then
    if lhs <? u_i_cache q then (RecordFmt.r1 q, q)
    else if u_i_cache q <? lhs then (RecordFmt.r2 q, q)
    else if 1 <? nField q then sqlite3VdbeRecordCompareWithSkip nKey key q true
    else (default_rc q, set_eqSeen q)
  else sqlite3VdbeRecordCompare nKey key q.
Proof using.
  cbv zeta. unfold vdbeRecordCompareInt, vdbeRecordDecodeInt. generalize (zat key 1) as t. intros t.
  generalize (sqlite3VdbeRecordCompareWithSkip nKey key q true), (sqlite3VdbeRecordCompare nKey key q).
  generalize (zdrop (Z.land (zat key 0) 63) key). intros aKey skip whole.
  let step k := destruct (Z.eqb_spec t k) as [->|];
    [cbn [Z.eqb Z.leb Z.compare Pos.compare Pos.compare_cont Pos.eqb orb andb negb]; reflexivity|] in
  step 1; step 2; step 3; step 4; step 5; step 6; step 8; step 9.
  destruct ((1 <=? t) && (t <=? 9) && negb (t =? 7)) eqn:E; [breflect; lia|done].
Qed.

Lemma int_compare v w i j : v = SInt i -> w = SInt j -> forall enc c,
  val_compare enc c false v w = (i ?= j).
Proof using.
  intros -> -> enc c. unfold val_compare. cbn [rank]. rewrite Z.compare_refl.
  unfold num_key. symmetry. apply Zmult_compare_compat_r. reflexivity.
Qed.

Lemma vs_cons : exists v vs', vs = v :: vs'.
Proof using All.
  destruct Hkp as [_ _ _ [Hf1 _] Hen _ _]. clear Hkp. destruct vs as [|v vs']; [change (zlen (@nil sval)) with 0 in Hen; lia|].
  by exists v, vs'.
Qed.

Lemma int_spec m ms : aMem p = m :: ms -> mem_val m = SInt (u_i m) -> u_i_cache p = u_i m -> dirs -> zlen vs <= 13 ->
  reports p (key_compare (pKeyInfo p) 0 vs (map mem_val (aMem p)))
    (vdbeRecordCompareInt (zlen (record_of fmt vs)) (record_of fmt vs ++ pad) p).
Proof using All.
  intros Em Hmv Hc Hd Hn. rewrite int_start. destruct vs_cons as (v & vs' & Evs).
  destruct (key_first v vs' Evs Hn) as (q1 & q2 & h & Hat & H0 & Hh).
  pose proof (fa_ok _ _ _ _ _ _ _ _ Hat) as Hv. destruct (type_byte _ _ _ _ _ _ _ _ Hat) as [Hb1 _].
  destruct (first_differs v vs' m ms Evs Em Hd) as [Hlt Hgt]. pose proof (first_equal v vs' m ms Evs Em Hn) as Heq.
  pose proof (bytes_type _ _ _ _ _ _ _ _ Hat) as Hb2. pose proof (small_type fmt v Hv) as Hs.
  destruct v as [|i|r|b|b]; cbn [val_type val_ok] in *.
  2:{ pose proof (int_type_range fmt i Hv) as Ht. rewrite Hb1 by lia.
    rewrite (proj2 (Z.leb_le _ _)), (proj2 (Z.leb_le _ 9)), (proj2 (Z.eqb_neq _ 7)) by lia. cbn [negb andb].
    assert (0 <= h < 64) as Hh64.
    { destruct Hkp as [Hvs _ _ _ _ _ _]. rewrite Evs in Hvs, Hn. rewrite zlen_cons in Hn. apply Forall_cons in Hvs as [_ Hvs].
      pose proof (hdr_len5 fmt vs' Hvs). pose proof (zlen_nonneg (hdr_bytes fmt vs')).
      rewrite zlen_put_small in Hh by lia. lia. }
    rewrite H0. change 63 with (Z.ones 6). rewrite Z.land_ones, (Z.mod_small h) by (change (2 ^ 6) with 64; lia).
    rewrite (fa_data _ _ _ _ _ _ _ _ Hat), (proj1 (read_int fmt i q2 Hv (fa_r2 _ _ _ _ _ _ _ _ Hat))), Hc.
    pose proof (int_compare _ _ i (u_i m) eq_refl Hmv (k_enc (pKeyInfo p)) (coll (pKeyInfo p) 0)) as Ho.
    destruct (Z.ltb_spec i (u_i m)); [apply Hlt; by rewrite Ho, (proj2 (Z.compare_lt_iff i (u_i m)))|].
    destruct (Z.ltb_spec (u_i m) i); [apply Hgt; by rewrite Ho, (proj2 (Z.compare_gt_iff i (u_i m)))|].
    apply Heq. rewrite Ho. apply Z.compare_eq_iff. lia. }
  all: destruct ((1 <=? zat (record_of fmt vs ++ pad) 1) && (zat (record_of fmt vs ++ pad) 1 <=? 9)
    && negb (zat (record_of fmt vs ++ pad) 1 =? 7)) eqn:Hg; [exfalso; breflect|by apply generic_spec]; lia.
Qed.

(** *** A first field that is a text compared by its bytes *)

Lemma key_ok : bytes_ok (record_of fmt vs ++ pad).
Proof using All.
  destruct Hkp as [Hvs _ _ _ Hen Hlim _]. pose proof (hdr_len5 fmt vs Hvs). pose proof (zlen_nonneg (hdr_bytes fmt vs)).
  destruct (header_size_spec (zlen (hdr_bytes fmt vs))) as [_ Hs]; [lia|].
  apply Forall_app; split; [|done]. apply Forall_app; split; [apply (put_varint_spec _ []); [pow2; lia|constructor]|].
  apply Forall_app; split; [by apply hdr_ok|by apply data_ok].
Qed.

Lemma text_start v h q1 q2 q : let n := zlen (record_of fmt vs) in let key := record_of fmt vs ++ pad in
  field_at fmt n key 1 h v q1 q2 -> 0 <= h -> bytes_ok key ->
  vdbeRecordCompareString n key q =
  if val_type fmt v <? 12 then (RecordFmt.r1 q, q) else compare_string_text n key q (val_type fmt v).
Proof using All.
  intros n key Hat Hh Hb. pose proof (fa_ok _ _ _ _ _ _ _ _ Hat) as Hv.
  destruct (type_byte _ _ _ _ _ _ _ _ Hat) as [Hb1 Hb2]. pose proof (val_type_range fmt v Hv) as Ht.
  pose proof (zat_byte key 1 Hb) as Hz. change (2 ^ 8) with 256 in Hz. unfold vdbeRecordCompareString.
  rewrite (i8_split (zat key 1)) by done.
  destruct (Z.lt_ge_cases (val_type fmt v) 128) as [Hlt|Hge].
  - rewrite Hb1 by done. rewrite (proj2 (Z.ltb_lt _ 128)), Z.sub_0_r by done.
    destruct (Z.ltb_spec (val_type fmt v) 12); [|done]. by rewrite (proj2 (Z.ltb_ge _ 0)) by lia.
  - specialize (Hb2 Hge). rewrite (proj2 (Z.ltb_ge _ 128)) by done. cbv iota zeta.
    rewrite (proj2 (Z.ltb_lt (zat key 1 - 256) 12)), (proj2 (Z.ltb_lt (zat key 1 - 256) 0)) by lia.
    pose proof (read_type _ _ _ _ _ _ _ _ Hat) as Hr. unfold getVarint32 in Hr. rewrite zat_zdrop in Hr by lia.
    change (1 + 0) with 1 in Hr. rewrite (proj2 (Z.ltb_ge _ 128)) in Hr by done. rewrite Hr.
    assert (val_type fmt v < 2 ^ 31) as H31.
    { pose proof (fa_end _ _ _ _ _ _ _ _ Hat) as He. pose proof (kp_size _ _ _ Hkp) as Hs. unfold SQLITE_MAX_LENGTH in Hs.
      fold n in Hs. pow2. destruct v as [|i|r|b|b]; cbn [val_type val_data val_ok] in *; try lia.
      pose proof (int_type_range fmt i Hv). lia. }
    rewrite wraps_small by (change (2 ^ (32 - 1)) with (2 ^ 31); lia).
    rewrite (proj2 (Z.leb_le 12 _)), (proj2 (Z.ltb_ge _ 12)) by lia. done.
Qed.

Lemma text_spec m ms : aMem p = m :: ms -> mem_val m = SText (m_z m) -> u_z_cache p = m_z m -> n_cache p = m_n m ->
  coll (pKeyInfo p) 0 = None -> dirs -> zlen vs <= 13 ->
  reports p (key_compare (pKeyInfo p) 0 vs (map mem_val (aMem p)))
    (vdbeRecordCompareString (zlen (record_of fmt vs)) (record_of fmt vs ++ pad) p).
Proof using All.
  intros Em Hmv Hcz Hcn Hcoll Hd Hn. destruct vs_cons as (v & vs' & Evs).
  destruct (key_first v vs' Evs Hn) as (q1 & q2 & h & Hat & H0 & Hh).
  destruct (first_differs v vs' m ms Evs Em Hd) as [Hlt Hgt]. pose proof (first_equal v vs' m ms Evs Em Hn) as Heq.
  rewrite Hmv, Hcoll in *.
  pose proof (zlen_nonneg (hdr_bytes fmt vs')). pose proof (zlen_nonneg (put_varint (val_type fmt v))).
  rewrite (text_start v h q1 q2) by (done || lia || apply key_ok).
  pose proof Hat as [Hv _ Hr2 _ _ Hdat Hend]. pose proof (small_type fmt v Hv) as Hs.
  assert (mem_ok m) as Hm.
  { pose proof (kp_rhs _ _ _ Hkp) as Hr. rewrite Em in Hr. apply Forall_cons in Hr as [Hr _]. apply Hr. }
  destruct (mo_bytes _ Hm) as [_ Hmn]. destruct (mo_size _ Hm) as [Hz1 Hz2].
  destruct v as [|i|r|b|b]; try (rewrite (proj2 (Z.ltb_lt _ _)) by tauto; by apply Hlt).
  all: rewrite (proj2 (Z.ltb_ge _ _)) by lia; cbn [val_type val_data val_ok] in *; unfold compare_string_text.
  - rewrite (proj1 (odd_type b)), (proj1 (half_types (zlen b))), H0, Hcz, Hcn, Hdat, Hmn. change (1 =? 0) with false. cbv iota zeta.
    rewrite (proj2 (Z.ltb_ge _ _)) by lia.
    pose proof (bytes_rc b (m_z m) q2 (Z.min (zlen (m_z m)) (zlen b)) ltac:(tauto) ltac:(lia) (Z.min_comm _ _)) as Hrc. cbv zeta in Hrc.
    set (rc := memcmp _ _ _) in *. change (val_compare _ None false (SText b) (SText (m_z m))) with (bytes_compare b (m_z m)) in *.
    rewrite <- Hrc in Hlt, Hgt, Heq.
    destruct (Z.ltb_spec 0 rc).
    { rewrite (proj2 (Z.eqb_neq rc 0)) in Hgt by lia. apply Hgt, Z.compare_gt_iff. lia. }
    destruct (Z.ltb_spec rc 0).
    { rewrite (proj2 (Z.eqb_neq rc 0)) in Hlt by lia. apply Hlt, Z.compare_lt_iff. lia. }
    rewrite (proj2 (Z.eqb_eq rc 0)) in * by lia.
    set (diff := i32 _) in *. destruct (Z.eqb_spec diff 0); [apply Heq, Z.compare_eq_iff; lia|].
    destruct (Z.ltb_spec 0 diff); [apply Hgt, Z.compare_gt_iff; lia|apply Hlt, Z.compare_lt_iff; lia].
  - rewrite (proj2 (odd_type b)). by apply Hgt.
Qed.
End whole.

Lemma has_lor f a b : has f (Z.lor a b) = has f a || has f b.
Proof.
  unfold has. rewrite Z.land_lor_distr_r. destruct (Z.eqb_spec (Z.land f a) 0) as [->|Ha].
  - by rewrite Z.lor_0_l.
  - cbn [negb orb]. apply negb_true_iff, Z.eqb_neq. intros [? _]%Z.lor_eq_0_iff. done.
Qed.

(** A record with the caches filled in is the same key. *)
Lemma key_pair_set fmt vs p ui uz nn a b : key_pair fmt vs p -> key_pair fmt vs (set_compare p ui uz nn a b).
Proof. intros [? ? ? ? ? ? ?]. by constructor. Qed.

Lemma find_spec fmt vs p pad : key_pair fmt vs p -> bytes_ok pad ->
  let f := sqlite3VdbeFindCompare p in
  reports f.2 (key_compare (pKeyInfo p) 0 vs (map mem_val (aMem p))) (f.1 (zlen (record_of fmt vs)) (record_of fmt vs ++ pad) f.2) /\
  default_rc f.2 = default_rc p /\ errCode f.2 = errCode p /\ eqSeen f.2 = eqSeen p.
Proof.
  intros Hkp Hpad. cbv zeta.
  assert (exists m ms, aMem p = m :: ms) as (m & ms & Em).
  { destruct (kp_fields _ _ _ Hkp) as [H1 H2]. destruct (aMem p) as [|m ms]; [change (zlen (@nil Mem)) with 0 in H2; lia|]. by exists m, ms. }
  assert (rhs_ok m) as Hm by (pose proof (kp_rhs _ _ _ Hkp) as Hr; rewrite Em in Hr; by apply Forall_cons in Hr as [Hr _]).
  pose proof (mem_classify m (ro_mem _ Hm)) as Hc.
  assert (nth 0 (aMem p) new_mem = m) as Enth by (by rewrite Em).
  assert (forall ui uz nn a b, let q := set_compare p ui uz nn a b in
    reports q (key_compare (pKeyInfo p) 0 vs (map mem_val (aMem p))) (sqlite3VdbeRecordCompare (zlen (record_of fmt vs)) (record_of fmt vs ++ pad) q)) as Hgen
    by (intros ui uz nn a b q; apply (generic_spec fmt vs q pad); [by apply key_pair_set|done]).
  unfold sqlite3VdbeFindCompare. rewrite Enth.
  destruct (Z.leb_spec (nAllField (pKeyInfo p)) 13) as [H13|]; [|split; [by apply generic_spec|done]].
  assert (zlen vs <= 13) as Hn13 by (pose proof (kp_enough _ _ _ Hkp); lia).
  pose proof (kp_flags _ _ _ Hkp 0%nat) as Hfl. 
  destruct (negb (sort_flags (pKeyInfo p) 0 =? 0) && negb (Z.land (sort_flags (pKeyInfo p) 0) KEYINFO_ORDER_BIGNULL =? 0)) eqn:Ebig;
    [split; [by apply generic_spec|done]|].
  assert (exists a b, (if negb (sort_flags (pKeyInfo p) 0 =? 0) then (1, -1) else (-1, 1)) = (a, b) /\
    forall ui uz nn, dirs (set_compare p ui uz nn a b)) as (a & b & -> & Hdirs).
  { unfold dirs. cbn [In] in Hfl. destruct Hfl as [E|[E|[E|[E|[]]]]]; rewrite <- E in *; try discriminate Ebig; eexists _, _;
      (split; [reflexivity|]); intros; cbn [set_compare pKeyInfo RecordFmt.r1 RecordFmt.r2]; rewrite <- E; tauto. }
  destruct (has (m_flags m) MEM_Int) eqn:Eint.
  { split; [|done]. cbn [fst snd]. apply (int_spec fmt vs (set_compare p _ _ _ a b) pad) with (m := m) (ms := ms); try done.
    - by apply key_pair_set.
    - revert Hc. assert (has (m_flags m) (Z.lor MEM_Int MEM_IntReal) = true) as H by (by rewrite has_lor, Eint).
      intros Hc. destruct Hc; congruence || done. }
  match goal with |- context [if negb (has ?f ?x) && ?y then _ else _] =>
    destruct (negb (has f x) && y) eqn:Estr; [|split; [apply Hgen|done]] end.
  apply andb_true_iff in Estr as [Estr Ecoll]. apply negb_true_iff in Estr. rewrite !has_lor in Estr.
  apply orb_false_iff in Estr as [[Er Ei]%orb_false_iff [En Eb]%orb_false_iff].
  split; [|done]. cbn [fst snd]. apply (text_spec fmt vs (set_compare p _ _ _ a b) pad) with (m := m) (ms := ms); try done.
  - by apply key_pair_set.
  - destruct Hc as [|? Hi| | |]; try congruence; try done. rewrite has_lor, Eint, Ei in Hi. done.
  - revert Ecoll. cbn [set_compare pKeyInfo]. by destruct (coll (pKeyInfo p) 0).
Qed.

(** ** Lemmas: two registers *)

Lemma has_lor_l f g b : has (Z.lor f g) b = has f b || has g b.
Proof. unfold has. rewrite Z.land_comm, !(Z.land_comm _ b). change (has b (Z.lor f g) = has b f || has b g). apply has_lor. Qed.

Lemma has_bit f k : 0 <= k -> has f (2 ^ k) = Z.testbit f k.
Proof.
  intros Hk. unfold has. assert (Z.land f (2 ^ k) = if Z.testbit f k then 2 ^ k else 0) as ->.
  { apply Z.bits_inj_iff'. intros n Hn. rewrite Z.land_spec, Z.pow2_bits_eqb by done.
    destruct (Z.eqb_spec k n) as [->|Hne].
    - rewrite andb_true_r. destruct (Z.testbit f n) eqn:E; [by rewrite Z.pow2_bits_true|by rewrite Z.bits_0].
    - rewrite andb_false_r. destruct (Z.testbit f k); [by rewrite Z.pow2_bits_false by lia|by rewrite Z.bits_0]. }
  pose proof (Z.pow_pos_nonneg 2 k). destruct (Z.testbit f k); [|done]. apply negb_true_iff, Z.eqb_neq. lia.
Qed.

Lemma has_land_bit f g k : 0 <= k -> has (Z.land f g) (2 ^ k) = has f (2 ^ k) && has g (2 ^ k).
Proof. intros Hk. by rewrite !has_bit, Z.land_spec. Qed.

Lemma land_null f : Z.land f MEM_Null = if has f MEM_Null then 1 else 0.
Proof.
  unfold has. change MEM_Null with (Z.ones 1). rewrite Z.land_ones by lia. change (2 ^ 1) with 2.
  pose proof (Z.mod_pos_bound f 2 ltac:(lia)). destruct (Z.eqb_spec (f mod 2) 0) as [->|]; cbn [negb]; lia.
Qed.

Lemma bytes_compare_opp a : forall b, bytes_compare b a = CompOpp (bytes_compare a b).
Proof.
  induction a as [|x a IH]; intros [|y b]; try done. cbn [bytes_compare].
  rewrite (Z.compare_antisym x y). destruct (x ?= y); cbn [CompOpp]; [apply IH|done..].
Qed.

Lemma zeros_all n : isAllZero (repeat 0 n) (zlen (repeat 0 n)) = true.
Proof.
  unfold isAllZero, zlen. rewrite Nat2Z.id, take_ge by lia. induction n; [done|]. cbn [repeat forallb]. by rewrite IHn.
Qed.

Lemma blob_compare m1 m2 z1 z2 : rhs_ok m1 -> rhs_ok m2 ->
  z1 = (if has (m_flags m1) MEM_Zero then repeat 0 (Z.to_nat (u_nZero m1)) else []) ->
  z2 = (if has (m_flags m2) MEM_Zero then repeat 0 (Z.to_nat (u_nZero m2)) else []) ->
  (sqlite3BlobCompare m1 m2 ?= 0) = bytes_compare (m_z m1 ++ z1) (m_z m2 ++ z2).
Proof.
  intros [Hm1 Hr1] [Hm2 Hr2] -> ->. destruct (mo_bytes _ Hm1) as [Hb1 Hn1], (mo_bytes _ Hm2) as [Hb2 Hn2].
  destruct (mo_size _ Hm1) as [Hz1 Hs1], (mo_size _ Hm2) as [Hz2 Hs2].
  unfold sqlite3BlobCompare. rewrite has_lor_l. change MEM_Zero with (2 ^ 10). rewrite has_land_bit by lia. change (2 ^ 10) with MEM_Zero.
  assert (forall m, zlen (m_z m) = m_n m -> m_n m = 0 -> m_z m = []) as Hnil
    by (intros m Hz Hn; apply length_zero_iff_nil; unfold zlen in Hz; lia).
  destruct (has (m_flags m1) MEM_Zero) eqn:E1, (has (m_flags m2) MEM_Zero) eqn:E2; cbn [orb andb]; rewrite ?app_nil_r.
  - rewrite !Hnil by auto. cbn [app].
    rewrite <- (all_zero_compare (repeat 0 (Z.to_nat (u_nZero m1))) (u_nZero m2) ltac:(lia) (zeros_ok _) ltac:(rewrite zlen_zeros; lia) []).
    rewrite app_nil_r, zeros_all, zlen_zeros by done. done.
  - rewrite (Hnil m1) by auto. cbn [app]. rewrite bytes_compare_opp.
    rewrite <- (all_zero_compare (m_z m2) (u_nZero m1) ltac:(lia) Hb2 ltac:(lia) []). rewrite app_nil_r, <- Hn2, <- opp_compare.
    pose proof (zlen_nonneg (m_z m1)). pose proof (zlen_nonneg (m_z m2)).
    case_if; [done|]. f_equal. rewrite !wraps_small by (try change (2 ^ (32 - 1)) with (2 * 2 ^ 30); lia). lia.
  - rewrite (Hnil m2) by auto. cbn [app].
    rewrite <- (all_zero_compare (m_z m1) (u_nZero m2) ltac:(lia) Hb1 ltac:(lia) []). by rewrite app_nil_r, <- Hn1.
  - rewrite <- (bytes_rc (m_z m1) (m_z m2) [] (if m_n m2 <? m_n m1 then m_n m2 else m_n m1)), app_nil_r, <- Hn1, <- Hn2;
      [set (rc := memcmp _ _ _); by destruct (rc =? 0)|lia|lia|case_if; lia].
Qed.

(** The bytes of a text or a blob. *)
Lemma val_bytes m b : mem_ok m -> mem_val m = SText b \/ mem_val m = SBlob b ->
  b = m_z m ++ (if has (m_flags m) MEM_Zero then repeat 0 (Z.to_nat (u_nZero m)) else []).
Proof.
  intros Hm Hb. destruct (mem_classify m Hm) as [| | |? ? ? ? ? Hz|zs ? ? ? ? ? ->];
    destruct Hb as [Hb|Hb]; try discriminate Hb; injection Hb as <-; [by rewrite Hz, app_nil_r|done].
Qed.

(** Comparing two registers follows the order of the values. *)
Lemma mem_compare_spec enc m1 m2 c : rhs_ok m1 -> rhs_ok m2 ->
  (sqlite3MemCompare enc m1 m2 c ?= 0) = val_compare enc c false (mem_val m1) (mem_val m2).
Proof.
  intros H1 H2. pose proof (mem_classify m1 (ro_mem _ H1)) as C1. pose proof (mem_classify m2 (ro_mem _ H2)) as C2.
  unfold sqlite3MemCompare. rewrite !land_null, !has_lor, !has_lor_l.
  change MEM_Int with (2 ^ 2). change MEM_IntReal with (2 ^ 5). change MEM_Real with (2 ^ 3). rewrite !has_land_bit by lia.
  change (2 ^ 2) with MEM_Int. change (2 ^ 5) with MEM_IntReal. change (2 ^ 3) with MEM_Real.
  destruct (mo_real _ (ro_mem _ H1)) as [Hr1 _], (mo_real _ (ro_mem _ H2)) as [Hr2 _].
  remember (mem_val m1) as v1 eqn:Ev1. remember (mem_val m2) as v2 eqn:Ev2.
  destruct C1; repeat match goal with H : has (m_flags m1) (Z.lor _ _) = _ |- _ => rewrite has_lor in H end;
  destruct C2; repeat match goal with H : has (m_flags m2) (Z.lor _ _) = _ |- _ => rewrite has_lor in H end.
  all: repeat match goal with
    | H : _ || _ = false |- _ => apply orb_false_iff in H as [? ?]
    | H : has _ MEM_Int = negb (has ?f MEM_IntReal) |- _ => rewrite H in *; destruct (has f MEM_IntReal) eqn:?; clear H
    | H : has _ _ = _ |- _ => rewrite H; clear H
    end; cbn [orb andb negb].
  all: try done.
  all: unfold val_compare; cbn [rank]; rewrite Z.compare_refl.
  1-4: apply compare_ints_spec.
  1-2: by apply int_float_sign; try apply (ro_mem _ H1).
  1-2: by apply (opp_sign (sqlite3IntFloatCompare (u_i m2) (u_r m1)) _ (u_i m2 * 2 ^ 1074)); [apply int_float_sign; try apply (ro_mem _ H2)|].
  - by apply double_sign.
  - unfold text_compare. destruct c as [c|].
    + unfold vdbeCompareMemString, vdbeCompareMemStringWithEncodingChange.
      rewrite (mem_bytes_ok m1 (ro_mem _ H1) : take _ _ = _), (mem_bytes_ok m2 (ro_mem _ H2) : take _ _ = _). by destruct (_ =? _).
    + rewrite (val_bytes m1 (m_z m1) (ro_mem _ H1)), (val_bytes m2 (m_z m2) (ro_mem _ H2)) by auto. by apply blob_compare.
  - by apply blob_compare.
Qed.

(** ** Lemmas: the order is an order *)

Lemma bytes_le_trans a : forall b d, bytes_compare a b <> Gt -> bytes_compare b d <> Gt -> bytes_compare a d <> Gt.
Proof.
  induction a as [|x a IH]; intros [|y b] [|z d] H1 H2; try done. cbn [bytes_compare] in *.
  destruct (Z.compare_spec x y), (Z.compare_spec y z); try done; subst.
  - rewrite Z.compare_refl. by apply (IH b).
  - by rewrite (proj2 (Z.compare_lt_iff _ _)).
  - by rewrite (proj2 (Z.compare_lt_iff _ _)).
  - rewrite (proj2 (Z.compare_lt_iff x z)) by lia. done.
Qed.

(** A collating function that orders texts. *)
Record coll_ok (c : CollSeq) : Prop := {
  co_opp : forall a b, (xCmp c b a ?= 0) = CompOpp (xCmp c a b ?= 0);
  co_trans : forall a b d, xCmp c a b <= 0 -> xCmp c b d <= 0 -> xCmp c a d <= 0
}.

Definition opt_coll_ok (c : option CollSeq) : Prop := match c with Some c => coll_ok c | None => True end.

Lemma val_compare_opp enc c v w : opt_coll_ok c -> val_compare enc c false w v = CompOpp (val_compare enc c false v w).
Proof.
  intros Hc. unfold val_compare. rewrite (Z.compare_antisym (rank false v)).
  destruct (rank false v ?= rank false w) eqn:E; [|done..]. cbn [CompOpp].
  destruct v, w; try discriminate E; try apply Z.compare_antisym; [|apply bytes_compare_opp].
  unfold text_compare. destruct c as [c|]; [apply Hc|apply bytes_compare_opp].
Qed.

Lemma val_le_trans enc c u v w : opt_coll_ok c ->
  val_compare enc c false u v <> Gt -> val_compare enc c false v w <> Gt -> val_compare enc c false u w <> Gt.
Proof.
  intros Hc. unfold val_compare.
  destruct (Z.compare_spec (rank false u) (rank false v)) as [E1|L1|L1],
    (Z.compare_spec (rank false v) (rank false w)) as [E2|L2|L2]; try done; intros H1 H2.
  - rewrite E1, E2, Z.compare_refl. destruct u, v, w; try discriminate E1; try discriminate E2;
      try (revert H1 H2; rewrite !Z.compare_le_iff; lia).
    + unfold text_compare in *. destruct c as [c|]; [|by apply (bytes_le_trans _ b0)].
      revert H1 H2. rewrite !Z.compare_le_iff. apply Hc.
    + by apply (bytes_le_trans _ b0).
  - by rewrite E1, (proj2 (Z.compare_lt_iff _ _)).
  - by rewrite <- E2, (proj2 (Z.compare_lt_iff _ _)).
  - rewrite (proj2 (Z.compare_lt_iff (rank false u) (rank false w))) by lia. done.
Qed.

(** ** Properties *)

(** C28: an index search compares a stored row with a search key in the order of their columns.
    For every row that [OP_MakeRecord] stored and every unpacked key with no more columns than
    the row, the comparison function that [sqlite3VdbeFindCompare] picks (the general one, the
    one for a first column that is an integer, or the one for a text in binary order) and the
    record it prepares give the same outcome: if some column differs, the first that does decides,
    the sign following NULL < numbers by exact value < texts by the column's collating sequence <
    blobs, reversed for a descending column and with NULL largest where the column says so, and
    nothing else of the key changes; if none does, the key's default answer, and it is marked.
    No such key is reported as corrupt. *)
Theorem index_search_order fmt szMalloc limit regs r nz p pad :
  Forall mem_ok regs -> OP_MakeRecord fmt szMalloc limit regs = Made r nz ->
  let rec := r ++ repeat 0 (Z.to_nat nz) in
  zlen rec <= SQLITE_MAX_LENGTH -> bytes_ok pad ->
  Forall rhs_ok (aMem p) -> 1 <= nField p -> nField p = zlen (aMem p) ->
  nField p <= zlen regs <= nAllField (pKeyInfo p) -> nAllField (pKeyInfo p) <= 65536 ->
  (forall j, In (sort_flags (pKeyInfo p) j) [0; 1; 2; 3]) ->
  let f := sqlite3VdbeFindCompare p in
  reports f.2 (key_compare (pKeyInfo p) 0 (map stored_val regs) (map mem_val (aMem p))) (f.1 (zlen rec) (rec ++ pad) f.2) /\
  default_rc f.2 = default_rc p /\ errCode f.2 = errCode p /\ eqSeen f.2 = eqSeen p.
Proof.
  intros Hr Hm rec Hsz Hpad Hrhs H1 Hf Hn Hlim Hfl.
  pose proof (make_record_spec fmt szMalloc limit regs Hr ltac:(lia)) as Hspec. rewrite Hm in Hspec. destruct Hspec as (_ & Hrec & _).
  fold rec in Hrec. rewrite Hrec in *. apply find_spec; [|done].
  assert (zlen (map stored_val regs) = zlen regs) as El by (unfold zlen; by rewrite length_map).
  constructor; rewrite ?El; try done. apply Forall_map. eapply Forall_impl; [exact Hr|apply stored_val_ok].
Qed.

Ltac solve_rhs := apply Build_rhs_ok; [solve_mem|vm_compute; congruence].
Ltac solve_rhss := repeat (apply Forall_cons_2; [solve_rhs|]); apply Forall_nil_2.

Lemma index_search_order_witness :
  let regs := [mem_int 5; mem_text [97; 98]; new_mem] in
  let k := key_of regs in
  let p := unpacked [mem_int 5; mem_text [97; 99]] in
  let f := sqlite3VdbeFindCompare p in
  (Forall mem_ok regs /\ OP_MakeRecord 4 0 1000 regs = Made k 0 /\ zlen (k ++ []) <= SQLITE_MAX_LENGTH /\
   Forall rhs_ok (aMem p) /\ (forall j, In (sort_flags (pKeyInfo p) j) [0; 1; 2; 3])) /\
  0 < fst (fst f (zlen (k ++ [])) ((k ++ []) ++ []) (snd f)).
Proof.
  intros regs k p f.
  assert (Forall mem_ok regs) as H1 by (subst regs; solve_mems).
  assert (OP_MakeRecord 4 0 1000 regs = Made k 0) as H2 by (vm_compute; reflexivity).
  assert (zlen (k ++ []) <= SQLITE_MAX_LENGTH) as H3 by (vm_compute; discriminate).
  assert (Forall rhs_ok (aMem p)) as H4 by (subst p; cbn [unpacked aMem]; solve_rhss).
  assert (forall j, In (sort_flags (pKeyInfo p) j) [0; 1; 2; 3]) as H5.
  { intros j. destruct j as [|[|[|[|j]]]]; vm_compute; tauto. }
  split; [done|].
  pose proof (index_search_order 4 0 1000 regs k 0 p [] H1 H2 H3 (Forall_nil_2 _) H4 ltac:(vm_compute; discriminate)
    eq_refl ltac:(vm_compute; split; discriminate) ltac:(vm_compute; discriminate) H5) as [H _].
  assert (key_compare (pKeyInfo p) 0 (map stored_val regs) (map mem_val (aMem p)) = Gt) as E by (vm_compute; reflexivity).
  rewrite E in H. change (repeat 0 (Z.to_nat 0)) with (@nil Z) in H. exact (proj1 H).
Defined.

(** C31: comparing two registers is a total order.  Whatever their types, the sign of
    [sqlite3MemCompare] is that of the order of SQL values; swapping the registers reverses it, and
    "not greater" is transitive, also through chains that mix integers with reals near and
    beyond [2^53], provided the collating sequence itself orders texts. *)
Theorem values_are_ordered enc c m1 m2 m3 : rhs_ok m1 -> rhs_ok m2 -> rhs_ok m3 -> opt_coll_ok c ->
  (sqlite3MemCompare enc m1 m2 c ?= 0) = val_compare enc c false (mem_val m1) (mem_val m2) /\
  (sqlite3MemCompare enc m2 m1 c ?= 0) = CompOpp (sqlite3MemCompare enc m1 m2 c ?= 0) /\
  (sqlite3MemCompare enc m1 m2 c <= 0 -> sqlite3MemCompare enc m2 m3 c <= 0 -> sqlite3MemCompare enc m1 m3 c <= 0).
Proof.
  intros H1 H2 H3 Hc. rewrite <- !Z.compare_le_iff, !mem_compare_spec by done.
  split; [done|]. split; [by apply val_compare_opp|by apply val_le_trans].
Qed.

Lemma values_are_ordered_witness :
  let m1 := mem_real 0x4340000000000000 in
  let m2 := mem_int 9007199254740993 in
  let m3 := mem_real 0x4340000000000001 in
  (rhs_ok m1 /\ rhs_ok m2 /\ rhs_ok m3) /\
  sqlite3MemCompare 1 m1 m2 None = -1 /\ sqlite3MemCompare 1 m2 m3 None = -1 /\ sqlite3MemCompare 1 m1 m3 None <= 0.
Proof.
  intros m1 m2 m3.
  assert (rhs_ok m1) as H1 by (subst m1; solve_rhs).
  assert (rhs_ok m2) as H2 by (subst m2; solve_rhs).
  assert (rhs_ok m3) as H3 by (subst m3; solve_rhs).
  assert (sqlite3MemCompare 1 m1 m2 None = -1) as E1 by (vm_compute; reflexivity).
  assert (sqlite3MemCompare 1 m2 m3 None = -1) as E2 by (vm_compute; reflexivity).
  split; [exact (conj H1 (conj H2 H3))|]. split; [exact E1|]. split; [exact E2|].
  destruct (values_are_ordered 1 None m1 m2 m3 H1 H2 H3 I) as (_ & _ & H).
  apply H; [rewrite E1; discriminate|rewrite E2; discriminate].
Defined.
