(* ===== verification/UnixFile.v ===== *)
(** * Reading and writing a file (os_unix.c of sqlite3.c)

    [unixRead] and [unixWrite] turn what the operating system offers (reads and writes that may
    be interrupted, may do a part of the work or may fail) into what the rest of SQLite relies
    on.  The system calls are parameters: [pread] gives the error number or the bytes read,
    [pwrite] the error number or how many bytes were written; the first argument counts the calls
    made so far, so that the answers may differ from call to call.

    A file is the list of its bytes.  The class [Vfs] is what the components above see of a
    file; [unix_vfs] is the instance that [unixRead] and [unixWrite] give. *)

From S2P Require Import Prelude.
From stdpp Require Import options.

Definition SQLITE_OK : Z := 0.
Definition SQLITE_FULL : Z := 13.
Definition SQLITE_IOERR_READ : Z := 266.
Definition SQLITE_IOERR_SHORT_READ : Z := 522.
Definition SQLITE_IOERR_WRITE : Z := 778.
Definition SQLITE_IOERR_CORRUPTFS : Z := 8458.
Definition EINTR : Z := 4.
Definition EIO : Z := 5.
Definition ENXIO : Z := 6.
Definition ENOSPC : Z := 28.
Definition ERANGE : Z := 34.

(** The bytes of a file at an offset, and the file with bytes put there: a gap reads as zeros. *)
Definition fread (f : list Z) (offset cnt : Z) : list Z := take (Z.to_nat cnt) (zdrop offset f).
Definition fwrite (f : list Z) (offset : Z) (d : list Z) : list Z :=
  match d with
  | [] => f
  | _ => take (Z.to_nat offset) (f ++ repeat 0 (Z.to_nat (offset - zlen f))) ++ d ++ zdrop (offset + zlen d) f
  end.

Section os.
Context (pread : nat -> list Z -> Z -> Z -> Z + list Z).
Context (pwrite : nat -> list Z -> Z -> Z -> Z + Z).

(** ** Reading *)

(** The loop: [pBuf] is what was read before.  [inl] is the error number. *)
Fixpoint seekAndRead (fuel call : nat) (f : list Z) (offset cnt : Z) (pBuf : list Z) : option (Z + list Z) :=
  match fuel with
  | O => None
  | S fuel =>
      match pread call f offset cnt with
      | inl errno => if errno =? EINTR then seekAndRead fuel (S call) f offset cnt pBuf else Some (inl errno)
      | inr l =>
          if zlen l =? cnt then Some (inr (pBuf ++ l))
          else if 0 <? zlen l then seekAndRead fuel (S call) f (offset + zlen l) (cnt - zlen l) (pBuf ++ l)
          else Some (inr (pBuf ++ l))
      end
  end.

(** [mmapSize] bytes of the file are mapped: the code and the buffer. *)
Definition unixRead (fuel : nat) (f : list Z) (mmapSize amt offset : Z) : option (Z * list Z) :=
  if (offset <? mmapSize) && (offset + amt <=? mmapSize) then Some (SQLITE_OK, fread f offset amt)
  else
    let nCopy := if offset <? mmapSize then mmapSize - offset else 0 in
    let pBuf := fread f offset nCopy in
    let amt := amt - nCopy in
    let offset := offset + nCopy in
    match seekAndRead fuel 0 f offset amt [] with
    | None => None
    | Some (inr l) =>
        if zlen l =? amt then Some (SQLITE_OK, pBuf ++ l)
        else Some (SQLITE_IOERR_SHORT_READ, pBuf ++ l ++ repeat 0 (Z.to_nat (amt - zlen l)))
    | Some (inl lastErrno) =>
        Some (if (lastErrno =? ERANGE) || (lastErrno =? EIO) || (lastErrno =? ENXIO) then SQLITE_IOERR_CORRUPTFS
              else SQLITE_IOERR_READ, pBuf)
    end.

(** ** Writing *)

(** [nBuf] bytes at most, again when interrupted: the bytes written. *)
Fixpoint seekAndWriteFd (fuel call : nat) (f : list Z) (iOff nBuf : Z) : option (nat * (Z + Z)) :=
  match fuel with
  | O => None
  | S fuel =>
      match pwrite call f iOff (Z.land nBuf 0x1ffff) with
      | inl errno => if errno =? EINTR then seekAndWriteFd fuel (S call) f iOff nBuf else Some (S call, inl errno)
      | inr wrote => Some (S call, inr wrote)
      end
  end.

(** The loop of [unixWrite]: the file, the code. *)
Fixpoint unixWrite_loop (fuel call : nat) (f : list Z) (pBuf : list Z) (offset : Z) : option (list Z * Z) :=
  match fuel with
  | O => None
  | S fuel =>
      let amt := zlen pBuf in
      match seekAndWriteFd (S fuel) call f offset amt with
      | None => None
      | Some (_, inl errno) => Some (f, if errno =? ENOSPC then SQLITE_FULL else SQLITE_IOERR_WRITE)
      | Some (call, inr wrote) =>
          let f := fwrite f offset (take (Z.to_nat wrote) pBuf) in
          if (wrote <? amt) && (0 <? wrote) then unixWrite_loop fuel call f (zdrop wrote pBuf) (offset + wrote)
          else Some (f, if wrote <? amt then SQLITE_FULL else SQLITE_OK)
      end
  end.

Definition unixWrite (fuel : nat) (f pBuf : list Z) (offset : Z) : option (list Z * Z) := unixWrite_loop fuel 0 f pBuf offset.

End os.

(** ** What the calls promise

    [pread] gives bytes of the file at the offset, fewer than asked for only by choice, and none
    only at the end of the file; [pwrite] writes at least one byte or fails.  Both are
    interrupted finitely often: not from the [N]-th call on. *)
Record posix (pread : nat -> list Z -> Z -> Z -> Z + list Z) (pwrite : nat -> list Z -> Z -> Z -> Z + Z) (N : nat) : Prop := {
  pread_some : forall k f off cnt l, 0 <= off -> 0 < cnt -> pread k f off cnt = inr l ->
    zlen l <= cnt /\ l = fread f off (zlen l) /\ (l = [] -> zlen f <= off);
  pread_eintr : forall k f off cnt, (N <= k)%nat -> pread k f off cnt <> inl EINTR;
  pwrite_some : forall k f off cnt n, 0 < cnt -> pwrite k f off cnt = inr n -> 0 < n <= cnt;
  pwrite_eintr : forall k f off cnt, (N <= k)%nat -> pwrite k f off cnt <> inl EINTR
}.

(** What a read and a write of a whole buffer come to. *)
Definition os_read (f : list Z) (amt offset : Z) : Z * list Z :=
  let l := fread f offset amt in
  if zlen l =? amt then (SQLITE_OK, l) else (SQLITE_IOERR_SHORT_READ, l ++ repeat 0 (Z.to_nat (amt - zlen l))).

(** A call that fails, and one that is interrupted at worst. *)
Definition fails {A} (call : nat -> list Z -> Z -> Z -> Z + A) : Prop :=
  exists k f off cnt e, call k f off cnt = inl e /\ e <> EINTR.
Definition never_fails {A} (call : nat -> list Z -> Z -> Z -> Z + A) : Prop :=
  forall k f off cnt e, call k f off cnt = inl e -> e = EINTR.

(** ** Lemmas *)

Lemma zlen_fread f off cnt : 0 <= off -> 0 <= cnt -> zlen (fread f off cnt) = Z.min cnt (Z.max 0 (zlen f - off)).
Proof. intros Ho Hc. unfold fread. pose proof (zlen_zdrop off f Ho) as H. unfold zlen in *. rewrite length_take. lia. Qed.

Lemma fread_app f off a b : 0 <= off -> 0 <= a -> 0 <= b -> fread f off a ++ fread f (off + a) b = fread f off (a + b).
Proof.
  intros Ho Ha Hb. unfold fread. rewrite <- (zdrop_zdrop off a) by done. unfold zdrop at 2.
  rewrite Z2Nat.inj_add by done. symmetry. rewrite <- (take_drop (Z.to_nat a) (take (Z.to_nat a + Z.to_nat b) (zdrop off f))).
  rewrite take_take, Nat.min_l by lia. f_equal. rewrite <- take_drop_commute. done.
Qed.

Lemma fread_0 f off : fread f off 0 = [].
Proof. done. Qed.

Lemma fread_eof f off cnt : 0 <= off -> zlen f <= off -> fread f off cnt = [].
Proof. intros Ho Hf. unfold fread, zdrop. rewrite drop_ge by (unfold zlen in Hf; lia). apply take_nil. Qed.

Lemma seekAndRead_spec pread pwrite N : posix pread pwrite N ->
  forall fuel call f off cnt pBuf, 0 <= off -> 0 < cnt -> Z.of_nat N + cnt < Z.of_nat fuel + Z.of_nat call ->
  cnt < Z.of_nat fuel -> exists r, seekAndRead pread fuel call f off cnt pBuf = Some r /\
    (r = inr (pBuf ++ fread f off cnt) \/ exists e, r = inl e /\ fails pread).
Proof.
  intros Hp. induction fuel as [|fuel IH]; intros call f off cnt pBuf Ho Hc Hf Hf'; cbn [seekAndRead]; [lia|].
  destruct (pread call f off cnt) as [e|l] eqn:E.
  - destruct (e =? EINTR) eqn:Ee; breflect.
    + assert (call < N)%nat.
      { destruct (Nat.lt_ge_cases call N) as [|Hge]; [done|]. subst e. by destruct (pread_eintr _ _ _ Hp call f off cnt Hge). }
      apply IH; lia.
    + exists (inl e). split; [done|]. right. exists e. split; [done|]. by exists call, f, off, cnt, e.
  - destruct (pread_some _ _ _ Hp _ _ _ _ _ Ho Hc E) as (Hl & Hle & Heof). pose proof (zlen_nonneg l).
    case_if; breflect; [|case_if; breflect].
    + exists (inr (pBuf ++ l)). split; [done|]. left. congruence.
    + destruct (IH (S call) f (off + zlen l) (cnt - zlen l) (pBuf ++ l)) as (r & Hr & Hs); [lia..|].
      exists r. split; [done|]. destruct Hs as [->|Hs]; [left|by right]. rewrite <- app_assoc. do 2 f_equal.
      rewrite Hle at 1. rewrite fread_app by lia. f_equal. lia.
    + assert (l = []) as -> by (destruct l; [done|rewrite zlen_cons in *; pose proof (zlen_nonneg l); lia]).
      exists (inr (pBuf ++ [])). split; [done|]. left. by rewrite (fread_eof f off cnt Ho (Heof eq_refl)).
Qed.

(** The mapped part comes first, the rest from the system. *)
Lemma unixRead_spec pread pwrite N fuel f mmapSize amt offset : posix pread pwrite N ->
  0 <= offset -> 0 < amt -> 0 <= mmapSize <= zlen f -> Z.of_nat N + amt < Z.of_nat fuel ->
  exists rc buf, unixRead pread fuel f mmapSize amt offset = Some (rc, buf) /\
    ((rc, buf) = os_read f amt offset \/
     (rc = SQLITE_IOERR_READ \/ rc = SQLITE_IOERR_CORRUPTFS) /\ fails pread).
Proof.
  intros Hp Ho Ha Hm Hf. unfold unixRead, os_read. destruct ((offset <? mmapSize) && (offset + amt <=? mmapSize)) eqn:E.
  - breflect. eexists _, _. split; [reflexivity|]. left. rewrite zlen_fread by lia. case_if; [done|breflect; lia].
  - set (nCopy := if offset <? mmapSize then mmapSize - offset else 0).
    assert (0 <= nCopy < amt /\ offset + nCopy <= Z.max offset (zlen f)) as Hn.
    { unfold nCopy. apply andb_false_iff in E as [E|E]; case_if; breflect; lia. }
    destruct (seekAndRead_spec pread pwrite N Hp fuel 0 f (offset + nCopy) (amt - nCopy) []) as (r & -> & Hr); [lia..|].
    destruct Hr as [->|(e & -> & He)].
    + cbn [app]. pose proof (fread_app f offset nCopy (amt - nCopy) Ho ltac:(lia) ltac:(lia)) as Happ.
      replace (nCopy + (amt - nCopy)) with amt in Happ by lia.
      assert (zlen (fread f offset nCopy) = nCopy) as Hz.
      { rewrite zlen_fread by lia. unfold nCopy. case_if; breflect; lia. }
      assert (zlen (fread f offset amt) = nCopy + zlen (fread f (offset + nCopy) (amt - nCopy))) as Hza by (rewrite <- Happ, zlen_app; lia).
      cbv zeta. rewrite Hza, <- Happ. case_if; breflect.
      * eexists _, _. split; [reflexivity|]. left. rewrite (proj2 (Z.eqb_eq _ _)) by lia. done.
      * eexists _, _. split; [reflexivity|]. left. rewrite (proj2 (Z.eqb_neq _ _)), <- app_assoc by lia.
        replace (amt - (nCopy + _)) with (amt - nCopy - zlen (fread f (offset + nCopy) (amt - nCopy))) by lia. done.
    + eexists _, _. split; [reflexivity|]. right. split; [case_if; auto|done].
Qed.

(** *** Writing *)

Lemma fwrite_nil f off : fwrite f off [] = f.
Proof. done. Qed.

Lemma fwrite_eq f off d : d <> [] -> fwrite f off d = take (Z.to_nat off) (f ++ repeat 0 (Z.to_nat (off - zlen f))) ++ d ++ zdrop (off + zlen d) f.
Proof. by destruct d. Qed.

Lemma zlen_fwrite f off d : 0 <= off -> d <> [] -> zlen (fwrite f off d) = Z.max (zlen f) (off + zlen d).
Proof.
  intros Ho Hd. rewrite fwrite_eq by done. rewrite !zlen_app, zlen_zdrop by (pose proof (zlen_nonneg d); lia).
  pose proof (zlen_nonneg d). unfold zlen at 1. rewrite length_take, length_app, repeat_length. unfold zlen in *. lia.
Qed.

Lemma fwrite_app f off a b : 0 <= off -> fwrite (fwrite f off a) (off + zlen a) b = fwrite f off (a ++ b).
Proof.
  intros Ho. destruct a as [|x a]; [change (zlen []) with 0; by rewrite Z.add_0_r|].
  set (a' := x :: a). assert (a' <> []) as Ha by done. clearbody a'. clear x a. rename a' into a.
  destruct b as [|y b]; [by rewrite app_nil_r|]. set (b' := y :: b). assert (b' <> []) as Hb by done. clearbody b'. clear y b. rename b' into b.
  pose proof (zlen_nonneg a) as Hza. pose proof (zlen_nonneg b) as Hzb.
  rewrite (fwrite_eq _ _ b), (fwrite_eq f off (a ++ b)), zlen_fwrite by (try done; by destruct a).
  replace (Z.to_nat (off + zlen a - Z.max (zlen f) (off + zlen a))) with 0%nat by lia. cbn [repeat]. rewrite app_nil_r.
  rewrite !(fwrite_eq f off a) by done. set (P := take (Z.to_nat off) _).
  assert (zlen P = off) as HP by (unfold P, zlen in *; rewrite length_take, length_app, repeat_length; lia).
  assert (take (Z.to_nat (off + zlen a)) (P ++ a ++ zdrop (off + zlen a) f) = P ++ a) as ->.
  { rewrite app_assoc, take_app_le by (rewrite length_app; unfold zlen in *; lia). apply take_ge. rewrite length_app. unfold zlen in *. lia. }
  assert (zdrop (off + zlen a + zlen b) (P ++ a ++ zdrop (off + zlen a) f) = zdrop (off + zlen (a ++ b)) f) as ->; [|by rewrite !app_assoc].
  rewrite <- (zdrop_zdrop (off + zlen a)) by lia. rewrite app_assoc, (zdrop_app (off + zlen a)) by (rewrite zlen_app; lia).
  rewrite zdrop_zdrop, zlen_app by lia. f_equal. lia.
Qed.

(** What a write leaves and puts. *)
Lemma fwrite_take f off d k : 0 <= k <= off -> off <= zlen f -> take (Z.to_nat k) (fwrite f off d) = take (Z.to_nat k) f.
Proof.
  intros Hk Ho. destruct d as [|x d]; [done|]. rewrite fwrite_eq by done.
  replace (Z.to_nat (off - zlen f)) with 0%nat by lia. cbn [repeat]. rewrite app_nil_r.
  rewrite take_app_le by (rewrite length_take; unfold zlen in Ho; lia). rewrite take_take. f_equal. lia.
Qed.

Lemma fwrite_drop f off d k : 0 <= off <= zlen f -> off + zlen d <= k -> zdrop k (fwrite f off d) = zdrop k f.
Proof.
  intros Ho Hk. destruct d as [|x d]; [done|]. rewrite fwrite_eq by done. pose proof (zlen_nonneg (x :: d)).
  replace (Z.to_nat (off - zlen f)) with 0%nat by lia. cbn [repeat]. rewrite app_nil_r, app_assoc.
  assert (zlen (take (Z.to_nat off) f ++ x :: d) = off + zlen (x :: d)) as Hl by (rewrite zlen_app; unfold zlen in *; rewrite length_take; lia).
  replace k with (off + zlen (x :: d) + (k - (off + zlen (x :: d)))) at 1 by lia.
  rewrite <- (zdrop_zdrop (off + zlen (x :: d))) by lia. rewrite (zdrop_app (off + zlen (x :: d))) by lia.
  rewrite zdrop_zdrop by lia. f_equal. lia.
Qed.

Lemma fread_take f off n k : 0 <= off -> 0 <= n -> off + n <= k -> fread (take (Z.to_nat k) f) off n = fread f off n.
Proof.
  intros Ho Hn Hk. unfold fread, zdrop. rewrite !take_drop_commute, take_take. do 2 f_equal. lia.
Qed.

Lemma fread_fwrite_before f off d o n : 0 <= o -> 0 <= n -> o + n <= off -> off <= zlen f -> fread (fwrite f off d) o n = fread f o n.
Proof.
  intros Ho Hn Hle Hf. rewrite <- (fread_take (fwrite f off d) o n off) by lia. rewrite fwrite_take by lia. by apply fread_take.
Qed.

Lemma fread_fwrite_after f off d o n : 0 <= off <= zlen f -> off + zlen d <= o -> fread (fwrite f off d) o n = fread f o n.
Proof. intros Ho Hle. unfold fread. by rewrite fwrite_drop. Qed.

Lemma fread_fwrite_same f off d : 0 <= off <= zlen f -> fread (fwrite f off d) off (zlen d) = d.
Proof.
  intros Ho. destruct d as [|x d]; [done|]. rewrite fwrite_eq by done.
  replace (Z.to_nat (off - zlen f)) with 0%nat by lia. cbn [repeat]. rewrite app_nil_r. unfold fread.
  rewrite (zdrop_app off) by (unfold zlen in *; rewrite length_take; lia). apply take_app_length'. unfold zlen. lia.
Qed.

Lemma fwrite_bytes f off d : bytes_ok f -> bytes_ok d -> bytes_ok (fwrite f off d).
Proof.
  intros Hf Hd. destruct d as [|x d]; [done|]. rewrite fwrite_eq by done. rewrite !Forall_app. split; [|split; [done|by apply Forall_drop]].
  apply Forall_take, Forall_app. split; [done|]. generalize (Z.to_nat (off - zlen f)). intros n.
  induction n as [|n IH]; cbn [repeat]; [apply Forall_nil_2|apply Forall_cons_2; [unfold is_byte; lia|done]].
Qed.

Lemma seekAndWriteFd_spec pread pwrite N : posix pread pwrite N ->
  forall fuel call f off nBuf, 0 < nBuf < 2 ^ 17 -> Z.of_nat N < Z.of_nat fuel + Z.of_nat call -> (0 < fuel)%nat ->
  exists call' r, seekAndWriteFd pwrite fuel call f off nBuf = Some (call', r) /\ (call <= call')%nat /\
    ((exists n, r = inr n /\ 0 < n <= nBuf) \/ exists e, r = inl e /\ fails pwrite).
Proof.
  intros Hp. induction fuel as [|fuel IH]; intros call f off nBuf Hn Hf Hpos; cbn [seekAndWriteFd]; [lia|].
  assert (Z.land nBuf 131071 = nBuf) as ->.
  { change 131071 with (Z.ones 17). rewrite Z.land_ones by done. by apply Z.mod_small; lia. }
  destruct (pwrite call f off nBuf) as [e|n] eqn:E.
  - destruct (e =? EINTR) eqn:Ee; breflect.
    + assert (call < N)%nat.
      { destruct (Nat.lt_ge_cases call N) as [|Hge]; [done|]. subst e. by destruct (pwrite_eintr _ _ _ Hp call f off nBuf Hge). }
      destruct (IH (S call) f off nBuf Hn ltac:(lia) ltac:(lia)) as (c' & r & -> & Hc & Hr). exists c', r. split; [done|]. split; [lia|done].
    + exists (S call), (inl e). split; [done|]. split; [lia|]. right. exists e. split; [done|]. by exists call, f, off, nBuf, e.
  - exists (S call), (inr n). split; [done|]. split; [lia|]. left. exists n. split; [done|].
    eapply pwrite_some; [exact Hp| |exact E]. lia.
Qed.

Lemma unixWrite_loop_spec pread pwrite N : posix pread pwrite N ->
  forall fuel call f d off, 0 <= off -> 0 < zlen d < 2 ^ 17 -> Z.of_nat N + zlen d < Z.of_nat fuel ->
  exists f' rc, unixWrite_loop pwrite fuel call f d off = Some (f', rc) /\
    (rc = SQLITE_OK /\ f' = fwrite f off d \/
     (rc = SQLITE_FULL \/ rc = SQLITE_IOERR_WRITE) /\ fails pwrite /\ exists k, 0 <= k < zlen d /\ f' = fwrite f off (take (Z.to_nat k) d)).
Proof.
  intros Hp. induction fuel as [|fuel IH]; intros call f d off Ho Hd Hf; cbn [unixWrite_loop]; [lia|].
  destruct (seekAndWriteFd_spec pread pwrite N Hp (S fuel) call f off (zlen d) Hd ltac:(lia) ltac:(lia)) as (c' & r & -> & Hc & Hr).
  destruct Hr as [(n & -> & Hn)|(e & -> & He)].
  - destruct (n <? zlen d) eqn:E; breflect; cbn [andb].
    + rewrite (proj2 (Z.ltb_lt 0 n)) by lia. set (d1 := take (Z.to_nat n) d). set (d2 := zdrop n d).
      assert (d = d1 ++ d2) as Hdd by (symmetry; apply take_drop).
      assert (zlen d1 = n) as H1 by (unfold d1, zlen in *; rewrite length_take; lia).
      assert (zlen d2 = zlen d - n) as H2 by (unfold d2; rewrite zlen_zdrop by lia; lia).
      destruct (IH c' (fwrite f off d1) d2 (off + n)) as (f' & rc & -> & Hr); [lia..|]. exists f', rc. split; [done|].
      replace (off + n) with (off + zlen d1) in Hr by lia. destruct Hr as [[-> ->]|(Hrc & Hfl & k & Hk & ->)].
      * left. split; [done|]. rewrite fwrite_app by done. by rewrite <- Hdd.
      * right. split; [done|]. split; [done|]. exists (n + k). split; [lia|]. rewrite fwrite_app by done. f_equal.
        rewrite Hdd. rewrite take_app_ge by (unfold zlen in *; lia). do 2 f_equal. unfold zlen in *. lia.
    + exists (fwrite f off (take (Z.to_nat n) d)), SQLITE_OK. split; [done|]. left. split; [done|].
      rewrite take_ge by (unfold zlen in *; lia). done.
  - eexists _, _. split; [reflexivity|]. right. split; [case_if; auto|]. split; [done|]. exists 0. split; [lia|]. done.
Qed.

(** ** The interface *)

(** A file as the components above use it; the file and the code of a write. *)
Class Vfs := {
  xRead : list Z -> Z -> Z -> Z * list Z;
  xWrite : list Z -> list Z -> Z -> list Z * Z;
  xSync : Z -> Z
}.

(** A system that does not fail. *)
Class Reliable (V : Vfs) : Prop := {
  read_all : forall f amt offset, 0 <= offset -> 0 < amt -> xRead f amt offset = os_read f amt offset;
  write_all : forall f d offset, 0 <= offset -> 0 < zlen d < 2 ^ 17 -> xWrite f d offset = (fwrite f offset d, SQLITE_OK);
  sync_all : forall flags, xSync flags = SQLITE_OK
}.

(** The Unix files, without mapping; [fsync] is the code of a sync. *)
#[export] Instance unix_vfs (pread : nat -> list Z -> Z -> Z -> Z + list Z) (pwrite : nat -> list Z -> Z -> Z -> Z + Z)
    (fsync : Z -> Z) (N : nat) : Vfs := {
  xRead f amt offset := default (SQLITE_IOERR_READ, []) (unixRead pread (N + Z.to_nat amt + 1) f 0 amt offset);
  xWrite f d offset := default (f, SQLITE_IOERR_WRITE) (unixWrite pwrite (N + length d + 1) f d offset);
  xSync := fsync
}.

#[export] Instance unix_reliable pread pwrite fsync N :
  posix pread pwrite N -> never_fails pread -> never_fails pwrite -> (forall flags, fsync flags = SQLITE_OK) ->
  Reliable (unix_vfs pread pwrite fsync N).
Proof.
  intros Hp Hr Hw Hs. split; [| |exact Hs].
  - intros f amt offset Ho Ha. cbn [xRead unix_vfs]. pose proof (zlen_nonneg f).
    destruct (unixRead_spec pread pwrite N (N + Z.to_nat amt + 1) f 0 amt offset Hp Ho Ha) as (rc & buf & -> & Hres); [lia..|].
    destruct Hres as [->|(_ & k & f' & off' & cnt' & e & He & Hne)]; [done|]. by apply Hr in He.
  - intros f d offset Ho Hd. cbn [xWrite unix_vfs]. unfold unixWrite.
    destruct (unixWrite_loop_spec pread pwrite N Hp (N + length d + 1) 0 f d offset Ho Hd) as (f1 & rc & -> & Hres); [unfold zlen; lia|].
    destruct Hres as [[-> ->]|(_ & (k & f' & off' & cnt' & e & He & Hne) & _)]; [done|]. by apply Hw in He.
Qed.

(** ** The contracts *)

(** On a system that keeps to POSIX, a read ends, however the system splits or interrupts
    it, and either gives the bytes of the file (with [SQLITE_IOERR_SHORT_READ] and zeros for
    those beyond its end) or one of the two error codes, and then a system call had failed. *)
Theorem unixRead_contract pread pwrite N fuel f mmapSize amt offset :
  posix pread pwrite N -> 0 <= offset -> 0 < amt -> 0 <= mmapSize <= zlen f -> Z.of_nat N + amt < Z.of_nat fuel ->
  exists rc buf, unixRead pread fuel f mmapSize amt offset = Some (rc, buf) /\
    ((rc, buf) = os_read f amt offset \/ (rc = SQLITE_IOERR_READ \/ rc = SQLITE_IOERR_CORRUPTFS) /\ fails pread).
Proof. apply unixRead_spec. Qed.

(** C27: A write ends, and either the file has all the bytes at the offset, or the code is one of
    the two error codes, a system call had failed, and the file has a proper prefix of them. *)
Theorem unixWrite_contract pread pwrite N fuel f d offset :
  posix pread pwrite N -> 0 <= offset -> 0 < zlen d < 2 ^ 17 -> Z.of_nat N + zlen d < Z.of_nat fuel ->
  exists f' rc, unixWrite pwrite fuel f d offset = Some (f', rc) /\
    (rc = SQLITE_OK /\ f' = fwrite f offset d \/
     (rc = SQLITE_FULL \/ rc = SQLITE_IOERR_WRITE) /\ fails pwrite /\
     exists k, 0 <= k < zlen d /\ f' = fwrite f offset (take (Z.to_nat k) d)).
Proof. intros Hp Ho Hd Hf. by apply (unixWrite_loop_spec pread pwrite N). Qed.

(** *** A system that moves three bytes at a time and is interrupted at its second call *)
Definition slow_read (k : nat) (f : list Z) (off cnt : Z) : Z + list Z :=
  if (k =? 1)%nat then inl EINTR else inr (fread f off (Z.min cnt 3)).
Definition slow_write (k : nat) (f : list Z) (off cnt : Z) : Z + Z :=
  if (k =? 1)%nat then inl EINTR else inr (Z.min cnt 3).

Lemma slow_posix : posix slow_read slow_write 2.
Proof.
  split; intros k f off cnt.
  - intros l Ho Hc. unfold slow_read. case_if; [done|]. intros [= <-]. rewrite zlen_fread by lia. split; [lia|]. split.
    + unfold fread. destruct (decide (Z.min cnt 3 <= Z.max 0 (zlen f - off))) as [H|H]; [f_equal; lia|].
      pose proof (zlen_zdrop off f Ho) as Hd. rewrite !take_ge by (unfold zlen in *; lia). done.
    + intros H. pose proof (zlen_fread f off (Z.min cnt 3) Ho ltac:(lia)) as Hz. rewrite H in Hz. change (zlen []) with 0 in Hz. lia.
  - intros Hk. unfold slow_read. destruct (k =? 1)%nat eqn:E; [apply Nat.eqb_eq in E; lia|done].
  - intros n Hc. unfold slow_write. case_if; [done|]. intros [= <-]. lia.
  - intros Hk. unfold slow_write. destruct (k =? 1)%nat eqn:E; [apply Nat.eqb_eq in E; lia|done].
Qed.

Example slow_1 : unixRead slow_read 20 [1; 2; 3; 4; 5; 6; 7] 0 6 3 = Some (SQLITE_IOERR_SHORT_READ, [4; 5; 6; 7; 0; 0]).
Proof. reflexivity. Qed.

Example slow_2 : unixWrite slow_write 20 [1; 2; 3; 4; 5; 6; 7] [10; 11; 12; 13; 14] 9 = Some ([1; 2; 3; 4; 5; 6; 7; 0; 0; 10; 11; 12; 13; 14], SQLITE_OK).
Proof. reflexivity. Qed.

Lemma unixRead_contract_witness : exists rc buf, unixRead slow_read 20 [1; 2; 3; 4; 5; 6; 7] 0 6 3 = Some (rc, buf) /\
  ((rc, buf) = os_read [1; 2; 3; 4; 5; 6; 7] 6 3 \/ (rc = SQLITE_IOERR_READ \/ rc = SQLITE_IOERR_CORRUPTFS) /\ fails slow_read).
Proof. apply (unixRead_contract slow_read slow_write 2 20 [1; 2; 3; 4; 5; 6; 7] 0 6 3 slow_posix); [lia|lia|unfold zlen; cbn; lia|lia]. Defined.

Lemma unixWrite_contract_witness : exists f' rc, unixWrite slow_write 20 [1; 2; 3] [10; 11; 12; 13; 14] 2 = Some (f', rc) /\
  (rc = SQLITE_OK /\ f' = fwrite [1; 2; 3] 2 [10; 11; 12; 13; 14] \/
   (rc = SQLITE_FULL \/ rc = SQLITE_IOERR_WRITE) /\ fails slow_write /\
   exists k, 0 <= k < 5 /\ f' = fwrite [1; 2; 3] 2 (take (Z.to_nat k) [10; 11; 12; 13; 14])).
Proof. apply (unixWrite_contract slow_read slow_write 2 20 [1; 2; 3] [10; 11; 12; 13; 14] 2 slow_posix); unfold zlen; cbn; lia. Defined.

(** ** Bytes by their positions *)

Lemma zat_ge l j : zlen l <= j -> zat l j = 0.
Proof. intros H. apply nth_overflow. unfold zlen in H. lia. Qed.

Lemma zlen_repeat (x : Z) n : zlen (repeat x n) = Z.of_nat n.
Proof. unfold zlen. by rewrite repeat_length. Qed.

Lemma zat_app_if l1 l2 i : 0 <= i -> zat (l1 ++ l2) i = if i <? zlen l1 then zat l1 i else zat l2 (i - zlen l1).
Proof.
  intros Hi. unfold zat, zlen. destruct (Z.ltb_spec i (Z.of_nat (length l1))).
  - apply app_nth1. lia.
  - rewrite app_nth2 by lia. f_equal. lia.
Qed.

Lemma zat_repeat0 n i : zat (repeat 0 n) i = 0.
Proof. unfold zat. generalize (Z.to_nat i). induction n as [|n IH]; intros [|k]; cbn; auto. Qed.

Lemma zlen_take_min n (l : list Z) : zlen (take n l) = Z.min (Z.of_nat n) (zlen l).
Proof. unfold zlen. rewrite length_take. lia. Qed.

Lemma zat_ext l1 l2 : zlen l1 = zlen l2 -> (forall i, 0 <= i < zlen l1 -> zat l1 i = zat l2 i) -> l1 = l2.
Proof.
  intros Hl H. apply (nth_ext _ _ 0 0); [unfold zlen in Hl; lia|]. intros n Hn.
  specialize (H (Z.of_nat n)). unfold zat in H. rewrite Nat2Z.id in H. apply H. unfold zlen. lia.
Qed.

Lemma zat_fread c o n i : 0 <= o -> 0 <= i < n -> zat (fread c o n) i = zat c (o + i).
Proof.
  intros Ho Hi. unfold fread. rewrite zat_take by lia. rewrite decide_True by lia. rewrite zat_zdrop by lia. done.
Qed.

Lemma zlen_fread_le c o n : 0 <= o -> 0 <= n -> zlen (fread c o n) <= n.
Proof. intros Ho Hn. rewrite zlen_fread by lia. pose proof (zlen_nonneg c). lia. Qed.

Lemma zlen_fread_full c o n : 0 <= o -> 0 < n -> zlen (fread c o n) = n <-> o + n <= zlen c.
Proof. intros Ho Hn. rewrite zlen_fread by lia. pose proof (zlen_nonneg c). lia. Qed.

(** Two files with the same bytes in a range. *)
Lemma fread_ext c1 c2 o n : 0 <= o -> 0 <= n -> o + n <= zlen c1 -> o + n <= zlen c2 ->
  (forall i, o <= i < o + n -> zat c1 i = zat c2 i) -> fread c1 o n = fread c2 o n.
Proof.
  intros Ho Hn H1 H2 H. apply zat_ext.
  - rewrite !zlen_fread by lia. lia.
  - intros i Hi. pose proof (zlen_fread_le c1 o n Ho Hn). rewrite !zat_fread by lia. apply H. lia.
Qed.

Lemma fread_sub c o n o' n' : 0 <= o -> 0 <= o' -> 0 <= n' -> o' + n' <= n -> fread (fread c o n) o' n' = fread c (o + o') n'.
Proof.
  intros Ho Ho' Hn' H. unfold fread, zdrop. rewrite skipn_firstn_comm, take_take, drop_drop. f_equal; [|f_equal]; lia.
Qed.

Lemma zat_fwrite f off d i : 0 <= off -> 0 <= i -> zat (fwrite f off d) i = if (off <=? i) && (i <? off + zlen d) then zat d (i - off) else zat f i.
Proof.
  intros Ho Hi. destruct d as [|x d].
  { cbn [fwrite]. change (zlen []) with 0. case_if; [|done]. breflect. lia. }
  rewrite fwrite_eq by done. set (b := x :: d). pose proof (zlen_nonneg f). pose proof (zlen_nonneg b).
  set (h := take _ _). assert (zlen h = off) as Hh.
  { unfold h. rewrite zlen_take_min, zlen_app, zlen_repeat. lia. }
  rewrite zat_app_if, Hh by done. destruct (Z.ltb_spec i off) as [Hlt|Hge].
  - rewrite (proj2 (Z.leb_gt off i)) by lia. cbn [andb]. unfold h. rewrite zat_take by done. rewrite decide_True by done.
    rewrite zat_app_if by done. case_if; [done|]. rewrite zat_repeat0. symmetry. by apply zat_ge.
  - rewrite (proj2 (Z.leb_le off i)) by lia. cbn [andb]. rewrite zat_app_if by lia.
    destruct (Z.ltb_spec (i - off) (zlen b)).
    + rewrite (proj2 (Z.ltb_lt i (off + zlen b))) by lia. done.
    + rewrite (proj2 (Z.ltb_ge i (off + zlen b))) by lia. rewrite zat_zdrop by lia. f_equal. lia.
Qed.

(** What a write leaves of a range. *)
Lemma fread_fwrite_other f off d o n : 0 <= off -> 0 <= o -> 0 <= n -> o + n <= zlen f -> o + n <= off \/ off + zlen d <= o ->
  fread (fwrite f off d) o n = fread f o n.
Proof.
  intros Hoff Ho Hn Hf Hd. destruct (decide (d = [])) as [->|Hne]; [done|].
  apply fread_ext; try lia; [rewrite zlen_fwrite by done; lia|]. intros i Hi. rewrite zat_fwrite by lia. case_if; [breflect; lia|done].
Qed.

Lemma fread_fwrite_eq f off d : 0 <= off -> fread (fwrite f off d) off (zlen d) = d.
Proof.
  intros Hoff. destruct (decide (d = [])) as [->|Hne]; [done|]. apply zat_ext.
  - rewrite zlen_fread, zlen_fwrite by (try done; pose proof (zlen_nonneg d); lia). pose proof (zlen_nonneg d). lia.
  - intros i Hi. pose proof (zlen_fread_le (fwrite f off d) off (zlen d) Hoff (zlen_nonneg d)). rewrite zat_fread by lia. rewrite zat_fwrite by lia. rewrite (proj2 (Z.leb_le _ _)), (proj2 (Z.ltb_lt _ _)) by lia.
    cbn [andb]. f_equal. lia.
Qed.
