(* ===== verification/Disk.v ===== *)
(** * The files of a database under crashes (os_unix.c of sqlite3.c)

    What the pager sees of the database file and its rollback journal, and what a loss of power
    leaves of them.  A file keeps every content it had since it was last synced; a power loss
    leaves a mixture of them, sector by sector.  Creating and deleting the journal are durable
    only when its directory is synced, so the journals that were deleted since are kept too.

    A routine is a program over file operations, any of which may fail: [exec] runs it on a list
    of answers of the system and stops where the list ends, which is where the process dies.
    [wpc] is the program logic: its first argument holds after every operation. *)

From S2P Require Import Prelude Varint UnixFile.
From stdpp Require Import options.

Definition SQLITE_ERROR : Z := 1.
Definition SQLITE_BUSY : Z := 5.
Definition SQLITE_NOMEM : Z := 7.
Definition SQLITE_IOERR : Z := 10.
Definition SQLITE_NOTFOUND : Z := 12.
Definition SQLITE_CANTOPEN : Z := 14.
Definition SQLITE_IOERR_DELETE_NOENT : Z := 5898.

(** The first bytes of a journal header. *)
Definition aJournalMagic : list Z := [0xd9; 0xd5; 0x05; 0xf9; 0x20; 0xa1; 0x63; 0xd7].

Inductive fid := FDb | FJrnl.

(** The content of a file, and those it had since it was synced, the newest first. *)
Record versions := mkVer { v_now : list Z; v_older : list (list Z) }.

Definition v_all (v : versions) : list (list Z) := v_now v :: v_older v.
Definition put (v : versions) (c : list Z) : versions := mkVer c (v_all v).

(** [d_gone] are the journals, or their absence, that the directory may still show after a power
    loss; [d_dirsync] is the flag [UNIXFILE_DIRSYNC] of the journal. *)
Record disk := mkDisk {
  d_db : versions;
  d_jrnl : option versions;
  d_gone : list (option versions);
  d_dirsync : bool
}.

Definition set_ddb (d : disk) (v : versions) : disk := mkDisk v (d_jrnl d) (d_gone d) (d_dirsync d).
Definition set_djrnl (d : disk) (v : option versions) : disk := mkDisk (d_db d) v (d_gone d) (d_dirsync d).
Definition set_dgone (d : disk) (g : list (option versions)) : disk := mkDisk (d_db d) (d_jrnl d) g (d_dirsync d).
Definition set_dirsync (d : disk) (b : bool) : disk := mkDisk (d_db d) (d_jrnl d) (d_gone d) b.

(** The file, that is not there when it has no content. *)
Definition file_of (d : disk) (f : fid) : option versions :=
  match f with FDb => Some (d_db d) | FJrnl => d_jrnl d end.
Definition set_file (d : disk) (f : fid) (v : versions) : disk :=
  match f with FDb => set_ddb d v | FJrnl => set_djrnl d (Some v) end.
Definition now (d : disk) (f : fid) : list Z :=
  match file_of d f with Some v => v_now v | None => [] end.

(** A file cut or extended to a size. *)
Definition ftruncate (c : list Z) (n : Z) : list Z := take (Z.to_nat n) c ++ repeat 0 (Z.to_nat (n - zlen c)).

(** ** Operations *)

Inductive dop : Type -> Type :=
  | OsFileSize (f : fid) : dop (Z * Z)
  | OsRead (f : fid) (amt offset : Z) : dop (Z * list Z)
  | OsWrite (f : fid) (buf : list Z) (offset : Z) : dop Z
  | OsTruncate (f : fid) (size : Z) : dop Z
  | OsSync (f : fid) (flags : Z) : dop Z
  | OsAccess : dop (Z * bool)
  | OsAccessSuper (zSuper : list Z) : dop (Z * bool)
  | OsOpen (create : bool) : dop Z
  | OsDelete (dirSync : Z) : dop Z
  | OsLock (eLock : Z) : dop Z
  | OsUnlock (eLock : Z) : dop Z
  | OsCheckReservedLock : dop (Z * bool)
  | OsFileControl : dop Z
  | OsRandomness : dop Z
  | OsMalloc : dop bool.


(** What the system decides: the code of the operation, how much of a failed write was done or
    the number that is asked for, and whether a failed deletion was done. *)
Record choice := mkChoice { ch_rc : Z; ch_n : Z; ch_b : bool }.

(** The codes of a failed operation on a file, of a lock that is not granted, of a file that
    cannot be opened. *)
Definition io_error (rc : Z) : bool :=
  ((Z.land rc 0xff =? SQLITE_IOERR) || (Z.land rc 0xff =? SQLITE_FULL)) && negb (rc =? SQLITE_IOERR_SHORT_READ).
Definition lock_error (rc : Z) : bool := (rc =? SQLITE_BUSY) || io_error rc.
Definition open_error (rc : Z) : bool := (Z.land rc 0xff =? SQLITE_CANTOPEN) || io_error rc.

(** *** The super-journal name at the end of a journal *)

Definition MAX_PATHNAME : Z := 512.

Definition super_name (c : list Z) : list Z :=
  let szJ := zlen c in
  if szJ <? 16 then []
  else
    let len := sqlite3Get4byte (fread c (szJ - 16) 4) in
    if (MAX_PATHNAME + 1 <=? len) || (szJ - 16 <? len) || (len =? 0) || negb (bool_decide (fread c (szJ - 8) 8 = aJournalMagic)) then []
    else
      let name := fread c (szJ - 16 - len) len in
      if negb (u32 (sqlite3Get4byte (fread c (szJ - 12) 4) - foldr Z.add 0 (map i8 name)) =? 0) then []
      else if zat name 0 =? 0 then [] else name.

(** The journal does not end with the name of a super-journal. *)
Definition plain (c : list Z) : Prop := super_name c = [].

(** *** What an operation does *)

(** ** Programs *)

Inductive prog (A : Type) : Type :=
  | DRet (a : A)
  | DOp (R : Type) (o : dop R) (k : R -> prog A).

Arguments DRet {A} a.
Arguments DOp {A R} o k.

Fixpoint dbind {A B} (m : prog A) (f : A -> prog B) : prog B :=
  match m with
  | DRet a => f a
  | DOp o k => DOp o (fun r => dbind (k r) f)
  end.

Definition os {R} (o : dop R) : prog R := DOp o (fun r => DRet r).

Section disk.
(** The sector size of the device: a sector is written as a whole or not at all. *)
Context (S : Z).

(** The size of the part of a failed write that was done. *)
Definition partial_ok (k len offset : Z) : bool :=
  (k =? 0) || ((0 <? k) && (k <? len) && ((offset + k) mod S =? 0)).

Definition answer {R} (ok : bool) (r : R) (d : disk) : option (R * disk) := if ok then Some (r, d) else None.

Definition op_file {R} (o : dop R) (ch : choice) (d : disk) : option (R * disk) :=
  let rc := ch_rc ch in
  match o in dop R return option (R * disk) with
  | OsFileSize f =>
      if rc =? SQLITE_OK then Some ((SQLITE_OK, zlen (now d f)), d) else answer (io_error rc) (rc, 0) d
  | OsRead f amt offset =>
      if rc =? SQLITE_OK then Some (os_read (now d f) amt offset, d) else answer (io_error rc) (rc, []) d
  | OsWrite f buf offset =>
      match file_of d f with
      | None => None
      | Some v =>
          if rc =? SQLITE_OK then Some (SQLITE_OK, set_file d f (put v (fwrite (v_now v) offset buf)))
          else if ch_n ch =? 0 then answer (io_error rc) rc d
          else answer (io_error rc && partial_ok (ch_n ch) (zlen buf) offset) rc
                 (set_file d f (put v (fwrite (v_now v) offset (take (Z.to_nat (ch_n ch)) buf))))
      end
  | OsTruncate f size =>
      match file_of d f with
      | None => None
      | Some v =>
          if rc =? SQLITE_OK then Some (SQLITE_OK, set_file d f (put v (ftruncate (v_now v) size)))
          else answer (io_error rc) rc d
      end
  | OsSync f flags =>
      if rc =? SQLITE_OK then
        match f with
        | FDb => Some (SQLITE_OK, set_ddb d (mkVer (v_now (d_db d)) []))
        | FJrnl =>
            match d_jrnl d with
            | None => None
            | Some v =>
                let d := set_djrnl d (Some (mkVer (v_now v) [])) in
                Some (SQLITE_OK, if d_dirsync d then set_dirsync (set_dgone d []) false else d)
            end
        end
      else answer (io_error rc) rc d
  | OsAccess =>
      if rc =? SQLITE_OK then Some ((SQLITE_OK, 0 <? zlen (now d FJrnl)), d) else answer (io_error rc) (rc, false) d
  | OsAccessSuper _ =>
      if rc =? SQLITE_OK then Some ((SQLITE_OK, ch_b ch), d) else answer (io_error rc) (rc, false) d
  | OsOpen create =>
      if rc =? SQLITE_OK then
        match d_jrnl d with
        | Some _ => Some (SQLITE_OK, set_dirsync d create)
        | None =>
            if create then Some (SQLITE_OK, set_dirsync (set_dgone (set_djrnl d (Some (mkVer [] []))) (None :: d_gone d)) true)
            else Some (SQLITE_CANTOPEN, d)
        end
      else answer (open_error rc) rc d
  | OsDelete dirSync =>
      match d_jrnl d with
      | None => Some (SQLITE_IOERR_DELETE_NOENT, d)
      | Some v =>
          let d' := set_dgone (set_djrnl d None) (Some v :: d_gone d) in
          if rc =? SQLITE_OK then Some (SQLITE_OK, if negb (Z.land dirSync 1 =? 0) then set_dgone d' [] else d')
          else answer (io_error rc) rc (if ch_b ch then d' else d)
      end
  | OsLock _ => if rc =? SQLITE_OK then Some (SQLITE_OK, d) else answer (lock_error rc) rc d
  | OsUnlock _ => if rc =? SQLITE_OK then Some (SQLITE_OK, d) else answer (io_error rc) rc d
  | OsCheckReservedLock =>
      if rc =? SQLITE_OK then Some ((SQLITE_OK, false), d) else answer (io_error rc) (rc, false) d
  | OsFileControl =>
      if rc =? SQLITE_OK then Some (SQLITE_OK, d) else answer ((rc =? SQLITE_NOTFOUND) || io_error rc) rc d
  | OsRandomness => Some (u32 (ch_n ch), d)
  | OsMalloc => Some (ch_b ch, d)
  end.

(** Only journals that do not end with the name of a super-journal are considered. *)
Definition op_do {R} (o : dop R) (ch : choice) (d : disk) : option (R * disk) :=
  match op_file o ch d with
  | Some (r, d') => if decide (plain (now d' FJrnl)) then Some (r, d') else None
  | None => None
  end.

(** The disk, and the result unless the process died. *)
Fixpoint exec {A} (m : prog A) (chs : list choice) (d : disk) : option (disk * option A) :=
  match m with
  | DRet a => Some (d, Some a)
  | DOp o k =>
      match chs with
      | [] => Some (d, None)
      | ch :: chs =>
          match op_do o ch d with
          | None => None
          | Some (r, d') => exec (k r) chs d'
          end
      end
  end.

(** ** A loss of power *)

Definition magic_at (c : list Z) (offset : Z) : Prop := fread c offset 8 = aJournalMagic.

#[export] Instance magic_at_dec c offset : Decision (magic_at c offset).
Proof using. unfold magic_at. apply _. Defined.

(** A file of [b] bytes is left of [cs]: its size is that of one content; each sector is that of
    one content, one that is no older than that size (or has the whole sector), and what such a
    content does not have is arbitrary but for the magic number, that no sector gets by chance. *)
Definition survives (cs : list (list Z)) (b : list Z) : Prop :=
  exists i ci, cs !! i = Some ci /\ zlen b = zlen ci /\
    forall k, 0 <= k -> exists j cj, cs !! j = Some cj /\
      (forall o, k * S <= o < (k + 1) * S -> o < zlen b -> o < zlen cj -> zat b o = zat cj o) /\
      ((i <= j)%nat \/ Z.min (zlen b) ((k + 1) * S) <= zlen cj) /\
      (magic_at b (k * S) -> magic_at cj (k * S)).

(** One of the journals the directory may show, or none. *)
Definition jrnl_survives (d : disk) (j : option (list Z)) : Prop :=
  match j with
  | None => None ∈ d_jrnl d :: d_gone d
  | Some b => exists v, Some v ∈ d_jrnl d :: d_gone d /\ survives (v_all v) b /\ plain b
  end.

Definition power_loss (d d' : disk) : Prop :=
  exists b j, survives (v_all (d_db d)) b /\ jrnl_survives d j /\
    d' = mkDisk (mkVer b []) ((fun c => mkVer c []) <$> j) [] false.

(** ** The program logic *)

Fixpoint wpc {A} (C : disk -> Prop) (m : prog A) (Q : A -> disk -> Prop) (d : disk) : Prop :=
  match m with
  | DRet a => Q a d
  | DOp o k => forall ch r d', op_do o ch d = Some (r, d') -> C d' /\ wpc C (k r) Q d'
  end.

Lemma wpc_exec {A} C (m : prog A) Q d : C d -> wpc C m Q d ->
  forall chs d' r, exec m chs d = Some (d', r) -> C d' /\ forall a, r = Some a -> Q a d'.
Proof using.
  revert d. induction m as [a|R o k IH]; intros d HC Hw chs d' r; cbn [exec].
  - intros [= <- <-]. split; [done|]. by intros a' [= <-].
  - destruct chs as [|ch chs]; [by intros [= <- <-]|]. destruct (op_do o ch d) as [[r0 d0]|] eqn:E; [|done].
    destruct (Hw ch r0 d0 E) as [H1 H2]. by apply IH.
Qed.

Lemma wpc_mono {A} (C C' : disk -> Prop) (m : prog A) (Q Q' : A -> disk -> Prop) d :
  (forall d, C d -> C' d) -> (forall a d, Q a d -> Q' a d) -> wpc C m Q d -> wpc C' m Q' d.
Proof using.
  intros HC HQ. revert d. induction m as [a|R o k IH]; intros d; cbn [wpc]; [apply HQ|].
  intros H ch r d' E. destruct (H ch r d' E) as [H1 H2]. split; [by apply HC|by apply IH].
Qed.

Lemma wpc_bind {A B} C (m : prog A) (f : A -> prog B) Q d :
  wpc C m (fun a d' => wpc C (f a) Q d') d -> wpc C (dbind m f) Q d.
Proof using.
  revert d. induction m as [a|R o k IH]; intros d; cbn [wpc dbind]; [done|].
  intros H ch r d' E. destruct (H ch r d' E) as [H1 H2]. split; [done|by apply IH].
Qed.

Lemma wpc_seq {A B} C (m : prog A) (f : A -> prog B) R Q d :
  wpc C m R d -> (forall a d', R a d' -> wpc C (f a) Q d') -> wpc C (dbind m f) Q d.
Proof using. intros H1 H2. apply wpc_bind. eapply wpc_mono; [| |exact H1]; auto. Qed.

Lemma wpc_os {R} C (o : dop R) (Q : R -> disk -> Prop) d :
  (forall ch r d', op_do o ch d = Some (r, d') -> C d' /\ Q r d') -> wpc C (os o) Q d.
Proof using. intros H ch r d' E. by destruct (H ch r d' E). Qed.

Lemma op_do_inv {R} (o : dop R) ch d r d' : op_do o ch d = Some (r, d') -> op_file o ch d = Some (r, d') /\ plain (now d' FJrnl).
Proof using. unfold op_do. destruct (op_file o ch d) as [[r0 d0]|]; [|done]. destruct (decide _); [|done]. by intros [= <- <-]. Qed.

End disk.

Declare Scope dprog_scope.
Delimit Scope dprog_scope with dprog.
Notation "'do!' x := m 'in' k" := (dbind m (fun x => k))
  (at level 10, x pattern, m at level 100, k at level 200) : dprog_scope.

(** ** Cutting a file *)

Lemma zlen_ftruncate c n : 0 <= n -> zlen (ftruncate c n) = n.
Proof. intros Hn. unfold ftruncate. rewrite zlen_app, zlen_take_min, zlen_repeat. pose proof (zlen_nonneg c). lia. Qed.

Lemma zat_ftruncate c n i : 0 <= i < n -> zat (ftruncate c n) i = zat c i.
Proof.
  intros Hi. unfold ftruncate. rewrite zat_app_if, zlen_take_min by lia. case_if.
  - rewrite zat_take by lia. by rewrite decide_True by lia.
  - rewrite zat_repeat0. symmetry. apply zat_ge. lia.
Qed.

Lemma fread_ftruncate c n o m : 0 <= o -> 0 <= m -> o + m <= n -> o + m <= zlen c -> fread (ftruncate c n) o m = fread c o m.
Proof.
  intros Ho Hm Hn Hc. apply fread_ext; try lia; [rewrite zlen_ftruncate by lia; lia|]. intros i Hi. by apply zat_ftruncate; lia.
Qed.

(** ** What survives a loss of power *)

Section survives.
Context (S : Z) (HS : 32 <= S).

Lemma survives_now cs c : survives S (c :: cs) c.
Proof using.
  exists 0%nat, c. split; [done|]. split; [done|]. intros k Hk. exists 0%nat, c. split; [done|]. split; [done|]. split; [by left|done].
Qed.

Lemma survives_one c b : survives S [c] b -> b = c.
Proof using HS.
  intros (i & ci & Hi & Hl & H). assert (ci = c) as -> by (destruct i; [by injection Hi as ->|done]).
  apply zat_ext; [done|]. intros o Ho. destruct (H (o / S)) as (j & cj & Hj & Hb & _); [apply Z.div_pos; lia|].
  assert (cj = c) as -> by (destruct j; [by injection Hj as ->|done]). apply Hb; try lia.
  pose proof (Z.div_mod o S ltac:(lia)). pose proof (Z.mod_pos_bound o S ltac:(lia)). nia.
Qed.

(** What survives when the file is synced could have survived before. *)
Lemma survives_synced c cs b : survives S [c] b -> survives S (c :: cs) b.
Proof using.
  intros (i & ci & Hi & Hl & H). destruct i; [|done]. injection Hi as <-. exists 0%nat, c. split; [done|]. split; [done|].
  intros k Hk. destruct (H k Hk) as (j & cj & Hj & Hr). exists j, cj. split; [|done]. by destruct j.
Qed.

(** The bytes that all contents agree on survive. *)
Lemma survives_fread cs b o n x : survives S cs b -> 0 <= o -> zlen x = n -> (forall c, c ∈ cs -> fread c o n = x) -> fread b o n = x.
Proof using HS.
  intros (i & ci & Hi & Hl & H) Ho Hx Hc. pose proof (zlen_nonneg x). destruct (decide (n = 0)) as [->|Hn].
  { destruct x; [done|]. rewrite zlen_cons in *. pose proof (zlen_nonneg x). lia. }
  assert (forall c, c ∈ cs -> o + n <= zlen c) as Hlen.
  { intros c Hin. apply zlen_fread_full; [lia..|]. by rewrite (Hc c Hin). }
  assert (o + n <= zlen b) as Hb by (rewrite Hl; apply Hlen; by apply list_elem_of_lookup_2 with i).
  apply zat_ext; [rewrite zlen_fread by lia; lia|]. intros a Ha. pose proof (zlen_fread_le b o n Ho ltac:(lia)).
  rewrite zat_fread by lia. destruct (H ((o + a) / S)) as (j & cj & Hj & Hb' & _); [apply Z.div_pos; lia|].
  pose proof (list_elem_of_lookup_2 _ _ _ Hj) as Hin. pose proof (Hlen cj Hin). rewrite Hb'; [|..]; try lia.
  - rewrite <- (Hc cj Hin). rewrite zat_fread by lia. done.
  - pose proof (Z.div_mod (o + a) S ltac:(lia)). pose proof (Z.mod_pos_bound (o + a) S ltac:(lia)). nia.
Qed.

Lemma survives_zlen cs b : survives S cs b -> exists c, c ∈ cs /\ zlen b = zlen c.
Proof using. intros (i & ci & Hi & Hl & _). exists ci. split; [by apply list_elem_of_lookup_2 with i|done]. Qed.

Lemma survives_nomagic cs b k : survives S cs b -> 0 <= k -> (forall c, c ∈ cs -> ~ magic_at c (k * S)) -> ~ magic_at b (k * S).
Proof using.
  intros (i & ci & Hi & Hl & H) Hk Hc Hm. destruct (H k Hk) as (j & cj & Hj & _ & _ & Hj').
  apply (Hc cj); [by apply list_elem_of_lookup_2 with j|by apply Hj'].
Qed.

(** A header is there as a whole or not at all. *)
Lemma survives_header cs b k h : survives S cs b -> 0 <= k ->
  (forall c, c ∈ cs -> (k + 1) * S <= zlen c) -> (forall c, c ∈ cs -> magic_at c (k * S) -> fread c (k * S) 28 = h) ->
  ~ magic_at b (k * S) \/ fread b (k * S) 28 = h.
Proof using HS.
  intros Hs Hk Hlen Hc. destruct (decide (magic_at b (k * S))) as [Hb|Hb]; [right|by left].
  destruct (survives_zlen _ _ Hs) as (c0 & Hc0 & Hl0). pose proof (Hlen c0 Hc0) as Hlc0.
  destruct Hs as (i & ci & Hi & Hl & Hsec). destruct (Hsec k Hk) as (j & cj & Hj & Hbytes & _ & Hmj).
  pose proof (list_elem_of_lookup_2 _ _ _ Hj) as Hin. pose proof (Hlen cj Hin) as Hlcj. rewrite <- (Hc cj Hin (Hmj Hb)).
  apply fread_ext; try nia. intros o Ho. apply Hbytes; nia.
Qed.

End survives.
