(* ===== verification/Pager.v ===== *)
(** * The rollback journal of the pager (pager.c and pcache.c of sqlite3.c)

    The pager in its rollback modes, as programs over the file operations of [Disk]: the format
    of the journal, hot-journal recovery, the page cache as far as the pager uses it, reading and
    writing pages, spilling, the two phases of a commit and rollback.  [transaction] is what a
    connection does with it.

    Only what the rollback journal needs is here: no write-ahead log, no temporary or in-memory
    database, no savepoints, backups, memory-mapped pages or super-journals; the b-tree above
    does not use [PAGER_GET_NOCONTENT] and [sqlite3PagerDontWrite], and keeps a reference to
    page 1, and only to page 1, while it has a transaction.  The statistics, the data version and
    the code under compile-time options that are off by default are left out.  Allocating memory
    succeeds, but for the bit vector of a journal.

    The fuel of the loops over a journal is its size plus one: every turn moves on by a header or
    a record, or ends the loop; [PagerSafety.playback_restores] shows that it is enough. *)

From S2P Require Import Prelude Varint UnixFile Disk.
From stdpp Require Import options.

Definition SQLITE_CORRUPT : Z := 11.
Definition SQLITE_DONE : Z := 101.
Definition SQLITE_READONLY_ROLLBACK : Z := Z.lor 8 (Z.shiftl 3 8).
Definition SQLITE_ABORT : Z := 4.

(** The answer of a loop that was cut off, which no operation gives. *)
Definition NO_FUEL : Z := -1.

Definition PAGER_OPEN : Z := 0.
Definition PAGER_READER : Z := 1.
Definition PAGER_WRITER_LOCKED : Z := 2.
Definition PAGER_WRITER_CACHEMOD : Z := 3.
Definition PAGER_WRITER_DBMOD : Z := 4.
Definition PAGER_WRITER_FINISHED : Z := 5.
Definition PAGER_ERROR : Z := 6.

Definition NO_LOCK : Z := 0.
Definition SHARED_LOCK : Z := 1.
Definition RESERVED_LOCK : Z := 2.
Definition EXCLUSIVE_LOCK : Z := 4.
Definition UNKNOWN_LOCK : Z := EXCLUSIVE_LOCK + 1.

Definition PAGER_JOURNALMODE_DELETE : Z := 0.
Definition PAGER_JOURNALMODE_PERSIST : Z := 1.
Definition PAGER_JOURNALMODE_OFF : Z := 2.
Definition PAGER_JOURNALMODE_TRUNCATE : Z := 3.
Definition PAGER_JOURNALMODE_MEMORY : Z := 4.
Definition PAGER_JOURNALMODE_WAL : Z := 5.

Definition SQLITE_IOCAP_SAFE_APPEND : Z := 0x200.
Definition SQLITE_IOCAP_SEQUENTIAL : Z := 0x400.
Definition SQLITE_IOCAP_UNDELETABLE_WHEN_OPEN : Z := 0x800.
Definition SQLITE_IOCAP_POWERSAFE_OVERWRITE : Z := 0x1000.
Definition SQLITE_SYNC_NORMAL : Z := 2.
Definition SQLITE_SYNC_FULL : Z := 3.
Definition SQLITE_SYNC_DATAONLY : Z := 0x10.
Definition SPILLFLAG_OFF : Z := 1.
Definition SPILLFLAG_ROLLBACK : Z := 2.
Definition SPILLFLAG_NOSYNC : Z := 4.

Definition SQLITE_MAX_PAGE_SIZE : Z := 65536.
Definition MAX_SECTOR_SIZE : Z := 0x10000.
Definition PENDING_BYTE : Z := 0x40000000.
Definition SQLITE_VERSION_NUMBER : Z := 3053002.

(** ** The page cache *)

(** A page in the cache, with the flags [PGHDR_DIRTY], [PGHDR_NEED_SYNC] and [PGHDR_WRITEABLE]. *)
Record PgHdr := mkPgHdr { pData : list Z; dirty : bool; needSync : bool; writeable : bool }.

Definition set_pData (g : PgHdr) (d : list Z) : PgHdr := mkPgHdr d (dirty g) (needSync g) (writeable g).
Definition set_dirty (g : PgHdr) (b : bool) : PgHdr := mkPgHdr (pData g) b (needSync g) (writeable g).
Definition set_needSync (g : PgHdr) (b : bool) : PgHdr := mkPgHdr (pData g) (dirty g) b (writeable g).
Definition set_writeable (g : PgHdr) (b : bool) : PgHdr := mkPgHdr (pData g) (dirty g) (needSync g) b.

Definition PCache : Type := gmap Z PgHdr.

Definition sqlite3PcacheMakeDirty (g : PgHdr) : PgHdr := if dirty g then g else set_dirty g true.
Definition sqlite3PcacheMakeClean (g : PgHdr) : PgHdr := mkPgHdr (pData g) false false false.
Definition sqlite3PcacheCleanAll (c : PCache) : PCache := (fun g => if dirty g then sqlite3PcacheMakeClean g else g) <$> c.
Definition sqlite3PcacheClearSyncFlags (c : PCache) : PCache := (fun g => if dirty g then set_needSync g false else g) <$> c.

(** The pages up to [pgno] stay; when there is none left but page 1 is in use it is zeroed. *)
Definition sqlite3PcacheTruncate (c : PCache) (szPage : Z) (nRefSum : bool) (pgno : Z) : PCache :=
  let c := map_imap (fun q g => Some (if (pgno <? q) && dirty g then sqlite3PcacheMakeClean g else g)) c in
  if (pgno =? 0) && nRefSum then
    filter (fun x => x.1 <= 1) (alter (fun g => set_pData g (repeat 0 (Z.to_nat szPage))) 1 c)
  else filter (fun x => x.1 <= pgno) c.

(** Lists of pages are here lists of their numbers. *)
Fixpoint pcacheMergeDirtyList (pA : list Z) : list Z -> list Z :=
  fix go (pB : list Z) : list Z :=
    match pA, pB with
    | [], _ => pB
    | _, [] => pA
    | a :: pA', b :: pB' => if a <? b then a :: pcacheMergeDirtyList pA' pB else b :: go pB'
    end.

Definition N_SORT_BUCKET : nat := 32.

(** [for(i=0; ALWAYS(i<N_SORT_BUCKET-1); i++)], and what follows it. *)
Fixpoint add_to_buckets (a : list (list Z)) (p : list Z) : list (list Z) :=
  match a with
  | [] => []
  | [x] => [pcacheMergeDirtyList x p]
  | x :: a => if bool_decide (x = []) then p :: a else [] :: add_to_buckets a (pcacheMergeDirtyList x p)
  end.

Definition pcacheSortDirtyList (pIn : list Z) : list Z :=
  match foldl (fun a p => add_to_buckets a [p]) (repeat [] N_SORT_BUCKET) pIn with
  | [] => []
  | p :: a => foldl (fun p x => if bool_decide (x = []) then p else if bool_decide (p = []) then x else pcacheMergeDirtyList p x) p a
  end.

(** The numbers of the dirty pages, in order. *)
Definition sqlite3PcacheDirtyList (c : PCache) : list Z :=
  pcacheSortDirtyList (map fst (filter (fun x => dirty x.2 = true) (map_to_list c))).

(** ** The pager *)

(** The settings of a connection: [xSectorSize] is what the file answers, [nBusy] how often the
    busy handler asks for another try. *)
Record PagerConf := mkConf {
  exclusiveMode : bool;
  journalMode : Z;
  noSync : bool;
  fullSync : bool;
  extraSync : Z;
  syncFlags : Z;
  readOnly : bool;
  iDc : Z;
  xSectorSize : Z;
  nBusy : nat;
  journalSizeLimit : Z
}.

(** [jfd] says whether the journal is open, [ref1] whether page 1 is referenced. *)
Record Pager := mkPager {
  eState : Z;
  eLock : Z;
  changeCountDone : bool;
  setSuper : bool;
  doNotSpill : Z;
  hasHeldSharedLock : bool;
  dbSize : Z;
  dbOrigSize : Z;
  dbFileSize : Z;
  dbHintSize : Z;
  errCode : Z;
  nRec : Z;
  cksumInit : Z;
  pInJournal : option (gset Z);
  jfd : bool;
  journalOff : Z;
  journalHdr : Z;
  dbFileVers : list Z;
  nReserve : Z;
  sectorSize : Z;
  mxPgno : Z;
  lckPgno : Z;
  pageSize : Z;
  ref1 : bool;
  pcache : gmap Z PgHdr
}.

Definition set_eState (p : Pager) (x : Z) : Pager :=
  mkPager x (eLock p) (changeCountDone p) (setSuper p) (doNotSpill p) (hasHeldSharedLock p) (dbSize p)
    (dbOrigSize p) (dbFileSize p) (dbHintSize p) (errCode p) (nRec p) (cksumInit p) (pInJournal p)
    (jfd p) (journalOff p) (journalHdr p) (dbFileVers p) (nReserve p) (sectorSize p) (mxPgno p)
    (lckPgno p) (pageSize p) (ref1 p) (pcache p).
Definition set_eLock (p : Pager) (x : Z) : Pager :=
  mkPager (eState p) x (changeCountDone p) (setSuper p) (doNotSpill p) (hasHeldSharedLock p) (dbSize p)
    (dbOrigSize p) (dbFileSize p) (dbHintSize p) (errCode p) (nRec p) (cksumInit p) (pInJournal p)
    (jfd p) (journalOff p) (journalHdr p) (dbFileVers p) (nReserve p) (sectorSize p) (mxPgno p)
    (lckPgno p) (pageSize p) (ref1 p) (pcache p).
Definition set_changeCountDone (p : Pager) (x : bool) : Pager :=
  mkPager (eState p) (eLock p) x (setSuper p) (doNotSpill p) (hasHeldSharedLock p) (dbSize p) (dbOrigSize p)
    (dbFileSize p) (dbHintSize p) (errCode p) (nRec p) (cksumInit p) (pInJournal p) (jfd p)
    (journalOff p) (journalHdr p) (dbFileVers p) (nReserve p) (sectorSize p) (mxPgno p) (lckPgno p)
    (pageSize p) (ref1 p) (pcache p).
Definition set_setSuper (p : Pager) (x : bool) : Pager :=
  mkPager (eState p) (eLock p) (changeCountDone p) x (doNotSpill p) (hasHeldSharedLock p) (dbSize p)
    (dbOrigSize p) (dbFileSize p) (dbHintSize p) (errCode p) (nRec p) (cksumInit p) (pInJournal p)
    (jfd p) (journalOff p) (journalHdr p) (dbFileVers p) (nReserve p) (sectorSize p) (mxPgno p)
    (lckPgno p) (pageSize p) (ref1 p) (pcache p).
Definition set_doNotSpill (p : Pager) (x : Z) : Pager :=
  mkPager (eState p) (eLock p) (changeCountDone p) (setSuper p) x (hasHeldSharedLock p) (dbSize p) (dbOrigSize p)
    (dbFileSize p) (dbHintSize p) (errCode p) (nRec p) (cksumInit p) (pInJournal p) (jfd p)
    (journalOff p) (journalHdr p) (dbFileVers p) (nReserve p) (sectorSize p) (mxPgno p) (lckPgno p)
    (pageSize p) (ref1 p) (pcache p).
Definition set_hasHeldSharedLock (p : Pager) (x : bool) : Pager :=
  mkPager (eState p) (eLock p) (changeCountDone p) (setSuper p) (doNotSpill p) x (dbSize p) (dbOrigSize p)
    (dbFileSize p) (dbHintSize p) (errCode p) (nRec p) (cksumInit p) (pInJournal p) (jfd p)
    (journalOff p) (journalHdr p) (dbFileVers p) (nReserve p) (sectorSize p) (mxPgno p) (lckPgno p)
    (pageSize p) (ref1 p) (pcache p).
Definition set_dbSize (p : Pager) (x : Z) : Pager :=
  mkPager (eState p) (eLock p) (changeCountDone p) (setSuper p) (doNotSpill p) (hasHeldSharedLock p) x
    (dbOrigSize p) (dbFileSize p) (dbHintSize p) (errCode p) (nRec p) (cksumInit p) (pInJournal p)
    (jfd p) (journalOff p) (journalHdr p) (dbFileVers p) (nReserve p) (sectorSize p) (mxPgno p)
    (lckPgno p) (pageSize p) (ref1 p) (pcache p).
Definition set_dbOrigSize (p : Pager) (x : Z) : Pager :=
  mkPager (eState p) (eLock p) (changeCountDone p) (setSuper p) (doNotSpill p) (hasHeldSharedLock p) (dbSize p)
    x (dbFileSize p) (dbHintSize p) (errCode p) (nRec p) (cksumInit p) (pInJournal p) (jfd p)
    (journalOff p) (journalHdr p) (dbFileVers p) (nReserve p) (sectorSize p) (mxPgno p) (lckPgno p)
    (pageSize p) (ref1 p) (pcache p).
Definition set_dbFileSize (p : Pager) (x : Z) : Pager :=
  mkPager (eState p) (eLock p) (changeCountDone p) (setSuper p) (doNotSpill p) (hasHeldSharedLock p) (dbSize p)
    (dbOrigSize p) x (dbHintSize p) (errCode p) (nRec p) (cksumInit p) (pInJournal p) (jfd p)
    (journalOff p) (journalHdr p) (dbFileVers p) (nReserve p) (sectorSize p) (mxPgno p) (lckPgno p)
    (pageSize p) (ref1 p) (pcache p).
Definition set_dbHintSize (p : Pager) (x : Z) : Pager :=
  mkPager (eState p) (eLock p) (changeCountDone p) (setSuper p) (doNotSpill p) (hasHeldSharedLock p) (dbSize p)
    (dbOrigSize p) (dbFileSize p) x (errCode p) (nRec p) (cksumInit p) (pInJournal p) (jfd p)
    (journalOff p) (journalHdr p) (dbFileVers p) (nReserve p) (sectorSize p) (mxPgno p) (lckPgno p)
    (pageSize p) (ref1 p) (pcache p).
Definition set_errCode (p : Pager) (x : Z) : Pager :=
  mkPager (eState p) (eLock p) (changeCountDone p) (setSuper p) (doNotSpill p) (hasHeldSharedLock p) (dbSize p)
    (dbOrigSize p) (dbFileSize p) (dbHintSize p) x (nRec p) (cksumInit p) (pInJournal p) (jfd p)
    (journalOff p) (journalHdr p) (dbFileVers p) (nReserve p) (sectorSize p) (mxPgno p) (lckPgno p)
    (pageSize p) (ref1 p) (pcache p).
Definition set_nRec (p : Pager) (x : Z) : Pager :=
  mkPager (eState p) (eLock p) (changeCountDone p) (setSuper p) (doNotSpill p) (hasHeldSharedLock p) (dbSize p)
    (dbOrigSize p) (dbFileSize p) (dbHintSize p) (errCode p) x (cksumInit p) (pInJournal p) (jfd p)
    (journalOff p) (journalHdr p) (dbFileVers p) (nReserve p) (sectorSize p) (mxPgno p) (lckPgno p)
    (pageSize p) (ref1 p) (pcache p).
Definition set_cksumInit (p : Pager) (x : Z) : Pager :=
  mkPager (eState p) (eLock p) (changeCountDone p) (setSuper p) (doNotSpill p) (hasHeldSharedLock p) (dbSize p)
    (dbOrigSize p) (dbFileSize p) (dbHintSize p) (errCode p) (nRec p) x (pInJournal p) (jfd p)
    (journalOff p) (journalHdr p) (dbFileVers p) (nReserve p) (sectorSize p) (mxPgno p) (lckPgno p)
    (pageSize p) (ref1 p) (pcache p).
Definition set_pInJournal (p : Pager) (x : option (gset Z)) : Pager :=
  mkPager (eState p) (eLock p) (changeCountDone p) (setSuper p) (doNotSpill p) (hasHeldSharedLock p) (dbSize p)
    (dbOrigSize p) (dbFileSize p) (dbHintSize p) (errCode p) (nRec p) (cksumInit p) x (jfd p)
    (journalOff p) (journalHdr p) (dbFileVers p) (nReserve p) (sectorSize p) (mxPgno p) (lckPgno p)
    (pageSize p) (ref1 p) (pcache p).
Definition set_jfd (p : Pager) (x : bool) : Pager :=
  mkPager (eState p) (eLock p) (changeCountDone p) (setSuper p) (doNotSpill p) (hasHeldSharedLock p) (dbSize p)
    (dbOrigSize p) (dbFileSize p) (dbHintSize p) (errCode p) (nRec p) (cksumInit p) (pInJournal p) x
    (journalOff p) (journalHdr p) (dbFileVers p) (nReserve p) (sectorSize p) (mxPgno p) (lckPgno p)
    (pageSize p) (ref1 p) (pcache p).
Definition set_journalOff (p : Pager) (x : Z) : Pager :=
  mkPager (eState p) (eLock p) (changeCountDone p) (setSuper p) (doNotSpill p) (hasHeldSharedLock p) (dbSize p)
    (dbOrigSize p) (dbFileSize p) (dbHintSize p) (errCode p) (nRec p) (cksumInit p) (pInJournal p)
    (jfd p) x (journalHdr p) (dbFileVers p) (nReserve p) (sectorSize p) (mxPgno p) (lckPgno p)
    (pageSize p) (ref1 p) (pcache p).
Definition set_journalHdr (p : Pager) (x : Z) : Pager :=
  mkPager (eState p) (eLock p) (changeCountDone p) (setSuper p) (doNotSpill p) (hasHeldSharedLock p) (dbSize p)
    (dbOrigSize p) (dbFileSize p) (dbHintSize p) (errCode p) (nRec p) (cksumInit p) (pInJournal p)
    (jfd p) (journalOff p) x (dbFileVers p) (nReserve p) (sectorSize p) (mxPgno p) (lckPgno p)
    (pageSize p) (ref1 p) (pcache p).
Definition set_dbFileVers (p : Pager) (x : list Z) : Pager :=
  mkPager (eState p) (eLock p) (changeCountDone p) (setSuper p) (doNotSpill p) (hasHeldSharedLock p) (dbSize p)
    (dbOrigSize p) (dbFileSize p) (dbHintSize p) (errCode p) (nRec p) (cksumInit p) (pInJournal p)
    (jfd p) (journalOff p) (journalHdr p) x (nReserve p) (sectorSize p) (mxPgno p) (lckPgno p)
    (pageSize p) (ref1 p) (pcache p).
Definition set_nReserve (p : Pager) (x : Z) : Pager :=
  mkPager (eState p) (eLock p) (changeCountDone p) (setSuper p) (doNotSpill p) (hasHeldSharedLock p) (dbSize p)
    (dbOrigSize p) (dbFileSize p) (dbHintSize p) (errCode p) (nRec p) (cksumInit p) (pInJournal p)
    (jfd p) (journalOff p) (journalHdr p) (dbFileVers p) x (sectorSize p) (mxPgno p) (lckPgno p)
    (pageSize p) (ref1 p) (pcache p).
Definition set_sectorSize (p : Pager) (x : Z) : Pager :=
  mkPager (eState p) (eLock p) (changeCountDone p) (setSuper p) (doNotSpill p) (hasHeldSharedLock p) (dbSize p)
    (dbOrigSize p) (dbFileSize p) (dbHintSize p) (errCode p) (nRec p) (cksumInit p) (pInJournal p)
    (jfd p) (journalOff p) (journalHdr p) (dbFileVers p) (nReserve p) x (mxPgno p) (lckPgno p)
    (pageSize p) (ref1 p) (pcache p).
Definition set_mxPgno (p : Pager) (x : Z) : Pager :=
  mkPager (eState p) (eLock p) (changeCountDone p) (setSuper p) (doNotSpill p) (hasHeldSharedLock p) (dbSize p)
    (dbOrigSize p) (dbFileSize p) (dbHintSize p) (errCode p) (nRec p) (cksumInit p) (pInJournal p)
    (jfd p) (journalOff p) (journalHdr p) (dbFileVers p) (nReserve p) (sectorSize p) x (lckPgno p)
    (pageSize p) (ref1 p) (pcache p).
Definition set_lckPgno (p : Pager) (x : Z) : Pager :=
  mkPager (eState p) (eLock p) (changeCountDone p) (setSuper p) (doNotSpill p) (hasHeldSharedLock p) (dbSize p)
    (dbOrigSize p) (dbFileSize p) (dbHintSize p) (errCode p) (nRec p) (cksumInit p) (pInJournal p)
    (jfd p) (journalOff p) (journalHdr p) (dbFileVers p) (nReserve p) (sectorSize p) (mxPgno p) x
    (pageSize p) (ref1 p) (pcache p).
Definition set_pageSize (p : Pager) (x : Z) : Pager :=
  mkPager (eState p) (eLock p) (changeCountDone p) (setSuper p) (doNotSpill p) (hasHeldSharedLock p) (dbSize p)
    (dbOrigSize p) (dbFileSize p) (dbHintSize p) (errCode p) (nRec p) (cksumInit p) (pInJournal p)
    (jfd p) (journalOff p) (journalHdr p) (dbFileVers p) (nReserve p) (sectorSize p) (mxPgno p)
    (lckPgno p) x (ref1 p) (pcache p).
Definition set_ref1 (p : Pager) (x : bool) : Pager :=
  mkPager (eState p) (eLock p) (changeCountDone p) (setSuper p) (doNotSpill p) (hasHeldSharedLock p) (dbSize p)
    (dbOrigSize p) (dbFileSize p) (dbHintSize p) (errCode p) (nRec p) (cksumInit p) (pInJournal p)
    (jfd p) (journalOff p) (journalHdr p) (dbFileVers p) (nReserve p) (sectorSize p) (mxPgno p)
    (lckPgno p) (pageSize p) x (pcache p).
Definition set_pcache (p : Pager) (x : gmap Z PgHdr) : Pager :=
  mkPager (eState p) (eLock p) (changeCountDone p) (setSuper p) (doNotSpill p) (hasHeldSharedLock p) (dbSize p)
    (dbOrigSize p) (dbFileSize p) (dbHintSize p) (errCode p) (nRec p) (cksumInit p) (pInJournal p)
    (jfd p) (journalOff p) (journalHdr p) (dbFileVers p) (nReserve p) (sectorSize p) (mxPgno p)
    (lckPgno p) (pageSize p) (ref1 p) x.

Open Scope dprog_scope.

(** What a transaction read and wrote. *)
Inductive event := EGet (pgno : Z) (d : list Z) | EWrite (pgno : Z) (d : list Z).

Section pager.
Context (cf : PagerConf).

(** Deleting a super-journal: any program, because no run considered here gets there. *)
Context (pager_delsuper : Pager -> list Z -> prog (Z * Pager)).

Definition PAGER_SJ_PGNO (p : Pager) : Z := lckPgno p.
Definition JOURNAL_PG_SZ (p : Pager) : Z := pageSize p + 8.
Definition JOURNAL_HDR_SZ (p : Pager) : Z := sectorSize p.

(** *** Words in a file, locks *)

Definition read32bits (f : fid) (offset : Z) : prog (Z * Z) :=
  do! (rc, ac) := os (OsRead f 4 offset) in
  DRet (rc, if rc =? SQLITE_OK then sqlite3Get4byte ac else 0).

Definition write32bits (f : fid) (offset val : Z) : prog Z := os (OsWrite f (sqlite3Put4byte val) offset).

Definition pagerUnlockDb (p : Pager) (lk : Z) : prog (Z * Pager) :=
  do! rc := os (OsUnlock lk) in
  let p := if eLock p =? UNKNOWN_LOCK then p else set_eLock p lk in
  DRet (rc, set_changeCountDone p false).

Definition pagerLockDb (p : Pager) (lk : Z) : prog (Z * Pager) :=
  if (eLock p <? lk) || (eLock p =? UNKNOWN_LOCK) then
    do! rc := os (OsLock lk) in
    DRet (rc, if (rc =? SQLITE_OK) && (negb (eLock p =? UNKNOWN_LOCK) || (lk =? EXCLUSIVE_LOCK)) then set_eLock p lk else p)
  else DRet (SQLITE_OK, p).

(** [do{ rc = pagerLockDb(...) }while( rc==SQLITE_BUSY && pPager->xBusyHandler(...) )] *)
Fixpoint wait_loop (n : nat) (p : Pager) (locktype : Z) : prog (Z * Pager) :=
  do! (rc, p) := pagerLockDb p locktype in
  match n with
  | O => DRet (rc, p)
  | S n => if rc =? SQLITE_BUSY then wait_loop n p locktype else DRet (rc, p)
  end.

Definition pager_wait_on_lock (p : Pager) (locktype : Z) : prog (Z * Pager) := wait_loop (nBusy cf) p locktype.

Definition pager_error (p : Pager) (rc : Z) : Pager :=
  let rc2 := Z.land rc 0xff in
  if (rc2 =? SQLITE_FULL) || (rc2 =? SQLITE_IOERR) then set_eState (set_errCode p rc) PAGER_ERROR else p.

Definition pager_reset (p : Pager) : Pager := set_pcache p (sqlite3PcacheTruncate (pcache p) (pageSize p) (ref1 p) 0).

Definition sqlite3SectorSize (iRet : Z) : Z :=
  if iRet <? 32 then 512 else if MAX_SECTOR_SIZE <? iRet then MAX_SECTOR_SIZE else iRet.

Definition setSectorSize (p : Pager) : Pager :=
  set_sectorSize p (if negb (Z.land (iDc cf) SQLITE_IOCAP_POWERSAFE_OVERWRITE =? 0) then 512 else sqlite3SectorSize (xSectorSize cf)).

(** Changing the page size, for [nReserve] -1. *)
Definition sqlite3PagerSetPagesize (p : Pager) (size : Z) : prog (Z * Pager) :=
  if bool_decide (ref1 p = false) && negb (size =? 0) && negb (size =? pageSize p) then
    do! (rc, nByte) := (if PAGER_OPEN <? eState p then os (OsFileSize FDb) else DRet (SQLITE_OK, 0)) in
    if negb (rc =? SQLITE_OK) then DRet (rc, p)
    else
      let p := set_dbSize (pager_reset p) ((nByte + size - 1) / size) in
      DRet (rc, set_lckPgno (set_pageSize p size) (PENDING_BYTE / size + 1))
  else DRet (SQLITE_OK, p).

(** ** The journal *)

(** The first sector boundary from [journalOff] on. *)
Definition journalHdrOffset (p : Pager) : Z :=
  let c := journalOff p in
  if c =? 0 then 0 else ((c - 1) / JOURNAL_HDR_SZ p + 1) * JOURNAL_HDR_SZ p.

Definition zeroJournalHdr (p : Pager) (doTruncate : bool) : prog Z :=
  if journalOff p =? 0 then DRet SQLITE_OK
  else
    let iLimit := journalSizeLimit cf in
    do! rc := (if doTruncate || (iLimit =? 0) then os (OsTruncate FJrnl 0)
               else os (OsWrite FJrnl (repeat 0 28) 0)) in
    do! rc := (if (rc =? SQLITE_OK) && negb (noSync cf) then os (OsSync FJrnl (Z.lor SQLITE_SYNC_DATAONLY (syncFlags cf)))
               else DRet rc) in
    if (rc =? SQLITE_OK) && (0 <? iLimit) then
      do! (rc, sz) := os (OsFileSize FJrnl) in
      if (rc =? SQLITE_OK) && (iLimit <? sz) then os (OsTruncate FJrnl iLimit) else DRet rc
    else DRet rc.

(** [for(nWrite=0; rc==SQLITE_OK&&nWrite<JOURNAL_HDR_SZ(pPager); nWrite+=nHeader)] *)
Fixpoint write_hdr (fuel : nat) (p : Pager) (zHeader : list Z) (nWrite rc : Z) : prog (Z * Pager) :=
  match fuel with
  | O => DRet (rc, p)
  | S fuel =>
      if (rc =? SQLITE_OK) && (nWrite <? JOURNAL_HDR_SZ p) then
        do! rc := os (OsWrite FJrnl zHeader (journalOff p)) in
        write_hdr fuel (set_journalOff p (journalOff p + zlen zHeader)) zHeader (nWrite + zlen zHeader) rc
      else DRet (rc, p)
  end.

(** The header that is written first: without the magic and the number of records, unless the
    file system promises that nothing else is appended. *)
Definition journal_header (p : Pager) : list Z :=
  let nHeader := Z.min (pageSize p) (JOURNAL_HDR_SZ p) in
  (if noSync cf || (journalMode cf =? PAGER_JOURNALMODE_MEMORY) || negb (Z.land (iDc cf) SQLITE_IOCAP_SAFE_APPEND =? 0)
   then aJournalMagic ++ sqlite3Put4byte 0xffffffff else repeat 0 12)
  ++ sqlite3Put4byte (cksumInit p) ++ sqlite3Put4byte (dbOrigSize p) ++ sqlite3Put4byte (sectorSize p)
  ++ sqlite3Put4byte (pageSize p) ++ repeat 0 (Z.to_nat (nHeader - 28)).

Definition writeJournalHdr (p : Pager) : prog (Z * Pager) :=
  let p := set_journalOff p (journalHdrOffset p) in
  let p := set_journalHdr p (journalOff p) in
  do! cksum := (if journalMode cf =? PAGER_JOURNALMODE_MEMORY then DRet (cksumInit p) else os OsRandomness) in
  let p := set_cksumInit p cksum in
  write_hdr (Z.to_nat (JOURNAL_HDR_SZ p)) p (journal_header p) 0 SQLITE_OK.

(** Both the page size and the sector size of a header have to be powers of two in range. *)
Definition sizes_ok (iPageSize iSectorSize : Z) : bool :=
  negb ((iPageSize <? 512) || (iSectorSize <? 32) || (SQLITE_MAX_PAGE_SIZE <? iPageSize) || (MAX_SECTOR_SIZE <? iSectorSize)
        || negb (Z.land (iPageSize - 1) iPageSize =? 0) || negb (Z.land (iSectorSize - 1) iSectorSize =? 0)).

(** The fields of a header at [iHdrOff] that are in the first one only: whether reading the header
    ends here, and the code. *)
Definition read_sizes (p : Pager) (iHdrOff : Z) : prog (bool * Z * Pager) :=
  do! (rc, iSectorSize) := read32bits FJrnl (iHdrOff + 20) in
  if negb (rc =? SQLITE_OK) then DRet (true, rc, p)
  else
    do! (rc, iPageSize) := read32bits FJrnl (iHdrOff + 24) in
    if negb (rc =? SQLITE_OK) then DRet (true, rc, p)
    else
      let iPageSize := if iPageSize =? 0 then pageSize p else iPageSize in
      if negb (sizes_ok iPageSize iSectorSize) then DRet (true, SQLITE_DONE, p)
      else
        do! (rc, p) := sqlite3PagerSetPagesize p iPageSize in
        DRet (false, rc, set_sectorSize p iSectorSize).

(** The code, the number of records, the size of the database and the pager. *)
Definition readJournalHdr (p : Pager) (isHot : bool) (journalSize : Z) : prog (Z * Z * Z * Pager) :=
  let p := set_journalOff p (journalHdrOffset p) in
  if journalSize <? journalOff p + JOURNAL_HDR_SZ p then DRet (SQLITE_DONE, 0, 0, p)
  else
    let iHdrOff := journalOff p in
    do! rc := (if isHot || negb (iHdrOff =? journalHdr p) then
                 do! (rc, aMagic) := os (OsRead FJrnl 8 iHdrOff) in
                 DRet (if negb (rc =? SQLITE_OK) then rc else if bool_decide (aMagic = aJournalMagic) then SQLITE_OK else SQLITE_DONE)
               else DRet SQLITE_OK) in
    if negb (rc =? SQLITE_OK) then DRet (rc, 0, 0, p)
    else
      do! (rc, nRec) := read32bits FJrnl (iHdrOff + 8) in
      if negb (rc =? SQLITE_OK) then DRet (rc, nRec, 0, p)
      else
        do! (rc, cksum) := read32bits FJrnl (iHdrOff + 12) in
        if negb (rc =? SQLITE_OK) then DRet (rc, nRec, 0, p)
        else
          let p := set_cksumInit p cksum in
          do! (rc, nDb) := read32bits FJrnl (iHdrOff + 16) in
          if negb (rc =? SQLITE_OK) then DRet (rc, nRec, nDb, p)
          else
            do! (stop, rc, p) := (if journalOff p =? 0 then read_sizes p iHdrOff else DRet (false, SQLITE_OK, p)) in
            if stop : bool then DRet (rc, nRec, nDb, p)
            else DRet (rc, nRec, nDb, set_journalOff p (journalOff p + JOURNAL_HDR_SZ p)).

(** Every 200th byte of the page, from the end. *)
Fixpoint cksum_loop (fuel : nat) (aData : list Z) (i cksum : Z) : Z :=
  match fuel with
  | O => cksum
  | S fuel => if 0 <? i then cksum_loop fuel aData (i - 200) (u32 (cksum + zat aData i)) else cksum
  end.

Definition pager_cksum (p : Pager) (aData : list Z) : Z :=
  cksum_loop (Z.to_nat (pageSize p)) aData (pageSize p - 200) (cksumInit p).

(** The name of a super-journal at the end of the journal: the code and the name. *)
Definition readSuperJournal : prog (Z * list Z) :=
  let nSuper := MAX_PATHNAME + 1 in
  do! (rc, szJ) := os (OsFileSize FJrnl) in
  if negb (rc =? SQLITE_OK) || (szJ <? 16) then DRet (rc, [])
  else
    do! (rc, len) := read32bits FJrnl (szJ - 16) in
    if negb (rc =? SQLITE_OK) || (nSuper <=? len) || (szJ - 16 <? len) || (len =? 0) then DRet (rc, [])
    else
      do! (rc, cksum) := read32bits FJrnl (szJ - 12) in
      if negb (rc =? SQLITE_OK) then DRet (rc, [])
      else
        do! (rc, aMagic) := os (OsRead FJrnl 8 (szJ - 8)) in
        if negb (rc =? SQLITE_OK) || negb (bool_decide (aMagic = aJournalMagic)) then DRet (rc, [])
        else
          do! (rc, zSuper) := os (OsRead FJrnl len (szJ - 16 - len)) in
          if negb (rc =? SQLITE_OK) then DRet (rc, [])
          else
            DRet (SQLITE_OK, if negb (u32 (cksum - foldr Z.add 0 (map i8 zSuper)) =? 0) then []
                             else if zat zSuper 0 =? 0 then [] else zSuper).

(** ** Ending a transaction *)

Definition pager_truncate (p : Pager) (nPage : Z) : prog (Z * Pager) :=
  if (PAGER_WRITER_DBMOD <=? eState p) || (eState p =? PAGER_OPEN) then
    let szPage := pageSize p in
    do! (rc, currentSize) := os (OsFileSize FDb) in
    let newSize := szPage * nPage in
    if (rc =? SQLITE_OK) && negb (currentSize =? newSize) then
      do! rc := (if newSize <? currentSize then os (OsTruncate FDb newSize)
                 else if currentSize + szPage <=? newSize then
                   do! _ := os OsFileControl in
                   os (OsWrite FDb (repeat 0 (Z.to_nat szPage)) (newSize - szPage))
                 else DRet rc) in
      DRet (rc, if rc =? SQLITE_OK then set_dbFileSize p nPage else p)
    else DRet (rc, p)
  else DRet (SQLITE_OK, p).

(** What is done with the journal at the end. *)
Definition finalize_journal (p : Pager) (hasSuper : bool) : prog (Z * Pager) :=
  if journalMode cf =? PAGER_JOURNALMODE_TRUNCATE then
    do! rc := (if journalOff p =? 0 then DRet SQLITE_OK
               else
                 do! rc := os (OsTruncate FJrnl 0) in
                 if (rc =? SQLITE_OK) && fullSync cf then os (OsSync FJrnl (syncFlags cf)) else DRet rc) in
    DRet (rc, set_journalOff p 0)
  else if (journalMode cf =? PAGER_JOURNALMODE_PERSIST) || (exclusiveMode cf && (journalMode cf <? PAGER_JOURNALMODE_WAL)) then
    do! rc := zeroJournalHdr p hasSuper in
    DRet (rc, set_journalOff p 0)
  else
    let p := set_jfd p false in
    do! rc := os (OsDelete (extraSync cf)) in
    DRet (rc, p).

Definition pager_end_transaction (p : Pager) (hasSuper bCommit : bool) : prog (Z * Pager) :=
  if (eState p <? PAGER_WRITER_LOCKED) && (eLock p <? RESERVED_LOCK) then DRet (SQLITE_OK, p)
  else
    do! (rc, p) := (if jfd p then finalize_journal p hasSuper else DRet (SQLITE_OK, p)) in
    let p := set_nRec (set_pInJournal p None) 0 in
    let p := if rc =? SQLITE_OK
             then set_pcache p (sqlite3PcacheTruncate (sqlite3PcacheCleanAll (pcache p)) (pageSize p) (ref1 p) (dbSize p)) else p in
    do! (rc, p) := (if (rc =? SQLITE_OK) && bCommit && (dbSize p <? dbFileSize p) then pager_truncate p (dbSize p) else DRet (rc, p)) in
    do! rc := (if (rc =? SQLITE_OK) && bCommit then
                 do! rc := os OsFileControl in DRet (if rc =? SQLITE_NOTFOUND then SQLITE_OK else rc)
               else DRet rc) in
    do! (rc2, p) := (if negb (exclusiveMode cf) then pagerUnlockDb p SHARED_LOCK else DRet (SQLITE_OK, p)) in
    let p := set_setSuper (set_eState p PAGER_READER) false in
    DRet (if rc =? SQLITE_OK then rc2 else rc, p).

Definition sqlite3PagerSync (p : Pager) : prog Z :=
  do! rc := os OsFileControl in
  let rc := if rc =? SQLITE_NOTFOUND then SQLITE_OK else rc in
  if (rc =? SQLITE_OK) && negb (noSync cf) then os (OsSync FDb (syncFlags cf)) else DRet rc.

(** ** Playing the journal back *)

(** One record of the main journal, at [journalOff]. *)
Definition pager_playback_one_page (p : Pager) : prog (Z * Pager) :=
  do! (rc, pgno) := read32bits FJrnl (journalOff p) in
  if negb (rc =? SQLITE_OK) then DRet (rc, p)
  else
    do! (rc, aData) := os (OsRead FJrnl (pageSize p) (journalOff p + 4)) in
    if negb (rc =? SQLITE_OK) then DRet (rc, p)
    else
      let p := set_journalOff p (journalOff p + (pageSize p + 8)) in
      if (pgno =? 0) || (pgno =? PAGER_SJ_PGNO p) then DRet (SQLITE_DONE, p)
      else if dbSize p <? pgno then DRet (SQLITE_OK, p)
      else
        do! (rc, cksum) := read32bits FJrnl (journalOff p - 4) in
        if negb (rc =? SQLITE_OK) then DRet (rc, p)
        else if negb (pager_cksum p aData =? cksum) then DRet (SQLITE_DONE, p)
        else
          let p := if (pgno =? 1) && negb (nReserve p =? zat aData 20) then set_nReserve p (zat aData 20) else p in
          let isSynced := noSync cf || (journalOff p <=? journalHdr p) in
          do! (rc, p) := (if ((PAGER_WRITER_DBMOD <=? eState p) || (eState p =? PAGER_OPEN)) && isSynced then
                            do! rc := os (OsWrite FDb aData ((pgno - 1) * pageSize p)) in
                            DRet (rc, if dbFileSize p <? pgno then set_dbFileSize p pgno else p)
                          else DRet (SQLITE_OK, p)) in
          match pcache p !! pgno with
          | None => DRet (rc, p)
          | Some g =>
              let p := set_pcache p (<[pgno := set_pData g aData]> (pcache p)) in
              DRet (rc, if pgno =? 1 then set_dbFileVers p (fread aData 24 16) else p)
          end.

(** [for(u=0; u<nRec; u++)]: [Some] code goes to the end of the playback. *)
Fixpoint playback_recs (fuel : nat) (p : Pager) (szJ u nRec : Z) (needPagerReset : bool) : prog (option Z * bool * Pager) :=
  match fuel with
  | O => DRet (Some NO_FUEL, needPagerReset, p)
  | S fuel =>
      if u <? nRec then
        let p := if needPagerReset then pager_reset p else p in
        do! (rc, p) := pager_playback_one_page p in
        if rc =? SQLITE_OK then playback_recs fuel p szJ (u + 1) nRec false
        else if rc =? SQLITE_DONE then DRet (None, false, set_journalOff p szJ)
        else if rc =? SQLITE_IOERR_SHORT_READ then DRet (Some SQLITE_OK, false, p)
        else DRet (Some rc, false, p)
      else DRet (None, needPagerReset, p)
  end.

(** The number of records that follow a header that says [nRec]. *)
Definition record_count (p : Pager) (isHot : bool) (szJ nRec : Z) : Z :=
  let nRec := if nRec =? 0xffffffff then u32 (i32 ((szJ - JOURNAL_HDR_SZ p) / JOURNAL_PG_SZ p)) else nRec in
  if (nRec =? 0) && negb isHot && (journalHdr p + JOURNAL_HDR_SZ p =? journalOff p)
  then u32 (i32 ((szJ - journalOff p) / JOURNAL_PG_SZ p)) else nRec.

Fixpoint playback_loop (fuel : nat) (p : Pager) (isHot : bool) (szJ : Z) (needPagerReset : bool) : prog (Z * Pager) :=
  match fuel with
  | O => DRet (NO_FUEL, p)
  | S fuel =>
      do! (rc, nRec, mxPg, p) := readJournalHdr p isHot szJ in
      if negb (rc =? SQLITE_OK) then DRet (if rc =? SQLITE_DONE then SQLITE_OK else rc, p)
      else
        let nRec := record_count p isHot szJ nRec in
        do! (rc, p) := (if journalOff p =? JOURNAL_HDR_SZ p then
                          do! (rc, p) := pager_truncate p mxPg in
                          if negb (rc =? SQLITE_OK) then DRet (rc, p)
                          else
                            let p := set_dbSize p mxPg in
                            DRet (rc, if mxPgno p <? mxPg then set_mxPgno p mxPg else p)
                        else DRet (SQLITE_OK, p)) in
        if negb (rc =? SQLITE_OK) then DRet (rc, p)
        else
          do! (stop, reset, p) := playback_recs (Datatypes.S (Z.to_nat szJ)) p szJ 0 nRec needPagerReset in
          match stop with
          | Some rc => DRet (rc, p)
          | None => playback_loop fuel p isHot szJ reset
          end
  end.

(** From [end_playback] on: [savedPageSize] is the page size before, [res] whether the super-journal exists. *)
Definition end_playback (p : Pager) (rc savedPageSize : Z) (res : bool) : prog (Z * Pager) :=
  do! (rc, p) := (if rc =? SQLITE_OK then sqlite3PagerSetPagesize p savedPageSize else DRet (rc, p)) in
  let p := set_changeCountDone p false in
  do! (rc, zSuper) := (if rc =? SQLITE_OK then readSuperJournal else DRet (rc, [])) in
  do! rc := (if (rc =? SQLITE_OK) && ((PAGER_WRITER_DBMOD <=? eState p) || (eState p =? PAGER_OPEN)) then sqlite3PagerSync p else DRet rc) in
  let super := negb (bool_decide (zSuper = [])) in
  do! (rc, p) := (if rc =? SQLITE_OK then pager_end_transaction p super false else DRet (rc, p)) in
  do! (rc, p) := (if (rc =? SQLITE_OK) && super && res then pager_delsuper p zSuper else DRet (rc, p)) in
  DRet (rc, setSectorSize p).

Definition pager_playback (p : Pager) (isHot : bool) : prog (Z * Pager) :=
  let savedPageSize := pageSize p in
  do! (rc, szJ) := os (OsFileSize FJrnl) in
  if negb (rc =? SQLITE_OK) then end_playback p rc savedPageSize true
  else
    do! (rc, zSuper) := readSuperJournal in
    do! (rc, res) := (if (rc =? SQLITE_OK) && negb (bool_decide (zSuper = [])) then os (OsAccessSuper zSuper) else DRet (rc, true)) in
    if negb (rc =? SQLITE_OK) || negb res then end_playback p rc savedPageSize res
    else
      do! (rc, p) := playback_loop (Datatypes.S (Z.to_nat szJ)) (set_journalOff p 0) isHot szJ isHot in
      end_playback p rc savedPageSize res.

Definition sqlite3PagerRollback (p : Pager) : prog (Z * Pager) :=
  if eState p =? PAGER_ERROR then DRet (errCode p, p)
  else if eState p <=? PAGER_READER then DRet (SQLITE_OK, p)
  else if negb (jfd p) || (eState p =? PAGER_WRITER_LOCKED) then
    let st := eState p in
    do! (rc, p) := pager_end_transaction p false false in
    if PAGER_WRITER_LOCKED <? st then DRet (rc, set_eState (set_errCode p SQLITE_ABORT) PAGER_ERROR)
    else DRet (rc, pager_error p rc)
  else
    do! (rc, p) := pager_playback p false in
    DRet (rc, pager_error p rc).

Definition pager_unlock (p : Pager) : prog Pager :=
  let p := set_pInJournal p None in
  do! p := (if exclusiveMode cf then DRet p
            else
              let p := if (Z.land (iDc cf) SQLITE_IOCAP_UNDELETABLE_WHEN_OPEN =? 0) || negb (Z.land (journalMode cf) 5 =? 1)
                       then set_jfd p false else p in
              do! (rc, p) := pagerUnlockDb p NO_LOCK in
              let p := if negb (rc =? SQLITE_OK) && (eState p =? PAGER_ERROR) then set_eLock p UNKNOWN_LOCK else p in
              DRet (set_eState p PAGER_OPEN)) in
  let p := if negb (errCode p =? SQLITE_OK)
           then set_errCode (set_eState (set_changeCountDone (pager_reset p) false) PAGER_OPEN) SQLITE_OK else p in
  DRet (set_setSuper (set_journalHdr (set_journalOff p 0) 0) false).

Definition pagerUnlockAndRollback (p : Pager) : prog Pager :=
  do! p := (if negb (eState p =? PAGER_ERROR) && negb (eState p =? PAGER_OPEN) then
              if PAGER_WRITER_LOCKED <=? eState p then
                do! (_, p) := sqlite3PagerRollback p in DRet p
              else if negb (exclusiveMode cf) then
                do! (_, p) := pager_end_transaction p false false in DRet p
              else DRet p
            else DRet p) in
  pager_unlock p.

Definition pagerUnlockIfUnused (p : Pager) : prog Pager := if ref1 p then DRet p else pagerUnlockAndRollback p.

(** ** Starting to read *)

Definition pagerPagecount (p : Pager) : prog (Z * Z * Pager) :=
  do! (rc, n) := os (OsFileSize FDb) in
  if negb (rc =? SQLITE_OK) then DRet (rc, 0, p)
  else
    let nPage := (n + pageSize p - 1) / pageSize p in
    DRet (SQLITE_OK, nPage, if mxPgno p <? nPage then set_mxPgno p nPage else p).

(** Whether the first byte of the journal says that it is hot. *)
Definition journal_looks_hot (p : Pager) (jrnlOpen : bool) : prog (Z * bool * Pager) :=
  do! rc := (if jrnlOpen then DRet SQLITE_OK else os (OsOpen false)) in
  if rc =? SQLITE_OK then
    do! (rc, first) := os (OsRead FJrnl 1 0) in
    let rc := if rc =? SQLITE_IOERR_SHORT_READ then SQLITE_OK else rc in
    DRet (rc, negb (zat first 0 =? 0), p)
  else if rc =? SQLITE_CANTOPEN then DRet (SQLITE_OK, true, p)
  else DRet (rc, false, p).

(** The code, [*pExists] and the pager. *)
Definition hasHotJournal (p : Pager) : prog (Z * bool * Pager) :=
  let jrnlOpen := jfd p in
  do! (rc, exists_) := (if jrnlOpen then DRet (SQLITE_OK, true) else os OsAccess) in
  if negb ((rc =? SQLITE_OK) && exists_) then DRet (rc, false, p)
  else
    do! (rc, locked) := os OsCheckReservedLock in
    if negb ((rc =? SQLITE_OK) && negb locked) then DRet (rc, false, p)
    else
      do! (rc, nPage, p) := pagerPagecount p in
      if negb (rc =? SQLITE_OK) then DRet (rc, false, p)
      else if (nPage =? 0) && negb jrnlOpen then
        do! (rc2, p) := pagerLockDb p RESERVED_LOCK in
        if rc2 =? SQLITE_OK then
          do! _ := os (OsDelete 0) in
          do! p := (if negb (exclusiveMode cf) then do! (_, p) := pagerUnlockDb p SHARED_LOCK in DRet p else DRet p) in
          DRet (rc, false, p)
        else DRet (rc, false, p)
      else journal_looks_hot p jrnlOpen.

Definition pagerSyncHotJournal (p : Pager) : prog (Z * Pager) :=
  do! rc := (if negb (noSync cf) then os (OsSync FJrnl SQLITE_SYNC_NORMAL) else DRet SQLITE_OK) in
  if negb (rc =? SQLITE_OK) then DRet (rc, p)
  else
    do! (rc, sz) := os (OsFileSize FJrnl) in
    DRet (rc, if rc =? SQLITE_OK then set_journalHdr p sz else p).

(** The part of [sqlite3PagerSharedLock] that rolls a hot journal back. *)
Definition rollback_hot (p : Pager) : prog (Z * Pager) :=
  if readOnly cf then DRet (SQLITE_READONLY_ROLLBACK, p)
  else
    do! (rc, p) := pagerLockDb p EXCLUSIVE_LOCK in
    if negb (rc =? SQLITE_OK) then DRet (rc, p)
    else
      do! (rc, p) := (if negb (jfd p) && negb (journalMode cf =? PAGER_JOURNALMODE_OFF) then
                        do! (rc, bExists) := os OsAccess in
                        if (rc =? SQLITE_OK) && bExists then
                          do! rc := os (OsOpen false) in
                          DRet (rc, if rc =? SQLITE_OK then set_jfd p true else p)
                        else DRet (rc, p)
                      else DRet (SQLITE_OK, p)) in
      do! (rc, p) := (if jfd p then
                        do! (rc, p) := pagerSyncHotJournal p in
                        if rc =? SQLITE_OK then
                          do! (rc, p) := pager_playback p true in
                          DRet (rc, set_eState p PAGER_OPEN)
                        else DRet (rc, p)
                      else if negb (exclusiveMode cf) then
                        do! (_, p) := pagerUnlockDb p SHARED_LOCK in DRet (rc, p)
                      else DRet (rc, p)) in
      DRet (rc, if negb (rc =? SQLITE_OK) then pager_error p rc else p).

(** The part that throws the cache away when the database was changed. *)
Definition check_version (p : Pager) : prog (Z * Pager) :=
  if hasHeldSharedLock p then
    do! (rc, vers) := os (OsRead FDb 16 24) in
    if negb (rc =? SQLITE_OK) && negb (rc =? SQLITE_IOERR_SHORT_READ) then DRet (rc, p)
    else
      let vers := if rc =? SQLITE_OK then vers else repeat 0 16 in
      DRet (SQLITE_OK, if bool_decide (vers = dbFileVers p) then p else pager_reset p)
  else DRet (SQLITE_OK, p).

Definition shared_lock_open (p : Pager) : prog (Z * Pager) :=
  do! (rc, p) := pager_wait_on_lock p SHARED_LOCK in
  if negb (rc =? SQLITE_OK) then DRet (rc, p)
  else
    do! (rc, bHotJournal, p) := (if eLock p <=? SHARED_LOCK then hasHotJournal p else DRet (SQLITE_OK, true, p)) in
    if negb (rc =? SQLITE_OK) then DRet (rc, p)
    else
      do! (rc, p) := (if bHotJournal : bool then rollback_hot p else DRet (SQLITE_OK, p)) in
      if negb (rc =? SQLITE_OK) then DRet (rc, p) else check_version p.

Definition sqlite3PagerSharedLock (p : Pager) : prog (Z * Pager) :=
  do! (rc, p) := (if eState p =? PAGER_OPEN then shared_lock_open p else DRet (SQLITE_OK, p)) in
  do! (rc, p) := (if (eState p =? PAGER_OPEN) && (rc =? SQLITE_OK) then
                    do! (rc, n, p) := pagerPagecount p in
                    DRet (rc, if rc =? SQLITE_OK then set_dbSize p n else p)
                  else DRet (rc, p)) in
  if negb (rc =? SQLITE_OK) then do! p := pager_unlock p in DRet (rc, p)
  else DRet (rc, set_hasHeldSharedLock (set_eState p PAGER_READER) true).

(** ** Pages *)

Definition readDbPage (p : Pager) (pgno : Z) : prog (Z * list Z * Pager) :=
  do! (rc, d) := os (OsRead FDb (pageSize p) ((pgno - 1) * pageSize p)) in
  let rc := if rc =? SQLITE_IOERR_SHORT_READ then SQLITE_OK else rc in
  DRet (rc, d, if pgno =? 1 then set_dbFileVers p (if rc =? SQLITE_OK then fread d 24 16 else repeat 0xff 16) else p).

(** A page that is not in the cache: the code, the page and the pager. *)
Definition load_page (p : Pager) (pgno : Z) : prog (Z * list Z * Pager) :=
  if pgno =? PAGER_SJ_PGNO p then DRet (SQLITE_CORRUPT, [], p)
  else if dbSize p <? pgno then
    if mxPgno p <? pgno then DRet (SQLITE_FULL, [], p)
    else DRet (SQLITE_OK, repeat 0 (Z.to_nat (pageSize p)), p)
  else readDbPage p pgno.

Definition getPageNormal (p : Pager) (pgno : Z) : prog (Z * Pager) :=
  if pgno =? 0 then DRet (SQLITE_CORRUPT, p)
  else
    match pcache p !! pgno with
    | Some _ => DRet (SQLITE_OK, p)
    | None =>
        do! (rc, d, p) := load_page p pgno in
        if rc =? SQLITE_OK then DRet (rc, set_pcache p (<[pgno := mkPgHdr d false false false]> (pcache p)))
        else do! p := pagerUnlockIfUnused p in DRet (rc, p)
    end.

(** The getter, which an error replaces by one that answers the error. *)
Definition sqlite3PagerGet (p : Pager) (pgno : Z) : prog (Z * Pager) :=
  if eState p =? PAGER_ERROR then DRet (errCode p, p) else getPageNormal p pgno.

(** Changes a page of the cache. *)
Definition upd_page (p : Pager) (pgno : Z) (f : PgHdr -> PgHdr) : Pager := set_pcache p (alter f pgno (pcache p)).
Definition page_data (p : Pager) (pgno : Z) : list Z := match pcache p !! pgno with Some g => pData g | None => [] end.
Definition page_flag (p : Pager) (pgno : Z) (f : PgHdr -> bool) : bool := match pcache p !! pgno with Some g => f g | None => false end.

(** ** Writing pages *)

Definition databaseIsUnmoved (p : Pager) : prog Z :=
  if dbSize p =? 0 then DRet SQLITE_OK
  else do! rc := os OsFileControl in DRet (if rc =? SQLITE_NOTFOUND then SQLITE_OK else rc).

Definition pager_open_journal (p : Pager) : prog (Z * Pager) :=
  if negb (errCode p =? SQLITE_OK) then DRet (errCode p, p)
  else
    do! (rc, p) := (if negb (journalMode cf =? PAGER_JOURNALMODE_OFF) then
                      do! ok := os OsMalloc in
                      if negb ok then DRet (Some SQLITE_NOMEM, p)
                      else
                        let p := set_pInJournal p (Some ∅) in
                        do! (rc, p) := (if jfd p then DRet (SQLITE_OK, p)
                                        else
                                          do! rc := databaseIsUnmoved p in
                                          do! rc := (if rc =? SQLITE_OK then os (OsOpen true) else DRet rc) in
                                          DRet (rc, if rc =? SQLITE_OK then set_jfd p true else p)) in
                        do! (rc, p) := (if rc =? SQLITE_OK then
                                          writeJournalHdr (set_journalHdr (set_setSuper (set_journalOff (set_nRec p 0) 0) false) 0)
                                        else DRet (rc, p)) in
                        DRet (if rc =? SQLITE_OK then None else Some rc, p)
                    else DRet (None, p)) in
    match rc with
    | Some rc => DRet (rc, if rc =? SQLITE_NOMEM then p else set_journalOff (set_pInJournal p None) 0)
    | None => DRet (SQLITE_OK, set_eState p PAGER_WRITER_CACHEMOD)
    end.

Definition sqlite3PagerBegin (p : Pager) (exFlag : bool) : prog (Z * Pager) :=
  if negb (errCode p =? SQLITE_OK) then DRet (errCode p, p)
  else if eState p =? PAGER_READER then
    do! (rc, p) := pagerLockDb p RESERVED_LOCK in
    do! (rc, p) := (if (rc =? SQLITE_OK) && exFlag then pager_wait_on_lock p EXCLUSIVE_LOCK else DRet (rc, p)) in
    DRet (rc, if rc =? SQLITE_OK
              then set_journalOff (set_dbOrigSize (set_dbFileSize (set_dbHintSize (set_eState p PAGER_WRITER_LOCKED) (dbSize p)) (dbSize p)) (dbSize p)) 0
              else p)
  else DRet (SQLITE_OK, p).

Definition pagerAddPageToRollbackJournal (p : Pager) (pgno : Z) : prog (Z * Pager) :=
  let iOff := journalOff p in
  let pData2 := page_data p pgno in
  let cksum := pager_cksum p pData2 in
  let p := upd_page p pgno (fun g => set_needSync g true) in
  do! rc := write32bits FJrnl iOff pgno in
  if negb (rc =? SQLITE_OK) then DRet (rc, p)
  else
    do! rc := os (OsWrite FJrnl pData2 (iOff + 4)) in
    if negb (rc =? SQLITE_OK) then DRet (rc, p)
    else
      do! rc := write32bits FJrnl (iOff + pageSize p + 4) cksum in
      if negb (rc =? SQLITE_OK) then DRet (rc, p)
      else
        let p := set_nRec (set_journalOff p (journalOff p + (8 + pageSize p))) (nRec p + 1) in
        DRet (SQLITE_OK, set_pInJournal p ((fun s => {[pgno]} ∪ s) <$> pInJournal p)).

(** The part of [pager_write] once the journal is open. *)
Definition pager_write_page (p : Pager) (pgno : Z) : prog (Z * Pager) :=
  let p := upd_page p pgno sqlite3PcacheMakeDirty in
  do! (rc, p) := (match pInJournal p with
                  | Some s =>
                      if bool_decide (pgno ∈ s) then DRet (SQLITE_OK, p)
                      else if pgno <=? dbOrigSize p then pagerAddPageToRollbackJournal p pgno
                      else DRet (SQLITE_OK, if eState p =? PAGER_WRITER_DBMOD then p else upd_page p pgno (fun g => set_needSync g true))
                  | None => DRet (SQLITE_OK, p)
                  end) in
  if negb (rc =? SQLITE_OK) then DRet (rc, p)
  else
    let p := upd_page p pgno (fun g => set_writeable g true) in
    DRet (SQLITE_OK, if dbSize p <? pgno then set_dbSize p pgno else p).

Definition pager_write (p : Pager) (pgno : Z) : prog (Z * Pager) :=
  do! (rc, p) := (if eState p =? PAGER_WRITER_LOCKED then pager_open_journal p else DRet (SQLITE_OK, p)) in
  if negb (rc =? SQLITE_OK) then DRet (rc, p) else pager_write_page p pgno.

(** The loop over the pages of a sector from [pg] on: the code, whether one of them needs a sync. *)
Fixpoint write_sector (nPage : nat) (p : Pager) (pgno pg : Z) (sync : bool) : prog (Z * bool * Pager) :=
  match nPage with
  | O => DRet (SQLITE_OK, sync, p)
  | S nPage =>
      do! (rc, sync, p) := (if (pg =? pgno) || negb (match pInJournal p with Some s => bool_decide (pg ∈ s) | None => false end) then
                              if negb (pg =? PAGER_SJ_PGNO p) then
                                do! (rc, p) := sqlite3PagerGet p pg in
                                if rc =? SQLITE_OK then
                                  do! (rc, p) := pager_write p pg in
                                  DRet (rc, sync || page_flag p pg needSync, p)
                                else DRet (rc, sync, p)
                              else DRet (SQLITE_OK, sync, p)
                            else DRet (SQLITE_OK, sync || page_flag p pg needSync, p)) in
      if rc =? SQLITE_OK then write_sector nPage p pgno (pg + 1) sync else DRet (rc, sync, p)
  end.

(** [for(ii=0; ii<nPage; ii++)] that marks the pages that are in the cache. *)
Fixpoint mark_sector (nPage : nat) (p : Pager) (pg : Z) : Pager :=
  match nPage with
  | O => p
  | S nPage => mark_sector nPage (upd_page p pg (fun g => set_needSync g true)) (pg + 1)
  end.

Definition pagerWriteLargeSector (p : Pager) (pgno : Z) : prog (Z * Pager) :=
  let nPagePerSector := sectorSize p / pageSize p in
  let p := set_doNotSpill p (Z.lor (doNotSpill p) SPILLFLAG_NOSYNC) in
  let pg1 := Z.land (pgno - 1) (Z.lnot (nPagePerSector - 1)) + 1 in
  let nPageCount := dbSize p in
  let nPage := if nPageCount <? pgno then pgno - pg1 + 1
               else if nPageCount <? pg1 + nPagePerSector - 1 then nPageCount + 1 - pg1
               else nPagePerSector in
  do! (rc, sync, p) := write_sector (Z.to_nat nPage) p pgno pg1 false in
  let p := if (rc =? SQLITE_OK) && sync then mark_sector (Z.to_nat nPage) p pg1 else p in
  DRet (rc, set_doNotSpill p (Z.land (doNotSpill p) (Z.lnot SPILLFLAG_NOSYNC))).

Definition sqlite3PagerWrite (p : Pager) (pgno : Z) : prog (Z * Pager) :=
  if page_flag p pgno writeable && (pgno <=? dbSize p) then DRet (SQLITE_OK, p)
  else if negb (errCode p =? SQLITE_OK) then DRet (errCode p, p)
  else if pageSize p <? sectorSize p then pagerWriteLargeSector p pgno
  else pager_write p pgno.

(** ** Writing the database file *)

Definition pager_write_changecounter (p : Pager) (d : list Z) : list Z :=
  let change_counter := u32 (sqlite3Get4byte (dbFileVers p) + 1) in
  fwrite (fwrite (fwrite d 24 (sqlite3Put4byte change_counter)) 92 (sqlite3Put4byte change_counter)) 96 (sqlite3Put4byte SQLITE_VERSION_NUMBER).

Definition pager_incr_changecounter (p : Pager) : prog (Z * Pager) :=
  if negb (changeCountDone p) && (0 <? dbSize p) then
    do! (rc, p) := sqlite3PagerGet p 1 in
    do! (rc, p) := (if rc =? SQLITE_OK then sqlite3PagerWrite p 1 else DRet (rc, p)) in
    if rc =? SQLITE_OK then
      DRet (rc, set_changeCountDone (upd_page p 1 (fun g => set_pData g (pager_write_changecounter p (pData g)))) true)
    else DRet (rc, p)
  else DRet (SQLITE_OK, p).

Definition sqlite3PagerExclusiveLock (p : Pager) : prog (Z * Pager) :=
  if negb (errCode p =? SQLITE_OK) then DRet (errCode p, p) else pager_wait_on_lock p EXCLUSIVE_LOCK.

(** Removes a header of an older transaction that follows: the code, whether [syncJournal] ends. *)
Definition zero_next_header (p : Pager) : prog (Z * bool) :=
  let iNextHdrOffset := journalHdrOffset p in
  do! (rc, aMagic) := os (OsRead FJrnl 8 iNextHdrOffset) in
  do! rc := (if (rc =? SQLITE_OK) && bool_decide (aMagic = aJournalMagic) then os (OsWrite FJrnl [0] iNextHdrOffset) else DRet rc) in
  DRet (rc, negb (rc =? SQLITE_OK) && negb (rc =? SQLITE_IOERR_SHORT_READ)).

(** The number of records goes into the header once the records are safe. *)
Definition write_nRec (p : Pager) : prog Z :=
  if Z.land (iDc cf) SQLITE_IOCAP_SAFE_APPEND =? 0 then
    do! (rc, stop) := zero_next_header p in
    if stop : bool then DRet rc
    else
      do! rc := (if fullSync cf && (Z.land (iDc cf) SQLITE_IOCAP_SEQUENTIAL =? 0) then os (OsSync FJrnl (syncFlags cf)) else DRet SQLITE_OK) in
      if negb (rc =? SQLITE_OK) then DRet rc
      else os (OsWrite FJrnl (aJournalMagic ++ sqlite3Put4byte (nRec p)) (journalHdr p))
  else DRet SQLITE_OK.

(** The part of [syncJournal] for an open journal: the code, whether [syncJournal] returns it. *)
Definition sync_open_journal (p : Pager) (newHdr : bool) : prog (Z * Pager) :=
  do! rc := write_nRec p in
  if negb (rc =? SQLITE_OK) then DRet (rc, p)
  else
    do! rc := (if Z.land (iDc cf) SQLITE_IOCAP_SEQUENTIAL =? 0
               then os (OsSync FJrnl (Z.lor (syncFlags cf) (if syncFlags cf =? SQLITE_SYNC_FULL then SQLITE_SYNC_DATAONLY else 0)))
               else DRet SQLITE_OK) in
    if negb (rc =? SQLITE_OK) then DRet (rc, p)
    else
      let p := set_journalHdr p (journalOff p) in
      if newHdr && (Z.land (iDc cf) SQLITE_IOCAP_SAFE_APPEND =? 0) then writeJournalHdr (set_nRec p 0)
      else DRet (SQLITE_OK, p).

Definition syncJournal (p : Pager) (newHdr : bool) : prog (Z * Pager) :=
  do! (rc, p) := sqlite3PagerExclusiveLock p in
  if negb (rc =? SQLITE_OK) then DRet (rc, p)
  else
    do! (rc, p) := (if negb (noSync cf) then
                      if jfd p && negb (journalMode cf =? PAGER_JOURNALMODE_MEMORY) then sync_open_journal p newHdr
                      else DRet (SQLITE_OK, set_journalHdr p (journalOff p))
                    else DRet (SQLITE_OK, p)) in
    if negb (rc =? SQLITE_OK) then DRet (rc, p)
    else DRet (SQLITE_OK, set_eState (set_pcache p (sqlite3PcacheClearSyncFlags (pcache p))) PAGER_WRITER_DBMOD).

(** [while( rc==SQLITE_OK && pList )] *)
Fixpoint write_pages (p : Pager) (pList : list Z) : prog (Z * Pager) :=
  match pList with
  | [] => DRet (SQLITE_OK, p)
  | pgno :: pList =>
      if pgno <=? dbSize p then
        let p := if pgno =? 1 then upd_page p 1 (fun g => set_pData g (pager_write_changecounter p (pData g))) else p in
        let d := page_data p pgno in
        do! rc := os (OsWrite FDb d ((pgno - 1) * pageSize p)) in
        let p := if pgno =? 1 then set_dbFileVers p (fread d 24 16) else p in
        let p := if dbFileSize p <? pgno then set_dbFileSize p pgno else p in
        if rc =? SQLITE_OK then write_pages p pList else DRet (rc, p)
      else write_pages p pList
  end.

Definition pager_write_pagelist (p : Pager) (pList : list Z) : prog (Z * Pager) :=
  do! p := (match pList with
            | pgno :: l =>
                if (dbHintSize p <? dbSize p) && (negb (bool_decide (l = [])) || (dbHintSize p <? pgno)) then
                  do! _ := os OsFileControl in DRet (set_dbHintSize p (dbSize p))
                else DRet p
            | [] => DRet p
            end) in
  write_pages p pList.

Definition pagerStress (p : Pager) (pgno : Z) : prog (Z * Pager) :=
  if negb (errCode p =? SQLITE_OK) then DRet (SQLITE_OK, p)
  else if negb (doNotSpill p =? 0) && (negb (Z.land (doNotSpill p) (Z.lor SPILLFLAG_ROLLBACK SPILLFLAG_OFF) =? 0) || page_flag p pgno needSync)
  then DRet (SQLITE_OK, p)
  else
    do! (rc, p) := (if page_flag p pgno needSync || (eState p =? PAGER_WRITER_CACHEMOD) then syncJournal p true else DRet (SQLITE_OK, p)) in
    do! (rc, p) := (if rc =? SQLITE_OK then pager_write_pagelist p [pgno] else DRet (rc, p)) in
    let p := if rc =? SQLITE_OK then upd_page p pgno sqlite3PcacheMakeClean else p in
    DRet (rc, pager_error p rc).

(** ** Committing *)

(** With no super-journal, and [noSync] 0. *)
Definition sqlite3PagerCommitPhaseOne (p : Pager) : prog (Z * Pager) :=
  if negb (errCode p =? SQLITE_OK) then DRet (errCode p, p)
  else if eState p <? PAGER_WRITER_CACHEMOD then DRet (SQLITE_OK, p)
  else
    do! (rc, p) := pager_incr_changecounter p in
    if negb (rc =? SQLITE_OK) then DRet (rc, p)
    else
      do! (rc, p) := syncJournal p false in
      if negb (rc =? SQLITE_OK) then DRet (rc, p)
      else
        do! (rc, p) := pager_write_pagelist p (sqlite3PcacheDirtyList (pcache p)) in
        if negb (rc =? SQLITE_OK) then DRet (rc, p)
        else
          let p := set_pcache p (sqlite3PcacheCleanAll (pcache p)) in
          do! (rc, p) := (if dbFileSize p <? dbSize p then pager_truncate p (dbSize p - (if dbSize p =? PAGER_SJ_PGNO p then 1 else 0))
                          else DRet (SQLITE_OK, p)) in
          if negb (rc =? SQLITE_OK) then DRet (rc, p)
          else
            do! rc := sqlite3PagerSync p in
            DRet (rc, if rc =? SQLITE_OK then set_eState p PAGER_WRITER_FINISHED else p).

Definition sqlite3PagerCommitPhaseTwo (p : Pager) : prog (Z * Pager) :=
  if negb (errCode p =? SQLITE_OK) then DRet (errCode p, p)
  else if (eState p =? PAGER_WRITER_LOCKED) && exclusiveMode cf && (journalMode cf =? PAGER_JOURNALMODE_PERSIST)
  then DRet (SQLITE_OK, set_eState p PAGER_READER)
  else
    do! (rc, p) := pager_end_transaction p (setSuper p) true in
    DRet (rc, pager_error p rc).

(** ** A connection *)

(** What the b-tree above asks for while it writes: reading a page, writing it; and what the
    page cache does by itself: a page that is dirty is spilled, one that is clean leaves. *)
Inductive action :=
  | AGet (pgno : Z)
  | AWrite (pgno : Z) (d : list Z)
  | AStress (pgno : Z)
  | AEvict (pgno : Z).

Definition run_action (p : Pager) (log : list event) (a : action) : prog (Pager * list event) :=
  match a with
  | AGet q =>
      do! (rc, p) := sqlite3PagerGet p q in
      DRet (p, if rc =? SQLITE_OK then log ++ [EGet q (page_data p q)] else log)
  | AWrite q d =>
      do! (rc, p) := sqlite3PagerGet p q in
      if negb (rc =? SQLITE_OK) then DRet (p, log)
      else
        do! (rc, p) := sqlite3PagerWrite p q in
        if negb (rc =? SQLITE_OK) then DRet (p, log)
        else DRet (upd_page p q (fun g => set_pData g d), log ++ [EWrite q d])
  | AStress q =>
      if page_flag p q dirty && negb (q =? 1) then do! (_, p) := pagerStress p q in DRet (p, log)
      else DRet (p, log)
  | AEvict q => DRet (if page_flag p q dirty || (q =? 1) then p else set_pcache p (delete q (pcache p)), log)
  end.

Fixpoint run_actions (p : Pager) (log : list event) (acts : list action) : prog (Pager * list event) :=
  match acts with
  | [] => DRet (p, log)
  | a :: acts => do! (p, log) := run_action p log a in run_actions p log acts
  end.

(** Starting to read: the lock, and page 1. *)
Definition start_reading (p : Pager) : prog (Z * Pager) :=
  do! (rc, p) := sqlite3PagerSharedLock p in
  if negb (rc =? SQLITE_OK) then DRet (rc, p)
  else
    do! (rc, p) := sqlite3PagerGet p 1 in
    DRet (rc, if rc =? SQLITE_OK then set_ref1 p true else p).

(** Both phases of a commit, or rolling back when the first one fails. *)
Definition commit (p : Pager) : prog (Z * Pager) :=
  do! (rc, p) := sqlite3PagerCommitPhaseOne p in
  if rc =? SQLITE_OK then sqlite3PagerCommitPhaseTwo p
  else
    do! (_, p) := sqlite3PagerRollback p in
    DRet (rc, p).

(** The outcome of a transaction: it did not start; it was committed or rolled back with a code. *)
Inductive outcome := NotStarted (rc : Z) | Committed (rc : Z) (log : list event) | RolledBack (rc : Z) (log : list event).

(** A connection: it starts to read, writes, commits or rolls back, and lets go of the database. *)
Definition transaction (p : Pager) (exFlag : bool) (acts : list action) (do_commit : bool) : prog (outcome * Pager) :=
  do! (rc, p) := start_reading p in
  if negb (rc =? SQLITE_OK) then DRet (NotStarted rc, p)
  else
    do! (rc, p) := sqlite3PagerBegin p exFlag in
    do! (r, p) := (if negb (rc =? SQLITE_OK) then DRet (NotStarted rc, p)
                   else
                     do! (p, log) := run_actions p [] acts in
                     if do_commit : bool then do! (rc, p) := commit p in DRet (Committed rc log, p)
                     else do! (rc, p) := sqlite3PagerRollback p in DRet (RolledBack rc log, p)) in
    do! p := pagerUnlockAndRollback (set_ref1 p false) in
    DRet (r, p).

End pager.
