(* ===== verification/Journal.v ===== *)
(** * The format of the rollback journal and what it protects (pager.c of sqlite3.c)

    A journal is a chain of segments: a header in a sector of its own, and the records that the
    header counts.  [hot] is a journal that holds original pages of a database, [covers] says
    that it holds every page that a file lost, and [Recoverable] that whatever a loss of power
    leaves, the file and its journal stand for one of some databases. *)

From S2P Require Import Prelude Bitwise Varint UnixFile Disk Pager.
From stdpp Require Import options.

(** A record of a journal: a page number and a page. *)
Definition jrec : Type := Z * list Z.

(** The records of a segment, and the value its checksums start from. *)
Definition segment : Type := Z * list jrec.

Lemma get4byte_put4byte v : 0 <= v < 2 ^ 32 -> sqlite3Get4byte (sqlite3Put4byte v) = v.
Proof. intros H. rewrite <- (app_nil_r (sqlite3Put4byte v)). by apply put4_get4. Qed.

Lemma fread_app_l a b o n : 0 <= o -> 0 <= n -> o + n <= zlen a -> fread (a ++ b) o n = fread a o n.
Proof.
  intros Ho Hn H. pose proof (zlen_nonneg b). apply fread_ext; try lia; [rewrite zlen_app; lia|].
  intros i Hi. rewrite zat_app_if by lia. by rewrite (proj2 (Z.ltb_lt _ _)) by lia.
Qed.

Lemma fread_app_r a b o n : zlen a <= o -> fread (a ++ b) o n = fread b (o - zlen a) n.
Proof.
  intros H. pose proof (zlen_nonneg a). unfold fread. f_equal. replace o with (zlen a + (o - zlen a)) at 1 by lia.
  rewrite <- zdrop_zdrop by lia. by rewrite zdrop_app.
Qed.

Lemma fread_all c : fread c 0 (zlen c) = c.
Proof. unfold fread, zdrop, zlen. change (Z.to_nat 0) with 0%nat. rewrite drop_0, Nat2Z.id. apply take_ge. lia. Qed.

Section journal.
Context (P S : Z) (Hsz : sizes_ok P S = true).

Lemma sizes : 512 <= P <= 65536 /\ 32 <= S <= 65536.
Proof using Hsz. unfold sizes_ok, SQLITE_MAX_PAGE_SIZE, MAX_SECTOR_SIZE in Hsz. breflect. lia. Qed.

Definition lockpage : Z := PENDING_BYTE / P + 1.

Definition jcksum (ck : Z) (d : list Z) : Z := cksum_loop (Z.to_nat P) d (P - 200) ck.

Definition hdr_bytes (n ck N : Z) : list Z :=
  aJournalMagic ++ sqlite3Put4byte n ++ sqlite3Put4byte ck ++ sqlite3Put4byte N ++ sqlite3Put4byte S ++ sqlite3Put4byte P.

Definition rec_bytes (ck : Z) (r : jrec) : list Z := sqlite3Put4byte r.1 ++ r.2 ++ sqlite3Put4byte (jcksum ck r.2).
Definition recs_bytes (ck : Z) (rs : list jrec) : list Z := concat (map (rec_bytes ck) rs).

Definition rec_ok (r : jrec) : Prop := 0 < r.1 < 2 ^ 32 /\ r.1 <> lockpage /\ zlen r.2 = P.

(** The first sector boundary from [x] on, and the end of the records of a segment at [off]. *)
Definition hup (x : Z) : Z := if x =? 0 then 0 else ((x - 1) / S + 1) * S.
Definition seg_end (off : Z) (rs : list jrec) : Z := off + S + zlen rs * (P + 8).

(** A complete segment at [off], of a database of [N] pages. *)
Record seg_at (c : list Z) (off N : Z) (sg : segment) : Prop := {
  sa_len : off + S <= zlen c;
  sa_hdr : fread c off 28 = hdr_bytes (zlen sg.2) sg.1 N;
  sa_recs : fread c (off + S) (zlen sg.2 * (P + 8)) = recs_bytes sg.1 sg.2;
  sa_ok : Forall rec_ok sg.2;
  sa_n : zlen sg.2 < 0xffffffff;
  sa_ck : 0 <= sg.1 < 2 ^ 32
}.

Fixpoint chain (c : list Z) (off N : Z) (segs : list segment) : Prop :=
  match segs with
  | [] => True
  | sg :: segs => seg_at c off N sg /\ chain c (hup (seg_end off sg.2)) N segs
  end.

(** Where the header after the segments would be, and where their data ends. *)
Fixpoint next_off (off : Z) (segs : list segment) : Z :=
  match segs with
  | [] => off
  | sg :: segs => next_off (hup (seg_end off sg.2)) segs
  end.
Fixpoint data_end (off : Z) (segs : list segment) : Z :=
  match segs with
  | [] => off
  | [sg] => seg_end off sg.2
  | sg :: segs => data_end (hup (seg_end off sg.2)) segs
  end.

Definition all_recs (segs : list segment) : list jrec := concat (map snd segs).

(** *** Sizes and positions *)

Lemma jcksum_range ck d : 0 <= jcksum ck d < 2 ^ 32.
Proof using Hsz.
  pose proof sizes as [HP _]. unfold jcksum. destruct (Z.to_nat P) as [|n] eqn:E; [lia|]. cbn [cksum_loop].
  rewrite (proj2 (Z.ltb_lt 0 (P - 200))) by lia. generalize (P - 200 - 200) as i. assert (0 <= u32 (ck + zat d (P - 200)) < 2 ^ 32) as H0 by (apply wrapu_range; lia).
  revert H0. generalize (u32 (ck + zat d (P - 200))) as x. clear E. induction n as [|n IH]; intros x Hx i; cbn [cksum_loop]; [done|].
  case_if; [|done]. apply IH. apply wrapu_range. lia.
Qed.

Lemma zlen_rec_bytes ck r : rec_ok r -> zlen (rec_bytes ck r) = P + 8.
Proof using. intros (_ & _ & H). unfold rec_bytes. rewrite !zlen_app, !zlen_put4. lia. Qed.

Lemma zlen_recs_bytes ck rs : Forall rec_ok rs -> zlen (recs_bytes ck rs) = zlen rs * (P + 8).
Proof using.
  induction 1 as [|r rs Hr _ IH]; [done|]. unfold recs_bytes in *. cbn [map concat]. rewrite zlen_app, zlen_rec_bytes, IH, zlen_cons by done. lia.
Qed.

Lemma zlen_hdr_bytes n ck N : zlen (hdr_bytes n ck N) = 28.
Proof using. done. Qed.

Lemma hup_ge x : 0 <= x -> x <= hup x < x + S.
Proof using Hsz.
  pose proof sizes. intros Hx. unfold hup. case_if; [lia|]. pose proof (Z.div_mod (x - 1) S ltac:(lia)). pose proof (Z.mod_pos_bound (x - 1) S ltac:(lia)). nia.
Qed.

Lemma hup_mult x : exists k, 0 <= x -> 0 <= k /\ hup x = k * S.
Proof using Hsz.
  pose proof sizes. unfold hup. case_if; [exists 0; lia|]. exists ((x - 1) / S + 1). intros Hx. split; [|done].
  pose proof (Z.div_pos (x - 1) S). lia.
Qed.

Lemma hup_id k : 0 <= k -> hup (k * S) = k * S.
Proof using Hsz.
  pose proof sizes. intros Hk. unfold hup. case_if; [lia|]. f_equal. assert (0 < k) by nia.
  replace (k * S - 1) with ((k - 1) * S + (S - 1)) by lia. rewrite Z.div_add_l by lia. rewrite Z.div_small by lia. lia.
Qed.

Lemma seg_end_nil off : seg_end off [] = off + S.
Proof using. unfold seg_end, zlen. cbn. lia. Qed.

Lemma seg_end_ge off rs : 0 <= off -> off + S <= seg_end off rs.
Proof using Hsz. pose proof sizes. pose proof (zlen_nonneg rs). unfold seg_end. nia. Qed.

Lemma next_off_mult k segs : 0 <= k -> exists k', k <= k' /\ next_off (k * S) segs = k' * S.
Proof using Hsz.
  pose proof sizes. revert k. induction segs as [|sg segs IH]; intros k Hk; cbn [next_off]; [by exists k|].
  pose proof (seg_end_ge (k * S) sg.2 ltac:(nia)). destruct (hup_mult (seg_end (k * S) sg.2)) as (k1 & Hk1).
  destruct Hk1 as [Hk1 E]; [nia|]. pose proof (hup_ge (seg_end (k * S) sg.2) ltac:(nia)). rewrite E in *.
  destruct (IH k1 Hk1) as (k' & Hk' & E'). exists k'. split; [nia|done].
Qed.

Lemma data_end_cons off sg segs : data_end off (sg :: segs) = if decide (segs = []) then seg_end off sg.2 else data_end (hup (seg_end off sg.2)) segs.
Proof using. by destruct segs. Qed.

Lemma data_end_ge off segs : 0 <= off -> off <= data_end off segs /\ (segs <> [] -> off + S <= data_end off segs).
Proof using Hsz.
  pose proof sizes. revert off. induction segs as [|sg segs IH]; intros off Ho; [cbn; split; [lia|done]|].
  rewrite data_end_cons. pose proof (seg_end_ge off sg.2 Ho). destruct (decide _); [lia|].
  pose proof (hup_ge (seg_end off sg.2) ltac:(lia)). destruct (IH (hup (seg_end off sg.2)) ltac:(lia)). lia.
Qed.

Lemma next_off_data k segs : 0 <= k -> next_off (k * S) segs = hup (data_end (k * S) segs).
Proof using Hsz.
  pose proof sizes. revert k. induction segs as [|sg segs IH]; intros k Hk; [cbn; by rewrite hup_id|].
  cbn [next_off]. rewrite data_end_cons. pose proof (seg_end_ge (k * S) sg.2 ltac:(nia)). destruct (decide (segs = [])) as [->|]; [done|].
  destruct (hup_mult (seg_end (k * S) sg.2)) as (k1 & Hk1). destruct Hk1 as [Hk1 E]; [nia|]. rewrite E. by apply IH.
Qed.

Lemma next_off_pos segs : segs <> [] -> 0 < next_off (0 * S) segs.
Proof using Hsz.
  pose proof sizes. intros Hne. rewrite next_off_data by lia. destruct (data_end_ge (0 * S) segs ltac:(lia)) as [_ H1]. specialize (H1 Hne).
  pose proof (hup_ge (data_end (0 * S) segs) ltac:(lia)). lia.
Qed.

Lemma next_off_app off segs1 segs2 : next_off off (segs1 ++ segs2) = next_off (next_off off segs1) segs2.
Proof using. revert off. induction segs1 as [|sg segs1 IH]; intros off; [done|]. apply IH. Qed.

Lemma data_end_app off segs sg : data_end off (segs ++ [sg]) = seg_end (next_off off segs) sg.2.
Proof using.
  revert off. induction segs as [|sg' segs IH]; intros off; [done|]. cbn [app next_off]. rewrite data_end_cons.
  destruct (decide _) as [E|_]; [by destruct segs|]. apply IH.
Qed.

Lemma chain_app c off N segs1 segs2 : chain c off N (segs1 ++ segs2) <-> chain c off N segs1 /\ chain c (next_off off segs1) N segs2.
Proof using. revert off. induction segs1 as [|sg segs1 IH]; intros off; cbn [app chain next_off]; [tauto|]. rewrite IH. tauto. Qed.

Lemma all_recs_app segs1 segs2 : all_recs (segs1 ++ segs2) = all_recs segs1 ++ all_recs segs2.
Proof using. unfold all_recs. by rewrite map_app, concat_app. Qed.

(** *** What keeps a segment *)

Lemma seg_at_ext c c' off N sg : 0 <= off -> seg_at c off N sg ->
  off + S <= zlen c' -> fread c' off 28 = fread c off 28 ->
  fread c' (off + S) (zlen sg.2 * (P + 8)) = fread c (off + S) (zlen sg.2 * (P + 8)) -> seg_at c' off N sg.
Proof using. intros Ho [H1 H2 H3 H4 H5 H6] Hl E1 E2. split; try done; congruence. Qed.

Lemma seg_at_end c off N sg : 0 <= off -> seg_at c off N sg -> seg_end off sg.2 <= zlen c.
Proof using Hsz.
  pose proof sizes. intros Ho [H1 _ H3 H4 _ _]. unfold seg_end. pose proof (zlen_nonneg sg.2).
  destruct (decide (zlen sg.2 = 0)) as [E|E]; [rewrite E; lia|]. apply (f_equal zlen) in H3. rewrite zlen_recs_bytes in H3 by done.
  apply zlen_fread_full in H3; [lia..|nia].
Qed.

Lemma chain_data_end c off N segs : 0 <= off -> chain c off N segs -> segs <> [] -> data_end off segs <= zlen c.
Proof using Hsz.
  revert off. induction segs as [|sg segs IH]; intros off Ho; [done|]. intros [H1 H2] _. rewrite data_end_cons. pose proof (seg_at_end c off N sg Ho H1).
  destruct (decide _) as [|Hne]; [done|]. pose proof (seg_end_ge off sg.2 Ho). pose proof sizes. pose proof (hup_ge (seg_end off sg.2) ltac:(lia)). apply IH; [lia|done|done].
Qed.

(** A change after the end of the data. *)
Lemma chain_frame c c' off N segs : 0 <= off -> chain c off N segs ->
  (forall o n, off <= o -> 0 <= n -> o + n <= data_end off segs -> fread c' o n = fread c o n) -> (segs <> [] -> data_end off segs <= zlen c') -> chain c' off N segs.
Proof using Hsz.
  pose proof sizes. revert off. induction segs as [|sg segs IH]; intros off Ho; [done|]. intros [H1 H2] Hf Hl. rewrite data_end_cons in Hf, Hl.
  pose proof (seg_end_ge off sg.2 Ho) as Hge. pose proof (zlen_nonneg sg.2).
  pose proof (hup_ge (seg_end off sg.2) ltac:(lia)) as Hh.
  assert (seg_end off sg.2 <= if decide (segs = []) then seg_end off sg.2 else data_end (hup (seg_end off sg.2)) segs) as Hd.
  { destruct (decide _); [lia|]. pose proof (data_end_ge (hup (seg_end off sg.2)) segs ltac:(lia)). lia. }
  specialize (Hl ltac:(done)). split.
  - apply (seg_at_ext c); [done|done| | |]; [lia|apply Hf; lia|].
    apply Hf; [lia|nia|]. change (seg_end off sg.2 <= (if decide (segs = []) then seg_end off sg.2 else data_end (hup (seg_end off sg.2)) segs)). exact Hd.
  - destruct segs as [|sg' segs]; [done|]. destruct (decide _) as [|_]; [done|]. apply IH; [lia|done| |done].
    intros o n H3 H4 H5. apply Hf; lia.
Qed.

(** *** What survives of a chain *)

Lemma seg_at_survives cs b off N sg : 0 <= off -> survives S cs b -> (forall c, c ∈ cs -> seg_at c off N sg) -> seg_at b off N sg.
Proof using Hsz.
  pose proof sizes. intros Ho Hs Hc. destruct (survives_zlen _ _ _ Hs) as (c0 & Hin & Hl). destruct (Hc c0 Hin) as [H1 H2 H3 H4 H5 H6].
  split; try done; [lia| |].
  - apply (survives_fread S ltac:(lia) cs b); try done. intros c Hc'. by destruct (Hc c Hc').
  - apply (survives_fread S ltac:(lia) cs b); try done; [lia|by apply zlen_recs_bytes|]. intros c Hc'. by destruct (Hc c Hc').
Qed.

Lemma chain_survives cs b off N segs : 0 <= off -> survives S cs b -> (forall c, c ∈ cs -> chain c off N segs) -> chain b off N segs.
Proof using Hsz.
  revert off. induction segs as [|sg segs IH]; intros off Ho Hs Hc; [done|]. split.
  - apply (seg_at_survives cs); try done. intros c Hin. by destruct (Hc c Hin).
  - pose proof (seg_end_ge off sg.2 Ho). pose proof sizes. pose proof (hup_ge (seg_end off sg.2) ltac:(lia)).
    apply IH; [lia|done|]. intros c Hin. by destruct (Hc c Hin).
Qed.

(** The last segment may be there or not, when its header was being written. *)
Lemma chain_survives_last cs b k N segs sg : 0 <= k -> survives S cs b ->
  (forall c, c ∈ cs -> chain c (k * S) N segs /\ ~ magic_at c (next_off (k * S) (segs ++ [sg]))) ->
  (forall c, c ∈ cs -> seg_end (next_off (k * S) segs) sg.2 <= zlen c /\
     fread c (next_off (k * S) segs + S) (zlen sg.2 * (P + 8)) = recs_bytes sg.1 sg.2 /\
     (magic_at c (next_off (k * S) segs) -> fread c (next_off (k * S) segs) 28 = hdr_bytes (zlen sg.2) sg.1 N)) ->
  Forall rec_ok sg.2 -> zlen sg.2 < 0xffffffff -> 0 <= sg.1 < 2 ^ 32 ->
  (chain b (k * S) N segs /\ ~ magic_at b (next_off (k * S) segs)) \/
  (chain b (k * S) N (segs ++ [sg]) /\ ~ magic_at b (next_off (k * S) (segs ++ [sg]))).
Proof using Hsz.
  pose proof sizes. intros Hk Hs Hc Hsg Hok Hn Hck. assert (chain b (k * S) N segs) as Hb.
  { apply (chain_survives cs); [nia|done|]. intros c Hin. apply (Hc c Hin). }
  destruct (next_off_mult k segs Hk) as (k1 & Hk1 & E1). destruct (next_off_mult k (segs ++ [sg]) Hk) as (k2 & Hk2 & E2). rewrite E1, E2 in *.
  destruct (survives_header S ltac:(lia) cs b k1 (hdr_bytes (zlen sg.2) sg.1 N)) as [Hm|Hm]; try done; [lia| | |by left|right].
  - intros c Hin. destruct (Hsg c Hin) as (H1 & _). pose proof (zlen_nonneg sg.2). unfold seg_end in H1. nia.
  - intros c Hin. by destruct (Hsg c Hin) as (_ & _ & H3).
  - split; [|rewrite <- E2; rewrite E2; apply (survives_nomagic S cs); [done|lia|]; intros c Hin; by destruct (Hc c Hin)].
    apply chain_app. split; [done|]. rewrite E1. cbn [chain]. split; [|done]. split; try done.
    + destruct (survives_zlen _ _ _ Hs) as (c0 & Hin & ->). destruct (Hsg c0 Hin) as (H1 & _). pose proof (zlen_nonneg sg.2). unfold seg_end in H1. nia.
    + apply (survives_fread S ltac:(lia) cs b); try done; [nia|by apply zlen_recs_bytes|]. intros c Hin. by destruct (Hsg c Hin) as (_ & H2 & _).
Qed.

(** ** Databases and what a journal has of them *)

Definition npages (img : list Z) : Z := zlen img / P.
Definition pageof (c : list Z) (q : Z) : list Z := fread c ((q - 1) * P) P.

(** A database: whole pages, at least one. *)
Definition image_ok (img : list Z) : Prop := zlen img = npages img * P /\ 1 <= npages img < 0xffffffff.

(** A record with the original of a page. *)
Definition rec_of (img : list Z) (r : jrec) : Prop := rec_ok r /\ r.1 <= npages img /\ r.2 = pageof img r.1.

Definition hot (img j : list Z) (rs : list jrec) : Prop :=
  exists segs, segs <> [] /\ chain j 0 (npages img) segs /\ ~ magic_at j (next_off 0 segs) /\ rs = all_recs segs /\ Forall (rec_of img) rs.

(** Every page that is not in the journal is in the file. *)
Definition covers (img : list Z) (rs : list jrec) (c : list Z) : Prop :=
  0 < zlen c /\ forall q, 1 <= q <= npages img -> q ∉ map fst rs -> pageof c q = pageof img q.

(** The database that a journal and a file stand for. *)
Definition stands (img : list Z) (j : option (list Z)) (b : list Z) : Prop :=
  match j with
  | Some c => if decide (magic_at c 0) then exists rs, hot img c rs /\ covers img rs b else b = img
  | None => b = img
  end.

(** The journal, as it is now, is one to roll back. *)
Definition jrnl_hot (d : disk) : Prop := magic_at (now d FJrnl) 0.

#[export] Instance jrnl_hot_dec d : Decision (jrnl_hot d).
Proof using. unfold jrnl_hot. apply _. Defined.

(** As long as the power stays the disk stands for [img], and whatever a loss of power leaves of it
    stands for one of [A]. *)
Record Recoverable (A : list (list Z)) (img : list Z) (d : disk) : Prop := {
  rc_loss : forall j b, jrnl_survives S d j -> survives S (v_all (d_db d)) b -> exists i, i ∈ A /\ stands i j b;
  rc_now : if decide (jrnl_hot d)
           then d_gone d = [] /\ exists rs, hot img (now d FJrnl) rs /\ forall c, c ∈ v_all (d_db d) -> covers img rs c
           else (forall c, c ∈ v_all (d_db d) -> c = img) /\ (forall v c, d_jrnl d = Some v -> c ∈ v_all v -> ~ magic_at c 0);
  rc_images : forall i, i ∈ A -> image_ok i;
  rc_in : img ∈ A;
  rc_plain : plain (now d FJrnl)
}.

(** Journals that the directory may still show. *)
Definition gone_ok (A : list (list Z)) (img : list Z) (g : list (option versions)) : Prop :=
  forall j, match j with None => None ∈ g | Some b => exists v, Some v ∈ g /\ survives S (v_all v) b /\ plain b end ->
    exists i, i ∈ A /\ stands i j img.

Lemma zlen_pageof img q : image_ok img -> 1 <= q <= npages img -> zlen (pageof img q) = P.
Proof using Hsz. pose proof sizes. intros [H1 H2] Hq. apply zlen_fread_full; [nia..|]. nia. Qed.

Lemma zlen_pageof_inv c q : 1 <= q -> zlen (pageof c q) = P -> q * P <= zlen c.
Proof using Hsz. pose proof sizes. intros Hq H1. apply zlen_fread_full in H1; [|nia..]. lia. Qed.

Lemma survives_all cs c b : c ∈ cs -> (forall c', c' ∈ cs -> c' = c) -> survives S cs b -> b = c.
Proof using Hsz.
  pose proof sizes. intros Hin Hc Hs. destruct (survives_zlen _ _ _ Hs) as (c0 & Hin0 & Hl). rewrite (Hc c0 Hin0) in Hl.
  rewrite <- (fread_all b), <- (fread_all c), Hl. apply (survives_fread S ltac:(lia) cs b); [done|lia| |].
  - rewrite fread_all. done.
  - intros c' Hc'. by rewrite (Hc c' Hc').
Qed.

Lemma covers_survives img rs cs b : image_ok img -> survives S cs b -> (forall c, c ∈ cs -> covers img rs c) -> covers img rs b.
Proof using Hsz.
  pose proof sizes. intros Hi Hs Hc. split.
  - destruct (survives_zlen _ _ _ Hs) as (c0 & Hin0 & ->). apply (Hc c0 Hin0).
  - intros q Hq Hn. apply (survives_fread S ltac:(lia) cs b); [done|nia|by apply zlen_pageof|]. intros c Hin. by apply (Hc c Hin).
Qed.

Lemma covers_self img rs : image_ok img -> covers img rs img.
Proof using Hsz. pose proof sizes. intros [H1 H2]. split; [nia|done]. Qed.

Lemma covers_sub img rs rs' c : (forall q, q ∈ map fst rs -> q ∈ map fst rs') -> covers img rs c -> covers img rs' c.
Proof using. intros Hs [H1 H2]. split; [done|]. intros q Hq Hn. apply H2; auto. Qed.

Lemma hot_magic img j rs : hot img j rs -> magic_at j 0.
Proof using.
  intros (segs & Hne & Hc & _). destruct segs as [|sg segs]; [done|]. destruct Hc as [[_ Hh _ _ _ _] _].
  unfold magic_at. change (fread j 0 8) with (fread j (0 + 0) 8). rewrite <- (fread_sub j 0 28 0 8), Hh by lia. done.
Qed.

Lemma stands_hot img j rs b : hot img j rs -> covers img rs b -> stands img (Some j) b.
Proof using. intros H1 H2. cbn. rewrite decide_True by (by apply (hot_magic img j rs)). by exists rs. Qed.

Lemma stands_cold img j : ~ magic_at j 0 -> stands img (Some j) img.
Proof using. intros H. cbn. by rewrite decide_False. Qed.

Lemma nomagic_nil o : ~ magic_at [] o.
Proof using. unfold magic_at, fread, zdrop. rewrite drop_nil, take_nil. done. Qed.

(** A disk whose database was not touched since the journal was started. *)
Lemma recoverable_cold A img d : image_ok img -> (forall i, i ∈ A -> image_ok i) -> img ∈ A -> plain (now d FJrnl) ->
  (forall c, c ∈ v_all (d_db d) -> c = img) -> (forall v c, d_jrnl d = Some v -> c ∈ v_all v -> ~ magic_at c 0) ->
  gone_ok A img (d_gone d) -> Recoverable A img d.
Proof using Hsz.
  intros Hi HA Hin Hp Hdb Hj Hg. assert (v_now (d_db d) = img) as Hnow by (apply Hdb; left).
  assert (forall b, survives S (v_all (d_db d)) b -> b = img) as Hb.
  { intros b Hb. rewrite <- Hnow. apply (survives_all (v_all (d_db d))); [left|intros c Hc; rewrite Hnow; by apply Hdb|done]. }
  split; try done.
  - intros j b Hs ->%Hb. destruct j as [b'|]; cbn [jrnl_survives] in Hs.
    + destruct Hs as (v & Hv & Hs & Hpl). apply elem_of_cons in Hv as [Hv|Hv].
      * exists img. split; [done|]. apply stands_cold. apply (survives_nomagic S (v_all v) b' 0); [done|lia|]. intros c Hc. rewrite Z.mul_0_l. by apply (Hj v).
      * apply (Hg (Some b')). by exists v.
    + apply elem_of_cons in Hs as [Hs|Hs]; [by exists img|by apply (Hg None)].
  - rewrite decide_False; [done|]. unfold jrnl_hot, now, file_of. destruct (d_jrnl d) as [v|]; [|apply nomagic_nil]. apply (Hj v); [done|left].
Qed.

(** A disk whose database may have been changed: every journal that may survive covers it. *)
Lemma recoverable_hot A img d v rs : image_ok img -> (forall i, i ∈ A -> image_ok i) -> img ∈ A -> plain (now d FJrnl) ->
  d_gone d = [] -> d_jrnl d = Some v ->
  (forall j, survives S (v_all v) j -> plain j -> exists rs', hot img j rs' /\ forall q, q ∈ map fst rs -> q ∈ map fst rs') ->
  (forall c, c ∈ v_all (d_db d) -> covers img rs c) -> Recoverable A img d.
Proof using Hsz.
  intros Hi HA Hin Hp Hg Hv Hj Hc. assert (now d FJrnl = v_now v) as En by (unfold now, file_of; by rewrite Hv). split; try done.
  - intros j b Hs Hb. exists img. split; [done|]. destruct j as [b'|]; cbn [jrnl_survives] in Hs; rewrite Hg, Hv in Hs.
    + destruct Hs as (v' & Hv' & Hs & Hpl). assert (v' = v) as -> by (by inversion Hv' as [? ? E|? ? ? E]; subst; [|inversion E]).
      destruct (Hj b' Hs Hpl) as (rs' & Hh & Hsub). apply (stands_hot img b' rs'); [done|].
      apply (covers_sub img rs); [done|]. by apply (covers_survives img rs (v_all (d_db d))).
    + inversion Hs as [? ? E|? ? ? E]; inversion E.
  - rewrite En in Hp. destruct (Hj (v_now v)) as (rs' & Hh & Hsub); [apply survives_now|done|]. rewrite decide_True; [|unfold jrnl_hot; rewrite En; by apply (hot_magic img _ rs')].
    split; [done|]. exists rs'. rewrite En. split; [done|]. intros c Hin'. apply (covers_sub img rs); [done|by apply Hc].
Qed.

(** The journal is deleted while the database is whole. *)
Lemma recoverable_gone A img d : Recoverable A img d -> (forall c, c ∈ v_all (d_db d) -> c = img) -> gone_ok A img (d_jrnl d :: d_gone d).
Proof using.
  intros HR Hdb j Hj. apply (rc_loss _ _ _ HR j img Hj). rewrite <- (Hdb (v_now (d_db d))) by left. apply survives_now.
Qed.

Lemma gone_ok_sub A img g g' : (forall x, x ∈ g' -> x ∈ g) -> gone_ok A img g -> gone_ok A img g'.
Proof using. intros Hs H j Hj. apply H. destruct j; [|auto]. destruct Hj as (v & Hv & Hr). exists v. auto. Qed.

Lemma gone_ok_nil A img : gone_ok A img [].
Proof using. intros [b|] Hj; [destruct Hj as (v & Hv & _)|]; by apply not_elem_of_nil in Hv || by apply not_elem_of_nil in Hj. Qed.

(** *** Writing the database file *)

Lemma pageof_fwrite c q q' d : 1 <= q -> 1 <= q' -> q <> q' -> zlen d <= P -> q * P <= zlen c -> pageof (fwrite c ((q' - 1) * P) d) q = pageof c q.
Proof using Hsz. pose proof sizes. intros Hq Hq' Hne Hd Hc. unfold pageof. apply fread_fwrite_other; [nia..|]. destruct (decide (q < q')); nia. Qed.

Lemma pageof_fwrite_eq c q d : 1 <= q -> zlen d = P -> pageof (fwrite c ((q - 1) * P) d) q = d.
Proof using Hsz. pose proof sizes. intros Hq Hd. unfold pageof. rewrite <- Hd at 3. apply fread_fwrite_eq. nia. Qed.

Lemma zlen_fwrite_ge c o d : 0 <= o -> zlen c <= zlen (fwrite c o d).
Proof using. intros Ho. destruct (decide (d = [])) as [->|]; [done|]. rewrite zlen_fwrite by done. lia. Qed.

(** A page of the journal, or one that is new, may be overwritten. *)
Lemma covers_fwrite img rs c q d : image_ok img -> covers img rs c -> 1 <= q -> zlen d <= P -> npages img < q \/ q ∈ map fst rs ->
  covers img rs (fwrite c ((q - 1) * P) d).
Proof using Hsz.
  pose proof sizes. intros Hi [H1 H2] Hq Hd Hor. split; [pose proof (zlen_fwrite_ge c ((q - 1) * P) d); nia|].
  intros q' Hq' Hn. pose proof (H2 q' Hq' Hn) as E. rewrite <- E. apply pageof_fwrite; try done; [lia|destruct Hor; [lia|by intros ->]|].
  apply zlen_pageof_inv; [lia|]. rewrite E. by apply zlen_pageof.
Qed.

(** A page may be written with what it was. *)
Lemma covers_fwrite_same img rs c q : image_ok img -> covers img rs c -> 1 <= q <= npages img -> covers img rs (fwrite c ((q - 1) * P) (pageof img q)).
Proof using Hsz.
  pose proof sizes. intros Hi [H1 H2] Hq. pose proof (zlen_pageof img q Hi Hq). split; [pose proof (zlen_fwrite_ge c ((q - 1) * P) (pageof img q)); nia|].
  intros q' Hq' Hn. destruct (decide (q' = q)) as [->|Hne]; [apply pageof_fwrite_eq; [lia|done]|].
  pose proof (H2 q' Hq' Hn) as E. rewrite <- E. apply pageof_fwrite; try done; [lia..|]. apply zlen_pageof_inv; [lia|]. rewrite E. by apply zlen_pageof.
Qed.

Lemma covers_fwrite_part img rs c q k : image_ok img -> covers img rs c -> 1 <= q <= npages img -> 0 <= k ->
  covers img rs (fwrite c ((q - 1) * P) (take (Z.to_nat k) (pageof img q))).
Proof using Hsz.
  pose proof sizes. intros Hi Hc Hq Hk0. assert (0 <= (q - 1) * P /\ (q - 1) * P + P = q * P) as [Ho0 Ho1] by nia.
  pose proof (zlen_pageof img q Hi Hq) as Hl. assert (zlen (take (Z.to_nat k) (pageof img q)) <= P) as Hk by (rewrite zlen_take_min; lia).
  destruct (decide (q ∈ map fst rs)) as [Hr|Hr]; [apply covers_fwrite; auto; lia|]. destruct Hc as [H1 H2].
  split; [pose proof (zlen_fwrite_ge c ((q - 1) * P) (take (Z.to_nat k) (pageof img q))); nia|]. intros q' Hq' Hn. pose proof (H2 q' Hq' Hn) as E.
  assert (q' * P <= zlen c) as Hlc by (apply zlen_pageof_inv; [lia|]; rewrite E; by apply zlen_pageof).
  destruct (decide (q' = q)) as [->|Hne]; [|rewrite <- E; apply pageof_fwrite; done || lia]. transitivity (pageof c q); [|done].
  pose proof (zlen_fwrite_ge c ((q - 1) * P) (take (Z.to_nat k) (pageof img q)) ltac:(lia)). apply fread_ext; [lia..|]. intros i Hi'. rewrite zat_fwrite by lia. case_if; [|done]. breflect.
  rewrite zlen_take_min in *. rewrite zat_take by lia. rewrite decide_True by lia. rewrite <- E. unfold pageof. rewrite zat_fread by lia. f_equal. lia.
Qed.

(** A page of the journal that is restored is covered by the rest of it. *)
Lemma covers_restore img r rs c : image_ok img -> rec_of img r -> covers img (r :: rs) c -> covers img rs (fwrite c ((r.1 - 1) * P) r.2).
Proof using Hsz.
  pose proof sizes. intros Hi ((Hr1 & _ & Hr2) & Hle & Hd) [H1 H2]. split; [pose proof (zlen_fwrite_ge c ((r.1 - 1) * P) r.2); nia|].
  intros q' Hq' Hn. destruct (decide (q' = r.1)) as [->|Hne].
  - rewrite pageof_fwrite_eq by (done || lia). done.
  - assert (pageof c q' = pageof img q') as E by (apply H2; [done|cbn; set_solver]). rewrite <- E.
    apply pageof_fwrite; try done; [lia..|]. apply zlen_pageof_inv; [lia|]. rewrite E. by apply zlen_pageof.
Qed.

(** Cutting the file to the size of the database. *)
Lemma covers_ftruncate img rs c : image_ok img -> covers img rs c -> covers img rs (ftruncate c (npages img * P)).
Proof using Hsz.
  pose proof sizes. intros Hi [H1 H2]. split; [rewrite zlen_ftruncate; destruct Hi; nia|]. intros q Hq Hn. pose proof (H2 q Hq Hn) as E.
  rewrite <- E. assert (q * P <= zlen c) as Hl by (apply zlen_pageof_inv; [lia|]; rewrite E; by apply zlen_pageof).
  apply fread_ftruncate; nia.
Qed.

(** A file that is too short lost its last page. *)
Lemma covers_short img rs c : image_ok img -> covers img rs c -> zlen c < npages img * P -> npages img ∈ map fst rs.
Proof using Hsz.
  pose proof sizes. intros Hi [H1 H2] Hl. destruct (decide (npages img ∈ map fst rs)) as [|Hn]; [done|]. destruct Hi as [Hi Hi2].
  pose proof (H2 (npages img) ltac:(lia) Hn) as E. assert (npages img * P <= zlen c); [|lia]. apply zlen_pageof_inv; [lia|]. rewrite E. by apply zlen_pageof; [|lia].
Qed.

(** Two files of whole pages with the same pages. *)
Lemma pages_ext n c1 c2 : 0 <= n -> zlen c1 = n * P -> zlen c2 = n * P -> (forall q, 1 <= q <= n -> pageof c1 q = pageof c2 q) -> c1 = c2.
Proof using Hsz.
  pose proof sizes. intros Hn H1 H2 Hp. apply zat_ext; [lia|]. intros i Hi. pose proof (Z.div_mod i P ltac:(lia)). pose proof (Z.mod_pos_bound i P ltac:(lia)).
  pose proof (Z.div_pos i P ltac:(lia) ltac:(lia)). specialize (Hp (i / P + 1) ltac:(nia)). apply (f_equal (fun l => zat l (i mod P))) in Hp. unfold pageof in Hp.
  replace (i / P + 1 - 1) with (i / P) in Hp by lia. rewrite !zat_fread in Hp by nia. replace (i / P * P + i mod P) with i in Hp by lia. done.
Qed.

Lemma covers_all img c : image_ok img -> covers img [] c -> zlen c <= npages img * P -> c = img.
Proof using Hsz.
  pose proof sizes. intros Hi Hc Hl. pose proof Hi as [Hi1 Hi2]. destruct (decide (zlen c < npages img * P)) as [Hlt|].
  { pose proof (covers_short img [] c Hi Hc Hlt) as Hin. cbn in Hin. by apply not_elem_of_nil in Hin. }
  apply (pages_ext (npages img)); [lia..|]. intros q Hq. apply Hc; [done|]. cbn. apply not_elem_of_nil.
Qed.
End journal.
