(* ===== verification/PagerPlay.v ===== *)
(** * Playing the rollback journal back (pager.c of sqlite3.c)

    The rules of the program logic for each file operation, and what the playback of a journal
    does: [loop_chain] for the segments of a known chain, [loop_any] for whatever bytes follow
    what was synced, which never reach the database file.  Both also show that the loops end. *)

From S2P Require Import Prelude Bitwise Varint UnixFile Disk Pager Journal.
From stdpp Require Import options.

Create HintDb pk discriminated.

(** *** Codes *)

(** A code that puts the pager in the error state. *)
Definition bad (rc : Z) : Prop := (Z.land rc 0xff =? SQLITE_FULL) || (Z.land rc 0xff =? SQLITE_IOERR) = true.

Lemma io_error_bad rc : io_error rc = true -> bad rc /\ rc <> SQLITE_IOERR_SHORT_READ.
Proof. unfold io_error, bad. intros H. breflect. split; [|done]. by rewrite orb_comm. Qed.

Lemma bad_ne rc : bad rc -> rc <> SQLITE_OK /\ rc <> SQLITE_DONE /\ rc <> NO_FUEL /\ rc <> SQLITE_BUSY.
Proof. unfold bad. intros H. split_and!; intros ->; cbn in H; done. Qed.

Lemma bad_short : bad SQLITE_IOERR_SHORT_READ.
Proof. done. Qed.

Lemma bad_ok rc : bad rc -> (rc =? SQLITE_OK) = false.
Proof. intros H. apply Z.eqb_neq. by apply bad_ne. Qed.

Lemma io_ok rc : io_error rc = true -> (rc =? SQLITE_OK) = false.
Proof. intros H. by apply bad_ok, io_error_bad. Qed.

Lemma io_done rc : io_error rc = true -> (rc =? SQLITE_DONE) = false.
Proof. intros H. apply Z.eqb_neq. by apply bad_ne, io_error_bad. Qed.

Lemma io_short rc : io_error rc = true -> (rc =? SQLITE_IOERR_SHORT_READ) = false.
Proof. intros H. apply Z.eqb_neq. by apply io_error_bad. Qed.

Ltac codes :=
  repeat match goal with
  | |- context [?x =? ?x] => rewrite (Z.eqb_refl x)
  | H : io_error ?rc = true |- context [?rc =? SQLITE_OK] => rewrite (io_ok rc H)
  | H : io_error ?rc = true |- context [?rc =? SQLITE_DONE] => rewrite (io_done rc H)
  | H : io_error ?rc = true |- context [?rc =? SQLITE_IOERR_SHORT_READ] => rewrite (io_short rc H)
  | H : bad ?rc |- context [?rc =? SQLITE_OK] => rewrite (bad_ok rc H)
  end; cbn [negb andb orb].

(** Runs what is left of a program without operations. *)
Ltac steps := repeat (progress (codes; cbn [dbind fst snd])).

Section rules.
Context (S : Z) (C : disk -> Prop).

Lemma wpc_ret {A} (a : A) (Q : A -> disk -> Prop) d : Q a d -> wpc S C (DRet a) Q d.
Proof using. done. Qed.

Ltac op_start E := intros ch r d' E; apply op_do_inv in E as [E ?]; cbn [op_file] in E; unfold answer in E.

Lemma wpc_FileSize f (Q : Z * Z -> disk -> Prop) d : C d -> Q (SQLITE_OK, zlen (now d f)) d ->
  (forall rc n, io_error rc = true -> Q (rc, n) d) -> wpc S C (os (OsFileSize f)) Q d.
Proof using.
  intros HC H1 H2. op_start E. case_match; [by simplify_eq|]. case_match; simplify_eq. split; [done|]. by apply H2.
Qed.

Lemma wpc_Read_any f amt off (Q : Z * list Z -> disk -> Prop) d : C d ->
  (zlen (fread (now d f) off amt) = amt -> Q (SQLITE_OK, fread (now d f) off amt) d) ->
  (zlen (fread (now d f) off amt) <> amt -> Q (SQLITE_IOERR_SHORT_READ, fread (now d f) off amt ++ repeat 0 (Z.to_nat (amt - zlen (fread (now d f) off amt)))) d) ->
  (forall rc, io_error rc = true -> Q (rc, []) d) -> wpc S C (os (OsRead f amt off)) Q d.
Proof using.
  intros HC H1 H2 H3. op_start E. case_match; [|case_match; simplify_eq; split; [done|by apply H3]].
  injection E as <- <-. split; [done|]. unfold os_read. cbv zeta. cbn [wpc]. case_if; auto.
Qed.

Lemma wpc_Read f amt off (Q : Z * list Z -> disk -> Prop) d : C d -> 0 <= off -> 0 < amt ->
  (off + amt <= zlen (now d f) -> Q (SQLITE_OK, fread (now d f) off amt) d) ->
  (zlen (now d f) < off + amt -> Q (SQLITE_IOERR_SHORT_READ, fread (now d f) off amt ++ repeat 0 (Z.to_nat (amt - zlen (fread (now d f) off amt)))) d) ->
  (forall rc, io_error rc = true -> Q (rc, []) d) -> wpc S C (os (OsRead f amt off)) Q d.
Proof using.
  intros HC Ho Ha H1 H2 H3. pose proof (zlen_fread_full (now d f) off amt Ho Ha). apply wpc_Read_any; try done; intros Hl; [apply H1; tauto|].
  apply H2. destruct (decide (off + amt <= zlen (now d f))); [tauto|lia].
Qed.

Lemma wpc_read32 f off (Q : Z * Z -> disk -> Prop) d : C d -> 0 <= off ->
  (off + 4 <= zlen (now d f) -> Q (SQLITE_OK, sqlite3Get4byte (fread (now d f) off 4)) d) ->
  (zlen (now d f) < off + 4 -> Q (SQLITE_IOERR_SHORT_READ, 0) d) ->
  (forall rc, io_error rc = true -> Q (rc, 0) d) -> wpc S C (read32bits f off) Q d.
Proof using.
  intros HC Ho H1 H2 H3. unfold read32bits. apply wpc_bind. apply wpc_Read; [done|done|lia| | |].
  - intros Hl. cbn [wpc]. rewrite Z.eqb_refl. by apply H1.
  - intros Hl. cbn [wpc]. by apply H2.
  - intros rc Hrc. cbn [wpc]. rewrite (io_ok rc Hrc). by apply H3.
Qed.

(** Reading a word that is known. *)
Lemma wpc_read32_known {A} f off v (K : Z * Z -> prog A) (Q : A -> disk -> Prop) d : C d -> 0 <= off -> 0 <= v < 2 ^ 32 ->
  fread (now d f) off 4 = sqlite3Put4byte v -> wpc S C (K (SQLITE_OK, v)) Q d -> (forall rc, io_error rc = true -> wpc S C (K (rc, 0)) Q d) ->
  wpc S C (dbind (read32bits f off) K) Q d.
Proof using.
  intros HC Ho Hv E H1 H2. apply wpc_bind. apply wpc_read32; try done.
  - intros _. rewrite E. by rewrite get4byte_put4byte.
  - intros Hl. destruct (zlen_fread_full (now d f) off 4 Ho ltac:(lia)) as [Hf _]. rewrite E in Hf. specialize (Hf eq_refl). lia.
Qed.

(** A write is done, or nothing or a part of it is. *)
Lemma wpc_Write f buf off v (Q : Z -> disk -> Prop) d : file_of d f = Some v -> C d ->
  (plain (now (set_file d f (put v (fwrite (v_now v) off buf))) FJrnl) ->
    C (set_file d f (put v (fwrite (v_now v) off buf))) /\ Q SQLITE_OK (set_file d f (put v (fwrite (v_now v) off buf)))) ->
  (forall rc, io_error rc = true -> Q rc d) ->
  (forall rc k, io_error rc = true -> 0 < k < zlen buf -> (off + k) mod S = 0 ->
    plain (now (set_file d f (put v (fwrite (v_now v) off (take (Z.to_nat k) buf)))) FJrnl) ->
    C (set_file d f (put v (fwrite (v_now v) off (take (Z.to_nat k) buf)))) /\ Q rc (set_file d f (put v (fwrite (v_now v) off (take (Z.to_nat k) buf))))) ->
  wpc S C (os (OsWrite f buf off)) Q d.
Proof using.
  intros Hv HC H1 H2 H3. intros ch r d' E. apply op_do_inv in E as [E Hp]. cbn [op_file] in E. unfold answer in E. rewrite Hv in E.
  case_match; [simplify_eq; by apply H1|]. case_match; case_match; simplify_eq.
  - split; [done|]. by apply H2.
  - breflect. unfold partial_ok in *.
    match goal with H : (_ || _)%bool = true |- _ => apply orb_true_iff in H as [H|H]; breflect; [lia|] end.
    apply H3; try done; lia.
Qed.

Lemma wpc_Truncate f n v (Q : Z -> disk -> Prop) d : file_of d f = Some v -> C d ->
  (plain (now (set_file d f (put v (ftruncate (v_now v) n))) FJrnl) ->
    C (set_file d f (put v (ftruncate (v_now v) n))) /\ Q SQLITE_OK (set_file d f (put v (ftruncate (v_now v) n)))) ->
  (forall rc, io_error rc = true -> Q rc d) -> wpc S C (os (OsTruncate f n)) Q d.
Proof using.
  intros Hv HC H1 H2. intros ch r d' E. apply op_do_inv in E as [E Hp]. cbn [op_file] in E. unfold answer in E. rewrite Hv in E.
  case_match; [simplify_eq; by apply H1|]. case_match; simplify_eq. split; [done|]. by apply H2.
Qed.

Lemma wpc_Sync_db flags (Q : Z -> disk -> Prop) d : C d ->
  (C (set_ddb d (mkVer (v_now (d_db d)) [])) /\ Q SQLITE_OK (set_ddb d (mkVer (v_now (d_db d)) []))) ->
  (forall rc, io_error rc = true -> Q rc d) -> wpc S C (os (OsSync FDb flags)) Q d.
Proof using.
  intros HC H1 H2. op_start E. case_match; [by simplify_eq|]. case_match; simplify_eq. split; [done|]. by apply H2.
Qed.

(** What syncing the journal makes durable. *)
Definition jrnl_synced (d : disk) (v : versions) : disk :=
  let d := set_djrnl d (Some (mkVer (v_now v) [])) in
  if d_dirsync d then set_dirsync (set_dgone d []) false else d.

Lemma jrnl_synced_jrnl d v : d_jrnl (jrnl_synced d v) = Some (mkVer (v_now v) []).
Proof using. unfold jrnl_synced. by destruct d as [? ? ? []]. Qed.

Lemma wpc_Sync_jrnl flags v (Q : Z -> disk -> Prop) d : d_jrnl d = Some v -> C d ->
  (C (jrnl_synced d v) /\ Q SQLITE_OK (jrnl_synced d v)) ->
  (forall rc, io_error rc = true -> Q rc d) -> wpc S C (os (OsSync FJrnl flags)) Q d.
Proof using.
  intros Hv HC H1 H2. intros ch r d' E. apply op_do_inv in E as [E Hp]. cbn [op_file] in E. unfold answer in E. rewrite Hv in E.
  case_match; [|case_match; simplify_eq; split; [done|by apply H2]]. injection E as <- <-. exact H1.
Qed.

Lemma wpc_Access (Q : Z * bool -> disk -> Prop) d : C d -> Q (SQLITE_OK, 0 <? zlen (now d FJrnl)) d ->
  (forall rc, io_error rc = true -> Q (rc, false) d) -> wpc S C (os OsAccess) Q d.
Proof using. intros HC H1 H2. op_start E. case_match; [by simplify_eq|]. case_match; simplify_eq. split; [done|]. by apply H2. Qed.

Lemma wpc_Lock lk (Q : Z -> disk -> Prop) d : C d -> (forall rc, rc = SQLITE_OK \/ lock_error rc = true -> Q rc d) -> wpc S C (os (OsLock lk)) Q d.
Proof using. intros HC H1. op_start E. case_match; [simplify_eq; split; [done|apply H1; by left]|]. case_match; simplify_eq. split; [done|]. apply H1. by right. Qed.

Lemma wpc_Unlock lk (Q : Z -> disk -> Prop) d : C d -> (forall rc, rc = SQLITE_OK \/ io_error rc = true -> Q rc d) -> wpc S C (os (OsUnlock lk)) Q d.
Proof using. intros HC H1. op_start E. case_match; [simplify_eq; split; [done|apply H1; by left]|]. case_match; simplify_eq. split; [done|]. apply H1. by right. Qed.

Lemma wpc_Reserved (Q : Z * bool -> disk -> Prop) d : C d -> Q (SQLITE_OK, false) d ->
  (forall rc, io_error rc = true -> Q (rc, false) d) -> wpc S C (os OsCheckReservedLock) Q d.
Proof using. intros HC H1 H2. op_start E. case_match; [by simplify_eq|]. case_match; simplify_eq. split; [done|]. by apply H2. Qed.

Lemma wpc_Control (Q : Z -> disk -> Prop) d : C d -> (forall rc, rc = SQLITE_OK \/ rc = SQLITE_NOTFOUND \/ io_error rc = true -> Q rc d) -> wpc S C (os OsFileControl) Q d.
Proof using.
  intros HC H1. op_start E. case_match; [simplify_eq; split; [done|apply H1; by left]|]. case_match; simplify_eq. split; [done|]. apply H1. right.
  match goal with H : (_ || _)%bool = true |- _ => apply orb_true_iff in H as [H|H] end; breflect; auto.
Qed.

Lemma wpc_Random (Q : Z -> disk -> Prop) d : C d -> (forall x, 0 <= x < 2 ^ 32 -> Q x d) -> wpc S C (os OsRandomness) Q d.
Proof using. intros HC H1. op_start E. simplify_eq. split; [done|]. apply H1. apply wrapu_range. lia. Qed.

Lemma wpc_Malloc (Q : bool -> disk -> Prop) d : C d -> (forall b, Q b d) -> wpc S C (os OsMalloc) Q d.
Proof using. intros HC H1. op_start E. simplify_eq. split; [done|]. apply H1. Qed.

Lemma wpc_Open create (Q : Z -> disk -> Prop) d : C d ->
  (forall v, d_jrnl d = Some v -> C (set_dirsync d create) /\ Q SQLITE_OK (set_dirsync d create)) ->
  (d_jrnl d = None -> create = true -> C (set_dirsync (set_dgone (set_djrnl d (Some (mkVer [] []))) (None :: d_gone d)) true) /\
    Q SQLITE_OK (set_dirsync (set_dgone (set_djrnl d (Some (mkVer [] []))) (None :: d_gone d)) true)) ->
  (forall rc, open_error rc = true -> Q rc d) -> wpc S C (os (OsOpen create)) Q d.
Proof using.
  intros HC H1 H2 H3. op_start E. case_match; [|case_match; simplify_eq; split; [done|by apply H3]].
  destruct (d_jrnl d) as [v|] eqn:Ev; [simplify_eq; by apply (H1 v)|]. destruct create; simplify_eq; [by apply H2|].
  split; [done|]. by apply H3.
Qed.

(** A disk whose journal was deleted. *)
Definition jrnl_deleted (d : disk) (v : versions) : disk := set_dgone (set_djrnl d None) (Some v :: d_gone d).

Lemma wpc_Delete dirSync (Q : Z -> disk -> Prop) d : C d ->
  (forall v, d_jrnl d = Some v -> (Z.land dirSync 1 = 0 -> C (jrnl_deleted d v) /\ Q SQLITE_OK (jrnl_deleted d v)) /\
    (Z.land dirSync 1 <> 0 -> C (set_dgone (jrnl_deleted d v) []) /\ Q SQLITE_OK (set_dgone (jrnl_deleted d v) [])) /\
    forall rc, io_error rc = true -> C (jrnl_deleted d v) /\ Q rc (jrnl_deleted d v)) ->
  (forall rc, io_error rc = true -> Q rc d) -> wpc S C (os (OsDelete dirSync)) Q d.
Proof using.
  intros HC H1 H2. op_start E. destruct (d_jrnl d) as [v|] eqn:Ev; [|simplify_eq; split; [done|by apply H2]].
  destruct (H1 v eq_refl) as (Ha & Hb & Hc). case_match.
  - destruct (Z.land dirSync 1 =? 0) eqn:Ed; cbn [negb] in E; simplify_eq; breflect; [by apply Ha|by apply Hb].
  - case_match; simplify_eq. destruct (ch_b ch); [by apply Hc|]. split; [done|by apply H2].
Qed.

End rules.

(** ** Reading what is known *)

(** The settings the theorems are about: full synchronisation, deletion of the journal at the end
    of a transaction, no shortcuts for special devices, and the sector size of the disk. *)
Record conf_ok (cf : PagerConf) (S : Z) : Prop := {
  co_exclusive : exclusiveMode cf = false;
  co_noSync : noSync cf = false;
  co_fullSync : fullSync cf = true;
  co_readOnly : readOnly cf = false;
  co_mode : journalMode cf = PAGER_JOURNALMODE_DELETE;
  co_append : Z.land (iDc cf) SQLITE_IOCAP_SAFE_APPEND = 0;
  co_seq : Z.land (iDc cf) SQLITE_IOCAP_SEQUENTIAL = 0;
  co_undel : Z.land (iDc cf) SQLITE_IOCAP_UNDELETABLE_WHEN_OPEN = 0;
  co_sector : (if negb (Z.land (iDc cf) SQLITE_IOCAP_POWERSAFE_OVERWRITE =? 0) then 512 else sqlite3SectorSize (xSectorSize cf)) = S
}.

(** Splits a call of [m]: what it ensures, and the rest. *)
Ltac wbind := apply wpc_bind.

Section play.
Context (P S : Z) (Hsz : sizes_ok P S = true).
Context (cf : PagerConf) (Hcf : conf_ok cf S).
Context (C : disk -> Prop).

Lemma wpc_readSuper (Q : Z * list Z -> disk -> Prop) d : C d -> plain (now d FJrnl) -> Q (SQLITE_OK, []) d ->
  (forall rc, bad rc -> Q (rc, []) d) -> wpc S C readSuperJournal Q d.
Proof using.
  intros HC Hp H1 H2. unfold readSuperJournal. set (c := now d FJrnl) in *. assert (forall rc, io_error rc = true -> Q (rc, []) d) as H3.
  { intros rc Hrc. apply H2. by apply io_error_bad. }
  unfold plain, super_name in Hp. wbind. apply wpc_FileSize; [done| |]; [|intros rc n Hrc; cbn [wpc]; codes; by apply H3].
  fold c. codes. destruct (Z.ltb_spec (zlen c) 16); [done|].
  wbind. apply wpc_read32; [done|lia| | |]; fold c; [|lia|intros rc Hrc; codes; by apply H3].
  intros _. codes. set (len := sqlite3Get4byte (fread c (zlen c - 16) 4)) in *.
  destruct (MAX_PATHNAME + 1 <=? len) eqn:E1; [done|]. cbn [orb] in *. destruct (zlen c - 16 <? len) eqn:E2; [done|]. cbn [orb] in *.
  destruct (len =? 0) eqn:E3; [done|]. cbn [orb] in *. breflect.
  wbind. apply wpc_read32; [done|lia| | |]; fold c; [|lia|intros rc Hrc; codes; by apply H3]. intros _. codes.
  wbind. apply wpc_Read; [done|lia|lia| | |]; fold c; [|lia|intros rc Hrc; codes; by apply H3]. intros _. codes.
  destruct (bool_decide _); [|done]. cbn [negb] in *.
  wbind. apply wpc_Read_any; [done| | |]; fold c; [| |intros rc Hrc; codes; by apply H3]; intros Hl; codes.
  - change (sqlite3Get4byte (fread c (zlen c - 16) 4)) with len in Hp |- *. set (name := fread c _ len) in *. cbn [wpc].
    destruct (u32 _ =? 0); cbn [negb] in *; [|done]. destruct (zat name 0 =? 0); [done|]. by rewrite Hp.
  - apply H2. apply bad_short.
Qed.

(** What stays as it is while a journal is played back: [st] is the state, [h] the size of the
    part of the journal that was synced, [r1] whether page 1 is in use. *)
Record pk (st h : Z) (r1 : bool) (p : Pager) : Prop := {
  pk_page : pageSize p = P;
  pk_sector : sectorSize p = S;
  pk_lck : lckPgno p = lockpage P;
  pk_hdr : journalHdr p = h;
  pk_state : eState p = st;
  pk_ref : ref1 p = r1;
  pk_jfd : jfd p = true;
  pk_cache : r1 = false -> pcache p = ∅;
  pk_lock : RESERVED_LOCK <= eLock p < UNKNOWN_LOCK;
  pk_err : errCode p = SQLITE_OK
}.

(** Whether pages are written back to the database file. *)
Definition wr (st : Z) : bool := (PAGER_WRITER_DBMOD <=? st) || (st =? PAGER_OPEN).

Ltac pk_set := intros []; split; cbn; done.

Lemma pk_journalOff st h r1 p x : pk st h r1 p -> pk st h r1 (set_journalOff p x).
Proof using. pk_set. Qed.
Lemma pk_cksumInit st h r1 p x : pk st h r1 p -> pk st h r1 (set_cksumInit p x).
Proof using. pk_set. Qed.
Lemma pk_nReserve st h r1 p x : pk st h r1 p -> pk st h r1 (set_nReserve p x).
Proof using. pk_set. Qed.
Lemma pk_dbFileSize st h r1 p x : pk st h r1 p -> pk st h r1 (set_dbFileSize p x).
Proof using. pk_set. Qed.
Lemma pk_dbSize st h r1 p x : pk st h r1 p -> pk st h r1 (set_dbSize p x).
Proof using. pk_set. Qed.
Lemma pk_dbFileVers st h r1 p x : pk st h r1 p -> pk st h r1 (set_dbFileVers p x).
Proof using. pk_set. Qed.
Lemma pk_mxPgno st h r1 p x : pk st h r1 p -> pk st h r1 (set_mxPgno p x).
Proof using. pk_set. Qed.
Lemma pk_sectorSize st h r1 p : pk st h r1 p -> pk st h r1 (set_sectorSize p S).
Proof using. pk_set. Qed.
Lemma pk_pcache st h r1 p x : (r1 = false -> x = ∅) -> pk st h r1 p -> pk st h r1 (set_pcache p x).
Proof using. intros Hx []; split; cbn; done. Qed.

Lemma pk_reset st h r1 p : pk st h r1 p -> pk st h r1 (pager_reset p).
Proof using.
  intros H. apply pk_pcache; [|done]. intros E. rewrite (pk_cache _ _ _ _ H E). unfold sqlite3PcacheTruncate.
  rewrite (pk_ref _ _ _ _ H), E. cbn [Z.eqb andb]. by rewrite map_imap_empty, map_filter_empty.
Qed.

Hint Resolve pk_mxPgno pk_journalOff pk_cksumInit pk_nReserve pk_dbFileSize pk_dbSize pk_dbFileVers pk_sectorSize pk_reset : pk.

(** *** A journal whose content is known *)

Section known.
Context (j img : list Z) (st h : Z) (r1 : bool).

(** [I rs]: the database lacks no page but those of [rs]; playing back a record of a page removes
    it.  [I0] holds before the file is cut to the size of the database. *)
Context (I0 I : list jrec -> disk -> Prop).
Hypothesis HI0 : forall rs d, I0 rs d -> C d /\ now d FJrnl = j.
Hypothesis HI : forall rs d, I rs d -> C d /\ now d FJrnl = j.
Hypothesis HW : forall r rs d, wr st = true -> I (r :: rs) d -> rec_of P img r ->
  let c := fwrite (v_now (d_db d)) ((r.1 - 1) * P) r.2 in C (set_ddb d (put (d_db d) c)) /\ I rs (set_ddb d (put (d_db d) c)).
Hypothesis HF : forall r rs d k, wr st = true -> I (r :: rs) d -> rec_of P img r -> 0 < k < P ->
  C (set_ddb d (put (d_db d) (fwrite (v_now (d_db d)) ((r.1 - 1) * P) (take (Z.to_nat k) r.2)))).
Hypothesis HN : forall r rs d, wr st = false -> I (r :: rs) d -> I rs d.
Hypothesis HT : forall rs p d, pk st h r1 p -> I0 rs d ->
  wpc S C (pager_truncate p (npages P img)) (fun x d' => (x.1 = SQLITE_OK /\ I rs d' \/ io_error x.1 = true /\ C d') /\
    pk st h r1 x.2 /\ journalOff x.2 = journalOff p /\ cksumInit x.2 = cksumInit p) d.

Lemma one_page r rs p d : I (r :: rs) d -> pk st h r1 p -> rec_of P img r -> 0 <= journalOff p ->
  fread j (journalOff p) (P + 8) = rec_bytes P (cksumInit p) r -> dbSize p = npages P img ->
  (wr st = true -> journalOff p + (P + 8) <= h) ->
  wpc S C (pager_playback_one_page cf p) (fun x d' =>
    (x.1 = SQLITE_OK /\ I rs d' \/ io_error x.1 = true /\ C d') /\ pk st h r1 x.2 /\
    (x.1 = SQLITE_OK -> journalOff x.2 = journalOff p + (P + 8) /\ cksumInit x.2 = cksumInit p /\ dbSize x.2 = dbSize p)) d.
Proof using Hsz Hcf HI HW HF HN.
  intros HId Hpk Hrec Ho Hb Hdb Hh. destruct (HI _ _ HId) as [HC Hj]. pose proof (sizes P S Hsz) as [HP _].
  pose proof Hrec as ((Hr1 & Hr2 & Hr3) & Hr4 & _). set (off := journalOff p) in *.
  assert (zlen (rec_bytes P (cksumInit p) r) = P + 8) as Hl by (by apply zlen_rec_bytes; destruct Hrec).
  assert (off + (P + 8) <= zlen j) as Hlj by (apply zlen_fread_full; [lia..|]; congruence).
  assert (forall o n, 0 <= o -> 0 <= n -> o + n <= P + 8 -> fread j (off + o) n = fread (rec_bytes P (cksumInit p) r) o n) as Hsub.
  { intros o n H1 H2 H3. rewrite <- Hb. symmetry. by apply fread_sub. }
  assert (fread j off 4 = sqlite3Put4byte r.1) as E1.
  { replace off with (off + 0) by lia. rewrite Hsub by lia. unfold rec_bytes. by rewrite fread_app_l by (rewrite ?zlen_put4; lia). }
  assert (fread j (off + 4) P = r.2) as E2.
  { rewrite Hsub by lia. unfold rec_bytes. rewrite fread_app_r by (rewrite zlen_put4; lia). rewrite zlen_put4. change (4 - 4) with 0.
    rewrite fread_app_l by lia. rewrite <- Hr3. apply fread_all. }
  assert (fread j (off + (P + 8) - 4) 4 = sqlite3Put4byte (jcksum P (cksumInit p) r.2)) as E3.
  { replace (off + (P + 8) - 4) with (off + (P + 4)) by lia. rewrite Hsub by lia. unfold rec_bytes. rewrite !fread_app_r by (rewrite ?zlen_put4; lia).
    rewrite zlen_put4. replace (P + 4 - 4 - zlen r.2) with 0 by lia. exact (fread_all (sqlite3Put4byte (jcksum P (cksumInit p) r.2))). }
  unfold pager_playback_one_page. fold off. rewrite (pk_page _ _ _ _ Hpk).
  assert (forall rc p', io_error rc = true -> pk st h r1 p' -> (rc = SQLITE_OK /\ I rs d \/ io_error rc = true /\ C d) /\ pk st h r1 p' /\
    (rc = SQLITE_OK -> journalOff p' = off + (P + 8) /\ cksumInit p' = cksumInit p /\ dbSize p' = dbSize p)) as Herr.
  { intros rc p' Hrc Hp'. split; [by right|]. split; [done|]. intros ->. done. }
  wbind. apply wpc_read32; [done|lia| | |]; rewrite ?Hj; [|lia|intros rc Hrc; codes; by apply Herr]. intros _. codes. rewrite E1, get4byte_put4byte by lia.
  wbind. apply wpc_Read; [done|lia|lia| | |]; rewrite ?Hj; [|lia|intros rc Hrc; codes; by apply Herr]. intros _. codes. rewrite E2.
  unfold PAGER_SJ_PGNO. rewrite (pk_lck _ _ _ _ (pk_journalOff _ _ _ _ _ Hpk)). rewrite (proj2 (Z.eqb_neq r.1 0)), (proj2 (Z.eqb_neq r.1 _)) by (done || lia).
  cbn [orb]. cbn [dbSize set_journalOff]. rewrite (proj2 (Z.ltb_ge (dbSize p) r.1)) by lia. cbn [journalOff set_journalOff].
  wbind. apply wpc_read32; [done|lia| | |]; rewrite ?Hj; [|lia|intros rc Hrc; codes; cbn [wpc fst snd]; apply Herr; auto with pk]. intros _. codes.
  rewrite E3, get4byte_put4byte by (by apply (jcksum_range P S)). unfold pager_cksum at 1. cbn [pageSize cksumInit set_journalOff]. rewrite (pk_page _ _ _ _ Hpk).
  fold (jcksum P (cksumInit p) r.2). codes.
  set (p1 := set_journalOff p (off + (P + 8))). set (p2 := if (r.1 =? 1) && _ then _ else p1).
  assert (pk st h r1 p2 /\ journalOff p2 = off + (P + 8) /\ cksumInit p2 = cksumInit p /\ dbSize p2 = dbSize p) as (Hp2 & Ho2 & Hc2 & Hd2).
  { unfold p2. case_if; (split; [unfold p1; auto with pk|done]). }
  clearbody p2. rewrite Ho2, (pk_hdr _ _ _ _ Hp2), (pk_state _ _ _ _ Hp2), (co_noSync _ _ Hcf). cbn [orb].
  change ((PAGER_WRITER_DBMOD <=? st) || (st =? PAGER_OPEN)) with (wr st).
  assert (forall p3 rc d', pk st h r1 p3 -> journalOff p3 = off + (P + 8) /\ cksumInit p3 = cksumInit p /\ dbSize p3 = dbSize p ->
    (rc = SQLITE_OK /\ I rs d' \/ io_error rc = true /\ C d') ->
    wpc S C (match pcache p3 !! r.1 with
             | None => DRet (rc, p3)
             | Some g => let p4 := set_pcache p3 (<[r.1 := set_pData g r.2]> (pcache p3)) in
                         DRet (rc, if r.1 =? 1 then set_dbFileVers p4 (fread r.2 24 16) else p4) end)
      (fun x d' => (x.1 = SQLITE_OK /\ I rs d' \/ io_error x.1 = true /\ C d') /\ pk st h r1 x.2 /\
        (x.1 = SQLITE_OK -> journalOff x.2 = off + (P + 8) /\ cksumInit x.2 = cksumInit p /\ dbSize x.2 = dbSize p)) d') as Hend.
  { intros p3 rc d' H1 H2 H3. destruct (pcache p3 !! r.1) as [g|] eqn:Eg; cbn [wpc fst snd]; [|done]. split; [done|].
    assert (pk st h r1 (set_pcache p3 (<[r.1 := set_pData g r.2]> (pcache p3)))) as H4.
    { apply pk_pcache; [|done]. intros E. rewrite (pk_cache _ _ _ _ H1 E) in Eg. by rewrite lookup_empty in Eg. }
    split; [case_if; auto with pk|]. intros _. by case_if. }
  assert (wr st = true \/ wr st = false) as [Ew|Ew] by (by destruct (wr st); [left|right]); rewrite Ew; cbn [andb].
  - rewrite (proj2 (Z.leb_le _ _)) by (by apply Hh). wbind. rewrite (pk_page _ _ _ _ Hp2). wbind.
    assert (forall p0 : Pager, p0 = (if dbFileSize p2 <? r.1 then set_dbFileSize p2 r.1 else p2) -> pk st h r1 p0 /\ journalOff p0 = off + (P + 8) /\ cksumInit p0 = cksumInit p /\ dbSize p0 = dbSize p) as Hp0.
    { intros p0 ->. case_if; (split; [auto with pk|done]). }
    destruct (Hp0 _ eq_refl) as [Hp3 Hp4].
    apply (wpc_Write S C FDb _ _ (d_db d)); [done|done| | |]; cbn [set_file].
    + intros _. destruct (HW r rs d Ew HId Hrec) as [H1 H2]. split; [done|]. apply Hend; [done|done|by left].
    + intros rc Hrc. apply Hend; [done|done|by right].
    + intros rc k Hrc Hk _ _. pose proof (HF r rs d k Ew HId Hrec ltac:(lia)) as H1. split; [done|]. apply Hend; [done|done|by right].
  - apply Hend; [done|done|]. left. split; [done|]. by apply (HN r).
Qed.

(** The records of a segment. *)
Lemma recs_play rs1 rs2 fuel p d szJ u n reset : I (rs1 ++ rs2) d -> pk st h r1 p -> Forall (rec_of P img) rs1 -> 0 <= journalOff p ->
  fread j (journalOff p) (zlen rs1 * (P + 8)) = recs_bytes P (cksumInit p) rs1 -> dbSize p = npages P img ->
  (wr st = true -> journalOff p + zlen rs1 * (P + 8) <= h) -> n = u + zlen rs1 -> (length rs1 < fuel)%nat ->
  wpc S C (playback_recs cf fuel p szJ u n reset) (fun x d' =>
    (x.1.1 = None /\ I rs2 d' \/ exists rc, x.1.1 = Some rc /\ io_error rc = true /\ C d') /\ pk st h r1 x.2 /\
    (x.1.1 = None -> journalOff x.2 = journalOff p + zlen rs1 * (P + 8) /\ dbSize x.2 = dbSize p)) d.
Proof using Hsz Hcf HI HW HF HN.
  pose proof (sizes P S Hsz) as [HP _].
  revert fuel p d u reset. induction rs1 as [|r rs1 IH]; intros fuel p d u reset HId Hpk Hrec Ho Hb Hdb Hh Hn Hf.
  - destruct fuel as [|fuel]; [cbn in Hf; lia|]. cbn [playback_recs]. change (zlen (@nil jrec)) with 0 in *. rewrite (proj2 (Z.ltb_ge _ _)) by lia. cbn [wpc fst snd]. split; [by left|].
    split; [done|]. intros _. split; [lia|done].
  - destruct fuel as [|fuel]; [cbn in Hf; lia|]. cbn [playback_recs]. rewrite zlen_cons in *. pose proof (zlen_nonneg rs1). rewrite (proj2 (Z.ltb_lt _ _)) by lia.
    apply Forall_cons_1 in Hrec as [Hr Hrs]. set (p1 := if reset then pager_reset p else p).
    assert (pk st h r1 p1 /\ journalOff p1 = journalOff p /\ cksumInit p1 = cksumInit p /\ dbSize p1 = dbSize p) as (Hp1 & Ho1 & Hc1 & Hd1).
    { unfold p1. destruct reset; [|done]. split; [auto with pk|done]. }
    clearbody p1. assert (rec_ok P r /\ Forall (rec_ok P) rs1) as [Hok Hoks].
    { split; [by destruct Hr|]. by apply (Forall_impl _ _ _ Hrs); intros x []. }
    pose proof (zlen_rec_bytes P (cksumInit p) r Hok) as Hlr. pose proof (zlen_recs_bytes P (cksumInit p) rs1 Hoks) as Hlrs.
    change (recs_bytes P (cksumInit p) (r :: rs1)) with (rec_bytes P (cksumInit p) r ++ recs_bytes P (cksumInit p) rs1) in Hb.
    assert (fread j (journalOff p) (P + 8) = rec_bytes P (cksumInit p) r) as Hb1.
    { replace (journalOff p) with (journalOff p + 0) by lia. rewrite <- (fread_sub j (journalOff p) ((1 + zlen rs1) * (P + 8)) 0 (P + 8)) by nia.
      rewrite Hb, fread_app_l by lia. rewrite <- Hlr. apply fread_all. }
    assert (fread j (journalOff p + (P + 8)) (zlen rs1 * (P + 8)) = recs_bytes P (cksumInit p) rs1) as Hb2.
    { rewrite <- (fread_sub j (journalOff p) ((1 + zlen rs1) * (P + 8)) (P + 8) (zlen rs1 * (P + 8))) by nia.
      rewrite Hb, fread_app_r by lia. rewrite Hlr, Z.sub_diag, <- Hlrs. apply fread_all. }
    wbind. eapply wpc_mono; [done| |apply (one_page r (rs1 ++ rs2) p1 d)]; try done; [|lia|congruence|congruence|intros Ew; specialize (Hh Ew); nia].
    intros [rc p2] d' (Hor & Hp2 & Hok2). cbn [fst snd] in *. destruct Hor as [[-> HI2]|[Hrc HC2]].
    + destruct (Hok2 eq_refl) as (Ho2 & Hc2 & Hd2). codes. eapply wpc_mono; [done| |apply (IH fuel p2 d' (u + 1) false)]; try done.
      * intros [[stop rs'] p3] d3 (H1 & H2 & H3). cbn [fst snd] in *. split; [done|]. split; [done|]. intros E. destruct (H3 E) as [H4 H5]. split; [lia|congruence].
      * lia.
      * rewrite Ho2, Ho1, Hc2, Hc1. exact Hb2.
      * congruence.
      * intros Ew. specialize (Hh Ew). nia.
      * lia.
      * cbn in Hf. lia.
    + codes. cbn [wpc fst snd]. split; [right; by exists rc|]. split; [done|]. done.
Qed.

(** The fields of a header of the chain. *)
Lemma hdr_field c off n ck N : 0 <= off -> fread c off 28 = hdr_bytes P S n ck N -> fread c off 8 = aJournalMagic /\
  fread c (off + 8) 4 = sqlite3Put4byte n /\ fread c (off + 12) 4 = sqlite3Put4byte ck /\ fread c (off + 16) 4 = sqlite3Put4byte N /\
  fread c (off + 20) 4 = sqlite3Put4byte S /\ fread c (off + 24) 4 = sqlite3Put4byte P.
Proof using.
  intros Ho H. split_and!.
  1: replace off with (off + 0) by lia.
  all: rewrite <- (fread_sub c off 28) by lia; rewrite H; reflexivity.
Qed.

(** A header of the chain. *)
Lemma hdr_read p isHot off sg d : C d -> now d FJrnl = j -> pk st h r1 p -> hup S (journalOff p) = off -> 0 <= off -> seg_at P S j off (npages P img) sg ->
  image_ok P img ->
  wpc S C (readJournalHdr p isHot (zlen j)) (fun x d' => d' = d /\ pk st h r1 x.2 /\ (io_error x.1.1.1 = true \/
    x.1 = (SQLITE_OK, zlen sg.2, npages P img) /\ cksumInit x.2 = sg.1 /\ journalOff x.2 = off + S /\ dbSize x.2 = dbSize p)) d.
Proof using Hsz.
  intros HC Hj Hpk Hup Ho [H1 H2 H3 H4 H5 H6] Himg. pose proof (sizes P S Hsz) as [HP HS]. unfold readJournalHdr.
  assert (journalHdrOffset p = off) as -> by (unfold journalHdrOffset, JOURNAL_HDR_SZ; rewrite (pk_sector _ _ _ _ Hpk); exact Hup).
  set (p1 := set_journalOff p off). assert (pk st h r1 p1) as Hp1 by (unfold p1; auto with pk). change (journalOff p1) with off.
  unfold JOURNAL_HDR_SZ. rewrite (pk_sector _ _ _ _ Hp1), (proj2 (Z.ltb_ge _ _)) by lia. cbv zeta.
  rewrite <- Hj in H1, H2. destruct (hdr_field _ _ _ _ _ Ho H2) as (F0 & F1 & F2 & F3 & F4 & F5). clear H2 H3.
  pose proof (zlen_nonneg sg.2). destruct Himg as [Hi1 Hi2].
  wbind. eapply (wpc_mono _ _ C _ (fun rc d' => d' = d /\ (rc = SQLITE_OK \/ io_error rc = true))); [done| |].
  2: { destruct (isHot || _); [|by apply wpc_ret; split; [|left]]. wbind. apply wpc_Read; [done|lia|lia| | |]; [|lia|].
    - intros _. codes. rewrite F0, bool_decide_true by done. by apply wpc_ret; split; [|left].
    - intros rc Hrc. codes. by apply wpc_ret; split; [|right]. }
  intros rc d' [-> [->|Hrc]]; [codes|codes; by split; [|split; [|left]]].
  apply (wpc_read32_known _ _ _ _ (zlen sg.2)); [done|lia|lia|done| |intros rc Hrc; codes; by split; [|split; [|left]]]. codes.
  apply (wpc_read32_known _ _ _ _ sg.1); [done|lia|lia|done| |intros rc Hrc; codes; by split; [|split; [|left]]]. codes.
  set (p2 := set_cksumInit p1 sg.1). assert (pk st h r1 p2) as Hp2 by (unfold p2; auto with pk).
  apply (wpc_read32_known _ _ _ _ (npages P img)); [done|lia|lia|done| |intros rc Hrc; codes; by split; [|split; [|left]]]. codes. change (journalOff p2) with off.
  wbind. eapply (wpc_mono _ _ C _ (fun x d' => d' = d /\ pk st h r1 x.2 /\ (io_error x.1.2 = true /\ x.1.1 = true \/ x.1 = (false, SQLITE_OK) /\
    cksumInit x.2 = sg.1 /\ journalOff x.2 = off /\ dbSize x.2 = dbSize p))); [done| |].
  - intros [[stop rc] p3] d' (-> & Hp3 & Hor). cbn [fst snd] in *. destruct Hor as [[Hrc ->]|(E & E1 & E2 & E3)].
    + by split; [|split; [|left]].
    + injection E as -> ->. cbn [wpc fst snd]. split; [done|]. split; [auto with pk|]. right. unfold JOURNAL_HDR_SZ. rewrite (pk_sector _ _ _ _ Hp3), E2. done.
  - case_if; breflect; [|apply wpc_ret; split; [done|]; split; [done|right; done]]. unfold read_sizes.
    apply (wpc_read32_known _ _ _ _ S); [done|lia|lia|done| |intros rc Hrc; codes; cbn [wpc fst snd]; by split; [|split; [|left]]]. codes.
    apply (wpc_read32_known _ _ _ _ P); [done|lia|lia|done| |intros rc Hrc; codes; cbn [wpc fst snd]; by split; [|split; [|left]]]. codes.
    rewrite (proj2 (Z.eqb_neq P 0)) by lia. rewrite Hsz. cbn [negb]. unfold sqlite3PagerSetPagesize. rewrite (pk_page _ _ _ _ Hp2), Z.eqb_refl. cbn [negb]. rewrite andb_false_r.
    cbn [dbind wpc fst snd]. split; [done|]. split; [auto with pk|]. right. done.
Qed.

(** The loop over a chain, up to its end. *)
Lemma loop_chain segs : forall fuel p d isHot reset k Q, image_ok P img -> 0 <= k -> hup S (journalOff p) = k * S ->
  (if decide (k = 0) then I0 (all_recs segs) d else dbSize p = npages P img /\ I (all_recs segs) d) -> pk st h r1 p -> Forall (rec_of P img) (all_recs segs) -> chain P S j (k * S) (npages P img) segs ->
  (wr st = true \/ isHot = false -> segs <> [] -> data_end P S (k * S) segs <= h) ->
  0 <= journalOff p -> zlen j < Z.of_nat fuel + journalOff p -> (0 < fuel)%nat ->
  (forall fuel p d reset, (if decide (k = 0 /\ segs = []) then I0 [] d else dbSize p = npages P img /\ I [] d) -> pk st h r1 p -> hup S (journalOff p) = next_off P S (k * S) segs ->
    0 <= journalOff p -> zlen j < Z.of_nat fuel + journalOff p -> (0 < fuel)%nat -> wpc S C (playback_loop cf fuel p isHot (zlen j) reset) Q d) ->
  (forall rc p d, io_error rc = true -> C d -> pk st h r1 p -> Q (rc, p) d) ->
  wpc S C (playback_loop cf fuel p isHot (zlen j) reset) Q d.
Proof using Hsz Hcf HI0 HI HW HF HN HT.
  pose proof (sizes P S Hsz) as [HP HS].
  induction segs as [|sg segs IH]; intros fuel p d isHot reset k Q Himg Hk Hup HId Hpk Hrec Hch Hh Ho Hf Hf0 Hend Herr.
  { apply Hend; try done. destruct (decide (k = 0)); [rewrite decide_True by done|rewrite decide_False by tauto]; done. }
  destruct fuel as [|fuel]; [lia|]. cbn [playback_loop]. assert (C d /\ now d FJrnl = j) as [HC Hj] by (destruct (decide _); [by eapply HI0|destruct HId; by eapply HI]). destruct Hch as [Hsg Hch].
  set (off := k * S) in *. assert (0 <= off) as Hoff by (unfold off; nia).
  pose proof (seg_end_ge P S Hsz off sg.2 Hoff) as Hse. pose proof (seg_at_end P S Hsz j off _ sg Hoff Hsg) as Hlen. pose proof (hup_ge P S Hsz (seg_end P S off sg.2) ltac:(lia)) as Hhup.
  pose proof (hup_ge P S Hsz (journalOff p) Ho) as Hhup0. rewrite Hup in Hhup0.
  assert (seg_end P S off sg.2 <= data_end P S off (sg :: segs)) as Hde.
  { rewrite data_end_cons. destruct (decide (segs = [])); [lia|]. pose proof (data_end_ge P S Hsz (hup S (seg_end P S off sg.2)) segs ltac:(lia)). lia. }
  wbind. eapply wpc_mono; [done| |apply (hdr_read p isHot off sg d HC Hj Hpk Hup Hoff Hsg Himg)].
  intros [[[rc n] mx] p1] d1 (-> & Hp1 & Hor). cbn [fst snd] in *. destruct Hor as [Hrc|(E & Ec & Ej & Ed)].
  { codes. rewrite ?(io_done _ Hrc). cbn [wpc]. by apply Herr. }
  injection E as -> -> ->. codes.
  assert (record_count p1 isHot (zlen j) (zlen sg.2) = zlen sg.2) as ->.
  { unfold record_count. pose proof (sa_n _ _ _ _ _ _ Hsg). rewrite (proj2 (Z.eqb_neq (zlen sg.2) 0xffffffff)) by lia. case_if; [|done]. breflect.
    unfold JOURNAL_HDR_SZ in *. rewrite (pk_hdr _ _ _ _ Hp1), (pk_sector _ _ _ _ Hp1) in *. destruct isHot; [done|]. specialize (Hh (or_intror eq_refl) ltac:(done)). lia. }
  unfold JOURNAL_HDR_SZ. rewrite Ej, (pk_sector _ _ _ _ Hp1). wbind.
  eapply (wpc_mono _ _ C _ (fun x d' => (x.1 = SQLITE_OK /\ I (all_recs (sg :: segs)) d' \/ io_error x.1 = true /\ C d') /\ pk st h r1 x.2 /\
     (x.1 = SQLITE_OK -> journalOff x.2 = off + S /\ cksumInit x.2 = sg.1 /\ dbSize x.2 = npages P img))); [done| |].
  2: { case_if; breflect.
    - rewrite decide_True in HId by nia. wbind. eapply wpc_mono; [done| |apply (HT _ p1 d Hp1 HId)]. intros [rc p2] d2 (Hor & Hp2 & Ho2 & Hc2). cbn [fst snd] in *. destruct Hor as [[-> HI2]|[Hrc HC2]]; codes; cbn [wpc fst snd].
      + split; [by left|]. destruct Himg as [_ Hi2]. split; [case_if; auto with pk|]. intros _. by case_if; cbn; split_and!; try congruence; lia.
      + split; [by right|]. split; [done|]. intros ->. done.
    - rewrite decide_False in HId by nia. destruct HId as [Hdb HId]. apply wpc_ret. cbn [fst snd]. split; [by left|]. split; [done|]. intros _. split_and!; congruence. }
  intros [rc p2] d2 (Hor & Hp2 & Hok). cbn [fst snd] in *. destruct Hor as [[-> HI2]|[Hrc HC2]]; codes; [|cbn [wpc]; by apply Herr].
  destruct (Hok eq_refl) as (Ho2 & Hc2 & Hd2). cbn [all_recs map concat] in HI2, Hrec. apply Forall_app in Hrec as [Hr1 Hr2]. destruct Hsg as [G1 G2 G3 G4 G5 G6].
  pose proof (zlen_nonneg sg.2) as Hn0.
  wbind. eapply wpc_mono; [done| |apply (recs_play sg.2 (all_recs segs) (Datatypes.S (Z.to_nat (zlen j))) p2 d2 (zlen j) 0 (zlen sg.2) reset)].
  - intros [[stop rs'] p3] d3 (Hor3 & Hp3 & Hok3). cbn [fst snd] in *. destruct Hor3 as [[-> HI3]|(rc & -> & Hrc & HC3)]; [|cbn [wpc]; by apply Herr].
    destruct (Hok3 eq_refl) as [Ho3 Hd3]. destruct (hup_mult P S Hsz (seg_end P S off sg.2)) as (k' & Hk'). destruct Hk' as [Hk' Ek']; [lia|].
    assert (journalOff p3 = seg_end P S off sg.2) as Ho3' by (unfold seg_end; lia). rewrite Ek' in Hch, Hhup.
    apply (IH fuel p3 d3 isHot rs' k'); try done.
    + by rewrite Ho3'.
    + rewrite decide_False by nia. split; [congruence|done].
    + intros Hw Hne. specialize (Hh Hw ltac:(done)). rewrite data_end_cons, decide_False, Ek' in Hh by done. done.
    + lia.
    + lia.
    + lia.
    + intros fuel' p' d' reset' A1 A2 A4 A5 A6 A7. apply Hend; try done.
      * rewrite decide_False in A1 by nia. by rewrite decide_False by (intros [_ E']; done).
      * cbn [next_off]. by rewrite Ek'.
  - done.
  - done.
  - done.
  - lia.
  - rewrite Ho2, Hc2. exact G3.
  - done.
  - intros Ew. specialize (Hh (or_introl Ew) ltac:(done)). unfold seg_end in Hde. lia.
  - lia.
  - unfold seg_end in Hlen. unfold zlen in *. nia.
Qed.
End known.

(** *** Whatever is in the journal *)

Section unknown.
Context (j : list Z) (st h : Z) (r1 : bool) (N : Z) (HN : 0 <= N < 0xffffffff).

(** A record that is not known to be durable goes to the cache only. *)
Lemma one_page_any p d : C d -> now d FJrnl = j -> pk st h r1 p -> 0 <= journalOff p -> (wr st = true -> h <= journalOff p) ->
  wpc S C (pager_playback_one_page cf p) (fun x d' => d' = d /\ pk st h r1 x.2 /\
    (x.1 = SQLITE_OK /\ journalOff p + 4 <= zlen j /\ journalOff x.2 = journalOff p + (P + 8) \/ x.1 = SQLITE_DONE \/ bad x.1)) d.
Proof using Hsz Hcf.
  intros HC Hj Hpk Ho Hh. pose proof (sizes P S Hsz) as [HP _]. set (off := journalOff p) in *.
  unfold pager_playback_one_page. fold off. rewrite (pk_page _ _ _ _ Hpk).
  assert (forall rc p', io_error rc = true \/ rc = SQLITE_IOERR_SHORT_READ -> pk st h r1 p' -> d = d /\ pk st h r1 p' /\
    (rc = SQLITE_OK /\ off + 4 <= zlen j /\ journalOff p' = off + (P + 8) \/ rc = SQLITE_DONE \/ bad rc)) as Herr.
  { intros rc p' Hrc Hp'. split; [done|]. split; [done|]. right. right. destruct Hrc as [Hrc| ->]; [by apply io_error_bad|apply bad_short]. }
  wbind. apply wpc_read32; [done|lia| | |]; rewrite ?Hj; [|intros _; cbn [wpc]; by apply Herr; [right|]|intros rc Hrc; codes; cbn [wpc]; apply Herr; [by left|done]]. intros Hl. codes.
  set (q := sqlite3Get4byte (fread j off 4)).
  wbind. apply wpc_Read; [done|lia|lia| | |]; rewrite ?Hj; [|intros _; cbn [wpc]; by apply Herr; [right|]|intros rc Hrc; codes; cbn [wpc]; apply Herr; [by left|done]]. intros Hl2. codes.
  set (dat := fread j (off + 4) P). set (p1 := set_journalOff p (off + (P + 8))). assert (pk st h r1 p1) as Hp1 by (unfold p1; auto with pk).
  assert (journalOff p1 = off + (P + 8)) as Ho1 by done. clearbody p1 q. rewrite Ho1.
  case_if; [cbn [wpc fst snd]; auto|]. case_if; [cbn [wpc fst snd]; split; [done|]; split; [done|]; by left|].
  wbind. apply wpc_read32; [done|lia| | |]; rewrite ?Hj; [|intros _; cbn [wpc]; by apply Herr; [right|]|intros rc Hrc; codes; cbn [wpc]; apply Herr; [by left|done]]. intros Hl3. codes.
  destruct (pager_cksum p1 dat =? _); cbn [negb]; [|cbn [wpc fst snd]; auto].
  set (p2 := if (q =? 1) && _ then _ else p1).
  assert (pk st h r1 p2 /\ journalOff p2 = off + (P + 8)) as [Hp2 Ho2].
  { unfold p2. case_if; (split; [auto with pk|done]). }
  clearbody p2. rewrite Ho2, (pk_hdr _ _ _ _ Hp2), (pk_state _ _ _ _ Hp2), (co_noSync _ _ Hcf). cbn [orb].
  change ((PAGER_WRITER_DBMOD <=? st) || (st =? PAGER_OPEN)) with (wr st).
  assert (wr st && (off + (P + 8) <=? h) = false) as ->.
  { assert (wr st = true \/ wr st = false) as [Ew|Ew] by (by destruct (wr st); [left|right]); rewrite Ew; cbn [andb]; [|done]. apply Z.leb_gt. specialize (Hh Ew). lia. }
  cbn [dbind]. destruct (pcache p2 !! q) as [g|] eqn:Eg; cbn [wpc fst snd]; [|by split; [|split; [|left]]].
  assert (pk st h r1 (set_pcache p2 (<[q := set_pData g dat]> (pcache p2)))) as H4.
  { apply pk_pcache; [|done]. intros E. rewrite (pk_cache _ _ _ _ Hp2 E) in Eg. by rewrite lookup_empty in Eg. }
  split; [done|]. split; [case_if; auto with pk|]. left. split; [done|]. split; [done|]. by case_if.
Qed.

Lemma recs_any fuel : forall p d u n reset, C d -> now d FJrnl = j -> pk st h r1 p -> 0 <= journalOff p -> (wr st = true -> h <= journalOff p) ->
  zlen j < Z.of_nat fuel + journalOff p -> (0 < fuel)%nat ->
  wpc S C (playback_recs cf fuel p (zlen j) u n reset) (fun x d' => d' = d /\ pk st h r1 x.2 /\
    ((exists rc, x.1.1 = Some rc /\ (rc = SQLITE_OK \/ bad rc)) \/ x.1.1 = None /\ Z.min (zlen j) (journalOff p) <= journalOff x.2)) d.
Proof using Hsz Hcf.
  pose proof (sizes P S Hsz) as [HP _]. induction fuel as [|fuel IH]; intros p d u n reset HC Hj Hpk Ho Hh Hf Hf0; [lia|]. cbn [playback_recs].
  destruct (u <? n); [|cbn [wpc fst snd]; split; [done|]; split; [done|]; right; split; [done|lia]].
  set (p1 := if reset then pager_reset p else p).
  assert (pk st h r1 p1 /\ journalOff p1 = journalOff p) as (Hp1 & Ho1) by (unfold p1; destruct reset; [split; [auto with pk|done]|done]). clearbody p1.
  wbind. eapply wpc_mono; [done| |apply (one_page_any p1 d)]; try done; [|lia|rewrite Ho1; done].
  intros [rc p2] d' (-> & Hp2 & Hor). cbn [fst snd] in *. destruct Hor as [(-> & Hl & Ho2)|[->|Hb]].
  - codes. eapply wpc_mono; [done| |apply (IH p2 d (u + 1) n false)]; try done; [|lia|intros Ew; specialize (Hh Ew); lia|lia|lia].
    intros [[stop rs] p3] d3 (-> & Hp3 & Hor). cbn [fst snd] in *. split; [done|]. split; [done|]. destruct Hor as [Hor|[-> Hor]]; [by left|]. right. split; [done|lia].
  - cbn. split; [done|]. split; [auto with pk|]. right. split; [done|lia].
  - destruct (bad_ne _ Hb) as (_ & Hd & _). codes. rewrite (proj2 (Z.eqb_neq _ _) Hd). case_if; cbn [wpc fst snd]; (split; [done|]); (split; [done|]); left; eauto.
Qed.

(** What the first header says, when it is read. *)
Definition first_hdr : Prop := S <= zlen j -> fread j 16 4 = sqlite3Put4byte N /\ fread j 20 4 = sqlite3Put4byte S /\ fread j 24 4 = sqlite3Put4byte P.

Lemma hdr_any p isHot off d : C d -> now d FJrnl = j -> pk st h r1 p -> hup S (journalOff p) = off -> 0 <= off -> (off = 0 -> first_hdr) ->
  wpc S C (readJournalHdr p isHot (zlen j)) (fun x d' => d' = d /\ pk st h r1 x.2 /\ (x.1.1.1 = SQLITE_DONE \/ io_error x.1.1.1 = true \/
    x.1.1.1 = SQLITE_OK /\ (off = 0 -> x.1.2 = N) /\ off + S <= zlen j /\ journalOff x.2 = off + S)) d.
Proof using Hsz HN.
  intros HC Hj Hpk Hup Ho Hfirst. pose proof (sizes P S Hsz) as [HP HS]. unfold readJournalHdr.
  assert (journalHdrOffset p = off) as -> by (unfold journalHdrOffset, JOURNAL_HDR_SZ; rewrite (pk_sector _ _ _ _ Hpk); exact Hup).
  set (p1 := set_journalOff p off). assert (pk st h r1 p1) as Hp1 by (unfold p1; auto with pk). change (journalOff p1) with off.
  unfold JOURNAL_HDR_SZ. rewrite (pk_sector _ _ _ _ Hp1). case_if; breflect; [cbn [wpc fst snd]; auto|].
  wbind. eapply (wpc_mono _ _ C _ (fun rc d' => d' = d /\ (rc = SQLITE_OK \/ rc = SQLITE_DONE \/ io_error rc = true))); [done| |].
  2: { destruct (isHot || _); [|apply wpc_ret; auto]. wbind. apply wpc_Read; [done|lia|lia| | |]; rewrite ?Hj; [|lia|].
    - intros _. codes. apply wpc_ret. case_if; auto.
    - intros rc Hrc. codes. apply wpc_ret; auto. }
  intros rc d' [-> [->|[->|Hrc]]]; [codes|cbn; auto|codes; cbn; auto].
  wbind. apply wpc_read32; [done|lia| | |]; rewrite ?Hj; [intros _|lia|intros rc Hrc; codes; cbn [wpc fst snd]; auto]. codes.
  wbind. apply wpc_read32; [done|lia| | |]; rewrite ?Hj; [intros _|lia|intros rc Hrc; codes; cbn [wpc fst snd]; auto]. codes.
  set (ck := sqlite3Get4byte (fread j (off + 12) 4)). set (p2 := set_cksumInit p1 ck). assert (pk st h r1 p2) as Hp2 by (unfold p2; auto with pk).
  wbind. apply wpc_read32; [done|lia| | |]; rewrite ?Hj; [intros _|lia|intros rc Hrc; codes; cbn [wpc fst snd]; auto]. codes. change (journalOff p2) with off.
  assert (off = 0 -> sqlite3Get4byte (fread j (off + 16) 4) = N) as HNN.
  { intros ->. destruct (Hfirst eq_refl ltac:(lia)) as (F & _). change (0 + 16) with 16. rewrite F. apply get4byte_put4byte. lia. }
  wbind. eapply (wpc_mono _ _ C _ (fun x d' => d' = d /\ pk st h r1 x.2 /\ (io_error x.1.2 = true /\ x.1.1 = true \/ x.1 = (false, SQLITE_OK) /\
    journalOff x.2 = off))); [done| |].
  - intros [[stop rc] p3] d' (-> & Hp3 & Hor). cbn [fst snd] in *. destruct Hor as [[Hrc ->]|(E & E1)].
    + cbn [wpc fst snd]. auto.
    + injection E as -> ->. cbn [wpc fst snd]. split; [done|]. split; [auto with pk|]. right. right. unfold JOURNAL_HDR_SZ. rewrite (pk_sector _ _ _ _ Hp3). cbn [journalOff set_journalOff]. rewrite E1. auto.
  - case_if; breflect; [|apply wpc_ret; split; [done|]; split; [done|right; done]]. unfold read_sizes.
    match goal with H : off = 0 |- _ => destruct (Hfirst H ltac:(lia)) as (_ & F1 & F2); rewrite H end.
    apply (wpc_read32_known _ _ _ _ S); [done|lia|lia|by rewrite Hj| |intros rc Hrc; codes; cbn [wpc fst snd]; auto]. codes.
    apply (wpc_read32_known _ _ _ _ P); [done|lia|lia|by rewrite Hj| |intros rc Hrc; codes; cbn [wpc fst snd]; auto]. codes.
    rewrite (proj2 (Z.eqb_neq P 0)) by lia. rewrite Hsz. cbn [negb]. unfold sqlite3PagerSetPagesize. rewrite (pk_page _ _ _ _ Hp2), Z.eqb_refl. cbn [negb]. rewrite andb_false_r.
    cbn [dbind wpc fst snd]. split; [done|]. split; [auto with pk|]. right. done.
Qed.

Lemma loop_any fuel : forall p d isHot reset off, C d -> now d FJrnl = j -> pk st h r1 p -> hup S (journalOff p) = off -> 0 <= journalOff p ->
  (wr st = true -> 0 < off /\ h <= off) -> (off = 0 -> first_hdr) -> zlen j < Z.of_nat fuel + journalOff p -> (0 < fuel)%nat ->
  wpc S C (playback_loop cf fuel p isHot (zlen j) reset) (fun x d' => d' = d /\ pk st h r1 x.2 /\ (x.1 = SQLITE_OK \/ bad x.1)) d.
Proof using Hsz Hcf HN.
  pose proof (sizes P S Hsz) as [HP HS]. induction fuel as [|fuel IH]; intros p d isHot reset off HC Hj Hpk Hup Ho Hwr Hfirst Hf Hf0; [lia|]. cbn [playback_loop].
  pose proof (hup_ge P S Hsz (journalOff p) Ho) as Hhup. rewrite Hup in Hhup.
  wbind. eapply wpc_mono; [done| |apply (hdr_any p isHot off d HC Hj Hpk Hup ltac:(lia) Hfirst)].
  intros [[[rc n] mx] p1] d1 (-> & Hp1 & Hor). cbn [fst snd] in *. destruct Hor as [->|[Hrc|(-> & Hmx & Hl & Ho1)]].
  - cbn. auto.
  - codes. cbn [wpc fst snd]. split; [done|]. split; [done|]. right. by apply io_error_bad.
  - codes. unfold JOURNAL_HDR_SZ. rewrite Ho1, (pk_sector _ _ _ _ Hp1). set (nr := record_count p1 isHot (zlen j) n).
    wbind. eapply (wpc_mono _ _ C _ (fun x d' => d' = d /\ pk st h r1 x.2 /\ x.1 = SQLITE_OK /\ journalOff x.2 = off + S)); [done| |].
    2: { case_if; breflect; [|by apply wpc_ret]. assert (off = 0) as -> by lia. rewrite (Hmx eq_refl). unfold pager_truncate.
      rewrite (pk_state _ _ _ _ Hp1). change ((PAGER_WRITER_DBMOD <=? st) || (st =? PAGER_OPEN)) with (wr st).
      assert (wr st = false) as -> by (destruct (wr st); [destruct (Hwr eq_refl); lia|done]). cbn [dbind]. codes. apply wpc_ret. cbn [fst snd].
      split; [done|]. split; [case_if; auto with pk|]. split; [done|]. by case_if. }
    intros [rc p2] d2 (-> & Hp2 & Erc & Ho2). cbn [fst snd] in *. subst rc. codes.
    wbind. eapply wpc_mono; [done| |apply (recs_any (Datatypes.S (Z.to_nat (zlen j))) p2 d 0 nr reset)]; try done; [|lia|intros Ew; destruct (Hwr Ew); lia|lia|lia].
    intros [[stop rs] p3] d3 (-> & Hp3 & Hor). cbn [fst snd] in *. destruct Hor as [(rc & -> & Hrc)|[-> Ho3]]; [cbn [wpc fst snd]; auto|].
    apply (IH p3 d isHot rs (hup S (journalOff p3))); try done; pose proof (hup_ge P S Hsz (journalOff p3) ltac:(lia)); try lia.
    intros Ew. destruct (Hwr Ew). lia.
Qed.

(** The playback ends where there is no header. *)
Lemma loop_nomagic fuel p d isHot reset : C d -> now d FJrnl = j -> pk st h r1 p -> 0 <= journalOff p -> isHot = true -> ~ magic_at j (hup S (journalOff p)) -> (0 < fuel)%nat ->
  wpc S C (playback_loop cf fuel p isHot (zlen j) reset) (fun x d' => d' = d /\ pk st h r1 x.2 /\ (x.1 = SQLITE_OK \/ bad x.1)) d.
Proof using Hsz.
  intros HC Hj Hpk Ho -> Hm Hf. pose proof (sizes P S Hsz) as [HP HS]. pose proof (hup_ge P S Hsz (journalOff p) Ho) as Hhup. destruct fuel as [|fuel]; [lia|]. cbn [playback_loop]. unfold readJournalHdr.
  assert (journalHdrOffset p = hup S (journalOff p)) as -> by (unfold journalHdrOffset, JOURNAL_HDR_SZ; by rewrite (pk_sector _ _ _ _ Hpk)).
  set (off := hup S (journalOff p)) in *. set (p1 := set_journalOff p off). assert (pk st h r1 p1) as Hp1 by (unfold p1; auto with pk). change (journalOff p1) with off.
  unfold JOURNAL_HDR_SZ. rewrite (pk_sector _ _ _ _ Hp1). wbind. case_if; breflect; [cbn; auto|]. cbn [orb]. wbind. wbind. apply wpc_Read; [done|lia|lia| | |]; rewrite ?Hj; [|lia|].
  - intros _. cbn [wpc]. codes. rewrite bool_decide_false by done. cbn. auto.
  - intros rc Hrc. cbn [wpc]. steps. cbn [wpc]. steps. cbn [wpc fst snd]. split; [done|]. split; [done|]. right. by apply io_error_bad.
Qed.
End unknown.
End play.
