(* ===== verification/PagerRecover.v ===== *)
(** * Rolling back and recovering (pager.c of sqlite3.c)

    [wpc_playback]: playing back a journal that covers what the database file lost leaves the
    database as it was, and at every step a disk from which it can be recovered.
    [wpc_start_reading]: so does starting to read, which rolls a hot journal back first. *)

From S2P Require Import Prelude Bitwise Varint UnixFile Disk Pager Journal PagerPlay.
From stdpp Require Import options.

Section whole.
Context (P S : Z) (Hsz : sizes_ok P S = true).
Context (A : list (list Z)) (img : list Z).

Abbreviation R := (Recoverable P S A img).

(** *** A database file that is whole *)

Definition whole (d : disk) : Prop := R d /\ forall c, c ∈ v_all (d_db d) -> c = img.

Lemma whole_cold d : R d -> ~ jrnl_hot d -> whole d.
Proof using. intros HR Hh. split; [done|]. pose proof (rc_now _ _ _ _ _ HR) as H. rewrite decide_False in H by done. apply H. Qed.

Lemma rec_img d : R d -> image_ok P img.
Proof using. intros HR. apply (rc_images _ _ _ _ _ HR). apply (rc_in _ _ _ _ _ HR). Qed.

Lemma rec_dirsync d b : R d -> R (set_dirsync d b).
Proof using. by intros []; split. Qed.

Lemma whole_dirsync d b : whole d -> whole (set_dirsync d b).
Proof using. intros [H1 H2]. split; [by apply rec_dirsync|done]. Qed.

(** What a journal has to be while the database is whole. *)
Definition jrnl_ok (v : versions) : Prop :=
  forall j, survives S (v_all v) j -> plain j -> ~ magic_at j 0 \/ exists rs, hot P S img j rs.

Lemma whole_intro d : image_ok P img -> (forall i, i ∈ A -> image_ok P i) -> img ∈ A -> plain (now d FJrnl) ->
  (forall c, c ∈ v_all (d_db d) -> c = img) -> (forall v, d_jrnl d = Some v -> jrnl_ok v) -> gone_ok P S A img (d_gone d) ->
  (jrnl_hot d -> d_gone d = []) -> (~ jrnl_hot d -> forall v c, d_jrnl d = Some v -> c ∈ v_all v -> ~ magic_at c 0) -> whole d.
Proof using Hsz.
  intros Hi HA Hin Hp Hdb Hj Hg Hh Hnh. split; [|done]. assert (v_now (d_db d) = img) as Hnow by (apply Hdb; left).
  split; try done.
  - intros j b Hs Hb. assert (b = img) as ->.
    { rewrite <- Hnow. apply (survives_all P S Hsz (v_all (d_db d))); [left|intros c Hc; rewrite Hnow; by apply Hdb|done]. }
    destruct j as [b'|]; cbn [jrnl_survives] in Hs.
    + destruct Hs as (v & Hv & Hs & Hpl). apply elem_of_cons in Hv as [Hv|Hv]; [|apply (Hg (Some b')); by exists v].
      exists img. split; [done|]. destruct (Hj v (eq_sym Hv) b' Hs Hpl) as [Hm|(rs & Hrs)]; [by apply stands_cold|].
      apply (stands_hot P S img b' rs); [done|]. by apply (covers_self P S Hsz).
    + apply elem_of_cons in Hs as [Hs|Hs]; [by exists img|by apply (Hg None)].
  - destruct (decide (jrnl_hot d)) as [Hhot|Hnhot]; [|split; [done|by apply Hnh]]. split; [by apply Hh|].
    unfold jrnl_hot, now, file_of in *. destruct (d_jrnl d) as [v|] eqn:Ev; [|by apply nomagic_nil in Hhot].
    destruct (Hj v eq_refl (v_now v) (survives_now S _ _) Hp) as [Hm|(rs & Hrs)]; [done|]. exists rs. split; [done|].
    intros c Hc. rewrite (Hdb c Hc). by apply (covers_self P S Hsz).
Qed.

Lemma whole_gone d v g : whole d -> d_jrnl d = Some v -> (forall x, x ∈ g -> x ∈ Some v :: d_gone d) -> whole (set_dgone (set_djrnl d None) g).
Proof using Hsz.
  intros [HR Hdb] Hv Hg. pose proof (rec_img d HR). split; [|done].
  apply (recoverable_cold P S Hsz); cbn; try done.
  - apply (rc_images _ _ _ _ _ HR).
  - apply (rc_in _ _ _ _ _ HR).
  - apply (gone_ok_sub P S A img (d_jrnl d :: d_gone d)); [by rewrite Hv|]. by apply (recoverable_gone P S).
Qed.

Lemma whole_deleted d v : whole d -> d_jrnl d = Some v -> whole (jrnl_deleted d v) /\ whole (set_dgone (jrnl_deleted d v) []).
Proof using Hsz.
  intros Hw Hv. split; [by apply (whole_gone d v)|]. unfold jrnl_deleted.
  change (set_dgone (set_dgone (set_djrnl d None) (Some v :: d_gone d)) []) with (set_dgone (set_djrnl d None) []).
  apply (whole_gone d v); [done..|]. intros x Hx. by apply not_elem_of_nil in Hx.
Qed.

(** Syncing the database file when it is the database. *)
Lemma whole_synced d : R d -> v_now (d_db d) = img -> whole (set_ddb d (mkVer (v_now (d_db d)) [])).
Proof using Hsz.
  intros HR Hnow. split; [|intros c Hc; cbn in Hc; set_solver]. pose proof HR as [H1 H2 H3 H4 H5]. split; try done.
  - intros j b Hj Hb. apply (H1 j b Hj). by apply survives_synced.
  - change (jrnl_hot (set_ddb d (mkVer (v_now (d_db d)) []))) with (jrnl_hot d). destruct (decide (jrnl_hot d)).
    + destruct H2 as (H2 & rs & H6 & H7). split; [done|]. exists rs. split; [done|]. intros c Hc. apply H7. cbn in Hc. set_solver.
    + destruct H2 as [H2 H6]. split; [|done]. intros c Hc. apply H2. cbn in Hc. set_solver.
Qed.

(** Syncing the journal. *)
Lemma rec_sync_jrnl d v : R d -> d_jrnl d = Some v -> R (jrnl_synced d v).
Proof using Hsz.
  intros HR Hv. pose proof HR as [H1 H2 H3 H4 H5].
  assert (now d FJrnl = v_now v) as En by (unfold now, file_of; by rewrite Hv). pose proof (sizes P S Hsz) as [_ HS].
  assert (forall g, (forall x, x ∈ g -> x ∈ d_gone d) -> R (set_dgone (set_djrnl d (Some (mkVer (v_now v) []))) g)) as Hg.
  { intros g Hg. assert (now (set_dgone (set_djrnl d (Some (mkVer (v_now v) []))) g) FJrnl = now d FJrnl) as En' by (by rewrite En). split; try done.
    - intros j b Hj Hb. apply H1; [|done]. destruct j as [j|]; cbn [jrnl_survives] in *.
      + destruct Hj as (v' & Hv' & Hs & Hp). apply elem_of_cons in Hv' as [Hv'|Hv']; [|exists v'; split; [by right; apply Hg|done]].
        cbn [d_jrnl set_dgone set_djrnl] in Hv'. injection Hv' as ->. exists v. split; [rewrite Hv; by left|]. split; [|done]. by apply survives_synced.
      + apply elem_of_cons in Hj as [Hj|Hj]; [done|]. right. by apply Hg.
    - assert (jrnl_hot (set_dgone (set_djrnl d (Some (mkVer (v_now v) []))) g) <-> jrnl_hot d) as Eh by (unfold jrnl_hot; by rewrite En').
      destruct (decide (jrnl_hot d)); [rewrite decide_True by tauto|rewrite decide_False by tauto].
      + destruct H2 as [H2 H6]. split; [|by rewrite En']. cbn. rewrite H2 in Hg. destruct g as [|x g]; [done|]. specialize (Hg x ltac:(by left)). by apply not_elem_of_nil in Hg.
      + destruct H2 as [H2 H6]. split; [done|]. intros v' c Hv' Hc. cbn in Hv'. injection Hv' as <-. apply (H6 v c Hv). apply elem_of_cons in Hc as [->|Hc]; [by left|by apply not_elem_of_nil in Hc].
    - by rewrite En'. }
  unfold jrnl_synced. cbv zeta. change (d_dirsync (set_djrnl d (Some (mkVer (v_now v) [])))) with (d_dirsync d). destruct (d_dirsync d).
  - apply rec_dirsync. apply (Hg []). intros x Hx. by apply not_elem_of_nil in Hx.
  - by apply (Hg (d_gone d)).
Qed.
End whole.

Lemma lock_ok rc : lock_error rc = true -> (rc =? SQLITE_OK) = false.
Proof.
  unfold lock_error. intros H. apply orb_true_iff in H as [H|H]; [|by apply io_ok]. breflect. apply Z.eqb_neq. by subst.
Qed.

(** A code of the system: neither success nor the one of a loop that was cut off. *)
Definition err (rc : Z) : Prop := rc <> SQLITE_OK /\ rc <> NO_FUEL.

Lemma bad_err rc : bad rc -> err rc.
Proof. intros H. split; by apply bad_ne. Qed.

Lemma err_ok rc : err rc -> (rc =? SQLITE_OK) = false.
Proof. intros [H _]. by apply Z.eqb_neq. Qed.

Lemma lock_err rc : lock_error rc = true -> err rc.
Proof. intros H. split; intros ->; done. Qed.

Section recover.
Context (P S : Z) (Hsz : sizes_ok P S = true).
Context (cf : PagerConf) (Hcf : conf_ok cf S).
Context (pager_delsuper : Pager -> list Z -> prog (Z * Pager)).
Context (A : list (list Z)) (img : list Z).

Abbreviation R := (Recoverable P S A img).
Abbreviation whole := (whole P S A img).

(** *** Locks, syncing *)

Lemma wpc_lockDb (C : disk -> Prop) p lk (Q : Z * Pager -> disk -> Prop) d : C d -> eLock p < UNKNOWN_LOCK ->
  Q (SQLITE_OK, if eLock p <? lk then set_eLock p lk else p) d -> (forall rc, lock_error rc = true -> Q (rc, p) d) -> wpc S C (pagerLockDb p lk) Q d.
Proof using.
  intros HC Hl H1 H2. unfold pagerLockDb. rewrite (proj2 (Z.eqb_neq (eLock p) UNKNOWN_LOCK)) by lia. rewrite orb_false_r. cbn [negb orb].
  destruct (eLock p <? lk); [|done]. apply wpc_bind. apply wpc_Lock; [done|]. intros rc [->|Hrc]; cbn [wpc]; codes; [done|].
  rewrite (lock_ok rc Hrc). cbn [andb]. by apply H2.
Qed.

Lemma wpc_wait (C : disk -> Prop) p lk (Q : Z * Pager -> disk -> Prop) d : C d -> eLock p < UNKNOWN_LOCK ->
  Q (SQLITE_OK, if eLock p <? lk then set_eLock p lk else p) d -> (forall rc, lock_error rc = true -> Q (rc, p) d) -> wpc S C (pager_wait_on_lock cf p lk) Q d.
Proof using.
  intros HC Hl H1 H2. unfold pager_wait_on_lock. induction (nBusy cf) as [|n IH]; cbn [wait_loop]; apply wpc_bind; apply wpc_lockDb; try done.
  intros rc Hrc. case_if; [exact IH|by apply H2].
Qed.

Lemma wpc_unlockDb (C : disk -> Prop) p lk (Q : Z * Pager -> disk -> Prop) d : C d -> eLock p < UNKNOWN_LOCK ->
  (forall rc, rc = SQLITE_OK \/ io_error rc = true -> Q (rc, set_changeCountDone (set_eLock p lk) false) d) -> wpc S C (pagerUnlockDb p lk) Q d.
Proof using.
  intros HC Hl H1. unfold pagerUnlockDb. rewrite (proj2 (Z.eqb_neq (eLock p) UNKNOWN_LOCK)) by lia. apply wpc_bind. apply wpc_Unlock; [done|].
  intros rc Hrc. cbn [wpc]. by apply H1.
Qed.

Lemma wpc_pagerSync (C : disk -> Prop) p (Q : Z -> disk -> Prop) d : C d ->
  C (set_ddb d (mkVer (v_now (d_db d)) [])) -> Q SQLITE_OK (set_ddb d (mkVer (v_now (d_db d)) [])) ->
  (forall rc, bad rc -> Q rc d) -> wpc S C (sqlite3PagerSync cf p) Q d.
Proof using Hcf.
  intros HC H1 H2 H3. unfold sqlite3PagerSync. apply wpc_bind. apply wpc_Control; [done|]. intros rc Hrc. cbv zeta. rewrite (co_noSync _ _ Hcf). cbn [negb]. rewrite andb_true_r.
  assert (wpc S C (os (OsSync FDb (syncFlags cf))) Q d) as Hs.
  { apply wpc_Sync_db; [done|done|]. intros rc' Hrc'. apply H3. by apply io_error_bad. }
  destruct Hrc as [->|[->|Hrc]]; [exact Hs|exact Hs|]. destruct (rc =? SQLITE_NOTFOUND); [exact Hs|]. codes. apply wpc_ret. apply H3. by apply io_error_bad.
Qed.

(** *** The end of a playback *)

(** A pager that holds a shared lock. *)
Record at_read (r1 : bool) (p : Pager) : Prop := {
  ar_page : pageSize p = P;
  ar_sector : sectorSize p = S;
  ar_lck : lckPgno p = lockpage P;
  ar_err : errCode p = SQLITE_OK;
  ar_lock : eLock p = SHARED_LOCK;
  ar_jfd : jfd p = false;
  ar_ref : ref1 p = r1;
  ar_count : changeCountDone p = false;
  ar_cache : r1 = false -> pcache p = ∅
}.

Lemma truncate_empty p n : pcache p = ∅ -> ref1 p = false -> sqlite3PcacheTruncate (sqlite3PcacheCleanAll (pcache p)) (pageSize p) (ref1 p) n = ∅.
Proof using.
  intros E1 E2. unfold sqlite3PcacheTruncate, sqlite3PcacheCleanAll. rewrite E1, E2, fmap_empty. rewrite andb_false_r. by rewrite map_imap_empty, map_filter_empty.
Qed.

Lemma wpc_finalize p hasSuper d (Q : Z * Pager -> disk -> Prop) : whole d ->
  (forall d', whole d' -> d_jrnl d' = None -> Q (SQLITE_OK, set_jfd p false) d') -> (forall rc d', whole d' -> io_error rc = true -> Q (rc, set_jfd p false) d') ->
  wpc S R (finalize_journal cf p hasSuper) Q d.
Proof using Hsz Hcf.
  intros Hw H1 H2. unfold finalize_journal. rewrite (co_mode _ _ Hcf), (co_exclusive _ _ Hcf).
  cbn [PAGER_JOURNALMODE_DELETE PAGER_JOURNALMODE_TRUNCATE PAGER_JOURNALMODE_PERSIST PAGER_JOURNALMODE_WAL Z.eqb Z.ltb Z.compare orb andb].
  apply wpc_bind. apply wpc_Delete; [apply Hw| |intros rc Hrc; by apply H2].
  intros v Hv. destruct (whole_deleted P S Hsz A img d v Hw Hv) as [Hw1 Hw2]. split_and!.
  - intros _. split; [apply Hw1|by apply H1].
  - intros _. split; [apply Hw2|by apply H1].
  - intros rc Hrc. split; [apply Hw1|by apply H2].
Qed.

Lemma wpc_end_tx p hasSuper st h r1 d (Q : Z * Pager -> disk -> Prop) : pk P S st h r1 p -> whole d ->
  (forall p' d', whole d' -> d_jrnl d' = None -> at_read r1 p' -> eState p' = PAGER_READER -> Q (SQLITE_OK, p') d') ->
  (forall rc p' d', whole d' -> bad rc -> Q (rc, p') d') -> wpc S R (pager_end_transaction cf p hasSuper false) Q d.
Proof using Hsz Hcf.
  intros Hpk Hw H1 H2. unfold pager_end_transaction. pose proof (pk_lock _ _ _ _ _ _ Hpk) as Hl.
  rewrite (proj2 (Z.ltb_ge (eLock p) RESERVED_LOCK)) by lia. rewrite andb_false_r, (pk_jfd _ _ _ _ _ _ Hpk). apply wpc_bind. apply wpc_finalize; [done| |].
  - intros d' Hw' Hn. codes. cbn [andb]. rewrite (co_exclusive _ _ Hcf). cbn [negb]. cbv zeta. cbn [dbind].
    steps. set (p1 := set_pcache _ _). wbind. apply wpc_unlockDb; [apply Hw'|cbn; lia|]. intros rc Hrc. cbn [wpc fst snd].
    destruct Hrc as [->|Hrc]; [|apply H2; [done|by apply io_error_bad]]. apply H1; try done. destruct Hpk. split; cbn; try done.
    intros Er. subst r1. rewrite truncate_empty; cbn; auto.
  - intros rc d' Hw' Hrc. codes. cbn [andb]. rewrite (co_exclusive _ _ Hcf). cbn [negb]. cbv zeta. cbn [dbind].
    steps. set (p1 := set_nRec _ _). wbind. apply wpc_unlockDb; [apply Hw'|cbn; lia|]. intros rc2 Hrc2. cbn [wpc fst snd]. apply H2; [done|by apply io_error_bad].
Qed.

Lemma wpc_SetPagesize (C : disk -> Prop) p n (Q : Z * Pager -> disk -> Prop) d : pageSize p = n -> Q (SQLITE_OK, p) d -> wpc S C (sqlite3PagerSetPagesize p n) Q d.
Proof using. intros <- H. unfold sqlite3PagerSetPagesize. rewrite Z.eqb_refl. cbn [negb]. by rewrite andb_false_r. Qed.

Lemma wpc_end_playback p rc res st h r1 d (Q : Z * Pager -> disk -> Prop) : pk P S st h r1 p -> R d -> rc = SQLITE_OK \/ bad rc ->
  (rc = SQLITE_OK -> if wr st then v_now (d_db d) = img else whole d) ->
  (forall p' d', whole d' -> d_jrnl d' = None -> at_read r1 p' -> eState p' = PAGER_READER -> Q (SQLITE_OK, p') d') ->
  (forall rc p' d', R d' -> bad rc -> Q (rc, p') d') -> wpc S R (end_playback cf pager_delsuper p rc P res) Q d.
Proof using Hsz Hcf.
  intros Hpk HR Hrc Hw H1 H2. unfold end_playback. destruct Hrc as [->|Hrc].
  2: { steps. cbn [wpc]. by apply H2. }
  specialize (Hw eq_refl). codes. wbind. apply wpc_SetPagesize; [apply Hpk|]. cbn [fst snd]. set (p1 := set_changeCountDone p false).
  assert (pk P S st h r1 p1) as Hp1 by (destruct Hpk; by split). clearbody p1. codes. wbind. apply (wpc_readSuper S R); [done|apply (rc_plain _ _ _ _ _ HR)| |].
  2: { intros rc Hrc. steps. cbn [wpc]. by apply H2. }
  codes. rewrite (pk_state _ _ _ _ _ _ Hp1). change ((PAGER_WRITER_DBMOD <=? st) || (st =? PAGER_OPEN)) with (wr st).
  assert (forall d', whole d' -> wpc S R (do! (rc, p) := pager_end_transaction cf p1 false false in
     do! (rc, p) := (if (rc =? SQLITE_OK) && false && res then pager_delsuper p [] else DRet (rc, p)) in DRet (rc, setSectorSize cf p))%dprog Q d') as Hend.
  { intros d' Hw'. wbind. apply (wpc_end_tx p1 false st h r1); [done|done| |].
    - intros p' d2 Hw2 Hn Har Hst. rewrite andb_false_r. cbn [andb dbind wpc]. apply H1; try done. destruct Har. split; try done. cbn. apply (co_sector _ _ Hcf).
    - intros rc p' d2 Hw2 Hrc. rewrite andb_false_r. cbn [andb dbind wpc]. apply H2; [apply Hw2|done]. }
  assert (wr st = true \/ wr st = false) as [Ew|Ew] by (by destruct (wr st); [left|right]); rewrite Ew in *; wbind.
  - assert (whole (set_ddb d (mkVer (v_now (d_db d)) []))) as Hw' by (by apply whole_synced).
    apply wpc_pagerSync; [done|apply Hw'| |].
    + codes. by apply Hend.
    + intros rc Hrc. steps. cbn [wpc]. by apply H2.
  - apply wpc_ret. codes. by apply Hend.
Qed.

(** *** Playing back a journal that covers what the database lost *)

Section restore.
Context (jv : versions) (segs : list segment) (st h : Z) (r1 : bool).
Hypothesis Himg : image_ok P img.
Hypothesis HA : forall i, i ∈ A -> image_ok P i.
Hypothesis Hin : img ∈ A.
Hypothesis Hwr : wr st = true.
Hypothesis Hplain : plain (v_now jv).
Hypothesis Hne : segs <> [].
Hypothesis Hchain : chain P S (v_now jv) 0 (npages P img) segs.
Hypothesis Hrecs : Forall (rec_of P img) (all_recs segs).
Hypothesis Hjv : forall j, survives S (v_all jv) j -> plain j -> exists rs, hot P S img j rs /\ forall q, q ∈ map fst (all_recs segs) -> q ∈ map fst rs.

(** The database lacks no page but those of [rs]. *)
Definition lacks (rs : list jrec) (d : disk) : Prop :=
  d_jrnl d = Some jv /\ d_gone d = [] /\ (forall c, c ∈ v_all (d_db d) -> covers P img (all_recs segs) c) /\
  covers P img rs (v_now (d_db d)) /\ forall q, q ∈ map fst rs -> q ∈ map fst (all_recs segs).
Definition lacks_cut (rs : list jrec) (d : disk) : Prop := lacks rs d /\ zlen (v_now (d_db d)) <= npages P img * P.

Lemma lacks_R rs d : lacks rs d -> R d /\ now d FJrnl = v_now jv.
Proof using Hsz Himg HA Hin Hplain Hjv.
  intros (Hj & Hg & Hc & _). assert (now d FJrnl = v_now jv) as En by (unfold now, file_of; by rewrite Hj). split; [|done].
  apply (recoverable_hot P S Hsz A img d jv (all_recs segs)); try done. by rewrite En.
Qed.

Lemma lacks_put rs rs' c d : lacks rs d -> covers P img (all_recs segs) c -> covers P img rs' c ->
  (forall q, q ∈ map fst rs' -> q ∈ map fst (all_recs segs)) -> lacks rs' (set_ddb d (put (d_db d) c)).
Proof using. intros (H1 & H2 & H3 & H4 & H5) Hc Hc' Hsub. split_and!; try done. intros c' Hin'. apply elem_of_cons in Hin' as [->|Hin']; auto. Qed.

Lemma lacks_write r rs d : lacks_cut (r :: rs) d -> rec_of P img r ->
  lacks_cut rs (set_ddb d (put (d_db d) (fwrite (v_now (d_db d)) ((r.1 - 1) * P) r.2))).
Proof using Hsz Himg.
  intros [HL Hl] Hr. pose proof HL as (H1 & H2 & H3 & H4 & H5). pose proof Hr as ((Hr1 & Hr2 & Hr3) & Hr4 & Hr5). pose proof (sizes P S Hsz) as [HP _]. split.
  - apply (lacks_put (r :: rs)); [done| | |].
    + apply (covers_fwrite P S Hsz); try done; [apply H3; left|lia|lia|]. right. apply H5. by left.
    + by apply (covers_restore P S Hsz).
    + intros q Hq. apply H5. by right.
  - cbn. rewrite zlen_fwrite; [nia|nia|]. intros E. rewrite E in Hr3. change (zlen []) with 0 in Hr3. lia.
Qed.

Lemma lacks_fail r rs d k : lacks_cut (r :: rs) d -> rec_of P img r -> 0 < k < P ->
  R (set_ddb d (put (d_db d) (fwrite (v_now (d_db d)) ((r.1 - 1) * P) (take (Z.to_nat k) r.2)))).
Proof using Hsz Himg HA Hin Hplain Hjv.
  intros [HL Hl] Hr Hk. pose proof HL as (H1 & H2 & H3 & H4 & H5). pose proof Hr as ((Hr1 & Hr2 & Hr3) & Hr4 & Hr5).
  assert (covers P img (all_recs segs) (fwrite (v_now (d_db d)) ((r.1 - 1) * P) (take (Z.to_nat k) r.2))) as Hc.
  { apply (covers_fwrite P S Hsz); try done; [apply H3; left|lia|rewrite zlen_take_min; lia|]. right. apply H5. by left. }
  apply (lacks_R (all_recs segs)). apply (lacks_put (r :: rs)); auto.
Qed.

Lemma wpc_truncate_restore p d : pk P S st h r1 p -> lacks (all_recs segs) d ->
  wpc S R (pager_truncate p (npages P img)) (fun x d' => (x.1 = SQLITE_OK /\ lacks_cut (all_recs segs) d' \/ io_error x.1 = true /\ R d') /\
    pk P S st h r1 x.2 /\ journalOff x.2 = journalOff p /\ cksumInit x.2 = cksumInit p) d.
Proof using Hsz Himg HA Hin Hwr Hplain Hjv.
  intros Hpk HL. destruct (lacks_R _ _ HL) as [HR Hj]. pose proof HL as (H1 & H2 & H3 & H4 & H5). pose proof (sizes P S Hsz) as [HP _]. pose proof Himg as [Hi1 Hi2].
  unfold pager_truncate. rewrite (pk_state _ _ _ _ _ _ Hpk). change ((PAGER_WRITER_DBMOD <=? st) || (st =? PAGER_OPEN)) with (wr st). rewrite Hwr, (pk_page _ _ _ _ _ _ Hpk).
  wbind. apply wpc_FileSize; [done| |]; [|intros rc n Hrc; steps; cbn [wpc fst snd]; by split; [right|]]. steps. change (now d FDb) with (v_now (d_db d)). set (c := v_now (d_db d)) in *.
  assert (forall rc d' x, (rc = SQLITE_OK /\ lacks_cut (all_recs segs) d' \/ io_error rc = true /\ R d') ->
    wpc S R (DRet (rc, if rc =? SQLITE_OK then set_dbFileSize p x else p)) (fun x d' => (x.1 = SQLITE_OK /\ lacks_cut (all_recs segs) d' \/ io_error x.1 = true /\ R d') /\
    pk P S st h r1 x.2 /\ journalOff x.2 = journalOff p /\ cksumInit x.2 = cksumInit p) d') as Hret.
  { intros rc d' x Hor. apply wpc_ret. cbn [fst snd]. split; [done|]. case_if; [|done]. split; [by apply pk_dbFileSize|done]. }
  destruct (Z.eqb_spec (zlen c) (P * npages P img)) as [Hz|Hz]; cbn [negb andb].
  { apply wpc_ret. cbn [fst snd]. split; [|done]. left. split; [done|]. split; [done|]. fold c. lia. }
  wbind. case_if; breflect; [|case_if; breflect].
  - apply (wpc_Truncate S R FDb _ (d_db d)); [done|done| |intros rc Hrc; apply Hret; by right]. cbn [set_file]. intros _. fold c.
    assert (covers P img (all_recs segs) (ftruncate c (P * npages P img))) as Hc.
    { replace (P * npages P img) with (npages P img * P) by lia. by apply (covers_ftruncate P S Hsz). }
    assert (lacks (all_recs segs) (set_ddb d (put (d_db d) (ftruncate c (P * npages P img))))) as HL' by (by apply (lacks_put (all_recs segs))).
    split; [by apply (lacks_R (all_recs segs))|]. apply Hret. left. split; [done|]. split; [done|]. cbn. rewrite zlen_ftruncate by nia. lia.
  - wbind. apply wpc_Control; [done|]. intros rc0 _.
    assert (npages P img ∈ map fst (all_recs segs)) as Hlast by (apply (covers_short P S Hsz img _ c); [done|done|lia]).
    assert (forall b, zlen b <= P -> covers P img (all_recs segs) (fwrite c (P * npages P img - P) b)) as Hc.
    { intros b Hb. replace (P * npages P img - P) with ((npages P img - 1) * P) by lia. apply (covers_fwrite P S Hsz); try done; [lia|by right]. }
    apply (wpc_Write S R FDb _ _ (d_db d)); [done|done| | |]; cbn [set_file]; fold c.
    + intros _. assert (lacks (all_recs segs) (set_ddb d (put (d_db d) (fwrite c (P * npages P img - P) (repeat 0 (Z.to_nat P)))))) as HL'.
      { apply (lacks_put (all_recs segs)); try done; apply Hc; rewrite zlen_repeat; lia. }
      split; [by apply (lacks_R (all_recs segs))|]. apply Hret. left. split; [done|]. split; [done|]. cbn.
      rewrite zlen_fwrite, zlen_repeat; [lia|nia|]. intros E. apply (f_equal zlen) in E. rewrite zlen_repeat in E. change (zlen []) with 0 in E. lia.
    + intros rc Hrc. apply Hret. by right.
    + intros rc k Hrc Hk _ _. rewrite zlen_repeat in Hk.
      assert (R (set_ddb d (put (d_db d) (fwrite c (P * npages P img - P) (take (Z.to_nat k) (repeat 0 (Z.to_nat P))))))) as HR'.
      { apply (lacks_R (all_recs segs)). apply (lacks_put (all_recs segs)); try done; apply Hc; rewrite zlen_take_min, zlen_repeat; lia. }
      split; [done|]. apply Hret. by right.
  - apply wpc_ret. codes. apply (Hret SQLITE_OK). left. split; [done|]. split; [done|]. fold c. lia.
Qed.

Lemma wpc_playback_hot p isHot d (Q : Z * Pager -> disk -> Prop) : pk P S st h r1 p -> lacks (all_recs segs) d -> data_end P S 0 segs <= h ->
  (isHot = true /\ ~ magic_at (v_now jv) (next_off P S 0 segs) \/ h <= next_off P S 0 segs) ->
  (forall p' d', whole d' -> d_jrnl d' = None -> at_read r1 p' -> eState p' = PAGER_READER -> Q (SQLITE_OK, p') d') ->
  (forall rc p' d', R d' -> bad rc -> Q (rc, p') d') -> wpc S R (pager_playback cf pager_delsuper p isHot) Q d.
Proof using Hsz Hcf Himg HA Hin Hwr Hplain Hne Hchain Hrecs Hjv.
  intros Hpk HL Hh Htail H1 H2. destruct (lacks_R _ _ HL) as [HR Hj]. pose proof (sizes P S Hsz) as [HP HS]. unfold pager_playback. rewrite (pk_page _ _ _ _ _ _ Hpk).
  assert (forall rc res p' d', pk P S st h r1 p' -> bad rc -> R d' -> wpc S R (end_playback cf pager_delsuper p' rc P res) Q d') as Hend.
  { intros rc res p' d' Hp' Hb HR'. apply (wpc_end_playback p' rc res st h r1); try done; [by right|]. intros ->. done. }
  wbind. apply wpc_FileSize; [done| |]; [|intros rc n Hrc; steps; apply Hend; [done|by apply io_error_bad|done]]. steps. rewrite Hj.
  wbind. apply (wpc_readSuper S R); [done|by rewrite Hj| |]; [|intros rc Hrc; steps; by apply Hend]. steps. rewrite bool_decide_true by done. steps.
  wbind. apply (loop_chain P S Hsz cf Hcf R (v_now jv) img st h r1 (fun rs d => lacks rs d /\ rs = all_recs segs) lacks_cut) with (segs := segs) (k := 0); try done.
  - intros rs d' [HL' _]. by apply (lacks_R rs).
  - intros rs d' [HL' _]. by apply (lacks_R rs).
  - intros r rs d' _ Hl' Hr. cbv zeta. pose proof (lacks_write r rs d' Hl' Hr) as Hw. split; [|done]. destruct Hw as [Hw _]. by apply (lacks_R rs).
  - intros r rs d' k _ Hl' Hr Hk. by apply (lacks_fail r rs).
  - intros r rs d' Ew. congruence.
  - intros rs p' d' Hp' [HL' ->]. by apply wpc_truncate_restore.
  - by apply pk_journalOff.
  - cbn [journalOff set_journalOff]. lia.
  - lia.
  - intros fuel p' d' reset HI Hp' Hup Ho Hf Hf0. rewrite decide_False in HI by (intros [_ E]; done). destruct HI as [Hdb [HL' Hl']]. destruct (lacks_R _ _ HL') as [HR' Hj'].
    eapply (wpc_mono S R R _ (fun x d2 => d2 = d' /\ pk P S st h r1 x.2 /\ (x.1 = SQLITE_OK \/ bad x.1))); [done| |].
    + intros [rc p2] d2 (-> & Hp2 & Hrc). cbn [fst snd] in *. apply (wpc_end_playback p2 rc true st h r1); try done. intros ->. rewrite Hwr.
      apply (covers_all P S Hsz); [done|apply HL'|done].
    + pose proof (next_off_pos P S Hsz segs Hne) as Hpos. change 0 with (0 * S) in Htail. destruct Htail as [[-> Hm]|Hge].
      * apply loop_nomagic; try done. by rewrite Hup.
      * apply (loop_any P S Hsz cf Hcf R (v_now jv) st h r1 0 ltac:(lia) fuel p' d' isHot reset (next_off P S (0 * S) segs)); try done.
        intros E. lia.
  - intros rc p' d' Hrc HR' Hp'. cbn [fst snd]. apply Hend; [done|by apply io_error_bad|done].
Qed.
End restore.

(** Playing back while the database file is whole. *)
Lemma wpc_playback_whole p isHot st h r1 d (Q : Z * Pager -> disk -> Prop) : pk P S st h r1 p -> whole d ->
  wr st = false /\ first_hdr P S (now d FJrnl) (npages P img) \/ isHot = true /\ ~ jrnl_hot d ->
  (forall p' d', whole d' -> d_jrnl d' = None -> at_read r1 p' -> eState p' = PAGER_READER -> Q (SQLITE_OK, p') d') ->
  (forall rc p' d', R d' -> bad rc -> Q (rc, p') d') -> wpc S R (pager_playback cf pager_delsuper p isHot) Q d.
Proof using Hsz Hcf.
  intros Hpk Hw Hor H1 H2. pose proof Hw as [HR Hdb]. pose proof (rec_img P S A img d HR) as [Hi1 Hi2]. unfold pager_playback. rewrite (pk_page _ _ _ _ _ _ Hpk).
  assert (forall rc res p', pk P S st h r1 p' -> rc = SQLITE_OK \/ bad rc -> wpc S R (end_playback cf pager_delsuper p' rc P res) Q d) as Hend.
  { intros rc res p' Hp' Hb. apply (wpc_end_playback p' rc res st h r1); try done. intros _. destruct (wr st); [|done]. apply Hdb. left. }
  wbind. apply wpc_FileSize; [done| |]; [|intros rc n Hrc; steps; apply Hend; [done|right; by apply io_error_bad]]. steps.
  wbind. apply (wpc_readSuper S R); [done|apply (rc_plain _ _ _ _ _ HR)| |]; [|intros rc Hrc; steps; apply Hend; [done|by right]]. steps. rewrite bool_decide_true by done. steps.
  wbind. eapply (wpc_mono S R R _ (fun x d2 => d2 = d /\ pk P S st h r1 x.2 /\ (x.1 = SQLITE_OK \/ bad x.1))); [done| |].
  - intros [rc p2] d2 (-> & Hp2 & Hrc). cbn [fst snd] in *. by apply Hend.
  - destruct Hor as [[Hwr Hfirst]|[-> Hnh]].
    + apply (loop_any P S Hsz cf Hcf R (now d FJrnl) st h r1 (npages P img) ltac:(lia) _ _ d isHot isHot 0); try done; [by apply pk_journalOff|congruence|cbn; lia|lia].
    + apply loop_nomagic; try done; [by apply pk_journalOff|lia].
Qed.

(** *** Starting to read *)

Definition cold (d : disk) : Prop := whole d /\ ~ jrnl_hot d.

(** A connection that has done nothing yet. *)
Record fresh (p : Pager) : Prop := {
  fr_page : pageSize p = P;
  fr_sector : sectorSize p = S;
  fr_lck : lckPgno p = lockpage P;
  fr_err : errCode p = SQLITE_OK;
  fr_state : eState p = PAGER_OPEN;
  fr_lock : eLock p = NO_LOCK;
  fr_jfd : jfd p = false;
  fr_ref : ref1 p = false;
  fr_count : changeCountDone p = false;
  fr_cache : pcache p = ∅
}.

(** The first page of the database is read, and nothing else. *)
Record reading (p : Pager) : Prop := {
  rd_read : at_read true p;
  rd_state : eState p = PAGER_READER;
  rd_size : dbSize p = npages P img;
  rd_cache : pcache p = {[1 := mkPgHdr (pageof P img 1) false false false]};
  rd_vers : dbFileVers p = fread (pageof P img 1) 24 16
}.

Lemma cold_hot_dec d : R d -> cold d \/ jrnl_hot d.
Proof using. intros HR. destruct (decide (jrnl_hot d)); [by right|left]. split; [|done]. by apply whole_cold. Qed.

Lemma cold_none d : whole d -> d_jrnl d = None -> cold d.
Proof using. intros H1 H2. split; [done|]. unfold jrnl_hot, now, file_of. rewrite H2. apply nomagic_nil. Qed.

Lemma pagecount_pos d : R d -> 0 < (zlen (now d FDb) + P - 1) / P.
Proof using Hsz.
  intros HR. pose proof (sizes P S Hsz) as [HP _]. pose proof (rec_img P S A img d HR) as [Hi1 Hi2]. assert (0 < zlen (now d FDb)) as Hl.
  { destruct (cold_hot_dec d HR) as [[[_ Hw] _]|Hh]; [change (now d FDb) with (v_now (d_db d)); rewrite (Hw (v_now (d_db d))) by left; nia|].
    pose proof (rc_now _ _ _ _ _ HR) as Hn. rewrite decide_True in Hn by done. destruct Hn as (_ & rs & _ & Hc). apply (Hc (v_now (d_db d))). left. }
  apply Z.div_str_pos. lia.
Qed.

(** What a program may do while it only looks: the pager keeps its lock, the disk stays. *)
Lemma wpc_pagecount p (Q : Z * Z * Pager -> disk -> Prop) d : pageSize p = P -> R d ->
  (forall p', p' = p \/ (exists x, p' = set_mxPgno p x) -> Q (SQLITE_OK, (zlen (now d FDb) + P - 1) / P, p') d) ->
  (forall rc, bad rc -> Q (rc, 0, p) d) -> wpc S R (pagerPagecount p) Q d.
Proof using.
  intros Hp HR H1 H2. unfold pagerPagecount. rewrite Hp. wbind. apply wpc_FileSize; [done| |].
  - steps. apply wpc_ret. apply H1. case_if; eauto.
  - intros rc n Hrc. steps. apply wpc_ret. apply H2. by apply io_error_bad.
Qed.

Lemma at_read_mx r1 p x : at_read r1 p -> at_read r1 (set_mxPgno p x).
Proof using. by intros []; split. Qed.
Lemma at_read_state r1 p x : at_read r1 p -> at_read r1 (set_eState p x).
Proof using. by intros []; split. Qed.
Lemma at_read_size r1 p x : at_read r1 p -> at_read r1 (set_dbSize p x).
Proof using. by intros []; split. Qed.

Lemma wpc_hasHot p d (Q : Z * bool * Pager -> disk -> Prop) : at_read false p -> R d ->
  (forall ex p' b, at_read false p' -> eState p' = eState p -> (ex = false -> ~ jrnl_hot d) -> Q (SQLITE_OK, ex, p') (set_dirsync d b)) ->
  (forall rc ex p' d', R d' -> err rc -> Q (rc, ex, p') d') -> wpc S R (hasHotJournal cf p) Q d.
Proof using Hsz.
  intros Hp HR H1 H2. assert (set_dirsync d (d_dirsync d) = d) as Ed by (by destruct d). unfold hasHotJournal. rewrite (ar_jfd _ _ Hp). wbind.
  assert (forall rc, io_error rc = true -> Q (rc, false, p) d) as Hio by (intros rc Hrc; apply H2; [done|by apply bad_err, io_error_bad]).
  apply wpc_Access; [done| |intros rc Hrc; steps; cbn [wpc]; by apply Hio]. steps.
  destruct (Z.ltb_spec 0 (zlen (now d FJrnl))) as [Hl|Hl]; cbn [negb andb].
  2: { apply wpc_ret. rewrite <- Ed. apply H1; try done. intros _. unfold jrnl_hot, magic_at. intros E. apply (f_equal zlen) in E.
       pose proof (zlen_fread_full (now d FJrnl) 0 8 ltac:(lia) ltac:(lia)) as [Hf _]. specialize (Hf E). lia. }
  wbind. apply wpc_Reserved; [done| |intros rc Hrc; steps; cbn [wpc]; by apply Hio]. steps.
  wbind. apply wpc_pagecount; [apply Hp|done| |intros rc Hrc; steps; cbn [wpc]; apply H2; [done|by apply bad_err]].
  intros p' Hp'. steps. rewrite (proj2 (Z.eqb_neq _ 0)) by (pose proof (pagecount_pos d HR); lia). cbn [andb].
  assert (at_read false p' /\ eState p' = eState p) as (Hp1 & Hs1).
  { destruct Hp' as [->|[x ->]]; [done|]. split; [by apply at_read_mx|done]. }
  clear Hp'. unfold journal_looks_hot. wbind. cbn iota. apply wpc_Open; [done| | |].
  - intros v Hv. split; [by apply rec_dirsync|]. steps. assert (now (set_dirsync d false) FJrnl = now d FJrnl) as En by done.
    wbind. apply wpc_Read; [by apply rec_dirsync|lia|lia| | |]; rewrite ?En; [|lia|].
    + intros _. steps. apply wpc_ret. apply H1; try done. intros E Hh. apply negb_false_iff in E. breflect. unfold jrnl_hot, magic_at in Hh.
      rewrite (zat_fread (now d FJrnl) 0 1 0) in E by lia. apply (f_equal (fun l => zat l 0)) in Hh. rewrite zat_fread in Hh by lia. rewrite E in Hh. done.
    + intros rc Hrc. steps. apply wpc_ret. apply H2; [by apply rec_dirsync|by apply bad_err, io_error_bad].
  - intros Hv. unfold now, file_of in Hl. rewrite Hv in Hl. change (zlen []) with 0 in Hl. lia.
  - intros rc Hrc. assert (err rc) as Hrc2 by (split; intros ->; done). rewrite (err_ok _ Hrc2). case_if; apply wpc_ret; [|by apply H2].
    rewrite <- Ed. by apply H1.
Qed.

(** A journal that was opened is synced and played back. *)
Lemma wpc_sync_play p d v (Q : Z * Pager -> disk -> Prop) : pk P S PAGER_OPEN (journalHdr p) false p -> R d -> d_jrnl d = Some v ->
  (forall p' d', cold d' -> at_read false p' -> eState p' = PAGER_OPEN -> Q (SQLITE_OK, p') d') ->
  (forall rc p' d', R d' -> err rc -> Q (rc, p') d') ->
  wpc S R (do! (rc, p) := pagerSyncHotJournal cf p in
           if rc =? SQLITE_OK then do! (rc, p) := pager_playback cf pager_delsuper p true in DRet (rc, set_eState p PAGER_OPEN)
           else DRet (rc, p))%dprog Q d.
Proof using Hsz Hcf.
  intros Hpk HR Hv H1 H2. unfold pagerSyncHotJournal. rewrite (co_noSync _ _ Hcf). cbn [negb]. wbind. wbind.
  pose proof (rec_sync_jrnl P S Hsz A img d v HR Hv) as HR1. set (d1 := jrnl_synced d v) in *.
  pose proof (jrnl_synced_jrnl d v : d_jrnl d1 = Some (mkVer (v_now v) [])) as Hv1.
  assert (now d1 FJrnl = v_now v) as En by (unfold now, file_of; by rewrite Hv1).
  apply (wpc_Sync_jrnl S R _ v); [done|done| |intros rc Hrc; steps; cbn [wpc]; steps; cbn [wpc]; apply H2; [done|by apply bad_err, io_error_bad]]. fold d1. split; [done|]. steps.
  wbind. apply wpc_FileSize; [done| |intros rc n Hrc; steps; cbn [wpc]; steps; cbn [wpc]; apply H2; [done|by apply bad_err, io_error_bad]]. cbn [wpc]. steps. wbind.
  rewrite En. set (p1 := set_journalHdr p (zlen (v_now v))). assert (pk P S PAGER_OPEN (zlen (v_now v)) false p1) as Hp1 by (destruct Hpk; by split).
  assert (forall p' d', whole d' -> d_jrnl d' = None -> at_read false p' -> eState p' = PAGER_READER -> wpc S R (DRet (SQLITE_OK, set_eState p' PAGER_OPEN)) Q d') as Hok.
  { intros p' d' Hw Hn Har _. apply wpc_ret. apply H1; [by apply cold_none|by apply at_read_state|done]. }
  assert (forall rc p' d', R d' -> bad rc -> wpc S R (DRet (rc, set_eState p' PAGER_OPEN)) Q d') as Hbad.
  { intros rc p' d' HR' Hb. apply wpc_ret. apply H2; [done|by apply bad_err]. }
  destruct (cold_hot_dec d1 HR1) as [[Hw Hnh]|Hh].
  - apply (wpc_playback_whole p1 true PAGER_OPEN (zlen (v_now v)) false); try done. by right.
  - pose proof (rc_now _ _ _ _ _ HR1) as Hn. rewrite decide_True in Hn by done. rewrite En in Hn. destruct Hn as (Hg & rs & Hrs & Hc).
    pose proof Hrs as (segs & Hne & Hch & Hm & -> & Hrec). pose proof (rec_img P S A img d HR) as Himg.
    apply (wpc_playback_hot (mkVer (v_now v) []) segs PAGER_OPEN (zlen (v_now v)) false Himg (rc_images _ _ _ _ _ HR) (rc_in _ _ _ _ _ HR)); try done.
    + rewrite <- En. apply (rc_plain _ _ _ _ _ HR1).
    + intros j Hs Hp. apply survives_one in Hs; [|pose proof (sizes P S Hsz); lia]. subst j. by exists (all_recs segs).
    + split_and!; try done. apply Hc. left.
    + by apply (chain_data_end P S Hsz _ 0 (npages P img)).
    + left. done.
Qed.

Lemma wpc_rollback_hot p d (Q : Z * Pager -> disk -> Prop) : at_read false p -> eState p = PAGER_OPEN -> R d ->
  (forall p' d', cold d' -> at_read false p' -> eState p' = PAGER_OPEN -> Q (SQLITE_OK, p') d') ->
  (forall rc p' d', R d' -> err rc -> Q (rc, p') d') -> wpc S R (rollback_hot cf pager_delsuper p) Q d.
Proof using Hsz Hcf.
  intros Hp Hst HR H1 H2. unfold rollback_hot. rewrite (co_readOnly _ _ Hcf). wbind. apply wpc_lockDb; [done|rewrite (ar_lock _ _ Hp); done| |].
  2: { intros rc Hrc. rewrite (lock_ok _ Hrc). cbn [negb wpc]. apply H2; [done|by apply lock_err]. }
  rewrite (ar_lock _ _ Hp). cbn [SHARED_LOCK EXCLUSIVE_LOCK Z.ltb Z.compare Pos.compare Pos.compare_cont]. set (p1 := set_eLock p EXCLUSIVE_LOCK). steps. change (jfd p1) with (jfd p).
  rewrite (ar_jfd _ _ Hp), (co_mode _ _ Hcf). change (PAGER_JOURNALMODE_DELETE =? PAGER_JOURNALMODE_OFF) with false. cbn [negb andb].
  assert (forall rc p' d', R d' -> err rc -> jfd p' = false -> eLock p' = EXCLUSIVE_LOCK ->
    wpc S R (do! (rc, p) := (if jfd p' then do! (rc, p) := pagerSyncHotJournal cf p' in
             if rc =? SQLITE_OK then do! (rc, p) := pager_playback cf pager_delsuper p true in DRet (rc, set_eState p PAGER_OPEN)
             else DRet (rc, p) else if negb (exclusiveMode cf) then do! (_, p) := pagerUnlockDb p' SHARED_LOCK in DRet (rc, p) else DRet (rc, p'))
             in DRet (rc, if negb (rc =? SQLITE_OK) then pager_error p rc else p))%dprog Q d') as Hfail.
  { intros rc p' d' HR' Hrc Hj Hl. rewrite Hj, (co_exclusive _ _ Hcf). cbn [negb]. wbind. wbind. apply wpc_unlockDb; [done|by rewrite Hl|]. intros rc' _. cbn [wpc]. by apply H2. }
  assert (jfd p1 = false /\ eLock p1 = EXCLUSIVE_LOCK) as [Hj1 Hl1] by (split; [apply (ar_jfd _ _ Hp)|done]).
  wbind. wbind. apply wpc_Access; [done| |intros rc Hrc; steps; cbn [wpc]; apply Hfail; [done|by apply bad_err, io_error_bad|done..]]. steps.
  destruct (Z.ltb_spec 0 (zlen (now d FJrnl))) as [Hl|Hl]; cbn [andb].
  2: { apply wpc_ret. rewrite Hj1, (co_exclusive _ _ Hcf). cbn [negb]. wbind. wbind. apply wpc_unlockDb; [done|by rewrite Hl1|]. intros rc' _. cbn [wpc]. steps. apply H1.
       - destruct (cold_hot_dec d HR) as [|Hh]; [done|]. exfalso. unfold jrnl_hot, magic_at in Hh. apply (f_equal zlen) in Hh.
         pose proof (zlen_fread_full (now d FJrnl) 0 8 ltac:(lia) ltac:(lia)) as [Hf _]. specialize (Hf Hh). lia.
       - destruct Hp. by split.
       - done. }
  wbind. apply wpc_Open; [done| | |].
  - intros v Hv. split; [by apply rec_dirsync|]. cbn [wpc]. steps. cbn [wpc jfd set_jfd]. wbind.
    eapply wpc_mono; [done| |apply (wpc_sync_play (set_jfd p1 true) (set_dirsync d false) v (fun x d' => (x.1 = SQLITE_OK /\ cold d' /\ at_read false x.2 /\ eState x.2 = PAGER_OPEN) \/ err x.1 /\ R d'))].
    + intros [rc p'] d' Hor. cbn [fst snd wpc] in *. destruct Hor as [(-> & Hc & Har & Hs)|[Hrc HR']]; [steps; by apply H1|by apply H2].
    + destruct Hp. split; done.
    + by apply rec_dirsync.
    + done.
    + intros p' d' ???. by left.
    + intros rc p' d' ??. by right.
  - intros Hv. unfold now, file_of in Hl. rewrite Hv in Hl. change (zlen []) with 0 in Hl. lia.
  - intros rc Hrc. assert (err rc) as Hrc2 by (split; intros ->; done). cbn [wpc]. rewrite (err_ok _ Hrc2). by apply Hfail.
Qed.

(** A pager that does not get its lock lets go of everything. *)
Lemma wpc_pager_unlock p d (C : disk -> Prop) (Q : Pager -> disk -> Prop) : C d -> (forall p', Q p' d) -> wpc S C (pager_unlock cf p) Q d.
Proof using.
  intros HC H1. unfold pager_unlock. wbind. cbv zeta. destruct (exclusiveMode cf); [cbn [wpc]; apply H1|]. wbind. unfold pagerUnlockDb. wbind.
  apply wpc_Unlock; [done|]. intros rc _. cbn [wpc]. apply H1.
Qed.

(** A connection without a journal, or in the error state, lets go of the database. *)
Lemma wpc_let_go p d (C : disk -> Prop) (Q : Pager -> disk -> Prop) : C d -> eState p = PAGER_READER /\ jfd p = false \/ eState p = PAGER_ERROR ->
  (forall p', Q p' d) -> wpc S C (pagerUnlockAndRollback cf pager_delsuper p) Q d.
Proof using Hcf.
  intros HC Hs H1. unfold pagerUnlockAndRollback. wbind. destruct Hs as [[Hs Hj]|Hs]; rewrite Hs.
  2: { change (PAGER_ERROR =? PAGER_ERROR) with true. cbn [negb andb wpc]. by apply wpc_pager_unlock. }
  change (PAGER_READER =? PAGER_ERROR) with false. change (PAGER_READER =? PAGER_OPEN) with false. change (PAGER_WRITER_LOCKED <=? PAGER_READER) with false. cbn [negb andb].
  rewrite (co_exclusive _ _ Hcf). cbn [negb]. wbind. unfold pager_end_transaction. rewrite Hs, Hj. change (PAGER_READER <? PAGER_WRITER_LOCKED) with true. cbn [andb].
  case_if; [cbn [wpc]; by apply wpc_pager_unlock|]. steps. rewrite (co_exclusive _ _ Hcf). steps. wbind. unfold pagerUnlockDb. wbind. apply wpc_Unlock; [done|].
  intros rc _. cbn [wpc]. by apply wpc_pager_unlock.
Qed.

Lemma at_read_reset p : at_read false p -> at_read false (pager_reset p).
Proof using.
  intros []. split; try done. intros _. cbn. rewrite ar_cache0 by done. unfold sqlite3PcacheTruncate. rewrite ar_ref0. cbn [Z.eqb andb].
  by rewrite map_imap_empty, map_filter_empty.
Qed.

Lemma wpc_check_version p d (C : disk -> Prop) (Q : Z * Pager -> disk -> Prop) : C d -> at_read false p ->
  (forall p', at_read false p' -> eState p' = eState p -> Q (SQLITE_OK, p') d) -> (forall rc, bad rc -> Q (rc, p) d) -> wpc S C (check_version p) Q d.
Proof using.
  intros HC Hp H1 H2. unfold check_version. destruct (hasHeldSharedLock p); [|apply wpc_ret; by apply H1]. wbind.
  assert (forall v, Q (SQLITE_OK, if bool_decide (v = dbFileVers p) then p else pager_reset p) d) as H3.
  { intros v. apply H1; case_if; auto using at_read_reset. }
  apply wpc_Read; [done|lia|lia| | |]; [intros _; steps; apply wpc_ret; apply H3..|].
  intros rc Hrc. steps. apply wpc_ret. apply H2. by apply io_error_bad.
Qed.

Lemma wpc_shared_open p d (Q : Z * Pager -> disk -> Prop) : fresh p -> R d ->
  (forall p' d', cold d' -> at_read false p' -> eState p' = PAGER_OPEN -> Q (SQLITE_OK, p') d') ->
  (forall rc p' d', R d' -> err rc -> Q (rc, p') d') -> wpc S R (shared_lock_open cf pager_delsuper p) Q d.
Proof using Hsz Hcf.
  intros Hf HR H1 H2. unfold shared_lock_open. wbind. apply wpc_wait; [done|by rewrite (fr_lock _ Hf)| |].
  2: { intros rc Hrc. rewrite (lock_ok _ Hrc). cbn [negb wpc]. apply H2; [done|by apply lock_err]. }
  rewrite (fr_lock _ Hf). cbn [NO_LOCK SHARED_LOCK Z.ltb Z.compare]. set (p1 := set_eLock p SHARED_LOCK).
  assert (at_read false p1) as Hp1 by (destruct Hf; by split). steps. change (eLock p1 <=? SHARED_LOCK) with true. cbn iota.
  wbind. apply wpc_hasHot; [done|done| |intros rc ex p' d' HR' Hrc; rewrite (err_ok _ Hrc); cbn [negb wpc]; by apply H2].
  intros ex p2 b Hp2 Hs2 Hex. steps. assert (eState p2 = PAGER_OPEN) as Hst by (rewrite Hs2; apply Hf). assert (R (set_dirsync d b)) as HR' by (by apply rec_dirsync).
  assert (forall p' d', cold d' -> at_read false p' -> eState p' = PAGER_OPEN -> wpc S R (check_version p') Q d') as Hver.
  { intros p' d' Hc Har Hs. apply wpc_check_version; [apply Hc|done| |].
    - intros p3 Hp3 Hs3. apply H1; [done|done|congruence].
    - intros rc Hb. apply H2; [apply Hc|by apply bad_err]. }
  wbind. destruct ex.
  - apply wpc_rollback_hot; [done|done|done| |].
    + intros p' d' Hc Har Hs. steps. by apply Hver.
    + intros rc p' d' HR2 Hrc. rewrite (err_ok _ Hrc). cbn [negb wpc]. by apply H2.
  - apply wpc_ret. steps. apply Hver; [|done|done]. specialize (Hex eq_refl). by split; [apply whole_dirsync, whole_cold|].
Qed.

Lemma wpc_shared_lock p d (Q : Z * Pager -> disk -> Prop) : fresh p -> R d ->
  (forall p' d', cold d' -> at_read false p' -> eState p' = PAGER_READER -> dbSize p' = npages P img -> Q (SQLITE_OK, p') d') ->
  (forall rc p' d', R d' -> err rc -> Q (rc, p') d') -> wpc S R (sqlite3PagerSharedLock cf pager_delsuper p) Q d.
Proof using Hsz Hcf.
  intros Hf HR H1 H2. unfold sqlite3PagerSharedLock. rewrite (fr_state _ Hf). change (PAGER_OPEN =? PAGER_OPEN) with true. cbn iota.
  assert (forall rc p' d', R d' -> err rc -> wpc S R (if negb (rc =? SQLITE_OK) then do! p := pager_unlock cf p' in DRet (rc, p)
     else DRet (rc, set_hasHeldSharedLock (set_eState p' PAGER_READER) true))%dprog Q d') as Hfail.
  { intros rc p' d' HR' Hrc. rewrite (err_ok _ Hrc). cbn [negb]. wbind. apply wpc_pager_unlock; [done|]. intros p3. cbn [wpc]. by apply H2. }
  wbind. apply wpc_shared_open; [done|done| |].
  - intros p' d' Hc Har Hs. steps. rewrite Hs. change (PAGER_OPEN =? PAGER_OPEN) with true. cbn [andb]. wbind. wbind.
    pose proof Hc as [[HR' Hdb] _]. apply wpc_pagecount; [apply Har|done| |].
    + intros p3 Hp3. cbn [wpc]. steps. cbn [wpc]. apply H1; [done| |done|].
      * assert (at_read false p3) as Hp3' by (destruct Hp3 as [->|[x ->]]; [done|by apply at_read_mx]). destruct Hp3'. by split.
      * cbn. change (now d' FDb) with (v_now (d_db d')). rewrite (Hdb (v_now (d_db d'))) by left. pose proof (sizes P S Hsz). destruct (rec_img P S A img d' HR') as [Hi1 Hi2].
        rewrite Hi1 at 1. replace (npages P img * P + P - 1) with (npages P img * P + (P - 1)) by lia. rewrite Z.div_add_l, Z.div_small by lia. lia.
    + intros rc Hb. cbn [wpc]. steps. cbn [wpc]. steps. wbind. apply wpc_pager_unlock; [done|]. intros p3. cbn [wpc]. apply H2; [done|by apply bad_err].
  - intros rc p' d' HR' Hrc. rewrite (err_ok _ Hrc), andb_false_r. cbn [dbind]. by apply Hfail.
Qed.

(** Starting to read: the database is as it was, and no journal is left that would be rolled back. *)
Lemma wpc_start_reading p d (Q : Z * Pager -> disk -> Prop) : fresh p -> R d ->
  (forall p' d', cold d' -> reading p' -> Q (SQLITE_OK, p') d') ->
  (forall rc p' d', R d' -> err rc -> Q (rc, p') d') -> wpc S R (start_reading cf pager_delsuper p) Q d.
Proof using Hsz Hcf.
  intros Hf HR H1 H2. pose proof (sizes P S Hsz) as [HP _]. unfold start_reading. wbind. apply wpc_shared_lock; [done|done| |].
  2: { intros rc p' d' HR' Hrc. rewrite (err_ok _ Hrc). cbn [negb wpc]. by apply H2. }
  intros p' d' Hc Har Hs Hsize. pose proof Hc as [[HR' Hdb] Hnh]. steps. unfold sqlite3PagerGet. rewrite Hs. change (PAGER_READER =? PAGER_ERROR) with false. cbn iota. unfold getPageNormal.
  change (1 =? 0) with false. cbn iota. rewrite (ar_cache _ _ Har eq_refl), lookup_empty. unfold load_page, PAGER_SJ_PGNO. rewrite (ar_lck _ _ Har).
  destruct (rec_img P S A img d' HR') as [Hi1 Hi2]. assert (1 < lockpage P) as Hlp.
  { unfold lockpage, PENDING_BYTE. assert (0 < 0x40000000 / P); [apply Z.div_str_pos; lia|lia]. }
  rewrite (proj2 (Z.eqb_neq 1 _)), Hsize, (proj2 (Z.ltb_ge _ _)) by lia. unfold readDbPage. rewrite (ar_page _ _ Har). change (1 - 1) with 0. wbind. wbind. wbind.
  assert (now d' FDb = img) as En by (apply Hdb; left). rewrite Z.mul_0_l. apply wpc_Read; [done|lia|lia| | |]; rewrite ?En.
  - intros _. cbn [wpc]. steps. cbn [wpc]. steps. cbn [wpc]. steps. apply H1; [done|]. change (1 =? 1) with true. cbn iota. split; try done.
    + destruct Har. split; try done.
    + cbn. rewrite (ar_cache _ _ Har eq_refl). by rewrite insert_empty.
  - intros Hl. nia.
  - intros rc Hrc. cbn [wpc]. rewrite (io_short _ Hrc). cbn [wpc fst snd]. rewrite (io_ok _ Hrc). cbn iota. wbind. unfold pagerUnlockIfUnused. change (1 =? 1) with true. cbn iota. cbn [ref1 set_dbFileVers]. rewrite (ar_ref _ _ Har).
    apply wpc_let_go; [done| |]; [left; split; [done|apply Har]|]. intros p3. cbn [wpc]. steps. cbn [wpc]. apply H2; [done|by apply bad_err, io_error_bad].
Qed.
End recover.
