(* ===== verification/PagerWrite.v ===== *)
(** * Writing the rollback journal and the database file (pager.c of sqlite3.c)

    [dopen]: a disk whose journal has complete segments and one that is being written;
    [dclosed]: all its segments are complete and durable.  The operations of a transaction keep
    them, and with them a disk from which the database can be recovered. *)

From S2P Require Import Prelude Bitwise Varint UnixFile Disk Pager Journal PagerPlay PagerRecover.
From stdpp Require Import options.

Lemma magic_fwrite_other f off d o : 0 <= off -> 0 <= o -> o + 8 <= off \/ off + zlen d <= o -> o + 8 <= zlen f -> magic_at (fwrite f off d) o <-> magic_at f o.
Proof. intros Hoff Ho Hd Hf. unfold magic_at. by rewrite fread_fwrite_other by lia. Qed.

Lemma zlen_snoc {A} (l : list A) x : zlen (l ++ [x]) = zlen l + 1.
Proof. unfold zlen. rewrite length_app. cbn. lia. Qed.

Lemma fread_split c o n m : 0 <= o -> 0 <= n -> 0 <= m -> fread c o (n + m) = fread c o n ++ fread c (o + n) m.
Proof.
  intros Ho Hn Hm. unfold fread. rewrite Z2Nat.inj_add by lia. rewrite <- take_take_drop. f_equal. f_equal. unfold zdrop.
  by rewrite drop_drop, Z2Nat.inj_add by lia.
Qed.

(** A magic number is eight bytes, the first of which is not zero. *)
Lemma magic_byte c o : 0 <= o -> magic_at c o -> zat c o = 0xd9.
Proof. intros Ho H. unfold magic_at in H. apply (f_equal (fun l => zat l 0)) in H. rewrite zat_fread in H by lia. replace (o + 0) with o in H by lia. done. Qed.

Section write.
Context (P S : Z) (Hsz : sizes_ok P S = true) (HSP : S <= P).
Context (cf : PagerConf) (Hcf : conf_ok cf S).
Context (A : list (list Z)) (img : list Z).
Hypothesis Himg : image_ok P img.
Hypothesis HA : forall i, i ∈ A -> image_ok P i.
Hypothesis Hin : img ∈ A.

Abbreviation R := (Recoverable P S A img).
Abbreviation N := (npages P img).

(** The header of the open segment without the magic number and the number of records. *)
Definition hdr_tail (ck : Z) : list Z := sqlite3Put4byte ck ++ sqlite3Put4byte N ++ sqlite3Put4byte S ++ sqlite3Put4byte P.

(** A journal with the segments [segs], that are complete in all its contents, and one that is being
    written, whose header does not count its records [rs] yet. *)
Record jopen (segs : list segment) (ck : Z) (rs : list jrec) (v : versions) : Prop := {
  jo_chain : forall c, c ∈ v_all v -> chain P S c 0 N segs /\ ~ magic_at c (next_off P S 0 segs);
  jo_len : next_off P S 0 segs + S <= zlen (v_now v);
  jo_hdr : fread (v_now v) (next_off P S 0 segs + 12) 16 = hdr_tail ck;
  jo_recs : fread (v_now v) (next_off P S 0 segs + S) (zlen rs * (P + 8)) = recs_bytes P ck rs;
  jo_ok : Forall (rec_of P img) (all_recs segs ++ rs);
  jo_nodup : NoDup (map fst (all_recs segs ++ rs));
  jo_ck : 0 <= ck < 2 ^ 32
}.

(** What the database file may be when the segments are durable, and the journals that were deleted. *)
Definition db_ok (segs : list segment) (d : disk) : Prop :=
  forall c, c ∈ v_all (d_db d) -> if decide (segs = []) then c = img else covers P img (all_recs segs) c.

Definition gone_cond (segs : list segment) (d : disk) : Prop :=
  if decide (segs = []) then gone_ok P S A img (d_gone d) /\ (d_dirsync d = true \/ d_gone d = []) else d_gone d = [].

(** A journal with complete segments and nothing after them that would be taken for a header. *)
Record jready (segs : list segment) (v : versions) : Prop := {
  jr_chain : forall c, c ∈ v_all v -> chain P S c 0 N segs /\ ~ magic_at c (next_off P S 0 segs);
  jr_ok : Forall (rec_of P img) (all_recs segs);
  jr_nodup : NoDup (map fst (all_recs segs))
}.

Record dready (segs : list segment) (v : versions) (d : disk) : Prop := {
  dr_jrnl : d_jrnl d = Some v;
  dr_ready : jready segs v;
  dr_plain : plain (v_now v);
  dr_db : db_ok segs d;
  dr_gone : gone_cond segs d
}.

Record dopen (segs : list segment) (ck : Z) (rs : list jrec) (v : versions) (d : disk) : Prop := {
  do_jrnl : d_jrnl d = Some v;
  do_open : jopen segs ck rs v;
  do_plain : plain (v_now v);
  do_db : db_ok segs d;
  do_gone : gone_cond segs d
}.

Lemma next_off_0 segs : exists k, 0 <= k /\ next_off P S 0 segs = k * S.
Proof using Hsz. destruct (next_off_mult P S Hsz 0 segs) as (k & Hk & E); [lia|]. exists k. rewrite <- E. done. Qed.

Lemma jopen_ready segs ck rs v : jopen segs ck rs v -> jready segs v.
Proof using.
  intros [H1 H2 H3 H4 H5 H6 H7]. split; [done|by apply Forall_app in H5 as [H5 _]|]. rewrite map_app in H6. by apply NoDup_app in H6 as [H6 _].
Qed.

Lemma dopen_ready segs ck rs v d : dopen segs ck rs v d -> dready segs v d.
Proof using. intros [H1 H2 H3 H4 H5]. split; try done. by apply jopen_ready in H2. Qed.

Lemma dready_now segs v d : dready segs v d -> now d FJrnl = v_now v.
Proof using. intros H. unfold now, file_of. by rewrite (dr_jrnl _ _ _ H). Qed.

(** What survives of such a journal. *)
Lemma jready_survives segs v j : jready segs v -> survives S (v_all v) j -> chain P S j 0 N segs /\ ~ magic_at j (next_off P S 0 segs).
Proof using Hsz.
  intros Hj Hs. split.
  - apply (chain_survives P S Hsz (v_all v)); [lia|done|]. intros c Hc. by apply (jr_chain _ _ Hj).
  - destruct (next_off_0 segs) as (k & Hk & E). pose proof (jr_chain _ _ Hj) as Hc. rewrite E in *. apply (survives_nomagic S (v_all v)); [done|done|]. intros c Hin'. by apply Hc.
Qed.

Lemma jready_hot segs v : segs <> [] -> jready segs v ->
  forall j, survives S (v_all v) j -> plain j -> exists rs', hot P S img j rs' /\ forall q, q ∈ map fst (all_recs segs) -> q ∈ map fst rs'.
Proof using Hsz.
  intros Hne Hj j Hs _. exists (all_recs segs). split; [|done]. destruct (jready_survives _ _ _ Hj Hs). exists segs. pose proof (jr_ok _ _ Hj). done.
Qed.

Lemma dready_whole v d : dready [] v d -> whole P S A img d.
Proof using Hsz Himg HA Hin.
  intros Hd. pose proof Hd as [H1 H2 H3 H4 H5]. assert (forall c, c ∈ v_all v -> ~ magic_at c 0) as Hm by (intros c Hc; by apply (jr_chain _ _ H2)).
  assert (~ jrnl_hot d) as Hnh by (unfold jrnl_hot; rewrite (dready_now _ _ _ Hd); apply Hm; left).
  unfold db_ok, gone_cond in *. rewrite decide_True in H5 by done.
  apply (whole_intro P S Hsz); try done.
  - by rewrite (dready_now _ _ _ Hd).
  - intros v' Hv'. rewrite H1 in Hv'. injection Hv' as <-. intros j Hs _. left. apply (survives_nomagic S (v_all v) j 0 Hs); [lia|]. intros c Hc. rewrite Z.mul_0_l. by apply Hm.
  - apply H5.
  - intros _ v' c Hv' Hc. rewrite H1 in Hv'. injection Hv' as <-. by apply Hm.
Qed.

Lemma dready_R segs v d : dready segs v d -> R d.
Proof using Hsz Himg HA Hin.
  intros Hd. destruct (decide (segs = [])) as [->|Hne]; [by apply (dready_whole v)|]. pose proof Hd as [H1 H2 H3 H4 H5]. unfold db_ok, gone_cond in *. rewrite decide_False in H5 by done.
  apply (recoverable_hot P S Hsz A img d v (all_recs segs)); try done.
  - by rewrite (dready_now _ _ _ Hd).
  - by apply jready_hot.
  - intros c Hc. specialize (H4 c Hc). by rewrite decide_False in H4.
Qed.

Lemma dopen_R segs ck rs v d : dopen segs ck rs v d -> R d.
Proof using Hsz Himg HA Hin. intros Hd. by apply (dready_R segs v), (dopen_ready segs ck rs). Qed.

(** *** Writing to the journal after the records *)

Lemma seg_end_next segs rs : data_end P S 0 segs <= next_off P S 0 segs /\ next_off P S 0 segs + S <= seg_end P S (next_off P S 0 segs) rs.
Proof using Hsz.
  pose proof (next_off_data P S Hsz 0 segs ltac:(lia)) as E. rewrite Z.mul_0_l in E. pose proof (data_end_ge P S Hsz 0 segs ltac:(lia)) as [Hd _].
  pose proof (hup_ge P S Hsz (data_end P S 0 segs) Hd). split; [lia|]. apply (seg_end_ge P S Hsz). lia.
Qed.

Lemma jopen_recs_ok segs ck rs v : jopen segs ck rs v -> Forall (rec_ok P) rs.
Proof using. intros H. pose proof (jo_ok _ _ _ _ H) as Ho. apply Forall_app in Ho as [_ Ho]. apply (Forall_impl _ _ _ Ho). by intros r []. Qed.

Lemma jopen_end segs ck rs v : jopen segs ck rs v -> seg_end P S (next_off P S 0 segs) rs <= zlen (v_now v).
Proof using Hsz.
  intros Hj. pose proof (sizes P S Hsz). destruct (next_off_0 segs) as (k & Hk & E). unfold seg_end. pose proof (zlen_nonneg rs). pose proof (jo_len _ _ _ _ Hj).
  destruct (decide (zlen rs = 0)) as [E0|E0]; [rewrite E0; lia|]. pose proof (jo_recs _ _ _ _ Hj) as H3. apply (f_equal zlen) in H3. rewrite zlen_recs_bytes in H3 by (by apply (jopen_recs_ok segs ck rs v)).
  apply zlen_fread_full in H3; nia.
Qed.

Lemma jopen_write segs ck rs v off b : jopen segs ck rs v -> seg_end P S (next_off P S 0 segs) rs <= off ->
  jopen segs ck rs (put v (fwrite (v_now v) off b)).
Proof using Hsz.
  intros Hj Hoff. pose proof (sizes P S Hsz) as [HP HS]. pose proof (jopen_end _ _ _ _ Hj) as He. destruct (seg_end_next segs rs) as [Hd Hn]. destruct (next_off_0 segs) as (k & Hk & E).
  assert (0 <= next_off P S 0 segs) as H0 by nia. pose proof (jo_len _ _ _ _ Hj) as Hl. pose proof (zlen_nonneg rs).
  assert (forall o n, 0 <= o -> 0 <= n -> o + n <= seg_end P S (next_off P S 0 segs) rs -> fread (fwrite (v_now v) off b) o n = fread (v_now v) o n) as Hf.
  { intros o n Ho Hn0 Hle. apply fread_fwrite_other; lia. }
  pose proof Hj as [H1 H2 H3 H4 H5 H6 H7]. split; try done.
  - intros c Hc. apply elem_of_cons in Hc as [->|Hc]; [|by apply H1]. destruct (H1 (v_now v) ltac:(by left)) as [Hc1 Hc2]. split.
    + apply (chain_frame P S Hsz (v_now v)); [lia|done| |].
      * intros o n Ho Hn0 Hle. apply Hf; lia.
      * intros _. pose proof (zlen_fwrite_ge (v_now v) off b ltac:(lia)). cbn. lia.
    + unfold magic_at. cbn [v_now put]. rewrite Hf by lia. exact Hc2.
  - cbn [v_now put]. pose proof (zlen_fwrite_ge (v_now v) off b ltac:(lia)). lia.
  - cbn [v_now put]. rewrite Hf by lia. done.
  - cbn [v_now put]. rewrite Hf; [done|lia|nia|]. unfold seg_end. lia.
Qed.

Lemma dopen_write segs ck rs v d off b : dopen segs ck rs v d -> seg_end P S (next_off P S 0 segs) rs <= off -> plain (fwrite (v_now v) off b) ->
  dopen segs ck rs (put v (fwrite (v_now v) off b)) (set_djrnl d (Some (put v (fwrite (v_now v) off b)))).
Proof using Hsz. intros [H1 H2 H3 H4 H5] Hoff Hp. split; try done. by apply jopen_write. Qed.

(** A write to the journal after the records. *)
Lemma wpc_write_after segs ck rs v d off b (Q : Z -> disk -> Prop) : dopen segs ck rs v d -> seg_end P S (next_off P S 0 segs) rs <= off ->
  (dopen segs ck rs (put v (fwrite (v_now v) off b)) (set_djrnl d (Some (put v (fwrite (v_now v) off b)))) ->
    Q SQLITE_OK (set_djrnl d (Some (put v (fwrite (v_now v) off b))))) ->
  (forall rc v' d', io_error rc = true -> dopen segs ck rs v' d' -> d_db d' = d_db d -> Q rc d') ->
  wpc S R (os (OsWrite FJrnl b off)) Q d.
Proof using Hsz Himg HA Hin.
  intros Hd Hoff H1 H2. pose proof (do_jrnl _ _ _ _ _ Hd) as Hv.
  apply (wpc_Write S R FJrnl _ _ v); [done|by apply (dopen_R segs ck rs v)| | |]; cbn [set_file].
  - intros Hp. pose proof (dopen_write segs ck rs v d off b Hd Hoff Hp) as Hd'. split; [by apply (dopen_R _ _ _ _ _ Hd')|by apply H1].
  - intros rc Hrc. by apply (H2 rc v).
  - intros rc n Hrc Hn _ Hp. pose proof (dopen_write segs ck rs v d off _ Hd Hoff Hp) as Hd'. split; [by apply (dopen_R _ _ _ _ _ Hd')|by apply (H2 rc _ _ Hrc Hd')].
Qed.

(** *** Adding a record *)

Lemma jopen_add segs ck rs v c q d : jopen segs ck rs v -> rec_of P img (q, d) -> q ∉ map fst (all_recs segs ++ rs) ->
  jopen segs ck rs c -> (exists c0, v_now c = fwrite c0 (seg_end P S (next_off P S 0 segs) rs) (rec_bytes P ck (q, d))) -> jopen segs ck (rs ++ [(q, d)]) c.
Proof using Hsz.
  intros _ Hrec Hq Hj (c0 & Ec). pose proof (sizes P S Hsz) as [HP HS]. destruct (next_off_0 segs) as (k & Hk & E). pose proof (zlen_nonneg rs).
  destruct (seg_end_next segs rs) as [_ Hn]. assert (0 <= next_off P S 0 segs) as H0 by nia.
  destruct Hj as [H1 H2 H3 H4 H5 H6 H7]. pose proof Hrec as (Hok & _). pose proof (zlen_rec_bytes P ck (q, d) Hok) as Hlr. split; try done.
  - rewrite zlen_snoc. replace ((zlen rs + 1) * (P + 8)) with (zlen rs * (P + 8) + (P + 8)) by lia.
    rewrite fread_split, H4 by nia. unfold recs_bytes. rewrite map_app, concat_app. f_equal. cbn [map concat]. rewrite app_nil_r.
    unfold seg_end in *. rewrite Ec, <- Hlr. apply fread_fwrite_eq. nia.
  - rewrite app_assoc. apply Forall_app. split; [done|by constructor].
  - rewrite app_assoc, map_app. apply NoDup_app. split_and!; [done| |apply NoDup_singleton]. intros x Hx Hx'. cbn in Hx'. apply list_elem_of_singleton in Hx' as ->. done.
Qed.

(** The page is marked before its record is written. *)
Definition marked (p : Pager) (q : Z) : Pager := upd_page p q (fun g => set_needSync g true).

Lemma wpc_add_record segs ck rs v p q d (Q : Z * Pager -> disk -> Prop) : dopen segs ck rs v d -> pageSize p = P -> cksumInit p = ck ->
  journalOff p = seg_end P S (next_off P S 0 segs) rs -> rec_of P img (q, page_data p q) -> q ∉ map fst (all_recs segs ++ rs) ->
  (forall v' d', dopen segs ck (rs ++ [(q, page_data p q)]) v' d' -> d_db d' = d_db d ->
    Q (SQLITE_OK, set_pInJournal (set_nRec (set_journalOff (marked p q) (journalOff p + (8 + P))) (nRec p + 1)) ((fun s => {[q]} ∪ s) <$> pInJournal p)) d') ->
  (forall rc v' d', io_error rc = true -> dopen segs ck rs v' d' -> d_db d' = d_db d -> Q (rc, marked p q) d') ->
  wpc S R (pagerAddPageToRollbackJournal p q) Q d.
Proof using Hsz Himg HA Hin.
  intros Hd Hps Hck Ho Hrec Hq H1 H2. pose proof (sizes P S Hsz) as [HP HS]. destruct (next_off_0 segs) as (k & Hk & E). destruct (seg_end_next segs rs) as [_ Hn]. assert (0 <= next_off P S 0 segs) as H0 by nia.
  unfold pagerAddPageToRollbackJournal. fold (marked p q). set (dat := page_data p q) in *. pose proof Hrec as ((Hq1 & Hq2 & Hl) & _). cbn [fst snd] in Hq1, Hq2, Hl.
  change (pager_cksum p dat) with (cksum_loop (Z.to_nat (pageSize p)) dat (pageSize p - 200) (cksumInit p)). change (pageSize (marked p q)) with (pageSize p). rewrite Hps, Hck. fold (jcksum P ck dat).
  assert (dat <> []) as Hdne by (intros Ed; rewrite Ed in Hl; change (zlen []) with 0 in Hl; lia).
  rewrite Ho. set (off := seg_end P S (next_off P S 0 segs) rs) in *. unfold write32bits.
  wbind. apply (wpc_write_after segs ck rs v); [done|lia| |intros rc v' d' Hrc Hd' Edb; steps; cbn [wpc]; by apply (H2 rc v')]. intros Hd1. steps.
  wbind. set (v1 := put v _) in *. apply (wpc_write_after segs ck rs v1); [done|lia| |intros rc v' d' Hrc Hd' Edb; steps; cbn [wpc]; by apply (H2 rc v')]. intros Hd2. steps.
  wbind. set (v2 := put v1 _) in *. apply (wpc_write_after segs ck rs v2); [done|lia| |intros rc v' d' Hrc Hd' Edb; steps; cbn [wpc]; by apply (H2 rc v')]. intros Hd3. steps.
  set (v3 := put v2 _) in *. cbn [wpc]. apply (H1 v3); [|done]. destruct Hd3 as [G1 G2 G3 G4 G5]. split; try done.
  apply (jopen_add segs ck rs v); try done; [by apply (do_open _ _ _ _ _ Hd)|]. exists (v_now v). fold off. unfold v3, v2, v1. cbn [v_now put].
  replace (off + P + 4) with (off + zlen (sqlite3Put4byte q ++ dat)) by (rewrite zlen_app, Hl; change (zlen (sqlite3Put4byte q)) with 4; lia).
  change 4 with (zlen (sqlite3Put4byte q)) at 1. rewrite !fwrite_app by (done || lia). unfold rec_bytes. cbn [fst snd]. by rewrite <- app_assoc.
Qed.

(** *** A new header *)

Lemma jready_write segs v off b : jready segs v -> data_end P S 0 segs <= off -> ~ magic_at (fwrite (v_now v) off b) (next_off P S 0 segs) ->
  jready segs (put v (fwrite (v_now v) off b)).
Proof using Hsz.
  intros Hj Hoff Hm. pose proof (data_end_ge P S Hsz 0 segs ltac:(lia)) as [Hd0 _]. destruct Hj as [H1 H2 H3]. split; try done.
  intros c Hc. apply elem_of_cons in Hc as [->|Hc]; [|by apply H1]. split; [|done]. destruct (H1 (v_now v) ltac:(by left)) as [Hc1 _].
  pose proof (zlen_fwrite_ge (v_now v) off b ltac:(lia)) as Hge. cbn [v_now put].
  destruct (decide (segs = [])) as [->|Hne]; [done|]. pose proof (chain_data_end P S Hsz _ 0 N segs ltac:(lia) Hc1 Hne).
  apply (chain_frame P S Hsz (v_now v)); [lia|done| |lia]. intros o n Ho Hn0 Hle. apply fread_fwrite_other; lia.
Qed.

Lemma journal_header_eq p : pageSize p = P -> sectorSize p = S -> dbOrigSize p = N ->
  journal_header cf p = repeat 0 12 ++ hdr_tail (cksumInit p) ++ repeat 0 (Z.to_nat (S - 28)) /\ zlen (journal_header cf p) = S.
Proof using Hsz HSP Hcf.
  intros H1 H2 H3. pose proof (sizes P S Hsz) as [HP HS]. unfold journal_header, JOURNAL_HDR_SZ. rewrite H1, H2, H3, (co_noSync _ _ Hcf), (co_mode _ _ Hcf), (co_append _ _ Hcf).
  change (PAGER_JOURNALMODE_DELETE =? PAGER_JOURNALMODE_MEMORY) with false. change (negb (0 =? 0)) with false. cbn [orb]. rewrite Z.min_r by lia. unfold hdr_tail.
  split; [by rewrite <- !app_assoc|]. rewrite !zlen_app, !zlen_put4, !zlen_repeat. lia.
Qed.

Lemma partial_none off (b : list Z) k : (exists m, off = m * S) -> zlen b <= S -> 0 < k < zlen b -> (off + k) mod S <> 0.
Proof using Hsz.
  intros (m & ->) Hb Hk. pose proof (sizes P S Hsz) as [HP HS]. rewrite Z.add_comm, Z.mod_add by lia. rewrite Z.mod_small by lia. lia.
Qed.

(** The pager once it wrote a header. *)
Definition with_header (p : Pager) (off ck : Z) : Pager :=
  set_journalOff (set_cksumInit (set_journalHdr (set_journalOff p off) off) ck) (off + S).

Lemma wpc_writeJournalHdr segs v p d (Q : Z * Pager -> disk -> Prop) : dready segs v d -> pageSize p = P -> sectorSize p = S -> dbOrigSize p = N ->
  hup S (journalOff p) = next_off P S 0 segs ->
  (forall ck v' d', dopen segs ck [] v' d' -> d_db d' = d_db d -> Q (SQLITE_OK, with_header p (next_off P S 0 segs) ck) d') ->
  (forall rc ck, io_error rc = true -> Q (rc, with_header p (next_off P S 0 segs) ck) d) -> wpc S R (writeJournalHdr cf p) Q d.
Proof using Hsz HSP Hcf Himg HA Hin.
  intros Hd Hps Hss Hos Hup H1 H2. pose proof (sizes P S Hsz) as [HP HS]. pose proof (dready_R _ _ _ Hd) as HR. unfold writeJournalHdr. rewrite (co_mode _ _ Hcf).
  assert (journalHdrOffset p = next_off P S 0 segs) as -> by (unfold journalHdrOffset, JOURNAL_HDR_SZ; rewrite Hss; exact Hup).
  change (PAGER_JOURNALMODE_DELETE =? PAGER_JOURNALMODE_MEMORY) with false. cbn iota. destruct (seg_end_next segs []) as [Hde Hnx]. destruct (next_off_0 segs) as (k & Hk & E).
  set (h := next_off P S 0 segs) in *. wbind. apply wpc_Random; [done|]. intros ck Hck. set (p1 := set_cksumInit _ ck). cbv zeta.
  destruct (journal_header_eq p1 Hps Hss Hos) as [Eh Lh]. change (cksumInit p1) with ck in Eh. set (hd := journal_header cf p1) in *.
  change (JOURNAL_HDR_SZ p1) with (sectorSize p). rewrite Hss. destruct (Z.to_nat S) as [|[|n]] eqn:EnS; [lia..|]. cbn [write_hdr]. unfold JOURNAL_HDR_SZ. change (sectorSize p1) with (sectorSize p). rewrite Hss, (proj2 (Z.ltb_lt 0 S)) by lia.
  codes. change (journalOff p1) with h.
  assert (forall rc, (rc =? SQLITE_OK) && (0 + zlen hd <? sectorSize (set_journalOff p1 (h + zlen hd))) = false) as Estop.
  { intros rc. change (sectorSize (set_journalOff p1 (h + zlen hd))) with (sectorSize p). rewrite Hss, Lh, (proj2 (Z.ltb_ge _ _)) by lia. apply andb_false_r. }
  assert (set_journalOff p1 (h + zlen hd) = with_header p h ck) as Ewh by (rewrite Lh; done).
  wbind. apply (wpc_Write S R FJrnl _ _ v); [apply Hd|done| | |]; cbn [set_file].
  - intros Hp. assert (dopen segs ck [] (put v (fwrite (v_now v) h hd)) (set_djrnl d (Some (put v (fwrite (v_now v) h hd))))) as Hd'.
    { assert (0 <= h) as Hh0 by nia. assert (zlen hd <> 0) as Hz by lia. assert (hd <> []) as Hhd by (intros Ex; rewrite Ex in Hz; done).
      assert (forall o n, 0 <= o -> 0 <= n -> o + n <= S -> fread (fwrite (v_now v) h hd) (h + o) n = fread hd o n) as Hsub.
      { intros o n1 Ho Hn1 Hle. rewrite <- (fread_sub _ h (zlen hd)) by lia. by rewrite fread_fwrite_eq. }
      assert (jready segs (put v (fwrite (v_now v) h hd))) as Hjr.
      { apply jready_write; [apply Hd|lia|]. fold h. intros Hm. apply magic_byte in Hm; [|lia]. rewrite zat_fwrite in Hm by lia.
        rewrite (proj2 (Z.leb_le _ _)), (proj2 (Z.ltb_lt _ _)), Z.sub_diag, Eh in Hm by lia. done. }
      destruct Hd as [G1 G2 G3 G4 G5]. split; try done. destruct Hjr as [J1 J2 J3]. split; try done; fold h.
      - cbn [v_now put]. rewrite zlen_fwrite by done. lia.
      - cbn [v_now put]. rewrite Hsub by lia. rewrite Eh. reflexivity.
      - by rewrite app_nil_r.
      - by rewrite app_nil_r. }
    split; [by apply (dopen_R _ _ _ _ _ Hd')|]. cbn [write_hdr]. unfold JOURNAL_HDR_SZ. rewrite Estop, Ewh. apply wpc_ret. by apply (H1 ck _ _ Hd').
  - intros rc Hrc. unfold JOURNAL_HDR_SZ. rewrite Estop, Ewh. apply wpc_ret. by apply H2.
  - intros rc k' Hrc Hk' Hm _. exfalso. apply (partial_none h hd k'); [by exists k|lia|lia|done].
Qed.

(** *** What can be rolled back *)

(** The disk of a transaction that wrote nothing to the database, or only pages of [segs]. *)
Definition rolld (segs : list segment) (d : disk) : Prop :=
  if decide (segs = []) then whole P S A img d /\ first_hdr P S (now d FJrnl) N
  else exists v, d_jrnl d = Some v /\ d_gone d = [] /\ plain (v_now v) /\ chain P S (v_now v) 0 N segs /\ Forall (rec_of P img) (all_recs segs) /\
    (forall j, survives S (v_all v) j -> plain j -> exists rs', hot P S img j rs' /\ forall q, q ∈ map fst (all_recs segs) -> q ∈ map fst rs') /\
    forall c, c ∈ v_all (d_db d) -> covers P img (all_recs segs) c.

Lemma first_hdr_tail c ck : fread c (0 + 12) 16 = hdr_tail ck -> first_hdr P S c N.
Proof using.
  intros H _. change (0 + 12) with 12 in H. split_and!.
  - replace 16 with (12 + 4) by lia. rewrite <- (fread_sub c 12 16 4 4), H by lia. reflexivity.
  - replace 20 with (12 + 8) by lia. rewrite <- (fread_sub c 12 16 8 4), H by lia. reflexivity.
  - replace 24 with (12 + 12) by lia. rewrite <- (fread_sub c 12 16 12 4), H by lia. reflexivity.
Qed.

Lemma dready_rolld segs v d : segs <> [] -> dready segs v d -> rolld segs d.
Proof using Hsz.
  intros Hne [H1 H2 H3 H4 H5]. unfold rolld, db_ok, gone_cond in *. rewrite decide_False by done. rewrite decide_False in H5 by done. exists v. split_and!; try done.
  - by apply (jr_chain _ _ H2 (v_now v)); left.
  - apply (jr_ok _ _ H2).
  - by apply jready_hot.
  - intros c Hc. specialize (H4 c Hc). by rewrite decide_False in H4.
Qed.

Lemma dopen_rolld segs ck rs v d : dopen segs ck rs v d -> rolld segs d.
Proof using Hsz Himg HA Hin.
  intros Hd. pose proof (dopen_ready _ _ _ _ _ Hd) as Hr. destruct (decide (segs = [])) as [->|Hne]; [|by apply (dready_rolld segs v)].
  unfold rolld. rewrite decide_True by done. split; [by apply (dready_whole v)|]. rewrite (dready_now _ _ _ Hr). apply (first_hdr_tail _ ck). apply (jo_hdr _ _ _ _ (do_open _ _ _ _ _ Hd)).
Qed.

(** *** Closing the open segment *)

Lemma dopen_sync segs ck rs v d : dopen segs ck rs v d ->
  dopen segs ck rs (mkVer (v_now v) []) (jrnl_synced d v) /\ d_gone (jrnl_synced d v) = [] /\ d_db (jrnl_synced d v) = d_db d.
Proof using.
  intros [H1 H2 H3 H4 H5]. assert (d_gone (jrnl_synced d v) = []) as Hg.
  { unfold jrnl_synced. destruct d as [? ? g []]; cbn in *; [done|]. unfold gone_cond in H5. cbn in H5. destruct (decide _); [|done]. by destruct H5 as [_ [?|?]]. }
  assert (d_db (jrnl_synced d v) = d_db d) as Edb by (unfold jrnl_synced; by destruct d as [? ? ? []]).
  split; [|done]. split; [apply jrnl_synced_jrnl| |done| |].
  - destruct H2 as [J1 J2 J3 J4 J5 J6 J7]. split; try done. intros c Hc. apply J1. apply elem_of_cons in Hc as [->|Hc]; [left|by apply not_elem_of_nil in Hc].
  - unfold db_ok. by rewrite Edb.
  - unfold gone_cond. rewrite Hg. case_decide; [|done]. split; [apply gone_ok_nil|by right].
Qed.

Definition hdr_head (rs : list jrec) : list Z := aJournalMagic ++ sqlite3Put4byte (zlen rs).

Section close.
Context (segs : list segment) (ck : Z) (rs : list jrec) (j : list Z) (d : disk).
Hypothesis Hd : dopen segs ck rs (mkVer j []) d.
Hypothesis Hg : d_gone d = [].
Let h := next_off P S 0 segs.
Let segs' := segs ++ [(ck, rs)].
Hypothesis Hm : ~ magic_at j (next_off P S 0 segs').
Let j' := fwrite j h (hdr_head rs).

Lemma recs_bound : zlen rs < 0xffffffff.
Proof using Hd Himg.
  pose proof (do_open _ _ _ _ _ Hd) as Hj. pose proof (jo_ok _ _ _ _ Hj) as Hok. pose proof (jo_nodup _ _ _ _ Hj) as Hnd. apply Forall_app in Hok as [_ Hok]. rewrite map_app in Hnd. apply NoDup_app in Hnd as (_ & _ & Hnd).
  destruct Himg as [_ HN]. assert (length (map fst rs) <= length (map Z.of_nat (seq 1 (Z.to_nat N))))%nat as Hl.
  { apply submseteq_length. apply NoDup_submseteq; [done|]. intros q Hq. apply list_elem_of_fmap in Hq as ([q' x] & -> & Hx). rewrite Forall_forall in Hok.
    destruct (Hok _ Hx) as ((Hq1 & _) & Hq2 & _). cbn [fst] in *. apply list_elem_of_fmap. exists (Z.to_nat q'). split; [lia|]. apply elem_of_seq. lia. }
  rewrite !length_map, length_seq in Hl. change (Z.of_nat (length rs) < 0xffffffff). unfold jrec in *. lia.
Qed.

Lemma close_facts : 0 <= h /\ next_off P S 0 segs' = hup S (seg_end P S h rs) /\ h + S <= seg_end P S h rs /\ seg_end P S h rs <= zlen j /\
  (forall o n, 0 <= o -> 0 <= n -> o + n <= h \/ h + 12 <= o -> o + n <= zlen j -> fread j' o n = fread j o n) /\ zlen j' = zlen j.
Proof using Hsz Hd.
  pose proof (sizes P S Hsz) as [HP HS]. destruct (seg_end_next segs rs) as [_ Hn]. destruct (next_off_0 segs) as (k & Hk & E). fold h in Hn, E.
  pose proof (jopen_end _ _ _ _ (do_open _ _ _ _ _ Hd)) as He. cbn [v_now] in He. fold h in He. assert (0 <= h) as Hh by nia. split_and!; try done.
  - unfold segs'. by rewrite next_off_app.
  - intros o n Ho Hn0 Hor Hle. unfold j'. apply fread_fwrite_other; try lia. change (zlen (hdr_head rs)) with 12. lia.
  - unfold j'. rewrite zlen_fwrite by done. change (zlen (hdr_head rs)) with 12. lia.
Qed.

(** The journal once the header counts the records. *)
Lemma close_chain : chain P S j' 0 N segs' /\ ~ magic_at j' (next_off P S 0 segs').
Proof using Hsz Hd Himg Hm.
  pose proof (sizes P S Hsz) as [HP HS]. destruct close_facts as (Hh & En & Hhe & Hend & Hf & Hl). pose proof (do_open _ _ _ _ _ Hd) as [J1 J2 J3 J4 J5 J6 J7]. cbn [v_now] in *. fold h in J2, J3, J4.
  destruct (J1 j ltac:(by left)) as [Hc Hnm]. fold h in Hnm. pose proof (hup_ge P S Hsz (seg_end P S h rs) ltac:(lia)) as Hhup. split.
  - unfold segs'. apply chain_app. fold h. split.
    + apply (chain_frame P S Hsz j); [lia|done| |].
      * intros o n Ho Hn Hle. destruct (seg_end_next segs rs) as [Hde _]. fold h in Hde. apply Hf; lia.
      * intros Hne. pose proof (chain_data_end P S Hsz _ 0 N segs ltac:(lia) Hc Hne). lia.
    + split; [|done]. pose proof recs_bound. split; cbn [fst snd]; try done.
      * lia.
      * replace 28 with (12 + 16) by lia. rewrite fread_split by lia. rewrite (Hf (h + 12) 16), J3 by lia. unfold j'. change 12 with (zlen (hdr_head rs)) at 1. rewrite fread_fwrite_eq by lia. unfold hdr_head, hdr_bytes, hdr_tail. by rewrite <- app_assoc.
      * rewrite Hf, J4; [done|lia| | |]; unfold seg_end in *; pose proof (zlen_nonneg rs); nia.
      * apply Forall_app in J5 as [_ J5]. apply (Forall_impl _ _ _ J5). by intros r [].
  - rewrite En in Hm |- *. unfold magic_at in *. destruct (decide (hup S (seg_end P S h rs) + 8 <= zlen j)).
    + rewrite Hf by lia. done.
    + intros Ex. apply (f_equal zlen) in Ex. pose proof (zlen_fread_full j' (hup S (seg_end P S h rs)) 8 ltac:(lia) ltac:(lia)) as [Hz _]. specialize (Hz Ex). lia.
Qed.

(** While the header is not durable, the open segment survives as a whole or not at all. *)
Lemma half_survives b : survives S [j'; j] b -> (chain P S b 0 N segs /\ ~ magic_at b h) \/ (chain P S b 0 N segs' /\ ~ magic_at b (next_off P S 0 segs')).
Proof using Hsz Hd Himg Hm.
  intros Hs. destruct close_facts as (Hh & En & Hhe & Hend & Hf & Hl). pose proof (do_open _ _ _ _ _ Hd) as [J1 J2 J3 J4 J5 J6 J7]. cbn [v_now] in *. fold h in J2, J3, J4.
  destruct (J1 j ltac:(by left)) as [Hc Hnm]. fold h in Hnm. destruct close_chain as [Hc' Hm']. unfold segs' in Hc'. apply chain_app in Hc' as [Hc1 Hc2]. fold h in Hc2. destruct Hc2 as [Hsg _].
  apply (chain_survives_last P S Hsz [j'; j] b 0 N segs (ck, rs)); try done.
  - intros c Hin'. apply elem_of_cons in Hin' as [->|Hin']; [done|]. apply list_elem_of_singleton in Hin' as ->. done.
  - intros c Hin'. rewrite Z.mul_0_l. fold h. apply elem_of_cons in Hin' as [->|Hin'].
    + destruct Hsg as [G1 G2 G3 G4 G5 G6]. cbn [fst snd] in *. split; [lia|]. by split.
    + apply list_elem_of_singleton in Hin' as ->. cbn [fst snd]. by split_and!.
  - apply Forall_app in J5 as [_ J5]. apply (Forall_impl _ _ _ J5). by intros r [].
  - apply recs_bound.
Qed.

Lemma segs'_recs : Forall (rec_of P img) (all_recs segs') /\ NoDup (map fst (all_recs segs')) /\ forall q, q ∈ map fst (all_recs segs) -> q ∈ map fst (all_recs segs').
Proof using Hd.
  pose proof (do_open _ _ _ _ _ Hd) as [J1 J2 J3 J4 J5 J6 J7]. unfold segs'. rewrite all_recs_app. unfold all_recs at 2 4 7. cbn [map concat]. rewrite app_nil_r.
  split_and!; [done|done|]. intros q Hq. rewrite map_app. apply elem_of_app. by left.
Qed.

Let d' := set_djrnl d (Some (put (mkVer j []) j')).
Hypothesis Hp : plain j'.

Lemma half_rolld : rolld segs d'.
Proof using Hsz Hd Himg HA Hin Hm Hg Hp.
  destruct segs'_recs as (Hok & Hnd & Hsub). destruct close_chain as [Hc' Hm']. pose proof (do_open _ _ _ _ _ Hd) as Hj. unfold rolld. pose proof Hd as [H1 H2 H3 H4 H5]. unfold db_ok in H4.
  assert (hot P S img j' (all_recs segs')) as Hhot by (exists segs'; split; [unfold segs'; by destruct segs|done]).
  assert (segs' <> []) as Hne' by (unfold segs'; by destruct segs).
  case_decide as Es.
  - split.
    + apply (whole_intro P S Hsz); try done.
      * intros v' Hv'. cbn in Hv'. injection Hv' as <-. intros b Hs Hpb. destruct (half_survives b Hs) as [[_ Hb]|[Hb Hb']].
        -- left. unfold h in Hb. by rewrite Es in Hb.
        -- right. exists (all_recs segs'), segs'. done.
      * cbn. rewrite Hg. apply gone_ok_nil.
      * intros Hnh. exfalso. apply Hnh. unfold jrnl_hot. apply (hot_magic P S img j' (all_recs segs')). done.
    + apply (first_hdr_tail _ ck). destruct close_facts as (Hh & En & Hhe & Hend & Hf & Hl). pose proof (jo_hdr _ _ _ _ Hj) as J3. cbn [v_now] in J3. fold h in J3.
      assert (h = 0) as Eh by (unfold h; by rewrite Es). rewrite Eh in J3. change (now d' FJrnl) with j'. rewrite <- J3. apply Hf; pose proof (sizes P S Hsz); lia.
  - exists (put (mkVer j []) j'). split_and!; try done.
    + unfold segs' in Hc'. by apply chain_app in Hc' as [Hc' _].
    + by apply jopen_ready in H2 as [].
    + intros b Hs Hpb. destruct (half_survives b Hs) as [[Hb Hb']|[Hb Hb']].
      * exists (all_recs segs). split; [|done]. exists segs. split_and!; try done. by apply jopen_ready in H2 as [].
      * exists (all_recs segs'). split; [|done]. by exists segs'.
Qed.

Lemma half_R : R d'.
Proof using Hsz Hd Himg HA Hin Hm Hg Hp.
  pose proof half_rolld as H. unfold rolld in H. case_decide; [apply H|]. destruct H as (v & Hv & Hg' & Hpl & _ & _ & Hj & Hc).
  apply (recoverable_hot P S Hsz A img d' v (all_recs segs)); try done.
Qed.

Lemma closed_ready : dready segs' (mkVer j' []) (jrnl_synced d' (put (mkVer j []) j')).
Proof using Hsz Hd Himg Hm Hg Hp.
  destruct segs'_recs as (Hok & Hnd & Hsub). destruct close_chain as [Hc' Hm']. assert (segs' <> []) as Hne' by (unfold segs'; by destruct segs).
  split; [apply jrnl_synced_jrnl| |done| |].
  - split; [|done..]. intros c Hc. apply elem_of_cons in Hc as [->|Hc]; [done|by apply not_elem_of_nil in Hc].
  - unfold db_ok. assert (d_db (jrnl_synced d' (put (mkVer j []) j')) = d_db d) as -> by (unfold jrnl_synced; by destruct d as [? ? ? []]).
    intros c Hc. pose proof (do_db _ _ _ _ _ Hd c Hc) as H4. rewrite decide_False by done. destruct (decide (segs = [])); [subst c; by apply (covers_self P S Hsz)|by apply (covers_sub P img (all_recs segs))].
  - unfold gone_cond. rewrite decide_False by done. unfold jrnl_synced. unfold d'. clear -Hg. destruct d as [? ? g []]; cbn in *; done.
Qed.
End close.

(** A pager that writes the records [rs] of an open segment. *)
Record popen (segs : list segment) (ck : Z) (rs : list jrec) (p : Pager) : Prop := {
  po_page : pageSize p = P;
  po_sector : sectorSize p = S;
  po_orig : dbOrigSize p = N;
  po_hdr : journalHdr p = next_off P S 0 segs;
  po_off : journalOff p = seg_end P S (next_off P S 0 segs) rs;
  po_rec : nRec p = zlen rs;
  po_ck : cksumInit p = ck;
  po_jfd : jfd p = true;
  po_err : errCode p = SQLITE_OK;
  po_lock : eLock p < UNKNOWN_LOCK
}.

Lemma wpc_zero_next segs ck rs v p d (Q : Z * bool -> disk -> Prop) : popen segs ck rs p -> dopen segs ck rs v d ->
  (forall rc v' d', dopen segs ck rs v' d' -> d_db d' = d_db d -> ~ magic_at (v_now v') (next_off P S 0 (segs ++ [(ck, rs)])) -> Q (rc, false) d') ->
  (forall rc v' d', io_error rc = true -> dopen segs ck rs v' d' -> d_db d' = d_db d -> Q (rc, true) d') -> wpc S R (zero_next_header p) Q d.
Proof using Hsz HSP Himg HA Hin.
  intros Hp Hd H1 H2. pose proof (sizes P S Hsz) as [HP HS]. unfold zero_next_header. destruct (seg_end_next segs rs) as [Hde Hn]. destruct (next_off_0 segs) as (k & Hk & E).
  assert (journalHdrOffset p = next_off P S 0 (segs ++ [(ck, rs)])) as Eo.
  { unfold journalHdrOffset, JOURNAL_HDR_SZ. rewrite (po_sector _ _ _ _ Hp), next_off_app. cbn [next_off snd]. unfold hup. by rewrite (po_off _ _ _ _ Hp). }
  rewrite Eo. set (nx := next_off P S 0 (segs ++ [(ck, rs)])) in *. assert (seg_end P S (next_off P S 0 segs) rs <= nx) as Hnx.
  { unfold nx. rewrite next_off_app. cbn [next_off snd]. apply (hup_ge P S Hsz). nia. }
  pose proof (dopen_R _ _ _ _ _ Hd) as HR. pose proof (dready_now _ _ _ (dopen_ready _ _ _ _ _ Hd)) as En.
  wbind. apply wpc_Read; [done|nia|lia| | |]; rewrite ?En.
  - intros Hl. steps. case_bool_decide as Hmg.
    + wbind. apply (wpc_write_after segs ck rs v); [done|lia| |].
      * intros Hd'. apply wpc_ret. steps. apply (H1 _ _ _ Hd'); [done|]. cbn [v_now put]. intros Hm. apply magic_byte in Hm; [|nia].
        rewrite zat_fwrite in Hm by nia. rewrite (proj2 (Z.leb_le _ _)), (proj2 (Z.ltb_lt _ _)), Z.sub_diag in Hm by (change (zlen [0]) with 1; lia). done.
      * intros rc v' d' Hrc Hd' Edb. apply wpc_ret. rewrite (io_ok _ Hrc), (io_short _ Hrc). by apply (H2 rc v').
    + steps. apply wpc_ret. by apply (H1 _ v).
  - intros Hl. change (SQLITE_IOERR_SHORT_READ =? SQLITE_OK) with false. cbn [andb dbind]. apply wpc_ret. change (negb (SQLITE_IOERR_SHORT_READ =? SQLITE_OK) && negb (SQLITE_IOERR_SHORT_READ =? SQLITE_IOERR_SHORT_READ)) with false.
    apply (H1 _ v); [done|done|]. intros Hm. unfold magic_at in Hm. apply (f_equal zlen) in Hm. pose proof (zlen_fread_full (v_now v) nx 8 ltac:(nia) ltac:(lia)) as [Hf _]. specialize (Hf Hm). lia.
  - intros rc Hrc. steps. apply wpc_ret. by apply (H2 rc v).
Qed.

Lemma wpc_write_nRec segs ck rs v p d (Q : Z -> disk -> Prop) : popen segs ck rs p -> dopen segs ck rs v d ->
  (forall j j' d0, let d' := set_djrnl d0 (Some (put (mkVer j []) j')) in R d' -> rolld segs d' -> dready (segs ++ [(ck, rs)]) (mkVer j' []) (jrnl_synced d' (put (mkVer j []) j')) ->
     d_db d0 = d_db d -> Q SQLITE_OK d') ->
  (forall rc d', bad rc -> rolld segs d' -> R d' -> d_db d' = d_db d -> Q rc d') -> wpc S R (write_nRec cf p) Q d.
Proof using Hsz HSP Hcf Himg HA Hin.
  intros Hp Hd H1 H2. pose proof (sizes P S Hsz) as [HP HS]. unfold write_nRec. rewrite (co_append _ _ Hcf), (co_fullSync _ _ Hcf), (co_seq _ _ Hcf). change (0 =? 0) with true. cbn iota.
  assert (forall rc v' d', io_error rc = true -> dopen segs ck rs v' d' -> d_db d' = d_db d -> Q rc d') as Hbad.
  { intros rc v' d' Hrc Hd' Edb. apply H2; [by apply io_error_bad|by apply (dopen_rolld segs ck rs v')|by apply (dopen_R segs ck rs v')|done]. }
  wbind. apply (wpc_zero_next segs ck rs v); [done|done| |intros rc v' d' Hrc Hd' Edb; apply wpc_ret; by apply (Hbad rc v')].
  intros rc v1 d1 Hd1 Edb1 Hm. cbn [andb]. pose proof (dopen_sync _ _ _ _ _ Hd1) as (Hd2 & Hg & Edb2). set (j := v_now v1) in *. set (d2 := jrnl_synced d1 v1) in *.
  wbind. apply (wpc_Sync_jrnl S R _ v1); [apply Hd1|by apply (dopen_R segs ck rs v1)| |].
  2: { intros rc' Hrc. steps. apply wpc_ret. by apply (Hbad rc' v1). }
  fold d2. split; [by apply (dopen_R _ _ _ _ _ Hd2)|]. steps. rewrite (po_hdr _ _ _ _ Hp), (po_rec _ _ _ _ Hp). fold (hdr_head rs).
  destruct (next_off_0 segs) as (k & Hk & E).
  apply (wpc_Write S R FJrnl _ _ (mkVer j [])); [apply Hd2|by apply (dopen_R _ _ _ _ _ Hd2)| | |]; cbn [set_file v_now].
  - intros Hpl. assert (d_db d2 = d_db d) as Edb by congruence.
    split; [by apply (half_R segs ck rs j d2)|]. apply H1; [by apply (half_R segs ck rs j d2)|by apply (half_rolld segs ck rs j d2)|by apply (closed_ready segs ck rs j d2)|done].
  - intros rc' Hrc. apply (Hbad rc' (mkVer j [])); [done|done|congruence].
  - intros rc' k' Hrc Hk' Hmod _. exfalso. apply (partial_none (next_off P S 0 segs) (hdr_head rs) k'); [by exists k|change (zlen (hdr_head rs)) with 12; lia|done|done].
Qed.

(** The pager that holds an exclusive lock. *)
Definition with_excl (p : Pager) : Pager := if eLock p <? EXCLUSIVE_LOCK then set_eLock p EXCLUSIVE_LOCK else p.

Definition synced (p : Pager) : Pager := set_eState (set_pcache p (sqlite3PcacheClearSyncFlags (pcache p))) PAGER_WRITER_DBMOD.

Lemma wpc_syncJournal segs ck rs v p d newHdr (Q : Z * Pager -> disk -> Prop) : popen segs ck rs p -> dopen segs ck rs v d ->
  (forall j' d', newHdr = false -> dready (segs ++ [(ck, rs)]) (mkVer j' []) d' -> d_db d' = d_db d ->
     Q (SQLITE_OK, synced (set_journalHdr (with_excl p) (journalOff p))) d') ->
  (forall ck' v' d', newHdr = true -> dopen (segs ++ [(ck, rs)]) ck' [] v' d' -> d_db d' = d_db d ->
     Q (SQLITE_OK, synced (with_header (set_nRec (set_journalHdr (with_excl p) (journalOff p)) 0) (next_off P S 0 (segs ++ [(ck, rs)])) ck')) d') ->
  (forall rc, lock_error rc = true -> Q (rc, p) d) ->
  (forall rc p' d', bad rc -> R d' -> (newHdr = false -> p' = with_excl p /\ rolld segs d' /\ d_db d' = d_db d) -> Q (rc, p') d') ->
  wpc S R (syncJournal cf p newHdr) Q d.
Proof using Hsz HSP Hcf Himg HA Hin.
  intros Hp Hd H1 H2 H3 H4. pose proof (dopen_R _ _ _ _ _ Hd) as HR. unfold syncJournal, sqlite3PagerExclusiveLock. rewrite (po_err _ _ _ _ Hp). steps.
  wbind. apply wpc_wait; [done|apply Hp| |].
  2: { intros rc Hrc. rewrite (lock_ok _ Hrc). cbn [negb wpc]. by apply H3. }
  fold (with_excl p). set (p1 := with_excl p) in *. assert (popen segs ck rs p1) as Hp1 by (unfold p1, with_excl; destruct Hp; case_if; split; done). steps.
  rewrite (co_noSync _ _ Hcf), (co_mode _ _ Hcf), (po_jfd _ _ _ _ Hp1). change (PAGER_JOURNALMODE_DELETE =? PAGER_JOURNALMODE_MEMORY) with false. cbn [negb andb]. unfold sync_open_journal.
  wbind. wbind. apply (wpc_write_nRec segs ck rs v); [done|done| |].
  2: { intros rc d' Hb Hro HR' Edb. steps. cbn [wpc]. steps. apply wpc_ret. apply H4; try done. }
  intros j j' d0 d1 HR1 Hro Hcl Edb. steps. rewrite (co_seq _ _ Hcf), (co_append _ _ Hcf). change (0 =? 0) with true. cbn iota.
  wbind. apply (wpc_Sync_jrnl S R _ (put (mkVer j []) j')); [done|done| |].
  2: { intros rc Hrc. steps. cbn [wpc]. steps. apply wpc_ret. apply H4; [by apply io_error_bad|done|done]. }
  set (d2 := jrnl_synced d1 (put (mkVer j []) j')) in *. assert (d_db d2 = d_db d) as Edb2 by (unfold d2, jrnl_synced, d1; clear -Edb; destruct d0 as [? ? ? []]; done).
  split; [by apply (dready_R _ _ _ Hcl)|]. steps. assert (journalOff p1 = journalOff p) as Eo by (unfold p1, with_excl; by case_if). rewrite Eo. destruct newHdr; cbn [andb].
  - apply (wpc_writeJournalHdr (segs ++ [(ck, rs)]) (mkVer j' [])); [done|apply Hp1|apply Hp1|apply Hp1| | |].
    + cbn [journalOff set_nRec set_journalHdr]. rewrite Eo, (po_off _ _ _ _ Hp), next_off_app. done.
    + intros ck' v' d' Hd' Edb'. cbn [wpc]. steps. apply wpc_ret. apply (H2 _ _ _ eq_refl Hd'). congruence.
    + intros rc ck' Hrc. cbn [wpc]. steps. apply wpc_ret. apply H4; [by apply io_error_bad|by apply (dready_R _ _ _ Hcl)|done].
  - cbn [wpc]. steps. apply wpc_ret. by apply (H1 _ _ eq_refl Hcl).
Qed.
End write.
