(* ===== verification/PagerTx.v ===== *)
(** * A transaction of the pager (pager.c of sqlite3.c)

    [view] is what a transaction has made of the database: what it wrote, and else what was there.
    [Locked] and [Opened] are the states of a pager before and after it opens its journal: the
    pages of the cache are those of the view, and so are those of the file that are not dirty in
    the cache.  Every action keeps them, or puts the pager in the error state. *)

From S2P Require Import Prelude Bitwise Varint UnixFile Disk Pager Journal PagerPlay PagerRecover PagerWrite.
From stdpp Require Import options.

(** *** What a transaction made of the database *)

(** A page of a file, that has zeros where the file ends. *)
Definition fpage (P : Z) (c : list Z) (q : Z) : list Z := pageof P c q ++ repeat 0 (Z.to_nat (P - zlen (pageof P c q))).

Definition upd (w : Z -> list Z) (q : Z) (d : list Z) : Z -> list Z := fun q' => if decide (q' = q) then d else w q'.

Definition step_view (w : Z -> list Z) (e : event) : Z -> list Z := match e with EGet _ _ => w | EWrite q d => upd w q d end.
Definition view (P : Z) (img : list Z) (log : list event) : Z -> list Z := foldl step_view (fpage P img) log.

Definition step_size (n : Z) (e : event) : Z := match e with EGet _ _ => n | EWrite q _ => Z.max n q end.
Definition log_size (n : Z) (log : list event) : Z := foldl step_size n log.

(** Every page that was read is what the transaction had made of it by then. *)
Fixpoint reads_ok (w : Z -> list Z) (log : list event) : Prop :=
  match log with
  | [] => True
  | e :: log => match e with EGet q d => d = w q | EWrite _ _ => True end /\ reads_ok (step_view w e) log
  end.

Lemma reads_ok_snoc w log e : reads_ok w (log ++ [e]) <-> reads_ok w log /\ match e with EGet q d => d = foldl step_view w log q | EWrite _ _ => True end.
Proof. revert w. induction log as [|e' log IH]; intros w; cbn [app reads_ok foldl]; [tauto|]. rewrite IH. tauto. Qed.

Section tx.
Context (P S : Z) (Hsz : sizes_ok P S = true).
Context (img : list Z).
Hypothesis Himg : image_ok P img.

Abbreviation N := (npages P img).

Lemma zlen_fpage c q : 1 <= q -> zlen (fpage P c q) = P.
Proof using Hsz Himg.
  intros Hq. pose proof (sizes P S Hsz). unfold fpage. rewrite zlen_app, zlen_repeat. pose proof (zlen_fread_le c ((q - 1) * P) P ltac:(nia) ltac:(lia)). unfold pageof. lia.
Qed.

Lemma fpage_full c q : 1 <= q -> q * P <= zlen c -> fpage P c q = pageof P c q.
Proof using Hsz Himg.
  intros Hq Hl. pose proof (sizes P S Hsz). unfold fpage. assert (zlen (pageof P c q) = P) as -> by (apply zlen_fread_full; nia). rewrite Z.sub_diag. apply app_nil_r.
Qed.

Lemma fpage_beyond c q : 1 <= q -> zlen c <= (q - 1) * P -> fpage P c q = repeat 0 (Z.to_nat P).
Proof using Hsz Himg.
  intros Hq Hl. pose proof (sizes P S Hsz). unfold fpage. assert (zlen (pageof P c q) = 0) as E by (unfold pageof; rewrite zlen_fread by nia; lia).
  rewrite E, Z.sub_0_r. destruct (pageof P c q) as [|x l]; [done|]. rewrite zlen_cons in E. pose proof (zlen_nonneg l). lia.
Qed.

Lemma fpage_fwrite n c q q' d : 0 <= n -> zlen c = n * P -> 1 <= q -> 1 <= q' -> zlen d = P -> fpage P (fwrite c ((q - 1) * P) d) q' = if decide (q' = q) then d else fpage P c q'.
Proof using Hsz Himg.
  intros Hn Hl Hq Hq' Hd. pose proof (sizes P S Hsz) as [HP _]. assert (d <> []) as Hne by (intros E; rewrite E in Hd; change (zlen []) with 0 in Hd; lia).
  assert (zlen (fwrite c ((q - 1) * P) d) = Z.max (n * P) (q * P)) as Hlw by (rewrite zlen_fwrite by (done || nia); lia).
  case_decide as E.
  - subst q'. rewrite fpage_full by lia. by apply (pageof_fwrite_eq P S Hsz).
  - destruct (decide (q' <= n)) as [Hle|Hgt].
    + rewrite !fpage_full by nia. apply (pageof_fwrite P S Hsz); try done; [lia|nia].
    + rewrite (fpage_beyond c q') by nia. destruct (decide (q < q')).
      * rewrite fpage_beyond; [done|lia|]. nia.
      * rewrite fpage_full by nia. apply zat_ext.
        { rewrite zlen_repeat. unfold pageof. rewrite zlen_fread by nia. nia. }
        intros i Hi. assert (zlen (pageof P (fwrite c ((q - 1) * P) d) q') <= P) by (apply zlen_fread_le; nia). unfold pageof. rewrite zat_fread by nia. rewrite zat_repeat0, zat_fwrite by nia.
        rewrite (proj2 (Z.leb_gt _ _)) by nia. cbn [andb]. apply zat_ge. nia.
Qed.

(** *** The pages of the cache *)

Record want_ok (J : gset Z) (want : Z -> list Z) (M : Z) : Prop := {
  w_len : forall q, 1 <= q -> zlen (want q) = P;
  w_big : forall q, M < q -> want q = repeat 0 (Z.to_nat P);
  w_orig : forall q, 1 <= q <= N -> q ∉ J -> want q = pageof P img q;
  w_size : N <= M < 0xffffffff
}.

Record cache_ok (J : gset Z) (want : Z -> list Z) (c : gmap Z PgHdr) (f : list Z) : Prop := {
  k_data : forall q g, c !! q = Some g -> pData g = want q /\ 1 <= q < 0xffffffff /\ q <> lockpage P;
  k_clean : forall q, 1 <= q -> (forall g, c !! q = Some g -> dirty g = false) -> fpage P f q = want q;
  k_write : forall q g, c !! q = Some g -> writeable g = true -> dirty g = true /\ (q <= N -> q ∈ J);
  k_one : is_Some (c !! 1)
}.

Lemma want_ok_sub J J' want M : J ⊆ J' -> want_ok J want M -> want_ok J' want M.
Proof using Hsz Himg. intros Hs [H1 H2 H3 H4]. split; try done. intros q Hq Hn. apply H3; [done|set_solver]. Qed.

Lemma cache_ok_sub J J' want c f : J ⊆ J' -> cache_ok J want c f -> cache_ok J' want c f.
Proof using Hsz Himg. intros Hs [H1 H2 H3 H4]. split; try done. intros q g Hg Hw. destruct (H3 q g Hg Hw) as [H5 H6]. split; [done|]. intros Hq. set_solver. Qed.

Lemma want_ok_upd J want M q d : want_ok J want M -> 1 <= q < 0xffffffff -> zlen d = P -> (q <= N -> q ∈ J) -> want_ok J (upd want q d) (Z.max M q).
Proof using Hsz Himg.
  intros [H1 H2 H3 H4] Hq Hd HJ. unfold upd. split.
  - intros q' Hq'. case_decide; auto.
  - intros q' Hq'. rewrite decide_False by lia. apply H2. lia.
  - intros q' Hq' Hn. rewrite decide_False; [by apply H3|]. intros ->. destruct Hn. apply HJ. lia.
  - lia.
Qed.

Lemma want_ok_grow J want M q : want_ok J want M -> q < 0xffffffff -> want_ok J want (Z.max M q).
Proof using Hsz Himg. intros [H1 H2 H3 H4] Hq. split; try done; [|lia]. intros q' Hq'. apply H2. lia. Qed.

(** A change of the flags of a page. *)
Lemma cache_ok_alter J want c f q φ : cache_ok J want c f ->
  (forall g, c !! q = Some g -> pData (φ g) = pData g /\ (dirty g = true -> dirty (φ g) = true) /\ (writeable (φ g) = true -> dirty (φ g) = true /\ (q <= N -> q ∈ J))) ->
  cache_ok J want (alter φ q c) f.
Proof using Hsz Himg.
  intros [H1 H2 H3 H4] Hφ. split.
  - intros q' g Hg. apply lookup_alter_Some in Hg as [(-> & g0 & Hg0 & ->)|[Hne Hg]]; [|by apply H1]. destruct (Hφ g0 Hg0) as (-> & _). by apply H1.
  - intros q' Hq' Hc. apply H2; [done|]. intros g Hg. destruct (decide (q' = q)) as [->|Hne].
    + specialize (Hc (φ g)). rewrite lookup_alter_eq, Hg in Hc. specialize (Hc eq_refl). destruct (Hφ g Hg) as (_ & Hd & _). destruct (dirty g); [|done]. by rewrite Hd in Hc.
    + apply Hc. by rewrite lookup_alter_ne.
  - intros q' g Hg Hw. apply lookup_alter_Some in Hg as [(-> & g0 & Hg0 & ->)|[Hne Hg]]; [|by apply H3]. by apply (Hφ g0 Hg0).
  - destruct (decide (1 = q)) as [<-|Hne]; [rewrite lookup_alter_eq; by destruct H4 as [g ->]|by rewrite lookup_alter_ne].
Qed.

(** A page that is dirty gets new data. *)
Lemma cache_ok_data J want c f q g d : cache_ok J want c f -> c !! q = Some g -> dirty g = true -> cache_ok J (upd want q d) (alter (fun g => set_pData g d) q c) f.
Proof using Hsz Himg.
  intros [H1 H2 H3 H4] Hg Hd. unfold upd. split.
  - intros q' g' Hg'. apply lookup_alter_Some in Hg' as [(-> & g0 & Hg0 & ->)|[Hne Hg']].
    + rewrite decide_True by done. split; [done|]. by apply (H1 _ g0).
    + rewrite decide_False by done. by apply H1.
  - intros q' Hq' Hc. rewrite decide_False.
    + apply H2; [done|]. intros g' Hg'. destruct (decide (q' = q)) as [->|Hne]; [|apply Hc; by rewrite lookup_alter_ne].
      specialize (Hc (set_pData g d)). rewrite lookup_alter_eq, Hg in Hc. specialize (Hc eq_refl). cbn in Hc. congruence.
    + intros ->. specialize (Hc (set_pData g d)). rewrite lookup_alter_eq, Hg in Hc. specialize (Hc eq_refl). cbn in Hc. congruence.
  - intros q' g' Hg' Hw. apply lookup_alter_Some in Hg' as [(-> & g0 & Hg0 & ->)|[Hne Hg']]; [|by apply H3]. cbn in Hw |- *. by apply (H3 _ g0).
  - destruct (decide (1 = q)) as [<-|Hne]; [rewrite lookup_alter_eq; by destruct H4 as [g' ->]|by rewrite lookup_alter_ne].
Qed.

(** A page is loaded, or leaves. *)
Lemma cache_ok_insert J want c f q : cache_ok J want c f -> c !! q = None -> 1 <= q < 0xffffffff -> q <> lockpage P ->
  cache_ok J want (<[q := mkPgHdr (want q) false false false]> c) f.
Proof using Hsz Himg.
  intros [H1 H2 H3 H4] Hn Hq Hl. split.
  - intros q' g Hg. apply lookup_insert_Some in Hg as [[<- <-]|[Hne Hg]]; [done|by apply H1].
  - intros q' Hq' Hc. apply H2; [done|]. intros g Hg. apply Hc. rewrite lookup_insert_ne; [done|]. intros ->. congruence.
  - intros q' g Hg Hw. apply lookup_insert_Some in Hg as [[<- <-]|[Hne Hg]]; [done|by apply H3].
  - destruct (decide (q = 1)) as [->|Hne]; [rewrite lookup_insert_eq; eauto|by rewrite lookup_insert_ne].
Qed.

Lemma cache_ok_delete J want c f q : cache_ok J want c f -> (forall g, c !! q = Some g -> dirty g = false) -> q <> 1 -> cache_ok J want (delete q c) f.
Proof using Hsz Himg.
  intros [H1 H2 H3 H4] Hd Hq. split.
  - intros q' g Hg. apply lookup_delete_Some in Hg as [_ Hg]. by apply H1.
  - intros q' Hq' Hc. apply H2; [done|]. intros g Hg. destruct (decide (q' = q)) as [->|Hne]; [by apply Hd|]. apply Hc. by rewrite lookup_delete_ne.
  - intros q' g Hg Hw. apply lookup_delete_Some in Hg as [_ Hg]. by apply H3.
  - by rewrite lookup_delete_ne.
Qed.

(** A page is written to the file. *)
Lemma cache_ok_written J want c f n q g : cache_ok J want c f -> 0 <= n -> zlen f = n * P -> c !! q = Some g -> zlen (want q) = P -> 
  cache_ok J want c (fwrite f ((q - 1) * P) (want q)).
Proof using Hsz Himg.
  intros [H1 H2 H3 H4] Hn Hf Hg Hw. destruct (H1 q g Hg) as (_ & Hq & _). split; try done. intros q' Hq' Hc. rewrite (fpage_fwrite n) by (done || lia). case_decide; [by subst|by apply H2].
Qed.

Lemma cache_ok_clean J want c f q : cache_ok J want c f -> fpage P f q = want q -> cache_ok J want (alter sqlite3PcacheMakeClean q c) f.
Proof using Hsz Himg.
  intros [H1 H2 H3 H4] Hq. split.
  - intros q' g Hg. apply lookup_alter_Some in Hg as [(-> & g0 & Hg0 & ->)|[Hne Hg]]; [by apply (H1 _ g0)|by apply H1].
  - intros q' Hq' Hc. destruct (decide (q' = q)) as [->|Hne]; [done|]. apply H2; [done|]. intros g Hg. apply Hc. by rewrite lookup_alter_ne.
  - intros q' g Hg Hw. apply lookup_alter_Some in Hg as [(-> & g0 & Hg0 & ->)|[Hne Hg]]; [done|by apply H3].
  - destruct (decide (1 = q)) as [<-|Hne]; [rewrite lookup_alter_eq; by destruct H4 as [g ->]|by rewrite lookup_alter_ne].
Qed.

(** The flags that are cleared when the journal is safe. *)
Lemma cache_ok_synced J want c f : cache_ok J want c f -> cache_ok J want (sqlite3PcacheClearSyncFlags c) f.
Proof using Hsz Himg.
  intros [H1 H2 H3 H4]. unfold sqlite3PcacheClearSyncFlags. split.
  - intros q g Hg. rewrite lookup_fmap in Hg. apply fmap_Some in Hg as (g0 & Hg0 & ->). case_match; by apply (H1 q g0).
  - intros q Hq Hc. apply H2; [done|]. intros g Hg. destruct (dirty g) eqn:E; [|done]. specialize (Hc (set_needSync g false)). rewrite lookup_fmap, Hg in Hc. cbn in Hc. rewrite E in Hc. specialize (Hc eq_refl). cbn in Hc. congruence.
  - intros q g Hg Hw. rewrite lookup_fmap in Hg. apply fmap_Some in Hg as (g0 & Hg0 & ->). destruct (dirty g0) eqn:E.
    + cbn in Hw |- *. by apply (H3 q g0).
    + destruct (H3 q g0 Hg0 Hw). congruence.
  - rewrite lookup_fmap. by destruct H4 as [g ->].
Qed.
End tx.

Lemma page_flag_true p q (f : PgHdr -> bool) : page_flag p q f = true <-> exists g, pcache p !! q = Some g /\ f g = true.
Proof. unfold page_flag. destruct (pcache p !! q) as [g|]; split; [eauto|by intros (g' & [= ->] & H)|done|by intros (g' & H & _)]. Qed.

(** *** A database made of pages *)

Definition build (M : Z) (w : Z -> list Z) : list Z := concat (map (fun k => w (Z.of_nat k)) (seq 1 (Z.to_nat M))).

Section build.
Context (P S : Z) (Hsz : sizes_ok P S = true) (w : Z -> list Z) (Hw : forall q, 1 <= q -> zlen (w q) = P).

Lemma build_nat n : zlen (build (Z.of_nat n) w) = Z.of_nat n * P /\ forall q, 1 <= q <= Z.of_nat n -> pageof P (build (Z.of_nat n) w) q = w q.
Proof using Hsz Hw.
  pose proof (sizes P S Hsz) as [HP _]. induction n as [|n [IH1 IH2]]; [split; [done|lia]|].
  assert (build (Z.of_nat (Datatypes.S n)) w = build (Z.of_nat n) w ++ w (Z.of_nat n + 1)) as ->.
  { unfold build. rewrite !Nat2Z.id, seq_S, map_app, concat_app. cbn [map concat]. rewrite app_nil_r. do 2 f_equal. lia. }
  rewrite zlen_app, IH1, Hw by lia. split; [lia|]. intros q Hq. unfold pageof. destruct (decide (q = Z.of_nat n + 1)) as [->|Hne].
  - rewrite fread_app_r by lia. rewrite IH1. replace ((Z.of_nat n + 1 - 1) * P - Z.of_nat n * P) with 0 by lia. pose proof (fread_all (w (Z.of_nat n + 1))) as Hf. rewrite Hw in Hf by lia. exact Hf.
  - rewrite fread_app_l by nia. apply IH2. lia.
Qed.

Lemma build_pages M : 0 <= M -> zlen (build M w) = M * P /\ forall q, 1 <= q <= M -> pageof P (build M w) q = w q.
Proof using Hsz Hw. intros HM. pose proof (build_nat (Z.to_nat M)) as H. by rewrite Z2Nat.id in H. Qed.

Lemma build_image M : 1 <= M < 0xffffffff -> image_ok P (build M w) /\ npages P (build M w) = M.
Proof using Hsz Hw.
  intros HM. pose proof (sizes P S Hsz) as [HP _]. destruct (build_pages M ltac:(lia)) as [Hl _]. assert (npages P (build M w) = M) as E by (unfold npages; rewrite Hl, Z.div_mul; lia).
  split; [|done]. unfold image_ok. rewrite E. lia.
Qed.

Lemma build_unique M c : 0 <= M -> zlen c = M * P -> (forall q, 1 <= q <= M -> pageof P c q = w q) -> c = build M w.
Proof using Hsz Hw.
  intros HM Hl Hc. destruct (build_pages M HM) as [Hl' Hb]. apply (pages_ext P S Hsz M); try done. intros q Hq. by rewrite Hc, Hb.
Qed.
End build.

Section states.
Context (P S : Z) (Hsz : sizes_ok P S = true) (HSP : S <= P).
Context (cf : PagerConf) (Hcf : conf_ok cf S).
Context (pager_delsuper : Pager -> list Z -> prog (Z * Pager)).
Context (A : list (list Z)) (img : list Z).
Hypothesis Himg : image_ok P img.
Hypothesis HA : forall i, i ∈ A -> image_ok P i.
Hypothesis Hin : img ∈ A.

Abbreviation R := (Recoverable P S A img).
Abbreviation N := (npages P img).

(** A transaction with the view [want] of [M] pages that has journaled the pages [J], over a file [f]. *)
Record common (J : gset Z) (want : Z -> list Z) (M : Z) (p : Pager) (f : list Z) : Prop := {
  c_page : pageSize p = P;
  c_sector : sectorSize p = S;
  c_lck : lckPgno p = lockpage P;
  c_err : errCode p = SQLITE_OK;
  c_ref : ref1 p = true;
  c_lock : RESERVED_LOCK <= eLock p < UNKNOWN_LOCK;
  c_orig : dbOrigSize p = N;
  c_size : dbSize p = M;
  c_fsize : N <= dbFileSize p <= M;
  c_flen : zlen f = dbFileSize p * P;
  c_want : want_ok P img J want M;
  c_cache : cache_ok P img J want (pcache p) f;
  c_last : dbFileSize p < M -> exists g, pcache p !! M = Some g /\ dirty g = true
}.

(** The journal is not open: nothing was changed. *)
Record Locked (want : Z -> list Z) (p : Pager) (d : disk) : Prop := {
  l_common : common ∅ want N p (v_now (d_db d));
  l_state : eState p = PAGER_WRITER_LOCKED;
  l_count : changeCountDone p = false;
  l_vers : dbFileVers p = fread (pageof P img 1) 24 16;
  l_off : journalOff p = 0;
  l_clean : forall q g, pcache p !! q = Some g -> dirty g = false;
  l_cold : cold P S A img d;
  l_jfd : jfd p = true -> is_Some (d_jrnl d) /\ (d_dirsync d = true \/ d_gone d = [])
}.

(** The journal is open, with the segments [segs] and the records [rs] in the last one. *)
Record Opened (cc : bool) (segs : list segment) (ck : Z) (rs : list jrec) (v : versions) (J : gset Z) (want : Z -> list Z) (M : Z) (p : Pager) (d : disk) : Prop := {
  o_common : common J want M p (v_now (d_db d));
  o_state : eState p = if decide (segs = []) then PAGER_WRITER_CACHEMOD else PAGER_WRITER_DBMOD;
  o_count : changeCountDone p = cc;
  o_vers : dbFileVers p = fread (pageof P img 1) 24 16;
  o_journal : pInJournal p = Some J;
  o_J : forall q, q ∈ J <-> q ∈ map fst (all_recs segs ++ rs);
  o_pager : popen P S img segs ck rs p;
  o_disk : dopen P S A img segs ck rs v d;
  o_sync : forall q, q ∈ map fst rs -> exists g, pcache p !! q = Some g /\ dirty g = true /\ needSync g = true
}.

Lemma locked_R want p d : Locked want p d -> R d.
Proof using All. intros H. apply (l_cold _ _ _ H). Qed.

Lemma opened_R cc segs ck rs v J want M p d : Opened cc segs ck rs v J want M p d -> R d.
Proof using All. intros H. by apply (dopen_R P S Hsz A img Himg HA Hin segs ck rs v), (o_disk _ _ _ _ _ _ _ _ _ _ H). Qed.

(** *** Reading a page *)

Lemma common_cache J want M p f c : common J want M p f -> cache_ok P img J want c f -> (dbFileSize p < M -> exists g, c !! M = Some g /\ dirty g = true) -> common J want M (set_pcache p c) f.
Proof using All. intros [] H1 H2. by split. Qed.

(** The page that is asked for is in the cache, which is as before but for a page that was loaded. *)
Definition loaded (want : Z -> list Z) (q : Z) (p p' : Pager) : Prop :=
  (exists g, pcache p !! q = Some g) /\ p' = p \/
  pcache p !! q = None /\ 1 <= q < 0xffffffff /\ q <> lockpage P /\ p' = set_pcache p (<[q := mkPgHdr (want q) false false false]> (pcache p)).

Lemma wpc_get J want M p d q (C : disk -> Prop) (Q : Z * Pager -> disk -> Prop) : C d -> common J want M p (v_now (d_db d)) -> eState p <> PAGER_ERROR -> 0 <= q < 0xffffffff ->
  (forall p', loaded want q p p' -> Q (SQLITE_OK, p') d) -> (forall rc, rc <> SQLITE_OK -> Q (rc, p) d) -> wpc S C (sqlite3PagerGet cf pager_delsuper p q) Q d.
Proof using All.
  intros HC Hc Hst Hq H1 H2. pose proof (sizes P S Hsz) as [HP _]. unfold sqlite3PagerGet. rewrite (proj2 (Z.eqb_neq _ _) Hst). unfold getPageNormal. case_if; breflect; [apply wpc_ret; by apply H2|].
  destruct (pcache p !! q) as [g|] eqn:Eg; [apply wpc_ret, H1; left; eauto|].
  assert (q <> 1) as Hq1 by (intros ->; destruct (k_one _ _ _ _ _ _ (c_cache _ _ _ _ _ Hc)) as [g Hg]; congruence).
  assert (forall rc dat, rc <> SQLITE_OK -> wpc S C (if rc =? SQLITE_OK then DRet (rc, set_pcache p (<[q := mkPgHdr dat false false false]> (pcache p)))
     else do! p := pagerUnlockIfUnused cf pager_delsuper p in DRet (rc, p))%dprog Q d) as Hfail.
  { intros rc dat Hrc. rewrite (proj2 (Z.eqb_neq _ _) Hrc). unfold pagerUnlockIfUnused. rewrite (c_ref _ _ _ _ _ Hc). cbn [dbind]. apply wpc_ret. by apply H2. }
  assert (q <> lockpage P -> wpc S C (if SQLITE_OK =? SQLITE_OK then DRet (SQLITE_OK, set_pcache p (<[q := mkPgHdr (want q) false false false]> (pcache p)))
     else do! p := pagerUnlockIfUnused cf pager_delsuper p in DRet (SQLITE_OK, p))%dprog Q d) as Hok.
  { intros Hl. steps. apply wpc_ret, H1. right. split_and!; try done; lia. }
  wbind. unfold load_page, PAGER_SJ_PGNO. rewrite (c_lck _ _ _ _ _ Hc), (c_size _ _ _ _ _ Hc). case_if; breflect; [apply wpc_ret; by apply Hfail|].
  case_if; breflect.
  - case_if; apply wpc_ret; [by apply Hfail|]. rewrite (c_page _ _ _ _ _ Hc), <- (w_big _ _ _ _ _ (c_want _ _ _ _ _ Hc) q) by done. by apply Hok.
  - unfold readDbPage. rewrite (c_page _ _ _ _ _ Hc), (proj2 (Z.eqb_neq _ _) Hq1).
    assert (fpage P (v_now (d_db d)) q = want q) as Hw by (apply (k_clean _ _ _ _ _ _ (c_cache _ _ _ _ _ Hc)); [lia|intros g Hg; congruence]).
    wbind. apply wpc_Read; [done|nia|lia| | |].
    + intros Hl. cbn [wpc]. change (now d FDb) with (v_now (d_db d)) in *. assert (fread (v_now (d_db d)) ((q - 1) * P) P = want q) as -> by (rewrite <- Hw; by rewrite (fpage_full P S Hsz img Himg) by lia). by apply Hok.
    + intros Hl. cbn [wpc]. change (now d FDb) with (v_now (d_db d)) in *. assert (fread (v_now (d_db d)) ((q - 1) * P) P ++ repeat 0 (Z.to_nat (P - zlen (fread (v_now (d_db d)) ((q - 1) * P) P))) = want q) as -> by (rewrite <- Hw; done). by apply Hok.
    + intros rc Hrc. cbn [wpc]. rewrite (io_short _ Hrc). apply Hfail. by apply bad_ne, io_error_bad.
Qed.

Lemma loaded_page want q p p' : loaded want q p p' -> exists g, pcache p' !! q = Some g.
Proof using All. intros [[H ->]|(_ & _ & _ & ->)]; [done|]. cbn. rewrite lookup_insert_eq. eauto. Qed.

Lemma loaded_common J want M p p' q f : loaded want q p p' -> common J want M p f -> common J want M p' f.
Proof using All.
  intros [[_ ->]|(Hn & Hq & Hl & ->)]; [done|]. intros Hc. apply common_cache; [done| |].
  - apply (cache_ok_insert P S Hsz img Himg); try done. apply Hc.
  - intros Hlt. destruct (c_last _ _ _ _ _ Hc Hlt) as (g & Hg & Hd). exists g. split; [|done]. rewrite lookup_insert_ne; [done|]. intros ->. congruence.
Qed.

Lemma loaded_locked want p p' q d : loaded want q p p' -> Locked want p d -> Locked want p' d.
Proof using All.
  intros Hl [H1 H2 H3 H3' H5 H6 H7 H8]. pose proof (loaded_common _ _ _ _ _ _ _ Hl H1) as Hc. destruct Hl as [[_ ->]|(Hn & _ & _ & ->)]; split; try done.
  intros q' g Hg. cbn in Hg. apply lookup_insert_Some in Hg as [[_ <-]|[_ Hg]]; [done|by apply (H6 q')].
Qed.

Lemma loaded_opened cc segs ck rs v J want M p p' q d : loaded want q p p' -> Opened cc segs ck rs v J want M p d -> Opened cc segs ck rs v J want M p' d.
Proof using All.
  intros Hl [H1 H2 H3 H3' H4 H5 H6 H7 H8]. pose proof (loaded_common _ _ _ _ _ _ _ Hl H1) as Hc. destruct Hl as [[_ ->]|(Hn & _ & _ & ->)]; [by split|]. split; try done.
  - by destruct H6.
  - intros q' Hq'. destruct (H8 q' Hq') as (g & Hg & Hr). exists g. split; [|done]. cbn. rewrite lookup_insert_ne; [done|]. intros ->. congruence.
Qed.

(** *** Opening the journal *)

Lemma cold_ready d v : cold P S A img d -> d_jrnl d = Some v -> d_dirsync d = true \/ d_gone d = [] -> dready P S A img [] v d.
Proof using All.
  intros [[HR Hdb] Hnh] Hv Hg. pose proof (rc_now _ _ _ _ _ HR) as Hn. rewrite decide_False in Hn by done. destruct Hn as [_ Hm]. split; try done.
  - split; [|done|apply NoDup_nil_2]. intros c Hc. split; [done|]. by apply (Hm v).
  - pose proof (rc_plain _ _ _ _ _ HR) as Hp. unfold now, file_of in Hp. by rewrite Hv in Hp.
  - split; [|done]. apply (gone_ok_sub P S A img (d_jrnl d :: d_gone d)); [intros x Hx; by right|]. by apply (recoverable_gone P S).
Qed.

Lemma ready_cold v d : dready P S A img [] v d -> cold P S A img d.
Proof using All.
  intros Hd. split; [by apply (dready_whole P S Hsz A img Himg HA Hin v)|]. unfold jrnl_hot. rewrite (dready_now _ _ _ _ _ _ _ Hd). apply (jr_chain _ _ _ _ _ (dr_ready _ _ _ _ _ _ _ Hd)). left.
Qed.

(** The journal file once it is open. *)
Lemma opened_file d : cold P S A img d ->
  (forall v, d_jrnl d = Some v -> dready P S A img [] v (set_dirsync d true)) /\
  (d_jrnl d = None -> dready P S A img [] (mkVer [] []) (set_dirsync (set_dgone (set_djrnl d (Some (mkVer [] []))) (None :: d_gone d)) true)).
Proof using All.
  intros Hc. pose proof Hc as [[HR Hdb] Hnh]. split.
  - intros v Hv. apply cold_ready; [|done|by left]. split; [by apply whole_dirsync|done].
  - intros Hv. split; try done.
    + split; [|done|apply NoDup_nil_2]. intros c Hc'. split; [done|]. apply list_elem_of_singleton in Hc' as ->. apply nomagic_nil.
    + split; [|by left]. cbn. rewrite <- Hv. by apply (recoverable_gone P S).
Qed.

Lemma wpc_open_journal want p d (Q : Z * Pager -> disk -> Prop) : Locked want p d ->
  (forall ck v p' d', Opened false [] ck [] v ∅ want N p' d' -> pcache p' = pcache p -> Q (SQLITE_OK, p') d') ->
  (forall rc p' d', rc <> SQLITE_OK -> Locked want p' d' -> Q (rc, p') d') -> wpc S R (pager_open_journal cf p) Q d.
Proof using All.
  intros HL H1 H2. pose proof HL as [L1 L2 L3 L3' L5 L6 L7 L8]. pose proof (locked_R _ _ _ HL) as HR. pose proof L1 as []. unfold pager_open_journal. rewrite c_err0. steps. rewrite (co_mode _ _ Hcf).
  change (negb (PAGER_JOURNALMODE_DELETE =? PAGER_JOURNALMODE_OFF)) with true. cbn iota. wbind. wbind. apply wpc_Malloc; [done|]. intros ok. destruct ok; cbn [negb].
  2: { apply wpc_ret. apply wpc_ret. change (SQLITE_NOMEM =? SQLITE_NOMEM) with true. cbn iota. by apply H2. }
  set (p1 := set_pInJournal p (Some ∅)). change (jfd p1) with (jfd p).
  (* The journal is there, and is open in the pager. *)
  assert (forall p2 v d1, dready P S A img [] v d1 -> d_db d1 = d_db d -> d_dirsync d1 = true \/ d_gone d1 = [] -> (p2 = p1 /\ jfd p = true) \/ p2 = set_jfd p1 true ->
    wpc S R (do! (rc, p) := writeJournalHdr cf (set_journalHdr (set_setSuper (set_journalOff (set_nRec p2 0) 0) false) 0) in
      DRet (if rc =? SQLITE_OK then None else Some rc, p))%dprog
      (fun x d' => wpc S R (let '(rc, p) := x in match rc with
        | Some rc => DRet (rc, if rc =? SQLITE_NOMEM then p else set_journalOff (set_pInJournal p None) 0)
        | None => DRet (SQLITE_OK, set_eState p PAGER_WRITER_CACHEMOD) end) Q d') d1) as Hhdr.
  { intros p2 v d1 Hd1 Edb Hg Hp2. wbind. apply (wpc_writeJournalHdr P S Hsz HSP cf Hcf A img Himg HA Hin [] v).
    - done.
    - by destruct Hp2 as [[-> _]| ->].
    - by destruct Hp2 as [[-> _]| ->].
    - by destruct Hp2 as [[-> _]| ->].
    - done.
    - intros ck v' d' Hd' Edb'. cbn [wpc]. steps. apply wpc_ret. apply (H1 ck v'); [|by destruct Hp2 as [[-> _]| ->]]. split; try done.
      + rewrite Edb', Edb. by destruct Hp2 as [[-> _]| ->].
      + by destruct Hp2 as [[-> _]| ->].
      + by destruct Hp2 as [[-> _]| ->].
      + by destruct Hp2 as [[-> _]| ->].
      + intros q. cbn. set_solver.
      + destruct Hp2 as [[-> Hj]| ->]; split; try done; first [by rewrite seg_end_nil|apply c_lock0].
      + intros q Hq. cbn in Hq. by apply not_elem_of_nil in Hq.
    - intros rc ck Hrc. cbn [wpc]. steps. apply wpc_ret. assert (rc <> SQLITE_NOMEM) as Hnm by (intros ->; done). rewrite (proj2 (Z.eqb_neq _ _) Hnm).
      apply H2; [by apply bad_ne, io_error_bad|]. split; try done.
      + rewrite Edb. by destruct Hp2 as [[-> _]| ->].
      + by destruct Hp2 as [[-> _]| ->].
      + by destruct Hp2 as [[-> _]| ->].
      + by destruct Hp2 as [[-> _]| ->].
      + by destruct Hp2 as [[-> _]| ->].
      + by apply (ready_cold v).
      + intros _. split; [|done]. exists v. apply Hd1. }
  wbind. assert (jfd p = true \/ jfd p = false) as [Ej|Ej] by (by destruct (jfd p); [left|right]); rewrite Ej.
  - destruct (L8 Ej) as [[v Hv] Hg]. apply wpc_ret. steps. apply (Hhdr p1 v d); [by apply cold_ready|done|done|by left].
  - unfold databaseIsUnmoved. change (dbSize p1) with (dbSize p). rewrite c_size0, (proj2 (Z.eqb_neq N 0)) by (destruct Himg; lia).
    assert (forall rc, rc <> SQLITE_OK -> rc <> SQLITE_NOMEM -> wpc S R (do! (rc, p) := (if rc =? SQLITE_OK then
        writeJournalHdr cf (set_journalHdr (set_setSuper (set_journalOff (set_nRec p1 0) 0) false) 0) else DRet (rc, p1)) in DRet (if rc =? SQLITE_OK then None else Some rc, p))%dprog
      (fun x d' => wpc S R (let '(rc, p) := x in match rc with
        | Some rc => DRet (rc, if rc =? SQLITE_NOMEM then p else set_journalOff (set_pInJournal p None) 0)
        | None => DRet (SQLITE_OK, set_eState p PAGER_WRITER_CACHEMOD) end) Q d') d) as Hfail.
    { intros rc Hrc Hnm. rewrite (proj2 (Z.eqb_neq _ _) Hrc). cbn [dbind]. apply wpc_ret. rewrite (proj2 (Z.eqb_neq _ _) Hrc). apply wpc_ret. rewrite (proj2 (Z.eqb_neq _ _) Hnm). apply H2; [done|]. by split. }
    assert (wpc S R (do! rc := os (OsOpen true) in DRet (rc, if rc =? SQLITE_OK then set_jfd p1 true else p1))%dprog
      (fun x d' => wpc S R (let '(rc, p) := x in do! (rc, p) := (if rc =? SQLITE_OK then
        writeJournalHdr cf (set_journalHdr (set_setSuper (set_journalOff (set_nRec p 0) 0) false) 0) else DRet (rc, p)) in DRet (if rc =? SQLITE_OK then None else Some rc, p))%dprog
      (fun x d' => wpc S R (let '(rc, p) := x in match rc with
        | Some rc => DRet (rc, if rc =? SQLITE_NOMEM then p else set_journalOff (set_pInJournal p None) 0)
        | None => DRet (SQLITE_OK, set_eState p PAGER_WRITER_CACHEMOD) end) Q d') d') d) as Hopen.
    { destruct (opened_file d L7) as [Hsome Hnone]. wbind. apply wpc_Open; [done| | |].
      - intros v Hv. specialize (Hsome v Hv). split; [by apply (dready_R P S Hsz A img Himg HA Hin _ _ _ Hsome)|]. steps. apply wpc_ret. cbn iota beta. steps. apply (Hhdr _ v); [done|done|by left|by right].
      - intros Hv _. specialize (Hnone Hv). split; [by apply (dready_R P S Hsz A img Himg HA Hin _ _ _ Hnone)|]. steps. apply wpc_ret. cbn iota beta. steps. apply (Hhdr _ (mkVer [] [])); [done|done|by left|by right].
      - intros rc Hrc. assert (rc <> SQLITE_OK /\ rc <> SQLITE_NOMEM) as [Hrc1 Hrc2] by (split; intros ->; done). rewrite (proj2 (Z.eqb_neq _ _) Hrc1). apply wpc_ret. cbn iota beta. by apply Hfail. }
    wbind. wbind. apply wpc_Control; [done|]. intros rc Hrc. cbn [wpc]. destruct Hrc as [->|[->|Hrc]]; [exact Hopen|exact Hopen|].
    assert (rc <> SQLITE_NOTFOUND /\ rc <> SQLITE_NOMEM) as [Hn1 Hn2] by (split; intros ->; done). rewrite (proj2 (Z.eqb_neq _ _) Hn1), (io_ok _ Hrc).
    cbn [dbind]. rewrite (io_ok _ Hrc). apply wpc_ret. cbn iota beta. apply Hfail; [by apply bad_ne, io_error_bad|done].
Qed.

(** *** Making a page writeable *)

Lemma common_flags J want M p f q φ : common J want M p f ->
  (forall g, pcache p !! q = Some g -> pData (φ g) = pData g /\ (dirty g = true -> dirty (φ g) = true) /\ (writeable (φ g) = true -> dirty (φ g) = true /\ (q <= N -> q ∈ J))) ->
  common J want M (upd_page p q φ) f.
Proof using All.
  intros Hc Hφ. apply common_cache; [done|by apply (cache_ok_alter P S Hsz img Himg); [apply Hc|]|].
  intros Hlt. destruct (c_last _ _ _ _ _ Hc Hlt) as (g & Hg & Hd). destruct (decide (M = q)) as [->|Hne].
  - exists (φ g). rewrite lookup_alter_eq, Hg. split; [done|]. destruct (Hφ g Hg) as (_ & Hd' & _). auto.
  - exists g. by rewrite lookup_alter_ne.
Qed.

Lemma opened_flags cc segs ck rs v J want M p d q φ : Opened cc segs ck rs v J want M p d ->
  (forall g, pcache p !! q = Some g -> pData (φ g) = pData g /\ (dirty g = true -> dirty (φ g) = true) /\ (needSync g = true -> needSync (φ g) = true) /\
     (writeable (φ g) = true -> dirty (φ g) = true /\ (q <= N -> q ∈ J))) ->
  Opened cc segs ck rs v J want M (upd_page p q φ) d.
Proof using All.
  intros [H1 H2 H3 H3' H4 H5 H6 H7 H8] Hφ. split; try done.
  - apply common_flags; [done|]. intros g Hg. destruct (Hφ g Hg) as (? & ? & ? & ?). auto.
  - by destruct H6.
  - intros q' Hq'. destruct (H8 q' Hq') as (g & Hg & Hd & Hn). destruct (decide (q' = q)) as [->|Hne].
    + exists (φ g). cbn. rewrite lookup_alter_eq, Hg. destruct (Hφ g Hg) as (_ & Hd' & Hn' & _). auto.
    + exists g. cbn. by rewrite lookup_alter_ne.
Qed.

Lemma opened_size cc segs ck rs v J want M p d q g : Opened cc segs ck rs v J want M p d -> pcache p !! q = Some g -> dirty g = true ->
  Opened cc segs ck rs v J want (Z.max M q) (if dbSize p <? q then set_dbSize p q else p) d.
Proof using All.
  intros [H1 H2 H3 H3' H4 H5 H6 H7 H8] Hg Hd. pose proof (k_data _ _ _ _ _ _ (c_cache _ _ _ _ _ H1) q g Hg) as (_ & Hq & _).
  assert (common J want (Z.max M q) (if dbSize p <? q then set_dbSize p q else p) (v_now (d_db d))) as Hc.
  { destruct H1. subst M. destruct (Z.ltb_spec (dbSize p) q) as [Hlt|Hge].
    - rewrite Z.max_r in * by lia. split; try done; [cbn; lia| |].
      + replace q with (Z.max (dbSize p) q) by lia. apply (want_ok_grow P S Hsz img Himg); [done|lia].
      + intros _. by exists g.
    - rewrite Z.max_l in * by lia. by split. }
  split; try done; case_if; try done; by destruct H6.
Qed.

Lemma opened_data cc segs ck rs v J want M p d q g x : Opened cc segs ck rs v J want M p d -> pcache p !! q = Some g -> dirty g = true -> zlen x = P -> (q <= N -> q ∈ J) -> q <= M ->
  Opened cc segs ck rs v J (upd want q x) M (upd_page p q (fun g => set_pData g x)) d.
Proof using All.
  intros [H1 H2 H3 H3' H4 H5 H6 H7 H8] Hg Hd Hx HJ HM. pose proof (k_data _ _ _ _ _ _ (c_cache _ _ _ _ _ H1) q g Hg) as (_ & Hq & _).
  assert (forall q' g', pcache p !! q' = Some g' -> exists g2, alter (fun g => set_pData g x) q (pcache p) !! q' = Some g2 /\ dirty g2 = dirty g' /\ needSync g2 = needSync g') as Ha.
  { intros q' g' Hg'. destruct (decide (q' = q)) as [->|Hne]; [exists (set_pData g' x); by rewrite lookup_alter_eq, Hg'|exists g'; by rewrite lookup_alter_ne]. }
  split; try done.
  - destruct H1. split; try done.
    + replace M with (Z.max M q) by lia. apply (want_ok_upd P S Hsz img Himg); [done|lia|done..].
    + cbn [pcache upd_page set_pcache]. by apply (cache_ok_data P S Hsz img Himg _ _ _ _ q g).
    + intros Hlt. destruct (c_last0 Hlt) as (g' & Hg' & Hd'). destruct (Ha M g' Hg') as (g2 & Hg2 & Ed & _). exists g2. split; [done|congruence].
  - by destruct H6.
  - intros q' Hq'. destruct (H8 q' Hq') as (g' & Hg' & Hd' & Hn'). destruct (Ha q' g' Hg') as (g2 & Hg2 & Ed & En). exists g2. split; [done|]. split; congruence.
Qed.

Lemma page_data_want J want M p f q g : common J want M p f -> pcache p !! q = Some g -> page_data p q = want q.
Proof using All. intros Hc Hg. unfold page_data. rewrite Hg. by apply (k_data _ _ _ _ _ _ (c_cache _ _ _ _ _ Hc) q g). Qed.

(** The page can be written now. *)
Definition writeable_now (q : Z) (J : gset Z) (p : Pager) : Prop := (exists g, pcache p !! q = Some g /\ dirty g = true) /\ (q <= N -> q ∈ J).

Lemma wpc_write_page cc segs ck rs v J want M p d q g (Q : Z * Pager -> disk -> Prop) : Opened cc segs ck rs v J want M p d -> pcache p !! q = Some g ->
  (forall rs' v' J' p' d', Opened cc segs ck rs' v' J' want (Z.max M q) p' d' -> writeable_now q J' p' -> Q (SQLITE_OK, p') d') ->
  (forall rc v' p' d', rc <> SQLITE_OK -> Opened cc segs ck rs v' J want M p' d' -> Q (rc, p') d') -> wpc S R (pager_write_page p q) Q d.
Proof using All.
  intros Ho Hg H1 H2. unfold pager_write_page. set (p1 := upd_page p q sqlite3PcacheMakeDirty).
  pose proof (k_data _ _ _ _ _ _ (c_cache _ _ _ _ _ (o_common _ _ _ _ _ _ _ _ _ _ Ho)) q g Hg) as (Hdat & Hq & Hql).
  assert (forall g, dirty (sqlite3PcacheMakeDirty g) = true) as Hmd by (intros g0; unfold sqlite3PcacheMakeDirty; by destruct (dirty g0) eqn:E).
  assert (Opened cc segs ck rs v J want M p1 d) as Ho1.
  { apply opened_flags; [done|]. intros g0 Hg0. split; [unfold sqlite3PcacheMakeDirty; by case_if|]. split; [auto|]. split; [unfold sqlite3PcacheMakeDirty; by case_if|].
    intros Hw. split; [auto|]. apply (k_write _ _ _ _ _ _ (c_cache _ _ _ _ _ (o_common _ _ _ _ _ _ _ _ _ _ Ho)) q g0 Hg0). unfold sqlite3PcacheMakeDirty in Hw. by destruct (dirty g0). }
  assert (pcache p1 !! q = Some (sqlite3PcacheMakeDirty g)) as Hg1 by (cbn; by rewrite lookup_alter_eq, Hg).
  clearbody p1. set (g1 := sqlite3PcacheMakeDirty g) in *. assert (dirty g1 = true) as Hd1 by apply Hmd.
  (* Once the page is in the journal, or need not be. *)
  assert (forall rs' v' J' p2 d' g2, Opened cc segs ck rs' v' J' want M p2 d' -> pcache p2 !! q = Some g2 -> dirty g2 = true -> (q <= N -> q ∈ J') ->
    Q (SQLITE_OK, let p := upd_page p2 q (fun g => set_writeable g true) in if dbSize p <? q then set_dbSize p q else p) d') as Hend.
  { intros rs' v' J' p2 d' g2 Ho2 Hg2 Hd2 HJ. set (p3 := upd_page p2 q (fun g => set_writeable g true)).
    assert (Opened cc segs ck rs' v' J' want M p3 d') as Ho3.
    { apply opened_flags; [done|]. intros g0 Hg0. assert (g0 = g2) as -> by congruence. done. }
    assert (pcache p3 !! q = Some (set_writeable g2 true)) as Hg3 by (cbn; by rewrite lookup_alter_eq, Hg2).
    apply (H1 rs' v' J'); [by apply (opened_size _ _ _ _ _ _ _ _ _ _ _ (set_writeable g2 true))|]. split; [|done]. exists (set_writeable g2 true). split; [|done]. cbv zeta. by case_if. }
  rewrite (o_journal _ _ _ _ _ _ _ _ _ _ Ho1), (po_orig _ _ _ _ _ _ _ (o_pager _ _ _ _ _ _ _ _ _ _ Ho1)).
  pose proof (o_common _ _ _ _ _ _ _ _ _ _ Ho1) as Hc1. wbind. case_bool_decide as HqJ; [apply wpc_ret; steps; apply wpc_ret; by apply (Hend rs v J p1 d g1)|].
  destruct (Z.leb_spec q N) as [HqN|HqN].
  - pose proof (page_data_want _ _ _ _ _ q g1 Hc1 Hg1) as Epd. assert (want q = pageof P img q) as Ew by (apply (w_orig _ _ _ _ _ (c_want _ _ _ _ _ Hc1)); [lia|done]).
    assert (rec_of P img (q, page_data p1 q)) as Hrec.
    { rewrite Epd. split; [|done]. split; [cbn; lia|]. split; [done|]. cbn. apply (w_len _ _ _ _ _ (c_want _ _ _ _ _ Hc1)). lia. }
    pose proof (o_pager _ _ _ _ _ _ _ _ _ _ Ho1) as Hpo. assert (Opened cc segs ck rs v J want M (marked p1 q) d) as Hom.
    { apply opened_flags; [done|]. intros g0 Hg0. assert (g0 = g1) as -> by congruence. split_and!; try done. intros Hw. cbn in Hw. by apply (k_write _ _ _ _ _ _ (c_cache _ _ _ _ _ Hc1) q g1). }
    apply (wpc_add_record P S Hsz A img Himg HA Hin segs ck rs v p1 q d); try done; try apply Hpo; [apply Ho1| | |].
    + rewrite <- (o_J _ _ _ _ _ _ _ _ _ _ Ho1 q). done.
    + intros v' d' Hd' Edb. steps. apply wpc_ret. set (p2 := set_pInJournal _ _).
      assert (pcache p2 !! q = Some (set_needSync g1 true)) as Hg2 by (cbn; by rewrite lookup_alter_eq, Hg1).
      apply (Hend (rs ++ [(q, page_data p1 q)]) v' ({[q]} ∪ J) p2 d' (set_needSync g1 true)); try done; [|set_solver].
      destruct Hom as [G1 G2 G3 G3' G4 G5 G6 G7 G8]. split; try done.
      * rewrite Edb. destruct G1. split; try done; [apply (want_ok_sub P S Hsz img Himg J); [set_solver|done]|apply (cache_ok_sub P S Hsz img Himg J); [set_solver|done]].
      * cbn. change (pInJournal p1) with (pInJournal (marked p1 q)). by rewrite G4.
      * intros q'. rewrite app_assoc, map_app. cbn [map fst]. rewrite elem_of_app, elem_of_union, elem_of_singleton, (G5 q'), list_elem_of_singleton. tauto.
      * destruct G6 as [E1 E2 E3 E4 E5 E6 E7 E8 E9 E10]. split; try done.
        -- cbn [journalOff set_pInJournal set_nRec set_journalOff p2]. rewrite (po_off _ _ _ _ _ _ _ Hpo). unfold seg_end. rewrite zlen_snoc. lia.
        -- cbn [nRec set_pInJournal set_nRec p2]. rewrite (po_rec _ _ _ _ _ _ _ Hpo), zlen_snoc. done.
      * intros q' Hq'. rewrite map_app in Hq'. apply elem_of_app in Hq' as [Hq'|Hq']; [by apply G8|]. apply list_elem_of_singleton in Hq' as ->. exists (set_needSync g1 true). done.
    + intros rc v' d' Hrc Hd' Edb. steps. apply wpc_ret. apply (H2 rc v'); [by apply bad_ne, io_error_bad|]. destruct Hom as [G1 G2 G3 G3' G4 G5 G6 G7 G8]. split; try done. by rewrite Edb.
  - apply wpc_ret. steps. apply wpc_ret. destruct (eState p1 =? PAGER_WRITER_DBMOD); [apply (Hend rs v J p1 d g1); try done; lia|].
    apply (Hend rs v J _ d (set_needSync g1 true)); try done; [|cbn; by rewrite lookup_alter_eq, Hg1|lia].
    apply opened_flags; [done|]. intros g0 Hg0. assert (g0 = g1) as -> by congruence. split_and!; try done. intros Hw. cbn in Hw. by apply (k_write _ _ _ _ _ _ (c_cache _ _ _ _ _ Hc1) q g1).
Qed.

(** A transaction that is under way. *)
Definition Live (cc : bool) (want : Z -> list Z) (M : Z) (p : Pager) (d : disk) : Prop :=
  (cc = false /\ M = N /\ Locked want p d) \/ exists segs ck rs v J, Opened cc segs ck rs v J want M p d.

Lemma live_common cc want M p d : Live cc want M p d -> exists J, common J want M p (v_now (d_db d)).
Proof using All. intros [(_ & -> & HL)|(segs & ck & rs & v & J & Ho)]; [exists ∅; apply HL|exists J; apply Ho]. Qed.

Lemma live_R cc want M p d : Live cc want M p d -> R d.
Proof using All. intros [(_ & _ & HL)|(segs & ck & rs & v & J & Ho)]; [by apply (locked_R want p)|by apply (opened_R _ _ _ _ _ _ _ _ _ _ Ho)]. Qed.

Lemma live_state cc want M p d : Live cc want M p d -> eState p = PAGER_WRITER_LOCKED \/ eState p = PAGER_WRITER_CACHEMOD \/ eState p = PAGER_WRITER_DBMOD.
Proof using All. intros [(_ & _ & HL)|(segs & ck & rs & v & J & Ho)]; [left; apply HL|]. rewrite (o_state _ _ _ _ _ _ _ _ _ _ Ho). case_decide; auto. Qed.

Lemma loaded_live cc want M p p' q d : loaded want q p p' -> Live cc want M p d -> Live cc want M p' d.
Proof using All.
  intros Hl [(Hcc & HM & HL)|(segs & ck & rs & v & J & Ho)]; [left; split_and!; try done; by apply (loaded_locked want p p' q)|].
  right. exists segs, ck, rs, v, J. by apply (loaded_opened _ _ _ _ _ _ _ _ p p' q).
Qed.

Lemma wpc_write cc want M p d q g (Q : Z * Pager -> disk -> Prop) : Live cc want M p d -> pcache p !! q = Some g ->
  (forall segs ck rs v J p' d', Opened cc segs ck rs v J want (Z.max M q) p' d' -> writeable_now q J p' -> Q (SQLITE_OK, p') d') ->
  (forall rc p' d', rc <> SQLITE_OK -> Live cc want M p' d' -> Q (rc, p') d') -> wpc S R (sqlite3PagerWrite cf pager_delsuper p q) Q d.
Proof using All.
  intros Hl Hg H1 H2. destruct (live_common _ _ _ _ _ Hl) as [J0 Hc]. unfold sqlite3PagerWrite.
  assert (page_flag p q writeable = true \/ page_flag p q writeable = false) as [Ew|Ew] by (by destruct (page_flag p q writeable); [left|right]); rewrite Ew; cbn [andb].
  - apply page_flag_true in Ew as (g' & Hg' & Hw). assert (g' = g) as -> by congruence. destruct Hl as [(_ & _ & HL)|(segs & ck & rs & v & J & Ho)].
    { destruct (k_write _ _ _ _ _ _ (c_cache _ _ _ _ _ (l_common _ _ _ HL)) q g Hg Hw) as [Hd _]. rewrite (l_clean _ _ _ HL q g Hg) in Hd. done. }
    destruct (k_write _ _ _ _ _ _ (c_cache _ _ _ _ _ (o_common _ _ _ _ _ _ _ _ _ _ Ho)) q g Hg Hw) as [Hd HJ].
    destruct (Z.leb_spec q (dbSize p)) as [Hle|Hgt].
    + apply wpc_ret. rewrite (c_size _ _ _ _ _ Hc) in Hle. apply (H1 segs ck rs v J); [by rewrite Z.max_l by lia|]. split; [by exists g|done].
    + rewrite (c_err _ _ _ _ _ Hc). steps. rewrite (c_page _ _ _ _ _ Hc), (c_sector _ _ _ _ _ Hc), (proj2 (Z.ltb_ge _ _)) by lia. unfold pager_write. rewrite (proj2 (Z.eqb_neq _ _)).
      2: { rewrite (o_state _ _ _ _ _ _ _ _ _ _ Ho). by case_decide. }
      steps. apply (wpc_write_page cc segs ck rs v J want M p d q g); try done.
      * intros rs' v' J' p' d' Ho' Hwn. by apply (H1 segs ck rs' v' J').
      * intros rc v' p' d' Hrc Ho'. apply H2; [done|]. right. by exists segs, ck, rs, v', J.
  - rewrite (c_err _ _ _ _ _ Hc). steps. rewrite (c_page _ _ _ _ _ Hc), (c_sector _ _ _ _ _ Hc), (proj2 (Z.ltb_ge _ _)) by lia. unfold pager_write. wbind.
    destruct Hl as [(-> & -> & HL)|(segs & ck & rs & v & J & Ho)].
    + rewrite (l_state _ _ _ HL). change (PAGER_WRITER_LOCKED =? PAGER_WRITER_LOCKED) with true. cbn iota. apply (wpc_open_journal want); [done| |].
      * intros ck v p' d' Ho Hpc. steps. apply (wpc_write_page false [] ck [] v ∅ want N p' d' q g); [done|by rewrite Hpc| |].
        -- intros rs' v' J' p2 d2 Ho' Hwn. by apply (H1 [] ck rs' v' J').
        -- intros rc v' p2 d2 Hrc Ho'. apply H2; [done|]. right. by exists [], ck, [], v', ∅.
      * intros rc p' d' Hrc HL'. rewrite (proj2 (Z.eqb_neq _ _) Hrc). apply wpc_ret. apply H2; [done|]. by left.
    + rewrite (proj2 (Z.eqb_neq _ _)) by (rewrite (o_state _ _ _ _ _ _ _ _ _ _ Ho); by case_decide).
      apply wpc_ret. steps. apply (wpc_write_page cc segs ck rs v J want M p d q g); try done.
      * intros rs' v' J' p' d' Ho' Hwn. by apply (H1 segs ck rs' v' J').
      * intros rc v' p' d' Hrc Ho'. apply H2; [done|]. right. by exists segs, ck, rs, v', J.
Qed.

(** *** Writing pages to the database file *)

(** A page whose change can be undone: it is new, in a complete segment, or what it was. *)
Definition undoable (segs : list segment) (q : Z) (x : list Z) : Prop :=
  N < q \/ q ∈ map fst (all_recs segs) \/ 1 <= q <= N /\ x = pageof P img q.

Lemma covers_undoable segs c q x k : covers P img (all_recs segs) c -> undoable segs q x -> 1 <= q -> zlen x = P -> 0 <= k ->
  covers P img (all_recs segs) (fwrite c ((q - 1) * P) (take (Z.to_nat k) x)).
Proof using All.
  intros Hc Hu Hq Hx Hk. assert (zlen (take (Z.to_nat k) x) <= P) as Hl by (rewrite zlen_take_min; lia). destruct Hu as [Hu|[Hu|[Hu ->]]].
  - apply (covers_fwrite P S Hsz); auto.
  - apply (covers_fwrite P S Hsz); auto.
  - by apply (covers_fwrite_part P S Hsz).
Qed.

Lemma dready_db segs v d c : segs <> [] -> dready P S A img segs v d -> covers P img (all_recs segs) c -> dready P S A img segs v (set_ddb d (put (d_db d) c)).
Proof using All.
  intros Hne [H1 H2 H3 H4 H5] Hc. split; try done. intros c' Hc'. apply elem_of_cons in Hc' as [->|Hc']; [by rewrite decide_False|by apply H4].
Qed.

Lemma dopen_db segs ck rs v d c : segs <> [] -> dopen P S A img segs ck rs v d -> covers P img (all_recs segs) c -> dopen P S A img segs ck rs v (set_ddb d (put (d_db d) c)).
Proof using All.
  intros Hne [H1 H2 H3 H4 H5] Hc. split; try done. intros c' Hc'. apply elem_of_cons in Hc' as [->|Hc']; [by rewrite decide_False|by apply H4].
Qed.

(** The file may be any that the segments cover: [d] and [d'] differ in nothing else. *)
Definition only_db (segs : list segment) (d d' : disk) : Prop :=
  exists db, d' = set_ddb d db /\ forall c, c ∈ v_all db -> c ∈ v_all (d_db d) \/ covers P img (all_recs segs) c.

Lemma only_db_refl segs d : only_db segs d d.
Proof using All. exists (d_db d). split; [by destruct d|by left]. Qed.

Lemma only_db_trans segs d1 d2 d3 : only_db segs d1 d2 -> only_db segs d2 d3 -> only_db segs d1 d3.
Proof using All.
  intros (b1 & -> & H1) (b2 & -> & H2). exists b2. split; [done|]. intros c Hc. destruct (H2 c Hc) as [H|H]; [by apply H1|by right].
Qed.

Lemma only_db_put segs d c : covers P img (all_recs segs) c -> only_db segs d (set_ddb d (put (d_db d) c)).
Proof using All. intros Hc. exists (put (d_db d) c). split; [done|]. intros c' Hc'. apply elem_of_cons in Hc' as [->|Hc']; [by right|by left]. Qed.

Lemma only_db_ready segs v d d' : segs <> [] -> only_db segs d d' -> dready P S A img segs v d -> dready P S A img segs v d'.
Proof using All.
  intros Hne (db & -> & Hc) [H1 H2 H3 H4 H5]. split; try done. intros c Hc'. specialize (H4 c). rewrite decide_False in * by done. cbn in Hc'. destruct (Hc c Hc'); auto.
Qed.

Lemma only_db_open segs ck rs v d d' : segs <> [] -> only_db segs d d' -> dopen P S A img segs ck rs v d -> dopen P S A img segs ck rs v d'.
Proof using All.
  intros Hne (db & -> & Hc) [H1 H2 H3 H4 H5]. split; try done. intros c Hc'. specialize (H4 c). rewrite decide_False in * by done. cbn in Hc'. destruct (Hc c Hc'); auto.
Qed.

Lemma ready_covers segs v d c : segs <> [] -> dready P S A img segs v d -> c ∈ v_all (d_db d) -> covers P img (all_recs segs) c.
Proof using All. intros Hne Hd Hc. pose proof (dr_db _ _ _ _ _ _ _ Hd c Hc) as H. by rewrite decide_False in H. Qed.

(** One page is written, and the pager notes the size of the file. *)
Lemma wpc_put_page segs v J want M p d q g (Q : Z -> disk -> Prop) : segs <> [] -> dready P S A img segs v d -> common J want M p (v_now (d_db d)) ->
  pcache p !! q = Some g -> undoable segs q (want q) ->
  (forall d', only_db segs d d' -> v_now (d_db d') = fwrite (v_now (d_db d)) ((q - 1) * P) (want q) -> Q SQLITE_OK d') ->
  (forall rc d', io_error rc = true -> only_db segs d d' -> Q rc d') -> wpc S R (os (OsWrite FDb (want q) ((q - 1) * P))) Q d.
Proof using All.
  intros Hne Hd Hc Hg Hu H1 H2. pose proof (k_data _ _ _ _ _ _ (c_cache _ _ _ _ _ Hc) q g Hg) as (_ & Hq & _). pose proof (w_len _ _ _ _ _ (c_want _ _ _ _ _ Hc) q ltac:(lia)) as Hx.
  assert (covers P img (all_recs segs) (v_now (d_db d))) as Hcv by (apply (ready_covers segs v d); [done..|left]).
  assert (forall k, 0 <= k -> only_db segs d (set_ddb d (put (d_db d) (fwrite (v_now (d_db d)) ((q - 1) * P) (take (Z.to_nat k) (want q)))))) as Ho.
  { intros k Hk. apply only_db_put. apply covers_undoable; auto; lia. }
  assert (forall d', only_db segs d d' -> R d') as HR.
  { intros d' Hd'. apply (dready_R P S Hsz A img Himg HA Hin segs v). by apply (only_db_ready segs v d). }
  apply (wpc_Write S R FDb _ _ (d_db d)); [done|by apply HR, only_db_refl| | |]; cbn [set_file].
  - intros _. specialize (Ho P). rewrite (take_ge (want q)) in Ho by (unfold zlen in Hx; lia). pose proof (sizes P S Hsz). specialize (Ho ltac:(lia)). split; [by apply HR|by apply H1].
  - intros rc Hrc. apply H2; [done|apply only_db_refl].
  - intros rc k Hrc Hk _ _. specialize (Ho k ltac:(lia)). split; [by apply HR|by apply H2].
Qed.

(** The pager after a page was written. *)
Definition grown (p : Pager) (q : Z) : Pager := if dbFileSize p <? q then set_dbFileSize p q else p.

Lemma common_put J want M p f q g : common J want M p f -> pcache p !! q = Some g -> q <= M ->
  common J want M (grown p q) (fwrite f ((q - 1) * P) (want q)).
Proof using All.
  intros Hc Hg HM. pose proof (k_data _ _ _ _ _ _ (c_cache _ _ _ _ _ Hc) q g Hg) as (_ & Hq & _). pose proof (w_len _ _ _ _ _ (c_want _ _ _ _ _ Hc) q ltac:(lia)) as Hx.
  pose proof (sizes P S Hsz) as [HP _]. assert (cache_ok P img J want (pcache p) (fwrite f ((q - 1) * P) (want q))) as Hca.
  { apply (cache_ok_written P S Hsz img Himg J want (pcache p) f (dbFileSize p) q g); try done; try apply Hc. destruct Hc as [? ? ? ? ? ? ? ? Hfs]. destruct Himg. lia. }
  assert (zlen (fwrite f ((q - 1) * P) (want q)) = Z.max (dbFileSize p) q * P) as Hlen.
  { rewrite zlen_fwrite; [|nia|intros E; rewrite E in Hx; change (zlen []) with 0 in Hx; lia]. rewrite (c_flen _ _ _ _ _ Hc). nia. }
  unfold grown. destruct Hc. destruct (Z.ltb_spec (dbFileSize p) q).
  - split; try done; [cbn; lia|cbn; rewrite Hlen; lia|]. intros Hlt. apply c_last0. cbn in Hlt. lia.
  - split; try done. rewrite Hlen. lia.
Qed.

Lemma wpc_hint p L d (C : disk -> Prop) (Q : Z * Pager -> disk -> Prop) : C d -> (forall x, wpc S C (write_pages (set_dbHintSize p x) L) Q d) -> wpc S C (pager_write_pagelist p L) Q d.
Proof using All.
  intros HC H1. assert (wpc S C (write_pages p L) Q d) as H0 by (specialize (H1 (dbHintSize p)); by destruct p). unfold pager_write_pagelist. wbind. destruct L as [|q l]; [by apply wpc_ret|].
  case_if; [|by apply wpc_ret]. wbind. apply wpc_Control; [done|]. intros rc _. apply wpc_ret. apply H1.
Qed.

Lemma common_hint J want M p f x : common J want M p f -> common J want M (set_dbHintSize p x) f.
Proof using All. by intros []; split. Qed.
End states.
