(* ===== verification/PagerCommit.v ===== *)
(** * Spilling, committing and rolling back a transaction (pager.c of sqlite3.c)

    [wpc_stress]: a page may be spilled at any time.  [wpc_rollback]: a transaction can be undone
    whenever it failed.  [wpc_commit]: the two phases of a commit leave the database that the
    transaction made, or the one before, at every step and whatever fails. *)

From stdpp Require Import sorting.
From S2P Require Import Prelude Bitwise Varint UnixFile Disk Pager Journal PagerPlay PagerRecover PagerWrite PagerTx.
From stdpp Require Import options.

(** *** Sorting the dirty pages *)

Lemma merge_dirty_perm a b : pcacheMergeDirtyList a b ≡ₚ a ++ b.
Proof.
  revert b. induction a as [|x a IH]; [by intros []|]. induction b as [|y b IHb]; [by rewrite app_nil_r|].
  cbn [pcacheMergeDirtyList]. case_if; [by rewrite IH|]. change (y :: pcacheMergeDirtyList (x :: a) b ≡ₚ (x :: a) ++ y :: b).
  by rewrite IHb, Permutation_middle.
Qed.

Lemma merge_dirty_sorted a b : StronglySorted Z.le a -> StronglySorted Z.le b -> StronglySorted Z.le (pcacheMergeDirtyList a b).
Proof.
  revert b. induction a as [|x a IH]; [by intros []|]. intros b Ha. pose proof Ha as [Ha' Hx]%StronglySorted_inv. induction b as [|y b IHb]; intros Hb; [done|].
  pose proof Hb as [Hb' Hy]%StronglySorted_inv. cbn [pcacheMergeDirtyList]. case_if; breflect.
  - constructor; [by apply IH|]. rewrite merge_dirty_perm. apply Forall_app. split; [done|]. constructor; [lia|]. eapply Forall_impl; [exact Hy|]. cbn. lia.
  - change (StronglySorted Z.le (y :: pcacheMergeDirtyList (x :: a) b)). constructor; [by apply IHb|]. rewrite merge_dirty_perm. constructor; [lia|].
    apply Forall_app. split; [|done]. eapply Forall_impl; [exact Hx|]. cbn. lia.
Qed.

Lemma buckets_perm a p : a <> [] -> concat (add_to_buckets a p) ≡ₚ concat a ++ p.
Proof.
  revert p. induction a as [|x a IH]; [done|]. intros p _. cbn [add_to_buckets]. destruct a as [|y a]; [cbn; by rewrite !app_nil_r, merge_dirty_perm|].
  case_bool_decide as Hx; [subst x; cbn; apply (Permutation_app_comm p)|]. change (concat (add_to_buckets (y :: a) (pcacheMergeDirtyList x p)) ≡ₚ (x ++ concat (y :: a)) ++ p).
  rewrite IH, merge_dirty_perm by done. by rewrite (Permutation_app_comm x (concat _)), <- app_assoc.
Qed.

Lemma buckets_sorted a p : Forall (StronglySorted Z.le) a -> StronglySorted Z.le p -> Forall (StronglySorted Z.le) (add_to_buckets a p).
Proof.
  revert p. induction a as [|x a IH]; [done|]. intros p [Hx Ha]%Forall_cons Hp. cbn [add_to_buckets]. destruct a as [|y a]; [constructor; [by apply merge_dirty_sorted|done]|].
  case_bool_decide; [by constructor|]. constructor; [constructor|]. apply IH; [done|by apply merge_dirty_sorted].
Qed.

Lemma buckets_nil a p : a <> [] -> add_to_buckets a p <> [].
Proof. destruct a as [|x [|y a]]; [done|done|]. intros _. cbn [add_to_buckets]. by case_bool_decide. Qed.

Definition buckets_of (a : list (list Z)) (l : list Z) : list (list Z) := foldl (fun a p => add_to_buckets a [p]) a l.

Lemma fill_buckets l a : a <> [] -> Forall (StronglySorted Z.le) a ->
  buckets_of a l <> [] /\ Forall (StronglySorted Z.le) (buckets_of a l) /\ concat (buckets_of a l) ≡ₚ concat a ++ l.
Proof.
  revert a. induction l as [|p l IH]; intros a Hne Ha; [by rewrite app_nil_r|]. destruct (IH (add_to_buckets a [p])) as (H1 & H2 & H3).
  - by apply buckets_nil.
  - apply buckets_sorted; [done|by repeat constructor].
  - split_and!; [done..|]. cbn [buckets_of foldl]. unfold buckets_of in H3. rewrite H3, buckets_perm by done. by rewrite <- app_assoc.
Qed.

Lemma empty_buckets n : Forall (StronglySorted Z.le) (repeat [] n) /\ concat (repeat [] n) = @nil Z.
Proof. induction n as [|n [IH1 IH2]]; [done|]. split; [constructor; [constructor|done]|done]. Qed.

Lemma merge_buckets a p : Forall (StronglySorted Z.le) a -> StronglySorted Z.le p ->
  let l := foldl (fun p x => if bool_decide (x = []) then p else if bool_decide (p = []) then x else pcacheMergeDirtyList p x) p a in
  StronglySorted Z.le l /\ l ≡ₚ p ++ concat a.
Proof.
  revert p. induction a as [|x a IH]; intros p Ha Hp; [by rewrite app_nil_r|]. apply Forall_cons in Ha as [Hx Ha]. cbn [foldl concat]. repeat case_bool_decide; subst.
  - by apply IH.
  - by apply IH.
  - destruct (IH (pcacheMergeDirtyList p x) Ha) as [H1 H2]; [by apply merge_dirty_sorted|]. split; [done|]. by rewrite H2, merge_dirty_perm, app_assoc.
Qed.

Lemma sort_dirty_spec l : StronglySorted Z.le (pcacheSortDirtyList l) /\ pcacheSortDirtyList l ≡ₚ l.
Proof.
  unfold pcacheSortDirtyList. change (foldl (fun a p => add_to_buckets a [p]) (repeat [] N_SORT_BUCKET) l) with (buckets_of (repeat [] N_SORT_BUCKET) l).
  destruct (empty_buckets N_SORT_BUCKET) as [H1 H2]. destruct (fill_buckets l (repeat [] N_SORT_BUCKET)) as (H3 & H4 & H5); [done|done|]. rewrite H2 in H5.
  destruct (buckets_of _ _) as [|p a]; [done|]. apply Forall_cons in H4 as [Hp Ha]. destruct (merge_buckets a p Ha Hp) as [H6 H7]. split; [done|]. by rewrite H7.
Qed.

Lemma sort_dirty_sorted l : StronglySorted Z.le (pcacheSortDirtyList l).
Proof. apply sort_dirty_spec. Qed.

Lemma sort_dirty_perm l : pcacheSortDirtyList l ≡ₚ l.
Proof. apply sort_dirty_spec. Qed.

Section commit.
Context (P S : Z) (Hsz : sizes_ok P S = true) (HSP : S <= P).
Context (cf : PagerConf) (Hcf : conf_ok cf S).
Context (pager_delsuper : Pager -> list Z -> prog (Z * Pager)).
Context (A : list (list Z)) (img : list Z).
Hypothesis Himg : image_ok P img.
Hypothesis HA : forall i, i ∈ A -> image_ok P i.
Hypothesis Hin : img ∈ A.

Abbreviation R := (Recoverable P S A img).
Abbreviation N := (npages P img).
Abbreviation common := (common P S img).
Abbreviation Opened := (Opened P S A img).
Abbreviation Locked := (Locked P S A img).
Abbreviation Live := (Live P S A img).
Abbreviation undoable := (undoable P img).
Abbreviation only_db := (only_db P img).

(** The lemmas of the files before, in this section. *)
Local Notation "'tx' f" := (f P S Hsz HSP cf Hcf pager_delsuper A img Himg HA Hin) (at level 10, f at level 9, only parsing).
Local Notation "'pw' f" := (f P S Hsz HSP cf Hcf A img Himg HA Hin) (at level 10, f at level 9, only parsing).

(** *** The error state *)

(** Nothing more is done with the files. *)
Definition failed (p : Pager) (d : disk) : Prop := R d /\ eState p = PAGER_ERROR /\ errCode p <> SQLITE_OK.

Lemma bad_error p rc : bad rc -> eState (pager_error p rc) = PAGER_ERROR /\ errCode (pager_error p rc) <> SQLITE_OK.
Proof using. intros Hb. unfold pager_error. rewrite Hb. split; [done|]. by apply bad_ne. Qed.

Lemma lock_or_bad p rc : lock_error rc = true -> pager_error p rc = p \/ bad rc.
Proof using.
  unfold lock_error. intros H. apply orb_true_iff in H as [H|H]; [|right; by apply io_error_bad]. left. breflect. subst rc. done.
Qed.

(** *** Spilling *)

Lemma rec_or_orig segs rs (J : gset Z) want M q : want_ok P img J want M -> (forall x, x ∈ J <-> x ∈ map fst (all_recs segs ++ rs)) -> q ∉ map fst rs -> 1 <= q -> undoable segs q (want q).
Proof using.
  intros Hw HJ Hn Hq. destruct (decide (N < q)) as [|Hle]; [by left|right]. destruct (decide (q ∈ J)) as [HqJ|HqJ].
  - left. apply HJ in HqJ. rewrite map_app in HqJ. apply elem_of_app in HqJ as [|]; done.
  - right. split; [lia|]. apply (w_orig _ _ _ _ _ Hw); [lia|done].
Qed.

Lemma wpc_spill cc segs ck rs v J want M p d q g (Q : Z * Pager -> disk -> Prop) : segs <> [] -> Opened cc segs ck rs v J want M p d ->
  pcache p !! q = Some g -> q ∉ map fst rs -> q <> 1 ->
  (forall p' d', Opened cc segs ck rs v J want M p' d' -> Q (SQLITE_OK, p') d') ->
  (forall rc p' d', failed p' d' -> Q (rc, p') d') ->
  wpc S R (do! (rc, p) := pager_write_pagelist p [q] in
           let p := if rc =? SQLITE_OK then upd_page p q sqlite3PcacheMakeClean else p in DRet (rc, pager_error p rc))%dprog Q d.
Proof using All.
  intros Hne Ho Hg Hq Hq1 H1 H2. pose proof (o_common _ _ _ _ _ _ _ _ _ _ _ _ _ _ Ho) as Hc. pose proof (k_data _ _ _ _ _ _ (c_cache _ _ _ _ _ _ _ _ Hc) q g Hg) as (Hdat & Hqr & _).
  pose proof ((tx opened_R) _ _ _ _ _ _ _ _ _ _ Ho) as HR.
  (* Once the page of the file is that of the view. *)
  assert (forall p' d', Opened cc segs ck rs v J want M p' d' -> pcache p' = pcache p -> fpage P (v_now (d_db d')) q = want q -> (dbFileSize p' < M -> M <> q) ->
    Q (SQLITE_OK, upd_page p' q sqlite3PcacheMakeClean) d') as Hend.
  { intros p' d' [O1 O2 O3 O3' O4 O5 O6 O7 O8] Epc Ef Hlast. apply H1. split; try done.
    - pose proof (c_last _ _ _ _ _ _ _ _ O1) as Hcl. destruct O1. split; try done.
      + by apply (cache_ok_clean P S Hsz img Himg).
      + intros Hlt. destruct (Hcl Hlt) as (g' & Hg' & Hd'). exists g'. split; [|done]. cbn. rewrite lookup_alter_ne; [done|]. intros Eq. cbn in Hlt. by apply (Hlast Hlt).
    - by destruct O6.
    - intros q' Hq'. destruct (O8 q' Hq') as (g' & Hg' & Hr). exists g'. split; [|done]. cbn. rewrite lookup_alter_ne; [done|]. by intros ->. }
  wbind. apply (tx wpc_hint); [done|]. intros x. set (p1 := set_dbHintSize p x).
  assert (Opened cc segs ck rs v J want M p1 d) as Ho1 by (destruct Ho as [O1 O2 O3 O3' O4 O5 O6 O7 O8]; split; try done; [by apply (tx common_hint)|by destruct O6]).
  pose proof (o_common _ _ _ _ _ _ _ _ _ _ _ _ _ _ Ho1) as Hc1. cbn [write_pages]. rewrite (c_size _ _ _ _ _ _ _ _ Hc1). destruct (Z.leb_spec q M) as [HqM|HqM].
  - rewrite (proj2 (Z.eqb_neq _ _) Hq1). rewrite (c_page _ _ _ _ _ _ _ _ Hc1). assert (page_data p1 q = want q) as -> by (unfold page_data; cbn; by rewrite Hg).
    fold (grown p1 q). pose proof (dopen_ready P S A img _ _ _ _ _ (o_disk _ _ _ _ _ _ _ _ _ _ _ _ _ _ Ho1)) as Hrd.
    wbind. apply ((tx wpc_put_page) segs v J want M p1 d q g); try done.
    + apply (rec_or_orig segs rs J want M); [apply Hc1|apply Ho1|done|lia].
    + intros d' Hod Ef. steps. apply wpc_ret. steps. apply wpc_ret. apply Hend.
      * destruct Ho1 as [O1 O2 O3 O3' O4 O5 O6 O7 O8]. assert (pcache (grown p1 q) = pcache p1) as Epc by (unfold grown; by case_if).
        split; try (unfold grown; case_if; done).
        -- rewrite Ef. by apply ((tx common_put) J want M p1 (v_now (d_db d)) q g).
        -- done.
        -- unfold grown. case_if; by destruct O6.
        -- by apply ((tx only_db_open) segs ck rs v d).
      * unfold grown. by case_if.
      * rewrite Ef. rewrite (fpage_fwrite P S Hsz img Himg (dbFileSize p1)); [by rewrite decide_True|destruct Hc1; destruct Himg; lia|apply Hc1|lia|lia|]. apply (w_len _ _ _ _ _ (c_want _ _ _ _ _ _ _ _ Hc1)). lia.
      * unfold grown. case_if; cbn in *; breflect; lia.
    + intros rc d' Hrc Hod. steps. apply wpc_ret. steps. apply wpc_ret. apply H2. destruct (bad_error (grown p1 q) rc (proj1 (io_error_bad _ Hrc))) as [E1 E2]. split; [|done].
      apply (dready_R P S Hsz A img Himg HA Hin segs v). by apply ((tx only_db_ready) segs v d).
  - apply wpc_ret. steps. apply wpc_ret. apply Hend; [done|done| |lia]. rewrite (fpage_beyond P S Hsz img Himg); [|lia|].
    + symmetry. by apply (w_big _ _ _ _ _ (c_want _ _ _ _ _ _ _ _ Hc1)).
    + rewrite (c_flen _ _ _ _ _ _ _ _ Hc1). pose proof (c_fsize _ _ _ _ _ _ _ _ Hc1). pose proof (sizes P S Hsz). nia.
Qed.

(** The journal is synced, and a new segment started. *)
Lemma opened_next cc segs ck rs v J want M p d ck' v' d' : Opened cc segs ck rs v J want M p d -> dopen P S A img (segs ++ [(ck, rs)]) ck' [] v' d' -> d_db d' = d_db d ->
  Opened cc (segs ++ [(ck, rs)]) ck' [] v' J want M
    (synced (with_header S (set_nRec (set_journalHdr (with_excl p) (journalOff p)) 0) (next_off P S 0 (segs ++ [(ck, rs)])) ck')) d'.
Proof using All.
  intros [O1 O2 O3 O3' O4 O5 O6 O7 O8] Hd' Edb. assert (forall p0, p0 = with_excl p -> common J want M p0 (v_now (d_db d)) /\ pcache p0 = pcache p /\ popen P S img segs ck rs p0 /\
    changeCountDone p0 = changeCountDone p /\ dbFileVers p0 = dbFileVers p /\ pInJournal p0 = pInJournal p) as He.
  { intros p0 ->. unfold with_excl. case_if; [|done]. split_and!; try done; [|by destruct O6]. destruct O1. split; try done. }
  destruct (He _ eq_refl) as (Hc & Epc & Hpo & Ecc & Evs & Epj). clear He. set (p0 := with_excl p) in *. clearbody p0. split; try done.
  - rewrite Edb. pose proof (c_last _ _ _ _ _ _ _ _ Hc) as Hcl. destruct Hc. split; try done.
    + by apply (cache_ok_synced P S Hsz img Himg).
    + intros Hlt. destruct (Hcl Hlt) as (g & Hg & Hd). exists (set_needSync g false). cbn. unfold sqlite3PcacheClearSyncFlags. rewrite lookup_fmap, Hg. cbn. by rewrite Hd.
  - rewrite decide_False; [done|]. by destruct segs.
  - by rewrite <- O3, <- Ecc.
  - by rewrite <- O3', <- Evs.
  - by rewrite <- O4, <- Epj.
  - intros q. rewrite app_nil_r, all_recs_app. unfold all_recs at 2. cbn [map concat snd]. rewrite app_nil_r. apply O5.
  - destruct Hpo. split; try done. cbn. by rewrite seg_end_nil.
  - intros q Hq. cbn in Hq. by apply not_elem_of_nil in Hq.
Qed.

Lemma wpc_stress cc want M p d q (Q : Z * Pager -> disk -> Prop) : Live cc want M p d -> page_flag p q dirty = true -> q <> 1 ->
  (forall rc p' d', Live cc want M p' d' -> Q (rc, p') d') -> (forall rc p' d', failed p' d' -> Q (rc, p') d') -> wpc S R (pagerStress cf p q) Q d.
Proof using All.
  intros Hl Hd Hq1 H1 H2. apply page_flag_true in Hd as (g & Hg & Hd). destruct Hl as [(_ & _ & HL)|(segs & ck & rs & v & J & Ho)].
  { rewrite (l_clean _ _ _ _ _ _ _ HL q g Hg) in Hd. done. }
  assert (Live cc want M p d) as Hl by (right; by exists segs, ck, rs, v, J).
  pose proof (o_common _ _ _ _ _ _ _ _ _ _ _ _ _ _ Ho) as Hc. pose proof ((tx opened_R) _ _ _ _ _ _ _ _ _ _ Ho) as HR.
  unfold pagerStress. rewrite (c_err _ _ _ _ _ _ _ _ Hc). steps. destruct (_ && _); [apply wpc_ret; by apply H1|].
  destruct (page_flag p q needSync || (eState p =? PAGER_WRITER_CACHEMOD)) eqn:En.
  - wbind. apply ((pw wpc_syncJournal) segs ck rs v); [apply Ho|apply Ho|done| | |].
    + intros ck' v' d' _ Hd' Edb. steps. set (p2 := synced _). pose proof (opened_next _ _ _ _ _ _ _ _ _ _ _ _ _ Ho Hd' Edb) as Ho2. fold p2 in Ho2.
      assert (exists g2, pcache p2 !! q = Some g2) as [g2 Hg2].
      { assert (exists c, pcache p2 = sqlite3PcacheClearSyncFlags c /\ c = pcache p) as (c & -> & ->) by (exists (pcache (with_excl p)); split; [done|unfold with_excl; by case_if]).
        unfold sqlite3PcacheClearSyncFlags. rewrite lookup_fmap, Hg. by eexists. }
      apply (wpc_spill cc (segs ++ [(ck, rs)]) ck' [] v' J want M p2 d' q g2); try done; [by destruct segs|cbn; apply not_elem_of_nil|].
      intros p' d2 Ho'. apply H1. right. by eexists _, _, _, _, _.
    + intros rc Hrc. rewrite (lock_ok _ Hrc). cbn [dbind]. rewrite (lock_ok _ Hrc). apply wpc_ret. destruct (lock_or_bad p rc Hrc) as [->|Hb]; [by apply H1|].
      apply H2. split; [done|]. by apply bad_error.
    + intros rc p' d' Hb HR' _. steps. apply wpc_ret. apply H2. split; [done|]. by apply bad_error.
  - cbn [dbind]. steps. apply orb_false_iff in En as [En1 En2]. apply (wpc_spill cc segs ck rs v J want M p d q g); try done.
    + intros ->. rewrite (o_state _ _ _ _ _ _ _ _ _ _ _ _ _ _ Ho) in En2. done.
    + intros Hqr. destruct (o_sync _ _ _ _ _ _ _ _ _ _ _ _ _ _ Ho q Hqr) as (g' & Hg' & _ & Hn). unfold page_flag in En1. rewrite Hg' in En1. congruence.
    + intros p' d' Ho'. apply H1. right. by eexists _, _, _, _, _.
Qed.

(** *** The actions of a transaction *)

Definition action_ok (a : action) : Prop :=
  match a with AGet q => 0 <= q < 0xffffffff | AWrite q x => 0 <= q < 0xffffffff /\ zlen x = P | AStress _ | AEvict _ => True end.

(** The actions that have left events. *)
Definition event_action (e : event) : action := match e with EGet q _ => AGet q | EWrite q d => AWrite q d end.
Definition from_acts (acts : list action) (log : list event) : Prop := map event_action log `sublist_of` acts.

(** A transaction after what [log] says, or one that failed. *)
Definition Running (log : list event) (p : Pager) (d : disk) : Prop :=
  reads_ok (fpage P img) log /\ (Live false (view P img log) (log_size N log) p d \/ failed p d).

Lemma running_R log p d : Running log p d -> R d.
Proof using All. intros [_ [Hl|Hf]]; [|apply Hf]. by apply ((tx live_R) _ _ _ _ _ Hl). Qed.

Lemma view_snoc log e : view P img (log ++ [e]) = step_view (view P img log) e.
Proof using. unfold view. by rewrite foldl_app. Qed.
Lemma log_size_snoc n log e : log_size n (log ++ [e]) = step_size (log_size n log) e.
Proof using. unfold log_size. by rewrite foldl_app. Qed.

Lemma failed_get p d q (C : disk -> Prop) (Q : Z * Pager -> disk -> Prop) : failed p d -> (forall rc, rc <> SQLITE_OK -> Q (rc, p) d) -> wpc S C (sqlite3PagerGet cf pager_delsuper p q) Q d.
Proof using All. intros (_ & Hs & He) H1. unfold sqlite3PagerGet. rewrite Hs. apply wpc_ret. by apply H1. Qed.

Lemma live_evict cc want M p d q : Live cc want M p d -> page_flag p q dirty = false -> q <> 1 -> Live cc want M (set_pcache p (delete q (pcache p))) d.
Proof using All.
  intros Hl Hd Hq. assert (forall g, pcache p !! q = Some g -> dirty g = false) as Hcl by (intros g Hg; unfold page_flag in Hd; by rewrite Hg in Hd).
  assert (forall J f, common J want M p f -> common J want M (set_pcache p (delete q (pcache p))) f) as Hcm.
  { intros J f Hc. apply (tx common_cache); [done|apply (cache_ok_delete P S Hsz img Himg); [apply Hc|done|done]|].
    intros Hlt. destruct (c_last _ _ _ _ _ _ _ _ Hc Hlt) as (g & Hg & Hdg). exists g. split; [|done]. rewrite lookup_delete_ne; [done|]. intros ->. rewrite (Hcl g Hg) in Hdg. done. }
  destruct Hl as [(Hcc & HM & [L1 L2 L3 L3' L5 L6 L7 L8])|(segs & ck & rs & v & J & [O1 O2 O3 O3' O4 O5 O6 O7 O8])].
  - left. split; [done|]. split; [done|]. subst M. split; try done; [by apply Hcm|]. intros q' g Hg. cbn in Hg. apply lookup_delete_Some in Hg as [_ Hg]. by apply (L6 q').
  - right. exists segs, ck, rs, v, J. split; try done; [by apply Hcm|by destruct O6|]. intros q' Hq'. destruct (O8 q' Hq') as (g & Hg & Hdg & Hn). exists g. split; [|done]. cbn.
    rewrite lookup_delete_ne; [done|]. intros ->. rewrite (Hcl g Hg) in Hdg. done.
Qed.

Lemma wpc_action a log p d (Q : Pager * list event -> disk -> Prop) : action_ok a -> Running log p d ->
  (forall p' l d', Running (log ++ l) p' d' -> from_acts [a] l -> Q (p', log ++ l) d') -> wpc S R (run_action cf pager_delsuper p log a) Q d.
Proof using All.
  intros Ha [Hrd Hst] H1'. assert (forall p' e d', Running (log ++ [e]) p' d' -> event_action e = a -> Q (p', log ++ [e]) d') as H1e.
  { intros p' e d' Hr He. apply H1'; [done|]. unfold from_acts. cbn. by rewrite He. }
  assert (forall p' d', Running log p' d' -> Q (p', log) d') as H1.
  { intros p' d' Hr. specialize (H1' p' [] d'). rewrite app_nil_r in H1'. apply H1'; [done|]. apply sublist_nil_l. }
  clear H1'. assert (Running log p d) as Hrun by done. pose proof (running_R _ _ _ Hrun) as HR.
  assert (forall want M, Live false want M p d -> eState p <> PAGER_ERROR) as Hne.
  { intros want M Hl. destruct ((tx live_state) _ _ _ _ _ Hl) as [E|[E|E]]; by rewrite E. }
  destruct a as [q|q x|q|q]; cbn [run_action action_ok] in *.
  - wbind. destruct Hst as [Hl|Hf].
    + destruct ((tx live_common) _ _ _ _ _ Hl) as [J Hc]. apply ((tx wpc_get) J (view P img log) (log_size N log) p d q R); [done|done|by apply (Hne _ _ Hl)|done| |].
      * intros p' Hld. steps. apply wpc_ret. apply H1e; [|done]. pose proof ((tx loaded_live) _ _ _ _ _ _ _ Hld Hl) as Hl'.
        destruct ((tx loaded_page) _ _ _ _ Hld) as [g Hg]. destruct ((tx live_common) _ _ _ _ _ Hl') as [J' Hc'].
        split; [|left; by rewrite view_snoc, log_size_snoc]. apply reads_ok_snoc. split; [done|]. by apply ((tx page_data_want) J' _ _ _ _ q g Hc').
      * intros rc Hrc. rewrite (proj2 (Z.eqb_neq _ _) Hrc). apply wpc_ret. by apply H1.
    + apply failed_get; [done|]. intros rc Hrc. rewrite (proj2 (Z.eqb_neq _ _) Hrc). apply wpc_ret. by apply H1.
  - destruct Ha as [Hq Hx]. wbind. destruct Hst as [Hl|Hf].
    + destruct ((tx live_common) _ _ _ _ _ Hl) as [J Hc]. apply ((tx wpc_get) J (view P img log) (log_size N log) p d q R); [done|done|by apply (Hne _ _ Hl)|done| |].
      * intros p' Hld. steps. pose proof ((tx loaded_live) _ _ _ _ _ _ _ Hld Hl) as Hl'.
        destruct ((tx loaded_page) _ _ _ _ Hld) as [g Hg].
        wbind. apply ((tx wpc_write) false (view P img log) (log_size N log) p' d q g); [done|done| |].
        -- intros segs ck rs v J' p2 d2 Ho [(g2 & Hg2 & Hd2) HJ]. steps. apply wpc_ret. apply H1e; [|done]. split; [apply reads_ok_snoc; done|]. left. rewrite view_snoc, log_size_snoc. right. exists segs, ck, rs, v, J'.
           apply ((tx opened_data) _ _ _ _ _ _ _ _ _ _ q g2); try done. cbn. lia.
        -- intros rc p2 d2 Hrc Hl2. rewrite (proj2 (Z.eqb_neq _ _) Hrc). apply wpc_ret. apply H1. split; [done|by left].
      * intros rc Hrc. rewrite (proj2 (Z.eqb_neq _ _) Hrc). apply wpc_ret. by apply H1.
    + apply failed_get; [done|]. intros rc Hrc. rewrite (proj2 (Z.eqb_neq _ _) Hrc). apply wpc_ret. by apply H1.
  - destruct (page_flag p q dirty) eqn:Ed; cbn [andb]; [|apply wpc_ret; by apply H1]. destruct (Z.eqb_spec q 1) as [|Hq1]; cbn [negb]; [apply wpc_ret; by apply H1|].
    wbind. destruct Hst as [Hl|Hf].
    + apply (wpc_stress _ _ _ p d q _ Hl Ed Hq1).
      * intros rc p' d' Hl'. apply wpc_ret. apply H1. split; [done|by left].
      * intros rc p' d' Hf. apply wpc_ret. apply H1. split; [done|by right].
    + unfold pagerStress. destruct Hf as (_ & _ & He). rewrite (proj2 (Z.eqb_neq _ _) He). apply wpc_ret. apply wpc_ret. by apply H1.
  - apply wpc_ret. apply H1. split; [done|]. destruct (page_flag p q dirty) eqn:Ed; cbn [orb]; [done|]. destruct (Z.eqb_spec q 1) as [|Hq1]; [done|].
    destruct Hst as [Hl|Hf]; [left; by apply live_evict|right]. by destruct Hf as (? & ? & ?).
Qed.

Lemma wpc_actions acts : forall log p d (Q : Pager * list event -> disk -> Prop), Forall action_ok acts -> Running log p d ->
  (forall p' l d', Running (log ++ l) p' d' -> from_acts acts l -> Q (p', log ++ l) d') -> wpc S R (run_actions cf pager_delsuper p log acts) Q d.
Proof using All.
  induction acts as [|a acts IH]; intros log p d Q Ha Hr H1; cbn [run_actions].
  - apply wpc_ret. specialize (H1 p [] d). rewrite app_nil_r in H1. apply H1; [done|]. apply sublist_nil_l.
  - apply Forall_cons_1 in Ha as [Ha Has]. wbind. apply wpc_action; [done|done|]. intros p' l d' Hr' Hl. apply IH; [done|done|].
    intros p2 l2 d2 Hr2 Hl2. rewrite <- app_assoc in *. apply H1; [done|]. unfold from_acts in *. rewrite map_app. by apply (sublist_app _ [a]).
Qed.

(** *** Rolling back *)

(** A pager and a disk from which the transaction can be rolled back. *)
Definition rollable (p : Pager) (d : disk) : Prop :=
  (exists want, Locked want p d) \/
  exists segs h, pk P S (if decide (segs = []) then PAGER_WRITER_CACHEMOD else PAGER_WRITER_DBMOD) h true p /\ rolld P S A img segs d /\
    (segs <> [] -> data_end P S 0 segs <= h <= next_off P S 0 segs).

Lemma common_pk J want M p f st : common J want M p f -> eState p = st -> jfd p = true -> pk P S st (journalHdr p) true p.
Proof using. intros [] Hs Hj. by split. Qed.

Lemma data_next segs : data_end P S 0 segs <= next_off P S 0 segs.
Proof using Hsz. by apply (seg_end_next P S Hsz segs []). Qed.

Lemma opened_rollable cc segs ck rs v J want M p d : Opened cc segs ck rs v J want M p d -> rollable p d.
Proof using All.
  intros [O1 O2 O3 O3' O4 O5 O6 O7 O8]. right. exists segs, (journalHdr p). split; [apply (common_pk J want M p _ _ O1); [done|apply O6]|].
  split; [by apply (dopen_rolld P S Hsz A img Himg HA Hin segs ck rs v)|]. rewrite (po_hdr _ _ _ _ _ _ _ O6). pose proof (data_next segs). lia.
Qed.

Lemma live_rollable cc want M p d : Live cc want M p d -> rollable p d.
Proof using All. intros [(_ & _ & HL)|(segs & ck & rs & v & J & Ho)]; [left; by exists want|by apply (opened_rollable _ _ _ _ _ _ _ _ _ _ Ho)]. Qed.

Lemma wpc_rollback p d (Q : Z * Pager -> disk -> Prop) : rollable p d ->
  (forall p' d', cold P S A img d' -> eState p' = PAGER_READER -> jfd p' = false -> Q (SQLITE_OK, p') d') ->
  (forall rc p' d', R d' -> rc <> SQLITE_OK -> eState p' = PAGER_ERROR -> Q (rc, p') d') -> wpc S R (sqlite3PagerRollback cf pager_delsuper p) Q d.
Proof using All.
  intros Hr H1 H2. unfold sqlite3PagerRollback.
  assert (forall rc p' d', whole P S A img d' -> bad rc -> Q (rc, pager_error p' rc) d') as Hbad.
  { intros rc p' d' [HR _] Hb. apply H2; [done|by apply bad_ne|by apply bad_error]. }
  destruct Hr as [[want HL]|(segs & h & Hpk & Hro & Hh)].
  - rewrite (l_state _ _ _ _ _ _ _ HL). change (PAGER_WRITER_LOCKED =? PAGER_ERROR) with false. change (PAGER_WRITER_LOCKED <=? PAGER_READER) with false. change (PAGER_WRITER_LOCKED =? PAGER_WRITER_LOCKED) with true.
    rewrite orb_true_r. change (PAGER_WRITER_LOCKED <? PAGER_WRITER_LOCKED) with false. cbn iota zeta. pose proof (l_common _ _ _ _ _ _ _ HL) as Hc. pose proof (l_cold _ _ _ _ _ _ _ HL) as Hcold. wbind.
    assert (jfd p = true \/ jfd p = false) as [Ej|Ej] by (by destruct (jfd p); [left|right]).
    + apply (wpc_end_tx P S Hsz cf Hcf A img p false PAGER_WRITER_LOCKED (journalHdr p) true d); [by apply (common_pk ∅ want N p _ _ Hc); [apply HL|]|apply Hcold| |].
      * intros p' d' Hw Hn Har Hs. apply wpc_ret. apply H1; [by apply cold_none|done|apply Har].
      * intros rc p' d' Hw Hb. apply wpc_ret. by apply Hbad.
    + unfold pager_end_transaction. rewrite (l_state _ _ _ _ _ _ _ HL), Ej. change (PAGER_WRITER_LOCKED <? PAGER_WRITER_LOCKED) with false. cbn [andb]. steps. rewrite (co_exclusive _ _ Hcf). steps.
      wbind. apply wpc_unlockDb; [apply Hcold|apply Hc|]. intros rc Hrc. apply wpc_ret. apply wpc_ret. destruct Hrc as [->|Hrc]; [by apply H1|]. apply Hbad; [apply Hcold|by apply io_error_bad].
  - assert (forall st, st = PAGER_WRITER_CACHEMOD \/ st = PAGER_WRITER_DBMOD -> pk P S st h true p ->
      wpc S R (pager_playback cf pager_delsuper p false) (fun x d' => (x.1 = SQLITE_OK /\ cold P S A img d' /\ eState x.2 = PAGER_READER /\ jfd x.2 = false) \/ bad x.1 /\ R d') d ->
      wpc S R (if eState p =? PAGER_ERROR then DRet (errCode p, p) else if eState p <=? PAGER_READER then DRet (SQLITE_OK, p)
        else if negb (jfd p) || (eState p =? PAGER_WRITER_LOCKED) then let st := eState p in do! (rc, p) := pager_end_transaction cf p false false in
          if PAGER_WRITER_LOCKED <? st then DRet (rc, set_eState (set_errCode p SQLITE_ABORT) PAGER_ERROR) else DRet (rc, pager_error p rc)
        else do! (rc, p) := pager_playback cf pager_delsuper p false in DRet (rc, pager_error p rc))%dprog Q d) as Hpb.
    { intros st Hst Hp Hw. rewrite (pk_state _ _ _ _ _ _ Hp), (pk_jfd _ _ _ _ _ _ Hp). destruct Hst as [->| ->].
      all: match goal with |- wpc _ _ (if ?b then _ else _) _ _ => change b with false end; cbn iota;
        match goal with |- wpc _ _ (if ?b then _ else _) _ _ => change b with false end; cbn iota;
        match goal with |- wpc _ _ (if ?b then _ else _) _ _ => change b with false end; cbn iota.
      all: wbind; eapply wpc_mono; [done| |exact Hw]; intros [rc p'] d' Hor; cbn [fst snd] in *; apply wpc_ret;
        destruct Hor as [(-> & Hcold & Hs & Hj)|[Hb HR]]; [by apply H1|apply H2; [done|by apply bad_ne|by apply bad_error]]. }
    unfold rolld in Hro. destruct (decide (segs = [])) as [->|Hne].
    + destruct Hro as [Hw Hf]. apply (Hpb PAGER_WRITER_CACHEMOD); [by left|done|]. apply (wpc_playback_whole P S Hsz cf Hcf pager_delsuper A img p false PAGER_WRITER_CACHEMOD h true d); try done.
      * by left.
      * intros p' d' Hw' Hn Har Hs. left. split_and!; try done; [by apply cold_none|apply Har].
      * intros rc p' d' HR Hb. by right.
    + destruct Hro as (v & Hv & Hg & Hpl & Hch & Hrec & Hjv & Hcv). destruct (Hh Hne) as [Hh1 Hh2]. apply (Hpb PAGER_WRITER_DBMOD); [by right|done|].
      apply (wpc_playback_hot P S Hsz cf Hcf pager_delsuper A img v segs PAGER_WRITER_DBMOD h true Himg HA Hin eq_refl Hpl Hne Hch Hrec Hjv p false d); try done.
      * split_and!; try done. apply Hcv. left.
      * by right.
      * intros p' d' Hw' Hn Har Hs. left. split_and!; try done; [by apply cold_none|apply Har].
      * intros rc p' d' HR Hb. by right.
Qed.

(** *** The change counter *)

(** Page 1 as a commit leaves it: with the next value of the change counter of the database. *)
Definition bumped (x : list Z) : list Z :=
  let c := sqlite3Put4byte (u32 (sqlite3Get4byte (fread (pageof P img 1) 24 16) + 1)) in
  fwrite (fwrite (fwrite x 24 c) 92 c) 96 (sqlite3Put4byte SQLITE_VERSION_NUMBER).

Lemma write_changecounter p x : dbFileVers p = fread (pageof P img 1) 24 16 -> pager_write_changecounter p x = bumped x.
Proof using. intros H. unfold pager_write_changecounter, bumped. by rewrite H. Qed.

Lemma fwrite_same f off b : 0 <= off -> off + zlen b <= zlen f -> fread f off (zlen b) = b -> fwrite f off b = f.
Proof using.
  intros Ho Hl Hb. destruct (decide (b = [])) as [->|Hne]; [done|]. apply zat_ext; [rewrite zlen_fwrite by done; lia|]. intros i Hi. rewrite zat_fwrite by lia. case_if; [|done]. breflect.
  rewrite <- Hb, zat_fread by lia. f_equal. lia.
Qed.

Lemma zlen_fwrite_in f off b : 0 <= off -> off + zlen b <= zlen f -> zlen (fwrite f off b) = zlen f.
Proof using. intros Ho Hl. destruct (decide (b = [])) as [->|Hne]; [done|]. rewrite zlen_fwrite by done. lia. Qed.

Lemma three_writes x c e : zlen x = P -> zlen c = 4 -> zlen e = 4 -> let y := fwrite (fwrite (fwrite x 24 c) 92 c) 96 e in
  zlen y = P /\ fread y 24 4 = c /\ fread y 92 4 = c /\ fread y 96 4 = e.
Proof using Hsz.
  intros Hx Lc Le y. pose proof (sizes P S Hsz) as [HP _]. assert (zlen (fwrite x 24 c) = P) as L1 by (rewrite zlen_fwrite_in; lia).
  assert (zlen (fwrite (fwrite x 24 c) 92 c) = P) as L2 by (rewrite zlen_fwrite_in; lia). assert (zlen y = P) as L3 by (unfold y; rewrite zlen_fwrite_in; lia).
  unfold y. split_and!; [done|..].
  - rewrite !fread_fwrite_other by lia. rewrite <- Lc. apply fread_fwrite_eq. lia.
  - rewrite fread_fwrite_other by lia. rewrite <- Lc. apply fread_fwrite_eq. lia.
  - rewrite <- Le. apply fread_fwrite_eq. lia.
Qed.

Lemma bumped_len x : zlen x = P -> zlen (bumped x) = P.
Proof using Hsz. intros Hx. by apply three_writes. Qed.

Lemma bumped_bumped x : zlen x = P -> bumped (bumped x) = bumped x.
Proof using Hsz.
  intros Hx. pose proof (sizes P S Hsz) as [HP _]. unfold bumped. set (c := sqlite3Put4byte (u32 _)). set (e := sqlite3Put4byte SQLITE_VERSION_NUMBER).
  assert (zlen c = 4 /\ zlen e = 4) as [Lc Le] by done. clearbody c e. destruct (three_writes x c e Hx Lc Le) as (L & E1 & E2 & E3). set (y := fwrite (fwrite (fwrite x 24 c) 92 c) 96 e) in *.
  rewrite (fwrite_same y 24 c), (fwrite_same y 92 c), (fwrite_same y 96 e); rewrite ?Lc, ?Le; done || lia.
Qed.

Lemma wpc_incr want M p d (Q : Z * Pager -> disk -> Prop) : Live false want M p d -> PAGER_WRITER_CACHEMOD <= eState p ->
  (forall segs ck rs v J p' d', Opened true segs ck rs v J (upd want 1 (bumped (want 1))) M p' d' -> (exists g, pcache p' !! 1 = Some g /\ dirty g = true) -> Q (SQLITE_OK, p') d') ->
  (forall rc p' d', rc <> SQLITE_OK -> Live false want M p' d' -> Q (rc, p') d') -> wpc S R (pager_incr_changecounter cf pager_delsuper p) Q d.
Proof using All.
  intros Hl Hst H1 H2. destruct ((tx live_common) _ _ _ _ _ Hl) as [J Hc]. pose proof ((tx live_R) _ _ _ _ _ Hl) as HR. destruct (k_one _ _ _ _ _ _ (c_cache _ _ _ _ _ _ _ _ Hc)) as [g Hg].
  pose proof (w_size _ _ _ _ _ (c_want _ _ _ _ _ _ _ _ Hc)) as HM. destruct Himg as [_ HN]. unfold pager_incr_changecounter.
  assert (changeCountDone p = false) as Ecc by (destruct Hl as [(_ & _ & HL)|(segs & ck & rs & v & J' & Ho)]; [apply HL|apply Ho]). rewrite Ecc, (c_size _ _ _ _ _ _ _ _ Hc), (proj2 (Z.ltb_lt 0 M)) by lia. cbn [negb andb].
  assert (eState p <> PAGER_ERROR) as Hne by (destruct ((tx live_state) _ _ _ _ _ Hl) as [E|[E|E]]; by rewrite E).
  wbind. unfold sqlite3PagerGet. rewrite (proj2 (Z.eqb_neq _ _) Hne). unfold getPageNormal. change (1 =? 0) with false. cbn iota. rewrite Hg. apply wpc_ret. steps.
  wbind. apply ((tx wpc_write) false want M p d 1 g); [done|done| |].
  - intros segs ck rs v J' p' d' Ho [(g2 & Hg2 & Hd2) HJ]. steps. apply wpc_ret. rewrite Z.max_l in Ho by lia. pose proof (o_common _ _ _ _ _ _ _ _ _ _ _ _ _ _ Ho) as Hc'.
    destruct (k_data _ _ _ _ _ _ (c_cache _ _ _ _ _ _ _ _ Hc') 1 g2 Hg2) as (Edat & _). assert (zlen (want 1) = P) as Hw1 by (apply (w_len _ _ _ _ _ (c_want _ _ _ _ _ _ _ _ Hc')); lia).
    assert (upd_page p' 1 (fun g => set_pData g (pager_write_changecounter p' (pData g))) = upd_page p' 1 (fun g => set_pData g (bumped (want 1)))) as ->.
    { unfold upd_page. f_equal. apply alter_ext. intros g' Hg'. assert (g' = g2) as -> by congruence. by rewrite write_changecounter, Edat by apply Ho. }
    pose proof ((tx opened_data) _ _ _ _ _ _ _ _ _ _ 1 g2 (bumped (want 1)) Ho Hg2 Hd2 (bumped_len _ Hw1) HJ ltac:(lia)) as [O1 O2 O3 O3' O4 O5 O6 O7 O8].
    apply (H1 segs ck rs v J'); [split; try done; [by destruct O1|by destruct O6]|]. exists (set_pData g2 (bumped (want 1))). cbn. by rewrite lookup_alter_eq, Hg2.
  - intros rc p' d' Hrc Hl'. rewrite (proj2 (Z.eqb_neq _ _) Hrc). apply wpc_ret. by apply H2.
Qed.

(** *** Writing all dirty pages *)

Lemma wpc_write_list segs v J want M : segs <> [] -> (forall x, x ∈ J <-> x ∈ map fst (all_recs segs)) -> forall L p d (Q : Z * Pager -> disk -> Prop),
  dready P S A img segs v d -> common J want M p (v_now (d_db d)) -> 1 ∉ L -> (forall q, q ∈ L -> exists g, pcache p !! q = Some g) ->
  (forall n d', let p' := set_dbFileSize p n in dready P S A img segs v d' -> common J want M p' (v_now (d_db d')) ->
     (forall q, 1 <= q -> q ∈ L \/ fpage P (v_now (d_db d)) q = want q -> fpage P (v_now (d_db d')) q = want q) -> dbFileSize p <= n -> (forall q, q ∈ L -> q <= M -> q <= n) -> Q (SQLITE_OK, p') d') ->
  (forall rc n d', bad rc -> dready P S A img segs v d' -> Q (rc, set_dbFileSize p n) d') -> wpc S R (write_pages p L) Q d.
Proof using All.
  intros Hne HJ. induction L as [|q L IH]; intros p d Q Hd Hc H1L HL H1 H2; cbn [write_pages].
  { apply wpc_ret. specialize (H1 (dbFileSize p) d). assert (set_dbFileSize p (dbFileSize p) = p) as E by (by destruct p). cbv zeta in H1. rewrite E in H1. apply H1; try done.
    - intros q Hq [Hq'|Hq']; [by apply not_elem_of_nil in Hq'|done].
    - intros q Hq'. by apply not_elem_of_nil in Hq'. }
  destruct (HL q ltac:(by left)) as [g Hg]. destruct (k_data _ _ _ _ _ _ (c_cache _ _ _ _ _ _ _ _ Hc) q g Hg) as (Edat & Hq & _). assert (q <> 1) as Hq1 by (intros ->; apply H1L; by left).
  rewrite (c_size _ _ _ _ _ _ _ _ Hc). destruct (Z.leb_spec q M) as [HqM|HqM].
  - rewrite (proj2 (Z.eqb_neq _ _) Hq1), (c_page _ _ _ _ _ _ _ _ Hc). assert (page_data p q = want q) as -> by (unfold page_data; by rewrite Hg). fold (grown p q).
    assert (exists n, grown p q = set_dbFileSize p n /\ n = Z.max (dbFileSize p) q) as (n & En & Hn).
    { unfold grown. destruct (Z.ltb_spec (dbFileSize p) q); [exists q; split; [done|lia]|exists (dbFileSize p); split; [by destruct p|lia]]. }
    wbind. apply ((tx wpc_put_page) segs v J want M p d q g); try done.
    + apply (rec_or_orig segs [] J want M); [apply Hc|by rewrite app_nil_r|cbn; apply not_elem_of_nil|lia].
    + intros d' Hod Ef. steps. pose proof ((tx common_put) J want M p (v_now (d_db d)) q g Hc Hg HqM) as Hc'. rewrite <- Ef in Hc'.
      assert (forall q', 1 <= q' -> q' = q \/ fpage P (v_now (d_db d)) q' = want q' -> fpage P (v_now (d_db d')) q' = want q') as Hf.
      { intros q' Hq' Hor. rewrite Ef. rewrite (fpage_fwrite P S Hsz img Himg (dbFileSize p)); [|destruct Hc; destruct Himg; lia|apply Hc|lia|lia|apply (w_len _ _ _ _ _ (c_want _ _ _ _ _ _ _ _ Hc)); lia].
        case_decide as E; [by rewrite E|]. by destruct Hor. }
      apply (IH (grown p q) d'); [by apply ((tx only_db_ready) segs v d)|done|intros HL1; apply H1L; by right| | |].
      * intros q' Hq'. destruct (HL q' ltac:(by right)) as [g' Hg']. exists g'. rewrite En. done.
      * intros n' d2 p' Hd2 Hc2 Hf2 Hn' HLn. unfold p' in *. rewrite En in *. apply H1; try done.
        -- intros q' Hq' Hor. apply Hf2; [done|]. destruct Hor as [Hor|Hor]; [apply elem_of_cons in Hor as [->|Hor]|]; [right; apply Hf; auto|by left|right; apply Hf; auto].
        -- cbn in Hn'. lia.
        -- intros q' Hq' HqM'. apply elem_of_cons in Hq' as [->|Hq']; [cbn in Hn'; lia|by apply HLn].
      * intros rc n' d2 Hb Hd2. rewrite En. apply (H2 rc n' d2 Hb Hd2).
    + intros rc d' Hrc Hod. rewrite (io_ok _ Hrc). apply wpc_ret. rewrite En. apply (H2 rc n d'); [by apply io_error_bad|]. by apply ((tx only_db_ready) segs v d).
  - apply (IH p d); try done; [intros HL1; apply H1L; by right|intros q' Hq'; apply HL; by right|].
    intros n d' p' Hd' Hc' Hf Hn HLn. apply H1; try done.
    + intros q' Hq' Hor. apply Hf; [done|]. destruct Hor as [Hor|Hor]; [apply elem_of_cons in Hor as [->|Hor]|by right]; [|by left]. right.
      rewrite (fpage_beyond P S Hsz img Himg); [symmetry; by apply (w_big _ _ _ _ _ (c_want _ _ _ _ _ _ _ _ Hc))|lia|].
      rewrite (c_flen _ _ _ _ _ _ _ _ Hc). pose proof (c_fsize _ _ _ _ _ _ _ _ Hc). pose proof (sizes P S Hsz). nia.
    + intros q' Hq' HqM'. apply elem_of_cons in Hq' as [->|Hq']; [lia|by apply HLn].
Qed.

(** The dirty pages, in order. *)
Lemma dirty_list_spec c q : q ∈ sqlite3PcacheDirtyList c <-> exists g, c !! q = Some g /\ dirty g = true.
Proof using.
  unfold sqlite3PcacheDirtyList. rewrite sort_dirty_perm. rewrite list_elem_of_fmap. split.
  - intros ([q' g] & -> & H). apply list_elem_of_filter in H as [Hd H]. apply elem_of_map_to_list in H. by exists g.
  - intros (g & Hg & Hd). exists (q, g). split; [done|]. apply list_elem_of_filter. split; [done|]. by apply elem_of_map_to_list.
Qed.

Lemma dirty_list_first c : (forall q g, c !! q = Some g -> 1 <= q) -> (exists g, c !! 1 = Some g /\ dirty g = true) ->
  exists L, sqlite3PcacheDirtyList c = 1 :: L /\ 1 ∉ L.
Proof using.
  intros Hc H1. assert (NoDup (sqlite3PcacheDirtyList c)) as Hnd.
  { unfold sqlite3PcacheDirtyList. rewrite sort_dirty_perm. pose proof (NoDup_fst_map_to_list c) as H.
    eapply sublist_NoDup; [exact H|]. apply (fmap_sublist fst). apply sublist_filter. }
  assert (StronglySorted Z.le (sqlite3PcacheDirtyList c)) as Hss by (apply sort_dirty_sorted).
  apply dirty_list_spec in H1. destruct (sqlite3PcacheDirtyList c) as [|x L] eqn:E; [by apply not_elem_of_nil in H1|]. apply NoDup_cons in Hnd as [Hn Hnd].
  assert (x = 1) as ->; [|by exists L]. assert (1 <= x) as Hx.
  { assert (x ∈ sqlite3PcacheDirtyList c) as Hin' by (rewrite E; left). apply dirty_list_spec in Hin' as (g & Hg & _). by apply (Hc x g). }
  apply elem_of_cons in H1 as [H1|H1]; [done|]. inversion Hss as [|? ? ? Hall]; subst. rewrite Forall_forall in Hall. specialize (Hall 1 H1). lia.
Qed.

(** *** The first phase of a commit *)

Lemma pk_file st h p n : pk P S st h true p -> pk P S st h true (set_dbFileSize p n).
Proof using. by intros []; split. Qed.
Lemma pk_cache_any st h p c : pk P S st h true p -> pk P S st h true (set_pcache p c).
Proof using. by intros []; split. Qed.

Lemma ready_rollable segs v p d : pk P S PAGER_WRITER_DBMOD (data_end P S 0 segs) true p -> segs <> [] -> dready P S A img segs v d -> rollable p d.
Proof using All.
  intros Hpk Hne Hd. right. exists segs, (data_end P S 0 segs). rewrite decide_False by done. split; [done|]. split; [by apply (dready_rolld P S Hsz A img segs v)|].
  intros _. pose proof (data_next segs). lia.
Qed.

Lemma wpc_pagelist segs v J want M p d (Q : Z * Pager -> disk -> Prop) : segs <> [] -> (forall x, x ∈ J <-> x ∈ map fst (all_recs segs)) ->
  dready P S A img segs v d -> common J want M p (v_now (d_db d)) -> pk P S PAGER_WRITER_DBMOD (data_end P S 0 segs) true p ->
  (exists g, pcache p !! 1 = Some g /\ dirty g = true) -> pager_write_changecounter p (want 1) = want 1 ->
  (forall p' d', dready P S A img segs v d' -> common J want M p' (v_now (d_db d')) -> pk P S PAGER_WRITER_DBMOD (data_end P S 0 segs) true p' -> dbFileSize p' = M ->
     v_now (d_db d') = build M want -> Q (SQLITE_OK, p') d') ->
  (forall rc p' d', bad rc -> rollable p' d' -> R d' -> Q (rc, p') d') -> wpc S R (pager_write_pagelist p (sqlite3PcacheDirtyList (pcache p))) Q d.
Proof using All.
  intros Hne HJ Hd Hc Hpk H1d Hbump H1 H2. pose proof (dready_R P S Hsz A img Himg HA Hin _ _ _ Hd) as HR.
  destruct (dirty_list_first (pcache p)) as (L & EL & HnL); [intros q g Hg; by apply (k_data _ _ _ _ _ _ (c_cache _ _ _ _ _ _ _ _ Hc) q g Hg)|done|].
  assert (forall q, q ∈ L -> exists g, pcache p !! q = Some g) as HLc.
  { intros q Hq. assert (q ∈ sqlite3PcacheDirtyList (pcache p)) as Hq' by (rewrite EL; by right). apply dirty_list_spec in Hq' as (g & Hg & _). by exists g. }
  assert (forall q, 1 <= q -> q = 1 \/ q ∈ L \/ fpage P (v_now (d_db d)) q = want q) as Hall.
  { intros q Hq. destruct (decide (q ∈ sqlite3PcacheDirtyList (pcache p))) as [Hq'|Hq']; [rewrite EL in Hq'; apply elem_of_cons in Hq' as [|]; auto|]. right. right.
    apply (k_clean _ _ _ _ _ _ (c_cache _ _ _ _ _ _ _ _ Hc)); [done|]. intros g Hg. destruct (dirty g) eqn:E; [|done]. destruct Hq'. apply dirty_list_spec. by exists g. }
  destruct H1d as (g1 & Hg1 & Hd1). pose proof (w_size _ _ _ _ _ (c_want _ _ _ _ _ _ _ _ Hc)) as HM. pose proof Himg as [Hi1 Hi2].
  apply (tx wpc_hint); [done|]. intros hint. set (p0 := set_dbHintSize p hint). assert (common J want M p0 (v_now (d_db d))) as Hc0 by (by apply (tx common_hint)).
  assert (pk P S PAGER_WRITER_DBMOD (data_end P S 0 segs) true p0) as Hpk0 by (by destruct Hpk; split). rewrite EL. cbn [write_pages]. rewrite (c_size _ _ _ _ _ _ _ _ Hc0), (proj2 (Z.leb_le 1 M)) by lia.
  change (1 =? 1) with true. cbn iota. assert (upd_page p0 1 (fun g => set_pData g (pager_write_changecounter p0 (pData g))) = p0) as ->.
  { unfold upd_page. assert (alter (fun g => set_pData g (pager_write_changecounter p0 (pData g))) 1 (pcache p0) = pcache p0) as ->; [|by destruct p0].
    apply map_eq. intros q. destruct (decide (q = 1)) as [->|Hq]; [|by rewrite lookup_alter_ne]. rewrite lookup_alter_eq. change (pcache p0) with (pcache p). rewrite Hg1. cbn [fmap option_fmap option_map]. f_equal.
    destruct (k_data _ _ _ _ _ _ (c_cache _ _ _ _ _ _ _ _ Hc) 1 g1 Hg1) as (E & _). rewrite E. change (pager_write_changecounter p0 (want 1)) with (pager_write_changecounter p (want 1)). rewrite Hbump, <- E. by destruct g1. }
  rewrite (c_page _ _ _ _ _ _ _ _ Hc0). assert (page_data p0 1 = want 1) as -> by (by apply ((tx page_data_want) J want M p0 (v_now (d_db d)) 1 g1)).
  wbind. apply ((tx wpc_put_page) segs v J want M p0 d 1 g1); try done.
  - apply (rec_or_orig segs [] J want M); [apply Hc|by rewrite app_nil_r|cbn; apply not_elem_of_nil|lia].
  - intros d' Hod Ef. set (p1 := set_dbFileVers p0 _). assert (common J want M p1 (v_now (d_db d))) as Hc1 by (destruct Hc0; by split).
    fold (grown p1 1). assert (grown p1 1 = p1) as -> by (unfold grown; rewrite (proj2 (Z.ltb_ge _ _)); [done|pose proof (c_fsize _ _ _ _ _ _ _ _ Hc1); lia]). steps.
    pose proof ((tx common_put) J want M p1 (v_now (d_db d)) 1 g1 Hc1 Hg1 ltac:(lia)) as Hc1'. rewrite <- Ef in Hc1'.
    assert (grown p1 1 = p1) as Eg by (unfold grown; rewrite (proj2 (Z.ltb_ge _ _)); [done|pose proof (c_fsize _ _ _ _ _ _ _ _ Hc1); lia]). rewrite Eg in Hc1'.
    assert (pk P S PAGER_WRITER_DBMOD (data_end P S 0 segs) true p1) as Hpk1 by (by destruct Hpk0; split).
    apply (wpc_write_list segs v J want M Hne HJ L p1 d'); try done; [by apply ((tx only_db_ready) segs v d)| |].
    + intros n d2 p' Hd2 Hc2 Hf Hn HLn.
      assert (forall q, 1 <= q -> fpage P (v_now (d_db d2)) q = want q) as Hpages.
      { intros q Hq. apply Hf; [done|]. assert (fpage P (v_now (d_db d')) q = if decide (q = 1) then want 1 else fpage P (v_now (d_db d)) q) as Efp.
        { rewrite Ef. apply (fpage_fwrite P S Hsz img Himg (dbFileSize p0)); [pose proof (c_fsize _ _ _ _ _ _ _ _ Hc0); lia|apply Hc0|lia|done|apply (w_len _ _ _ _ _ (c_want _ _ _ _ _ _ _ _ Hc)); lia]. }
        rewrite Efp. destruct (Hall q Hq) as [->|[Hq'|Hq']]; [right; by rewrite decide_True|by left|right]. case_decide as E; [by rewrite E|done]. }
      assert (dbFileSize p' = M) as HnM.
      { pose proof (c_fsize _ _ _ _ _ _ _ _ Hc2) as Hfs. destruct (decide (dbFileSize p' < M)) as [Hlt|]; [|lia]. destruct (c_last _ _ _ _ _ _ _ _ Hc2 Hlt) as (g & Hg & Hdg).
        assert (M ∈ sqlite3PcacheDirtyList (pcache p)) as HML by (apply dirty_list_spec; by exists g). rewrite EL in HML. apply elem_of_cons in HML as [HML|HML]; [lia|].
        specialize (HLn M HML ltac:(lia)). change (dbFileSize p') with n in Hlt. lia. }
      apply H1; try done; [by apply pk_file|]. apply (build_unique P S Hsz want (w_len _ _ _ _ _ (c_want _ _ _ _ _ _ _ _ Hc))); [lia| |].
      * rewrite (c_flen _ _ _ _ _ _ _ _ Hc2), HnM. done.
      * intros q Hq. rewrite <- (Hpages q) by lia. symmetry. apply (fpage_full P S Hsz img Himg); [lia|]. rewrite (c_flen _ _ _ _ _ _ _ _ Hc2), HnM. pose proof (sizes P S Hsz). nia.
    + intros rc n d2 Hb Hd2. apply H2; [done| |by apply (dready_R P S Hsz A img Himg HA Hin segs v)]. apply (ready_rollable segs v); [by apply pk_file|done|done].
  - intros rc d' Hrc Hod. set (p1 := if dbFileSize _ <? 1 then _ else _). rewrite (io_ok _ Hrc). apply wpc_ret.
    assert (dready P S A img segs v d') as Hd' by (by apply ((tx only_db_ready) segs v d)). apply H2; [by apply io_error_bad| |by apply (dready_R P S Hsz A img Himg HA Hin segs v)].
    apply (ready_rollable segs v); [|done|done]. unfold p1. destruct Hpk0. by case_if; split.
Qed.

Lemma common_excl J want M p f : common J want M p f -> common J want M (with_excl p) f.
Proof using. intros []. unfold with_excl. case_if; split; try done. Qed.

Lemma common_hdr J want M p f x : common J want M p f -> common J want M (set_journalHdr p x) f.
Proof using. by intros []; split. Qed.

Lemma common_sync J want M p f : common J want M p f -> common J want M (synced p) f.
Proof using Hsz Himg.
  intros Hc. pose proof (c_last _ _ _ _ _ _ _ _ Hc) as Hcl. destruct Hc. split; try done.
  - by apply (cache_ok_synced P S Hsz img Himg).
  - intros Hlt. destruct (Hcl Hlt) as (g & Hg & Hd). exists (set_needSync g false). cbn. unfold sqlite3PcacheClearSyncFlags. rewrite lookup_fmap, Hg. cbn. by rewrite Hd.
Qed.

(** The database file is that of the commit and durable, and the journal is still there. *)
Record Finished (new : list Z) (p : Pager) (d : disk) : Prop := {
  fi_state : eState p = PAGER_WRITER_FINISHED;
  fi_err : errCode p = SQLITE_OK;
  fi_jfd : jfd p = true;
  fi_lock : eLock p < UNKNOWN_LOCK;
  fi_size : dbFileSize p <= dbSize p;
  fi_db : d_db d = mkVer new [];
  fi_new : image_ok P new;
  fi_disk : exists segs j, segs <> [] /\ dready P S A img segs (mkVer j []) d
}.

Lemma finished_R new p d : Finished new p d -> R d.
Proof using All. intros H. destruct (fi_disk _ _ _ H) as (segs & j & _ & Hd). by apply (dready_R P S Hsz A img Himg HA Hin segs (mkVer j [])). Qed.

Lemma dready_synced segs v d : dready P S A img segs v d -> dready P S A img segs v (set_ddb d (mkVer (v_now (d_db d)) [])).
Proof using.
  intros [H1 H2 H3 H4 H5]. split; try done. intros c Hc. apply H4. apply list_elem_of_singleton in Hc as ->. left.
Qed.

(** The image that a commit makes of a view. *)
Definition commit_image (M : Z) (want : Z -> list Z) : list Z := build M (upd want 1 (bumped (want 1))).

Lemma wpc_phase_one want M p d (Q : Z * Pager -> disk -> Prop) : Live false want M p d ->
  (Locked want p d -> Q (SQLITE_OK, p) d) ->
  (forall p' d', Finished (commit_image M want) p' d' -> Q (SQLITE_OK, p') d') ->
  (forall rc p' d', rc <> SQLITE_OK -> rollable p' d' -> R d' -> Q (rc, p') d') ->
  wpc S R (sqlite3PagerCommitPhaseOne cf pager_delsuper p) Q d.
Proof using All.
  intros Hl H0 H1 H2. destruct ((tx live_common) _ _ _ _ _ Hl) as [J0 Hc0]. unfold sqlite3PagerCommitPhaseOne. rewrite (c_err _ _ _ _ _ _ _ _ Hc0). steps.
  destruct (Z.ltb_spec (eState p) PAGER_WRITER_CACHEMOD) as [Hlt|Hge].
  { apply wpc_ret. destruct Hl as [(_ & _ & HL)|(segs & ck & rs & v & J & Ho)]; [by apply H0|]. rewrite (o_state _ _ _ _ _ _ _ _ _ _ _ _ _ _ Ho) in Hlt. by case_decide. }
  wbind. apply (wpc_incr want M p d); [done|done| |].
  2: { intros rc p' d' Hrc Hl'. rewrite (proj2 (Z.eqb_neq _ _) Hrc). apply wpc_ret. apply H2; [done|by apply (live_rollable false want M)|by apply ((tx live_R) _ _ _ _ _ Hl')]. }
  intros segs ck rs v J p1 d1 Ho (g1 & Hg1 & Hd1). set (want1 := upd want 1 (bumped (want 1))) in *. steps. pose proof ((tx opened_R) _ _ _ _ _ _ _ _ _ _ Ho) as HR1. pose proof (opened_rollable _ _ _ _ _ _ _ _ _ _ Ho) as Hro1.
  pose proof (o_common _ _ _ _ _ _ _ _ _ _ _ _ _ _ Ho) as Hc1. pose proof (o_pager _ _ _ _ _ _ _ _ _ _ _ _ _ _ Ho) as Hpo1.
  wbind. apply ((pw wpc_syncJournal) segs ck rs v p1 d1 false); [done|apply Ho| |done| |].
  - intros j' d2 _ Hd2 Edb. set (p2 := synced _). steps. assert (common J want1 M p2 (v_now (d_db d2))) as Hc2 by (rewrite Edb; by apply common_sync, common_hdr, common_excl).
    assert (eState p2 = PAGER_WRITER_DBMOD) as Hst2 by done. assert (jfd p2 = true) as Hj2 by (unfold p2, with_excl; case_if; apply Hpo1).
    pose proof (common_pk _ _ _ _ _ _ Hc2 Hst2 Hj2) as Hpk2. change (journalHdr p2) with (journalOff p1) in Hpk2. rewrite (po_off _ _ _ _ _ _ _ Hpo1) in Hpk2. change rs with (snd (ck, rs)) in Hpk2 at 1. rewrite <- (data_end_app P S 0 segs (ck, rs)) in Hpk2.
    set (segs2 := segs ++ [(ck, rs)]) in *. assert (segs2 <> []) as Hne by (unfold segs2; by destruct segs).
    assert (forall x, x ∈ J <-> x ∈ map fst (all_recs segs2)) as HJ.
    { intros x. unfold segs2. rewrite all_recs_app. unfold all_recs at 2. cbn [map concat snd]. rewrite app_nil_r. apply Ho. }
    assert (zlen (want 1) = P) as Hw1 by (apply (w_len _ _ _ _ _ (c_want _ _ _ _ _ _ _ _ Hc0)); lia).
    wbind. apply (wpc_pagelist segs2 (mkVer j' []) J want1 M p2 d2); try done.
    + exists (set_needSync g1 false). assert (pcache p2 = sqlite3PcacheClearSyncFlags (pcache p1)) as -> by (unfold p2, with_excl; by case_if).
      unfold sqlite3PcacheClearSyncFlags. rewrite lookup_fmap, Hg1. cbn. by rewrite Hd1.
    + assert (dbFileVers p2 = dbFileVers p1) as Ev by (unfold p2, with_excl; by case_if). rewrite write_changecounter by (rewrite Ev; apply Ho). unfold want1, upd. rewrite decide_True by done. by apply bumped_bumped.
    + intros p3 d3 Hd3 Hc3 Hpk3 Hfs Hnew. steps. set (p4 := set_pcache p3 _). change (dbFileSize p4) with (dbFileSize p3). change (dbSize p4) with (dbSize p3).
      rewrite Hfs, (c_size _ _ _ _ _ _ _ _ Hc3), Z.ltb_irrefl. cbn [dbind]. steps.
      assert (pk P S PAGER_WRITER_DBMOD (data_end P S 0 segs2) true p4) as Hpk4 by (by apply pk_cache_any). pose proof (dready_R P S Hsz A img Himg HA Hin _ _ _ Hd3) as HR3.
      pose proof (dready_synced _ _ _ Hd3) as Hd4. wbind. apply (wpc_pagerSync S cf Hcf); [done|by apply (dready_R P S Hsz A img Himg HA Hin _ _ _ Hd4)| |].
      * apply wpc_ret. steps. apply H1. split; try done; [apply Hpk4|apply Hpk4|apply Hpk4| |by rewrite Hnew| |by eexists _, _].
        -- change (dbFileSize (set_eState p4 PAGER_WRITER_FINISHED)) with (dbFileSize p3). change (dbSize (set_eState p4 PAGER_WRITER_FINISHED)) with (dbSize p3). rewrite Hfs, (c_size _ _ _ _ _ _ _ _ Hc3). lia.
        -- pose proof (w_size _ _ _ _ _ (c_want _ _ _ _ _ _ _ _ Hc3)) as HM. destruct Himg. apply (build_image P S Hsz want1 (w_len _ _ _ _ _ (c_want _ _ _ _ _ _ _ _ Hc3))). lia.
      * intros rc Hb. rewrite (bad_ok _ Hb). apply wpc_ret. apply H2; [by apply bad_ne|by apply (ready_rollable segs2 (mkVer j' []))|done].
    + intros rc p3 d3 Hb Hro HR3. steps. apply wpc_ret. apply H2; [by apply bad_ne|done|done].
  - intros rc Hrc. rewrite (lock_ok _ Hrc). apply wpc_ret. apply H2; [by intros ->|done|done].
  - intros rc p' d' Hb HR' Hx. destruct (Hx eq_refl) as (-> & Hro & Edb). steps. apply wpc_ret. apply H2; [by apply bad_ne| |done].
    right. exists segs, (journalHdr p1). split.
    + pose proof (common_excl _ _ _ _ _ Hc1) as He. assert (eState (with_excl p1) = eState p1 /\ jfd (with_excl p1) = jfd p1 /\ journalHdr (with_excl p1) = journalHdr p1) as (E1 & E2 & E3) by (unfold with_excl; by case_if).
      rewrite <- E3. apply (common_pk J want1 M _ _ _ He); [rewrite E1; apply Ho|rewrite E2; apply Hpo1].
    + split; [done|]. rewrite (po_hdr _ _ _ _ _ _ _ Hpo1). pose proof (data_next segs). lia.
Qed.

(** *** The second phase of a commit *)

Lemma wpc_end_commit (C G : disk -> Prop) p hs d (Q : Z * Pager -> disk -> Prop) : (forall d, G d -> C d) -> C d -> PAGER_WRITER_LOCKED <= eState p -> eLock p < UNKNOWN_LOCK -> dbFileSize p <= dbSize p ->
  (if jfd p then wpc S C (finalize_journal cf p hs) (fun x d' => x = (SQLITE_OK, set_jfd p false) /\ G d' \/ io_error x.1 = true /\ x.2 = set_jfd p false /\ C d') d else G d) ->
  (forall p' d', G d' -> eState p' = PAGER_READER -> jfd p' = false -> Q (SQLITE_OK, p') d') -> (forall rc p' d', bad rc -> C d' -> Q (rc, p') d') ->
  wpc S C (pager_end_transaction cf p hs true) Q d.
Proof using All.
  intros HG HC Hst Hlk Hsz' Hfin H1 H2. unfold pager_end_transaction. rewrite (proj2 (Z.ltb_ge _ _) Hst). cbn [andb].
  set (fin := if jfd p then finalize_journal cf p hs else DRet (SQLITE_OK, p)).
  assert (wpc S C fin (fun x d' => (x.1 = SQLITE_OK /\ x.2 = set_jfd p false /\ G d') \/ (io_error x.1 = true /\ x.2 = set_jfd p false /\ C d')) d) as Hf.
  { unfold fin. assert (jfd p = true \/ jfd p = false) as [Ej|Ej] by (by destruct (jfd p); [left|right]); rewrite Ej in *.
    - eapply wpc_mono; [intros d0 H0; exact H0| |exact Hfin]. intros x d' [[-> HGd]|Hx]; [by left|by right].
    - apply wpc_ret. left. split_and!; try done. cbn. destruct p. cbn in Ej. by subst. }
  clearbody fin. clear Hfin. wbind. eapply wpc_mono; [intros d0 H0; exact H0| |exact Hf]. intros [rc p1] d1 Hor. cbn [fst snd] in Hor. destruct Hor as [(-> & -> & HGd)|(Hrc & -> & HCd)].
  - steps. set (p1 := set_pcache _ _). change (dbSize p1) with (dbSize p). change (dbFileSize p1) with (dbFileSize p). rewrite (proj2 (Z.ltb_ge _ _) Hsz'). cbn [dbind]. steps. rewrite (co_exclusive _ _ Hcf).
    assert (forall rc d', C d' -> (rc = SQLITE_OK /\ G d' \/ bad rc) -> wpc S C (do! (rc2, p) := (if negb false then pagerUnlockDb p1 SHARED_LOCK else DRet (SQLITE_OK, p1)) in
      DRet (if rc =? SQLITE_OK then rc2 else rc, set_setSuper (set_eState p PAGER_READER) false))%dprog Q d') as Hend.
    { intros rc d' HC' Hrc. cbn [negb]. wbind. apply wpc_unlockDb; [done|done|]. intros rc2 Hrc2. apply wpc_ret. destruct Hrc as [[-> HG']|Hb].
      - steps. destruct Hrc2 as [->|Hrc2]; [by apply H1|apply H2; [by apply io_error_bad|done]].
      - rewrite (bad_ok _ Hb). by apply H2. }
    wbind. wbind. apply wpc_Control; [by apply HG|]. intros rc Hrc. apply wpc_ret. apply Hend; [by apply HG|]. destruct Hrc as [->|[->|Hrc]]; [by left|by left|].
    assert (rc <> SQLITE_NOTFOUND) as Hn by (intros ->; done). rewrite (proj2 (Z.eqb_neq _ _) Hn). right. by apply io_error_bad.
  - steps. rewrite (co_exclusive _ _ Hcf). steps. wbind. apply wpc_unlockDb; [done|done|]. intros rc2 Hrc2. apply wpc_ret. apply H2; [by apply io_error_bad|done].
Qed.

(** What a commit to [new] may leave. *)
Definition committing (new : list Z) (d : disk) : Prop := R d \/ Recoverable P S (new :: A) new d.

(** The commit is done. *)
Definition committed (new : list Z) (d : disk) : Prop :=
  Recoverable P S (new :: A) new d /\ d_jrnl d = None /\ d_db d = mkVer new [] /\ (Z.land (extraSync cf) 1 <> 0 -> d_gone d = []).

Lemma finished_deleted new p d v g : Finished new p d -> d_jrnl d = Some v -> g = [] \/ g = Some v :: d_gone d -> Recoverable P S (new :: A) new (set_dgone (set_djrnl d None) g).
Proof using All.
  intros Hf Hv Hg. destruct (fi_disk _ _ _ Hf) as (segs & j & Hne & Hd). pose proof (dr_jrnl _ _ _ _ _ _ _ Hd) as Hv'. rewrite Hv in Hv'. injection Hv' as ->.
  pose proof (dr_gone _ _ _ _ _ _ _ Hd) as Hgc. unfold gone_cond in Hgc. rewrite decide_False in Hgc by done.
  apply (recoverable_cold P S Hsz); cbn; try done.
  - apply Hf.
  - intros i Hi. apply elem_of_cons in Hi as [->|Hi]; [apply Hf|by apply HA].
  - left.
  - rewrite (fi_db _ _ _ Hf). intros c Hc. by apply list_elem_of_singleton in Hc.
  - destruct Hg as [->| ->]; [apply gone_ok_nil|]. rewrite Hgc. intros [b|] Hj.
    + destruct Hj as (v' & Hv' & Hs & Hp). apply list_elem_of_singleton in Hv'. injection Hv' as ->. apply survives_one in Hs; [|pose proof (sizes P S Hsz); lia]. subst b.
      exists img. split; [by right|]. destruct (jr_chain _ _ _ _ _ (dr_ready _ _ _ _ _ _ _ Hd) j ltac:(by left)) as [Hch Hm].
      apply (stands_hot P S img j (all_recs segs)).
      * exists segs. pose proof (jr_ok _ _ _ _ _ (dr_ready _ _ _ _ _ _ _ Hd)). done.
      * apply ((tx ready_covers) segs (mkVer j []) d); [done|done|]. rewrite (fi_db _ _ _ Hf). left.
    + apply list_elem_of_singleton in Hj. done.
Qed.

Lemma wpc_phase_two new p d (Q : Z * Pager -> disk -> Prop) : Finished new p d ->
  (forall p' d', committed new d' -> eState p' = PAGER_READER -> jfd p' = false -> Q (SQLITE_OK, p') d') ->
  (forall rc p' d', rc <> SQLITE_OK -> committing new d' -> eState p' = PAGER_ERROR -> Q (rc, p') d') -> wpc S (committing new) (sqlite3PagerCommitPhaseTwo cf p) Q d.
Proof using All.
  intros Hf H1 H2. pose proof (finished_R _ _ _ Hf) as HR. unfold sqlite3PagerCommitPhaseTwo. rewrite (fi_err _ _ _ Hf), (fi_state _ _ _ Hf). steps. change (PAGER_WRITER_FINISHED =? PAGER_WRITER_LOCKED) with false. cbn [andb]. wbind.
  apply (wpc_end_commit (committing new) (committed new)).
  - intros d0 [H _]. by right.
  - by left.
  - rewrite (fi_state _ _ _ Hf). done.
  - apply Hf.
  - apply Hf.
  - rewrite (fi_jfd _ _ _ Hf). unfold finalize_journal. rewrite (co_mode _ _ Hcf), (co_exclusive _ _ Hcf).
    cbn [PAGER_JOURNALMODE_DELETE PAGER_JOURNALMODE_TRUNCATE PAGER_JOURNALMODE_PERSIST PAGER_JOURNALMODE_WAL Z.eqb Z.ltb Z.compare orb andb]. wbind.
    apply wpc_Delete; [by left| |intros rc Hrc; apply wpc_ret; right; split_and!; try done; by left].
    intros v Hv. pose proof (finished_deleted new p d v [] Hf Hv (or_introl eq_refl)) as Hd1. pose proof (finished_deleted new p d v (Some v :: d_gone d) Hf Hv (or_intror eq_refl)) as Hd2. split_and!.
    + intros E. split; [by right|]. apply wpc_ret. left. split; [done|]. split_and!; try done. apply Hf.
    + intros E. split; [by right|]. apply wpc_ret. left. split; [done|]. split_and!; try done. apply Hf.
    + intros rc Hrc. split; [by right|]. apply wpc_ret. right. split_and!; try done. by right.
  - intros p' d' Hc Hs Hj. apply wpc_ret. by apply H1.
  - intros rc p' d' Hb Hc. apply wpc_ret. apply H2; [by apply bad_ne|done|by apply bad_error].
Qed.
End commit.
