(* ===== verification/PagerAtomic.v ===== *)
(** * Transactions are atomic and durable (pager.c of sqlite3.c)

    [wpc_transaction]: wherever the process dies in a transaction the disk is one from which the
    database before it, or the one that its log made, is recovered; if it lives the outcome is
    the one it answers.  [reach_inv]: so it is for any sequence of transactions, crashes and
    losses of power.  The theorems themselves are in [PagerSafety]. *)

From S2P Require Import Prelude Bitwise Varint UnixFile Disk Pager Journal PagerPlay PagerRecover PagerWrite PagerTx PagerCommit.
From stdpp Require Import options.

Section atomic.
Context (P S : Z) (Hsz : sizes_ok P S = true) (HSP : S <= P).
Context (cf : PagerConf) (Hcf : conf_ok cf S).
Context (pager_delsuper : Pager -> list Z -> prog (Z * Pager)).

Section one.
Context (A : list (list Z)) (img : list Z).
Hypothesis Himg : image_ok P img.
Hypothesis HA : forall i, i ∈ A -> image_ok P i.
Hypothesis Hin : img ∈ A.

Abbreviation R := (Recoverable P S A img).
Abbreviation N := (npages P img).
Abbreviation Locked := (Locked P S A img).
Abbreviation Live := (Live P S A img).
Abbreviation Running := (Running P S A img).
Abbreviation failed := (failed P S A img).
Abbreviation committing := (committing P S A img).
Abbreviation committed := (committed P S cf A).
Abbreviation rollable := (rollable P S A img).

Local Notation "'tx' f" := (f P S Hsz HSP cf Hcf pager_delsuper A img Himg HA Hin) (at level 10, f at level 9, only parsing).

(** The database that a transaction with this log commits. *)
Definition log_image (log : list event) : list Z := commit_image P img (log_size N log) (view P img log).

(** *** Beginning to write *)

Definition at_rest (p : Pager) : Prop := eState p = PAGER_READER /\ jfd p = false \/ eState p = PAGER_ERROR.

Lemma wpc_begin p exFlag d (Q : Z * Pager -> disk -> Prop) : reading P S img p -> cold P S A img d ->
  (forall p', Running [] p' d -> Q (SQLITE_OK, p') d) -> (forall rc p', err rc -> at_rest p' -> Q (rc, p') d) -> wpc S R (sqlite3PagerBegin cf p exFlag) Q d.
Proof using All.
  intros Hr Hc H1 H2. pose proof Hc as [[HR Hdb] Hnh]. pose proof (rd_read _ _ _ _ Hr) as Har. pose proof (sizes P S Hsz) as [HP _]. unfold sqlite3PagerBegin. rewrite (ar_err _ _ _ _ Har), (rd_state _ _ _ _ Hr). steps.
  change (PAGER_READER =? PAGER_READER) with true. cbn iota.
  assert (forall p1, p1 = set_eLock p RESERVED_LOCK \/ p1 = set_eLock p EXCLUSIVE_LOCK ->
    Q (SQLITE_OK, set_journalOff (set_dbOrigSize (set_dbFileSize (set_dbHintSize (set_eState p1 PAGER_WRITER_LOCKED) (dbSize p1)) (dbSize p1)) (dbSize p1)) 0) d) as Hok.
  { intros p1 Hp1. apply H1. split; [done|]. left. left. split; [done|]. split; [done|]. assert (v_now (d_db d) = img) as Enow by (apply Hdb; left). change (view P img []) with (fpage P img).
    destruct Himg as [Hi1 Hi2]. destruct Har as [a1 a2 a3 a5 a6 a7 a8 a9 a10]. destruct Hr as [_ r2 r3 r4 r5].
    assert (forall q g, pcache p !! q = Some g -> q = 1 /\ g = mkPgHdr (pageof P img 1) false false false) as Hpc by (intros q g Hg; rewrite r4 in Hg; by apply lookup_singleton_Some in Hg as [<- <-]).
    assert (1 < lockpage P) as Hlp by (unfold lockpage, PENDING_BYTE; assert (0 < 0x40000000 / P) by (apply Z.div_str_pos; lia); lia).
    assert (want_ok P img ∅ (fpage P img) N) as Hw.
    { split; [intros q Hq; by apply (zlen_fpage P S Hsz img Himg)|intros q Hq; apply (fpage_beyond P S Hsz img Himg); nia|intros q Hq _; apply (fpage_full P S Hsz img Himg); nia|lia]. }
    assert (cache_ok P img ∅ (fpage P img) (pcache p) img) as Hca.
    { split; try done.
      - intros q g Hg. destruct (Hpc q g Hg) as [-> ->]. split; [|lia]. symmetry. apply (fpage_full P S Hsz img Himg); nia.
      - intros q g Hg. by destruct (Hpc q g Hg) as [_ ->].
      - rewrite r4, lookup_singleton_eq. eauto. }
    destruct Hp1 as [->| ->].
    all: split; try done; [split; try done; cbn; rewrite ?r3, ?Enow; try done; lia|by intros q g Hg; destruct (Hpc q g Hg) as [_ ->]|cbn; congruence]. }
  assert (eLock p = SHARED_LOCK) as El by apply Har.
  assert (forall p1, eState p1 = PAGER_READER -> jfd p1 = false -> forall rc, err rc -> wpc S R (DRet (rc, if rc =? SQLITE_OK
     then set_journalOff (set_dbOrigSize (set_dbFileSize (set_dbHintSize (set_eState p1 PAGER_WRITER_LOCKED) (dbSize p1)) (dbSize p1)) (dbSize p1)) 0 else p1)) Q d) as Hfail.
  { intros p1 Hs Hj rc Hrc. rewrite (err_ok _ Hrc). apply wpc_ret. apply H2; [done|by left]. }
  assert (jfd p = false /\ eState p = PAGER_READER) as [Ej Es] by (split; [apply Har|apply Hr]).
  wbind. apply wpc_lockDb; [done|by rewrite El| |].
  2: { intros rc Hrc. rewrite (lock_ok rc Hrc). cbn [andb dbind]. apply Hfail; [done..|by apply lock_err]. }
  rewrite El. change (SHARED_LOCK <? RESERVED_LOCK) with true. cbn iota. steps. destruct exFlag; cbn [andb]; wbind.
  - apply wpc_wait; [done|done| |].
    + change (eLock (set_eLock p RESERVED_LOCK) <? EXCLUSIVE_LOCK) with true. cbn iota. steps. apply wpc_ret. apply Hok. by right.
    + intros rc Hrc. apply Hfail; [done..|by apply lock_err].
  - apply wpc_ret. steps. apply wpc_ret. apply Hok. by left.
Qed.

(** *** Ending *)

Lemma failed_rollback p d (C : disk -> Prop) (Q : Z * Pager -> disk -> Prop) : failed p d -> (Q (errCode p, p) d) -> wpc S C (sqlite3PagerRollback cf pager_delsuper p) Q d.
Proof using. intros (_ & Hs & _) H. unfold sqlite3PagerRollback. by rewrite Hs. Qed.

Lemma running_rollback log p d (Q : Z * Pager -> disk -> Prop) : Running log p d ->
  (forall p' d', cold P S A img d' -> at_rest p' -> Q (SQLITE_OK, p') d') -> (forall rc p' d', rc <> SQLITE_OK -> R d' -> at_rest p' -> Q (rc, p') d') ->
  wpc S R (sqlite3PagerRollback cf pager_delsuper p) Q d.
Proof using All.
  intros [_ [Hl|Hf]] H1 H2.
  - apply (tx wpc_rollback); [by apply (tx live_rollable false (view P img log) (log_size N log))| |].
    + intros p' d' Hc Hs Hj. apply H1; [done|by left].
    + intros rc p' d' HR Hrc Hs. apply H2; [done|done|by right].
  - apply failed_rollback; [done|]. destruct Hf as (HR & Hs & He). apply H2; [done|done|by right].
Qed.

(** The second phase when nothing was written. *)
Lemma wpc_phase_two_locked want p d (Q : Z * Pager -> disk -> Prop) : Locked want p d ->
  (forall p' d', cold P S A img d' -> at_rest p' -> Q (SQLITE_OK, p') d') -> (forall rc p' d', rc <> SQLITE_OK -> R d' -> at_rest p' -> Q (rc, p') d') ->
  wpc S R (sqlite3PagerCommitPhaseTwo cf p) Q d.
Proof using All.
  intros HL H1 H2. pose proof (l_common _ _ _ _ _ _ _ HL) as Hc. pose proof (l_cold _ _ _ _ _ _ _ HL) as Hcold. unfold sqlite3PagerCommitPhaseTwo. rewrite (c_err _ _ _ _ _ _ _ _ Hc), (co_exclusive _ _ Hcf), andb_false_r. steps. wbind.
  apply ((tx wpc_end_commit) R (fun d => cold P S A img d)).
  - intros d0 [[H _] _]. done.
  - apply Hcold.
  - by rewrite (l_state _ _ _ _ _ _ _ HL).
  - apply Hc.
  - pose proof (c_fsize _ _ _ _ _ _ _ _ Hc). rewrite (c_size _ _ _ _ _ _ _ _ Hc). lia.
  - destruct (jfd p); [|done]. apply (wpc_finalize P S Hsz cf Hcf A img); [apply Hcold| |].
    + intros d' Hw Hn. left. split; [done|]. by apply cold_none.
    + intros rc d' Hw Hrc. right. split_and!; try done. apply Hw.
  - intros p' d' Hc' Hs Hj. apply wpc_ret. apply H1; [done|by left].
  - intros rc p' d' Hb HR. apply wpc_ret. apply H2; [by apply bad_ne|done|right; by apply bad_error].
Qed.

(** The commit succeeded: the database is what the log says, and nothing was written when it is the same. *)
Definition commit_ok (log : list event) (d : disk) : Prop :=
  committed (log_image log) d \/ cold P S A img d /\ forall q, 1 <= q -> view P img log q = fpage P img q.

Lemma locked_same want p d q : Locked want p d -> 1 <= q -> want q = fpage P img q.
Proof using All.
  intros HL Hq. pose proof (c_want _ _ _ _ _ _ _ _ (l_common _ _ _ _ _ _ _ HL)) as Hw. pose proof (sizes P S Hsz). destruct Himg as [Hi1 Hi2]. destruct (decide (q <= N)).
  - rewrite (fpage_full P S Hsz img Himg) by nia. by apply (w_orig _ _ _ _ _ Hw); [lia|apply not_elem_of_empty].
  - rewrite (fpage_beyond P S Hsz img Himg) by nia. apply (w_big _ _ _ _ _ Hw). lia.
Qed.

Lemma wpc_commit log p d (Q : Z * Pager -> disk -> Prop) : Running log p d ->
  (forall p' d', commit_ok log d' -> at_rest p' -> Q (SQLITE_OK, p') d') -> (forall rc p' d', rc <> SQLITE_OK -> committing (log_image log) d' -> at_rest p' -> Q (rc, p') d') ->
  wpc S (committing (log_image log)) (commit cf pager_delsuper p) Q d.
Proof using All.
  intros Hr H1 H2. assert (forall d', R d' -> committing (log_image log) d') as HRC by (intros d' H; by left). unfold commit.
  assert (forall rc p' d', rc <> SQLITE_OK -> (rollable p' d' \/ failed p' d') -> R d' -> wpc S (committing (log_image log)) (do! (_, p) := sqlite3PagerRollback cf pager_delsuper p' in DRet (rc, p))%dprog Q d') as Hroll.
  { intros rc p' d' Hrc Hor HR'. wbind. apply (wpc_mono S R (committing (log_image log)) _ (fun x d2 => R d2 /\ at_rest x.2)); [done|intros [rc2 p2] d2 [HR2 Hat]; apply wpc_ret; apply H2; auto|].
    destruct Hor as [Hro|Hf].
    - apply (tx wpc_rollback); [done| |].
      + intros p2 d2 Hc Hs Hj. split; [apply Hc|by left].
      + intros rc2 p2 d2 HR2 Hrc2 Hs. split; [done|by right].
    - apply failed_rollback; [done|]. split; [done|]. right. apply Hf. }
  destruct Hr as [Hrd [Hl|Hf]].
  - wbind. apply (wpc_mono S R (committing (log_image log)) _ (fun x d' => x.1 = SQLITE_OK /\ (Locked (view P img log) x.2 d' \/ Finished P S A img (log_image log) x.2 d') \/ x.1 <> SQLITE_OK /\ rollable x.2 d' /\ R d')); [done| |].
    + intros [rc p'] d' Hor. cbn [fst snd] in Hor. destruct Hor as [(-> & [HL|Hf])|(Hrc & Hro & HR')].
      * steps. apply (wpc_mono S R (committing (log_image log)) _ Q Q); [done|done|]. apply (wpc_phase_two_locked (view P img log)); [done| |].
        -- intros p2 d2 Hc Hat. apply H1; [|done]. right. split; [done|]. intros q Hq. by apply (locked_same _ p' d').
        -- intros rc p2 d2 Hrc HR2 Hat. apply H2; auto.
      * steps. apply ((tx wpc_phase_two) (log_image log)); [done| |].
        -- intros p2 d2 Hc Hs Hj. apply H1; [by left|by left].
        -- intros rc p2 d2 Hrc Hc Hs. apply H2; [done|done|by right].
      * rewrite (proj2 (Z.eqb_neq _ _) Hrc). apply Hroll; auto.
    + apply ((tx wpc_phase_one) (view P img log) (log_size N log) p d); [done| | |].
      * intros HL. left. auto.
      * intros p' d' Hf. left. auto.
      * intros rc p' d' Hrc Hro HR'. right. auto.
  - unfold sqlite3PagerCommitPhaseOne. pose proof Hf as (HR & Hs & He). rewrite (proj2 (Z.eqb_neq _ _) He). cbn [negb dbind]. rewrite (proj2 (Z.eqb_neq _ _) He). apply Hroll; auto.
Qed.

(** *** The whole transaction *)

(** What holds of the disk at every moment: the database before the transaction can be recovered, or
    it is being committed and what it made is the database. *)
Definition safe (do_commit : bool) (acts : list action) (d : disk) : Prop :=
  R d \/ do_commit = true /\ exists log, reads_ok (fpage P img) log /\ from_acts acts log /\ Recoverable P S (log_image log :: A) (log_image log) d.

(** What each outcome promises. *)
Definition promised (acts : list action) (o : outcome) (d : disk) : Prop :=
  match o with
  | NotStarted rc => err rc /\ R d
  | Committed rc log => reads_ok (fpage P img) log /\ from_acts acts log /\ if rc =? SQLITE_OK then commit_ok log d else committing (log_image log) d
  | RolledBack rc log => reads_ok (fpage P img) log /\ from_acts acts log /\ if rc =? SQLITE_OK then cold P S A img d else R d
  end.

Lemma wpc_transaction p d exFlag acts do_commit : fresh P S p -> R d -> Forall (action_ok P) acts ->
  wpc S (safe do_commit acts) (transaction cf pager_delsuper p exFlag acts do_commit) (fun x d' => promised acts x.1 d') d.
Proof using All.
  intros Hf HR Ha. assert (forall d', R d' -> safe do_commit acts d') as HRs by (intros d' H; by left). unfold transaction. wbind.
  apply (wpc_mono S R (safe do_commit acts) _ (fun x d' => x.1 = SQLITE_OK /\ cold P S A img d' /\ reading P S img x.2 \/ err x.1 /\ R d')); [done| |].
  2: { apply (wpc_start_reading P S Hsz cf Hcf pager_delsuper A img); [done|done| |]; intros; cbn [fst snd]; auto. }
  intros [rc p1] d1 Hor. cbn [fst snd] in Hor. destruct Hor as [(-> & Hc & Hr)|[Hrc HR1]]; [|rewrite (err_ok _ Hrc); by apply wpc_ret].
  steps. wbind. apply (wpc_mono S R (safe do_commit acts) _ (fun x d' => R d' /\ (x.1 = SQLITE_OK /\ Running [] x.2 d' \/ err x.1 /\ at_rest x.2))); [done| |].
  2: { apply wpc_begin; [done|done| |]; intros; cbn [fst snd]; (split; [apply Hc|auto]). }
  intros [rc p2] d2 [HR2 Hor]. cbn [fst snd] in Hor.
  assert (forall o p' d', promised acts o d' -> safe do_commit acts d' -> at_rest p' -> wpc S (safe do_commit acts) (do! p := pagerUnlockAndRollback cf pager_delsuper (set_ref1 p' false) in DRet (o, p))%dprog (fun x d' => promised acts x.1 d') d') as Hend.
  { intros o p' d' Hp Hs Hat. wbind. apply (wpc_let_go S cf Hcf pager_delsuper (set_ref1 p' false) d' (safe do_commit acts)); [done|done|]. intros p3. by apply wpc_ret. }
  destruct Hor as [[-> Hrun]|[Hrc Hat]].
  2: { rewrite (err_ok _ Hrc). cbn [negb dbind]. apply Hend; [done|auto|done]. }
  steps. wbind. wbind. apply (wpc_mono S R (safe do_commit acts) _ (fun x d' => Running x.2 x.1 d' /\ from_acts acts x.2)); [done| |].
  2: { apply ((tx wpc_actions) acts [] p2 d2 _ Ha Hrun). intros p' l d' Hr' Hl. done. }
  intros [p3 log] d3 [Hrun3 Hfa]. cbn [fst snd] in *. pose proof Hrun3 as [Hrd _]. destruct do_commit; wbind.
  - assert (forall d', committing (log_image log) d' -> safe true acts d') as Hcs by (intros d' [H|H]; [by left|right; split; [done|by exists log]]).
    apply (wpc_mono S (committing (log_image log)) (safe true acts) _ (fun x d' => at_rest x.2 /\ if x.1 =? SQLITE_OK then commit_ok log d' else committing (log_image log) d')); [done| |].
    + intros [rc p4] d4 [Hat Hres]. cbn [fst snd] in *. apply wpc_ret. apply Hend; [done| |done]. apply Hcs. destruct (rc =? SQLITE_OK); [|done]. destruct Hres as [Hres|[Hres _]]; [right; apply Hres|left; apply Hres].
    + apply wpc_commit; [done| |].
      * intros p' d' Hc' Hat. done.
      * intros rc p' d' Hrc Hc' Hat. split; [done|]. cbn [fst]. by rewrite (proj2 (Z.eqb_neq _ _) Hrc).
  - apply (wpc_mono S R (safe false acts) _ (fun x d' => at_rest x.2 /\ R d' /\ if x.1 =? SQLITE_OK then cold P S A img d' else R d')); [done| |].
    + intros [rc p4] d4 (Hat & HR4 & Hres). cbn [fst snd] in *. apply wpc_ret. apply Hend; [done|auto|done].
    + apply (running_rollback log); [done| |].
      * intros p' d' Hc' Hat. split; [done|]. split; [apply Hc'|done].
      * intros rc p' d' Hrc HR' Hat. split; [done|]. split; [done|]. cbn [fst]. by case_if.
Qed.
End one.
End atomic.

(** ** Losses of power *)

Section loss.
Context (P S : Z) (Hsz : sizes_ok P S = true).

Lemma survives_none c b : survives S [c] b -> b = c.
Proof using Hsz. apply survives_one. pose proof (sizes P S Hsz). lia. Qed.

(** What a loss of power leaves is one of the databases, which can be recovered. *)
Lemma power_loss_recoverable A img d d' : Recoverable P S A img d -> power_loss S d d' -> exists i, i ∈ A /\ Recoverable P S A i d'.
Proof using Hsz.
  intros HR (b & j & Hb & Hj & ->). destruct (rc_loss _ _ _ _ _ HR j b Hj Hb) as (i & Hi & Hs). exists i. split; [done|].
  pose proof (rc_images _ _ _ _ _ HR) as HA. assert (plain (now (mkDisk (mkVer b []) ((fun c => mkVer c []) <$> j) [] false) FJrnl)) as Hp.
  { destruct j as [c|]; [|done]. destruct Hj as (v & _ & _ & Hp). exact Hp. }
  assert (forall v c, (fun c => mkVer c []) <$> j = Some v -> c ∈ v_all v -> j = Some c) as Hjc.
  { intros v c Hv Hc. destruct j as [c'|]; [|done]. injection Hv as <-. by apply list_elem_of_singleton in Hc as ->. }
  assert ((forall c, j = Some c -> ~ magic_at c 0) -> b = i -> Recoverable P S A i (mkDisk (mkVer b []) ((fun c => mkVer c []) <$> j) [] false)) as Hcold.
  { intros Hm ->. apply (recoverable_cold P S Hsz); auto; [by intros c ->%list_elem_of_singleton|intros v c Hv Hc; eauto|apply gone_ok_nil]. }
  destruct j as [c|]; cbn [stands] in Hs; [|by apply Hcold]. destruct (decide (magic_at c 0)) as [Hm|Hm].
  - destruct Hs as (rs & Hh & Hc). apply (recoverable_hot P S Hsz A i _ (mkVer c []) rs); auto.
    + intros j Hj2 _. apply survives_none in Hj2 as ->. by exists rs.
    + by intros c' ->%list_elem_of_singleton.
  - apply Hcold; [|done]. by intros c' [= <-].
Qed.

(** A disk of one content, without a journal. *)
Lemma power_loss_settled c d' : power_loss S (mkDisk (mkVer c []) None [] false) d' -> d' = mkDisk (mkVer c []) None [] false.
Proof using Hsz.
  intros (b & j & Hb & Hj & ->). apply survives_none in Hb as ->. destruct j as [x|]; [|done].
  destruct Hj as (v & Hv & _). by apply list_elem_of_singleton in Hv.
Qed.
End loss.

(** ** Any sequence of transactions, crashes and losses of power *)

Section system.
Context (P S : Z) (Hsz : sizes_ok P S = true) (HSP : S <= P).
Context (pager_delsuper : Pager -> list Z -> prog (Z * Pager)).
Context (img0 : list Z) (Himg0 : image_ok P img0).

(** The databases that some of the transactions make, in their order, each as a whole. *)
Inductive outcome_of : list (list action) -> list Z -> Prop :=
  | out_start : outcome_of [] img0
  | out_without txs acts i : outcome_of txs i -> outcome_of (txs ++ [acts]) i
  | out_with txs acts i log : outcome_of txs i -> reads_ok (fpage P i) log -> from_acts acts log ->
      outcome_of (txs ++ [acts]) (log_image P i log).

(** The disks of a system that runs a transaction after the other, each by a new connection of any
    settings, whose process may die at any time, and that may lose power in between.  The list
    is of the transactions that were to be committed. *)
Inductive reach : list (list action) -> disk -> Prop :=
  | reach_init : reach [] (mkDisk (mkVer img0 []) None [] false)
  | reach_run txs d cf p exFlag acts do_commit chs d' r :
      reach txs d -> conf_ok cf S -> fresh P S p -> Forall (action_ok P) acts ->
      exec S (transaction cf pager_delsuper p exFlag acts do_commit) chs d = Some (d', r) ->
      reach (if do_commit then txs ++ [acts] else txs) d'
  | reach_loss txs d d' : reach txs d -> power_loss S d d' -> reach txs d'.

Lemma wpc_run cf p exFlag acts do_commit A img chs d d' r : conf_ok cf S -> fresh P S p -> Forall (action_ok P) acts -> Recoverable P S A img d ->
  exec S (transaction cf pager_delsuper p exFlag acts do_commit) chs d = Some (d', r) ->
  safe P S A img do_commit acts d' /\ forall x, r = Some x -> promised P S cf A img acts x.1 d'.
Proof using Hsz HSP.
  intros Hcf Hf Ha HR E. pose proof (rc_images _ _ _ _ _ HR) as HA. pose proof (rc_in _ _ _ _ _ HR) as Hin.
  apply (wpc_exec S (safe P S A img do_commit acts) (transaction cf pager_delsuper p exFlag acts do_commit) (fun x d' => promised P S cf A img acts x.1 d') d) with (chs := chs); [by left| |done].
  exact (wpc_transaction P S Hsz HSP cf Hcf pager_delsuper A img (HA _ Hin) HA Hin p d exFlag acts do_commit Hf HR Ha).
Qed.

Lemma reach_inv txs d : reach txs d -> exists A i, Recoverable P S A i d /\ forall j, j ∈ A -> outcome_of txs j.
Proof using Hsz HSP Himg0.
  induction 1 as [|txs d cf p exFlag acts dc chs d' r _ (A & i & HR & HA) Hcf Hf Ha E|txs d d' _ (A & i & HR & HA) Hl].
  - exists [img0], img0. split; [|by intros j ->%list_elem_of_singleton; constructor].
    apply (recoverable_cold P S Hsz); try done; [by intros i ->%list_elem_of_singleton|left|by intros c ->%list_elem_of_singleton|apply gone_ok_nil].
  - assert (forall j, j ∈ A -> outcome_of (if dc then txs ++ [acts] else txs) j) as HA' by (intros j Hj; destruct dc; [apply out_without|]; auto).
    destruct (wpc_run cf p exFlag acts dc A i chs d d' r Hcf Hf Ha HR E) as [[HR'|(-> & log & Hr & Hl & HR')] _].
    + by exists A, i.
    + exists (log_image P i log :: A), (log_image P i log). split; [done|]. intros j [->|Hj]%elem_of_cons; [|auto]. apply out_with; [|done..]. apply HA. apply HR.
  - destruct (power_loss_recoverable P S Hsz A i d d' HR Hl) as (i' & Hi' & HR'). by exists A, i'.
Qed.
End system.
