(* ===== verification/PagerSafety.v ===== *)
(** * What the rollback journal guarantees (pager.c of sqlite3.c)

    The theorems about the pager in its rollback mode, for any answers of the system, deaths of
    the process and losses of power, and runs of them on a database of two pages.  They are
    proved in the files before this one, with the program logic of [Disk]. *)

From S2P Require Import Prelude Bitwise Varint UnixFile Disk Pager Journal PagerPlay PagerRecover PagerWrite PagerTx PagerCommit PagerAtomic.
From stdpp Require Import options.

(** ** Recovering *)

Lemma wpc_exec_ret {A} S (C : disk -> Prop) (m : prog A) (Q : A -> disk -> Prop) d chs d' r : C d -> wpc S C m Q d -> exec S m chs d = Some (d', r) ->
  C d' /\ forall a, r = Some a -> Q a d'.
Proof. intros HC Hw E. exact (wpc_exec S C m Q d HC Hw chs d' r E). Qed.

(** C6: Playing back a hot journal that was synced, over a file that a crash left in any state, always
    ends, with the database of before the transaction in the file for good and the journal gone,
    or with an error of the file system; at every moment in between, and after an error, that
    database can still be recovered from whatever a loss of power leaves. *)
Theorem playback_restores P S cf pager_delsuper A img p v d chs d' r : sizes_ok P S = true -> conf_ok cf S ->
  Recoverable P S A img d -> jrnl_hot d -> d_jrnl d = Some (mkVer v []) -> pk P S PAGER_OPEN (zlen v) false p ->
  exec S (pager_playback cf pager_delsuper p true) chs d = Some (d', r) ->
  Recoverable P S A img d' /\
  forall rc p', r = Some (rc, p') -> rc <> NO_FUEL /\
    (rc = SQLITE_OK -> (forall c, c ∈ v_all (d_db d') -> c = img) /\ d_jrnl d' = None /\ eState p' = PAGER_READER) /\
    (rc <> SQLITE_OK -> bad rc).
Proof.
  intros Hsz Hcf HR Hh Hv Hpk E. assert (now d FJrnl = v) as En by (unfold now, file_of; by rewrite Hv).
  pose proof (rc_now _ _ _ _ _ HR) as Hn. rewrite decide_True in Hn by done. rewrite En in Hn. destruct Hn as (Hg & rs & (segs & Hne & Hch & Hm & -> & Hrec) & Hc).
  set (Q := fun (x : Z * Pager) d' => x.1 = SQLITE_OK /\ (forall c, c ∈ v_all (d_db d') -> c = img) /\ d_jrnl d' = None /\ eState x.2 = PAGER_READER \/ bad x.1).
  assert (wpc S (Recoverable P S A img) (pager_playback cf pager_delsuper p true) Q d) as Hw.
  { apply (wpc_playback_hot P S Hsz cf Hcf pager_delsuper A img (mkVer v []) segs PAGER_OPEN (zlen v) false (rec_img P S A img d HR) (rc_images _ _ _ _ _ HR) (rc_in _ _ _ _ _ HR)); try done.
    - rewrite <- En. apply (rc_plain _ _ _ _ _ HR).
    - intros j Hs _. apply (survives_none P S Hsz) in Hs as ->. exists (all_recs segs). split; [|done]. by exists segs.
    - split_and!; try done. apply Hc. left.
    - by apply (chain_data_end P S Hsz _ 0 (npages P img)).
    - by left.
    - intros p' d2 [_ Hw] Hj _ Hs. left. done.
    - intros rc p' d2 _ Hb. by right. }
  destruct (wpc_exec_ret _ _ _ _ _ _ _ _ HR Hw E) as [H1 H2]. split; [done|]. intros rc p' Hr. specialize (H2 _ Hr). unfold Q in H2. cbn [fst snd] in H2. destruct H2 as [(-> & H2)|H2].
  - done.
  - pose proof (bad_ne rc H2). tauto.
Qed.

(** ** Transactions *)

(** C5: Wherever a process dies in a transaction that starts on a disk from which a database can be
    recovered, and whichever operations of the system fail, the disk is one from which that
    database can be recovered, or, when the transaction was to be committed, the one that it
    made as a whole; its reads saw its own writes over that database; and a transaction that
    answers that it was committed, rolled back or did not start has left just that. *)
Theorem transaction_atomic P S cf pager_delsuper A img p exFlag acts do_commit chs d d' r :
  sizes_ok P S = true -> S <= P -> conf_ok cf S -> fresh P S p -> Forall (action_ok P) acts -> Recoverable P S A img d ->
  exec S (transaction cf pager_delsuper p exFlag acts do_commit) chs d = Some (d', r) ->
  safe P S A img do_commit acts d' /\ forall x, r = Some x -> promised P S cf A img acts x.1 d'.
Proof. intros Hsz HSP. by apply wpc_run. Qed.

(** C4: When the system runs transactions one after the other, with processes killed at any moment,
    operations failing and power lost in between, a connection that starts to read afterwards
    finds a database that some of the transactions that were to be committed make, in their
    order and each as a whole, as the content of the file for good, and has its first page and
    its size; and one that fails to start leaves such a database to be recovered. *)
Theorem crashes_leave_whole_transactions P S cf pager_delsuper img0 txs d p chs d' rc p' :
  sizes_ok P S = true -> S <= P -> image_ok P img0 -> reach P S pager_delsuper img0 txs d -> conf_ok cf S -> fresh P S p ->
  exec S (start_reading cf pager_delsuper p) chs d = Some (d', Some (rc, p')) ->
  exists A i, (forall j, j ∈ A -> outcome_of P img0 txs j) /\ i ∈ A /\ Recoverable P S A i d' /\
    rc <> NO_FUEL /\
    (rc = SQLITE_OK -> (forall c, c ∈ v_all (d_db d') -> c = i) /\ ~ jrnl_hot d' /\
       dbSize p' = npages P i /\ pcache p' = {[1 := mkPgHdr (pageof P i 1) false false false]}).
Proof.
  intros Hsz HSP Himg0 Hreach Hcf Hf E. destruct (reach_inv P S Hsz HSP _ img0 Himg0 txs d Hreach) as (A & i & HR & HA). exists A, i.
  split; [done|]. split; [apply HR|].
  assert (wpc S (Recoverable P S A i) (start_reading cf pager_delsuper p) (fun x d' => x.1 = SQLITE_OK /\ cold P S A i d' /\ reading P S i x.2 \/ err x.1) d) as Hw.
  { apply (wpc_start_reading P S Hsz cf Hcf pager_delsuper A i); [done|done|intros; by left|intros; by right]. }
  destruct (wpc_exec_ret _ _ _ _ _ _ _ _ HR Hw E) as [H1 H2]. split; [done|]. destruct (H2 _ eq_refl) as [(E1 & [[_ Hdb] Hnh] & Hr)|H]; cbn [fst snd] in *.
  2: { split; [apply H|]. intros ->. by destruct H. }
  split; [by rewrite E1|]. intros _.
  split_and!; [done|done|apply Hr|apply Hr].
Qed.

(** C7: When the directory is synced as well (PRAGMA synchronous=EXTRA), a transaction that changed a
    page and answered that it was committed is there for good: whatever a loss of power leaves is
    the database that it made, alone and without a journal. *)
Theorem commit_outlives_power_loss P S cf pager_delsuper A img p exFlag acts chs d d' p' log q d'' :
  sizes_ok P S = true -> S <= P -> conf_ok cf S -> Z.land (extraSync cf) 1 <> 0 -> fresh P S p -> Forall (action_ok P) acts -> Recoverable P S A img d ->
  exec S (transaction cf pager_delsuper p exFlag acts true) chs d = Some (d', Some (Committed SQLITE_OK log, p')) ->
  1 <= q -> view P img log q <> fpage P img q -> power_loss S d' d'' ->
  d'' = mkDisk (mkVer (log_image P img log) []) None [] false.
Proof.
  intros Hsz HSP Hcf Hx Hf Ha HR E Hq Hne Hl. destruct (wpc_run P S Hsz HSP _ cf p exFlag acts true A img chs d d' _ Hcf Hf Ha HR E) as [_ H].
  destruct (H _ eq_refl) as (_ & _ & [(_ & Hj & Hdb & Hg)|[_ Hsame]]); [|by destruct Hne; apply Hsame].
  apply (power_loss_settled P S Hsz). destruct Hl as (b & j & Hb & Hjs & ->). exists b, j. rewrite Hdb in Hb. split; [done|]. split; [|done].
  destruct j; cbn in Hjs |- *; rewrite Hj, (Hg Hx) in Hjs; done.
Qed.

(** ** Runs *)

#[export] Instance event_eq_dec : EqDecision event.
Proof. solve_decision. Defined.

Module Demo.

Definition conf : PagerConf := mkConf false PAGER_JOURNALMODE_DELETE false true 1 SQLITE_SYNC_FULL false 0 512 2 (-1).
Definition pager : Pager :=
  mkPager PAGER_OPEN NO_LOCK false false 0 false 0 0 0 0 0 0 0 None false 0 0 [] 0 512 2147483647 (lockpage 512) 512 false ∅.
Definition no_super (p : Pager) (_ : list Z) : prog (Z * Pager) := DRet (SQLITE_OK, p).

(** A database of two pages, and a transaction that reads and changes one, which is spilled, and appends one. *)
Definition image : list Z := repeat 0 1024.
Definition start : disk := mkDisk (mkVer image []) None [] false.
Definition acts : list action := [AGet 2; AWrite 2 (repeat 7 512); AStress 2; AWrite 3 (repeat 9 512)].
Definition oks (n : nat) : list choice := repeat (mkChoice SQLITE_OK 0 true) n.

(** [n] operations of the transaction succeed, and the process dies if they do not end it. *)
Definition run (do_commit : bool) (n : nat) : option (disk * option (outcome * Pager)) :=
  exec 512 (transaction conf no_super pager false acts do_commit) (oks n) start.

(** It dies when it has spilled the page, and power is lost, which happens to leave what was written. *)
Definition dead (do_commit : bool) : disk := match run do_commit 23 with Some (d, _) => d | None => start end.
Definition lost (do_commit : bool) : disk :=
  mkDisk (mkVer (v_now (d_db (dead do_commit))) []) ((fun v => mkVer (v_now v) []) <$> d_jrnl (dead do_commit)) [] false.

Lemma conf_is_ok : conf_ok conf 512.
Proof. by split. Qed.

Lemma pager_is_fresh : fresh 512 512 pager.
Proof. by split. Qed.

Lemma acts_are_ok : Forall (action_ok 512) acts.
Proof.
  unfold acts. repeat apply Forall_cons_2; [..|apply Forall_nil_2]; cbn [action_ok]; rewrite ?zlen_repeat; [lia|by split|exact I|by split].
Qed.

Lemma image_is_ok : image_ok 512 image.
Proof. split; [done|]. by vm_compute. Qed.

Lemma start_recoverable : Recoverable 512 512 [image] image start.
Proof.
  apply (recoverable_cold 512 512 eq_refl [image] image start image_is_ok).
  - intros i ->%list_elem_of_singleton. apply image_is_ok.
  - left.
  - by vm_compute.
  - by intros c ->%list_elem_of_singleton.
  - done.
  - apply gone_ok_nil.
Qed.

Lemma run_dies b : exec 512 (transaction conf no_super pager false acts b) (oks 23) start = Some (dead b, None).
Proof. by destruct b; vm_compute. Qed.

Lemma power_is_lost b : power_loss 512 (dead b) (lost b).
Proof.
  exists (v_now (d_db (dead b))), (v_now <$> d_jrnl (dead b)). split; [apply survives_now|]. split; [|unfold lost; by destruct (d_jrnl (dead b))].
  assert (plain (now (dead b) FJrnl)) as Hp by (destruct b; vm_compute; reflexivity).
  assert (match d_jrnl (dead b) with Some _ => true | None => false end = true) as Hj by (destruct b; vm_compute; reflexivity).
  unfold now, file_of in Hp. destruct (d_jrnl (dead b)) as [v|] eqn:Ev; [|done]. cbn. rewrite Ev.
  exists v. split; [left|]. split; [apply survives_now|done].
Qed.

Lemma lost_recoverable : Recoverable 512 512 [image] image (lost false).
Proof.
  destruct (wpc_run 512 512 eq_refl ltac:(lia) no_super conf pager false acts false [image] image (oks 23) start (dead false) None) as [Hs _].
  - apply conf_is_ok.
  - apply pager_is_fresh.
  - apply acts_are_ok.
  - apply start_recoverable.
  - apply run_dies.
  - destruct Hs as [Hs|[? _]]; [|done]. destruct (power_loss_recoverable 512 512 eq_refl [image] image _ _ Hs (power_is_lost false)) as (i & ->%list_elem_of_singleton & Hr). done.
Qed.

(** The pager when it has opened and synced the journal. *)
Definition opener : Pager :=
  set_jfd (set_journalHdr (set_eLock pager EXCLUSIVE_LOCK) (zlen (now (lost false) FJrnl))) true.

Lemma lost_journal : d_jrnl (lost false) = Some (mkVer (now (lost false) FJrnl) []).
Proof. vm_compute. reflexivity. Qed.

Lemma lost_is_hot : jrnl_hot (lost false).
Proof. vm_compute. reflexivity. Qed.

Lemma opener_ok : pk 512 512 PAGER_OPEN (zlen (now (lost false) FJrnl)) false opener.
Proof. unfold opener. generalize (zlen (now (lost false) FJrnl)). intros x. by split. Qed.

Lemma lost_is_reached : reach 512 512 no_super image [acts] (lost true).
Proof.
  apply (reach_loss _ _ _ _ [acts] (dead true)); [|apply power_is_lost].
  exact (reach_run 512 512 no_super image [] start conf pager false acts true (oks 23) (dead true) None (reach_init _ _ _ _) conf_is_ok pager_is_fresh acts_are_ok (run_dies true)).
Qed.

Definition events : list event := [EGet 2 (repeat 0 512); EWrite 2 (repeat 7 512); EWrite 3 (repeat 9 512)].

Lemma page_changes : view 512 image events 2 <> fpage 512 image 2.
Proof. by vm_compute. Qed.

(** A loss of power when the journal is gone may leave the file as it is. *)
Lemma power_loss_now d : d_jrnl d = None -> power_loss 512 d (mkDisk (mkVer (v_now (d_db d)) []) None [] false).
Proof. intros Hj. exists (v_now (d_db d)), None. split; [apply survives_now|]. split; [|done]. cbn. rewrite Hj. left. Qed.

End Demo.

Lemma playback_restores_witness :
  v_now (d_db (Demo.lost false)) <> Demo.image /\
  exists d' p',
    exec 512 (pager_playback Demo.conf Demo.no_super Demo.opener true) (Demo.oks 60) (Demo.lost false) = Some (d', Some (SQLITE_OK, p')) /\ v_now (d_db d') = Demo.image /\ d_jrnl d' = None.
Proof.
  split; [by vm_compute|].
  assert (match exec 512 (pager_playback Demo.conf Demo.no_super Demo.opener true) (Demo.oks 60) (Demo.lost false) with Some (_, Some (rc, _)) => rc =? SQLITE_OK | _ => false end = true) as Hok by (vm_compute; reflexivity).
  destruct (exec 512 (pager_playback Demo.conf Demo.no_super Demo.opener true) (Demo.oks 60) (Demo.lost false)) as [[d' [[rc p']|]]|] eqn:E; [|done..]. apply Z.eqb_eq in Hok as ->. exists d', p'. split; [reflexivity|].
  destruct (playback_restores 512 512 Demo.conf Demo.no_super [Demo.image] Demo.image Demo.opener (now (Demo.lost false) FJrnl) (Demo.lost false) (Demo.oks 60) d' _
    eq_refl Demo.conf_is_ok Demo.lost_recoverable Demo.lost_is_hot Demo.lost_journal Demo.opener_ok E) as (_ & H).
  destruct (H _ _ eq_refl) as (_ & H2 & _). destruct (H2 eq_refl) as (Hdb & Hj & _). split; [apply Hdb; left|done].
Defined.

Lemma transaction_atomic_witness :
  exists d' p' log, Demo.run true 100 = Some (d', Some (Committed SQLITE_OK log, p')) /\ reads_ok (fpage 512 Demo.image) log /\
    (committed 512 512 Demo.conf [Demo.image] (log_image 512 Demo.image log) d' \/ cold 512 512 [Demo.image] Demo.image d').
Proof.
  assert (match Demo.run true 100 with Some (_, Some (Committed rc _, _)) => rc =? SQLITE_OK | _ => false end = true) as Hok by (vm_compute; reflexivity).
  unfold Demo.run in *.
  destruct (exec 512 (transaction Demo.conf Demo.no_super Demo.pager false Demo.acts true) (Demo.oks 100) Demo.start) as [[d' [[[rc|rc log|rc log] p']|]]|] eqn:E; [discriminate Hok| |discriminate Hok..].
  apply Z.eqb_eq in Hok as ->. exists d', p', log. split; [reflexivity|].
  destruct (transaction_atomic 512 512 Demo.conf Demo.no_super [Demo.image] Demo.image Demo.pager false Demo.acts true (Demo.oks 100) Demo.start d' _
    eq_refl ltac:(lia) Demo.conf_is_ok Demo.pager_is_fresh Demo.acts_are_ok Demo.start_recoverable E) as [_ H].
  destruct (H _ eq_refl) as (Hr & _ & [Hc|[Hc _]]); (split; [exact Hr|]); [by left|by right].
Defined.

Lemma crashes_leave_whole_transactions_witness :
  v_now (d_db (Demo.lost true)) <> Demo.image /\
  exists d' p' i, exec 512 (start_reading Demo.conf Demo.no_super Demo.pager) (Demo.oks 60) (Demo.lost true) = Some (d', Some (SQLITE_OK, p')) /\
    outcome_of 512 Demo.image [Demo.acts] i /\ v_now (d_db d') = i /\ dbSize p' = npages 512 i.
Proof.
  split; [by vm_compute|].
  assert (match exec 512 (start_reading Demo.conf Demo.no_super Demo.pager) (Demo.oks 60) (Demo.lost true) with Some (_, Some (rc, _)) => rc =? SQLITE_OK | _ => false end = true) as Hok by (vm_compute; reflexivity).
  destruct (exec 512 (start_reading Demo.conf Demo.no_super Demo.pager) (Demo.oks 60) (Demo.lost true)) as [[d' [[rc p']|]]|] eqn:E; [|done..]. apply Z.eqb_eq in Hok as ->. exists d', p'.
  destruct (crashes_leave_whole_transactions 512 512 Demo.conf Demo.no_super Demo.image [Demo.acts] (Demo.lost true) Demo.pager (Demo.oks 60) d' SQLITE_OK p'
    eq_refl ltac:(lia) Demo.image_is_ok Demo.lost_is_reached Demo.conf_is_ok Demo.pager_is_fresh E) as (A & i & HA & Hi & _ & _ & H).
  destruct (H eq_refl) as (Hdb & _ & Hs & _). exists i. split; [reflexivity|]. split; [by apply HA|]. split; [apply Hdb; left|exact Hs].
Defined.

Lemma commit_outlives_power_loss_witness :
  exists d' p', Demo.run true 100 = Some (d', Some (Committed SQLITE_OK Demo.events, p')) /\ d_jrnl d' = None /\
    v_now (d_db d') = log_image 512 Demo.image Demo.events /\ v_now (d_db d') <> Demo.image.
Proof.
  unfold Demo.run. assert (match exec 512 (transaction Demo.conf Demo.no_super Demo.pager false Demo.acts true) (Demo.oks 100) Demo.start with
    | Some (d, Some (Committed rc log, _)) =>
        (rc =? SQLITE_OK) && bool_decide (log = Demo.events) && negb (bool_decide (v_now (d_db d) = Demo.image)) && match d_jrnl d with None => true | _ => false end
    | _ => false end = true) as Hok by (vm_compute; reflexivity).
  destruct (exec 512 (transaction Demo.conf Demo.no_super Demo.pager false Demo.acts true) (Demo.oks 100) Demo.start) as [[d' [[[rc|rc log|rc log] p']|]]|] eqn:E; [discriminate Hok| |discriminate Hok..].
  destruct (d_jrnl d') as [|] eqn:Ej; [rewrite andb_false_r in Hok; discriminate Hok|]. rewrite andb_true_r in Hok. apply andb_true_iff in Hok as [Hok Hne]. apply andb_true_iff in Hok as [Hok Hlog].
  apply Z.eqb_eq in Hok as ->. apply bool_decide_eq_true in Hlog as ->. apply negb_true_iff, bool_decide_eq_false in Hne. exists d', p'. split; [reflexivity|]. split; [exact Ej|]. split; [|exact Hne].
  pose proof (commit_outlives_power_loss 512 512 Demo.conf Demo.no_super [Demo.image] Demo.image Demo.pager false Demo.acts (Demo.oks 100) Demo.start d' p' Demo.events 2 _
    eq_refl ltac:(lia) Demo.conf_is_ok ltac:(by vm_compute) Demo.pager_is_fresh Demo.acts_are_ok Demo.start_recoverable E ltac:(lia) Demo.page_changes (Demo.power_loss_now d' Ej)) as H.
  exact (f_equal (fun d => v_now (d_db d)) H).
Defined.
