(* ===== verification/WalIndex.v ===== *)
(** * The index of the write-ahead log (wal.c of sqlite3.c)

    The wal-index answers, for a page of the database, which frame of the log holds its last
    version up to a given frame.  It is an array of pages, each with the page numbers of up to
    4096 frames and an open-addressing hash table over them, in memory shared by all
    connections.  [walIndexAppend] is the writer, [walFindFrame] the reader, [walCleanupHash]
    what rollback uses.

    A region of shared memory that was never written, or was cleared, holds zeros: an array is a
    finite map whose absent entries are 0.  Mapping a page of the index may fail; [map_page] is
    the code it returns. *)

From S2P Require Import Prelude Bitwise Varint UnixFile.
From stdpp Require Import options.

Definition HASHTABLE_NPAGE : Z := 4096.
Definition HASHTABLE_HASH_1 : Z := 383.
Definition HASHTABLE_NSLOT : Z := HASHTABLE_NPAGE * 2.
Definition WALINDEX_HDR_SIZE : Z := 48 * 2 + 40.
Definition HASHTABLE_NPAGE_ONE : Z := HASHTABLE_NPAGE - WALINDEX_HDR_SIZE / 4.
Definition SQLITE_CORRUPT : Z := 11.

(** [aSalt] is kept as the eight bytes it occupies. *)
Record WalIndexHdr := mkHdr {
  iChange : Z;
  bigEndCksum : Z;
  h_szPage : Z;
  mxFrame : Z;
  nPage : Z;
  aFrameCksum : Z * Z;
  aSalt : list Z
}.

(** What checkpoints and readers share; the read marks from 0. *)
Record WalCkptInfo := mkCkpt { nBackfill : Z; aReadMark : list Z; nBackfillAttempted : Z }.
Definition READMARK_NOT_USED : Z := 0xffffffff.
Definition WAL_NREADER : Z := 5.

(** One page of the index: [aPgno] and [aHash] by index, from 0. *)
Record wi_page := mkPage { aPgno : gmap Z Z; aHash : gmap Z Z }.

(** The members of [Wal] used here; [live] is the header in shared memory, of which the two copies
    are one, and [ckpt] what follows it. *)
Record Wal := mkWal {
  apWiData : gmap Z wi_page;
  live : WalIndexHdr;
  ckpt : WalCkptInfo;
  hdr : WalIndexHdr;
  minFrame : Z;
  readLock : Z;
  bShmUnreliable : Z;
  szPage : Z;
  iReCksum : Z;
  nCkpt : Z;
  iCallback : Z;
  mxWalSize : Z;
  truncateOnCommit : bool;
  syncHeader : bool;
  padToSectorBoundary : bool
}.

Definition set_pages (w : Wal) (pages : gmap Z wi_page) : Wal :=
  mkWal pages (live w) (ckpt w) (hdr w) (minFrame w) (readLock w) (bShmUnreliable w) (szPage w)
    (iReCksum w) (nCkpt w) (iCallback w) (mxWalSize w) (truncateOnCommit w) (syncHeader w) (padToSectorBoundary w).
Definition set_live (w : Wal) (h : WalIndexHdr) : Wal :=
  mkWal (apWiData w) h (ckpt w) (hdr w) (minFrame w) (readLock w) (bShmUnreliable w) (szPage w)
    (iReCksum w) (nCkpt w) (iCallback w) (mxWalSize w) (truncateOnCommit w) (syncHeader w) (padToSectorBoundary w).
Definition set_ckpt (w : Wal) (c : WalCkptInfo) : Wal :=
  mkWal (apWiData w) (live w) c (hdr w) (minFrame w) (readLock w) (bShmUnreliable w) (szPage w)
    (iReCksum w) (nCkpt w) (iCallback w) (mxWalSize w) (truncateOnCommit w) (syncHeader w) (padToSectorBoundary w).
Definition set_hdr (w : Wal) (h : WalIndexHdr) : Wal :=
  mkWal (apWiData w) (live w) (ckpt w) h (minFrame w) (readLock w) (bShmUnreliable w) (szPage w)
    (iReCksum w) (nCkpt w) (iCallback w) (mxWalSize w) (truncateOnCommit w) (syncHeader w) (padToSectorBoundary w).
Definition set_szPage (w : Wal) (sz : Z) : Wal :=
  mkWal (apWiData w) (live w) (ckpt w) (hdr w) (minFrame w) (readLock w) (bShmUnreliable w) sz
    (iReCksum w) (nCkpt w) (iCallback w) (mxWalSize w) (truncateOnCommit w) (syncHeader w) (padToSectorBoundary w).
Definition set_recksum (w : Wal) (i : Z) : Wal :=
  mkWal (apWiData w) (live w) (ckpt w) (hdr w) (minFrame w) (readLock w) (bShmUnreliable w) (szPage w)
    i (nCkpt w) (iCallback w) (mxWalSize w) (truncateOnCommit w) (syncHeader w) (padToSectorBoundary w).
Definition set_nCkpt (w : Wal) (n : Z) : Wal :=
  mkWal (apWiData w) (live w) (ckpt w) (hdr w) (minFrame w) (readLock w) (bShmUnreliable w) (szPage w)
    (iReCksum w) n (iCallback w) (mxWalSize w) (truncateOnCommit w) (syncHeader w) (padToSectorBoundary w).
Definition set_callback (w : Wal) (i : Z) : Wal :=
  mkWal (apWiData w) (live w) (ckpt w) (hdr w) (minFrame w) (readLock w) (bShmUnreliable w) (szPage w)
    (iReCksum w) (nCkpt w) i (mxWalSize w) (truncateOnCommit w) (syncHeader w) (padToSectorBoundary w).
Definition set_truncate (w : Wal) (b : bool) : Wal :=
  mkWal (apWiData w) (live w) (ckpt w) (hdr w) (minFrame w) (readLock w) (bShmUnreliable w) (szPage w)
    (iReCksum w) (nCkpt w) (iCallback w) (mxWalSize w) b (syncHeader w) (padToSectorBoundary w).
Definition set_mx (h : WalIndexHdr) (mx : Z) (ck : Z * Z) : WalIndexHdr :=
  mkHdr (iChange h) (bigEndCksum h) (h_szPage h) mx (nPage h) ck (aSalt h).

Definition cell (a : gmap Z Z) (i : Z) : Z := default 0 (a !! i).
Definition no_page : wi_page := mkPage ∅ ∅.

(** ** Hashing *)

Definition walHash (iPage : Z) : Z := Z.land (u32 (iPage * HASHTABLE_HASH_1)) (HASHTABLE_NSLOT - 1).
Definition walNextHash (iPriorHash : Z) : Z := Z.land (iPriorHash + 1) (HASHTABLE_NSLOT - 1).

Definition walFramePage (iFrame : Z) : Z :=
  (iFrame + HASHTABLE_NPAGE - HASHTABLE_NPAGE_ONE - 1) / HASHTABLE_NPAGE.

Section wal.
Context (map_page : Z -> Z).

Definition walIndexPage (w : Wal) (iPage : Z) : Z + wi_page :=
  if map_page iPage =? SQLITE_OK then inr (default no_page (apWiData w !! iPage)) else inl (map_page iPage).

(** The page and [iZero]. *)
Definition walHashGet (w : Wal) (iHash : Z) : Z + (wi_page * Z) :=
  match walIndexPage w iHash with
  | inl rc => inl rc
  | inr p => inr (p, if iHash =? 0 then 0 else HASHTABLE_NPAGE_ONE + (iHash - 1) * HASHTABLE_NPAGE)
  end.

Definition walFramePgno (w : Wal) (iFrame : Z) : Z :=
  let iHash := walFramePage iFrame in
  let p := default no_page (apWiData w !! iHash) in
  if iHash =? 0 then cell (aPgno p) (iFrame - 1)
  else cell (aPgno p) ((iFrame - 1 - HASHTABLE_NPAGE_ONE) mod HASHTABLE_NPAGE).

(** ** Removing entries *)

Definition walCleanupHash (w : Wal) : Wal :=
  let mx := mxFrame (hdr w) in
  if mx =? 0 then w
  else match walHashGet w (walFramePage mx) with
  | inl _ => w
  | inr (p, iZero) =>
      let iLimit := mx - iZero in
      let p' := mkPage (filter (fun e => e.1 < iLimit) (aPgno p)) (filter (fun e => e.2 <= iLimit) (aHash p)) in
      set_pages w (<[walFramePage mx := p']> (apWiData w))
  end.

(** ** Adding a frame *)

(** [for(iKey=...; aHash[iKey]; iKey=walNextHash(iKey)){ if( (nCollide--)==0 ) return }] *)
Fixpoint free_slot (aHash : gmap Z Z) (nCollide : nat) (iKey : Z) : option Z :=
  if cell aHash iKey =? 0 then Some iKey
  else match nCollide with
       | O => None
       | S nCollide => free_slot aHash nCollide (walNextHash iKey)
       end.

Definition walIndexAppend (w : Wal) (iFrame iPage : Z) : Z * Wal :=
  let iHash := walFramePage iFrame in
  match walHashGet w iHash with
  | inl rc => (rc, w)
  | inr (p, iZero) =>
      let idx := iFrame - iZero in
      let w := if idx =? 1 then set_pages w (<[iHash := no_page]> (apWiData w)) else w in
      let p := if idx =? 1 then no_page else p in
      let w := if negb (cell (aPgno p) (idx - 1) =? 0) then walCleanupHash w else w in
      let p := default no_page (apWiData w !! iHash) in
      match free_slot (aHash p) (Z.to_nat idx) (walHash iPage) with
      | None => (SQLITE_CORRUPT, w)
      | Some iKey =>
          let p := mkPage (<[Z.land (idx - 1) (HASHTABLE_NPAGE - 1) := iPage]> (aPgno p)) (<[iKey := u16 idx]> (aHash p)) in
          (SQLITE_OK, set_pages w (<[iHash := p]> (apWiData w)))
      end
  end.

(** ** Finding a page *)

(** The loop over one table: [None] is corruption. *)
Fixpoint find_in_table (w : Wal) (p : wi_page) (iZero pgno iLast : Z) (nCollide : nat) (iKey iRead : Z) : option Z :=
  let iH := cell (aHash p) iKey in
  if iH =? 0 then Some iRead
  else
    let iFrame := iH + iZero in
    let iRead :=
      if (iFrame <=? iLast) && (minFrame w <=? iFrame)
         && (cell (aPgno p) (Z.land (iH - 1) (HASHTABLE_NPAGE - 1)) =? pgno)
      then iFrame else iRead in
    match nCollide with
    | O => None
    | S nCollide => find_in_table w p iZero pgno iLast nCollide (walNextHash iKey) iRead
    end.

(** [n] tables from [iHash] down. *)
Fixpoint find_tables (w : Wal) (pgno iLast : Z) (n : nat) (iHash iRead : Z) : Z * Z :=
  match n with
  | O => (SQLITE_OK, iRead)
  | S n =>
      match walHashGet w iHash with
      | inl rc => (rc, iRead)
      | inr (p, iZero) =>
          match find_in_table w p iZero pgno iLast (Z.to_nat HASHTABLE_NSLOT) (walHash pgno) iRead with
          | None => (SQLITE_CORRUPT, 0)
          | Some iRead => if negb (iRead =? 0) then (SQLITE_OK, iRead) else find_tables w pgno iLast n (iHash - 1) iRead
          end
      end
  end.

(** The code and [*piRead]. *)
Definition walFindFrame (w : Wal) (pgno : Z) : Z * Z :=
  let iLast := mxFrame (hdr w) in
  if (iLast =? 0) || ((readLock w =? 0) && (bShmUnreliable w =? 0)) then (SQLITE_OK, 0)
  else
    let iMinHash := walFramePage (minFrame w) in
    let iHash := walFramePage iLast in
    find_tables w pgno iLast (Z.to_nat (iHash - iMinHash + 1)) iHash 0.

(** The search without the hash tables that [SQLITE_ENABLE_EXPENSIVE_ASSERT] compares with, from
    frame [n] down. *)
Fixpoint linear_find (w : Wal) (pgno : Z) (n : nat) : Z :=
  match n with
  | O => 0
  | S n' =>
      let iTest := Z.of_nat n in
      if minFrame w <=? iTest then if walFramePgno w iTest =? pgno then iTest else linear_find w pgno n' else 0
  end.

(** ** Going back *)

(** [xUndo] is called for the frames of the transaction until it fails; the pages it was given. *)
Fixpoint undo_loop (xUndo : Z -> Z) (w : Wal) (n : nat) (iFrame : Z) : Z * list Z :=
  match n with
  | O => (SQLITE_OK, [])
  | S n =>
      let pgno := walFramePgno w iFrame in
      if xUndo pgno =? SQLITE_OK then
        let '(rc, pages) := undo_loop xUndo w n (iFrame + 1) in (rc, pgno :: pages)
      else (xUndo pgno, [pgno])
  end.

Definition sqlite3WalUndo (xUndo : Z -> Z) (w : Wal) : Z * list Z * Wal :=
  let iMax := mxFrame (hdr w) in
  let w := set_hdr w (live w) in
  let '(rc, pages) := undo_loop xUndo w (Z.to_nat (iMax - mxFrame (hdr w))) (mxFrame (hdr w) + 1) in
  let w := if negb (iMax =? mxFrame (hdr w)) then walCleanupHash w else w in
  (rc, pages, set_recksum w 0).

(** The four words of a savepoint. *)
Record savepoint := mkSave { sp_mxFrame : Z; sp_cksum : Z * Z; sp_nCkpt : Z }.

Definition sqlite3WalSavepoint (w : Wal) : savepoint :=
  mkSave (mxFrame (hdr w)) (aFrameCksum (hdr w)) (nCkpt w).

Definition sqlite3WalSavepointUndo (w : Wal) (aWalData : savepoint) : Wal * savepoint :=
  let sp := if negb (sp_nCkpt aWalData =? nCkpt w) then mkSave 0 (sp_cksum aWalData) (nCkpt w) else aWalData in
  if sp_mxFrame sp <? mxFrame (hdr w) then
    let w := walCleanupHash (set_hdr w (set_mx (hdr w) (sp_mxFrame sp) (sp_cksum sp))) in
    (if mxFrame (hdr w) <? iReCksum w then set_recksum w 0 else w, sp)
  else (w, sp).

(** ** Writing frames: the index *)

(** The pages [l] as the frames after [iFrame], until one fails: the code and the last frame. *)
Fixpoint append_frames (w : Wal) (iFrame : Z) (l : list Z) : Z * Z * Wal :=
  match l with
  | [] => (SQLITE_OK, iFrame, w)
  | pgno :: l =>
      let '(rc, w) := walIndexAppend w (iFrame + 1) pgno in
      if rc =? SQLITE_OK then append_frames w (iFrame + 1) l else (rc, iFrame + 1, w)
  end.

(** The header after the frames were entered, shared when they are a commit. *)
Definition frames_written (w : Wal) (iFrame : Z) (isCommit : bool) (nTruncate sz : Z) : Wal :=
  let h := hdr w in
  let h := mkHdr (if isCommit then u32 (iChange h + 1) else iChange h) (bigEndCksum h)
                 (u16 (Z.lor (Z.land sz 0xff00) (Z.shiftr sz 16))) iFrame
                 (if isCommit then nTruncate else nPage h) (aFrameCksum h) (aSalt h) in
  let w := set_hdr w h in
  if isCommit then set_callback (set_live w h) iFrame else w.

(** The end of [walFrames]: a page of the list has its number and whether it was appended
    ([PGHDR_WAL_APPEND]); [nExtra] copies of [pLast] pad the log. *)
Definition walFrames_index (w : Wal) (pList : list (Z * bool)) (pLast : Z) (nExtra : nat) (isCommit : bool) (nTruncate sz : Z) : Z * Wal :=
  let '(rc, iFrame, w) := append_frames w (mxFrame (hdr w)) (map fst (List.filter snd pList)) in
  let '(rc, iFrame, w) := if rc =? SQLITE_OK then append_frames w iFrame (repeat pLast nExtra) else (rc, iFrame, w) in
  if rc =? SQLITE_OK then (SQLITE_OK, frames_written w iFrame isCommit nTruncate sz) else (rc, w).

(** Starting the log over; [salt1] is the four random bytes. *)
Definition walRestartHdr (w : Wal) (salt1 : list Z) : Wal :=
  let h := hdr w in
  let h := mkHdr (iChange h) (bigEndCksum h) (h_szPage h) 0 (nPage h) (aFrameCksum h)
                 (sqlite3Put4byte (u32 (1 + sqlite3Get4byte (aSalt h))) ++ salt1) in
  let w := set_live (set_hdr (set_nCkpt w (u32 (nCkpt w + 1))) h) h in
  set_ckpt w (mkCkpt 0 (zat (aReadMark (ckpt w)) 0 :: 0 :: repeat READMARK_NOT_USED (Z.to_nat (WAL_NREADER - 2))) 0).

End wal.

Definition hdr0 : WalIndexHdr := mkHdr 0 0 0 0 0 (0, 0) [].
Definition wal0 : Wal := mkWal ∅ hdr0 (mkCkpt 0 [0; 0; 0; 0; 0] 0) hdr0 1 1 0 4096 0 0 0 (-1) false true true.
Definition maps : Z -> Z := fun _ => SQLITE_OK.
Definition append_all (w : Wal) (l : list Z) : Wal :=
  snd (fold_left (fun '(i, w) p => (i + 1, snd (walIndexAppend maps w i p))) l (1, w)).

(** Pages 5 and 8197 share a slot; the last frame of each page, also as seen from frame 3. *)
Example wal_1 : let w := append_all wal0 [5; 8197; 5; 7; 5] in
  map (walFindFrame maps (set_hdr w (set_mx hdr0 5 (0, 0)))) [5; 8197; 7; 9] = [(0, 5); (0, 2); (0, 4); (0, 0)] /\
  map (walFindFrame maps (set_hdr w (set_mx hdr0 3 (0, 0)))) [5; 8197; 7] = [(0, 3); (0, 2); (0, 0)].
Proof. split; vm_compute; reflexivity. Qed.

(** ** One table *)

(** The [k]-th slot probed from [h]. *)
Definition slot (h k : Z) : Z := (h + k) mod HASHTABLE_NSLOT.

(** A page of the index that holds the frames with pages [l]: every slot holds the number of a
    frame of the page or 0, no two the same, and each frame is reached from the hash of its
    page number through slots of earlier frames only. *)
Record table_ok (p : wi_page) (l : list Z) : Prop := {
  t_len : zlen l <= HASHTABLE_NPAGE;
  t_page : Forall (fun pg => 0 < pg < 2 ^ 32) l;
  t_pgno : forall j, 0 <= j < HASHTABLE_NPAGE -> cell (aPgno p) j = zat l j;
  t_vals : forall s, 0 <= s < HASHTABLE_NSLOT -> 0 <= cell (aHash p) s <= zlen l;
  t_inj : forall s s', 0 <= s < HASHTABLE_NSLOT -> 0 <= s' < HASHTABLE_NSLOT ->
    cell (aHash p) s = cell (aHash p) s' -> cell (aHash p) s <> 0 -> s = s';
  t_path : forall v, 1 <= v <= zlen l -> exists k, 0 <= k < HASHTABLE_NSLOT /\
    cell (aHash p) (slot (walHash (zat l (v - 1))) k) = v /\
    forall k', 0 <= k' < k -> 0 < cell (aHash p) (slot (walHash (zat l (v - 1))) k') < v
}.

(** *** Arithmetic of slots *)

Lemma land_mod x n : 0 <= n -> Z.land x (2 ^ n - 1) = x mod 2 ^ n.
Proof. intros Hn. rewrite <- Z.land_ones by done. f_equal. rewrite Z.ones_equiv. lia. Qed.

Lemma land_nslot x : Z.land x (HASHTABLE_NSLOT - 1) = x mod HASHTABLE_NSLOT.
Proof. apply (land_mod x 13). lia. Qed.

Lemma land_npage x : Z.land x (HASHTABLE_NPAGE - 1) = x mod HASHTABLE_NPAGE.
Proof. apply (land_mod x 12). lia. Qed.

Lemma slot_range h k : 0 <= slot h k < HASHTABLE_NSLOT.
Proof. apply Z.mod_pos_bound. done. Qed.

Lemma hash_range pg : 0 <= walHash pg < HASHTABLE_NSLOT.
Proof. unfold walHash. rewrite land_nslot. apply Z.mod_pos_bound. done. Qed.

Lemma slot_0 h : 0 <= h < HASHTABLE_NSLOT -> slot h 0 = h.
Proof. intros Hh. unfold slot. rewrite Z.add_0_r. by apply Z.mod_small. Qed.

Lemma next_slot h k : walNextHash (slot h k) = slot h (k + 1).
Proof. unfold walNextHash, slot. rewrite land_nslot, Zplus_mod_idemp_l. f_equal. lia. Qed.

Lemma slot_inj h a b : 0 <= a < HASHTABLE_NSLOT -> 0 <= b < HASHTABLE_NSLOT -> slot h a = slot h b -> a = b.
Proof.
  unfold slot, HASHTABLE_NSLOT, HASHTABLE_NPAGE. intros Ha Hb H.
  Z.to_euclidean_division_equations. lia.
Qed.

(** *** The table is never full *)

Lemma free_exists p l h : table_ok p l ->
  exists k, 0 <= k <= zlen l /\ cell (aHash p) (slot h k) = 0 /\
    forall k', 0 <= k' < k -> cell (aHash p) (slot h k') <> 0.
Proof.
  intros Ht. pose proof (t_len _ _ Ht) as Hlen. unfold HASHTABLE_NPAGE in Hlen.
  destruct (decide (Exists (fun k => cell (aHash p) (slot h (Z.of_nat k)) = 0) (seq 0 (S (length l))))) as [He|He].
  - set (n := length l) in *. assert (forall m, (m <= S n)%nat -> Exists (fun k => cell (aHash p) (slot h (Z.of_nat k)) = 0) (seq 0 m) ->
      exists k, (k < m)%nat /\ cell (aHash p) (slot h (Z.of_nat k)) = 0 /\ forall k', (k' < k)%nat -> cell (aHash p) (slot h (Z.of_nat k')) <> 0) as Hmin.
    { induction m as [|m IH]; intros Hm Hex; [by inversion Hex|]. rewrite seq_S in Hex. apply Exists_app in Hex.
      destruct (decide (Exists (fun k => cell (aHash p) (slot h (Z.of_nat k)) = 0) (seq 0 m))) as [Hy|Hn].
      - destruct (IH ltac:(lia) Hy) as (k & Hk & H1 & H2). exists k. split; [lia|done].
      - destruct Hex as [|Hex]; [done|]. apply Exists_cons in Hex as [Hex|Hex]; [|by inversion Hex]. cbn in Hex.
        exists m. split; [lia|]. split; [done|]. intros k' Hk' H0. apply Hn. apply Exists_exists. exists k'.
        split; [|done]. apply elem_of_seq. lia. }
    destruct (Hmin (S n) ltac:(lia) He) as (k & Hk & H1 & H2). exists (Z.of_nat k). unfold zlen. fold n.
    split; [lia|]. split; [done|]. intros k' Hk'. rewrite <- (Z2Nat.id k') by lia. apply H2. lia.
  - exfalso. apply not_Exists_Forall in He; [|apply _]. rewrite Forall_forall in He.
    set (f := fun k => Z.to_nat (cell (aHash p) (slot h (Z.of_nat k)))).
    assert (NoDup (map f (seq 0 (S (length l))))) as Hnd.
    { apply NoDup_fmap_2_strong; [|apply NoDup_seq]. intros a b Ha%elem_of_seq Hb%elem_of_seq Hab. unfold f in Hab.
      pose proof (t_vals _ _ Ht _ (slot_range h (Z.of_nat a))). pose proof (t_vals _ _ Ht _ (slot_range h (Z.of_nat b))).
      unfold zlen in Hlen.
      assert (slot h (Z.of_nat a) = slot h (Z.of_nat b)) as Hs.
      { apply (t_inj _ _ Ht); [apply slot_range..|lia|]. apply He, elem_of_seq. lia. }
      apply slot_inj in Hs; unfold HASHTABLE_NSLOT, HASHTABLE_NPAGE; lia. }
    apply NoDup_ListNoDup in Hnd. pose proof (NoDup_incl_length Hnd (l' := seq 1 (length l))) as Hle.
    rewrite length_map, !length_seq in Hle. enough (S (length l) <= length l)%nat by lia. apply Hle.
    intros x Hx%in_map_iff. destruct Hx as (k & <- & Hk%in_seq). apply in_seq. unfold f.
    pose proof (t_vals _ _ Ht _ (slot_range h (Z.of_nat k))) as Hv. unfold zlen in Hv.
    assert (cell (aHash p) (slot h (Z.of_nat k)) <> 0) by (apply He, elem_of_seq; lia). lia.
Qed.

(** *** Adding to a table *)

Lemma free_slot_at a h k n j :
  0 <= j <= k -> k - j <= Z.of_nat n -> (forall k', 0 <= k' < k -> cell a (slot h k') <> 0) -> cell a (slot h k) = 0 ->
  free_slot a n (slot h j) = Some (slot h k).
Proof.
  revert j. induction n as [|n IH]; intros j Hj Hn Hb He; cbn [free_slot].
  - assert (j = k) as -> by lia. by rewrite He.
  - destruct (Z.eq_dec j k) as [->|]; [by rewrite He|].
    rewrite (proj2 (Z.eqb_neq _ _) (Hb j ltac:(lia))), next_slot. apply IH; [lia..|done|done].
Qed.

Lemma cell_insert a i v j : cell (<[i := v]> a) j = if decide (i = j) then v else cell a j.
Proof. unfold cell. rewrite lookup_insert. by destruct (decide (i = j)). Qed.

Lemma zat_snoc l x j : 0 <= j -> zat (l ++ [x]) j = if decide (j = zlen l) then x else zat l j.
Proof.
  intros Hj. unfold zat, zlen. destruct (decide _) as [->|Hne].
  - rewrite Nat2Z.id, app_nth2, Nat.sub_diag by lia. done.
  - destruct (decide (j < Z.of_nat (length l))); [by rewrite app_nth1 by lia|].
    rewrite !nth_overflow by (rewrite ?length_app; cbn [length]; lia). done.
Qed.

(** The new entry: the first free slot of its hash, and no earlier entry moves. *)
Lemma append_table p l pg k :
  table_ok p l -> zlen l < HASHTABLE_NPAGE -> 0 < pg < 2 ^ 32 -> 0 <= k <= zlen l ->
  cell (aHash p) (slot (walHash pg) k) = 0 -> (forall k', 0 <= k' < k -> cell (aHash p) (slot (walHash pg) k') <> 0) ->
  table_ok (mkPage (<[zlen l := pg]> (aPgno p)) (<[slot (walHash pg) k := zlen l + 1]> (aHash p))) (l ++ [pg]).
Proof.
  intros Ht Hlen Hpg Hk H0 Hb. pose proof (zlen_nonneg l). unfold HASHTABLE_NPAGE in *.
  assert (zlen (l ++ [pg]) = zlen l + 1) as Hl by (rewrite zlen_app; done).
  split; cbn [aPgno aHash].
  - unfold HASHTABLE_NPAGE. lia.
  - apply Forall_app. split; [apply (t_page _ _ Ht)|by constructor].
  - intros j Hj. rewrite cell_insert, zat_snoc by lia. do 2 destruct (decide _); try lia. by apply (t_pgno _ _ Ht).
  - intros s Hs. rewrite cell_insert. destruct (decide _); [lia|]. pose proof (t_vals _ _ Ht s Hs). lia.
  - intros s s' Hs Hs'. rewrite !cell_insert. pose proof (t_vals _ _ Ht s Hs). pose proof (t_vals _ _ Ht s' Hs').
    destruct (decide _) as [<-|], (decide _) as [<-|]; intros; try lia. by apply (t_inj _ _ Ht).
  - intros v Hv. rewrite Hl in Hv. rewrite zat_snoc by lia. destruct (decide (v - 1 = zlen l)) as [Hv'|Hv'].
    + exists k. split; [unfold HASHTABLE_NSLOT, HASHTABLE_NPAGE; lia|]. rewrite cell_insert, decide_True by done.
      split; [lia|]. intros k' Hk'. rewrite cell_insert. destruct (decide _) as [Hs|]; [rewrite Hs in H0; by destruct (Hb k' Hk')|].
      pose proof (t_vals _ _ Ht _ (slot_range (walHash pg) k')). specialize (Hb k' Hk'). lia.
    + destruct (t_path _ _ Ht v ltac:(lia)) as (k0 & Hk0 & Hc & Hp). exists k0. split; [done|].
      rewrite cell_insert. split; [destruct (decide _) as [Hs|]; [rewrite <- Hs, H0 in Hc; lia|done]|].
      intros k' Hk'. specialize (Hp k' Hk'). rewrite cell_insert. destruct (decide _) as [Hs|]; [rewrite <- Hs, H0 in Hp; lia|done].
Qed.

(** *** Cutting a table *)

Lemma cell_filter_lt a i j : cell (filter (fun e : Z * Z => e.1 < i) a) j = if decide (j < i) then cell a j else 0.
Proof.
  unfold cell. destruct (a !! j) as [v|] eqn:E.
  - destruct (decide (j < i)).
    + by rewrite (map_lookup_filter_Some_2 _ _ _ v).
    + rewrite map_lookup_filter_None_2; [done|]. right. intros x _. cbn. lia.
  - rewrite map_lookup_filter_None_2 by (by left). by destruct (decide _).
Qed.

Lemma cell_filter_le a i j : 0 <= i -> cell (filter (fun e : Z * Z => e.2 <= i) a) j = if decide (cell a j <= i) then cell a j else 0.
Proof.
  intros Hi. unfold cell. destruct (a !! j) as [v|] eqn:E; cbn.
  - destruct (decide (v <= i)).
    + by rewrite (map_lookup_filter_Some_2 _ _ _ v).
    + rewrite map_lookup_filter_None_2; [done|]. right. intros x Hx. rewrite Hx in E. simplify_eq. done.
  - rewrite map_lookup_filter_None_2 by (by left). by destruct (decide _).
Qed.

Lemma zlen_take {A} i (l : list A) : 0 <= i <= zlen l -> zlen (take (Z.to_nat i) l) = i.
Proof. unfold zlen. intros. rewrite length_take. lia. Qed.

Lemma cut_table p l i :
  table_ok p l -> 0 <= i <= zlen l ->
  table_ok (mkPage (filter (fun e => e.1 < i) (aPgno p)) (filter (fun e => e.2 <= i) (aHash p))) (take (Z.to_nat i) l).
Proof.
  intros Ht Hi. pose proof (zlen_take i l Hi) as Hl. split; cbn [aPgno aHash].
  - rewrite Hl. pose proof (t_len _ _ Ht). lia.
  - apply Forall_take, (t_page _ _ Ht).
  - intros j Hj. rewrite cell_filter_lt, zat_take by lia. destruct (decide _); [|done]. by apply (t_pgno _ _ Ht).
  - intros s Hs. rewrite cell_filter_le, Hl by lia. pose proof (t_vals _ _ Ht s Hs). destruct (decide _); lia.
  - intros s s' Hs Hs'. rewrite !cell_filter_le by lia. do 2 destruct (decide _); try lia. by apply (t_inj _ _ Ht).
  - intros v Hv. rewrite Hl in Hv. destruct (t_path _ _ Ht v ltac:(lia)) as (k & Hk & Hc & Hp).
    rewrite zat_take, decide_True by lia. exists k. split; [done|]. rewrite cell_filter_le, decide_True by lia. split; [done|].
    intros k' Hk'. specialize (Hp k' Hk'). rewrite cell_filter_le, decide_True by lia. done.
Qed.

Lemma empty_table : table_ok no_page [].
Proof.
  assert (forall s, cell ∅ s = 0) as Hc by (intros s; unfold cell; by rewrite lookup_empty).
  split; cbn [aPgno aHash no_page].
  - unfold zlen. cbn. discriminate.
  - constructor.
  - intros j _. rewrite Hc. unfold zat. by destruct (Z.to_nat j).
  - intros s _. by rewrite Hc.
  - intros s s' _ _ _. by rewrite Hc.
  - unfold zlen. cbn. lia.
Qed.

(** ** The whole index *)

(** The frame before the first one of page [h], and the frames of the log [L] that page holds. *)
Definition zero (h : Z) : Z := if h =? 0 then 0 else HASHTABLE_NPAGE_ONE + (h - 1) * HASHTABLE_NPAGE.
Definition chunk (h : Z) (L : list Z) : list Z := take (Z.to_nat (zero (h + 1) - zero h)) (zdrop (zero h) L).

(** The index holds the log whose frames have the page numbers [L]. *)
Definition indexes (pages : gmap Z wi_page) (L : list Z) : Prop :=
  forall h, 0 <= h -> chunk h L <> [] -> table_ok (default no_page (pages !! h)) (chunk h L).

Lemma zero_le h h' : 0 <= h <= h' -> zero h <= zero h'.
Proof. intros H. unfold zero. repeat case_if; breflect; change HASHTABLE_NPAGE_ONE with 4062; unfold HASHTABLE_NPAGE; lia. Qed.

Lemma zero_0 h : 0 <= h -> 0 <= zero h.
Proof. intros H. change 0 with (zero 0) at 1. apply zero_le. lia. Qed.

Lemma zero_step h : 0 <= h -> 1 <= zero (h + 1) - zero h <= HASHTABLE_NPAGE.
Proof. intros H. unfold zero. repeat case_if; breflect; change HASHTABLE_NPAGE_ONE with 4062; unfold HASHTABLE_NPAGE; lia. Qed.

Lemma framePage_iff i h : 1 <= i -> walFramePage i = h <-> 0 <= h /\ zero h < i <= zero (h + 1).
Proof.
  intros Hi. unfold walFramePage, zero. repeat case_if; breflect; change HASHTABLE_NPAGE_ONE with 4062; unfold HASHTABLE_NPAGE in *;
    Z.to_euclidean_division_equations; lia.
Qed.

Lemma framePage_in i : 1 <= i -> 0 <= walFramePage i /\ zero (walFramePage i) < i <= zero (walFramePage i + 1).
Proof. intros Hi. by apply framePage_iff. Qed.

Lemma framePage_mono i j : 1 <= i <= j -> walFramePage i <= walFramePage j.
Proof. intros H. unfold walFramePage. apply Z.div_le_mono; unfold HASHTABLE_NPAGE; lia. Qed.

Lemma zlen_chunk h L : 0 <= h -> zlen (chunk h L) = Z.max 0 (Z.min (zlen L) (zero (h + 1)) - zero h).
Proof.
  intros Hh. pose proof (zero_step h Hh). pose proof (zero_0 h Hh). unfold chunk.
  pose proof (zlen_zdrop (zero h) L ltac:(lia)) as Hd. unfold zlen in *. rewrite length_take. lia.
Qed.

Lemma zat_chunk h L j : 0 <= h -> 0 <= j < zero (h + 1) - zero h -> zat (chunk h L) j = zat L (zero h + j).
Proof. intros Hh Hj. unfold chunk. rewrite zat_take, decide_True, zat_zdrop by (try apply zero_0; lia). done. Qed.

Lemma list_ext_zat l l' : zlen l = zlen l' -> (forall j, 0 <= j < zlen l -> zat l j = zat l' j) -> l = l'.
Proof.
  unfold zlen. intros Hlen H. apply (nth_ext l l' 0 0); [lia|]. intros n Hn. specialize (H (Z.of_nat n) ltac:(lia)).
  unfold zat in H. by rewrite Nat2Z.id in H.
Qed.

Lemma chunk_nonempty h L : 0 <= h -> chunk h L <> [] <-> zero h < zlen L.
Proof.
  intros Hh. pose proof (zlen_chunk h L Hh) as Hl. pose proof (zero_step h Hh). split.
  - intros Hn. destruct (chunk h L); [done|]. rewrite zlen_cons in Hl. pose proof (zlen_nonneg l). lia.
  - intros Hz Hn. rewrite Hn in Hl. unfold zlen in Hl. cbn in Hl. unfold zlen in Hz. lia.
Qed.

Lemma chunk_take h L n : 0 <= h -> 0 <= n <= zlen L ->
  chunk h (take (Z.to_nat n) L) = take (Z.to_nat (Z.max 0 (Z.min (n - zero h) (zero (h + 1) - zero h)))) (chunk h L).
Proof.
  intros Hh Hn. pose proof (zero_step h Hh). pose proof (zero_0 h Hh). pose proof (zlen_chunk h L Hh) as Hc.
  pose proof (zlen_take n L ltac:(lia)) as Ht. pose proof (zlen_chunk h (take (Z.to_nat n) L) Hh) as Hc'. rewrite Ht in Hc'.
  apply list_ext_zat.
  - rewrite Hc', zlen_take by lia. lia.
  - intros j Hj. rewrite zat_take, zat_chunk, zat_take, zat_chunk by lia.
    do 2 destruct (decide _); try lia; done.
Qed.

Lemma indexes_nil pages : indexes pages [].
Proof. intros h Hh Hn. apply chunk_nonempty in Hn; [|done]. pose proof (zero_0 h Hh). unfold zlen in Hn. cbn in Hn. lia. Qed.

Lemma indexes_page pages L i : indexes pages L -> 1 <= i <= zlen L ->
  table_ok (default no_page (pages !! walFramePage i)) (chunk (walFramePage i) L).
Proof. intros H Hi. pose proof (framePage_in i ltac:(lia)). apply H; [lia|]. apply chunk_nonempty; lia. Qed.

(** ** What the operations do to it *)

Lemma walHashGet_ok map_page w h : map_page h = SQLITE_OK -> walHashGet map_page w h = inr (default no_page (apWiData w !! h), zero h).
Proof. intros H. unfold walHashGet, walIndexPage. by rewrite H. Qed.

(** The members other than the pages. *)
Definition same_rest (w w' : Wal) : Prop := w' = set_pages w (apWiData w').

Lemma cleanup_rest map_page w : same_rest w (walCleanupHash map_page w).
Proof.
  unfold same_rest, walCleanupHash. destruct (mxFrame (hdr w) =? 0); [by destruct w|].
  destruct (walHashGet map_page w (walFramePage (mxFrame (hdr w)))) as [|[p z]]; by destruct w.
Qed.

Lemma indexes_insert pages L L' h p :
  indexes pages L -> 0 <= h -> table_ok p (chunk h L') ->
  (forall h', 0 <= h' -> h' <> h -> chunk h' L' <> [] -> chunk h' L' = chunk h' L) ->
  indexes (<[h := p]> pages) L'.
Proof.
  intros HL Hh Hp Hrest h' Hh' Hn. destruct (Z.eq_dec h' h) as [->|Hne].
  - by rewrite lookup_insert_eq.
  - rewrite lookup_insert_ne by done. rewrite Hrest in Hn |- * by done. by apply HL.
Qed.

Lemma chunk_take_other h h' L n : 0 <= h' -> 0 <= n <= zlen L -> zero h < n <= zero (h + 1) -> h' <> h -> 0 <= h ->
  chunk h' (take (Z.to_nat n) L) <> [] -> chunk h' (take (Z.to_nat n) L) = chunk h' L.
Proof.
  intros Hh' Hn Hz Hne Hh He. apply chunk_nonempty in He; [|done]. rewrite zlen_take in He by lia.
  assert (h' < h) as Hlt.
  { destruct (Z.lt_ge_cases h' h); [done|]. pose proof (zero_le (h + 1) h' ltac:(lia)). lia. }
  pose proof (zero_le (h' + 1) h ltac:(lia)). pose proof (zero_step h' Hh'). pose proof (zlen_chunk h' L Hh').
  rewrite chunk_take by lia. apply take_ge. unfold zlen in *. lia.
Qed.

Lemma cleanup_spec map_page w L :
  indexes (apWiData w) L -> 0 <= mxFrame (hdr w) <= zlen L -> map_page (walFramePage (mxFrame (hdr w))) = SQLITE_OK ->
  indexes (apWiData (walCleanupHash map_page w)) (take (Z.to_nat (mxFrame (hdr w))) L).
Proof.
  intros HL Hmx Hmap. unfold walCleanupHash. set (mx := mxFrame (hdr w)) in *. destruct (mx =? 0) eqn:E; breflect.
  { rewrite E. apply indexes_nil. }
  destruct (framePage_in mx ltac:(lia)) as [Hh Hz]. set (h := walFramePage mx) in *.
  rewrite walHashGet_ok by done. cbn [set_pages apWiData]. apply indexes_insert with L; [done..| |].
  - rewrite chunk_take by lia. replace (Z.max 0 _) with (mx - zero h) by lia. apply cut_table.
    + apply indexes_page; [done|lia].
    + rewrite zlen_chunk by done. lia.
  - intros h' Hh' Hne He. by apply (chunk_take_other h).
Qed.

Lemma chunk_snoc_same L pg : let h := walFramePage (zlen L + 1) in chunk h (L ++ [pg]) = chunk h L ++ [pg].
Proof.
  intros h. pose proof (zlen_nonneg L). destruct (framePage_in (zlen L + 1) ltac:(lia)) as [Hh Hz]. fold h in Hh, Hz.
  pose proof (zero_0 h Hh). unfold chunk, zdrop. rewrite drop_app_le by (unfold zlen in *; lia). rewrite take_app_ge.
  - f_equal.
    + symmetry. apply take_ge. rewrite length_drop. unfold zlen in *. lia.
    + apply take_ge. rewrite length_drop. unfold zlen in *. cbn [length]. lia.
  - rewrite length_drop. unfold zlen in *. lia.
Qed.

Lemma chunk_snoc_other L pg h : 0 <= h -> h <> walFramePage (zlen L + 1) -> chunk h (L ++ [pg]) <> [] -> chunk h (L ++ [pg]) = chunk h L.
Proof.
  intros Hh Hne He. pose proof (zlen_nonneg L). destruct (framePage_in (zlen L + 1) ltac:(lia)) as [Hh0 Hz].
  set (h0 := walFramePage (zlen L + 1)) in *. apply chunk_nonempty in He; [|done].
  rewrite zlen_app in He. change (zlen [pg]) with 1 in He.
  assert (h < h0). { destruct (Z.lt_ge_cases h h0); [done|]. pose proof (zero_le (h0 + 1) h ltac:(lia)). lia. }
  pose proof (zero_le (h + 1) h0 ltac:(lia)). pose proof (zero_step h Hh). pose proof (zero_0 h Hh).
  unfold chunk, zdrop. rewrite drop_app_le by (unfold zlen in *; lia).
  apply take_app_le. rewrite length_drop. unfold zlen in *. lia.
Qed.

Lemma append_to_table p l pg : table_ok p l -> zlen l < HASHTABLE_NPAGE -> 0 < pg < 2 ^ 32 ->
  exists iKey, free_slot (aHash p) (Z.to_nat (zlen l + 1)) (walHash pg) = Some iKey /\
    table_ok (mkPage (<[Z.land (zlen l + 1 - 1) (HASHTABLE_NPAGE - 1) := pg]> (aPgno p)) (<[iKey := u16 (zlen l + 1)]> (aHash p))) (l ++ [pg]).
Proof.
  intros Ht Hl Hpg. pose proof (zlen_nonneg l). unfold HASHTABLE_NPAGE in Hl.
  destruct (free_exists p l (walHash pg) Ht) as (k & Hk & H0 & Hb). exists (slot (walHash pg) k). split.
  - rewrite <- (slot_0 (walHash pg)) at 1 by apply hash_range. apply free_slot_at; [lia..|done|done].
  - rewrite land_npage, Z.mod_small by (unfold HASHTABLE_NPAGE; lia).
    replace (zlen l + 1 - 1) with (zlen l) by lia.
    replace (u16 (zlen l + 1)) with (zlen l + 1) by (symmetry; apply Z.mod_small; change (2 ^ 16) with 65536; lia).
    by apply append_table.
Qed.

(** The page of the next frame just before the frame is entered: what an earlier writer left in
    it is gone. *)
Definition page_for (map_page : Z -> Z) (w : Wal) (iFrame : Z) : Wal :=
  let iHash := walFramePage iFrame in
  let w := if iFrame - zero iHash =? 1 then set_pages w (<[iHash := no_page]> (apWiData w)) else w in
  if negb (cell (aPgno (default no_page (apWiData w !! iHash))) (iFrame - zero iHash - 1) =? 0) then walCleanupHash map_page w else w.

Lemma walIndexAppend_eq map_page w iFrame pg : map_page (walFramePage iFrame) = SQLITE_OK ->
  walIndexAppend map_page w iFrame pg =
  let w := page_for map_page w iFrame in
  let idx := iFrame - zero (walFramePage iFrame) in
  let p := default no_page (apWiData w !! walFramePage iFrame) in
  match free_slot (aHash p) (Z.to_nat idx) (walHash pg) with
  | None => (SQLITE_CORRUPT, w)
  | Some iKey =>
      (SQLITE_OK, set_pages w (<[walFramePage iFrame :=
        mkPage (<[Z.land (idx - 1) (HASHTABLE_NPAGE - 1) := pg]> (aPgno p)) (<[iKey := u16 idx]> (aHash p))]> (apWiData w)))
  end.
Proof.
  intros H. unfold walIndexAppend, page_for. rewrite walHashGet_ok by done.
  destruct (iFrame - zero (walFramePage iFrame) =? 1) eqn:E; [|reflexivity].
  cbn [set_pages apWiData]. rewrite lookup_insert_eq. reflexivity.
Qed.

Lemma page_for_spec map_page w L n :
  (forall h, map_page h = SQLITE_OK) -> indexes (apWiData w) L -> 0 <= n <= zlen L -> n = zlen L \/ mxFrame (hdr w) = n ->
  let w' := page_for map_page w (n + 1) in
  same_rest w w' /\ indexes (apWiData w') (take (Z.to_nat n) L) /\
  table_ok (default no_page (apWiData w' !! walFramePage (n + 1))) (chunk (walFramePage (n + 1)) (take (Z.to_nat n) L)).
Proof.
  intros Hmap HL Hn Hor w'. destruct (framePage_in (n + 1) ltac:(lia)) as [Hh Hz]. set (h := walFramePage (n + 1)) in *.
  pose proof (zero_0 h Hh). pose proof (zlen_take n L ltac:(lia)) as Ht.
  unfold page_for in w'. fold h in w'. destruct (n + 1 - zero h =? 1) eqn:E; breflect.
  - replace (n + 1 - zero h - 1) with 0 in w' by lia.
    assert (w' = set_pages w (<[h := no_page]> (apWiData w))) as ->.
    { unfold w'. cbn [set_pages apWiData]. rewrite lookup_insert_eq. done. }
    cbn [set_pages apWiData]. assert (chunk h (take (Z.to_nat n) L) = []) as Hc.
    { destruct (decide (chunk h (take (Z.to_nat n) L) = [])) as [|Hx]; [done|]. apply chunk_nonempty in Hx; lia. }
    split; [done|]. rewrite lookup_insert_eq, Hc. split; [|apply empty_table].
    apply indexes_insert with L; [done..|by rewrite Hc; apply empty_table|].
    intros h' Hh' Hne He. pose proof (proj1 (chunk_nonempty _ _ Hh') He) as Hlt. rewrite Ht in Hlt.
    rewrite chunk_take in He |- * by lia. apply take_ge. pose proof (zlen_chunk h' L Hh'). pose proof (zero_step h' Hh').
    assert (h' < h). { destruct (Z.lt_ge_cases h' h); [done|]. pose proof (zero_le h h' ltac:(lia)). lia. }
    pose proof (zero_le (h' + 1) h ltac:(lia)). unfold zlen in *. lia.
  - assert (walFramePage n = h) as Hw by (apply framePage_iff; lia).
    pose proof (indexes_page _ _ n HL ltac:(lia)) as Htab. rewrite Hw in Htab.
    pose proof (zlen_chunk h L Hh) as Hc. pose proof (zero_step h Hh).
    destruct (Z.eq_dec n (zlen L)) as [->|Hlt].
    + assert (take (Z.to_nat (zlen L)) L = L) as -> by (apply take_ge; unfold zlen; lia).
      assert (w' = w) as ->.
      { unfold w'. rewrite (t_pgno _ _ Htab), zat_ge by (unfold HASHTABLE_NPAGE in *; lia). done. }
      split; [by destruct w|]. split; [done|]. done.
    + destruct Hor as [|Hmx]; [done|].
      assert (w' = walCleanupHash map_page w) as ->.
      { unfold w'. case_if; [done|]. breflect. exfalso. rewrite (t_pgno _ _ Htab), zat_chunk in * by lia.
        pose proof (t_page _ _ Htab) as Hf. rewrite Forall_forall in Hf.
        assert (zat (chunk h L) (n - zero h) ∈ chunk h L) as Hin.
        { apply list_elem_of_In, nth_In. unfold zlen in *. lia. }
        apply Hf in Hin. rewrite zat_chunk in Hin by lia. replace (zero h + (n + 1 - zero h - 1)) with (zero h + (n - zero h)) in * by lia. lia. }
      split; [apply cleanup_rest|]. pose proof (cleanup_spec map_page w L HL) as Hcl. rewrite Hmx in Hcl.
      specialize (Hcl Hn (Hmap _)). split; [done|]. rewrite <- Hw. apply indexes_page; [done|lia].
Qed.

(** Entering frame [n + 1] after the first [n] frames of the log, whatever the index still holds
    beyond them; when it holds more, the header of the connection must say [n]. *)
Lemma append_spec map_page w L n pg :
  (forall h, map_page h = SQLITE_OK) -> indexes (apWiData w) L -> 0 <= n <= zlen L -> n = zlen L \/ mxFrame (hdr w) = n ->
  0 < pg < 2 ^ 32 ->
  exists w', walIndexAppend map_page w (n + 1) pg = (SQLITE_OK, w') /\ same_rest w w' /\
    indexes (apWiData w') (take (Z.to_nat n) L ++ [pg]).
Proof.
  intros Hmap HL Hn Hor Hpg. destruct (page_for_spec map_page w L n Hmap HL Hn Hor) as (Hrest & HL' & Htab).
  rewrite walIndexAppend_eq by done. cbv zeta. set (w1 := page_for map_page w (n + 1)) in *.
  pose proof (zlen_take n L ltac:(lia)) as Ht. set (L' := take (Z.to_nat n) L) in *.
  destruct (framePage_in (n + 1) ltac:(lia)) as [Hh Hz]. rewrite <- Ht in Htab, Hz, Hh |- *.
  set (h := walFramePage (zlen L' + 1)) in *. pose proof (zlen_chunk h L' Hh) as Hc. pose proof (zero_step h Hh) as Hs.
  replace (zlen L' + 1 - zero h) with (zlen (chunk h L') + 1) by lia.
  destruct (append_to_table _ _ pg Htab ltac:(lia) Hpg) as (iKey & -> & Hnew).
  eexists. split; [reflexivity|]. split.
  - rewrite Hrest. by destruct w.
  - cbn [set_pages apWiData]. apply indexes_insert with L'; [done..| |].
    + unfold h. rewrite chunk_snoc_same. exact Hnew.
    + intros h' Hh' Hne. by apply chunk_snoc_other.
Qed.

(** ** What the reader finds *)

(** Entry [v] of a table is one the reader looks for. *)
Definition wanted (w : Wal) (l : list Z) (iZero pgno iLast v : Z) : Prop :=
  v + iZero <= iLast /\ minFrame w <= v + iZero /\ zat l (v - 1) = pgno.

(** The entries for one page number come in order along its probes, up to the first empty slot,
    and all of them come. *)
Lemma probes_in_order p l pgno k v : table_ok p l -> 0 <= k < HASHTABLE_NSLOT ->
  cell (aHash p) (slot (walHash pgno) k) = v -> v <> 0 -> zat l (v - 1) = pgno ->
  forall k', 0 <= k' < k -> 0 < cell (aHash p) (slot (walHash pgno) k') < v.
Proof.
  intros Ht Hk Hv Hnz Hpg. pose proof (t_vals _ _ Ht _ (slot_range (walHash pgno) k)).
  destruct (t_path _ _ Ht v ltac:(lia)) as (k0 & Hk0 & Hc & Hp). rewrite Hpg in Hc, Hp.
  assert (slot (walHash pgno) k0 = slot (walHash pgno) k) as Hs by (apply (t_inj _ _ Ht); [apply slot_range..|lia|lia]).
  apply slot_inj in Hs as ->; [exact Hp|done..].
Qed.

Lemma probes_all p l pgno K v : table_ok p l -> 0 <= K ->
  cell (aHash p) (slot (walHash pgno) K) = 0 -> 1 <= v <= zlen l -> zat l (v - 1) = pgno ->
  exists k, 0 <= k < K /\ cell (aHash p) (slot (walHash pgno) k) = v.
Proof.
  intros Ht HK H0 Hv <-. destruct (t_path _ _ Ht v Hv) as (k & Hk & Hc & Hp). exists k. split; [|done].
  destruct (Z.lt_trichotomy k K) as [|[->|]]; [lia|lia|]. specialize (Hp K ltac:(lia)). lia.
Qed.

Lemma find_in_table_loop w p l iZero pgno iLast K :
  table_ok p l -> K < HASHTABLE_NSLOT -> cell (aHash p) (slot (walHash pgno) K) = 0 ->
  (forall k, 0 <= k < K -> cell (aHash p) (slot (walHash pgno) k) <> 0) ->
  forall n j r, 0 <= j <= K -> K - j <= Z.of_nat n -> exists r',
    find_in_table w p iZero pgno iLast n (slot (walHash pgno) j) r = Some r' /\
    (r' = r \/ exists k, j <= k < K /\ let v := cell (aHash p) (slot (walHash pgno) k) in
        wanted w l iZero pgno iLast v /\ r' = v + iZero) /\
    (forall k, j <= k < K -> let v := cell (aHash p) (slot (walHash pgno) k) in
        wanted w l iZero pgno iLast v -> v + iZero <= r').
Proof.
  intros Ht HK H0 Hb. set (h := walHash pgno) in *. induction n as [|n IH]; intros j r Hj Hn; cbn [find_in_table].
  { assert (j = K) as -> by lia. rewrite H0. exists r. split; [done|]. split; [by left|]. intros; lia. }
  destruct (Z.eq_dec j K) as [->|Hne].
  { rewrite H0. exists r. split; [done|]. split; [by left|]. intros; lia. }
  set (v := cell (aHash p) (slot h j)). pose proof (Hb j ltac:(lia)) as Hv. fold v in Hv.
  pose proof (t_vals _ _ Ht _ (slot_range h j)) as Hr. fold v in Hr. pose proof (t_len _ _ Ht). unfold HASHTABLE_NPAGE in *.
  rewrite (proj2 (Z.eqb_neq v 0) Hv), next_slot.
  match goal with |- context [find_in_table _ _ _ _ _ _ _ (if ?b then _ else _)] => set (c := b) end.
  assert (c = true <-> wanted w l iZero pgno iLast v) as Hc.
  { unfold c, wanted. rewrite !andb_true_iff, !Z.leb_le, Z.eqb_eq, land_npage, Z.mod_small by (unfold HASHTABLE_NPAGE; lia).
    rewrite (t_pgno _ _ Ht) by (unfold HASHTABLE_NPAGE; lia). tauto. }
  destruct (IH (j + 1) (if c then v + iZero else r) ltac:(lia) ltac:(lia)) as (r' & Hf & Ho & Ha).
  exists r'. split; [exact Hf|]. split.
  - destruct Ho as [->|(k & Hk & Hx)]; [|right; exists k; split; [lia|done]].
    destruct c; [|by left]. right. exists j. split; [lia|]. split; [by apply Hc|done].
  - cbv zeta. intros k Hk Hw. destruct (Z.eq_dec k j) as [Hkj|Hkj]; [|by apply (Ha k ltac:(lia))].
    rewrite Hkj in Hw |- *. fold v in Hw |- *. assert (c = true) as Hct by (by apply Hc). rewrite Hct in Ho. destruct Ho as [->|(k' & Hk' & (_ & _ & Hpg) & ->)]; [lia|].
    pose proof (probes_in_order p l pgno k' _ Ht ltac:(lia) eq_refl (Hb k' ltac:(lia)) Hpg j ltac:(lia)) as Hlt.
    fold h v in Hlt. lia.
Qed.

(** [r] is the last frame of [pgno] among the frames [lo .. hi], or 0 when there is none. *)
Definition is_last (L : list Z) (pgno lo hi r : Z) : Prop :=
  (r = 0 /\ forall i, lo <= i <= hi -> zat L (i - 1) <> pgno) \/
  (lo <= r <= hi /\ zat L (r - 1) = pgno /\ forall i, r < i <= hi -> zat L (i - 1) <> pgno).

Lemma find_in_table_spec w pages L h pgno iLast :
  indexes pages L -> 0 <= h -> zero h < iLast <= zlen L -> 1 <= minFrame w ->
  exists r, find_in_table w (default no_page (pages !! h)) (zero h) pgno iLast (Z.to_nat HASHTABLE_NSLOT) (walHash pgno) 0 = Some r /\
    is_last L pgno (Z.max (minFrame w) (zero h + 1)) (Z.min iLast (zero (h + 1))) r.
Proof.
  intros HL Hh Hlast Hmin. assert (table_ok (default no_page (pages !! h)) (chunk h L)) as Ht by (apply HL; [done|]; apply chunk_nonempty; lia).
  set (p := default no_page (pages !! h)) in *. set (l := chunk h L) in *.
  pose proof (zlen_chunk h L Hh) as Hc. fold l in Hc. pose proof (zero_step h Hh) as Hs. pose proof (zero_0 h Hh).
  destruct (free_exists p l (walHash pgno) Ht) as (K & HK & H0 & Hb). unfold HASHTABLE_NPAGE in *.
  destruct (find_in_table_loop w p l (zero h) pgno iLast K Ht) with (n := Z.to_nat HASHTABLE_NSLOT) (j := 0) (r := 0)
    as (r & Hf & Ho & Ha); [unfold HASHTABLE_NSLOT, HASHTABLE_NPAGE in *; lia|done|done|lia| unfold HASHTABLE_NSLOT, HASHTABLE_NPAGE in *; lia|].
  rewrite slot_0 in Hf by apply hash_range. exists r. split; [exact Hf|].
  assert (forall i, Z.max (minFrame w) (zero h + 1) <= i <= Z.min iLast (zero (h + 1)) -> zat L (i - 1) = pgno -> i <= r) as Hmax.
  { intros i Hi Hpg. assert (zat l (i - zero h - 1) = pgno) as Hpg'.
    { unfold l. rewrite zat_chunk by lia. rewrite <- Hpg. f_equal. lia. }
    destruct (probes_all p l pgno K (i - zero h) Ht ltac:(lia) H0 ltac:(lia) Hpg') as (k & Hk & Hv).
    specialize (Ha k ltac:(lia)). cbv zeta in Ha. rewrite Hv in Ha. unfold wanted in Ha.
    replace i with (i - zero h + zero h) by lia. apply Ha. split; [lia|]. split; [lia|done]. }
  destruct Ho as [->|(k & Hk & (H1 & H2 & H3) & ->)].
  - left. split; [done|]. intros i Hi Hpg. specialize (Hmax i Hi Hpg). lia.
  - right. pose proof (t_vals _ _ Ht _ (slot_range (walHash pgno) k)) as Hv. specialize (Hb k ltac:(lia)).
    set (v := cell (aHash p) (slot (walHash pgno) k)) in *.
    split; [lia|]. split; [|intros i Hi Hpg; specialize (Hmax i ltac:(lia) Hpg); lia].
    unfold l in H3. rewrite zat_chunk in H3 by lia. rewrite <- H3. f_equal. lia.
Qed.

Lemma find_tables_spec map_page w L pgno iLast :
  (forall h, map_page h = SQLITE_OK) -> indexes (apWiData w) L -> iLast <= zlen L -> 1 <= minFrame w ->
  forall n h, Z.of_nat n <= h + 1 -> (n = O \/ zero h < iLast) -> exists r,
    find_tables map_page w pgno iLast n h 0 = (SQLITE_OK, r) /\
    is_last L pgno (Z.max (minFrame w) (zero (h + 1 - Z.of_nat n) + 1)) (Z.min iLast (zero (h + 1))) r.
Proof.
  intros Hmap HL Hlast Hmin. induction n as [|n IH]; intros h Hn Hz; cbn [find_tables].
  - exists 0. split; [done|]. left. split; [done|]. intros i Hi. rewrite Z.sub_0_r in Hi. lia.
  - destruct Hz as [|Hz]; [done|]. rewrite walHashGet_ok by done.
    destruct (find_in_table_spec w (apWiData w) L h pgno iLast HL ltac:(lia) ltac:(lia) Hmin) as (r1 & -> & H1).
    pose proof (zero_le (h + 1 - Z.of_nat (S n)) h ltac:(lia)). pose proof (zero_step h ltac:(lia)).
    destruct (r1 =? 0) eqn:E; breflect; cbn [negb].
    + rewrite E. assert (n = O \/ zero (h - 1) < iLast) as Hz'.
      { destruct n; [by left|]. right. pose proof (zero_le (h - 1) h ltac:(lia)). lia. }
      destruct (IH (h - 1) ltac:(lia) Hz') as (r & Hf & Hr). exists r. split; [exact Hf|].
      replace (h - 1 + 1 - Z.of_nat n) with (h + 1 - Z.of_nat (S n)) in Hr by lia. replace (h - 1 + 1) with h in Hr by lia.
      destruct H1 as [[_ H1]|[? _]]; [|lia]. destruct Hr as [[-> Hr]|(Hr & Hpg & Hno)].
      * left. split; [done|]. intros i Hi. destruct (Z.le_gt_cases i (zero h)); [apply Hr|apply H1]; lia.
      * right. split; [lia|]. split; [done|]. intros i Hi. destruct (Z.le_gt_cases i (zero h)); [apply Hno|apply H1]; lia.
    + exists r1. split; [done|]. destruct H1 as [[? _]|(Hr & Hpg & Hno)]; [done|]. right. split; [lia|]. by split.
Qed.

Lemma walFindFrame_spec map_page w L pgno :
  (forall h, map_page h = SQLITE_OK) -> indexes (apWiData w) L -> 0 <= mxFrame (hdr w) <= zlen L -> 1 <= minFrame w -> readLock w <> 0 ->
  exists r, walFindFrame map_page w pgno = (SQLITE_OK, r) /\ is_last L pgno (minFrame w) (mxFrame (hdr w)) r.
Proof.
  intros Hmap HL Hlast Hmin Hlock. unfold walFindFrame. rewrite (proj2 (Z.eqb_neq _ _) Hlock), andb_false_l, orb_false_r.
  set (iLast := mxFrame (hdr w)) in *. destruct (iLast =? 0) eqn:E; breflect.
  { exists 0. split; [done|]. left. split; [done|]. intros i Hi. lia. }
  destruct (framePage_in iLast ltac:(lia)) as [Hh Hz]. destruct (framePage_in (minFrame w) Hmin) as [Hm Hmz].
  set (h := walFramePage iLast) in *. set (m := walFramePage (minFrame w)) in *.
  destruct (find_tables_spec map_page w L pgno iLast Hmap HL ltac:(lia) Hmin (Z.to_nat (h - m + 1)) h ltac:(lia) ltac:(right; lia)) as (r & Hf & Hr).
  exists r. split; [exact Hf|]. replace (Z.min iLast (zero (h + 1))) with iLast in Hr by lia.
  destruct (Z.le_gt_cases m h).
  - replace (h + 1 - Z.of_nat (Z.to_nat (h - m + 1))) with m in Hr by lia.
    by replace (Z.max (minFrame w) (zero m + 1)) with (minFrame w) in Hr by lia.
  - assert (iLast < minFrame w).
    { destruct (Z.lt_ge_cases iLast (minFrame w)); [done|]. pose proof (framePage_mono (minFrame w) iLast ltac:(lia)). lia. }
    destruct Hr as [[-> Hr]|(Hr & _)]; [|lia]. left. split; [done|]. intros i Hi. lia.
Qed.

(** ** Against the search without hash tables *)

Lemma walFramePgno_spec w L i : indexes (apWiData w) L -> 1 <= i <= zlen L -> walFramePgno w i = zat L (i - 1).
Proof.
  intros HL Hi. pose proof (indexes_page _ _ i HL Hi) as Ht. destruct (framePage_in i ltac:(lia)) as [Hh Hz].
  unfold walFramePgno. set (h := walFramePage i) in *. pose proof (zero_step h Hh) as Hs. pose proof (zero_0 h Hh).
  transitivity (cell (aPgno (default no_page (apWiData w !! h))) (i - 1 - zero h)).
  - destruct (h =? 0) eqn:E; breflect.
    + rewrite E. f_equal. change (zero 0) with 0. lia.
    + f_equal. assert (zero h = HASHTABLE_NPAGE_ONE + (h - 1) * HASHTABLE_NPAGE) as Hzh by (unfold zero; by rewrite (proj2 (Z.eqb_neq h 0))).
      unfold HASHTABLE_NPAGE in *. Z.to_euclidean_division_equations. lia.
  - rewrite (t_pgno _ _ Ht), zat_chunk by lia. f_equal. lia.
Qed.

Lemma is_last_unique L pgno lo hi r r' : 1 <= lo -> is_last L pgno lo hi r -> is_last L pgno lo hi r' -> r = r'.
Proof.
  intros Hlo [[-> H]|(H1 & H2 & H3)] [[-> H']|(H1' & H2' & H3')]; [done| | |].
  - destruct (H r' ltac:(lia) H2').
  - destruct (H' r ltac:(lia) H2).
  - destruct (Z.lt_trichotomy r r') as [|[|]]; [|done|]; [destruct (H3 r' ltac:(lia) H2')|destruct (H3' r ltac:(lia) H2)].
Qed.

Lemma linear_find_spec w L pgno n : indexes (apWiData w) L -> Z.of_nat n <= zlen L -> 1 <= minFrame w ->
  is_last L pgno (minFrame w) (Z.of_nat n) (linear_find w pgno n).
Proof.
  intros HL Hn Hmin. induction n as [|n IH]; cbn [linear_find].
  { left. split; [done|]. intros i Hi. lia. }
  specialize (IH ltac:(lia)). destruct (minFrame w <=? Z.of_nat (S n)) eqn:E; breflect.
  - rewrite (walFramePgno_spec w L) by (done || lia). destruct (zat L (Z.of_nat (S n) - 1) =? pgno) eqn:E2; breflect.
    + right. split; [lia|]. split; [done|]. intros i Hi. lia.
    + destruct IH as [[-> IH]|(H1 & H2 & H3)].
      * left. split; [done|]. intros i Hi. destruct (Z.eq_dec i (Z.of_nat (S n))) as [->|]; [done|]. apply IH. lia.
      * right. split; [lia|]. split; [done|]. intros i Hi. destruct (Z.eq_dec i (Z.of_nat (S n))) as [->|]; [done|]. apply H3. lia.
  - left. split; [done|]. intros i Hi. lia.
Qed.

(** ** The log the index stands for

    The frames of the log in order, by page, and how many of them are committed. *)
Record log := mkLog { frames : list Z; committed : Z }.

Inductive wal_op :=
  | WriteFrames (pList : list (Z * bool)) (pLast : Z) (nExtra : nat) (isCommit : bool) (nTruncate sz : Z)
  | Rollback
  | RollbackTo (sp : savepoint)
  | Crash
  | RestartLog (salt1 : list Z).

(** A connection that finds the log after a writer died starts from the shared header, and
    leaves in the index what the writer had put there. *)
Definition wal_do (map_page : Z -> Z) (op : wal_op) (w : Wal) : Z * Wal :=
  match op with
  | WriteFrames pList pLast nExtra isCommit nTruncate sz => walFrames_index map_page w pList pLast nExtra isCommit nTruncate sz
  | Rollback => let '(rc, _, w) := sqlite3WalUndo map_page (fun _ => SQLITE_OK) w in (rc, w)
  | RollbackTo sp => (SQLITE_OK, fst (sqlite3WalSavepointUndo map_page w sp))
  | Crash => (SQLITE_OK, set_hdr w (live w))
  | RestartLog salt1 => (SQLITE_OK, walRestartHdr w salt1)
  end.

(** The frame a savepoint stands for: it was taken before the log started over, or after. *)
Definition target (w : Wal) (sp : savepoint) : Z := if sp_nCkpt sp =? nCkpt w then sp_mxFrame sp else 0.

Definition written (pList : list (Z * bool)) (pLast : Z) (nExtra : nat) : list Z :=
  map fst (List.filter snd pList) ++ repeat pLast nExtra.

Definition log_do (w : Wal) (op : wal_op) (a : log) : log :=
  match op with
  | WriteFrames pList pLast nExtra isCommit _ _ =>
      let F := frames a ++ written pList pLast nExtra in mkLog F (if isCommit then zlen F else committed a)
  | Rollback | Crash => mkLog (take (Z.to_nat (committed a)) (frames a)) (committed a)
  | RollbackTo sp => mkLog (take (Z.to_nat (target w sp)) (frames a)) (committed a)
  | RestartLog _ => mkLog [] 0
  end.

(** When an operation is called: pages have numbers, a savepoint is not before the transaction
    and not after its end, and only a log without uncommitted frames starts over. *)
Definition wal_can (w : Wal) (a : log) (op : wal_op) : Prop :=
  match op with
  | WriteFrames pList pLast nExtra _ _ _ => Forall (fun pg => 0 < pg < 2 ^ 32) (written pList pLast nExtra)
  | Rollback | Crash => True
  | RollbackTo sp => committed a <= target w sp <= zlen (frames a)
  | RestartLog _ => committed a = zlen (frames a)
  end.

Definition implements (w : Wal) (a : log) : Prop := exists L,
  indexes (apWiData w) L /\ frames a = take (Z.to_nat (mxFrame (hdr w))) L /\
  committed a = mxFrame (live w) /\ 0 <= mxFrame (live w) <= mxFrame (hdr w) /\ mxFrame (hdr w) <= zlen L.

Fixpoint run_ops (map_page : Z -> Z) (ops : list wal_op) (w : Wal) : Z * Wal :=
  match ops with
  | [] => (SQLITE_OK, w)
  | op :: ops => let '(rc, w) := wal_do map_page op w in if rc =? SQLITE_OK then run_ops map_page ops w else (rc, w)
  end.

Fixpoint log_ops (map_page : Z -> Z) (ops : list wal_op) (w : Wal) (a : log) : log :=
  match ops with
  | [] => a
  | op :: ops => log_ops map_page ops (snd (wal_do map_page op w)) (log_do w op a)
  end.

Fixpoint can_ops (map_page : Z -> Z) (ops : list wal_op) (w : Wal) (a : log) : Prop :=
  match ops with
  | [] => True
  | op :: ops => wal_can w a op /\ can_ops map_page ops (snd (wal_do map_page op w)) (log_do w op a)
  end.

Lemma append_frames_spec map_page w L n l :
  (forall h, map_page h = SQLITE_OK) -> indexes (apWiData w) L -> 0 <= n <= zlen L -> n = zlen L \/ mxFrame (hdr w) = n ->
  Forall (fun pg => 0 < pg < 2 ^ 32) l ->
  exists w' L', append_frames map_page w n l = (SQLITE_OK, n + zlen l, w') /\ same_rest w w' /\ indexes (apWiData w') L' /\
    take (Z.to_nat (n + zlen l)) L' = take (Z.to_nat n) L ++ l /\ (n + zlen l = zlen L' \/ L' = L /\ l = []).
Proof.
  intros Hmap. revert w L n. induction l as [|pg l IH]; intros w L n HL Hn Hor Hpg; cbn [append_frames].
  - exists w, L. change (zlen (A := Z) []) with 0. rewrite Z.add_0_r, app_nil_r. split; [done|]. split; [by destruct w|]. auto.
  - apply Forall_cons in Hpg as [Hpg Hl]. destruct (append_spec map_page w L n pg Hmap HL Hn Hor Hpg) as (w1 & -> & Hr & HL1).
    cbn [Z.eqb SQLITE_OK]. pose proof (zlen_take n L Hn) as Ht.
    assert (zlen (take (Z.to_nat n) L ++ [pg]) = n + 1) as Hz by (rewrite zlen_app, Ht; done).
    destruct (IH w1 _ (n + 1) HL1 ltac:(lia) ltac:(by left) Hl) as (w' & L' & Hf & Hr' & HL' & Htk & Ho).
    replace (n + zlen (pg :: l)) with (n + 1 + zlen l) by (rewrite zlen_cons; lia).
    exists w', L'. split; [done|]. split; [rewrite Hr', Hr; by destruct w|]. split; [done|].
    rewrite Htk. split; [rewrite <- Hz; unfold zlen at 1; by rewrite Nat2Z.id, firstn_all, <- app_assoc|].
    left. destruct Ho as [|[-> ->]]; [done|]. rewrite Hz. unfold zlen. cbn. lia.
Qed.

Lemma take_take_min {A} a b (L : list A) : 0 <= a <= b -> take (Z.to_nat a) (take (Z.to_nat b) L) = take (Z.to_nat a) L.
Proof. intros H. rewrite take_take. f_equal. lia. Qed.

Lemma append_frames_app map_page w n l1 l2 :
  append_frames map_page w n (l1 ++ l2) =
  let '(rc, iFrame, w) := append_frames map_page w n l1 in
  if rc =? SQLITE_OK then append_frames map_page w iFrame l2 else (rc, iFrame, w).
Proof.
  revert w n. induction l1 as [|pg l1 IH]; intros w n; [done|]. cbn [app append_frames].
  destruct (walIndexAppend map_page w (n + 1) pg) as [rc w']. destruct (rc =? SQLITE_OK) eqn:E; [apply IH|by rewrite E].
Qed.

Lemma walFrames_index_eq map_page w pList pLast nExtra isCommit nTruncate sz rc iFrame w' :
  append_frames map_page w (mxFrame (hdr w)) (written pList pLast nExtra) = (rc, iFrame, w') -> rc = SQLITE_OK ->
  walFrames_index map_page w pList pLast nExtra isCommit nTruncate sz = (SQLITE_OK, frames_written w' iFrame isCommit nTruncate sz).
Proof.
  intros H ->. unfold walFrames_index, written in *. rewrite append_frames_app in H.
  destruct (append_frames map_page w (mxFrame (hdr w)) (map fst (List.filter snd pList))) as [[rc1 i1] w1].
  assert ((if rc1 =? SQLITE_OK then append_frames map_page w1 i1 (repeat pLast nExtra) else (rc1, i1, w1)) = (SQLITE_OK, iFrame, w')) as -> by done.
  done.
Qed.

(** Going back to frame [m]: what rollback and a savepoint do. *)
Lemma go_back map_page w L m :
  (forall h, map_page h = SQLITE_OK) -> indexes (apWiData w) L -> mxFrame (hdr w) = m -> 0 <= m <= zlen L ->
  same_rest w (walCleanupHash map_page w) /\
  indexes (apWiData (walCleanupHash map_page w)) (take (Z.to_nat m) L).
Proof. intros Hmap HL Hm Hle. split; [apply cleanup_rest|]. rewrite <- Hm in Hle |- *. by apply cleanup_spec. Qed.

Lemma implements_intro w a L n :
  indexes (apWiData w) L -> mxFrame (hdr w) = n -> frames a = take (Z.to_nat n) L -> committed a = mxFrame (live w) ->
  0 <= mxFrame (live w) <= n -> n <= zlen L -> implements w a.
Proof. intros HL <- Hf Hc H1 H2. by exists L. Qed.

(** Each operation, from an index that holds the log [L]. *)
Lemma sim_write map_page w L pList pLast nExtra isCommit nTruncate sz a :
  (forall h, map_page h = SQLITE_OK) -> indexes (apWiData w) L -> frames a = take (Z.to_nat (mxFrame (hdr w))) L ->
  committed a = mxFrame (live w) -> 0 <= mxFrame (live w) <= mxFrame (hdr w) -> mxFrame (hdr w) <= zlen L ->
  wal_can w a (WriteFrames pList pLast nExtra isCommit nTruncate sz) ->
  exists w', walFrames_index map_page w pList pLast nExtra isCommit nTruncate sz = (SQLITE_OK, w') /\
    implements w' (log_do w (WriteFrames pList pLast nExtra isCommit nTruncate sz) a).
Proof.
  intros Hmap HL Hf Hc Hle Hlen Hcan. pose proof (zlen_take (mxFrame (hdr w)) L ltac:(lia)) as Ht.
  destruct (append_frames_spec map_page w L (mxFrame (hdr w)) _ Hmap HL ltac:(lia) ltac:(by right) Hcan)
    as (w1 & L' & Hap & Hr & HL' & Htk & Ho).
  rewrite (walFrames_index_eq map_page w pList pLast nExtra isCommit nTruncate sz _ _ _ Hap eq_refl).
  eexists. split; [reflexivity|]. pose proof (zlen_nonneg (written pList pLast nExtra)). rewrite Hr. cbn [log_do].
  apply implements_intro with L' (mxFrame (hdr w) + zlen (written pList pLast nExtra)).
  - by destruct isCommit.
  - by destruct isCommit.
  - cbn [frames]. by rewrite Htk, Hf.
  - cbn [committed]. rewrite zlen_app, Hf, Ht. by destruct isCommit.
  - destruct isCommit; cbn; lia.
  - destruct Ho as [->|[-> ->]]; [lia|]. unfold zlen at 1. cbn. lia.
Qed.

(** The pages whose frames go are the ones the caller is told of. *)
Lemma undo_pages w L n i : indexes (apWiData w) L -> 1 <= i -> i - 1 + Z.of_nat n <= zlen L ->
  undo_loop (fun _ => SQLITE_OK) w n i = (SQLITE_OK, take n (drop (Z.to_nat (i - 1)) L)).
Proof.
  intros HL. revert i. induction n as [|n IH]; intros i Hi Hn; cbn [undo_loop]; [done|].
  cbn [Z.eqb SQLITE_OK]. rewrite IH, (walFramePgno_spec w L) by (done || lia).
  assert (drop (Z.to_nat (i - 1)) L = zat L (i - 1) :: drop (Z.to_nat (i + 1 - 1)) L) as ->; [|done].
  replace (Z.to_nat (i + 1 - 1)) with (S (Z.to_nat (i - 1))) by lia. apply drop_S. unfold zat, zlen in *.
  destruct (L !! Z.to_nat (i - 1)) as [x|] eqn:E; [|apply lookup_ge_None in E; lia].
  by rewrite (nth_lookup_Some _ _ 0 x E).
Qed.

Lemma sim_undo map_page w L a :
  (forall h, map_page h = SQLITE_OK) -> indexes (apWiData w) L -> frames a = take (Z.to_nat (mxFrame (hdr w))) L ->
  committed a = mxFrame (live w) -> 0 <= mxFrame (live w) <= mxFrame (hdr w) -> mxFrame (hdr w) <= zlen L ->
  exists w', sqlite3WalUndo map_page (fun _ => SQLITE_OK) w = (SQLITE_OK, drop (Z.to_nat (committed a)) (frames a), w') /\
    implements w' (log_do w Rollback a).
Proof.
  intros Hmap HL Hf Hc Hle Hlen. unfold sqlite3WalUndo. cbn [set_hdr hdr].
  rewrite (undo_pages (set_hdr w (live w)) L) by (done || lia).
  eexists. split; [|cbn [log_do]].
  - do 2 f_equal. rewrite Hf, Hc, take_drop_commute. f_equal; [lia|]. f_equal. f_equal. lia.
  - destruct (go_back map_page (set_hdr w (live w)) L (mxFrame (live w)) Hmap HL eq_refl ltac:(lia)) as [Hr Hi].
    destruct (negb _).
    + rewrite Hr in Hi |- *. apply implements_intro with (take (Z.to_nat (mxFrame (live w))) L) (mxFrame (live w));
        cbn [set_recksum set_pages set_hdr hdr live apWiData frames committed] in *; [exact Hi|done| |done|lia|rewrite zlen_take; lia].
      rewrite Hf, Hc, !take_take_min by lia. done.
    + apply implements_intro with L (mxFrame (live w)); cbn [set_recksum set_hdr hdr live apWiData frames committed]; [done..| |done|lia|lia].
      rewrite Hf, Hc, take_take_min by lia. done.
Qed.

Lemma sim_rollback_to map_page w L sp a :
  (forall h, map_page h = SQLITE_OK) -> indexes (apWiData w) L -> frames a = take (Z.to_nat (mxFrame (hdr w))) L ->
  committed a = mxFrame (live w) -> 0 <= mxFrame (live w) <= mxFrame (hdr w) -> mxFrame (hdr w) <= zlen L ->
  wal_can w a (RollbackTo sp) -> implements (fst (sqlite3WalSavepointUndo map_page w sp)) (log_do w (RollbackTo sp) a).
Proof.
  intros Hmap HL Hf Hc Hle Hlen Hcan. pose proof (zlen_take (mxFrame (hdr w)) L ltac:(lia)) as Ht.
  cbn [wal_can log_do] in *. rewrite Hf, Ht in Hcan. unfold sqlite3WalSavepointUndo.
  set (sp' := if negb _ then _ else _). assert (sp_mxFrame sp' = target w sp) as ->.
  { unfold sp', target. by destruct (sp_nCkpt sp =? nCkpt w). }
  destruct (target w sp <? mxFrame (hdr w)) eqn:E; breflect.
  - set (w1 := set_hdr w (set_mx (hdr w) (target w sp) (sp_cksum sp'))).
    destruct (go_back map_page w1 L (target w sp) Hmap HL eq_refl ltac:(lia)) as [Hr Hi].
    apply implements_intro with (take (Z.to_nat (target w sp)) L) (target w sp).
    + cbn [fst]. case_if; cbn [set_recksum apWiData]; exact Hi.
    + cbn [fst]. rewrite Hr. by case_if.
    + cbn [frames]. rewrite Hf, !take_take_min by lia. done.
    + cbn [fst committed]. rewrite Hr. by case_if.
    + cbn [fst]. rewrite Hr. case_if; cbn [set_recksum set_pages set_hdr live w1]; lia.
    + rewrite zlen_take; lia.
  - replace (target w sp) with (mxFrame (hdr w)) by lia.
    apply implements_intro with L (mxFrame (hdr w)); cbn [fst frames committed]; [done..| |done|done|done].
    rewrite Hf, take_take_min by lia. done.
Qed.

Lemma sim_step map_page w a op : (forall h, map_page h = SQLITE_OK) -> implements w a -> wal_can w a op ->
  exists w', wal_do map_page op w = (SQLITE_OK, w') /\ implements w' (log_do w op a).
Proof.
  intros Hmap (L & HL & Hf & Hc & Hle & Hlen) Hcan.
  destruct op as [pList pLast nExtra isCommit nTruncate sz| |sp| |salt1]; cbn [wal_do].
  - by apply (sim_write map_page w L).
  - destruct (sim_undo map_page w L a) as (w' & -> & Hi); [done..|]. by exists w'.
  - eexists. split; [reflexivity|]. by apply (sim_rollback_to map_page w L).
  - eexists. split; [reflexivity|]. cbn [log_do]. apply implements_intro with L (mxFrame (live w));
      cbn [set_hdr hdr live apWiData frames committed]; [done..| |done|lia|lia].
    rewrite Hf, Hc, take_take_min by lia. done.
  - eexists. split; [reflexivity|]. apply implements_intro with [] 0; cbn; [apply indexes_nil|done..|lia|done].
Qed.

(** ** The index against the log *)

(** A connection that reads the index as of frame [m], from frame [lo] on. *)
Definition reader (w : Wal) (lo m : Z) : Wal :=
  mkWal (apWiData w) (live w) (ckpt w) (set_mx (hdr w) m (0, 0)) lo 1 0 (szPage w) 0 (nCkpt w) 0 (-1) false false false.

Fixpoint last_frame (F : list Z) (pgno lo : Z) (n : nat) : Z :=
  match n with
  | O => 0
  | S n' => if lo <=? Z.of_nat n then if nth n' F 0 =? pgno then Z.of_nat n else last_frame F pgno lo n' else 0
  end.

Lemma last_frame_spec F pgno lo n : is_last F pgno lo (Z.of_nat n) (last_frame F pgno lo n) \/ lo <= 0.
Proof.
  destruct (Z.le_gt_cases lo 0) as [|Hlo]; [by right|left]. induction n as [|n IH]; cbn [last_frame].
  { left. split; [done|]. intros i Hi. lia. }
  assert (zat F (Z.of_nat (S n) - 1) = nth n F 0) as Hz by (unfold zat; f_equal; lia).
  destruct (lo <=? Z.of_nat (S n)) eqn:E; breflect; [|left; split; [done|]; intros i Hi; lia].
  destruct (nth n F 0 =? pgno) eqn:E2; breflect.
  - right. split; [lia|]. split; [congruence|]. intros i Hi. lia.
  - destruct IH as [[-> IH]|(H1 & H2 & H3)]; [left|right].
    + split; [done|]. intros i Hi. destruct (Z.eq_dec i (Z.of_nat (S n))) as [->|]; [congruence|]. apply IH. lia.
    + split; [lia|]. split; [done|]. intros i Hi. destruct (Z.eq_dec i (Z.of_nat (S n))) as [->|]; [congruence|]. apply H3. lia.
Qed.

Lemma is_last_take L n pgno lo hi r : 1 <= lo -> hi <= n -> is_last L pgno lo hi r -> is_last (take (Z.to_nat n) L) pgno lo hi r.
Proof.
  intros Hlo Hhi [[-> H]|(H1 & H2 & H3)]; [left|right].
  - split; [done|]. intros i Hi. rewrite zat_take, decide_True by lia. by apply H.
  - split; [done|]. rewrite zat_take, decide_True by lia. split; [done|]. intros i Hi. rewrite zat_take, decide_True by lia. by apply H3.
Qed.

Lemma reader_finds map_page w a lo m pgno : (forall h, map_page h = SQLITE_OK) -> implements w a -> 1 <= lo -> 0 <= m <= zlen (frames a) ->
  walFindFrame map_page (reader w lo m) pgno = (SQLITE_OK, last_frame (frames a) pgno lo (Z.to_nat m)) /\
  walFindFrame map_page (reader w lo m) pgno = (SQLITE_OK, linear_find (reader w lo m) pgno (Z.to_nat m)).
Proof.
  intros Hmap (L & HL & Hf & Hc & Hle & Hlen) Hlo Hm. rewrite Hf, zlen_take in Hm by lia.
  destruct (walFindFrame_spec map_page (reader w lo m) L pgno Hmap HL ltac:(cbn; lia) Hlo ltac:(done)) as (r & -> & Hr).
  cbn [reader hdr set_mx mxFrame minFrame] in Hr. split; f_equal; apply (is_last_unique L pgno lo m); [done..| |done|done|].
  - destruct (last_frame_spec (take (Z.to_nat (mxFrame (hdr w))) L) pgno lo (Z.to_nat m)) as [Hs|]; [|lia].
    rewrite Z2Nat.id in Hs by lia. rewrite <- Hf in Hs.
    eapply (is_last_unique (frames a)) in Hs; [|done|rewrite Hf; eapply is_last_take; [done| |exact Hr]; lia]. by rewrite <- Hs.
  - pose proof (linear_find_spec (reader w lo m) L pgno (Z.to_nat m) HL ltac:(lia) Hlo) as Hs. rewrite Z2Nat.id in Hs by lia. exact Hs.
Qed.

(** A connection that reads as of the end of its log. *)
Lemma walFindFrame_log map_page w a pgno : (forall h, map_page h = SQLITE_OK) -> implements w a -> 1 <= minFrame w -> readLock w <> 0 ->
  walFindFrame map_page w pgno = (SQLITE_OK, last_frame (frames a) pgno (minFrame w) (length (frames a))).
Proof.
  intros Hmap (L & HL & Hf & Hc & Hle & Hlen) Hlo Hlock.
  destruct (walFindFrame_spec map_page w L pgno Hmap HL ltac:(lia) Hlo Hlock) as (r & -> & Hr). f_equal.
  pose proof (zlen_take (mxFrame (hdr w)) L ltac:(lia)) as Hz. rewrite <- Hf in Hz. unfold zlen in Hz.
  destruct (last_frame_spec (frames a) pgno (minFrame w) (length (frames a))) as [Hs|]; [|lia]. rewrite Hz in Hs.
  eapply is_last_unique; [exact Hlo| |exact Hs]. rewrite Hf. apply is_last_take; [done|lia|exact Hr].
Qed.

Lemma run_ops_spec map_page ops w a : (forall h, map_page h = SQLITE_OK) -> implements w a -> can_ops map_page ops w a ->
  exists w', run_ops map_page ops w = (SQLITE_OK, w') /\ implements w' (log_ops map_page ops w a).
Proof.
  intros Hmap. revert w a. induction ops as [|op ops IH]; intros w a Hi Hcan; cbn [run_ops log_ops can_ops] in *; [by exists w|].
  destruct Hcan as [Hcan Hops]. destruct (sim_step map_page w a op Hmap Hi Hcan) as (w1 & E & Hi1).
  rewrite E in *. cbn [Z.eqb SQLITE_OK snd] in *. by apply IH.
Qed.

Lemma implements_wf w a : implements w a -> 0 <= committed a <= zlen (frames a) /\ committed a = mxFrame (live w).
Proof. intros (L & HL & Hf & Hc & Hle & Hlen). rewrite Hf, zlen_take by lia. lia. Qed.

(** No operation but starting over moves a committed frame. *)
Definition keeps (op : wal_op) : Prop := match op with RestartLog _ => False | _ => True end.

Lemma log_do_prefix w a op c : 0 <= c <= committed a -> committed a <= zlen (frames a) -> keeps op -> wal_can w a op ->
  c <= committed (log_do w op a) /\ take (Z.to_nat c) (frames (log_do w op a)) = take (Z.to_nat c) (frames a).
Proof.
  intros Hc Hle Hk Hcan. destruct op as [pList pLast nExtra isCommit nTruncate sz| |sp| |salt1]; cbn [log_do wal_can keeps frames committed] in *;
    [|rewrite take_take_min by lia; split; [lia|done]..|done].
  split; [|apply take_app_le; unfold zlen in *; lia].
  rewrite zlen_app. pose proof (zlen_nonneg (written pList pLast nExtra)). destruct isCommit; lia.
Qed.

Lemma log_ops_prefix map_page ops w a c : (forall h, map_page h = SQLITE_OK) -> implements w a -> can_ops map_page ops w a -> Forall keeps ops ->
  0 <= c <= committed a -> c <= committed (log_ops map_page ops w a) /\ take (Z.to_nat c) (frames (log_ops map_page ops w a)) = take (Z.to_nat c) (frames a).
Proof.
  intros Hmap. revert w a. induction ops as [|op ops IH]; intros w a Hi Hcan Hk Hc; cbn [log_ops can_ops] in *; [by split; [lia|]|].
  destruct Hcan as [Hcan Hops]. apply Forall_cons in Hk as [Hk Hks]. destruct (sim_step map_page w a op Hmap Hi Hcan) as (w1 & E & Hi1).
  rewrite E in *. cbn [snd] in *. pose proof (implements_wf _ _ Hi) as Hwf.
  destruct (log_do_prefix w a op c ltac:(lia) ltac:(lia) Hk Hcan) as [H1 H2].
  destruct (IH w1 _ Hi1 Hops Hks ltac:(lia)) as [H3 H4]. split; [done|]. by rewrite H4.
Qed.

Lemma last_frame_take F c pgno lo n : (n <= Z.to_nat c)%nat -> last_frame (take (Z.to_nat c) F) pgno lo n = last_frame F pgno lo n.
Proof.
  induction n as [|n IH]; intros Hn; cbn [last_frame]; [done|]. rewrite IH by lia.
  pose proof (zat_take c F (Z.of_nat n) ltac:(lia)) as Hz. rewrite decide_True in Hz by lia. unfold zat in Hz. rewrite Nat2Z.id in Hz. by rewrite Hz.
Qed.

(** C25: From an index that stands for a log, any sequence of writes (spilled or committed, with
    padding), rollbacks, rollbacks to savepoints, deaths of a writer and restarts succeeds when
    the pages of the index can be mapped, and the index stands for the log those operations
    make: a connection that reads as of frame [m], from frame [lo] on, finds for each page the
    last of its frames between them, or 0. *)
Theorem index_refines_log map_page ops w a :
  (forall h, map_page h = SQLITE_OK) -> implements w a -> can_ops map_page ops w a ->
  exists w', run_ops map_page ops w = (SQLITE_OK, w') /\
    mxFrame (live w') = committed (log_ops map_page ops w a) /\
    forall lo m pgno, 1 <= lo -> 0 <= m <= zlen (frames (log_ops map_page ops w a)) ->
      walFindFrame map_page (reader w' lo m) pgno =
      (SQLITE_OK, last_frame (frames (log_ops map_page ops w a)) pgno lo (Z.to_nat m)).
Proof.
  intros Hmap Hi Hcan. destruct (run_ops_spec map_page ops w a Hmap Hi Hcan) as (w' & Hr & Hi'). exists w'. split; [done|].
  split; [symmetry; apply (implements_wf _ _ Hi')|]. intros lo m pgno Hlo Hm. by apply reader_finds.
Qed.

(** A connection that reads as of a committed frame finds the same frames after any sequence
    of writes, commits, rollbacks and deaths of writers as before it: what later transactions
    enter in the shared tables, finished or not, does not reach it. *)
Theorem reader_isolated map_page ops w a lo m pgno :
  (forall h, map_page h = SQLITE_OK) -> implements w a -> can_ops map_page ops w a -> Forall keeps ops ->
  1 <= lo -> 0 <= m <= mxFrame (live w) ->
  walFindFrame map_page (reader (snd (run_ops map_page ops w)) lo m) pgno = walFindFrame map_page (reader w lo m) pgno.
Proof.
  intros Hmap Hi Hcan Hk Hlo Hm. pose proof (implements_wf _ _ Hi) as Hwf.
  destruct (run_ops_spec map_page ops w a Hmap Hi Hcan) as (w' & -> & Hi'). pose proof (implements_wf _ _ Hi') as Hwf'.
  destruct (log_ops_prefix map_page ops w a m Hmap Hi Hcan Hk ltac:(lia)) as [Hc Hf]. cbn [snd].
  rewrite (proj1 (reader_finds map_page w' _ lo m pgno Hmap Hi' Hlo ltac:(lia))), (proj1 (reader_finds map_page w a lo m pgno Hmap Hi Hlo ltac:(lia))).
  rewrite <- (last_frame_take _ m) by lia. rewrite Hf, last_frame_take by lia. done.
Qed.

(** The hash tables give what the linear search of the debugging build gives, for every
    state of the index that operations reach. *)
Theorem find_is_linear map_page ops w a lo m pgno :
  (forall h, map_page h = SQLITE_OK) -> implements w a -> can_ops map_page ops w a ->
  1 <= lo -> 0 <= m <= zlen (frames (log_ops map_page ops w a)) ->
  let r := reader (snd (run_ops map_page ops w)) lo m in
  walFindFrame map_page r pgno = (SQLITE_OK, linear_find r pgno (Z.to_nat m)).
Proof.
  intros Hmap Hi Hcan Hlo Hm. destruct (run_ops_spec map_page ops w a Hmap Hi Hcan) as (w' & -> & Hi').
  by apply (reader_finds map_page w' _ lo m pgno Hmap Hi').
Qed.

(** *** Witnesses: pages 5 and 8197 have the same hash *)

Lemma implements_wal0 : implements wal0 (mkLog [] 0).
Proof. apply implements_intro with [] 0; cbn; [apply indexes_nil|done..|lia|done]. Qed.

Definition ops_1 : list wal_op :=
  [WriteFrames [(5, true); (8197, true)] 8197 1 true 9000 4096; WriteFrames [(5, true); (6, false); (7, true)] 7 0 false 0 4096; Crash;
   WriteFrames [(8197, true)] 8197 0 false 0 4096; Rollback; WriteFrames [(9, true)] 9 0 true 9000 4096].

Lemma can_ops_1 : can_ops maps ops_1 wal0 (mkLog [] 0).
Proof.
  unfold ops_1. cbn [can_ops wal_can written map List.filter fst snd repeat app].
  repeat split; auto; repeat constructor; lia.
Qed.

Example log_1 : log_ops maps ops_1 wal0 (mkLog [] 0) = mkLog [5; 8197; 8197; 9] 4.
Proof. reflexivity. Qed.

Lemma index_refines_log_witness : exists w', run_ops maps ops_1 wal0 = (SQLITE_OK, w') /\
  mxFrame (live w') = committed (log_ops maps ops_1 wal0 (mkLog [] 0)) /\
  forall lo m pgno, 1 <= lo -> 0 <= m <= zlen (frames (log_ops maps ops_1 wal0 (mkLog [] 0))) ->
    walFindFrame maps (reader w' lo m) pgno = (SQLITE_OK, last_frame (frames (log_ops maps ops_1 wal0 (mkLog [] 0))) pgno lo (Z.to_nat m)).
Proof. apply (index_refines_log maps ops_1 wal0 (mkLog [] 0)); [done|apply implements_wal0|apply can_ops_1]. Defined.

(** The state after the first transaction, and the rest of the operations. *)
Definition wal_committed : Wal := snd (run_ops maps (take 1 ops_1) wal0).

Lemma implements_committed : implements wal_committed (mkLog [5; 8197; 8197] 3).
Proof.
  destruct (run_ops_spec maps (take 1 ops_1) wal0 (mkLog [] 0)) as (w & Hr & Hi); [done|apply implements_wal0| |].
  - split; [apply can_ops_1|done].
  - unfold wal_committed. rewrite Hr. exact Hi.
Qed.

Lemma reader_isolated_witness :
  walFindFrame maps (reader (snd (run_ops maps (drop 1 ops_1) wal_committed)) 1 3) 8197 = walFindFrame maps (reader wal_committed 1 3) 8197.
Proof.
  apply (reader_isolated maps (drop 1 ops_1) wal_committed (mkLog [5; 8197; 8197] 3) 1 3 8197);
    [done|apply implements_committed|exact (proj2 can_ops_1)| |lia|vm_compute; split; discriminate].
  unfold ops_1. repeat constructor.
Defined.

Lemma find_is_linear_witness : let r := reader (snd (run_ops maps ops_1 wal0)) 1 4 in
  walFindFrame maps r 8197 = (SQLITE_OK, linear_find r 8197 4).
Proof. apply (find_is_linear maps ops_1 wal0 (mkLog [] 0) 1 4 8197); [done|apply implements_wal0|apply can_ops_1|lia|rewrite log_1; cbv; split; discriminate]. Defined.
