(* ===== verification/WalLog.v ===== *)
(** * The frames of the write-ahead log and its recovery (wal.c of sqlite3.c)

    The log is a header of 32 bytes and frames of 24 bytes and a page each, chained by a running
    checksum.  [walEncodeFrame] makes a frame's header, [walDecodeFrame] tests one, and
    [walIndexRecover] rebuilds the index of [WalIndex] from the file after a crash.

    The byte order of the machine is the parameter [big] ([SQLITE_BIGENDIAN]).  The file is read
    through the class [Vfs]; the locks of the shared memory, the allocator and the size call are
    parameters of the recovery. *)

From S2P Require Import Prelude Bitwise Varint WalIndex UnixFile.
From stdpp Require Import options.

Definition SQLITE_BUSY : Z := 5.
Definition SQLITE_NOMEM : Z := 7.
Definition SQLITE_CANTOPEN : Z := 14.
Definition WAL_MAX_VERSION : Z := 3007000.
Definition WAL_MAGIC : Z := 0x377f0682.
Definition WAL_HDRSIZE : Z := 32.
Definition WAL_FRAME_HDRSIZE : Z := 24.
Definition SQLITE_MAX_PAGE_SIZE : Z := 65536.
Definition WAL_ALL_BUT_WRITE : Z := 1.
Definition WAL_READ_LOCK (i : Z) : Z := 3 + i.

Definition walFrameOffset (iFrame sz : Z) : Z := WAL_HDRSIZE + (iFrame - 1) * (sz + WAL_FRAME_HDRSIZE).

(** ** Checksums *)

(** The 32-bit words of a buffer, as a machine of the given byte order reads them. *)
Fixpoint words (big : bool) (a : list Z) : list Z :=
  match a with
  | b0 :: b1 :: b2 :: b3 :: a => sqlite3Get4byte (if big then [b0; b1; b2; b3] else [b3; b2; b1; b0]) :: words big a
  | _ => []
  end.

Definition BYTESWAP32 (x : Z) : Z :=
  u32 (Z.shiftl (Z.land x 0x000000FF) 24 + Z.shiftl (Z.land x 0x0000FF00) 8
       + Z.shiftr (Z.land x 0x00FF0000) 8 + Z.shiftr (Z.land x 0xFF000000) 24).

(** [s1 += x0 + s2; s2 += x1 + s1] *)
Definition cksum_add (s : Z * Z) (x0 x1 : Z) : Z * Z :=
  let s1 := u32 (s.1 + (x0 + s.2)) in (s1, u32 (s.2 + (x1 + s1))).

(** The three loops. *)
Fixpoint cksum_swap (aData : list Z) (s : Z * Z) : Z * Z :=
  match aData with
  | x0 :: x1 :: aData => cksum_swap aData (cksum_add s (BYTESWAP32 x0) (BYTESWAP32 x1))
  | _ => s
  end.

Fixpoint cksum_16 (aData : list Z) (s : Z * Z) : Z * Z :=
  match aData with
  | x0 :: x1 :: x2 :: x3 :: x4 :: x5 :: x6 :: x7 :: x8 :: x9 :: x10 :: x11 :: x12 :: x13 :: x14 :: x15 :: aData =>
      let s := cksum_add s x0 x1 in
      let s := cksum_add s x2 x3 in
      let s := cksum_add s x4 x5 in
      let s := cksum_add s x6 x7 in
      let s := cksum_add s x8 x9 in
      let s := cksum_add s x10 x11 in
      let s := cksum_add s x12 x13 in
      let s := cksum_add s x14 x15 in
      cksum_16 aData s
  | _ => s
  end.

Fixpoint cksum_2 (aData : list Z) (s : Z * Z) : Z * Z :=
  match aData with
  | x0 :: x1 :: aData => cksum_2 aData (cksum_add s x0 x1)
  | _ => s
  end.

Definition walChecksumBytes (big nativeCksum : bool) (a : list Z) (nByte : Z) (aIn : Z * Z) : Z * Z :=
  let aData := words big (take (Z.to_nat nByte) a) in
  if negb nativeCksum then cksum_swap aData aIn
  else if nByte mod 64 =? 0 then cksum_16 aData aIn
  else cksum_2 aData aIn.

(** ** Frames *)

Definition set_cksum (w : Wal) (ck : Z * Z) : Wal :=
  let h := hdr w in set_hdr w (mkHdr (iChange h) (bigEndCksum h) (h_szPage h) (mxFrame h) (nPage h) ck (aSalt h)).

Definition native (big : bool) (w : Wal) : bool := bigEndCksum (hdr w) =? (if big then 1 else 0).

(** [aFrame] and the state. *)
Definition walEncodeFrame (big : bool) (w : Wal) (iPage nTruncate : Z) (aData : list Z) : list Z * Wal :=
  let aFrame := sqlite3Put4byte iPage ++ sqlite3Put4byte nTruncate in
  if iReCksum w =? 0 then
    let aCksum := walChecksumBytes big (native big w) aFrame 8 (aFrameCksum (hdr w)) in
    let aCksum := walChecksumBytes big (native big w) aData (szPage w) aCksum in
    (aFrame ++ aSalt (hdr w) ++ sqlite3Put4byte aCksum.1 ++ sqlite3Put4byte aCksum.2, set_cksum w aCksum)
  else (aFrame ++ repeat 0 16, w).

(** The page and size of a valid frame, and the state: a frame that fails its checksum has
    changed the running checksum. *)
Definition walDecodeFrame (big : bool) (w : Wal) (aData aFrame : list Z) : option (Z * Z) * Wal :=
  if negb (bool_decide (aSalt (hdr w) = fread aFrame 8 8)) then (None, w)
  else
    let pgno := sqlite3Get4byte aFrame in
    if pgno =? 0 then (None, w)
    else
      let aCksum := walChecksumBytes big (native big w) aFrame 8 (aFrameCksum (hdr w)) in
      let aCksum := walChecksumBytes big (native big w) aData (szPage w) aCksum in
      let w := set_cksum w aCksum in
      if negb (aCksum.1 =? sqlite3Get4byte (zdrop 16 aFrame)) || negb (aCksum.2 =? sqlite3Get4byte (zdrop 20 aFrame))
      then (None, w)
      else (Some (pgno, sqlite3Get4byte (zdrop 4 aFrame)), w).

(** ** Reading *)

(** The page size that a header says. *)
Definition walPagesize (w : Wal) : Z := Z.land (h_szPage (hdr w)) 0xfe00 + Z.shiftl (Z.land (h_szPage (hdr w)) 0x0001) 16.

Definition sqlite3WalReadFrame `{V : Vfs} (w : Wal) (file : list Z) (iRead nOut : Z) : Z * list Z :=
  let sz := walPagesize w in
  let iOffset := walFrameOffset iRead sz + WAL_FRAME_HDRSIZE in
  xRead file (if sz <? nOut then sz else nOut) iOffset.

(** ** Recovery *)

Definition set_commit (w : Wal) (mx np sz : Z) : Wal :=
  let h := hdr w in set_hdr w (mkHdr (iChange h) (bigEndCksum h) sz mx np (aFrameCksum h) (aSalt h)).

Section recover.
Context `{V : Vfs} (map_page : Z -> Z) (walLockExclusive : Z -> Z -> Z) (mem : bool) (size_rc : Z) (big : bool).
(** What the buffer for page [iPg] of the index holds before its first frame. *)
Context (junk : Z -> wi_page).

(** The loop over the [n] frames from [iFrame]: the code, the frame it stopped at, the state, and
    the checksum as of the last commit. *)
Fixpoint recover_frames (n : nat) (file : list Z) (pgsz : Z) (w : Wal) (iFrame : Z) (ck : Z * Z) : Z * Z * Wal * (Z * Z) :=
  match n with
  | O => (SQLITE_OK, iFrame, w, ck)
  | S n =>
      let '(rc, aFrame) := xRead file (pgsz + WAL_FRAME_HDRSIZE) (walFrameOffset iFrame pgsz) in
      if negb (rc =? SQLITE_OK) then (rc, iFrame, w, ck)
      else
        match walDecodeFrame big w (zdrop WAL_FRAME_HDRSIZE aFrame) aFrame with
        | (None, w) => (SQLITE_OK, iFrame, w, ck)
        | (Some (pgno, nTruncate), w) =>
            let '(rc, w) := walIndexAppend map_page w iFrame pgno in
            if negb (rc =? SQLITE_OK) then (rc, iFrame, w, ck)
            else if negb (nTruncate =? 0)
            then recover_frames n file pgsz (set_commit w iFrame nTruncate (u16 (Z.lor (Z.land pgsz 0xff00) (Z.shiftr pgsz 16))))
                   (iFrame + 1) (aFrameCksum (hdr w))
            else recover_frames n file pgsz w (iFrame + 1) ck
        end
  end.

(** The loop over the pages of the index. *)
Fixpoint recover_pages (n : nat) (file : list Z) (pgsz iLastFrame : Z) (w : Wal) (iPg : Z) (ck : Z * Z) : Z * Wal * (Z * Z) :=
  match n with
  | O => (SQLITE_OK, w, ck)
  | S n =>
      let iLast := Z.min iLastFrame (HASHTABLE_NPAGE_ONE + iPg * HASHTABLE_NPAGE) in
      let iFirst := 1 + (if iPg =? 0 then 0 else HASHTABLE_NPAGE_ONE + (iPg - 1) * HASHTABLE_NPAGE) in
      match walIndexPage map_page w iPg with
      | inl rc => (rc, w, ck)
      | inr _ =>
          let w := set_pages w (<[iPg := junk iPg]> (apWiData w)) in
          let '(rc, iFrame, w, ck) := recover_frames (Z.to_nat (iLast - iFirst + 1)) file pgsz w iFirst ck in
          if iFrame <=? iLast then (rc, w, ck) else recover_pages n file pgsz iLastFrame w (iPg + 1) ck
      end
  end.

(** The read marks [i], [i + 1], ...; [rc] is the code of the lock before. *)
Fixpoint recover_marks (n : nat) (i mx rc : Z) (marks : list Z) : Z * list Z :=
  match n with
  | O => (rc, marks)
  | S n =>
      let rc := walLockExclusive (WAL_READ_LOCK i) 1 in
      if rc =? SQLITE_OK then
        recover_marks n (i + 1) mx rc (<[Z.to_nat i := if (i =? 1) && negb (mx =? 0) then mx else READMARK_NOT_USED]> marks)
      else if negb (rc =? SQLITE_BUSY) then (rc, marks)
      else recover_marks n (i + 1) mx rc marks
  end.

(** What a header of the log gives: an error, the end of the recovery (with a code), or frames to
    read, with the page size. *)
Inductive wal_header := HdrError (rc : Z) | HdrFinished (rc : Z) (w : Wal) | HdrFrames (w : Wal) (pgsz : Z).

Definition recover_header (file : list Z) (w : Wal) : wal_header :=
  let '(rc, aBuf) := xRead file WAL_HDRSIZE 0 in
  if negb (rc =? SQLITE_OK) then HdrError rc
  else
    let magic := sqlite3Get4byte aBuf in
    let pgsz := i32 (sqlite3Get4byte (zdrop 8 aBuf)) in
    if negb (Z.land magic 0xFFFFFFFE =? WAL_MAGIC) || negb (Z.land pgsz (pgsz - 1) =? 0) || (SQLITE_MAX_PAGE_SIZE <? pgsz) || (pgsz <? 512)
    then HdrFinished SQLITE_OK w
    else
      let h := hdr w in
      let bigEnd := Z.land magic 1 in
      let aCksum := walChecksumBytes big (bigEnd =? (if big then 1 else 0)) aBuf (WAL_HDRSIZE - 2 * 4) (0, 0) in
      let w := set_hdr w (mkHdr (iChange h) bigEnd (h_szPage h) (mxFrame h) (nPage h) aCksum (fread aBuf 16 8)) in
      let w := set_nCkpt (set_szPage w pgsz) (sqlite3Get4byte (zdrop 12 aBuf)) in
      if negb (aCksum.1 =? sqlite3Get4byte (zdrop 24 aBuf)) || negb (aCksum.2 =? sqlite3Get4byte (zdrop 28 aBuf))
      then HdrFinished SQLITE_OK w
      else if negb (sqlite3Get4byte (zdrop 4 aBuf) =? WAL_MAX_VERSION) then HdrFinished SQLITE_CANTOPEN w
      else HdrFrames w pgsz.

(** From [finished:] on. *)
Definition recover_finished (rc : Z) (w : Wal) (ck : Z * Z) : Z * Wal :=
  if rc =? SQLITE_OK then
    let w := set_cksum w ck in
    let w := set_live w (hdr w) in
    let mx := mxFrame (hdr w) in
    let '(rc, marks) := recover_marks (Z.to_nat (WAL_NREADER - 1)) 1 mx rc (<[0%nat := 0]> (aReadMark (ckpt w))) in
    (rc, set_ckpt w (mkCkpt 0 marks mx))
  else (rc, w).

Definition zero_hdr : WalIndexHdr := mkHdr 0 0 0 0 0 (0, 0) (repeat 0 8).

Definition walIndexRecover (ckptLock : Z) (w : Wal) (file : list Z) : Z * Wal :=
  let iLock := WAL_ALL_BUT_WRITE + ckptLock in
  let rc := walLockExclusive iLock (WAL_READ_LOCK 0 - iLock) in
  if negb (rc =? SQLITE_OK) then (rc, w)
  else
    let w := set_hdr w zero_hdr in
    if negb (size_rc =? SQLITE_OK) then (size_rc, w)
    else if WAL_HDRSIZE <? zlen file then
      match recover_header file w with
      | HdrError rc => (rc, w)
      | HdrFinished rc w => recover_finished rc w (0, 0)
      | HdrFrames w pgsz =>
          if negb mem then (SQLITE_NOMEM, w)
          else
            let iLastFrame := u32 ((zlen file - WAL_HDRSIZE) / (pgsz + WAL_FRAME_HDRSIZE)) in
            let '(rc, w, ck) := recover_pages (Z.to_nat (walFramePage iLastFrame + 1)) file pgsz iLastFrame w 0 (0, 0) in
            recover_finished rc w ck
      end
    else recover_finished SQLITE_OK w (0, 0).

End recover.

(** ** Checksums do not depend on the machine *)

Lemma byteswap_word b0 b1 b2 b3 : bytes_ok [b0; b1; b2; b3] ->
  BYTESWAP32 (sqlite3Get4byte [b3; b2; b1; b0]) = sqlite3Get4byte [b0; b1; b2; b3].
Proof.
  intros Hb. rewrite (get4_be [b0; b1; b2; b3]) by done. unfold sqlite3Get4byte, BYTESWAP32, zat, be_value.
  change (Z.to_nat 0) with 0%nat; change (Z.to_nat 1) with 1%nat; change (Z.to_nat 2) with 2%nat; change (Z.to_nat 3) with 3%nat.
  cbn [nth fold_left]. rewrite !Forall_cons in Hb. unfold is_byte in Hb. change 256 with (2 ^ 8) in Hb. destruct Hb as (H0 & H1 & H2 & H3 & _).
  set (x := Z.lor _ b0).
  replace (Z.shiftl (Z.land x 255) 24) with (Z.shiftl b0 24) by (unfold x; bitblast).
  replace (Z.shiftl (Z.land x 65280) 8) with (Z.shiftl b1 16) by (unfold x; bitblast).
  replace (Z.shiftr (Z.land x 16711680) 8) with (Z.shiftl b2 8) by (unfold x; bitblast).
  replace (Z.shiftr (Z.land x 4278190080) 24) with b3 by (unfold x; bitblast).
  rewrite !Z.shiftl_mul_pow2 by done. rewrite wrapu_small; pow2; lia.
Qed.

Lemma cksum_swap_words big a s : bytes_ok a -> cksum_swap (words big a) s = cksum_2 (words (negb big) a) s.
Proof.
  assert (forall b0 b1 b2 b3, bytes_ok [b0; b1; b2; b3] ->
    BYTESWAP32 (sqlite3Get4byte (if big then [b0; b1; b2; b3] else [b3; b2; b1; b0])) =
    sqlite3Get4byte (if negb big then [b0; b1; b2; b3] else [b3; b2; b1; b0])) as Hw.
  { intros b0 b1 b2 b3 Hb. destruct big; cbn [negb]; apply byteswap_word; rewrite !Forall_cons in *; tauto. }
  revert s. induction a as [a IH] using (well_founded_induction (well_founded_ltof _ length)). unfold ltof in IH. intros s Ha.
  destruct a as [|b0 [|b1 [|b2 [|b3 [|b4 [|b5 [|b6 [|b7 a]]]]]]]]; try done.
  rewrite !Forall_cons in Ha. destruct Ha as (H0 & H1 & H2 & H3 & H4 & H5 & H6 & H7 & Ha).
  cbn [words cksum_swap cksum_2]. rewrite IH by (done || (cbn; lia)).
  rewrite !Hw by env_ok_tac. done.
Qed.

Lemma cksum_16_words l s : (length l mod 16 = 0)%nat -> cksum_16 l s = cksum_2 l s.
Proof.
  revert s. induction l as [l IH] using (well_founded_induction (well_founded_ltof _ length)). unfold ltof in IH. intros s Hl.
  do 16 (destruct l as [|? l]; [try done; cbn in Hl; discriminate|]).
  cbn [cksum_16 cksum_2]. cbv zeta. apply IH; [cbn; lia|]. cbn [length] in Hl.
  replace (S _) with (length l + 1 * 16)%nat in Hl by lia. by rewrite Nat.Div0.mod_add in Hl.
Qed.

Lemma length_words big a : length (words big a) = (length a / 4)%nat.
Proof.
  induction a as [a IH] using (well_founded_induction (well_founded_ltof _ length)). unfold ltof in IH.
  destruct a as [|b0 [|b1 [|b2 [|b3 a]]]]; [done..|]. cbn [words length]. rewrite IH by (cbn; lia).
  replace (S (S (S (S (length a))))) with (length a + 1 * 4)%nat by lia. rewrite Nat.div_add by lia. lia.
Qed.

(** The checksum of a log whose words are of byte order [e], on either machine. *)
Lemma checksum_words big e a n s : bytes_ok a -> 0 <= n <= zlen a ->
  walChecksumBytes big (Bool.eqb e big) a n s = cksum_2 (words e (take (Z.to_nat n) a)) s.
Proof.
  intros Ha Hn. unfold walChecksumBytes. destruct (Bool.eqb e big) eqn:E; cbn [negb].
  - apply eqb_prop in E as ->. destruct (n mod 64 =? 0) eqn:E; [|done]. breflect. apply cksum_16_words.
    rewrite length_words, length_take, Nat.min_l by (unfold zlen in Hn; lia).
    apply Nat2Z.inj. rewrite Nat2Z.inj_mod, Nat2Z.inj_div, Z2Nat.id by lia.
    change (Z.of_nat 4) with 4; change (Z.of_nat 16) with 16; change (Z.of_nat 0) with 0.
    Z.to_euclidean_division_equations. lia.
  - apply eqb_false_iff in E. rewrite cksum_swap_words by (by apply Forall_take). by destruct e, big.
Qed.

(** ** Frames *)

Lemma get4_put4 b0 b1 b2 b3 rest : bytes_ok [b0; b1; b2; b3] -> sqlite3Put4byte (sqlite3Get4byte (b0 :: b1 :: b2 :: b3 :: rest)) = [b0; b1; b2; b3].
Proof.
  intros Hb. unfold sqlite3Put4byte, sqlite3Get4byte, zat.
  change (Z.to_nat 0) with 0%nat; change (Z.to_nat 1) with 1%nat; change (Z.to_nat 2) with 2%nat; change (Z.to_nat 3) with 3%nat.
  cbn [nth]. rewrite !Forall_cons in Hb. unfold is_byte in Hb. change 256 with (2 ^ 8) in Hb. destruct Hb as (H0 & H1 & H2 & H3 & _).
  f_equal; [|f_equal; [|f_equal; [|f_equal]]]; bitblast.
Qed.

Lemma get4_range p : bytes_ok p -> 0 <= sqlite3Get4byte p < 2 ^ 32.
Proof.
  intros Hp. rewrite get4_be by done. pose proof (zat_range p 0 Hp). pose proof (zat_range p 1 Hp). pose proof (zat_range p 2 Hp). pose proof (zat_range p 3 Hp).
  unfold is_byte, be_value in *. cbn [fold_left]. pow2. lia.
Qed.

Lemma put4_bytes v : bytes_ok (sqlite3Put4byte v).
Proof. unfold sqlite3Put4byte. repeat (apply Forall_cons_2; [unfold is_byte; change 256 with (2 ^ 8); by apply wrapu_range|]). apply Forall_nil_2. Qed.

Definition pair32 (s : Z * Z) : Prop := 0 <= s.1 < 2 ^ 32 /\ 0 <= s.2 < 2 ^ 32.

Lemma cksum_add_32 s x0 x1 : pair32 (cksum_add s x0 x1).
Proof. split; by apply wrapu_range. Qed.

Lemma cksum_2_32 l s : pair32 s -> pair32 (cksum_2 l s).
Proof.
  revert s. induction l as [l IH] using (well_founded_induction (well_founded_ltof _ length)). unfold ltof in IH. intros s Hs.
  destruct l as [|x0 [|x1 l]]; [done..|]. cbn [cksum_2]. apply IH; [cbn; lia|]. apply cksum_add_32.
Qed.

(** The order of the words in the log, as its header says. *)
Definition order (w : Wal) : bool := bigEndCksum (hdr w) =? 1.

Record wal_ok (w : Wal) : Prop := {
  ok_big : bigEndCksum (hdr w) = 0 \/ bigEndCksum (hdr w) = 1;
  ok_salt : zlen (aSalt (hdr w)) = 8 /\ bytes_ok (aSalt (hdr w));
  ok_ck : pair32 (aFrameCksum (hdr w));
  ok_sz : 512 <= szPage w <= 65536
}.

Lemma native_order big w : wal_ok w -> native big w = Bool.eqb (order w) big.
Proof. intros H. unfold native, order. destruct (ok_big _ H) as [->| ->]; by destruct big. Qed.

(** The running checksum after a frame whose header starts with [hd]. *)
Definition frame_cksum (e : bool) (ck : Z * Z) (hd data : list Z) : Z * Z := cksum_2 (words e data) (cksum_2 (words e hd) ck).

Lemma frame_cksum_eq big w aFrame aData : wal_ok w -> bytes_ok aFrame -> 8 <= zlen aFrame -> bytes_ok aData -> zlen aData = szPage w ->
  walChecksumBytes big (native big w) aData (szPage w) (walChecksumBytes big (native big w) aFrame 8 (aFrameCksum (hdr w))) =
  frame_cksum (order w) (aFrameCksum (hdr w)) (take 8 aFrame) aData.
Proof.
  intros Hw Hf Hf8 Hd Hsz. pose proof (ok_sz _ Hw). rewrite (native_order big w Hw), !checksum_words by (done || lia).
  unfold frame_cksum. rewrite (take_ge aData); [done|]. unfold zlen in Hsz. lia.
Qed.

(** *** A frame as the format has it *)

Record wframe := mkFrame { f_pgno : Z; f_commit : Z; f_data : list Z }.

Definition frame_ok (pgsz : Z) (f : wframe) : Prop :=
  0 < f_pgno f < 2 ^ 32 /\ 0 <= f_commit f < 2 ^ 32 /\ bytes_ok (f_data f) /\ zlen (f_data f) = pgsz.

(** The running checksum after the frame, and the frame's header. *)
Definition next_ck (e : bool) (ck : Z * Z) (f : wframe) : Z * Z :=
  frame_cksum e ck (sqlite3Put4byte (f_pgno f) ++ sqlite3Put4byte (f_commit f)) (f_data f).

Definition frame_header (e : bool) (salt : list Z) (ck : Z * Z) (f : wframe) : list Z :=
  sqlite3Put4byte (f_pgno f) ++ sqlite3Put4byte (f_commit f) ++ salt ++
  sqlite3Put4byte (next_ck e ck f).1 ++ sqlite3Put4byte (next_ck e ck f).2.

Fixpoint log_bytes (e : bool) (salt : list Z) (ck : Z * Z) (fs : list wframe) : list Z :=
  match fs with
  | [] => []
  | f :: fs => frame_header e salt ck f ++ f_data f ++ log_bytes e salt (next_ck e ck f) fs
  end.

Lemma walEncodeFrame_eq big w pg nt aData : wal_ok w -> iReCksum w = 0 -> bytes_ok aData -> zlen aData = szPage w ->
  let f := mkFrame pg nt aData in
  walEncodeFrame big w pg nt aData =
  (frame_header (order w) (aSalt (hdr w)) (aFrameCksum (hdr w)) f, set_cksum w (next_ck (order w) (aFrameCksum (hdr w)) f)).
Proof.
  intros Hw Hre Hd Hsz f. unfold walEncodeFrame. rewrite Hre. cbn [Z.eqb].
  rewrite frame_cksum_eq; [|done|apply Forall_app; split; apply put4_bytes|done..].
  rewrite take_ge by done. unfold frame_header, next_ck. cbn [f f_pgno f_commit f_data]. by rewrite <- app_assoc.
Qed.

Lemma set_cksum_same w : w = set_cksum w (aFrameCksum (hdr w)).
Proof. by destruct w as [? ? ? []]. Qed.

Lemma set_cksum_ok w ck : wal_ok w -> pair32 ck -> wal_ok (set_cksum w ck).
Proof. intros [H1 H2 H3 H4] Hck. by split. Qed.

Lemma frame_cksum_32 e ck hd data : pair32 ck -> pair32 (frame_cksum e ck hd data).
Proof. intros H. by apply cksum_2_32, cksum_2_32. Qed.

Lemma get4_four p r : bytes_ok p -> zlen p = 4 -> sqlite3Put4byte (sqlite3Get4byte (p ++ r)) = p.
Proof.
  intros Hp Hl. unfold zlen in Hl. do 4 (destruct p as [|?b p]; [cbn in Hl; lia|]). destruct p as [|? p]; [|cbn in Hl; lia]. by apply get4_put4.
Qed.

(** The parts of a frame's header. *)
Lemma frame_parts aFrame : bytes_ok aFrame -> zlen aFrame = 24 -> exists p c s k1 k2,
  aFrame = p ++ c ++ s ++ k1 ++ k2 /\ (zlen p = 4 /\ zlen c = 4 /\ zlen s = 8 /\ zlen k1 = 4 /\ zlen k2 = 4) /\
  (bytes_ok p /\ bytes_ok c /\ bytes_ok s /\ bytes_ok k1 /\ bytes_ok k2).
Proof.
  intros Hb Hl. exists (take 4 aFrame), (take 4 (drop 4 aFrame)), (take 8 (drop 8 aFrame)), (take 4 (drop 16 aFrame)), (drop 20 aFrame).
  split; [|split; [unfold zlen in *; rewrite !length_take, !length_drop; lia|]; split_and!; repeat first [apply Forall_take|apply Forall_drop]; done].
  rewrite <- (take_drop 4 aFrame) at 1. f_equal. rewrite <- (take_drop 4 (drop 4 aFrame)) at 1. f_equal. rewrite drop_drop.
  rewrite <- (take_drop 8 (drop (4 + 4) aFrame)) at 1. f_equal. rewrite drop_drop.
  rewrite <- (take_drop 4 (drop (4 + 4 + 8) aFrame)) at 1. f_equal. by rewrite drop_drop.
Qed.

Lemma put4_inj v v' : 0 <= v < 2 ^ 32 -> 0 <= v' < 2 ^ 32 -> sqlite3Put4byte v = sqlite3Put4byte v' -> v = v'.
Proof. intros H H' E. rewrite <- (put4_get4 v []), <- (put4_get4 v' []) by done. by rewrite E. Qed.

Lemma length_put4 v : length (sqlite3Put4byte v) = 4%nat.
Proof. done. Qed.

Lemma zlen_frame_header e salt ck f : zlen salt = 8 -> zlen (frame_header e salt ck f) = 24.
Proof. intros H. unfold frame_header. rewrite !zlen_app, !zlen_put4. lia. Qed.

Lemma frame_header_bytes e salt ck f : bytes_ok salt -> bytes_ok (frame_header e salt ck f).
Proof. intros H. unfold frame_header. rewrite !Forall_app. split_and!; (apply put4_bytes || done). Qed.

(** The test accepts a header as the format has it, and nothing else. *)
Lemma decode_spec big w pg nt aData aFrame rest w' :
  wal_ok w -> bytes_ok aData -> zlen aData = szPage w -> bytes_ok (aFrame ++ rest) -> zlen aFrame = 24 ->
  let f := mkFrame pg nt aData in
  walDecodeFrame big w aData (aFrame ++ rest) = (Some (pg, nt), w') <->
  frame_ok (szPage w) f /\ aFrame = frame_header (order w) (aSalt (hdr w)) (aFrameCksum (hdr w)) f /\
  w' = set_cksum w (next_ck (order w) (aFrameCksum (hdr w)) f).
Proof.
  intros Hw Hd Hsz Hf Hlen f. destruct (ok_salt _ Hw) as [Hs8 Hsb]. pose proof Hf as Hf'. apply Forall_app in Hf' as [Hf0 Hr].
  assert (8 <= zlen (aFrame ++ rest)) as H8 by (rewrite zlen_app; pose proof (zlen_nonneg rest); lia).
  unfold walDecodeFrame. rewrite frame_cksum_eq by (done || lia).
  unfold frame_ok, frame_header, next_ck. cbn [f f_pgno f_commit f_data].
  destruct (frame_parts aFrame Hf0 Hlen) as (p & c & s & k1 & k2 & -> & (Lp & Lc & Ls & L1 & L2) & (Bp & Bc & Bs & B1 & B2)).
  rewrite <- !app_assoc in *.
  assert (fread (p ++ c ++ s ++ k1 ++ k2 ++ rest) 8 8 = s) as ->.
  { unfold fread. rewrite app_assoc, (zdrop_app 8) by (rewrite zlen_app; lia). apply take_app_length'. unfold zlen in Ls. lia. }
  assert (zdrop 4 (p ++ c ++ s ++ k1 ++ k2 ++ rest) = c ++ s ++ k1 ++ k2 ++ rest) as -> by (by apply zdrop_app).
  assert (zdrop 16 (p ++ c ++ s ++ k1 ++ k2 ++ rest) = k1 ++ k2 ++ rest) as ->.
  { replace (p ++ c ++ s ++ k1 ++ k2 ++ rest) with ((p ++ c ++ s) ++ (k1 ++ k2 ++ rest)) by (by rewrite <- !app_assoc).
    apply zdrop_app. rewrite !zlen_app. lia. }
  assert (zdrop 20 (p ++ c ++ s ++ k1 ++ k2 ++ rest) = k2 ++ rest) as ->.
  { replace (p ++ c ++ s ++ k1 ++ k2 ++ rest) with ((p ++ c ++ s ++ k1) ++ (k2 ++ rest)) by (by rewrite <- !app_assoc).
    apply zdrop_app. rewrite !zlen_app. lia. }
  assert (take 8 (p ++ c ++ s ++ k1 ++ k2 ++ rest) = p ++ c) as ->.
  { rewrite app_assoc. apply take_app_length'. rewrite length_app. unfold zlen in *. lia. }
  pose proof (get4_range _ Hf) as Rp. pose proof (get4_four p (c ++ s ++ k1 ++ k2 ++ rest) Bp Lp) as Ep.
  set (gp := sqlite3Get4byte (p ++ c ++ s ++ k1 ++ k2 ++ rest)) in *.
  assert (bytes_ok (c ++ s ++ k1 ++ k2 ++ rest)) as Bc' by (rewrite !Forall_app; tauto).
  pose proof (get4_range _ Bc') as Rc. pose proof (get4_four c (s ++ k1 ++ k2 ++ rest) Bc Lc) as Ec.
  set (gc := sqlite3Get4byte (c ++ s ++ k1 ++ k2 ++ rest)) in *.
  assert (bytes_ok (k1 ++ k2 ++ rest)) as B1' by (rewrite !Forall_app; tauto).
  pose proof (get4_range _ B1') as R1. pose proof (get4_four k1 (k2 ++ rest) B1 L1) as E1. set (g1 := sqlite3Get4byte (k1 ++ k2 ++ rest)) in *.
  assert (bytes_ok (k2 ++ rest)) as B2' by (rewrite !Forall_app; tauto).
  pose proof (get4_range _ B2') as R2. pose proof (get4_four k2 rest B2 L2) as E2. set (g2 := sqlite3Get4byte (k2 ++ rest)) in *.
  set (ck := frame_cksum (order w) (aFrameCksum (hdr w)) (p ++ c) aData).
  assert (pair32 ck) as [Hc1 Hc2] by apply frame_cksum_32, ok_ck, Hw.
  split.
  - intros H. case_bool_decide as Es; cbn [negb] in H; [|done]. destruct (gp =? 0) eqn:Eg; [done|].
    destruct (ck.1 =? g1) eqn:Ek1; [|done]. destruct (ck.2 =? g2) eqn:Ek2; [|done]. breflect. cbn [negb orb] in H. injection H as <- <- <-.
    rewrite Ep, Ec. fold ck. rewrite Ek1, Ek2, E1, E2, Es. split; [|done]. split; [lia|]. by split.
  - intros ((Hpg & Hnt & _) & H & Hw').
    apply app_inj_1 in H as [Hp H]; [|rewrite length_put4; unfold zlen in Lp; lia].
    apply app_inj_1 in H as [Hc H]; [|rewrite length_put4; unfold zlen in Lc; lia].
    apply app_inj_1 in H as [Hs H]; [|unfold zlen in *; lia]. apply app_inj_1 in H as [H1 H2]; [|rewrite length_put4; unfold zlen in L1; lia].
    rewrite <- Ep in Hp. rewrite <- Ec in Hc. apply put4_inj in Hp as <-; [|done|lia]. apply put4_inj in Hc as <-; [|done|done].
    rewrite Ep, Ec in H1, H2, Hw'. fold ck in H1, H2, Hw'. rewrite <- E1 in H1. rewrite <- E2 in H2.
    apply put4_inj in H1; [|done|done]. apply put4_inj in H2; [|done|done].
    rewrite bool_decide_true by done. cbn [negb]. rewrite (proj2 (Z.eqb_neq gp 0)) by lia.
    by rewrite <- H1, <- H2, !Z.eqb_refl, Hw'.
Qed.

(** *** The header of the log as the format has it *)

Definition wal_header_start (e : bool) (pgsz nc : Z) (salt : list Z) : list Z :=
  sqlite3Put4byte (Z.lor WAL_MAGIC (if e then 1 else 0)) ++ sqlite3Put4byte WAL_MAX_VERSION ++ sqlite3Put4byte pgsz ++ sqlite3Put4byte nc ++ salt.

Definition header_ck (e : bool) (pgsz nc : Z) (salt : list Z) : Z * Z := cksum_2 (words e (wal_header_start e pgsz nc salt)) (0, 0).

Definition wal_header_bytes (e : bool) (pgsz nc : Z) (salt : list Z) : list Z :=
  wal_header_start e pgsz nc salt ++ sqlite3Put4byte (header_ck e pgsz nc salt).1 ++ sqlite3Put4byte (header_ck e pgsz nc salt).2.

Definition page_size_ok (pgsz : Z) : Prop := 512 <= pgsz <= 65536 /\ Z.land pgsz (pgsz - 1) = 0.

Lemma get4_put4_app v rest : 0 <= v < 2 ^ 32 -> sqlite3Get4byte (sqlite3Put4byte v ++ rest) = v.
Proof. apply put4_get4. Qed.

Lemma zlen_header_start e pgsz nc salt : zlen salt = 8 -> zlen (wal_header_start e pgsz nc salt) = 24.
Proof. intros H. unfold wal_header_start. rewrite !zlen_app, !zlen_put4. lia. Qed.

Lemma header_start_bytes e pgsz nc salt : bytes_ok salt -> bytes_ok (wal_header_start e pgsz nc salt).
Proof. intros H. unfold wal_header_start. rewrite !Forall_app. split_and!; (apply put4_bytes || done). Qed.

Lemma header_ck_32 e pgsz nc salt : pair32 (header_ck e pgsz nc salt).
Proof. apply cksum_2_32. split; cbn; lia. Qed.

Lemma zlen_header e pgsz nc salt : zlen salt = 8 -> zlen (wal_header_bytes e pgsz nc salt) = 32.
Proof. intros H. unfold wal_header_bytes. rewrite !zlen_app, !zlen_put4, zlen_header_start by done. lia. Qed.

Lemma header_fields m v p n salt k1 k2 :
  0 <= m < 2 ^ 32 -> 0 <= v < 2 ^ 32 -> 0 <= p < 2 ^ 32 -> 0 <= n < 2 ^ 32 -> zlen salt = 8 -> 0 <= k1 < 2 ^ 32 -> 0 <= k2 < 2 ^ 32 ->
  let b := (sqlite3Put4byte m ++ sqlite3Put4byte v ++ sqlite3Put4byte p ++ sqlite3Put4byte n ++ salt) ++ sqlite3Put4byte k1 ++ sqlite3Put4byte k2 in
  sqlite3Get4byte b = m /\ sqlite3Get4byte (zdrop 4 b) = v /\ sqlite3Get4byte (zdrop 8 b) = p /\ sqlite3Get4byte (zdrop 12 b) = n /\
  fread b 16 8 = salt /\ sqlite3Get4byte (zdrop 24 b) = k1 /\ sqlite3Get4byte (zdrop 28 b) = k2.
Proof.
  intros Hm Hv Hp Hn Hs H1 H2 b. pose proof zlen_put4 as L4.
  assert (forall k l r, b = l ++ r -> zlen l = k -> zdrop k b = r) as Hd by (intros k l r -> <-; by apply zdrop_app).
  set (M := sqlite3Put4byte m) in *. set (W := sqlite3Put4byte v) in *. set (P := sqlite3Put4byte p) in *. set (C := sqlite3Put4byte n) in *.
  set (A := sqlite3Put4byte k1) in *. set (B := sqlite3Put4byte k2) in *.
  rewrite (Hd 4 M (W ++ P ++ C ++ salt ++ A ++ B)), (Hd 8 (M ++ W) (P ++ C ++ salt ++ A ++ B)), (Hd 12 (M ++ W ++ P) (C ++ salt ++ A ++ B)),
    (Hd 24 (M ++ W ++ P ++ C ++ salt) (A ++ B)), (Hd 28 (M ++ W ++ P ++ C ++ salt ++ A) B)
    by (first [unfold b; rewrite <- !app_assoc; reflexivity|unfold M, W, P, C, A; rewrite ?zlen_app, ?zlen_put4; lia]).
  assert (fread b 16 8 = salt) as ->.
  { unfold fread. rewrite (Hd 16 (M ++ W ++ P ++ C) (salt ++ A ++ B)); [|unfold b; by rewrite <- !app_assoc|done].
    apply take_app_length'. unfold zlen in Hs. lia. }
  split; [unfold b; rewrite <- !app_assoc; by apply put4_get4|].
  split_and!; [by apply put4_get4..|done|by apply put4_get4|]. rewrite <- (app_nil_r B). by apply put4_get4.
Qed.

(** The header of the state after a valid header was read. *)
Definition header_state (w : Wal) (e : bool) (pgsz nc : Z) (salt : list Z) : Wal :=
  set_nCkpt (set_szPage (set_hdr w (mkHdr 0 (if e then 1 else 0) 0 0 0 (header_ck e pgsz nc salt) salt)) pgsz) nc.

Lemma recover_header_spec {V : Vfs} {R : Reliable V} big e pgsz nc salt rest w :
  page_size_ok pgsz -> 0 <= nc < 2 ^ 32 -> zlen salt = 8 -> bytes_ok salt -> hdr w = zero_hdr ->
  recover_header big (wal_header_bytes e pgsz nc salt ++ rest) w = HdrFrames (header_state w e pgsz nc salt) pgsz.
Proof.
  intros [Hpg Hpow] Hnc Hs Hsb Hz. pose proof (zlen_header e pgsz nc salt Hs) as Hl. unfold recover_header.
  rewrite read_all by done. unfold os_read. assert (fread (wal_header_bytes e pgsz nc salt ++ rest) 0 WAL_HDRSIZE = wal_header_bytes e pgsz nc salt) as ->.
  { unfold fread, zdrop. cbn [Z.to_nat drop]. rewrite drop_0. apply take_app_length'. unfold zlen in Hl. unfold WAL_HDRSIZE. lia. }
  rewrite Hl. change (32 =? WAL_HDRSIZE) with true. cbn [Z.eqb SQLITE_OK negb].
  assert (walChecksumBytes big ((if e then 1 else 0) =? (if big then 1 else 0)) (wal_header_bytes e pgsz nc salt) (WAL_HDRSIZE - 2 * 4) (0, 0) = header_ck e pgsz nc salt) as Hck.
  { replace ((if e then 1 else 0) =? (if big then 1 else 0)) with (Bool.eqb e big) by (by destruct e, big).
    rewrite checksum_words; [|unfold wal_header_bytes; rewrite !Forall_app; split_and!; (apply put4_bytes || by apply header_start_bytes)|rewrite Hl; done].
    unfold header_ck. do 2 f_equal. apply take_app_length'. pose proof (zlen_header_start e pgsz nc salt Hs) as H. unfold zlen in H. unfold WAL_HDRSIZE. lia. }
  pose proof (header_ck_32 e pgsz nc salt) as [Hc1 Hc2].
  assert (0 <= Z.lor WAL_MAGIC (if e then 1 else 0) < 2 ^ 32) as Hm by (by destruct e).
  destruct (header_fields (Z.lor WAL_MAGIC (if e then 1 else 0)) WAL_MAX_VERSION pgsz nc salt _ _ Hm ltac:(done) ltac:(lia) Hnc Hs Hc1 Hc2) as (F1 & F2 & F3 & F4 & F5 & F6 & F7).
  fold (wal_header_start e pgsz nc salt) in *. fold (wal_header_bytes e pgsz nc salt) in *. set (b := wal_header_bytes e pgsz nc salt) in *.
  rewrite F1, F2, F3, F4, F5, F6, F7. rewrite wraps_small by (change (2 ^ (32 - 1)) with (2 * 2 ^ 30); lia).
  rewrite Hpow. change (SQLITE_MAX_PAGE_SIZE) with 65536. rewrite (proj2 (Z.ltb_ge 65536 pgsz)), (proj2 (Z.ltb_ge pgsz 512)) by lia.
  replace (Z.land (Z.lor WAL_MAGIC (if e then 1 else 0)) 0xFFFFFFFE) with WAL_MAGIC by (by destruct e).
  replace (Z.land (Z.lor WAL_MAGIC (if e then 1 else 0)) 1) with (if e then 1 else 0) by (by destruct e).
  rewrite Hck, !Z.eqb_refl, Hz. done.
Qed.

(** ** What recovery makes of a file *)

(** The last commit: its frame, the size of the database, the checksum. *)
Record commit := mkCommit { c_frame : Z; c_size : Z; c_cksum : Z * Z }.

Fixpoint last_commit (e : bool) (ck : Z * Z) (i : Z) (fs : list wframe) (c : commit) : commit :=
  match fs with
  | [] => c
  | f :: fs =>
      let ck := next_ck e ck f in
      last_commit e ck (i + 1) fs (if f_commit f =? 0 then c else mkCommit i (f_commit f) ck)
  end.

Fixpoint run_ck (e : bool) (ck : Z * Z) (fs : list wframe) : Z * Z :=
  match fs with [] => ck | f :: fs => run_ck e (next_ck e ck f) fs end.

Definition hdr_szPage (pgsz : Z) : Z := u16 (Z.lor (Z.land pgsz 0xff00) (Z.shiftr pgsz 16)).

(** The state in the middle of a recovery: the frames of pages [L] are indexed, [c] is the last
    commit among them. *)
Record recovering (e : bool) (salt : list Z) (pgsz : Z) (w : Wal) (L : list Z) (c : commit) : Prop := {
  r_ok : wal_ok w;
  r_order : order w = e;
  r_salt : aSalt (hdr w) = salt;
  r_sz : szPage w = pgsz;
  r_index : indexes (apWiData w) L;
  r_frame : mxFrame (hdr w) = c_frame c;
  r_size : nPage (hdr w) = c_size c;
  r_hdr : h_szPage (hdr w) = (if c_frame c =? 0 then 0 else hdr_szPage pgsz)
}.

Lemma last_commit_app e ck i fs fs' c :
  last_commit e ck i (fs ++ fs') c = last_commit e (run_ck e ck fs) (i + zlen fs) fs' (last_commit e ck i fs c).
Proof.
  revert ck i c. induction fs as [|f fs IH]; intros ck i c; [cbn; f_equal; unfold zlen; cbn; lia|].
  cbn [app last_commit run_ck]. rewrite IH. f_equal. rewrite zlen_cons. lia.
Qed.

Lemma log_bytes_app e salt ck fs fs' : log_bytes e salt ck (fs ++ fs') = log_bytes e salt ck fs ++ log_bytes e salt (run_ck e ck fs) fs'.
Proof. revert ck. induction fs as [|f fs IH]; intros ck; [done|]. cbn [app log_bytes run_ck]. by rewrite IH, !app_assoc. Qed.

Lemma run_ck_32 e ck fs : pair32 ck -> pair32 (run_ck e ck fs).
Proof. revert ck. induction fs as [|f fs IH]; intros ck H; [done|]. cbn [run_ck]. by apply IH, frame_cksum_32. Qed.

Lemma run_ck_app e ck fs fs' : run_ck e ck (fs ++ fs') = run_ck e (run_ck e ck fs) fs'.
Proof. revert ck. induction fs as [|f fs IH]; intros ck; [done|]. apply IH. Qed.

Lemma zlen_log_bytes e salt pgsz ck fs : zlen salt = 8 -> Forall (frame_ok pgsz) fs -> zlen (log_bytes e salt ck fs) = zlen fs * (pgsz + 24).
Proof.
  intros Hs. revert ck. induction fs as [|f fs IH]; intros ck Hf; [done|]. apply Forall_cons in Hf as [(_ & _ & _ & Hd) Hf].
  cbn [log_bytes]. rewrite !zlen_app, zlen_frame_header, IH, zlen_cons by done. lia.
Qed.

Lemma log_bytes_ok e salt pgsz ck fs : bytes_ok salt -> Forall (frame_ok pgsz) fs -> bytes_ok (log_bytes e salt ck fs).
Proof.
  intros Hs. revert ck. induction fs as [|f fs IH]; intros ck Hf; [constructor|]. apply Forall_cons in Hf as [(_ & _ & Hd & _) Hf].
  cbn [log_bytes]. rewrite !Forall_app. split; [by apply frame_header_bytes|]. split; [done|by apply IH].
Qed.

(** The bytes from frame [i] on. *)
Lemma zdrop_frame file pgsz i a b : 1 <= i -> 0 <= pgsz -> zdrop (walFrameOffset i pgsz) file = a ++ b -> zlen a = pgsz + 24 ->
  zdrop (walFrameOffset (i + 1) pgsz) file = b.
Proof.
  intros Hi Hp H Ha. unfold walFrameOffset, WAL_HDRSIZE, WAL_FRAME_HDRSIZE in *.
  replace (32 + (i + 1 - 1) * (pgsz + 24)) with (32 + (i - 1) * (pgsz + 24) + (pgsz + 24)) by lia.
  rewrite <- zdrop_zdrop by nia. rewrite H. by apply zdrop_app.
Qed.

(** Reading a whole frame. *)
Lemma read_frame {V : Vfs} {R : Reliable V} file pgsz i : 1 <= i -> 0 <= pgsz ->
  pgsz + 24 <= zlen (zdrop (walFrameOffset i pgsz) file) ->
  xRead file (pgsz + WAL_FRAME_HDRSIZE) (walFrameOffset i pgsz) = (SQLITE_OK, take (Z.to_nat (pgsz + 24)) (zdrop (walFrameOffset i pgsz) file)).
Proof.
  intros Hi Hp Hl. assert (0 <= walFrameOffset i pgsz) as Ho by (unfold walFrameOffset, WAL_HDRSIZE, WAL_FRAME_HDRSIZE; nia).
  rewrite read_all by (unfold WAL_FRAME_HDRSIZE; lia). unfold os_read. rewrite zlen_zdrop in Hl by done.
  rewrite zlen_fread by (unfold WAL_FRAME_HDRSIZE; lia). unfold WAL_FRAME_HDRSIZE. rewrite (proj2 (Z.eqb_eq _ _)) by lia. done.
Qed.

(** The rest of the file starts with no valid frame. *)
Definition no_frame (e : bool) (salt : list Z) (ck : Z * Z) (pgsz : Z) (tail : list Z) : Prop :=
  forall f rest, frame_ok pgsz f -> tail <> frame_header e salt ck f ++ f_data f ++ rest.

(** A frame that is there is decoded; when none is there, nothing is. *)
Lemma decode_there big w f : wal_ok w -> frame_ok (szPage w) f ->
  let b := frame_header (order w) (aSalt (hdr w)) (aFrameCksum (hdr w)) f ++ f_data f in
  walDecodeFrame big w (zdrop WAL_FRAME_HDRSIZE b) b = (Some (f_pgno f, f_commit f), set_cksum w (next_ck (order w) (aFrameCksum (hdr w)) f)).
Proof.
  intros Hw Hf b. destruct (ok_salt _ Hw) as [Hs Hsb]. destruct Hf as (Hp & Hc & Hd & Hl). unfold b, WAL_FRAME_HDRSIZE.
  rewrite (zdrop_app 24) by (by rewrite zlen_frame_header). apply decode_spec; [done..| |by apply zlen_frame_header|destruct f; done].
  apply Forall_app. split; [by apply frame_header_bytes|done].
Qed.

Lemma decode_not_there big w tail : wal_ok w -> bytes_ok tail -> szPage w + 24 <= zlen tail ->
  no_frame (order w) (aSalt (hdr w)) (aFrameCksum (hdr w)) (szPage w) tail ->
  let b := take (Z.to_nat (szPage w + 24)) tail in exists w', walDecodeFrame big w (zdrop WAL_FRAME_HDRSIZE b) b = (None, w') /\
    w' = set_cksum w (aFrameCksum (hdr w')) /\ pair32 (aFrameCksum (hdr w')).
Proof.
  intros Hw Ht Hl Hno b. pose proof (ok_sz _ Hw) as Hsz. assert (bytes_ok b) as Hb by (by apply Forall_take).
  assert (zlen b = szPage w + 24) as Hlb by (unfold b, zlen in *; rewrite length_take; lia).
  unfold WAL_FRAME_HDRSIZE. set (hd := take 24 b). assert (b = hd ++ zdrop 24 b) as Hbb by (symmetry; apply take_drop).
  assert (zlen hd = 24) as Hlh by (unfold hd, zlen in *; rewrite length_take; lia).
  assert (zlen (zdrop 24 b) = szPage w) as Hld by (rewrite zlen_zdrop by lia; lia).
  destruct (walDecodeFrame big w (zdrop 24 b) b) as [[[pg nt]|] w'] eqn:E.
  - exfalso. rewrite Hbb in E at 2. apply decode_spec in E; [|done|by apply Forall_drop|done|by rewrite <- Hbb|done].
    destruct E as (Hf & Hh & _). apply (Hno (mkFrame pg nt (zdrop 24 b)) (drop (Z.to_nat (szPage w + 24)) tail) Hf).
    cbn [f_data]. rewrite <- Hh, app_assoc, <- Hbb. unfold b. by rewrite take_drop.
  - exists w'. split; [done|]. pose proof (ok_ck _ Hw). unfold walDecodeFrame in E. repeat case_match; simplify_eq;
      (split; [first [reflexivity|apply set_cksum_same]|]); cbn [set_cksum set_hdr hdr aFrameCksum];
      first [assumption|rewrite frame_cksum_eq by (done || lia || by apply Forall_drop); by apply frame_cksum_32].
Qed.

(** *** The loop over frames *)

(** One frame of the file is entered. *)
Lemma recovering_step map_page e salt pgsz w L c f :
  (forall h, map_page h = SQLITE_OK) -> recovering e salt pgsz w L c -> frame_ok pgsz f ->
  let ck := next_ck e (aFrameCksum (hdr w)) f in
  exists w1, walIndexAppend map_page (set_cksum w ck) (zlen L + 1) (f_pgno f) = (SQLITE_OK, w1) /\
    hdr w1 = hdr (set_cksum w ck) /\ recovering e salt pgsz w1 (L ++ [f_pgno f]) c.
Proof.
  intros Hmap [H1 H2 H3 H4 H5 H6 H7 H8] (Hp & _) ck. pose proof (zlen_nonneg L).
  destruct (append_spec map_page (set_cksum w ck) L (zlen L) (f_pgno f) Hmap H5 ltac:(lia) ltac:(by left) Hp) as (w1 & Ha & Hr & Hi).
  rewrite take_ge in Hi by (unfold zlen; lia). exists w1. split; [exact Ha|]. rewrite Hr. split; [done|].
  split; [|done..]. apply set_cksum_ok with (w := set_pages w (apWiData w1)); [by destruct H1|]. apply frame_cksum_32, ok_ck, H1.
Qed.

Lemma recovering_commit e salt pgsz w L c np :
  recovering e salt pgsz w L c -> 0 <= c_frame c -> L <> [] -> 
  recovering e salt pgsz (set_commit w (zlen L) np (hdr_szPage pgsz)) L (mkCommit (zlen L) np (aFrameCksum (hdr w))).
Proof.
  intros [H1 H2 H3 H4 H5 H6 H7 H8] Hc HL. split; [by destruct H1|done..|].
  cbn [c_frame set_commit set_hdr hdr h_szPage]. rewrite (proj2 (Z.eqb_neq (zlen L) 0)); [done|].
  destruct L; [done|]. rewrite zlen_cons. pose proof (zlen_nonneg L). lia.
Qed.

Section recovery.
Context {V : Vfs} {R : Reliable V} (map_page : Z -> Z) (Hmap : forall h, map_page h = SQLITE_OK) (big : bool).

Lemma recover_frames_spec e salt pgsz file tail fs :
  forall n w L c, recovering e salt pgsz w L c -> 0 <= c_frame c -> Forall (frame_ok pgsz) fs -> bytes_ok tail ->
  zdrop (walFrameOffset (zlen L + 1) pgsz) file = log_bytes e salt (aFrameCksum (hdr w)) fs ++ tail ->
  no_frame e salt (run_ck e (aFrameCksum (hdr w)) fs) pgsz tail ->
  ((n <= length fs)%nat \/ pgsz + 24 <= zlen tail) ->
  exists w', let done := take n fs in let L' := L ++ map f_pgno done in
    let c' := last_commit e (aFrameCksum (hdr w)) (zlen L + 1) done c in
    recover_frames map_page big n file pgsz w (zlen L + 1) (c_cksum c) = (SQLITE_OK, zlen L' + 1, w', c_cksum c') /\
    recovering e salt pgsz w' L' c' /\ ((n <= length fs)%nat -> aFrameCksum (hdr w') = run_ck e (aFrameCksum (hdr w)) done).
Proof using All.
  induction fs as [|f fs IH]; intros n w L c Hr Hc Hfs Ht Hfile Hno Hn.
  - destruct n as [|n].
    { exists w. cbn [take map last_commit recover_frames run_ck]. rewrite app_nil_r. done. }
    destruct Hn as [Hn|Hl]; [cbn in Hn; lia|]. cbn [log_bytes app run_ck] in *.
    pose proof (ok_sz _ (r_ok _ _ _ _ _ _ Hr)) as Hsz. rewrite (r_sz _ _ _ _ _ _ Hr) in Hsz. pose proof (zlen_nonneg L).
    cbn [recover_frames take map last_commit length]. rewrite read_frame, Hfile by (rewrite ?Hfile; lia). cbn [Z.eqb SQLITE_OK negb].
    destruct (decode_not_there big w tail) as (w' & Hd & Hw' & Hck); [apply Hr|done|by rewrite (r_sz _ _ _ _ _ _ Hr)| |].
    { by rewrite (r_order _ _ _ _ _ _ Hr), (r_salt _ _ _ _ _ _ Hr), (r_sz _ _ _ _ _ _ Hr). }
    rewrite (r_sz _ _ _ _ _ _ Hr) in Hd. rewrite Hd. exists w'. rewrite app_nil_r. split; [done|]. split; [|intros; lia].
    rewrite Hw'. destruct Hr as [H1 H2 H3 H4 H5 H6 H7 H8]. split; [by apply set_cksum_ok|done..].
  - destruct n as [|n].
    { exists w. cbn [take map last_commit recover_frames run_ck]. rewrite app_nil_r. done. }
    apply Forall_cons in Hfs as [Hf Hfs]. pose proof Hf as (_ & _ & Hd & Hdl).
    pose proof (ok_sz _ (r_ok _ _ _ _ _ _ Hr)) as Hsz. rewrite (r_sz _ _ _ _ _ _ Hr) in Hsz. pose proof (zlen_nonneg L).
    pose proof (ok_salt _ (r_ok _ _ _ _ _ _ Hr)) as [Hs8 Hsb]. rewrite (r_salt _ _ _ _ _ _ Hr) in Hs8, Hsb.
    cbn [log_bytes] in Hfile. rewrite <- !app_assoc in Hfile. rewrite app_assoc in Hfile.
    set (hd := frame_header e salt (aFrameCksum (hdr w)) f) in *.
    assert (zlen (hd ++ f_data f) = pgsz + 24) as Hzl by (unfold hd; rewrite zlen_app, zlen_frame_header by done; lia).
    cbn [recover_frames]. rewrite read_frame by (rewrite ?Hfile, ?zlen_app; pose proof (zlen_nonneg (log_bytes e salt (next_ck e (aFrameCksum (hdr w)) f) fs)); pose proof (zlen_nonneg tail); rewrite ?zlen_app in *; lia).
    cbn [Z.eqb SQLITE_OK negb]. rewrite Hfile, take_app_length' by (unfold zlen in Hzl; lia).
    pose proof (decode_there big w f (r_ok _ _ _ _ _ _ Hr)) as Hdec.
    rewrite (r_order _ _ _ _ _ _ Hr), (r_salt _ _ _ _ _ _ Hr), (r_sz _ _ _ _ _ _ Hr) in Hdec.
    specialize (Hdec Hf). cbv zeta in Hdec. fold hd in Hdec. rewrite Hdec.
    destruct (recovering_step map_page e salt pgsz w L c f Hmap Hr Hf) as (w1 & Ha & Hh & Hr1). rewrite Ha. cbn [Z.eqb SQLITE_OK negb].
    set (ck := next_ck e (aFrameCksum (hdr w)) f) in *. assert (aFrameCksum (hdr w1) = ck) as Hck by (by rewrite Hh).
    assert (zlen (L ++ [f_pgno f]) = zlen L + 1) as HL1 by (by rewrite zlen_app).
    set (w2 := if negb (f_commit f =? 0) then set_commit w1 (zlen L + 1) (f_commit f) (hdr_szPage pgsz) else w1).
    set (c2 := if f_commit f =? 0 then c else mkCommit (zlen L + 1) (f_commit f) ck).
    assert (recovering e salt pgsz w2 (L ++ [f_pgno f]) c2 /\ aFrameCksum (hdr w2) = ck /\ 0 <= c_frame c2) as (Hr2 & Hck2 & Hc2).
    { unfold w2, c2. destruct (f_commit f =? 0); cbn [negb]; [done|]. split; [|split; [done|cbn; lia]].
      rewrite <- Hck, <- HL1. apply (recovering_commit _ _ _ _ _ c); [done..|]. by destruct L. }
    destruct (IH n w2 (L ++ [f_pgno f]) c2) as (w' & Hrun & Hr' & Hck'); [done..| | | |].
    { rewrite HL1, Hck2. apply (zdrop_frame file pgsz (zlen L + 1) (hd ++ f_data f)); [lia|lia|exact Hfile|exact Hzl]. }
    { by rewrite Hck2. }
    { cbn [length] in Hn. lia. }
    exists w'. cbn [take map last_commit run_ck]. rewrite Hck2, HL1, <- app_assoc in *. fold ck c2. split; [|split; [exact Hr'|]].
    + etransitivity; [|exact Hrun]. unfold w2, c2. destruct (f_commit f =? 0); cbn [negb c_cksum]; [done|]. by rewrite Hck.
    + intros Hle. apply Hck'. cbn [length] in Hle. lia.
Qed.

(** *** The loop over pages *)

Lemma indexes_junk pages L h p : indexes pages L -> 0 <= h -> zlen L <= zero h -> indexes (<[h := p]> pages) L.
Proof.
  intros HL Hh Hz h' Hh' Hn. rewrite lookup_insert_ne; [by apply HL|]. intros ->. apply chunk_nonempty in Hn; [lia|done].
Qed.

Lemma file_from e salt pgsz ck file fs tail k : zlen salt = 8 -> 0 <= pgsz -> Forall (frame_ok pgsz) fs ->
  zdrop 32 file = log_bytes e salt ck fs ++ tail -> (k <= length fs)%nat ->
  zdrop (walFrameOffset (Z.of_nat k + 1) pgsz) file = log_bytes e salt (run_ck e ck (take k fs)) (drop k fs) ++ tail.
Proof.
  intros Hs Hp Hfs H Hk. unfold walFrameOffset, WAL_HDRSIZE, WAL_FRAME_HDRSIZE.
  replace (32 + (Z.of_nat k + 1 - 1) * (pgsz + 24)) with (32 + Z.of_nat k * (pgsz + 24)) by lia.
  rewrite <- zdrop_zdrop, H by nia. rewrite <- (take_drop k fs) at 1. rewrite log_bytes_app, <- app_assoc. apply zdrop_app.
  rewrite (zlen_log_bytes _ _ pgsz) by (done || by apply Forall_take). unfold zlen. rewrite length_take. nia.
Qed.

Lemma last_commit_frame e ck i fs c : 0 <= i -> 0 <= c_frame c -> 0 <= c_frame (last_commit e ck i fs c).
Proof.
  revert ck i c. induction fs as [|f fs IH]; intros ck i c Hi Hc; [done|]. cbn [last_commit]. apply IH; [lia|]. by case_if.
Qed.

Lemma take_more {A} a b (l : list A) : 0 <= a <= b ->
  take (Z.to_nat a) l ++ take (Z.to_nat (b - a)) (drop (Z.to_nat a) l) = take (Z.to_nat b) l.
Proof.
  intros H. rewrite <- (take_drop (Z.to_nat a) (take (Z.to_nat b) l)). rewrite take_take, Nat.min_l by lia. f_equal.
  rewrite take_drop_commute. do 2 f_equal. lia.
Qed.

Section file.
Context (e : bool) (salt : list Z) (pgsz : Z) (ck0 : Z * Z) (c0 : commit) (file : list Z) (fs : list wframe) (tail : list Z) (N : Z).
Context (Hfs : Forall (frame_ok pgsz) fs) (Ht : bytes_ok tail) (Hfile : zdrop 32 file = log_bytes e salt ck0 fs ++ tail).
Context (Hno : no_frame e salt (run_ck e ck0 fs) pgsz tail) (HN : zlen fs <= N) (Htail : zlen fs < N -> pgsz + 24 <= zlen tail).
Context (Hc0 : 0 <= c_frame c0).

(** The first [k] frames of the log are recovered. *)
Definition recovered (w : Wal) (k : Z) : Prop :=
  recovering e salt pgsz w (map f_pgno (take (Z.to_nat k) fs)) (last_commit e ck0 1 (take (Z.to_nat k) fs) c0).

Lemma recover_page w z iLast : recovered w z -> aFrameCksum (hdr w) = run_ck e ck0 (take (Z.to_nat z) fs) ->
  0 <= z <= zlen fs -> z <= iLast <= N -> exists w',
  recover_frames map_page big (Z.to_nat (iLast - (1 + z) + 1)) file pgsz w (1 + z) (c_cksum (last_commit e ck0 1 (take (Z.to_nat z) fs) c0)) =
    (SQLITE_OK, Z.min iLast (zlen fs) + 1, w', c_cksum (last_commit e ck0 1 (take (Z.to_nat iLast) fs) c0)) /\
  recovered w' iLast /\ (iLast <= zlen fs -> aFrameCksum (hdr w') = run_ck e ck0 (take (Z.to_nat iLast) fs)).
Proof using All.
  intros Hr Hck Hz Hl. unfold recovered in *. pose proof (ok_salt _ (r_ok _ _ _ _ _ _ Hr)) as [Hs8 _]. rewrite (r_salt _ _ _ _ _ _ Hr) in Hs8.
  pose proof (ok_sz _ (r_ok _ _ _ _ _ _ Hr)) as Hsz. rewrite (r_sz _ _ _ _ _ _ Hr) in Hsz.
  pose proof (zlen_take z fs Hz) as Hzt. set (c := last_commit e ck0 1 (take (Z.to_nat z) fs) c0) in *.
  assert (zlen (map f_pgno (take (Z.to_nat z) fs)) = z) as HL by (unfold zlen in *; by rewrite length_map).
  destruct (recover_frames_spec e salt pgsz file tail (drop (Z.to_nat z) fs) (Z.to_nat (iLast - z)) w _ c Hr) as (w' & Hf & Hr' & Hck').
  - apply last_commit_frame; [lia|done].
  - by apply Forall_drop.
  - done.
  - rewrite HL, Hck. replace (z + 1) with (Z.of_nat (Z.to_nat z) + 1) by lia. apply file_from; try done; [lia|unfold zlen in Hz; lia].
  - rewrite Hck, <- run_ck_app, take_drop. done.
  - rewrite length_drop. unfold zlen in *. destruct (decide (iLast <= Z.of_nat (length fs))); [left; lia|right]. lia.
  - rewrite HL, Hck in *. exists w'. rewrite <- map_app, take_more in Hr', Hf by lia.
    assert (c_frame c = c_frame c) as _ by done.
    assert (last_commit e (run_ck e ck0 (take (Z.to_nat z) fs)) (z + 1) (take (Z.to_nat (iLast - z)) (drop (Z.to_nat z) fs)) c =
            last_commit e ck0 1 (take (Z.to_nat iLast) fs) c0) as Hc.
    { rewrite <- (take_more z iLast fs) by lia. rewrite last_commit_app, Hzt. fold c. f_equal. lia. }
    rewrite Hc in Hr', Hf. split; [|split; [exact Hr'|]].
    + replace (iLast - (1 + z) + 1) with (iLast - z) by lia. replace (1 + z) with (z + 1) by lia. etransitivity; [exact Hf|].
      do 3 f_equal. unfold zlen. rewrite length_map, length_take. unfold zlen in *. lia.
    + intros Hle. rewrite Hck' by (rewrite length_drop; unfold zlen in *; lia). rewrite <- run_ck_app, take_more by lia. done.
Qed.

Lemma recover_pages_spec junk n iPg w : Z.of_nat n = walFramePage N - iPg -> 0 <= iPg -> zero iPg <= zlen fs ->
  recovered w (zero iPg) -> aFrameCksum (hdr w) = run_ck e ck0 (take (Z.to_nat (zero iPg)) fs) ->
  exists w', recover_pages map_page big junk (S n) file pgsz N w iPg (c_cksum (last_commit e ck0 1 (take (Z.to_nat (zero iPg)) fs) c0)) =
      (SQLITE_OK, w', c_cksum (last_commit e ck0 1 fs c0)) /\ recovered w' (zlen fs).
Proof using All.
  revert iPg w. induction n as [n IH] using lt_wf_ind. intros iPg w Hn HiPg Hz Hr Hck.
  pose proof (zero_0 iPg HiPg) as Hz0. pose proof (zero_step iPg HiPg) as Hzs. cbn [recover_pages].
  unfold walIndexPage. rewrite Hmap. change (SQLITE_OK =? SQLITE_OK) with true. cbv iota.
  assert (HASHTABLE_NPAGE_ONE + iPg * HASHTABLE_NPAGE = zero (iPg + 1)) as ->.
  { unfold zero. rewrite (proj2 (Z.eqb_neq (iPg + 1) 0)) by lia. do 2 f_equal. lia. }
  change (if iPg =? 0 then 0 else HASHTABLE_NPAGE_ONE + (iPg - 1) * HASHTABLE_NPAGE) with (zero iPg).
  set (w0 := set_pages w (<[iPg := junk iPg]> (apWiData w))). set (iLast := Z.min N (zero (iPg + 1))).
  assert (recovered w0 (zero iPg)) as Hr0.
  { destruct Hr as [H1 H2 H3 H4 H5 H6 H7 H8]. split; [by destruct H1|done|done|done| |done..]. apply indexes_junk; [done|done|].
    unfold zlen. rewrite length_map, length_take. lia. }
  destruct (recover_page w0 (zero iPg) iLast Hr0 Hck ltac:(lia) ltac:(lia)) as (w1 & Hf & Hr1 & Hck1). rewrite Hf.
  assert (forall k, zlen fs <= k -> take (Z.to_nat k) fs = fs) as Htk by (intros k Hk; apply take_ge; unfold zlen in Hk; lia).
  destruct (Z.min iLast (zlen fs) + 1 <=? iLast) eqn:E; breflect.
  - exists w1. unfold recovered in *. rewrite (Htk iLast) in * by lia. rewrite (Htk (zlen fs)) by lia. done.
  - destruct n as [|n].
    + assert (iLast = N).
      { destruct (Z.le_gt_cases N (zero (iPg + 1))); [lia|]. exfalso.
        assert (iPg + 1 <= walFramePage N); [|lia]. rewrite <- (proj2 (framePage_iff (zero (iPg + 1) + 1) (iPg + 1) ltac:(lia))).
        - apply framePage_mono. lia.
        - pose proof (zero_step (iPg + 1) ltac:(lia)). lia. }
      cbn [recover_pages]. exists w1. unfold recovered in *. rewrite (Htk iLast) in * by lia. rewrite (Htk (zlen fs)) by lia. done.
    + assert (iLast = zero (iPg + 1)) as HiL.
      { assert (1 <= N) as HN1. { destruct (Z.le_gt_cases 1 N); [done|]. exfalso. unfold walFramePage, HASHTABLE_NPAGE in Hn. change HASHTABLE_NPAGE_ONE with 4062 in Hn.
          pose proof (zlen_nonneg fs). Z.to_euclidean_division_equations. lia. }
        destruct (framePage_in N HN1) as [_ HNz]. pose proof (zero_le (iPg + 1) (walFramePage N) ltac:(lia)). lia. }
      rewrite HiL in *. apply (IH n ltac:(lia) (iPg + 1) w1); [lia|lia|lia|exact Hr1|apply Hck1; lia].
Qed.
End file.
End recovery.

(** ** The whole recovery *)

(** What the state is after a recovery whose last commit is [c], of frames [fs]: the index stands
    for the frames up to the commit, and the header in shared memory says so. *)
Definition recovered_as (pgsz : Z) (w : Wal) (fs : list wframe) (c : commit) : Prop :=
  implements w (mkLog (map f_pgno (take (Z.to_nat (c_frame c)) fs)) (c_frame c)) /\
  live w = hdr w /\ h_szPage (hdr w) = (if c_frame c =? 0 then 0 else hdr_szPage pgsz) /\ mxFrame (hdr w) = c_frame c /\ nPage (hdr w) = c_size c /\ aFrameCksum (hdr w) = c_cksum c /\
  nBackfill (ckpt w) = 0 /\ nBackfillAttempted (ckpt w) = c_frame c.

Definition no_commit : commit := mkCommit 0 0 (0, 0).

Lemma last_commit_le e ck i fs c : 1 <= i -> c_frame c < i -> c_frame (last_commit e ck i fs c) < i + zlen fs.
Proof.
  revert ck i c. induction fs as [|f fs IH]; intros ck i c Hi Hc; [unfold zlen; cbn; lia|]. cbn [last_commit]. rewrite zlen_cons.
  replace (i + (1 + zlen fs)) with (i + 1 + zlen fs) by lia. apply IH; [lia|]. case_if; cbn [c_frame]; lia.
Qed.

Lemma last_commit_none e ck i fs c : Forall (fun g => f_commit g = 0) fs -> last_commit e ck i fs c = c.
Proof.
  revert ck i. induction fs as [|f fs IH]; intros ck i Hf; [done|]. apply Forall_cons in Hf as [Hf Hfs]. cbn [last_commit].
  rewrite Hf. cbn [Z.eqb]. by apply IH.
Qed.

Lemma marks_ok lock n i mx marks : (forall i n, lock i n = SQLITE_OK) -> fst (recover_marks lock n i mx SQLITE_OK marks) = SQLITE_OK.
Proof.
  intros Hl. revert i marks. induction n as [|n IH]; intros i marks; [done|]. cbn [recover_marks]. rewrite Hl. cbn [Z.eqb SQLITE_OK]. apply IH.
Qed.

Lemma finished_spec lock e salt pgsz w fs c : (forall i n, lock i n = SQLITE_OK) ->
  recovering e salt pgsz w (map f_pgno fs) c -> 0 <= c_frame c <= zlen fs ->
  exists w', recover_finished lock SQLITE_OK w (c_cksum c) = (SQLITE_OK, w') /\ recovered_as pgsz w' fs c.
Proof.
  intros Hl Hr Hc. unfold recover_finished. cbn [Z.eqb SQLITE_OK].
  match goal with |- context [recover_marks ?a ?b ?c ?d ?e ?g] => pose proof (marks_ok a b c d g Hl) as Hm; destruct (recover_marks a b c d e g) as [rc marks] end.
  cbn [fst] in Hm. subst rc. eexists. split; [reflexivity|]. destruct Hr as [H1 H2 H3 H4 H5 H6 H7 H8].
  split; [|cbn; by rewrite H6, H7, H8].
  apply implements_intro with (map f_pgno fs) (c_frame c); cbn [set_ckpt set_live set_cksum set_hdr apWiData hdr live mxFrame frames committed];
    [done..| | |lia|unfold zlen in *; rewrite length_map; lia].
  - by rewrite firstn_map.
  - done.
Qed.

Lemma header_only fs e salt ck pgsz tail : 0 <= pgsz -> zlen salt = 8 -> Forall (frame_ok pgsz) fs -> zlen (log_bytes e salt ck fs ++ tail) <= 0 -> fs = [].
Proof.
  intros Hp Hs Hf Hl. rewrite zlen_app, (zlen_log_bytes _ _ pgsz) in Hl by done. destruct fs as [|f fs]; [done|].
  rewrite zlen_cons in Hl. pose proof (zlen_nonneg fs). pose proof (zlen_nonneg tail). nia.
Qed.

Lemma header_state_recovering w e pgsz nc salt : page_size_ok pgsz -> zlen salt = 8 -> bytes_ok salt ->
  recovering e salt pgsz (header_state w e pgsz nc salt) [] no_commit.
Proof.
  intros [Hp _] Hs Hb. split; [|by destruct e|done|done|apply indexes_nil|done..].
  split; [by destruct e; [right|left]|done|apply header_ck_32|done].
Qed.

(** Every sequence of bytes is some valid frames and a rest that starts with none, so that the
    recovery of every log is known. *)
Lemma log_decomposes pgsz e salt : 512 <= pgsz <= 65536 -> zlen salt = 8 -> bytes_ok salt ->
  forall b ck, bytes_ok b -> pair32 ck -> exists fs tail,
    b = log_bytes e salt ck fs ++ tail /\ Forall (frame_ok pgsz) fs /\ bytes_ok tail /\ no_frame e salt (run_ck e ck fs) pgsz tail.
Proof.
  intros Hp Hs Hsb. induction b as [b IH] using (well_founded_induction (well_founded_ltof _ length)). unfold ltof in IH. intros ck Hb Hck.
  set (w := set_szPage (set_hdr wal0 (mkHdr 0 (if e then 1 else 0) 0 0 0 ck salt)) pgsz).
  assert (wal_ok w) as Hw by (split; [by destruct e; [right|left]|done..]).
  assert (order w = e) as Ho by (by destruct e).
  destruct (decide (pgsz + 24 <= zlen b)) as [Hl|Hl].
  - destruct (walDecodeFrame true w (take (Z.to_nat pgsz) (zdrop 24 b)) b) as [[[pg nt]|] w'] eqn:E.
    + set (f := mkFrame pg nt (take (Z.to_nat pgsz) (zdrop 24 b))).
      assert (b = take 24 b ++ zdrop 24 b) as Hb24 by (symmetry; apply take_drop). rewrite Hb24 in E at 2.
      apply decode_spec in E; [|done|by apply Forall_take, Forall_drop| |by rewrite <- Hb24|unfold zlen in *; rewrite length_take; lia].
      2: { pose proof (zlen_zdrop 24 b ltac:(lia)). unfold zlen in *. rewrite length_take. cbn [w szPage set_szPage]. lia. }
      destruct E as (Hf & Hh & _). rewrite Ho in Hh. cbn [w szPage set_szPage hdr set_hdr aSalt aFrameCksum] in Hf, Hh. fold f in Hf, Hh.
      destruct (IH (zdrop pgsz (zdrop 24 b))) with (ck := next_ck e ck f) as (fs & tail & Hbt & Hfs & Ht & Hno).
      * unfold zdrop. rewrite !length_drop. unfold zlen in Hl. lia.
      * by apply Forall_drop, Forall_drop.
      * by apply frame_cksum_32.
      * exists (f :: fs), tail. split; [|split; [by constructor|done]]. cbn [log_bytes]. rewrite <- !app_assoc, <- Hbt, <- Hh.
        rewrite Hb24 at 1. f_equal. symmetry. apply take_drop.
    + exists [], b. split; [done|]. split; [constructor|]. split; [done|]. cbn [run_ck]. intros f rest Hf Hbf.
      pose proof Hf as (_ & _ & Hd & Hdl).
      assert (walDecodeFrame true w (f_data f) (frame_header e salt ck f ++ f_data f ++ rest) = (Some (f_pgno f, f_commit f), set_cksum w (next_ck e ck f))) as E2.
      { apply decode_spec; [done|done|done|by rewrite <- Hbf|by apply zlen_frame_header|]. rewrite Ho. by destruct f. }
      rewrite <- Hbf in E2. rewrite Hbf in E at 1. rewrite (zdrop_app 24) in E by (by rewrite zlen_frame_header).
      rewrite take_app_length' in E by (unfold zlen in Hdl; lia). congruence.
  - exists [], b. split; [done|]. split; [constructor|]. split; [done|]. intros f rest (_ & _ & _ & Hdl) ->.
    rewrite !zlen_app, zlen_frame_header in Hl by done. pose proof (zlen_nonneg rest). lia.
Qed.

Section top.
Context {V : Vfs} {R : Reliable V} (map_page : Z -> Z) (lock : Z -> Z -> Z) (big : bool) (junk : Z -> wi_page).
Context (Hmap : forall h, map_page h = SQLITE_OK) (Hlock : forall i n, lock i n = SQLITE_OK).

(** A file that is a header, any number of valid frames and a rest that starts with none (a torn
    write, an old transaction, nothing). *)
Lemma recovery_spec e pgsz nc salt fs tail ckptLock w :
  page_size_ok pgsz -> 0 <= nc < 2 ^ 32 -> zlen salt = 8 -> bytes_ok salt -> Forall (frame_ok pgsz) fs -> bytes_ok tail ->
  let ck := header_ck e pgsz nc salt in
  no_frame e salt (run_ck e ck fs) pgsz tail ->
  let file := wal_header_bytes e pgsz nc salt ++ log_bytes e salt ck fs ++ tail in
  zlen file < 2 ^ 40 ->
  exists w', walIndexRecover map_page lock true SQLITE_OK big junk ckptLock w file = (SQLITE_OK, w') /\
    recovered_as pgsz w' fs (last_commit e ck 1 fs no_commit).
Proof using All.
  intros Hpg Hnc Hs Hsb Hfs Ht ck Hno file Hsize. pose proof (zlen_header e pgsz nc salt Hs) as Hl. destruct Hpg as [Hp Hpow].
  unfold walIndexRecover. rewrite Hlock. cbn [Z.eqb SQLITE_OK negb]. set (w0 := set_hdr w zero_hdr).
  assert (zlen file = 32 + zlen fs * (pgsz + 24) + zlen tail) as Hz by (unfold file; rewrite !zlen_app, (zlen_log_bytes _ _ pgsz) by done; lia).
  pose proof (zlen_nonneg fs). pose proof (zlen_nonneg tail).
  destruct (WAL_HDRSIZE <? zlen file) eqn:E; breflect.
  - unfold file at 1. rewrite recover_header_spec by first [done|by split].
    set (N := u32 ((zlen file - WAL_HDRSIZE) / (pgsz + WAL_FRAME_HDRSIZE))).
    unfold WAL_HDRSIZE, WAL_FRAME_HDRSIZE in N. assert (N = (zlen file - 32) / (pgsz + 24)) as HN.
    { unfold N. apply wrapu_small. split; [apply Z.div_pos; lia|]. apply Z.div_lt_upper_bound; [lia|]. change (2 ^ 40) with (2 ^ 32 * 2 ^ 8) in Hsize. lia. }
    assert (zlen fs <= N /\ (zlen fs < N -> pgsz + 24 <= zlen tail)) as [HN1 HN2].
    { rewrite HN, Hz. replace (32 + zlen fs * (pgsz + 24) + zlen tail - 32) with (zlen tail + zlen fs * (pgsz + 24)) by lia.
      rewrite Z.div_add by lia. pose proof (Z.div_pos (zlen tail) (pgsz + 24) ltac:(lia) ltac:(lia)). split; [lia|]. intros Hlt.
      destruct (Z.le_gt_cases (pgsz + 24) (zlen tail)); [done|]. rewrite (Z.div_small (zlen tail)) in Hlt by lia. lia. }
    assert (0 <= walFramePage N) as HpN.
    { unfold walFramePage, HASHTABLE_NPAGE. change HASHTABLE_NPAGE_ONE with 4062. apply Z.div_pos; lia. }
    replace (Z.to_nat (walFramePage N + 1)) with (S (Z.to_nat (walFramePage N))) by lia.
    destruct (recover_pages_spec map_page Hmap big e salt pgsz ck no_commit file fs tail N Hfs Ht) with
      (junk := junk) (n := Z.to_nat (walFramePage N)) (iPg := 0) (w := header_state w0 e pgsz nc salt) as (w1 & Hrun & Hr);
      [|done|done|done|done|lia|lia|done|by apply header_state_recovering|done|].
    { unfold file. by apply zdrop_app. }
    change (c_cksum (last_commit e ck 1 (take (Z.to_nat (zero 0)) fs) no_commit)) with (0, 0) in Hrun. rewrite Hrun.
    unfold recovered in Hr. rewrite take_ge in Hr by (unfold zlen; lia).
    apply (finished_spec lock e salt pgsz); [done|done|]. split; [by apply last_commit_frame|].
    pose proof (last_commit_le e ck 1 fs no_commit ltac:(lia) ltac:(done)). lia.
  - unfold WAL_HDRSIZE in E. assert (fs = []) as -> by (apply (header_only fs e salt ck pgsz tail); [lia|done|done|]; rewrite zlen_app, (zlen_log_bytes _ _ pgsz) by done; nia).
    cbn [last_commit]. change (0, 0) with (c_cksum no_commit).
    unfold recover_finished. cbn [Z.eqb SQLITE_OK].
    match goal with |- context [recover_marks ?a ?b ?c ?d ?e ?g] => pose proof (marks_ok a b c d g Hlock) as Hm; destruct (recover_marks a b c d e g) as [rc marks] end.
    cbn [fst] in Hm. subst rc. eexists. split; [reflexivity|]. split; [|done].
    apply implements_intro with [] 0; cbn; [apply indexes_nil|done..|lia|done].
Qed.

(** C26: Whatever bytes follow the header of a log, recovery succeeds: they are some valid frames
    and a rest that starts with no valid frame, and recovery finds the last of those frames that
    is a commit.  The index then stands for the frames up to it, the headers have its frame, its
    database size and its checksum, and nothing counts as checkpointed.  It holds on machines of
    either byte order, whatever the order the log was written in, and whatever the index and the
    buffers held before. *)
Theorem recovery_of_any_log e pgsz nc salt body ckptLock w :
  page_size_ok pgsz -> 0 <= nc < 2 ^ 32 -> zlen salt = 8 -> bytes_ok salt -> bytes_ok body -> zlen body < 2 ^ 39 ->
  let ck := header_ck e pgsz nc salt in
  exists fs tail w', body = log_bytes e salt ck fs ++ tail /\ Forall (frame_ok pgsz) fs /\ no_frame e salt (run_ck e ck fs) pgsz tail /\
    walIndexRecover map_page lock true SQLITE_OK big junk ckptLock w (wal_header_bytes e pgsz nc salt ++ body) = (SQLITE_OK, w') /\
    recovered_as pgsz w' fs (last_commit e ck 1 fs no_commit).
Proof using All.
  intros Hpg Hnc Hs Hsb Hb Hl ck. destruct (log_decomposes pgsz e salt (proj1 Hpg) Hs Hsb body ck Hb (header_ck_32 _ _ _ _)) as (fs & tail & -> & Hfs & Ht & Hno).
  destruct (recovery_spec e pgsz nc salt fs tail ckptLock w Hpg Hnc Hs Hsb Hfs Ht Hno) as (w' & Hr & Hrec).
  - rewrite zlen_app, zlen_header by done. change (2 ^ 40) with 1099511627776. change (2 ^ 39) with 549755813888 in Hl. fold ck. lia.
  - by exists fs, tail, w'.
Qed.

(** A crash loses no committed transaction and keeps no other: when the file has the frames
    of committed transactions, whole frames of one that was not committed, and a rest that starts
    with no valid frame, recovery ends exactly at the last commit. *)
Theorem crash_keeps_commits e pgsz nc salt fs f partial tail ckptLock w :
  page_size_ok pgsz -> 0 <= nc < 2 ^ 32 -> zlen salt = 8 -> bytes_ok salt ->
  Forall (frame_ok pgsz) (fs ++ [f] ++ partial) -> f_commit f <> 0 -> Forall (fun g => f_commit g = 0) partial -> bytes_ok tail ->
  let ck := header_ck e pgsz nc salt in
  no_frame e salt (run_ck e ck (fs ++ [f] ++ partial)) pgsz tail ->
  let file := wal_header_bytes e pgsz nc salt ++ log_bytes e salt ck (fs ++ [f] ++ partial) ++ tail in
  zlen file < 2 ^ 40 ->
  exists w', walIndexRecover map_page lock true SQLITE_OK big junk ckptLock w file = (SQLITE_OK, w') /\
    recovered_as pgsz w' (fs ++ [f]) (mkCommit (zlen fs + 1) (f_commit f) (run_ck e ck (fs ++ [f]))).
Proof using All.
  intros Hpg Hnc Hs Hsb Hfs Hf Hpart Ht ck Hno file Hsize.
  destruct (recovery_spec e pgsz nc salt _ tail ckptLock w Hpg Hnc Hs Hsb Hfs Ht Hno Hsize) as (w' & Hr & Hrec).
  exists w'. split; [exact Hr|].
  assert (last_commit e ck 1 (fs ++ [f] ++ partial) no_commit = mkCommit (zlen fs + 1) (f_commit f) (run_ck e ck (fs ++ [f]))) as Hc.
  { rewrite last_commit_app. cbn [app last_commit]. rewrite (proj2 (Z.eqb_neq _ _) Hf), run_ck_app. cbn [run_ck].
    rewrite (last_commit_none e _ _ partial) by done. f_equal. lia. }
  fold ck in Hrec. rewrite Hc in Hrec. destruct Hrec as (Hi & Hrest). split; [|exact Hrest].
  cbn [c_frame] in *. rewrite app_assoc, take_app_length' in Hi by (rewrite length_app; unfold zlen; cbn; lia).
  by rewrite take_ge by (rewrite length_app; unfold zlen; cbn; lia).
Qed.
End top.

(** The checksum of the bytes of a log does not depend on the byte order of the machine that
    computes it, nor on which of the three loops it takes. *)
Theorem checksum_portable big big' e a n s : bytes_ok a -> 0 <= n <= zlen a ->
  walChecksumBytes big (Bool.eqb e big) a n s = walChecksumBytes big' (Bool.eqb e big') a n s.
Proof. intros Ha Hn. by rewrite !checksum_words. Qed.

(** A frame's header passes the test of the reader exactly when it is the one the writer
    makes for that page, commit size and data in the same state, and both then have the same
    running checksum. *)
Theorem decode_iff_encode big w pg nt aData aFrame w' :
  wal_ok w -> iReCksum w = 0 -> bytes_ok aData -> zlen aData = szPage w -> bytes_ok aFrame -> zlen aFrame = 24 ->
  0 < pg < 2 ^ 32 -> 0 <= nt < 2 ^ 32 ->
  walDecodeFrame big w aData aFrame = (Some (pg, nt), w') <-> walEncodeFrame big w pg nt aData = (aFrame, w').
Proof.
  intros Hw Hre Hd Hsz Hf Hl Hpg Hnt. rewrite walEncodeFrame_eq by done. rewrite <- (app_nil_r aFrame) at 1.
  rewrite decode_spec by (rewrite ?app_nil_r; done). split.
  - by intros (_ & -> & ->).
  - intros [= <- <-]. by split.
Qed.

(** *** Witnesses *)

Definition salt_1 : list Z := [1; 2; 3; 4; 5; 6; 7; 8].
Definition wal_1k : Wal := set_szPage (set_hdr wal0 (mkHdr 0 1 0 0 0 (17, 42) salt_1)) 1024.

Lemma wal_1k_ok : wal_ok wal_1k.
Proof. split; [by right|by split; [|solve_bytes]|by split; cbn; lia|cbn; lia]. Qed.

Lemma page_bytes k n : 0 <= k < 256 -> bytes_ok (repeat k n).
Proof. intros Hk. induction n; cbn [repeat]; [apply Forall_nil_2|by apply Forall_cons_2]. Qed.

Lemma checksum_portable_witness : walChecksumBytes true true [1; 2; 3; 4; 5; 6; 7; 8] 8 (9, 10) = walChecksumBytes false false [1; 2; 3; 4; 5; 6; 7; 8] 8 (9, 10).
Proof. apply (checksum_portable true false true [1; 2; 3; 4; 5; 6; 7; 8] 8 (9, 10)); [solve_bytes|cbn; unfold zlen; cbn; lia]. Defined.

Example checksum_1 : walChecksumBytes true true [1; 2; 3; 4; 5; 6; 7; 8] 8 (9, 10) = (16909079, 101190185) /\
  walChecksumBytes false true [1; 2; 3; 4; 5; 6; 7; 8] 8 (9, 10) = (67306004, 201984035).
Proof. split; vm_compute; reflexivity. Qed.

Lemma decode_iff_encode_witness :
  let data := repeat 7 1024 in let r := walEncodeFrame true wal_1k 3 9 data in
  walDecodeFrame true wal_1k data r.1 = (Some (3, 9), r.2).
Proof.
  cbv zeta. apply (decode_iff_encode true wal_1k 3 9 (repeat 7 1024) _ _ wal_1k_ok);
    [reflexivity|apply page_bytes; lia|apply zlen_repeat| |reflexivity|lia|lia|apply surjective_pairing].
  rewrite walEncodeFrame_eq; [|apply wal_1k_ok|reflexivity|apply page_bytes; lia|apply zlen_repeat]. apply frame_header_bytes. solve_bytes.
Defined.

Definition frame_1 (c : Z) : wframe := mkFrame 3 c (repeat 7 512).

Lemma frame_1_ok c : 0 <= c < 2 ^ 32 -> frame_ok 512 (frame_1 c).
Proof. intros Hc. split; [cbn; lia|]. split; [done|]. split; [apply page_bytes; lia|apply zlen_repeat]. Qed.

Lemma no_frame_short e salt ck pgsz tail : 0 <= pgsz -> zlen salt = 8 -> zlen tail < 24 -> no_frame e salt ck pgsz tail.
Proof.
  intros Hp Hs Ht f rest (_ & _ & _ & Hd) ->. rewrite !zlen_app, zlen_frame_header in Ht by done.
  pose proof (zlen_nonneg rest). lia.
Qed.

(** The slow system above, a little-endian machine and a log written by a big-endian one. *)
#[local] Instance slow_reliable : Reliable (unix_vfs slow_read slow_write (fun _ => SQLITE_OK) 2).
Proof.
  apply unix_reliable; [apply slow_posix|intros k f off cnt x|intros k f off cnt x|done].
  - unfold slow_read. case_if; by intros [= <-].
  - unfold slow_write. case_if; by intros [= <-].
Qed.

Lemma recovery_of_any_log_witness : let ck := header_ck true 512 0 salt_1 in let body := repeat 65 2000 in
  exists fs tail w', body = log_bytes true salt_1 ck fs ++ tail /\ Forall (frame_ok 512) fs /\ no_frame true salt_1 (run_ck true ck fs) 512 tail /\
    walIndexRecover (V := unix_vfs slow_read slow_write (fun _ => SQLITE_OK) 2) maps (fun _ _ => SQLITE_OK) true SQLITE_OK false (fun _ => no_page)
      0 wal0 (wal_header_bytes true 512 0 salt_1 ++ body) = (SQLITE_OK, w') /\
    recovered_as 512 w' fs (last_commit true ck 1 fs no_commit).
Proof.
  apply (recovery_of_any_log (V := unix_vfs slow_read slow_write (fun _ => SQLITE_OK) 2) maps (fun _ _ => SQLITE_OK) false (fun _ => no_page)
    (fun _ => eq_refl) (fun _ _ => eq_refl) true 512 0 salt_1 (repeat 65 2000) 0 wal0).
  - split; [lia|reflexivity].
  - lia.
  - reflexivity.
  - solve_bytes.
  - apply page_bytes. lia.
  - rewrite zlen_repeat. reflexivity.
Defined.

Lemma crash_keeps_commits_witness : let ck := header_ck true 512 0 salt_1 in
  exists w', walIndexRecover (V := unix_vfs slow_read slow_write (fun _ => SQLITE_OK) 2) maps (fun _ _ => SQLITE_OK) true SQLITE_OK false (fun _ => no_page)
      0 wal0 (wal_header_bytes true 512 0 salt_1 ++ log_bytes true salt_1 ck ([frame_1 0] ++ [frame_1 9] ++ [frame_1 0]) ++ [1; 2; 3]) = (SQLITE_OK, w') /\
    recovered_as 512 w' ([frame_1 0] ++ [frame_1 9]) (mkCommit 2 9 (run_ck true ck ([frame_1 0] ++ [frame_1 9]))).
Proof.
  assert (Forall (frame_ok 512) ([frame_1 0] ++ [frame_1 9] ++ [frame_1 0])) as Hf.
  { cbn [app]. repeat (apply Forall_cons_2; [apply frame_1_ok; lia|]). apply Forall_nil_2. }
  apply (crash_keeps_commits (V := unix_vfs slow_read slow_write (fun _ => SQLITE_OK) 2) maps (fun _ _ => SQLITE_OK) false (fun _ => no_page)
    (fun _ => eq_refl) (fun _ _ => eq_refl) true 512 0 salt_1 [frame_1 0] (frame_1 9) [frame_1 0] [1; 2; 3] 0 wal0).
  - split; [lia|reflexivity].
  - lia.
  - reflexivity.
  - solve_bytes.
  - exact Hf.
  - discriminate.
  - apply Forall_cons_2; [reflexivity|apply Forall_nil_2].
  - solve_bytes.
  - apply no_frame_short; [lia|reflexivity|reflexivity].
  - rewrite !zlen_app, (zlen_log_bytes _ _ 512), zlen_header by (exact Hf || reflexivity). reflexivity.
Defined.
