(* ===== verification/WalIter.v ===== *)
(** * The iterator a checkpoint uses (wal.c of sqlite3.c)

    A checkpoint copies the frames of the log into the database file in the order of their pages,
    each page once, from its last frame.  [walIteratorInit] sorts the frames of each page of the
    wal-index by page number with an in-place merge sort that drops the earlier of two frames of
    one page; [walIteratorNext] merges the sorted segments.

    An array of slots is a list; a pointer into it is an offset.  [aPgno] of a segment is a
    pointer into shared memory: it is the number of the page of the index, and what is read
    through it is read from the index as it is then. *)

From Stdlib Require Import Sorted.
From S2P Require Import Prelude Bitwise Varint UnixFile WalIndex WalLog.
From stdpp Require Import options.

(** ** Sorting *)

Section sort.
Context (aContent : Z -> Z).

(** The loop of [walMerge]: what it leaves in [aTmp], from the rests of the two lists. *)
Fixpoint merge_loop (fuel : nat) (aLeft aRight : list Z) : list Z :=
  match fuel with
  | O => []
  | S fuel =>
      let step (logpage : Z) (aLeft aRight : list Z) :=
        let dbpage := aContent logpage in
        logpage :: merge_loop fuel (match aLeft with
                                    | x :: l => if aContent x =? dbpage then l else aLeft
                                    | [] => []
                                    end) aRight in
      match aLeft, aRight with
      | [], [] => []
      | x :: l, [] => step x l []
      | x :: l, y :: r => if aContent x <? aContent y then step x l aRight else step y aLeft r
      | [], y :: r => step y [] r
      end
  end.

(** A list in the array: its offset and its length. *)
Record sublist := mkSub { sl_aList : Z; sl_nList : Z }.

Definition slice (a : list Z) (s : sublist) : list Z := take (Z.to_nat (sl_nList s)) (zdrop (sl_aList s) a).

(** [memcpy(aLeft, aTmp, ...)] *)
Definition put (a : list Z) (off : Z) (l : list Z) : list Z := take (Z.to_nat off) a ++ l ++ zdrop (off + zlen l) a.

(** The array, and where the merged list is: [*paRight], [*pnRight]. *)
Definition walMerge (a : list Z) (left right : sublist) : list Z * sublist :=
  let out := merge_loop (Z.to_nat (sl_nList left + sl_nList right)) (slice a left) (slice a right) in
  (put a (sl_aList left) out, mkSub (sl_aList left) (zlen out)).

Definition nSub : nat := 13.

(** [for(iSub=0; iList & (1<<iSub); iSub++)], [n] rounds from [iSub]: the index of the first
    empty sublist, the array and the merged list. *)
Fixpoint carry_loop (iList : Z) (aSub : gmap Z sublist) (n : nat) (iSub : Z) (a : list Z) (aMerge : sublist)
  : Z * list Z * sublist :=
  match n with
  | O => (iSub, a, aMerge)
  | S n =>
      if Z.land iList (Z.shiftl 1 iSub) =? 0 then (iSub, a, aMerge)
      else
        let '(a, aMerge) := walMerge a (default (mkSub 0 0) (aSub !! iSub)) aMerge in
        carry_loop iList aSub n (iSub + 1) a aMerge
  end.

(** [for(iList=0; iList<nList; iList++)], [n] rounds from [iList]. *)
Fixpoint list_loop (n : nat) (iList : Z) (iSub : Z) (aSub : gmap Z sublist) (a : list Z) (aMerge : sublist)
  : Z * gmap Z sublist * list Z * sublist :=
  match n with
  | O => (iSub, aSub, a, aMerge)
  | S n =>
      let '(iSub, a, aMerge) := carry_loop iList aSub nSub 0 a (mkSub iList 1) in
      list_loop n (iList + 1) iSub (<[iSub := aMerge]> aSub) a aMerge
  end.

(** [for(iSub++; iSub<ArraySize(aSub); iSub++)], [n] rounds. *)
Fixpoint rest_loop (nList : Z) (aSub : gmap Z sublist) (n : nat) (iSub : Z) (a : list Z) (aMerge : sublist)
  : list Z * sublist :=
  match n with
  | O => (a, aMerge)
  | S n =>
      let '(a, aMerge) :=
        if negb (Z.land nList (Z.shiftl 1 iSub) =? 0)
        then walMerge a (default (mkSub 0 0) (aSub !! iSub)) aMerge
        else (a, aMerge) in
      rest_loop nList aSub n (iSub + 1) a aMerge
  end.

(** The array and [*pnList]. *)
Definition walMergesort (aList : list Z) (nList : Z) : list Z * Z :=
  let '(iSub, aSub, a, aMerge) := list_loop (Z.to_nat nList) 0 0 ∅ aList (mkSub 0 0) in
  let '(a, aMerge) := rest_loop nList aSub (nSub - Z.to_nat (iSub + 1)) (iSub + 1) a aMerge in
  (a, sl_nList aMerge).

End sort.

(** ** The iterator *)

Record WalSegment := mkSegment { iNext : Z; aIndex : list Z; sg_aPgno : Z; nEntry : Z; iZero : Z }.
Record WalIterator := mkIter { iPrior : Z; nSegment : Z; aSegment : list WalSegment }.

Definition segment0 : WalSegment := mkSegment 0 [] 0 0 0.

(** The page number at [i] of the [aPgno] of page [h] of the index. *)
Definition pgno_at (pages : gmap Z wi_page) (h i : Z) : Z := cell (aPgno (default no_page (pages !! h))) i.

(** [aIndex] before it is sorted. *)
Definition iota (n : Z) : list Z := map Z.of_nat (seq 0 (Z.to_nat n)).

(** The [for] over the pages of the index, [n] rounds from [i]. *)
Fixpoint init_loop (map_page : Z -> Z) (w : Wal) (nSeg : Z) (n : nat) (i : Z) (segs : list WalSegment) : Z + list WalSegment :=
  match n with
  | O => inr segs
  | S n =>
      match walHashGet map_page w i with
      | inl rc => inl rc
      | inr (_, z) =>
          let entries :=
            if i + 1 =? nSeg then mxFrame (hdr w) - z
            else if i =? 0 then HASHTABLE_NPAGE_ONE else HASHTABLE_NPAGE in
          let '(index, entries) := walMergesort (pgno_at (apWiData w) i) (iota entries) entries in
          init_loop map_page w nSeg n (i + 1) (<[Z.to_nat i := mkSegment 0 index i entries (z + 1)]> segs)
      end
  end.

(** [mem]: whether the allocation succeeds. *)
Definition walIteratorInit (map_page : Z -> Z) (mem : bool) (w : Wal) (nBackfill : Z) : Z + WalIterator :=
  let nSeg := walFramePage (mxFrame (hdr w)) + 1 in
  if negb mem then inl SQLITE_NOMEM
  else
    let i := walFramePage (nBackfill + 1) in
    match init_loop map_page w nSeg (Z.to_nat (nSeg - i)) i (repeat segment0 (Z.to_nat nSeg)) with
    | inl rc => inl rc
    | inr segs => inr (mkIter 0 nSeg segs)
    end.

(** [while( pSegment->iNext<pSegment->nEntry )]: the segment, [iRet] and [*piFrame]. *)
Fixpoint segment_loop (pages : gmap Z wi_page) (iMin : Z) (fuel : nat) (s : WalSegment) (iRet piFrame : Z) : WalSegment * Z * Z :=
  match fuel with
  | O => (s, iRet, piFrame)
  | S fuel =>
      if iNext s <? nEntry s then
        let iPg := pgno_at pages (sg_aPgno s) (zat (aIndex s) (iNext s)) in
        if iMin <? iPg then
          if iPg <? iRet then (s, iPg, iZero s + zat (aIndex s) (iNext s)) else (s, iRet, piFrame)
        else segment_loop pages iMin fuel (mkSegment (iNext s + 1) (aIndex s) (sg_aPgno s) (nEntry s) (iZero s)) iRet piFrame
      else (s, iRet, piFrame)
  end.

(** [for(i=p->nSegment-1; i>=0; i--)], the segments below [n]. *)
Fixpoint next_loop (pages : gmap Z wi_page) (iMin : Z) (n : nat) (segs : list WalSegment) (iRet piFrame : Z)
  : list WalSegment * Z * Z :=
  match n with
  | O => (segs, iRet, piFrame)
  | S i =>
      let s := nth i segs segment0 in
      let '(s, iRet, piFrame) := segment_loop pages iMin (Z.to_nat (nEntry s - iNext s) + 1) s iRet piFrame in
      next_loop pages iMin i (<[i := s]> segs) iRet piFrame
  end.

(** What is returned, the iterator, [*piPage] and [*piFrame]. *)
Definition walIteratorNext (pages : gmap Z wi_page) (p : WalIterator) (piFrame : Z) : bool * WalIterator * Z * Z :=
  let '(segs, iRet, piFrame) := next_loop pages (iPrior p) (Z.to_nat (nSegment p)) (aSegment p) 0xffffffff piFrame in
  (iRet =? 0xffffffff, mkIter iRet (nSegment p) segs, iRet, piFrame).

(** The pages and frames the iterator returns before it says there are no more; [None] when
    [fuel] calls are not enough.  [pages fuel] is the index at the call with [fuel] more calls to
    make: other connections write to it. *)
Fixpoint iterate (pages : nat -> gmap Z wi_page) (fuel : nat) (p : WalIterator) : option (list (Z * Z)) :=
  match fuel with
  | O => None
  | S fuel =>
      let '(fin, p, pg, fr) := walIteratorNext (pages fuel) p 0 in
      if fin : bool then Some [] else option_map (cons (pg, fr)) (iterate pages fuel p)
  end.

Example sort_1 : let c := zat [5; 3; 5; 9; 3; 1; 5] in
  let '(a, n) := walMergesort c [0; 1; 2; 3; 4; 5; 6] 7 in take (Z.to_nat n) a = [5; 4; 6; 3].
Proof. vm_compute. reflexivity. Qed.

Example iterate_1 :
  let w := append_all wal0 [5; 8197; 5; 7; 5] in
  let w := set_hdr w (set_mx hdr0 5 (0, 0)) in
  match walIteratorInit maps true w 0 with
  | inr p => iterate (fun _ => apWiData w) 4 p
  | inl _ => None
  end = Some [(5, 5); (7, 4); (8197, 2)].
Proof. vm_compute. reflexivity. Qed.

(** ** What the sort does *)

Section sort_spec.
Context (c : Z -> Z).

Definition ascending (l : list Z) : Prop := StronglySorted (fun x y => c x < c y) l.

(** [l] has, for every key of the indices [lo .. hi - 1], the last of them with that key, in the
    order of the keys. *)
Record sorted_last (lo hi : Z) (l : list Z) : Prop := {
  sl_asc : ascending l;
  sl_in : forall x, x ∈ l -> lo <= x < hi /\ forall j, x < j < hi -> c j <> c x;
  sl_all : forall j, lo <= j < hi -> exists x, x ∈ l /\ c x = c j
}.

Lemma asc_cons x l : ascending (x :: l) <-> ascending l /\ forall y, y ∈ l -> c x < c y.
Proof using.
  unfold ascending. split.
  - intros H. inversion H as [|? ? Hs Hf]; subst. split; [done|]. by apply Forall_forall.
  - intros [Hs Hf]. constructor; [done|]. by apply Forall_forall.
Qed.

Lemma asc_lookup l i j x y : ascending l -> l !! i = Some x -> l !! j = Some y -> (i < j)%nat -> c x < c y.
Proof using.
  revert i j. induction l as [|z l IH]; intros i j Ha Hx Hy Hij; [done|]. apply asc_cons in Ha as [Ha Hz].
  destruct j as [|j]; [lia|]. cbn in Hy. destruct i as [|i]; cbn in Hx.
  - injection Hx as ->. apply Hz, list_elem_of_lookup. by exists j.
  - apply (IH i j); [done..|lia].
Qed.

(** What remains of the left list when the entry with the key of the chosen one is dropped. *)
Definition drop_key (k : Z) (l : list Z) : list Z := match l with x :: l' => if c x =? k then l' else l | [] => [] end.

Lemma drop_key_in k l x : ascending l -> (forall y, y ∈ l -> k <= c y) -> x ∈ drop_key k l <-> x ∈ l /\ c x <> k.
Proof using.
  intros Ha Hk. destruct l as [|y l]; cbn [drop_key]; [set_solver|]. apply asc_cons in Ha as [Ha Hy].
  assert (k <= c y) by (apply Hk; set_solver).
  destruct (Z.eqb_spec (c y) k) as [E|E].
  - split; [intros Hx; specialize (Hy x Hx); split; [set_solver|lia]|]. intros [Hx Hn].
    apply elem_of_cons in Hx as [->|Hx]; [lia|done].
  - split; [intros Hx; split; [done|]|tauto]. apply elem_of_cons in Hx as [->|Hx]; [done|]. specialize (Hy x Hx). lia.
Qed.

Lemma drop_key_asc k l : ascending l -> ascending (drop_key k l) /\ (length (drop_key k l) <= length l)%nat.
Proof using.
  intros Ha. destruct l as [|y l]; cbn [drop_key]; [done|]. case_match; [|done]. apply asc_cons in Ha as [Ha _]. cbn [length]. split; [done|lia].
Qed.

(** The merged list is the right one and what the left one has besides. *)
Definition merged (l r out : list Z) : Prop :=
  ascending out /\ (length out <= length l + length r)%nat /\
  forall x, x ∈ out <-> x ∈ r \/ (x ∈ l /\ forall y, y ∈ r -> c y <> c x).

Lemma merged_cons x l r l' r' out :
  merged l' r' out -> (S (length l' + length r') <= length l + length r)%nat ->
  (forall y, y ∈ l' \/ y ∈ r' -> c x < c y) ->
  (forall y, y = x \/ y ∈ r' \/ (y ∈ l' /\ forall z, z ∈ r' -> c z <> c y) <-> y ∈ r \/ (y ∈ l /\ forall z, z ∈ r -> c z <> c y)) ->
  merged l r (x :: out).
Proof using.
  intros (Ha & Hn & Hm) Hlen Hx Hi. split_and!.
  - apply asc_cons. split; [done|]. intros y Hy. apply Hm in Hy. apply Hx. tauto.
  - cbn [length]. lia.
  - intros y. rewrite elem_of_cons, Hm. apply Hi.
Qed.

Lemma merge_loop_spec fuel l r : ascending l -> ascending r -> (length l + length r <= fuel)%nat -> merged l r (merge_loop c fuel l r).
Proof using.
  revert l r. induction fuel as [|fuel IH]; intros l r Hl Hr Hf.
  { destruct l, r; cbn [length] in Hf; [|lia..]. split_and!; [constructor|done|set_solver]. }
  cbn [merge_loop].
  destruct l as [|x l], r as [|y r]; cbv zeta.
  - split_and!; [constructor|done|set_solver].
  - apply asc_cons in Hr as Hr'. destruct Hr' as [Hr1 Hy]. cbn [length] in Hf.
    apply (merged_cons y _ _ [] r); [apply (IH [] r); [done|done|cbn [length] in *; lia]|cbn [length] in *; lia|set_solver|set_solver].
  - apply asc_cons in Hl as Hl'. destruct Hl' as [Hl1 Hx]. cbn [length] in Hf.
    destruct (drop_key_asc (c x) l Hl1) as [Hd1 Hd2].
    apply (merged_cons x _ _ (drop_key (c x) l) []); [apply (IH (drop_key (c x) l) []); [done|exact Hr|cbn [length] in *; lia]|cbn [length] in *; lia| |].
    + intros z [Hz|Hz]; [|set_solver]. apply drop_key_in in Hz; [|done|intros w Hw; specialize (Hx w Hw); lia]. apply Hx. tauto.
    + intros z. rewrite drop_key_in by (done || (intros w Hw; specialize (Hx w Hw); lia)). split; [set_solver|].
      intros [?|[Hz _]]; [set_solver|]. apply elem_of_cons in Hz as [->|Hz]; [by left|right; right]. specialize (Hx z Hz).
      split; [split; [done|lia]|set_solver].
  - apply asc_cons in Hl as Hl'. destruct Hl' as [Hl1 Hx]. apply asc_cons in Hr as Hr'. destruct Hr' as [Hr1 Hy]. cbn [length] in Hf.
    destruct (Z.ltb_spec (c x) (c y)) as [Hlt|Hge].
    + destruct (drop_key_asc (c x) l Hl1) as [Hd1 Hd2].
      assert (forall z, z ∈ drop_key (c x) l <-> z ∈ l /\ c z <> c x) as Hdk.
      { intros z. apply drop_key_in; [done|]. intros w Hw. specialize (Hx w Hw). lia. }
      apply (merged_cons x _ _ (drop_key (c x) l) (y :: r)); [apply (IH (drop_key (c x) l) (y :: r)); [done|done|cbn [length] in *; lia]|cbn [length] in *; lia| |].
      * intros z [Hz|Hz]; [apply Hdk in Hz; apply Hx; tauto|]. apply elem_of_cons in Hz as [->|Hz]; [done|]. specialize (Hy z Hz). lia.
      * intros z. rewrite Hdk. split.
        -- intros [->|[Hz|[[Hz Hne] Ho]]]; [right|by left|right; split; [set_solver|done]]. split; [set_solver|].
           intros w Hw. apply elem_of_cons in Hw as [->|Hw]; [lia|]. specialize (Hy w Hw). lia.
        -- intros [Hz|[Hz Ho]]; [by right; left|]. apply elem_of_cons in Hz as [->|Hz]; [by left|right; right].
           specialize (Hx z Hz). split; [split; [done|lia]|done].
    + destruct (drop_key_asc (c y) (x :: l) Hl) as [Hd1 Hd2].
      assert (forall w, w ∈ x :: l -> c y <= c w) as Hle.
      { intros w Hw. apply elem_of_cons in Hw as [->|Hw]; [done|]. specialize (Hx w Hw). lia. }
      pose proof (fun z => drop_key_in (c y) (x :: l) z Hl Hle) as Hdk.
      apply (merged_cons y _ _ (drop_key (c y) (x :: l)) r); [apply (IH (drop_key (c y) (x :: l)) r); [done|done|cbn [length] in *; lia]|cbn [length] in *; lia| |].
      * intros z [Hz|Hz]; [|by apply Hy]. apply Hdk in Hz as [Hz Hne]. specialize (Hle z Hz). lia.
      * intros z. rewrite Hdk. split.
        -- intros [->|[Hz|[[Hz Hne] Ho]]]; [left; set_solver|left; set_solver|right]. split; [done|].
           intros w Hw. apply elem_of_cons in Hw as [->|Hw]; [lia|by apply Ho].
        -- intros [Hz|[Hz Ho]]; [set_solver|]. right; right. split; [split; [done|]|].
           ++ intros E. apply (Ho y); [set_solver|done].
           ++ intros w Hw. apply Ho. set_solver.
Qed.

Lemma sorted_last_merge lo mid hi l r out : lo <= mid <= hi ->
  sorted_last lo mid l -> sorted_last mid hi r -> merged l r out -> sorted_last lo hi out.
Proof using.
  intros Hb [Hla Hli Hll] [Hra Hri Hrl] (Ha & _ & Hm). split; [done|..].
  - intros x Hx. apply Hm in Hx as [Hx|[Hx Hne]].
    + specialize (Hri x Hx) as [? Hj]. split; [lia|done].
    + specialize (Hli x Hx) as [? Hj]. split; [lia|]. intros j Hj'. destruct (Z.lt_ge_cases j mid) as [|Hge]; [apply Hj; lia|].
      destruct (Hrl j ltac:(lia)) as (y & Hy & <-). by apply Hne.
  - intros j Hj. destruct (Z.lt_ge_cases j mid) as [Hlt|Hge].
    + destruct (Hll j ltac:(lia)) as (x & Hx & Hk). destruct (decide (Exists (fun y => c y = c x) r)) as [He|He].
      * apply Exists_exists in He as (y & Hy & E). exists y. split; [apply Hm; by left|congruence].
      * exists x. split; [|done]. apply Hm. right. split; [done|]. intros y Hy E. apply He, Exists_exists. by exists y.
    + destruct (Hrl j ltac:(lia)) as (x & Hx & Hk). exists x. split; [apply Hm; by left|done].
Qed.

(** *** The array *)

Lemma zlen_put a off l : 0 <= off -> off + zlen l <= zlen a -> zlen (put a off l) = zlen a.
Proof using.
  intros Ho Hl. unfold put. rewrite !zlen_app, zlen_take, zlen_zdrop by (pose proof (zlen_nonneg l); lia). lia.
Qed.

Lemma slice_put a off l : 0 <= off <= zlen a -> slice (put a off l) (mkSub off (zlen l)) = l.
Proof using.
  intros Ho. unfold slice, put. cbn [sl_aList sl_nList]. rewrite zdrop_app by (rewrite zlen_take; lia).
  unfold zlen. rewrite Nat2Z.id. apply take_app_length.
Qed.

Lemma zat_put_ge a off l j : 0 <= off -> off + zlen l <= j -> off <= zlen a -> zat (put a off l) j = zat a j.
Proof using.
  intros Ho Hj Ha. pose proof (zlen_nonneg l). unfold put. rewrite app_assoc.
  replace j with (zlen (take (Z.to_nat off) a ++ l) + (j - off - zlen l)) at 1 by (rewrite zlen_app, zlen_take; lia).
  rewrite zat_app_r, zat_zdrop by lia. f_equal. lia.
Qed.

Lemma slice_put_lt a off l s : 0 <= sl_aList s -> 0 <= sl_nList s -> sl_aList s + sl_nList s <= off <= zlen a ->
  slice (put a off l) s = slice a s.
Proof using.
  intros Hs Hn Ho. unfold slice, put, zdrop, zlen in *. rewrite drop_app_le by (rewrite length_take; lia).
  rewrite take_app_le by (rewrite length_drop, length_take; lia).
  rewrite !take_drop_commute, take_take. do 2 f_equal. lia.
Qed.

(** A sorted list in the array that stands for the indices [lo .. hi - 1] and starts at [lo]. *)
Record part (a : list Z) (s : sublist) (lo hi : Z) : Prop := {
  p_off : sl_aList s = lo;
  p_lo : 0 <= lo;
  p_hi : lo <= hi <= zlen a;
  p_len : 0 <= sl_nList s <= hi - lo;
  p_sorted : sorted_last lo hi (slice a s)
}.

Lemma part_length a s lo hi : part a s lo hi -> zlen (slice a s) = sl_nList s.
Proof using. intros [Ho ? ? ? _]. unfold slice. rewrite zlen_take; [done|]. rewrite zlen_zdrop by lia. lia. Qed.

Lemma walMerge_spec a left right lo mid hi a' s' :
  part a left lo mid -> part a right mid hi -> walMerge c a left right = (a', s') ->
  part a' s' lo hi /\ zlen a' = zlen a /\ (forall j, hi <= j -> zat a' j = zat a j) /\
  (forall s lo' hi', part a s lo' hi' -> hi' <= lo -> part a' s lo' hi').
Proof using.
  intros Hl Hr. unfold walMerge. set (out := merge_loop _ _ _ _). intros E. injection E as <- <-.
  assert (merged (slice a left) (slice a right) out) as Hm.
  { apply merge_loop_spec; [apply (sl_asc _ _ _ (p_sorted _ _ _ _ Hl))|apply (sl_asc _ _ _ (p_sorted _ _ _ _ Hr))|].
    pose proof (part_length _ _ _ _ Hl). pose proof (part_length _ _ _ _ Hr). unfold zlen in *. lia. }
  assert (zlen out <= hi - lo) as Hlen.
  { pose proof (part_length _ _ _ _ Hl) as H1. pose proof (part_length _ _ _ _ Hr) as H2. destruct Hm as (_ & Hm & _).
    pose proof (p_len _ _ _ _ Hl). pose proof (p_len _ _ _ _ Hr). unfold zlen in *. lia. }
  pose proof (p_off _ _ _ _ Hl) as ->. pose proof (p_lo _ _ _ _ Hl). pose proof (p_hi _ _ _ _ Hl). pose proof (p_hi _ _ _ _ Hr).
  pose proof (zlen_nonneg out).
  assert (zlen (put a lo out) = zlen a) as Hz by (apply zlen_put; lia). split_and!; [split; cbn [sl_aList sl_nList]|done|..].
  - done.
  - done.
  - rewrite Hz. lia.
  - lia.
  - rewrite slice_put by lia. apply sorted_last_merge with mid (slice a left) (slice a right);
      [lia|apply (p_sorted _ _ _ _ Hl)|apply (p_sorted _ _ _ _ Hr)|done].
  - intros j Hj. apply zat_put_ge; lia.
  - intros s lo' hi' [Ho Hlo Hhi Hn Hs] Hle. split; [done|done|rewrite Hz; lia|done|]. rewrite slice_put_lt by lia. done.
Qed.

Lemma slice_1 a i : 0 <= i < zlen a -> slice a (mkSub i 1) = [zat a i].
Proof using.
  intros Hi. unfold slice, zat, zdrop. cbn [sl_aList sl_nList]. change (Z.to_nat 1) with 1%nat.
  destruct (drop (Z.to_nat i) a) as [|x l] eqn:E.
  - apply (f_equal length) in E. rewrite length_drop in E. cbn [length] in E. unfold zlen in Hi. lia.
  - cbn [take]. f_equal. rewrite <- (take_drop (Z.to_nat i) a), E, app_nth2; rewrite length_take; unfold zlen in Hi; [|lia].
    by rewrite Nat.min_l, Nat.sub_diag by lia.
Qed.

Lemma part_1 a i : 0 <= i < zlen a -> zat a i = i -> part a (mkSub i 1) i (i + 1).
Proof using.
  intros Hi E. split; cbn [sl_aList sl_nList]; [done|lia..|]. rewrite slice_1, E by done. split.
  - repeat constructor.
  - intros x ->%list_elem_of_singleton. split; [lia|]. intros j Hj. lia.
  - intros j Hj. exists i. split; [set_solver|]. f_equal. lia.
Qed.

(** *** The sublists: one for each bit of the number of elements *)

(** The elements that the sublists of the bits from [k] on stand for. *)
Definition above (n k : Z) : Z := n / 2 ^ k * 2 ^ k.

Lemma bit_test n k : 0 <= k -> (Z.land n (Z.shiftl 1 k) =? 0) = negb (Z.testbit n k).
Proof using.
  intros Hk. rewrite Z.shiftl_1_l. destruct (Z.testbit n k) eqn:E; cbn [negb].
  - apply Z.eqb_neq. intros H. apply (f_equal (fun x => Z.testbit x k)) in H.
    rewrite Z.land_spec, E, Z.pow2_bits_true, Z.bits_0 in H by done. done.
  - apply Z.eqb_eq. apply Z.bits_inj'. intros j Hj. rewrite Z.land_spec, Z.bits_0, Z.pow2_bits_eqb by done.
    destruct (Z.eqb_spec k j) as [<-|]; [by rewrite E|apply andb_false_r].
Qed.

Lemma above_step n k : 0 <= k -> above n k = above n (k + 1) + (if Z.testbit n k then 2 ^ k else 0).
Proof using.
  intros Hk. unfold above. pose proof (Z.testbit_spec' n k Hk) as Hb. rewrite Z.pow_add_r by lia. change (2 ^ 1) with 2.
  assert (0 < 2 ^ k) by (apply Z.pow_pos_nonneg; lia). rewrite <- Z.div_div by lia.
  pose proof (Z.div_mod (n / 2 ^ k) 2 ltac:(lia)) as Hd. rewrite <- Hb in Hd. destruct (Z.testbit n k); cbn [Z.b2z] in Hd; nia.
Qed.

Lemma above_0 n : above n 0 = n.
Proof using. unfold above. change (2 ^ 0) with 1. rewrite Z.div_1_r. lia. Qed.

Lemma above_le n k : 0 <= n -> 0 <= k -> 0 <= above n k <= n.
Proof using.
  intros Hn Hk. unfold above. assert (0 < 2 ^ k) by (apply Z.pow_pos_nonneg; lia).
  pose proof (Z.div_pos n (2 ^ k) ltac:(lia) ltac:(lia)). pose proof (Z.mul_div_le n (2 ^ k) ltac:(lia)). nia.
Qed.

Lemma above_anti n k k' : 0 <= n -> 0 <= k <= k' -> above n k' <= above n k.
Proof using.
  intros Hn Hk. unfold above. replace (2 ^ k') with (2 ^ k * 2 ^ (k' - k)) by (rewrite <- Z.pow_add_r by lia; f_equal; lia).
  assert (0 < 2 ^ k) by (apply Z.pow_pos_nonneg; lia). assert (0 < 2 ^ (k' - k)) by (apply Z.pow_pos_nonneg; lia).
  rewrite <- Z.div_div by lia. pose proof (Z.mul_div_le (n / 2 ^ k) (2 ^ (k' - k)) ltac:(lia)). nia.
Qed.

(** Before element [n] is entered, the sublist of each bit of [n] stands for that many elements,
    the higher bits first, and the elements from [n] on are where they were. *)
Record sublists (N n : Z) (aSub : gmap Z sublist) (a : list Z) : Prop := {
  s_len : zlen a = N;
  s_part : forall k, 0 <= k -> Z.testbit n k = true ->
    part a (default (mkSub 0 0) (aSub !! k)) (above n (k + 1)) (above n k);
  s_rest : forall j, n <= j < N -> zat a j = j
}.

Lemma bit_clear n k : 0 <= n < 2 ^ k -> 0 <= k -> Z.testbit n k = false.
Proof using. intros Hn Hk. apply Z.testbit_false; [done|]. by rewrite Z.div_small. Qed.

(** The loop entered with the sublists of the bits below [k] merged leaves at the first bit of
    [n] that is clear. *)
Lemma carry_loop_spec N n aSub fuel k a m :
  0 <= n < N -> 0 <= k -> n - above n k = 2 ^ k - 1 -> n < 2 ^ (k + Z.of_nat fuel) ->
  zlen a = N -> (forall j, n < j < N -> zat a j = j) -> part a m (above n k) (n + 1) ->
  (forall j, k <= j -> Z.testbit n j = true -> part a (default (mkSub 0 0) (aSub !! j)) (above n (j + 1)) (above n j)) ->
  exists k' a' m', carry_loop c n aSub fuel k a m = (k', a', m') /\ 0 <= k' /\ Z.testbit n k' = false /\ n - above n k' = 2 ^ k' - 1 /\
    zlen a' = N /\ (forall j, n < j < N -> zat a' j = j) /\ part a' m' (above n k') (n + 1) /\
    (forall j, k' <= j -> Z.testbit n j = true -> part a' (default (mkSub 0 0) (aSub !! j)) (above n (j + 1)) (above n j)).
Proof using.
  intros Hn. revert k a m. induction fuel as [|fuel IH]; intros k a m Hk Hmod Hlt Hlen Hrest Hm Hs; cbn [carry_loop].
  { exists k, a, m. split_and!; try done. apply bit_clear; [|done]. rewrite Nat2Z.inj_0, Z.add_0_r in Hlt. lia. }
  rewrite bit_test by done. destruct (Z.testbit n k) eqn:E; cbn [negb]; [|by exists k, a, m].
  pose proof (above_step n k Hk) as Hab. rewrite E in Hab.
  destruct (walMerge c a (default (mkSub 0 0) (aSub !! k)) m) as [a1 m1] eqn:Em.
  destruct (walMerge_spec _ _ _ _ _ _ _ _ (Hs k ltac:(lia) E) Hm Em) as (H1 & H2 & H3 & H4).
  apply IH; try done.
  - lia.
  - rewrite Z.pow_add_r by lia. change (2 ^ 1) with 2. lia.
  - replace (k + 1 + Z.of_nat fuel) with (k + Z.of_nat (S fuel)) by lia. done.
  - by rewrite H2.
  - intros j Hj. rewrite H3 by lia. by apply Hrest.
  - intros j Hj Hb. apply H4; [apply Hs; [lia|done]|]. apply above_anti; lia.
Qed.

(** Where the bits of [n + 1] differ from those of [n]: [k] is the first clear bit of [n]. *)
Lemma above_succ n k : 0 <= n -> 0 <= k -> Z.testbit n k = false -> n - above n k = 2 ^ k - 1 ->
  above (n + 1) k = n + 1 /\ above (n + 1) (k + 1) = above n k /\
  (forall j, k < j -> above (n + 1) j = above n j /\ Z.testbit (n + 1) j = Z.testbit n j) /\
  (forall j, 0 <= j < k -> Z.testbit (n + 1) j = false).
Proof using.
  intros Hn Hk Hb Hmod. pose proof (above_step n k Hk) as Hs. rewrite Hb, Z.add_0_r in Hs.
  assert (0 < 2 ^ k) as Hp by (apply Z.pow_pos_nonneg; lia).
  assert (n + 1 = (n / 2 ^ k + 1) * 2 ^ k) as E1 by (unfold above in Hmod; lia).
  assert (above (n + 1) k = n + 1) as Ha by (unfold above; rewrite E1 at 1; rewrite Z.div_mul by lia; lia).
  assert ((n + 1) / 2 ^ (k + 1) = n / 2 ^ (k + 1)) as Ed.
  { symmetry. apply Z.div_unique with (2 ^ k); rewrite Z.pow_add_r in * by lia; change (2 ^ 1) with 2 in *; [lia|].
    unfold above in Hs at 2. rewrite Z.pow_add_r in Hs by lia. change (2 ^ 1) with 2 in Hs. lia. }
  assert (forall j, k < j -> (n + 1) / 2 ^ j = n / 2 ^ j) as Hq.
  { intros j Hj. replace (2 ^ j) with (2 ^ (k + 1) * 2 ^ (j - (k + 1))) by (rewrite <- Z.pow_add_r by lia; f_equal; lia).
    assert (0 < 2 ^ (j - (k + 1))) by (apply Z.pow_pos_nonneg; lia). rewrite <- !Z.div_div, Ed by (try apply Z.pow_nonzero; lia). done. }
  split_and!; [done|unfold above; rewrite Hq by lia; symmetry; exact Hs|..].
  - intros j Hj. unfold above. rewrite Hq by done. split; [done|]. apply Z.b2z_inj. rewrite !Z.testbit_spec', Hq by lia. done.
  - intros j Hj. pose proof (above_step (n + 1) j ltac:(lia)) as Hj1. pose proof (above_anti (n + 1) (j + 1) k ltac:(lia) ltac:(lia)).
    pose proof (above_le (n + 1) j ltac:(lia) ltac:(lia)). assert (0 < 2 ^ j) by (apply Z.pow_pos_nonneg; lia).
    destruct (Z.testbit (n + 1) j); [lia|done].
Qed.

(** A state of the loop over the list after [n] elements; [k] is the last bit that was set. *)
Definition entered (N n k : Z) (aSub : gmap Z sublist) (a : list Z) (m : sublist) : Prop :=
  sublists N n aSub a /\ (0 < n -> 0 <= k /\ above n k = n /\ Z.testbit n k = true /\ m = default (mkSub 0 0) (aSub !! k)).

Lemma list_loop_spec N m0 cnt n k aSub a : 0 <= n -> n + Z.of_nat cnt = N -> N <= 2 ^ Z.of_nat nSub -> entered N n k aSub a m0 ->
  exists k' aSub' a' m', list_loop c cnt n k aSub a m0 = (k', aSub', a', m') /\ entered N N k' aSub' a' m'.
Proof using.
  revert m0 n k aSub a. induction cnt as [|cnt IH]; intros m0 n k aSub a Hn HN Hmax [[Hlen Hs Hrest] He]; cbn [list_loop].
  { exists k, aSub, a, m0. assert (n = N) as -> by lia. done. }
  destruct (carry_loop_spec N n aSub nSub 0 a (mkSub n 1)) as (k1 & a1 & m1 & -> & Hk1 & Hb & Hmod & Hl1 & Hr1 & Hp1 & Hs1);
    try done; try lia.
  - by rewrite above_0, Z.pow_0_r, Z.sub_diag.
  - change (2 ^ (0 + Z.of_nat nSub)) with (2 ^ Z.of_nat nSub). lia.
  - intros j Hj. apply Hrest. lia.
  - rewrite above_0. apply part_1; [lia|apply Hrest; lia].
  - destruct (above_succ n k1 Hn Hk1 Hb Hmod) as (A1 & A2 & A3 & A4).
    assert (Z.testbit (n + 1) k1 = true) as Hb1.
    { pose proof (above_step (n + 1) k1 Hk1) as Hst. destruct (Z.testbit (n + 1) k1); [done|].
      pose proof (above_le n k1 Hn Hk1). lia. }
    apply IH; try lia. split; [split; [done|..]|].
    + intros j Hj Hbj. destruct (Z.lt_trichotomy j k1) as [Hlt|[->|Hgt]].
      * rewrite A4 in Hbj by lia. done.
      * rewrite lookup_insert_eq. cbn [default]. by rewrite A1, A2.
      * rewrite lookup_insert_ne by lia. destruct (A3 j Hgt) as [-> Ht], (A3 (j + 1) ltac:(lia)) as [-> _].
        apply Hs1; [lia|]. by rewrite <- Ht.
    + intros j Hj. apply Hr1. lia.
    + intros _. rewrite lookup_insert_eq. done.
Qed.

Lemma rest_loop_spec N aSub fuel k a m : 0 < N -> 0 <= k -> N < 2 ^ (k + Z.of_nat fuel) -> zlen a = N -> part a m (above N k) N ->
  (forall j, k <= j -> Z.testbit N j = true -> part a (default (mkSub 0 0) (aSub !! j)) (above N (j + 1)) (above N j)) ->
  exists a' m', rest_loop c N aSub fuel k a m = (a', m') /\ zlen a' = N /\ part a' m' 0 N.
Proof using.
  intros HN. revert k a m. induction fuel as [|fuel IH]; intros k a m Hk Hlt Hlen Hm Hs; cbn [rest_loop].
  { exists a, m. rewrite Nat2Z.inj_0, Z.add_0_r in Hlt. unfold above in Hm. rewrite Z.div_small in Hm by lia. done. }
  rewrite bit_test, negb_involutive by done. pose proof (above_step N k Hk) as Hab.
  destruct (Z.testbit N k) eqn:E.
  - destruct (walMerge c a (default (mkSub 0 0) (aSub !! k)) m) as [a1 m1] eqn:Em.
    destruct (walMerge_spec _ _ _ _ _ _ _ _ (Hs k ltac:(lia) E) Hm Em) as (H1 & H2 & H3 & H4).
    apply IH; try done; [lia| |by rewrite H2|].
    + replace (k + 1 + Z.of_nat fuel) with (k + Z.of_nat (S fuel)) by lia. done.
    + intros j Hj Hb. apply H4; [apply Hs; [lia|done]|]. apply above_anti; lia.
  - apply IH; try done; [lia| | |].
    + replace (k + 1 + Z.of_nat fuel) with (k + Z.of_nat (S fuel)) by lia. done.
    + by rewrite Z.add_0_r in Hab; rewrite <- Hab.
    + intros j Hj Hb. apply Hs; [lia|done].
Qed.

Lemma zlen_iota n : 0 <= n -> zlen (iota n) = n.
Proof using. intros Hn. unfold iota, zlen. rewrite length_map, length_seq. lia. Qed.

Lemma zat_iota n j : 0 <= j < n -> zat (iota n) j = j.
Proof using.
  intros Hj. unfold iota, zat. rewrite (nth_indep _ 0 (Z.of_nat 0)) by (rewrite length_map, length_seq; lia).
  rewrite (map_nth Z.of_nat), seq_nth by lia. lia.
Qed.

(** The sort of the numbers of up to 4096 frames. *)
Lemma walMergesort_spec n : 0 < n <= HASHTABLE_NPAGE -> exists a' n',
  walMergesort c (iota n) n = (a', n') /\ 0 <= n' <= n /\ zlen a' = n /\ sorted_last 0 n (take (Z.to_nat n') a').
Proof using.
  intros Hn. unfold HASHTABLE_NPAGE in Hn. unfold walMergesort.
  destruct (list_loop_spec n (mkSub 0 0) (Z.to_nat n) 0 0 ∅ (iota n)) as (k & aSub & a & m & -> & [Hl Hs Hr] & Hk);
    [lia|lia|change (2 ^ Z.of_nat nSub) with 8192; lia| |].
  { split; [split|lia].
    - apply zlen_iota; lia.
    - intros k Hk Hb. by rewrite Z.bits_0 in Hb.
    - intros j Hj. by apply zat_iota. }
  specialize (Hk ltac:(lia)) as (Hk & Ha & Hb & ->).
  assert (k <= 12) as Hk12.
  { destruct (Z.le_gt_cases k 12) as [|Hgt]; [done|]. rewrite (bit_clear n k) in Hb; [done| |done].
    pose proof (Z.pow_le_mono_r 2 13 k ltac:(lia) ltac:(lia)) as Hp. change (2 ^ 13) with 8192 in Hp. lia. }
  pose proof (Hs k Hk Hb) as Hm. rewrite Ha in Hm.
  destruct (rest_loop_spec n aSub (nSub - Z.to_nat (k + 1)) (k + 1) a (default (mkSub 0 0) (aSub !! k))) as (a' & m' & -> & Hl' & Hp);
    [lia|lia| |done|done|intros j Hj; apply Hs; lia|].
  { replace (k + 1 + Z.of_nat (nSub - Z.to_nat (k + 1))) with 13 by (unfold nSub; lia). change (2 ^ 13) with 8192. lia. }
  exists a', (sl_nList m'). destruct Hp as [Ho _ _ Hlen Hso]. unfold slice in Hso. rewrite Ho in Hso. unfold zdrop in Hso.
  change (Z.to_nat 0) with 0%nat in Hso. rewrite drop_0 in Hso. split_and!; [done|lia|lia|done|done].
Qed.

End sort_spec.

(** ** What the iterator returns *)

Lemma sorted_last_ext c c' lo hi l : (forall j, lo <= j < hi -> c j = c' j) -> sorted_last c lo hi l -> sorted_last c' lo hi l.
Proof.
  intros E [Ha Hi Hl]. split.
  - assert (forall x, x ∈ l -> c x = c' x) as Ex by (intros x Hx; apply E, Hi, Hx). clear Hi Hl.
    induction l as [|x l IH]; [constructor|]. apply asc_cons in Ha as [Ha Hx]. apply asc_cons. split.
    + apply IH; [done|]. intros y Hy. apply Ex. set_solver.
    + intros y Hy. rewrite <- !Ex by set_solver. by apply Hx.
  - intros x Hx. destruct (Hi x Hx) as [H1 H2]. split; [done|]. intros j Hj. rewrite <- !E by lia. by apply H2.
  - intros j Hj. destruct (Hl j Hj) as (x & Hx & Hc). exists x. split; [done|]. destruct (Hi x Hx). by rewrite <- !E by lia.
Qed.

(** [r] is the least page above [iMin] of the frames [lo + 1 ..] of [F], and [f] its last frame;
    or there is none, and [r] is the number no page has. *)
Definition best (F : list Z) (iMin lo r f : Z) : Prop :=
  (r = 0xffffffff /\ forall j, lo < j <= zlen F -> zat F (j - 1) <= iMin) \/
  (iMin < r < 0xffffffff /\ f <> 0 /\ is_last F r (lo + 1) (zlen F) f /\
   forall j, lo < j <= zlen F -> iMin < zat F (j - 1) -> r <= zat F (j - 1)).

(** Segment [i] of an iterator over the frames [F]; its entries before [iNext] are of pages up
    to [prior]. *)
Record segment_ok (F : list Z) (prior i : Z) (s : WalSegment) : Prop := {
  g_pgno : sg_aPgno s = i;
  g_zero : iZero s = zero i + 1;
  g_next : 0 <= iNext s <= nEntry s;
  g_len : nEntry s <= zlen (aIndex s);
  g_sorted : sorted_last (fun j => zat F (zero i + j)) 0 (Z.min (zlen F) (zero (i + 1)) - zero i) (take (Z.to_nat (nEntry s)) (aIndex s));
  g_past : forall k, 0 <= k < iNext s -> zat F (zero i + zat (aIndex s) k) <= prior
}.

(** The frames whose page is above [prior]: each call uses up one at least. *)
Fixpoint pages_left (prior : Z) (l : list Z) : nat :=
  match l with
  | [] => 0
  | pg :: l => (if (prior <? pg)%Z then 1 else 0) + pages_left prior l
  end.

Lemma pages_left_lt prior r l : prior < r -> r ∈ l -> (pages_left r l < pages_left prior l)%nat.
Proof.
  intros Hr. assert (forall l, pages_left r l <= pages_left prior l)%nat as Hle.
  { intros l'. induction l' as [|x l' IH]; cbn [pages_left]; [done|]. destruct (Z.ltb_spec r x), (Z.ltb_spec prior x); lia. }
  induction l as [|x l IH]; intros Hin; [set_solver|]. cbn [pages_left]. apply elem_of_cons in Hin as [<-|Hin].
  - specialize (Hle l). destruct (Z.ltb_spec r r), (Z.ltb_spec prior r); lia.
  - specialize (IH Hin). destruct (Z.ltb_spec r x), (Z.ltb_spec prior x); lia.
Qed.

Section next.
Context (F : list Z) (HF : Forall (fun pg => 0 < pg < 0xffffffff) F).

Lemma F_range j : 1 <= j <= zlen F -> 0 < zat F (j - 1) < 0xffffffff.
Proof using HF. intros Hj. pose proof (proj1 (Forall_forall _ F) HF) as H. apply H, list_elem_of_In, nth_In. unfold zlen in Hj. lia. Qed.

(** The entries of a segment. *)
Lemma segment_entry prior i s k : 0 <= i -> segment_ok F prior i s -> 0 <= k < nEntry s ->
  let f := zero i + 1 + zat (aIndex s) k in
  zero i < f <= Z.min (zlen F) (zero (i + 1)) /\ is_last F (zat F (f - 1)) (zero i + 1) (Z.min (zlen F) (zero (i + 1))) f /\
  (forall k', k < k' < nEntry s -> zat F (f - 1) < zat F (zero i + zat (aIndex s) k')).
Proof using.
  intros Hi Hs Hk f. pose proof (g_sorted _ _ _ _ Hs) as [Ha Hin _]. pose proof (g_len _ _ _ _ Hs).
  set (l := take (Z.to_nat (nEntry s)) (aIndex s)) in *.
  assert (forall k, 0 <= k < nEntry s -> l !! Z.to_nat k = Some (zat (aIndex s) k)) as Hl.
  { intros j Hj. unfold l. rewrite lookup_take_lt by lia.
    destruct (nth_lookup_or_length (aIndex s) (Z.to_nat j) 0) as [E|E]; [done|unfold zlen in *; lia]. }
  destruct (Hin (zat (aIndex s) k)) as [Hr Hlast]; [apply list_elem_of_lookup; exists (Z.to_nat k); by apply Hl|].
  unfold f. split_and!; [lia..| |].
  - right. split; [lia|]. split; [done|]. intros j Hj. replace (j - 1) with (zero i + (j - 1 - zero i)) by lia.
    replace (zero i + 1 + zat (aIndex s) k - 1) with (zero i + zat (aIndex s) k) by lia. apply Hlast. lia.
  - intros k' Hk'. replace (zero i + 1 + zat (aIndex s) k - 1) with (zero i + zat (aIndex s) k) by lia.
    apply (asc_lookup _ l (Z.to_nat k) (Z.to_nat k') _ _ Ha); [apply Hl; lia..|lia].
Qed.

(** Every frame of the segment has the page of an entry, and of one not passed over when its page
    is above [prior]. *)
Lemma segment_rest prior i s j : segment_ok F prior i s -> zero i < j <= Z.min (zlen F) (zero (i + 1)) ->
  zat F (j - 1) <= prior \/ exists k, iNext s <= k < nEntry s /\ zat F (zero i + zat (aIndex s) k) = zat F (j - 1).
Proof using.
  intros Hs Hj. destruct (sl_all _ _ _ _ (g_sorted _ _ _ _ Hs) (j - 1 - zero i) ltac:(lia)) as (x & Hx & E).
  apply list_elem_of_lookup in Hx as [k Hk]. pose proof (lookup_lt_Some _ _ _ Hk) as Hlt. rewrite length_take in Hlt.
  rewrite lookup_take_lt in Hk by lia. assert (x = zat (aIndex s) (Z.of_nat k)) as ->.
  { unfold zat. rewrite Nat2Z.id. symmetry. by apply nth_lookup_Some. }
  replace (zero i + (j - 1 - zero i)) with (j - 1) in E by lia.
  destruct (Z.lt_ge_cases (Z.of_nat k) (iNext s)) as [Hb|Hb].
  - left. rewrite <- E. apply (g_past _ _ _ _ Hs). lia.
  - right. exists (Z.of_nat k). split; [lia|done].
Qed.

Lemma is_last_extend pgno lo lo' hi f : f <> 0 -> lo' <= lo -> is_last F pgno lo hi f -> is_last F pgno lo' hi f.
Proof using. intros Hf Hlo [[? _]|(H1 & H2 & H3)]; [done|right]. split_and!; [lia|lia|done|done]. Qed.

Lemma best_none iMin lo lo' r f : lo' <= lo -> (forall j, lo' < j <= Z.min (zlen F) lo -> zat F (j - 1) <= iMin) ->
  best F iMin lo r f -> best F iMin lo' r f.
Proof using.
  intros Hlo Hj [[-> H]|(H1 & H2 & H3 & H4)]; [left|right].
  - split; [done|]. intros j Hj'. destruct (Z.le_gt_cases j lo); [apply Hj; lia|apply H; lia].
  - split_and!; [lia|lia|done|apply (is_last_extend _ (lo + 1)); [done|lia|done]|].
    intros j Hj' Hm. destruct (Z.le_gt_cases j lo); [specialize (Hj j ltac:(lia)); lia|apply H4; lia].
Qed.

(** The index holds the frames [F], and maybe more. *)
Definition holds_frames (pages : gmap Z wi_page) : Prop := exists L, indexes pages L /\ take (length F) L = F.

Lemma holds_pgno pages i j : holds_frames pages -> 0 <= i -> 0 <= j < Z.min (zlen F) (zero (i + 1)) - zero i ->
  pgno_at pages i j = zat F (zero i + j).
Proof using.
  intros (L & HL & HF') Hi Hj. pose proof (zero_step i Hi) as Hz. pose proof (zero_0 i Hi) as Hz0. assert (zlen F <= zlen L) as Hle.
  { rewrite <- HF'. unfold zlen. rewrite length_take. lia. }
  unfold pgno_at. assert (table_ok (default no_page (pages !! i)) (chunk i L)) as Ht.
  { apply HL; [done|]. apply chunk_nonempty; lia. }
  rewrite (t_pgno _ _ Ht) by lia. rewrite zat_chunk by lia.
  rewrite <- HF'. replace (length F) with (Z.to_nat (zlen F)) by (unfold zlen; lia). rewrite zat_take, decide_True by lia. done.
Qed.

Lemma segment_loop_spec pages iMin i fuel s r f : 0 <= i -> holds_frames pages -> segment_ok F iMin i s ->
  nEntry s - iNext s < Z.of_nat fuel -> 0 <= iMin -> best F iMin (zero (i + 1)) r f ->
  exists s' r' f', segment_loop pages iMin fuel s r f = (s', r', f') /\ segment_ok F iMin i s' /\ best F iMin (zero i) r' f'.
Proof using HF.
  intros Hi Hp. revert s. induction fuel as [|fuel IH]; intros s Hs Hfuel Hm Hb; [pose proof (g_next _ _ _ _ Hs); lia|].
  cbn [segment_loop]. pose proof (g_next _ _ _ _ Hs) as Hn. pose proof (zero_step i Hi) as Hstep. pose proof (zero_0 i Hi) as Hz0.
  destruct (Z.ltb_spec (iNext s) (nEntry s)) as [Hlt|Hge].
  - destruct (segment_entry iMin i s (iNext s) Hi Hs ltac:(lia)) as (H1 & H2 & H3). cbv zeta in *.
    set (fr := zero i + 1 + zat (aIndex s) (iNext s)) in *.
    rewrite (g_pgno _ _ _ _ Hs), (g_zero _ _ _ _ Hs), (holds_pgno pages i) by (done || lia). fold fr.
    replace (zero i + zat (aIndex s) (iNext s)) with (fr - 1) by lia.
    assert (forall j, zero i < j <= Z.min (zlen F) (zero (i + 1)) -> iMin < zat F (j - 1) -> zat F (fr - 1) <= zat F (j - 1)) as Hmin.
    { intros j Hj Hgt. destruct (segment_rest _ _ _ _ Hs Hj) as [?|(k & Hk & <-)]; [lia|].
      destruct (Z.eq_dec k (iNext s)) as [->|]; [replace (zero i + zat (aIndex s) (iNext s)) with (fr - 1) by lia; lia|].
      specialize (H3 k ltac:(lia)). lia. }
    pose proof (F_range fr ltac:(lia)) as Hfr. destruct (Z.ltb_spec iMin (zat F (fr - 1))) as [Hgt|Hle].
    + destruct (Z.ltb_spec (zat F (fr - 1)) r) as [Hr|Hr].
      * exists s, (zat F (fr - 1)), fr. split_and!; [done..|]. right. split_and!; [lia|lia|lia|right|].
        -- split; [lia|]. split; [done|]. intros j Hj E. destruct (Z.le_gt_cases j (zero (i + 1))).
           ++ destruct H2 as [[? ?]|(_ & _ & H2)]; [lia|]. by apply (H2 j ltac:(lia)).
           ++ destruct Hb as [[_ Hb]|(_ & _ & _ & Hb)]; specialize (Hb j ltac:(lia)); lia.
        -- intros j Hj Hgt'. destruct (Z.le_gt_cases j (zero (i + 1))); [apply Hmin; [lia|done]|].
           destruct Hb as [[_ Hb]|(_ & _ & _ & Hb)]; specialize (Hb j ltac:(lia)); lia.
      * exists s, r, f. split_and!; [done..|]. destruct Hb as [[-> _]|(Hb1 & Hb2 & Hb3 & Hb4)]; [lia|right].
        split_and!; [lia|lia|done|apply (is_last_extend _ (zero (i + 1) + 1)); [done|lia|done]|].
        intros j Hj Hgt'. destruct (Z.le_gt_cases j (zero (i + 1))); [specialize (Hmin j ltac:(lia) Hgt'); lia|apply Hb4; [lia|done]].
    + apply IH; [|cbn [iNext nEntry]; lia|done|done]. destruct Hs as [G1 G2 G3 G4 G5 G6]. split; cbn [iNext aIndex sg_aPgno nEntry iZero]; try done; [lia|].
      intros k Hk. destruct (Z.eq_dec k (iNext s)) as [->|]; [|apply G6; lia].
      replace (zero i + zat (aIndex s) (iNext s)) with (fr - 1) by lia. done.
  - exists s, r, f. split_and!; [done..|]. apply (best_none _ (zero (i + 1))); [lia| |done].
    intros j Hj. destruct (segment_rest _ _ _ j Hs ltac:(lia)) as [?|(k & Hk & _)]; [done|lia].
Qed.

(** An iterator over the frames [F] from page [i0] of the index on: the segments below are empty. *)
Record iter_ok (i0 : Z) (p : WalIterator) : Prop := {
  it_nseg : nSegment p = walFramePage (zlen F) + 1;
  it_len : length (aSegment p) = Z.to_nat (nSegment p);
  it_prior : 0 <= iPrior p;
  it_empty : forall i, (i < Z.to_nat i0)%nat -> nth i (aSegment p) segment0 = segment0;
  it_seg : forall i, i0 <= i < nSegment p -> segment_ok F (iPrior p) i (nth (Z.to_nat i) (aSegment p) segment0)
}.

Lemma nth_list_insert {A} (l : list A) i j (x d : A) : (i < length l)%nat -> nth j (<[i := x]> l) d = if decide (j = i) then x else nth j l d.
Proof using.
  intros Hi. rewrite !nth_lookup. destruct (decide (j = i)) as [->|Hne]; [by rewrite list_lookup_insert_eq|by rewrite list_lookup_insert_ne].
Qed.

(** The segments from [n] on were looked at for a page above [iMin]; those below still stand at
    the page before. *)
Lemma next_loop_spec pages iMin prior i0 n segs r f : 0 <= i0 -> holds_frames pages -> 0 <= prior <= iMin ->
  (n <= length segs)%nat -> best F iMin (zero (Z.max i0 (Z.of_nat n))) r f ->
  (forall i, (i < Z.to_nat i0)%nat -> nth i segs segment0 = segment0) ->
  (forall i, i0 <= i < Z.of_nat n -> segment_ok F iMin i (nth (Z.to_nat i) segs segment0)) ->
  exists segs' r' f', next_loop pages iMin n segs r f = (segs', r', f') /\ length segs' = length segs /\ best F iMin (zero i0) r' f' /\
    (forall i, (i < Z.to_nat i0)%nat -> nth i segs' segment0 = segment0) /\
    (forall i, i0 <= i < Z.of_nat n -> segment_ok F iMin i (nth (Z.to_nat i) segs' segment0)) /\
    (forall i, (n <= i)%nat -> nth i segs' segment0 = nth i segs segment0).
Proof using HF.
  intros Hi0 Hp Hpr. revert segs r f. induction n as [|n IH]; intros segs r f Hn Hb He Hs; cbn [next_loop].
  { exists segs, r, f. replace (Z.max i0 (Z.of_nat 0)) with i0 in Hb by lia. split_and!; try done. }
  destruct (Z.le_gt_cases i0 (Z.of_nat n)) as [Hin|Hout].
  - destruct (segment_loop_spec pages iMin (Z.of_nat n) (Z.to_nat (nEntry (nth n segs segment0) - iNext (nth n segs segment0)) + 1)
      (nth n segs segment0) r f) as (s' & r' & f' & -> & Hs' & Hb'); [lia|done| |lia|lia| |].
    { specialize (Hs (Z.of_nat n) ltac:(lia)). by rewrite Nat2Z.id in Hs. }
    { replace (Z.max i0 (Z.of_nat (S n))) with (Z.of_nat n + 1) in Hb by lia. done. }
    destruct (IH (<[n := s']> segs) r' f') as (segs' & r2 & f2 & -> & Hl & Hb2 & He2 & Hs2 & Hr2).
    + rewrite length_insert. lia.
    + replace (Z.max i0 (Z.of_nat n)) with (Z.of_nat n) by lia. done.
    + intros i Hi. rewrite nth_list_insert, decide_False by lia. by apply He.
    + intros i Hi. rewrite nth_list_insert, decide_False by lia. apply Hs. lia.
    + exists segs', r2, f2. rewrite length_insert in Hl. split_and!; try done.
      * intros i Hi. destruct (Z.eq_dec i (Z.of_nat n)) as [->|]; [|apply Hs2; lia].
        rewrite Nat2Z.id, Hr2, nth_list_insert, decide_True by lia. done.
      * intros i Hi. rewrite Hr2, nth_list_insert, decide_False by lia. done.
  - rewrite He by lia. cbn [segment0 nEntry iNext]. change (Z.to_nat (0 - 0) + 1)%nat with 1%nat. cbn [segment_loop].
    change (iNext segment0 <? nEntry segment0) with false. cbv iota.
    destruct (IH (<[n := segment0]> segs) r f) as (segs' & r2 & f2 & -> & Hl & Hb2 & He2 & Hs2 & Hr2).
    + rewrite length_insert. lia.
    + replace (Z.max i0 (Z.of_nat n)) with (Z.max i0 (Z.of_nat (S n))) by lia. done.
    + intros i Hi. rewrite nth_list_insert by lia. case_decide; [done|]. by apply He.
    + intros i Hi. lia.
    + exists segs', r2, f2. rewrite length_insert in Hl. split_and!; try done.
      * intros i Hi. lia.
      * intros i Hi. rewrite Hr2, nth_list_insert, decide_False by lia. done.
Qed.

Lemma segment_ok_mono prior prior' i s : prior <= prior' -> segment_ok F prior i s -> segment_ok F prior' i s.
Proof using. intros Hp [G1 G2 G3 G4 G5 G6]. split; try done. intros k Hk. specialize (G6 k Hk). lia. Qed.

Lemma walIteratorNext_spec pages i0 p f : 0 <= i0 -> holds_frames pages -> iter_ok i0 p ->
  exists p' r f', walIteratorNext pages p f = (r =? 0xffffffff, p', r, f') /\ iPrior p' = r /\ best F (iPrior p) (zero i0) r f' /\
    (r <> 0xffffffff -> iter_ok i0 p').
Proof using HF.
  intros Hi0 Hp [H1 H2 H3 H4 H5]. unfold walIteratorNext. pose proof (zlen_nonneg F) as HF0.
  destruct (next_loop_spec pages (iPrior p) (iPrior p) i0 (Z.to_nat (nSegment p)) (aSegment p) 0xffffffff f)
    as (segs' & r & f' & -> & Hl & Hb & He & Hs & _); try done; [lia| | |].
  { left. split; [done|]. intros j Hj. exfalso. pose proof (framePage_in (zlen F)) as Hf.
    destruct (Z.eq_dec (zlen F) 0) as [E|E]; [pose proof (zero_0 (Z.max i0 (Z.of_nat (Z.to_nat (nSegment p)))) ltac:(lia)); lia|].
    specialize (Hf ltac:(lia)). pose proof (zero_le (walFramePage (zlen F) + 1) (Z.max i0 (Z.of_nat (Z.to_nat (nSegment p)))) ltac:(lia)). lia. }
  { intros i Hi. apply H5. lia. }
  exists (mkIter r (nSegment p) segs'), r, f'. split_and!; [done|done|done|]. intros Hr.
  assert (iPrior p < r) as Hlt by (destruct Hb as [[? _]|[? _]]; [done|lia]). split; cbn [nSegment aSegment iPrior]; [done|by rewrite Hl|lia|done|].
  intros i Hi. apply segment_ok_mono with (iPrior p); [lia|]. apply Hs. lia.
Qed.

(** ** All of it *)

(** [l] has the last frame of every page above [prior] of the frames after [lo], in the order of
    the pages. *)
Definition last_frames (prior lo : Z) (l : list (Z * Z)) : Prop :=
  StronglySorted (fun x y => x.1 < y.1) l /\
  forall pg f, (pg, f) ∈ l <-> prior < pg /\ f <> 0 /\ is_last F pg (lo + 1) (zlen F) f.

Lemma last_frames_nil prior lo r f : 0 <= lo -> best F prior lo r f -> r = 0xffffffff -> last_frames prior lo [].
Proof using HF.
  intros Hlo [[_ H]|[? _]] Hr; [|lia]. split; [constructor|]. intros pg f'. split; [set_solver|].
  intros (Hp & Hf & [[? _]|(H1 & H2 & _)]); [done|]. specialize (H f' ltac:(lia)). lia.
Qed.

Lemma last_frames_cons prior lo r f l : 0 <= lo -> best F prior lo r f -> r <> 0xffffffff -> last_frames r lo l -> last_frames prior lo ((r, f) :: l).
Proof using HF.
  intros Hlo [[? _]|(H1 & H2 & H3 & H4)] Hr [Hs Hl]; [done|]. split.
  - constructor; [done|]. apply Forall_forall. intros [pg f'] Hin. apply Hl in Hin. cbn [fst]. tauto.
  - intros pg f'. rewrite elem_of_cons, Hl. split.
    + intros [E|(Hp & Hf & Hx)]; [injection E as -> ->; split_and!; [lia|done|done]|]. split_and!; [lia|done|done].
    + intros (Hp & Hf & Hx). destruct (Z.lt_trichotomy pg r) as [Hlt|[->|Hgt]].
      * destruct Hx as [[? _]|(X1 & X2 & _)]; [done|]. specialize (H4 f' ltac:(lia) ltac:(lia)). lia.
      * left. f_equal. apply (is_last_unique F r (lo + 1) (zlen F)); [lia|done|done].
      * right. done.
Qed.

Lemma best_in prior lo r f : 0 <= lo -> best F prior lo r f -> r <> 0xffffffff -> r ∈ F.
Proof using HF.
  intros Hlo [[? _]|(_ & Hf & [[? _]|(H1 & <- & _)] & _)] Hr; [done|done|]. apply list_elem_of_In, nth_In. unfold zlen in H1. lia.
Qed.

Lemma iterate_spec pages i0 fuel p : 0 <= i0 -> (forall k, holds_frames (pages k)) -> iter_ok i0 p ->
  (pages_left (iPrior p) F < fuel)%nat -> exists l, iterate pages fuel p = Some l /\ last_frames (iPrior p) (zero i0) l.
Proof using HF.
  intros Hi0 Hp. revert p. induction fuel as [|fuel IH]; intros p Hok Hfuel; [lia|]. cbn [iterate].
  destruct (walIteratorNext_spec (pages fuel) i0 p 0 Hi0 (Hp fuel) Hok) as (p' & r & f' & -> & Hpr & Hb & Hok').
  pose proof (zero_0 i0 Hi0) as Hz. destruct (Z.eqb_spec r 0xffffffff) as [E|E].
  - exists []. split; [done|]. by apply (last_frames_nil _ _ r f').
  - assert (iPrior p < r) by (destruct Hb as [[? _]|[? _]]; [done|lia]).
    destruct (IH p' (Hok' E)) as (l & -> & Hl).
    { pose proof (pages_left_lt (iPrior p) r F ltac:(lia) (best_in _ _ _ _ Hz Hb E)). rewrite Hpr. lia. }
    exists ((r, f') :: l). split; [done|]. rewrite Hpr in Hl. by apply last_frames_cons.
Qed.
End next.

Lemma init_loop_spec map_page w L n i segs :
  (forall h, map_page h = SQLITE_OK) -> indexes (apWiData w) L -> 0 < mxFrame (hdr w) <= zlen L ->
  let F := take (Z.to_nat (mxFrame (hdr w))) L in let nSeg := walFramePage (mxFrame (hdr w)) + 1 in
  0 <= i -> i + Z.of_nat n = Z.max i nSeg -> length segs = Z.to_nat nSeg ->
  exists segs', init_loop map_page w nSeg n i segs = inr segs' /\ length segs' = length segs /\
    (forall j, (j < Z.to_nat i)%nat -> nth j segs' segment0 = nth j segs segment0) /\
    (forall j, i <= j < nSeg -> segment_ok F 0 j (nth (Z.to_nat j) segs' segment0)).
Proof.
  intros Hmap HL Hmx F nSeg. assert (zlen F = mxFrame (hdr w)) as HzF by (apply zlen_take; lia).
  revert i segs. induction n as [|n IH]; intros i segs Hi Hn Hlen; cbn [init_loop].
  { exists segs. split_and!; try done. intros j Hj. lia. }
  rewrite walHashGet_ok by done. destruct (framePage_in (mxFrame (hdr w)) ltac:(lia)) as [Hf0 Hf].
  set (entries := if i + 1 =? nSeg then mxFrame (hdr w) - zero i else if i =? 0 then HASHTABLE_NPAGE_ONE else HASHTABLE_NPAGE).
  pose proof (zero_step i Hi) as Hz. pose proof (zero_0 i Hi) as Hz0.
  assert (entries = Z.min (zlen F) (zero (i + 1)) - zero i) as He.
  { unfold entries. rewrite HzF. unfold nSeg in *. destruct (Z.eqb_spec (i + 1) (walFramePage (mxFrame (hdr w)) + 1)) as [E|E].
    - replace i with (walFramePage (mxFrame (hdr w))) by lia. lia.
    - pose proof (zero_le (i + 1) (walFramePage (mxFrame (hdr w))) ltac:(lia)) as Hle.
      rewrite Z.min_r by lia. unfold zero. repeat case_if; breflect; change HASHTABLE_NPAGE_ONE with 4062; unfold HASHTABLE_NPAGE in *; lia. }
  assert (0 < entries <= HASHTABLE_NPAGE) as Hent.
  { rewrite He, HzF. unfold nSeg in *. pose proof (zero_le i (walFramePage (mxFrame (hdr w))) ltac:(lia)). lia. }
  destruct (walMergesort_spec (pgno_at (apWiData w) i) entries Hent) as (a & n' & -> & Hn' & Ha & Hs).
  destruct (IH (i + 1) (<[Z.to_nat i := mkSegment 0 a i n' (zero i + 1)]> segs)) as (segs' & -> & Hl & Hb & Hok);
    [lia|lia|by rewrite length_insert|].
  rewrite length_insert in Hl. exists segs'. split_and!; try done.
  - intros j Hj. rewrite Hb, nth_list_insert, decide_False by lia. done.
  - intros j Hj. destruct (Z.eq_dec j i) as [->|]; [|apply Hok; lia].
    rewrite Hb, nth_list_insert, decide_True by lia. split; cbn [sg_aPgno iZero iNext nEntry aIndex]; [done|done|lia|lia| |intros k Hk; lia].
    rewrite <- He. apply (sorted_last_ext (pgno_at (apWiData w) i)); [|done]. intros k Hk. apply (holds_pgno F); [|done|lia].
    exists L. split; [done|]. unfold F. f_equal. rewrite length_take. unfold zlen in Hmx. lia.
Qed.

Lemma walIteratorInit_spec map_page w L nBackfill :
  (forall h, map_page h = SQLITE_OK) -> indexes (apWiData w) L -> 0 < mxFrame (hdr w) <= zlen L -> 0 <= nBackfill ->
  exists p, walIteratorInit map_page true w nBackfill = inr p /\ iPrior p = 0 /\
    iter_ok (take (Z.to_nat (mxFrame (hdr w))) L) (walFramePage (nBackfill + 1)) p.
Proof.
  intros Hmap HL Hmx Hb. unfold walIteratorInit. cbn [negb]. set (nSeg := walFramePage (mxFrame (hdr w)) + 1).
  destruct (framePage_in (mxFrame (hdr w)) ltac:(lia)) as [Hf0 Hf]. destruct (framePage_in (nBackfill + 1) ltac:(lia)) as [Hb0 _].
  set (i := walFramePage (nBackfill + 1)) in *.
  destruct (init_loop_spec map_page w L (Z.to_nat (nSeg - i)) i (repeat segment0 (Z.to_nat nSeg))) as (segs & Hrun & Hl & Hlow & Hok);
    try done; [fold nSeg; lia|by rewrite repeat_length|].
  fold nSeg in Hrun, Hok. rewrite Hrun. rewrite repeat_length in Hl. eexists. split_and!; [done|done|]. split; cbn [nSegment aSegment iPrior].
  - rewrite zlen_take by lia. done.
  - done.
  - lia.
  - intros j Hj. rewrite Hlow by done. apply nth_repeat.
  - done.
Qed.

Lemma iterator_lists map_page w L nBackfill pages :
  let mx := mxFrame (hdr w) in
  (forall h, map_page h = SQLITE_OK) -> indexes (apWiData w) L -> 0 < mx <= zlen L -> 0 <= nBackfill ->
  Forall (fun pg => pg < 0xffffffff) L ->
  (forall k, exists L', indexes (pages k) L' /\ take (Z.to_nat mx) L' = take (Z.to_nat mx) L) ->
  exists p l, walIteratorInit map_page true w nBackfill = inr p /\ iterate pages (S (Z.to_nat mx)) p = Some l /\
    StronglySorted (fun x y => x.1 < y.1) l /\
    (forall pg f, (pg, f) ∈ l -> 1 <= f <= mx /\ zat L (f - 1) = pg /\ forall j, f < j <= mx -> zat L (j - 1) <> pg) /\
    (forall j, nBackfill < j <= mx -> exists f, (zat L (j - 1), f) ∈ l /\ j <= f).
Proof.
  intros mx Hmap HL Hmx Hb Hpg Hpages.
  destruct (walIteratorInit_spec map_page w L nBackfill Hmap HL Hmx Hb) as (p & Hp & Hp0 & Hok). fold mx in Hok.
  set (F := take (Z.to_nat mx) L) in *. assert (zlen F = mx) as HzF by (apply zlen_take; lia).
  assert (forall j, 1 <= j <= mx -> zat F (j - 1) = zat L (j - 1)) as HzatF.
  { intros j Hj. unfold F. rewrite zat_take, decide_True by lia. done. }
  assert (Forall (fun pg => 0 < pg < 0xffffffff) F) as HF.
  { apply Forall_forall. intros pg Hin. split.
    - apply list_elem_of_lookup in Hin as [k Hk]. pose proof (lookup_lt_Some _ _ _ Hk) as Hlt.
      assert (zat F (Z.of_nat k) = pg) as <- by (unfold zat; rewrite Nat2Z.id; by apply nth_lookup_Some).
      pose proof (HzatF (Z.of_nat k + 1) ltac:(unfold zlen in HzF; lia)) as E. rewrite Z.add_simpl_r in E. rewrite E.
      pose proof (indexes_page _ _ (Z.of_nat k + 1) HL ltac:(unfold zlen in *; lia)) as Ht.
      destruct (framePage_in (Z.of_nat k + 1) ltac:(lia)) as [Hh Hz]. set (h := walFramePage (Z.of_nat k + 1)) in *.
      replace (Z.of_nat k) with (zero h + (Z.of_nat k - zero h)) by lia. rewrite <- zat_chunk by lia.
      pose proof (t_page _ _ Ht) as Hpos. rewrite Forall_forall in Hpos. apply Hpos, list_elem_of_In, nth_In.
      pose proof (zlen_chunk h L Hh). unfold zlen in *. lia.
    - apply (proj1 (Forall_forall _ L) Hpg). unfold F in Hin. apply list_elem_of_lookup in Hin as [k Hk].
      apply lookup_take_Some in Hk as [Hk _]. apply list_elem_of_lookup. by exists k. }
  destruct (framePage_in (nBackfill + 1) ltac:(lia)) as [Hi0 Hz0]. set (i0 := walFramePage (nBackfill + 1)) in *.
  destruct (iterate_spec F HF pages i0 (S (Z.to_nat mx)) p Hi0) as (l & Hl & Hsort & Hin); [|done| |].
  { intros k. destruct (Hpages k) as (L' & H1 & H2). exists L'. split; [done|].
    replace (length F) with (Z.to_nat mx) by (unfold zlen in HzF; lia). exact H2. }
  { rewrite Hp0. enough (pages_left 0 F <= length F)%nat by (unfold zlen in HzF; lia).
    clear. induction F as [|x F IH]; cbn [pages_left length]; [done|]. destruct (0 <? x); lia. }
  exists p, l. rewrite Hp0, HzF in Hin. pose proof (zero_0 i0 Hi0). split_and!; [done..| |].
  - intros pg f Hpf. apply Hin in Hpf as (_ & Hf & [[? _]|(H1 & H2 & H3)]); [done|]. rewrite HzatF in H2 by lia. split_and!; [lia|lia|done|].
    intros j Hj. rewrite <- HzatF by lia. by apply H3.
  - intros j Hj. destruct (last_frame_spec F (zat L (j - 1)) (zero i0 + 1) (Z.to_nat mx)) as [Hlast|]; [|lia].
    rewrite Z2Nat.id in Hlast by lia. set (f := last_frame _ _ _ _) in Hlast. exists f.
    destruct Hlast as [[E H1]|(H1 & H2 & H3)].
    { exfalso. apply (H1 j); [lia|]. apply HzatF. lia. }
    split.
    + apply Hin. split_and!; [|lia|by right]. rewrite <- HzatF by lia. apply (F_range F HF). lia.
    + destruct (Z.le_gt_cases j f); [done|]. exfalso. apply (H3 j); [lia|]. apply HzatF. lia.
Qed.

(** C20: the iterator of a checkpoint, called until it says there are no more, returns in the order of the
    page numbers every page that a frame after [nBackfill] holds, each once and with the last of
    its frames up to [mxFrame]; no other frame before that is returned as a page's last.  It does so while
    other connections append frames to the log, and needs one call more than there are frames at
    most. *)
Theorem iterator_returns_last_frames map_page w L nBackfill pages :
  let mx := mxFrame (hdr w) in
  (forall h, map_page h = SQLITE_OK) -> indexes (apWiData w) L -> 0 < mx <= zlen L -> 0 <= nBackfill ->
  Forall (fun pg => pg < 0xffffffff) L ->
  (forall k, exists L', indexes (pages k) L' /\ take (Z.to_nat mx) L' = take (Z.to_nat mx) L) ->
  exists p l, walIteratorInit map_page true w nBackfill = inr p /\ iterate pages (S (Z.to_nat mx)) p = Some l /\
    StronglySorted (fun x y => x.1 < y.1) l /\
    (forall pg f, (pg, f) ∈ l -> 1 <= f <= mx /\ zat L (f - 1) = pg /\ forall j, f < j <= mx -> zat L (j - 1) <> pg) /\
    (forall j, nBackfill < j <= mx -> exists f, (zat L (j - 1), f) ∈ l /\ j <= f).
Proof. exact (iterator_lists map_page w L nBackfill pages). Qed.

(** The log of [iterate_1]. *)
Definition log_5 : list Z := [5; 8197; 5; 7; 5].
Definition wal_5 : Wal := set_hdr (snd (append_frames maps wal0 0 log_5)) (set_mx hdr0 5 (0, 0)).

Lemma indexes_log_5 : indexes (apWiData wal_5) log_5.
Proof.
  destruct (append_frames_spec maps wal0 [] 0 log_5) as (w' & L' & Hr & _ & HL & Ht & Ho); [done|apply indexes_nil|done|by left| |].
  { repeat constructor; lia. }
  unfold wal_5. rewrite Hr. cbn [snd set_hdr apWiData]. destruct Ho as [Ho|[_ ?]]; [|done].
  assert (L' = log_5) as ->; [|done]. rewrite <- (take_ge L' (Z.to_nat (0 + zlen log_5))); [by rewrite Ht|].
  rewrite Ho. unfold zlen. lia.
Qed.

Lemma iterator_returns_last_frames_witness : exists p l,
  walIteratorInit maps true wal_5 1 = inr p /\ iterate (fun _ => apWiData wal_5) 6 p = Some l /\
  StronglySorted (fun x y => x.1 < y.1) l /\
  (forall pg f, (pg, f) ∈ l -> 1 <= f <= 5 /\ zat log_5 (f - 1) = pg /\ forall j, f < j <= 5 -> zat log_5 (j - 1) <> pg) /\
  (forall j, 1 < j <= 5 -> exists f, (zat log_5 (j - 1), f) ∈ l /\ j <= f).
Proof.
  apply (iterator_returns_last_frames maps wal_5 log_5 1 (fun _ => apWiData wal_5)); [done|apply indexes_log_5|by cbv|done| |].
  - repeat constructor.
  - intros _. exists log_5. split; [apply indexes_log_5|done].
Defined.
