(* ===== verification/WalWrite.v ===== *)
(** * Writing the log (wal.c of sqlite3.c)

    [walFrames] appends the dirty pages of a transaction to the log, or overwrites the frames the
    same transaction wrote before, recomputes their checksums at the commit, pads and syncs the
    file, and enters the frames in the index of [WalIndex].

    The state of the code here is the connection and the bytes of the log file; a return code
    other than [SQLITE_OK] is an exception.  The file is written through the class [Vfs]. *)

From S2P Require Import Prelude Bitwise Varint UnixFile WalIndex WalLog.
From stdpp Require Import options.

Definition WAL_SYNC_FLAGS (x : Z) : Z := Z.land x 0x03.
Definition CKPT_SYNC_FLAGS (x : Z) : Z := Z.land (Z.shiftr x 2) 0x03.

(** A dirty page. *)
Record PgHdr := mkPg { p_pgno : Z; p_data : list Z }.

Definition WM (A : Type) : Type := M (Wal * list Z) Z A.

Definition get_wal : WM Wal := fun s => (Ret s.1, s).
Definition put_wal (w : Wal) : WM unit := fun s => (Ret tt, (w, s.2)).
Definition get_file : WM (list Z) := fun s => (Ret s.2, s).
Definition put_file (f : list Z) : WM unit := fun s => (Ret tt, (s.1, f)).

(** [if( rc ) return rc;] *)
Definition check (rc : Z) : WM unit := if rc =? SQLITE_OK then mret tt else mthrow rc.

(** [WalWriter], without the connection and the file. *)
Record WalWriter := mkWriter { iSyncPoint : Z; syncFlags : Z; w_szPage : Z }.

Section write.
Context {V : Vfs} (map_page : Z -> Z) (big : bool) (mem : bool).
(** The sector size of the file, whether it can be made shorter, and random bytes. *)
Context (sectorSize : Z) (can_truncate : bool) (random : Z -> list Z).
(** [walRestartLog], which acts on a connection whose [readLock] is 0 only. *)
Context (restart : Wal -> Z * Wal).

Definition os_write (d : list Z) (iOffset : Z) : WM unit :=
  let! f := get_file in
  let '(f, rc) := xWrite f d iOffset in
  put_file f ;! check rc.

Definition os_fread (amt iOffset : Z) : WM (list Z) :=
  let! f := get_file in
  let '(rc, d) := xRead f amt iOffset in
  check rc ;! mret d.

Definition os_sync (flags : Z) : WM unit := check (xSync flags).

Definition walLimitSize (nMax : Z) : WM unit :=
  let! f := get_file in
  if (nMax <? zlen f) && can_truncate then put_file (take (Z.to_nat nMax) f) else mret tt.

Definition walWriteToLog (p : WalWriter) (pContent : list Z) (iOffset : Z) : WM unit :=
  let iAmt := zlen pContent in
  if (iOffset <? iSyncPoint p) && (iSyncPoint p <=? iOffset + iAmt) then
    let iFirstAmt := iSyncPoint p - iOffset in
    os_write (take (Z.to_nat iFirstAmt) pContent) iOffset ;!
    os_sync (WAL_SYNC_FLAGS (syncFlags p)) ;!
    if iAmt - iFirstAmt =? 0 then mret tt
    else os_write (zdrop iFirstAmt pContent) (iOffset + iFirstAmt)
  else os_write pContent iOffset.

Definition walWriteOneFrame (p : WalWriter) (pPage : PgHdr) (nTruncate iOffset : Z) : WM unit :=
  let! w := get_wal in
  let '(aFrame, w) := walEncodeFrame big w (p_pgno pPage) nTruncate (p_data pPage) in
  put_wal w ;!
  walWriteToLog p aFrame iOffset ;!
  walWriteToLog p (take (Z.to_nat (w_szPage p)) (p_data pPage)) (iOffset + WAL_FRAME_HDRSIZE).

(** The loop of [walRewriteChecksums] over [n] frames from [iRead]. *)
Fixpoint rewrite_loop (n : nat) (sz iRead : Z) : WM unit :=
  match n with
  | O => mret tt
  | S n =>
      let iOff := walFrameOffset iRead sz in
      let! aBuf := os_fread (sz + WAL_FRAME_HDRSIZE) iOff in
      let! w := get_wal in
      let '(aFrame, w) := walEncodeFrame big w (sqlite3Get4byte aBuf) (sqlite3Get4byte (zdrop 4 aBuf)) (zdrop WAL_FRAME_HDRSIZE aBuf) in
      put_wal w ;!
      os_write aFrame iOff ;!
      rewrite_loop n sz (iRead + 1)
  end.

(** A read that fails leaves the checksum of what the buffer then has; it is not used. *)
Definition walRewriteChecksums (iLast : Z) : WM unit :=
  let! w := get_wal in
  if negb mem then mthrow SQLITE_NOMEM
  else
    let sz := szPage w in
    let iCksumOff := if iReCksum w =? 1 then 24 else walFrameOffset (iReCksum w - 1) sz + 16 in
    let! f := get_file in
    let '(rc, aBuf) := xRead f 8 iCksumOff in
    let iRead := iReCksum w in
    put_wal (set_recksum (set_cksum w (sqlite3Get4byte aBuf, sqlite3Get4byte (zdrop 4 aBuf))) 0) ;!
    check rc ;!
    rewrite_loop (Z.to_nat (iLast - iRead + 1)) sz iRead.

(** The header of a log that starts. *)
Definition write_header (sz sync_flags : Z) : WM unit :=
  let! w := get_wal in
  let h := hdr w in
  let salt := if nCkpt w =? 0 then random 8 else aSalt h in
  let start := sqlite3Put4byte (Z.lor WAL_MAGIC (if big then 1 else 0)) ++ sqlite3Put4byte WAL_MAX_VERSION ++
               sqlite3Put4byte sz ++ sqlite3Put4byte (nCkpt w) ++ salt in
  let aCksum := walChecksumBytes big true start (WAL_HDRSIZE - 2 * 4) (0, 0) in
  let h := mkHdr (iChange h) (if big then 1 else 0) (h_szPage h) (mxFrame h) (nPage h) aCksum salt in
  put_wal (set_truncate (set_szPage (set_hdr w h) sz) true) ;!
  os_write (start ++ sqlite3Put4byte aCksum.1 ++ sqlite3Put4byte aCksum.2) 0 ;!
  if syncHeader w then os_sync (CKPT_SYNC_FLAGS sync_flags) else mret tt.

(** What the loop over the pages carries: the last frame, the next offset, and of each page its
    number and whether it was appended. *)
Fixpoint write_pages (p : WalWriter) (pList : list PgHdr) (iFirst : Z) (isCommit : bool) (nTruncate iFrame iOffset : Z)
    (pLast : option PgHdr) : WM (Z * Z * option PgHdr * list (Z * bool)) :=
  match pList with
  | [] => mret (iFrame, iOffset, pLast, [])
  | pg :: pDirty =>
      let last := match pDirty with [] => true | _ => false end in
      let! w := get_wal in
      let iWrite := if negb (iFirst =? 0) && (negb last || negb isCommit) then snd (walFindFrame map_page w (p_pgno pg)) else 0 in
      if negb (iFirst =? 0) && (negb last || negb isCommit) && (iFirst <=? iWrite) then
        put_wal (if (iReCksum w =? 0) || (iWrite <? iReCksum w) then set_recksum w iWrite else w) ;!
        os_write (take (Z.to_nat (w_szPage p)) (p_data pg)) (walFrameOffset iWrite (w_szPage p) + WAL_FRAME_HDRSIZE) ;!
        let! r := write_pages p pDirty iFirst isCommit nTruncate iFrame iOffset pLast in
        let '(iFrame, iOffset, pLast, flags) := r in
        mret (iFrame, iOffset, pLast, (p_pgno pg, false) :: flags)
      else
        walWriteOneFrame p pg (if isCommit && last then nTruncate else 0) iOffset ;!
        let! r := write_pages p pDirty iFirst isCommit nTruncate (iFrame + 1) (iOffset + (w_szPage p + WAL_FRAME_HDRSIZE)) (Some pg) in
        let '(iFrame, iOffset, pLast, flags) := r in
        mret (iFrame, iOffset, pLast, (p_pgno pg, true) :: flags)
  end.

(** [while( iOffset<w.iSyncPoint )] the last frame again; the fuel is the distance. *)
Fixpoint pad_loop (fuel : nat) (p : WalWriter) (pLast : PgHdr) (nTruncate iOffset : Z) (nExtra : nat) : WM (Z * nat) :=
  if iOffset <? iSyncPoint p then
    match fuel with
    | O => fun s => (NoFuel, s)
    | S fuel =>
        walWriteOneFrame p pLast nTruncate iOffset ;!
        pad_loop fuel p pLast nTruncate (iOffset + (w_szPage p + WAL_FRAME_HDRSIZE)) (S nExtra)
    end
  else mret (iOffset, nExtra).

(** Padding to a sector and the sync of a commit: the number of extra frames and the code of the
    sync, which the caller does not look at before it has limited the size of the file. *)
Definition pad_and_sync (p : WalWriter) (pLast : option PgHdr) (nTruncate iOffset : Z) : WM (nat * Z) :=
  let! w := get_wal in
  if padToSectorBoundary w then
    let point := (iOffset + sectorSize - 1) / sectorSize * sectorSize in
    let p := mkWriter point (syncFlags p) (w_szPage p) in
    let! nExtra :=
      match pLast with
      | Some pg => let! r := pad_loop (Z.to_nat (point - iOffset)) p pg nTruncate iOffset 0 in mret r.2
      | None => mret O
      end in
    mret (nExtra, if point =? iOffset then xSync (WAL_SYNC_FLAGS (syncFlags p)) else SQLITE_OK)
  else mret (O, xSync (WAL_SYNC_FLAGS (syncFlags p))).

Definition truncate_on_commit (isCommit : bool) (iFrame : Z) (nExtra : nat) (sz : Z) : WM unit :=
  let! w := get_wal in
  if isCommit && truncateOnCommit w && (0 <=? mxWalSize w) then
    walLimitSize (Z.max (mxWalSize w) (walFrameOffset (iFrame + Z.of_nat nExtra + 1) sz)) ;!
    let! w := get_wal in put_wal (set_truncate w false)
  else mret tt.

Definition hdr_eqb (h h' : WalIndexHdr) : bool :=
  (iChange h =? iChange h') && (bigEndCksum h =? bigEndCksum h') && (h_szPage h =? h_szPage h') && (mxFrame h =? mxFrame h') &&
  (nPage h =? nPage h') && bool_decide (aFrameCksum h = aFrameCksum h') && bool_decide (aSalt h = aSalt h').

(** [walFrames] once the log has a header. *)
Definition walFrames_pages (sz : Z) (pList : list PgHdr) (nTruncate : Z) (isCommit : bool) (sync_flags iFirst iFrame : Z) : WM unit :=
  let! w := get_wal in
  if negb (szPage w =? sz) then mthrow SQLITE_CORRUPT
  else
    let p := mkWriter 0 sync_flags sz in
    let! r := write_pages p pList iFirst isCommit nTruncate iFrame (walFrameOffset (iFrame + 1) sz) None in
    let '(iFrame, iOffset, pLast, flags) := r in
    let! w := get_wal in
    (if isCommit && negb (iReCksum w =? 0) then walRewriteChecksums iFrame else mret tt) ;!
    let! q := (if isCommit && negb (WAL_SYNC_FLAGS sync_flags =? 0) then pad_and_sync p pLast nTruncate iOffset else mret (O, SQLITE_OK)) in
    let '(nExtra, rc) := q in
    truncate_on_commit isCommit iFrame nExtra sz ;!
    check rc ;!
    let! w := get_wal in
    let '(rc, w) := walFrames_index map_page w flags (match pLast with Some pg => p_pgno pg | None => 0 end) nExtra isCommit nTruncate sz in
    put_wal w ;! check rc.

Definition walFrames (sz : Z) (pList : list PgHdr) (nTruncate : Z) (isCommit : bool) (sync_flags : Z) : WM unit :=
  let! w := get_wal in
  let iFirst := if hdr_eqb (hdr w) (live w) then 0 else u32 (mxFrame (live w) + 1) in
  let '(rc, w) := if readLock w =? 0 then restart w else (SQLITE_OK, w) in
  put_wal w ;! check rc ;!
  let iFrame := mxFrame (hdr w) in
  (if iFrame =? 0 then write_header sz sync_flags else mret tt) ;!
  walFrames_pages sz pList nTruncate isCommit sync_flags iFirst iFrame.

End write.

(** ** What the file has during a transaction *)

(** Frame [i] of the file is for the page, the commit size and the data of [f], whatever its
    salts and checksum. *)
Definition raw_frame (file : list Z) (pgsz i : Z) (f : wframe) : Prop :=
  fread file (walFrameOffset i pgsz) 8 = sqlite3Put4byte (f_pgno f) ++ sqlite3Put4byte (f_commit f) /\
  fread file (walFrameOffset i pgsz + 24) pgsz = f_data f.

(** The file has the frames [F], of which the first [v] are valid; when [sn], it ends with them. *)
Record has_frames (sn e : bool) (salt : list Z) (pgsz nc : Z) (w : Wal) (file : list Z) (F : list wframe) (v : Z) : Prop := {
  l_ok : wal_ok w;
  l_pg : page_size_ok pgsz;
  l_nc : 0 <= nc < 2 ^ 32;
  l_order : order w = e;
  l_salt : aSalt (hdr w) = salt;
  l_sz : szPage w = pgsz;
  l_frames : Forall (frame_ok pgsz) F;
  l_file : bytes_ok file;
  l_len : walFrameOffset (zlen F + 1) pgsz <= zlen file;
  l_v : 0 <= v <= zlen F;
  l_prefix : take (Z.to_nat (walFrameOffset (v + 1) pgsz)) file =
    wal_header_bytes e pgsz nc salt ++ log_bytes e salt (header_ck e pgsz nc salt) (take (Z.to_nat v) F);
  l_raw : forall i f, F !! i = Some f -> raw_frame file pgsz (Z.of_nat i + 1) f;
  l_snug : sn = true -> zlen file <= walFrameOffset (zlen F + 1) pgsz
}.

(** All of them are, and the connection has their checksum, unless some were overwritten; then
    from [iReCksum] on their checksums are stale. *)
Definition re_ok (e : bool) (salt : list Z) (pgsz nc : Z) (w : Wal) (F : list wframe) (v : Z) : Prop :=
  iReCksum w = 0 /\ v = zlen F /\ aFrameCksum (hdr w) = run_ck e (header_ck e pgsz nc salt) F \/
  0 < iReCksum w <= zlen F /\ v = iReCksum w - 1.

Definition in_log (sn e : bool) (salt : list Z) (pgsz nc : Z) (w : Wal) (file : list Z) (F : list wframe) (v : Z) : Prop :=
  has_frames sn e salt pgsz nc w file F v /\ re_ok e salt pgsz nc w F v.

Lemma off_mono pgsz i j : 0 <= pgsz -> i <= j -> walFrameOffset i pgsz <= walFrameOffset j pgsz.
Proof. intros Hp Hij. unfold walFrameOffset, WAL_HDRSIZE, WAL_FRAME_HDRSIZE. nia. Qed.

Lemma off_next pgsz i : walFrameOffset (i + 1) pgsz = walFrameOffset i pgsz + (pgsz + 24).
Proof. unfold walFrameOffset, WAL_HDRSIZE, WAL_FRAME_HDRSIZE. nia. Qed.

Lemma off_pos pgsz i : 0 <= pgsz -> 1 <= i -> 32 <= walFrameOffset i pgsz.
Proof. intros Hp Hi. unfold walFrameOffset, WAL_HDRSIZE, WAL_FRAME_HDRSIZE. nia. Qed.

(** Frames before the place of a write stay, and so do those after it. *)
Lemma raw_before file pgsz i f off d : 0 <= pgsz -> 1 <= i -> walFrameOffset (i + 1) pgsz <= off -> off <= zlen file ->
  raw_frame file pgsz i f -> raw_frame (fwrite file off d) pgsz i f.
Proof.
  intros Hp Hi Hle Hf [H1 H2]. pose proof (off_pos pgsz i Hp Hi). rewrite off_next in Hle.
  split; rewrite fread_fwrite_before by lia; done.
Qed.

Lemma raw_after file pgsz i f off d : 0 <= off <= zlen file -> off + zlen d <= walFrameOffset i pgsz ->
  raw_frame file pgsz i f -> raw_frame (fwrite file off d) pgsz i f.
Proof. intros Ho Hle [H1 H2]. split; rewrite fread_fwrite_after by lia; done. Qed.

(** A frame that is written is there. *)
Lemma raw_written file pgsz i f hd : 1 <= i -> frame_ok pgsz f -> walFrameOffset i pgsz <= zlen file -> 0 <= pgsz ->
  zlen hd = 24 -> take 8 hd = sqlite3Put4byte (f_pgno f) ++ sqlite3Put4byte (f_commit f) ->
  raw_frame (fwrite file (walFrameOffset i pgsz) (hd ++ f_data f)) pgsz i f.
Proof.
  intros Hi (_ & _ & _ & Hd) Hf Hp Hh Ht. pose proof (off_pos pgsz i Hp Hi). set (off := walFrameOffset i pgsz) in *.
  pose proof (fread_fwrite_same file off (hd ++ f_data f) ltac:(lia)) as Hsame. rewrite zlen_app, Hh, Hd in Hsame.
  set (g := fwrite file off (hd ++ f_data f)) in *. pose proof (fread_app g off 24 pgsz ltac:(lia) ltac:(lia) Hp) as Happ.
  rewrite Hsame in Happ. assert (zlen (fread g off 24) = 24) as Hz.
  { rewrite zlen_fread by lia. unfold g. rewrite zlen_fwrite, zlen_app by first [lia|by destruct hd]. lia. }
  apply app_inj_1 in Happ as [H1 H2]; [|unfold zlen in *; lia]. split; [|done].
  rewrite <- Ht, <- H1. unfold fread. rewrite take_take. done.
Qed.

Lemma off_len e pgsz nc salt F : zlen salt = 8 -> Forall (frame_ok pgsz) F ->
  zlen (wal_header_bytes e pgsz nc salt ++ log_bytes e salt (header_ck e pgsz nc salt) F) = walFrameOffset (zlen F + 1) pgsz.
Proof.
  intros Hs Hf. rewrite zlen_app, zlen_header, (zlen_log_bytes _ _ pgsz) by done. unfold walFrameOffset, WAL_HDRSIZE, WAL_FRAME_HDRSIZE. lia.
Qed.

(** A frame appended to a log whose frames are all valid, and to one with stale checksums. *)
Lemma put_frame sn e salt pgsz nc w file F v f hd w' :
  in_log sn e salt pgsz nc w file F v -> frame_ok pgsz f ->
  (if iReCksum w =? 0
   then hd = frame_header e salt (aFrameCksum (hdr w)) f /\ w' = set_cksum w (next_ck e (aFrameCksum (hdr w)) f)
   else hd = sqlite3Put4byte (f_pgno f) ++ sqlite3Put4byte (f_commit f) ++ repeat 0 16 /\ w' = w) ->
  in_log sn e salt pgsz nc w' (fwrite file (walFrameOffset (zlen F + 1) pgsz) (hd ++ f_data f)) (F ++ [f])
    (if iReCksum w =? 0 then v + 1 else v).
Proof.
  intros Hl Hf Hhd. destruct Hl as [[H1 H2 H3 H4 H5 H6 H7 H8 H9 H10 H11 H12 Hsn] H13].
  destruct (ok_salt _ H1) as [Hs8 Hsb]. rewrite H5 in Hs8, Hsb. pose proof (proj1 H2) as Hp. pose proof (zlen_nonneg F).
  set (off := walFrameOffset (zlen F + 1) pgsz) in *. pose proof (off_pos pgsz (zlen F + 1) ltac:(lia) ltac:(lia)) as Hoff. fold off in Hoff.
  assert (zlen hd = 24 /\ bytes_ok hd /\ take 8 hd = sqlite3Put4byte (f_pgno f) ++ sqlite3Put4byte (f_commit f)) as (Hh & Hhb & Ht8).
  { destruct (iReCksum w =? 0); destruct Hhd as [-> _].
    - split; [by apply zlen_frame_header|]. split; [by apply frame_header_bytes|]. unfold frame_header. rewrite app_assoc. by apply take_app_length'.
    - split; [done|]. split; [|rewrite app_assoc; by apply take_app_length'].
      rewrite !Forall_app. split; [apply put4_bytes|]. split; [apply put4_bytes|]. solve_bytes. }
  pose proof Hf as (_ & _ & Hd & Hdl). assert (hd ++ f_data f <> []) as Hne by (destruct hd; done).
  assert (zlen (F ++ [f]) = zlen F + 1) as HF by (by rewrite zlen_app).
  assert (wal_ok w' /\ order w' = e /\ aSalt (hdr w') = salt /\ szPage w' = pgsz /\ iReCksum w' = iReCksum w) as (W1 & W2 & W3 & W4 & W5).
  { destruct (iReCksum w =? 0); destruct Hhd as [_ ->]; [|done]. split; [|done]. apply set_cksum_ok; [done|]. apply frame_cksum_32, ok_ck, H1. }
  split; [split; [done..| | | | | | |]|].
  - apply Forall_app. split; [done|]. by constructor.
  - apply fwrite_bytes; [done|]. by apply Forall_app.
  - rewrite HF, zlen_fwrite, zlen_app, off_next by (done || lia). fold off. lia.
  - rewrite HF. case_if; lia.
  - destruct (iReCksum w =? 0) eqn:Er; breflect.
    + destruct H13 as [(_ & Hv & Hck)|[? _]]; [|lia]. subst v. destruct Hhd as [Hhd _].
      rewrite off_next. fold off. rewrite (take_ge F) in H11 by (unfold zlen; lia).
      rewrite (take_ge (F ++ [f])) by (unfold zlen; rewrite length_app; cbn; lia). rewrite log_bytes_app. cbn [log_bytes]. rewrite <- Hck, <- Hhd, app_nil_r, app_assoc.
      rewrite <- H11. rewrite fwrite_eq by done. replace (Z.to_nat (off - zlen file)) with 0%nat by lia. cbn [repeat]. rewrite app_nil_r.
      rewrite app_assoc. assert (zlen (take (Z.to_nat off) file ++ hd ++ f_data f) = off + (pgsz + 24)) as Hz.
      { rewrite !zlen_app. unfold zlen in *. rewrite length_take. lia. }
      apply take_app_length'. fold off. unfold zlen in Hz. lia.
    + destruct H13 as [[? _]|[Hre Hv]]; [done|]. rewrite fwrite_take; [|pose proof (off_pos pgsz (v + 1) ltac:(lia) ltac:(lia)); pose proof (off_mono pgsz (v + 1) (zlen F + 1) ltac:(lia) ltac:(lia)); lia|done].
      rewrite H11, take_app_le by (unfold zlen in *; lia). done.
  - intros i g Hi. apply lookup_app_Some in Hi as [Hi|[Hle Hi]].
    + pose proof (lookup_lt_Some _ _ _ Hi) as Hlt. apply raw_before; [lia|lia| |lia|by apply H12].
      unfold off. apply off_mono; [lia|unfold zlen; lia].
    + apply list_lookup_singleton_Some in Hi as [Hi <-]. replace (Z.of_nat i) with (zlen F) by (unfold zlen; lia).
      apply raw_written; (done || lia).
  - intros E. specialize (Hsn E). rewrite HF, zlen_fwrite, zlen_app, off_next by (done || lia). fold off. lia.
  - unfold re_ok. rewrite W5, HF. destruct (iReCksum w =? 0) eqn:Er; breflect.
    + left. destruct H13 as [(_ & Hv & Hck)|[? _]]; [|lia]. destruct Hhd as [_ ->]. split; [done|]. split; [lia|].
      rewrite run_ck_app, <- Hck. done.
    + right. destruct H13 as [[? _]|[Hre Hv]]; [done|]. lia.
Qed.

Lemma prefix_le e salt pgsz nc file F v v' : 0 <= pgsz -> zlen salt = 8 -> Forall (frame_ok pgsz) F -> 0 <= v' <= v -> v <= zlen F ->
  let ck := header_ck e pgsz nc salt in
  take (Z.to_nat (walFrameOffset (v + 1) pgsz)) file = wal_header_bytes e pgsz nc salt ++ log_bytes e salt ck (take (Z.to_nat v) F) ->
  take (Z.to_nat (walFrameOffset (v' + 1) pgsz)) file = wal_header_bytes e pgsz nc salt ++ log_bytes e salt ck (take (Z.to_nat v') F).
Proof.
  intros Hp Hs HF Hv Hvl ck H. pose proof (off_mono pgsz (v' + 1) (v + 1) Hp ltac:(lia)). pose proof (off_pos pgsz (v' + 1) Hp ltac:(lia)).
  replace (take (Z.to_nat (walFrameOffset (v' + 1) pgsz)) file) with (take (Z.to_nat (walFrameOffset (v' + 1) pgsz)) (take (Z.to_nat (walFrameOffset (v + 1) pgsz)) file))
    by (rewrite take_take; f_equal; lia).
  rewrite H. rewrite <- (take_drop (Z.to_nat v') (take (Z.to_nat v) F)) at 1. rewrite log_bytes_app, take_take, Nat.min_l by lia.
  rewrite app_assoc. apply take_app_length'.
  pose proof (off_len e pgsz nc salt (take (Z.to_nat v') F) Hs ltac:(by apply Forall_take)) as Hl. rewrite zlen_take in Hl by lia. unfold zlen in Hl. fold ck in Hl. lia.
Qed.

(** A frame whose page is written again. *)
Lemma overwrite_frame sn e salt pgsz nc w file F v k g data :
  in_log sn e salt pgsz nc w file F v -> 1 <= k <= zlen F -> F !! Z.to_nat (k - 1) = Some g -> bytes_ok data -> zlen data = pgsz ->
  in_log sn e salt pgsz nc (if (iReCksum w =? 0) || (k <? iReCksum w) then set_recksum w k else w)
    (fwrite file (walFrameOffset k pgsz + 24) data) (<[Z.to_nat (k - 1) := mkFrame (f_pgno g) (f_commit g) data]> F) (Z.min v (k - 1)).
Proof.
  intros Hl Hk Hg Hd Hdl. destruct Hl as [[H1 H2 H3 H4 H5 H6 H7 H8 H9 H10 H11 H12 Hsn] H13].
  destruct (ok_salt _ H1) as [Hs8 Hsb]. rewrite H5 in Hs8, Hsb. pose proof (proj1 H2) as Hp.
  pose proof (off_pos pgsz k ltac:(lia) ltac:(lia)) as Hoff. pose proof (off_mono pgsz (k + 1) (zlen F + 1) ltac:(lia) ltac:(lia)) as Hm. rewrite off_next in Hm.
  set (off := walFrameOffset k pgsz) in *. set (F' := <[Z.to_nat (k - 1) := mkFrame (f_pgno g) (f_commit g) data]> F).
  assert (zlen F' = zlen F) as HF by (unfold F', zlen; by rewrite length_insert).
  set (w' := if (iReCksum w =? 0) || (k <? iReCksum w) then set_recksum w k else w).
  assert (wal_ok w' /\ order w' = e /\ aSalt (hdr w') = salt /\ szPage w' = pgsz) as (W1 & W2 & W3 & W4) by (unfold w'; case_if; split_and!; try done; by destruct H1).
  assert (iReCksum w' = if (iReCksum w =? 0) || (k <? iReCksum w) then k else iReCksum w) as W5 by (unfold w'; by case_if).
  assert (data <> []) as Hne by (intros ->; unfold zlen in Hdl; cbn in Hdl; lia).
  split; [split; [done..| | | | | | |]|].
  - apply Forall_insert; [done|]. pose proof (Forall_lookup_1 _ _ _ _ H7 Hg) as (G1 & G2 & _). by split.
  - by apply fwrite_bytes.
  - rewrite HF, zlen_fwrite by (done || lia). lia.
  - lia.
  - pose proof (off_pos pgsz (Z.min v (k - 1) + 1) ltac:(lia) ltac:(lia)). pose proof (off_mono pgsz (Z.min v (k - 1) + 1) k ltac:(lia) ltac:(lia)).
    fold off in H0. rewrite fwrite_take by lia. unfold F'. rewrite take_insert_ge by lia. apply prefix_le with v; (done || lia).
  - intros i f Hi. destruct (decide (i = Z.to_nat (k - 1))) as [->|Hne'].
    + unfold F' in Hi. rewrite list_lookup_insert_eq in Hi by (apply lookup_lt_Some in Hg; done). injection Hi as <-.
      destruct (H12 _ _ Hg) as [R1 R2]. replace (Z.of_nat (Z.to_nat (k - 1)) + 1) with k in * by lia. fold off in R1, R2. unfold raw_frame. fold off.
      cbn [f_pgno f_commit f_data]. split; [rewrite fread_fwrite_before by lia; exact R1|]. rewrite <- Hdl at 1. apply fread_fwrite_same. lia.
    + unfold F' in Hi. rewrite list_lookup_insert_ne in Hi by done. specialize (H12 i f Hi). pose proof (lookup_lt_Some _ _ _ Hi) as Hlt.
      destruct (Nat.lt_ge_cases i (Z.to_nat (k - 1))).
      * apply raw_before; [lia|lia| |lia|done]. pose proof (off_mono pgsz (Z.of_nat i + 1 + 1) k ltac:(lia) ltac:(lia)). fold off in H0. lia.
      * apply raw_after; [lia| |done]. pose proof (off_mono pgsz (k + 1) (Z.of_nat i + 1) ltac:(lia) ltac:(lia)). rewrite off_next in H0. fold off in H0. lia.
  - intros E. specialize (Hsn E). rewrite HF, zlen_fwrite by (done || lia). lia.
  - unfold re_ok. rewrite W5, HF. right. destruct ((iReCksum w =? 0) || (k <? iReCksum w)) eqn:E.
    + split; [lia|]. apply orb_true_iff in E as [E|E]; breflect; destruct H13 as [(? & -> & _)|[? ->]]; lia.
    + apply orb_false_iff in E as [E1 E2]. breflect. destruct H13 as [(? & _)|[? ->]]; [done|]. lia.
Qed.

(** *** Recomputing a checksum *)

Lemma wal_ok_recksum w r : wal_ok w -> wal_ok (set_recksum w r).
Proof. intros [? ? ? ?]. by split. Qed.

Lemma take_fread (g : list Z) a b : 0 <= a -> 0 <= b -> take (Z.to_nat (a + b)) g = take (Z.to_nat a) g ++ fread g a b.
Proof.
  intros Ha Hb. rewrite <- (take_drop (Z.to_nat a) (take (Z.to_nat (a + b)) g)), take_take, Nat.min_l by lia. f_equal.
  unfold fread, zdrop. rewrite take_drop_commute. do 2 f_equal. lia.
Qed.

(** A whole frame of the file, in its parts. *)
Lemma raw_parts file pgsz i f : 0 <= pgsz -> 1 <= i -> raw_frame file pgsz i f ->
  fread file (walFrameOffset i pgsz) (pgsz + 24) =
  (sqlite3Put4byte (f_pgno f) ++ sqlite3Put4byte (f_commit f)) ++ fread file (walFrameOffset i pgsz + 8) 16 ++ f_data f.
Proof.
  intros Hp Hi [H1 H2]. pose proof (off_pos pgsz i Hp Hi). rewrite <- H1, <- H2.
  replace (pgsz + 24) with (8 + (16 + pgsz)) by lia. rewrite <- fread_app by lia. f_equal.
  rewrite <- fread_app by lia. do 2 f_equal. lia.
Qed.

Lemma rewrite_header sn e salt pgsz nc w file F v f :
  has_frames sn e salt pgsz nc w file F v -> F !! Z.to_nat v = Some f ->
  aFrameCksum (hdr w) = run_ck e (header_ck e pgsz nc salt) (take (Z.to_nat v) F) ->
  has_frames sn e salt pgsz nc (set_cksum w (next_ck e (aFrameCksum (hdr w)) f))
    (fwrite file (walFrameOffset (v + 1) pgsz) (frame_header e salt (aFrameCksum (hdr w)) f)) F (v + 1) /\
  next_ck e (aFrameCksum (hdr w)) f = run_ck e (header_ck e pgsz nc salt) (take (Z.to_nat (v + 1)) F).
Proof.
  intros [H1 H2 H3 H4 H5 H6 H7 H8 H9 H10 H11 H12 Hsn] Hf Hck.
  destruct (ok_salt _ H1) as [Hs8 Hsb]. rewrite H5 in Hs8, Hsb. pose proof (proj1 H2) as Hp. pose proof (lookup_lt_Some _ _ _ Hf) as Hlt.
  assert (take (Z.to_nat (v + 1)) F = take (Z.to_nat v) F ++ [f]) as Htk.
  { replace (Z.to_nat (v + 1)) with (S (Z.to_nat v)) by lia. by apply take_S_r. }
  pose proof (off_pos pgsz (v + 1) ltac:(lia) ltac:(lia)) as Hoff. pose proof (off_mono pgsz (v + 1 + 1) (zlen F + 1) ltac:(lia) ltac:(unfold zlen; lia)) as Hm.
  rewrite off_next in Hm. set (off := walFrameOffset (v + 1) pgsz) in *. set (hd := frame_header e salt (aFrameCksum (hdr w)) f).
  assert (zlen hd = 24) as Hh by (by apply zlen_frame_header). set (g := fwrite file off hd).
  assert (hd <> []) as Hne by (intros E; rewrite E in Hh; done).
  assert (forall i f0, F !! i = Some f0 -> raw_frame g pgsz (Z.of_nat i + 1) f0) as Hraw.
  { intros i f0 Hi. pose proof (H12 _ _ Hi) as Hr. destruct (Nat.lt_trichotomy i (Z.to_nat v)) as [|[->|]].
    - apply raw_before; [lia|lia| |lia|done]. unfold off. apply off_mono; lia.
    - rewrite Hf in Hi. injection Hi as <-. replace (Z.of_nat (Z.to_nat v) + 1) with (v + 1) in * by lia. destruct Hr as [Hr1 Hr2]. fold off in Hr1, Hr2.
      unfold raw_frame. fold off. split; [|by rewrite <- Hr2; apply fread_fwrite_after; lia].
      pose proof (fread_fwrite_same file off hd ltac:(lia)) as Hsame. rewrite Hh in Hsame. fold g in Hsame.
      replace 24 with (8 + 16) in Hsame by lia. rewrite <- fread_app in Hsame by lia. unfold hd, frame_header in Hsame. rewrite app_assoc in Hsame.
      apply app_inj_1 in Hsame as [-> _]; [done|]. assert (zlen (fread g off 8) = 8) as Hz; [|unfold zlen in Hz; rewrite length_app, !length_put4; lia].
      rewrite zlen_fread by lia. unfold g. rewrite zlen_fwrite by (done || lia). lia.
    - apply raw_after; [lia| |done]. pose proof (off_mono pgsz (v + 1 + 1) (Z.of_nat i + 1) ltac:(lia) ltac:(lia)) as Hm2. rewrite off_next in Hm2. fold off in Hm2. lia. }
  assert (next_ck e (aFrameCksum (hdr w)) f = run_ck e (header_ck e pgsz nc salt) (take (Z.to_nat (v + 1)) F)) as Hnext.
  { rewrite Htk, run_ck_app, <- Hck. done. }
  split; [|exact Hnext]. split; [|done|done|done|done|done|done| | | | |exact Hraw|].
  - apply set_cksum_ok; [done|]. apply frame_cksum_32, ok_ck, H1.
  - apply fwrite_bytes; [done|]. by apply frame_header_bytes.
  - unfold g. rewrite zlen_fwrite by (done || lia). lia.
  - unfold zlen. lia.
  - rewrite off_next. fold off. rewrite take_fread by lia. unfold g at 1. rewrite fwrite_take by lia. rewrite H11, <- app_assoc. f_equal.
    rewrite Htk, log_bytes_app. f_equal. cbn [log_bytes]. rewrite app_nil_r, <- Hck. fold hd.
    replace (pgsz + 24) with (24 + pgsz) by lia. rewrite <- fread_app by lia. f_equal.
    + pose proof (fread_fwrite_same file off hd ltac:(lia)) as Hsame. by rewrite Hh in Hsame.
    + destruct (Hraw _ _ Hf) as [_ Hr2]. replace (Z.of_nat (Z.to_nat v) + 1) with (v + 1) in Hr2 by lia. exact Hr2.
  - intros E. specialize (Hsn E). unfold g. rewrite zlen_fwrite by (done || lia). lia.
Qed.

(** The checksum before frame [v + 1], as the file has it. *)
Lemma read_cksum sn e salt pgsz nc w file F v : has_frames sn e salt pgsz nc w file F v ->
  let ck := run_ck e (header_ck e pgsz nc salt) (take (Z.to_nat v) F) in
  fread file (if v + 1 =? 1 then 24 else walFrameOffset v pgsz + 16) 8 = sqlite3Put4byte ck.1 ++ sqlite3Put4byte ck.2.
Proof.
  intros [H1 H2 H3 H4 H5 H6 H7 H8 H9 H10 H11 H12 Hsn] ck.
  destruct (ok_salt _ H1) as [Hs8 Hsb]. rewrite H5 in Hs8, Hsb. pose proof (proj1 H2) as Hp.
  destruct (v + 1 =? 1) eqn:E; breflect.
  - assert (v = 0) as -> by lia. pose proof (off_pos pgsz (0 + 1) ltac:(lia) ltac:(lia)).
    rewrite <- (fread_take file 24 8 (walFrameOffset (0 + 1) pgsz)) by lia.
    rewrite H11. cbn [Z.to_nat take log_bytes]. rewrite app_nil_r. unfold fread, wal_header_bytes. rewrite (zdrop_app 24) by (by rewrite zlen_header_start).
    by apply take_ge.
  - destruct (lookup_lt_is_Some_2 F (Z.to_nat (v - 1))) as [f Hf]; [unfold zlen in *; lia|].
    assert (take (Z.to_nat v) F = take (Z.to_nat (v - 1)) F ++ [f]) as Htk.
    { replace (Z.to_nat v) with (S (Z.to_nat (v - 1))) by lia. by apply take_S_r. }
    pose proof (off_pos pgsz v ltac:(lia) ltac:(lia)). rewrite <- (fread_take file _ 8 (walFrameOffset (v + 1) pgsz)) by (rewrite ?off_next; lia).
    rewrite H11. unfold ck. rewrite Htk, log_bytes_app, run_ck_app. cbn [log_bytes run_ck]. rewrite app_nil_r.
    pose proof (off_len e pgsz nc salt (take (Z.to_nat (v - 1)) F) Hs8 ltac:(by apply Forall_take)) as Hl. rewrite zlen_take in Hl by lia.
    replace (v - 1 + 1) with v in Hl by lia. rewrite (app_assoc (wal_header_bytes e pgsz nc salt)).
    set (A := wal_header_bytes e pgsz nc salt ++ log_bytes e salt (header_ck e pgsz nc salt) (take (Z.to_nat (v - 1)) F)) in *.
    set (ckp := run_ck e (header_ck e pgsz nc salt) (take (Z.to_nat (v - 1)) F)). unfold frame_header. rewrite <- !app_assoc.
    unfold fread. rewrite <- (zdrop_zdrop (walFrameOffset v pgsz)), (zdrop_app _ A) by (done || lia).
    rewrite (app_assoc (sqlite3Put4byte (f_pgno f))), (app_assoc _ salt). rewrite (zdrop_app 16) by (rewrite !zlen_app, !zlen_put4; lia).
    rewrite app_assoc. by apply take_app_length'.
Qed.

(** *** The frames after a list of pages is written *)

Definition set_data (k : nat) (data : list Z) (F : list wframe) : list wframe :=
  match F !! k with Some g => <[k := mkFrame (f_pgno g) (f_commit g) data]> F | None => F end.

(** [P] has the pages of the frames the index knows; a frame from [iFirst] on is of this
    transaction.  The frames, the last page appended, and of each page whether it was. *)
Fixpoint put_pages (P : list Z) (lo iFirst : Z) (isCommit : bool) (nTruncate : Z) (pList : list PgHdr) (F : list wframe) (pLast : option PgHdr)
    : list wframe * option PgHdr * list (Z * bool) :=
  match pList with
  | [] => (F, pLast, [])
  | pg :: pDirty =>
      let last := match pDirty with [] => true | _ => false end in
      let iWrite := last_frame P (p_pgno pg) lo (length P) in
      if negb (iFirst =? 0) && (negb last || negb isCommit) && (iFirst <=? iWrite) then
        let '(F, pLast, flags) := put_pages P lo iFirst isCommit nTruncate pDirty (set_data (Z.to_nat (iWrite - 1)) (p_data pg) F) pLast in
        (F, pLast, (p_pgno pg, false) :: flags)
      else
        let f := mkFrame (p_pgno pg) (if isCommit && last then nTruncate else 0) (p_data pg) in
        let '(F, pLast, flags) := put_pages P lo iFirst isCommit nTruncate pDirty (F ++ [f]) (Some pg) in
        (F, pLast, (p_pgno pg, true) :: flags)
  end.

Definition page_ok (pgsz : Z) (pg : PgHdr) : Prop := 0 < p_pgno pg < 2 ^ 32 /\ bytes_ok (p_data pg) /\ zlen (p_data pg) = pgsz.

Lemma last_frame_range P pgno lo n : 1 <= lo -> last_frame P pgno lo n = 0 \/ lo <= last_frame P pgno lo n <= Z.of_nat n.
Proof. intros Hlo. destruct (last_frame_spec P pgno lo n) as [[[-> _]|(H & _)]|]; [by left|by right|lia]. Qed.

Lemma pgnos_set_data k d F : map f_pgno (set_data k d F) = map f_pgno F.
Proof.
  unfold set_data. destruct (F !! k) as [g|] eqn:E; [|done]. change (@map) with (@fmap list _). rewrite list_fmap_insert. cbn [f_pgno].
  apply list_insert_id. by rewrite list_lookup_fmap, E.
Qed.

Lemma length_set_data k d F : length (set_data k d F) = length F.
Proof. unfold set_data. destruct (F !! k); [by rewrite length_insert|done]. Qed.

(** What it comes to: the pages of the frames, the frames before those of the transaction, the
    commit marks, and the last frame of a commit. *)
Lemma put_pages_pgnos P lo iFirst isCommit nT pList F pl :
  let '(F', _, flags) := put_pages P lo iFirst isCommit nT pList F pl in map f_pgno F' = map f_pgno F ++ map fst (List.filter snd flags).
Proof.
  revert F pl. induction pList as [|pg pD IH]; intros F pl; cbn [put_pages]; [by rewrite app_nil_r|].
  destruct (negb (iFirst =? 0) && _ && _).
  - specialize (IH (set_data (Z.to_nat (last_frame P (p_pgno pg) lo (length P) - 1)) (p_data pg) F) pl).
    destruct (put_pages _ _ _ _ _ pD _ pl) as [[F' pl'] flags]. cbv iota beta. cbn [List.filter snd]. by rewrite IH, pgnos_set_data.
  - match goal with |- context [put_pages _ _ _ _ _ pD ?G ?q] => specialize (IH G q); destruct (put_pages P lo iFirst isCommit nT pD G q) as [[F' pl'] flags] end.
    cbv iota beta. cbn [List.filter snd]. rewrite IH, map_app, <- app_assoc. done.
Qed.

Lemma set_data_take k d F c : (c <= k)%nat -> take c (set_data k d F) = take c F.
Proof. intros H. unfold set_data. destruct (F !! k); [by apply take_insert_ge|done]. Qed.

Lemma put_pages_take P lo iFirst isCommit nT pList F pl c : (c <= length F)%nat -> iFirst = 0 \/ Z.of_nat c < iFirst ->
  let '(F', _, _) := put_pages P lo iFirst isCommit nT pList F pl in take c F' = take c F /\ (length F <= length F' <= length F + length pList)%nat.
Proof.
  intros Hc Hi. revert F pl Hc. induction pList as [|pg pD IH]; intros F pl Hc; cbn [put_pages]; [split; [done|cbn [length]; lia]|].
  destruct (negb (iFirst =? 0) && _ && _) eqn:E.
  - breflect. specialize (IH (set_data (Z.to_nat (last_frame P (p_pgno pg) lo (length P) - 1)) (p_data pg) F) pl).
    rewrite length_set_data, set_data_take in IH by lia. specialize (IH Hc). destruct (put_pages _ _ _ _ _ pD _ pl) as [[F' pl'] flags].
    cbv iota beta. destruct IH as [IH1 IH2]. split; [done|cbn [length]; lia].
  - match goal with |- context [put_pages _ _ _ _ _ pD ?G ?q] => specialize (IH G q); destruct (put_pages P lo iFirst isCommit nT pD G q) as [[F' pl'] flags] end.
    rewrite length_app in IH. cbn [length] in IH. destruct IH as [IH1 IH2]; [lia|]. cbv iota beta. rewrite IH1, take_app_le by done. split; [done|cbn [length]; lia].
Qed.

Lemma last_frame_le P q lo n : 0 <= last_frame P q lo n <= Z.of_nat n.
Proof. induction n as [|n IH]; cbn [last_frame]; [lia|]. repeat case_if; lia. Qed.

Lemma put_pages_ne P lo iFirst isCommit nT pList F pl : pList <> [] -> 0 <= iFirst -> length P = length F ->
  let '(F', _, _) := put_pages P lo iFirst isCommit nT pList F pl in F' <> [].
Proof.
  intros Hne Hi HP. destruct pList as [|pg pD]; [done|]. cbn [put_pages]. destruct (negb (iFirst =? 0) && _ && _) eqn:E.
  - breflect. pose proof (last_frame_le P (p_pgno pg) lo (length P)) as Hle.
    pose proof (put_pages_take P lo iFirst isCommit nT pD (set_data (Z.to_nat (last_frame P (p_pgno pg) lo (length P) - 1)) (p_data pg) F) pl 0 ltac:(lia) ltac:(lia)) as Ht.
    destruct (put_pages _ _ _ _ _ pD _ pl) as [[F' pl'] flags]. cbv iota beta. destruct Ht as [_ Ht]. rewrite length_set_data in Ht. intros ->. cbn in Ht. lia.
  - match goal with |- context [put_pages _ _ _ _ _ pD ?G ?q] =>
      pose proof (put_pages_take P lo iFirst isCommit nT pD G q 0 ltac:(lia) ltac:(lia)) as Ht; destruct (put_pages P lo iFirst isCommit nT pD G q) as [[F' pl'] flags] end.
    cbv iota beta. destruct Ht as [_ Ht]. rewrite length_app in Ht. intros ->. cbn in Ht. lia.
Qed.

Definition unmarked (c : nat) (F : list wframe) : Prop := Forall (fun f => f_commit f = 0) (drop c F).

Lemma unmarked_set_data c k d F : unmarked c F -> unmarked c (set_data k d F).
Proof.
  unfold unmarked, set_data. destruct (F !! k) as [g|] eqn:E; [|done]. intros H. rewrite Forall_lookup in H |- *. intros i f Hi.
  rewrite lookup_drop in Hi. destruct (decide (k = c + i)%nat) as [->|Hne].
  - rewrite list_lookup_insert_eq in Hi by (by eapply lookup_lt_Some). injection Hi as <-. cbn [f_commit]. apply (H i). by rewrite lookup_drop.
  - rewrite list_lookup_insert_ne in Hi by done. apply (H i). by rewrite lookup_drop.
Qed.

Lemma unmarked_snoc c F f : unmarked c F -> f_commit f = 0 -> unmarked c (F ++ [f]).
Proof.
  unfold unmarked. intros H Hf. destruct (decide (c <= length F)%nat).
  - rewrite drop_app_le by done. apply Forall_app. split; [done|]. by constructor.
  - rewrite drop_ge; [constructor|]. rewrite length_app. cbn. lia.
Qed.

Lemma put_pages_unmarked P lo iFirst nT pList F pl c : unmarked c F ->
  let '(F', _, _) := put_pages P lo iFirst false nT pList F pl in unmarked c F'.
Proof.
  revert F pl. induction pList as [|pg pD IH]; intros F pl Hu; cbn [put_pages]; [done|]. destruct (negb (iFirst =? 0) && _ && _).
  - specialize (IH (set_data (Z.to_nat (last_frame P (p_pgno pg) lo (length P) - 1)) (p_data pg) F) pl (unmarked_set_data _ _ _ _ Hu)).
    by destruct (put_pages _ _ _ _ _ pD _ pl) as [[F' pl'] flags].
  - match goal with |- context [put_pages _ _ _ _ _ pD ?G ?q] => specialize (IH G q); destruct (put_pages P lo iFirst false nT pD G q) as [[F' pl'] flags] end.
    apply IH. by apply unmarked_snoc.
Qed.

Lemma put_pages_last P lo iFirst nT pList F pl : pList <> [] ->
  let '(F', pl', _) := put_pages P lo iFirst true nT pList F pl in
  exists F1 pg, F' = F1 ++ [mkFrame (p_pgno pg) nT (p_data pg)] /\ pl' = Some pg /\ (length F <= length F1)%nat.
Proof.
  revert F pl. induction pList as [|pg pD IH]; intros F pl Hne; [done|]. cbn [put_pages]. destruct pD as [|pg' pD].
  - rewrite andb_false_r. cbn [andb put_pages]. by exists F, pg.
  - destruct (negb (iFirst =? 0) && _ && _).
    + specialize (IH (set_data (Z.to_nat (last_frame P (p_pgno pg) lo (length P) - 1)) (p_data pg) F) pl ltac:(done)).
      rewrite length_set_data in IH. by destruct (put_pages _ _ _ _ _ (pg' :: pD) _ pl) as [[F' pl'] flags].
    + match goal with |- context [put_pages _ _ _ _ _ (pg' :: pD) ?G ?q] => specialize (IH G q ltac:(done)); destruct (put_pages P lo iFirst true nT (pg' :: pD) G q) as [[F' pl'] flags] end.
      destruct IH as (F1 & pg1 & H1 & H2 & H3). exists F1, pg1. rewrite length_app in H3. split; [done|]. split; [done|lia].
Qed.

(** *** The pages of a log *)

(** What a reader that looks from frame [lo] on sees of a page. *)
Definition log_page (F : list wframe) (lo pgno : Z) : option (list Z) :=
  let i := last_frame (map f_pgno F) pgno lo (length F) in
  if i =? 0 then None else f_data <$> F !! Z.to_nat (i - 1).

Lemma last_frame_lo P q lo n : Z.of_nat n < lo -> last_frame P q lo n = 0.
Proof. destruct n as [|n]; [done|]. intros H. cbn [last_frame]. by rewrite (proj2 (Z.leb_gt _ _)) by lia. Qed.

Lemma last_frame_app P X q lo n : (n <= length P)%nat -> last_frame (P ++ X) q lo n = last_frame P q lo n.
Proof.
  induction n as [|n IH]; intros Hn; [done|]. cbn [last_frame]. rewrite IH by lia. by rewrite app_nth1 by lia.
Qed.

Lemma last_frame_snoc P x q lo : last_frame (P ++ [x]) q lo (S (length P)) =
  if (x =? q) && (lo <=? Z.of_nat (S (length P))) then Z.of_nat (S (length P)) else last_frame P q lo (length P).
Proof.
  cbn [last_frame]. rewrite nth_middle, last_frame_app by lia. destruct (lo <=? Z.of_nat (S (length P))) eqn:E; [by destruct (x =? q)|].
  rewrite andb_false_r. breflect. by rewrite last_frame_lo by lia.
Qed.

Lemma last_frame_none P X q lo : ~ In q X -> last_frame (P ++ X) q lo (length P + length X) = last_frame P q lo (length P).
Proof.
  induction X as [|x X IH] using rev_ind; intros Hq; [by rewrite app_nil_r, Nat.add_0_r|].
  rewrite length_app, app_assoc. cbn [length]. replace (length P + (length X + 1))%nat with (S (length (P ++ X))) by (rewrite length_app; lia).
  rewrite last_frame_snoc. rewrite in_app_iff in Hq. rewrite (proj2 (Z.eqb_neq x q)) by (intros ->; apply Hq; right; by left). cbn [andb].
  rewrite length_app. apply IH. tauto.
Qed.

Lemma log_page_snoc F f lo q : lo <= zlen F + 1 ->
  log_page (F ++ [f]) lo q = if f_pgno f =? q then Some (f_data f) else log_page F lo q.
Proof.
  intros Hlo. unfold log_page. rewrite map_app, length_app. cbn [map length]. replace (length F + 1)%nat with (S (length (map f_pgno F))) by (rewrite length_map; lia).
  rewrite last_frame_snoc, length_map. unfold zlen in Hlo. rewrite (proj2 (Z.leb_le lo _)), andb_true_r by lia.
  destruct (f_pgno f =? q).
  - rewrite (proj2 (Z.eqb_neq _ 0)) by lia. replace (Z.to_nat (Z.of_nat (S (length F)) - 1)) with (length F) by lia. by rewrite list_lookup_middle.
  - case_if; [done|]. breflect. rewrite lookup_app_l; [done|]. pose proof (last_frame_le (map f_pgno F) q lo (length F)). lia.
Qed.

Lemma log_page_set F lo pg d q k : last_frame (map f_pgno F) pg lo (length F) = k -> 1 <= k -> 1 <= lo ->
  log_page (set_data (Z.to_nat (k - 1)) d F) lo q = if pg =? q then Some d else log_page F lo q.
Proof.
  intros Hk Hk1 Hlo. unfold log_page. rewrite pgnos_set_data, length_set_data.
  pose proof (last_frame_spec (map f_pgno F) pg lo (length F)) as [[[? _]|(Hr & Hpg & _)]|]; [lia| |lia]. rewrite Hk in *.
  destruct (lookup_lt_is_Some_2 F (Z.to_nat (k - 1))) as [g Hg]; [lia|].
  assert (f_pgno g = pg) as Hgp.
  { unfold zat in Hpg. rewrite (nth_lookup_Some _ _ 0 (f_pgno g)) in Hpg; [done|]. change (@map) with (@fmap list _). by rewrite list_lookup_fmap, Hg. }
  unfold set_data. rewrite Hg. destruct (pg =? q) eqn:E; breflect.
  - subst q. rewrite Hk. rewrite (proj2 (Z.eqb_neq k 0)) by lia. rewrite list_lookup_insert_eq by (by eapply lookup_lt_Some). done.
  - case_if; [done|]. breflect. rewrite list_lookup_insert_ne; [done|]. intros Heq.
    pose proof (last_frame_spec (map f_pgno F) q lo (length F)) as [[[? _]|(Hr' & Hpg' & _)]|]; [done| |lia].
    assert (last_frame (map f_pgno F) q lo (length F) = k) as Hkq by lia. rewrite Hkq in Hpg'. congruence.
Qed.

(** Each page of the list now reads as it was written, and no other changes. *)
Lemma put_pages_data P lo iFirst isCommit nT pList F pl X : 1 <= lo -> lo <= Z.of_nat (length P) + 1 -> 0 <= iFirst ->
  map f_pgno F = P ++ X -> Forall (fun pg => ~ In (p_pgno pg) X) pList -> NoDup (map p_pgno pList) ->
  let '(F', _, _) := put_pages P lo iFirst isCommit nT pList F pl in
  forall q, log_page F' lo q = match find (fun pg => p_pgno pg =? q) pList with Some pg => Some (p_data pg) | None => log_page F lo q end.
Proof.
  intros Hlo HloP HiF. revert F pl X. induction pList as [|pg pD IH]; intros F pl X HF HX Hnd; cbn [put_pages]; [done|].
  apply Forall_cons in HX as [Hx HX]. cbn [map] in Hnd. apply NoDup_cons in Hnd as [Hni Hnd].
  assert (find (fun pg' => p_pgno pg' =? p_pgno pg) pD = None) as Hfind.
  { destruct (find _ pD) as [pg'|] eqn:E; [|done]. apply find_some in E as [Hin E]. breflect. destruct Hni. apply list_elem_of_In, in_map_iff. by exists pg'. }
  assert (length F = length P + length X)%nat as HlF by (by rewrite <- length_app, <- HF, length_map).
  destruct (negb (iFirst =? 0) && _ && _) eqn:E.
  - breflect. set (iW := last_frame P (p_pgno pg) lo (length P)) in *.
    specialize (IH (set_data (Z.to_nat (iW - 1)) (p_data pg) F) pl X). rewrite pgnos_set_data in IH. specialize (IH HF HX Hnd).
    destruct (put_pages _ _ _ _ _ pD _ pl) as [[F' pl'] flags]. cbv iota beta. intros q. rewrite IH. cbn [find].
    rewrite (log_page_set F lo (p_pgno pg)) by (try lia; rewrite HF, HlF; by apply last_frame_none).
    destruct (p_pgno pg =? q) eqn:Eq; [|done]. breflect. subst q. by rewrite Hfind.
  - match goal with |- context [put_pages _ _ _ _ _ pD ?G ?q] => specialize (IH G q (X ++ [p_pgno pg])); destruct (put_pages P lo iFirst isCommit nT pD G q) as [[F' pl'] flags] end.
    cbv iota beta. intros q. rewrite IH.
    + cbn [find]. rewrite log_page_snoc by (unfold zlen; lia). cbn [f_pgno f_data]. destruct (p_pgno pg =? q) eqn:Eq; [|done]. breflect. subst q. by rewrite Hfind.
    + rewrite map_app, HF. cbn [map f_pgno]. by rewrite app_assoc.
    + rewrite Forall_forall in HX |- *. intros pg' Hin. rewrite in_app_iff. intros [Hi|[Hi|[]]]; [by apply (HX pg')|].
      destruct Hni. rewrite Hi. apply list_elem_of_In, in_map_iff. exists pg'. split; [done|]. by apply list_elem_of_In.
    + done.
Qed.

(** ** Writing frames *)

Section writing.
Context {V : Vfs} {R : Reliable V} (map_page : Z -> Z) (Hmap : forall h, map_page h = SQLITE_OK) (big : bool).

Lemma os_write_ok d off w f : 0 <= off -> 0 < zlen d < 2 ^ 17 -> os_write d off (w, f) = (Ret tt, (w, fwrite f off d)).
Proof using All. intros Ho Hd. unfold os_write, mbnd, get_file, put_file, check. cbn [snd fst]. by rewrite write_all. Qed.

Lemma os_sync_ok flags s : os_sync flags s = (Ret tt, s).
Proof using All. unfold os_sync, check. by rewrite sync_all. Qed.

Lemma walWriteToLog_ok p d off w f : 0 <= off -> 0 < zlen d < 2 ^ 17 -> walWriteToLog p d off (w, f) = (Ret tt, (w, fwrite f off d)).
Proof using All.
  intros Ho Hd. unfold walWriteToLog. destruct ((off <? iSyncPoint p) && (iSyncPoint p <=? off + zlen d)) eqn:E; [|by apply os_write_ok].
  breflect. set (n := iSyncPoint p - off). assert (zlen (take (Z.to_nat n) d) = n) as Hn by (apply zlen_take; unfold n; lia).
  erewrite mbnd_step by (apply os_write_ok; unfold n in *; lia). erewrite mbnd_step by apply os_sync_ok.
  destruct (zlen d - n =? 0) eqn:En; breflect.
  - rewrite take_ge by (unfold zlen in *; lia). done.
  - rewrite os_write_ok; [|unfold n; lia|rewrite zlen_zdrop by (unfold n; lia); unfold n; lia].
    replace (off + n) with (off + zlen (take (Z.to_nat n) d)) by lia. rewrite fwrite_app by done. unfold zdrop. by rewrite take_drop.
Qed.

(** Only the checksum of the connection and where it is to be recomputed change. *)
Definition ck_only (w w' : Wal) : Prop := exists ck r, w' = set_recksum (set_cksum w ck) r.

Lemma ck_only_refl w : ck_only w w.
Proof using. exists (aFrameCksum (hdr w)), (iReCksum w). by destruct w as [? ? ? []]. Qed.

Lemma ck_only_trans w1 w2 w3 : ck_only w1 w2 -> ck_only w2 w3 -> ck_only w1 w3.
Proof using. intros (a & b & ->) (c & d & ->). by exists c, d. Qed.

Lemma walWriteOneFrame_ok sn e salt pgsz nc w file F v f p :
  in_log sn e salt pgsz nc w file F v -> frame_ok pgsz f -> w_szPage p = pgsz ->
  exists w' file', walWriteOneFrame big p (mkPg (f_pgno f) (f_data f)) (f_commit f) (walFrameOffset (zlen F + 1) pgsz) (w, file) = (Ret tt, (w', file')) /\
    in_log sn e salt pgsz nc w' file' (F ++ [f]) (if iReCksum w =? 0 then v + 1 else v) /\ ck_only w w' /\ iReCksum w' = iReCksum w.
Proof using All.
  intros Hl Hf Hp. pose proof Hl as [H _]. pose proof (l_pg _ _ _ _ _ _ _ _ _ H) as [Hpg _]. pose proof (l_ok _ _ _ _ _ _ _ _ _ H) as Hw.
  pose proof (ok_salt _ Hw) as [Hs8 Hsb]. pose proof Hf as (_ & _ & Hd & Hdl). pose proof (zlen_nonneg F).
  pose proof (off_pos pgsz (zlen F + 1) ltac:(lia) ltac:(lia)). set (off := walFrameOffset (zlen F + 1) pgsz) in *.
  destruct (walEncodeFrame big w (f_pgno f) (f_commit f) (f_data f)) as [hd w'] eqn:E.
  assert (if iReCksum w =? 0 then hd = frame_header e salt (aFrameCksum (hdr w)) f /\ w' = set_cksum w (next_ck e (aFrameCksum (hdr w)) f)
    else hd = sqlite3Put4byte (f_pgno f) ++ sqlite3Put4byte (f_commit f) ++ repeat 0 16 /\ w' = w) as Hhd.
  { destruct (iReCksum w =? 0) eqn:Er; breflect.
    - rewrite walEncodeFrame_eq in E by (done || by rewrite (l_sz _ _ _ _ _ _ _ _ _ H)).
      rewrite (l_order _ _ _ _ _ _ _ _ _ H), (l_salt _ _ _ _ _ _ _ _ _ H) in E. injection E as <- <-. by destruct f.
    - unfold walEncodeFrame in E. rewrite (proj2 (Z.eqb_neq _ _) Er) in E. injection E as <- <-. done. }
  assert (zlen hd = 24) as Hh.
  { destruct (iReCksum w =? 0); destruct Hhd as [-> _]; [apply zlen_frame_header; by rewrite <- (l_salt _ _ _ _ _ _ _ _ _ H)|done]. }
  exists w', (fwrite file off (hd ++ f_data f)). split; [|split; [|split]].
  - unfold walWriteOneFrame. erewrite mbnd_step by reflexivity. cbn [fst p_pgno p_data]. rewrite E. erewrite mbnd_step by reflexivity.
    cbn [snd]. erewrite mbnd_step by (apply walWriteToLog_ok; lia).
    rewrite take_ge by (rewrite Hp; unfold zlen in Hdl; lia). rewrite walWriteToLog_ok by (unfold WAL_FRAME_HDRSIZE; lia).
    unfold WAL_FRAME_HDRSIZE. by rewrite <- Hh, fwrite_app by lia.
  - by apply (put_frame sn e salt pgsz nc w).
  - destruct (iReCksum w =? 0); destruct Hhd as [_ ->]; [|apply ck_only_refl].
    exists (next_ck e (aFrameCksum (hdr w)) f), (iReCksum w). by destruct w.
  - by destruct (iReCksum w =? 0); destruct Hhd as [_ ->].
Qed.

Lemma rewrite_loop_ok sn e salt pgsz nc F n : forall w file v,
  has_frames sn e salt pgsz nc w file F v -> aFrameCksum (hdr w) = run_ck e (header_ck e pgsz nc salt) (take (Z.to_nat v) F) ->
  iReCksum w = 0 -> Z.of_nat n = zlen F - v ->
  exists w' file', rewrite_loop big n pgsz (v + 1) (w, file) = (Ret tt, (w', file')) /\ has_frames sn e salt pgsz nc w' file' F (zlen F) /\
    aFrameCksum (hdr w') = run_ck e (header_ck e pgsz nc salt) F /\ ck_only w w' /\ iReCksum w' = 0.
Proof using All.
  induction n as [|n IH]; intros w file v Hl Hck Hre Hn.
  { exists w, file. assert (v = zlen F) as -> by lia. rewrite take_ge in Hck by (unfold zlen; lia). by split_and!; try apply ck_only_refl. }
  pose proof Hl as [H1 H2 H3 H4 H5 H6 H7 H8 H9 H10 H11 H12 Hsn]. destruct (ok_salt _ H1) as [Hs8 Hsb]. rewrite H5 in Hs8, Hsb. pose proof (proj1 H2) as Hp.
  destruct (lookup_lt_is_Some_2 F (Z.to_nat v)) as [f Hf]; [unfold zlen in *; lia|].
  pose proof (Forall_lookup_1 _ _ _ _ H7 Hf) as Hfok. pose proof Hfok as (Hfp & Hfc & Hd & Hdl).
  pose proof (off_pos pgsz (v + 1) ltac:(lia) ltac:(lia)) as Hoff. pose proof (off_mono pgsz (v + 1 + 1) (zlen F + 1) ltac:(lia) ltac:(lia)) as Hm. rewrite off_next in Hm.
  destruct (rewrite_header sn e salt pgsz nc w file F v f Hl Hf Hck) as [Hl1 Hck1].
  pose proof (H12 _ _ Hf) as Hraw. replace (Z.of_nat (Z.to_nat v) + 1) with (v + 1) in Hraw by lia.
  pose proof (raw_parts file pgsz (v + 1) f ltac:(lia) ltac:(lia) Hraw) as Hbuf.
  set (off := walFrameOffset (v + 1) pgsz) in *. set (w1 := set_cksum w (next_ck e (aFrameCksum (hdr w)) f)) in *.
  destruct (IH w1 _ (v + 1) Hl1 Hck1 Hre ltac:(lia)) as (w' & file' & Hrun & Hl' & Hck' & Honly & Hre').
  exists w', file'. split; [|by split_and!].
  cbn [rewrite_loop]. fold off.
  assert (os_fread (pgsz + WAL_FRAME_HDRSIZE) off (w, file) = (Ret (fread file off (pgsz + 24)), (w, file))) as Hread.
  { unfold os_fread, mbnd, get_file, check. cbn [snd]. rewrite read_all by (unfold WAL_FRAME_HDRSIZE; lia). unfold os_read, WAL_FRAME_HDRSIZE.
    rewrite zlen_fread by lia. rewrite (proj2 (Z.eqb_eq _ _)) by lia. done. }
  rewrite (mbnd_step _ _ _ _ _ Hread). erewrite mbnd_step by reflexivity. cbn [fst]. rewrite Hbuf.
  assert (sqlite3Get4byte ((sqlite3Put4byte (f_pgno f) ++ sqlite3Put4byte (f_commit f)) ++ fread file (off + 8) 16 ++ f_data f) = f_pgno f) as ->.
  { rewrite <- app_assoc. apply put4_get4. lia. }
  assert (sqlite3Get4byte (zdrop 4 ((sqlite3Put4byte (f_pgno f) ++ sqlite3Put4byte (f_commit f)) ++ fread file (off + 8) 16 ++ f_data f)) = f_commit f) as ->.
  { rewrite <- app_assoc, (zdrop_app 4) by done. by apply put4_get4. }
  assert (zdrop WAL_FRAME_HDRSIZE ((sqlite3Put4byte (f_pgno f) ++ sqlite3Put4byte (f_commit f)) ++ fread file (off + 8) 16 ++ f_data f) = f_data f) as ->.
  { rewrite app_assoc. apply zdrop_app. rewrite !zlen_app, !zlen_put4, zlen_fread by lia. unfold WAL_FRAME_HDRSIZE. lia. }
  rewrite walEncodeFrame_eq by (done || by rewrite H6). cbv zeta. rewrite H4, H5. replace (mkFrame (f_pgno f) (f_commit f) (f_data f)) with f by (by destruct f).
  fold w1. erewrite mbnd_step by reflexivity. cbn [snd]. erewrite mbnd_step by (apply os_write_ok; [lia|rewrite zlen_frame_header by done; lia]).
  exact Hrun.
Qed.

Lemma walRewriteChecksums_ok sn e salt pgsz nc w file F v : in_log sn e salt pgsz nc w file F v -> iReCksum w <> 0 ->
  exists w' file', walRewriteChecksums big true (zlen F) (w, file) = (Ret tt, (w', file')) /\ in_log sn e salt pgsz nc w' file' F (zlen F) /\
    iReCksum w' = 0 /\ ck_only w w'.
Proof using All.
  intros [Hl Hre] Hne. destruct Hre as [[? _]|[Hre Hv]]; [done|]. pose proof Hl as [H1 H2 H3 H4 H5 H6 H7 H8 H9 H10 H11 H12 Hsn]. pose proof (proj1 H2) as Hp.
  set (ck := run_ck e (header_ck e pgsz nc salt) (take (Z.to_nat v) F)).
  assert (pair32 ck) as [Hc1 Hc2] by apply run_ck_32, header_ck_32.
  pose proof (read_cksum sn e salt pgsz nc w file F v Hl) as Hread. fold ck in Hread. cbv zeta in Hread.
  set (w1 := set_recksum (set_cksum w ck) 0).
  assert (has_frames sn e salt pgsz nc w1 file F v) as Hl1 by (split; [apply wal_ok_recksum, set_cksum_ok; done|done..]).
  destruct (rewrite_loop_ok sn e salt pgsz nc F (Z.to_nat (zlen F - v)) w1 file v Hl1 eq_refl eq_refl ltac:(lia)) as (w' & file' & Hrun & Hl' & Hck' & Honly & Hre').
  exists w', file'. split; [|split; [split; [done|left; done]|split; [done|]]]. 2: { apply ck_only_trans with w1; [|done]. by exists ck, 0. }
  unfold walRewriteChecksums. erewrite mbnd_step by reflexivity. cbn [fst negb]. erewrite mbnd_step by reflexivity. cbn [snd].
  replace (iReCksum w - 1) with v by lia. replace (iReCksum w) with (v + 1) by lia. rewrite H6.
  set (o := if v + 1 =? 1 then 24 else walFrameOffset v pgsz + 16) in *.
  assert (24 <= o /\ o + 8 <= zlen file) as [Ho1 Ho2].
  { pose proof (off_mono pgsz (v + 1) (zlen F + 1) ltac:(lia) ltac:(lia)). unfold o. case_if; breflect; [pose proof (off_pos pgsz (v + 1) ltac:(lia) ltac:(lia)); lia|].
    pose proof (off_pos pgsz v ltac:(lia) ltac:(lia)). pose proof (off_next pgsz v). lia. }
  rewrite read_all by lia. unfold os_read. rewrite zlen_fread, Hread by lia. rewrite (proj2 (Z.eqb_eq _ _)) by lia.
  erewrite mbnd_step by reflexivity. cbn [fst snd check Z.eqb SQLITE_OK].
  rewrite put4_get4, (zdrop_app 4) by done. rewrite <- (app_nil_r (sqlite3Put4byte ck.2)), put4_get4 by done.
  replace (ck.1, ck.2) with ck by (by destruct ck). fold w1. erewrite mbnd_step by reflexivity.
  replace (zlen F - (v + 1) + 1) with (zlen F - v) by lia. exact Hrun.
Qed.

Lemma write_pages_ok sn e salt pgsz nc P w0 iFirst isCommit nTruncate p c :
  (forall w, ck_only w0 w -> forall pgno, walFindFrame map_page w pgno = (SQLITE_OK, last_frame P pgno (minFrame w0) (length P))) ->
  1 <= minFrame w0 -> 0 <= iFirst -> 0 <= nTruncate < 2 ^ 32 -> w_szPage p = pgsz ->
  forall pList w file F v pLast,
  in_log sn e salt pgsz nc w file F v -> ck_only w0 w -> take (length P) (map f_pgno F) = P -> Forall (page_ok pgsz) pList ->
  c <= v -> iFirst = 0 \/ c < iFirst ->
  let '(F', pLast', flags) := put_pages P (minFrame w0) iFirst isCommit nTruncate pList F pLast in
  exists w' file' v', write_pages map_page big p pList iFirst isCommit nTruncate (zlen F) (walFrameOffset (zlen F + 1) pgsz) pLast (w, file) =
      (Ret (zlen F', walFrameOffset (zlen F' + 1) pgsz, pLast', flags), (w', file')) /\
    in_log sn e salt pgsz nc w' file' F' v' /\ ck_only w0 w' /\ c <= v'.
Proof using All.
  intros Hfind Hmin HiF Hnt Hp. induction pList as [|pg pDirty IH]; intros w file F v pLast Hl Hck HP Hpg Hcv HcF; cbn [put_pages write_pages].
  { exists w, file, v. done. }
  apply Forall_cons in Hpg as [(Hpn & Hpd & Hpl) Hpgs]. pose proof Hl as [Hh _]. pose proof (l_pg _ _ _ _ _ _ _ _ _ Hh) as [Hsz _].
  assert (length P <= length F)%nat as HPF by (rewrite <- HP, length_take, length_map; lia).
  set (last := match pDirty with [] => true | _ => false end). set (iW := last_frame P (p_pgno pg) (minFrame w0) (length P)).
  pose proof (last_frame_range P (p_pgno pg) (minFrame w0) (length P) Hmin) as HiW. fold iW in HiW.
  set (cond := negb (iFirst =? 0) && (negb last || negb isCommit)).
  assert ((if cond then snd (walFindFrame map_page w (p_pgno pg)) else 0) = if cond then iW else 0) as Hiw.
  { by rewrite (Hfind w Hck). }
  erewrite mbnd_step by reflexivity. cbn [fst]. fold cond. rewrite Hiw.
  assert (cond && (iFirst <=? (if cond then iW else 0)) = cond && (iFirst <=? iW)) as -> by (by destruct cond).
  destruct (cond && (iFirst <=? iW)) eqn:E.
  - apply andb_true_iff in E as [Ec Ei]. rewrite Ec. unfold cond in Ec. breflect.
    assert (1 <= iW <= zlen F) as HiWF by (unfold zlen; lia).
    destruct (lookup_lt_is_Some_2 F (Z.to_nat (iW - 1))) as [g Hg]; [unfold zlen in HiWF; lia|].
    pose proof (overwrite_frame sn e salt pgsz nc w file F v iW g (p_data pg) Hl HiWF Hg Hpd Hpl) as Hl1.
    assert (set_data (Z.to_nat (iW - 1)) (p_data pg) F = <[Z.to_nat (iW - 1) := mkFrame (f_pgno g) (f_commit g) (p_data pg)]> F) as HF1 by (unfold set_data; by rewrite Hg).
    set (w1 := if (iReCksum w =? 0) || (iW <? iReCksum w) then set_recksum w iW else w) in *.
    assert (ck_only w0 w1) as Hck1.
    { apply ck_only_trans with w; [done|]. unfold w1. case_if; [|apply ck_only_refl]. exists (aFrameCksum (hdr w)), iW. by destruct w as [? ? ? []]. }
    rewrite <- HF1 in Hl1. specialize (IH w1 _ (set_data (Z.to_nat (iW - 1)) (p_data pg) F) _ pLast Hl1 Hck1).
    rewrite pgnos_set_data in IH. specialize (IH HP Hpgs ltac:(lia) HcF). assert (zlen (set_data (Z.to_nat (iW - 1)) (p_data pg) F) = zlen F) as HzF by (unfold zlen; by rewrite length_set_data).
    destruct (put_pages P (minFrame w0) iFirst isCommit nTruncate pDirty (set_data (Z.to_nat (iW - 1)) (p_data pg) F) pLast) as [[F' pLast'] flags].
    destruct IH as (w' & file' & v' & Hrun & Hl' & Hck'). exists w', file', v'. split; [|done].
    erewrite mbnd_step by reflexivity. cbn [snd]. rewrite Hp, take_ge by (unfold zlen in Hpl; lia).
    pose proof (off_pos pgsz iW ltac:(lia) ltac:(lia)). erewrite mbnd_step by (apply os_write_ok; unfold WAL_FRAME_HDRSIZE; lia).
    rewrite HzF in Hrun. rewrite (mbnd_step _ _ _ _ _ Hrun). done.
  - set (f := mkFrame (p_pgno pg) (if isCommit && last then nTruncate else 0) (p_data pg)).
    assert (frame_ok pgsz f) as Hf by (split; [done|]; split; [|done]; cbn [f f_commit]; case_if; lia).
    destruct (walWriteOneFrame_ok sn e salt pgsz nc w file F v f p Hl Hf Hp) as (w1 & file1 & Hwr & Hl1 & Hck1 & _).
    specialize (IH w1 file1 (F ++ [f]) _ (Some pg) Hl1 (ck_only_trans _ _ _ Hck Hck1)).
    rewrite map_app, take_app_le in IH by (by rewrite length_map). specialize (IH HP Hpgs ltac:(case_if; lia) HcF).
    assert (zlen (F ++ [f]) = zlen F + 1) as HzF by (by rewrite zlen_app).
    destruct (put_pages P (minFrame w0) iFirst isCommit nTruncate pDirty (F ++ [f]) (Some pg)) as [[F' pLast'] flags].
    destruct IH as (w' & file' & v' & Hrun & Hl' & Hck'). exists w', file', v'. split; [|done].
    change (walWriteOneFrame big p (mkPg (f_pgno f) (f_data f)) (f_commit f) (walFrameOffset (zlen F + 1) pgsz) (w, file) = (Ret tt, (w1, file1))) in Hwr.
    replace (mkPg (f_pgno f) (f_data f)) with pg in Hwr by (by destruct pg). cbn [f f_commit] in Hwr. rewrite (mbnd_step _ _ _ _ _ Hwr).
    rewrite HzF, off_next, <- Hp in Hrun. rewrite <- Hp. unfold WAL_FRAME_HDRSIZE. rewrite (mbnd_step _ _ _ _ _ Hrun). done.
Qed.

(** *** Padding *)

Lemma pad_loop_ok sn e salt pgsz nc p f fuel : frame_ok pgsz f -> w_szPage p = pgsz ->
  forall w file F v nE, in_log sn e salt pgsz nc w file F v -> iReCksum w = 0 -> iSyncPoint p - walFrameOffset (zlen F + 1) pgsz <= Z.of_nat fuel ->
  exists k w' file', pad_loop big fuel p (mkPg (f_pgno f) (f_data f)) (f_commit f) (walFrameOffset (zlen F + 1) pgsz) nE (w, file) =
      (Ret (walFrameOffset (zlen (F ++ repeat f k) + 1) pgsz, nE + k)%nat, (w', file')) /\
    in_log sn e salt pgsz nc w' file' (F ++ repeat f k) (zlen (F ++ repeat f k)) /\ ck_only w w' /\ iReCksum w' = 0 /\ (k <= fuel)%nat.
Proof using All.
  intros Hf Hp. induction fuel as [|fuel IH]; intros w file F v nE Hl Hre Hfuel; cbn [pad_loop].
  - rewrite (proj2 (Z.ltb_ge _ _)) by lia. exists O, w, file. cbn [repeat]. rewrite app_nil_r, Nat.add_0_r. split; [done|].
    split; [|split; [apply ck_only_refl|split; [done|lia]]]. destruct Hl as [Hl Hr]. pose proof Hr as [(_ & -> & _)|[? _]]; [done|lia].
  - destruct (walFrameOffset (zlen F + 1) pgsz <? iSyncPoint p) eqn:E; breflect.
    + destruct (walWriteOneFrame_ok sn e salt pgsz nc w file F v f p Hl Hf Hp) as (w1 & file1 & Hwr & Hl1 & Hck1 & Hre1).
      pose proof (proj1 (l_pg _ _ _ _ _ _ _ _ _ (proj1 Hl))) as Hsz. assert (zlen (F ++ [f]) = zlen F + 1) as HzF by (by rewrite zlen_app).
      destruct (IH w1 file1 (F ++ [f]) _ (S nE) Hl1 ltac:(congruence)) as (k & w' & file' & Hrun & Hl' & Hck' & Hre' & Hk).
      { rewrite HzF, off_next. lia. }
      exists (S k), w', file'. rewrite (mbnd_step _ _ _ _ _ Hwr). cbn [repeat]. rewrite <- !app_assoc in *. cbn [app] in *.
      rewrite HzF, off_next in Hrun. rewrite Hp. unfold WAL_FRAME_HDRSIZE. replace (nE + S k)%nat with (S nE + k)%nat by lia.
      split; [exact Hrun|]. split; [done|]. split; [by apply ck_only_trans with w1|]. split; [done|lia].
    + exists O, w, file. cbn [repeat]. rewrite app_nil_r, Nat.add_0_r. split; [done|].
      split; [|split; [apply ck_only_refl|split; [done|lia]]]. destruct Hl as [Hl Hr]. pose proof Hr as [(_ & -> & _)|[? _]]; [done|lia].
Qed.

Lemma pad_and_sync_ok sn e salt pgsz nc p sector w file F v f : in_log sn e salt pgsz nc w file F v -> iReCksum w = 0 -> frame_ok pgsz f ->
  w_szPage p = pgsz -> 0 < sector -> exists k w' file',
  pad_and_sync big sector p (Some (mkPg (f_pgno f) (f_data f))) (f_commit f) (walFrameOffset (zlen F + 1) pgsz) (w, file) = (Ret (k, SQLITE_OK), (w', file')) /\
    in_log sn e salt pgsz nc w' file' (F ++ repeat f k) (zlen (F ++ repeat f k)) /\ ck_only w w' /\ iReCksum w' = 0 /\ Z.of_nat k <= sector.
Proof using All.
  intros Hl Hre Hf Hp Hsec. unfold pad_and_sync. erewrite mbnd_step by reflexivity. cbn [fst]. destruct (padToSectorBoundary w).
  - set (off := walFrameOffset (zlen F + 1) pgsz). set (point := (off + sector - 1) / sector * sector).
    destruct (pad_loop_ok sn e salt pgsz nc (mkWriter point (syncFlags p) (w_szPage p)) f (Z.to_nat (point - off)) Hf Hp w file F v 0 Hl Hre) as (k & w' & file' & Hrun & Hl' & Hck' & Hre' & Hk).
    { cbn [iSyncPoint]. fold off. lia. }
    exists k, w', file'. split; [|split_and!; try done].
    2: { assert (point - off < sector) by (unfold point; Z.to_euclidean_division_equations; lia). lia. }
    fold off in Hrun. erewrite mbnd_step; [|rewrite (mbnd_step _ _ _ _ _ Hrun); reflexivity].
    cbn [snd]. destruct (point =? off); [cbn [syncFlags]; by rewrite sync_all|done].
  - exists O, w, file. rewrite sync_all. cbn [repeat]. rewrite app_nil_r. split; [done|].
    split; [|split; [apply ck_only_refl|split; [done|lia]]]. destruct Hl as [Hl Hr]. pose proof Hr as [(_ & -> & _)|[? _]]; [done|lia].
Qed.

(** *** The header *)

(** A connection that can start a log. *)
Definition can_start (w : Wal) : Prop := zlen (aSalt (hdr w)) = 8 /\ bytes_ok (aSalt (hdr w)) /\ 0 <= nCkpt w < 2 ^ 32 /\ iReCksum w = 0.

Lemma write_header_ok (sn : bool) random sz flags w file : page_size_ok sz -> can_start w -> zlen (random 8) = 8 -> bytes_ok (random 8) -> bytes_ok file ->
  (sn = true -> zlen file <= 32) ->
  let salt := if nCkpt w =? 0 then random 8 else aSalt (hdr w) in
  exists w' file', write_header big random sz flags (w, file) = (Ret tt, (w', file')) /\ in_log sn big salt sz (nCkpt w) w' file' [] 0 /\
    w' = set_truncate (set_szPage (set_hdr w (hdr w')) sz) true /\ mxFrame (hdr w') = mxFrame (hdr w).
Proof using All.
  intros Hsz (Hs8 & Hsb & Hnc & Hre) Hr8 Hrb Hfile Hsn salt. pose proof (proj1 Hsz) as Hp.
  assert (zlen salt = 8 /\ bytes_ok salt) as [Hz Hb] by (unfold salt; by case_if).
  unfold write_header. erewrite mbnd_step by reflexivity. cbn [fst]. fold salt. fold (wal_header_start big sz (nCkpt w) salt).
  assert (walChecksumBytes big true (wal_header_start big sz (nCkpt w) salt) (WAL_HDRSIZE - 2 * 4) (0, 0) = header_ck big sz (nCkpt w) salt) as ->.
  { replace true with (Bool.eqb big big) by apply eqb_reflx. rewrite checksum_words; [|by apply header_start_bytes|rewrite zlen_header_start; done].
    unfold header_ck. do 2 f_equal. apply take_ge. pose proof (zlen_header_start big sz (nCkpt w) salt Hz) as H. unfold zlen in H. unfold WAL_HDRSIZE. lia. }
  fold (wal_header_bytes big sz (nCkpt w) salt). pose proof (zlen_header big sz (nCkpt w) salt Hz) as Hlh. set (b := wal_header_bytes big sz (nCkpt w) salt) in *.
  erewrite mbnd_step by reflexivity. cbn [snd]. erewrite mbnd_step by (apply os_write_ok; lia).
  assert (bytes_ok b) as Hbb. { unfold b, wal_header_bytes. rewrite !Forall_app. split_and!; [by apply header_start_bytes|apply put4_bytes..]. }
  match goal with |- context [(?x, fwrite file 0 b)] => set (w1 := x) end.
  exists w1, (fwrite file 0 b). split; [by destruct (syncHeader w); [apply os_sync_ok|]|]. split; [|done].
  assert (b <> []) as Hne by (intros E; rewrite E in Hlh; done). pose proof (zlen_nonneg file).
  split; [split|left].
  - split; cbn [w1 set_truncate set_szPage set_hdr hdr szPage bigEndCksum aSalt aFrameCksum]; [by destruct big; [right|left]|done|apply header_ck_32|done].
  - done.
  - done.
  - unfold order. cbn. by destruct big.
  - done.
  - done.
  - apply Forall_nil_2.
  - by apply fwrite_bytes.
  - rewrite zlen_fwrite by (done || lia). change (walFrameOffset (zlen (A := wframe) [] + 1) sz) with 32. lia.
  - unfold zlen. cbn. lia.
  - change (walFrameOffset (0 + 1) sz) with 32. cbn [Z.to_nat take log_bytes]. rewrite app_nil_r, fwrite_eq by done.
    change (Z.to_nat 0) with 0%nat. rewrite take_0. cbn [app]. fold b. apply take_app_length'. unfold zlen in Hlh. lia.
  - intros i f Hi. done.
  - intros E. specialize (Hsn E). rewrite zlen_fwrite by (done || lia). change (walFrameOffset (zlen (A := wframe) [] + 1) sz) with 32. lia.
  - split; [exact Hre|]. done.
Qed.

(** *** Making the file shorter *)

Lemma truncate_ok sn e salt pgsz nc w file F v n : in_log sn e salt pgsz nc w file F v -> walFrameOffset (zlen F + 1) pgsz <= n ->
  in_log sn e salt pgsz nc w (take (Z.to_nat n) file) F v.
Proof using.
  intros [[H1 H2 H3 H4 H5 H6 H7 H8 H9 H10 H11 H12 Hsn] Hre] Hn. split; [|done]. pose proof (proj1 H2) as Hp.
  pose proof (off_pos pgsz (zlen F + 1) ltac:(lia) ltac:(lia)). pose proof (off_mono pgsz (v + 1) (zlen F + 1) ltac:(lia) ltac:(lia)).
  split; try done.
  - by apply Forall_take.
  - unfold zlen in *. rewrite length_take. lia.
  - rewrite take_take, Nat.min_l by lia. done.
  - intros i f Hi. destruct (H12 _ _ Hi) as [R1 R2]. pose proof (lookup_lt_Some _ _ _ Hi) as Hlt.
    pose proof (off_mono pgsz (Z.of_nat i + 1 + 1) (zlen F + 1) ltac:(lia) ltac:(unfold zlen; lia)) as Hm. rewrite off_next in Hm.
    pose proof (off_pos pgsz (Z.of_nat i + 1) ltac:(lia) ltac:(lia)). split; rewrite fread_take by lia; done.
  - intros E. specialize (Hsn E). unfold zlen in *. rewrite length_take. lia.
Qed.

Lemma truncate_on_commit_ok sn e salt pgsz nc can isCommit w file n0 nE v F : in_log sn e salt pgsz nc w file F v -> zlen F = n0 + Z.of_nat nE ->
  exists w' file', truncate_on_commit can isCommit n0 nE pgsz (w, file) = (Ret tt, (w', file')) /\ in_log sn e salt pgsz nc w' file' F v /\
    (w' = w \/ w' = set_truncate w false).
Proof using.
  intros Hl Hz. unfold truncate_on_commit. erewrite mbnd_step by reflexivity. cbn [fst].
  destruct (isCommit && truncateOnCommit w && (0 <=? mxWalSize w)); [|exists w, file; by split; [|split; [|left]]].
  set (n := Z.max _ _). assert (walFrameOffset (zlen F + 1) pgsz <= n) as Hn by (unfold n; rewrite Hz; lia).
  assert (exists file', walLimitSize can n (w, file) = (Ret tt, (w, file')) /\ in_log sn e salt pgsz nc w file' F v) as (file' & Hrun & Hl').
  { unfold walLimitSize. erewrite mbnd_step by reflexivity. cbn [snd]. case_if; eexists; (split; [reflexivity|]); [by apply truncate_ok|done]. }
  exists (set_truncate w false), file'. rewrite (mbnd_step _ _ _ _ _ Hrun). split; [done|]. split; [|by right].
  destruct Hl' as [[H1 H2 H3 H4 H5 H6 H7 H8 H9 H10 H11 H12 Hsn] Hre]. split; [|done]. split; try done. by destruct H1.
Qed.

(** *** The whole call *)

(** The state of a connection that writes: the file has the frames [F], the index stands for
    them, the first [c] are committed and valid, and none after them is a commit. *)
Record db_log (sn e : bool) (salt : list Z) (pgsz nc : Z) (w : Wal) (file : list Z) (F : list wframe) (v c : Z) : Prop := {
  d_log : in_log sn e salt pgsz nc w file F v;
  d_imp : implements w (mkLog (map f_pgno F) c);
  d_min : 1 <= minFrame w <= c + 1;
  d_lock : readLock w <> 0;
  d_v : c <= v;
  d_unmarked : unmarked (Z.to_nat c) F;
  d_last : 0 < c -> exists f, F !! Z.to_nat (c - 1) = Some f /\ f_commit f <> 0
}.

Lemma implements_len w F c : implements w (mkLog (map f_pgno F) c) -> mxFrame (hdr w) = zlen F /\ mxFrame (live w) = c /\ 0 <= c <= zlen F.
Proof using.
  intros (L & HL & Hf & Hc & Hle & Hlen). cbn [frames committed] in *. pose proof (zlen_take (mxFrame (hdr w)) L ltac:(lia)) as Hz.
  rewrite <- Hf in Hz. unfold zlen in Hz at 1. rewrite length_map in Hz. unfold zlen. lia.
Qed.

Lemma implements_same w w' a : implements w a -> apWiData w' = apWiData w -> mxFrame (hdr w') = mxFrame (hdr w) -> mxFrame (live w') = mxFrame (live w) -> implements w' a.
Proof using. intros (L & HL & Hf & Hc & Hle & Hlen) E1 E2 E3. exists L. by rewrite E1, E2, E3. Qed.

Lemma ck_only_implements w w' a : ck_only w w' -> implements w a -> implements w' a.
Proof using. intros (ck & r & ->) H. by apply (implements_same w). Qed.

(** The index after the frames were entered. *)
Lemma index_written w F c written flags pl k isCommit nT sz :
  implements w (mkLog (map f_pgno F) c) -> WalIndex.written flags pl k = written -> Forall (fun pg => 0 < pg < 2 ^ 32) written ->
  exists w6, walFrames_index map_page w flags pl k isCommit nT sz = (SQLITE_OK, frames_written w6 (zlen F + zlen written) isCommit nT sz) /\
    same_rest w w6 /\
    implements (frames_written w6 (zlen F + zlen written) isCommit nT sz) (mkLog (map f_pgno F ++ written) (if isCommit then zlen F + zlen written else c)).
Proof using Hmap.
  intros Hi Hw Hok. pose proof (implements_len _ _ _ Hi) as (Hmx & Hlv & Hc). destruct Hi as (L & HL & Hf & _ & Hle & Hlen). cbn [frames] in Hf.
  destruct (append_frames_spec map_page w L (mxFrame (hdr w)) written Hmap HL ltac:(lia) ltac:(by right) Hok) as (w6 & L' & Hap & Hr & HL' & Htk & Ho).
  exists w6. rewrite <- Hw in Hap. rewrite (walFrames_index_eq _ _ _ _ _ isCommit nT sz _ _ _ Hap eq_refl), Hw, Hmx. split; [done|]. split; [done|].
  pose proof (zlen_nonneg written). rewrite Hmx in Htk, Ho, Hf. rewrite Hr.
  apply implements_intro with L' (zlen F + zlen written); [by destruct isCommit|by destruct isCommit| | | |].
  - cbn [frames]. by rewrite Htk, Hf.
  - cbn [committed]. by destruct isCommit.
  - destruct isCommit; cbn; lia.
  - destruct Ho as [->|[-> ->]]; [lia|]. unfold zlen at 2. cbn. lia.
Qed.

Lemma log_page_repeat F f k lo q : lo <= zlen F + 1 -> log_page F lo (f_pgno f) = Some (f_data f) -> log_page (F ++ repeat f k) lo q = log_page F lo q.
Proof using.
  intros Hlo Hp. induction k as [|k IH]; [by rewrite app_nil_r|].
  replace (repeat f (S k)) with (repeat f k ++ [f]) by (by rewrite <- repeat_cons). rewrite app_assoc.
  rewrite log_page_snoc by (rewrite zlen_app; pose proof (zlen_nonneg (repeat f k)); lia). rewrite IH. case_if; [|done]. breflect. subst q. done.
Qed.

(** The members that decide what the index stands for and what is found in it. *)
Definition same_ix (w w' : Wal) : Prop :=
  apWiData w' = apWiData w /\ mxFrame (hdr w') = mxFrame (hdr w) /\ live w' = live w /\ minFrame w' = minFrame w /\ readLock w' = readLock w /\
  nCkpt w' = nCkpt w.

Lemma ck_only_ix w w' : ck_only w w' -> same_ix w w'.
Proof using. by intros (ck & r & ->). Qed.

Lemma same_ix_trans w1 w2 w3 : same_ix w1 w2 -> same_ix w2 w3 -> same_ix w1 w3.
Proof using. intros (A1 & A2 & A3 & A4 & A5 & A6) (B1 & B2 & B3 & B4 & B5 & B6). split_and!; congruence. Qed.

Lemma same_ix_implements w w' a : same_ix w w' -> implements w a -> implements w' a.
Proof using. intros (A1 & A2 & A3 & _) H. apply (implements_same w); congruence. Qed.

Lemma in_log_valid sn e salt pgsz nc w file F v : in_log sn e salt pgsz nc w file F v -> iReCksum w = 0 -> v = zlen F.
Proof using. intros [_ [(_ & -> & _)|[? _]]] Hre; [done|lia]. Qed.

(** Checksums, padding and the size limit, between the pages and the index. *)
Lemma finish_file sn e salt pgsz nc sector can p w file F v c isCommit sync f pl :
  in_log sn e salt pgsz nc w file F v -> c <= v -> w_szPage p = pgsz -> 0 < sector -> frame_ok pgsz f ->
  (isCommit = true -> pl = Some (mkPg (f_pgno f) (f_data f))) ->
  exists k w3 f3 w4 f4 w5 f5 v5,
    (if isCommit && negb (iReCksum w =? 0) then walRewriteChecksums big true (zlen F) else mret tt) (w, file) = (Ret tt, (w3, f3)) /\
    (if isCommit && negb (WAL_SYNC_FLAGS sync =? 0) then pad_and_sync big sector p pl (f_commit f) (walFrameOffset (zlen F + 1) pgsz) else mret (O, SQLITE_OK)) (w3, f3)
      = (Ret (k, SQLITE_OK), (w4, f4)) /\
    truncate_on_commit can isCommit (zlen F) k pgsz (w4, f4) = (Ret tt, (w5, f5)) /\
    in_log sn e salt pgsz nc w5 f5 (F ++ repeat f k) v5 /\ c <= v5 /\ same_ix w w5 /\ (isCommit = true -> v5 = zlen (F ++ repeat f k)) /\ (isCommit = false -> k = O) /\ Z.of_nat k <= sector.
Proof using All.
  intros Hl Hc Hp Hsec Hf Hpl. destruct isCommit; cbn [andb].
  2: { exists O, w, file, w, file. destruct (truncate_on_commit_ok sn e salt pgsz nc can false w file (zlen F) 0 v F Hl ltac:(lia)) as (w5 & f5 & Hrun & Hl5 & Hw5).
    exists w5, f5, v. cbn [repeat]. rewrite app_nil_r. split; [done|]. split; [done|]. split; [exact Hrun|]. split; [done|]. split; [done|].
    split; [by destruct Hw5 as [->| ->]|]. split; [done|]. split; [done|lia]. }
  assert (exists w3 f3, (if negb (iReCksum w =? 0) then walRewriteChecksums big true (zlen F) else mret tt) (w, file) = (Ret tt, (w3, f3)) /\
    in_log sn e salt pgsz nc w3 f3 F (zlen F) /\ iReCksum w3 = 0 /\ ck_only w w3) as (w3 & f3 & Hrun3 & Hl3 & Hre3 & Hck3).
  { destruct (iReCksum w =? 0) eqn:E; breflect; cbn [negb].
    - exists w, file. split; [done|]. pose proof (in_log_valid _ _ _ _ _ _ _ _ _ Hl E) as ->. split; [done|]. split; [done|apply ck_only_refl].
    - by apply (walRewriteChecksums_ok sn e salt pgsz nc w file F v). }
  assert (exists k w4 f4, (if negb (WAL_SYNC_FLAGS sync =? 0) then pad_and_sync big sector p pl (f_commit f) (walFrameOffset (zlen F + 1) pgsz) else mret (O, SQLITE_OK)) (w3, f3)
      = (Ret (k, SQLITE_OK), (w4, f4)) /\ in_log sn e salt pgsz nc w4 f4 (F ++ repeat f k) (zlen (F ++ repeat f k)) /\ ck_only w3 w4 /\ Z.of_nat k <= sector) as (k & w4 & f4 & Hrun4 & Hl4 & Hck4 & Hk).
  { destruct (WAL_SYNC_FLAGS sync =? 0); cbn [negb].
    - exists O, w3, f3. cbn [repeat]. rewrite app_nil_r. split; [done|]. split; [done|split; [apply ck_only_refl|lia]].
    - rewrite (Hpl eq_refl). destruct (pad_and_sync_ok sn e salt pgsz nc p sector w3 f3 F (zlen F) f Hl3 Hre3 Hf Hp Hsec) as (k & w4 & f4 & H1 & H2 & H3 & _ & H5). by exists k, w4, f4. }
  assert (zlen (F ++ repeat f k) = zlen F + Z.of_nat k) as Hz by (rewrite zlen_app; unfold zlen at 2; by rewrite repeat_length).
  destruct (truncate_on_commit_ok sn e salt pgsz nc can true w4 f4 (zlen F) k _ _ Hl4 Hz) as (w5 & f5 & Hrun5 & Hl5 & Hw5).
  exists k, w3, f3, w4, f4, w5, f5, (zlen (F ++ repeat f k)). split; [exact Hrun3|]. split; [exact Hrun4|]. split; [exact Hrun5|]. split; [done|].
  pose proof (l_v _ _ _ _ _ _ _ _ _ (proj1 Hl)). split; [lia|]. split; [|done].
  apply same_ix_trans with w4; [apply same_ix_trans with w3; by apply ck_only_ix|]. by destruct Hw5 as [->| ->].
Qed.

(** What a call gives. *)
Record wrote (sn e : bool) (salt : list Z) (pgsz nc : Z) (pList : list PgHdr) (nT : Z) (isCommit : bool) (lo : Z) (F : list wframe) (c : Z)
    (w w' : Wal) (file' : list Z) (F' : list wframe) (v' : Z) : Prop := {
  wr_log : db_log sn e salt pgsz nc w' file' F' v' (if isCommit then zlen F' else c);
  wr_take : take (Z.to_nat c) F' = take (Z.to_nat c) F /\ c <= zlen F';
  wr_ne : F' <> [];
  wr_min : minFrame w' = lo;
  wr_pages : forall q, log_page F' lo q = match find (fun pg => p_pgno pg =? q) pList with Some pg => Some (p_data pg) | None => log_page F lo q end;
  wr_hdr : h_szPage (hdr w') = WalLog.hdr_szPage pgsz;
  wr_commit : isCommit = true -> v' = zlen F' /\ live w' = hdr w' /\ nPage (hdr w') = nT /\ exists f, F' !! Z.to_nat (zlen F' - 1) = Some f /\ f_commit f = nT;
  wr_live : isCommit = false -> live w' = live w;
  wr_same : nCkpt w' = nCkpt w /\ readLock w' = readLock w
}.

Definition call_ok (pgsz : Z) (pList : list PgHdr) (nT : Z) (isCommit : bool) : Prop :=
  Forall (page_ok pgsz) pList /\ NoDup (map p_pgno pList) /\ pList <> [] /\ 0 <= nT < 2 ^ 32 /\ (isCommit = true <-> nT <> 0).

Lemma frames_written_log sn e salt pgsz nc w w6 file F v iFrame isCommit nT : in_log sn e salt pgsz nc w file F v -> same_rest w w6 ->
  in_log sn e salt pgsz nc (frames_written w6 iFrame isCommit nT pgsz) file F v.
Proof using.
  intros [[H1 H2 H3 H4 H5 H6 H7 H8 H9 H10 H11 H12 Hsn] Hre] ->. destruct H1 as [K1 K2 K3 K4].
  split; [split; try done; by destruct isCommit|by destruct isCommit].
Qed.

Lemma pages_written_ok P lo iFirst isCommit nT pList F pl pgsz : Forall (page_ok pgsz) pList ->
  let '(_, _, flags) := put_pages P lo iFirst isCommit nT pList F pl in Forall (fun pg => 0 < pg < 2 ^ 32) (map fst (List.filter snd flags)).
Proof using.
  revert F pl. induction pList as [|pg pD IH]; intros F pl Hp; cbn [put_pages]; [constructor|]. apply Forall_cons in Hp as [(Hp & _) Hps].
  destruct (negb (iFirst =? 0) && _ && _).
  - specialize (IH (set_data (Z.to_nat (last_frame P (p_pgno pg) lo (length P) - 1)) (p_data pg) F) pl Hps).
    by destruct (put_pages _ _ _ _ _ pD _ pl) as [[F' pl'] flags].
  - match goal with |- context [put_pages _ _ _ _ _ pD ?G ?q] => specialize (IH G q Hps); destruct (put_pages P lo iFirst isCommit nT pD G q) as [[F' pl'] flags] end.
    cbv iota beta. cbn [List.filter snd map fst]. by constructor.
Qed.

(** Where a commit mark is after a call. *)
Lemma last_mark (F1 : list wframe) f k : exists g, (F1 ++ [f] ++ repeat f k) !! Z.to_nat (zlen (F1 ++ [f] ++ repeat f k) - 1) = Some g /\ g = f.
Proof using.
  exists f. split; [|done]. replace ([f] ++ repeat f k) with (repeat f k ++ [f]) by (symmetry; apply repeat_cons).
  rewrite app_assoc, zlen_app. change (zlen [f]) with 1. replace (zlen (F1 ++ repeat f k) + 1 - 1) with (zlen (F1 ++ repeat f k)) by lia.
  unfold zlen. rewrite Nat2Z.id. by apply list_lookup_middle.
Qed.

(** The frames of a call and the frame that pads them. *)
Lemma call_frames pgsz P lo iFirst isCommit nT pList F : call_ok pgsz pList nT isCommit -> 0 <= iFirst -> 1 <= lo -> lo <= zlen F + 1 -> P = map f_pgno F ->
  let '(F1, pl, flags) := put_pages P lo iFirst isCommit nT pList F None in
  exists f, f_commit f = nT /\ (Forall (frame_ok pgsz) F1 -> frame_ok pgsz f) /\
    (isCommit = true -> pl = Some (mkPg (f_pgno f) (f_data f)) /\ exists F0, F1 = F0 ++ [f] /\ (length F <= length F0)%nat) /\
    (forall q, log_page F1 lo q = match find (fun pg => p_pgno pg =? q) pList with Some pg => Some (p_data pg) | None => log_page F lo q end) /\ F1 <> [].
Proof using.
  intros (Cp & Cnd & Cne & CnT & Ccom) HiF Hlo HloF ->.
  pose proof (put_pages_data (map f_pgno F) lo iFirst isCommit nT pList F None [] Hlo ltac:(rewrite length_map; unfold zlen in HloF; lia) HiF
    ltac:(by rewrite app_nil_r) ltac:(apply Forall_true; intros ? []) Cnd) as Hdata.
  pose proof (put_pages_last (map f_pgno F) lo iFirst nT pList F None Cne) as Hlast.
  pose proof (put_pages_ne (map f_pgno F) lo iFirst isCommit nT pList F None Cne HiF ltac:(apply length_map)) as Hne.
  destruct isCommit.
  - destruct (put_pages (map f_pgno F) lo iFirst true nT pList F None) as [[F1 pl] flags]. destruct Hlast as (F0 & pg & -> & -> & HF0).
    exists (mkFrame (p_pgno pg) nT (p_data pg)). split; [done|]. split; [|split; [|done]].
    + intros Hf. apply Forall_app in Hf as [_ Hf]. by apply Forall_inv in Hf.
    + intros _. split; [by destruct pg|by exists F0].
  - destruct (put_pages (map f_pgno F) lo iFirst false nT pList F None) as [[F1 pl] flags]. destruct pList as [|pg pD]; [done|].
    exists (mkFrame (p_pgno pg) nT (p_data pg)). split; [done|]. split; [|done]. intros _. apply Forall_cons in Cp as [(Cp1 & Cp2 & Cp3) _]. by split.
Qed.

Lemma walFrames_pages_ok sn e salt pgsz nc sector can w file F v c pList nT isCommit sync iFirst :
  db_log sn e salt pgsz nc w file F v c -> iFirst = 0 \/ iFirst = c + 1 -> call_ok pgsz pList nT isCommit -> 0 < sector -> exists w' file' F' v',
  walFrames_pages map_page big true sector can pgsz pList nT isCommit sync iFirst (zlen F) (w, file) = (Ret tt, (w', file')) /\
    wrote sn e salt pgsz nc pList nT isCommit (minFrame w) F c w w' file' F' v' /\ zlen F' <= zlen F + zlen pList + sector.
Proof using All.
  intros [D1 D2 D3 D4 D5 D6 D7] Hfirst Hcall Hsec. pose proof Hcall as (Cp & Cnd & Cne & CnT & Ccom).
  pose proof (implements_len _ _ _ D2) as (Hmx & Hlv & Hc). set (P := map f_pgno F).
  assert (length P = length F) as HlP by apply length_map.
  assert (forall w1, ck_only w w1 -> forall pgno, walFindFrame map_page w1 pgno = (SQLITE_OK, last_frame P pgno (minFrame w) (length P))) as Hfind.
  { intros w1 Hck pgno. pose proof (ck_only_ix _ _ Hck) as (_ & _ & _ & E1 & E2 & _). rewrite <- E1.
    apply (walFindFrame_log map_page w1 _ pgno Hmap (ck_only_implements _ _ _ Hck D2)); [lia|congruence]. }
  pose proof (write_pages_ok sn e salt pgsz nc P w iFirst isCommit nT (mkWriter 0 sync pgsz) c Hfind ltac:(lia) ltac:(lia) CnT eq_refl
    pList w file F v None D1 (ck_only_refl w) ltac:(rewrite HlP; unfold P; apply take_ge; by rewrite length_map) Cp D5 ltac:(lia)) as Hwp.
  pose proof (put_pages_pgnos P (minFrame w) iFirst isCommit nT pList F None) as Hpg.
  pose proof (put_pages_take P (minFrame w) iFirst isCommit nT pList F None (Z.to_nat c) ltac:(unfold zlen in Hc; lia) ltac:(lia)) as Htk.
  pose proof (pages_written_ok P (minFrame w) iFirst isCommit nT pList F None pgsz Cp) as Hfl.
  pose proof (call_frames pgsz P (minFrame w) iFirst isCommit nT pList F Hcall ltac:(lia) ltac:(lia) ltac:(lia) eq_refl) as Hcf.
  pose proof (put_pages_unmarked P (minFrame w) iFirst nT pList F None (Z.to_nat c) D6) as Hun.
  assert (isCommit = false -> let '(F1, _, _) := put_pages P (minFrame w) iFirst isCommit nT pList F None in unmarked (Z.to_nat c) F1) as Hun' by (by intros ->).
  clear Hun. destruct (put_pages P (minFrame w) iFirst isCommit nT pList F None) as [[F1 pl] flags].
  destruct Hwp as (w2 & f2 & v2 & Hrun2 & Hl2 & Hck2 & Hcv2). destruct Hcf as (f & Hfc & Hfok & Hpl & Hdata & Hne1). destruct Htk as [Htk Htl].
  specialize (Hfok (l_frames _ _ _ _ _ _ _ _ _ (proj1 Hl2))).
  destruct (finish_file sn e salt pgsz nc sector can (mkWriter 0 sync pgsz) w2 f2 F1 v2 c isCommit sync f pl Hl2 Hcv2 eq_refl Hsec Hfok) as
    (k & w3 & f3 & w4 & f4 & w5 & f5 & v5 & Hrun3 & Hrun4 & Hrun5 & Hl5 & Hcv5 & Hix & Hv5 & Hk0 & Hks); [intros E; by apply Hpl|].
  pose proof (same_ix_trans _ _ _ (ck_only_ix _ _ Hck2) Hix) as Hix5. pose proof (same_ix_implements _ _ _ Hix5 D2) as Hi5.
  set (wr := written flags (match pl with Some pg => p_pgno pg | None => 0 end) k).
  assert (map f_pgno F ++ wr = map f_pgno (F1 ++ repeat f k)) as Hmap'.
  { unfold wr, written. rewrite map_app, Hpg, <- app_assoc. do 2 f_equal. destruct isCommit; [|by rewrite (Hk0 eq_refl)].
    destruct (Hpl eq_refl) as [-> _]. cbn [p_pgno]. symmetry. apply map_repeat. }
  assert (Forall (fun pg => 0 < pg < 2 ^ 32) wr) as Hwr.
  { unfold wr, written. apply Forall_app. split; [done|]. destruct isCommit; [|rewrite (Hk0 eq_refl); constructor]. destruct (Hpl eq_refl) as [-> _].
    cbn [p_pgno]. destruct Hfok as [Hfp _]. clear - Hfp. induction k; cbn [repeat]; by constructor. }
  assert (zlen F + zlen wr = zlen (F1 ++ repeat f k)) as Hz.
  { pose proof (f_equal (@length Z) Hmap') as E. rewrite length_app, !length_map in E. unfold zlen. lia. }
  destruct (index_written w5 F c wr flags _ k isCommit nT pgsz Hi5 eq_refl Hwr) as (w6 & Hrun6 & Hr6 & Hi6).
  rewrite Hz, Hmap' in Hi6. rewrite Hz in Hrun6. set (w7 := frames_written w6 (zlen (F1 ++ repeat f k)) isCommit nT pgsz) in *.
  exists w7, f5, (F1 ++ repeat f k), v5. split.
  - unfold walFrames_pages. erewrite mbnd_step by reflexivity. cbn [fst]. rewrite (l_sz _ _ _ _ _ _ _ _ _ (proj1 D1)), Z.eqb_refl. cbn [negb]. cbv zeta.
    rewrite (mbnd_step _ _ _ _ _ Hrun2). erewrite mbnd_step by reflexivity. cbn [fst]. rewrite (mbnd_step _ _ _ _ _ Hrun3).
    rewrite <- Hfc at 1. rewrite (mbnd_step _ _ _ _ _ Hrun4), (mbnd_step _ _ _ _ _ Hrun5). do 2 (erewrite mbnd_step by reflexivity). cbn [fst].
    rewrite Hrun6. done.
  - assert (minFrame w7 = minFrame w /\ readLock w7 = readLock w) as [E1 E2].
    { destruct Hix5 as (_ & _ & _ & M1 & M2 & _). rewrite <- M1, <- M2. unfold w7, frames_written. rewrite Hr6. by destruct isCommit. }
    assert (in_log sn e salt pgsz nc w7 f5 (F1 ++ repeat f k) v5) as Hl7 by (by apply (frames_written_log _ _ _ _ _ w5)).
    split; [|rewrite zlen_app; unfold zlen in *; rewrite repeat_length; lia]. split.
    + split; [done|done|..].
      * rewrite E1. destruct isCommit; [|done]. unfold zlen in *. rewrite length_app. lia.
      * congruence.
      * destruct isCommit; [rewrite (Hv5 eq_refl)|]; lia.
      * destruct isCommit; [unfold unmarked; rewrite drop_ge; [constructor|unfold zlen; lia]|]. rewrite (Hk0 eq_refl), app_nil_r. by apply Hun'.
      * intros Hpos. destruct isCommit.
        -- destruct (Hpl eq_refl) as [_ (F0 & -> & _)]. rewrite <- app_assoc. destruct (last_mark F0 f k) as (g & Hg & ->). exists f. split; [exact Hg|].
           rewrite Hfc. by apply Ccom.
        -- destruct (D7 Hpos) as (g & Hg & Hgc). exists g. split; [|done]. rewrite (Hk0 eq_refl), app_nil_r.
           rewrite <- (lookup_take_lt F1 (Z.to_nat c)) by lia. rewrite Htk. by rewrite lookup_take_lt by lia.
    + split; [|rewrite zlen_app; pose proof (zlen_nonneg (repeat f k)); unfold zlen in *; lia].
      rewrite take_app_le by (unfold zlen in *; lia). exact Htk.
    + by destruct F1.
    + exact E1.
    + intros q. rewrite <- Hdata. destruct isCommit; [|by rewrite (Hk0 eq_refl), app_nil_r]. destruct (Hpl eq_refl) as [_ (F0 & HF0 & HlF0)].
      apply log_page_repeat; [unfold zlen in *; lia|]. rewrite HF0, log_page_snoc, Z.eqb_refl; [done|].
      unfold zlen in *. lia.
    + by destruct isCommit.
    + intros ->. split; [by apply Hv5|]. split; [done|]. split; [done|]. destruct (Hpl eq_refl) as [_ (F0 & -> & _)].
      rewrite <- app_assoc. destruct (last_mark F0 f k) as (g & Hg & ->). by exists f.
    + destruct Hix5 as (_ & _ & M & _). rewrite <- M. intros ->. unfold w7, frames_written. by rewrite Hr6.
    + destruct Hix5 as (_ & _ & _ & _ & _ & M). split; [|done]. rewrite <- M. unfold w7, frames_written. rewrite Hr6. by destruct isCommit.
Qed.
End writing.
