(* ===== verification/WalDurable.v ===== *)
(** * Transactions on the log (wal.c and pager.c of sqlite3.c)

    What the calls [walFrames] and [sqlite3WalUndo] of a writer come to over a run: the pages it
    wrote since the log started are read back from the log, a rollback returns to those of the
    last commit, and after a crash the recovery of the file finds exactly those.

    The abstract database [db] has the pages of the log as the writer sees them and as of the
    last commit. *)

From S2P Require Import Prelude Bitwise Varint UnixFile WalIndex WalLog WalWrite.
From stdpp Require Import options.

Section pages.
Context {V : Vfs} (map_page : Z -> Z).

(** A page, from the log when one is used and it has the page, else from the database file; the
    code, the page, and the copy of bytes 24 to 39 of page 1. *)
Definition readDbPage (pWal : option (Wal * list Z)) (fd : list Z) (pageSize pgno : Z) (dbFileVers : list Z) : Z * list Z * list Z :=
  let '(rc, iFrame) := match pWal with Some (w, _) => walFindFrame map_page w pgno | None => (SQLITE_OK, 0) end in
  if negb (rc =? SQLITE_OK) then (rc, [], dbFileVers)
  else
    let '(rc, pData) :=
      match pWal with
      | Some (w, wal_file) =>
          if negb (iFrame =? 0) then sqlite3WalReadFrame w wal_file iFrame pageSize
          else
            let '(rc, d) := xRead fd pageSize ((pgno - 1) * pageSize) in
            (if rc =? SQLITE_IOERR_SHORT_READ then SQLITE_OK else rc, d)
      | None =>
          let '(rc, d) := xRead fd pageSize ((pgno - 1) * pageSize) in
          (if rc =? SQLITE_IOERR_SHORT_READ then SQLITE_OK else rc, d)
      end in
    (rc, pData, if pgno =? 1 then if rc =? SQLITE_OK then take 16 (zdrop 24 pData) else repeat 0xff 16 else dbFileVers).

Definition sqlite3WalDbsize (pWal : option Wal) : Z :=
  match pWal with Some w => if 0 <=? readLock w then nPage (hdr w) else 0 | None => 0 end.
End pages.

(** ** The events of a writer *)

(** A call of [sqlite3WalFrames]; it is a commit when [k_nTruncate] is not 0, as the assertion at
    the start of [walFrames] says. *)
Record call := mkCall { k_pages : list PgHdr; k_nTruncate : Z; k_sync : Z }.

Definition is_commit (k : call) : bool := negb (k_nTruncate k =? 0).

Inductive event := Write (k : call) | Undo.

Section run.
Context {V : Vfs} (map_page : Z -> Z) (big : bool) (sectorSize : Z) (can_truncate : bool) (random : Z -> list Z) (restart : Wal -> Z * Wal) (pgsz : Z).

Definition do_event (ev : event) : WM unit :=
  match ev with
  | Write k => walFrames map_page big true sectorSize can_truncate random restart pgsz (k_pages k) (k_nTruncate k) (is_commit k) (k_sync k)
  | Undo =>
      let! w := get_wal in
      let '(rc, _, w) := sqlite3WalUndo map_page (fun _ => SQLITE_OK) w in
      put_wal w ;! check rc
  end.

Fixpoint run_events (evs : list event) : WM unit :=
  match evs with [] => mret tt | ev :: evs => do_event ev ;! run_events evs end.
End run.

(** ** The abstract database *)

(** The pages of the log for the writer, those of the last commit, and the size it gave. *)
Record db := mkDb { now : gmap Z (list Z); kept : gmap Z (list Z); db_size : Z }.

Definition db0 : db := mkDb ∅ ∅ 0.

Definition put_all (pList : list PgHdr) (m : gmap Z (list Z)) : gmap Z (list Z) :=
  foldr (fun pg m => <[p_pgno pg := p_data pg]> m) m pList.

Definition db_do (ev : event) (a : db) : db :=
  match ev with
  | Write k =>
      let m := put_all (k_pages k) (now a) in
      if is_commit k then mkDb m m (k_nTruncate k) else mkDb m (kept a) (db_size a)
  | Undo => mkDb (kept a) (kept a) (db_size a)
  end.

Definition db_run (evs : list event) (a : db) : db := fold_left (fun a ev => db_do ev a) evs a.

(** The arguments of a call are in range, and the log stays within the 32 bits of a frame number. *)
Definition event_ok (pgsz : Z) (ev : event) : Prop :=
  match ev with Write k => call_ok pgsz (k_pages k) (k_nTruncate k) (is_commit k) | Undo => True end.

(** The frames an event can add. *)
Definition cost (sectorSize : Z) (ev : event) : Z := match ev with Write k => zlen (k_pages k) + sectorSize | Undo => 0 end.
Definition costs (sectorSize : Z) (evs : list event) : Z := foldr (fun ev n => cost sectorSize ev + n) 0 evs.

Lemma put_all_lookup pList m q : put_all pList m !! q = match find (fun pg => p_pgno pg =? q) pList with Some pg => Some (p_data pg) | None => m !! q end.
Proof.
  induction pList as [|pg pD IH]; [done|]. cbn [put_all foldr find]. destruct (p_pgno pg =? q) eqn:E; breflect.
  - subst q. by rewrite lookup_insert_eq.
  - rewrite lookup_insert_ne by done. exact IH.
Qed.

(** ** Reading a page *)

(** The page as the database file has it, filled with zeros past its end. *)
Definition file_page (fd : list Z) (pgsz pgno : Z) : list Z := snd (os_read fd pgsz ((pgno - 1) * pgsz)).

Definition page_of (m : gmap Z (list Z)) (fd : list Z) (pgsz pgno : Z) : list Z := default (file_page fd pgsz pgno) (m !! pgno).

Definition file_vers (pgno : Z) (d old : list Z) : list Z := if pgno =? 1 then take 16 (zdrop 24 d) else old.

(** The page size that the header keeps in 16 bits is the page size. *)
Lemma page_size_pow pgsz : page_size_ok pgsz -> In pgsz [512; 1024; 2048; 4096; 8192; 16384; 32768; 65536].
Proof.
  intros [Hp Hl]. destruct (decide (In pgsz [512; 1024; 2048; 4096; 8192; 16384; 32768; 65536])) as [|Hno]; [done|exfalso].
  set (k := Z.log2 pgsz). pose proof (Z.log2_spec pgsz ltac:(lia)) as Hk. fold k in Hk.
  assert (9 <= k <= 16) as Hr.
  { split; [apply (Z.log2_le_mono 512); lia|]. apply (Z.log2_le_mono pgsz 65536). lia. }
  assert (pgsz <> 2 ^ k) as Hne.
  { intros E. apply Hno. assert (k = 9 \/ k = 10 \/ k = 11 \/ k = 12 \/ k = 13 \/ k = 14 \/ k = 15 \/ k = 16) as Hk8 by lia.
    clear - E Hk8. rewrite E. by destruct Hk8 as [->|[->|[->|[->|[->|[->|[->| ->]]]]]]]; cbn; tauto. }
  assert (Z.log2 (pgsz - 1) = k) as Hk1 by (apply Z.log2_unique; lia).
  assert (Z.testbit (Z.land pgsz (pgsz - 1)) k = true) as Hb.
  { rewrite Z.land_spec. unfold k at 1. rewrite Z.bit_log2 by lia. rewrite <- Hk1 at 1. by rewrite Z.bit_log2 by lia. }
  by rewrite Hl, Z.bits_0 in Hb.
Qed.

Lemma page_size_kept w pgsz : page_size_ok pgsz -> h_szPage (hdr w) = hdr_szPage pgsz -> walPagesize w = pgsz.
Proof.
  intros Hp Hw. unfold walPagesize. rewrite Hw. apply page_size_pow in Hp.
  cbn [In] in Hp. repeat destruct Hp as [<-|Hp]; [reflexivity..|done].
Qed.

Section reading.
Context {V : Vfs} {R : Reliable V} (map_page : Z -> Z) (Hmap : forall h, map_page h = SQLITE_OK).

Lemma file_page_read fd pgsz pgno : 0 < pgsz -> 1 <= pgno ->
  (let '(rc, d) := xRead fd pgsz ((pgno - 1) * pgsz) in (if rc =? SQLITE_IOERR_SHORT_READ then SQLITE_OK else rc, d)) = (SQLITE_OK, file_page fd pgsz pgno).
Proof using All. intros Hp Hq. rewrite read_all by nia. unfold file_page, os_read. by destruct (zlen _ =? pgsz). Qed.

Lemma frame_read w file pgsz i f : page_size_ok pgsz -> h_szPage (hdr w) = hdr_szPage pgsz -> 1 <= i -> raw_frame file pgsz i f -> frame_ok pgsz f ->
  sqlite3WalReadFrame w file i pgsz = (SQLITE_OK, f_data f).
Proof using All.
  intros Hp Hw Hi [_ Hd] (_ & _ & _ & Hl). unfold sqlite3WalReadFrame. rewrite (page_size_kept w pgsz) by done. rewrite Z.ltb_irrefl.
  destruct Hp as [Hp _]. pose proof (off_pos pgsz i ltac:(lia) Hi). unfold WAL_FRAME_HDRSIZE.
  rewrite read_all by lia. unfold os_read. by rewrite Hd, Hl, Z.eqb_refl.
Qed.

(** A connection whose index stands for the frames that the file has reads each page from them. *)
Lemma page_read w file F c fd pgsz pgno vers :
  implements w (mkLog (map f_pgno F) c) -> 1 <= minFrame w -> readLock w <> 0 -> page_size_ok pgsz ->
  (F <> [] -> h_szPage (hdr w) = hdr_szPage pgsz) -> (forall i f, F !! i = Some f -> raw_frame file pgsz (Z.of_nat i + 1) f) -> Forall (frame_ok pgsz) F ->
  1 <= pgno ->
  let d := default (file_page fd pgsz pgno) (log_page F (minFrame w) pgno) in
  readDbPage map_page (Some (w, file)) fd pgsz pgno vers = (SQLITE_OK, d, file_vers pgno d vers).
Proof using All.
  intros Hi Hmin Hlock Hp Hsz Hraw HF Hq d. unfold readDbPage.
  rewrite (walFindFrame_log map_page w _ pgno Hmap Hi Hmin Hlock). cbn [frames]. rewrite length_map. cbn [Z.eqb SQLITE_OK negb].
  unfold d, log_page. set (i := last_frame (map f_pgno F) pgno (minFrame w) (length F)).
  pose proof (last_frame_le (map f_pgno F) pgno (minFrame w) (length F)) as Hle. fold i in Hle.
  destruct (i =? 0) eqn:E; breflect; cbn [negb].
  - rewrite file_page_read by (destruct Hp; lia). done.
  - destruct (lookup_lt_is_Some_2 F (Z.to_nat (i - 1))) as [f Hf]; [lia|]. pose proof (Hraw _ _ Hf) as Hr.
    replace (Z.of_nat (Z.to_nat (i - 1)) + 1) with i in Hr by lia.
    assert (F <> []) as Hne by (by intros ->). pose proof (Forall_lookup_1 _ _ _ _ HF Hf) as Hfok.
    rewrite (frame_read w file pgsz i f) by (done || lia || by apply Hsz).
    rewrite Hf. done.
Qed.
End reading.

(** ** The state of a writer against the abstract database *)

Section durable.
Context {V : Vfs} {R : Reliable V} (map_page : Z -> Z) (Hmap : forall h, map_page h = SQLITE_OK) (big : bool).
Context (sector : Z) (Hsector : 0 < sector) (can : bool) (random : Z -> list Z) (Hrandom : zlen (random 8) = 8 /\ bytes_ok (random 8)).
Context (restart : Wal -> Z * Wal) (pgsz : Z) (Hpgsz : page_size_ok pgsz).

Definition salt_ok (h : WalIndexHdr) : Prop := zlen (aSalt h) = 8 /\ bytes_ok (aSalt h).

(** A connection whose log has no frames; with [sn], neither has the file. *)
Record fresh (sn : bool) (w : Wal) (file : list Z) : Prop := {
  fr_imp : implements w (mkLog [] 0);
  fr_min : minFrame w = 1;
  fr_lock : readLock w <> 0;
  fr_start : can_start w;
  fr_live : salt_ok (live w);
  fr_file : bytes_ok file;
  fr_sn : sn = true -> zlen file <= 32
}.

(** The shared header has the state of the last commit. *)
Definition live_ok (salt : list Z) (nc : Z) (a : db) (w : Wal) (F : list wframe) (c : Z) : Prop :=
  if c =? 0 then salt_ok (live w) /\ db_size a = 0
  else bigEndCksum (live w) = (if big then 1 else 0) /\ aSalt (live w) = salt /\
    aFrameCksum (live w) = run_ck big (header_ck big pgsz nc salt) (take (Z.to_nat c) F) /\
    h_szPage (live w) = hdr_szPage pgsz /\ nPage (live w) = db_size a /\ db_size a <> 0 /\
    exists f, F !! Z.to_nat (c - 1) = Some f /\ f_commit f = db_size a.

(** The frames [F] of the log have the pages of [a], the first [c] those of its last commit. *)
Record holds (sn : bool) (salt : list Z) (nc : Z) (a : db) (w : Wal) (file : list Z) (F : list wframe) (v c : Z) : Prop := {
  h_log : db_log sn big salt pgsz nc w file F v c;
  h_min : minFrame w = 1;
  h_nckpt : 0 <= nCkpt w < 2 ^ 32;
  h_live : live_ok salt nc a w F c;
  h_now : forall q, log_page F 1 q = now a !! q;
  h_kept : forall q, log_page (take (Z.to_nat c) F) 1 q = kept a !! q;
  h_sz : F <> [] -> h_szPage (hdr w) = hdr_szPage pgsz
}.

Lemma order_big w : wal_ok w -> order w = big -> bigEndCksum (hdr w) = if big then 1 else 0.
Proof using. intros Hw <-. unfold order. by destruct (ok_big w Hw) as [->| ->]. Qed.

Lemma valid_cksum sn salt nc w file F : in_log sn big salt pgsz nc w file F (zlen F) ->
  aFrameCksum (hdr w) = run_ck big (header_ck big pgsz nc salt) F.
Proof using. intros [_ [(_ & _ & H)|[? ?]]]; [done|lia]. Qed.

Lemma find_put k a : is_commit k = true -> db_do (Write k) a = mkDb (put_all (k_pages k) (now a)) (put_all (k_pages k) (now a)) (k_nTruncate k).
Proof using. intros H. cbn [db_do]. by rewrite H. Qed.

(** Once the log has a header. *)
Lemma pages_hold sn salt nc a w file F v c k iFirst :
  holds sn salt nc a w file F v c -> event_ok pgsz (Write k) -> iFirst = 0 \/ iFirst = c + 1 -> exists w' file' F' v' c',
  walFrames_pages map_page big true sector can pgsz (k_pages k) (k_nTruncate k) (is_commit k) (k_sync k) iFirst (zlen F) (w, file) = (Ret tt, (w', file')) /\
    holds sn salt nc (db_do (Write k) a) w' file' F' v' c' /\ F' <> [] /\ zlen F' <= zlen F + cost sector (Write k) /\ c <= c' /\ take (Z.to_nat c) F' = take (Z.to_nat c) F.
Proof using All.
  intros [H1 H2 H3 H4 H5 H6 H7] Hk Hfirst. cbn [event_ok] in Hk.
  destruct (walFrames_pages_ok map_page Hmap big sn big salt pgsz nc sector can w file F v c (k_pages k) (k_nTruncate k) (is_commit k) (k_sync k) iFirst
    H1 Hfirst Hk Hsector) as (w' & file' & F' & v' & Hrun & Hw & Hlen).
  exists w', file', F', v', (if is_commit k then zlen F' else c). split; [exact Hrun|]. cbn [cost]. split; [|split; [by apply Hw|split; [lia|]]].
  2: { destruct (wr_take _ _ _ _ _ _ _ _ _ _ _ _ _ _ _ _ Hw) as [Htk Hle]. split; [case_if; lia|done]. }
  destruct Hw as [W1 [W2 W2'] W3 W4 W5 W6 W7 W8 [W9 _]]. rewrite H2 in W4, W5.
  assert (forall q, log_page F' 1 q = put_all (k_pages k) (now a) !! q) as Hnow by (intros q; by rewrite W5, put_all_lookup, H5).
  pose proof (d_log _ _ _ _ _ _ _ _ _ _ W1) as Hl.
  split; [exact W1|done|by rewrite W9| | | |done].
  - destruct (is_commit k) eqn:E.
    + destruct (W7 eq_refl) as (-> & Hlv & Hnp & f & Hf & Hfc). rewrite find_put by done. unfold live_ok.
      assert (zlen F' <> 0) as Hz by (unfold zlen; by destruct F'). rewrite (proj2 (Z.eqb_neq _ _) Hz). rewrite Hlv.
      rewrite take_ge by (unfold zlen; lia). cbn [db_size]. pose proof (l_ok _ _ _ _ _ _ _ _ _ (proj1 Hl)) as Hok.
      split_and!; [apply order_big; [done|apply Hl]|apply Hl|by apply valid_cksum with (1 := Hl)|done|done| |by exists f].
      unfold is_commit in E. breflect. done.
    + unfold live_ok in *. rewrite (W8 eq_refl), W2. cbn [db_do]. rewrite E. cbn [db_size]. destruct (c =? 0) eqn:Ec; [done|]. breflect.
      destruct H4 as (L1 & L2 & L3 & L4 & L5 & L6 & f & Hf & Hfc). split_and!; try done. exists f. split; [|done].
      pose proof (implements_len _ _ _ (d_imp _ _ _ _ _ _ _ _ _ _ H1)) as (_ & _ & Hc).
      rewrite <- (lookup_take_lt F' (Z.to_nat c)) by lia. rewrite W2. by rewrite lookup_take_lt by lia.
  - intros q. rewrite Hnow. cbn [db_do]. by destruct (is_commit k).
  - intros q. cbn [db_do]. destruct (is_commit k).
    + rewrite take_ge by (unfold zlen; lia). apply Hnow.
    + rewrite W2. apply H6.
Qed.

(** A call on a log that has frames. *)
Lemma write_more sn salt nc a w file F v c k :
  holds sn salt nc a w file F v c -> F <> [] -> event_ok pgsz (Write k) -> zlen F + 1 < 2 ^ 32 -> exists w' file' F' v' c',
  do_event map_page big sector can random restart pgsz (Write k) (w, file) = (Ret tt, (w', file')) /\
    holds sn salt nc (db_do (Write k) a) w' file' F' v' c' /\ F' <> [] /\ zlen F' <= zlen F + cost sector (Write k) /\ c <= c' /\ take (Z.to_nat c) F' = take (Z.to_nat c) F.
Proof using All.
  intros Hh Hne Hk Hlen. pose proof (h_log _ _ _ _ _ _ _ _ _ Hh) as Hl. pose proof (implements_len _ _ _ (d_imp _ _ _ _ _ _ _ _ _ _ Hl)) as (Hmx & Hlv & Hc).
  set (iFirst := if hdr_eqb (hdr w) (live w) then 0 else u32 (mxFrame (live w) + 1)).
  assert (iFirst = 0 \/ iFirst = c + 1) as Hfirst.
  { unfold iFirst. case_if; [by left|right]. rewrite Hlv. apply wrapu_small. lia. }
  destruct (pages_hold sn salt nc a w file F v c k iFirst Hh Hk Hfirst) as (w' & file' & F' & v' & c' & Hrun & Hrest).
  exists w', file', F', v', c'. split; [|exact Hrest]. cbn [do_event]. unfold walFrames. erewrite mbnd_step by reflexivity. cbn [fst]. fold iFirst.
  rewrite (proj2 (Z.eqb_neq (readLock w) 0)) by apply Hl. erewrite mbnd_step by reflexivity. cbn [snd]. erewrite mbnd_step by reflexivity.
  rewrite Hmx. assert (zlen F <> 0) as Hz by (unfold zlen; by destruct F). rewrite (proj2 (Z.eqb_neq _ _) Hz). erewrite mbnd_step by reflexivity. exact Hrun.
Qed.

(** The first call. *)
Lemma write_first sn w file k : fresh sn w file -> event_ok pgsz (Write k) -> exists salt nc w' file' F' v' c',
  do_event map_page big sector can random restart pgsz (Write k) (w, file) = (Ret tt, (w', file')) /\
    holds sn salt nc (db_do (Write k) db0) w' file' F' v' c' /\ F' <> [] /\ zlen F' <= cost sector (Write k).
Proof using All.
  intros [H1 H2 H3 H4 H5 H6 H7] Hk. pose proof (implements_len w [] 0 H1) as (Hmx & Hlv & _). destruct Hrandom as [Hr1 Hr2].
  destruct (write_header_ok map_page Hmap big sn random pgsz (k_sync k) w file Hpgsz H4 Hr1 Hr2 H6 H7) as (w1 & file1 & Hrun1 & Hl1 & Hw1 & Hmx1).
  set (salt := if nCkpt w =? 0 then random 8 else aSalt (hdr w)) in *. exists salt, (nCkpt w).
  set (iFirst := if hdr_eqb (hdr w) (live w) then 0 else u32 (mxFrame (live w) + 1)).
  assert (iFirst = 0 \/ iFirst = 0 + 1) as Hfirst by (unfold iFirst; rewrite Hlv; case_if; [by left|by right]).
  assert (holds sn salt (nCkpt w) db0 w1 file1 [] 0 0) as Hh.
  { split; [|by rewrite Hw1|rewrite Hw1; apply H4| |done..].
    - split; [done| |rewrite Hw1; cbn; lia|by rewrite Hw1|done|constructor|done]. apply (implements_same w); [done|by rewrite Hw1|exact Hmx1|by rewrite Hw1].
    - unfold live_ok. cbn [Z.eqb]. by rewrite Hw1. }
  destruct (pages_hold sn salt (nCkpt w) db0 w1 file1 [] 0 0 k iFirst Hh Hk Hfirst) as (w' & file' & F' & v' & c' & Hrun & Hh' & Hne' & Hlen' & _).
  exists w', file', F', v', c'. split; [|by split]. cbn [do_event]. unfold walFrames. erewrite mbnd_step by reflexivity. cbn [fst]. fold iFirst.
  rewrite (proj2 (Z.eqb_neq (readLock w) 0)) by done. erewrite mbnd_step by reflexivity. cbn [snd]. erewrite mbnd_step by reflexivity.
  rewrite Hmx. change (zlen (A := wframe) []) with 0. cbn [Z.eqb]. rewrite (mbnd_step _ _ _ _ _ Hrun1). exact Hrun.
Qed.

(** *** Rolling back *)

Lemma undo_eq w a : implements w a -> exists w' p, do_event map_page big sector can random restart pgsz Undo (w, []) = (Ret tt, (w', [])) /\
  (forall file, do_event map_page big sector can random restart pgsz Undo (w, file) = (Ret tt, (w', file))) /\
  w' = set_recksum (set_pages (set_hdr w (live w)) p) 0 /\ implements w' (mkLog (take (Z.to_nat (committed a)) (frames a)) (committed a)).
Proof using Hmap.
  intros (L & HL & Hf & Hc & Hle & Hlen). destruct (sim_undo map_page w L a Hmap HL Hf Hc Hle Hlen) as (w' & Hrun & Hi).
  exists w', (apWiData w'). assert (forall file, do_event map_page big sector can random restart pgsz Undo (w, file) = (Ret tt, (w', file))) as Hev.
  { intros file. cbn [do_event]. erewrite mbnd_step by reflexivity. cbn [fst]. by rewrite Hrun. }
  split; [apply Hev|]. split; [exact Hev|]. split; [|exact Hi]. unfold sqlite3WalUndo in Hrun. destruct (undo_loop _ _ _ _) as [rc pages].
  apply pair_equal_spec in Hrun as [_ <-]. case_if; [|by destruct w].
  pose proof (cleanup_rest map_page (set_hdr w (live w))) as Hr. unfold same_rest in Hr. cbn [set_recksum apWiData]. congruence.
Qed.

Lemma undo_fresh sn w file : fresh sn w file -> exists w', do_event map_page big sector can random restart pgsz Undo (w, file) = (Ret tt, (w', file)) /\ fresh sn w' file.
Proof using Hmap.
  intros [H1 H2 H3 H4 H5 H6 H7]. destruct (undo_eq w _ H1) as (w' & p & _ & Hev & -> & Hi). eexists. split; [apply Hev|].
  split; try done. destruct H4 as (_ & _ & Hn & _), H5 as [S1 S2]. by split.
Qed.

Lemma log_page_nil lo q : log_page [] lo q = None.
Proof using. done. Qed.

Lemma undo_holds salt nc a w file F v c : holds false salt nc a w file F v c -> F <> [] -> exists w',
  do_event map_page big sector can random restart pgsz Undo (w, file) = (Ret tt, (w', file)) /\
    (db_do Undo a = db0 /\ fresh false w' file \/
     c <> 0 /\ holds false salt nc (db_do Undo a) w' file (take (Z.to_nat c) F) c c).
Proof using Hmap.
  intros [H1 H2 H3 H4 H5 H6 H7] Hne. pose proof H1 as [D1 D2 D3 D4 D5 D6 D7]. pose proof (implements_len _ _ _ D2) as (Hmx & Hlv & Hc).
  destruct (undo_eq w _ D2) as (w' & p & _ & Hev & Hw' & Hi). cbn [frames committed] in Hi. exists w'. split; [apply Hev|].
  destruct D1 as [[L1 L2 L3 L4 L5 L6 L7 L8 L9 L10 L11 L12 L13] _]. unfold live_ok in H4. destruct (c =? 0) eqn:E; breflect.
  - left. subst c. destruct H4 as [[S1 S2] Hsz]. split.
    + cbn [db_do]. rewrite Hsz. assert (kept a = ∅) as -> by (apply map_eq; intros q; by rewrite <- H6). done.
    + rewrite Hw'. rewrite Hw' in Hi. split; try done.
  - right. split; [done|]. destruct H4 as (E1 & E2 & E3 & E4 & E5 & E6 & f & Hf & Hfc).
    assert (zlen (take (Z.to_nat c) F) = c) as Hz by (apply zlen_take; lia).
    pose proof (proj1 L2) as Hp.
    split; [| |by rewrite Hw'| | | |by rewrite Hw'].
    + split; [|by rewrite firstn_map in Hi|rewrite Hw'; cbn; lia|by rewrite Hw'|lia| |].
      * rewrite Hw'. split; [split|]; try done.
        -- split; [cbn; rewrite E1; destruct big; [by right|by left]|cbn; rewrite E2, <- L5; apply L1| |apply L1].
           cbn. rewrite E3. apply run_ck_32, header_ck_32.
        -- unfold order. cbn. rewrite E1. by destruct big.
        -- by apply Forall_take.
        -- rewrite Hz. pose proof (off_mono pgsz (c + 1) (zlen F + 1) ltac:(lia) ltac:(lia)). lia.
        -- lia.
        -- rewrite take_take, Nat.min_id. apply (prefix_le big salt pgsz nc file F v c); [lia| |done|lia|lia|done]. rewrite <- L5. apply L1.
        -- intros i g Hg. apply lookup_take_Some in Hg as [Hg _]. by apply L12.
        -- left. split; [done|]. split; [done|exact E3].
      * unfold unmarked. rewrite drop_ge; [constructor|unfold zlen in Hz; lia].
      * intros _. exists f. rewrite lookup_take_lt by lia. split; [done|congruence].
    + by rewrite Hw'.
    + unfold live_ok. rewrite (proj2 (Z.eqb_neq _ _) E), Hw', take_take, Nat.min_id. cbn [db_do db_size].
      split_and!; try done. exists f. rewrite lookup_take_lt by lia. done.
    + intros q. by rewrite H6.
    + intros q. rewrite take_take, Nat.min_id. by rewrite H6.
Qed.

(** *** A run *)

Definition is_write (ev : event) : Prop := match ev with Write _ => True | Undo => False end.

(** What holds between events; the log has at most [B] frames. *)
Definition good (sn : bool) (a : db) (w : Wal) (file : list Z) (B : Z) : Prop :=
  fresh sn w file /\ a = db0 \/ exists salt nc F v c, holds sn salt nc a w file F v c /\ F <> [] /\ zlen F <= B.

Lemma cost_nonneg ev : 0 <= cost sector ev.
Proof using Hsector. destruct ev as [k|]; cbn [cost]; [pose proof (zlen_nonneg (k_pages k))|]; lia. Qed.

Lemma costs_nonneg evs : 0 <= costs sector evs.
Proof using Hsector. induction evs as [|ev evs IH]; cbn [costs foldr]; [lia|]. fold (costs sector evs). pose proof (cost_nonneg ev). lia. Qed.

(** An event on a log with commits keeps the frames of the commits. *)
Lemma holds_step salt nc a w file F v c ev : holds false salt nc a w file F v c -> F <> [] -> 0 < c -> event_ok pgsz ev -> zlen F + 1 < 2 ^ 32 ->
  exists w' file' F' v' c', do_event map_page big sector can random restart pgsz ev (w, file) = (Ret tt, (w', file')) /\
    holds false salt nc (db_do ev a) w' file' F' v' c' /\ F' <> [] /\ zlen F' <= zlen F + cost sector ev /\ c <= c' /\
    take (Z.to_nat c) F' = take (Z.to_nat c) F.
Proof using All.
  intros Hh Hne Hc Hev Hlen. destruct ev as [k|].
  - by apply (write_more false salt nc a w file F v c k).
  - destruct (undo_holds salt nc a w file F v c Hh Hne) as (w' & Hrun & Hres). exists w', file, (take (Z.to_nat c) F), c, c.
    pose proof (implements_len _ _ _ (d_imp _ _ _ _ _ _ _ _ _ _ (h_log _ _ _ _ _ _ _ _ _ Hh))) as (_ & _ & Hcl).
    assert (zlen (take (Z.to_nat c) F) = c) as Hz by (apply zlen_take; lia).
    split; [done|]. destruct Hres as [[E _]|[_ Hh']].
    + exfalso. pose proof (h_live _ _ _ _ _ _ _ _ _ Hh) as Hl. unfold live_ok in Hl. rewrite (proj2 (Z.eqb_neq c 0)) in Hl by lia.
      destruct Hl as (_ & _ & _ & _ & _ & Hsz & _). by injection E as _ E.
    + split; [done|]. split; [intros E; rewrite E in Hz; unfold zlen in Hz; cbn in Hz; lia|]. cbn [cost]. split; [lia|]. split; [lia|].
      by rewrite take_take, Nat.min_id.
Qed.

Lemma good_step a w file B ev : good false a w file B -> event_ok pgsz ev -> 0 <= B -> B + 1 < 2 ^ 32 ->
  exists w' file', do_event map_page big sector can random restart pgsz ev (w, file) = (Ret tt, (w', file')) /\ good false (db_do ev a) w' file' (B + cost sector ev).
Proof using All.
  intros [[Hf ->]|(salt & nc & F & v & c & Hh & Hne & HB)] Hev HB0 HB1.
  - destruct ev as [k|].
    + destruct (write_first false w file k Hf Hev) as (salt & nc & w' & file' & F' & v' & c' & Hrun & Hh & Hne & Hl).
      exists w', file'. split; [done|]. right. exists salt, nc, F', v', c'. split; [done|]. split; [done|lia].
    + destruct (undo_fresh false w file Hf) as (w' & Hrun & Hf'). exists w', file. split; [done|]. by left.
  - destruct ev as [k|].
    + destruct (write_more false salt nc a w file F v c k Hh Hne Hev ltac:(lia)) as (w' & file' & F' & v' & c' & Hrun & Hh' & Hne' & Hl & _).
      exists w', file'. split; [done|]. right. exists salt, nc, F', v', c'. split; [done|]. split; [done|lia].
    + destruct (undo_holds salt nc a w file F v c Hh Hne) as (w' & Hrun & [[E Hf]|[Hc Hh']]); exists w', file; (split; [done|]); [by left|right].
      pose proof (implements_len _ _ _ (d_imp _ _ _ _ _ _ _ _ _ _ (h_log _ _ _ _ _ _ _ _ _ Hh))) as (_ & _ & Hcl).
      assert (zlen (take (Z.to_nat c) F) = c) as Hz by (apply zlen_take; lia).
      exists salt, nc, (take (Z.to_nat c) F), c, c. split; [done|]. cbn [cost]. split; [intros E; apply Hc; by rewrite <- Hz, E|lia].
Qed.

Lemma good_run evs : forall a w file B, good false a w file B -> Forall (event_ok pgsz) evs -> 0 <= B -> B + costs sector evs + 1 < 2 ^ 32 ->
  exists w' file', run_events map_page big sector can random restart pgsz evs (w, file) = (Ret tt, (w', file')) /\
    good false (db_run evs a) w' file' (B + costs sector evs).
Proof using All.
  induction evs as [|ev evs IH]; intros a w file B Hg Hev HB0 HB1; cbn [run_events db_run fold_left costs foldr] in *.
  { exists w, file. split; [done|]. by rewrite Z.add_0_r. }
  fold (costs sector evs) in *. apply Forall_cons in Hev as [Hev Hevs]. pose proof (costs_nonneg evs). pose proof (cost_nonneg ev).
  destruct (good_step a w file B ev Hg Hev HB0 ltac:(lia)) as (w1 & file1 & Hrun1 & Hg1).
  destruct (IH _ w1 file1 _ Hg1 Hevs ltac:(lia) ltac:(lia)) as (w' & file' & Hrun & Hg').
  exists w', file'. rewrite (mbnd_step _ _ _ _ _ Hrun1). split; [exact Hrun|]. by rewrite Z.add_assoc.
Qed.

Lemma holds_run salt nc evs : forall a w file F v c, holds false salt nc a w file F v c -> F <> [] -> 0 < c -> Forall (event_ok pgsz) evs ->
  zlen F + costs sector evs + 1 < 2 ^ 32 ->
  exists w' file' F' v' c', run_events map_page big sector can random restart pgsz evs (w, file) = (Ret tt, (w', file')) /\
    holds false salt nc (db_run evs a) w' file' F' v' c' /\ c <= c' /\ take (Z.to_nat c) F' = take (Z.to_nat c) F.
Proof using All.
  induction evs as [|ev evs IH]; intros a w file F v c Hh Hne Hc Hev HB; cbn [run_events db_run fold_left costs foldr] in *.
  { exists w, file, F, v, c. split; [done|]. split; [done|]. split; [lia|done]. }
  fold (costs sector evs) in *. apply Forall_cons in Hev as [Hev Hevs]. pose proof (costs_nonneg evs). pose proof (cost_nonneg ev).
  destruct (holds_step salt nc a w file F v c ev Hh Hne Hc Hev ltac:(lia)) as (w1 & file1 & F1 & v1 & c1 & Hrun1 & Hh1 & Hne1 & Hl1 & Hc1 & Htk1).
  destruct (IH _ w1 file1 F1 v1 c1 Hh1 Hne1 ltac:(lia) Hevs ltac:(lia)) as (w' & file' & F' & v' & c' & Hrun & Hh' & Hc' & Htk').
  exists w', file', F', v', c'. rewrite (mbnd_step _ _ _ _ _ Hrun1). split; [exact Hrun|]. split; [exact Hh'|]. split; [lia|].
  rewrite <- Htk1. rewrite <- (take_take_min c c1 F'), <- (take_take_min c c1 F1) by lia. by rewrite Htk'.
Qed.

Lemma writes_run sn salt nc evs : forall a w file F v c, holds sn salt nc a w file F v c -> F <> [] -> Forall (event_ok pgsz) evs -> Forall is_write evs ->
  zlen F + costs sector evs + 1 < 2 ^ 32 ->
  exists w' file' F' v' c', run_events map_page big sector can random restart pgsz evs (w, file) = (Ret tt, (w', file')) /\
    holds sn salt nc (db_run evs a) w' file' F' v' c' /\ F' <> [] /\ zlen F' <= zlen F + costs sector evs.
Proof using All.
  induction evs as [|ev evs IH]; intros a w file F v c Hh Hne Hev Hwr HB; cbn [run_events db_run fold_left costs foldr] in *.
  { exists w, file, F, v, c. split; [done|]. split; [done|]. split; [done|lia]. }
  fold (costs sector evs) in *. apply Forall_cons in Hev as [Hev Hevs]. apply Forall_cons in Hwr as [Hw Hws]. pose proof (costs_nonneg evs). pose proof (cost_nonneg ev).
  destruct ev as [k|]; [|done].
  destruct (write_more sn salt nc a w file F v c k Hh Hne Hev ltac:(lia)) as (w1 & file1 & F1 & v1 & c1 & Hrun1 & Hh1 & Hne1 & Hl1 & _).
  destruct (IH _ w1 file1 F1 v1 c1 Hh1 Hne1 Hevs Hws ltac:(lia)) as (w' & file' & F' & v' & c' & Hrun & Hh' & Hne' & Hl').
  exists w', file', F', v', c'. rewrite (mbnd_step _ _ _ _ _ Hrun1). split; [exact Hrun|]. split; [exact Hh'|]. split; [done|lia].
Qed.

(** *** After a crash *)

(** No whole frame of a commit follows. *)
Definition commit_free (e : bool) (salt : list Z) (ck : Z * Z) (rest : list Z) : Prop :=
  forall fs tail, rest = log_bytes e salt ck fs ++ tail -> Forall (frame_ok pgsz) fs -> Forall (fun f => f_commit f = 0) fs.

(** The bytes of the first frames. *)
Lemma prefix_of sn salt nc a w file F v c c0 : holds sn salt nc a w file F v c -> 0 <= c0 <= c ->
  take (Z.to_nat (walFrameOffset (c0 + 1) pgsz)) file =
    wal_header_bytes big pgsz nc salt ++ log_bytes big salt (header_ck big pgsz nc salt) (take (Z.to_nat c0) F).
Proof using All.
  intros Hh Hc. pose proof (h_log _ _ _ _ _ _ _ _ _ Hh) as [[Hl _] D2 _ _ D5 _ _]. destruct Hl as [L1 L2 L3 L4 L5 L6 L7 L8 L9 L10 L11 L12 L13].
  apply (prefix_le big salt pgsz nc file F v c0); [destruct L2; lia| |done|lia|lia|done]. rewrite <- L5. apply L1.
Qed.

(** The frames of the format, as bytes of the file. *)
Lemma log_raw e salt fs : forall ck A tail k i f, zlen salt = 8 -> Forall (frame_ok pgsz) fs -> 0 <= k -> zlen A = walFrameOffset (k + 1) pgsz ->
  fs !! i = Some f -> raw_frame (A ++ log_bytes e salt ck fs ++ tail) pgsz (k + Z.of_nat i + 1) f.
Proof using Hpgsz.
  induction fs as [|g fs IH]; intros ck A tail k i f Hs Hfs Hk HA Hi; [done|]. apply Forall_cons in Hfs as [Hg Hfs]. cbn [log_bytes].
  pose proof (zlen_frame_header e salt ck g Hs) as Hh. pose proof Hg as (_ & _ & _ & Hd). destruct i as [|i].
  - injection Hi as <-. replace (k + Z.of_nat 0 + 1) with (k + 1) by lia. rewrite <- app_assoc. split.
    + unfold fread. rewrite zdrop_app by done. unfold frame_header. rewrite <- !app_assoc, (app_assoc (sqlite3Put4byte _)).
      by apply take_app_length'.
    + unfold fread. rewrite <- zdrop_zdrop by (destruct Hpgsz; pose proof (off_pos pgsz (k + 1)); lia). rewrite zdrop_app by done.
      rewrite zdrop_app by done. rewrite <- app_assoc. apply take_app_length'. unfold zlen in Hd. lia.
  - replace (k + Z.of_nat (S i) + 1) with (k + 1 + Z.of_nat i + 1) by lia.
    specialize (IH (next_ck e ck g) (A ++ frame_header e salt ck g ++ f_data g) tail (k + 1) i f Hs Hfs ltac:(lia)). rewrite <- !app_assoc in *.
    apply IH; [|done]. rewrite off_next, !zlen_app. lia.
Qed.

(** In a file that ends with the frames of the writer, those after the last commit have no commit. *)
Lemma snug_free salt nc a w file F v c : holds true salt nc a w file F v c ->
  commit_free big salt (run_ck big (header_ck big pgsz nc salt) (take (Z.to_nat c) F)) (zdrop (walFrameOffset (c + 1) pgsz) file).
Proof using All.
  intros Hh fs tail Hrest Hfs. pose proof (prefix_of _ _ _ _ _ _ _ _ _ c Hh) as Hpre. pose proof (h_log _ _ _ _ _ _ _ _ _ Hh) as [[Hl _] D2 _ _ D5 D6 _].
  pose proof (implements_len _ _ _ D2) as (_ & _ & Hc). specialize (Hpre ltac:(lia)). destruct Hl as [L1 L2 L3 L4 L5 L6 L7 L8 L9 L10 L11 L12 L13].
  assert (zlen salt = 8) as Hs by (rewrite <- L5; apply L1). pose proof (proj1 L2) as Hp.
  assert (zlen (take (Z.to_nat (walFrameOffset (c + 1) pgsz)) file) = walFrameOffset (c + 1) pgsz) as HlA.
  { pose proof (off_pos pgsz (c + 1) ltac:(lia) ltac:(lia)). pose proof (off_mono pgsz (c + 1) (zlen F + 1) ltac:(lia) ltac:(lia)). apply zlen_take. lia. }
  assert (file = take (Z.to_nat (walFrameOffset (c + 1) pgsz)) file ++ log_bytes big salt (run_ck big (header_ck big pgsz nc salt) (take (Z.to_nat c) F)) fs ++ tail) as Hfile.
  { rewrite <- Hrest. symmetry. apply take_drop. }
  assert (zlen fs <= zlen F - c) as Hlen.
  { pose proof (L13 eq_refl) as Hsn. rewrite Hfile, !zlen_app, HlA, (zlen_log_bytes _ _ pgsz) in Hsn by done. pose proof (zlen_nonneg tail).
    unfold walFrameOffset, WAL_HDRSIZE, WAL_FRAME_HDRSIZE in Hsn. nia. }
  apply Forall_lookup. intros i f Hi. pose proof (lookup_lt_Some _ _ _ Hi) as Hlt.
  pose proof (log_raw big salt fs (run_ck big (header_ck big pgsz nc salt) (take (Z.to_nat c) F)) _ tail c i f Hs Hfs ltac:(lia) HlA Hi) as [R1 _].
  rewrite <- Hfile in R1. destruct (lookup_lt_is_Some_2 F (Z.to_nat c + i)%nat) as [g Hg]; [unfold zlen in *; lia|].
  pose proof (L12 _ _ Hg) as [R2 _]. replace (Z.of_nat (Z.to_nat c + i) + 1) with (c + Z.of_nat i + 1) in R2 by lia. rewrite R1 in R2.
  apply app_inj_1 in R2 as [_ R2]; [|by rewrite !length_put4].
  pose proof (Forall_lookup_1 _ _ _ _ Hfs Hi) as (_ & Hfc & _). pose proof (Forall_lookup_1 _ _ _ _ L7 Hg) as (_ & Hgc & _).
  rewrite (put4_inj _ _ Hfc Hgc R2). unfold unmarked in D6. rewrite Forall_lookup in D6. apply (D6 i). by rewrite lookup_drop.
Qed.

(** The last commit of frames of which [c] are committed. *)
Lemma last_commit_at salt nc a w F c fs : live_ok salt nc a w F c -> 0 <= c <= zlen F -> Forall (fun f => f_commit f = 0) fs ->
  last_commit big (header_ck big pgsz nc salt) 1 (take (Z.to_nat c) F ++ fs) no_commit =
    mkCommit c (db_size a) (if c =? 0 then (0, 0) else run_ck big (header_ck big pgsz nc salt) (take (Z.to_nat c) F)).
Proof using Hsector.
  intros Hlive Hc Hfs. rewrite last_commit_app, last_commit_none by done. unfold live_ok in Hlive. destruct (c =? 0) eqn:E; breflect.
  { subst c. destruct Hlive as [_ ->]. done. }
  destruct Hlive as (_ & _ & _ & _ & _ & Hnz & f & Hf & Hfc).
  assert (take (Z.to_nat c) F = take (Z.to_nat (c - 1)) F ++ [f]) as ->.
  { replace (Z.to_nat c) with (S (Z.to_nat (c - 1))) by lia. by apply take_S_r. }
  rewrite last_commit_app. cbn [last_commit]. rewrite Hfc, (proj2 (Z.eqb_neq _ _) Hnz), run_ck_app. cbn [run_ck]. f_equal.
  rewrite zlen_take by lia. lia.
Qed.

(** Recovery of a file that starts with the committed frames and has no later commit. *)
Lemma recover_commit sn salt nc a w file F v c rest lock big' junk ckptLock w1 fd :
  holds sn salt nc a w file F v c -> (forall i n, lock i n = SQLITE_OK) -> bytes_ok rest ->
  commit_free big salt (run_ck big (header_ck big pgsz nc salt) (take (Z.to_nat c) F)) rest ->
  let g := take (Z.to_nat (walFrameOffset (c + 1) pgsz)) file ++ rest in zlen g < 2 ^ 40 ->
  exists w2, walIndexRecover map_page lock true SQLITE_OK big' junk ckptLock w1 g = (SQLITE_OK, w2) /\ nPage (hdr w2) = db_size a /\
    forall pgno vers, 1 <= pgno -> let d := page_of (kept a) fd pgsz pgno in
      readDbPage map_page (Some (reader w2 1 (mxFrame (live w2)), g)) fd pgsz pgno vers = (SQLITE_OK, d, file_vers pgno d vers).
Proof using All.
  intros Hh Hlock Hrest Hfree g Hg. pose proof (prefix_of _ _ _ _ _ _ _ _ _ c Hh) as Hpre. pose proof Hh as [[[Hl Hre] D2 D3 D4 D5 D6 D7] _ _ Hlive _ Hkept _].
  pose proof (implements_len _ _ _ D2) as (_ & _ & Hc). specialize (Hpre ltac:(lia)). destruct Hl as [L1 L2 L3 L4 L5 L6 L7 L8 L9 L10 L11 L12 L13].
  assert (zlen salt = 8 /\ bytes_ok salt) as [Hs Hsb] by (rewrite <- L5; apply L1). pose proof (proj1 L2) as Hp.
  set (C := take (Z.to_nat c) F) in *. set (ck := header_ck big pgsz nc salt) in *.
  assert (Forall (frame_ok pgsz) C) as HC by (by apply Forall_take).
  destruct (log_decomposes pgsz big salt Hp Hs Hsb rest (run_ck big ck C) Hrest (run_ck_32 _ _ _ (header_ck_32 _ _ _ _))) as (fs & tail & Hfs & Hfok & Ht & Hno).
  pose proof (Hfree fs tail Hfs Hfok) as Hun. assert (g = wal_header_bytes big pgsz nc salt ++ log_bytes big salt ck (C ++ fs) ++ tail) as Hgeq.
  { unfold g. rewrite Hpre, log_bytes_app, Hfs, <- !app_assoc. done. }
  rewrite Hgeq in Hg. rewrite <- run_ck_app in Hno.
  destruct (recovery_spec map_page lock big' junk Hmap Hlock big pgsz nc salt (C ++ fs) tail ckptLock w1 L2 L3 Hs Hsb) as (w2 & Hrun & Hrec);
    [by apply Forall_app|done|done|done|]. fold ck in Hrun. rewrite <- Hgeq in Hrun. exists w2. split; [exact Hrun|].
  pose proof (last_commit_at salt nc a w F c fs Hlive Hc Hun) as Hlc. fold ck C in Hlc, Hrec. rewrite Hlc in Hrec. destruct Hrec as (Hi & Hlv & Hsz & Hmx & Hnp & _).
  cbn [c_frame c_size] in *. split; [done|]. intros pgno vers Hq.
  assert (zlen C = c) as HzC by (apply zlen_take; lia). rewrite take_app_length' in Hi by (unfold zlen in HzC; lia).
  assert (implements (reader w2 1 (mxFrame (live w2))) (mkLog (map f_pgno C) c)) as Hir.
  { apply (implements_same w2); [done|done|by cbn; rewrite Hlv|done]. }
  pose proof (page_read map_page Hmap (reader w2 1 (mxFrame (live w2))) g C c fd pgsz pgno vers Hir) as Hpage. cbn [minFrame reader] in Hpage.
  unfold page_of. rewrite <- Hkept. apply Hpage; [lia|done|done| | |done|done].
  - intros HC0. change (h_szPage (hdr w2) = hdr_szPage pgsz). rewrite Hsz. case_if; [|done]. breflect. subst c. done.
  - intros i f Hi'. assert (g = wal_header_bytes big pgsz nc salt ++ log_bytes big salt ck C ++ rest) as ->.
    { unfold g. by rewrite Hpre, <- app_assoc. }
    apply (log_raw big salt C ck (wal_header_bytes big pgsz nc salt) rest 0 i f Hs HC); [lia| |done]. by rewrite zlen_header.
Qed.

(** ** The theorems *)

(** C24: A writer reads its own writes: after any calls and rollbacks on a log that starts, with
    transactions over several calls, frames overwritten within a transaction and padding, each
    page is read back as it was written last (or, after a rollback, as of the last commit), and a
    page that is not in the log as the database file has it. *)
Theorem log_reads_back evs w file fd pgno vers :
  fresh false w file -> Forall (event_ok pgsz) evs -> costs sector evs + 1 < 2 ^ 32 -> 1 <= pgno ->
  exists w' file', run_events map_page big sector can random restart pgsz evs (w, file) = (Ret tt, (w', file')) /\
    let d := page_of (now (db_run evs db0)) fd pgsz pgno in
    readDbPage map_page (Some (w', file')) fd pgsz pgno vers = (SQLITE_OK, d, file_vers pgno d vers).
Proof using All.
  intros Hf Hev HB Hq. destruct (good_run evs db0 w file 0 ltac:(by left) Hev ltac:(lia) HB) as (w' & file' & Hrun & Hg).
  exists w', file'. split; [exact Hrun|]. unfold page_of. destruct Hg as [[[F1 F2 F3 _ _ _ _] ->]|(salt & nc & F & v & c & Hh & Hne & _)].
  - pose proof (page_read map_page Hmap w' file' [] 0 fd pgsz pgno vers F1) as H. apply H; [lia|done..].
  - destruct Hh as [[[Hl _] D2 D3 D4 _ _ _] Hmin _ _ Hnow _ Hsz]. cbv zeta. rewrite <- Hnow.
    pose proof (page_read map_page Hmap w' file' F c fd pgsz pgno vers D2) as H. rewrite Hmin in H. by apply H; [|..|apply Hl|apply Hl|].
Qed.

(** C22: A crash between calls loses nothing that was committed and keeps nothing that was not:
    after any calls on an empty log file, recovery of the file, by any connection and on a machine
    of either byte order, succeeds and finds the size and the pages of the last commit.  It does
    not rest on checksums telling frames apart. *)
Theorem recovery_after_writes evs w file lock big' junk ckptLock w1 fd :
  fresh true w file -> evs <> [] -> Forall (event_ok pgsz) evs -> Forall is_write evs -> 32 + costs sector evs * (pgsz + 24) < 2 ^ 40 ->
  costs sector evs + 1 < 2 ^ 32 -> (forall i n, lock i n = SQLITE_OK) ->
  exists w' file' w2, run_events map_page big sector can random restart pgsz evs (w, file) = (Ret tt, (w', file')) /\
    walIndexRecover map_page lock true SQLITE_OK big' junk ckptLock w1 file' = (SQLITE_OK, w2) /\ nPage (hdr w2) = db_size (db_run evs db0) /\
    forall pgno vers, 1 <= pgno -> let d := page_of (kept (db_run evs db0)) fd pgsz pgno in
      readDbPage map_page (Some (reader w2 1 (mxFrame (live w2)), file')) fd pgsz pgno vers = (SQLITE_OK, d, file_vers pgno d vers).
Proof using All.
  intros Hf Hne Hev Hwr Hsize HB Hlock. destruct evs as [|[k|] evs]; [done| |by apply Forall_inv in Hwr].
  apply Forall_cons in Hev as [Hk Hev]. apply Forall_cons in Hwr as [_ Hwr]. cbn [costs foldr] in HB, Hsize. fold (costs sector evs) in HB, Hsize.
  pose proof (costs_nonneg evs). pose proof (cost_nonneg (Write k)).
  destruct (write_first true w file k Hf Hk) as (salt & nc & w0 & file0 & F0 & v0 & c0 & Hrun0 & Hh0 & Hne0 & Hl0).
  destruct (writes_run true salt nc evs _ w0 file0 F0 v0 c0 Hh0 Hne0 Hev Hwr ltac:(lia)) as (w' & file' & F & v & c & Hrun & Hh & HneF & HlF).
  change (fold_left (fun a ev => db_do ev a) evs (db_do (Write k) db0)) with (db_run (Write k :: evs) db0) in Hh.
  pose proof (h_log _ _ _ _ _ _ _ _ _ Hh) as [[Hl _] _ _ _ _ _ _].
  destruct (recover_commit true salt nc _ w' file' F v c (zdrop (walFrameOffset (c + 1) pgsz) file') lock big' junk ckptLock w1 fd Hh Hlock) as (w2 & Hrec & Hrest).
  - apply Forall_drop, Hl.
  - by apply snug_free with (1 := Hh).
  - unfold zdrop. rewrite take_drop. pose proof (l_snug _ _ _ _ _ _ _ _ _ Hl eq_refl) as Hsn.
    unfold walFrameOffset, WAL_HDRSIZE, WAL_FRAME_HDRSIZE in Hsn. destruct Hpgsz as [Hp _]. nia.
  - unfold zdrop in Hrec, Hrest. rewrite take_drop in Hrec, Hrest. exists w', file', w2. cbn [run_events]. rewrite (mbnd_step _ _ _ _ _ Hrun0).
    split; [exact Hrun|]. split; [exact Hrec|]. exact Hrest.
Qed.

(** C23: What was committed stays: the first [n] bytes of the file are those of the commits so
    far.  No later call or rollback changes them, and a file that starts with them, whatever a
    crash made of the rest as long as no whole frame of a later commit is in it, is recovered to
    the size and the pages of the last of these commits. *)
Theorem commits_survive evs w file : let a := db_run evs db0 in
  fresh false w file -> Forall (event_ok pgsz) evs -> costs sector evs + 1 < 2 ^ 32 -> db_size a <> 0 ->
  exists w' file' salt ck n, run_events map_page big sector can random restart pgsz evs (w, file) = (Ret tt, (w', file')) /\ 0 <= n <= zlen file' /\
    (forall more, Forall (event_ok pgsz) more -> costs sector evs + costs sector more + 1 < 2 ^ 32 ->
      exists w2 file2, run_events map_page big sector can random restart pgsz more (w', file') = (Ret tt, (w2, file2)) /\ take (Z.to_nat n) file2 = take (Z.to_nat n) file') /\
    (forall rest lock big' junk ckptLock w1 fd, bytes_ok rest -> commit_free big salt ck rest -> n + zlen rest < 2 ^ 40 -> (forall i n, lock i n = SQLITE_OK) ->
      let g := take (Z.to_nat n) file' ++ rest in
      exists w2, walIndexRecover map_page lock true SQLITE_OK big' junk ckptLock w1 g = (SQLITE_OK, w2) /\ nPage (hdr w2) = db_size a /\
        forall pgno vers, 1 <= pgno -> let d := page_of (kept a) fd pgsz pgno in
          readDbPage map_page (Some (reader w2 1 (mxFrame (live w2)), g)) fd pgsz pgno vers = (SQLITE_OK, d, file_vers pgno d vers)).
Proof using All.
  intros a Hf Hev HB Hcom. destruct (good_run evs db0 w file 0 ltac:(by left) Hev ltac:(lia) HB) as (w' & file' & Hrun & Hg). fold a in Hg.
  destruct Hg as [[_ Ha]|(salt & nc & F & v & c & Hh & Hne & HlF)]; [by rewrite Ha in Hcom|].
  pose proof (h_log _ _ _ _ _ _ _ _ _ Hh) as [[Hl _] D2 _ _ _ _ _]. pose proof (implements_len _ _ _ D2) as (_ & _ & Hc). pose proof (proj1 Hpgsz) as Hp.
  assert (0 < c) as Hc0. { pose proof (h_live _ _ _ _ _ _ _ _ _ Hh) as H. unfold live_ok in H. destruct (c =? 0) eqn:E; breflect; [by destruct H|lia]. }
  set (n := walFrameOffset (c + 1) pgsz). exists w', file', salt, (run_ck big (header_ck big pgsz nc salt) (take (Z.to_nat c) F)), n.
  pose proof (off_pos pgsz (c + 1) ltac:(lia) ltac:(lia)). pose proof (off_mono pgsz (c + 1) (zlen F + 1) ltac:(lia) ltac:(lia)). pose proof (l_len _ _ _ _ _ _ _ _ _ Hl).
  split; [exact Hrun|]. split; [unfold n; lia|]. split.
  - intros more Hmore HB2. destruct (holds_run salt nc more a w' file' F v c Hh Hne Hc0 Hmore ltac:(lia)) as (w2 & file2 & F2 & v2 & c2 & Hrun2 & Hh2 & Hc2 & Htk).
    exists w2, file2. split; [exact Hrun2|]. unfold n.
    rewrite (prefix_of _ _ _ _ _ _ _ _ _ c Hh2), (prefix_of _ _ _ _ _ _ _ _ _ c Hh) by lia. by rewrite Htk.
  - intros rest lock big' junk ckptLock w1 fd Hrest Hfree Hsize Hlock g. unfold g, n.
    apply (recover_commit false salt nc a w' file' F v c rest lock big' junk ckptLock w1 fd Hh Hlock Hrest Hfree).
    rewrite zlen_app, zlen_take by (unfold n in *; lia). exact Hsize.
Qed.
End durable.

(** ** Witnesses *)

(** On the slow system: a transaction over two calls, one that is rolled back, one more. *)
#[local] Instance slow_vfs : Vfs := unix_vfs slow_read slow_write (fun _ => SQLITE_OK) 2.

Definition random_1 (n : Z) : list Z := repeat 7 (Z.to_nat n).
Definition no_restart (w : Wal) : Z * Wal := (SQLITE_OK, w).
Definition hdr_1 : WalIndexHdr := mkHdr 0 0 0 0 0 (0, 0) (repeat 1 8).
Definition wal_1 : Wal := set_live (set_hdr wal0 hdr_1) hdr_1.
Definition page_1 (pgno x : Z) : PgHdr := mkPg pgno (repeat x 512).
Definition writes_1 : list event := [Write (mkCall [page_1 3 10; page_1 5 11] 0 2); Write (mkCall [page_1 5 12; page_1 8 13] 9 2); Write (mkCall [page_1 3 14] 0 2)].
Definition events_1 : list event := writes_1 ++ [Undo; Write (mkCall [page_1 8 15] 0 2)].

(** The bytes of pages of a connection, first byte and length. *)
Definition look (w : Wal) (f : list Z) (q : Z) : Z * Z * Z :=
  let '(rc, d, _) := readDbPage maps (Some (w, f)) (repeat 99 600) 512 q [] in (rc, nth 0 d 0, zlen d).

Example run_1 :
  let '(r, (w, f)) := run_events maps true 4096 true random_1 no_restart 512 events_1 (wal_1, []) in
  r = Ret tt /\ zlen f = 4856 /\ sqlite3WalDbsize (Some w) = 9 /\
    map (look w f) [1; 2; 3; 5; 8] = [(0, 99, 512); (0, 99, 512); (0, 10, 512); (0, 12, 512); (0, 15, 512)] /\
    let '(rc, w2) := walIndexRecover maps (fun _ _ => SQLITE_OK) true SQLITE_OK false (fun _ => no_page) 0 wal0 f in
    rc = SQLITE_OK /\ map (look (reader w2 1 (mxFrame (live w2))) f) [2; 3; 5; 8] = [(0, 99, 512); (0, 10, 512); (0, 12, 512); (0, 13, 512)].
Proof. vm_compute. repeat split. Qed.

Lemma slow_reliable : Reliable slow_vfs.
Proof.
  apply unix_reliable; [apply slow_posix|intros k f off cnt x|intros k f off cnt x|done].
  - unfold slow_read. case_if; by intros [= <-].
  - unfold slow_write. case_if; by intros [= <-].
Qed.

Lemma page_size_512 : page_size_ok 512.
Proof. split; [lia|reflexivity]. Qed.

Lemma random_1_ok : zlen (random_1 8) = 8 /\ bytes_ok (random_1 8).
Proof. split; [done|apply page_bytes; lia]. Qed.

Lemma fresh_1 sn : fresh sn wal_1 [].
Proof.
  assert (bytes_ok (repeat 1 8)) as Hb by (apply page_bytes; lia).
  split; [|done|done|by split_and!|by split|constructor|done]. apply implements_intro with [] 0; [apply indexes_nil|done|done|done|done|done].
Qed.

Lemma page_1_ok pgno x : 0 < pgno < 2 ^ 32 -> 0 <= x < 256 -> page_ok 512 (page_1 pgno x).
Proof. intros Hp Hx. split; [done|]. split; [by apply page_bytes|apply zlen_repeat]. Qed.

Lemma writes_1_ok : Forall (event_ok 512) writes_1.
Proof.
  repeat apply Forall_cons_2; try apply Forall_nil_2; (split; [repeat apply Forall_cons_2; try apply Forall_nil_2; apply page_1_ok; lia|]);
    (split; [by apply (bool_decide_unpack _)|]); (split; [done|]); (split; [cbn; lia|by cbn]).
Qed.

Lemma events_1_ok : Forall (event_ok 512) events_1.
Proof.
  apply Forall_app. split; [apply writes_1_ok|]. apply Forall_cons_2; [done|]. apply Forall_cons_2; [|apply Forall_nil_2].
  split; [apply Forall_cons_2; [apply page_1_ok; lia|apply Forall_nil_2]|]. split; [by apply (bool_decide_unpack _)|]. split; [done|]. split; [cbn; lia|by cbn].
Qed.

Lemma log_reads_back_witness : exists w' file',
  run_events maps true 4096 true random_1 no_restart 512 events_1 (wal_1, []) = (Ret tt, (w', file')) /\
    readDbPage maps (Some (w', file')) (repeat 99 600) 512 3 [] = (SQLITE_OK, repeat 10 512, []).
Proof.
  exact (log_reads_back (R := slow_reliable) maps (fun _ => eq_refl) true 4096 eq_refl true random_1 random_1_ok no_restart 512 page_size_512
    events_1 wal_1 [] (repeat 99 600) 3 [] (fresh_1 false) events_1_ok eq_refl ltac:(lia)).
Defined.

Lemma recovery_after_writes_witness : exists w' file' w2,
  run_events maps true 4096 true random_1 no_restart 512 writes_1 (wal_1, []) = (Ret tt, (w', file')) /\
    walIndexRecover maps (fun _ _ => SQLITE_OK) true SQLITE_OK false (fun _ => no_page) 0 wal0 file' = (SQLITE_OK, w2) /\ nPage (hdr w2) = 9 /\
    forall pgno vers, 1 <= pgno -> let d := page_of (kept (db_run writes_1 db0)) [] 512 pgno in
      readDbPage maps (Some (reader w2 1 (mxFrame (live w2)), file')) [] 512 pgno vers = (SQLITE_OK, d, file_vers pgno d vers).
Proof.
  apply (recovery_after_writes (R := slow_reliable) maps (fun _ => eq_refl) true 4096 eq_refl true random_1 random_1_ok no_restart 512 page_size_512
    writes_1 wal_1 [] (fun _ _ => SQLITE_OK) false (fun _ => no_page) 0 wal0 [] (fresh_1 true)); [done|apply writes_1_ok|by repeat apply Forall_cons_2|done..].
Defined.

Lemma commits_survive_witness : exists w' file' salt ck n,
  run_events maps true 4096 true random_1 no_restart 512 events_1 (wal_1, []) = (Ret tt, (w', file')) /\ 0 <= n <= zlen file' /\
    (forall more, Forall (event_ok 512) more -> costs 4096 events_1 + costs 4096 more + 1 < 2 ^ 32 ->
      exists w2 file2, run_events maps true 4096 true random_1 no_restart 512 more (w', file') = (Ret tt, (w2, file2)) /\ take (Z.to_nat n) file2 = take (Z.to_nat n) file') /\
    (forall rest lock big' junk ckptLock w1 fd, bytes_ok rest -> commit_free 512 true salt ck rest -> n + zlen rest < 2 ^ 40 -> (forall i n, lock i n = SQLITE_OK) ->
      let g := take (Z.to_nat n) file' ++ rest in
      exists w2, walIndexRecover maps lock true SQLITE_OK big' junk ckptLock w1 g = (SQLITE_OK, w2) /\ nPage (hdr w2) = 9 /\
        forall pgno vers, 1 <= pgno -> let d := page_of (kept (db_run events_1 db0)) fd 512 pgno in
          readDbPage maps (Some (reader w2 1 (mxFrame (live w2)), g)) fd 512 pgno vers = (SQLITE_OK, d, file_vers pgno d vers)).
Proof.
  apply (commits_survive (R := slow_reliable) maps (fun _ => eq_refl) true 4096 eq_refl true random_1 random_1_ok no_restart 512 page_size_512
    events_1 wal_1 [] (fresh_1 false)); [apply events_1_ok|done|done].
Defined.
