(* ===== verification/WalShm.v ===== *)
(** * Sharing the write-ahead log (wal.c of sqlite3.c)

    What the connections to one database do to the memory, the locks and the files they share:
    read transactions, write transactions and checkpoints.  A routine is a program over atomic
    operations on what is shared, so that other connections can run between any two of them.

    The shared header is kept in two copies, each read and written as a whole; [isInit], the
    version and the checksum of a copy hold for every header written.  Looking a page up in the
    wal-index, building the iterator of a checkpoint and adding a frame to the index are one
    operation each: [WalIndex] and [WalIter] show what they compute while others append frames.
    Any lock request, allocation or file operation may fail, and a write that fails leaves any
    content.  [exclusiveMode], [readOnly] and [bShmUnreliable] are 0. *)

From S2P Require Import Prelude Bitwise Varint UnixFile WalIndex WalLog WalWrite.
From stdpp Require Import options.

Definition WAL_WRITE_LOCK : Z := 0.
Definition WAL_CKPT_LOCK : Z := 1.
Definition WAL_RECOVER_LOCK : Z := 2.
Definition WAL_RETRY : Z := -1.
Definition WAL_RETRY_PROTOCOL_LIMIT : Z := 100.
Definition SQLITE_INTERRUPT : Z := 9.
Definition SQLITE_PROTOCOL : Z := 15.
Definition SQLITE_BUSY_RECOVERY : Z := Z.lor SQLITE_BUSY (Z.shiftl 1 8).
Definition SQLITE_BUSY_SNAPSHOT : Z := Z.lor SQLITE_BUSY (Z.shiftl 2 8).
Definition SQLITE_READONLY_CANTINIT : Z := Z.lor 8 (Z.shiftl 5 8).
Definition SQLITE_CHECKPOINT_NOOP : Z := -1.
Definition SQLITE_CHECKPOINT_PASSIVE : Z := 0.
Definition SQLITE_CHECKPOINT_RESTART : Z := 2.
Definition SQLITE_CHECKPOINT_TRUNCATE : Z := 3.

(** The bytes of a page. *)
Definition page : Type := list Z.

(** ** What is shared *)

(** How a connection holds a lock. *)
Inductive lmode := NotHeld | Shared | Exclusive.

#[export] Instance lmode_eq_dec : EqDecision lmode.
Proof. solve_decision. Defined.

(** A header that was published and the database it stands for.  [e_gen] counts the times the
    log was started over, [e_no] the headers published before. *)
Record commit := mkCommit { e_hdr : WalIndexHdr; e_img : Z -> page; e_gen : Z; e_no : Z }.

(** [s_h0] and [s_h1] are the copies [0] and [1] of the header; [s_pgno] is [aPgno] by frame,
    [s_frame] the content of the frames in the log file.  The rest is not in the program: the
    published headers, and [s_eff], the number of frames that [nBackfill] stands for: while the
    log is started over the header says so before [nBackfill] does. *)
Record shm := mkShm {
  s_h0 : WalIndexHdr;
  s_h1 : WalIndexHdr;
  s_nBackfill : Z;
  s_mark : Z -> Z;
  s_nBackfillAttempted : Z;
  s_pgno : Z -> Z;
  s_frame : Z -> page;
  s_db : Z -> page;
  s_lock : nat -> Z -> lmode;
  s_cur : commit;
  s_old : list commit;
  s_eff : Z
}.

Definition upd {A} (f : Z -> A) (i : Z) (x : A) : Z -> A := fun j => if j =? i then x else f j.
Definition updn {A} (f : nat -> A) (i : nat) (x : A) : nat -> A := fun j => if Nat.eqb j i then x else f j.

(** The last of the frames [lo .. n] of page [q], or 0. *)
Fixpoint last_in (pgno : Z -> Z) (q lo : Z) (n : nat) : Z :=
  match n with
  | O => 0
  | S n' => if Z.of_nat n <? lo then 0 else if pgno (Z.of_nat n) =? q then Z.of_nat n else last_in pgno q lo n'
  end.

(** The database that the frames up to [mx] make of that of the last header. *)
Definition overlay (s : shm) (mx : Z) (q : Z) : page :=
  let f := last_in (s_pgno s) q (mxFrame (e_hdr (s_cur s)) + 1) (Z.to_nat mx) in
  if f =? 0 then e_img (s_cur s) q else s_frame s f.

Definition next_commit (s : shm) (h : WalIndexHdr) : commit :=
  mkCommit h (if mxFrame h =? 0 then e_img (s_cur s) else overlay s (mxFrame h))
    (if mxFrame h =? 0 then e_gen (s_cur s) + 1 else e_gen (s_cur s)) (e_no (s_cur s) + 1).

(** The salts of a header are new, or those of its log. *)
Definition salts_fresh (s : shm) (h : WalIndexHdr) : bool :=
  forallb (fun e => negb (bool_decide (aSalt (e_hdr e) = aSalt h)) || (e_gen e =? e_gen (next_commit s h))) (s_cur s :: s_old s).

Definition set_lock (s : shm) (l : nat -> Z -> lmode) : shm :=
  mkShm (s_h0 s) (s_h1 s) (s_nBackfill s) (s_mark s) (s_nBackfillAttempted s) (s_pgno s) (s_frame s) (s_db s) l (s_cur s) (s_old s) (s_eff s).
Definition set_h1 (s : shm) (h : WalIndexHdr) : shm :=
  mkShm (s_h0 s) h (s_nBackfill s) (s_mark s) (s_nBackfillAttempted s) (s_pgno s) (s_frame s) (s_db s) (s_lock s) (s_cur s) (s_old s) (s_eff s).
Definition publish (s : shm) (h : WalIndexHdr) : shm :=
  mkShm h (s_h1 s) (s_nBackfill s) (s_mark s) (s_nBackfillAttempted s) (s_pgno s) (s_frame s) (s_db s) (s_lock s)
    (next_commit s h) (s_cur s :: s_old s) (if mxFrame h =? 0 then 0 else s_eff s).
Definition set_nBackfill (s : shm) (n : Z) : shm :=
  mkShm (s_h0 s) (s_h1 s) n (s_mark s) (s_nBackfillAttempted s) (s_pgno s) (s_frame s) (s_db s) (s_lock s) (s_cur s) (s_old s) n.
Definition set_mark (s : shm) (i m : Z) : shm :=
  mkShm (s_h0 s) (s_h1 s) (s_nBackfill s) (upd (s_mark s) i m) (s_nBackfillAttempted s) (s_pgno s) (s_frame s) (s_db s) (s_lock s) (s_cur s) (s_old s) (s_eff s).
Definition set_attempted (s : shm) (n : Z) : shm :=
  mkShm (s_h0 s) (s_h1 s) (s_nBackfill s) (s_mark s) n (s_pgno s) (s_frame s) (s_db s) (s_lock s) (s_cur s) (s_old s) (s_eff s).
Definition set_log (s : shm) (pgno : Z -> Z) (frame : Z -> page) : shm :=
  mkShm (s_h0 s) (s_h1 s) (s_nBackfill s) (s_mark s) (s_nBackfillAttempted s) pgno frame (s_db s) (s_lock s) (s_cur s) (s_old s) (s_eff s).
Definition set_db (s : shm) (db : Z -> page) : shm :=
  mkShm (s_h0 s) (s_h1 s) (s_nBackfill s) (s_mark s) (s_nBackfillAttempted s) (s_pgno s) (s_frame s) db (s_lock s) (s_cur s) (s_old s) (s_eff s).

(** ** Operations *)

Inductive wop : Type -> Type :=
  | OLockShared (lockIdx : Z) : wop Z
  | OUnlockShared (lockIdx : Z) : wop unit
  | OLockExclusive (lockIdx n : Z) : wop Z
  | OUnlockExclusive (lockIdx n : Z) : wop unit
  | OHdr (copy : bool) : wop WalIndexHdr
  | OSetHdr (copy : bool) (h : WalIndexHdr) : wop unit
  | ONBackfill : wop Z
  | OSetNBackfill (n : Z) : wop unit
  | OReadMark (i : Z) : wop Z
  | OSetReadMark (i m : Z) : wop unit
  | OSetAttempted (n : Z) : wop unit
  | OFindFrame (pgno minFrame mxFrame : Z) : wop (Z * Z)
  | OAppend (iFrame pgno : Z) : wop Z
  | OCleanup (mxFrame : Z) : wop unit
  | OIterator (nBackfill mxFrame : Z) : wop (Z + list (Z * Z))
  | OLogRead (iFrame : Z) : wop (Z * page)
  | OLogWrite (iFrame : Z) (d : page) : wop Z
  | OLogTruncate : wop Z
  | ODbRead (pgno : Z) : wop (Z * page)
  | ODbWrite (pgno : Z) (d : page) : wop Z
  | ODbTruncate (nPage : Z) : wop Z
  | OEnv : wop Z.

(** What the environment decides: the code of an operation that can fail, and the content a
    failed one leaves or returns. *)
Record choice := mkChoice { ch_rc : Z; ch_data : page }.

Definition in_range (i n j : Z) : bool := (i <=? j) && (j <? i + n).

Section ops.
(** The iterator of a checkpoint over the frames [1 .. mxFrame]: [aPgno], [nBackfill], [mxFrame]. *)
Context (iter : (Z -> Z) -> Z -> Z -> list (Z * Z)).
(** The connections there are. *)
Context (procs : list nat).

(** No other connection holds the lock, or none exclusively. *)
Definition can_lock (s : shm) (p : nat) (m : lmode) (i : Z) : bool :=
  forallb (fun q => Nat.eqb q p || match s_lock s q i, m with
                                   | NotHeld, _ => true
                                   | Shared, Shared => true
                                   | _, _ => false
                                   end) procs.

Definition hold (s : shm) (p : nat) (i n : Z) (m : lmode) : shm :=
  set_lock s (updn (s_lock s) p (fun j => if in_range i n j then m else s_lock s p j)).

Definition rangeZ (i n : Z) : list Z := map (fun k => i + Z.of_nat k) (seq 0 (Z.to_nat n)).

Definition try_lock (s : shm) (p : nat) (i n : Z) (m : lmode) (rc : Z) : Z * shm :=
  if negb (rc =? SQLITE_OK) then (rc, s)
  else if forallb (can_lock s p m) (rangeZ i n) then (SQLITE_OK, hold s p i n m)
  else (SQLITE_BUSY, s).

Definition op_do (p : nat) (s : shm) {R} (o : wop R) (ch : choice) : option (R * shm) :=
  match o in wop R return option (R * shm) with
  | OLockShared i => Some (try_lock s p i 1 Shared (ch_rc ch))
  | OUnlockShared i => Some (tt, hold s p i 1 NotHeld)
  | OLockExclusive i n => Some (try_lock s p i n Exclusive (ch_rc ch))
  | OUnlockExclusive i n => Some (tt, hold s p i n NotHeld)
  | OHdr c => Some (if c : bool then s_h1 s else s_h0 s, s)
  | OSetHdr true h => Some (tt, set_h1 s h)
  | OSetHdr false h => if salts_fresh s h then Some (tt, publish s h) else None
  | ONBackfill => Some (s_nBackfill s, s)
  | OSetNBackfill n => Some (tt, set_nBackfill s n)
  | OReadMark i => Some (s_mark s i, s)
  | OSetReadMark i m => Some (tt, set_mark s i m)
  | OSetAttempted n => Some (tt, set_attempted s n)
  | OFindFrame q mn mx =>
      Some (if ch_rc ch =? SQLITE_OK then (SQLITE_OK, last_in (s_pgno s) q mn (Z.to_nat mx)) else (ch_rc ch, 0), s)
  | OAppend f q =>
      Some (ch_rc ch, if ch_rc ch =? SQLITE_OK then set_log s (upd (s_pgno s) f q) (s_frame s) else s)
  | OCleanup mx =>
      Some (tt, if mx =? 0 then s
                else set_log s (fun i => if (mx <? i) && (walFramePage i =? walFramePage mx) then 0 else s_pgno s i) (s_frame s))
  | OIterator n mx => Some (if ch_rc ch =? SQLITE_OK then inr (iter (s_pgno s) n mx) else inl (ch_rc ch), s)
  | OLogRead f => Some (if ch_rc ch =? SQLITE_OK then (SQLITE_OK, s_frame s f) else (ch_rc ch, ch_data ch), s)
  | OLogWrite f d =>
      Some (ch_rc ch, set_log s (s_pgno s) (upd (s_frame s) f (if ch_rc ch =? SQLITE_OK then d else ch_data ch)))
  | OLogTruncate =>
      Some (ch_rc ch, if ch_rc ch =? SQLITE_OK then set_log s (s_pgno s) (fun _ => []) else s)
  | ODbRead q => Some (if ch_rc ch =? SQLITE_OK then (SQLITE_OK, s_db s q) else (ch_rc ch, ch_data ch), s)
  | ODbWrite q d => Some (ch_rc ch, set_db s (upd (s_db s) q (if ch_rc ch =? SQLITE_OK then d else ch_data ch)))
  | ODbTruncate n =>
      Some (ch_rc ch, if ch_rc ch =? SQLITE_OK then set_db s (fun q => if q <=? n then s_db s q else []) else s)
  | OEnv => Some (ch_rc ch, s)
  end.

End ops.

(** ** Programs *)

Inductive wprog (A : Type) : Type :=
  | WRet (a : A)
  | WOp (R : Type) (o : wop R) (k : R -> wprog A).

Arguments WRet {A} a.
Arguments WOp {A R} o k.

Fixpoint wbind {A B} (m : wprog A) (f : A -> wprog B) : wprog B :=
  match m with
  | WRet a => f a
  | WOp o k => WOp o (fun r => wbind (k r) f)
  end.

Definition op {R} (o : wop R) : wprog R := WOp o (fun r => WRet r).

Declare Scope wprog_scope.
Delimit Scope wprog_scope with wprog.
Notation "'do!' x := m 'in' k" := (wbind m (fun x => k))
  (at level 10, x pattern, m at level 100, k at level 200) : wprog_scope.
Open Scope wprog_scope.

(** ** A connection *)

(** The members of [Wal] that are used here. *)
Record conn := mkConn {
  c_hdr : WalIndexHdr;
  c_minFrame : Z;
  c_readLock : Z;
  c_writeLock : Z;
  c_ckptLock : bool;
  c_nCkpt : Z;
  c_szPage : Z
}.

Definition hdr_zero : WalIndexHdr := mkHdr 0 0 0 0 0 (0, 0) [0; 0; 0; 0; 0; 0; 0; 0].
Definition conn0 : conn := mkConn hdr_zero 0 (-1) 0 false 0 0.

Definition set_chdr (w : conn) (h : WalIndexHdr) : conn := mkConn h (c_minFrame w) (c_readLock w) (c_writeLock w) (c_ckptLock w) (c_nCkpt w) (c_szPage w).
Definition set_minFrame (w : conn) (n : Z) : conn := mkConn (c_hdr w) n (c_readLock w) (c_writeLock w) (c_ckptLock w) (c_nCkpt w) (c_szPage w).
Definition set_readLock (w : conn) (i : Z) : conn := mkConn (c_hdr w) (c_minFrame w) i (c_writeLock w) (c_ckptLock w) (c_nCkpt w) (c_szPage w).
Definition set_writeLock (w : conn) (b : Z) : conn := mkConn (c_hdr w) (c_minFrame w) (c_readLock w) b (c_ckptLock w) (c_nCkpt w) (c_szPage w).
Definition set_ckptLock (w : conn) (b : bool) : conn := mkConn (c_hdr w) (c_minFrame w) (c_readLock w) (c_writeLock w) b (c_nCkpt w) (c_szPage w).
Definition set_cCkpt (w : conn) (n : Z) : conn := mkConn (c_hdr w) (c_minFrame w) (c_readLock w) (c_writeLock w) (c_ckptLock w) n (c_szPage w).

Definition set_szPage (w : conn) (n : Z) : conn := mkConn (c_hdr w) (c_minFrame w) (c_readLock w) (c_writeLock w) (c_ckptLock w) (c_nCkpt w) n.

Definition pagesize (h : WalIndexHdr) : Z := Z.land (h_szPage h) 0xfe00 + Z.shiftl (Z.land (h_szPage h) 0x0001) 16.

Section wal.
(** [walIndexRecover], which is called for a header that stays unreadable under the write lock:
    any program, because no run gets there. *)
Context (walIndexRecover : conn -> wprog (Z * conn)).

(** *** The header *)

(** What is returned, whether the header changed, and the connection. *)
Definition walIndexTryHdr (w : conn) (pChanged : bool) : wprog (bool * bool * conn) :=
  do! h1 := op (OHdr false) in
  do! h2 := op (OHdr true) in
  if negb (hdr_eqb h1 h2) then WRet (true, pChanged, w)
  else if negb (hdr_eqb (c_hdr w) h1) then WRet (false, true, set_chdr (set_szPage w (pagesize h1)) h1)
  else WRet (false, pChanged, w).

Definition walIndexReadHdr (w : conn) (pChanged : bool) : wprog (Z * bool * conn) :=
  do! rc := op OEnv in
  if negb (rc =? SQLITE_OK) then WRet (rc, pChanged, w)
  else
    do! (badHdr, pChanged, w) := walIndexTryHdr w pChanged in
    if negb badHdr then WRet (SQLITE_OK, pChanged, w)
    else
      let bWriteLock := negb (c_writeLock w =? 0) in
      do! rc := (if bWriteLock then WRet SQLITE_OK else op (OLockExclusive WAL_WRITE_LOCK 1)) in
      if negb (rc =? SQLITE_OK) then WRet (rc, pChanged, w)
      else
        let w := if bWriteLock then w else set_writeLock w 2 in
        do! rc := op OEnv in
        do! (rc, pChanged, w) :=
          (if negb (rc =? SQLITE_OK) then WRet (rc, pChanged, w)
           else
             do! (badHdr, pChanged, w) := walIndexTryHdr w pChanged in
             if badHdr : bool then do! (rc, w) := walIndexRecover w in WRet (rc, true, w)
             else WRet (SQLITE_OK, pChanged, w)) in
        if bWriteLock then WRet (rc, pChanged, w)
        else
          let w := set_writeLock w 0 in
          do! _ := op (OUnlockExclusive WAL_WRITE_LOCK 1) in
          WRet (rc, pChanged, w).

Definition walIndexWriteHdr (w : conn) : wprog unit :=
  do! _ := op (OSetHdr true (c_hdr w)) in
  op (OSetHdr false (c_hdr w)).

(** *** Reading *)

(** The largest mark up to [mxFrame] among the marks from [i] on. *)
Fixpoint scan_marks (n : nat) (i mxFrame mxReadMark mxI : Z) : wprog (Z * Z) :=
  match n with
  | O => WRet (mxReadMark, mxI)
  | S n =>
      do! thisMark := op (OReadMark i) in
      if (mxReadMark <=? thisMark) && (thisMark <=? mxFrame) then scan_marks n (i + 1) mxFrame thisMark i
      else scan_marks n (i + 1) mxFrame mxReadMark mxI
  end.

(** Sets one of the marks from [i] on to [mxFrame]: [Some] code is an error; otherwise the last
    code, the mark and its index. *)
Fixpoint claim_mark (n : nat) (i mxFrame mxReadMark mxI rc : Z) : wprog (option Z * Z * Z * Z) :=
  match n with
  | O => WRet (None, rc, mxReadMark, mxI)
  | S n =>
      do! rc := op (OLockExclusive (WAL_READ_LOCK i) 1) in
      if rc =? SQLITE_OK then
        do! _ := op (OSetReadMark i mxFrame) in
        do! _ := op (OUnlockExclusive (WAL_READ_LOCK i) 1) in
        WRet (None, rc, mxFrame, i)
      else if negb (rc =? SQLITE_BUSY) then WRet (Some rc, rc, mxReadMark, mxI)
      else claim_mark n (i + 1) mxFrame mxReadMark mxI rc
  end.

(** The part of [walTryBeginRead] that takes a read mark. *)
Definition begin_on_mark (w : conn) (rc : Z) : wprog (Z * conn) :=
  let mxFrame := mxFrame (c_hdr w) in
  do! (mxReadMark, mxI) := scan_marks (Z.to_nat (WAL_NREADER - 1)) 1 mxFrame 0 0 in
  do! (stop, rc, mxReadMark, mxI) :=
    (if (mxReadMark <? mxFrame) || (mxI =? 0)
     then claim_mark (Z.to_nat (WAL_NREADER - 1)) 1 mxFrame mxReadMark mxI rc
     else WRet (None, rc, mxReadMark, mxI)) in
  match stop with
  | Some rc => WRet (rc, w)
  | None =>
      if mxI =? 0 then WRet (if rc =? SQLITE_BUSY then WAL_RETRY else SQLITE_READONLY_CANTINIT, w)
      else
        do! rc := op (OLockShared (WAL_READ_LOCK mxI)) in
        if negb (rc =? SQLITE_OK) then WRet (if Z.land rc 0xff =? SQLITE_BUSY then WAL_RETRY else rc, w)
        else
          do! nBackfill := op ONBackfill in
          let w := set_minFrame w (nBackfill + 1) in
          do! mark := op (OReadMark mxI) in
          do! changed := (if negb (mark =? mxReadMark) then WRet true
                          else do! h := op (OHdr false) in WRet (negb (hdr_eqb h (c_hdr w)))) in
          if changed : bool then
            do! _ := op (OUnlockShared (WAL_READ_LOCK mxI)) in
            WRet (WAL_RETRY, w)
          else WRet (SQLITE_OK, set_readLock w mxI)
  end.

(** The part that ignores the log, when all of it is in the database file; [None] when it goes
    on to a read mark. *)
Definition begin_on_db (w : conn) : wprog (option Z * Z * conn) :=
  do! nBackfill := op ONBackfill in
  if negb (nBackfill =? mxFrame (c_hdr w)) then WRet (None, SQLITE_OK, w)
  else
    do! rc := op (OLockShared (WAL_READ_LOCK 0)) in
    if rc =? SQLITE_OK then
      do! h := op (OHdr false) in
      if negb (hdr_eqb h (c_hdr w)) then
        do! _ := op (OUnlockShared (WAL_READ_LOCK 0)) in
        WRet (Some WAL_RETRY, rc, w)
      else WRet (Some SQLITE_OK, rc, set_readLock w 0)
    else if negb (rc =? SQLITE_BUSY) then WRet (Some rc, rc, w)
    else WRet (None, rc, w).

(** Reading the header at the start of a transaction: the code. *)
Definition begin_hdr (w : conn) (pChanged : bool) : wprog (Z * bool * conn) :=
  do! (rc, pChanged, w) := walIndexReadHdr w pChanged in
  if negb (rc =? SQLITE_BUSY) then WRet (rc, pChanged, w)
  else
    do! unmapped := op OEnv in
    if negb (unmapped =? 0) then WRet (WAL_RETRY, pChanged, w)
    else
      do! rc := op (OLockShared WAL_RECOVER_LOCK) in
      if rc =? SQLITE_OK then
        do! _ := op (OUnlockShared WAL_RECOVER_LOCK) in
        WRet (WAL_RETRY, pChanged, w)
      else WRet (if rc =? SQLITE_BUSY then SQLITE_BUSY_RECOVERY else rc, pChanged, w).

(** The code, [*pChanged], [*pCnt] and the connection. *)
Definition walTryBeginRead (w : conn) (pChanged useWal : bool) (pCnt : Z) : wprog (Z * bool * Z * conn) :=
  let pCnt := pCnt + 1 in
  if (5 <? pCnt) && (WAL_RETRY_PROTOCOL_LIMIT <? pCnt) then WRet (SQLITE_PROTOCOL, pChanged, pCnt, w)
  else
    do! _ := (if 5 <? pCnt then do! _ := op OEnv in WRet tt else WRet tt) in
    if useWal then do! (rc, w) := begin_on_mark w SQLITE_OK in WRet (rc, pChanged, pCnt, w)
    else
      do! (rc, pChanged, w) := begin_hdr w pChanged in
      if negb (rc =? SQLITE_OK) then WRet (rc, pChanged, pCnt, w)
      else
        do! (stop, rc, w) := begin_on_db w in
        match stop with
        | Some rc => WRet (rc, pChanged, pCnt, w)
        | None => do! (rc, w) := begin_on_mark w rc in WRet (rc, pChanged, pCnt, w)
        end.

(** [do{ rc = walTryBeginRead(...) }while( rc==WAL_RETRY )], at most [fuel] times. *)
Fixpoint begin_loop (fuel : nat) (w : conn) (pChanged useWal : bool) (cnt : Z) : wprog (Z * bool * conn) :=
  match fuel with
  | O => WRet (WAL_RETRY, pChanged, w)
  | S fuel =>
      do! (rc, pChanged, cnt, w) := walTryBeginRead w pChanged useWal cnt in
      if rc =? WAL_RETRY then begin_loop fuel w pChanged useWal cnt else WRet (rc, pChanged, w)
  end.

Definition begin_fuel : nat := Z.to_nat (WAL_RETRY_PROTOCOL_LIMIT + 1).

Definition walBeginReadTransaction (w : conn) (pChanged : bool) : wprog (Z * bool * conn) :=
  begin_loop begin_fuel w pChanged false 0.

Definition sqlite3WalEndWriteTransaction (w : conn) : wprog conn :=
  if negb (c_writeLock w =? 0) then
    do! _ := op (OUnlockExclusive WAL_WRITE_LOCK 1) in
    WRet (set_writeLock w 0)
  else WRet w.

Definition sqlite3WalEndReadTransaction (w : conn) : wprog conn :=
  if 0 <=? c_readLock w then
    do! w := sqlite3WalEndWriteTransaction w in
    do! _ := op (OUnlockShared (WAL_READ_LOCK (c_readLock w))) in
    WRet (set_readLock w (-1))
  else WRet w.

(** [walFindFrame]: the code and the frame. *)
Definition findFrame (w : conn) (pgno : Z) : wprog (Z * Z) :=
  if (mxFrame (c_hdr w) =? 0) || (c_readLock w =? 0) then WRet (SQLITE_OK, 0)
  else op (OFindFrame pgno (c_minFrame w) (mxFrame (c_hdr w))).

(** [readDbPage] of the pager: the code and the page. *)
Definition readDbPage (w : conn) (pgno : Z) : wprog (Z * page) :=
  do! (rc, iFrame) := findFrame w pgno in
  if negb (rc =? SQLITE_OK) then WRet (rc, [])
  else if negb (iFrame =? 0) then op (OLogRead iFrame)
  else op (ODbRead pgno).

(** *** Writing *)

Definition sqlite3WalBeginWriteTransaction (w : conn) : wprog (Z * conn) :=
  do! rc := op (OLockExclusive WAL_WRITE_LOCK 1) in
  if negb (rc =? SQLITE_OK) then WRet (rc, w)
  else
    let w := set_writeLock w 1 in
    do! h := op (OHdr false) in
    if negb (hdr_eqb (c_hdr w) h) then
      do! _ := op (OUnlockExclusive WAL_WRITE_LOCK 1) in
      WRet (SQLITE_BUSY_SNAPSHOT, set_writeLock w 0)
    else WRet (SQLITE_OK, w).

(** [for(i=2; i<WAL_NREADER; i++) pInfo->aReadMark[i] = READMARK_NOT_USED] *)
Fixpoint clear_marks (n : nat) (i : Z) : wprog unit :=
  match n with
  | O => WRet tt
  | S n => do! _ := op (OSetReadMark i READMARK_NOT_USED) in clear_marks n (i + 1)
  end.

Definition restarted (h : WalIndexHdr) (salt1 : Z) : WalIndexHdr :=
  mkHdr (iChange h) (bigEndCksum h) (h_szPage h) 0 (nPage h) (aFrameCksum h)
    (sqlite3Put4byte (u32 (1 + sqlite3Get4byte (aSalt h))) ++ sqlite3Put4byte (u32 salt1)).

Definition walRestartHdr (w : conn) (salt1 : Z) : wprog conn :=
  let w := set_cCkpt w (u32 (c_nCkpt w + 1)) in
  let w := set_chdr w (restarted (c_hdr w) salt1) in
  do! _ := walIndexWriteHdr w in
  do! _ := op (OSetNBackfill 0) in
  do! _ := op (OSetAttempted 0) in
  do! _ := op (OSetReadMark 1 0) in
  do! _ := clear_marks (Z.to_nat (WAL_NREADER - 2)) 2 in
  WRet w.

Definition walRestartLog (w : conn) : wprog (Z * conn) :=
  if negb (c_readLock w =? 0) then WRet (SQLITE_OK, w)
  else
    do! nBackfill := op ONBackfill in
    do! (stop, w) :=
      (if 0 <? nBackfill then
         do! salt1 := op OEnv in
         do! rc := op (OLockExclusive (WAL_READ_LOCK 1) (WAL_NREADER - 1)) in
         if rc =? SQLITE_OK then
           do! w := walRestartHdr w salt1 in
           do! _ := op (OUnlockExclusive (WAL_READ_LOCK 1) (WAL_NREADER - 1)) in
           WRet (None, w)
         else if negb (rc =? SQLITE_BUSY) then WRet (Some rc, w)
         else WRet (None, w)
       else WRet (None, w)) in
    match stop with
    | Some rc => WRet (rc, w)
    | None =>
        do! _ := op (OUnlockShared (WAL_READ_LOCK 0)) in
        let w := set_readLock w (-1) in
        do! (rc, _, w) := begin_loop begin_fuel w false true 0 in
        WRet (rc, w)
    end.

(** The header of the log, written before its first frame; the checksum is that of the bytes. *)
Definition write_log_hdr (w : conn) (szPage : Z) : wprog (Z * conn) :=
  do! w := (if c_nCkpt w =? 0 then
              do! s0 := op OEnv in
              do! s1 := op OEnv in
              let h := c_hdr w in
              WRet (set_chdr w (mkHdr (iChange h) (bigEndCksum h) (h_szPage h) (mxFrame h) (nPage h) (aFrameCksum h)
                (sqlite3Put4byte (u32 s0) ++ sqlite3Put4byte (u32 s1))))
            else WRet w) in
  do! ck0 := op OEnv in
  do! ck1 := op OEnv in
  let h := c_hdr w in
  let w := set_chdr (set_szPage w szPage) (mkHdr (iChange h) 0 (h_szPage h) (mxFrame h) (nPage h) (ck0, ck1) (aSalt h)) in
  do! rc := op OEnv in
  if negb (rc =? SQLITE_OK) then WRet (rc, w)
  else do! rc := op OEnv in WRet (rc, w).

Definition set_cksum (w : conn) (ck : Z * Z) : conn :=
  let h := c_hdr w in set_chdr w (mkHdr (iChange h) (bigEndCksum h) (h_szPage h) (mxFrame h) (nPage h) ck (aSalt h)).

(** Appends a frame: its checksum goes into the header of the connection. *)
Definition write_one (w : conn) (iFrame : Z) (d : page) : wprog (Z * conn) :=
  do! ck0 := op OEnv in
  do! ck1 := op OEnv in
  let w := set_cksum w (ck0, ck1) in
  do! rc := op (OLogWrite iFrame d) in
  WRet (rc, w).

(** The loop that writes the frames: the pages that were appended, the last frame. *)
Fixpoint write_frames (w : conn) (pList : list (Z * page)) (iFirst : Z) (isCommit : bool) (iFrame : Z) (appended : list Z)
  : wprog (Z * list Z * Z * conn) :=
  match pList with
  | [] => WRet (SQLITE_OK, appended, iFrame, w)
  | (pgno, d) :: rest =>
      do! iWrite :=
        (if negb (iFirst =? 0) && (negb (bool_decide (rest = [])) || negb isCommit)
         then do! (_, f) := findFrame w pgno in WRet f else WRet 0) in
      if (iFirst <=? iWrite) && negb (iFirst =? 0) then
        do! rc := op (OLogWrite iWrite d) in
        if negb (rc =? SQLITE_OK) then WRet (rc, appended, iFrame, w)
        else write_frames w rest iFirst isCommit iFrame appended
      else
        do! (rc, w) := write_one w (iFrame + 1) d in
        if negb (rc =? SQLITE_OK) then WRet (rc, appended, iFrame + 1, w)
        else write_frames w rest iFirst isCommit (iFrame + 1) (appended ++ [pgno])
  end.

(** [nExtra] more copies of the last frame, to the end of the sector. *)
Fixpoint write_extra (w : conn) (nExtra : nat) (iFrame : Z) (d : page) : wprog (Z * conn) :=
  match nExtra with
  | O => WRet (SQLITE_OK, w)
  | S n =>
      do! (rc, w) := write_one w (iFrame + 1) d in
      if negb (rc =? SQLITE_OK) then WRet (rc, w) else write_extra w n (iFrame + 1) d
  end.

Fixpoint append_index (l : list Z) (iFrame : Z) : wprog (Z * Z) :=
  match l with
  | [] => WRet (SQLITE_OK, iFrame)
  | pgno :: l =>
      do! rc := op (OAppend (iFrame + 1) pgno) in
      if negb (rc =? SQLITE_OK) then WRet (rc, iFrame + 1) else append_index l (iFrame + 1)
  end.

(** [walFrames] for a list of pages; [nExtra] is what padding the log to a sector adds. *)
Definition sqlite3WalFrames (w : conn) (szPage : Z) (pList : list (Z * page)) (nTruncate : Z) (isCommit : bool) (nExtra : nat)
  : wprog (Z * conn) :=
  do! h := op (OHdr false) in
  let iFirst := if hdr_eqb (c_hdr w) h then 0 else mxFrame h + 1 in
  do! (rc, w) := walRestartLog w in
  if negb (rc =? SQLITE_OK) then WRet (rc, w)
  else
    do! (rc, w) := (if mxFrame (c_hdr w) =? 0 then write_log_hdr w szPage else WRet (SQLITE_OK, w)) in
    if negb (rc =? SQLITE_OK) then WRet (rc, w)
    else if negb (c_szPage w =? szPage) then WRet (SQLITE_CORRUPT, w)
    else
      do! (rc, appended, iFrame, w) := write_frames w pList iFirst isCommit (mxFrame (c_hdr w)) [] in
      if negb (rc =? SQLITE_OK) then WRet (rc, w)
      else
        do! rc := op OEnv in
        if negb (rc =? SQLITE_OK) then WRet (rc, w)
        else
          let '(pg, d) := List.last pList (0, []) in
          let nExtra := if isCommit then nExtra else O in
          do! (rc, w) := write_extra w nExtra iFrame d in
          if negb (rc =? SQLITE_OK) then WRet (rc, w)
          else
            do! rc := op OEnv in
            if negb (rc =? SQLITE_OK) then WRet (rc, w)
            else
              do! (rc, iFrame) := append_index (appended ++ repeat pg nExtra) (mxFrame (c_hdr w)) in
              if negb (rc =? SQLITE_OK) then WRet (rc, w)
              else
                let h := c_hdr w in
                let h := mkHdr (if isCommit then u32 (iChange h + 1) else iChange h) (bigEndCksum h)
                  (u16 (Z.lor (Z.land szPage 0xff00) (Z.shiftr szPage 16))) iFrame
                  (if isCommit then nTruncate else nPage h) (aFrameCksum h) (aSalt h) in
                let w := set_chdr w h in
                do! _ := (if isCommit then walIndexWriteHdr w else WRet tt) in
                WRet (SQLITE_OK, w).

Definition sqlite3WalUndo (w : conn) : wprog conn :=
  if negb (c_writeLock w =? 0) then
    let iMax := mxFrame (c_hdr w) in
    do! h := op (OHdr false) in
    let w := set_chdr w h in
    do! _ := (if negb (iMax =? mxFrame h) then op (OCleanup (mxFrame h)) else WRet tt) in
    WRet w
  else WRet w.

(** *** Checkpoints *)

(** [xBusy] is the number of times the busy handler asks for another try at a lock. *)
Fixpoint walBusyLock (xBusy : nat) (lockIdx n : Z) : wprog Z :=
  do! rc := op (OLockExclusive lockIdx n) in
  match xBusy with
  | S xBusy => if rc =? SQLITE_BUSY then walBusyLock xBusy lockIdx n else WRet rc
  | O => WRet rc
  end.

(** [for(i=1; i<WAL_NREADER; i++)], [n] rounds from [i]: [true] is an error; [rc], the safe
    frame and the busy handler. *)
Fixpoint safe_frames (n : nat) (i mxSafeFrame : Z) (xBusy : nat) (rc : Z) : wprog (bool * Z * Z * nat) :=
  match n with
  | O => WRet (false, rc, mxSafeFrame, xBusy)
  | S n =>
      do! y := op (OReadMark i) in
      if y <? mxSafeFrame then
        do! rc := walBusyLock xBusy (WAL_READ_LOCK i) 1 in
        if rc =? SQLITE_OK then
          do! _ := op (OSetReadMark i (if i =? 1 then mxSafeFrame else READMARK_NOT_USED)) in
          do! _ := op (OUnlockExclusive (WAL_READ_LOCK i) 1) in
          safe_frames n (i + 1) mxSafeFrame xBusy rc
        else if rc =? SQLITE_BUSY then safe_frames n (i + 1) y O rc
        else WRet (true, rc, mxSafeFrame, xBusy)
      else safe_frames n (i + 1) mxSafeFrame xBusy rc
  end.

(** Copies the frames the iterator returns. *)
Fixpoint backfill_loop (l : list (Z * Z)) (nBackfill mxSafeFrame mxPage : Z) : wprog Z :=
  match l with
  | [] => WRet SQLITE_OK
  | (iDbpage, iFrame) :: l =>
      do! isInterrupted := op OEnv in
      if negb (isInterrupted =? 0) then
        do! mallocFailed := op OEnv in
        WRet (if negb (mallocFailed =? 0) then SQLITE_NOMEM else SQLITE_INTERRUPT)
      else if (iFrame <=? nBackfill) || (mxSafeFrame <? iFrame) || (mxPage <? iDbpage) then backfill_loop l nBackfill mxSafeFrame mxPage
      else
        do! (rc, zBuf) := op (OLogRead iFrame) in
        if negb (rc =? SQLITE_OK) then WRet rc
        else
          do! rc := op (ODbWrite iDbpage zBuf) in
          if negb (rc =? SQLITE_OK) then WRet rc else backfill_loop l nBackfill mxSafeFrame mxPage
  end.

(** The log is synced and the size of the database looked at: the code. *)
Definition before_backfill (w : conn) : wprog Z :=
  let szPage := pagesize (c_hdr w) in
  do! rc := op OEnv in
  if negb (rc =? SQLITE_OK) then WRet rc
  else
    let nReq := nPage (c_hdr w) * szPage in
    do! rc := op OEnv in
    if negb (rc =? SQLITE_OK) then WRet rc
    else
      do! nSize := op OEnv in
      WRet (if (nSize <? nReq) && (nSize + 65536 + mxFrame (c_hdr w) * szPage <? nReq) then SQLITE_CORRUPT else SQLITE_OK).

(** What is done with [WAL_READ_LOCK(0)] held. *)
Definition backfill (w : conn) (l : list (Z * Z)) (mxSafeFrame : Z) : wprog Z :=
  do! nBackfill := op ONBackfill in
  do! pLive := op (OHdr false) in
  if negb (bool_decide (aSalt pLive = aSalt (c_hdr w))) then WRet SQLITE_OK
  else
    do! _ := op (OSetAttempted mxSafeFrame) in
    do! rc := before_backfill w in
    do! rc := (if rc =? SQLITE_OK then backfill_loop l nBackfill mxSafeFrame (nPage (c_hdr w)) else WRet rc) in
    if negb (rc =? SQLITE_OK) then WRet rc
    else
      do! h := op (OHdr false) in
      do! rc :=
        (if mxSafeFrame =? mxFrame h then
           do! rc := op (ODbTruncate (nPage (c_hdr w))) in
           if rc =? SQLITE_OK then op OEnv else WRet rc
         else WRet SQLITE_OK) in
      if negb (rc =? SQLITE_OK) then WRet rc
      else
        do! _ := op (OSetNBackfill mxSafeFrame) in
        WRet SQLITE_OK.

(** The first half of [walCheckpoint]: the code. *)
Definition checkpoint_copy (w : conn) (xBusy : nat) : wprog (Z * nat) :=
  do! (stop, rc, mxSafeFrame, xBusy) := safe_frames (Z.to_nat (WAL_NREADER - 1)) 1 (mxFrame (c_hdr w)) xBusy SQLITE_OK in
  if stop : bool then WRet (rc, xBusy)
  else
    do! nBackfill := op ONBackfill in
    do! (rc, pIter) :=
      (if nBackfill <? mxSafeFrame then
         do! nBackfill := op ONBackfill in
         do! r := op (OIterator nBackfill (mxFrame (c_hdr w))) in
         match r with
         | inl rc => WRet (rc, None)
         | inr l => WRet (SQLITE_OK, Some l)
         end
       else WRet (rc, None)) in
    do! rc :=
      match pIter with
      | None => WRet rc
      | Some l =>
          do! rc := walBusyLock xBusy (WAL_READ_LOCK 0) 1 in
          if negb (rc =? SQLITE_OK) then WRet rc
          else
            do! rc := backfill w l mxSafeFrame in
            do! _ := op (OUnlockExclusive (WAL_READ_LOCK 0) 1) in
            WRet rc
      end in
    WRet (if rc =? SQLITE_BUSY then SQLITE_OK else rc, xBusy).

(** The second half: waiting for the readers, and starting the log over. *)
Definition checkpoint_restart (w : conn) (eMode : Z) (xBusy : nat) : wprog (Z * conn) :=
  do! nBackfill := op ONBackfill in
  if nBackfill <? mxFrame (c_hdr w) then WRet (SQLITE_BUSY, w)
  else if SQLITE_CHECKPOINT_RESTART <=? eMode then
    do! salt1 := op OEnv in
    do! rc := walBusyLock xBusy (WAL_READ_LOCK 1) (WAL_NREADER - 1) in
    if negb (rc =? SQLITE_OK) then WRet (rc, w)
    else
      do! (rc, w) :=
        (if eMode =? SQLITE_CHECKPOINT_TRUNCATE then
           do! w := walRestartHdr w salt1 in
           do! rc := op OLogTruncate in
           WRet (rc, w)
         else WRet (SQLITE_OK, w)) in
      do! _ := op (OUnlockExclusive (WAL_READ_LOCK 1) (WAL_NREADER - 1)) in
      WRet (rc, w)
  else WRet (SQLITE_OK, w).

Definition walCheckpoint (w : conn) (eMode : Z) (xBusy : nat) : wprog (Z * conn) :=
  do! nBackfill := op ONBackfill in
  do! (stop, rc, xBusy) :=
    (if nBackfill <? mxFrame (c_hdr w) then
       do! (rc, xBusy) := checkpoint_copy w xBusy in
       WRet (negb (rc =? SQLITE_OK), rc, xBusy)
     else WRet (false, SQLITE_OK, xBusy)) in
  if stop : bool then WRet (rc, w)
  else if negb (eMode =? SQLITE_CHECKPOINT_PASSIVE) then checkpoint_restart w eMode xBusy
  else WRet (SQLITE_OK, w).

(** The code, [*pnLog] and [*pnCkpt]. *)
Definition sqlite3WalCheckpoint (w : conn) (eMode : Z) (xBusy : nat) (nBuf : Z) : wprog (Z * list Z * conn) :=
  do! (rc, eMode2, xBusy2, w) :=
    (if negb (eMode =? SQLITE_CHECKPOINT_NOOP) then
       do! rc := op (OLockExclusive WAL_CKPT_LOCK 1) in
       if negb (rc =? SQLITE_OK) then WRet (rc, eMode, xBusy, w)
       else
         let w := set_ckptLock w true in
         if negb (eMode =? SQLITE_CHECKPOINT_PASSIVE) then
           do! rc := walBusyLock xBusy WAL_WRITE_LOCK 1 in
           if rc =? SQLITE_OK then WRet (rc, eMode, xBusy, set_writeLock w 1)
           else if rc =? SQLITE_BUSY then WRet (SQLITE_OK, SQLITE_CHECKPOINT_PASSIVE, O, w)
           else WRet (rc, eMode, xBusy, w)
         else WRet (rc, eMode, xBusy, w)
     else WRet (SQLITE_OK, eMode, xBusy, w)) in
  do! (rc, isChanged, w) := (if rc =? SQLITE_OK then walIndexReadHdr w false else WRet (rc, false, w)) in
  do! (rc, out, w) :=
    (if negb (rc =? SQLITE_OK) then WRet (rc, [], w)
     else
       do! (rc, w) :=
         (if negb (mxFrame (c_hdr w) =? 0) && negb (pagesize (c_hdr w) =? nBuf) then WRet (SQLITE_CORRUPT, w)
          else if negb (eMode2 =? SQLITE_CHECKPOINT_NOOP) then walCheckpoint w eMode2 xBusy2
          else WRet (rc, w)) in
       do! out :=
         (if (rc =? SQLITE_OK) || (rc =? SQLITE_BUSY)
          then do! n := op ONBackfill in WRet [mxFrame (c_hdr w); n]
          else WRet []) in
       WRet (rc, out, w)) in
  let w := if isChanged : bool then set_chdr w hdr_zero else w in
  do! w := sqlite3WalEndWriteTransaction w in
  do! w := (if c_ckptLock w
            then do! _ := op (OUnlockExclusive WAL_CKPT_LOCK 1) in WRet (set_ckptLock w false)
            else WRet w) in
  WRet (if (rc =? SQLITE_OK) && negb (eMode =? eMode2) then SQLITE_BUSY else rc, out, w).

End wal.

(** ** Connections running side by side *)

Inductive call :=
  | CBeginRead
  | CEndRead
  | CReadPage (pgno : Z)
  | CBeginWrite
  | CFrames (szPage : Z) (pList : list (Z * page)) (nTruncate : Z) (isCommit : bool) (nExtra : nat)
  | CUndo
  | CEndWrite
  | CCheckpoint (eMode : Z) (xBusy : nat) (nBuf : Z).

(** What a call returns: its code and what it outputs. *)
Definition result : Type := Z * list Z * conn.

(** What a write transaction began from, and the pages it wrote since. *)
Definition writes : Type := commit * list (Z * page).

(** [p_reads] has the pages the connection read since it began to read, or last wrote or undid frames, [p_start] the number of
    the last header when it last began to read, or its process began.  [p_txn] is what it wrote since its write
    transaction began, was undone or committed, as long as every call succeeded; [p_last] what was committed,
    until the next call but for reads. *)
Record proc := mkProc {
  p_conn : conn;
  p_run : option (call * wprog result);
  p_reads : list (Z * page);
  p_start : Z;
  p_txn : option writes;
  p_last : option writes
}.

Definition proc0 (st : Z) : proc := mkProc conn0 None [] st None None.

Record sys := mkSys { sy_shm : shm; sy_proc : nat -> proc }.

(** A commit that makes the database larger writes the pages it adds. *)
Definition writes_growth (s : shm) (w : conn) (pList : list (Z * page)) (nTruncate : Z) : bool :=
  let mx := mxFrame (e_hdr (s_cur s)) in
  forallb (fun q => existsb (fun x => x.1 =? q) pList ||
                    existsb (fun i => s_pgno s i =? q) (rangeZ (mx + 1) (mxFrame (c_hdr w) - mx)))
    (rangeZ (nPage (e_hdr (s_cur s)) + 1) (nTruncate - nPage (e_hdr (s_cur s)))).

(** When a routine is called: as its assertions say; the pages of one call are distinct; a
    transaction that was not committed is undone before it ends. *)
Definition can_call (s : shm) (w : conn) (c : call) : bool :=
  match c with
  | CBeginRead => (c_readLock w <? 0) && (c_writeLock w =? 0)
  | CEndRead => (c_readLock w <? 0) || (c_writeLock w =? 0)
  | CReadPage q => (0 <=? c_readLock w) && (1 <=? q)
  | CBeginWrite => (0 <=? c_readLock w) && (c_writeLock w =? 0)
  | CFrames _ pList nTruncate isCommit _ =>
      (0 <=? c_readLock w) && negb (c_writeLock w =? 0) && negb (bool_decide (pList = [])) &&
      forallb (fun x => (0 <? x.1) && (x.1 <? 0xffffffff)) pList && bool_decide (NoDup pList.*1) &&
      (negb isCommit || ((0 <? nTruncate) && writes_growth s w pList nTruncate))
  | CUndo => negb (c_writeLock w =? 0)
  | CEndWrite => negb (c_writeLock w =? 0) && hdr_eqb (c_hdr w) (s_h0 s)
  | CCheckpoint _ _ _ => (c_readLock w <? 0) && (c_writeLock w =? 0)
  end.

Section system.
Context (iter : (Z -> Z) -> Z -> Z -> list (Z * Z)).
Context (procs : list nat).
Context (walIndexRecover : conn -> wprog (Z * conn)).

Definition call_prog (c : call) (w : conn) : wprog result :=
  match c with
  | CBeginRead => do! (rc, changed, w) := walBeginReadTransaction walIndexRecover w false in WRet (rc, [Z.b2z changed], w)
  | CEndRead => do! w := sqlite3WalEndReadTransaction w in WRet (SQLITE_OK, [], w)
  | CReadPage q => do! (rc, d) := readDbPage w q in WRet (rc, d, w)
  | CBeginWrite => do! (rc, w) := sqlite3WalBeginWriteTransaction w in WRet (rc, [], w)
  | CFrames szPage pList nTruncate isCommit nExtra =>
      do! (rc, w) := sqlite3WalFrames walIndexRecover w szPage pList nTruncate isCommit nExtra in WRet (rc, [], w)
  | CUndo => do! w := sqlite3WalUndo w in WRet (SQLITE_OK, [], w)
  | CEndWrite => do! w := sqlite3WalEndWriteTransaction w in WRet (SQLITE_OK, [], w)
  | CCheckpoint eMode xBusy nBuf => sqlite3WalCheckpoint walIndexRecover w eMode xBusy nBuf
  end.

(** The call begins. *)
Definition start (s : shm) (pr : proc) (c : call) : proc :=
  mkProc (p_conn pr) (Some (c, call_prog c (p_conn pr)))
    (match c with CReadPage _ | CBeginWrite => p_reads pr | _ => [] end)
    (match c with CBeginRead => e_no (s_cur s) | _ => p_start pr end)
    (p_txn pr) (match c with CReadPage _ => p_last pr | _ => None end).

(** What the connection wrote: since its transaction began, and committed with this call. *)
Definition wrote (s : shm) (pr : proc) (c : call) (rc : Z) : option writes * option writes :=
  match c with
  | CReadPage _ => (p_txn pr, p_last pr)
  | CBeginWrite => (if rc =? SQLITE_OK then Some (s_cur s, []) else None, None)
  | CUndo => (Some (s_cur s, []), None)
  | CFrames _ pList _ isCommit _ =>
      if negb (rc =? SQLITE_OK) then (None, None)
      else
        let done := match p_txn pr with Some (b, l) => Some (b, l ++ pList) | None => None end in
        if isCommit : bool then (Some (s_cur s, []), done) else (done, None)
  | _ => (None, None)
  end.

(** It returns. *)
Definition finish (s : shm) (pr : proc) (c : call) (r : result) : proc :=
  let '(rc, d, w) := r in
  mkProc w None (match c with
                 | CReadPage q => if rc =? SQLITE_OK then (q, d) :: p_reads pr else p_reads pr
                 | _ => p_reads pr
                 end) (p_start pr) (wrote s pr c rc).1 (wrote s pr c rc).2.

(** A process may be killed except, while it has the write lock, between the first store of a
    new header and the last store of starting the log over. *)
Definition may_die (s : shm) (p : nat) : bool :=
  match s_lock s p WAL_WRITE_LOCK with
  | Exclusive => hdr_eqb (s_h0 s) (s_h1 s) && (s_nBackfill s =? s_eff s)
  | _ => true
  end.

Definition die (s : shm) (p : nat) : shm := set_lock s (updn (s_lock s) p (fun _ => NotHeld)).

Inductive event :=
  | EStart (p : nat) (c : call)
  | EOp (p : nat) (ch : choice)
  | EDie (p : nat).

(** [guarded]: processes die where they may. *)
Definition do_event (guarded : bool) (y : sys) (ev : event) : option sys :=
  match ev with
  | EStart p c =>
      let pr := sy_proc y p in
      match p_run pr with
      | None =>
          if existsb (Nat.eqb p) procs && can_call (sy_shm y) (p_conn pr) c
          then Some (mkSys (sy_shm y) (updn (sy_proc y) p (start (sy_shm y) pr c)))
          else None
      | Some _ => None
      end
  | EOp p ch =>
      let pr := sy_proc y p in
      match p_run pr with
      | None => None
      | Some (c, WRet r) => Some (mkSys (sy_shm y) (updn (sy_proc y) p (finish (sy_shm y) pr c r)))
      | Some (c, WOp o k) =>
          match op_do iter procs p (sy_shm y) o ch with
          | None => None
          | Some (r, s) => Some (mkSys s (updn (sy_proc y) p (mkProc (p_conn pr) (Some (c, k r)) (p_reads pr) (p_start pr) (p_txn pr) (p_last pr))))
          end
      end
  | EDie p =>
      if negb guarded || may_die (sy_shm y) p
      then Some (mkSys (die (sy_shm y) p) (updn (sy_proc y) p (proc0 (e_no (s_cur (sy_shm y))))))
      else None
  end.

Fixpoint run_events (guarded : bool) (y : sys) (l : list event) : option sys :=
  match l with
  | [] => Some y
  | ev :: l => match do_event guarded y ev with Some y => run_events guarded y l | None => None end
  end.

(** [y'] can be reached from [y]. *)
Inductive reaches (y : sys) : sys -> Prop :=
  | reaches_refl : reaches y y
  | reaches_step y1 y2 ev : reaches y y1 -> do_event true y1 ev = Some y2 -> reaches y y2.

End system.

(** The shared memory of a log without frames, over the database [db] of [n] pages. *)
Definition shm0 (h : WalIndexHdr) (db : Z -> page) : shm :=
  mkShm h h 0 (fun _ => 0) 0 (fun _ => 0) (fun _ => []) db (fun _ _ => NotHeld) (mkCommit h db 0 0) [] 0.

Definition sys0 (h : WalIndexHdr) (db : Z -> page) : sys := mkSys (shm0 h db) (fun _ => proc0 0).

(** [p] calls [c] and runs it to its end, with nothing failing and no one in between. *)
Definition whole (p : nat) (n : nat) : list event := repeat (EOp p (mkChoice 0 [])) n.

(** Two connections: 0 reads page 1, 1 commits a new page 1, 0 reads it again, then anew. *)
Definition iter_none : (Z -> Z) -> Z -> Z -> list (Z * Z) := fun _ _ _ => [].
Definition no_recovery (w : conn) : wprog (Z * conn) := WRet (SQLITE_OK, w).
Definition h_start : WalIndexHdr := mkHdr 0 0 1024 0 2 (0, 0) [0; 0; 0; 0; 0; 0; 0; 1].

(** Events until the call of [p] is over, at most [fuel]. *)
Fixpoint run_call (iter : (Z -> Z) -> Z -> Z -> list (Z * Z)) (procs : list nat) (p : nat) (fuel : nat) (y : sys) : option sys :=
  match fuel with
  | O => None
  | S fuel =>
      match do_event iter procs no_recovery true y (EOp p (mkChoice 0 [])) with
      | None => None
      | Some y => match p_run (sy_proc y p) with None => Some y | Some _ => run_call iter procs p fuel y end
      end
  end.

Definition do_call (iter : (Z -> Z) -> Z -> Z -> list (Z * Z)) (procs : list nat) (y : option sys) (p : nat) (c : call) : option sys :=
  match y with
  | None => None
  | Some y =>
      match do_event iter procs no_recovery true y (EStart p c) with
      | None => None
      | Some y => run_call iter procs p 200 y
      end
  end.

Definition demo : list (nat * call) :=
  [(0%nat, CBeginRead); (0%nat, CReadPage 1); (1%nat, CBeginRead); (1%nat, CBeginWrite); (1%nat, CFrames 1024 [(1, [11])] 2 true 0);
   (1%nat, CEndWrite); (1%nat, CEndRead); (0%nat, CReadPage 1); (0%nat, CReadPage 2)].

Definition run_calls (iter : (Z -> Z) -> Z -> Z -> list (Z * Z)) (procs : list nat) (y : sys) (l : list (nat * call)) : option sys :=
  fold_left (fun y pc => do_call iter procs y pc.1 pc.2) l (Some y).

Example demo_1 :
  option_map (fun y => (p_reads (sy_proc y 0), e_img (s_cur (sy_shm y)) 1, mxFrame (s_h0 (sy_shm y))))
    (run_calls iter_none [0; 1]%nat (sys0 h_start (fun q => [q])) demo) =
  Some ([(2, [2]); (1, [1]); (1, [1])], [11], 1).
Proof. vm_compute. reflexivity. Qed.
