(* ===== verification/WalInv.v ===== *)
(** * The invariant of the shared write-ahead log (wal.c of sqlite3.c)

    What holds of the shared memory, the locks and the files between any two operations of the
    connections of [WalShm].  What a connection knows at a point of its program is its ghost
    state: the commit its header is of, what it found before it took a lock, how far a
    checkpoint has come.  [Inv] ties the ghost states of all connections to what is shared; the
    lemmas at the end say how each operation keeps it. *)

From S2P Require Import Prelude Bitwise Varint UnixFile WalIndex WalLog WalWrite WalShm.
From stdpp Require Import options.

(** ** Frames and headers *)

(** No frame of page [q] among [lo + 1 .. hi]. *)
Definition nof (pgno : Z -> Z) (q lo hi : Z) : Prop := forall i, lo < i <= hi -> pgno i <> q.

Lemma nof_sub pgno q lo hi lo' hi' : nof pgno q lo hi -> lo <= lo' -> hi' <= hi -> nof pgno q lo' hi'.
Proof. intros H Hl Hh i Hi. apply H. lia. Qed.

Lemma nof_join pgno q lo mid hi : nof pgno q lo mid -> nof pgno q mid hi -> nof pgno q lo hi.
Proof. intros H1 H2 i Hi. destruct (Z.le_gt_cases i mid); [apply H1|apply H2]; lia. Qed.

Lemma nof_ext pgno pgno' q lo hi : (forall i, lo < i <= hi -> pgno i = pgno' i) -> nof pgno q lo hi -> nof pgno' q lo hi.
Proof. intros E H i Hi. rewrite <- E by done. by apply H. Qed.

Lemma last_in_spec pgno q lo n : 1 <= lo ->
  (last_in pgno q lo n = 0 /\ nof pgno q (lo - 1) (Z.of_nat n)) \/
  (lo <= last_in pgno q lo n <= Z.of_nat n /\ pgno (last_in pgno q lo n) = q /\ nof pgno q (last_in pgno q lo n) (Z.of_nat n)).
Proof.
  intros Hlo. induction n as [|n IH]; cbn [last_in].
  { left. split; [done|]. intros i Hi. lia. }
  destruct (Z.ltb_spec (Z.of_nat (S n)) lo) as [Hlt|Hge]; [left; split; [done|]; intros i Hi; lia|].
  destruct (Z.eqb_spec (pgno (Z.of_nat (S n))) q) as [E|E].
  - right. split_and!; [lia|lia|done|]. intros i Hi. lia.
  - destruct IH as [[-> H]|(H1 & H2 & H3)]; [left|right].
    + split; [done|]. intros i Hi. destruct (Z.eq_dec i (Z.of_nat (S n))) as [->|]; [done|]. apply H. lia.
    + split_and!; [lia|lia|done|]. intros i Hi. destruct (Z.eq_dec i (Z.of_nat (S n))) as [->|]; [done|]. apply H3. lia.
Qed.

Lemma last_in_ext pgno pgno' q lo n : 1 <= lo -> (forall i, 1 <= i <= Z.of_nat n -> pgno i = pgno' i) -> last_in pgno q lo n = last_in pgno' q lo n.
Proof.
  intros Hlo. induction n as [|n IH]; intros E; [done|]. cbn [last_in]. rewrite <- E by lia. rewrite IH; [done|]. intros i Hi. apply E. lia.
Qed.

Lemma last_in_skip pgno q lo n k : (forall i, Z.of_nat n < i <= Z.of_nat (n + k) -> pgno i <> q) -> last_in pgno q lo (n + k) = last_in pgno q lo n.
Proof.
  induction k as [|k IH]; intros H; [by rewrite Nat.add_0_r|]. rewrite Nat.add_succ_r. cbn [last_in].
  destruct (Z.ltb_spec (Z.of_nat (S (n + k))) lo) as [Hlt|Hge].
  - destruct n as [|n]; [done|]. cbn [last_in]. by rewrite (proj2 (Z.ltb_lt _ _)) by lia.
  - rewrite (proj2 (Z.eqb_neq _ _)) by (apply H; lia). apply IH. intros i Hi. apply H. lia.
Qed.

Lemma last_in_eq pgno q lo n f : 1 <= lo <= f -> f <= Z.of_nat n -> pgno f = q -> nof pgno q f (Z.of_nat n) -> last_in pgno q lo n = f.
Proof.
  intros H1 H2 Hf Hn. destruct (last_in_spec pgno q lo n ltac:(lia)) as [[_ H]|(H3 & H4 & H5)]; [by destruct (H f ltac:(lia))|].
  destruct (Z.lt_trichotomy (last_in pgno q lo n) f) as [Hlt|[|Hgt]]; [by destruct (H5 f ltac:(lia))|done|by destruct (Hn (last_in pgno q lo n) ltac:(lia))].
Qed.

Lemma hdr_eqb_eq h h' : hdr_eqb h h' = true <-> h = h'.
Proof.
  unfold hdr_eqb. split.
  - intros H. rewrite !andb_true_iff, !bool_decide_eq_true in H. destruct H as [[[[[[H1 H2] H3] H4] H5] H6] H7].
    breflect. destruct h, h'. cbn in *. congruence.
  - intros <-. rewrite !Z.eqb_refl, !bool_decide_true by done. done.
Qed.

#[export] Instance hdr_eq_dec : EqDecision WalIndexHdr.
Proof. solve_decision. Defined.

Definition hist (s : shm) : list commit := s_cur s :: s_old s.
Definition mx (e : commit) : Z := mxFrame (e_hdr e).
Definition np (e : commit) : Z := nPage (e_hdr e).

(** A header of the log that is in use. *)
Definition live (s : shm) (e : commit) : Prop := e_gen e = e_gen (s_cur s).

(** The database file alone is the database of [e]. *)
Definition all_db (s : shm) (e : commit) : Prop := forall q, 1 <= q <= np e -> s_db s q = e_img e q.

(** The headers that were published: each stands for one database, and within one log the
    frames between two of them make up the difference. *)
Record hist_ok (s : shm) : Prop := {
  h_h0 : s_h0 s = e_hdr (s_cur s);
  h_gen : forall e, e ∈ hist s -> e_gen e <= e_gen (s_cur s);
  h_no : forall e, e ∈ hist s -> e_no e <= e_no (s_cur s);
  h_mx : forall e, e ∈ hist s -> 0 <= mx e;
  h_live : forall e, e ∈ hist s -> live s e -> mx e <= mx (s_cur s);
  h_inj : forall e1 e2, e1 ∈ hist s -> e2 ∈ hist s -> e_gen e1 = e_gen e2 -> mx e1 = mx e2 -> e1 = e2;
  h_salt : forall e1 e2, e1 ∈ hist s -> e2 ∈ hist s -> aSalt (e_hdr e1) = aSalt (e_hdr e2) -> e_gen e1 = e_gen e2;
  h_pgno : forall i, 1 <= i <= mx (s_cur s) -> 0 < s_pgno s i < 0xffffffff;
  h_pair : forall e1 e2 q, e1 ∈ hist s -> e2 ∈ hist s -> live s e1 -> live s e2 -> mx e1 <= mx e2 ->
    1 <= q <= np e2 -> nof (s_pgno s) q (mx e1) (mx e2) -> q <= np e1 /\ e_img e1 q = e_img e2 q;
  h_log : forall e q f, e ∈ hist s -> live s e -> 1 <= q <= np e -> 1 <= f <= mx e -> s_pgno s f = q ->
    nof (s_pgno s) q f (mx e) -> s_frame s f = e_img e q
}.

(** The database file has what is not in the frames after [n]. *)
Definition db_up_to (s : shm) (n : Z) : Prop :=
  forall q, 1 <= q <= np (s_cur s) -> nof (s_pgno s) q n (mx (s_cur s)) -> s_db s q = e_img (s_cur s) q.

Definition db_ok (s : shm) : Prop := 0 <= s_eff s <= mx (s_cur s) /\ db_up_to s (s_eff s).

(** ** What a connection knows *)

(** The reader: [e] is the commit its header is of, [j] the read lock it has. *)
Inductive rstate :=
  | RNone
  | RHdr (e : commit)
  | RFull (e : commit)
  | RSlot (e : commit) (j : Z)
  | RMin (e : commit) (j n : Z)
  | RMark (e : commit) (j n m : Z)
  | ROpen (e : commit) (j mn : Z).

(** The frames of a write transaction: the pages that the index has for them, and the contents
    that were written, as far as they are known. *)
Record txn := mkTxn { t_pages : list Z; t_data : list page }.
Definition txn0 : txn := mkTxn [] [].

(** The content of the last of the frames of page [q], with the pages [ps] and the contents [ds]. *)
Fixpoint last_of (ps : list Z) (ds : list page) (q : Z) : option page :=
  match ps, ds with
  | p :: ps, d :: ds => match last_of ps ds q with Some x => Some x | None => if p =? q then Some d else None end
  | _, _ => None
  end.

(** The page [q] after the writes [l]. *)
Definition last_write (l : list (Z * page)) (q : Z) : option page := last_of l.*1 l.*2 q.

(** The content [d] at place [k] of the known contents. *)
Definition put_data (ds : list page) (k : nat) (d : page) : list page := take k ds ++ d :: drop (S k) ds.

(** The frames with the pages [ps] have what the writes [l] wrote. *)
Definition shows (ps : list Z) (ds : list page) (l : list (Z * page)) : Prop :=
  (length ps <= length ds)%nat /\ forall q, last_of ps ds q = last_write l q.

Lemma last_of_none ps ds q : q ∉ ps -> last_of ps ds q = None.
Proof.
  revert ds. induction ps as [|x ps IH]; intros [|d ds] H; cbn [last_of]; [done..|]. apply not_elem_of_cons in H as [H1 H2].
  rewrite IH by done. by rewrite (proj2 (Z.eqb_neq _ _)) by congruence.
Qed.

Lemma last_of_some ps ds q k d : ps !! k = Some q -> ds !! k = Some d -> (forall j, (k < j)%nat -> ps !! j <> Some q) -> last_of ps ds q = Some d.
Proof.
  revert ds k. induction ps as [|x ps IH]; intros [|d0 ds] k Hp Hd Hn; cbn [last_of]; [done..|]. destruct k as [|k].
  - cbn in Hp, Hd. injection Hp as ->. injection Hd as ->. rewrite last_of_none, Z.eqb_refl; [done|]. intros Hin.
    apply list_elem_of_lookup in Hin as [j Hj]. apply (Hn (S j)); [lia|done].
  - rewrite (IH ds k); [done..|]. intros j Hj. apply (Hn (S j)). lia.
Qed.

(** The last place of a page. *)
Lemma last_place (ps : list Z) q : q ∈ ps -> exists k, ps !! k = Some q /\ forall j, (k < j)%nat -> ps !! j <> Some q.
Proof.
  induction ps as [|x ps IH]; intros H; [by apply elem_of_nil in H|]. destruct (decide (q ∈ ps)) as [Hin|Hn].
  - destruct (IH Hin) as (k & Hk & Hl). exists (S k). split; [done|]. intros [|j] Hj; [lia|]. apply Hl. lia.
  - apply elem_of_cons in H as [->|]; [|done]. exists 0%nat. split; [done|]. intros [|j] Hj; [lia|]. cbn. intros E. apply Hn.
    by eapply list_elem_of_lookup_2.
Qed.

Lemma last_of_ext ps ds ds' q : (length ps <= length ds)%nat -> (length ps <= length ds')%nat ->
  (forall k, ps !! k = Some q -> ds !! k = ds' !! k) -> last_of ps ds q = last_of ps ds' q.
Proof.
  intros Hl Hl' H. destruct (decide (q ∈ ps)) as [Hin|]; [|by rewrite !last_of_none]. destruct (last_place ps q Hin) as (k & Hk & Hn).
  destruct (lookup_lt_is_Some_2 ds k) as [d Hd]; [apply lookup_lt_Some in Hk; lia|].
  rewrite (last_of_some ps ds q k d), (last_of_some ps ds' q k d); [done|done|by rewrite <- H|done..].
Qed.

Lemma put_data_lookup ds k d j : (k <= length ds)%nat -> put_data ds k d !! j = if Nat.eqb j k then Some d else ds !! j.
Proof.
  intros Hk. unfold put_data. assert (length (take k ds) = k) as Ht by (rewrite length_take; lia). destruct (Nat.eqb_spec j k) as [->|Hne].
  - rewrite lookup_app_r by lia. by rewrite Ht, Nat.sub_diag.
  - destruct (Nat.lt_ge_cases j k) as [Hlt|Hge].
    + rewrite lookup_app_l by lia. by rewrite lookup_take_lt.
    + rewrite lookup_app_r by lia. rewrite Ht. destruct (j - k)%nat as [|i] eqn:E; [lia|].
      change ((d :: drop (S k) ds) !! S i) with (drop (S k) ds !! i). rewrite lookup_drop. f_equal. lia.
Qed.

Lemma length_put_data ds k d : (k <= length ds)%nat -> length (put_data ds k d) = Nat.max (length ds) (S k).
Proof. intros Hk. unfold put_data. rewrite length_app, length_take. cbn [length]. rewrite length_drop. lia. Qed.

Lemma put_data_longer ds k d : (k <= length ds)%nat -> (length ds <= length (put_data ds k d))%nat.
Proof. intros Hk. rewrite length_put_data by done. lia. Qed.

Lemma last_write_snoc l q d q' : last_write (l ++ [(q, d)]) q' = if q =? q' then Some d else last_write l q'.
Proof.
  unfold last_write. rewrite !fmap_app. cbn [fmap list_fmap fst snd]. induction l as [|[q0 d0] l IH]; cbn [fmap list_fmap app last_of fst snd].
  - by destruct (q =? q').
  - rewrite IH. by destruct (q =? q').
Qed.

Lemma shows_nil : shows [] [] [].
Proof. by split. Qed.

(** The contents of no frames do not matter. *)
Lemma shows_none ds ds' l : shows [] ds l -> shows [] ds' l.
Proof. intros [_ H]. split; [cbn; lia|]. intros q. rewrite <- H. by destruct ds, ds'. Qed.

Lemma last_write_app l l' m q : (forall q, last_write l q = last_write l' q) -> last_write (l ++ m) q = last_write (l' ++ m) q.
Proof.
  intros H. induction m as [|[q0 d0] m IH] using rev_ind; [by rewrite !app_nil_r|]. rewrite !app_assoc, !last_write_snoc. by destruct (q0 =? q).
Qed.

(** Some writes show the frames. *)
Lemma shows_zip ps ds : (length ps <= length ds)%nat -> shows ps ds (zip ps ds).
Proof.
  intros Hl. split; [done|]. intros q. unfold last_write. rewrite fst_zip by done. revert ds Hl. induction ps as [|x ps IH]; intros [|d ds] Hl; cbn in Hl |- *; try lia; [done..|].
  rewrite (IH ds) by lia. done.
Qed.

(** A frame is appended. *)
Lemma shows_append ps ds l q d : shows ps ds l -> shows (ps ++ [q]) (put_data ds (length ps) d) (l ++ [(q, d)]).
Proof.
  intros [Hl H]. split; [rewrite length_app, length_put_data by done; cbn [length]; lia|]. intros q'. rewrite last_write_snoc.
  destruct (Z.eqb_spec q q') as [<-|Hne].
  - apply (last_of_some _ _ q (length ps)).
    + rewrite lookup_app_r by done. by rewrite Nat.sub_diag.
    + rewrite put_data_lookup by done. by rewrite Nat.eqb_refl.
    + intros j Hj. rewrite lookup_app_r by lia. destruct (j - length ps)%nat as [|i] eqn:E; [lia|done].
  - rewrite <- H. destruct (decide (q' ∈ ps)) as [Hin|Hn].
    2: { rewrite !last_of_none; [done|done|]. intros Hin. apply elem_of_app in Hin as [|Hin]; [done|]. by apply list_elem_of_singleton in Hin. }
    destruct (last_place ps q' Hin) as (k & Hk & Hlast). pose proof (lookup_lt_Some _ _ _ Hk) as Hlt.
    destruct (lookup_lt_is_Some_2 ds k) as [x Hx]; [lia|]. rewrite (last_of_some ps ds q' k x), (last_of_some _ _ q' k x); [done|..].
    + by rewrite lookup_app_l.
    + rewrite put_data_lookup by done. by rewrite (proj2 (Nat.eqb_neq _ _)) by lia.
    + intros j Hj. destruct (Nat.lt_ge_cases j (length ps)); [rewrite lookup_app_l by done; by apply Hlast|].
      rewrite lookup_app_r by done. destruct (j - length ps)%nat as [|[|i]]; cbn; congruence.
    + done.
    + done.
    + done.
Qed.

(** A frame of a page that has a later one written again changes nothing; the last one is the page. *)
Lemma shows_rewrite ps ds l k q d : shows ps ds l -> ps !! k = Some q -> (forall j, (k < j)%nat -> ps !! j <> Some q) ->
  shows ps (put_data ds k d) (l ++ [(q, d)]).
Proof.
  intros [Hl H] Hk Hn. pose proof (lookup_lt_Some _ _ _ Hk) as Hlt. split; [rewrite length_put_data by lia; lia|]. intros q'. rewrite last_write_snoc.
  destruct (Z.eqb_spec q q') as [<-|Hne].
  - apply (last_of_some _ _ q k); [done| |done]. rewrite put_data_lookup by lia. by rewrite Nat.eqb_refl.
  - rewrite <- H. symmetry. apply last_of_ext; [done|rewrite length_put_data by lia; lia|]. intros j Hj. rewrite put_data_lookup by lia.
    destruct (Nat.eqb_spec j k) as [->|]; [congruence|done].
Qed.

(** Another copy of the last write. *)
Lemma shows_copy ps ds l q d : shows ps ds l -> last_write l q = Some d -> shows (ps ++ [q]) (put_data ds (length ps) d) l.
Proof.
  intros Hs Hw. destruct (shows_append ps ds l q d Hs) as [H1 H2]. split; [done|]. intros q'. rewrite H2, last_write_snoc.
  by destruct (Z.eqb_spec q q') as [<-|].
Qed.

(** The holder of the write lock, with its frames after those of [e]; [WPub] has stored copy [1] of a new header, [WWin] copy [0] of
    the header of a log without frames, but not yet [nBackfill]. *)
Inductive wstate :=
  | WNone
  | WTxn (e : commit) (t : txn)
  | WPub (e : commit) (h : WalIndexHdr) (t : txn)
  | WWin (e : commit).

(** A checkpoint up to frame [sf]: the marks below [i] were looked at; [nBackfill] was [n]; the
    iterator returns [l]; the frames [fin] were copied, and [b] is a frame with what was read of it. *)
Inductive cstate :=
  | CNone
  | CHdr (e : commit)
  | CScan (e : commit) (sf i : Z)
  | CMark (e : commit) (sf i y : Z)
  | CPrep (e : commit) (sf n n2 : Z) (l : option (list (Z * Z)))
  | CCopy (e : commit) (sf n : Z) (l fin : list (Z * Z)) (b : option (Z * page)).

(** The locks it has, and the frame it found for a page. *)
Record ghost := mkGhost {
  gl : Z -> lmode;
  gr : rstate;
  gw : wstate;
  gc : cstate;
  gq : option (Z * Z);
  gs : Z
}.

(** A connection reads under lock [j] the log up to frame [x]. *)
Definition opens (G : nat -> ghost) (j x : Z) : Prop := exists p e mn, gr (G p) = ROpen e j mn /\ x = mx e.

(** What the database file has for a reader: the pages without a frame it would look at. *)
Definition reads_db (s : shm) (e : commit) (mn : Z) : Prop :=
  forall q, 1 <= q <= np e -> nof (s_pgno s) q (mn - 1) (mx e) -> s_db s q = e_img e q.

Definition known (s : shm) (g : ghost) (e : commit) : Prop := e ∈ hist s /\ gs g <= e_no e.
Definition on_mark (g : ghost) (j : Z) : Prop := 1 <= j < WAL_NREADER /\ gl g (WAL_READ_LOCK j) = Shared.

Definition rd_ok (s : shm) (g : ghost) : Prop :=
  match gr g with
  | RNone => gs g <= e_no (s_cur s)
  | RHdr e => known s g e
  | RFull e => known s g e /\ (e = s_cur s -> s_eff s = mx e)
  | RSlot e j => known s g e /\ on_mark g j
  | RMin e j n => known s g e /\ on_mark g j /\ 0 <= n <= s_eff s
  | RMark e j n m => known s g e /\ on_mark g j /\ 0 <= n <= s_eff s /\ s_mark s j = m
  | ROpen e j mn => known s g e /\
      ((j = 0 /\ gl g (WAL_READ_LOCK 0) = Shared /\ all_db s e) \/
       (on_mark g j /\ live s e /\ 1 <= mn <= s_eff s + 1 /\ s_mark s j <= mx e /\ reads_db s e mn))
  end.

(** All read marks are locked against readers of the log, and checkpoints are kept off. *)
Definition exclusive (g : ghost) : Prop :=
  (forall j, 1 <= j < WAL_NREADER -> gl g (WAL_READ_LOCK j) = Exclusive) /\
  (gl g (WAL_READ_LOCK 0) = Shared \/ gl g WAL_CKPT_LOCK = Exclusive).

(** [h] commits the frames after the last header. *)
Definition commits (s : shm) (h : WalIndexHdr) : Prop :=
  mx (s_cur s) < mxFrame h /\
  (forall i, mx (s_cur s) < i <= mxFrame h -> 0 < s_pgno s i < 0xffffffff) /\
  (forall q, np (s_cur s) < q <= nPage h -> ~ nof (s_pgno s) q (mx (s_cur s)) (mxFrame h)).

(** The frames after [e]. *)
Definition own_frames (s : shm) (e : commit) (t : txn) : Prop :=
  (forall k q, t_pages t !! k = Some q -> s_pgno s (mx e + 1 + Z.of_nat k) = q) /\
  (forall k d, t_data t !! k = Some d -> s_frame s (mx e + 1 + Z.of_nat k) = d).

(** The database for the connection: its own frames on top of the commit. *)
Definition sees (e : commit) (t : txn) (q : Z) : page := default (e_img e q) (last_of (t_pages t) (t_data t) q).

Lemma own_frame_at s e t i : own_frames s e t -> mx e < i <= mx e + zlen (t_pages t) ->
  exists q, t_pages t !! Z.to_nat (i - mx e - 1) = Some q /\ s_pgno s i = q.
Proof.
  intros [Ho _] Hi. destruct (lookup_lt_is_Some_2 (t_pages t) (Z.to_nat (i - mx e - 1))) as [q Hq]; [unfold zlen in *; lia|].
  exists q. split; [done|]. rewrite <- (Ho _ _ Hq). f_equal. lia.
Qed.

Lemma own_frames_0 s e : own_frames s e txn0.
Proof. by split. Qed.

(** The frames of its write transaction. *)
Definition gtxn (g : ghost) : txn := match gw g with WTxn _ t => t | _ => txn0 end.

Definition wr_ok (s : shm) (g : ghost) : Prop :=
  match gw g with
  | WNone => True
  | WTxn e t => e = s_cur s /\ gl g WAL_WRITE_LOCK = Exclusive /\ own_frames s e t
  | WPub e h t => e = s_cur s /\ gl g WAL_WRITE_LOCK = Exclusive /\ s_h1 s = h /\ own_frames s e t /\
      (commits s h \/ (mxFrame h = 0 /\ nPage h = np e /\ all_db s e /\ exclusive g))
  | WWin e => e = s_cur s /\ gl g WAL_WRITE_LOCK = Exclusive /\ mx e = 0 /\ s_eff s = 0 /\ exclusive g
  end.

Definition iter_ok (s : shm) (e : commit) (n : Z) (l : list (Z * Z)) : Prop :=
  (forall q f, (q, f) ∈ l -> 1 <= f <= mx e /\ s_pgno s f = q /\ nof (s_pgno s) q f (mx e)) /\
  (forall i, n < i <= mx e -> exists f, i <= f /\ (s_pgno s i, f) ∈ l).

(** Readers under the locks below [i] look at frames up to [sf] at least. *)
Definition clear_of (G : nat -> ghost) (sf i : Z) : Prop := forall j x, 1 <= j < i -> opens G j x -> sf <= x.

Definition ckpt_of (s : shm) (g : ghost) (e : commit) (sf : Z) : Prop :=
  e ∈ hist s /\ gl g WAL_CKPT_LOCK = Exclusive /\ sf <= mx e.

Definition ck_ok (s : shm) (G : nat -> ghost) (g : ghost) : Prop :=
  match gc g with
  | CNone => True
  | CHdr e => ckpt_of s g e 0
  | CScan e sf i => ckpt_of s g e sf /\ (live s e -> clear_of G sf i)
  | CMark e sf i y => ckpt_of s g e sf /\ 1 <= i /\ (live s e -> clear_of G sf i /\ forall x, opens G i x -> y <= x \/ sf <= x)
  | CPrep e sf n n2 l => ckpt_of s g e sf /\
      (live s e -> clear_of G sf WAL_NREADER /\ s_eff s = n /\ n < sf /\ n2 = n /\ forall l', l = Some l' -> iter_ok s e n l')
  | CCopy e sf n l fin b => ckpt_of s g e sf /\ gl g (WAL_READ_LOCK 0) = Exclusive /\ live s e /\ clear_of G sf WAL_NREADER /\
      s_eff s = n /\ n < sf /\ iter_ok s e n l /\ (forall f d, b = Some (f, d) -> 1 <= f <= mx e -> s_frame s f = d) /\
      (forall q f, (q, f) ∈ fin -> (q, f) ∈ l /\ (n < f <= sf -> q <= np e -> s_db s q = s_frame s f))
  end.

Definition q_ok (s : shm) (g : ghost) : Prop :=
  match gr g, gq g with
  | ROpen e j mn, Some (q, f) => 1 <= j -> f = last_in (s_pgno s) q mn (Z.to_nat (mx e))
  | _, _ => True
  end.

Definition local_ok (s : shm) (G : nat -> ghost) (g : ghost) : Prop := rd_ok s g /\ wr_ok s g /\ ck_ok s G g /\ q_ok s g.

Definition is_pub (g : ghost) : Prop := exists e h t, gw g = WPub e h t.
Definition is_win (g : ghost) : Prop := exists e, gw g = WWin e.

(** The locks that are held exclude each other. *)
Definition locks_exclude (l : nat -> Z -> lmode) : Prop :=
  forall p q i, p <> q -> l p i = Exclusive -> l q i = NotHeld.

Section inv.
Context (procs : list nat).

Record Inv (s : shm) (G : nat -> ghost) : Prop := {
  i_hist : hist_ok s;
  i_db : db_ok s;
  i_locks : forall p i, s_lock s p i = gl (G p) i;
  i_excl : locks_exclude (s_lock s);
  i_procs : forall p i, p ∉ procs -> s_lock s p i = NotHeld;
  i_h1 : s_h1 s = s_h0 s \/ exists p, is_pub (G p);
  i_nb : 0 <= s_nBackfill s /\ (s_nBackfill s = s_eff s \/ exists p, is_win (G p));
  i_local : forall p, local_ok s G (G p)
}.

(** *** What follows at once *)

Lemma i_rd s G p : Inv s G -> rd_ok s (G p).
Proof using. intros H. apply (i_local _ _ H p). Qed.
Lemma i_wr s G p : Inv s G -> wr_ok s (G p).
Proof using. intros H. apply (i_local _ _ H p). Qed.
Lemma i_ck s G p : Inv s G -> ck_ok s G (G p).
Proof using. intros H. apply (i_local _ _ H p). Qed.
Lemma i_q s G p : Inv s G -> q_ok s (G p).
Proof using. intros H. apply (i_local _ _ H p). Qed.

(** A lock held exclusively is held by no other. *)
Lemma excl_other s G p q i m : Inv s G -> gl (G p) i = Exclusive -> gl (G q) i = m -> m <> NotHeld -> q = p.
Proof using.
  intros HI Hp Hq Hm. destruct (decide (q = p)) as [|Hne]; [done|]. exfalso. apply Hm. rewrite <- Hq, <- (i_locks _ _ HI).
  apply (i_excl _ _ HI p q i); [by apply not_eq_sym|]. by rewrite (i_locks _ _ HI).
Qed.

Lemma cur_in s : s_cur s ∈ hist s.
Proof using. apply elem_of_cons. by left. Qed.

(** Headers are those of one commit. *)
Lemma hdr_unique s e1 e2 : hist_ok s -> e1 ∈ hist s -> e2 ∈ hist s -> e_hdr e1 = e_hdr e2 -> e1 = e2.
Proof using.
  intros H H1 H2 E. apply (h_inj _ H); [done|done|apply (h_salt _ H); congruence|unfold mx; congruence].
Qed.

(** The holder of the write lock that is not storing a header finds both copies the same. *)
Lemma copies_agree s G p : Inv s G -> gl (G p) WAL_WRITE_LOCK = Exclusive -> ~ is_pub (G p) -> s_h1 s = s_h0 s.
Proof using.
  intros HI Hp Hn. destruct (i_h1 _ _ HI) as [|[q Hq]]; [done|]. exfalso. destruct Hq as (e & h & t & Hw).
  pose proof (i_wr _ _ q HI) as Hwr. unfold wr_ok in Hwr. rewrite Hw in Hwr. destruct Hwr as (_ & Hl & _).
  assert (q = p) as -> by by apply (excl_other s G p q WAL_WRITE_LOCK Exclusive). apply Hn. by exists e, h, t.
Qed.

(** While the log is started over it has no frames. *)
Lemma nBackfill_eff s G : Inv s G -> 0 < mx (s_cur s) -> s_nBackfill s = s_eff s.
Proof using.
  intros HI Hc. destruct (i_nb _ _ HI) as [_ [|[q [e Hq]]]]; [done|].
  pose proof (i_wr _ _ q HI) as Hwr. unfold wr_ok in Hwr. rewrite Hq in Hwr. destruct Hwr as (-> & _ & Hz & _). lia.
Qed.

Lemma nBackfill_slot s G p j : Inv s G -> on_mark (G p) j -> s_nBackfill s = s_eff s.
Proof using.
  intros HI [Hj Hl]. destruct (i_nb _ _ HI) as [_ [|[q [e Hq]]]]; [done|]. exfalso.
  pose proof (i_wr _ _ q HI) as Hwr. unfold wr_ok in Hwr. rewrite Hq in Hwr. destruct Hwr as (_ & _ & _ & _ & He & _).
  assert (p = q) as -> by by apply (excl_other s G q p (WAL_READ_LOCK j) Shared); [|apply He|..]. rewrite He in Hl by done. done.
Qed.

(** *** Changing what one connection knows *)

Lemma updn_same {A} (f : nat -> A) p x : updn f p x p = x.
Proof using. unfold updn. by rewrite Nat.eqb_refl. Qed.

Lemma updn_other {A} (f : nat -> A) p q x : q <> p -> updn f p x q = f q.
Proof using. unfold updn. intros H. by rewrite (proj2 (Nat.eqb_neq q p) H). Qed.

(** A reader that is new looks at the log up to its end. *)
Definition opens_more (s : shm) (G G' : nat -> ghost) : Prop :=
  forall j x, 1 <= j -> opens G' j x -> opens G j x \/ mx (s_cur s) <= x.

Lemma clear_of_more s G G' e sf i : hist_ok s -> opens_more s G G' -> e ∈ hist s -> live s e -> sf <= mx e ->
  clear_of G sf i -> clear_of G' sf i.
Proof using.
  intros Hh Hm He Hl Hs Hc j x Hj Ho. destruct (Hm j x ltac:(lia) Ho) as [|]; [by apply (Hc j)|]. pose proof (h_live _ Hh e He Hl). lia.
Qed.

Lemma ck_ok_more s G G' g : hist_ok s -> opens_more s G G' -> ck_ok s G g -> ck_ok s G' g.
Proof using.
  intros Hh Hm. unfold ck_ok. destruct (gc g) as [|e|e sf i|e sf i y|e sf n n2 l|e sf n l fin b]; try done.
  - intros [Hc H]. split; [done|]. intros Hl. destruct Hc as (H1 & H2 & H3). apply (clear_of_more s G G' e); auto.
  - intros (Hc & Hi & H). split; [done|]. split; [done|]. intros Hl. destruct (H Hl) as [Hcl Hy]. destruct Hc as (H1 & H2 & H3). split.
    + apply (clear_of_more s G G' e); auto.
    + intros x Hx. destruct (Hm i x Hi Hx) as [|Hx']; [by apply Hy|]. pose proof (h_live _ Hh e H1 Hl). lia.
  - intros [Hc H]. split; [done|]. intros Hl. destruct (H Hl) as [Hcl Hy]. destruct Hc as (H1 & H2 & H3).
    split; [|done]. apply (clear_of_more s G G' e); auto.
  - intros (Hc & H0 & Hl & Hcl & H). destruct Hc as (H1 & H2 & H3). split_and!; try done; try apply H.
    apply (clear_of_more s G G' e); auto.
Qed.

Lemma opens_updn s G p g' :
  (forall e j mn, gr g' = ROpen e j mn -> 1 <= j -> opens G j (mx e) \/ mx (s_cur s) <= mx e) -> opens_more s G (updn G p g').
Proof using.
  intros H j x Hj (q & e & mn & Hq & ->). destruct (decide (q = p)) as [->|Hne].
  - rewrite updn_same in Hq. by apply (H e j mn).
  - rewrite updn_other in Hq by done. left. by exists q, e, mn.
Qed.

(** Only locks change, those of [p]. *)
Lemma step_local s G p g' l : Inv s G ->
  (forall q i, l q i = gl (updn G p g' q) i) -> locks_exclude l -> (forall q i, q ∉ procs -> l q i = NotHeld) ->
  rd_ok s g' -> wr_ok s g' -> ck_ok s G g' -> q_ok s g' ->
  (forall e j mn, gr g' = ROpen e j mn -> 1 <= j -> opens G j (mx e) \/ mx (s_cur s) <= mx e) ->
  (is_pub (G p) -> s_h1 s = s_h0 s \/ is_pub g') -> (is_win (G p) -> s_nBackfill s = s_eff s \/ is_win g') ->
  Inv (set_lock s l) (updn G p g').
Proof using.
  intros HI Hl Hx Hp H1 H2 H3 H4 Ho Hpub Hwin. pose proof (opens_updn s G p g' Ho) as Hm. split.
  - destruct (i_hist _ _ HI). by split.
  - exact (i_db _ _ HI).
  - exact Hl.
  - exact Hx.
  - exact Hp.
  - destruct (i_h1 _ _ HI) as [|[q Hq]]; [by left|]. destruct (decide (q = p)) as [->|Hne].
    + destruct (Hpub Hq) as [|Hg]; [by left|]. right. exists p. by rewrite updn_same.
    + right. exists q. by rewrite updn_other.
  - destruct (i_nb _ _ HI) as [Hn [|[q Hq]]]; (split; [done|]); [by left|]. destruct (decide (q = p)) as [->|Hne].
    + destruct (Hwin Hq) as [|Hg]; [by left|]. right. exists p. by rewrite updn_same.
    + right. exists q. by rewrite updn_other.
  - intros q. destruct (decide (q = p)) as [->|Hne].
    + rewrite updn_same. split; [done|]. split; [done|]. split; [|done]. exact (ck_ok_more s G _ g' (i_hist _ _ HI) Hm H3).
    + rewrite updn_other by done. destruct (i_local _ _ HI q) as (L1 & L2 & L3 & L4). split; [done|]. split; [done|]. split; [|done].
      exact (ck_ok_more s G _ (G q) (i_hist _ _ HI) Hm L3).
Qed.

Lemma set_lock_same s : set_lock s (s_lock s) = s.
Proof using. by destruct s. Qed.

(** Nothing shared changes. *)
Lemma step_ghost s G p g' : Inv s G -> (forall i, gl g' i = gl (G p) i) ->
  rd_ok s g' -> wr_ok s g' -> ck_ok s G g' -> q_ok s g' ->
  (forall e j mn, gr g' = ROpen e j mn -> 1 <= j -> opens G j (mx e) \/ mx (s_cur s) <= mx e) ->
  (is_pub (G p) -> s_h1 s = s_h0 s \/ is_pub g') -> (is_win (G p) -> s_nBackfill s = s_eff s \/ is_win g') ->
  Inv s (updn G p g').
Proof using.
  intros HI Hl H1 H2 H3 H4 Ho Hpub Hwin. rewrite <- (set_lock_same s). apply step_local; try done.
  - intros q i. destruct (decide (q = p)) as [->|Hne]; [by rewrite updn_same, Hl, (i_locks _ _ HI)|].
    rewrite updn_other by done. apply (i_locks _ _ HI).
  - apply (i_excl _ _ HI).
  - intros q i. apply (i_procs _ _ HI).
Qed.

(** *** Locks *)

Definition lset (l : Z -> lmode) (i n : Z) (m : lmode) : Z -> lmode := fun j => if in_range i n j then m else l j.

Lemma in_rangeZ i n j : in_range i n j = true <-> j ∈ rangeZ i n.
Proof using.
  unfold in_range, rangeZ. rewrite andb_true_iff, Z.leb_le, Z.ltb_lt. split.
  - intros [H1 H2]. apply list_elem_of_In, in_map_iff. exists (Z.to_nat (j - i)). split; [lia|]. apply in_seq. lia.
  - intros H. apply list_elem_of_In, in_map_iff in H as (k & <- & Hk). apply in_seq in Hk. lia.
Qed.

(** What the lock request found. *)
Lemma can_lock_others s G p m i q : Inv s G -> can_lock procs s p m i = true -> m <> NotHeld -> q <> p ->
  match m with Exclusive => gl (G q) i = NotHeld | _ => gl (G q) i <> Exclusive end.
Proof using.
  intros HI Hc Hm Hne. rewrite <- (i_locks _ _ HI). destruct (decide (q ∈ procs)) as [Hq|Hq].
  - unfold can_lock in Hc. rewrite forallb_forall in Hc. specialize (Hc q ltac:(by apply list_elem_of_In)).
    rewrite (proj2 (Nat.eqb_neq q p) Hne) in Hc. cbn [orb] in Hc. destruct (s_lock s q i), m; done.
  - rewrite (i_procs _ _ HI) by done. by destruct m.
Qed.

Lemma hold_excl s G p i n m : Inv s G -> (m <> NotHeld -> forallb (can_lock procs s p m) (rangeZ i n) = true) ->
  locks_exclude (updn (s_lock s) p (fun j => if in_range i n j then m else s_lock s p j)).
Proof using.
  intros HI Hc q1 q2 j Hne. destruct (decide (q1 = p)) as [->|H1].
  - rewrite updn_same, updn_other by (by apply not_eq_sym). destruct (in_range i n j) eqn:E; [|by apply (i_excl _ _ HI)].
    intros ->. specialize (Hc ltac:(done)). rewrite forallb_forall in Hc. specialize (Hc j).
    rewrite (i_locks _ _ HI). apply (can_lock_others s G p Exclusive j q2 HI); [|done|by apply not_eq_sym].
    apply Hc, list_elem_of_In, in_rangeZ, E.
  - rewrite (updn_other _ _ q1) by done. destruct (decide (q2 = p)) as [->|H2].
    + rewrite updn_same. intros Hx. destruct (in_range i n j) eqn:E; [|by apply (i_excl _ _ HI q1 p j)].
      destruct (decide (m = NotHeld)) as [|Hm]; [done|]. exfalso. specialize (Hc Hm). rewrite forallb_forall in Hc. specialize (Hc j).
      pose proof (can_lock_others s G p m j q1 HI ltac:(apply Hc, list_elem_of_In, in_rangeZ, E) Hm H1) as Ho.
      rewrite (i_locks _ _ HI) in Hx. destruct m; congruence.
    + rewrite updn_other by done. by apply (i_excl _ _ HI).
Qed.

Lemma step_lock s G p i n m g' : Inv s G -> p ∈ procs -> (m <> NotHeld -> forallb (can_lock procs s p m) (rangeZ i n) = true) ->
  (forall j, gl g' j = lset (gl (G p)) i n m j) ->
  rd_ok s g' -> wr_ok s g' -> ck_ok s G g' -> q_ok s g' ->
  (forall e j mn, gr g' = ROpen e j mn -> 1 <= j -> opens G j (mx e) \/ mx (s_cur s) <= mx e) ->
  (is_pub (G p) -> s_h1 s = s_h0 s \/ is_pub g') -> (is_win (G p) -> s_nBackfill s = s_eff s \/ is_win g') ->
  Inv (hold s p i n m) (updn G p g').
Proof using.
  intros HI Hp Hc Hl H1 H2 H3 H4 Ho Hpub Hwin. unfold hold. apply step_local; try done.
  - intros q j. destruct (decide (q = p)) as [->|Hne].
    + rewrite !updn_same, Hl. unfold lset. by rewrite (i_locks _ _ HI).
    + rewrite !updn_other by done. apply (i_locks _ _ HI).
  - by apply (hold_excl s G).
  - intros q j Hq. rewrite updn_other; [by apply (i_procs _ _ HI)|]. intros ->. done.
Qed.

(** *** The read marks *)

Lemma slot_not_mine s G p i q j : Inv s G -> gl (G p) (WAL_READ_LOCK i) = Exclusive -> on_mark (G q) j -> j <> i.
Proof using.
  intros HI Hp [Hj Hl] ->. assert (q = p) as -> by by apply (excl_other s G p q (WAL_READ_LOCK i) Shared). congruence.
Qed.

Lemma step_mark s G p i m : Inv s G -> gl (G p) (WAL_READ_LOCK i) = Exclusive -> Inv (set_mark s i m) G.
Proof using.
  intros HI Hp. split; try apply HI.
  - destruct (i_hist _ _ HI). by split.
  - intros q. destruct (i_local _ _ HI q) as (L1 & L2 & L3 & L4). split; [|done]. unfold rd_ok in *.
    destruct (gr (G q)) as [|e|e|e j|e j n|e j n mk|e j mn] eqn:E; try done.
    + destruct L1 as (K & Hm & Hn & Hk). pose proof (slot_not_mine s G p i q j HI Hp Hm) as Hne.
      split; [exact K|]. split; [exact Hm|]. split; [exact Hn|].
      cbn [set_mark s_mark]. unfold upd. by rewrite (proj2 (Z.eqb_neq _ _) Hne).
    + destruct L1 as (K & [H0|(Hm & H1 & H2 & H3 & H4)]); (split; [exact K|]); [left; exact H0|right].
      pose proof (slot_not_mine s G p i q j HI Hp Hm) as Hne. split; [exact Hm|]. split; [exact H1|]. split; [exact H2|]. split; [|exact H4].
      cbn [set_mark s_mark]. unfold upd. by rewrite (proj2 (Z.eqb_neq _ _) Hne).
Qed.

Lemma step_attempted s G n : Inv s G -> Inv (set_attempted s n) G.
Proof using. intros HI. split; try apply HI. destruct (i_hist _ _ HI). by split. Qed.

(** *** The log after its last header *)

Definition set_gl (g : ghost) (l : Z -> lmode) : ghost := mkGhost l (gr g) (gw g) (gc g) (gq g) (gs g).
Definition set_gr (g : ghost) (r : rstate) : ghost := mkGhost (gl g) r (gw g) (gc g) (gq g) (gs g).
Definition set_gw (g : ghost) (x : wstate) : ghost := mkGhost (gl g) (gr g) x (gc g) (gq g) (gs g).
Definition set_gc (g : ghost) (c : cstate) : ghost := mkGhost (gl g) (gr g) (gw g) c (gq g) (gs g).
Definition set_gq (g : ghost) (x : option (Z * Z)) : ghost := mkGhost (gl g) (gr g) (gw g) (gc g) x (gs g).

Lemma opens_same G p g' : gr g' = gr (G p) -> forall j x, opens (updn G p g') j x -> opens G j x.
Proof using.
  intros E j x (q & e & mn & Hq & ->). destruct (decide (q = p)) as [->|Hne].
  - rewrite updn_same, E in Hq. by exists p, e, mn.
  - rewrite updn_other in Hq by done. by exists q, e, mn.
Qed.

Lemma step_log s G p e t t' pg fr : Inv s G -> gw (G p) = WTxn e t ->
  (forall i, 1 <= i <= mx e -> pg i = s_pgno s i /\ fr i = s_frame s i) ->
  own_frames (set_log s pg fr) e t' ->
  Inv (set_log s pg fr) (updn G p (set_gw (G p) (WTxn e t'))).
Proof using.
  intros HI Hp E Hown. pose proof (i_hist _ _ HI) as Hh. pose proof (i_wr _ _ p HI) as K. unfold wr_ok in K. rewrite Hp in K.
  destruct K as (-> & Hw & _). set (g' := set_gw (G p) (WTxn (s_cur s) t')).
  assert (forall q lo hi, 0 <= lo -> hi <= mx (s_cur s) -> nof pg q lo hi -> nof (s_pgno s) q lo hi) as Hnof.
  { intros q lo hi Hlo Hhi. apply nof_ext. intros i Hi. apply E. lia. }
  assert (forall q lo hi, 0 <= lo -> hi <= mx (s_cur s) -> nof (s_pgno s) q lo hi -> nof pg q lo hi) as Hnof'.
  { intros q lo hi Hlo Hhi. apply nof_ext. intros i Hi. symmetry. apply E. lia. }
  assert (forall q, gl (updn G p g' q) = gl (G q) /\ gr (updn G p g' q) = gr (G q) /\ gc (updn G p g' q) = gc (G q) /\
    gq (updn G p g' q) = gq (G q) /\ gs (updn G p g' q) = gs (G q)) as Hsame.
  { intros q. destruct (decide (q = p)) as [->|Hne]; [by rewrite updn_same|by rewrite updn_other]. }
  assert (forall q, q <> p -> gl (G q) WAL_WRITE_LOCK <> Exclusive) as Halone.
  { intros q Hne Hl. apply Hne. by apply (excl_other s G p q WAL_WRITE_LOCK Exclusive). }
  assert (hist_ok (set_log s pg fr)) as Hh'.
  { split; try apply Hh; cbn [set_log s_pgno s_frame s_cur s_old].
    - intros i Hi. rewrite (proj1 (E i Hi)). by apply (h_pgno _ Hh).
    - intros e1 e2 q H1 H2 L1 L2 Hle Hq Hn. apply (h_pair _ Hh e1 e2); try done.
      apply Hnof; [by apply (h_mx _ Hh)|by apply (h_live _ Hh e2)|done].
    - intros e q f He Hl Hq Hf Hpg Hn. pose proof (h_live _ Hh e He Hl) as Hle. cbn in Hle.
      rewrite (proj2 (E f ltac:(lia))). rewrite (proj1 (E f ltac:(lia))) in Hpg. apply (h_log _ Hh e q f); try done.
      apply Hnof; [lia|done|done]. }
  split.
  - exact Hh'.
  - destruct (i_db _ _ HI) as [He Hd]. split; [done|]. intros q Hq Hn. apply Hd; [done|]. apply Hnof; [lia|done|done].
  - intros q i. rewrite (proj1 (Hsame q)). apply (i_locks _ _ HI).
  - apply (i_excl _ _ HI).
  - apply (i_procs _ _ HI).
  - left. apply (copies_agree s G p HI Hw). intros (e' & h & t2 & E'). congruence.
  - destruct (i_nb _ _ HI) as [Hn [|[q [e' Hq]]]]; (split; [done|]); [by left|right]. exists q, e'.
    destruct (decide (q = p)) as [->|Hne]; [congruence|]. by rewrite updn_other.
  - intros q. destruct (i_local _ _ HI q) as (L1 & L2 & L3 & L4). destruct (Hsame q) as (S1 & S2 & S3 & S4 & S5). split; [|split; [|split]].
    + unfold rd_ok in *. rewrite S2. unfold known, on_mark in *. rewrite S1, S5.
      destruct (gr (G q)) as [|e|e|e j|e j n|e j n mk|e j mn] eqn:Er; try done.
      destruct L1 as (K & [H0|(Hm & H1 & H2 & H3 & H4)]); (split; [exact K|]); [by left|right].
      split; [exact Hm|]. split; [exact H1|]. split; [exact H2|]. split; [exact H3|]. intros q' Hq' Hn. apply H4; [done|].
      apply Hnof; [lia|by apply (h_live _ Hh e); [apply K|]|done].
    + destruct (decide (q = p)) as [->|Hne]; [rewrite updn_same; split; [done|]; split; [exact Hw|exact Hown]|].
      rewrite updn_other by done. unfold wr_ok in *. destruct (gw (G q)) as [|e sl0|e h t2|e] eqn:Ew; try done;
        exfalso; apply (Halone q Hne); apply L2.
    + apply (ck_ok_more (set_log s pg fr) G); [done| |].
      { intros j x Hj Ho. left. by apply (opens_same G p g'). }
      assert (forall e n l, e ∈ hist s -> live s e -> iter_ok s e n l -> 0 <= n -> iter_ok (set_log s pg fr) e n l) as Hiter.
      { intros e n l He Hl [I1 I2] Hn0. pose proof (h_live _ Hh e He Hl) as Hle. split; cbn [set_log s_pgno].
        - intros q' f Hin. destruct (I1 q' f Hin) as (J1 & J2 & J3). rewrite (proj1 (E f ltac:(lia))). split; [done|]. split; [done|].
          apply Hnof'; [lia|done|done].
        - intros i Hi. rewrite (proj1 (E i ltac:(lia))). by apply I2. }
      destruct (i_db _ _ HI) as [Heff _].
      unfold ck_ok, ckpt_of in *. rewrite S1, S3. destruct (gc (G q)) as [|e|e sf i|e sf i y|e sf n n2 l|e sf n l fin b]; try done.
      * destruct L3 as [Hc H]. split; [exact Hc|]. intros Hl. destruct (H Hl) as (H1 & H2 & H3 & H4 & H5).
        split; [exact H1|]. split; [exact H2|]. split; [exact H3|]. split; [exact H4|].
        intros l' E'. apply Hiter; [apply Hc|done|by apply H5|lia].
      * destruct L3 as (Hc & H0 & Hl & Hcl & H1 & H2 & H3 & Hb & H4). pose proof (h_live _ Hh e (proj1 Hc) Hl) as Hle.
        split; [exact Hc|]. split; [exact H0|]. split; [exact Hl|]. split; [exact Hcl|]. split; [exact H1|]. split; [exact H2|].
        split; [apply Hiter; [apply Hc|done|done|lia]|]. split.
        -- intros f d Eb Hf. cbn [set_log s_frame]. rewrite (proj2 (E f ltac:(lia))). by apply (Hb f d).
        -- intros q' f Hin. destruct (H4 q' f Hin) as [H5 H6]. split; [done|]. intros Hf Hq'. cbn [set_log s_db s_frame].
           destruct Hc as (_ & _ & Hc). rewrite (proj2 (E f ltac:(lia))). by apply H6.
    + unfold q_ok in *. rewrite S2, S4. destruct (gr (G q)) as [|e|e|e j|e j n|e j n mk|e j mn] eqn:Er; try done.
      destruct (gq (G q)) as [[q' f]|]; [|done].
      intros Hj. rewrite (L4 Hj). cbn [set_log s_pgno]. pose proof (i_rd _ _ q HI) as K. unfold rd_ok in K. rewrite Er in K.
      destruct K as (K & [[? _]|(_ & H1 & H2 & _)]); [lia|]. apply last_in_ext; [lia|]. intros i Hi. symmetry. apply E.
      pose proof (h_live _ Hh e (proj1 K) H1). pose proof (h_mx _ Hh e (proj1 K)). lia.
Qed.

(** *** The database file *)

(** The pages a checkpoint may write: those of the frames it copies, and those after the end of
    the database when it copies all of it. *)
Definition may_write (s : shm) (e : commit) (sf n : Z) (db : Z -> page) : Prop :=
  forall q, db q = s_db s q \/ (exists f, n < f <= sf /\ s_pgno s f = q) \/ (sf = mx e /\ np e < q).

Lemma unwritten s e sf n db e2 m q : hist_ok s -> e ∈ hist s -> live s e -> may_write s e sf n db ->
  e2 ∈ hist s -> live s e2 -> sf <= mx e2 -> m <= n -> n < sf ->
  1 <= q <= np e2 -> nof (s_pgno s) q m (mx e2) -> db q = s_db s q.
Proof using.
  intros Hh He Hl Hw He2 Hl2 Hs Hm Hn Hq Hnof. destruct (Hw q) as [|[(f & Hf & Hpg)|[-> Hnp]]]; [done| |].
  - exfalso. apply (Hnof f); [lia|done].
  - exfalso. destruct (h_pair _ Hh e e2 q He He2 Hl Hl2 Hs Hq) as [H _]; [|lia]. apply (nof_sub _ _ _ _ _ _ Hnof); lia.
Qed.

(** The one checkpoint that copies keeps the readers of the database file off. *)
Lemma copying_alone s G p e sf n l fin b q : Inv s G -> gc (G p) = CCopy e sf n l fin b ->
  (gl (G q) (WAL_READ_LOCK 0) <> Shared) /\ (gl (G q) WAL_CKPT_LOCK = Exclusive -> q = p).
Proof using.
  intros HI Hp. pose proof (i_ck _ _ p HI) as K. unfold ck_ok in K. rewrite Hp in K. destruct K as ((_ & Hc & _) & H0 & _). split.
  - intros Hq. assert (q = p) as -> by by apply (excl_other s G p q (WAL_READ_LOCK 0) Shared). congruence.
  - intros Hq. by apply (excl_other s G p q WAL_CKPT_LOCK Exclusive).
Qed.

Lemma step_db s G p e sf n l fin fin' b db : Inv s G -> gc (G p) = CCopy e sf n l fin b -> ~ is_pub (G p) ->
  may_write s e sf n db ->
  (forall q f, (q, f) ∈ fin' -> (q, f) ∈ l /\ (n < f <= sf -> q <= np e -> db q = s_frame s f)) ->
  Inv (set_db s db) (updn G p (set_gc (G p) (CCopy e sf n l fin' b))).
Proof using.
  intros HI Hp Hnp Hw Hfin. pose proof (i_hist _ _ HI) as Hh.
  pose proof (i_ck _ _ p HI) as K. unfold ck_ok in K. rewrite Hp in K. destruct K as ((He & Hc & Hsf) & H0 & Hl & Hcl & Heff & Hn & Hit & Hb & _).
  pose proof (copying_alone s G p e sf n l fin b) as Hal. specialize (fun q => Hal q HI Hp).
  set (g' := set_gc (G p) (CCopy e sf n l fin' b)).
  assert (forall q, gl (updn G p g' q) = gl (G q) /\ gr (updn G p g' q) = gr (G q) /\ gw (updn G p g' q) = gw (G q) /\
    gq (updn G p g' q) = gq (G q) /\ gs (updn G p g' q) = gs (G q)) as Hsame.
  { intros q. destruct (decide (q = p)) as [->|Hne]; [by rewrite updn_same|by rewrite updn_other]. }
  destruct (i_db _ _ HI) as [Heffr Hd]. pose proof (h_live _ Hh e He Hl) as Hec.
  split.
  - destruct Hh. by split.
  - split; [done|]. intros q Hq Hnof. cbn [set_db s_db]. rewrite (unwritten s e sf n db (s_cur s) (s_eff s) q);
      [by apply Hd|done..|apply cur_in|done|lia|lia|lia|done|done].
  - intros q i. rewrite (proj1 (Hsame q)). apply (i_locks _ _ HI).
  - apply (i_excl _ _ HI).
  - apply (i_procs _ _ HI).
  - destruct (i_h1 _ _ HI) as [|[q (e' & h & t0 & Hq)]]; [by left|right]. exists q, e', h, t0. by rewrite (proj1 (proj2 (proj2 (Hsame q)))).
  - destruct (i_nb _ _ HI) as [H1 [|[q (e' & Hq)]]]; (split; [done|]); [by left|right]. exists q, e'. by rewrite (proj1 (proj2 (proj2 (Hsame q)))).
  - intros q. destruct (i_local _ _ HI q) as (L1 & L2 & L3 & L4). destruct (Hsame q) as (S1 & S2 & S3 & S4 & S5). split; [|split; [|split]].
    + unfold rd_ok in *. rewrite S2. unfold known, on_mark in *. rewrite S1, S5.
      destruct (gr (G q)) as [|e'|e'|e' j|e' j k|e' j k mk|e' j mn] eqn:Er; try done.
      destruct L1 as (K & [(_ & Hj & _)|(Hm & H1 & H2 & H3 & H4)]); (split; [exact K|]).
      * destruct (Hal q) as [Hno _]. done.
      * right. split; [exact Hm|]. split; [exact H1|]. split; [exact H2|]. split; [exact H3|]. intros q' Hq' Hnof. cbn [set_db s_db].
        rewrite (unwritten s e sf n db e' (mn - 1) q'); try done; [by apply H4|apply K| |lia].
        apply (Hcl j (mx e')); [apply Hm|]. by exists q, e', mn.
    + unfold wr_ok in *. rewrite S3. destruct (gw (G q)) as [|e' sl|e' h t'|e'] eqn:Ew; try done; rewrite S1; [by apply L2| |].
      * destruct L2 as (E & Hw' & Hh1 & Ho' & [Hco|(R1 & R2 & R3 & R4)]); (split; [exact E|]; split; [exact Hw'|]; split; [exact Hh1|]; split; [exact Ho'|]); [left; exact Hco|].
        exfalso. destruct (Hal q) as [Hno Hck]. destruct R4 as [_ [R4|R4]]; [by apply Hno|]. apply Hnp.
        rewrite <- (Hck R4). by exists e', h, t'.
      * unfold exclusive in *. rewrite S1. exact L2.
    + destruct (decide (q = p)) as [->|Hne].
      * rewrite updn_same. unfold ck_ok, ckpt_of. cbn [g' set_gc gc gl]. split; [done|]. split; [exact H0|]. split; [exact Hl|].
        split; [|split; [exact Heff|]; split; [exact Hn|]; split; [exact Hit|]; split; [exact Hb|exact Hfin]].
        intros j x Hj Ho. apply (Hcl j x Hj). by apply (opens_same G p g').
      * assert (ck_ok (set_db s db) G (G q)) as L3'.
        { unfold ck_ok in *. destruct (gc (G q)) as [|e'|e' sf' i|e' sf' i y|e' sf' n' n2 l'|e' sf' n' l' fin0 b0] eqn:Ec; try done.
          exfalso. apply Hne. apply (Hal q). apply L3. }
        rewrite updn_other by done. apply (ck_ok_more (set_db s db) G); [by destruct Hh; split| |done].
        intros j x Hj Ho. left. by apply (opens_same G p g').
    + unfold q_ok in *. rewrite S2, S4. exact L4.
Qed.

(** *** [nBackfill] *)

(** Once every frame up to [sf] was copied, the database file has all that is not after it. *)
Lemma copied_db s e sf n l : hist_ok s -> e ∈ hist s -> live s e -> sf <= mx e -> 0 <= n < sf -> db_up_to s n -> iter_ok s e n l ->
  (forall q f, (q, f) ∈ l -> n < f <= sf -> q <= np e -> s_db s q = s_frame s f) -> db_up_to s sf.
Proof using.
  intros Hh He Hl Hsf Hn Hd [I1 I2] Hfin q Hq Hnof. pose proof (h_live _ Hh e He Hl) as Hec.
  destruct (last_in_spec (s_pgno s) q 1 (Z.to_nat (mx (s_cur s))) ltac:(lia)) as [[_ Hf]|(Hf & Hpg & Hnf)];
    rewrite Z2Nat.id in * by lia.
  { apply Hd; [done|]. apply (nof_sub _ _ _ _ _ _ Hf); lia. }
  set (f := last_in _ _ _ _) in *. destruct (Z.le_gt_cases f n) as [Hfn|Hfn]; [apply Hd; [done|]; apply (nof_sub _ _ _ _ _ _ Hnf); lia|].
  assert (f <= sf) as Hfs. { destruct (Z.le_gt_cases f sf); [done|]. exfalso. apply (Hnof f); [lia|done]. }
  destruct (I2 f ltac:(lia)) as (f' & Hf' & Hin). rewrite Hpg in Hin. destruct (I1 q f' Hin) as (J1 & J2 & _).
  assert (f' = f) as ->. { destruct (Z.eq_dec f' f); [done|]. exfalso. apply (Hnf f'); [lia|done]. }
  destruct (h_pair _ Hh e (s_cur s) q He (cur_in s) Hl eq_refl Hec Hq) as [Hnp _]; [apply (nof_sub _ _ _ _ _ _ Hnf); lia|].
  rewrite (Hfin q f Hin) by lia. apply (h_log _ Hh (s_cur s) q f (cur_in s) eq_refl Hq); [lia|done|done].
Qed.

Lemma step_nBackfill s G p e sf n l fin b : Inv s G -> gc (G p) = CCopy e sf n l fin b -> ~ is_win (G p) ->
  (forall q f, (q, f) ∈ l -> n < f <= sf -> q <= np e -> s_db s q = s_frame s f) ->
  Inv (set_nBackfill s sf) (updn G p (set_gc (G p) (CHdr e))).
Proof using.
  intros HI Hp Hnw Hfin. pose proof (i_hist _ _ HI) as Hh.
  pose proof (i_ck _ _ p HI) as K. unfold ck_ok in K. rewrite Hp in K. destruct K as ((He & Hc & Hsf) & H0 & Hl & Hcl & Heff & Hn & Hit & Hb & _).
  pose proof (copying_alone s G p e sf n l fin b) as Hal. specialize (fun q => Hal q HI Hp).
  set (g' := set_gc (G p) (CHdr e)).
  assert (forall q, gl (updn G p g' q) = gl (G q) /\ gr (updn G p g' q) = gr (G q) /\ gw (updn G p g' q) = gw (G q) /\
    gq (updn G p g' q) = gq (G q) /\ gs (updn G p g' q) = gs (G q)) as Hsame.
  { intros q. destruct (decide (q = p)) as [->|Hne]; [by rewrite updn_same|by rewrite updn_other]. }
  destruct (i_db _ _ HI) as [Heffr Hd]. pose proof (h_live _ Hh e He Hl) as Hec.
  split.
  - destruct Hh. by split.
  - split; [cbn [set_nBackfill s_eff s_cur]; lia|]. rewrite Heff in Hd. exact (copied_db s e sf n l Hh He Hl Hsf ltac:(lia) Hd Hit Hfin).
  - intros q i. rewrite (proj1 (Hsame q)). apply (i_locks _ _ HI).
  - apply (i_excl _ _ HI).
  - apply (i_procs _ _ HI).
  - destruct (i_h1 _ _ HI) as [|[q (e' & h & t0 & Hq)]]; [by left|right]. exists q, e', h, t0. by rewrite (proj1 (proj2 (proj2 (Hsame q)))).
  - cbn [set_nBackfill s_nBackfill s_eff]. split; [lia|by left].
  - intros q. destruct (i_local _ _ HI q) as (L1 & L2 & L3 & L4). destruct (Hsame q) as (S1 & S2 & S3 & S4 & S5). split; [|split; [|split]].
    + unfold rd_ok in *. rewrite S2. unfold known, on_mark in *. rewrite S1, S5. cbn [set_nBackfill s_eff].
      destruct (gr (G q)) as [|e'|e'|e' j|e' j k|e' j k mk|e' j mn] eqn:Er; try done.
      * destruct L1 as [K HF]. split; [exact K|]. intros E. specialize (HF E). cbn in E. subst e'. exfalso. lia.
      * destruct L1 as (K & Hm & Hk). split; [exact K|]. split; [exact Hm|]. lia.
      * destruct L1 as (K & Hm & Hk & Hmk). split; [exact K|]. split; [exact Hm|]. split; [lia|exact Hmk].
      * destruct L1 as (K & [Hz|(Hm & H1 & H2 & H3 & H4)]); (split; [exact K|]); [left; exact Hz|right].
        split; [exact Hm|]. split; [exact H1|]. split; [lia|]. split; [exact H3|exact H4].
    + unfold wr_ok in *. rewrite S3. unfold exclusive in *. rewrite S1. destruct (gw (G q)) as [|e' sl|e' h t0|e'] eqn:Ew; try done.
      exfalso. destruct L2 as (_ & _ & _ & _ & _ & [L2|L2]); destruct (Hal q) as [Hno Hck]; [by apply Hno|]. apply Hnw.
      rewrite <- (Hck L2). by exists e'.
    + destruct (decide (q = p)) as [->|Hne].
      * rewrite updn_same. unfold ck_ok, ckpt_of. cbn [g' set_gc gc gl]. split; [done|]. split; [exact Hc|]. apply (h_mx _ Hh e He).
      * assert (ck_ok (set_nBackfill s sf) G (G q)) as L3'.
        { unfold ck_ok in *. destruct (gc (G q)) as [|e'|e' sf' i|e' sf' i y|e' sf' n' n2 l'|e' sf' n' l' fin0 b0] eqn:Ec; try done;
            exfalso; apply Hne; apply (Hal q); apply L3. }
        rewrite updn_other by done. apply (ck_ok_more (set_nBackfill s sf) G); [by destruct Hh; split| |done].
        intros j x Hj Ho. left. by apply (opens_same G p g').
    + unfold q_ok in *. rewrite S2, S4. exact L4.
Qed.

(** [nBackfill] catches up with the header of a log that was started over. *)
Lemma step_window s G p e : Inv s G -> gw (G p) = WWin e -> Inv (set_nBackfill s 0) (updn G p (set_gw (G p) (WTxn e txn0))).
Proof using.
  intros HI Hp. pose proof (i_hist _ _ HI) as Hh. pose proof (i_wr _ _ p HI) as K. unfold wr_ok in K. rewrite Hp in K.
  destruct K as (He & Hw & Hm0 & Heff & Hx). set (g' := set_gw (G p) (WTxn e txn0)).
  assert (set_nBackfill s 0 = mkShm (s_h0 s) (s_h1 s) 0 (s_mark s) (s_nBackfillAttempted s) (s_pgno s) (s_frame s) (s_db s) (s_lock s)
    (s_cur s) (s_old s) (s_eff s)) as -> by by rewrite Heff. set (s' := mkShm _ _ _ _ _ _ _ _ _ _ _ _).
  assert (forall q, gl (updn G p g' q) = gl (G q) /\ gr (updn G p g' q) = gr (G q) /\ gc (updn G p g' q) = gc (G q) /\
    gq (updn G p g' q) = gq (G q) /\ gs (updn G p g' q) = gs (G q)) as Hsame.
  { intros q. destruct (decide (q = p)) as [->|Hne]; [by rewrite updn_same|by rewrite updn_other]. }
  split.
  - destruct Hh. by split.
  - exact (i_db _ _ HI).
  - intros q i. rewrite (proj1 (Hsame q)). apply (i_locks _ _ HI).
  - apply (i_excl _ _ HI).
  - apply (i_procs _ _ HI).
  - left. apply (copies_agree s G p HI Hw). intros (e' & h & t2 & E). congruence.
  - cbn [s' s_nBackfill s_eff]. split; [lia|left; congruence].
  - intros q. destruct (i_local _ _ HI q) as (L1 & L2 & L3 & L4). destruct (Hsame q) as (S1 & S2 & S3 & S4 & S5). split; [|split; [|split]].
    + unfold rd_ok in *. rewrite S2. unfold known, on_mark in *. rewrite S1, S5. exact L1.
    + destruct (decide (q = p)) as [->|Hne]; [rewrite updn_same; split; [exact He|]; split; [exact Hw|apply own_frames_0]|]. rewrite updn_other by done. exact L2.
    + apply (ck_ok_more s' G); [by destruct Hh; split| |].
      * intros j x Hj Ho. left. by apply (opens_same G p g').
      * unfold ck_ok, ckpt_of in *. rewrite S1, S3. exact L3.
    + unfold q_ok in *. rewrite S2, S4. exact L4.
Qed.

(** *** Publishing a header *)

Lemma step_h1 s G p e t h : Inv s G -> gw (G p) = WTxn e t ->
  commits s h \/ (mxFrame h = 0 /\ nPage h = np e /\ all_db s e /\ exclusive (G p)) ->
  Inv (set_h1 s h) (updn G p (set_gw (G p) (WPub e h t))).
Proof using.
  intros HI Hp Hor. pose proof (i_hist _ _ HI) as Hh. pose proof (i_wr _ _ p HI) as K. unfold wr_ok in K. rewrite Hp in K.
  destruct K as (He & Hw & Hsl). set (g' := set_gw (G p) (WPub e h t)).
  assert (forall q, gl (updn G p g' q) = gl (G q) /\ gr (updn G p g' q) = gr (G q) /\ gc (updn G p g' q) = gc (G q) /\
    gq (updn G p g' q) = gq (G q) /\ gs (updn G p g' q) = gs (G q)) as Hsame.
  { intros q. destruct (decide (q = p)) as [->|Hne]; [by rewrite updn_same|by rewrite updn_other]. }
  split.
  - destruct Hh. by split.
  - exact (i_db _ _ HI).
  - intros q i. rewrite (proj1 (Hsame q)). apply (i_locks _ _ HI).
  - apply (i_excl _ _ HI).
  - apply (i_procs _ _ HI).
  - right. exists p. rewrite updn_same. by exists e, h, t.
  - destruct (i_nb _ _ HI) as [Hn [|[q [e' Hq]]]]; (split; [done|]); [by left|right]. exists q, e'.
    destruct (decide (q = p)) as [->|Hne]; [congruence|]. by rewrite updn_other.
  - intros q. destruct (i_local _ _ HI q) as (L1 & L2 & L3 & L4). destruct (Hsame q) as (S1 & S2 & S3 & S4 & S5). split; [|split; [|split]].
    + unfold rd_ok in *. rewrite S2. unfold known, on_mark in *. rewrite S1, S5. exact L1.
    + destruct (decide (q = p)) as [->|Hne].
      * rewrite updn_same. split; [exact He|]. split; [exact Hw|]. split; [done|]. split; [exact Hsl|exact Hor].
      * rewrite updn_other by done. unfold wr_ok in *. destruct (gw (G q)) as [|e' sl'|e' h' t2|e'] eqn:Ew; try done.
        exfalso. apply Hne. apply (excl_other s G p q WAL_WRITE_LOCK Exclusive); try done. apply L2.
    + apply (ck_ok_more (set_h1 s h) G); [by destruct Hh; split| |].
      * intros j x Hj Ho. left. by apply (opens_same G p g').
      * unfold ck_ok, ckpt_of in *. rewrite S1, S3. exact L3.
    + unfold q_ok in *. rewrite S2, S4. exact L4.
Qed.

Lemma salts_fresh_spec s h e : salts_fresh s h = true -> e ∈ hist s -> aSalt (e_hdr e) = aSalt h -> e_gen e = e_gen (next_commit s h).
Proof using.
  unfold salts_fresh. rewrite forallb_forall. intros H He E. specialize (H e ltac:(by apply list_elem_of_In)).
  apply orb_true_iff in H as [H|H]; [|by apply Z.eqb_eq]. apply negb_true_iff, bool_decide_eq_false in H. done.
Qed.

Lemma overlay_old s m q : 0 <= mx (s_cur s) <= m -> nof (s_pgno s) q (mx (s_cur s)) m -> overlay s m q = e_img (s_cur s) q.
Proof using.
  intros Hc Hn. unfold overlay. destruct (last_in_spec (s_pgno s) q (mx (s_cur s) + 1) (Z.to_nat m) ltac:(lia)) as [[Hf _]|(H1 & H2 & _)].
  - unfold mx in Hf. by rewrite Hf.
  - rewrite Z2Nat.id in H1 by lia. exfalso. apply (Hn (last_in (s_pgno s) q (mx (s_cur s) + 1) (Z.to_nat m))); [lia|done].
Qed.

Lemma overlay_new s m q f : 0 <= mx (s_cur s) -> mx (s_cur s) < f <= m -> s_pgno s f = q -> nof (s_pgno s) q f m -> overlay s m q = s_frame s f.
Proof using.
  intros Hc Hf Hpg Hn. unfold overlay. destruct (last_in_spec (s_pgno s) q (mx (s_cur s) + 1) (Z.to_nat m) ltac:(lia)) as [[_ H]|(H1 & H2 & H3)].
  - rewrite Z2Nat.id in H by lia. exfalso. apply (H f); [lia|done].
  - rewrite Z2Nat.id in * by lia. unfold mx in *. set (f' := last_in _ _ _ _) in *.
    assert (f' = f) as ->. { destruct (Z.lt_trichotomy f f') as [Hlt|[|Hgt]]; [|done|]; exfalso; [apply (Hn f'); [lia|done]|apply (H3 f); [lia|done]]. }
    destruct (Z.eqb_spec f 0); [lia|done].
Qed.

Lemma overlay_txn s t q : 0 <= mx (s_cur s) -> own_frames s (s_cur s) t -> (length (t_pages t) <= length (t_data t))%nat ->
  overlay s (mx (s_cur s) + zlen (t_pages t)) q = default (e_img (s_cur s) q) (last_of (t_pages t) (t_data t) q).
Proof using.
  intros Hm [Ho Hd] Hl. pose proof (zlen_nonneg (t_pages t)) as Hz.
  assert (forall i, mx (s_cur s) < i <= mx (s_cur s) + zlen (t_pages t) -> t_pages t !! Z.to_nat (i - mx (s_cur s) - 1) = Some (s_pgno s i)) as Hi.
  { intros i Hi. destruct (t_pages t !! Z.to_nat (i - mx (s_cur s) - 1)) as [q'|] eqn:E.
    - rewrite <- (Ho _ _ E). do 2 f_equal. lia.
    - apply lookup_ge_None in E. unfold zlen in *. lia. }
  destruct (decide (q ∈ t_pages t)) as [Hin|Hn].
  - destruct (last_place _ q Hin) as (k & Hk & Hlast). pose proof (lookup_lt_Some _ _ _ Hk) as Hlt. destruct (lookup_lt_is_Some_2 (t_data t) k) as [d Hd']; [lia|].
    rewrite (last_of_some _ _ q k d) by done. cbn [default]. rewrite <- (Hd k d Hd'). apply overlay_new; [done|unfold zlen; lia|by apply Ho|].
    intros i Hi' E. apply (Hlast (Z.to_nat (i - mx (s_cur s) - 1))); [lia|]. rewrite Hi by lia. by rewrite E.
  - rewrite last_of_none by done. apply overlay_old; [lia|]. intros i Hi' E. apply Hn. rewrite <- E. eapply list_elem_of_lookup_2. by apply Hi.
Qed.

(** What a commit makes of a page it did not write. *)
Lemma commit_old s h q : hist_ok s -> commits s h -> 1 <= q <= nPage h -> nof (s_pgno s) q (mx (s_cur s)) (mxFrame h) ->
  q <= np (s_cur s) /\ overlay s (mxFrame h) q = e_img (s_cur s) q.
Proof using.
  intros Hh (C1 & C2 & C3) Hq Hn. pose proof (h_mx _ Hh _ (cur_in s)) as Hc. split.
  - destruct (Z.le_gt_cases q (np (s_cur s))); [done|]. exfalso. by apply (C3 q ltac:(lia)).
  - apply overlay_old; [lia|done].
Qed.

Lemma publish_hist s h : hist_ok s -> salts_fresh s h = true -> commits s h -> hist_ok (publish s h).
Proof using.
  intros Hh Hs Hc. pose proof Hc as (C1 & C2 & C3). pose proof (h_mx _ Hh _ (cur_in s)) as Hcur.
  assert (e_gen (next_commit s h) = e_gen (s_cur s)) as Hg.
  { cbn [next_commit e_gen]. destruct (Z.eqb_spec (mxFrame h) 0); [lia|done]. }
  assert (e_img (next_commit s h) = overlay s (mxFrame h)) as Hi.
  { cbn [next_commit e_img]. destruct (Z.eqb_spec (mxFrame h) 0); [lia|done]. }
  set (e' := next_commit s h) in *.
  assert (forall e, e ∈ hist (publish s h) -> e = e' \/ e ∈ hist s) as Hin.
  { intros e He. unfold hist in He. cbn [publish s_cur s_old] in He. fold e' in He. apply elem_of_cons in He. unfold hist. tauto. }
  assert (mx e' = mxFrame h) as Hm by done. assert (np e' = nPage h) as Hnp by done.
  assert (forall e, e ∈ hist s -> live s e -> mx e <= mx (s_cur s)) as Hlv by apply (h_live _ Hh).
  assert (forall e, live (publish s h) e <-> live s e) as Hl.
  { intros e. unfold live. cbn [publish s_cur]. fold e'. by rewrite Hg. }
  split; cbn [publish s_h0 s_cur s_pgno s_frame]; fold e'.
  - done.
  - intros e He. destruct (Hin e He) as [->|He']; [done|]. rewrite Hg. by apply (h_gen _ Hh).
  - intros e He. destruct (Hin e He) as [->|He']; [done|]. pose proof (h_no _ Hh e He'). cbn [e' next_commit e_no]. lia.
  - intros e He. destruct (Hin e He) as [->|He']; [lia|by apply (h_mx _ Hh)].
  - intros e He Hle. apply Hl in Hle. destruct (Hin e He) as [->|He']; [done|]. specialize (Hlv e He' Hle). lia.
  - intros e1 e2 H1 H2 E1 E2. destruct (Hin e1 H1) as [->|H1'], (Hin e2 H2) as [->|H2']; [done| | |by apply (h_inj _ Hh)].
    + specialize (Hlv e2 H2' ltac:(unfold live; congruence)). lia.
    + specialize (Hlv e1 H1' ltac:(unfold live; congruence)). lia.
  - intros e1 e2 H1 H2 E1. destruct (Hin e1 H1) as [->|H1'], (Hin e2 H2) as [->|H2']; [done| | |by apply (h_salt _ Hh)].
    + symmetry. by apply salts_fresh_spec.
    + by apply salts_fresh_spec.
  - intros i Hi'. destruct (Z.le_gt_cases i (mx (s_cur s))); [apply (h_pgno _ Hh); lia|apply C2; lia].
  - intros e1 e2 q H1 H2 L1 L2 Hle Hq Hn. apply Hl in L1, L2. destruct (Hin e2 H2) as [->|H2'].
    + destruct (Hin e1 H1) as [->|H1']; [split; [lia|done]|]. pose proof (Hlv e1 H1' L1). rewrite Hi.
      destruct (commit_old s h q Hh Hc Hq) as [Hq' ->]; [apply (nof_sub _ _ _ _ _ _ Hn); lia|].
      apply (h_pair _ Hh e1 (s_cur s) q H1' (cur_in s) L1 eq_refl); [done|lia|]. apply (nof_sub _ _ _ _ _ _ Hn); lia.
    + destruct (Hin e1 H1) as [->|H1']; [specialize (Hlv e2 H2' L2); lia|]. by apply (h_pair _ Hh e1 e2).
  - intros e q f He Le Hq Hf Hpg Hn. apply Hl in Le. destruct (Hin e He) as [->|He']; [|by apply (h_log _ Hh e)].
    rewrite Hi. destruct (Z.le_gt_cases f (mx (s_cur s))) as [Hle|Hgt].
    + destruct (commit_old s h q Hh Hc Hq) as [Hq' ->]; [apply (nof_sub _ _ _ _ _ _ Hn); lia|].
      apply (h_log _ Hh (s_cur s) q f (cur_in s) eq_refl); [lia|lia|done|]. apply (nof_sub _ _ _ _ _ _ Hn); lia.
    + symmetry. apply overlay_new; [done|lia|done|done].
Qed.

Lemma restart_hist s h : hist_ok s -> salts_fresh s h = true -> mxFrame h = 0 -> hist_ok (publish s h).
Proof using.
  intros Hh Hs Hz. assert (e_gen (next_commit s h) = e_gen (s_cur s) + 1) as Hg by by cbn [next_commit e_gen]; rewrite Hz.
  set (e' := next_commit s h) in *.
  assert (forall e, e ∈ hist (publish s h) -> e = e' \/ e ∈ hist s) as Hin.
  { intros e He. unfold hist in He. cbn [publish s_cur s_old] in He. fold e' in He. apply elem_of_cons in He. unfold hist. tauto. }
  assert (mx e' = 0) as Hm by done.
  assert (forall e, e ∈ hist (publish s h) -> live (publish s h) e -> e = e') as Hl.
  { intros e He Hl. destruct (Hin e He) as [|He']; [done|]. exfalso. unfold live in Hl. cbn [publish s_cur] in Hl. fold e' in Hl.
    pose proof (h_gen _ Hh e He'). lia. }
  split; cbn [publish s_h0 s_cur s_pgno s_frame]; fold e'.
  - done.
  - intros e He. destruct (Hin e He) as [->|He']; [done|]. pose proof (h_gen _ Hh e He'). lia.
  - intros e He. destruct (Hin e He) as [->|He']; [done|]. pose proof (h_no _ Hh e He'). cbn [e' next_commit e_no]. lia.
  - intros e He. destruct (Hin e He) as [->|He']; [lia|by apply (h_mx _ Hh)].
  - intros e He Hle. by rewrite (Hl e He Hle).
  - intros e1 e2 H1 H2 E1 E2. destruct (Hin e1 H1) as [->|H1'], (Hin e2 H2) as [->|H2']; [done| | |by apply (h_inj _ Hh)].
    + pose proof (h_gen _ Hh e2 H2'). lia.
    + pose proof (h_gen _ Hh e1 H1'). lia.
  - intros e1 e2 H1 H2 E1. destruct (Hin e1 H1) as [->|H1'], (Hin e2 H2) as [->|H2']; [done| | |by apply (h_salt _ Hh)].
    + symmetry. by apply salts_fresh_spec.
    + by apply salts_fresh_spec.
  - intros i Hi. lia.
  - intros e1 e2 q H1 H2 L1 L2 Hle Hq Hn. rewrite (Hl e1 H1 L1), (Hl e2 H2 L2) in *. split; [lia|done].
  - intros e q f He Le Hq Hf. rewrite (Hl e He Le) in *. lia.
Qed.

(** What a commit leaves of what the others know. *)
Lemma ck_ok_commit s G g h : hist_ok s -> commits s h -> ck_ok s G g -> ck_ok (publish s h) G g.
Proof using.
  intros Hh (C1 & _). assert ((mxFrame h =? 0) = false) as Hz by (apply Z.eqb_neq; pose proof (h_mx _ Hh _ (cur_in s)); lia).
  assert (forall e, live (publish s h) e <-> live s e) as Hl by (intros e; unfold live; cbn [publish s_cur next_commit e_gen]; by rewrite Hz).
  assert (s_eff (publish s h) = s_eff s) as He by by cbn [publish s_eff]; rewrite Hz.
  assert (forall e sf, ckpt_of s g e sf -> ckpt_of (publish s h) g e sf) as Hc.
  { intros e sf (H1 & H2). split; [|exact H2]. unfold hist. cbn [publish s_cur s_old]. apply elem_of_cons. by right. }
  unfold ck_ok. destruct (gc g) as [|e|e sf i|e sf i y|e sf n n2 l|e sf n l fin b]; rewrite ?Hl, ?He.
  - done.
  - apply Hc.
  - intros [H1 H2]. split; [by apply Hc|exact H2].
  - intros [H1 H2]. split; [by apply Hc|exact H2].
  - intros [H1 H2]. split; [by apply Hc|exact H2].
  - intros [H1 H2]. split; [by apply Hc|exact H2].
Qed.

Lemma rd_ok_commit s g h : hist_ok s -> commits s h -> rd_ok s g -> rd_ok (publish s h) g.
Proof using.
  intros Hh (C1 & _). assert ((mxFrame h =? 0) = false) as Hz by (apply Z.eqb_neq; pose proof (h_mx _ Hh _ (cur_in s)); lia).
  assert (forall e, live (publish s h) e <-> live s e) as Hl by (intros e; unfold live; cbn [publish s_cur next_commit e_gen]; by rewrite Hz).
  assert (s_eff (publish s h) = s_eff s) as He by by cbn [publish s_eff]; rewrite Hz.
  assert (forall e, known s g e -> known (publish s h) g e) as Hk.
  { intros e (H1 & H2). split; [|exact H2]. unfold hist. cbn [publish s_cur s_old]. apply elem_of_cons. by right. }
  unfold rd_ok. destruct (gr g) as [|e|e|e j|e j n|e j n m|e j mn]; rewrite ?Hl, ?He.
  - cbn [publish s_cur next_commit e_no]. lia.
  - apply Hk.
  - intros [H1 H2]. split; [by apply Hk|]. intros E. exfalso. pose proof (h_no _ Hh e (proj1 H1)) as Hno.
    apply (f_equal e_no) in E. cbn [publish s_cur next_commit e_no] in E. lia.
  - intros [H1 H2]. split; [by apply Hk|exact H2].
  - intros [H1 H2]. split; [by apply Hk|exact H2].
  - intros [H1 H2]. split; [by apply Hk|exact H2].
  - intros [H1 H2]. split; [by apply Hk|exact H2].
Qed.

Lemma step_commit s G p e h t j mn : Inv s G -> gw (G p) = WPub e h t -> commits s h -> salts_fresh s h = true ->
  gr (G p) = ROpen e j mn -> 1 <= j -> gc (G p) = CNone ->
  let e' := next_commit s h in
  Inv (publish s h) (updn G p (mkGhost (gl (G p)) (ROpen e' j mn) (WTxn e' txn0) CNone None (gs (G p)))).
Proof using.
  intros HI Hp Hc Hs Hr Hj Hck e'. pose proof (i_hist _ _ HI) as Hh. pose proof (i_wr _ _ p HI) as K. unfold wr_ok in K. rewrite Hp in K.
  destruct K as (He & Hw & Hh1 & _). pose proof (h_mx _ Hh _ (cur_in s)) as Hcur. pose proof Hc as (C1 & _).
  assert ((mxFrame h =? 0) = false) as Hz by (apply Z.eqb_neq; lia).
  pose proof (publish_hist s h Hh Hs Hc) as Hh'. set (g' := mkGhost _ _ _ _ _ _).
  assert (forall q, gl (updn G p g' q) = gl (G q)) as Hgl.
  { intros q. destruct (decide (q = p)) as [->|Hne]; [by rewrite updn_same|by rewrite updn_other]. }
  destruct (i_db _ _ HI) as [Heff Hd].
  assert (forall q mn', 1 <= mn' <= mx (s_cur s) + 1 -> 1 <= q <= nPage h -> nof (s_pgno s) q (mn' - 1) (mxFrame h) -> reads_db s (s_cur s) mn' ->
    s_db s q = e_img e' q) as Hread.
  { intros q mn' Hmn Hq Hn Hrd. destruct (commit_old s h q Hh Hc Hq) as [Hq' Ho]; [apply (nof_sub _ _ _ _ _ _ Hn); lia|].
    cbn [e' next_commit e_img]. rewrite Hz, Ho. apply Hrd; [lia|]. apply (nof_sub _ _ _ _ _ _ Hn); unfold mx in *; lia. }
  split.
  - exact Hh'.
  - split; cbn [publish s_eff s_cur]; rewrite Hz; [unfold mx; cbn [next_commit e_hdr]; lia|]. intros q Hq Hn.
    cbn [publish s_db s_cur s_pgno] in *. apply (Hread q (s_eff s + 1)); [lia|done| |].
    + replace (s_eff s + 1 - 1) with (s_eff s) by lia. exact Hn.
    + intros q' Hq' Hn'. apply Hd; [done|]. replace (s_eff s) with (s_eff s + 1 - 1) by lia. exact Hn'.
  - intros q i. rewrite Hgl. apply (i_locks _ _ HI).
  - apply (i_excl _ _ HI).
  - apply (i_procs _ _ HI).
  - left. exact Hh1.
  - destruct (i_nb _ _ HI) as [Hn [E|[q [e0 Hq]]]]; (split; [done|]); cbn [publish s_nBackfill s_eff]; rewrite Hz; [by left|right].
    exists q, e0. destruct (decide (q = p)) as [->|Hne]; [congruence|]. by rewrite updn_other.
  - assert (opens_more (publish s h) G (updn G p g')) as Hm.
    { apply (opens_updn (publish s h)). intros e0 j0 mn0 E _. right. cbn [g' gr] in E. injection E as <- _ _. done. }
    intros q. destruct (decide (q = p)) as [->|Hne].
    + rewrite updn_same. pose proof (i_rd _ _ p HI) as R. unfold rd_ok in R. rewrite Hr in R.
      destruct R as ([K1 K2] & [[-> _]|(M & R1 & R2 & R3 & R4)]); [lia|]. subst e.
      split; [|split; [|split]].
      * unfold rd_ok. cbn [g' gr]. split; [|right].
        -- split; [apply elem_of_cons; by left|]. cbn [g' gs e' next_commit e_no]. lia.
        -- split; [exact M|]. split; [done|]. cbn [publish s_eff s_mark]. rewrite Hz. split; [exact R2|].
           split; [unfold mx in *; cbn [e' next_commit e_hdr]; lia|]. intros q Hq Hn. apply (Hread q mn); [lia|exact Hq|exact Hn|exact R4].
      * unfold wr_ok. cbn [g' gw gl]. split; [done|]. split; [exact Hw|apply own_frames_0].
      * done.
      * done.
    + rewrite updn_other by done. destruct (i_local _ _ HI q) as (L1 & L2 & L3 & L4). split; [|split; [|split]].
      * by apply rd_ok_commit.
      * unfold wr_ok in *. destruct (gw (G q)) as [|e0 sl|e0 h0 t0|e0] eqn:Ew; try done; exfalso; apply Hne;
          apply (excl_other s G p q WAL_WRITE_LOCK Exclusive); try done; apply L2.
      * apply (ck_ok_more (publish s h) G); [done|done|]. by apply ck_ok_commit.
      * exact L4.
Qed.

(** The log is started over: no one reads it, and the database file has everything. *)
Lemma step_restart s G p e h t : Inv s G -> gw (G p) = WPub e h t -> mxFrame h = 0 -> nPage h = np e -> all_db s e -> exclusive (G p) ->
  salts_fresh s h = true -> (forall e0 sf n l fin b, gc (G p) <> CCopy e0 sf n l fin b) ->
  Inv (publish s h) (updn G p (set_gw (G p) (WWin (next_commit s h)))).
Proof using.
  intros HI Hp Hz Hnp Hall Hx Hs Hck. pose proof (i_hist _ _ HI) as Hh. pose proof (i_wr _ _ p HI) as K. unfold wr_ok in K. rewrite Hp in K.
  destruct K as (-> & Hw & Hh1 & _). pose proof (restart_hist s h Hh Hs Hz) as Hh'. assert (mx (next_commit s h) = 0) as Hm0 by exact Hz. set (e' := next_commit s h) in *. set (g' := set_gw (G p) (WWin e')).
  assert (forall q, gl (updn G p g' q) = gl (G q) /\ gr (updn G p g' q) = gr (G q) /\ gc (updn G p g' q) = gc (G q) /\
    gq (updn G p g' q) = gq (G q) /\ gs (updn G p g' q) = gs (G q)) as Hsame.
  { intros q. destruct (decide (q = p)) as [->|Hne]; [by rewrite updn_same|by rewrite updn_other]. }
  assert (forall e0, e0 ∈ hist s -> ~ live (publish s h) e0) as Hold.
  { intros e0 H0 Hl. unfold live in Hl. cbn [publish s_cur next_commit e_gen] in Hl. rewrite Hz in Hl. change (0 =? 0) with true in Hl.
    pose proof (h_gen _ Hh e0 H0). cbv iota in Hl. lia. }
  assert (forall q j, ~ on_mark (G q) j) as Hno.
  { intros q j [Hj Hl]. pose proof (proj1 Hx j Hj) as Hxj.
    assert (q = p) as -> by by apply (excl_other s G p q (WAL_READ_LOCK j) Shared). congruence. }
  assert (forall e0, e0 ∈ hist s -> e0 ∈ hist (publish s h)) as Hin.
  { intros e0 H0. apply elem_of_cons. by right. }
  split.
  - exact Hh'.
  - split; cbn [publish s_eff s_cur]; rewrite Hz; fold e'; [change (0 <= 0 <= mx e'); rewrite Hm0; lia|]. intros q Hq _. cbn [publish s_db s_cur]. cbn [next_commit e_img]. rewrite Hz.
    apply Hall. unfold np in *. cbn [publish s_cur next_commit e_hdr] in Hq. lia.
  - intros q i. rewrite (proj1 (Hsame q)). apply (i_locks _ _ HI).
  - apply (i_excl _ _ HI).
  - apply (i_procs _ _ HI).
  - left. exact Hh1.
  - split; [apply (i_nb _ _ HI)|]. right. exists p. rewrite updn_same. by exists e'.
  - intros q. destruct (i_local _ _ HI q) as (L1 & L2 & L3 & L4). destruct (Hsame q) as (S1 & S2 & S3 & S4 & S5). split; [|split; [|split]].
    + unfold rd_ok in *. rewrite S2. unfold known, on_mark in *. rewrite S1, S5.
      destruct (gr (G q)) as [|e0|e0|e0 j|e0 j n|e0 j n m|e0 j mn] eqn:Er.
      * cbn [publish s_cur next_commit e_no]. lia.
      * split; [apply Hin, L1|apply L1].
      * destruct L1 as [[K1 K2] _]. split; [split; [by apply Hin|done]|]. intros E. exfalso. pose proof (h_no _ Hh e0 K1) as Hn.
        apply (f_equal e_no) in E. cbn [publish s_cur next_commit e_no] in E. lia.
      * exfalso. apply (Hno q j), L1.
      * exfalso. apply (Hno q j). apply L1.
      * exfalso. apply (Hno q j). apply L1.
      * destruct L1 as ([K1 K2] & [Hj|(M & _)]); [|exfalso; by apply (Hno q j)]. split; [split; [by apply Hin|done]|]. left. exact Hj.
    + destruct (decide (q = p)) as [->|Hne].
      * rewrite updn_same. unfold wr_ok. cbn [g' set_gw gw gl]. split; [done|]. split; [exact Hw|]. split; [exact Hz|].
        split; [cbn [publish s_eff]; by rewrite Hz|exact Hx].
      * rewrite updn_other by done. unfold wr_ok in *. destruct (gw (G q)) as [|e0 sl|e0 h0 t0|e0] eqn:Ew; try done; exfalso; apply Hne;
          apply (excl_other s G p q WAL_WRITE_LOCK Exclusive); try done; apply L2.
    + unfold ck_ok, ckpt_of in *. rewrite S1, S3. destruct (gc (G q)) as [|e0|e0 sf i|e0 sf i y|e0 sf n n2 l|e0 sf n l fin b] eqn:Ec; try done.
      * destruct L3 as [K1 K2]. split; [by apply Hin|exact K2].
      * destruct L3 as [[K1 K2] K3]. split; [split; [by apply Hin|exact K2]|]. intros Hl. by destruct (Hold e0 K1).
      * destruct L3 as ((K1 & K2) & K3 & K4). split; [split; [by apply Hin|exact K2]|]. split; [done|]. intros Hl. by destruct (Hold e0 K1).
      * destruct L3 as [[K1 K2] K3]. split; [split; [by apply Hin|exact K2]|]. intros Hl. by destruct (Hold e0 K1).
      * exfalso. destruct (copying_alone s G q e0 sf n l fin b p HI Ec) as [Hno0 Hck0]. destruct Hx as [_ [Hx|Hx]]; [by apply Hno0|].
        specialize (Hck0 Hx). subst q. by apply (Hck e0 sf n l fin b).
    + unfold q_ok in *. rewrite S2, S4. exact L4.
Qed.

(** *** A process dies *)

Lemma start_known s G p : Inv s G -> gs (G p) <= e_no (s_cur s).
Proof using.
  intros HI. pose proof (i_hist _ _ HI) as Hh. pose proof (i_rd _ _ p HI) as K. unfold rd_ok in K.
  destruct (gr (G p)) as [|e|e|e j|e j n|e j n m|e j mn]; [done|..];
    (assert (known s (G p) e) as [K1 K2] by apply K); pose proof (h_no _ Hh e K1); lia.
Qed.

Definition ghost0 (start : Z) : ghost := mkGhost (fun _ => NotHeld) RNone WNone CNone None start.

Lemma step_die s G p : Inv s G -> may_die s p = true -> Inv (die s p) (updn G p (ghost0 (gs (G p)))).
Proof using.
  intros HI Hd. assert (gl (G p) WAL_WRITE_LOCK = Exclusive -> s_h1 s = s_h0 s /\ s_nBackfill s = s_eff s) as Hok.
  { intros Hl. unfold may_die in Hd. rewrite (i_locks _ _ HI), Hl in Hd. apply andb_true_iff in Hd as [H1 H2].
    apply hdr_eqb_eq in H1. apply Z.eqb_eq in H2. done. }
  pose proof (i_wr _ _ p HI) as K. unfold wr_ok in K. unfold die. apply step_local; try done.
  - intros q i. destruct (decide (q = p)) as [->|Hne]; [by rewrite !updn_same|]. rewrite !updn_other by done. apply (i_locks _ _ HI).
  - intros q1 q2 i Hne. destruct (decide (q1 = p)) as [->|H1]; [by rewrite updn_same|]. rewrite (updn_other _ _ q1) by done.
    destruct (decide (q2 = p)) as [->|H2]; [by rewrite updn_same|]. rewrite updn_other by done. by apply (i_excl _ _ HI).
  - intros q i Hq. destruct (decide (q = p)) as [->|Hne]; [by rewrite updn_same|]. rewrite updn_other by done. by apply (i_procs _ _ HI).
  - apply (start_known s G p HI).
  - intros (e & h & t & E). left. rewrite E in K. apply Hok, K.
  - intros (e & E). left. rewrite E in K. apply Hok, K.
Qed.

(** Only what a connection knows at each point matters. *)
Lemma Inv_ext s G G' : (forall p, G p = G' p) -> Inv s G -> Inv s G'.
Proof using.
  intros E HI. assert (opens_more s G G') as Hm.
  { intros j x Hj (q & e & mn & Hq & ->). left. exists q, e, mn. by rewrite E. }
  split; try apply HI.
  - intros q i. rewrite <- E. apply (i_locks _ _ HI).
  - destruct (i_h1 _ _ HI) as [|[q (e & h & t & Hq)]]; [by left|right]. exists q, e, h, t. by rewrite <- E.
  - destruct (i_nb _ _ HI) as [Hn [|[q [e Hq]]]]; (split; [done|]); [by left|right]. exists q, e. by rewrite <- E.
  - intros q. rewrite <- E. destruct (i_local _ _ HI q) as (L1 & L2 & L3 & L4). split; [done|]. split; [done|]. split; [|done].
    by apply (ck_ok_more s G); [apply HI|..].
Qed.

End inv.
