(* ===== verification/WalWp.v ===== *)
(** * Reasoning about connections that share the log (wal.c of sqlite3.c)

    [wp m Q g]: a connection that knows [g] and runs [m], whatever the others do between its
    operations, keeps [Inv], and what it returns and knows at the end satisfies [Q].  Below are
    its rules and what a connection learns from each operation; [WalIsolation] goes through the
    routines with them. *)

From S2P Require Import Prelude Bitwise Varint UnixFile WalIndex WalLog WalWrite WalShm WalInv.
From stdpp Require Import options.

(** What a checkpoint needs of its iterator: over frames whose pages have numbers it returns
    each page that a frame after [n] holds, with the last frame of the page. *)
Class Backfill (iter : (Z -> Z) -> Z -> Z -> list (Z * Z)) : Prop := backfill_law :
  forall pgno n m, 0 <= n -> 0 < m -> (forall i, 1 <= i <= m -> 0 < pgno i < 0xffffffff) ->
    (forall q f, (q, f) ∈ iter pgno n m -> 1 <= f <= m /\ pgno f = q /\ nof pgno q f m) /\
    (forall i, n < i <= m -> exists f, i <= f /\ (pgno i, f) ∈ iter pgno n m).

(** The locks that what a connection knows depends on. *)
Definition needs (g : ghost) (i : Z) : Prop :=
  match gr g with
  | RSlot _ j | RMin _ j _ | RMark _ j _ _ | ROpen _ j _ => i = WAL_READ_LOCK j
  | _ => False
  end \/
  match gw g with
  | WNone => False
  | WTxn _ _ => i = WAL_WRITE_LOCK
  | _ => True
  end \/
  match gc g with
  | CNone => False
  | CCopy _ _ _ _ _ _ => i = WAL_CKPT_LOCK \/ i = WAL_READ_LOCK 0
  | _ => i = WAL_CKPT_LOCK
  end.

Lemma local_gl s G g l : (forall i, needs g i -> l i = gl g i) -> local_ok s G g -> local_ok s G (set_gl g l).
Proof.
  intros Hl (L1 & L2 & L3 & L4). unfold needs in Hl. split; [|split; [|split]]; [| | |exact L4].
  - unfold rd_ok in *. cbn [set_gl gr]. unfold known, on_mark in *. cbn [set_gl gl gs]. destruct (gr g) as [|e|e|e j|e j n|e j n m|e j mn]; try done;
      try (rewrite (Hl (WAL_READ_LOCK j)) by auto; exact L1).
    destruct L1 as (K & [(-> & H1 & H2)|H]); (split; [exact K|]).
    + left. split; [done|]. split; [|exact H2]. rewrite Hl by auto. exact H1.
    + right. rewrite (Hl (WAL_READ_LOCK j)) by auto. exact H.
  - unfold wr_ok in *. cbn [set_gl gw]. unfold exclusive in *. cbn [set_gl gl].
    destruct (gw g) as [|e t|e h t|e]; try done; [rewrite Hl by auto; exact L2| |].
    + assert (forall i, l i = gl g i) as El by auto. rewrite !El. destruct L2 as (H1 & H2 & H3 & H0 & [H4|(H4 & H5 & H6 & H7 & H8)]);
        (split; [done|]; split; [done|]; split; [done|]; split; [done|]); [by left|right]. split; [done|]. split; [done|]. split; [done|].
      split; [|done]. intros j Hj. rewrite El. by apply H7.
    + assert (forall i, l i = gl g i) as El by auto. rewrite !El. destruct L2 as (H1 & H2 & H3 & H4 & H5 & H6).
      split; [done|]. split; [done|]. split; [done|]. split; [done|]. split; [|done]. intros j Hj. rewrite El. by apply H5.
  - unfold ck_ok, ckpt_of in *. cbn [set_gl gc gl]. destruct (gc g) as [|e|e sf i|e sf i y|e sf n n2 t|e sf n t fin b]; try done;
      try (rewrite (Hl WAL_CKPT_LOCK) by auto; exact L3).
    rewrite (Hl WAL_CKPT_LOCK), (Hl (WAL_READ_LOCK 0)) by auto. exact L3.
Qed.

Section wp.
Context (iter : (Z -> Z) -> Z -> Z -> list (Z * Z)).
Context (procs : list nat) (p : nat).

Fixpoint wp {A} (m : wprog A) (Q : A -> ghost -> Prop) (g : ghost) : Prop :=
  match m with
  | WRet a => forall s G, Inv procs s G -> G p = g -> exists g', Inv procs s (updn G p g') /\ Q a g'
  | WOp o k => forall s G, Inv procs s G -> G p = g -> forall ch r s', op_do iter procs p s o ch = Some (r, s') ->
      exists g', Inv procs s' (updn G p g') /\ wp (k r) Q g'
  end.

Lemma updn_id (G : nat -> ghost) q : updn G p (G p) q = G q.
Proof using. destruct (decide (q = p)) as [->|]; [by rewrite updn_same|by rewrite updn_other]. Qed.

Lemma updn_twice (G : nat -> ghost) g1 g2 q : updn (updn G p g1) p g2 q = updn G p g2 q.
Proof using. destruct (decide (q = p)) as [->|]; [by rewrite !updn_same|by rewrite !updn_other]. Qed.

Lemma Inv_id s G : Inv procs s G -> Inv procs s (updn G p (G p)).
Proof using. apply Inv_ext. intros q. by rewrite updn_id. Qed.

Lemma Inv_twice s G g1 g2 : Inv procs s (updn (updn G p g1) p g2) -> Inv procs s (updn G p g2).
Proof using. apply Inv_ext. intros q. by rewrite updn_twice. Qed.

(** What is known may be changed before a step. *)
Lemma wp_upd {A} (m : wprog A) Q g :
  (forall s G, Inv procs s G -> G p = g -> exists g', Inv procs s (updn G p g') /\ wp m Q g') -> wp m Q g.
Proof using.
  intros H. destruct m as [a|R o k]; cbn [wp].
  - intros s G HI Hg. destruct (H s G HI Hg) as (g1 & HI1 & H1). cbn [wp] in H1.
    destruct (H1 s (updn G p g1) HI1 ltac:(by rewrite updn_same)) as (g2 & HI2 & H2). exists g2. split; [by apply (Inv_twice s G g1)|done].
  - intros s G HI Hg ch r s' Hs. destruct (H s G HI Hg) as (g1 & HI1 & H1). cbn [wp] in H1.
    destruct (H1 s (updn G p g1) HI1 ltac:(by rewrite updn_same) ch r s' Hs) as (g2 & HI2 & H2). exists g2. split; [by apply (Inv_twice s' G g1)|done].
Qed.

Lemma wp_to {A} (m : wprog A) Q g g' :
  (forall s G, Inv procs s G -> G p = g -> Inv procs s (updn G p g')) -> wp m Q g' -> wp m Q g.
Proof using. intros H Hm. apply wp_upd. intros s G HI Hg. exists g'. auto. Qed.

Lemma wp_ret {A} (a : A) (Q : A -> ghost -> Prop) g : Q a g -> wp (WRet a) Q g.
Proof using. intros H s G HI <-. exists (G p). split; [by apply Inv_id|done]. Qed.

Lemma wp_mono {A} (m : wprog A) (Q Q' : A -> ghost -> Prop) g : (forall a g', Q a g' -> Q' a g') -> wp m Q g -> wp m Q' g.
Proof using.
  intros H. revert g. induction m as [a|R o k IH]; intros g; cbn [wp].
  - intros Hm s G HI Hg. destruct (Hm s G HI Hg) as (g' & H1 & H2). exists g'. auto.
  - intros Hm s G HI Hg ch r s' Hs. destruct (Hm s G HI Hg ch r s' Hs) as (g' & H1 & H2). exists g'. auto.
Qed.

Lemma wp_bind {A B} (m : wprog A) (f : A -> wprog B) Q g : wp m (fun a g' => wp (f a) Q g') g -> wp (wbind m f) Q g.
Proof using.
  revert g. induction m as [a|R o k IH]; intros g H; cbn [wbind].
  - apply wp_upd. exact H.
  - intros s G HI Hg ch r s' Hs. destruct (H s G HI Hg ch r s' Hs) as (g' & H1 & H2). exists g'. auto.
Qed.

(** What is known may be changed at the end. *)
Lemma wp_last {A} (m : wprog A) Q g : wp m (fun a g' => wp (WRet a) Q g') g -> wp m Q g.
Proof using.
  revert g. induction m as [a|R o k IH]; intros g; cbn [wp]; [apply (wp_upd (WRet a))|].
  intros Hm s G HI Hg ch r s' Hs. destruct (Hm s G HI Hg ch r s' Hs) as (g' & H1 & H2). exists g'. split; [done|]. by apply IH.
Qed.

(** A step of a program: what its first part ensures is what the rest starts from. *)
Lemma wp_seq {A B} (m : wprog A) (f : A -> wprog B) R Q g :
  wp m R g -> (forall a g', R a g' -> wp (f a) Q g') -> wp (wbind m f) Q g.
Proof using. intros H1 H2. apply wp_bind. by apply (wp_mono m R). Qed.

Lemma wp_op {R} (o : wop R) (Q : R -> ghost -> Prop) g :
  (forall s G, Inv procs s G -> G p = g -> forall ch r s', op_do iter procs p s o ch = Some (r, s') ->
    exists g', Inv procs s' (updn G p g') /\ Q r g') -> wp (op o) Q g.
Proof using.
  intros H s G HI Hg ch r s' Hs. destruct (H s G HI Hg ch r s' Hs) as (g' & H1 & H2). exists g'. split; [done|]. by apply wp_ret.
Qed.

(** An operation that changes nothing, used without its answer. *)
Lemma wp_look {R} (o : wop R) g : (forall s ch r s', op_do iter procs p s o ch = Some (r, s') -> s' = s) -> wp (op o) (fun _ g' => g' = g) g.
Proof using.
  intros Ho. apply wp_op. intros s G HI Hg ch r s' Hs. exists g. rewrite (Ho s ch r s' Hs). subst g. split; [by apply Inv_id|done].
Qed.

Lemma wp_env g : wp (op OEnv) (fun _ g' => g' = g) g.
Proof using. apply wp_look. intros s ch r s' E. cbn in E. by simplify_eq. Qed.

(** *** Locks *)

Context (Hp : p ∈ procs).

Lemma lset_range l i n m j : in_range i n j = true -> lset l i n m j = m.
Proof using. unfold lset. by intros ->. Qed.

Lemma wp_lock m i n (o : wop Z) g :
  (forall s ch r s', op_do iter procs p s o ch = Some (r, s') -> (r, s') = try_lock procs s p i n m (ch_rc ch)) ->
  m <> NotHeld -> (forall j, in_range i n j = true -> ~ needs g j) ->
  wp (op o) (fun rc g' => if rc =? SQLITE_OK then g' = set_gl g (lset (gl g) i n m) else g' = g) g.
Proof using Hp.
  intros Ho Hm Hn. apply wp_op. intros s G HI Hg ch r s' Hs. apply Ho in Hs. unfold try_lock in Hs. subst g.
  destruct (Z.eqb_spec (ch_rc ch) SQLITE_OK) as [E|E]; cbn [negb] in Hs.
  - destruct (forallb (can_lock procs s p m) (rangeZ i n)) eqn:Ec; injection Hs as -> ->.
    + exists (set_gl (G p) (lset (gl (G p)) i n m)). split; [|done].
      destruct (local_gl s G (G p) (lset (gl (G p)) i n m)) as (L1 & L2 & L3 & L4); [|apply (i_local _ _ _ HI p)|].
      { intros j Hj. unfold lset. destruct (in_range i n j) eqn:Er; [|done]. by destruct (Hn j Er). }
      apply step_lock; try done.
      * intros e j mn E' Hj. left. by exists p, e, mn.
      * by right.
      * by right.
    + exists (G p). split; [by apply Inv_id|done].
  - injection Hs as -> ->. exists (G p). split; [by apply Inv_id|]. by rewrite (proj2 (Z.eqb_neq _ _) E).
Qed.

Lemma wp_lock_shared i g : ~ needs g i ->
  wp (op (OLockShared i)) (fun rc g' => if rc =? SQLITE_OK then g' = set_gl g (lset (gl g) i 1 Shared) else g' = g) g.
Proof using Hp.
  intros Hn. apply wp_lock; [intros s ch r s' E; cbn in E; by simplify_eq|done|]. intros j Hj. unfold in_range in Hj.
  apply andb_true_iff in Hj as [H1 H2]. apply Z.leb_le in H1. apply Z.ltb_lt in H2. by replace j with i by lia.
Qed.

Lemma wp_lock_excl i n g : (forall j, i <= j < i + n -> ~ needs g j) ->
  wp (op (OLockExclusive i n)) (fun rc g' => if rc =? SQLITE_OK then g' = set_gl g (lset (gl g) i n Exclusive) else g' = g) g.
Proof using Hp.
  intros Hn. apply wp_lock; [intros s ch r s' E; cbn in E; by simplify_eq|done|]. intros j Hj. unfold in_range in Hj.
  apply andb_true_iff in Hj as [H1 H2]. apply Z.leb_le in H1. apply Z.ltb_lt in H2. apply Hn. lia.
Qed.

Lemma wp_unlock i n (o : wop unit) g :
  (forall s ch r s', op_do iter procs p s o ch = Some (r, s') -> s' = hold s p i n NotHeld) ->
  (forall j, i <= j < i + n -> ~ needs g j) -> wp (op o) (fun _ g' => g' = set_gl g (lset (gl g) i n NotHeld)) g.
Proof using Hp.
  intros Ho Hn. apply wp_op. intros s G HI Hg ch r s' Hs. rewrite (Ho s ch r s' Hs). subst g. eexists. split; [|done].
  destruct (local_gl s G (G p) (lset (gl (G p)) i n NotHeld)) as (L1 & L2 & L3 & L4); [|apply (i_local _ _ _ HI p)|].
  { intros j Hj. unfold lset. destruct (in_range i n j) eqn:Er; [|done]. destruct (Hn j); [|done]. unfold in_range in Er.
    apply andb_true_iff in Er as [H1 H2]. apply Z.leb_le in H1. apply Z.ltb_lt in H2. lia. }
  apply step_lock; try done.
  - intros e j mn E' Hj. left. by exists p, e, mn.
  - by right.
  - by right.
Qed.

Lemma wp_unlock_shared i g : ~ needs g i -> wp (op (OUnlockShared i)) (fun _ g' => g' = set_gl g (lset (gl g) i 1 NotHeld)) g.
Proof using Hp. intros Hn. apply wp_unlock; [intros s ch r s' E; cbn in E; by simplify_eq|]. intros j Hj. by replace j with i by lia. Qed.

Lemma wp_unlock_excl i n g : (forall j, i <= j < i + n -> ~ needs g j) ->
  wp (op (OUnlockExclusive i n)) (fun _ g' => g' = set_gl g (lset (gl g) i n NotHeld)) g.
Proof using Hp. intros Hn. apply wp_unlock; [intros s ch r s' E; cbn in E; by simplify_eq|done]. Qed.

(** *** What is known changes *)

Lemma upd_gr s G g r : Inv procs s G -> G p = g -> rd_ok s (set_gr g r) -> q_ok s (set_gr g r) ->
  (forall e j mn, r = ROpen e j mn -> 1 <= j -> opens G j (mx e) \/ mx (s_cur s) <= mx e) -> Inv procs s (updn G p (set_gr g r)).
Proof using.
  intros HI <- H1 H2 Ho. destruct (i_local _ _ _ HI p) as (L1 & L2 & L3 & L4).
  apply step_ghost; try done; by right.
Qed.

Lemma upd_gc s G g c : Inv procs s G -> G p = g -> ck_ok s G (set_gc g c) -> Inv procs s (updn G p (set_gc g c)).
Proof using.
  intros HI <- H1. destruct (i_local _ _ _ HI p) as (L1 & L2 & L3 & L4).
  apply step_ghost; try done; [|by right..]. intros e j mn E Hj. left. by exists p, e, mn.
Qed.

Lemma upd_gq s G g x : Inv procs s G -> G p = g -> q_ok s (set_gq g x) -> Inv procs s (updn G p (set_gq g x)).
Proof using.
  intros HI <- H1. destruct (i_local _ _ _ HI p) as (L1 & L2 & L3 & L4).
  apply step_ghost; try done; [|by right..]. intros e j mn E Hj. left. by exists p, e, mn.
Qed.

Lemma upd_gw s G g w : Inv procs s G -> G p = g -> ~ is_pub g -> ~ is_win g -> wr_ok s (set_gw g w) -> Inv procs s (updn G p (set_gw g w)).
Proof using.
  intros HI <- Hn1 Hn2 H1. destruct (i_local _ _ _ HI p) as (L1 & L2 & L3 & L4).
  apply step_ghost; try done. intros e j mn E Hj. left. by exists p, e, mn.
Qed.

(** A connection may forget its part in the log. *)
Lemma wp_forget_gr {A} (m : wprog A) Q g : wp m Q (set_gr g RNone) -> wp m Q g.
Proof using.
  apply wp_to. intros s G HI Hg. apply upd_gr; try done. unfold rd_ok. cbn [set_gr gr gs]. subst g. apply (start_known procs s G p HI).
Qed.

Lemma wp_forget_gc {A} (m : wprog A) Q g : wp m Q (set_gc g CNone) -> wp m Q g.
Proof using. apply wp_to. intros s G HI Hg. by apply upd_gc. Qed.

Lemma wp_forget_gq {A} (m : wprog A) Q g : wp m Q (set_gq g None) -> wp m Q g.
Proof using. apply wp_to. intros s G HI Hg. apply upd_gq; try done. unfold q_ok. cbn [set_gq gr gq]. by destruct (gr g). Qed.

(** No header is being stored. *)
Definition quiet (g : ghost) : Prop := gw g = WNone \/ exists e t, gw g = WTxn e t.

Lemma quiet_pub g : quiet g -> ~ is_pub g.
Proof using. intros [H|(e & sl & H)] (e' & h & t & E); congruence. Qed.

Lemma quiet_win g : quiet g -> ~ is_win g.
Proof using. intros [H|(e & sl & H)] (e' & E); congruence. Qed.

Lemma wp_forget_gw {A} (m : wprog A) Q g : quiet g -> wp m Q (set_gw g WNone) -> wp m Q g.
Proof using. intros Hq. apply wp_to. intros s G HI Hg. apply upd_gw; [done|done|by apply quiet_pub|by apply quiet_win|done]. Qed.

(** *** Reading the header *)

Lemma hdr_is_cur s G : Inv procs s G -> s_h0 s = e_hdr (s_cur s).
Proof using. intros HI. apply (h_h0 _ (i_hist _ _ _ HI)). Qed.

Lemma wp_hdr g : wp (op (OHdr false)) (fun h g' => exists e, h = e_hdr e /\ g' = set_gr g (RHdr e) /\
  forall e0 sl, gw g = WTxn e0 sl -> e = e0) g.
Proof using.
  apply wp_op. intros s G HI Hg ch r s' E. cbn in E. injection E as <- <-. exists (set_gr g (RHdr (s_cur s))). split.
  - apply upd_gr; try done. unfold rd_ok. cbn [set_gr gr]. split; [apply cur_in|]. cbn [gs]. subst g. apply (start_known procs s G p HI).
  - exists (s_cur s). split; [by apply (hdr_is_cur s G)|]. split; [done|]. intros e0 sl Hw. pose proof (i_wr _ _ _ p HI) as K.
    unfold wr_ok in K. rewrite Hg, Hw in K. symmetry. apply K.
Qed.

(** The holder of the write lock. *)
Lemma wp_hdr_txn c e sl g : gw g = WTxn e sl -> wp (op (OHdr c)) (fun h g' => h = e_hdr e /\ g' = g) g.
Proof using.
  intros Hw. apply wp_op. intros s G HI Hg ch r s' E. cbn in E. injection E as <- <-. exists g. split; [subst g; by apply Inv_id|].
  split; [|done]. pose proof (i_wr _ _ _ p HI) as K. unfold wr_ok in K. rewrite Hg, Hw in K. destruct K as (-> & Hl & _).
  assert (s_h1 s = s_h0 s) as E1.
  { apply (copies_agree procs s G p HI); [by rewrite Hg|]. rewrite Hg. intros (e' & h & t & E'). congruence. }
  rewrite <- (hdr_is_cur s G HI). by destruct c.
Qed.

(** The end of beginning to read. *)
Lemma wp_hdr_full e mn g : gr g = RFull e -> gl g (WAL_READ_LOCK 0) = Shared ->
  wp (op (OHdr false)) (fun h g' => (h = e_hdr e /\ g' = set_gr g (ROpen e 0 mn)) \/ (h <> e_hdr e /\ g' = g)) g.
Proof using.
  intros Hr Hl. apply wp_op. intros s G HI Hg ch r s' E. cbn in E. injection E as <- <-. rewrite (hdr_is_cur s G HI).
  pose proof (i_hist _ _ _ HI) as Hh. pose proof (i_rd _ _ _ p HI) as K. unfold rd_ok in K. rewrite Hg, Hr in K. destruct K as [K HF].
  destruct (decide (e_hdr (s_cur s) = e_hdr e)) as [E|E].
  - assert (e = s_cur s) as Hcur by (apply (hdr_unique s); [done|apply K|apply cur_in|done]).
    exists (set_gr g (ROpen e 0 mn)). split; [|by left]. apply upd_gr; try done.
    + unfold rd_ok. cbn [set_gr gr]. split; [exact K|]. left. split; [done|]. split; [exact Hl|].
      destruct (i_db _ _ _ HI) as [_ Hd]. rewrite (HF Hcur) in Hd. subst e. intros q Hq. apply Hd; [done|]. intros i Hi. lia.
    + unfold q_ok. cbn [set_gr gr gq]. destruct (gq g) as [[q f]|]; [lia|done].
    + intros e' j mn' Eo Hj. injection Eo as <- <- <-. lia.
  - exists g. split; [subst g; by apply Inv_id|by right].
Qed.

Lemma wp_hdr_mark e j n m g : gr g = RMark e j n m -> gq g = None -> m <= mx e ->
  wp (op (OHdr false)) (fun h g' => (h = e_hdr e /\ g' = set_gr g (ROpen e j (n + 1))) \/ (h <> e_hdr e /\ g' = g)) g.
Proof using.
  intros Hr Hq Hm. apply wp_op. intros s G HI Hg ch r s' E. cbn in E. injection E as <- <-. rewrite (hdr_is_cur s G HI).
  pose proof (i_hist _ _ _ HI) as Hh. pose proof (i_rd _ _ _ p HI) as K. unfold rd_ok in K. rewrite Hg, Hr in K. destruct K as (K & Ho & Hn & Hk).
  destruct (decide (e_hdr (s_cur s) = e_hdr e)) as [E|E].
  - assert (e = s_cur s) as Hcur by (apply (hdr_unique s); [done|apply K|apply cur_in|done]).
    exists (set_gr g (ROpen e j (n + 1))). split; [|by left]. apply upd_gr; try done.
    + unfold rd_ok. cbn [set_gr gr]. split; [exact K|]. right. split; [exact Ho|]. split; [by rewrite Hcur|]. split; [lia|]. split; [lia|].
      destruct (i_db _ _ _ HI) as [_ Hd]. subst e. intros q Hq' Hnof. apply Hd; [done|]. apply (nof_sub _ _ _ _ _ _ Hnof); lia.
    + unfold q_ok. cbn [set_gr gr gq]. by rewrite Hq.
    + intros e' j' mn' Eo Hj. injection Eo as <- <- <-. right. by rewrite Hcur.
  - exists g. split; [subst g; by apply Inv_id|by right].
Qed.

(** *** Reading [nBackfill] and the marks *)

Lemma wp_nb g : wp (op ONBackfill) (fun r g' => 0 <= r /\ g' = g) g.
Proof using.
  apply wp_op. intros s G HI Hg ch r s' E. cbn in E. injection E as <- <-. exists g. split; [subst g; by apply Inv_id|]. split; [apply (i_nb _ _ _ HI)|done].
Qed.

Lemma wp_nb_full e g : gr g = RHdr e -> wp (op ONBackfill) (fun r g' => (r = mx e /\ g' = set_gr g (RFull e)) \/ (r <> mx e /\ g' = g)) g.
Proof using.
  intros Hr. apply wp_op. intros s G HI Hg ch r s' E. cbn in E. injection E as <- <-.
  pose proof (i_rd _ _ _ p HI) as K. unfold rd_ok in K. rewrite Hg, Hr in K. destruct (Z.eq_dec (s_nBackfill s) (mx e)) as [E|E].
  - exists (set_gr g (RFull e)). split; [|by left]. apply upd_gr; try done. unfold rd_ok. cbn [set_gr gr]. split; [exact K|]. intros Hcur.
    destruct (i_nb _ _ _ HI) as [_ [E'|[q [e' Hq]]]]; [congruence|]. pose proof (i_wr _ _ _ q HI) as Kq. unfold wr_ok in Kq. rewrite Hq in Kq.
    destruct Kq as (-> & _ & H1 & H2 & _). by rewrite Hcur, H1.
  - exists g. split; [subst g; by apply Inv_id|by right].
Qed.

Lemma wp_nb_restart e sl g : gr g = RHdr e -> gw g = WTxn e sl ->
  wp (op ONBackfill) (fun r g' => (mx e <= r /\ g' = set_gr g (RFull e)) \/ (r < mx e /\ g' = g)) g.
Proof using.
  intros Hr Hw. apply wp_op. intros s G HI Hg ch r s' E. cbn in E. injection E as <- <-.
  pose proof (i_rd _ _ _ p HI) as K. unfold rd_ok in K. rewrite Hg, Hr in K.
  pose proof (i_wr _ _ _ p HI) as Kw. unfold wr_ok in Kw. rewrite Hg, Hw in Kw. destruct Kw as (Hcur & Hl & _).
  destruct (Z.le_gt_cases (mx e) (s_nBackfill s)) as [E|E].
  - exists (set_gr g (RFull e)). split; [|by left]. apply upd_gr; try done. unfold rd_ok. cbn [set_gr gr]. split; [exact K|]. intros _.
    destruct (i_nb _ _ _ HI) as [_ [E'|[q [e' Hq]]]].
    + destruct (i_db _ _ _ HI) as [Heff _]. subst e. lia.
    + pose proof (i_wr _ _ _ q HI) as Kq. unfold wr_ok in Kq. rewrite Hq in Kq. exfalso.
      assert (q = p) as -> by (apply (excl_other procs s G p q WAL_WRITE_LOCK Exclusive); [done|by rewrite Hg|apply Kq|done]). congruence.
  - exists g. split; [subst g; by apply Inv_id|right; split; [lia|done]].
Qed.

Lemma wp_nb_slot e j g : gr g = RSlot e j -> wp (op ONBackfill) (fun r g' => 0 <= r /\ g' = set_gr g (RMin e j r)) g.
Proof using.
  intros Hr. apply wp_op. intros s G HI Hg ch r s' E. cbn in E. injection E as <- <-.
  pose proof (i_rd _ _ _ p HI) as K. unfold rd_ok in K. rewrite Hg, Hr in K. destruct K as [K Ho].
  exists (set_gr g (RMin e j (s_nBackfill s))). split; [|split; [apply (i_nb _ _ _ HI)|done]]. apply upd_gr; try done. unfold rd_ok. cbn [set_gr gr].
  split; [exact K|]. split; [exact Ho|]. pose proof (proj1 (i_nb _ _ _ HI)).
  rewrite (nBackfill_slot procs s G p j HI) in * by (rewrite Hg; exact Ho). lia.
Qed.

Lemma wp_mark_min e j n g : gr g = RMin e j n -> wp (op (OReadMark j)) (fun r g' => g' = set_gr g (RMark e j n r)) g.
Proof using.
  intros Hr. apply wp_op. intros s G HI Hg ch r s' E. cbn in E. injection E as <- <-.
  pose proof (i_rd _ _ _ p HI) as K. unfold rd_ok in K. rewrite Hg, Hr in K. destruct K as (K & Ho & Hn).
  exists (set_gr g (RMark e j n (s_mark s j))). split; [|done]. by apply upd_gr.
Qed.

Lemma wp_set_mark i m g : gl g (WAL_READ_LOCK i) = Exclusive -> wp (op (OSetReadMark i m)) (fun _ g' => g' = g) g.
Proof using.
  intros Hl. apply wp_op. intros s G HI Hg ch r s' E. cbn in E. injection E as <- <-. exists g. split; [|done].
  subst g. apply Inv_id. by apply (step_mark procs s G p).
Qed.

(** *** Checkpoints *)

Lemma ck_of s G g : Inv procs s G -> G p = g -> ck_ok s G g.
Proof using. intros HI <-. apply (i_ck _ _ _ p HI). Qed.

Lemma wp_ck_start {A} e (m : wprog A) Q g : gr g = RHdr e -> gl g WAL_CKPT_LOCK = Exclusive -> wp m Q (set_gc g (CHdr e)) -> wp m Q g.
Proof using.
  intros Hr Hl. apply wp_to. intros s G HI Hg. apply upd_gc; try done. unfold ck_ok, ckpt_of. cbn [set_gc gc gl].
  pose proof (i_rd _ _ _ p HI) as K. unfold rd_ok in K. rewrite Hg, Hr in K. split; [apply K|]. split; [done|]. apply (h_mx _ (i_hist _ _ _ HI)), K.
Qed.

Lemma wp_ck_scan {A} e (m : wprog A) Q g : gc g = CHdr e -> wp m Q (set_gc g (CScan e (mx e) 1)) -> wp m Q g.
Proof using.
  intros Hc. apply wp_to. intros s G HI Hg. apply upd_gc; try done. pose proof (ck_of s G g HI Hg) as K.
  unfold ck_ok, ckpt_of in *. cbn [set_gc gc gl]. rewrite Hc in K. destruct K as (K1 & K2 & _). split; [split; [done|]; split; [done|lia]|].
  intros _ j x Hj. lia.
Qed.

Lemma wp_mark_scan e sf i g : gc g = CScan e sf i -> 1 <= i -> wp (op (OReadMark i)) (fun y g' => g' = set_gc g (CMark e sf i y)) g.
Proof using.
  intros Hc Hi. apply wp_op. intros s G HI Hg ch r s' E. cbn in E. injection E as <- <-. exists (set_gc g (CMark e sf i (s_mark s i))).
  split; [|done]. apply upd_gc; try done. pose proof (ck_of s G g HI Hg) as K. unfold ck_ok, ckpt_of in *. cbn [set_gc gc gl]. rewrite Hc in K.
  destruct K as [K1 K2]. split; [exact K1|]. split; [done|]. intros Hl. split; [by apply K2|]. intros x (q & e' & mn & Hq & ->). left.
  pose proof (i_rd _ _ _ q HI) as Kq. unfold rd_ok in Kq. rewrite Hq in Kq. destruct Kq as (_ & [[-> _]|(_ & _ & _ & Hm & _)]); [lia|done].
Qed.

(** The mark does not hold the checkpoint back. *)
Lemma wp_scan_past {A} e sf i y (m : wprog A) Q g : gc g = CMark e sf i y -> sf <= y ->
  wp m Q (set_gc g (CScan e sf (i + 1))) -> wp m Q g.
Proof using.
  intros Hc Hy. apply wp_to. intros s G HI Hg. apply upd_gc; try done. pose proof (ck_of s G g HI Hg) as K.
  unfold ck_ok, ckpt_of in *. cbn [set_gc gc gl]. rewrite Hc in K. destruct K as (K1 & K2 & K3). split; [exact K1|].
  intros Hl. destruct (K3 Hl) as [K4 K5]. intros j x Hj Ho. destruct (Z.eq_dec j i) as [->|]; [destruct (K5 x Ho); lia|]. apply (K4 j x); [lia|done].
Qed.

(** Its lock is held by a reader: the checkpoint stops at the mark. *)
Lemma wp_scan_busy {A} e sf i y (m : wprog A) Q g : gc g = CMark e sf i y -> y < sf ->
  wp m Q (set_gc g (CScan e y (i + 1))) -> wp m Q g.
Proof using.
  intros Hc Hy. apply wp_to. intros s G HI Hg. apply upd_gc; try done. pose proof (ck_of s G g HI Hg) as K.
  unfold ck_ok, ckpt_of in *. cbn [set_gc gc gl]. rewrite Hc in K. destruct K as ((K1 & K1' & K1'') & K2 & K3).
  split; [split; [done|]; split; [done|lia]|].
  intros Hl. destruct (K3 Hl) as [K4 K5]. intros j x Hj Ho. destruct (Z.eq_dec j i) as [->|]; [destruct (K5 x Ho); lia|].
  specialize (K4 j x ltac:(lia) Ho). lia.
Qed.

(** Its lock was free: no one reads under it. *)
Lemma wp_scan_free {A} e sf i y (m : wprog A) Q g : gc g = CMark e sf i y -> gl g (WAL_READ_LOCK i) = Exclusive ->
  wp m Q (set_gc g (CScan e sf (i + 1))) -> wp m Q g.
Proof using.
  intros Hc Hx. apply wp_to. intros s G HI Hg. apply upd_gc; try done. pose proof (ck_of s G g HI Hg) as K.
  unfold ck_ok, ckpt_of in *. cbn [set_gc gc gl]. rewrite Hc in K. destruct K as (K1 & K2 & K3). split; [exact K1|].
  intros Hl. destruct (K3 Hl) as [K4 K5]. intros j x Hj Ho. destruct (Z.eq_dec j i) as [->|]; [|apply (K4 j x); [lia|done]].
  exfalso. destruct Ho as (q & e' & mn & Hq & ->). pose proof (i_rd _ _ _ q HI) as Kq. unfold rd_ok in Kq. rewrite Hq in Kq.
  destruct Kq as (_ & [[-> _]|(Ho & _)]); [lia|]. apply (slot_not_mine procs s G p i q i HI); [by rewrite Hg|done|done].
Qed.

(** [nBackfill] counts the frames of a log that has some. *)
Lemma nb_live s G e : Inv procs s G -> e ∈ hist s -> live s e -> 0 < mx e -> s_nBackfill s = s_eff s.
Proof using. intros HI He Hl Hm. apply (nBackfill_eff procs s G HI). pose proof (h_live _ (i_hist _ _ _ HI) e He Hl). lia. Qed.

Lemma wp_nb_scan e sf g : gc g = CScan e sf WAL_NREADER -> 0 < mx e ->
  wp (op ONBackfill) (fun r g' => 0 <= r /\ ((r < sf /\ g' = set_gc g (CPrep e sf r r None)) \/ (sf <= r /\ g' = g))) g.
Proof using.
  intros Hc Hm. apply wp_op. intros s G HI Hg ch r s' E. cbn in E. injection E as <- <-.
  destruct (Z.lt_ge_cases (s_nBackfill s) sf) as [Hlt|Hge].
  - exists (set_gc g (CPrep e sf (s_nBackfill s) (s_nBackfill s) None)). split; [|split; [apply (i_nb _ _ _ HI)|by left]].
    apply upd_gc; try done. pose proof (ck_of s G g HI Hg) as K. unfold ck_ok, ckpt_of in *. cbn [set_gc gc gl]. rewrite Hc in K.
    destruct K as [K1 K2]. split; [exact K1|]. intros Hl. split; [by apply K2|]. split; [symmetry; by apply (nb_live s G e HI (proj1 K1))|].
    split; [done|]. split; [done|]. intros l El. done.
  - exists g. split; [subst g; by apply Inv_id|]. split; [apply (i_nb _ _ _ HI)|by right].
Qed.

Lemma wp_nb_prep e sf n n2 g : gc g = CPrep e sf n n2 None -> 0 < mx e ->
  wp (op ONBackfill) (fun r g' => 0 <= r /\ g' = set_gc g (CPrep e sf r r None)) g.
Proof using.
  intros Hc Hm. apply wp_op. intros s G HI Hg ch r s' E. cbn in E. injection E as <- <-.
  exists (set_gc g (CPrep e sf (s_nBackfill s) (s_nBackfill s) None)). split; [|split; [apply (i_nb _ _ _ HI)|done]].
  apply upd_gc; try done. pose proof (ck_of s G g HI Hg) as K. unfold ck_ok, ckpt_of in *. cbn [set_gc gc gl]. rewrite Hc in K.
  destruct K as [K1 K2]. split; [exact K1|]. intros Hl. destruct (K2 Hl) as (K3 & K4 & K5 & K6 & K7).
  rewrite (nb_live s G e HI (proj1 K1) Hl Hm). split; [done|]. split; [done|]. split; [lia|]. split; [done|]. intros l El. done.
Qed.

Lemma wp_iterator `{!Backfill iter} e sf n n2 g : gc g = CPrep e sf n n2 None -> 0 < mx e -> 0 <= n ->
  wp (op (OIterator n (mx e))) (fun r g' => match r with inl _ => g' = g | inr l => g' = set_gc g (CPrep e sf n n2 (Some l)) end) g.
Proof using.
  intros Hc Hm Hn. apply wp_op. intros s G HI Hg ch r s' E. cbn in E. destruct (ch_rc ch =? SQLITE_OK); injection E as <- <-.
  - exists (set_gc g (CPrep e sf n n2 (Some (iter (s_pgno s) n (mx e))))). split; [|done].
    apply upd_gc; try done. pose proof (ck_of s G g HI Hg) as K. unfold ck_ok, ckpt_of in *. cbn [set_gc gc gl]. rewrite Hc in K.
    destruct K as [K1 K2]. split; [exact K1|]. intros Hl. destruct (K2 Hl) as (K3 & K4 & K5 & K6 & _).
    split; [done|]. split; [done|]. split; [done|]. split; [done|]. intros l El. injection El as <-.
    pose proof (i_hist _ _ _ HI) as Hh. pose proof (h_live _ Hh e (proj1 K1) Hl) as Hle.
    destruct (backfill_law (s_pgno s) n (mx e) Hn Hm) as [B1 B2]; [intros i Hi; apply (h_pgno _ Hh); lia|]. split; [exact B1|exact B2].
  - exists g. split; [subst g; by apply Inv_id|done].
Qed.

Lemma wp_nb_copy e sf n n2 l g : gc g = CPrep e sf n n2 (Some l) -> 0 < mx e ->
  wp (op ONBackfill) (fun r g' => 0 <= r /\ g' = set_gc g (CPrep e sf n r (Some l))) g.
Proof using.
  intros Hc Hm. apply wp_op. intros s G HI Hg ch r s' E. cbn in E. injection E as <- <-.
  exists (set_gc g (CPrep e sf n (s_nBackfill s) (Some l))). split; [|split; [apply (i_nb _ _ _ HI)|done]].
  apply upd_gc; try done. pose proof (ck_of s G g HI Hg) as K. unfold ck_ok, ckpt_of in *. cbn [set_gc gc gl]. rewrite Hc in K.
  destruct K as [K1 K2]. split; [exact K1|]. intros Hl. destruct (K2 Hl) as (K3 & K4 & K5 & K6 & K7).
  split; [done|]. split; [done|]. split; [done|]. split; [|done]. rewrite (nb_live s G e HI (proj1 K1) Hl Hm). done.
Qed.

(** The salts did not change: the log is that of the header. *)
Lemma wp_hdr_salt e sf n n2 l g : gc g = CPrep e sf n n2 (Some l) -> gl g (WAL_READ_LOCK 0) = Exclusive ->
  wp (op (OHdr false)) (fun h g' => (aSalt h = aSalt (e_hdr e) /\ n2 = n /\ g' = set_gc g (CCopy e sf n l [] None)) \/
                                   (aSalt h <> aSalt (e_hdr e) /\ g' = g)) g.
Proof using.
  intros Hc Hx. apply wp_op. intros s G HI Hg ch r s' E. cbn in E. injection E as <- <-. rewrite (hdr_is_cur s G HI).
  pose proof (i_hist _ _ _ HI) as Hh. pose proof (ck_of s G g HI Hg) as K. unfold ck_ok, ckpt_of in K. rewrite Hc in K. destruct K as [K1 K2].
  destruct (decide (aSalt (e_hdr (s_cur s)) = aSalt (e_hdr e))) as [E|E].
  - assert (live s e) as Hl by (unfold live; symmetry; apply (h_salt _ Hh); [apply cur_in|apply K1|done]).
    destruct (K2 Hl) as (K3 & K4 & K5 & K6 & K7). exists (set_gc g (CCopy e sf n l [] None)). split; [|by left].
    apply upd_gc; try done. unfold ck_ok, ckpt_of. cbn [set_gc gc gl]. split; [exact K1|]. split; [done|]. split; [done|]. split; [done|].
    split; [done|]. split; [done|]. split; [by apply K7|]. split; [intros f d E'; done|]. intros q f Hin. by apply elem_of_nil in Hin.
  - exists g. split; [subst g; by apply Inv_id|by right].
Qed.

Lemma wp_attempted n g : wp (op (OSetAttempted n)) (fun _ g' => g' = g) g.
Proof using.
  apply wp_op. intros s G HI Hg ch r s' E. cbn in E. injection E as <- <-. exists g. split; [|done]. subst g. apply Inv_id. by apply step_attempted.
Qed.

(** A frame that need not be copied. *)
Lemma wp_skip {A} e sf n l fin b q f (m : wprog A) Q g : gc g = CCopy e sf n l fin b -> (q, f) ∈ l ->
  ~ (n < f <= sf /\ q <= np e) -> wp m Q (set_gc g (CCopy e sf n l ((q, f) :: fin) b)) -> wp m Q g.
Proof using.
  intros Hc Hin Hn. apply wp_to. intros s G HI Hg. apply upd_gc; try done. pose proof (ck_of s G g HI Hg) as K.
  unfold ck_ok, ckpt_of in *. cbn [set_gc gc gl]. rewrite Hc in K. destruct K as (K1 & K2 & K3 & K4 & K5 & K6 & K7 & K8 & K9).
  split; [exact K1|]. split; [done|]. split; [done|]. split; [done|]. split; [done|]. split; [done|]. split; [done|]. split; [done|].
  intros q' f' Hin'. apply elem_of_cons in Hin' as [E|Hin']; [|by apply K9]. injection E as -> ->. split; [done|]. intros H1 H2. exfalso. by apply Hn.
Qed.

Lemma wp_log_copy e sf n l fin b f g : gc g = CCopy e sf n l fin b ->
  wp (op (OLogRead f)) (fun r g' => if r.1 =? SQLITE_OK then g' = set_gc g (CCopy e sf n l fin (Some (f, r.2))) else g' = g) g.
Proof using.
  intros Hc. apply wp_op. intros s G HI Hg ch r s' E. cbn in E. injection E as <- <-. destruct (ch_rc ch =? SQLITE_OK) eqn:Er.
  - exists (set_gc g (CCopy e sf n l fin (Some (f, s_frame s f)))). split; [|done].
    apply upd_gc; try done. pose proof (ck_of s G g HI Hg) as K. unfold ck_ok, ckpt_of in *. cbn [set_gc gc gl]. rewrite Hc in K.
    destruct K as (K1 & K2 & K3 & K4 & K5 & K6 & K7 & K8 & K9).
    split; [exact K1|]. split; [done|]. split; [done|]. split; [done|]. split; [done|]. split; [done|]. split; [done|]. split; [|done].
    intros f' d E _. injection E as <- <-. done.
  - exists g. split; [subst g; by apply Inv_id|]. cbn [fst]. by rewrite Er.
Qed.

Lemma wp_db_write e sf n l fin q f d g : gc g = CCopy e sf n l fin (Some (f, d)) -> ~ is_pub g -> (q, f) ∈ l -> n < f <= sf -> q <= np e ->
  wp (op (ODbWrite q d)) (fun rc g' => if rc =? SQLITE_OK then g' = set_gc g (CCopy e sf n l ((q, f) :: fin) (Some (f, d)))
                                      else g' = set_gc g (CCopy e sf n l [] (Some (f, d)))) g.
Proof using.
  intros Hc Hnp Hin Hf Hq. apply wp_op. intros s G HI Hg ch r s' E. cbn in E. injection E as <- <-.
  pose proof (ck_of s G g HI Hg) as K. unfold ck_ok, ckpt_of in K. rewrite Hc in K. destruct K as (K1 & K2 & K3 & K4 & K5 & K6 & K7 & K8 & K9).
  destruct K7 as [I1 I2]. destruct (I1 q f Hin) as (J1 & J2 & J3).
  assert (forall d', may_write s e sf n (upd (s_db s) q d')) as Hw.
  { intros d' q'. unfold upd. destruct (Z.eqb_spec q' q) as [->|]; [right; left; by exists f|by left]. }
  destruct (ch_rc ch =? SQLITE_OK).
  - exists (set_gc g (CCopy e sf n l ((q, f) :: fin) (Some (f, d)))). split; [|done]. subst g. apply (step_db procs s G p e sf n l fin); try done.
    intros q' f' Hin'. unfold upd. destruct (Z.eqb_spec q' q) as [->|Hne].
    + assert ((q, f') ∈ l) as Hl. { apply elem_of_cons in Hin' as [E|Hin']; [by injection E as ->|by apply K9]. }
      split; [done|]. intros _ _. destruct (I1 q f' Hl) as (J1' & J2' & J3').
      assert (f' = f) as ->. { destruct (Z.lt_trichotomy f' f) as [Hlt|[|Hgt]]; [|done|]; exfalso; [apply (J3' f); [lia|done]|apply (J3 f'); [lia|done]]. }
      symmetry. by apply K8.
    + apply elem_of_cons in Hin' as [E|Hin']; [by injection E as -> ->|]. by apply K9.
  - exists (set_gc g (CCopy e sf n l [] (Some (f, d)))). split; [|done]. subst g. apply (step_db procs s G p e sf n l fin); try done.
    intros q' f' Hin'. by apply elem_of_nil in Hin'.
Qed.

Lemma wp_hdr_copy e sf n l fin b g : gc g = CCopy e sf n l fin b -> wp (op (OHdr false)) (fun h g' => mx e <= mxFrame h /\ g' = g) g.
Proof using.
  intros Hc. apply wp_op. intros s G HI Hg ch r s' E. cbn in E. injection E as <- <-. exists g. split; [subst g; by apply Inv_id|]. split; [|done].
  pose proof (ck_of s G g HI Hg) as K. unfold ck_ok, ckpt_of in K. rewrite Hc in K. rewrite (hdr_is_cur s G HI).
  apply (h_live _ (i_hist _ _ _ HI)); apply K.
Qed.

Lemma wp_db_truncate e n l fin b g : gc g = CCopy e (mx e) n l fin b -> ~ is_pub g -> wp (op (ODbTruncate (np e))) (fun _ g' => g' = g) g.
Proof using.
  intros Hc Hnp. apply wp_op. intros s G HI Hg ch r s' E. cbn in E. injection E as <- <-. exists g. split; [|done].
  destruct (ch_rc ch =? SQLITE_OK); [|subst g; by apply Inv_id].
  pose proof (ck_of s G g HI Hg) as K. unfold ck_ok, ckpt_of in K. rewrite Hc in K. destruct K as (K1 & K2 & K3 & K4 & K5 & K6 & K7 & K8 & K9).
  assert (g = set_gc g (CCopy e (mx e) n l fin b)) as Hg' by (unfold set_gc; rewrite <- Hc; by destruct g). rewrite Hg'. subst g.
  apply (step_db procs s G p e (mx e) n l fin); try done.
  - intros q. destruct (Z.leb_spec q (np e)); [by left|right; right; split; [done|lia]].
  - intros q f Hin. destruct (K9 q f Hin) as [H1 H2]. split; [done|]. intros H3 H4. destruct (Z.leb_spec q (np e)); [by apply H2|lia].
Qed.

Lemma wp_set_nb e sf n l b g : gc g = CCopy e sf n l l b -> ~ is_win g -> wp (op (OSetNBackfill sf)) (fun _ g' => g' = set_gc g (CHdr e)) g.
Proof using.
  intros Hc Hnw. apply wp_op. intros s G HI Hg ch r s' E. cbn in E. injection E as <- <-. exists (set_gc g (CHdr e)). split; [|done].
  pose proof (ck_of s G g HI Hg) as K. unfold ck_ok, ckpt_of in K. rewrite Hc in K. destruct K as (K1 & K2 & K3 & K4 & K5 & K6 & K7 & K8 & K9).
  subst g. apply (step_nBackfill procs s G p e sf n l l b HI Hc Hnw). intros q f Hin. by apply K9.
Qed.

(** *** Writing *)

(** What follows from the invariant may be used. *)
Lemma wp_fact {A} (P : Prop) (m : wprog A) Q g : (forall s G, Inv procs s G -> G p = g -> P) -> (P -> wp m Q g) -> wp m Q g.
Proof using.
  intros HP Hm. apply wp_upd. intros s G HI Hg. exists g. split; [subst g; by apply Inv_id|]. apply Hm. by apply (HP s G).
Qed.

Lemma wr_of s G g : Inv procs s G -> G p = g -> wr_ok s g.
Proof using. intros HI <-. apply (i_wr _ _ _ p HI). Qed.

Lemma wp_write_start {A} (m : wprog A) Q g : gw g = WNone -> gl g WAL_WRITE_LOCK = Exclusive ->
  (forall e, wp m Q (set_gw g (WTxn e txn0))) -> wp m Q g.
Proof using.
  intros Hw Hl Hm. apply wp_upd. intros s G HI Hg. exists (set_gw g (WTxn (s_cur s) txn0)). split; [|done].
  assert (quiet g) as Hq by by left. apply upd_gw; [done|done|by apply quiet_pub|by apply quiet_win|].
  unfold wr_ok. cbn [set_gw gw gl]. split; [done|]. split; [done|]. apply own_frames_0.
Qed.

(** A writer whose snapshot has the header of the last commit reads the last commit. *)
Lemma wp_latest {A} e' j mn e sl (m : wprog A) Q g : gr g = ROpen e' j mn -> gw g = WTxn e sl -> e_hdr e' = e_hdr e ->
  (e' = e -> wp m Q g) -> wp m Q g.
Proof using.
  intros Hr Hw E. apply wp_fact. intros s G HI Hg. pose proof (wr_of s G g HI Hg) as K. unfold wr_ok in K. rewrite Hw in K. destruct K as (-> & _).
  pose proof (i_rd _ _ _ p HI) as Kr. unfold rd_ok in Kr. rewrite Hg, Hr in Kr. apply (hdr_unique s); [apply (i_hist _ _ _ HI)|apply Kr|apply cur_in|done].
Qed.

(** A commit can be published: its frames have pages, and the pages it adds, and their contents
    are known. *)
Definition can_commit (e : commit) (t : txn) (h : WalIndexHdr) : Prop :=
  mxFrame h = mx e + zlen (t_pages t) /\ 0 < zlen (t_pages t) /\ Forall (fun q => 0 < q < 0xffffffff) (t_pages t) /\
  (forall q, np e < q <= nPage h -> q ∈ t_pages t) /\ (length (t_pages t) <= length (t_data t))%nat.

Lemma commits_own s e t h : e = s_cur s -> own_frames s e t -> can_commit e t h -> commits s h.
Proof using.
  intros -> [Ho _] (H1 & H2 & H3 & H4 & _).
  assert (forall i, mx (s_cur s) < i <= mxFrame h -> exists q, t_pages t !! Z.to_nat (i - mx (s_cur s) - 1) = Some q /\ s_pgno s i = q) as Hs.
  { intros i Hi. destruct (t_pages t !! Z.to_nat (i - mx (s_cur s) - 1)) as [q|] eqn:E.
    - exists q. split; [done|]. rewrite <- (Ho _ q E). f_equal. lia.
    - apply lookup_ge_None in E. unfold zlen in *. lia. }
  split; [lia|]. split.
  - intros i Hi. destruct (Hs i Hi) as (q & E & ->). rewrite Forall_lookup in H3. by apply (H3 _ q E).
  - intros q Hq Hn. specialize (H4 q Hq). apply list_elem_of_lookup in H4 as [k E]. pose proof (lookup_lt_Some _ _ _ E) as Hk.
    apply (Hn (mx (s_cur s) + 1 + Z.of_nat k)); [unfold zlen in *; lia|by apply (Ho k)].
Qed.

Lemma wp_h1_commit e t h g : gw g = WTxn e t -> can_commit e t h -> wp (op (OSetHdr true h)) (fun _ g' => g' = set_gw g (WPub e h t)) g.
Proof using.
  intros Hw Hc. apply wp_op. intros s G HI Hg ch r s' E. cbn in E. injection E as <- <-. exists (set_gw g (WPub e h t)). split; [|done].
  pose proof (wr_of s G g HI Hg) as K. unfold wr_ok in K. rewrite Hw in K. destruct K as (He & _ & Ho). subst g.
  apply (step_h1 procs s G p e t h HI Hw). left. by apply (commits_own s e t).
Qed.

(** What a commit makes of the database. *)
Definition commit_image (e : commit) (t : txn) (e' : commit) : Prop :=
  forall q, e_img e' q = default (e_img e q) (last_of (t_pages t) (t_data t) q).

Lemma wp_h0_commit e h t j mn g : gw g = WPub e h t -> can_commit e t h -> 0 <= mx e -> gr g = ROpen e j mn -> 1 <= j -> gc g = CNone ->
  wp (op (OSetHdr false h)) (fun _ g' => exists e', e_hdr e' = h /\ commit_image e t e' /\
     g' = mkGhost (gl g) (ROpen e' j mn) (WTxn e' txn0) CNone None (gs g)) g.
Proof using.
  intros Hw (Hm & Hz & _ & _ & Hl) Hmx Hr Hj Hc. apply wp_op. intros s G HI Hg ch r s' E. cbn [op_do] in E. destruct (salts_fresh s h) eqn:Ef; [|done]. injection E as <- <-.
  pose proof (wr_of s G g HI Hg) as K. unfold wr_ok in K. rewrite Hw in K. destruct K as (He & _ & _ & Ho & [K|(K & _)]); [|lia].
  eexists. split; [|exists (next_commit s h); split; [done|split; [|reflexivity]]]. 1: subst g; by apply (step_commit procs s G p e h t j mn).
  intros q. cbn [next_commit e_img]. rewrite (proj2 (Z.eqb_neq (mxFrame h) 0)) by lia. rewrite Hm. subst e. by apply overlay_txn.
Qed.

Lemma wp_h1_restart e t h g : gw g = WTxn e t -> mxFrame h = 0 -> nPage h = np e -> exclusive g ->
  (exists mn, gr g = ROpen e 0 mn) \/ gr g = RFull e -> wp (op (OSetHdr true h)) (fun _ g' => g' = set_gw g (WPub e h t)) g.
Proof using.
  intros Hw Hm Hn Hx Hr. apply wp_op. intros s G HI Hg ch r s' E. cbn in E. injection E as <- <-. exists (set_gw g (WPub e h t)). split; [|done].
  pose proof (wr_of s G g HI Hg) as K. unfold wr_ok in K. rewrite Hw in K. destruct K as (He & _ & _).
  pose proof (i_rd _ _ _ p HI) as Kr. unfold rd_ok in Kr. rewrite Hg in Kr. subst g. apply (step_h1 procs s G p e t h HI Hw). right.
  split; [done|]. split; [done|]. split; [|done]. destruct Hr as [[mn Hr]|Hr]; rewrite Hr in Kr.
  - destruct Kr as (_ & [(_ & _ & Ha)|([Hj _] & _)]); [done|lia].
  - destruct Kr as (_ & Kr). destruct (i_db _ _ _ HI) as [_ Hd]. rewrite (Kr He) in Hd. subst e. intros q Hq. apply Hd; [done|]. intros i Hi. lia.
Qed.

Lemma wp_h0_restart e h t g : gw g = WPub e h t -> mxFrame h = 0 -> (forall e0 sf n l fin b, gc g <> CCopy e0 sf n l fin b) ->
  wp (op (OSetHdr false h)) (fun _ g' => exists e', e_hdr e' = h /\ e_img e' = e_img e /\ g' = set_gw g (WWin e')) g.
Proof using.
  intros Hw Hm Hc. apply wp_op. intros s G HI Hg ch r s' E. cbn [op_do] in E. destruct (salts_fresh s h) eqn:Ef; [|done]. injection E as <- <-.
  pose proof (wr_of s G g HI Hg) as K. unfold wr_ok in K. rewrite Hw in K. destruct K as (He & _ & _ & _ & [(K & _)|(K1 & K2 & K3 & K4)]).
  { pose proof (h_mx _ (i_hist _ _ _ HI) _ (cur_in s)). lia. }
  eexists. split; [|exists (next_commit s h); split; [done|split; [|reflexivity]]]. 1: subst g; by apply (step_restart procs s G p e h t).
  cbn [next_commit e_img]. by rewrite Hm, He.
Qed.

Lemma wp_nb_zero e g : gw g = WWin e -> wp (op (OSetNBackfill 0)) (fun _ g' => g' = set_gw g (WTxn e txn0)) g.
Proof using.
  intros Hw. apply wp_op. intros s G HI Hg ch r s' E. cbn in E. injection E as <- <-. exists (set_gw g (WTxn e txn0)). split; [|done].
  subst g. by apply step_window.
Qed.

(** Changes to the log after its last header. *)
Lemma set_gw_same g w : gw g = w -> set_gw g w = g.
Proof using. intros <-. by destruct g. Qed.

(** A frame that follows the known ones, or one of them, is written; what a failed write leaves is
    known to be something. *)
Lemma wp_log_write e t k f d g : gw g = WTxn e t -> f = mx e + 1 + Z.of_nat k -> (k <= length (t_data t))%nat ->
  wp (op (OLogWrite f d)) (fun rc g' => exists d', g' = set_gw g (WTxn e (mkTxn (t_pages t) (put_data (t_data t) k d'))) /\ (rc = SQLITE_OK -> d' = d)) g.
Proof using.
  intros Hw -> Hk. apply wp_op. intros s G HI Hg ch r s' E. cbn in E. injection E as <- <-.
  pose proof (wr_of s G g HI Hg) as K. unfold wr_ok in K. rewrite Hw in K. destruct K as (He & _ & Ho & Hd).
  set (d' := if ch_rc ch =? SQLITE_OK then d else ch_data ch). eexists. split; [|exists d'; split; [reflexivity|]].
  2: { unfold d'. by intros ->. }
  subst g. apply (step_log procs s G p e t); [done|done| |split; [exact Ho|]].
  - intros i Hi. split; [done|]. unfold upd. by rewrite (proj2 (Z.eqb_neq i _)) by lia.
  - cbn [t_data set_log s_frame]. intros j x E. rewrite put_data_lookup in E by done. unfold upd. destruct (Nat.eqb_spec j k) as [->|Hne].
    + rewrite Z.eqb_refl. by injection E.
    + rewrite (proj2 (Z.eqb_neq _ _)) by lia. by apply Hd.
Qed.

Lemma wp_append e t f q g : gw g = WTxn e t -> f = mx e + zlen (t_pages t) + 1 ->
  wp (op (OAppend f q)) (fun rc g' => if rc =? SQLITE_OK then g' = set_gw g (WTxn e (mkTxn (t_pages t ++ [q]) (t_data t))) else g' = g) g.
Proof using.
  intros Hw ->. apply wp_op. intros s G HI Hg ch r s' E. cbn in E. injection E as <- <-.
  destruct (ch_rc ch =? SQLITE_OK); [|exists g; split; [subst g; by apply Inv_id|done]].
  pose proof (wr_of s G g HI Hg) as K. unfold wr_ok in K. rewrite Hw in K. destruct K as (He & _ & Ho & Hd).
  eexists. split; [|reflexivity]. subst g. apply (step_log procs s G p e t); [done|done|..].
  - intros i Hi. split; [|done]. unfold upd. rewrite (proj2 (Z.eqb_neq i _)) by (pose proof (zlen_nonneg (t_pages t)); lia). done.
  - split; [|exact Hd]. cbn [t_pages set_log s_pgno]. intros k q' E. unfold upd. destruct (Nat.lt_ge_cases k (length (t_pages t))) as [Hk|Hk].
    + rewrite lookup_app_l in E by done. rewrite (proj2 (Z.eqb_neq _ _)) by (unfold zlen; lia). by apply Ho.
    + rewrite lookup_app_r in E by done. destruct (k - length (t_pages t))%nat eqn:Ek; [|done]. cbn in E. injection E as ->.
      rewrite (proj2 (Z.eqb_eq _ _)); [done|unfold zlen; lia].
Qed.

(** Frames that were appended may be forgotten. *)
Lemma wp_drop_frames {A} e sl sl' ds (m : wprog A) Q g : gw g = WTxn e (mkTxn (sl ++ sl') ds) -> wp m Q (set_gw g (WTxn e (mkTxn sl ds))) -> wp m Q g.
Proof using.
  intros Hw. assert (quiet g) as Hq by (right; eauto). apply wp_to. intros s G HI Hg.
  apply upd_gw; [done|done|by apply quiet_pub|by apply quiet_win|].
  pose proof (wr_of s G g HI Hg) as K. unfold wr_ok in *. rewrite Hw in K. cbn [set_gw gw gl]. destruct K as (He & Hl & Ho & Hd).
  split; [done|]. split; [done|]. split; [|exact Hd]. cbn [t_pages] in *. intros k q E. apply Ho. rewrite lookup_app_l; [done|]. by apply lookup_lt_Some in E.
Qed.

Lemma wp_cleanup e t g : gw g = WTxn e t -> wp (op (OCleanup (mx e))) (fun _ g' => g' = set_gw g (WTxn e txn0)) g.
Proof using.
  intros Hw. apply wp_op. intros s G HI Hg ch r s' E. cbn in E. injection E as <- <-. exists (set_gw g (WTxn e txn0)). split; [|done].
  destruct (mx e =? 0) eqn:Em.
  - assert (quiet g) as Hq by (right; eauto). apply upd_gw; [done|done|by apply quiet_pub|by apply quiet_win|].
    pose proof (wr_of s G g HI Hg) as K. unfold wr_ok in *. rewrite Hw in K. cbn [set_gw gw gl]. destruct K as (He & Hl & _).
    split; [done|]. split; [done|]. apply own_frames_0.
  - subst g. apply (step_log procs s G p e t); [done|done| |apply own_frames_0]. intros i Hi. split; [|done].
    destruct (Z.ltb_spec (mx e) i); [lia|done].
Qed.

Lemma wp_log_truncate e g : gw g = WTxn e txn0 -> mx e = 0 -> wp (op OLogTruncate) (fun _ g' => g' = g) g.
Proof using.
  intros Hw Hm. apply wp_op. intros s G HI Hg ch r s' E. cbn in E. injection E as <- <-. exists g. split; [|done].
  destruct (ch_rc ch =? SQLITE_OK); [|subst g; by apply Inv_id].
  rewrite <- (set_gw_same g _ Hw). subst g. apply (step_log procs s G p e txn0); [done|done| |apply own_frames_0]. intros i Hi. lia.
Qed.

(** *** Reading pages *)

Lemma rd_of s G g : Inv procs s G -> G p = g -> rd_ok s g.
Proof using. intros HI <-. apply (i_rd _ _ _ p HI). Qed.

(** The frames of the transaction that reads, if it writes. *)
Definition on_top (g : ghost) (e : commit) : Prop := gw g = WNone \/ exists t, gw g = WTxn e t.

Lemma wp_find e j mn q g : gr g = ROpen e j mn -> on_top g e -> q ∉ t_pages (gtxn g) ->
  wp (op (OFindFrame q mn (mx e + zlen (t_pages (gtxn g))))) (fun r g' => if r.1 =? SQLITE_OK then g' = set_gq g (Some (q, r.2)) else g' = g) g.
Proof using.
  intros Hr Ht Hq. apply wp_op. intros s G HI Hg ch r s' E. cbn in E. injection E as <- <-.
  destruct (ch_rc ch =? SQLITE_OK) eqn:Ec; cbn [fst snd].
  2: { exists g. split; [subst g; by apply Inv_id|]. by rewrite Ec. }
  assert (last_in (s_pgno s) q mn (Z.to_nat (mx e + zlen (t_pages (gtxn g)))) = last_in (s_pgno s) q mn (Z.to_nat (mx e))) as ->.
  { pose proof (rd_of s G g HI Hg) as K. unfold rd_ok in K. rewrite Hr in K. destruct K as ([K1 _] & _). pose proof (h_mx _ (i_hist _ _ _ HI) e K1) as Hm.
    unfold zlen. rewrite Z2Nat.inj_add, Nat2Z.id by lia. apply last_in_skip. rewrite Nat2Z.inj_add, Z2Nat.id by done. intros i Hi.
    pose proof (wr_of s G g HI Hg) as Kw. unfold wr_ok in Kw. unfold gtxn in *. destruct Ht as [Hw|[t Hw]]; rewrite Hw in *; [cbn [txn0 t_pages length] in Hi; lia|].
    destruct Kw as (_ & _ & Ho). destruct (own_frame_at s e t i Ho) as (q' & Hq' & ->); [unfold zlen; lia|]. intros ->. apply Hq. by eapply list_elem_of_lookup_2. }
  exists (set_gq g (Some (q, last_in (s_pgno s) q mn (Z.to_nat (mx e))))). split; [|done]. apply upd_gq; try done.
  unfold q_ok. cbn [set_gq gr gq]. by rewrite Hr.
Qed.

(** A page that the transaction wrote is in the last of its own frames. *)
Lemma wp_find_own e j mn q t k g : gr g = ROpen e j mn -> 1 <= j -> gw g = WTxn e t -> t_pages t !! k = Some q -> (forall i, (k < i)%nat -> t_pages t !! i <> Some q) ->
  wp (op (OFindFrame q mn (mx e + zlen (t_pages t)))) (fun r g' => g' = g /\ (r.1 = SQLITE_OK -> r.2 = mx e + 1 + Z.of_nat k)) g.
Proof using.
  intros Hr Hj Hw Hk Hl. apply wp_op. intros s G HI Hg ch r s' E. cbn in E. injection E as <- <-. exists g. split; [subst g; by apply Inv_id|]. split; [done|].
  pose proof (rd_of s G g HI Hg) as K. unfold rd_ok in K. rewrite Hr in K. destruct K as ([K1 _] & [[-> _]|(_ & _ & Hmn & _)]); [lia|].
  pose proof (h_mx _ (i_hist _ _ _ HI) e K1) as Hm. pose proof (wr_of s G g HI Hg) as Kw. unfold wr_ok in Kw. rewrite Hw in Kw. destruct Kw as (Ec & _ & Ho).
  destruct (i_db _ _ _ HI) as [Heff _]. rewrite <- Ec in Heff. pose proof (lookup_lt_Some _ _ _ Hk) as Hlt.
  destruct (ch_rc ch =? SQLITE_OK) eqn:E0; cbn [fst snd]; [|intros E1; by rewrite E1 in E0]. intros _. apply last_in_eq; [lia|unfold zlen; lia|by apply Ho|].
  unfold zlen. rewrite Z2Nat.id by lia. intros i Hi. destruct (own_frame_at s e t i Ho) as (q' & Hq' & ->); [unfold zlen; lia|]. intros ->. by apply (Hl (Z.to_nat (i - mx e - 1))); [lia|].
Qed.

Lemma wp_log_own e t k d g : gw g = WTxn e t -> t_data t !! k = Some d ->
  wp (op (OLogRead (mx e + 1 + Z.of_nat k))) (fun r g' => g' = g /\ (r.1 = SQLITE_OK -> r.2 = d)) g.
Proof using.
  intros Hw Hk. apply wp_op. intros s G HI Hg ch r s' E. cbn in E. injection E as <- <-. exists g. split; [subst g; by apply Inv_id|]. split; [done|].
  pose proof (wr_of s G g HI Hg) as Kw. unfold wr_ok in Kw. rewrite Hw in Kw. destruct Kw as (_ & _ & [_ Ho]).
  destruct (ch_rc ch =? SQLITE_OK) eqn:E0; cbn [fst snd]; [by intros _; apply Ho|intros E1; by rewrite E1 in E0].
Qed.

Lemma wp_log_page e j mn q f g : gr g = ROpen e j mn -> 1 <= j -> gq g = Some (q, f) -> f <> 0 -> 1 <= q ->
  wp (op (OLogRead f)) (fun r g' => g' = g /\ (r.1 = SQLITE_OK -> q <= np e -> r.2 = e_img e q)) g.
Proof using.
  intros Hr Hj Hq Hf Hq1. apply wp_op. intros s G HI Hg ch r s' E. cbn in E. injection E as <- <-. exists g. split; [subst g; by apply Inv_id|].
  split; [done|]. destruct (Z.eqb_spec (ch_rc ch) SQLITE_OK) as [Ec|Ec]; cbn [fst snd]; [|done]. intros _ Hnp.
  pose proof (rd_of s G g HI Hg) as K. unfold rd_ok in K. rewrite Hr in K. destruct K as ([K1 _] & [[-> _]|(Ho & Hl & Hmn & _)]); [lia|].
  pose proof (i_q _ _ _ p HI) as Kq. unfold q_ok in Kq. rewrite Hg, Hr, Hq in Kq. specialize (Kq Hj). pose proof (i_hist _ _ _ HI) as Hh.
  pose proof (h_mx _ Hh e K1) as Hm.
  destruct (last_in_spec (s_pgno s) q mn (Z.to_nat (mx e)) ltac:(lia)) as [[H0 _]|(H1 & H2 & H3)]; [congruence|].
  rewrite <- Kq in H1, H2, H3. rewrite Z2Nat.id in H1, H3 by done. apply (h_log _ Hh e q f K1 Hl); [lia|lia|done|done].
Qed.

Lemma wp_db_page e j mn q g : gr g = ROpen e j mn -> (j = 0 \/ (1 <= j /\ (gq g = Some (q, 0) \/ mx e = 0))) -> 1 <= q ->
  wp (op (ODbRead q)) (fun r g' => g' = g /\ (r.1 = SQLITE_OK -> q <= np e -> r.2 = e_img e q)) g.
Proof using.
  intros Hr Hj Hq1. apply wp_op. intros s G HI Hg ch r s' E. cbn in E. injection E as <- <-. exists g. split; [subst g; by apply Inv_id|].
  split; [done|]. destruct (Z.eqb_spec (ch_rc ch) SQLITE_OK) as [Ec|Ec]; cbn [fst snd]; [|done]. intros _ Hnp.
  pose proof (rd_of s G g HI Hg) as K. unfold rd_ok in K. rewrite Hr in K. destruct K as ([K1 _] & [(Hj0 & _ & Ha)|(Ho & Hl & Hmn & _ & Hd)]); [by apply Ha|].
  apply Hd; [done|]. pose proof (i_hist _ _ _ HI) as Hh. pose proof (h_mx _ Hh e K1) as Hm.
  destruct Hj as [->|(Hj & [Hq|Hz])]; [destruct Ho; lia| |intros i Hi; lia].
  pose proof (i_q _ _ _ p HI) as Kq. unfold q_ok in Kq. rewrite Hg, Hr, Hq in Kq. specialize (Kq Hj).
  destruct (last_in_spec (s_pgno s) q mn (Z.to_nat (mx e)) ltac:(lia)) as [[_ H0]|(H1 & _)]; [|lia]. by rewrite Z2Nat.id in H0 by done.
Qed.

End wp.
