(* ===== verification/WalReader.v ===== *)
(** * Beginning to read the write-ahead log (wal.c of sqlite3.c)

    The routines of [WalShm] that begin and end a read transaction and read pages, and those
    that take and leave the write lock, by the rules of [WalWp].  [knows] is what a connection
    knows between two calls; it is what each call starts from and comes back to. *)

From S2P Require Import Prelude Bitwise Varint UnixFile WalIndex WalLog WalWrite WalShm WalInv WalWp.
From stdpp Require Import options.

(** The locks of a connection between two calls. *)
Definition lk (w : conn) (i : Z) : lmode :=
  if (0 <=? c_readLock w) && (i =? WAL_READ_LOCK (c_readLock w)) then Shared
  else if (i =? WAL_WRITE_LOCK) && negb (c_writeLock w =? 0) then Exclusive
  else if (i =? WAL_CKPT_LOCK) && c_ckptLock w then Exclusive
  else NotHeld.

Definition holds_locks (l : Z -> lmode) (w : conn) : Prop := forall i, l i = lk w i.

(** A connection that neither reads nor starts to. *)
Definition not_reading (w : conn) : Prop := c_readLock w = -1.

Definition wq (x : wstate) : Prop := x = WNone \/ exists e sl, x = WTxn e sl.

Ltac unlocks := unfold lset, in_range, lk, holds_locks, not_reading, WAL_READ_LOCK, WAL_WRITE_LOCK, WAL_CKPT_LOCK, WAL_RECOVER_LOCK, WAL_NREADER in *.

(** Locks by cases on their number. *)
Ltac lock_cases :=
  unlocks; cbn [fst snd c_readLock c_writeLock c_ckptLock set_readLock set_writeLock set_ckptLock set_minFrame set_chdr set_szPage set_cCkpt] in *;
  repeat match goal with
  | |- context [(?a <=? ?b)] => destruct (Z.leb_spec a b)
  | |- context [(?a <? ?b)] => destruct (Z.ltb_spec a b)
  | |- context [(?a =? ?b)] => destruct (Z.eqb_spec a b)
  end; cbn [andb negb orb]; try lia; try congruence; try done.

(** The locks held match those of the connection; [H] says so of those held before. *)
Ltac locks H :=
  let i := fresh "i" in
  intros i; cbn [gl gr gw gc gq gs set_gr set_gw set_gc set_gl set_gq]; unfold lset; rewrite ?(H i); lock_cases.

(** No lock of the range is needed. *)
Ltac no_need := unfold needs; cbn [gr gw gc set_gr set_gw set_gc set_gl set_gq]; unlocks; intros; 
  repeat match goal with H : wq ?x |- _ => destruct H as [->|(? & ? & ->)] end; 
  intuition (try lia; try congruence).

Section routines.
Context (iter : (Z -> Z) -> Z -> Z -> list (Z * Z)) `{!Backfill iter}.
Context (procs : list nat) (p : nat) (Hp : p ∈ procs).
Abbreviation wp := (wp iter procs p).

(** *** Taking a read mark *)

Lemma scan_marks_spec n i m mk k g : (k = 0 \/ (1 <= k < i /\ mk <= m)) -> 1 <= i ->
  wp (scan_marks n i m mk k) (fun r g' => g' = g /\ (r.2 = 0 \/ (1 <= r.2 < i + Z.of_nat n /\ r.1 <= m))) g.
Proof using.
  revert i mk k. induction n as [|n IH]; intros i mk k Hk Hi; cbn [scan_marks].
  - apply wp_ret. split; [done|]. cbn [fst snd]. lia.
  - eapply wp_seq; [apply wp_look; intros s ch r s' E; cbn in E; by simplify_eq|]. intros y g' ->.
    replace (i + Z.of_nat (S n)) with (i + 1 + Z.of_nat n) by lia.
    destruct (Z.leb_spec mk y), (Z.leb_spec y m); cbn [andb]; apply IH; lia.
Qed.

Lemma claim_mark_spec n i m mk k rc l r w q st : 1 <= i -> i + Z.of_nat n <= WAL_NREADER -> wq w ->
  match r with RNone | RHdr _ | RFull _ => True | _ => False end -> (forall j, 1 <= j < WAL_NREADER -> l (WAL_READ_LOCK j) = NotHeld) ->
  wp (claim_mark n i m mk k rc) (fun x g' => exists l', (forall j, l' j = l j) /\ g' = mkGhost l' r w CNone q st /\
    match x with
    | (Some rc, _, _, _) => rc <> SQLITE_OK
    | (None, _, mk', k') => (mk' = mk /\ k' = k) \/ (mk' = m /\ 1 <= k' < WAL_NREADER)
    end) (mkGhost l r w CNone q st).
Proof using Hp.
  intros Hi Hn Hw Hr Hl. revert i rc Hi Hn. induction n as [|n IH]; intros i rc Hi Hn; cbn [claim_mark].
  { apply wp_ret. exists l. split; [done|]. split; [done|]. by left. }
  eapply wp_seq; [apply wp_lock_excl; [done|]|].
  { intros j Hj. destruct r; try done; no_need. }
  intros rc' g' Hrc. cbn [gl] in Hrc. destruct (Z.eqb_spec rc' SQLITE_OK) as [E|E].
  - subst g'. eapply wp_seq; [apply wp_set_mark; cbn [set_gl gl]; lock_cases|]. intros _ g' ->.
    eapply wp_seq; [apply wp_unlock_excl; [done|]|].
    { intros j Hj. destruct r; try done; no_need. }
    intros _ g' ->. apply wp_ret. cbn [set_gl gl gr gw gc gq gs]. eexists. split; [|split; [done|right; split; [done|lia]]].
    intros j. unfold lset. destruct (in_range (WAL_READ_LOCK i) 1 j) eqn:Er; [|done]. unfold in_range, WAL_READ_LOCK in Er.
    apply andb_true_iff in Er as [H1 H2]. apply Z.leb_le in H1. apply Z.ltb_lt in H2. replace j with (WAL_READ_LOCK i) by (unfold WAL_READ_LOCK; lia).
    symmetry. apply Hl. lia.
  - subst g'. destruct (Z.eqb_spec rc' SQLITE_BUSY); cbn [negb].
    + apply IH; lia.
    + apply wp_ret. exists l. done.
Qed.

Definition same_conn (w w' : conn) : Prop :=
  c_hdr w' = c_hdr w /\ c_writeLock w' = c_writeLock w /\ c_ckptLock w' = c_ckptLock w /\ c_nCkpt w' = c_nCkpt w.

(** An attempt to begin to read ended: it failed, or the connection reads [e] under the lock [lo]
    or a later one. *)
Definition begun (lo : Z) (e : commit) (w : conn) (x : wstate) (st : Z) (rc : Z) (w' : conn) (g : ghost) : Prop :=
  exists l r, g = mkGhost l r x CNone None st /\ holds_locks l w' /\ same_conn w w' /\
    ((rc <> SQLITE_OK /\ not_reading w' /\ r = RNone) \/
     (rc = SQLITE_OK /\ lo <= c_readLock w' < WAL_NREADER /\ r = ROpen e (c_readLock w') (c_minFrame w'))).

Lemma mx_pos e g : gr g = RHdr e -> forall A (m : wprog A) Q, (0 <= mx e -> wp m Q g) -> wp m Q g.
Proof using.
  intros Hr A m Q. apply wp_fact. intros s G HI Hg. pose proof (rd_of procs p s G g HI Hg) as K. unfold rd_ok in K. rewrite Hr in K.
  apply (h_mx _ (i_hist _ _ _ HI)), K.
Qed.

Lemma wp_forget_ret {A} (a : A) l r x c q st (Q : A -> ghost -> Prop) :
  Q a (mkGhost l RNone x c q st) -> wp (WRet a) Q (mkGhost l r x c q st).
Proof using. intros H. apply wp_forget_gr. by apply wp_ret. Qed.

Lemma hdr_eqb_neq h h' : h <> h' -> hdr_eqb h h' = false.
Proof using. intros H. destruct (hdr_eqb h h') eqn:E; [|done]. by apply hdr_eqb_eq in E. Qed.

Lemma hdr_eqb_same h : hdr_eqb h h = true.
Proof using. by apply hdr_eqb_eq. Qed.

(** Neither the mark nor the header changed. *)
Lemma check_mark_spec e k n mark mk g : gr g = RMark e k n mark -> gq g = None -> mk <= mx e ->
  wp (if negb (mark =? mk) then WRet true else do! h := op (OHdr false) in WRet (negb (hdr_eqb h (e_hdr e))))
     (fun b g' => (b = true /\ g' = g) \/ (b = false /\ g' = set_gr g (ROpen e k (n + 1)))) g.
Proof using.
  intros Hr Hq Hm. destruct (Z.eqb_spec mark mk) as [->|E]; cbn [negb]; [|apply wp_ret; by left].
  eapply wp_seq; [by apply (wp_hdr_mark iter procs p e k n mk)|]. intros h g' [[-> ->]|[Hne ->]]; apply wp_ret.
  - right. by rewrite hdr_eqb_same.
  - left. by rewrite (hdr_eqb_neq _ _ Hne).
Qed.

(** Locking the slot of a mark and looking at what was read before. *)
Lemma lock_mark_spec e w l x st mk k : holds_locks l w -> not_reading w -> wq x -> c_hdr w = e_hdr e ->
  1 <= k < WAL_NREADER -> mk <= mx e ->
  wp (do! rc := op (OLockShared (WAL_READ_LOCK k)) in
      if negb (rc =? SQLITE_OK) then WRet (if Z.land rc 0xff =? SQLITE_BUSY then WAL_RETRY else rc, w)
      else
        do! nBackfill := op ONBackfill in
        let w := set_minFrame w (nBackfill + 1) in
        do! mark := op (OReadMark k) in
        do! changed := (if negb (mark =? mk) then WRet true
                        else do! h := op (OHdr false) in WRet (negb (hdr_eqb h (c_hdr w)))) in
        if changed : bool then
          do! _ := op (OUnlockShared (WAL_READ_LOCK k)) in
          WRet (WAL_RETRY, w)
        else WRet (SQLITE_OK, set_readLock w k))
     (fun r g' => begun 1 e w x st r.1 r.2 g') (mkGhost l (RHdr e) x CNone None st).
Proof using Hp.
  intros Hl Hnr Hw Hh Hk Hmk. eapply wp_seq; [apply wp_lock_shared; [done|no_need]|]. intros rc g' Hrc. cbn [gl] in Hrc.
  destruct (Z.eqb_spec rc SQLITE_OK) as [E|E]; cbn [negb].
  2: { subst g'. apply wp_forget_ret. exists l, RNone. split; [done|]. split; [done|]. split; [done|]. left. split; [|done].
       cbn [fst]. destruct (Z.land rc 0xff =? SQLITE_BUSY); [done|done]. }
  subst g'. cbn [set_gl gl gr gw gc gq gs]. set (l' := lset l (WAL_READ_LOCK k) 1 Shared).
  assert (l' (WAL_READ_LOCK k) = Shared) as Hs by (unfold l', lset, in_range; rewrite (proj2 (Z.leb_le _ _)), (proj2 (Z.ltb_lt _ _)) by lia; done).
  apply (wp_to _ _ _ _ _ _ (mkGhost l' (RSlot e k) x CNone None st)).
  { intros s G HI Hg. apply (upd_gr procs p s G (mkGhost l' (RHdr e) x CNone None st) (RSlot e k)); try done.
    pose proof (rd_of procs p s G _ HI Hg) as K. split; [exact K|]. split; [lia|done]. }
  eapply wp_seq; [apply (wp_nb_slot iter procs p e k); done|]. intros n g' [Hn ->]. cbn [set_gr gl gr gw gc gq gs].
  eapply wp_seq; [apply (wp_mark_min iter procs p e k n); done|]. intros mark g' ->. cbn [set_gr gl gr gw gc gq gs].
  cbn [c_hdr set_minFrame]. rewrite Hh.
  eapply wp_seq; [apply (check_mark_spec e k n mark mk); done|]. intros b g' [[-> ->]|[-> ->]].
  - apply wp_forget_gr. cbn [set_gr gl gr gw gc gq gs]. eapply wp_seq; [apply wp_unlock_shared; [done|no_need]|]. intros _ g' ->. apply wp_ret.
    cbn [set_gl gl gr gw gc gq gs]. eexists _, RNone. split; [done|]. split; [|split; [done|by left]].
    subst l'. locks Hl.
  - cbn [set_gr gl gr gw gc gq gs]. apply wp_ret. eexists _, _. split; [done|]. split; [|split; [done|]].
    + subst l'. locks Hl.
    + right. split; [done|]. split; [cbn [c_readLock set_readLock snd]; lia|done].
Qed.

(** [begin_on_mark] reads the commit of the header the connection has. *)
Lemma begin_on_mark_spec e w rc l x st : holds_locks l w -> not_reading w -> wq x -> c_hdr w = e_hdr e ->
  wp (begin_on_mark w rc) (fun r g' => begun 1 e w x st r.1 r.2 g') (mkGhost l (RHdr e) x CNone None st).
Proof using Hp.
  intros Hl Hnr Hw Hh. apply (mx_pos e); [done|]. intros Hm. unfold begin_on_mark. rewrite Hh. change (mxFrame (e_hdr e)) with (mx e).
  eapply wp_seq; [apply scan_marks_spec; [by left|done]|]. intros [mk k] g' [-> Hk]. cbn [fst snd] in Hk.
  set (Post := fun (y : option Z * Z * Z * Z) (g' : ghost) => exists l', (forall j, l' j = l j) /\ g' = mkGhost l' (RHdr e) x CNone None st /\
    match y with
    | (Some rc, _, _, _) => rc <> SQLITE_OK
    | (None, _, mk', k') => k' = 0 \/ (1 <= k' < WAL_NREADER /\ mk' <= mx e)
    end).
  eapply (wp_seq _ _ _ _ _ Post).
  - destruct ((mk <? mx e) || (k =? 0)).
    + eapply wp_mono; [|apply claim_mark_spec; [done|done|done|done|]].
      * intros [[[[rc'|] ?] mk'] k'] g' (l' & E1 & -> & H); exists l'; (split; [done|]); (split; [done|]); [done|].
        unfold WAL_NREADER in *. change (1 + Z.of_nat (Z.to_nat (5 - 1))) with 5 in Hk. destruct H as [[-> ->]|[-> H]]; [destruct Hk as [|[]]; [by left|by right]|right; lia].
      * intros j Hj. rewrite (Hl (WAL_READ_LOCK j)). lock_cases.
    + apply wp_ret. exists l. split; [done|]. split; [done|]. unfold WAL_NREADER in *.
      change (1 + Z.of_nat (Z.to_nat (5 - 1))) with 5 in Hk. destruct Hk as [|[]]; [by left|by right].
  - intros [[[stop rc'] mk'] k'] g' (l' & El & -> & H). assert (holds_locks l' w) as Hl' by (intros j; by rewrite El).
    destruct stop as [rc''|].
    + apply wp_forget_ret. exists l', RNone. split; [done|]. split; [done|]. split; [done|]. by left.
    + destruct (Z.eqb_spec k' 0) as [Ek|Ek].
      * apply wp_forget_ret. exists l', RNone. split; [done|]. split; [done|]. split; [done|]. left. split; [|done].
        cbn [fst]. destruct (rc' =? SQLITE_BUSY); done.
      * destruct H as [|[H1 H2]]; [done|]. by apply lock_mark_spec.
Qed.

(** *** Reading without the log *)

(** The outcome of trying to read without the log: [None] goes on. *)
Definition db_begun (e : commit) (w : conn) (st : Z) (stop : option Z) (w' : conn) (g : ghost) : Prop :=
  match stop with
  | Some rc => begun 0 e w WNone st rc w' g
  | None => w' = w /\ exists l, g = mkGhost l (RHdr e) WNone CNone None st /\ holds_locks l w
  end.

Lemma wp_not_full {A} e (m : wprog A) l x c st Q : wp m Q (mkGhost l (RHdr e) x c None st) -> wp m Q (mkGhost l (RFull e) x c None st).
Proof using.
  apply wp_to. intros s G HI Hg. apply (upd_gr procs p s G (mkGhost l (RFull e) x c None st) (RHdr e)); try done.
  pose proof (rd_of procs p s G _ HI Hg) as K. apply K.
Qed.

Lemma begin_on_db_spec e w l st : holds_locks l w -> not_reading w -> c_hdr w = e_hdr e ->
  wp (begin_on_db w) (fun y g' => db_begun e w st y.1.1 y.2 g') (mkGhost l (RHdr e) WNone CNone None st).
Proof using Hp.
  intros Hl Hnr Hh. unfold begin_on_db. eapply wp_seq; [by apply (wp_nb_full iter procs p e)|].
  intros n g' Hn. rewrite Hh. change (mxFrame (e_hdr e)) with (mx e).
  destruct Hn as [[-> ->]|[Hn ->]].
  2: { rewrite (proj2 (Z.eqb_neq _ _) Hn). apply wp_ret. split; [done|]. by exists l. }
  rewrite Z.eqb_refl. cbn [negb set_gr gl gr gw gc gq gs]. eapply wp_seq; [apply wp_lock_shared; [done|no_need]|].
  intros rc g' Hrc. cbn [gl] in Hrc. destruct (Z.eqb_spec rc SQLITE_OK) as [E|E].
  - subst g'. cbn [set_gl gl gr gw gc gq gs]. set (l' := lset l (WAL_READ_LOCK 0) 1 Shared).
    eapply wp_seq; [by apply (wp_hdr_full iter procs p e (c_minFrame w))|]. intros h g' [[-> ->]|[Hne ->]].
    + rewrite hdr_eqb_same. cbn [negb set_gr gl gr gw gc gq gs]. apply wp_ret. eexists _, _. split; [done|]. split; [subst l'; locks Hl|].
      split; [done|]. right. split; [done|]. split; [cbn [c_readLock set_readLock fst snd]; unfold WAL_NREADER; lia|done].
    + rewrite (hdr_eqb_neq _ _ Hne). cbn [negb]. apply wp_forget_gr. cbn [set_gr gl gr gw gc gq gs].
      eapply wp_seq; [apply wp_unlock_shared; [done|no_need]|]. intros _ g' ->. cbn [set_gl gl gr gw gc gq gs]. apply wp_ret.
      eexists _, RNone. split; [done|]. split; [subst l'; locks Hl|]. split; [done|by left].
  - subst g'. destruct (Z.eqb_spec rc SQLITE_BUSY) as [E2|E2]; cbn [negb].
    + apply wp_not_full. apply wp_ret. split; [done|]. by exists l.
    + apply wp_forget_ret. exists l, RNone. split; [done|]. split; [done|]. split; [done|by left].
Qed.

(** *** Reading the header *)

(** The connection after a header was read into it; the page size is read with it. *)
Definition loaded (w : conn) (v : WalIndexHdr * Z) : conn := set_chdr (set_szPage w v.2) v.1.

Lemma loaded_same w : loaded w (c_hdr w, c_szPage w) = w.
Proof using. by destruct w. Qed.

(** Under the write lock the header is always read. *)
Lemma walIndexTryHdr_spec w ch l r x c st : wq x ->
  wp (walIndexTryHdr w ch) (fun y g' => exists e, g' = mkGhost l (RHdr e) x c None st /\
      (forall e0 sl, x = WTxn e0 sl -> e = e0 /\ y.1.1 = false) /\
      exists z, y.2 = (if y.1.1 then w else loaded w (e_hdr e, z))) (mkGhost l r x c None st).
Proof using.
  intros Hw. unfold walIndexTryHdr. eapply wp_seq; [apply wp_hdr|]. intros h g' (e & -> & -> & He). cbn [set_gr gl gr gw gc gq gs] in *.
  assert (forall (h2 : WalIndexHdr) g0, g0 = mkGhost l (RHdr e) x c None st -> (forall e0 sl, x = WTxn e0 sl -> h2 = e_hdr e) ->
    wp (if negb (hdr_eqb (e_hdr e) h2) then WRet (true, ch, w)
        else if negb (hdr_eqb (c_hdr w) (e_hdr e)) then WRet (false, true, set_chdr (set_szPage w (pagesize (e_hdr e))) (e_hdr e)) else WRet (false, ch, w))
      (fun y g' => exists e, g' = mkGhost l (RHdr e) x c None st /\
      (forall e0 sl, x = WTxn e0 sl -> e = e0 /\ y.1.1 = false) /\ exists z, y.2 = (if y.1.1 then w else loaded w (e_hdr e, z))) g0) as Hrest.
  { intros h2 g0 -> Hx. destruct (hdr_eqb (e_hdr e) h2) eqn:E; cbn [negb].
    - destruct (hdr_eqb (c_hdr w) (e_hdr e)) eqn:E2; cbn [negb]; apply wp_ret; exists e; (split; [done|]); cbn [fst snd].
      + split; [intros e0 sl Hs; split; [by apply (He e0 sl)|done]|]. exists (c_szPage w). apply hdr_eqb_eq in E2. by rewrite <- E2, loaded_same.
      + split; [intros e0 sl Hs; split; [by apply (He e0 sl)|done]|by eexists].
    - apply wp_ret. exists e. split; [done|]. cbn [fst snd]. split; [|by exists 0]. intros e0 sl Hs. rewrite (Hx e0 sl Hs), hdr_eqb_same in E. done. }
  destruct Hw as [->|(e0 & sl & ->)].
  - eapply wp_seq; [apply wp_look; intros s ch0 r0 s' E; cbn in E; by simplify_eq|]. intros h2 g' ->. by apply Hrest.
  - eapply wp_seq; [by apply (wp_hdr_txn iter procs p true e0 sl)|]. intros h2 g' [-> ->]. apply Hrest; [done|].
    intros e1 sl1 E. by rewrite (He e0 sl eq_refl).
Qed.

(** The outcome of reading the header. *)
Definition hdr_read (w : conn) (x : wstate) (st : Z) (rc : Z) (w' : conn) (g : ghost) : Prop :=
  exists l r h, g = mkGhost l r x CNone None st /\ w' = loaded w h /\ holds_locks l w' /\
    ((rc <> SQLITE_OK /\ r = RNone) \/
     (rc = SQLITE_OK /\ exists e, r = RHdr e /\ h.1 = e_hdr e /\ forall e0 sl, x = WTxn e0 sl -> e = e0)).

(** The write lock of a connection and what it knows. *)
Definition write_locked (w : conn) (x : wstate) : Prop :=
  (c_writeLock w = 0 /\ x = WNone) \/ (c_writeLock w <> 0 /\ exists e sl, x = WTxn e sl).

Lemma write_locked_wq w x : write_locked w x -> wq x.
Proof using. intros [[_ H]|[_ H]]; [by left|by right]. Qed.

Context (rec : conn -> wprog (Z * conn)).

Lemma walIndexReadHdr_spec w ch l x st : holds_locks l w -> not_reading w -> write_locked w x ->
  wp (walIndexReadHdr rec w ch) (fun y g' => hdr_read w x st y.1.1 y.2 g') (mkGhost l RNone x CNone None st).
Proof using Hp.
  intros Hl Hnr Hw. pose proof (write_locked_wq w x Hw) as Hq. unfold walIndexReadHdr.
  assert (forall rc l', rc <> SQLITE_OK -> holds_locks l' w -> hdr_read w x st rc w (mkGhost l' RNone x CNone None st)) as Hfail.
  { intros rc l' Hrc Hl'. exists l', RNone, (c_hdr w, c_szPage w). split; [done|]. split; [by rewrite loaded_same|]. split; [done|by left]. }
  eapply wp_seq; [apply wp_env|]. intros rc g' ->. destruct (Z.eqb_spec rc SQLITE_OK) as [E|E]; cbn [negb]; [|apply wp_ret; by apply Hfail].
  eapply wp_seq; [apply walIndexTryHdr_spec; done|]. intros [[bad ch'] w'] g' (e & -> & Hx & z & Hw'). cbn [fst snd] in *.
  destruct bad; cbn [negb].
  2: { apply wp_ret. exists l, (RHdr e), (e_hdr e, z). split; [done|]. split; [done|]. split; [subst w'; exact Hl|]. right. split; [done|].
       exists e. split; [done|]. split; [done|]. intros e0 sl E0. by apply (Hx e0 sl). }
  subst w'. destruct Hw as [[Hw0 ->]|[Hw0 (e0 & sl & ->)]]; [|by destruct (Hx e0 sl eq_refl)].
  rewrite Hw0. change (negb (0 =? 0)) with false. cbv iota.
  eapply wp_seq; [apply wp_lock_excl; [done|no_need]|]. intros rc' g' Hrc. cbn [gl] in Hrc.
  destruct (Z.eqb_spec rc' SQLITE_OK) as [E'|E']; cbn [negb].
  2: { subst g'. apply wp_forget_ret. by apply Hfail. }
  subst g'. cbn [set_gl gl gr gw gc gq gs]. set (l' := lset l WAL_WRITE_LOCK 1 Exclusive).
  apply wp_write_start; [done|done|]. intros e1. cbn [set_gw gl gr gw gc gq gs].
  set (PostR := fun (y : Z * bool * conn) (g' : ghost) => exists r h, g' = mkGhost l' r (WTxn e1 txn0) CNone None st /\ y.2 = loaded (set_writeLock w 2) h /\
    ((y.1.1 <> SQLITE_OK /\ r = RNone) \/ (y.1.1 = SQLITE_OK /\ r = RHdr e1 /\ h.1 = e_hdr e1))).
  eapply (wp_seq iter procs p (op OEnv)); [apply wp_env|]. intros rc2 g' ->.
  eapply (wp_seq iter procs p _ _ PostR).
  - destruct (Z.eqb_spec rc2 SQLITE_OK) as [E2|E2]; cbn [negb].
    + eapply wp_seq; [apply walIndexTryHdr_spec; right; by exists e1, txn0|]. intros [[bad ch2] w2] g' (e2 & -> & Hx2 & z2 & Hw2). cbn [fst snd] in *.
      destruct (Hx2 e1 txn0 eq_refl) as [-> ->]. apply wp_ret. exists (RHdr e1), (e_hdr e1, z2). split; [done|]. split; [done|by right].
    + apply wp_forget_ret. exists RNone, (c_hdr w, c_szPage w). split; [done|]. split; [by destruct w|by left].
  - intros [[rc3 ch3] w3] g' (r & h & -> & Hw3 & Hr). cbn [fst snd] in *. subst w3.
    assert (forall r', (match r' with RNone | RHdr _ => True | _ => False end) ->
      wp (op (OUnlockExclusive WAL_WRITE_LOCK 1)) (fun _ g' => exists l2, g' = mkGhost l2 r' WNone CNone None st /\ holds_locks l2 (loaded w h)) (mkGhost l' r' (WTxn e1 txn0) CNone None st)) as Hun.
    { intros r' Hr'. apply wp_forget_gw; [right; by exists e1, txn0|]. cbn [set_gw gl gr gw gc gq gs].
      eapply wp_mono; [|apply wp_unlock_excl; [done|destruct r'; try done; no_need]]. intros _ g' ->. cbn [set_gl gl gr gw gc gq gs].
      eexists. split; [done|]. subst l'. locks Hl. }
    eapply wp_seq; [apply Hun; destruct Hr as [[_ ->]|(_ & -> & _)]; done|]. intros _ g' (l2 & -> & Hl2). apply wp_ret. cbn [fst snd].
    assert (set_writeLock (loaded (set_writeLock w 2) h) 0 = loaded w h) as -> by (destruct w; cbn in *; by rewrite Hw0).
    exists l2, r, h. split; [done|]. split; [done|]. split; [done|]. destruct Hr as [[H1 H2]|(H1 & H2 & H3)]; [by left|right].
    split; [done|]. exists e1. split; [done|]. split; [done|]. intros e0 sl E0. done.
Qed.

Lemma begin_hdr_spec w ch l st : holds_locks l w -> not_reading w -> c_writeLock w = 0 ->
  wp (begin_hdr rec w ch) (fun y g' => hdr_read w WNone st y.1.1 y.2 g') (mkGhost l RNone WNone CNone None st).
Proof using Hp.
  intros Hl Hnr Hw. unfold begin_hdr. eapply wp_seq; [apply walIndexReadHdr_spec; [done|done|by left]|].
  intros [[rc ch'] w'] g' Hr. cbn [fst snd] in Hr. destruct (Z.eqb_spec rc SQLITE_BUSY) as [E|E]; cbn [negb]; [|by apply wp_ret].
  destruct Hr as (l' & r & h & -> & -> & Hl' & [[_ ->]|[Hok _]]); [|by rewrite E in Hok].
  assert (forall rc2 l2, rc2 <> SQLITE_OK -> holds_locks l2 (loaded w h) -> hdr_read w WNone st rc2 (loaded w h) (mkGhost l2 RNone WNone CNone None st)) as Hfail.
  { intros rc2 l2 Hrc Hl2. exists l2, RNone, h. split; [done|]. split; [done|]. split; [done|by left]. }
  eapply wp_seq; [apply wp_env|]. intros u g' ->. destruct (Z.eqb_spec u 0) as [E2|E2]; cbn [negb]; [|apply wp_ret; by apply Hfail].
  eapply wp_seq; [apply wp_lock_shared; [done|no_need]|]. intros rc2 g' Hrc. cbn [gl] in Hrc. destruct (Z.eqb_spec rc2 SQLITE_OK) as [E3|E3].
  - subst g'. cbn [set_gl gl gr gw gc gq gs]. eapply wp_seq; [apply wp_unlock_shared; [done|no_need]|]. intros _ g' ->. cbn [set_gl gl gr gw gc gq gs].
    apply wp_ret. apply Hfail; [done|]. locks Hl'.
  - subst g'. apply wp_ret. apply Hfail; [|done]. destruct (rc2 =? SQLITE_BUSY); [done|done].
Qed.

(** One attempt to begin a read transaction: [x] is what the connection knows as a writer, which
    reads the last commit. *)
Definition read_begun (w : conn) (x : wstate) (st : Z) (rc : Z) (w' : conn) (g : ghost) : Prop :=
  exists l r, g = mkGhost l r x CNone None st /\ holds_locks l w' /\ c_writeLock w' = c_writeLock w /\ c_ckptLock w' = c_ckptLock w /\
    ((rc <> SQLITE_OK /\ not_reading w' /\ r = RNone) \/
     (rc = SQLITE_OK /\ 0 <= c_readLock w' < WAL_NREADER /\ exists e, r = ROpen e (c_readLock w') (c_minFrame w') /\ c_hdr w' = e_hdr e)).

Lemma sleep_spec (cnt : Z) g : wp (if 5 <? cnt then do! _ := op OEnv in WRet tt else WRet tt) (fun _ g' => g' = g) g.
Proof using. destruct (5 <? cnt); [|by apply wp_ret]. eapply wp_seq; [apply wp_env|]. intros r g' ->. by apply wp_ret. Qed.

Lemma walTryBeginRead_spec w ch cnt l st : holds_locks l w -> not_reading w -> c_writeLock w = 0 ->
  wp (walTryBeginRead rec w ch false cnt) (fun y g' => read_begun w WNone st y.1.1.1 y.2 g') (mkGhost l RNone WNone CNone None st).
Proof using Hp.
  intros Hl Hnr Hw. unfold walTryBeginRead. destruct ((5 <? cnt + 1) && (WAL_RETRY_PROTOCOL_LIMIT <? cnt + 1)).
  { apply wp_ret. exists l, RNone. split; [done|]. split; [done|]. split; [done|]. split; [done|by left]. }
  eapply wp_seq; [apply sleep_spec|]. intros _ g' ->.
  eapply wp_seq; [by apply begin_hdr_spec|]. intros [[rc ch'] w'] g' Hr. cbn [fst snd] in Hr.
  destruct Hr as (l' & r & h & -> & -> & Hl' & [[Hne ->]|(-> & e & -> & Hh & _)]).
  { rewrite (proj2 (Z.eqb_neq _ _) Hne). cbn [negb]. apply wp_ret. exists l', RNone. split; [done|]. split; [done|]. split; [done|]. split; [done|by left]. }
  rewrite Z.eqb_refl. cbn [negb]. eapply wp_seq; [by apply (begin_on_db_spec e)|]. intros [[stop rc'] w''] g' Hs. cbn [fst snd] in Hs.
  assert (forall lo rc2 w2 g2, 0 <= lo -> begun lo e (loaded w h) WNone st rc2 w2 g2 -> read_begun w WNone st rc2 w2 g2) as Hb.
  { intros lo rc2 w2 g2 Hlo (l2 & r2 & -> & H1 & (S0 & S1 & S2 & S3) & H). exists l2, r2. split; [done|]. split; [done|]. split; [done|]. split; [done|].
    destruct H as [H|(H2 & H3 & ->)]; [by left|right]. split; [done|]. split; [lia|]. exists e. split; [done|]. by rewrite S0. }
  destruct stop as [rc2|].
  - apply wp_ret. by apply (Hb 0).
  - destruct Hs as (-> & l2 & -> & Hl2). eapply wp_seq; [apply (begin_on_mark_spec e); [done|done|by left|done]|].
    intros [rc2 w2] g' H2. apply wp_ret. by apply (Hb 1).
Qed.

(** After starting the log over, with the write lock. *)
Lemma wp_know_cur {A} e sl (m : wprog A) l x c st Q : x = WTxn e sl -> wp m Q (mkGhost l (RHdr e) x c None st) -> wp m Q (mkGhost l RNone x c None st).
Proof using.
  intros Hx. apply wp_to. intros s G HI Hg. apply (upd_gr procs p s G (mkGhost l RNone x c None st) (RHdr e)); try done.
  pose proof (wr_of procs p s G _ HI Hg) as K. unfold wr_ok in K. cbn [gw] in K. rewrite Hx in K. destruct K as (-> & _).
  split; [apply cur_in|]. cbn [set_gr gs]. pose proof (start_known procs s G p HI) as Hs. by rewrite Hg in Hs.
Qed.

Lemma walTryBeginRead_writer e sl w ch cnt l st : holds_locks l w -> not_reading w -> c_hdr w = e_hdr e ->
  wp (walTryBeginRead rec w ch true cnt) (fun y g' => begun 1 e w (WTxn e sl) st y.1.1.1 y.2 g') (mkGhost l RNone (WTxn e sl) CNone None st).
Proof using Hp.
  intros Hl Hnr Hh. unfold walTryBeginRead. destruct ((5 <? cnt + 1) && (WAL_RETRY_PROTOCOL_LIMIT <? cnt + 1)).
  { apply wp_ret. exists l, RNone. split; [done|]. split; [done|]. split; [done|]. by left. }
  eapply wp_seq; [apply sleep_spec|]. intros _ g' ->. apply (wp_know_cur e sl); [done|].
  eapply wp_seq; [apply (begin_on_mark_spec e); [done|done|right; by exists e, sl|done]|]. intros [rc w'] g' H. by apply wp_ret.
Qed.

(** *** Trying again *)

Lemma begin_loop_spec fuel w ch cnt l st : holds_locks l w -> not_reading w -> c_writeLock w = 0 ->
  wp (begin_loop rec fuel w ch false cnt) (fun y g' => read_begun w WNone st y.1.1 y.2 g') (mkGhost l RNone WNone CNone None st).
Proof using Hp.
  revert w ch cnt l. induction fuel as [|fuel IH]; intros w ch cnt l Hl Hnr Hw; cbn [begin_loop].
  { apply wp_ret. exists l, RNone. split; [done|]. split; [done|]. split; [done|]. split; [done|by left]. }
  eapply wp_seq; [by apply walTryBeginRead_spec|]. intros [[[rc ch'] cnt'] w'] g' H. cbn [fst snd] in H.
  destruct (Z.eqb_spec rc WAL_RETRY) as [->|E]; [|by apply wp_ret].
  destruct H as (l' & r & -> & Hl' & S1 & S2 & [(_ & Hnr' & ->)|[? _]]); [|done].
  eapply wp_mono; [|apply IH; [done|done|congruence]]. intros y g' (l2 & r2 & -> & H1 & H2 & H3 & H4). exists l2, r2.
  split; [done|]. split; [done|]. split; [congruence|]. split; [congruence|done].
Qed.

Lemma begin_loop_writer fuel e sl w ch cnt l st : holds_locks l w -> not_reading w -> c_hdr w = e_hdr e ->
  wp (begin_loop rec fuel w ch true cnt) (fun y g' => begun 1 e w (WTxn e sl) st y.1.1 y.2 g') (mkGhost l RNone (WTxn e sl) CNone None st).
Proof using Hp.
  revert w ch cnt l. induction fuel as [|fuel IH]; intros w ch cnt l Hl Hnr Hh; cbn [begin_loop].
  { apply wp_ret. exists l, RNone. split; [done|]. split; [done|]. split; [done|]. by left. }
  eapply wp_seq; [by apply (walTryBeginRead_writer e sl)|]. intros [[[rc ch'] cnt'] w'] g' H. cbn [fst snd] in H.
  destruct (Z.eqb_spec rc WAL_RETRY) as [->|E]; [|by apply wp_ret].
  destruct H as (l' & r & -> & Hl' & (S0 & S1 & S2 & S3) & [(_ & Hnr' & ->)|[? _]]); [|done].
  eapply wp_mono; [|apply IH; [done|done|congruence]]. intros y g' (l2 & r2 & -> & H1 & (H2 & H3 & H4 & H5) & H6). exists l2, r2.
  split; [done|]. split; [done|]. split; [split_and!; congruence|done].
Qed.

End routines.

(** ** Between two calls *)

(** The pages of frames. *)
Definition page_ok (q : Z) : Prop := 0 < q < 0xffffffff.

(** A write transaction on top of [e] with the frames [t]. *)
Definition in_txn (w : conn) (e : commit) (t : txn) : Prop :=
  mxFrame (c_hdr w) = mx e + zlen (t_pages t) /\ Forall page_ok (t_pages t) /\ (length (t_pages t) <= length (t_data t))%nat /\
  (c_readLock w <= 0 -> t_pages t = [] /\ c_hdr w = e_hdr e).

Lemma in_txn_nil w e t : c_hdr w = e_hdr e -> t_pages t = [] -> in_txn w e t.
Proof. intros H Ht. unfold in_txn, mx, zlen. rewrite H, Ht. split; [cbn [length]; lia|]. split; [done|]. split; [cbn [length]; lia|done]. Qed.

(** The read transaction of a connection that has the commit [e]. *)
Definition reads_from (w : conn) (r : rstate) (e : commit) : Prop :=
  0 <= c_readLock w < WAL_NREADER /\ r = ROpen e (c_readLock w) (c_minFrame w).

Definition knows (w : conn) (r : rstate) (x : wstate) : Prop :=
  exists e,
    ((not_reading w /\ r = RNone) \/ reads_from w r e) /\
    ((c_writeLock w = 0 /\ x = WNone /\ (0 <= c_readLock w -> c_hdr w = e_hdr e)) \/
     (c_writeLock w <> 0 /\ exists t, x = WTxn e t /\ in_txn w e t)).

Definition idle (w : conn) (st : Z) (g : ghost) : Prop :=
  exists l r x, g = mkGhost l r x CNone None st /\ holds_locks l w /\ c_ckptLock w = false /\ knows w r x.

Section calls.
Context (iter : (Z -> Z) -> Z -> Z -> list (Z * Z)).
Context (procs : list nat) (p : nat) (Hp : p ∈ procs).
Abbreviation wp := (wp iter procs p).

(** A connection that does not read and has no write lock. *)
Lemma idle_out w st l : not_reading w -> c_writeLock w = 0 -> c_ckptLock w = false -> holds_locks l w ->
  idle w st (mkGhost l RNone WNone CNone None st).
Proof using.
  intros Hr Hw Hc Hl. exists l, RNone, WNone. split; [done|]. split; [done|]. split; [done|]. exists (mkCommit hdr_zero (fun _ => []) 0 0). split; [by left|left].
  split; [done|]. split; [done|]. unfold not_reading in Hr. lia.
Qed.

Lemma end_write_idle w st g : idle w st g -> (forall e sl, gw g = WTxn e sl -> c_hdr w = e_hdr e) ->
  wp (sqlite3WalEndWriteTransaction w) (fun w' g' => idle w' st g' /\ w' = set_writeLock w 0) g.
Proof using Hp.
  intros (l & r & x & -> & Hl & Hc & e & Hr & Hx) Hh. unfold sqlite3WalEndWriteTransaction.
  destruct (Z.eqb_spec (c_writeLock w) 0) as [E|E]; cbn [negb].
  - apply wp_ret. split; [|destruct w; cbn in *; by subst]. exists l, r, x. split; [done|]. split; [done|]. split; [done|]. by exists e.
  - destruct Hx as [[? _]|(_ & sl & -> & Ht)]; [done|]. specialize (Hh e sl eq_refl).
    apply wp_forget_gw; [right; by exists e, sl|]. cbn [set_gw gl gr gw gc gq gs].
    eapply wp_seq; [apply wp_unlock_excl; [done|]|].
    { destruct Hr as [[_ ->]|[? ->]]; no_need. }
    intros _ g' ->. cbn [set_gl gl gr gw gc gq gs]. apply wp_ret. split; [|done].
    eexists _, r, WNone. split; [done|]. split; [|split; [done|]].
    + destruct Hr as [[Hr _]|[Hr _]]; locks Hl.
    + exists e. split; [exact Hr|]. left. done.
Qed.

Lemma end_read_idle w st g : idle w st g -> (c_readLock w < 0 \/ c_writeLock w = 0) ->
  wp (sqlite3WalEndReadTransaction w) (fun w' g' => idle w' st g') g.
Proof using Hp.
  intros Hi Hw. unfold sqlite3WalEndReadTransaction. destruct (Z.leb_spec 0 (c_readLock w)) as [Hr|Hr].
  2: { by apply wp_ret. }
  destruct Hw as [|Hw]; [lia|]. unfold sqlite3WalEndWriteTransaction. rewrite Hw. change (negb (0 =? 0)) with false. cbv iota. cbn [wbind].
  destruct Hi as (l & r & x & -> & Hl & Hc & e & He & Hx). destruct Hx as [(_ & -> & _)|[? _]]; [|done].
  apply wp_forget_gr. cbn [set_gr gl gr gw gc gq gs]. eapply wp_seq; [apply wp_unlock_shared; [done|no_need]|]. intros _ g' ->.
  cbn [set_gl gl gr gw gc gq gs]. apply wp_ret. apply idle_out; [done|done|done|]. locks Hl.
Qed.

(** A page that was read is that of the database for the connection. *)
Definition page_read (q rc : Z) (d : page) (g : ghost) : Prop :=
  forall e j mn, gr g = ROpen e j mn -> rc = SQLITE_OK -> q <= np e \/ q ∈ t_pages (gtxn g) -> d = sees e (gtxn g) q.

Lemma idle_no_q w st g : idle w st g -> gq g = None.
Proof using. by intros (l & r & x & -> & _). Qed.

Lemma open_mx {A} e j mn (m : wprog A) Q g : gr g = ROpen e j mn -> (0 <= mx e -> wp m Q g) -> wp m Q g.
Proof using.
  intros Hr. apply wp_fact. intros s G HI Eg. pose proof (rd_of procs p s G g HI Eg) as K. unfold rd_ok in K. rewrite Hr in K. destruct K as ([K1 _] & _).
  by apply (h_mx _ (i_hist _ _ _ HI)).
Qed.

(** What a connection that reads has on top of its commit. *)
Lemma idle_on_top w st g : idle w st g -> 0 <= c_readLock w -> exists e,
  gr g = ROpen e (c_readLock w) (c_minFrame w) /\ on_top g e /\ mxFrame (c_hdr w) = mx e + zlen (t_pages (gtxn g)) /\
  (length (t_pages (gtxn g)) <= length (t_data (gtxn g)))%nat /\ (c_readLock w = 0 -> t_pages (gtxn g) = []).
Proof using.
  intros (l & r & x & -> & Hl & Hc & e & [[? _]|[_ ->]] & Hx) Hr; [unfold not_reading in *; lia|]. exists e. split; [done|].
  destruct Hx as [(_ & -> & Hh)|(_ & t & -> & H1 & _ & H2 & H3)].
  - split; [by left|]. rewrite (Hh Hr). split; [unfold gtxn, mx, zlen; cbn [gw txn0 t_pages length]; lia|]. by split.
  - split; [right; by exists t|]. split; [done|]. split; [done|]. intros E. by apply H3; lia.
Qed.

Lemma read_own e j mn q g t w : gr g = ROpen e j mn -> gw g = WTxn e t -> q ∈ t_pages t -> 0 < j -> 0 <= mx e -> j = c_readLock w -> mn = c_minFrame w ->
  mxFrame (c_hdr w) = mx e + zlen (t_pages t) -> (length (t_pages t) <= length (t_data t))%nat ->
  wp (readDbPage w q) (fun y g' => g' = g /\ (y.1 = SQLITE_OK -> y.2 = sees e t q)) g.
Proof using.
  intros Hr Hw Hin Hj Hmx -> -> Hm Hl. destruct (last_place _ _ Hin) as (k & Hk & Hlast). pose proof (lookup_lt_Some _ _ _ Hk) as Hlt.
  destruct (lookup_lt_is_Some_2 (t_data t) k) as [d Hd]; [lia|]. unfold readDbPage, findFrame.
  rewrite (proj2 (Z.eqb_neq (mxFrame _) 0)) by (unfold zlen in Hm; lia). rewrite (proj2 (Z.eqb_neq (c_readLock w) 0)) by lia. cbn [orb]. rewrite Hm.
  eapply wp_seq; [apply (wp_find_own iter procs p e (c_readLock w) (c_minFrame w) q t k); [done|lia|done..]|]. intros [rc f] g' [-> Hf]. cbn [fst snd] in Hf.
  destruct (Z.eqb_spec rc SQLITE_OK) as [E|E]; cbn [negb]; [|apply wp_ret; split; [done|]; intros E'; done].
  rewrite (Hf E), (proj2 (Z.eqb_neq _ 0)) by lia. cbn [negb]. eapply wp_mono; [|by apply (wp_log_own iter procs p e t k d)].
  intros y g' [-> H]. split; [done|]. intros Ey. rewrite (H Ey). unfold sees. by rewrite (last_of_some _ _ q k d).
Qed.

Lemma read_other e w q g : gr g = ROpen e (c_readLock w) (c_minFrame w) -> on_top g e -> q ∉ t_pages (gtxn g) -> gq g = None -> 0 <= c_readLock w -> 0 <= mx e -> 1 <= q ->
  mxFrame (c_hdr w) = mx e + zlen (t_pages (gtxn g)) ->
  wp (readDbPage w q) (fun y g' => g' = g /\ (y.1 = SQLITE_OK -> q <= np e -> y.2 = e_img e q)) g.
Proof using.
  intros Hgr Ht Hin Hg Hr Hmx Hq Hm. unfold readDbPage, findFrame.
  destruct (Z.eqb_spec (mxFrame (c_hdr w)) 0) as [Em|Em]; [|destruct (Z.eqb_spec (c_readLock w) 0) as [Ej|Ej]]; cbn [orb wbind].
  - apply (wp_db_page iter procs p e (c_readLock w) (c_minFrame w) q); [done| |done].
    destruct (Z.eq_dec (c_readLock w) 0); [by left|right; split; [lia|]]. right. pose proof (zlen_nonneg (t_pages (gtxn g))). lia.
  - apply (wp_db_page iter procs p e (c_readLock w) (c_minFrame w) q); [done|by left|done].
  - rewrite Hm. eapply wp_seq; [by apply (wp_find iter procs p e (c_readLock w))|]. intros [rc f] g' Hf. cbn [fst snd] in Hf.
    destruct (Z.eqb_spec rc SQLITE_OK) as [Erc|Erc]; cbn [negb]; [|subst g'; by apply wp_ret].
    apply wp_last. subst g'. eapply wp_mono.
    2: { destruct (Z.eqb_spec f 0) as [Ef|Ef]; cbn [negb].
      - apply (wp_db_page iter procs p e (c_readLock w) (c_minFrame w) q); [done| |done]. right. split; [lia|]. left. by subst f.
      - apply (wp_log_page iter procs p e (c_readLock w) (c_minFrame w) q); [done|lia|done|done|done]. }
    intros y g' [-> H]. apply wp_forget_gq. cbn [set_gq gl gr gw gc gs]. apply wp_ret. split; [|done]. destruct g. cbn in *. by subst.
Qed.

Lemma read_idle w st g q : idle w st g -> 0 <= c_readLock w -> 1 <= q -> wp (readDbPage w q) (fun y g' => g' = g /\ page_read q y.1 y.2 g) g.
Proof using.
  intros Hi Hr Hq. destruct (idle_on_top _ _ _ Hi Hr) as (e & Hgr & Ht & Hm & Hl & H0). apply (open_mx e _ _ _ _ _ Hgr). intros Hmx.
  destruct (decide (q ∈ t_pages (gtxn g))) as [Hin|Hn].
  - destruct Ht as [Hw|[t Hw]]; unfold page_read, gtxn in *; rewrite Hw in *; [by apply elem_of_nil in Hin|].
    eapply wp_mono; [|apply (read_own e (c_readLock w) (c_minFrame w) q g t w); try done].
    + intros y g' [-> H]. split; [done|]. intros e' j mn E' Erc _. rewrite Hgr in E'. injection E' as <- _ _. by apply H.
    + destruct (Z.eq_dec (c_readLock w) 0) as [E|]; [|lia]. rewrite (H0 E) in Hin. by apply elem_of_nil in Hin.
  - eapply wp_mono; [|apply (read_other e w q g); try done; by eapply idle_no_q]. intros y g' [-> H]. split; [done|].
    intros e' j mn E' Erc Hnp. rewrite Hgr in E'. injection E' as <- _ _. destruct Hnp as [Hnp|]; [|done]. unfold sees. rewrite last_of_none by done. by apply H.
Qed.

Lemma begin_write_idle w st g : idle w st g -> 0 <= c_readLock w -> c_writeLock w = 0 ->
  wp (sqlite3WalBeginWriteTransaction w) (fun y g' => idle y.2 st g' /\ gr g' = gr g /\ (forall e t, gw g' = WTxn e t -> t = txn0 /\ y.1 = SQLITE_OK)) g.
Proof using Hp.
  intros (l & r & x & -> & Hl & Hc & e & [[? _]|[Hr ->]] & Hx) Hr0 Hw; [unfold not_reading in *; lia|].
  destruct Hx as [(_ & -> & Hh)|[? _]]; [|done]. specialize (Hh Hr0). unfold sqlite3WalBeginWriteTransaction.
  eapply wp_seq; [apply wp_lock_excl; [done|no_need]|]. intros rc g' Hrc. cbn [gl] in Hrc. destruct (Z.eqb_spec rc SQLITE_OK) as [E|E]; cbn [negb].
  2: { subst g'. apply wp_ret. split; [|done]. eexists l, _, WNone. split; [done|]. split; [done|]. split; [done|]. exists e. split; [by right|by left]. }
  subst g'. apply wp_write_start; [done|done|]. intros e'. cbn [set_gw set_gl gl gr gw gc gq gs].
  eapply wp_seq; [by apply (wp_hdr_txn iter procs p false e' txn0)|]. intros h g' [-> ->]. cbn [c_hdr set_writeLock].
  destruct (hdr_eqb (c_hdr w) (e_hdr e')) eqn:Eh; cbn [negb].
  - apply hdr_eqb_eq in Eh. eapply (wp_latest iter procs p e); [done|done|congruence|]. intros <-. apply wp_ret. split; [|split; [done|by intros e0 t [= <- <-]]].
    eexists _, _, _. split; [done|]. split; [locks Hl|]. split; [done|]. exists e. split; [by right|]. right. split; [done|]. exists txn0. split; [done|].
    by apply in_txn_nil.
  - apply wp_forget_gw; [right; by exists e', txn0|]. cbn [set_gw gl gr gw gc gq gs]. eapply wp_seq; [apply wp_unlock_excl; [done|no_need]|].
    intros _ g' ->. cbn [set_gl gl gr gw gc gq gs]. apply wp_ret. split; [|done]. eexists _, _, WNone. split; [done|]. split; [locks Hl|]. split; [done|].
    exists e. split; [by right|by left].
Qed.

End calls.
