(* ===== verification/WalWriter.v ===== *)
(** * Writing the write-ahead log (wal.c of sqlite3.c)

    The routines of [WalShm] that start the log over, append frames, commit and undo them, by
    the rules of [WalWp]. *)

From S2P Require Import Prelude Bitwise Varint UnixFile WalIndex WalLog WalWrite WalShm WalInv WalWp WalReader.
From stdpp Require Import options.

(** A connection with the write lock, on top of [e] with the frames [t]. *)
Definition writing (w : conn) (l : Z -> lmode) (r : rstate) (e : commit) (t : txn) : Prop :=
  holds_locks l w /\ c_writeLock w <> 0 /\ c_ckptLock w = false /\ in_txn w e t /\ ((not_reading w /\ r = RNone) \/ reads_from w r e).

Lemma writing_idle w l r e t st : writing w l r e t -> idle w st (mkGhost l r (WTxn e t) CNone None st).
Proof.
  intros (H1 & H2 & H3 & H4 & H5). exists l, r, (WTxn e t). split; [done|]. split; [done|]. split; [done|]. exists e. split; [done|]. right.
  split; [done|]. by exists t.
Qed.

(** The same database. *)
Definition same_image (e e' : commit) : Prop := np e' = np e /\ e_img e' = e_img e.

(** What is checked of a commit before it is written: it writes the pages it adds. *)
Definition grows (e : commit) (t : txn) (pList : list (Z * page)) (nTruncate : Z) : Prop :=
  forall q, np e < q <= nTruncate -> q ∈ t_pages t \/ q ∈ pList.*1.

Section writer.
Context (iter : (Z -> Z) -> Z -> Z -> list (Z * Z)).
Context (procs : list nat) (p : nat) (Hp : p ∈ procs).
Abbreviation wp := (wp iter procs p).

(** *** Starting the log over *)

Lemma clear_marks_spec n i g : 1 <= i -> i + Z.of_nat n <= WAL_NREADER -> (forall j, 1 <= j < WAL_NREADER -> gl g (WAL_READ_LOCK j) = Exclusive) ->
  wp (clear_marks n i) (fun _ g' => g' = g) g.
Proof using.
  intros Hi Hn Hl. revert i Hi Hn. induction n as [|n IH]; intros i Hi Hn; cbn [clear_marks]; [by apply wp_ret|].
  eapply wp_seq; [apply wp_set_mark, Hl; lia|]. intros _ g' ->. apply IH; lia.
Qed.

Lemma walRestartHdr_spec w salt1 e t g : gw g = WTxn e t -> exclusive g -> c_hdr w = e_hdr e -> gc g = CNone ->
  (exists mn, gr g = ROpen e 0 mn) \/ gr g = RFull e ->
  wp (walRestartHdr w salt1) (fun w' g' => exists e' n, same_image e e' /\ mx e' = 0 /\ g' = set_gw g (WTxn e' txn0) /\
    w' = set_chdr (set_cCkpt w n) (e_hdr e')) g.
Proof using.
  intros Hw Hx Hh Hc Hr. unfold walRestartHdr. cbn [c_hdr set_cCkpt set_chdr]. rewrite Hh. set (h := restarted (e_hdr e) salt1).
  unfold walIndexWriteHdr. cbn [c_hdr set_cCkpt set_chdr].
  eapply (wp_seq _ _ _ _ _ (fun _ g' => exists e', e_hdr e' = h /\ e_img e' = e_img e /\ g' = set_gw g (WWin e'))).
  { eapply wp_seq; [by apply (wp_h1_restart iter procs p e t h)|]. intros _ g' ->.
    eapply wp_mono; [|apply (wp_h0_restart iter procs p e h t); [done|done|intros; cbn [set_gw gc]; by rewrite Hc]].
    intros _ g' (e' & He & Hi & ->). by exists e'. }
  intros _ g' (e' & He & Hi & ->). eapply wp_seq; [by apply (wp_nb_zero iter procs p e')|]. intros _ g' ->.
  eapply wp_seq; [apply wp_attempted|]. intros _ g' ->.
  eapply wp_seq; [apply wp_set_mark; by apply (proj1 Hx 1)|]. intros _ g' ->.
  eapply wp_seq; [apply clear_marks_spec; [lia|unfold WAL_NREADER; lia|apply Hx]|]. intros _ g' ->.
  apply wp_ret. exists e', (u32 (c_nCkpt w + 1)). unfold same_image, np, mx. rewrite He. cbn [h restarted nPage mxFrame set_gw gl gr gw gc gq gs].
  by split_and!.
Qed.

(** *** Frames *)

(** The connection after its header changed in what does not matter here. *)
Definition hdr_moves (w w' : conn) : Prop :=
  exists v, w' = loaded w v /\ mxFrame v.1 = mxFrame (c_hdr w) /\ nPage v.1 = nPage (c_hdr w).

Lemma hdr_moves_refl w : hdr_moves w w.
Proof using. exists (c_hdr w, c_szPage w). split; [by rewrite loaded_same|done]. Qed.

Lemma hdr_moves_trans w1 w2 w3 : hdr_moves w1 w2 -> hdr_moves w2 w3 -> hdr_moves w1 w3.
Proof using.
  intros (h1 & -> & H1 & H2) (h2 & -> & H3 & H4). exists h2. split; [done|]. cbn in *. split; congruence.
Qed.

Lemma writing_moves w w' l r e t : hdr_moves w w' -> 0 < c_readLock w -> writing w l r e t -> writing w' l r e t.
Proof using.
  intros (h & -> & H1 & H2) Hr (W1 & W2 & W3 & (T1 & T2 & T3 & T4) & W5). split; [exact W1|]. split; [exact W2|]. split; [exact W3|]. split; [|exact W5].
  split; [by rewrite <- T1|]. split; [done|]. split; [done|]. cbn. lia.
Qed.

(** The frames of the connection, with other contents. *)
Definition on_frames (g : ghost) (e : commit) (ps : list Z) (ds : list page) : ghost := set_gw g (WTxn e (mkTxn ps ds)).

Lemma on_frames_same g e t : gw g = WTxn e t -> on_frames g e (t_pages t) (t_data t) = g.
Proof using. intros H. apply set_gw_same. by destruct t. Qed.

Lemma write_log_hdr_spec w szPage g : wp (write_log_hdr w szPage) (fun y g' => g' = g /\ hdr_moves w y.2) g.
Proof using.
  unfold write_log_hdr. eapply (wp_seq _ _ _ _ _ (fun w' g' => g' = g /\ hdr_moves w w')).
  - destruct (c_nCkpt w =? 0); [|apply wp_ret; split; [done|apply hdr_moves_refl]].
    eapply wp_seq; [apply wp_env|]. intros s0 g' ->. eapply wp_seq; [apply wp_env|]. intros s1 g' ->. apply wp_ret. split; [done|]. by eexists (_, c_szPage w).
  - intros w1 g' [-> H1]. eapply wp_seq; [apply wp_env|]. intros k0 g' ->. eapply wp_seq; [apply wp_env|]. intros k1 g' ->.
    assert (forall ck, hdr_moves w (set_chdr (set_szPage w1 szPage) (mkHdr (iChange (c_hdr w1)) 0 (h_szPage (c_hdr w1)) (mxFrame (c_hdr w1)) (nPage (c_hdr w1)) ck (aSalt (c_hdr w1))))) as H2.
    { intros ck. apply (hdr_moves_trans w w1); [done|]. by eexists (_, szPage). }
    eapply wp_seq; [apply wp_env|]. intros rc g' ->. destruct (negb (rc =? SQLITE_OK)); [apply wp_ret; split; [done|apply H2]|].
    eapply wp_seq; [apply wp_env|]. intros rc2 g' ->. apply wp_ret. split; [done|apply H2].
Qed.

(** A frame after the known ones is written. *)
Lemma write_one_spec w ps ds k f d e g : gw g = WTxn e (mkTxn ps ds) -> f = mx e + 1 + Z.of_nat k -> (k <= length ds)%nat ->
  wp (write_one w f d) (fun y g' => hdr_moves w y.2 /\ exists d', g' = on_frames g e ps (put_data ds k d') /\ (y.1 = SQLITE_OK -> d' = d)) g.
Proof using.
  intros Hw Hf Hk. unfold write_one. eapply wp_seq; [apply wp_env|]. intros k0 g' ->. eapply wp_seq; [apply wp_env|]. intros k1 g' ->.
  eapply wp_seq; [by apply (wp_log_write iter procs p e (mkTxn ps ds) k)|]. intros rc g' Hrc. apply wp_ret. split; [by eexists (_, c_szPage w)|]. exact Hrc.
Qed.

Lemma write_extra_spec n w ps0 ps ds l q f d e g : gw g = WTxn e (mkTxn ps0 ds) -> f = mx e + zlen ps -> shows ps ds l -> last_write l q = Some d ->
  wp (write_extra w n f d) (fun y g' => hdr_moves w y.2 /\ exists ds', g' = on_frames g e ps0 ds' /\ (length ds <= length ds')%nat /\
    (y.1 = SQLITE_OK -> shows (ps ++ repeat q n) ds' l)) g.
Proof using.
  intros Hw Hf Hs Hl. revert w f ps ds g Hw Hf Hs. induction n as [|n IH]; intros w f ps ds g Hw Hf Hs; cbn [write_extra repeat].
  - apply wp_ret. split; [apply hdr_moves_refl|]. exists ds. split; [symmetry; by apply (on_frames_same g e (mkTxn ps0 ds))|]. split; [done|].
    intros _. by rewrite app_nil_r.
  - eapply wp_seq; [apply (write_one_spec w ps0 ds (length ps) _ d e); [done|unfold zlen in *; lia|apply Hs]|].
    intros [rc w1] g' (H1 & d1 & -> & Hok). cbn [fst snd] in *. pose proof (put_data_longer ds (length ps) d1 (proj1 Hs)) as Hlong.
    destruct (Z.eqb_spec rc SQLITE_OK) as [E|E]; cbn [negb].
    2: { apply wp_ret. split; [done|]. by eexists. }
    rewrite (Hok E) in *. eapply wp_mono; [|apply (IH w1 (f + 1) (ps ++ [q]) (put_data ds (length ps) d)); [done|rewrite zlen_app; change (zlen [q]) with 1; lia|by apply shows_copy]].
    intros y g' (H2 & ds2 & -> & Hl2 & Hok2). split; [by apply (hdr_moves_trans w w1)|]. exists ds2. split; [done|]. split; [lia|]. intros Ey. specialize (Hok2 Ey).
    by rewrite <- app_assoc in Hok2.
Qed.

Lemma txn_mx {A} e t (m : wprog A) Q g : gw g = WTxn e t -> (0 <= mx e -> wp m Q g) -> wp m Q g.
Proof using.
  intros Hw. apply wp_fact. intros s G HI Eg. pose proof (wr_of procs p s G g HI Eg) as K. unfold wr_ok in K. rewrite Hw in K. destruct K as (-> & _).
  apply (h_mx _ (i_hist _ _ _ HI)), cur_in.
Qed.

(** A frame found after the last header is the last of the transaction with the page. *)
Lemma find_own w l r e t q g : writing w l r e t -> reads_from w r e -> 0 < c_readLock w -> gr g = r -> gw g = WTxn e t ->
  wp (findFrame w q) (fun y g' => g' = g /\ (mx e < y.2 -> exists k, y.2 = mx e + 1 + Z.of_nat k /\ t_pages t !! k = Some q /\
    forall j, (k < j)%nat -> t_pages t !! j <> Some q)) g.
Proof using.
  intros (_ & _ & _ & (Hm & _) & _) [_ Hr] Hrl Hg Hw. apply (txn_mx e t); [done|]. intros Hmx. unfold findFrame.
  rewrite (proj2 (Z.eqb_neq (c_readLock w) 0)) by lia.
  destruct (Z.eqb_spec (mxFrame (c_hdr w)) 0) as [Em|Em]; cbn [orb]; [apply wp_ret; split; [done|]; cbn [snd]; lia|].
  apply wp_op. intros s G HI Eg ch y s' E. cbn in E. injection E as <- <-. exists g. split; [subst g; by apply Inv_id|]. split; [done|].
  destruct (ch_rc ch =? SQLITE_OK); cbn [snd]; [|lia].
  pose proof (wr_of procs p s G g HI Eg) as K. unfold wr_ok in K. rewrite Hw in K. destruct K as (_ & _ & Ho & _).
  pose proof (rd_of procs p s G g HI Eg) as Kr. unfold rd_ok in Kr. rewrite Hg, Hr in Kr. destruct Kr as (_ & [[? _]|(_ & _ & Hmn & _)]); [lia|].
  destruct (last_in_spec (s_pgno s) q (c_minFrame w) (Z.to_nat (mxFrame (c_hdr w))) ltac:(lia)) as [[-> _]|(H1 & H2 & H3)]; [lia|].
  set (f := last_in _ _ _ _) in *. intros Hf. rewrite Z2Nat.id in H1, H3 by (pose proof (zlen_nonneg (t_pages t)); lia).
  assert (forall i, mx e < i <= mxFrame (c_hdr w) -> t_pages t !! Z.to_nat (i - mx e - 1) = Some (s_pgno s i)) as Hi.
  { intros i Hi. destruct (t_pages t !! Z.to_nat (i - mx e - 1)) as [q'|] eqn:E.
    - rewrite <- (Ho _ _ E). do 2 f_equal. lia.
    - apply lookup_ge_None in E. unfold zlen in *. lia. }
  exists (Z.to_nat (f - mx e - 1)). split; [lia|]. split; [rewrite Hi by lia; by rewrite H2|]. intros j Hj E.
  pose proof (lookup_lt_Some _ _ _ E) as Hlt. apply (H3 (mx e + 1 + Z.of_nat j)); [unfold zlen in *; lia|by apply Ho].
Qed.

(** What writing a list of pages does: [ps0] are the pages of the index, [app] those of the frames
    that were appended since. *)
Definition frames_written (e : commit) (ps0 app : list Z) (ds : list page) (pList : list (Z * page)) (isCommit : bool) (g : ghost)
    (y : Z * list Z * Z * conn) (g' : ghost) : Prop :=
  exists ds', g' = on_frames g e ps0 ds' /\ (length ds <= length ds')%nat /\
    (y.1.1.1 = SQLITE_OK -> y.1.2 = mx e + zlen (ps0 ++ y.1.1.2) /\ Forall page_ok y.1.1.2 /\
      (forall l, shows (ps0 ++ app) ds l -> shows (ps0 ++ y.1.1.2) ds' (l ++ pList)) /\
      (forall q, q ∈ app \/ q ∈ pList.*1 -> q ∈ ps0 \/ q ∈ y.1.1.2) /\
      (isCommit = true -> pList <> [] \/ app <> [] -> y.1.1.2 <> [])).

Lemma write_frames_spec pList w l r e ps0 ds iFirst isCommit iFrame app g :
  writing w l r e (mkTxn ps0 ds) -> reads_from w r e -> 0 < c_readLock w -> gr g = r -> gw g = WTxn e (mkTxn ps0 ds) -> 0 <= mx e ->
  (iFirst = 0 \/ iFirst = mx e + 1) -> iFrame = mx e + zlen (ps0 ++ app) -> (length (ps0 ++ app) <= length ds)%nat ->
  Forall (fun x => page_ok x.1) pList -> Forall page_ok app -> NoDup pList.*1 -> (forall q, q ∈ pList.*1 -> q ∉ app) ->
  wp (write_frames w pList iFirst isCommit iFrame app) (fun y g' => hdr_moves w y.2 /\ frames_written e ps0 app ds pList isCommit g y g') g.
Proof using.
  intros Hw Hr Hrl Hg Hgw Hmx Hfst. revert w iFrame app ds g Hw Hr Hrl Hg Hgw.
  induction pList as [|[q d] rest IH]; intros w iFrame app ds g Hw Hr Hrl Hg Hgw Hfr Hlen Hpl Happ Hnd Hdis; cbn [write_frames].
  { apply wp_ret. split; [apply hdr_moves_refl|]. exists ds. split; [symmetry; by apply (on_frames_same g e (mkTxn ps0 ds))|]. split; [done|]. intros _. cbn [fst snd].
    split; [done|]. split; [done|]. split; [intros t Ht; by rewrite app_nil_r|]. split; [|by intros _ [?|?]].
    intros q [H|H]; [by right|by apply elem_of_nil in H]. }
  apply Forall_cons in Hpl as [Hq Hpl]. cbn [fst] in Hq. rewrite fmap_cons in Hnd, Hdis. cbn [fst] in Hnd, Hdis. apply NoDup_cons in Hnd as [Hnin Hnd].
  assert (q ∉ app) as Hqa by (apply Hdis; by left).
  eapply (wp_seq _ _ _ _ _ (fun f g' => g' = g /\ (iFirst <= f -> iFirst <> 0 -> (isCommit = true -> rest <> []) /\
    exists k, f = mx e + 1 + Z.of_nat k /\ ps0 !! k = Some q /\ forall j, (k < j)%nat -> ps0 !! j <> Some q))).
  { destruct (Z.eqb_spec iFirst 0) as [E0|E0]; cbn [negb andb]; [by apply wp_ret|].
    destruct (negb (bool_decide (rest = [])) || negb isCommit) eqn:Eb; [|apply wp_ret; split; [done|lia]].
    eapply wp_seq; [by apply (find_own w l r e (mkTxn ps0 ds) q g)|]. intros [rc f] g' [-> Hf]. cbn [snd] in Hf. apply wp_ret. split; [done|].
    intros H1 _. split; [|apply Hf; lia]. intros ->. rewrite orb_false_r in Eb. by apply negb_true_iff, bool_decide_eq_false in Eb. }
  intros f g' [-> Hf]. destruct ((iFirst <=? f) && negb (iFirst =? 0)) eqn:Eb.
  - apply andb_true_iff in Eb as [E1 E2]. apply Z.leb_le in E1. apply negb_true_iff, Z.eqb_neq in E2.
    destruct (Hf E1 E2) as (Hrest & k & -> & Hk & Hlast). pose proof (lookup_lt_Some _ _ _ Hk) as Hlt. rewrite length_app in Hlen.
    eapply wp_seq; [apply (wp_log_write iter procs p e (mkTxn ps0 ds) k); [done|done|cbn [t_data]; lia]|]. intros rc g' (d1 & -> & Hd1). cbn [t_pages t_data].
    pose proof (put_data_longer ds k d1 ltac:(lia)) as Hlong. destruct (Z.eqb_spec rc SQLITE_OK) as [Erc|Erc]; cbn [negb].
    2: { apply wp_ret. split; [apply hdr_moves_refl|]. by eexists. }
    rewrite (Hd1 Erc) in *. clear Hd1 d1.
    eapply wp_mono; [|apply (IH w iFrame app (put_data ds k d) (on_frames g e ps0 (put_data ds k d)));
      [|done|done|done|done|done|rewrite length_app; lia|done|done|done|intros q' Hq'; apply Hdis; by right]].
    + intros y g' (H1 & ds' & -> & Hl & Hok). split; [done|]. exists ds'. split; [done|]. split; [lia|]. intros Ey. destruct (Hok Ey) as (J1 & J2 & J3 & J4 & J5).
      split; [done|]. split; [done|]. split; [|split].
      * intros t Ht. replace (t ++ (q, d) :: rest) with ((t ++ [(q, d)]) ++ rest) by by rewrite <- app_assoc. apply J3.
        apply shows_rewrite; [done|by rewrite lookup_app_l|]. intros j Hj E. destruct (Nat.lt_ge_cases j (length ps0)).
        -- rewrite lookup_app_l in E by done. by apply (Hlast j).
        -- rewrite lookup_app_r in E by done. apply Hqa. by eapply list_elem_of_lookup_2.
      * intros q' H. rewrite fmap_cons, elem_of_cons in H. destruct H as [H|[->|H]]; [apply J4; by left| |apply J4; by right].
        left. by eapply list_elem_of_lookup_2.
      * intros Hc _. apply J5; [done|]. left. by apply Hrest.
    + destruct Hw as (W1 & W2 & W3 & (T1 & T2 & T3 & T4) & W5). split; [done|]. split; [done|]. split; [done|]. split; [|done].
      split; [done|]. split; [done|]. split; [cbn [t_pages t_data] in *; lia|done].
  - eapply wp_seq; [apply (write_one_spec w ps0 ds (length (ps0 ++ app)) _ d e); [done|unfold zlen in *; lia|done]|].
    intros [rc w1] g' (Hm & d1 & -> & Hok1). cbn [fst snd] in *. pose proof (put_data_longer ds (length (ps0 ++ app)) d1 Hlen) as Hlong.
    destruct (Z.eqb_spec rc SQLITE_OK) as [Erc|Erc]; cbn [negb].
    2: { apply wp_ret. split; [done|]. by eexists. }
    rewrite (Hok1 Erc) in *. clear Hok1 Hf d1. set (ds2 := put_data ds (length (ps0 ++ app)) d) in *.
    assert (length (ps0 ++ app ++ [q]) <= length ds2)%nat as Hlen2.
    { subst ds2. rewrite length_put_data by done. rewrite app_assoc, (length_app (ps0 ++ app)). cbn [length]. lia. }
    assert (writing w1 l r e (mkTxn ps0 ds2)) as Hw1.
    { apply (writing_moves w); [done|done|]. destruct Hw as (W1 & W2 & W3 & (T1 & T2 & T3 & T4) & W5). split; [done|]. split; [done|]. split; [done|].
      split; [|done]. split; [done|]. split; [done|]. split; [cbn [t_pages t_data] in *; lia|done]. }
    pose proof Hm as (v & Ev & _).
    eapply wp_mono; [|apply (IH w1 (iFrame + 1) (app ++ [q]) ds2 (on_frames g e ps0 ds2)); [done|by subst w1|by subst w1|done|done| |done|done| |done|]].
    + intros y g' (H1 & ds' & -> & Hl & Hok). split; [by apply (hdr_moves_trans w w1)|]. exists ds'. split; [done|]. split; [lia|]. intros Ey.
      destruct (Hok Ey) as (J1 & J2 & J3 & J4 & J5). split; [done|]. split; [done|]. split; [|split].
      * intros t Ht. replace (t ++ (q, d) :: rest) with ((t ++ [(q, d)]) ++ rest) by by rewrite <- app_assoc. apply J3.
        rewrite app_assoc. by apply shows_append.
      * intros q' H. apply J4. rewrite elem_of_app, list_elem_of_singleton. rewrite fmap_cons, elem_of_cons in H. cbn [fst] in H. tauto.
      * intros Hc _. apply J5; [done|]. right. by destruct app.
    + rewrite Hfr, app_assoc, (zlen_app (ps0 ++ app)). change (zlen [q]) with 1. lia.
    + apply Forall_app. split; [done|]. by apply Forall_singleton.
    + intros q' Hq' Hin. apply elem_of_app in Hin as [Hin|Hin]; [apply (Hdis q'); [by right|done]|].
      apply list_elem_of_singleton in Hin as ->. done.
Qed.

(** *** The wal-index *)

Lemma append_index_spec l e sl0 sl ds f g : gw g = WTxn e (mkTxn (sl0 ++ sl) ds) -> f = mx e + zlen (sl0 ++ sl) ->
  wp (append_index l f) (fun y g' => (y.1 <> SQLITE_OK /\ g' = on_frames g e sl0 ds) \/
     (y.1 = SQLITE_OK /\ y.2 = mx e + zlen (sl0 ++ sl ++ l) /\ g' = on_frames g e (sl0 ++ sl ++ l) ds)) g.
Proof using.
  revert sl f g. induction l as [|q l IH]; intros sl f g Hw Hf; cbn [append_index].
  - apply wp_ret. right. rewrite app_nil_r. split; [done|]. split; [done|]. symmetry. by apply set_gw_same.
  - eapply wp_seq; [apply (wp_append iter procs p e (mkTxn (sl0 ++ sl) ds)); [done|cbn [t_pages]; lia]|]. intros rc g' Hrc. cbn beta in Hrc.
    destruct (Z.eqb_spec rc SQLITE_OK) as [E|E]; cbn [negb].
    + subst g'. cbn [t_pages t_data]. eapply wp_mono; [|apply (IH (sl ++ [q])); [by rewrite app_assoc|]].
      2: { rewrite Hf, app_assoc, (zlen_app _ [q]). change (zlen [q]) with 1. lia. }
      intros y g' [[H1 ->]|(H1 & H2 & ->)]; [by left|right]. rewrite <- !app_assoc in *. done.
    + subst g'. apply (wp_drop_frames iter procs p e sl0 sl ds); [done|]. apply wp_ret. by left.
Qed.

Context (rec : conn -> wprog (Z * conn)).

(** The log may have been started over: the database is the same, and the transaction had no
    frames. *)
Definition maybe_restarted (w : conn) (e : commit) (t : txn) (e' : commit) (t' : txn) : Prop :=
  (e' = e /\ t' = t) \/ (same_image e e' /\ t_pages t = [] /\ t' = txn0 /\ c_hdr w = e_hdr e).

Lemma walRestartLog_spec w l r e t st : writing w l r e t -> reads_from w r e ->
  wp (walRestartLog rec w) (fun y g' => exists l' r' e' t', g' = mkGhost l' r' (WTxn e' t') CNone None st /\ writing y.2 l' r' e' t' /\
      (y.1 = SQLITE_OK -> reads_from y.2 r' e' /\ 0 < c_readLock y.2) /\ maybe_restarted w e t e' t')
    (mkGhost l r (WTxn e t) CNone None st).
Proof using Hp.
  intros Hw Hr. pose proof Hw as (Hl & Hwl & Hc & Ht & _). unfold walRestartLog. destruct (Z.eqb_spec (c_readLock w) 0) as [E|E]; cbn [negb].
  2: { apply wp_ret. exists l, r, e, t. split; [done|]. split; [done|]. split; [|by left]. intros _. split; [done|]. cbn [fst snd]. destruct Hr. lia. }
  destruct Ht as (_ & _ & _ & Ht). destruct (Ht ltac:(lia)) as [Hnil Hh]. destruct Hr as [Hrl ->].
  eapply wp_seq; [apply wp_nb|]. intros n g' [Hn ->].
  set (Post := fun (y : option Z * conn) g' => exists l' e' t' h m, g' = mkGhost l' (ROpen e 0 (c_minFrame w)) (WTxn e' t') CNone None st /\
    y.2 = set_chdr (set_cCkpt w m) h /\ h = e_hdr e' /\ holds_locks l' w /\ t_pages t' = [] /\ maybe_restarted w e t e' t' /\
    (forall rc, y.1 = Some rc -> rc <> SQLITE_OK /\ e' = e)).
  assert (w = set_chdr (set_cCkpt w (c_nCkpt w)) (e_hdr e)) as Hsame by (rewrite <- Hh; by destruct w).
  assert (forall stop, (forall rc, stop = Some rc -> rc <> SQLITE_OK) -> Post (stop, w) (mkGhost l (ROpen e 0 (c_minFrame w)) (WTxn e t) CNone None st)) as Hpost.
  { intros stop Hs. exists l, e, t, (e_hdr e), (c_nCkpt w). split; [done|]. split; [done|]. split; [done|]. split; [done|]. split; [done|].
    split; [by left|]. intros rc E'. split; [by apply Hs|done]. }
  rewrite E. eapply (wp_seq _ _ _ _ _ Post).
  { destruct (0 <? n); [|apply wp_ret; by apply Hpost].
    eapply wp_seq; [apply wp_env|]. intros salt g' ->.
    eapply wp_seq; [apply wp_lock_excl; [done|no_need]|]. intros rc g' Hrc. cbn [gl] in Hrc. destruct (Z.eqb_spec rc SQLITE_OK) as [Erc|Erc].
    - subst g'. cbn [set_gl gl gr gw gc gq gs].
      eapply wp_seq; [apply (walRestartHdr_spec w salt e t); [done| |done|done|left; by eexists]|].
      { split; [intros j Hj; cbn [set_gl gl]; lock_cases|]. left. cbn [set_gl gl]. unfold lset. rewrite Hl. lock_cases. }
      intros w' g' (e' & m & Hnp & Hmx & -> & ->). cbn [set_gw gl gr gw gc gq gs].
      eapply wp_seq; [apply wp_unlock_excl; [done|no_need]|]. intros _ g' ->. cbn [set_gl gl gr gw gc gq gs]. apply wp_ret.
      eexists _, e', txn0, _, m. split; [done|]. split; [done|]. split; [done|]. split; [locks Hl|]. split; [done|]. split; [|done]. by right.
    - subst g'. destruct (Z.eqb_spec rc SQLITE_BUSY) as [Eb|Eb]; cbn [negb]; apply wp_ret; apply Hpost; [done|]. intros rc' E'. by injection E' as <-. }
  intros [stop w'] g' (l' & e' & t' & h & m & -> & Hw' & -> & Hl' & Hnil' & Hmay & Hst). cbn [fst snd] in *. subst w'.
  assert (in_txn (set_chdr (set_cCkpt w m) (e_hdr e')) e' t') as Ht' by by apply in_txn_nil.
  destruct stop as [rc|].
  - destruct (Hst rc eq_refl) as [Hrc ->]. apply wp_ret. eexists l', _, e, t'. split; [done|]. split; [|split; [done|done]].
    split; [exact Hl'|]. split; [done|]. split; [done|]. split; [done|]. right. split; [done|]. cbn. by rewrite E.
  - apply wp_forget_gr. cbn [set_gr gl gr gw gc gq gs]. eapply wp_seq; [apply wp_unlock_shared; [done|no_need]|]. intros _ g' ->.
    cbn [set_gl gl gr gw gc gq gs]. set (w1 := set_readLock _ (-1)).
    eapply wp_seq; [apply (begin_loop_writer iter procs p Hp rec begin_fuel e' t' w1); [|done|done]|].
    { subst w1. locks Hl'. }
    intros [[rc ch] w2] g' (l2 & r2 & -> & Hl2 & (S1 & S2 & S3 & S4) & Hend). cbn [fst snd] in *. apply wp_ret.
    exists l2, r2, e', t'. split; [done|]. cbn [fst snd]. split; [|split; [|done]].
    + split; [done|]. split; [by rewrite S2|]. split; [by rewrite S3|]. split; [apply in_txn_nil; [by rewrite S1|done]|].
      destruct Hend as [(_ & H1 & H2)|(_ & H1 & H2)]; [by left|right; split; [lia|done]].
    + intros ->. destruct Hend as [(H1 & _)|(_ & H1 & H2)]; [done|]. split; [split; [lia|done]|lia].
Qed.

(** *** A call of [sqlite3WalFrames] *)

(** The end of a commit: the new header is published. *)
Lemma commit_hdr_spec w l r e t0 t h st : writing w l r e t0 -> reads_from w r e -> 0 < c_readLock w -> can_commit e t h -> 0 <= mx e ->
  wp (do! _ := walIndexWriteHdr (set_chdr w h) in WRet (SQLITE_OK, set_chdr w h))
    (fun y g' => idle y.2 st g' /\ y.1 = SQLITE_OK /\ exists e', gw g' = WTxn e' txn0 /\ commit_image e t e' /\ e_hdr e' = h)
    (mkGhost l r (WTxn e t) CNone None st).
Proof using.
  intros (W1 & W2 & W3 & W4 & W5) [Hrl ->] Hr Hc Hm. unfold walIndexWriteHdr. cbn [c_hdr set_chdr].
  eapply (wp_seq _ _ _ _ _ (fun _ g' => exists e', e_hdr e' = h /\ commit_image e t e' /\
    g' = mkGhost l (ROpen e' (c_readLock w) (c_minFrame w)) (WTxn e' txn0) CNone None st)).
  - eapply wp_seq; [by apply (wp_h1_commit iter procs p e t h)|]. intros _ g' ->. cbn [set_gw gl gr gw gc gq gs].
    eapply wp_mono; [|apply (wp_h0_commit iter procs p e h t (c_readLock w) (c_minFrame w)); [done|done|done|done|lia|done]].
    intros _ g' (e' & He & Hi & ->). by exists e'.
  - intros _ g' (e' & He & Hi & ->). apply wp_ret. split; [|split; [done|by exists e']]. apply writing_idle. split; [done|]. split; [done|]. split; [done|].
    split; [apply in_txn_nil; [by symmetry|done]|]. by right.
Qed.

Lemma last_page_ok (pList : list (Z * page)) : pList <> [] -> Forall (fun x => page_ok x.1) pList -> page_ok (List.last pList (0, [])).1.
Proof using.
  intros Hne Hf. rewrite List.Forall_forall in Hf. apply Hf. destruct (exists_last Hne) as (l & x & ->). rewrite last_last. apply in_or_app. right. by left.
Qed.

Lemma last_page_written (pList : list (Z * page)) l : pList <> [] ->
  last_write (l ++ pList) (List.last pList (0, [])).1 = Some (List.last pList (0, [])).2.
Proof using.
  intros Hne. destruct (exists_last Hne) as (l' & [q d] & ->). rewrite last_last, app_assoc, last_write_snoc. by rewrite Z.eqb_refl.
Qed.

(** [e'] is [e] after the writes [l]. *)
Definition after_writes (e : commit) (l : list (Z * page)) (e' : commit) : Prop :=
  forall q, e_img e' q = default (e_img e q) (last_write l q) /\ (np e < q <= np e' -> is_Some (last_write l q)).

(** What a call did to the transaction on top of [e]: a commit made the database that of all its
    writes; a failed call left the last commit as it was. *)
Definition frames_result (e : commit) (t : txn) (pList : list (Z * page)) (nTruncate : Z) (isCommit : bool) (rc : Z) (g' : ghost) : Prop :=
  exists e' t', gw g' = WTxn e' t' /\
    if rc =? SQLITE_OK then
      if isCommit then t' = txn0 /\ np e' = nTruncate /\ forall l, shows (t_pages t) (t_data t) l -> after_writes e (l ++ pList) e'
      else same_image e e' /\ forall l, shows (t_pages t) (t_data t) l -> shows (t_pages t') (t_data t') (l ++ pList)
    else same_image e e'.

Lemma same_image_refl e : same_image e e.
Proof using. done. Qed.

Lemma shows_covers ps ds l q : shows ps ds l -> q ∈ ps -> is_Some (last_write l q).
Proof using.
  intros [Hl H] Hin. destruct (last_place ps q Hin) as (k & Hk & Hlast). pose proof (lookup_lt_Some _ _ _ Hk).
  destruct (lookup_lt_is_Some_2 ds k) as [d Hd]; [lia|]. exists d. rewrite <- H. by apply (last_of_some ps ds q k d).
Qed.

Lemma commit_image_writes e ps ds l e' n : shows ps ds l -> commit_image e (mkTxn ps ds) e' -> np e' = n ->
  (forall q, np e < q <= n -> q ∈ ps) -> after_writes e l e'.
Proof using.
  intros Hs Hi <- Hg q. split; [|intros Hq; by apply (shows_covers ps ds l), Hg]. rewrite (Hi q). cbn [t_pages t_data]. by rewrite (proj2 Hs).
Qed.

(** The log is ready for the frames of the call. *)
Lemma frames_after_restart w l r e t st szPage pList nTruncate isCommit nExtra iFirst :
  writing w l r e t -> reads_from w r e -> 0 < c_readLock w -> (iFirst = 0 \/ iFirst = mx e + 1) ->
  pList <> [] -> Forall (fun x => page_ok x.1) pList -> NoDup pList.*1 -> (isCommit = true -> grows e t pList nTruncate) ->
  wp (do! (rc, w) := (if mxFrame (c_hdr w) =? 0 then write_log_hdr w szPage else WRet (SQLITE_OK, w)) in
      if negb (rc =? SQLITE_OK) then WRet (rc, w)
      else if negb (c_szPage w =? szPage) then WRet (SQLITE_CORRUPT, w)
      else
        do! (rc, appended, iFrame, w) := write_frames w pList iFirst isCommit (mxFrame (c_hdr w)) [] in
        if negb (rc =? SQLITE_OK) then WRet (rc, w)
        else
          do! rc := op OEnv in
          if negb (rc =? SQLITE_OK) then WRet (rc, w)
          else
            let '(pg, d) := List.last pList (0, []) in
            let nExtra := if isCommit then nExtra else O in
            do! (rc, w) := write_extra w nExtra iFrame d in
            if negb (rc =? SQLITE_OK) then WRet (rc, w)
            else
              do! rc := op OEnv in
              if negb (rc =? SQLITE_OK) then WRet (rc, w)
              else
                do! (rc, iFrame) := append_index (appended ++ repeat pg nExtra) (mxFrame (c_hdr w)) in
                if negb (rc =? SQLITE_OK) then WRet (rc, w)
                else
                  let h := c_hdr w in
                  let h := mkHdr (if isCommit then u32 (iChange h + 1) else iChange h) (bigEndCksum h)
                    (u16 (Z.lor (Z.land szPage 0xff00) (Z.shiftr szPage 16))) iFrame
                    (if isCommit then nTruncate else nPage h) (aFrameCksum h) (aSalt h) in
                  let w := set_chdr w h in
                  do! _ := (if isCommit then walIndexWriteHdr w else WRet tt) in
                  WRet (SQLITE_OK, w))
    (fun y g' => idle y.2 st g' /\ frames_result e t pList nTruncate isCommit y.1 g') (mkGhost l r (WTxn e t) CNone None st).
Proof using.
  intros Hw Hrd Hrl Hfst Hne Hpl Hnd Hgr. destruct t as [ps0 ds0]. apply (txn_mx e (mkTxn ps0 ds0)); [done|]. intros Hmx.
  assert (forall ds w2, (length ds0 <= length ds)%nat -> hdr_moves w w2 -> writing w2 l r e (mkTxn ps0 ds) /\ reads_from w2 r e /\ 0 < c_readLock w2) as Hmoves.
  { intros ds w2 Hlen H2. split; [|by destruct H2 as (h & -> & _)]. apply (writing_moves w); [done|done|].
    destruct Hw as (W1 & W2 & W3 & (T1 & T2 & T3 & T4) & W5). split; [done|]. split; [done|]. split; [done|]. split; [|done].
    split; [done|]. split; [done|]. split; [cbn [t_pages t_data] in *; lia|done]. }
  assert (forall rc ds w2, rc <> SQLITE_OK -> (length ds0 <= length ds)%nat -> hdr_moves w w2 ->
    wp (WRet (rc, w2)) (fun (y : Z * conn) g' => idle y.2 st g' /\ frames_result e (mkTxn ps0 ds0) pList nTruncate isCommit y.1 g')
      (mkGhost l r (WTxn e (mkTxn ps0 ds)) CNone None st)) as Hfail.
  { intros rc ds w2 Hrc Hlen H2. apply wp_ret. split; [by apply (writing_idle w2 l r e (mkTxn ps0 ds)), Hmoves|]. exists e, (mkTxn ps0 ds).
    split; [done|]. cbn [fst]. by rewrite (proj2 (Z.eqb_neq _ _) Hrc). }
  eapply (wp_seq _ _ _ _ _ (fun y g' => g' = mkGhost l r (WTxn e (mkTxn ps0 ds0)) CNone None st /\ hdr_moves w y.2)).
  { destruct (mxFrame (c_hdr w) =? 0); [apply write_log_hdr_spec|apply wp_ret; split; [done|apply hdr_moves_refl]]. }
  intros [rc2 w2] g' [-> H2]. cbn [snd] in H2. destruct (Z.eqb_spec rc2 SQLITE_OK) as [_|E2]; cbn [negb]; [|by apply Hfail].
  destruct (c_szPage w2 =? szPage); cbn [negb]; [|by apply Hfail].
  destruct (Hmoves ds0 w2 ltac:(done) H2) as (Hw2 & Hr2 & Hl2). pose proof Hw2 as (_ & _ & _ & (Hm2 & Hs2 & Hd2 & _) & _). cbn [t_pages t_data] in Hm2, Hs2, Hd2.
  eapply wp_seq; [apply (write_frames_spec pList w2 l r e ps0 ds0 iFirst isCommit _ []);
    [done|done|done|done|done|done|done|by rewrite app_nil_r|by rewrite app_nil_r|done|done|done|intros q _ Hin; by apply elem_of_nil in Hin]|].
  intros [[[rc3 pgs] iFrame] w3] g' (H3 & ds3 & -> & Hlong3 & Hok). cbn [fst snd] in *. pose proof (hdr_moves_trans _ _ _ H2 H3) as H13.
  unfold on_frames. cbn [set_gw gl gr gw gc gq gs].
  destruct (Z.eqb_spec rc3 SQLITE_OK) as [E3|E3]; cbn [negb]; [|by apply Hfail]. destruct (Hok E3) as (Hif & Hap & Hsh & Hcov & Hcom). clear Hok.
  eapply wp_seq; [apply wp_env|]. intros rc4 g' ->. destruct (Z.eqb_spec rc4 SQLITE_OK) as [_|E4]; cbn [negb]; [|by apply Hfail].
  pose proof (last_page_ok pList Hne Hpl) as Hlast. pose proof (fun l => last_page_written pList l Hne) as Hwr.
  destruct (List.last pList (0, [])) as [pg d]. cbn [fst snd] in Hlast, Hwr. set (nx := if isCommit then nExtra else O).
  set (l0 := zip ps0 ds0). pose proof (shows_zip ps0 ds0 Hd2) as Hs0. fold l0 in Hs0. specialize (Hwr l0).
  assert (shows (ps0 ++ pgs) ds3 (l0 ++ pList)) as Hs3 by (apply Hsh; by rewrite app_nil_r).
  eapply wp_seq; [by apply (write_extra_spec nx w3 ps0 (ps0 ++ pgs) ds3 (l0 ++ pList) pg iFrame d e)|].
  intros [rc5 w4] g' (H4 & ds4 & -> & Hlong4 & Hsh4). cbn [fst snd] in *. unfold on_frames. cbn [set_gw gl gr gw gc gq gs].
  pose proof (hdr_moves_trans _ _ _ H13 H4) as H14. destruct (Z.eqb_spec rc5 SQLITE_OK) as [E5|E5]; cbn [negb]; [|apply Hfail; [done|lia|done]].
  specialize (Hsh4 E5). rewrite <- app_assoc in Hsh4.
  eapply wp_seq; [apply wp_env|]. intros rc6 g' ->. destruct (Z.eqb_spec rc6 SQLITE_OK) as [_|E6]; cbn [negb]; [|apply Hfail; [done|lia|done]].
  destruct (Hmoves ds4 w4 ltac:(lia) H14) as (Hw4 & Hr4 & Hl4). pose proof Hw4 as (J1 & J2 & J3 & (Hm4 & _) & J5). cbn [t_pages] in Hm4.
  eapply wp_seq; [apply (append_index_spec _ e ps0 [] ds4); [by rewrite app_nil_r|by rewrite app_nil_r]|].
  intros [rc7 iF] g' Hend. cbn [fst snd app] in Hend. destruct Hend as [[Hn ->]|(-> & -> & ->)].
  { rewrite (proj2 (Z.eqb_neq _ _) Hn). cbn [negb]. unfold on_frames. cbn [set_gw gl gr gw gc gq gs]. apply Hfail; [done|lia|done]. }
  change (negb (SQLITE_OK =? SQLITE_OK)) with false. cbv iota. unfold on_frames. cbn [set_gw gl gr gw gc gq gs]. set (h := mkHdr _ _ _ _ _ _ _).
  assert (Forall page_ok (ps0 ++ pgs ++ repeat pg nx)) as Hs.
  { apply Forall_app. split; [done|]. apply Forall_app. split; [done|]. clear -Hlast. induction nx; cbn [repeat]; [done|]. by apply Forall_cons. }
  assert (forall lw, shows ps0 ds0 lw -> shows (ps0 ++ pgs ++ repeat pg nx) ds4 (lw ++ pList)) as Hshow.
  { intros lw [_ Hl]. split; [apply Hsh4|]. intros q. rewrite (proj2 Hsh4 q). apply last_write_app. intros q'. by rewrite <- Hl, (proj2 Hs0). }
  clear Hsh Hsh4 Hs3. set (ps := ps0 ++ pgs ++ repeat pg nx) in *. destruct isCommit.
  - assert (can_commit e (mkTxn ps ds4) h) as Hcan.
    { assert (pgs <> []) as Ha by (apply Hcom; [done|by left]). split; [done|]. split; [|split; [done|split]].
      - subst ps. cbn [t_pages]. unfold zlen. rewrite !length_app. destruct pgs; [done|]. cbn [length]. lia.
      - intros q Hq. subst ps. cbn [t_pages]. rewrite !elem_of_app. destruct (Hgr eq_refl q Hq) as [|Hin]; [by left|].
        destruct (Hcov q (or_intror Hin)); [by left|right; by left].
      - apply (Hshow l0 Hs0). }
    eapply wp_mono; [|by apply (commit_hdr_spec w4 l r e (mkTxn ps0 ds4) (mkTxn ps ds4) h)].
    intros y g' (Hi & -> & e' & Eg & Himg & Eh). split; [done|]. exists e', txn0. split; [done|]. rewrite Z.eqb_refl. split; [done|].
    assert (np e' = nTruncate) as En by (unfold np; by rewrite Eh). split; [done|]. intros lw Hl.
    apply (commit_image_writes e ps ds4 (lw ++ pList) e' nTruncate); [by apply Hshow|done|done|]. intros q Hq. by apply Hcan.
  - cbn [wbind]. apply wp_ret. split.
    + apply (writing_idle (set_chdr w4 h) l r e (mkTxn ps ds4)). split; [done|]. split; [done|]. split; [done|].
      split; [|exact J5]. split; [done|]. split; [done|]. split; [apply (Hshow l0 Hs0)|]. cbn [set_chdr c_readLock]. lia.
    + exists e, (mkTxn ps ds4). split; [done|]. cbn [fst]. rewrite Z.eqb_refl. split; [done|]. exact Hshow.
Qed.

Lemma sqlite3WalFrames_spec w l r e t st szPage pList nTruncate isCommit nExtra :
  writing w l r e t -> reads_from w r e -> pList <> [] -> Forall (fun x => page_ok x.1) pList -> NoDup pList.*1 ->
  (isCommit = true -> grows e t pList nTruncate) ->
  wp (sqlite3WalFrames rec w szPage pList nTruncate isCommit nExtra)
    (fun y g' => idle y.2 st g' /\ frames_result e t pList nTruncate isCommit y.1 g') (mkGhost l r (WTxn e t) CNone None st).
Proof using Hp.
  intros Hw Hr Hne Hpl Hnd Hgr. unfold sqlite3WalFrames.
  eapply wp_seq; [by apply (wp_hdr_txn iter procs p false e t)|]. intros h g' [-> ->]. set (iFirst := if hdr_eqb _ _ then 0 else _).
  eapply wp_seq; [by apply walRestartLog_spec|]. intros [rc w1] g' (l1 & r1 & e1 & t1 & -> & Hw1 & Hr1 & Hsame). cbn [fst snd] in *.
  assert (same_image e e1) as Himg by (destruct Hsame as [[-> _]|[H _]]; done).
  destruct (Z.eqb_spec rc SQLITE_OK) as [Erc|Erc]; cbn [negb].
  2: { apply wp_ret. split; [by apply (writing_idle w1 l1 r1 e1 t1)|]. exists e1, t1. split; [done|]. cbn [fst]. by rewrite (proj2 (Z.eqb_neq _ _) Erc). }
  destruct (Hr1 Erc) as [Hrd Hrl]. clear Hr1.
  eapply wp_mono; [|apply (frames_after_restart w1 l1 r1 e1 t1 st szPage pList nTruncate isCommit nExtra iFirst); [done|done|done| |done|done|done|]].
  - intros y g' (Hi & e' & t' & Eg & H). split; [done|]. exists e', t'. split; [done|].
    assert (forall l0, shows (t_pages t) (t_data t) l0 -> shows (t_pages t1) (t_data t1) l0) as Hsh.
    { intros l0 H0. destruct Hsame as [[_ ->]|(_ & En & -> & _)]; [done|]. rewrite En in H0. by apply (shows_none (t_data t)). }
    destruct Himg as [I1 I2]. destruct (y.1 =? SQLITE_OK); [destruct isCommit|].
    + destruct H as (H1 & H2 & H3). split; [done|]. split; [done|]. intros l0 H0. specialize (H3 l0 (Hsh l0 H0)). intros q. rewrite <- I1, <- I2. apply H3.
    + destruct H as ((H1 & H2) & H3). split; [split; congruence|]. intros l0 H0. by apply H3, Hsh.
    + destruct H as (H1 & H2). split; congruence.
  - subst iFirst. destruct Hsame as [[-> _]|(_ & _ & _ & Eh)]; [|left; by rewrite Eh, hdr_eqb_same]. destruct (hdr_eqb _ _); [by left|by right].
  - intros Hc q Hq. destruct Hsame as [[-> ->]|((En & _) & Hnil & -> & _)]; [by apply Hgr|]. rewrite En in Hq.
    destruct (Hgr Hc q Hq) as [Hn|]; [rewrite Hnil in Hn; by apply elem_of_nil in Hn|by right].
Qed.

Lemma sqlite3WalUndo_spec w l r e t st : writing w l r e t ->
  wp (sqlite3WalUndo w) (fun w' g' => idle w' st g' /\ exists t', gw g' = WTxn e t' /\ t_pages t' = []) (mkGhost l r (WTxn e t) CNone None st).
Proof using.
  intros (W1 & W2 & W3 & (W4 & _) & W5). unfold sqlite3WalUndo. rewrite (proj2 (Z.eqb_neq _ _) W2). cbn [negb].
  eapply wp_seq; [by apply (wp_hdr_txn iter procs p false e t)|]. intros h g' [-> ->]. change (mxFrame (e_hdr e)) with (mx e).
  eapply (wp_seq _ _ _ _ _ (fun _ g' => exists t', g' = mkGhost l r (WTxn e t') CNone None st /\ t_pages t' = [])).
  - destruct (Z.eqb_spec (mxFrame (c_hdr w)) (mx e)) as [E|E]; cbn [negb].
    + apply wp_ret. exists t. split; [done|]. apply length_zero_iff_nil. unfold zlen in *. lia.
    + eapply wp_mono; [|by apply (wp_cleanup iter procs p e t)]. intros _ g' ->. by exists txn0.
  - intros _ g' (t' & -> & Hnil). apply wp_ret. split; [|by exists t'].
    apply writing_idle. split; [done|]. split; [done|]. split; [done|]. split; [by apply in_txn_nil|done].
Qed.

End writer.
