(* ===== verification/WalCheckpoint.v ===== *)
(** * Checkpoints of the write-ahead log (wal.c of sqlite3.c)

    The routines of [WalShm] that copy the log back into the database file, by the rules of
    [WalWp]. *)

From S2P Require Import Prelude Bitwise Varint UnixFile WalIndex WalLog WalWrite WalShm WalInv WalWp WalReader WalWriter.
From stdpp Require Import options.

Section checkpoint.
Context (iter : (Z -> Z) -> Z -> Z -> list (Z * Z)) `{!Backfill iter}.
Context (procs : list nat) (p : nat) (Hp : p ∈ procs).
Abbreviation wp := (wp iter procs p).

Lemma walBusyLock_spec xBusy i n g : (forall j, i <= j < i + n -> ~ needs g j) ->
  wp (walBusyLock xBusy i n) (fun rc g' => if rc =? SQLITE_OK then g' = set_gl g (lset (gl g) i n Exclusive) else g' = g) g.
Proof using Hp.
  intros Hn. induction xBusy as [|k IH]; cbn [walBusyLock]; (eapply wp_seq; [apply wp_lock_excl; [done|done]|]); intros rc g' Hrc; cbn beta in Hrc.
  - by apply wp_ret.
  - destruct (Z.eqb_spec rc SQLITE_BUSY) as [->|]; [|by apply wp_ret]. change (SQLITE_BUSY =? SQLITE_OK) with false in Hrc. cbv iota in Hrc. subst g'. exact IH.
Qed.

(** A checkpoint holds its lock and no read lock. *)
Definition checkpoints (w : conn) (l : Z -> lmode) (x : wstate) : Prop :=
  holds_locks l w /\ not_reading w /\ c_ckptLock w = true /\ write_locked w x.

Lemma ckpt_lock w l x : checkpoints w l x -> l WAL_CKPT_LOCK = Exclusive.
Proof using. intros (Hl & Hr & Hc & _). rewrite (Hl WAL_CKPT_LOCK). unlocks. rewrite Hc, Hr. done. Qed.

Lemma checkpoints_ext w l l' x : (forall i, l' i = l i) -> checkpoints w l x -> checkpoints w l' x.
Proof using. intros E (Hl & H). split; [|done]. intros i. by rewrite E. Qed.

(** A read lock is taken and left again. *)
Lemma lset_back w l x i n m j : checkpoints w l x -> 0 <= i -> lset (lset l (WAL_READ_LOCK i) n m) (WAL_READ_LOCK i) n NotHeld j = l j.
Proof using.
  intros (Hl & Hr & _) Hi. unfold lset. destruct (in_range (WAL_READ_LOCK i) n j) eqn:E; [|done]. rewrite (Hl j).
  unfold in_range in E. apply andb_true_iff in E as [E1 E2]. apply Z.leb_le in E1. apply Z.ltb_lt in E2. lock_cases.
Qed.

Lemma checkpoints_wq w l x : checkpoints w l x -> wq x.
Proof using. intros (_ & _ & _ & H). by apply (write_locked_wq w). Qed.

(** *** How far the log can be copied *)

Lemma safe_frames_spec n w l x e i sf xBusy rc st : checkpoints w l x -> 1 <= i -> i + Z.of_nat n = WAL_NREADER ->
  wp (safe_frames n i sf xBusy rc)
    (fun y g' => exists l' c, g' = mkGhost l' (RHdr e) x c None st /\ checkpoints w l' x /\ (c = if y.1.1.1 then CNone else CScan e y.1.2 WAL_NREADER))
    (mkGhost l (RHdr e) x (CScan e sf i) None st).
Proof using Hp.
  revert l i sf xBusy rc. induction n as [|n IH]; intros l i sf xBusy rc Hc Hi Hn; cbn [safe_frames].
  { apply wp_ret. exists l, (CScan e sf i). split; [done|]. split; [done|]. cbn [fst snd]. f_equal. lia. }
  pose proof (checkpoints_wq _ _ _ Hc) as Hx.
  eapply wp_seq; [by apply (wp_mark_scan iter procs p e sf i)|]. intros y g' ->. cbn [set_gc gl gr gw gc gq gs].
  destruct (Z.ltb_spec y sf) as [Hy|Hy].
  2: { eapply (wp_scan_past iter procs p e sf i y); [done|done|]. apply IH; [done|lia|lia]. }
  eapply wp_seq; [apply walBusyLock_spec; no_need|]. intros rc' g' Hrc. cbn beta in Hrc. destruct (Z.eqb_spec rc' SQLITE_OK) as [E|E].
  - subst g'. cbn [set_gl gl gr gw gc gq gs]. set (l' := lset l (WAL_READ_LOCK i) 1 Exclusive).
    assert (l' (WAL_READ_LOCK i) = Exclusive) as Hl' by (subst l'; lock_cases).
    eapply (wp_scan_free iter procs p e sf i y); [done|done|]. cbn [set_gc gl gr gw gc gq gs].
    eapply wp_seq; [by apply wp_set_mark|]. intros _ g' ->. eapply wp_seq; [apply wp_unlock_excl; [done|no_need]|]. intros _ g' ->.
    cbn [set_gl gl gr gw gc gq gs]. apply IH; [|lia|lia]. apply (checkpoints_ext w l); [|done]. intros j. apply (lset_back w l x); [done|lia].
  - subst g'. destruct (Z.eqb_spec rc' SQLITE_BUSY).
    + eapply (wp_scan_busy iter procs p e sf i y); [done|done|]. apply IH; [done|lia|lia].
    + apply wp_forget_gc. apply wp_ret. by exists l, CNone.
Qed.

(** *** Copying *)

Lemma before_backfill_spec w g : wp (before_backfill w) (fun _ g' => g' = g) g.
Proof using.
  unfold before_backfill. eapply wp_seq; [apply wp_env|]. intros rc g' ->. destruct (negb (rc =? SQLITE_OK)); [by apply wp_ret|].
  eapply wp_seq; [apply wp_env|]. intros rc2 g' ->. destruct (negb (rc2 =? SQLITE_OK)); [by apply wp_ret|].
  eapply wp_seq; [apply wp_env|]. intros k g' ->. by apply wp_ret.
Qed.

(** The copied frames matter as a set. *)
Lemma wp_copied {A} e sf n l fin fin' b (m : wprog A) Q g : gc g = CCopy e sf n l fin b -> fin' ⊆ fin ->
  wp m Q (set_gc g (CCopy e sf n l fin' b)) -> wp m Q g.
Proof using.
  intros Hc Hs. apply wp_to. intros s G HI Hg. apply upd_gc; try done. pose proof (ck_of procs p s G g HI Hg) as K.
  unfold ck_ok, ckpt_of in *. cbn [set_gc gc gl]. rewrite Hc in K. destruct K as (K1 & K2 & K3 & K4 & K5 & K6 & K7 & K8 & K9).
  split; [exact K1|]. split; [done|]. split; [done|]. split; [done|]. split; [done|]. split; [done|]. split; [done|]. split; [done|].
  intros q f Hin. apply K9. by apply Hs.
Qed.

Lemma backfill_loop_spec e sf n l todo fin b g : wq (gw g) -> gc g = CCopy e sf n l fin b -> (forall x, x ∈ l <-> x ∈ fin \/ x ∈ todo) ->
  wp (backfill_loop todo n sf (np e)) (fun rc g' => exists fin' b', g' = set_gc g (CCopy e sf n l fin' b') /\ (rc = SQLITE_OK -> forall x, x ∈ l -> x ∈ fin')) g.
Proof using.
  intros Hw. revert fin b g Hw. induction todo as [|[q f] todo IH]; intros fin b g Hw Hc Hl; cbn [backfill_loop].
  { apply wp_ret. exists fin, b. split; [destruct g; cbn in *; by subst|]. intros _ x Hx. apply Hl in Hx as [|Hx]; [done|by apply elem_of_nil in Hx]. }
  assert (forall rc, rc <> SQLITE_OK -> exists fin' b', g = set_gc g (CCopy e sf n l fin' b') /\ (rc = SQLITE_OK -> forall x, x ∈ l -> x ∈ fin')) as Hfail.
  { intros rc Hrc. exists fin, b. split; [destruct g; cbn in *; by subst|done]. }
  assert (forall x, x ∈ l <-> x ∈ (q, f) :: fin \/ x ∈ todo) as Hl'.
  { intros x. rewrite Hl, !elem_of_cons. tauto. }
  assert ((q, f) ∈ l) as Hin by (apply Hl; right; by left).
  eapply wp_seq; [apply wp_env|]. intros u g' ->. destruct (negb (u =? 0)).
  { eapply wp_seq; [apply wp_env|]. intros u2 g' ->. apply wp_ret. apply Hfail. by destruct (negb (u2 =? 0)). }
  destruct (Z.leb_spec f n) as [H1|H1]; [|destruct (Z.ltb_spec sf f) as [H2|H2]; [|destruct (Z.ltb_spec (np e) q) as [H3|H3]]]; cbn [orb].
  1-3: apply (wp_skip iter procs p e sf n l fin b q f); [done|done|lia|];
    eapply wp_mono; [|apply (IH ((q, f) :: fin) b); [done|done|done]]; intros rc g' (fin' & b' & -> & H); by exists fin', b'.
  eapply wp_seq; [by apply (wp_log_copy iter procs p e sf n l fin b f)|]. intros [rc d] g' Hrc. cbn [fst snd] in Hrc.
  destruct (Z.eqb_spec rc SQLITE_OK) as [E|E]; cbn [negb]; subst g'; [|apply wp_ret; by apply Hfail].
  eapply wp_seq; [apply (wp_db_write iter procs p e sf n l fin q f d); [done| |done|lia|done]|].
  { intros (e' & h & t' & E'). destruct Hw as [Hw|(e2 & sl & Hw)]; cbn [set_gc gw] in E'; congruence. }
  intros rc2 g' Hrc2. cbn beta in Hrc2. destruct (Z.eqb_spec rc2 SQLITE_OK) as [E2|E2]; cbn [negb]; subst g'.
  - eapply wp_mono; [|apply (IH ((q, f) :: fin) (Some (f, d))); [done|done|done]]. intros rc' g' (fin' & b' & -> & H). by exists fin', b'.
  - apply wp_ret. exists [], (Some (f, d)). split; [done|]. done.
Qed.

Lemma wq_not_pub x l r c q st : wq x -> ~ is_pub (mkGhost l r x c q st) /\ ~ is_win (mkGhost l r x c q st).
Proof using. intros [->|(e & sl & ->)]; split; [intros (e' & h & t' & E)|intros (e' & E)|intros (e' & h & t' & E)|intros (e' & E)]; done. Qed.

Lemma backfill_spec w e sf n n2 l lk x st : c_hdr w = e_hdr e -> 0 < mx e -> lk (WAL_READ_LOCK 0) = Exclusive -> wq x ->
  wp (backfill w l sf) (fun _ g' => g' = mkGhost lk (RHdr e) x CNone None st) (mkGhost lk (RHdr e) x (CPrep e sf n n2 (Some l)) None st).
Proof using.
  intros Hh Hm Hl Hx. unfold backfill. rewrite Hh. change (nPage (e_hdr e)) with (np e).
  assert (forall A (a : A) c, wp (WRet a) (fun _ g' => g' = mkGhost lk (RHdr e) x CNone None st) (mkGhost lk (RHdr e) x c None st)) as Hend.
  { intros A a c. apply wp_forget_gc. by apply wp_ret. }
  eapply wp_seq; [by apply (wp_nb_copy iter procs p e sf n n2 l)|]. intros n3 g' [_ ->]. cbn [set_gc gl gr gw gc gq gs].
  eapply wp_seq; [by apply (wp_hdr_salt iter procs p e sf n n3 l)|]. intros h g' [(Hs & -> & ->)|[Hs ->]].
  2: { rewrite bool_decide_false by done. apply Hend. }
  rewrite bool_decide_true by done. cbn [negb set_gc gl gr gw gc gq gs]. eapply wp_seq; [apply wp_attempted|]. intros _ g' ->.
  eapply wp_seq; [apply before_backfill_spec|]. intros rc g' ->.
  eapply (wp_seq _ _ _ _ _ (fun rc g' => exists fin b, g' = mkGhost lk (RHdr e) x (CCopy e sf n l fin b) None st /\ (rc = SQLITE_OK -> l ⊆ fin))).
  { destruct (Z.eqb_spec rc SQLITE_OK) as [E|E]; [|apply wp_ret; by exists [], None].
    eapply wp_mono; [|apply (backfill_loop_spec e sf n l l [] None); [done|done|]].
    - intros rc2 g' (fin & b & -> & H). exists fin, b. split; [done|exact H].
    - intros y. split; [by right|]. intros [Hy|Hy]; [by apply elem_of_nil in Hy|done]. }
  intros rc2 g' (fin & b & -> & Hok). destruct (Z.eqb_spec rc2 SQLITE_OK) as [E2|E2]; cbn [negb]; [|apply Hend].
  apply (wp_copied e sf n l fin l b); [done|by apply Hok|]. cbn [set_gc gl gr gw gc gq gs].
  apply (wp_fact iter procs p (sf <= mx e)).
  { intros s G HI Hg. pose proof (ck_of procs p s G _ HI Hg) as K. unfold ck_ok, ckpt_of in K. cbn [gc] in K. apply K. }
  intros Hsf. destruct (wq_not_pub x lk (RHdr e) (CCopy e sf n l l b) None st Hx) as [Hpub Hwin].
  eapply wp_seq; [by apply (wp_hdr_copy iter procs p e sf n l l b)|]. intros h2 g' [Hle ->].
  eapply (wp_seq _ _ _ _ _ (fun _ g' => g' = mkGhost lk (RHdr e) x (CCopy e sf n l l b) None st)).
  { destruct (Z.eqb_spec sf (mxFrame h2)) as [E3|E3]; [|by apply wp_ret]. assert (sf = mx e) as -> by lia.
    eapply wp_seq; [by apply (wp_db_truncate iter procs p e n l l b)|]. intros rc3 g' ->.
    destruct (rc3 =? SQLITE_OK); [apply wp_env|by apply wp_ret]. }
  intros rc3 g' ->. destruct (negb (rc3 =? SQLITE_OK)); [apply Hend|].
  eapply wp_seq; [by apply (wp_set_nb iter procs p e sf n l b)|]. intros _ g' ->. apply Hend.
Qed.

Lemma checkpoint_copy_spec w l x e xBusy st : checkpoints w l x -> c_hdr w = e_hdr e -> 0 < mx e ->
  wp (checkpoint_copy w xBusy) (fun _ g' => exists l', g' = mkGhost l' (RHdr e) x CNone None st /\ checkpoints w l' x) (mkGhost l (RHdr e) x CNone None st).
Proof using Hp Backfill0.
  intros Hc Hh Hm. pose proof (checkpoints_wq _ _ _ Hc) as Hx. unfold checkpoint_copy. rewrite Hh. change (mxFrame (e_hdr e)) with (mx e).
  apply (wp_ck_start iter procs p e); [done|by apply (ckpt_lock w l x)|]. cbn [set_gc gl gr gw gc gq gs].
  apply (wp_ck_scan iter procs p e); [done|]. cbn [set_gc gl gr gw gc gq gs].
  eapply wp_seq; [apply (safe_frames_spec _ w l x e 1); [done|lia|done]|].
  intros [[[stop rc] sf] xB] g' (l1 & c & -> & Hc1 & ->). cbn [fst snd].
  assert (forall A (a : A) l2 c, checkpoints w l2 x -> wp (WRet a) (fun _ g' => exists l', g' = mkGhost l' (RHdr e) x CNone None st /\ checkpoints w l' x)
    (mkGhost l2 (RHdr e) x c None st)) as Hend.
  { intros A a l2 c Hc2. apply wp_forget_gc. apply wp_ret. by exists l2. }
  destruct stop; [by apply Hend|].
  eapply wp_seq; [by apply (wp_nb_scan iter procs p e sf)|]. intros n g1 [Hn Hg1].
  eapply (wp_seq _ _ _ _ _ (fun y g' => exists c, g' = mkGhost l1 (RHdr e) x c None st /\ forall t, y.2 = Some t -> exists n n2, c = CPrep e sf n n2 (Some t))).
  { destruct Hg1 as [[Hlt ->]|[Hge ->]].
    2: { rewrite (proj2 (Z.ltb_ge _ _) Hge). apply wp_ret. by eexists. }
    rewrite (proj2 (Z.ltb_lt _ _) Hlt). cbn [set_gc gl gr gw gc gq gs].
    eapply wp_seq; [by apply (wp_nb_prep iter procs p e sf n n)|]. intros n2 g' [Hn2 ->]. cbn [set_gc gl gr gw gc gq gs].
    eapply wp_seq; [by apply (wp_iterator iter procs p e sf n2 n2)|]. intros [rc2|t] g' ->; apply wp_ret; cbn [set_gc gl gr gw gc gq gs]; eexists; (split; [done|]).
    - done.
    - intros t' E. injection E as <-. by exists n2, n2. }
  intros [rc2 [t|]] g' (c & -> & Ht); cbn [fst snd] in *.
  2: { by apply Hend. }
  destruct (Ht t eq_refl) as (n1 & n2 & ->). clear Ht.
  eapply (wp_seq _ _ _ _ _ (fun _ g' => exists l' c', g' = mkGhost l' (RHdr e) x c' None st /\ checkpoints w l' x)).
  2: { intros rc3 g' (l2 & c & -> & Hc2). by apply Hend. }
  eapply wp_seq; [apply walBusyLock_spec; no_need|]. intros rc3 g' Hrc. cbn beta in Hrc. destruct (Z.eqb_spec rc3 SQLITE_OK) as [E|E]; cbn [negb]; subst g'.
  2: { apply wp_ret. by eexists _, _. }
  cbn [set_gl gl gr gw gc gq gs]. eapply wp_seq; [apply backfill_spec; [done|done|lock_cases|done]|]. intros rc4 g' ->.
  eapply wp_seq; [apply wp_unlock_excl; [done|no_need]|]. intros _ g' ->. apply wp_ret. cbn [set_gl gl gr gw gc gq gs]. eexists _, _. split; [done|].
  apply (checkpoints_ext w l1); [|done]. intros j. by apply (lset_back w l1 x).
Qed.

(** *** After the copy *)

Lemma checkpoint_restart_spec w l e eMode xBusy st : checkpoints w l (WTxn e txn0) -> c_hdr w = e_hdr e ->
  wp (checkpoint_restart w eMode xBusy) (fun y g' => exists l' r' e', g' = mkGhost l' r' (WTxn e' txn0) CNone None st /\
      checkpoints y.2 l' (WTxn e' txn0) /\ match r' with RHdr _ | RFull _ => True | _ => False end) (mkGhost l (RHdr e) (WTxn e txn0) CNone None st).
Proof using Hp.
  intros Hc Hh. unfold checkpoint_restart. rewrite Hh. change (mxFrame (e_hdr e)) with (mx e).
  eapply wp_seq; [by apply (wp_nb_restart iter procs p e txn0)|]. intros n g' [[Hn ->]|[Hn ->]]; cbn [set_gr gl gr gw gc gq gs].
  2: { rewrite (proj2 (Z.ltb_lt _ _) Hn). apply wp_ret. by eexists _, _, e. }
  rewrite (proj2 (Z.ltb_ge _ _) Hn). destruct (SQLITE_CHECKPOINT_RESTART <=? eMode); [|apply wp_ret; by eexists _, _, e].
  eapply wp_seq; [apply wp_env|]. intros salt g' ->.
  eapply wp_seq; [apply walBusyLock_spec; no_need|]. intros rc g' Hrc. cbn beta in Hrc. destruct (Z.eqb_spec rc SQLITE_OK) as [E|E]; cbn [negb]; subst g'.
  2: { apply wp_ret. by eexists _, _, e. }
  cbn [set_gl gl gr gw gc gq gs]. set (l1 := lset l (WAL_READ_LOCK 1) (WAL_NREADER - 1) Exclusive).
  eapply (wp_seq _ _ _ _ _ (fun y g' => exists e', g' = mkGhost l1 (RFull e) (WTxn e' txn0) CNone None st /\ checkpoints y.2 l (WTxn e' txn0))).
  - destruct (eMode =? SQLITE_CHECKPOINT_TRUNCATE); [|apply wp_ret; by exists e].
    eapply wp_seq; [apply (walRestartHdr_spec iter procs p w salt e txn0); [done| |done|done|by right]|].
    { split; [intros j Hj; subst l1; cbn [set_gr set_gl gl]; lock_cases|]. right. cbn [set_gr set_gl gl]. subst l1. pose proof (ckpt_lock _ _ _ Hc). lock_cases. }
    intros w' g' (e' & m & _ & Hmx & -> & ->). cbn [set_gw gl gr gw gc gq gs].
    eapply wp_seq; [by apply (wp_log_truncate iter procs p e')|]. intros rc2 g' ->. apply wp_ret. exists e'. split; [done|].
    destruct Hc as (H1 & H2 & H3 & [[? ?]|[H4 _]]); [done|]. split; [exact H1|]. split; [exact H2|]. split; [exact H3|]. right. split; [exact H4|]. by eexists _, _.
  - intros [rc2 w'] g' (e' & -> & Hc'). cbn [snd] in Hc'. eapply wp_seq; [apply wp_unlock_excl; [done|no_need]|]. intros _ g' ->. apply wp_ret.
    cbn [set_gl gl gr gw gc gq gs snd]. eexists _, _, e'. split; [done|]. split; [|done]. apply (checkpoints_ext w' l); [|done]. intros j. subst l1.
    by apply (lset_back w l (WTxn e txn0)).
Qed.

Definition ckpt_done (st : Z) (w : conn) (g : ghost) : Prop :=
  exists l x, g = mkGhost l RNone x CNone None st /\ checkpoints w l x.

Lemma ckpt_end {A} (a : A) (f : A -> conn) l r x st : checkpoints (f a) l x ->
  wp (WRet a) (fun a g' => ckpt_done st (f a) g') (mkGhost l r x CNone None st).
Proof using. intros H. apply wp_forget_ret. by exists l, x. Qed.

Lemma walCheckpoint_spec w l x e eMode xBusy st : checkpoints w l x -> c_hdr w = e_hdr e -> (eMode <> SQLITE_CHECKPOINT_PASSIVE -> x = WTxn e txn0) ->
  wp (walCheckpoint w eMode xBusy) (fun y g' => ckpt_done st y.2 g') (mkGhost l (RHdr e) x CNone None st).
Proof using Hp Backfill0.
  intros Hc Hh Hx. unfold walCheckpoint. rewrite Hh. change (mxFrame (e_hdr e)) with (mx e).
  eapply wp_seq; [apply wp_nb|]. intros n g' [Hn ->].
  eapply (wp_seq _ _ _ _ _ (fun _ g' => exists l', g' = mkGhost l' (RHdr e) x CNone None st /\ checkpoints w l' x)).
  - destruct (Z.ltb_spec n (mx e)); [|apply wp_ret; by exists l].
    eapply wp_seq; [apply (checkpoint_copy_spec w l x e); [done|done|lia]|]. intros [rc xB] g' (l' & -> & H'). apply wp_ret. by exists l'.
  - intros [[stop rc] xB] g' (l' & -> & Hc'). destruct stop; [by apply (ckpt_end (rc, w) snd)|].
    destruct (Z.eqb_spec eMode SQLITE_CHECKPOINT_PASSIVE) as [E|E]; cbn [negb]; [by apply (ckpt_end (SQLITE_OK, w) snd)|].
    rewrite (Hx E) in *. apply wp_last. eapply wp_mono; [|by apply (checkpoint_restart_spec w l' e)].
    intros [rc2 w2] g' (l2 & r2 & e2 & -> & H2 & _). by apply (ckpt_end (rc2, w2) snd).
Qed.

(** *** A call of [sqlite3WalCheckpoint] *)

(** The locks a checkpoint has. *)
Definition ckpt_locks (st : Z) (w : conn) (x : wstate) (g : ghost) : Prop :=
  exists l, g = mkGhost l RNone x CNone None st /\ holds_locks l w /\ not_reading w /\ write_locked w x.

Lemma ckpt_end_write w x st g : ckpt_locks st w x g -> wp (sqlite3WalEndWriteTransaction w) (fun w' g' => ckpt_locks st w' WNone g' /\ c_writeLock w' = 0) g.
Proof using Hp.
  intros (l & -> & Hl & Hr & [[Hw ->]|[Hw (e & sl & ->)]]); unfold sqlite3WalEndWriteTransaction.
  - rewrite Hw. apply wp_ret. split; [|done]. exists l. split; [done|]. split; [done|]. split; [done|]. by left.
  - rewrite (proj2 (Z.eqb_neq _ _) Hw). cbn [negb]. apply wp_forget_gw; [right; by exists e, sl|]. cbn [set_gw gl gr gw gc gq gs].
    eapply wp_seq; [apply wp_unlock_excl; [done|no_need]|]. intros _ g' ->. apply wp_ret. cbn [set_gl gl gr gw gc gq gs]. split; [|done].
    eexists. split; [done|]. split; [locks Hl|]. split; [done|by left].
Qed.

Lemma ckpt_end_lock w st g : ckpt_locks st w WNone g -> c_writeLock w = 0 ->
  wp (if c_ckptLock w then do! _ := op (OUnlockExclusive WAL_CKPT_LOCK 1) in WRet (set_ckptLock w false) else WRet w) (fun w' g' => idle w' st g') g.
Proof using Hp.
  intros (l & -> & Hl & Hr & _) Hw. destruct (c_ckptLock w) eqn:Hc.
  - eapply wp_seq; [apply wp_unlock_excl; [done|no_need]|]. intros _ g' ->. apply wp_ret. cbn [set_gl gl gr gw gc gq gs].
    apply idle_out; [done|done|done|]. locks Hl.
  - apply wp_ret. by apply idle_out.
Qed.

(** The locks are taken: what is known when the checkpoint goes on. *)
Definition ckpt_goes_on (w : conn) (x : wstate) (rc eMode : Z) : Prop :=
  rc = SQLITE_OK -> eMode <> SQLITE_CHECKPOINT_NOOP ->
  c_ckptLock w = true /\ (eMode <> SQLITE_CHECKPOINT_PASSIVE -> exists e, x = WTxn e txn0).

Lemma ckpt_start_spec w eMode xBusy st g : ckpt_locks st w WNone g -> c_writeLock w = 0 -> c_ckptLock w = false ->
  wp (if negb (eMode =? SQLITE_CHECKPOINT_NOOP) then
       do! rc := op (OLockExclusive WAL_CKPT_LOCK 1) in
       if negb (rc =? SQLITE_OK) then WRet (rc, eMode, xBusy, w)
       else
         let w := set_ckptLock w true in
         if negb (eMode =? SQLITE_CHECKPOINT_PASSIVE) then
           do! rc := walBusyLock xBusy WAL_WRITE_LOCK 1 in
           if rc =? SQLITE_OK then WRet (rc, eMode, xBusy, set_writeLock w 1)
           else if rc =? SQLITE_BUSY then WRet (SQLITE_OK, SQLITE_CHECKPOINT_PASSIVE, O, w)
           else WRet (rc, eMode, xBusy, w)
         else WRet (rc, eMode, xBusy, w)
     else WRet (SQLITE_OK, eMode, xBusy, w))
    (fun y g' => exists x, ckpt_locks st y.2 x g' /\ ckpt_goes_on y.2 x y.1.1.1 y.1.1.2) g.
Proof using Hp.
  intros (l & -> & Hl & Hr & _) Hw Hc. set (Q := fun (y : Z * Z * nat * conn) (g' : ghost) => _).
  assert (forall rc m xB w' l', holds_locks l' w' -> not_reading w' -> c_writeLock w' = 0 -> (rc = SQLITE_OK -> m <> SQLITE_CHECKPOINT_NOOP ->
     c_ckptLock w' = true /\ m = SQLITE_CHECKPOINT_PASSIVE) -> Q (rc, m, xB, w') (mkGhost l' RNone WNone CNone None st)) as Hout.
  { intros rc m xB w' l' H1 H2 H3 H4. exists WNone. split.
    - exists l'. split; [done|]. split; [done|]. split; [done|by left].
    - intros Hok Hm. cbn [fst snd] in *. destruct (H4 Hok Hm) as [H5 ->]. split; [done|]. done. }
  destruct (Z.eqb_spec eMode SQLITE_CHECKPOINT_NOOP) as [En|En]; cbn [negb]; [apply wp_ret; by apply Hout|].
  eapply wp_seq; [apply wp_lock_excl; [done|no_need]|]. intros rc g' Hrc. cbn beta in Hrc.
  destruct (Z.eqb_spec rc SQLITE_OK) as [E|E]; cbn [negb]; subst g'; [|apply wp_ret; by apply Hout].
  cbn [set_gl gl gr gw gc gq gs]. set (l1 := lset l WAL_CKPT_LOCK 1 Exclusive).
  assert (holds_locks l1 (set_ckptLock w true)) as Hl1 by (subst l1; locks Hl).
  destruct (Z.eqb_spec eMode SQLITE_CHECKPOINT_PASSIVE) as [Ep|Ep]; cbn [negb]; [apply wp_ret; by apply Hout|].
  eapply wp_seq; [apply walBusyLock_spec; no_need|]. intros rc2 g' Hrc. cbn beta in Hrc.
  destruct (Z.eqb_spec rc2 SQLITE_OK) as [E2|E2]; subst g'.
  - apply wp_last. cbn [set_gl gl gr gw gc gq gs]. apply wp_write_start; [done|done|]. intros e. cbn [set_gw gl gr gw gc gq gs]. apply wp_ret, wp_ret.
    exists (WTxn e txn0). split.
    + eexists. split; [done|]. split; [locks Hl1|]. split; [done|]. right. split; [done|]. by exists e, txn0.
    + intros _ _. split; [done|]. intros _. by exists e.
  - destruct (rc2 =? SQLITE_BUSY); apply wp_ret; by apply Hout.
Qed.

Context (rec : conn -> wprog (Z * conn)).

Lemma sqlite3WalCheckpoint_spec w l eMode xBusy nBuf st : holds_locks l w -> not_reading w -> c_writeLock w = 0 -> c_ckptLock w = false ->
  wp (sqlite3WalCheckpoint rec w eMode xBusy nBuf) (fun y g' => idle y.2 st g') (mkGhost l RNone WNone CNone None st).
Proof using Hp Backfill0.
  intros Hl Hr Hw Hc. unfold sqlite3WalCheckpoint.
  eapply wp_seq; [apply (ckpt_start_spec w eMode xBusy st); [exists l; split; [done|]; split; [done|]; split; [done|by left]|done|done]|].
  intros [[[rc m] xB] w1] g1 (x & (l1 & -> & Hl1 & Hr1 & Hw1) & Hgo). cbn [fst snd] in *.
  eapply (wp_seq _ _ _ _ _ (fun y g' => hdr_read w1 x st y.1.1 y.2 g' /\ (y.1.1 = SQLITE_OK -> rc = SQLITE_OK))).
  { destruct (Z.eqb_spec rc SQLITE_OK) as [E|E].
    - eapply wp_mono; [|apply (walIndexReadHdr_spec iter procs p Hp rec w1 false l1 x st); done]. intros y g' H. by split.
    - apply wp_ret. split; [|done]. exists l1, RNone, (c_hdr w1, c_szPage w1). split; [done|]. split; [by rewrite loaded_same|]. split; [done|by left]. }
  intros [[rc2 ch] w2] g2 [(l2 & r & h & -> & Ew2 & Hl2 & Hrd) Hok]. cbn [fst snd] in *. subst w2.
  assert (forall l', holds_locks l' (loaded w1 h) -> ckpt_locks st (loaded w1 h) x (mkGhost l' RNone x CNone None st)) as Hlk.
  { intros l' Hl'. exists l'. split; [done|]. split; [done|]. split; [done|]. exact Hw1. }
  eapply (wp_seq _ _ _ _ _ (fun y g' => exists x', ckpt_locks st y.2 x' g')).
  { destruct Hrd as [[Hne ->]|(-> & e & -> & Hh & He)].
    { rewrite (proj2 (Z.eqb_neq _ _) Hne). cbn [negb]. apply wp_ret. exists x. by apply Hlk. }
    rewrite Z.eqb_refl. cbn [negb]. eapply (wp_seq _ _ _ _ _ (fun y g' => exists x', ckpt_locks st y.2 x' g')).
    - destruct (_ && _); [apply wp_forget_ret; exists x; by apply Hlk|].
      destruct (Z.eqb_spec m SQLITE_CHECKPOINT_NOOP) as [Em|Em]; cbn [negb]; [apply wp_forget_ret; exists x; by apply Hlk|].
      destruct (Hgo (Hok eq_refl) Em) as [G1 G2].
      eapply wp_mono; [|apply (walCheckpoint_spec (loaded w1 h) l2 x e m xB st); [|done|]].
      + intros y g' (l3 & x3 & -> & (C1 & C2 & C3 & C4)). exists x3, l3. done.
      + split; [done|]. split; [done|]. split; [done|exact Hw1].
      + intros Hm. destruct (G2 Hm) as [e0 ->]. by rewrite (He e0 txn0 eq_refl).
    - intros [rc3 w3] g3 (x3 & Hl3). cbn [snd] in Hl3. eapply (wp_seq _ _ _ _ _ (fun _ g' => g' = g3)).
      { destruct (_ || _); [|by apply wp_ret]. eapply wp_seq; [apply wp_nb|]. intros n g' [_ ->]. by apply wp_ret. }
      intros out g' ->. apply wp_ret. by exists x3. }
  intros [[rc3 out] w3] g3 (x3 & Hl3). cbn [snd] in Hl3. eapply wp_seq; [apply (ckpt_end_write _ x3 st)|].
  { destruct ch; [|exact Hl3]. exact Hl3. }
  intros w4 g4 [Hl4 Hw4]. eapply wp_seq; [by apply ckpt_end_lock|]. intros w5 g5 H5. by apply wp_ret.
Qed.

End checkpoint.
