(* ===== verification/WalIsolation.v ===== *)
(** * Snapshot isolation of the write-ahead log (wal.c of sqlite3.c)

    Any number of connections read, write and checkpoint one database side by side, an operation
    of one between any two of another's, and some of them die.  Every call of [WalShm] starts
    from and comes back to what its connection [knows]; what the connections see of the database,
    and what the files hold of it at any moment, follows.  Checkpoints use the iterator of
    [WalIter]. *)

From Stdlib Require Import Sorted.
From S2P Require Import Prelude Bitwise Varint UnixFile WalIndex WalLog WalIter WalWrite WalShm WalInv WalWp WalReader WalWriter WalCheckpoint.
From stdpp Require Import options.

(** ** The iterator *)

(** The pages of the frames [1 .. m]. *)
Definition pgnos (pgno : Z -> Z) (m : Z) : list Z := map pgno (rangeZ 1 m).

(** What the iterator returns for the frames [1 .. m] with the pages [pgno]. *)
Definition wal_iter (pgno : Z -> Z) (nBackfill m : Z) : list (Z * Z) :=
  let '(_, _, w) := append_frames maps wal0 0 (pgnos pgno m) in
  match walIteratorInit maps true (set_hdr w (set_mx hdr0 m (0, 0))) nBackfill with
  | inl _ => []
  | inr p => default [] (iterate (fun _ => apWiData w) (S (Z.to_nat m)) p)
  end.

Lemma zat_pgnos pgno m i : 1 <= i <= m -> zat (pgnos pgno m) (i - 1) = pgno i.
Proof.
  intros Hi. unfold zat, pgnos, rangeZ. rewrite map_map. rewrite (nth_indep _ 0 (pgno (1 + Z.of_nat 0))) by (rewrite length_map, length_seq; lia).
  rewrite (map_nth (fun k => pgno (1 + Z.of_nat k))). rewrite seq_nth by lia. f_equal. lia.
Qed.

Lemma zlen_pgnos pgno m : 0 <= m -> zlen (pgnos pgno m) = m.
Proof. intros Hm. unfold zlen, pgnos, rangeZ. rewrite !length_map, length_seq. lia. Qed.

#[export] Instance wal_iter_law : Backfill wal_iter.
Proof.
  intros pgno n m Hn Hm Hp. pose proof (zlen_pgnos pgno m ltac:(lia)) as Hz. set (L := pgnos pgno m) in *.
  assert (Forall (fun pg => 0 < pg < 0xffffffff) L) as HL.
  { apply List.Forall_forall. intros q Hq. apply in_map_iff in Hq as (i & <- & Hi). apply list_elem_of_In, in_rangeZ in Hi.
    unfold in_range in Hi. apply andb_true_iff in Hi as [H1 H2]. apply Z.leb_le in H1. apply Z.ltb_lt in H2. apply Hp. lia. }
  unfold wal_iter. fold L.
  destruct (append_frames_spec maps wal0 [] 0 L) as (w & L' & -> & _ & Hi & Ht & Ho); [done|apply indexes_nil|done|by left| |].
  { apply (Forall_impl _ _ _ HL). intros q Hq. lia. }
  assert (L' = L) as ->.
  { cbn [app take firstn] in Ht. change (take (Z.to_nat 0) []) with (@nil Z) in Ht. cbn [app] in Ht. rewrite <- Ht. symmetry. apply take_ge.
    destruct Ho as [E|[-> E]]; [unfold zlen in *; lia|cbn; lia]. }
  set (w2 := set_hdr w _).
  destruct (iterator_lists maps w2 L n (fun _ => apWiData w)) as (p & l & E1 & E2 & _ & E3 & E4); [done|exact Hi|cbn [w2 set_hdr hdr set_mx mxFrame]; lia|done| | |].
  { apply (Forall_impl _ _ _ HL). intros q Hq. lia. }
  { intros k. by exists L. }
  cbn [w2 set_hdr hdr set_mx mxFrame] in E2, E3, E4. rewrite E1, E2. cbn [default]. split.
  - intros q f Hin. destruct (E3 q f Hin) as (J1 & J2 & J3). subst L. rewrite zat_pgnos in J2 by lia. split; [done|]. split; [done|].
    intros i Hi' E. apply (J3 i Hi'). by rewrite zat_pgnos by lia.
  - intros i Hi'. destruct (E4 i Hi') as (f & Hf & Hle). exists f. split; [done|]. subst L. by rewrite zat_pgnos in Hf by lia.
Qed.

(** ** Calls *)

Section calls.
Context (procs : list nat) (rec : conn -> wprog (Z * conn)).

(** The pages that were read are those of the database for the connection. *)
Definition reads_ok (reads : list (Z * page)) (g : ghost) : Prop :=
  forall e j mn, gr g = ROpen e j mn -> forall q d, (q, d) ∈ reads -> q <= np e \/ q ∈ t_pages (gtxn g) -> d = sees e (gtxn g) q.

(** The frames of the transaction have what was written since [b], and the last commit what was
    written before it. *)
Definition writes_ok (txn last : option writes) (g : ghost) : Prop :=
  forall e t, gw g = WTxn e t ->
    (forall b l, txn = Some (b, l) -> same_image b e /\ shows (t_pages t) (t_data t) l) /\
    (forall b l, last = Some (b, l) -> after_writes b l e).

Definition rests (pr : proc) (g : ghost) : Prop :=
  idle (p_conn pr) (p_start pr) g /\ reads_ok (p_reads pr) g /\ writes_ok (p_txn pr) (p_last pr) g.

(** The call may return at any moment. *)
Definition returns (pr : proc) (c : call) (y : result) (g : ghost) : Prop :=
  forall s, (forall e t, gw g = WTxn e t -> e = s_cur s) -> rests (finish s pr c y) g.

Lemma idle_reader w st g : idle w st g -> c_readLock w < 0 -> c_writeLock w = 0 ->
  exists l, g = mkGhost l RNone WNone CNone None st /\ holds_locks l w /\ not_reading w /\ c_ckptLock w = false.
Proof using.
  intros (l & r & x & -> & Hl & Hc & e & [[Hr ->]|[Hr _]] & Hx) H1 H2; [|lia]. destruct Hx as [(_ & -> & _)|[? _]]; [|done]. by exists l.
Qed.

Lemma idle_no_txn w st g : idle w st g -> c_writeLock w = 0 -> gw g = WNone.
Proof using. intros (l & r & x & -> & _ & _ & e & _ & Hx) H. by destruct Hx as [(_ & -> & _)|[? _]]. Qed.

Lemma idle_writer w st g : idle w st g -> c_writeLock w <> 0 ->
  exists l r e t, g = mkGhost l r (WTxn e t) CNone None st /\ writing w l r e t.
Proof using.
  intros (l & r & x & -> & Hl & Hc & e & Hr & Hx) H2. destruct Hx as [[? _]|(_ & t & -> & Ht)]; [done|]. exists l, r, e, t. done.
Qed.

Lemma grows_ok s g e t w pList nTruncate : wr_ok s g -> gw g = WTxn e t -> mxFrame (c_hdr w) = mx e + zlen (t_pages t) ->
  writes_growth s w pList nTruncate = true -> grows e t pList nTruncate.
Proof using.
  intros Hw Hg Hm H q Hq. unfold wr_ok in Hw. rewrite Hg in Hw. destruct Hw as (-> & _ & Ho & _). unfold writes_growth in H. rewrite forallb_forall in H.
  fold (mx (s_cur s)) (np (s_cur s)) in H. specialize (H q). rewrite orb_true_iff in H.
  destruct H as [H|H]; [|right|left].
  - apply list_elem_of_In, in_rangeZ. unfold in_range. apply andb_true_iff. rewrite Z.leb_le, Z.ltb_lt. lia.
  - apply existsb_exists in H as (x & Hx & E). apply Z.eqb_eq in E. subst q. apply list_elem_of_In in Hx. by apply list_elem_of_fmap_2.
  - apply existsb_exists in H as (i & Hi & E). apply Z.eqb_eq in E. apply list_elem_of_In, in_rangeZ in Hi. unfold in_range in Hi.
    apply andb_true_iff in Hi as [H1 H2]. apply Z.leb_le in H1. apply Z.ltb_lt in H2.
    destruct (t_pages t !! Z.to_nat (i - mx (s_cur s) - 1)) as [q'|] eqn:El.
    + pose proof (Ho _ _ El) as Hq'. replace (mx (s_cur s) + 1 + Z.of_nat (Z.to_nat (i - mx (s_cur s) - 1))) with i in Hq' by lia.
      rewrite E in Hq'. subst q'. by eapply list_elem_of_lookup_2.
    + apply lookup_ge_None in El. unfold zlen in *. lia.
Qed.

Definition reading_call (c : call) : bool := match c with CReadPage _ | CBeginWrite => true | _ => false end.

Lemma returns_idle s pr c y g : reading_call c = false -> idle y.2 (p_start (start rec s pr c)) g ->
  (forall s', (forall e t, gw g = WTxn e t -> e = s_cur s') ->
     writes_ok (wrote s' (start rec s pr c) c y.1.1).1 (wrote s' (start rec s pr c) c y.1.1).2 g) ->
  returns (start rec s pr c) c y g.
Proof using.
  intros Hc Hi Hw s' Hs. destruct y as [[rc d] w]. split; [exact Hi|]. split; [|by apply Hw]. intros e j mn _ q d' Hin _. exfalso.
  assert (p_reads (finish s' (start rec s pr c) c (rc, d, w)) = []) as E by (by destruct c). rewrite E in Hin. by apply elem_of_nil in Hin.
Qed.

Lemma writes_ok_none g : writes_ok None None g.
Proof using. intros e t _. by split. Qed.

(** Nothing was written yet. *)
Lemma writes_ok_begin s t g : (forall e t', gw g = WTxn e t' -> e = s_cur s /\ t' = t) -> t_pages t = [] -> writes_ok (Some (s_cur s, [])) None g.
Proof using.
  intros H Ht e t' E. destruct (H e t' E) as [-> ->]. split; [|done]. intros b l [= <- <-]. split; [done|]. rewrite Ht. split; [cbn; lia|done].
Qed.

Lemma same_image_trans b e e' : same_image b e -> same_image e e' -> same_image b e'.
Proof using. intros [H1 H2] [H3 H4]. split; congruence. Qed.

Lemma after_writes_image b e l e' : same_image b e -> after_writes e l e' -> after_writes b l e'.
Proof using. intros [H1 H2] H q. rewrite <- H1, <- H2. apply H. Qed.

(** A call that writes frames. *)
Lemma writes_ok_frames s' s pr szPage pList nTruncate isCommit nExtra rc g e t :
  let pr' := start rec s pr (CFrames szPage pList nTruncate isCommit nExtra) in
  let x := wrote s' pr' (CFrames szPage pList nTruncate isCommit nExtra) rc in
  writes_ok (p_txn pr) (p_last pr) g -> gw g = WTxn e t ->
  forall g', frames_result e t pList nTruncate isCommit rc g' -> (forall e t, gw g' = WTxn e t -> e = s_cur s') -> writes_ok x.1 x.2 g'.
Proof using.
  intros pr' x Hw Hg g' (e' & t' & Eg & H) Hs. specialize (Hs e' t' Eg). subst x pr'. unfold wrote. cbn [start p_txn].
  destruct (rc =? SQLITE_OK); cbn [negb]; [|apply writes_ok_none]. intros e2 t2 E2. rewrite Eg in E2. injection E2 as <- <-.
  destruct (Hw e t Hg) as [Ht _]. destruct isCommit; cbn [fst snd].
  - destruct H as (-> & _ & H). split.
    + intros b l [= <- <-]. subst e'. split; [done|apply shows_nil].
    + intros b l E. destruct (p_txn pr) as [[b0 l0]|]; [|done]. injection E as <- <-. destruct (Ht b0 l0 eq_refl) as [I1 I2].
      by apply (after_writes_image _ e), H.
  - destruct H as [I H]. split; [|done]. intros b l E. destruct (p_txn pr) as [[b0 l0]|]; [|done]. injection E as <- <-.
    destruct (Ht b0 l0 eq_refl) as [I1 I2]. split; [by apply (same_image_trans _ e)|by apply H].
Qed.

Lemma start_at s G p l x st : Inv procs s G -> G p = mkGhost l RNone x CNone None st ->
  Inv procs s (updn G p (mkGhost l RNone x CNone None (e_no (s_cur s)))).
Proof using.
  intros HI E. pose proof (i_local _ _ _ HI p) as (L1 & L2 & L3 & L4). rewrite E in L2.
  apply step_ghost; try done; try (rewrite E; done).
  - cbn [rd_ok gr gs]. unfold rd_ok. cbn [gr gs]. lia.
  - rewrite E. intros H. by right.
  - rewrite E. intros H. by right.
Qed.

Abbreviation wp := (wp wal_iter procs).

Lemma call_spec s G p pr c : Inv procs s G -> p ∈ procs -> rests pr (G p) -> can_call s (p_conn pr) c = true ->
  exists g', Inv procs s (updn G p g') /\ wp p (call_prog rec c (p_conn pr)) (returns (start rec s pr c) c) g'.
Proof using.
  intros HI Hp (Hi & Hreads & Hwr) Hc. set (w := p_conn pr) in *. pose proof (Inv_id procs p s G HI) as Hid. unfold can_call in Hc.
  destruct c as [| |q| |szPage pList nTruncate isCommit nExtra| | |eMode xBusy nBuf]; cbn [call_prog];
    rewrite ?andb_true_iff, ?orb_true_iff, ?Z.ltb_lt, ?Z.leb_le, ?Z.eqb_eq, ?negb_true_iff, ?Z.eqb_neq in Hc.
  - destruct (idle_reader _ _ _ Hi (proj1 Hc) (proj2 Hc)) as (l & Eg & Hl & Hr & Hk). destruct Hc as [_ Hw].
    exists (mkGhost l RNone WNone CNone None (e_no (s_cur s))). split; [by apply (start_at s G p l WNone (p_start pr))|].
    unfold walBeginReadTransaction. generalize begin_fuel. intros fuel. eapply wp_seq; [by apply begin_loop_spec|].
    intros [[rc ch] w'] g' (l' & r & -> & Hl' & Hw' & Hk' & Hend). cbn [fst snd] in *. apply wp_ret, returns_idle; [done| |intros; apply writes_ok_none].
    exists l', r, WNone. split; [done|]. split; [done|]. split; [cbn [snd]; by rewrite Hk'|].
    destruct Hend as [(_ & Hn & ->)|(_ & Hrl & e & -> & Hh)].
    + exists (mkCommit hdr_zero (fun _ => []) 0 0). split; [by left|left]. split; [cbn [snd]; by rewrite Hw'|]. split; [done|]. unfold not_reading in Hn. cbn [snd]. lia.
    + exists e. split; [by right|left]. split; [cbn [snd]; by rewrite Hw'|]. split; [done|]. done.
  - exists (G p). split; [exact Hid|]. eapply wp_seq; [by apply (end_read_idle wal_iter procs p Hp w (p_start pr))|]. intros w' g' H. by apply wp_ret, returns_idle; [| |intros; apply writes_ok_none].
  - exists (G p). split; [exact Hid|]. destruct Hc as [Hrl Hq]. eapply wp_seq; [by apply (read_idle wal_iter procs p w (p_start pr) (G p) q)|].
    intros [rc d] g' [-> Hpg]. cbn [fst snd] in *. apply wp_ret. intros s' _. split; [exact Hi|]. split; [|exact Hwr].
    intros e j mn Er q' d' Hin. cbn [finish p_reads start] in Hin. destruct (Z.eqb_spec rc SQLITE_OK) as [Erc|Erc]; [|by apply (Hreads e j mn)].
    apply elem_of_cons in Hin as [E|Hin]; [injection E as -> ->; by apply (Hpg e j mn)|by apply (Hreads e j mn)].
  - exists (G p). split; [exact Hid|]. destruct Hc as [Hrl Hwl].
    eapply wp_seq; [by apply (begin_write_idle wal_iter procs p Hp w (p_start pr))|].
    intros [rc w'] g' (H & Hgr & Ht). cbn [fst snd] in *. apply wp_ret. intros s' Hs. split; [exact H|]. split.
    + assert (gtxn g' = txn0 /\ gtxn (G p) = txn0) as [E1 E2].
      { split; unfold gtxn; [destruct (gw g') as [|e t| |] eqn:Ew; try done; by destruct (Ht e t eq_refl)|]. by rewrite (idle_no_txn _ _ _ Hi Hwl). }
      intros e j mn Er q d Hin. rewrite E1. rewrite Hgr in Er. rewrite <- E2. by apply (Hreads e j mn).
    + cbn [finish wrote p_txn p_last]. destruct (Z.eqb_spec rc SQLITE_OK) as [E|E]; [|apply writes_ok_none].
      apply (writes_ok_begin s' txn0); [|done]. intros e t Ew. destruct (Ht e t Ew) as [-> _]. split; [by apply (Hs e txn0)|done].
  - exists (G p). split; [exact Hid|]. destruct Hc as (((((Hrl & Hwl) & Hne) & Hpl) & Hnd) & Hcm).
    destruct (idle_writer _ _ _ Hi Hwl) as (l & r & e & t & Eg & Hw). pose proof (i_wr _ _ _ p HI) as Kw. rewrite Eg in *.
    eapply wp_seq; [apply (sqlite3WalFrames_spec wal_iter procs p Hp rec w l r e t (p_start pr)); [done| | | | |]|].
    + destruct Hw as (_ & _ & _ & _ & [[Hr _]|Hr]); [unfold not_reading in Hr; lia|done].
    + by apply bool_decide_eq_false in Hne.
    + apply List.Forall_forall. intros x Hx. rewrite forallb_forall in Hpl. specialize (Hpl x Hx).
      apply andb_true_iff in Hpl as [H1 H2]. apply Z.ltb_lt in H1, H2. done.
    + by apply bool_decide_eq_true in Hnd.
    + intros ->. destruct Hcm as [|Hcm]; [done|]. apply andb_true_iff in Hcm as [_ Hcm]. apply (grows_ok s _ e t w pList nTruncate Kw); [done|apply Hw|done].
    + intros [rc w'] g' [H Hres]. apply wp_ret, returns_idle; [done|exact H|]. intros s' Hs. by eapply writes_ok_frames.
  - exists (G p). split; [exact Hid|]. destruct (idle_writer _ _ _ Hi Hc) as (l & r & e & t & -> & Hw).
    eapply wp_seq; [by apply (sqlite3WalUndo_spec wal_iter procs p w l r e t (p_start pr))|].
    intros w' g' [H (t' & Eg & Ht)]. apply wp_ret, returns_idle; [done|done|]. intros s' Hs. apply (writes_ok_begin s' t'); [|done].
    intros e2 t2 Ew. split; [by apply (Hs e2 t2)|]. rewrite Eg in Ew. congruence.
  - exists (G p). split; [exact Hid|]. destruct Hc as [Hwl Hh]. apply hdr_eqb_eq in Hh.
    eapply wp_seq; [apply (end_write_idle wal_iter procs p Hp w (p_start pr) (G p)); [exact Hi|]|].
    + intros e t Ew. pose proof (i_wr _ _ _ p HI) as Kw. unfold wr_ok in Kw. rewrite Ew in Kw. destruct Kw as (-> & _).
      rewrite Hh. apply (h_h0 _ (i_hist _ _ _ HI)).
    + intros w' g' [H _]. by apply wp_ret, returns_idle; [| |intros; apply writes_ok_none].
  - exists (G p). split; [exact Hid|]. destruct (idle_reader _ _ _ Hi (proj1 Hc) (proj2 Hc)) as (l & -> & Hl & Hr & Hk). destruct Hc as [_ Hw].
    eapply wp_mono; [|by apply (sqlite3WalCheckpoint_spec wal_iter procs p Hp rec w l eMode xBusy nBuf (p_start pr))].
    intros y g' Hy. by apply returns_idle; [| |intros; apply writes_ok_none].
Qed.

(** ** All connections *)

(** A connection between two calls, or within one. *)
Definition proc_ok (p : nat) (pr : proc) (g : ghost) : Prop :=
  match p_run pr with
  | None => rests pr g
  | Some (c, m) => p ∈ procs /\ wp p m (returns pr c) g
  end.

Definition sys_ok (y : sys) : Prop := exists G, Inv procs (sy_shm y) G /\ forall p, proc_ok p (sy_proc y p) (G p).

Lemma updn_ok (P : nat -> proc -> ghost -> Prop) f G p pr g :
  (forall q, P q (f q) (G q)) -> P p pr g -> forall q, P q (updn f p pr q) (updn G p g q).
Proof using.
  intros H Hp q. destruct (decide (q = p)) as [->|Hne]; [by rewrite !updn_same|by rewrite !updn_other].
Qed.

Lemma idle_conn0 st : idle conn0 st (ghost0 st).
Proof using.
  apply idle_out; [done|done|done|]. intros i. unfold ghost0, lk. cbn [gl conn0 c_readLock c_writeLock c_ckptLock]. 
  change (0 <=? -1) with false. cbn [andb]. rewrite !andb_false_r. done.
Qed.

Lemma event_ok y ev y' : sys_ok y -> do_event wal_iter procs rec true y ev = Some y' -> sys_ok y'.
Proof using.
  intros (G & HI & Hall) He. destruct ev as [p c|p ch|p]; cbn [do_event] in He; pose proof (Hall p) as Hp; unfold proc_ok in Hp.
  - destruct (p_run (sy_proc y p)) as [|] eqn:Er; [done|]. destruct (existsb (Nat.eqb p) procs && can_call (sy_shm y) (p_conn (sy_proc y p)) c) eqn:Ec; [|done].
    apply andb_true_iff in Ec as [Hin Hcan]. apply existsb_exists in Hin as (p' & Hin & E). apply Nat.eqb_eq in E. subst p'. apply list_elem_of_In in Hin.
    injection He as <-. destruct (call_spec (sy_shm y) G p (sy_proc y p) c HI Hin Hp Hcan) as (g' & HI' & Hwp).
    exists (updn G p g'). split; [exact HI'|]. cbn [sy_proc]. apply updn_ok; [exact Hall|]. split; [done|exact Hwp].
  - destruct (p_run (sy_proc y p)) as [[c [r|R o k]]|] eqn:Er; [| |done]; destruct Hp as [Hin Hp]; cbn [WalWp.wp] in Hp.
    + injection He as <-. destruct (Hp (sy_shm y) G HI eq_refl) as (g' & HI' & Hr). exists (updn G p g'). split; [exact HI'|].
      cbn [sy_proc]. apply updn_ok; [exact Hall|]. unfold returns in Hr.
      assert (forall e t, gw g' = WTxn e t -> e = s_cur (sy_shm y)) as Hg.
      { intros e t Ew. pose proof (i_wr _ _ _ p HI') as Kw. rewrite updn_same in Kw. unfold wr_ok in Kw. rewrite Ew in Kw. apply Kw. }
      specialize (Hr (sy_shm y) Hg). unfold proc_ok. destruct r as [[rc d] w]. exact Hr.
    + destruct (op_do wal_iter procs p (sy_shm y) o ch) as [[r s']|] eqn:Eo; [|done]. injection He as <-.
      destruct (Hp (sy_shm y) G HI eq_refl ch r s' Eo) as (g' & HI' & Hr). exists (updn G p g'). split; [exact HI'|].
      cbn [sy_proc]. apply updn_ok; [exact Hall|]. split; [done|]. eapply wp_mono; [|exact Hr]. intros [[rc d] w] g2 H. exact H.
  - cbn [negb orb] in He. destruct (may_die (sy_shm y) p) eqn:Ed; [|done]. injection He as <-.
    pose proof (step_die procs (sy_shm y) G p HI Ed) as HI1. set (n := e_no (s_cur (sy_shm y))).
    exists (updn G p (ghost0 n)). split.
    + apply (Inv_twice procs p (die (sy_shm y) p) G (ghost0 (gs (G p))) (ghost0 n)).
      apply (start_at (die (sy_shm y) p) _ p (fun _ => NotHeld) WNone (gs (G p)) HI1). by rewrite updn_same.
    + cbn [sy_proc]. apply updn_ok; [exact Hall|]. split; [apply idle_conn0|]. split; [by intros e j mn E|apply writes_ok_none].
Qed.

Lemma reaches_ok y y' : sys_ok y -> reaches wal_iter procs rec y y' -> sys_ok y'.
Proof using. intros H. induction 1 as [|y1 y2 ev Hr IH He]; [done|]. by apply (event_ok y1 ev). Qed.

Lemma inv0 h db : mxFrame h = 0 -> Inv procs (shm0 h db) (fun _ => ghost0 0).
Proof using.
  intros Hm. assert (forall e, e ∈ hist (shm0 h db) -> e = mkCommit h db 0 0) as Hin.
  { intros e He. unfold hist in He. cbn [shm0 s_cur s_old] in He. by apply list_elem_of_singleton in He. }
  assert (mx (mkCommit h db 0 0) = 0) as Hmx by exact Hm. split.
  - split; cbn [shm0 s_h0 s_cur]; try done; try (intros e He; rewrite (Hin e He); (done || lia)).
    + intros e1 e2 H1 H2 _ _. by rewrite (Hin e1 H1), (Hin e2 H2).
    + intros e1 e2 H1 H2 _. by rewrite (Hin e1 H1), (Hin e2 H2).
    + intros i Hi. lia.
    + intros e1 e2 q H1 H2 _ _ _ Hq _. rewrite (Hin e1 H1), (Hin e2 H2) in *. split; [apply Hq|done].
    + intros e q f He _ _ Hf. rewrite (Hin e He) in Hf. lia.
  - split; [cbn [shm0 s_eff s_cur]; lia|]. intros q Hq _. done.
  - done.
  - done.
  - done.
  - by left.
  - split; [done|by left].
  - intros p. split; [|split; [|split]]; [|done..]. unfold rd_ok. cbn. lia.
Qed.

Lemma sys0_ok h db : mxFrame h = 0 -> sys_ok (sys0 h db).
Proof using.
  intros Hm. exists (fun _ => ghost0 0). split; [by apply inv0|]. intros p. split; [apply idle_conn0|]. split; [by intros e j mn E|apply writes_ok_none].
Qed.

(** What holds at any moment. *)
Lemma reached h db y : mxFrame h = 0 -> reaches wal_iter procs rec (sys0 h db) y -> sys_ok y.
Proof using. intros Hm. apply reaches_ok. by apply sys0_ok. Qed.

(** What a connection wrote, it wrote on top of a commit. *)
Definition on_commits (y : sys) : Prop :=
  forall p b l, p_txn (sy_proc y p) = Some (b, l) \/ p_last (sy_proc y p) = Some (b, l) -> b ∈ hist (sy_shm y).

Lemma op_hist p s R (o : wop R) ch r s' e : op_do wal_iter procs p s o ch = Some (r, s') -> e ∈ hist s -> e ∈ hist s'.
Proof using.
  assert (forall i n m rc x, try_lock procs s p i n m rc = (x, s') -> hist s' = hist s) as Hlock.
  { intros i n m rc x E. unfold try_lock in E. repeat case_match; by injection E as <- <-. }
  intros E He. destruct o; cbn [op_do] in E; try (injection E as Hx; by rewrite (Hlock _ _ _ _ _ Hx)); repeat case_match; simplify_eq; try done.
  by apply elem_of_cons; right.
Qed.

Lemma wrote_hist s pr c rc b l : (wrote s pr c rc).1 = Some (b, l) \/ (wrote s pr c rc).2 = Some (b, l) ->
  b = s_cur s \/ exists l', p_txn pr = Some (b, l') \/ p_last pr = Some (b, l').
Proof using.
  unfold wrote. intros [H|H]; destruct c; repeat case_match; cbn [fst snd] in H; simplify_eq; try (by left); right; eexists; eauto.
Qed.

Lemma event_commits y ev y' : on_commits y -> do_event wal_iter procs rec true y ev = Some y' -> on_commits y'.
Proof using.
  intros Hy He q b l. unfold do_event in He. repeat case_match; simplify_eq; cbn [sy_shm sy_proc].
  - destruct (decide (q = p)) as [->|Hne]; [rewrite updn_same|rewrite updn_other by done; apply Hy]. cbn [start p_txn p_last].
    intros [K|K]; [apply (Hy p b l); by left|]. apply (Hy p b l). right. by destruct c.
  - destruct (decide (q = p)) as [->|Hne]; [rewrite updn_same|rewrite updn_other by done; apply Hy]. destruct a as [[rc d] w]. cbn [finish p_txn p_last].
    intros K. apply wrote_hist in K as [->|[l' K]]; [apply elem_of_cons; by left|by apply (Hy p b l')].
  - destruct (decide (q = p)) as [->|Hne]; [rewrite updn_same|rewrite updn_other by done]; cbn [p_txn p_last]; intros K; eapply op_hist; eauto; by eapply Hy.
  - destruct (decide (q = p)) as [->|Hne]; [rewrite updn_same|rewrite updn_other by done; apply Hy]. by intros [K|K].
Qed.

Lemma reached_commits h db y : reaches wal_iter procs rec (sys0 h db) y -> on_commits y.
Proof using. induction 1 as [|y1 y2 ev Hr IH He]; [by intros p b l [H|H]|by apply (event_commits y1 ev)]. Qed.

End calls.

(** What the log and the database file hold of a page. *)
Definition stored (s : shm) (q : Z) : page :=
  let f := last_in (s_pgno s) q 1 (Z.to_nat (mxFrame (s_h0 s))) in if f =? 0 then s_db s q else s_frame s f.

Lemma stored_cur procs s G q : Inv procs s G -> 1 <= q <= np (s_cur s) -> stored s q = e_img (s_cur s) q.
Proof.
  intros HI Hq. pose proof (i_hist _ _ _ HI) as Hh. destruct (i_db _ _ _ HI) as [Heff Hd]. pose proof (h_mx _ Hh _ (cur_in s)) as Hmx.
  unfold stored. rewrite (h_h0 _ Hh). change (mxFrame (e_hdr (s_cur s))) with (mx (s_cur s)).
  destruct (last_in_spec (s_pgno s) q 1 (Z.to_nat (mx (s_cur s))) ltac:(lia)) as [[-> Hn]|(H1 & H2 & H3)].
  - cbn [Z.eqb]. apply Hd; [done|]. apply (nof_sub _ _ _ _ _ _ Hn); lia.
  - cbv zeta. set (f := last_in _ _ _ _) in *. rewrite (proj2 (Z.eqb_neq f 0)) by lia. rewrite Z2Nat.id in H1, H3 by lia.
    by apply (h_log _ Hh (s_cur s) q f (cur_in s)).
Qed.

(** ** What connections see *)



(** C18: when a commit has returned, the database is what the last commit was when the transaction
    began, with what the transaction wrote since on top: the last content of every page that was
    written in any of its calls, and the content from before of the others, whatever spilled to
    the log, was written twice or was copied to fill a sector, wherever a checkpoint or a restart
    of the log came in between.  The pages by which the database grew were all written. *)
Theorem commit_is_what_was_written procs rec h db y p b l : mxFrame h = 0 -> reaches wal_iter procs rec (sys0 h db) y ->
  let s := sy_shm y in let pr := sy_proc y p in
  p_run pr = None -> c_writeLock (p_conn pr) <> 0 -> p_last pr = Some (b, l) ->
  b ∈ s_cur s :: s_old s /\
  forall q, 1 <= q <= nPage (s_h0 s) ->
    stored s q = match last_write l q with Some d => d | None => e_img b q end /\
    (nPage (e_hdr b) < q -> is_Some (last_write l q)).
Proof.
  intros Hm Hr s pr Hrun Hw Hl. pose proof (reached_commits procs rec h db y Hr p b l (or_intror Hl)) as Hb. split; [exact Hb|].
  destruct (reached procs rec h db y Hm Hr) as (G & HI & Hall). specialize (Hall p). unfold proc_ok in Hall. fold pr in Hall. rewrite Hrun in Hall.
  destruct Hall as (Hi & _ & Hwr). destruct (idle_writer _ _ _ Hi Hw) as (k & r & e & t & Eg & _).
  pose proof (i_wr _ _ _ p HI) as Kw. rewrite Eg in *. destruct Kw as (-> & _). destruct (Hwr _ _ eq_refl) as [_ Ha].
  fold s in HI, Ha. rewrite (h_h0 _ (i_hist _ _ _ HI)). intros q Hq. rewrite (stored_cur procs s G) by done.
  destruct (Ha b l Hl q) as [E Hn]. split; [rewrite E; by destruct (last_write l q)|]. intros Hnp. apply Hn. unfold np in *. lia.
Qed.

(** No two connections are in a write transaction at once, and no one else is in the middle of a call that
    holds the write lock. *)
Theorem one_writer procs rec h db y p q : mxFrame h = 0 -> reaches wal_iter procs rec (sys0 h db) y ->
  p_run (sy_proc y p) = None -> c_writeLock (p_conn (sy_proc y p)) <> 0 -> q <> p ->
  s_lock (sy_shm y) p WAL_WRITE_LOCK = Exclusive /\ s_lock (sy_shm y) q WAL_WRITE_LOCK = NotHeld /\
  (p_run (sy_proc y q) = None -> c_writeLock (p_conn (sy_proc y q)) = 0).
Proof.
  intros Hm Hr Hrun Hw Hne. destruct (reached procs rec h db y Hm Hr) as (G & HI & Hall).
  assert (forall p, p_run (sy_proc y p) = None -> c_writeLock (p_conn (sy_proc y p)) <> 0 -> s_lock (sy_shm y) p WAL_WRITE_LOCK = Exclusive) as Hx.
  { clear -HI Hall. intros p Hrun Hw. specialize (Hall p). unfold proc_ok in Hall. rewrite Hrun in Hall. destruct Hall as (Hi & _).
    destruct (idle_writer _ _ _ Hi Hw) as (l & r & e & t & Eg & _). rewrite (i_locks _ _ _ HI), Eg.
    pose proof (i_wr _ _ _ p HI) as Kw. rewrite Eg in Kw. apply Kw. }
  pose proof (Hx p Hrun Hw) as Hxp. pose proof (i_excl _ _ _ HI p q WAL_WRITE_LOCK (not_eq_sym Hne) Hxp) as Hq. split; [done|]. split; [done|].
  intros Hrq. destruct (Z.eq_dec (c_writeLock (p_conn (sy_proc y q))) 0) as [|E]; [done|]. rewrite (Hx q Hrq E) in Hq. done.
Qed.

(** A run reaches its end. *)
Lemma run_events_reaches iter procs rec y0 y l y' : reaches iter procs rec y0 y -> run_events iter procs rec true y l = Some y' -> reaches iter procs rec y0 y'.
Proof.
  revert y. induction l as [|ev l IH]; intros y Hr H; cbn [run_events] in H; [by injection H as <-|].
  destruct (do_event iter procs rec true y ev) as [y1|] eqn:E; [|done]. apply (IH y1); [|done]. by apply (reaches_step _ _ _ y0 y y1 ev).
Qed.

Lemma run_call_reaches iter procs y0 y p fuel y' : reaches iter procs no_recovery y0 y -> run_call iter procs p fuel y = Some y' ->
  reaches iter procs no_recovery y0 y'.
Proof.
  revert y. induction fuel as [|fuel IH]; intros y Hr H; cbn [run_call] in H; [done|].
  destruct (do_event iter procs no_recovery true y (EOp p (mkChoice 0 []))) as [y1|] eqn:E; [|done].
  assert (reaches iter procs no_recovery y0 y1) as Hr1 by by apply (reaches_step _ _ _ y0 y y1 (EOp p (mkChoice 0 []))).
  destruct (p_run (sy_proc y1 p)); [by apply (IH y1)|by injection H as <-].
Qed.

Lemma run_calls_reaches iter procs y0 y l y' : reaches iter procs no_recovery y0 y -> run_calls iter procs y l = Some y' ->
  reaches iter procs no_recovery y0 y'.
Proof.
  revert y. induction l as [|[p c] l IH]; intros y Hr H; unfold run_calls in *; cbn [fold_left] in H; [by injection H as <-|].
  cbn [do_call fst snd] in H. destruct (do_event iter procs no_recovery true y (EStart p c)) as [y1|] eqn:E.
  - destruct (run_call iter procs p 200 y1) as [y2|] eqn:E2.
    + apply (IH y2); [|done]. apply (run_call_reaches _ _ y0 y1 p 200); [|done]. by apply (reaches_step _ _ _ y0 y y1 (EStart p c)).
    + exfalso. clear -H. induction l as [|pc l IH]; [done|]. by apply IH.
  - exfalso. clear -H. induction l as [|pc l IH]; [done|]. by apply IH.
Qed.

(** ** Beginning to read ends *)

(** Whatever is answered, what the program returns satisfies [P]. *)
Fixpoint ends_with {A} (P : A -> Prop) (m : wprog A) : Prop :=
  match m with
  | WRet a => P a
  | WOp o k => forall r, ends_with P (k r)
  end.

Lemma ends_bind {A B} (P : A -> Prop) (Q : B -> Prop) (m : wprog A) (f : A -> wprog B) :
  ends_with P m -> (forall a, P a -> ends_with Q (f a)) -> ends_with Q (wbind m f).
Proof. intros Hm Hf. induction m as [a|R o k IH]; cbn [wbind ends_with] in *; [by apply Hf|]. intros r. by apply IH. Qed.

Lemma ends_any {A} (m : wprog A) : ends_with (fun _ => True) m.
Proof. induction m as [a|R o k IH]; cbn [ends_with]; [done|]. intros r. apply IH. Qed.

(** Each try counts. *)
Lemma try_counts rec w ch useWal cnt : ends_with (fun y => y.1.2 = cnt + 1 /\ (WAL_RETRY_PROTOCOL_LIMIT <= cnt -> y.1.1.1 = SQLITE_PROTOCOL))
  (walTryBeginRead rec w ch useWal cnt).
Proof.
  unfold walTryBeginRead. destruct (Z.ltb_spec 5 (cnt + 1)) as [H5|H5]; destruct (Z.ltb_spec WAL_RETRY_PROTOCOL_LIMIT (cnt + 1)) as [Hl|Hl]; cbn [andb].
  { split; [done|]. done. }
  all: assert (cnt < WAL_RETRY_PROTOCOL_LIMIT) as Hc by (unfold WAL_RETRY_PROTOCOL_LIMIT in *; lia).
  all: eapply ends_bind; [apply ends_any|]; intros _ _; destruct useWal.
  all: eapply ends_bind; [apply ends_any|].
  1, 3, 5: intros [rc w1] _; split; [done|]; cbn [fst snd]; lia.
  all: intros [[rc ch1] w1] _; destruct (negb (rc =? SQLITE_OK)); [split; [done|]; cbn [fst snd]; lia|].
  all: eapply ends_bind; [apply ends_any|]; intros [[[rc2|] rc3] w2] _; [split; [done|]; cbn [fst snd]; lia|].
  all: eapply ends_bind; [apply ends_any|]; intros [rc4 w3] _; split; [done|]; cbn [fst snd]; lia.
Qed.

Lemma begin_loop_ends rec useWal fuel w ch cnt : WAL_RETRY_PROTOCOL_LIMIT < cnt + Z.of_nat fuel -> 0 < Z.of_nat fuel ->
  ends_with (fun y => y.1.1 <> WAL_RETRY) (begin_loop rec fuel w ch useWal cnt).
Proof.
  revert w ch cnt. induction fuel as [|fuel IH]; intros w ch cnt Hf H0; [lia|]. cbn [begin_loop].
  eapply ends_bind; [apply try_counts|]. intros [[[rc ch1] cnt1] w1] [Hc Hl]. cbn [fst snd] in Hc, Hl. subst cnt1.
  destruct (Z.eqb_spec rc WAL_RETRY) as [E|E]; [|exact E]. destruct (Z.le_gt_cases WAL_RETRY_PROTOCOL_LIMIT cnt) as [Hle|Hgt].
  - rewrite (Hl Hle) in E. done.
  - apply IH; lia.
Qed.

(** C21: beginning to read never fails for want of more tries: the 101 tries there are at most are
    enough, whatever other connections do and whichever operations fail. *)
Theorem begin_ends rec w ch : ends_with (fun y => y.1.1 <> WAL_RETRY) (walBeginReadTransaction rec w ch).
Proof.
  unfold walBeginReadTransaction. refine (begin_loop_ends rec false begin_fuel w ch 0 _ _); vm_compute; reflexivity.
Qed.

(** ** Runs *)

(** The connection 0 reads the log while 1 commits again and checkpoints as far as 0 lets it. *)
Definition readers_demo : list (nat * call) :=
  [(1%nat, CBeginRead); (1%nat, CBeginWrite); (1%nat, CFrames 1024 [(2, [22])] 2 true 0); (1%nat, CEndWrite); (1%nat, CEndRead);
   (0%nat, CBeginRead); (0%nat, CReadPage 2);
   (1%nat, CBeginRead); (1%nat, CBeginWrite); (1%nat, CFrames 1024 [(1, [12]); (3, [33])] 3 true 0); (1%nat, CEndWrite); (1%nat, CEndRead);
   (1%nat, CCheckpoint SQLITE_CHECKPOINT_PASSIVE 0 1024); (0%nat, CReadPage 1); (0%nat, CReadPage 2);
   (1%nat, CBeginRead); (1%nat, CBeginWrite)].

Definition db_start : Z -> page := fun q => [q].
Definition two : list nat := [0; 1]%nat.

Definition after (l : list (nat * call)) (y : sys) : sys := default y (run_calls wal_iter two y l).
Definition sys_demo : sys := after readers_demo (sys0 h_start db_start).

Lemma after_reaches l y0 : bool_decide (is_Some (run_calls wal_iter two y0 l)) = true -> reaches wal_iter two no_recovery y0 (after l y0).
Proof.
  intros H. apply bool_decide_eq_true in H as [y H]. unfold after. rewrite H. cbn [default]. apply (run_calls_reaches _ _ y0 y0 l); [constructor|done].
Qed.

Lemma demo_reaches : reaches wal_iter two no_recovery (sys0 h_start db_start) sys_demo.
Proof. apply after_reaches. vm_compute. reflexivity. Qed.

Example demo_reads :
  (p_reads (sy_proc sys_demo 0), e_img (s_cur (sy_shm sys_demo)) 1, s_nBackfill (sy_shm sys_demo), s_db (sy_shm sys_demo) 1, s_db (sy_shm sys_demo) 2) =
  ([(2, [22]); (1, [1]); (2, [22])], [12], 1, [1], [22]).
Proof. vm_compute. reflexivity. Qed.



(** The connection 1 goes on: it writes page 2 twice before it commits that and a new page 4. *)
Definition commit_demo : list (nat * call) :=
  [(1%nat, CFrames 1024 [(2, [50]); (3, [51])] 0 false 0); (1%nat, CFrames 1024 [(2, [52])] 0 false 0);
   (1%nat, CFrames 1024 [(2, [53]); (4, [54])] 4 true 2)].

Definition sys_commit : sys := after commit_demo sys_demo.

Lemma commit_reaches : reaches wal_iter two no_recovery (sys0 h_start db_start) sys_commit.
Proof.
  unfold sys_commit, after. destruct (run_calls wal_iter two sys_demo commit_demo) as [y|] eqn:E; cbn [default]; [|exact demo_reaches].
  by apply (run_calls_reaches _ _ _ sys_demo commit_demo y demo_reaches).
Qed.

Lemma commit_is_what_was_written_witness :
  let s := sy_shm sys_commit in
  s_cur (sy_shm sys_demo) ∈ s_cur s :: s_old s /\
  forall q, 1 <= q <= nPage (s_h0 s) ->
    stored s q = match last_write [(2, [50]); (3, [51]); (2, [52]); (2, [53]); (4, [54])] q with
                 | Some d => d
                 | None => e_img (s_cur (sy_shm sys_demo)) q
                 end /\
    (nPage (e_hdr (s_cur (sy_shm sys_demo))) < q -> is_Some (last_write [(2, [50]); (3, [51]); (2, [52]); (2, [53]); (4, [54])] q)).
Proof.
  apply (commit_is_what_was_written two no_recovery h_start db_start sys_commit 1%nat);
    [reflexivity|exact commit_reaches|vm_compute; reflexivity|vm_compute; discriminate|vm_compute; reflexivity].
Defined.

Example writer_reads :
  p_reads (sy_proc (after (take 2 commit_demo ++ [(1%nat, CReadPage 1); (1%nat, CReadPage 2)]) sys_demo) 1) = [(2, [52]); (1, [12])].
Proof. vm_compute. reflexivity. Qed.

Example commit_stored : map (stored (sy_shm sys_commit)) [1; 2; 3; 4] = [[12]; [53]; [51]; [54]].
Proof. vm_compute. reflexivity. Qed.

Lemma one_writer_witness :
  s_lock (sy_shm sys_demo) 1%nat WAL_WRITE_LOCK = Exclusive /\ s_lock (sy_shm sys_demo) 0%nat WAL_WRITE_LOCK = NotHeld /\
  (p_run (sy_proc sys_demo 0) = None -> c_writeLock (p_conn (sy_proc sys_demo 0)) = 0).
Proof.
  apply (one_writer two no_recovery h_start db_start sys_demo 1%nat 0%nat);
    [reflexivity|exact demo_reaches|vm_compute; reflexivity|vm_compute; discriminate|discriminate].
Defined.

(** The connection 0 commits, copies the log into the database file, begins another commit and so
    starts the log over; its process is killed after the new header was stored, before
    [nBackfill] was. *)
Definition before_crash : list (nat * call) :=
  [(0%nat, CBeginRead); (0%nat, CBeginWrite); (0%nat, CFrames 1024 [(1, [11])] 2 true 0); (0%nat, CEndWrite); (0%nat, CEndRead);
   (0%nat, CCheckpoint SQLITE_CHECKPOINT_PASSIVE 0 1024); (0%nat, CBeginRead); (0%nat, CBeginWrite)].

Definition crash : list event := EStart 0 (CFrames 1024 [(1, [12])] 2 true 0) :: whole 0 6 ++ [EDie 0].

(** The connection 1 commits a page 1, with salts of its own for the new log, and reads it. *)
Definition after_crash : list (nat * call) := [(1%nat, CBeginRead); (1%nat, CBeginWrite)].
Definition commit_1 : list event := EStart 1 (CFrames 1024 [(1, [13])] 2 true 0) :: whole 1 1 ++ [EOp 1 (mkChoice 7 [])] ++ whole 1 14.
Definition read_again : list (nat * call) := [(1%nat, CEndWrite); (1%nat, CEndRead); (1%nat, CBeginRead); (1%nat, CReadPage 1)].

Definition crash_run : option sys :=
  let start := after before_crash (sys0 h_start db_start) in
  match run_events wal_iter two no_recovery false start crash with
  | None => None
  | Some y =>
      match run_events wal_iter two no_recovery false (after after_crash y) commit_1 with
      | None => None
      | Some y => Some (after read_again y)
      end
  end.

(** When processes may be killed between the store of the header and that of [nBackfill] in
    [walRestartHdr], a commit is lost: it is published and no connection reads it. *)
Theorem killed_restart_loses_commit :
  option_map (fun y => (p_reads (sy_proc y 1), e_img (s_cur (sy_shm y)) 1, mxFrame (s_h0 (sy_shm y)), s_nBackfill (sy_shm y))) crash_run =
  Some ([(1, [11])], [13], 1, 1).
Proof. vm_compute. reflexivity. Qed.
