(* ===== verification/Frame.v ===== *)
(** * Frame: length-prefixed messages (Response.h, Response.cpp)

[response_data] is the buffer [Response::m_data] that the constructor builds from the
dumped JSON text, [data_repr] is [Response::data_repr].  [deframe] is the protocol as the
README states it (4 bytes little-endian length, then that many bytes): it is the reference
the server's output and the socket's reader (SQLiteSocket.v) are checked against. *)

From S2P Require Import Prelude.
From stdpp Require Import options.

(** ** Response.cpp *)

(** [HeaderSize] is [uint32_t]. *)
Definition header_size : nat := 4.

(** Byte [i] of the length prefix: [static_cast<uint8_t>(size >> (8 * i) & 0xFF)]. *)
Definition header_byte (size : Z) (i : nat) : Z :=
  u8 (Z.land (Z.shiftr size (8 * Z.of_nat i)) 255).

(** The constructor's buffer: the size cast to 32 bits, its bytes, then the whole text. *)
Definition response_data (response : list Z) : list Z :=
  let size := u32 (zlen response) in
  map (header_byte size) (seq 0 header_size) ++ response.

Definition data_repr (m_data : list Z) : list Z :=
  if (length m_data <? header_size)%nat then [] else drop header_size m_data.

(** ** The protocol as documented *)

Fixpoint le_load (l : list Z) : Z :=
  match l with
  | [] => 0
  | b :: l' => Z.lor b (Z.shiftl (le_load l') 8)
  end.

(** One message off the front of a byte stream: its payload and what follows. *)
Definition deframe (s : list Z) : option (list Z * list Z) :=
  if (length s <? header_size)%nat then None
  else let n := Z.to_nat (le_load (take header_size s)) in
       let body := drop header_size s in
       if (length body <? n)%nat then None else Some (take n body, drop n body).

(** All complete messages of a stream and the incomplete rest; the fuel bounds the number of
    messages, and every message takes at least the header's bytes off the stream. *)
Fixpoint deframe_all (fuel : nat) (s : list Z) : list (list Z) * list Z :=
  match fuel with
  | O => ([], s)
  | S fuel' =>
      match deframe s with
      | None => ([], s)
      | Some (p, s') => let '(ps, rest) := deframe_all fuel' s' in (p :: ps, rest)
      end
  end.

(** ** Lemmas *)

Lemma header_byte_eq size i : 0 <= size ->
  header_byte size i = size / 2 ^ (8 * Z.of_nat i) mod 256.
Proof.
  intros H. unfold header_byte. rewrite Z.shiftr_div_pow2 by lia.
  rewrite wrapu_small; change 255 with (Z.ones 8); rewrite Z.land_ones by lia; [done|].
  apply Z.mod_pos_bound. lia.
Qed.

Lemma header_bytes_ok size : bytes_ok (map (header_byte size) (seq 0 header_size)).
Proof.
  apply List.Forall_forall. intros b Hb. apply in_map_iff in Hb as (i & <- & _).
  unfold header_byte, is_byte. apply (wrapu_range 8). lia.
Qed.

Lemma length_header size : length (map (header_byte size) (seq 0 header_size)) = header_size.
Proof. by rewrite length_map, length_seq. Qed.

Lemma lor_shift8 b x : is_byte b -> Z.lor b (Z.shiftl x 8) = b + 256 * x.
Proof.
  intros Hb. rewrite Z.shiftl_mul_pow2 by lia. change (2 ^ 8) with 256.
  rewrite Z.mul_comm. symmetry.
  rewrite Z.add_nocarry_lxor.
  2: { zbits i Hi. rewrite Z.land_spec, Z.bits_0.
       destruct (Z.ltb_spec i 8).
       - replace (256 * x) with (Z.shiftl x 8) by (rewrite Z.shiftl_mul_pow2; lia).
         rewrite (Z.shiftl_spec_low x 8 i) by lia. by rewrite andb_false_r.
       - rewrite (testbit_above b 8 i) by (unfold is_byte in *; lia). done. }
  rewrite Z.lxor_lor; [done|].
  zbits i Hi. rewrite Z.land_spec, Z.bits_0.
  destruct (Z.ltb_spec i 8).
  - replace (256 * x) with (Z.shiftl x 8) by (rewrite Z.shiftl_mul_pow2; lia).
    rewrite (Z.shiftl_spec_low x 8 i) by lia. by rewrite andb_false_r.
  - rewrite (testbit_above b 8 i) by (unfold is_byte in *; lia). done.
Qed.

Lemma le_load_header size : 0 <= size < 2 ^ 32 ->
  le_load (map (header_byte size) (seq 0 header_size)) = size.
Proof.
  intros Hs. cbn [seq header_size map le_load].
  rewrite Z.shiftl_0_l, Z.lor_0_r.
  rewrite !lor_shift8 by (unfold header_byte, is_byte; apply (wrapu_range 8); lia).
  rewrite !header_byte_eq by lia. change (Z.of_nat 0) with 0. change (Z.of_nat 1) with 1.
  change (Z.of_nat 2) with 2. change (Z.of_nat 3) with 3.
  change (2 ^ (8 * 0)) with 1. change (2 ^ (8 * 1)) with 256.
  change (2 ^ (8 * 2)) with 65536. change (2 ^ (8 * 3)) with 16777216. pow2.
  pose proof (Z.div_mod size 256). pose proof (Z.div_mod (size / 256) 256).
  pose proof (Z.div_mod (size / 256 / 256) 256).
  rewrite !Z.div_div in * by lia. rewrite Z.div_1_r.
  change (256 * 256) with 65536 in *. change (65536 * 256) with 16777216 in *.
  rewrite (Z.mod_small (size / 16777216)); [lia|].
  split; [apply Z.div_pos; lia|apply Z.div_lt_upper_bound; lia].
Qed.

Lemma take_header size s : take header_size (map (header_byte size) (seq 0 header_size) ++ s)
  = map (header_byte size) (seq 0 header_size).
Proof. by rewrite take_app_le, take_ge by (rewrite length_header; lia). Qed.

Lemma drop_header size s : drop header_size (map (header_byte size) (seq 0 header_size) ++ s) = s.
Proof. rewrite drop_app_ge by (rewrite length_header; lia). by rewrite length_header, Nat.sub_diag. Qed.

Lemma deframe_response p s : zlen p < 2 ^ 32 ->
  deframe (response_data p ++ s) = Some (p, s).
Proof.
  intros Hp. unfold deframe, response_data.
  rewrite <- app_assoc, take_header, drop_header.
  rewrite wrapu_small by (unfold zlen in *; lia).
  rewrite le_load_header by (unfold zlen in *; lia).
  rewrite length_app, length_header.
  destruct (_ <? _)%nat eqn:E; breflect; [lia|].
  unfold zlen. rewrite Nat2Z.id, length_app.
  destruct (length p + _ <? _)%nat eqn:E2; breflect; [lia|].
  by rewrite take_app_length, drop_app_length.
Qed.

Lemma deframe_responses (ps : list (list Z)) (rest : list Z) (fuel : nat) :
  Forall (fun p => zlen p < 2 ^ 32) ps -> (length ps <= fuel)%nat ->
  deframe_all fuel (concat (map response_data ps) ++ rest)
  = (ps ++ fst (deframe_all (fuel - length ps) rest), snd (deframe_all (fuel - length ps) rest)).
Proof.
  intros Hps. revert fuel. induction Hps as [|p ps Hp Hps IH]; intros fuel Hf.
  - simpl. rewrite Nat.sub_0_r. by destruct (deframe_all fuel rest).
  - destruct fuel as [|fuel]; [simpl in Hf; lia|].
    cbn [map concat deframe_all length].
    rewrite <- app_assoc, deframe_response, IH by (simpl in Hf; lia || done). done.
Qed.

(** ** Properties *)

(** What the server writes for any sequence of responses (each shorter than 2^32 bytes)
    decodes, by the documented framing, to exactly those JSON texts in that order, and whatever
    follows on the stream is left intact. *)
Theorem responses_roundtrip (ps : list (list Z)) (rest : list Z) (fuel : nat) :
  Forall (fun p => zlen p < 2 ^ 32) ps -> (length ps <= fuel)%nat ->
  deframe_all fuel (concat (map response_data ps) ++ rest)
  = (ps ++ fst (deframe_all (fuel - length ps) rest), snd (deframe_all (fuel - length ps) rest)).
Proof. apply deframe_responses. Qed.

Lemma responses_roundtrip_witness :
  Forall (fun p => zlen p < 2 ^ 32) [bytes_of_string "{}"; bytes_of_string "[1]"] /\
  deframe_all 3 (concat (map response_data [bytes_of_string "{}"; bytes_of_string "[1]"]) ++ [7])
  = ([bytes_of_string "{}"; bytes_of_string "[1]"], [7]).
Proof.
  split; [repeat constructor|].
  apply (responses_roundtrip [bytes_of_string "{}"; bytes_of_string "[1]"] [7] 3);
    [repeat constructor|simpl; lia].
Defined.

(** a response's buffer is always its 4 header bytes followed by the whole text, every
    header byte is a byte, [data_repr] gives the text back, and the header announces the length
    modulo 2^32 (so the frame is self-consistent exactly when the text is shorter than 2^32). *)
Theorem response_layout (p : list Z) :
  length (response_data p) = (4 + length p)%nat
  /\ data_repr (response_data p) = p
  /\ (bytes_ok p -> bytes_ok (response_data p))
  /\ le_load (take 4 (response_data p)) = zlen p mod 2 ^ 32
  /\ (le_load (take 4 (response_data p)) = zlen p <-> zlen p < 2 ^ 32).
Proof.
  assert (le_load (take 4 (response_data p)) = zlen p mod 2 ^ 32) as Hl.
  { unfold response_data. change 4%nat with header_size.
    rewrite take_header, le_load_header by (apply wrapu_range; lia). done. }
  split_and!.
  - unfold response_data. by rewrite length_app, length_header.
  - unfold data_repr, response_data. rewrite length_app, length_header.
    destruct (_ <? _)%nat eqn:E; breflect; [unfold header_size in E; lia|]. apply drop_header.
  - intros Hp. apply Forall_app; split; [apply header_bytes_ok|done].
  - done.
  - rewrite Hl. split; intros H.
    + rewrite <- H. apply Z.mod_pos_bound. lia.
    + apply Z.mod_small. pose proof (zlen_nonneg p). lia.
Qed.
