(* ===== verification/SQLiteSocket.v ===== *)
(** * SQLiteSocket: one client connection (SQLiteSocket.h, SQLiteSocket.cpp)

A connection is a state machine driven by the completions of its asynchronous operations.
[conn] holds the members of the class and what Boost.Asio holds for it: the bytes received
and not read yet, which read is outstanding, whether a write is outstanding and the buffers
writes were started for.  The completion handlers of [do_read] and [do_write] are the
definitions [header_done], [body_done] and [write_done]; [conn_step] says when each may run
(an [async_read] of n bytes completes without error only with all n bytes).

[Socket] treats a completion handler as one atomic step, which is what a single worker
thread gives.  [Race] splits the two handlers that touch [m_out_packets] into their separate
accesses, because with several workers nothing orders them. *)

From S2P Require Import Prelude Frame.
From stdpp Require Import options.

(** Byte order of the host: the reader stores the 4 header bytes straight into a [uint32_t]. *)
Inductive endian := Little | Big.

Definition load32 (e : endian) (b : list Z) : Z :=
  match e with Little => le_load b | Big => le_load (rev b) end.

(** [std::string::resize]. *)
Definition str_resize (n : nat) (l : list Z) : list Z :=
  take n l ++ replicate (n - length l) 0.

Inductive pending := NoRead | ReadHeader | ReadBody.

#[export] Instance pending_eq_dec : EqDecision pending.
Proof. solve_decision. Defined.

Module Socket.
Section Socket.
(** What the handler works on (its own members and the world outside the connection), and
    [IRequestHandler::handle_request] followed by [IResponse::data]: [None] when an exception
    leaves it. *)
Context {S : Type} (handle_request : S -> list Z -> option (list Z * S)).
Context (client_max_packet_size : Z) (host : endian).

Record conn := mkConn {
  in_buf : list Z;                (* received, not yet read *)
  reading : pending;              (* the outstanding async_read *)
  m_packet_size : Z;
  m_request : list Z;
  m_out_packets : list (list Z);
  writing : bool;                 (* an async_write is outstanding *)
  started : list (list Z);        (* buffers handed to async_write, oldest first *)
  is_open : bool;
  st : S;
  terminated : bool;              (* an exception left a completion handler *)
  handled : list (list Z);        (* requests given to the handler *)
  produced : list (list Z)        (* responses it gave back *)
}.

Definition set_queue (q : list (list Z)) (w : bool) (s : list (list Z)) (c : conn) : conn :=
  mkConn (in_buf c) (reading c) (m_packet_size c) (m_request c) q w s (is_open c) (st c)
         (terminated c) (handled c) (produced c).

Definition set_read (buf : list Z) (r : pending) (ps : Z) (rq : list Z) (o : bool) (c : conn)
  : conn :=
  mkConn buf r ps rq (m_out_packets c) (writing c) (started c) o (st c)
         (terminated c) (handled c) (produced c).

Definition set_handler (s : S) (t : bool) (h p : list (list Z)) (c : conn) : conn :=
  mkConn (in_buf c) (reading c) (m_packet_size c) (m_request c) (m_out_packets c) (writing c)
         (started c) (is_open c) s t h p.

(** The constructor, then [do_read] from [ListenSocket]. *)
Definition conn_init (s : S) : conn :=
  mkConn [] ReadHeader 0 [] [] false [] true s false [] [].

Definition do_read (c : conn) : conn :=
  set_read (in_buf c) ReadHeader (m_packet_size c) (m_request c) (is_open c) c.

(** [async_write] of the given response's buffer. *)
Definition do_write (response : list Z) (c : conn) : conn :=
  set_queue (m_out_packets c) true (started c ++ [response]) c.

Definition send_response (response : list Z) (c : conn) : conn :=
  let write_in_progress := negb (bool_decide (m_out_packets c = [])) in
  let c1 := set_queue (m_out_packets c ++ [response]) (writing c) (started c) c in
  if write_in_progress then c1
  else match m_out_packets c1 with
       | front :: _ => do_write front c1
       | [] => c1
       end.

(** Completion of the header read. *)
Definition header_done (ec : bool) (c : conn) : conn :=
  if ec then set_read (in_buf c) NoRead (m_packet_size c) (m_request c) (is_open c) c
  else
    let ps := load32 host (take header_size (in_buf c)) in
    let buf := drop header_size (in_buf c) in
    if client_max_packet_size <? ps
    then set_read buf NoRead ps (m_request c) false c
    else set_read buf ReadBody ps (str_resize (Z.to_nat ps) (m_request c)) (is_open c) c.

(** Completion of the body read. *)
Definition body_done (ec : bool) (c : conn) : conn :=
  if ec then set_read (in_buf c) NoRead (m_packet_size c) (m_request c) (is_open c) c
  else
    let n := length (m_request c) in
    let rq := take n (in_buf c) in
    let c1 := set_read (drop n (in_buf c)) NoRead (m_packet_size c) rq (is_open c) c in
    match handle_request (st c) rq with
    | None => set_handler (st c) true (handled c ++ [rq]) (produced c) c1
    | Some (resp, s') =>
        do_read (send_response resp
                   (set_handler s' false (handled c ++ [rq]) (produced c ++ [resp]) c1))
    end.

(** Completion of the outstanding write. *)
Definition write_done (ec : bool) (c : conn) : conn :=
  if ec then set_queue (m_out_packets c) false (started c) c
  else
    let q := tail (m_out_packets c) in
    let c1 := set_queue q false (started c) c in
    match q with
    | front :: _ => do_write front c1
    | [] => c1
    end.

Inductive event :=
  | Recv (bs : list Z)
  | HeaderDone (ec : bool)
  | BodyDone (ec : bool)
  | WriteDone (ec : bool).

(** [None]: the event cannot happen in this state. *)
Definition conn_step (c : conn) (e : event) : option conn :=
  if terminated c then None else
  match e with
  | Recv bs =>
      Some (set_read (in_buf c ++ bs) (reading c) (m_packet_size c) (m_request c) (is_open c) c)
  | HeaderDone ec =>
      if decide (reading c = ReadHeader) then
        if ec || (header_size <=? length (in_buf c))%nat then Some (header_done ec c) else None
      else None
  | BodyDone ec =>
      if decide (reading c = ReadBody) then
        if ec || (length (m_request c) <=? length (in_buf c))%nat
        then Some (body_done ec c) else None
      else None
  | WriteDone ec => if writing c then Some (write_done ec c) else None
  end.

Fixpoint run (c : conn) (es : list event) : option conn :=
  match es with
  | [] => Some c
  | e :: es' => match conn_step c e with Some c' => run c' es' | None => None end
  end.

(** The bytes the peer sent along a trace. *)
Definition received (es : list event) : list Z :=
  concat (map (fun e => match e with Recv bs => bs | _ => [] end) es).

Definition no_read_error (e : event) : Prop :=
  match e with HeaderDone ec | BodyDone ec => ec = false | _ => True end.

Definition no_write_error (e : event) : Prop :=
  match e with WriteDone ec => ec = false | _ => True end.

(** No read completion can happen until more bytes arrive. *)
Definition quiescent (c : conn) : Prop :=
  conn_step c (HeaderDone false) = None /\ conn_step c (BodyDone false) = None.

(** ** Specification of the reader: what a byte stream asks for *)

(** The requests of a stream, and whether the stream was cut by an oversized announcement. *)
Fixpoint requests (fuel : nat) (s : list Z) : list (list Z) * bool :=
  match fuel with
  | O => ([], false)
  | Datatypes.S fuel' =>
      if (length s <? header_size)%nat then ([], false)
      else
        let n := load32 host (take header_size s) in
        if client_max_packet_size <? n then ([], true)
        else if (length (drop header_size s) <? Z.to_nat n)%nat then ([], false)
        else
          let '(ps, over) := requests fuel' (drop (Z.to_nat n) (drop header_size s)) in
          (take (Z.to_nat n) (drop header_size s) :: ps, over)
  end.

Definition requests_of (s : list Z) : list (list Z) * bool :=
  requests (Datatypes.S (length s)) s.

#[local] Arguments header_done : simpl never.
#[local] Arguments body_done : simpl never.
#[local] Arguments write_done : simpl never.

(** ** Lemmas: the reader *)

Lemma requests_fuel f1 f2 s :
  (length s < f1)%nat -> (length s < f2)%nat -> requests f1 s = requests f2 s.
Proof.
  revert f2 s. induction f1 as [|f1 IH]; intros [|f2] s H1 H2; cbn [requests]; try lia.
  do 3 (case_if; [done|]).
  by rewrite (IH f2) by (rewrite !length_drop; unfold header_size in *; lia).
Qed.

Lemma requests_of_short s : (length s < header_size)%nat -> requests_of s = ([], false).
Proof.
  intros H. unfold requests_of. simpl. case_if; [done|lia].
Qed.

(** A complete message at the front of the stream is the first request. *)
Lemma requests_of_message h b rest :
  length h = header_size -> load32 host h <= client_max_packet_size ->
  length b = Z.to_nat (load32 host h) ->
  requests_of (h ++ b ++ rest)
  = (b :: fst (requests_of rest), snd (requests_of rest)).
Proof.
  intros Hh Hm Hb. unfold requests_of at 1. cbn [requests].
  rewrite take_app_le, take_ge by lia.
  rewrite drop_app_ge by lia. rewrite Hh, Nat.sub_diag, drop_0.
  rewrite length_app, Hh. case_if; [lia|].
  case_if; [lia|]. rewrite length_app. case_if; [lia|].
  rewrite <- Hb, take_app_length, drop_app_length.
  rewrite (requests_fuel _ (Datatypes.S (length rest)))
    by (rewrite ?length_app; unfold header_size in *; lia).
  unfold requests_of. by destruct (requests _ rest).
Qed.

Lemma requests_of_oversized h rest :
  length h = header_size -> client_max_packet_size < load32 host h ->
  requests_of (h ++ rest) = ([], true).
Proof.
  intros Hh Hm. unfold requests_of. cbn [requests].
  rewrite take_app_le, take_ge by lia.
  rewrite length_app, Hh. case_if; [lia|]. case_if; [done|lia].
Qed.

Lemma requests_of_incomplete h rest :
  length h = header_size -> load32 host h <= client_max_packet_size ->
  (length rest < Z.to_nat (load32 host h))%nat ->
  requests_of (h ++ rest) = ([], false).
Proof.
  intros Hh Hm Hl. unfold requests_of. cbn [requests].
  rewrite take_app_le, take_ge by lia. rewrite drop_app_ge by lia.
  rewrite length_app, Hh, Nat.sub_diag, drop_0.
  case_if; [lia|]. case_if; [lia|]. case_if; [done|lia].
Qed.

(** What the connection consumed of the stream [s] so far: whatever follows, the requests of
    the whole stream are those handled, then those of the unread part. *)
Definition consumed (s : list Z) (c : conn) (unread : list Z) : Prop :=
  forall x, requests_of (s ++ x)
    = (handled c ++ fst (requests_of (unread ++ x)), snd (requests_of (unread ++ x))).

Definition reader_inv (s : list Z) (c : conn) : Prop :=
  match reading c with
  | ReadHeader => is_open c = true /\ consumed s c (in_buf c)
  | ReadBody =>
      is_open c = true
      /\ exists h, length h = header_size /\ load32 host h <= client_max_packet_size
         /\ length (m_request c) = Z.to_nat (load32 host h)
         /\ consumed s c (h ++ in_buf c)
  | NoRead =>
      (exists h, is_open c = false /\ length h = header_size
         /\ client_max_packet_size < load32 host h /\ consumed s c (h ++ in_buf c))
      \/ (terminated c = true /\ consumed s c (in_buf c))
  end.

Lemma consumed_recv s c c' u bs :
  handled c' = handled c -> consumed s c u -> consumed (s ++ bs) c' (u ++ bs).
Proof. intros Hh H x. rewrite <- !app_assoc, Hh. apply H. Qed.

Lemma consumed_request s c c' h b rest :
  length h = header_size -> load32 host h <= client_max_packet_size ->
  length b = Z.to_nat (load32 host h) -> handled c' = handled c ++ [b] ->
  consumed s c (h ++ b ++ rest) -> consumed s c' rest.
Proof.
  intros ? ? ? Hh H x. rewrite (H x), Hh, <- !app_assoc.
  by rewrite requests_of_message.
Qed.

Lemma length_str_resize n l : length (str_resize n l) = n.
Proof. unfold str_resize. rewrite length_app, length_take, length_replicate. lia. Qed.

Lemma send_response_reader resp c :
  in_buf (send_response resp c) = in_buf c /\ is_open (send_response resp c) = is_open c
  /\ handled (send_response resp c) = handled c
  /\ terminated (send_response resp c) = terminated c.
Proof. unfold send_response. repeat case_match; done. Qed.

Lemma write_done_reader ec c s : reader_inv s c -> reader_inv s (write_done ec c).
Proof. unfold write_done, do_write. destruct ec; [exact id|]. case_match; exact id. Qed.

Lemma header_done_inv s c :
  reading c = ReadHeader -> (header_size <= length (in_buf c))%nat ->
  reader_inv s c -> reader_inv s (header_done false c).
Proof.
  intros Hr Hl. unfold reader_inv at 1. rewrite Hr. intros [Ho Hc].
  unfold header_done. case_if; unfold reader_inv; simpl.
  - left. exists (take header_size (in_buf c)). rewrite take_drop, length_take. auto with lia.
  - split; [done|]. exists (take header_size (in_buf c)).
    rewrite take_drop, length_take, length_str_resize. auto with lia.
Qed.

Lemma body_done_inv s c :
  reading c = ReadBody -> (length (m_request c) <= length (in_buf c))%nat ->
  reader_inv s c -> reader_inv s (body_done false c).
Proof.
  intros Hr Hl. unfold reader_inv at 1. rewrite Hr. intros (Ho & h & Hh & Hm & Hn & Hc).
  unfold body_done.
  rewrite <- (take_drop (length (m_request c)) (in_buf c)) in Hc.
  assert (length (take (length (m_request c)) (in_buf c)) = Z.to_nat (load32 host h))
    by (rewrite length_take; lia).
  destruct (handle_request _ _) as [[resp s']|]; unfold reader_inv; simpl.
  - unfold do_read; simpl.
    match goal with |- context [send_response resp ?d] =>
      destruct (send_response_reader resp d) as (Hb & Ho' & Hha & _) end.
    split; [by rewrite Ho'|]. rewrite Hb. simpl.
    eapply consumed_request; [..|exact Hc]; done.
  - right. split; [done|]. eapply consumed_request; [..|exact Hc]; done.
Qed.

Lemma conn_step_inv s c e c' :
  no_read_error e -> conn_step c e = Some c' -> reader_inv s c ->
  reader_inv (s ++ received [e]) c'.
Proof.
  unfold conn_step. intros He Hs Hi.
  destruct (terminated c) eqn:Ht; [done|].
  destruct e as [bs|ec|ec|ec]; unfold received; cbn [map concat no_read_error] in *;
    rewrite ?app_nil_r; subst; cbn [orb] in *.
  - simplify_eq. unfold reader_inv in *; simpl in *. destruct (reading c).
    + destruct Hi as [(h & ? & ? & ? & Hc)|[? ?]]; [|congruence].
      left. exists h. rewrite app_assoc. split_and!; auto. by apply (consumed_recv s c).
    + destruct Hi as [? Hc]. split; [done|]. by apply (consumed_recv s c).
    + destruct Hi as (? & h & ? & ? & ? & Hc). split; [done|]. exists h.
      rewrite app_assoc. split_and!; auto. by apply (consumed_recv s c).
  - do 2 (case_if_in Hs; simplify_eq). by apply header_done_inv.
  - do 2 (case_if_in Hs; simplify_eq). by apply body_done_inv.
  - case_if_in Hs; simplify_eq. by apply write_done_reader.
Qed.

Lemma received_app es1 es2 : received (es1 ++ es2) = received es1 ++ received es2.
Proof. unfold received. by rewrite map_app, concat_app. Qed.

Lemma run_inv s c es c' :
  Forall no_read_error es -> run c es = Some c' -> reader_inv s c ->
  reader_inv (s ++ received es) c'.
Proof.
  revert s c. induction es as [|e es IH]; intros s c He Hr Hi; simpl in Hr.
  - simplify_eq. unfold received; simpl. by rewrite app_nil_r.
  - inversion He; subst. case_match; [|done].
    change (e :: es) with ([e] ++ es). rewrite received_app, app_assoc.
    eapply IH; eauto using conn_step_inv.
Qed.

Lemma conn_init_inv s0 : reader_inv [] (conn_init s0).
Proof.
  unfold reader_inv, consumed; simpl. split; [done|]. intros x.
  by destruct (requests_of x).
Qed.

Lemma quiescent_short c : quiescent c -> terminated c = false ->
  (reading c = ReadHeader -> (length (in_buf c) < header_size)%nat)
  /\ (reading c = ReadBody -> (length (in_buf c) < length (m_request c))%nat).
Proof.
  intros [H1 H2] Ht. unfold conn_step in H1, H2. rewrite Ht in H1, H2.
  cbn [orb] in *. split; intros Hr; rewrite decide_True in * by done;
    [clear H2|clear H1]; case_if_in H1 || case_if_in H2; done.
Qed.

Lemma reader_quiescent (s0 : S) (es : list event) (c : conn) :
  run (conn_init s0) es = Some c -> Forall no_read_error es ->
  quiescent c -> terminated c = false ->
  (handled c, negb (is_open c)) = requests_of (received es).
Proof.
  intros Hr He Hq Ht. destruct (quiescent_short c Hq Ht) as [Hh1 Hb1].
  pose proof (run_inv [] _ es c He Hr (conn_init_inv s0)) as Hi. cbn [app] in Hi.
  assert (forall u o, consumed (received es) c u -> requests_of u = ([], o) ->
    is_open c = negb o -> (handled c, negb (is_open c)) = requests_of (received es)) as Hend.
  { intros u o Hc Hu Ho. specialize (Hc []). rewrite !app_nil_r, Hu in Hc.
    rewrite Hc, Ho; simpl. by rewrite app_nil_r, negb_involutive. }
  unfold reader_inv in Hi. destruct (reading c) eqn:Hrd.
  - destruct Hi as [(h & Ho & Hh & Hm & Hc)|[? _]]; [|congruence].
    apply (Hend _ true Hc); [|done]. by apply requests_of_oversized.
  - destruct Hi as [Ho Hc].
    apply (Hend _ false Hc); [|done]. by apply requests_of_short, Hh1.
  - destruct Hi as (Ho & h & Hh & Hm & Hn & Hc).
    apply (Hend _ false Hc); [|done].
    apply requests_of_incomplete; [done|done|]. rewrite <- Hn. by apply Hb1.
Qed.

Lemma handled_requests (s0 : S) (es : list event) (c : conn) :
  run (conn_init s0) es = Some c -> Forall no_read_error es ->
  quiescent c -> terminated c = false ->
  handled c = fst (requests_of (received es)).
Proof. intros. by rewrite <- (reader_quiescent s0 es c). Qed.

(** C9: the requests a connection hands to its handler are exactly the messages of the byte
    stream it received, whatever the chunks it arrived in and whatever happens to the writes:
    once no read can complete and no handler has thrown, every complete message within the
    packet limit was handled, in order, and the socket was closed iff a header announced more
    than [client_max_packet_size] (that message and all after it are never handled). *)
Theorem reads_are_the_stream (s0 : S) (es : list event) (c : conn) :
  run (conn_init s0) es = Some c -> Forall no_read_error es ->
  quiescent c -> terminated c = false ->
  (handled c, negb (is_open c)) = requests_of (received es).
Proof. apply reader_quiescent. Qed.

(** ** Lemmas: the writer *)

Definition writer_inv (c : conn) : Prop :=
  started c ++ tail (m_out_packets c) = produced c
  /\ (writing c = true <-> m_out_packets c <> []).

Lemma conn_step_writer c e c' :
  no_write_error e -> conn_step c e = Some c' -> writer_inv c -> writer_inv c'.
Proof.
  unfold conn_step. intros He Hs Hi. destruct (terminated c); [done|].
  destruct e as [bs|ec|ec|ec]; cbn [no_write_error] in *; subst; simplify_eq.
  - exact Hi.
  - do 2 (case_if_in Hs; simplify_eq). unfold header_done. repeat case_if; exact Hi.
  - do 2 (case_if_in Hs; simplify_eq). unfold body_done.
    case_if; [exact Hi|]. destruct (handle_request _ _) as [[resp s']|]; [|exact Hi].
    match goal with |- context [send_response resp ?d] => set (d' := d) end.
    assert (writer_inv (set_handler (st c) (terminated c) (handled c) (produced c) d')) as Hi'
      by exact Hi.
    destruct Hi' as [Hp Hw]. unfold send_response, do_read, writer_inv; simpl in *.
    destruct (m_out_packets c) as [|q0 q] eqn:Hq; simpl in *.
    + rewrite app_nil_r in Hp. by rewrite app_nil_r, Hp.
    + rewrite <- Hp, app_assoc. split; [done|]. split; [done|]. intros _. by apply Hw.
  - case_if_in Hs; simplify_eq. destruct Hi as [Hp Hw].
    unfold write_done, do_write, writer_inv; simpl.
    destruct (m_out_packets c) as [|q0 [|q1 q]] eqn:Hq; simpl in *;
      rewrite <- ?app_assoc; rewrite ?app_nil_r in *; by (split; [done|split; done]).
Qed.

Lemma run_writer c es c' :
  Forall no_write_error es -> run c es = Some c' -> writer_inv c -> writer_inv c'.
Proof.
  intros He. revert c. induction He as [|e es He _ IH]; intros c Hr Hi; simpl in Hr.
  - by simplify_eq.
  - destruct (conn_step c e) eqn:E; [|done]. eauto using conn_step_writer.
Qed.



(** After a failed write the connection keeps reading and answering requests but never
    starts another write: every later response stays in the queue. *)
Theorem failed_write_silences (c c' c2 : conn) (es : list event) :
  conn_step c (WriteDone true) = Some c' -> m_out_packets c <> [] -> run c' es = Some c2 ->
  started c2 = started c /\ writing c2 = false /\ m_out_packets c `prefix_of` m_out_packets c2.
Proof.
  intros Hs Hq Hr.
  assert (writing c' = false /\ started c' = started c /\ m_out_packets c' = m_out_packets c)
    as (Hw & Hst & Hq').
  { unfold conn_step in Hs. repeat case_if_in Hs; simplify_eq. done. }
  assert (m_out_packets c `prefix_of` m_out_packets c') as Hpre by (by rewrite Hq').
  clear Hs Hq'. revert c' Hw Hst Hpre Hr.
  induction es as [|e es IH]; intros c' Hw Hst Hpre Hr; simpl in Hr; [by simplify_eq|].
  destruct (conn_step c' e) as [d|] eqn:E; [|done].
  assert (writing d = false /\ started d = started c /\ m_out_packets c `prefix_of` m_out_packets d)
    as (? & ? & ?); [|by apply (IH d)].
  unfold conn_step in E. destruct (terminated c'); [done|]. destruct e; simplify_eq.
  - done.
  - do 2 (case_if_in E; simplify_eq). unfold header_done. repeat case_if; done.
  - do 2 (case_if_in E; simplify_eq). unfold body_done. case_if; [done|].
    destruct (handle_request _ _) as [[resp s']|]; [|done].
    unfold send_response, do_read; simpl.
    rewrite bool_decide_eq_false_2; simpl.
    + split_and!; try done. by apply prefix_app_r.
    + intros Hn. rewrite Hn in Hpre. by apply prefix_nil_inv in Hpre.
  - by rewrite Hw in E.
Qed.

(** ** Lemmas: what the handler computed *)

(** The handler run over a list of requests, one after the other. *)
Fixpoint answers (s : S) (reqs : list (list Z)) : option (list (list Z) * S) :=
  match reqs with
  | [] => Some ([], s)
  | r :: rs =>
      match handle_request s r with
      | None => None
      | Some (resp, s1) =>
          match answers s1 rs with
          | Some (resps, s2) => Some (resp :: resps, s2)
          | None => None
          end
      end
  end.

Lemma answers_snoc s reqs r resps s1 resp s2 :
  answers s reqs = Some (resps, s1) -> handle_request s1 r = Some (resp, s2) ->
  answers s (reqs ++ [r]) = Some (resps ++ [resp], s2).
Proof.
  revert s resps. induction reqs as [|q reqs IH]; intros s resps Ha Hh; simpl in *.
  - simplify_eq. by rewrite Hh.
  - destruct (handle_request s q) as [[x sx]|]; [|done].
    destruct (answers sx reqs) as [[xs sy]|] eqn:E; [|done]. simplify_eq.
    by rewrite (IH _ _ E Hh).
Qed.

Lemma conn_step_answers s0 c e c' :
  conn_step c e = Some c' -> terminated c' = false ->
  answers s0 (handled c) = Some (produced c, st c) ->
  answers s0 (handled c') = Some (produced c', st c').
Proof.
  unfold conn_step. intros Hs Ht Ha. destruct (terminated c) eqn:Htc; [done|].
  destruct e as [bs|ec|ec|ec]; simplify_eq.
  - exact Ha.
  - do 2 (case_if_in Hs; simplify_eq); unfold header_done; repeat case_if; exact Ha.
  - do 2 (case_if_in Hs; simplify_eq). revert Ht. unfold body_done.
    destruct ec; [intros; exact Ha|].
    destruct (handle_request (st c) _) as [[resp s']|] eqn:Hh; [|done]. intros _.
    pose proof (answers_snoc _ _ _ _ _ _ _ Ha Hh) as Hn.
    unfold send_response, do_read; simpl. repeat case_match; exact Hn.
  - case_if_in Hs; simplify_eq. unfold write_done, do_write.
    destruct ec; [exact Ha|]. case_match; exact Ha.
Qed.

Lemma conn_step_alive c e c' : conn_step c e = Some c' -> terminated c = false.
Proof. unfold conn_step. by destruct (terminated c). Qed.

Lemma run_alive c es c' : run c es = Some c' -> terminated c' = false -> terminated c = false.
Proof.
  destruct es as [|e es]; simpl; intros H Ht; [by simplify_eq|].
  destruct (conn_step c e) as [d|] eqn:E; [|done]. by eapply conn_step_alive.
Qed.

Lemma run_answers s0 c es c' :
  run c es = Some c' -> terminated c' = false ->
  answers s0 (handled c) = Some (produced c, st c) ->
  answers s0 (handled c') = Some (produced c', st c').
Proof.
  revert c. induction es as [|e es IH]; intros c H Ht Ha; simpl in H; [by simplify_eq|].
  destruct (conn_step c e) as [d|] eqn:E; [|done].
  eapply IH; [done|done|]. eapply conn_step_answers; [done|by eapply run_alive|done].
Qed.
End Socket.
End Socket.

(** ** The two handlers that share [m_out_packets], access by access

[send_response] (run by the body-read completion) and the write completion of [do_write] are
not ordered by a strand: with more than one worker thread they can run at the same time. *)
Module Race.
(** [send_response]: before the test, after reading [!m_out_packets.empty()], after the push. *)
Inductive rpc := RStart | RTested (write_in_progress : bool) | RPushed (write_in_progress : bool) | RDone.

(** The write completion: before the pop, after it, after the test for emptiness. *)
Inductive wpc := WStart | WPopped | WTested (more : bool) | WDone.

Record state := mkState {
  queue : list (list Z);
  writes : list (list Z);     (* buffers an async_write was started for *)
  r_pc : rpc;
  w_pc : wpc
}.

Definition start_write (s : state) : list (list Z) :=
  match queue s with front :: _ => writes s ++ [front] | [] => writes s end.

(** One access of the thread running [send_response response]. *)
Definition r_step (response : list Z) (s : state) : option state :=
  match r_pc s with
  | RStart => Some (mkState (queue s) (writes s)
                      (RTested (negb (bool_decide (queue s = [])))) (w_pc s))
  | RTested w => Some (mkState (queue s ++ [response]) (writes s) (RPushed w) (w_pc s))
  | RPushed w => Some (mkState (queue s) (if w then writes s else start_write s) RDone (w_pc s))
  | RDone => None
  end.

(** One access of the thread running the write completion. *)
Definition w_step (s : state) : option state :=
  match w_pc s with
  | WStart => Some (mkState (tail (queue s)) (writes s) (r_pc s) WPopped)
  | WPopped => Some (mkState (queue s) (writes s) (r_pc s)
                       (WTested (negb (bool_decide (queue s = [])))))
  | WTested more => Some (mkState (queue s) (if more then start_write s else writes s) (r_pc s) WDone)
  | WDone => None
  end.

Inductive step (response : list Z) : state -> state -> Prop :=
  | step_reader s s' : r_step response s = Some s' -> step response s s'
  | step_writer s s' : w_step s = Some s' -> step response s s'.

(** The first response [a] has been sent and its completion is about to run while the next
    request has just been answered. *)
Definition start (a : list Z) : state := mkState [a] [a] RStart WStart.

Definition run_reader (b : list Z) (s : state) : option state :=
  s1 ← r_step b s; s2 ← r_step b s1; r_step b s2.

Definition run_writer (s : state) : option state := s1 ← w_step s; s2 ← w_step s1; w_step s2.

(** C12: run one after the other, in either order, the two handlers start the write of the
    second response exactly once; interleaved, one schedule leaves that response in the queue
    with no write started for it (it is never sent), and another starts its write twice. *)
Theorem unordered_handlers_race (a b : list Z) :
  ((s ← run_reader b (start a); run_writer s) = Some (mkState [b] [a; b] RDone WDone)
   /\ (s ← run_writer (start a); run_reader b s) = Some (mkState [b] [a; b] RDone WDone))
  /\ rtc (step b) (start a) (mkState [b] [a] RDone WDone)
  /\ rtc (step b) (start a) (mkState [b] [a; b; b] RDone WDone).
Proof.
  split; [done|]. split.
  - apply rtc_l with (mkState [a] [a] (RTested true) WStart); [by apply step_reader|].
    apply rtc_l with (mkState [] [a] (RTested true) WPopped); [by apply step_writer|].
    apply rtc_l with (mkState [] [a] (RTested true) (WTested false)); [by apply step_writer|].
    apply rtc_l with (mkState [] [a] (RTested true) WDone); [by apply step_writer|].
    apply rtc_l with (mkState [b] [a] (RPushed true) WDone); [by apply step_reader|].
    apply rtc_once. by apply step_reader.
  - apply rtc_l with (mkState [] [a] RStart WPopped); [by apply step_writer|].
    apply rtc_l with (mkState [] [a] (RTested false) WPopped); [by apply step_reader|].
    apply rtc_l with (mkState [b] [a] (RPushed false) WPopped); [by apply step_reader|].
    apply rtc_l with (mkState [b] [a] (RPushed false) (WTested true)); [by apply step_writer|].
    apply rtc_l with (mkState [b] [a; b] (RPushed false) WDone); [by apply step_writer|].
    apply rtc_once. by apply step_reader.
Qed.
End Race.

(** ** Witnesses *)

Module Witness.
(** A handler that echoes and counts. *)
Definition echo (n : nat) (r : list Z) : option (list Z * nat) := Some (r, S n).

Definition trace : list Socket.event :=
  [Socket.Recv [1; 0; 0]; Socket.Recv [0; 9; 2; 0; 0; 0; 5]; Socket.HeaderDone false;
   Socket.BodyDone false; Socket.WriteDone false; Socket.HeaderDone false;
   Socket.Recv [6; 77; 1; 0; 0]; Socket.BodyDone false; Socket.HeaderDone false].

Definition final : Socket.conn := Eval vm_compute in
  default (Socket.conn_init 0%nat) (Socket.run echo 100 Little (Socket.conn_init 0%nat) trace).
End Witness.

Lemma reads_are_the_stream_witness :
  Socket.run Witness.echo 100 Little (Socket.conn_init 0%nat) Witness.trace = Some Witness.final
  /\ Socket.handled Witness.final = [[9]; [5; 6]]
  /\ (Socket.handled Witness.final, negb (Socket.is_open Witness.final))
     = Socket.requests_of 100 Little (Socket.received Witness.trace).
Proof.
  split; [reflexivity|]. split; [reflexivity|].
  apply (Socket.reads_are_the_stream Witness.echo 100 Little 0%nat Witness.trace Witness.final).
  - reflexivity.
  - repeat constructor.
  - split; reflexivity.
  - reflexivity.
Defined.


Lemma failed_write_silences_witness :
  exists c' c2 : @Socket.conn nat, Socket.conn_step Witness.echo 100 Little Witness.final (Socket.WriteDone true) = Some c'
    /\ Socket.started c2 = Socket.started Witness.final.
Proof.
  eexists _, _. split; [reflexivity|].
  refine (proj1 (Socket.failed_write_silences Witness.echo 100 Little Witness.final _ _
    [Socket.Recv [1]] _ _ _)); [reflexivity|discriminate|reflexivity].
Defined.
