(* ===== verification/External.v ===== *)
(** * External: what the server calls and this repository does not contain

nlohmann/json, Boost.Filesystem, Boost.Regex and Boost's string algorithms are downloaded by
the build.  Each is a type class of operations the server's definitions take as a parameter;
the laws the theorems rely on are separate classes that restate the libraries' documentation.
[Concrete] gives executable instances that satisfy the laws, for the witnesses. *)

From S2P Require Import Prelude.
From stdpp Require Import options.

(** ** nlohmann::json *)

(** What [json::parse(s)] throws on a text it does not accept. *)
Inductive parse_failure :=
  | ParseError (what : string)          (* nlohmann::detail::parse_error *)
  | ParseOutOfRange (what : string).    (* out_of_range.406: a number too large for a double *)

Class JsonLib (double : Type) := {
  json : Type;
  parse : string -> parse_failure + json;   (* json::parse(s); discarded when it would throw *)
  dump : json -> option string;             (* None: type_error.316, a string is not UTF-8 *)
  find : json -> string -> option json;     (* find(key), None when it is end() *)
  as_string : json -> option string;        (* get<string>(), None: type_error.302 *)
  as_uint : Z -> json -> option Z;          (* get<uintN_t>() for N bits, None: type_error.302 *)
  is_number_unsigned : json -> bool;
  as_array : json -> option (list json);    (* the elements, None unless is_array() *)
  j_null : json;
  j_int : Z -> json;
  j_real : double -> json;
  j_str : string -> json;
  j_arr : list json -> json;
  j_obj : gmap string json -> json
}.

Arguments json {double} JsonLib.

(** [is_string()] holds exactly when [get<string>()] does not throw. *)
Definition is_string {double} {J : JsonLib double} (j : json J) : bool :=
  match as_string j with Some _ => true | None => false end.

Class JsonLaws {double} (J : JsonLib double) : Prop := {
  find_obj m k : find (j_obj m) k = m !! k;
  as_string_str s : as_string (j_str s) = Some s;
  as_string_int z : as_string (j_int z) = None
}.

(** ** Boost.Filesystem: [W] is the state of the file system (and of everything outside) *)

Class FsLib (W : Type) := {
  path : Type;
  path_of : string -> path;
  path_string : path -> string;
  is_absolute : path -> bool;
  path_append : path -> path -> path;                (* operator/ *)
  weakly_canonical : path -> W -> option path;       (* None: ec is set *)
  lexically_relative : path -> path -> path;
  elements : path -> list string;                    (* begin() .. end() *)
  has_parent_path : path -> bool;
  filename : path -> string;                         (* filename().string() *)
  system_complete : path -> W -> path;
  exists_path : path -> W -> bool;
  read_file : path -> W -> string;                   (* all of std::ifstream(path) *)
  is_directory : path -> W -> option bool;           (* None: filesystem_error *)
  directory_entries : path -> W -> option (list path);
  is_regular_file : path -> W -> option bool;
  remove : path -> W -> option bool * W
}.

Arguments path {W} FsLib.

(** The documented algorithm of [lexically_relative] on the elements of normalised paths: empty
    when nothing matches, "." when all do, else one ".." per remaining element of the base and
    then the remaining elements of the path. *)
Fixpoint strip_common (p b : list string) : list string * list string :=
  match p, b with
  | x :: p', y :: b' => if decide (x = y) then strip_common p' b' else (p, b)
  | _, _ => (p, b)
  end.

Definition relative_elements (p b : list string) : list string :=
  let '(p', b') := strip_common p b in
  if decide (p' = p /\ b' = b /\ ~ (p = [] /\ b = [])) then []
  else match p', b' with
       | [], [] => ["."]
       | _, _ => map (fun _ => "..") b' ++ p'
       end.

Class FsLaws {W} (F : FsLib W) : Prop := {
  (* weakly_canonical returns a normalised absolute path, whose first element is its root *)
  canonical_root p w q : weakly_canonical p w = Some q -> exists l, elements q = "/" :: l;
  relative_spec p b : elements (lexically_relative p b) = relative_elements (elements p) (elements b);
  (* a relative path has a parent path exactly when it has several elements *)
  parent_spec p b : has_parent_path (lexically_relative p b) = true
    <-> (2 <= length (elements (lexically_relative p b)))%nat
}.

(** ** Boost string algorithms and Boost.Regex *)

Class TextLib := {
  iequals : string -> string -> bool;
  ends_with : string -> string -> bool;
  trim : string -> string;
  (* regex_replace of every optionally quoted alphanumeric word before a colon by the word in
     double quotes *)
  quote_keys : string -> string
}.

Class TextLaws (T : TextLib) : Prop := {
  iequals_refl s : iequals s s = true;
  ends_with_spec s t : ends_with s t = true <-> exists p, s = String.append p t
}.

(** ** Boost.Asio addresses and networks *)

Inductive address := AddrV4 (a : Z) | AddrV6 (a : Z).

(** [network_v4] and [network_v6]: an address and a prefix length; [operator==] compares both. *)
Record network := mkNetwork { net_addr : Z; prefix_length : Z }.

#[export] Instance network_eq_dec : EqDecision network.
Proof. solve_decision. Defined.

Record endpoint := mkEndpoint { ep_address : address; ep_port : Z }.

Class AsioLib (W : Type) := {
  make_network_v4 : string -> option network;    (* None: ec is set *)
  make_network_v6 : string -> option network;
  make_address_v4 : string -> option Z;
  make_address_v6 : string -> option Z;
  canonical_v4 : network -> network;
  canonical_v6 : network -> network;
  network_string_v4 : network -> string;
  network_string_v6 : network -> string;
  resolve : string -> string -> W -> option (list endpoint)  (* None: system_error *)
}.

(** [canonical()] keeps the prefix length and clears the host bits. *)
Class AsioLaws {W} (L : AsioLib W) : Prop := {
  canonical_v4_spec a p : 0 <= p <= 32 -> 0 <= a < 2 ^ 32 ->
    canonical_v4 (mkNetwork a p) = mkNetwork (a - a mod 2 ^ (32 - p)) p;
  canonical_v6_spec a p : 0 <= p <= 128 -> 0 <= a < 2 ^ 128 ->
    canonical_v6 (mkNetwork a p) = mkNetwork (a - a mod 2 ^ (128 - p)) p;
  make_network_v4_range s n : make_network_v4 s = Some n ->
    0 <= prefix_length n <= 32 /\ 0 <= net_addr n < 2 ^ 32;
  make_network_v6_range s n : make_network_v6 s = Some n ->
    0 <= prefix_length n <= 128 /\ 0 <= net_addr n < 2 ^ 128;
  make_address_v4_range s a : make_address_v4 s = Some a -> 0 <= a < 2 ^ 32;
  make_address_v6_range s a : make_address_v6 s = Some a -> 0 <= a < 2 ^ 128
}.
