(* ===== verification/Config.v ===== *)
(** * Config: options, config file and IP whitelist (Config.h, Config.cpp, main.cpp)

[init] is [Config::init] on the parsed command line [options] of main.cpp; it returns the
configuration or the exception that leaves it, and [startup] is what [main] makes of that.
The whitelist part is [add_whitelist_entry] and [is_ip_allowed]. *)

From S2P Require Import Prelude External.
From stdpp Require Import options.

(** ** Command line (main.cpp, [process_program_options]) *)

Record options := mkOptions {
  opt_config : option string;
  opt_ip : string;
  opt_port : Z;
  opt_auth : string;
  opt_ip_whitelist : string;
  opt_databases_folder : string;
  opt_workers : Z;
  opt_client_max_packet_size : Z;
  opt_busy_timeout : Z
}.

Definition default_options (hardware_concurrency : Z) : options :=
  mkOptions None "localhost" 3333 "" "" "sqlite" (u16 hardware_concurrency) (16 * 1024 * 1024) 5000.

(** ** Splitting the whitelist option *)

(** [std::getline(ss, item, ',')] until it fails: a stream at its end gives nothing more, and
    the separator is not part of the item. *)
Fixpoint getline_comma (item : string) (s : string) : list string :=
  match s with
  | EmptyString => if decide (item = EmptyString) then [] else [item]
  | String c s' =>
      if Ascii.eqb c ","%char then item :: getline_comma EmptyString s'
      else getline_comma (item +:+ String c EmptyString) s'
  end.

Inductive init_error :=
  | ConfigException (what : string)
  | ConfigTypeError            (* json type_error *)
  | ConfigOutOfRange           (* json out_of_range *)
  | ConfigSystemError.         (* resolver *)

Section Config.
Context {W double : Type} {J : JsonLib double} {F : FsLib W} {T : TextLib} {L : AsioLib W}.

Definition split_csv (s : string) : list string :=
  filter (fun item => item <> EmptyString) (map trim (getline_comma EmptyString s)).

Record Config := mkConfig {
  client_max_packet_size : Z;
  busy_timeout_ms : Z;
  workers : Z;
  listen_endpoint : endpoint;
  databases_folder : path F;
  auth : string;
  ip_whitelist_v4 : list network;
  ip_whitelist_v6 : list network
}.

Definition with_whitelist (v4 v6 : list network) (c : Config) : Config :=
  mkConfig (client_max_packet_size c) (busy_timeout_ms c) (workers c) (listen_endpoint c)
           (databases_folder c) (auth c) v4 v6.

(** ** Resolution *)

Definition is_v4 (a : address) : bool := match a with AddrV4 _ => true | AddrV6 _ => false end.

(** 127.0.0.1:3333 *)
Definition fallback_endpoint : endpoint := mkEndpoint (AddrV4 (127 * 2 ^ 24 + 1)) 3333.

Definition resolve_endpoint (port_string : Z -> string) (listen_ip : string) (listen_port : Z)
  : M W init_error endpoint := fun w =>
  match resolve listen_ip (port_string listen_port) w with
  | None => (Throw ConfigSystemError, w)
  | Some eps =>
      (Ret (match List.find (fun it => is_v4 (ep_address it)) eps with
            | Some it => it
            | None => fallback_endpoint
            end), w)
  end.

Definition resolve_database_path (p : string) : M W init_error (path F) := fun w =>
  let folder := system_complete (path_of p) w in
  if exists_path folder w then (Ret folder, w)
  else (Throw (ConfigException ("Databases folder does not exist in: " +:+ path_string folder)), w).

Definition get_config_value (j : json J) (key : string) : M W init_error (json J) :=
  match find j key with
  | None => mthrow (ConfigException ("Missing key: " +:+ key +:+ " in config"))
  | Some v => mret v
  end.

(** An implicit conversion of a json value. *)
Definition convert {B} (get : json J -> option B) (j : json J) : M W init_error B :=
  match get j with Some v => mret v | None => mthrow ConfigTypeError end.

(** ** Whitelist *)

Definition has_char (c : Ascii.ascii) (s : string) : bool :=
  existsb (Ascii.eqb c) (String.list_ascii_of_string s).

Definition add_whitelist_entry (entry : string) (c : Config) : M W init_error Config :=
  let is_v6 := has_char ":"%char entry in
  let has_prefix := has_char "/"%char entry in
  let v4 := ip_whitelist_v4 c in
  let v6 := ip_whitelist_v6 c in
  let added :=
    if is_v6 then
      if has_prefix
      then (fun net => with_whitelist v4 (v6 ++ [canonical_v6 net]) c) <$> make_network_v6 entry
      else (fun a => with_whitelist v4 (v6 ++ [mkNetwork a 128]) c) <$> make_address_v6 entry
    else
      if has_prefix
      then (fun net => with_whitelist (v4 ++ [canonical_v4 net]) v6 c) <$> make_network_v4 entry
      else (fun a => with_whitelist (v4 ++ [mkNetwork a 32]) v6 c) <$> make_address_v4 entry in
  match added with
  | Some c' => mret c'
  | None => mthrow (ConfigException ("Invalid ip_whitelist entry: " +:+ entry))
  end.

Fixpoint add_whitelist (entries : list string) (c : Config) : M W init_error Config :=
  match entries with
  | [] => mret c
  | e :: es => let! c' := add_whitelist_entry e c in add_whitelist es c'
  end.

(** The elements of the config file's array, checked one by one. *)
Fixpoint add_whitelist_json (items : list (json J)) (c : Config) : M W init_error Config :=
  match items with
  | [] => mret c
  | item :: items' =>
      match as_string item with
      | None => mthrow (ConfigException "Config key ip_whitelist must contain only strings")
      | Some e => let! c' := add_whitelist_entry e c in add_whitelist_json items' c'
      end
  end.

Definition is_ip_allowed (c : Config) (a : address) : bool :=
  if bool_decide (ip_whitelist_v4 c = []) && bool_decide (ip_whitelist_v6 c = []) then true
  else match a with
       | AddrV4 addr =>
           existsb (fun net => bool_decide (canonical_v4 (mkNetwork addr (prefix_length net)) = net))
                   (ip_whitelist_v4 c)
       | AddrV6 addr =>
           existsb (fun net => bool_decide (canonical_v6 (mkNetwork addr (prefix_length net)) = net))
                   (ip_whitelist_v6 c)
       end.

Definition append_item (out item : string) : string :=
  (if decide (out = EmptyString) then out else out +:+ ", ") +:+ item.

Definition ip_whitelist_repr (c : Config) : string :=
  if bool_decide (ip_whitelist_v4 c = []) && bool_decide (ip_whitelist_v6 c = []) then "(any)"
  else
    let out := fold_left (fun out net => append_item out (network_string_v4 net))
                         (ip_whitelist_v4 c) EmptyString in
    fold_left (fun out net => append_item out (network_string_v6 net)) (ip_whitelist_v6 c) out.

(** ** Config::init *)

Definition init_from_file (port_string : Z -> string) (config_path : string)
  : M W init_error Config := fun w =>
  if negb (exists_path (path_of config_path) w)
  then (Throw (ConfigException ("Config file does not exist in: " +:+ config_path)), w)
  else match parse (read_file (path_of config_path) w) with
  | inl (ParseError what) => (Throw (ConfigException ("Config parse error: " +:+ what)), w)
  | inl (ParseOutOfRange _) => (Throw ConfigOutOfRange, w)
  | inr j =>
    (let! v := get_config_value j "client_max_packet_size" in
     let! max := convert (as_uint 32) v in
     let! v := get_config_value j "workers" in
     let! wk := convert (as_uint 16) v in
     let! v := get_config_value j "listen_ip" in
     let! ip := convert as_string v in
     let! v := get_config_value j "listen_port" in
     let! port := convert (as_uint 16) v in
     let! ep := resolve_endpoint port_string ip port in
     let! v := get_config_value j "databases_folder" in
     let! dir := convert as_string v in
     let! folder := resolve_database_path dir in
     let! au := (match find j "auth" with
                 | None => mret EmptyString
                 | Some v => convert as_string v
                 end) in
     let! busy := (match find j "busy_timeout_ms" with
                   | None => mret 5000
                   | Some v =>
                       if is_number_unsigned v then convert (as_uint 32) v
                       else mthrow (ConfigException
                         "Config key busy_timeout_ms must be a non-negative number")
                   end) in
     let c := mkConfig max busy wk ep folder au [] [] in
     match find j "ip_whitelist" with
     | None => mret c
     | Some v =>
         match as_array v with
         | None => mthrow (ConfigException "Config key ip_whitelist must be an array of CIDR strings")
         | Some items => add_whitelist_json items c
         end
     end) w
  end.

Definition init (port_string : Z -> string) (vm : options) : M W init_error Config :=
  match opt_config vm with
  | Some config_path => init_from_file port_string config_path
  | None =>
      let! ep := resolve_endpoint port_string (opt_ip vm) (opt_port vm) in
      let! folder := resolve_database_path (opt_databases_folder vm) in
      add_whitelist (split_csv (opt_ip_whitelist vm))
        (mkConfig (opt_client_max_packet_size vm) (opt_busy_timeout vm) (opt_workers vm) ep folder
                  (opt_auth vm) [] [])
  end.

(** What [main] does with it: only [ConfigException] is caught. *)
Inductive startup_result := Serve (c : Config) | ExitFailure (what : string) | Terminate.

Definition startup (port_string : Z -> string) (vm : options) (w : W) : startup_result :=
  match fst (init port_string vm w) with
  | Ret c => Serve c
  | Throw (ConfigException what) => ExitFailure what
  | _ => Terminate
  end.

(** ** Specification of the whitelist *)

(** [a] agrees with the network's address on its first [prefix_length] bits of [w]. *)
Definition in_network (w : Z) (n : network) (a : Z) : Prop :=
  a / 2 ^ (w - prefix_length n) = net_addr n / 2 ^ (w - prefix_length n).

(** What one whitelist entry admits, as the README describes it. *)
Definition entry_allows (e : string) (a : address) : Prop :=
  match a with
  | AddrV4 a =>
      has_char ":"%char e = false
      /\ (if has_char "/"%char e then exists n, make_network_v4 e = Some n /\ in_network 32 n a
          else make_address_v4 e = Some a)
  | AddrV6 a =>
      has_char ":"%char e = true
      /\ (if has_char "/"%char e then exists n, make_network_v6 e = Some n /\ in_network 128 n a
          else make_address_v6 e = Some a)
  end.

Definition entry_valid (e : string) : Prop :=
  if has_char ":"%char e then
    if has_char "/"%char e then is_Some (make_network_v6 e) else is_Some (make_address_v6 e)
  else
    if has_char "/"%char e then is_Some (make_network_v4 e) else is_Some (make_address_v4 e).

#[export] Instance entry_valid_dec e : Decision (entry_valid e).
Proof. unfold entry_valid. repeat case_match; apply _. Defined.

Definition address_ok (a : address) : Prop :=
  match a with AddrV4 a => 0 <= a < 2 ^ 32 | AddrV6 a => 0 <= a < 2 ^ 128 end.

(** ** Lemmas *)

Lemma mask_div w a b : 0 <= w -> (a - a mod 2 ^ w = b - b mod 2 ^ w) <-> a / 2 ^ w = b / 2 ^ w.
Proof.
  intros Hw. assert (0 < 2 ^ w) by (apply Z.pow_pos_nonneg; lia).
  pose proof (Z.div_mod a (2 ^ w)). pose proof (Z.div_mod b (2 ^ w)). nia.
Qed.

(** Some network of the list, cut to its own prefix length, is the address's network. *)
Definition listed (canonical : network -> network) (l : list network) (x : Z) : Prop :=
  exists net, In net l /\ canonical (mkNetwork x (prefix_length net)) = net.

Section Listed.
Context (w : Z) (canonical : network -> network).
Hypothesis canonical_spec : forall a p, 0 <= p <= w -> 0 <= a < 2 ^ w ->
  canonical (mkNetwork a p) = mkNetwork (a - a mod 2 ^ (w - p)) p.

Lemma listed_app l n x :
  0 <= prefix_length n <= w -> 0 <= net_addr n < 2 ^ w -> 0 <= x < 2 ^ w ->
  listed canonical (l ++ [canonical n]) x <-> listed canonical l x \/ in_network w n x.
Proof using canonical_spec.
  intros Hp Hn Hx. unfold listed, in_network. setoid_rewrite in_app_iff. cbn [In].
  destruct n as [na np]; simpl in *. rewrite canonical_spec by done. split.
  - intros (net & [Hin|[<-|[]]] & Heq); [eauto|right]. simpl in Heq.
    rewrite canonical_spec in Heq by done. simplify_eq. apply mask_div; [lia|done].
  - intros [(net & Hin & Heq)|Hi]; [eauto|].
    eexists; split; [right; left; reflexivity|]. simpl.
    rewrite canonical_spec by done. f_equal. apply mask_div; [lia|done].
Qed.

Lemma canonical_bare a : 0 <= w -> 0 <= a < 2 ^ w -> canonical (mkNetwork a w) = mkNetwork a w.
Proof using canonical_spec.
  intros. rewrite canonical_spec by lia. rewrite Z.sub_diag. change (2 ^ 0) with 1.
  by rewrite Z.mod_1_r, Z.sub_0_r.
Qed.

Lemma listed_app_bare l a x :
  0 <= w -> 0 <= a < 2 ^ w -> 0 <= x < 2 ^ w ->
  listed canonical (l ++ [mkNetwork a w]) x <-> listed canonical l x \/ x = a.
Proof using canonical_spec.
  intros. rewrite <- (canonical_bare a), listed_app by (simpl; lia).
  unfold in_network; simpl. rewrite Z.sub_diag. change (2 ^ 0) with 1. by rewrite !Z.div_1_r.
Qed.
End Listed.

(** Whether some network of the whitelist matches, without the empty-list exception. *)
Definition matches (c : Config) (a : address) : Prop :=
  match a with
  | AddrV4 x => listed canonical_v4 (ip_whitelist_v4 c) x
  | AddrV6 x => listed canonical_v6 (ip_whitelist_v6 c) x
  end.

Lemma existsb_listed canonical l x :
  existsb (fun net => bool_decide (canonical (mkNetwork x (prefix_length net)) = net)) l = true
  <-> listed canonical l x.
Proof.
  rewrite existsb_exists. unfold listed. by setoid_rewrite bool_decide_eq_true.
Qed.

Lemma is_ip_allowed_matches c a :
  is_ip_allowed c a = true
  <-> (ip_whitelist_v4 c = [] /\ ip_whitelist_v6 c = []) \/ matches c a.
Proof.
  unfold is_ip_allowed, matches.
  destruct (bool_decide (ip_whitelist_v4 c = []) && bool_decide (ip_whitelist_v6 c = [])) eqn:E.
  - breflect. split; auto.
  - assert (~ (ip_whitelist_v4 c = [] /\ ip_whitelist_v6 c = [])).
    { intros [H1 H2]. rewrite !bool_decide_eq_true_2 in E by done. done. }
    destruct a; rewrite existsb_listed; naive_solver.
Qed.

Lemma add_whitelist_entry_spec {HL : AsioLaws L} e c c' w w' a :
  add_whitelist_entry e c w = (Ret c', w') -> address_ok a ->
  (matches c' a <-> matches c a \/ entry_allows e a)
  /\ ~ (ip_whitelist_v4 c' = [] /\ ip_whitelist_v6 c' = []).
Proof.
  unfold add_whitelist_entry, entry_allows. intros H Ha.
  destruct (has_char ":"%char e), (has_char "/"%char e).
  1: destruct (make_network_v6 e) as [n|] eqn:E; [apply make_network_v6_range in E as Hr|].
  3: destruct (make_address_v6 e) as [n|] eqn:E; [apply make_address_v6_range in E as Hr|].
  5: destruct (make_network_v4 e) as [n|] eqn:E; [apply make_network_v4_range in E as Hr|].
  7: destruct (make_address_v4 e) as [n|] eqn:E; [apply make_address_v4_range in E as Hr|].
  all: simpl in H; unfold mret, mthrow in H; simplify_eq.
  all: (split; [|simpl; intros [H1 H2];
                 by (apply app_eq_nil in H1 as [_ ?] || apply app_eq_nil in H2 as [_ ?])]).
  all: destruct a as [a|a]; simpl in *; try (naive_solver; fail).
  - rewrite (listed_app 128) by first [apply canonical_v6_spec | tauto | done]. naive_solver.
  - rewrite (listed_app_bare 128) by first [apply canonical_v6_spec | tauto | done]. naive_solver.
  - rewrite (listed_app 32) by first [apply canonical_v4_spec | tauto | done]. naive_solver.
  - rewrite (listed_app_bare 32) by first [apply canonical_v4_spec | tauto | done]. naive_solver.
Qed.

(** Adding an entry fails exactly when it does not parse. *)
Lemma add_whitelist_entry_valid e c w :
  (entry_valid e /\ exists c', add_whitelist_entry e c w = (Ret c', w))
  \/ (~ entry_valid e /\ add_whitelist_entry e c w
       = (Throw (ConfigException ("Invalid ip_whitelist entry: " +:+ e)), w)).
Proof.
  unfold add_whitelist_entry, entry_valid.
  destruct (has_char ":"%char e), (has_char "/"%char e);
    [destruct (make_network_v6 e)|destruct (make_address_v6 e)
    |destruct (make_network_v4 e)|destruct (make_address_v4 e)]; simpl; unfold mret, mthrow;
    ((left; split; by eexists) || (right; split; [by intros [? ?]|done])).
Qed.

Lemma add_whitelist_spec {HL : AsioLaws L} es c c' w w' a :
  add_whitelist es c w = (Ret c', w') -> address_ok a ->
  (matches c' a <-> matches c a \/ exists e, In e es /\ entry_allows e a)
  /\ (es <> [] -> ~ (ip_whitelist_v4 c' = [] /\ ip_whitelist_v6 c' = []))
  /\ (es = [] -> c' = c).
Proof.
  revert c w. induction es as [|e es IH]; intros c w H Ha; simpl in H.
  - unfold mret in H. simplify_eq. naive_solver.
  - unfold mbnd in H. destruct (add_whitelist_entry e c w) as [[c1|x|] w1] eqn:E; try done.
    destruct (add_whitelist_entry_spec e c c1 w w1 a E Ha) as [Hm Hne].
    destruct (IH c1 w1 H Ha) as (Hm' & Hne' & Hnil).
    split_and!; [|intros _; destruct es; [by rewrite Hnil|by apply Hne']|done].
    rewrite Hm', Hm. simpl. naive_solver.
Qed.

Lemma add_whitelist_fails es c w :
  (Forall entry_valid es /\ exists c', add_whitelist es c w = (Ret c', w))
  \/ exists e, In e es /\ ~ entry_valid e /\ add_whitelist es c w
       = (Throw (ConfigException ("Invalid ip_whitelist entry: " +:+ e)), w).
Proof.
  revert c. induction es as [|e es IH]; intros c; simpl.
  - left. split; [done|by eexists].
  - unfold mbnd.
    destruct (add_whitelist_entry_valid e c w) as [[Hv [c1 ->]]|[Hv ->]]; [|by right; eauto].
    destruct (IH c1) as [[Hvs [c' ->]]|(e' & Hin & ? & ->)]; [left|right]; eauto 6.
Qed.

(** The whitelist is all that adding entries changes. *)
Lemma add_whitelist_fields es c c' w w' :
  add_whitelist es c w = (Ret c', w') ->
  client_max_packet_size c' = client_max_packet_size c /\ busy_timeout_ms c' = busy_timeout_ms c
  /\ workers c' = workers c /\ listen_endpoint c' = listen_endpoint c
  /\ databases_folder c' = databases_folder c /\ auth c' = auth c.
Proof.
  revert c w. induction es as [|e es IH]; intros c w H; simpl in H.
  - unfold mret in H. by simplify_eq.
  - unfold mbnd in H. destruct (add_whitelist_entry e c w) as [[c1|x|] w1] eqn:E; try done.
    destruct (IH c1 w1 H) as (-> & -> & -> & -> & -> & ->).
    unfold add_whitelist_entry in E. repeat case_match; simpl in *;
      unfold mret, mthrow, fmap, option_fmap, option_map in *; simplify_eq;
      repeat (case_match; simplify_eq); done.
Qed.

(** ** Properties *)

(** C14: a client is admitted exactly as the whitelist option says.  When [--ip-whitelist] is
    accepted, an address is allowed iff the option lists nothing, or one of its entries is of
    the same address family and either is that bare address or is a network the address agrees
    with on all prefix bits; so a list with only IPv6 entries admits no IPv4 peer. *)
Theorem whitelist_admits {HL : AsioLaws L} (port_string : Z -> string) (vm : options) (w w' : W)
    (c : Config) (a : address) :
  opt_config vm = None -> init port_string vm w = (Ret c, w') -> address_ok a ->
  is_ip_allowed c a = true
  <-> split_csv (opt_ip_whitelist vm) = []
      \/ exists e, In e (split_csv (opt_ip_whitelist vm)) /\ entry_allows e a.
Proof.
  intros Hc H Ha. unfold init in H. rewrite Hc in H. unfold mbnd in H.
  destruct (resolve_endpoint _ _ _ w) as [[ep|x|] w1]; try done.
  destruct (resolve_database_path _ w1) as [[dir|x|] w2]; try done.
  destruct (add_whitelist_spec _ _ _ _ _ a H Ha) as (Hm & Hne & Hnil).
  rewrite is_ip_allowed_matches, Hm.
  destruct (split_csv (opt_ip_whitelist vm)) as [|e es].
  - rewrite Hnil by done. simpl. naive_solver.
  - specialize (Hne ltac:(done)). destruct a; simpl; unfold listed; naive_solver.
Qed.

(** Starting from the command line either serves with exactly the given options, the
    resolved address and folder and an empty-or-parsed whitelist, or refuses to start: it exits
    with a message iff the folder does not exist or some whitelist entry does not parse, and
    dies on an unresolvable address. *)
Theorem startup_from_options (port_string : Z -> string) (vm : options) (w : W) :
  opt_config vm = None ->
  let folder := system_complete (path_of (opt_databases_folder vm)) w in
  match startup port_string vm w with
  | Serve c =>
      client_max_packet_size c = opt_client_max_packet_size vm
      /\ busy_timeout_ms c = opt_busy_timeout vm /\ workers c = opt_workers vm
      /\ auth c = opt_auth vm /\ databases_folder c = folder /\ exists_path folder w = true
      /\ Forall entry_valid (split_csv (opt_ip_whitelist vm))
      /\ is_v4 (ep_address (listen_endpoint c)) = true
  | ExitFailure what =>
      exists_path folder w = false
      \/ exists e, In e (split_csv (opt_ip_whitelist vm)) /\ ~ entry_valid e
  | Terminate => resolve (opt_ip vm) (port_string (opt_port vm)) w = None
  end.
Proof.
  intros Hc. cbv zeta. unfold startup, init. rewrite Hc.
  unfold mbnd, resolve_endpoint, resolve_database_path.
  destruct (resolve _ _ w) as [eps|] eqn:Hr; [|done].
  destruct (exists_path _ w) eqn:Hf; [|by left].
  match goal with |- context [add_whitelist ?es ?c0 w] =>
    destruct (add_whitelist_fails es c0 w) as [[Hv [c' Hc']]|(e & Hin & Hv & Hc')];
      rewrite Hc'; simpl; [|by right; eauto];
      pose proof (add_whitelist_fields es c0 c' w w Hc') as (-> & -> & -> & -> & -> & ->)
  end. simpl. split_and!; try done.
  destruct (List.find _ eps) as [it|] eqn:E; [|done]. by apply List.find_some in E as [_ ?].
Qed.
End Config.
