(* ===== verification/SqlWrapper.v ===== *)
(** * SqlWrapper: the RAII wrappers (sqlite3_wrapper/SQLDatabase.h, SQLStatement.h, SQLException.h)

[SqlApi] is the interface the wrappers call, the C API of sqlite3.h.  The wrappers' theorems
hold for every implementation of it.  Constructors and methods are functions in the monad of
Prelude; a destructor is a function on the world.  The busy-retry loop of the statement
constructor and the row loop of the request handler have no bound of their own in the source,
so their definitions take fuel and the theorems say which fuel is enough. *)

From S2P Require Import Prelude.
From stdpp Require Import options.

(** Result codes and column types of sqlite3.h that the wrappers and the handler name. *)
Definition SQLITE_OK : Z := 0.
Definition SQLITE_BUSY : Z := 5.
Definition SQLITE_MISUSE : Z := 21.
Definition SQLITE_ROW : Z := 100.
Definition SQLITE_DONE : Z := 101.
Definition SQLITE_INTEGER : Z := 1.
Definition SQLITE_FLOAT : Z := 2.
Definition SQLITE3_TEXT : Z := 3.
Definition SQLITE_BLOB : Z := 4.
Definition SQLITE_NULL : Z := 5.

(** What leaves the server's own code as a C++ exception. *)
Inductive exn :=
  | SQLException (code : Z) (what : string)
  | JsonParseError (what : string)
  | JsonOutOfRange (what : string)
  | JsonTypeError
  | FilesystemError.

(** The C API on a world [W]; [value_text] gives all the bytes of the value, the C string the
    wrapper returns ends at the first NUL. *)
Class SqlApi (W double : Type) := {
  sqlite3 : Type;
  sqlite3_stmt : Type;
  sqlite3_open : string -> W -> Z * sqlite3 * W;
  sqlite3_close : sqlite3 -> W -> W;
  sqlite3_errcode : sqlite3 -> W -> Z;
  sqlite3_extended_errcode : sqlite3 -> W -> Z;
  sqlite3_errmsg : sqlite3 -> W -> string;
  sqlite3_busy_timeout : sqlite3 -> Z -> W -> W;
  sqlite3_prepare_v2 : sqlite3 -> string -> Z -> W -> Z * option sqlite3_stmt * W;
  sqlite3_step : sqlite3_stmt -> W -> Z * W;
  sqlite3_db_handle : sqlite3_stmt -> sqlite3;
  sqlite3_clear_bindings : sqlite3_stmt -> W -> W;
  sqlite3_finalize : sqlite3_stmt -> W -> W;
  sqlite3_column_count : sqlite3_stmt -> W -> Z;
  sqlite3_column_name : sqlite3_stmt -> Z -> W -> string;
  sqlite3_column_type : sqlite3_stmt -> Z -> W -> Z;
  sqlite3_value_int64 : sqlite3_stmt -> Z -> W -> Z;
  sqlite3_value_double : sqlite3_stmt -> Z -> W -> double;
  sqlite3_value_text : sqlite3_stmt -> Z -> W -> string;
  sqlite3_value_blob : sqlite3_stmt -> Z -> W -> list Z
}.

Arguments sqlite3 {W double} SqlApi.
Arguments sqlite3_stmt {W double} SqlApi.

(** A C string: the bytes before the first NUL. *)
Fixpoint c_str (s : string) : string :=
  match s with
  | EmptyString => EmptyString
  | String c s' => if Ascii.eqb c Ascii.zero then EmptyString else String c (c_str s')
  end.

Section Wrapper.
Context {W double : Type} `{A : SqlApi W double}.

(** ** SQLDatabase *)

(** The constructor: the handle is released before the exception leaves. *)
Definition SQLDatabase_open (path : string) (busy_timeout_ms : Z) : M W exn (sqlite3 A) := fun w =>
  let '(rc, db, w1) := sqlite3_open path w in
  if negb (rc =? SQLITE_OK) then
    let ex := SQLException (sqlite3_errcode db w1) (sqlite3_errmsg db w1) in
    (Throw ex, sqlite3_close db w1)
  else (Ret db, sqlite3_busy_timeout db busy_timeout_ms w1).

(** ** SQLStatement *)

(** [do ... while (rc == SQLITE_BUSY)]. *)
Fixpoint prepare_loop (fuel : nat) (db : sqlite3 A) (query : string)
  : M W exn (Z * option (sqlite3_stmt A)) := fun w =>
  match fuel with
  | O => (NoFuel, w)
  | S fuel' =>
      let '(rc, stmt, w1) := sqlite3_prepare_v2 db query (i32 (Z.of_nat (String.length query))) w in
      if rc =? SQLITE_BUSY then prepare_loop fuel' db query w1 else (Ret (rc, stmt), w1)
  end.

Definition SQLStatement_prepare (fuel : nat) (db : sqlite3 A) (query : string)
  : M W exn (sqlite3_stmt A) := fun w =>
  match prepare_loop fuel db query w with
  | (Ret (rc, stmt), w1) =>
      if negb (rc =? SQLITE_OK)
      then (Throw (SQLException (sqlite3_errcode db w1) (sqlite3_errmsg db w1)), w1)
      else match stmt with
           | None => (Throw (SQLException SQLITE_MISUSE "empty query"), w1)
           | Some s => (Ret s, w1)
           end
  | (Throw e, w1) => (Throw e, w1)
  | (NoFuel, w1) => (NoFuel, w1)
  end.

Definition SQLStatement_destroy (s : sqlite3_stmt A) (w : W) : W :=
  sqlite3_finalize s (sqlite3_clear_bindings s w).

Definition next_row (s : sqlite3_stmt A) : M W exn bool := fun w =>
  let '(rc, w1) := sqlite3_step s w in
  if rc =? SQLITE_ROW then (Ret true, w1)
  else if rc =? SQLITE_DONE then (Ret false, w1)
  else
    let db := sqlite3_db_handle s in
    (Throw (SQLException (sqlite3_extended_errcode db w1) (sqlite3_errmsg db w1)), w1).

Definition value_text (s : sqlite3_stmt A) (i : Z) (w : W) : string :=
  c_str (sqlite3_value_text s i w).

(** ** Lemmas *)

(** The world after [n] calls of [sqlite3_prepare_v2]. *)
Fixpoint prepared (n : nat) (db : sqlite3 A) (query : string) (w : W) : W :=
  match n with
  | O => w
  | S n' => prepared n' db query
              (snd (sqlite3_prepare_v2 db query (i32 (Z.of_nat (String.length query))) w))
  end.

Definition prepare_rc (n : nat) (db : sqlite3 A) (query : string) (w : W) : Z :=
  fst (fst (sqlite3_prepare_v2 db query (i32 (Z.of_nat (String.length query)))
              (prepared n db query w))).

Lemma prepare_loop_enough n fuel db query w :
  (forall k, (k < n)%nat -> prepare_rc k db query w = SQLITE_BUSY) ->
  prepare_rc n db query w <> SQLITE_BUSY -> (n < fuel)%nat ->
  exists stmt, prepare_loop fuel db query w
    = (Ret (prepare_rc n db query w, stmt), prepared (S n) db query w).
Proof.
  revert fuel w. induction n as [|n IH]; intros fuel w Hb Hn Hf;
    (destruct fuel as [|fuel]; [lia|]); cbn [prepare_loop].
  - unfold prepare_rc in *. simpl in *.
    destruct (sqlite3_prepare_v2 _ _ _ w) as [[rc stmt] w1]; simpl in *.
    rewrite (proj2 (Z.eqb_neq _ _)) by done. eauto.
  - pose proof (Hb 0%nat ltac:(lia)) as H0. unfold prepare_rc in H0. simpl in H0.
    destruct (sqlite3_prepare_v2 _ _ _ w) as [[rc stmt] w1] eqn:E; simpl in *. subst rc.
    simpl. destruct (IH fuel w1) as [st' Hst].
    + intros k Hk. specialize (Hb (S k) ltac:(lia)).
      unfold prepare_rc in *. simpl in Hb. by rewrite E in Hb.
    + unfold prepare_rc in *. simpl in Hn. by rewrite E in Hn.
    + lia.
    + exists st'. rewrite Hst. unfold prepare_rc. simpl. by rewrite E.
Qed.

Lemma prepare_loop_busy fuel db query w :
  (forall k, (k < fuel)%nat -> prepare_rc k db query w = SQLITE_BUSY) ->
  fst (prepare_loop fuel db query w) = NoFuel.
Proof.
  revert w. induction fuel as [|fuel IH]; intros w Hb; [done|]. cbn [prepare_loop].
  pose proof (Hb 0%nat ltac:(lia)) as H0. unfold prepare_rc in H0. simpl in H0.
  destruct (sqlite3_prepare_v2 _ _ _ w) as [[rc stmt] w1] eqn:E; simpl in *. subst rc. simpl.
  apply IH. intros k Hk. specialize (Hb (S k) ltac:(lia)).
  unfold prepare_rc in *. simpl in Hb. by rewrite E in Hb.
Qed.

Lemma prepare_loop_no_throw fuel db query w e :
  fst (prepare_loop fuel db query w) <> Throw e.
Proof.
  revert w. induction fuel as [|fuel IH]; intros w; simpl; [done|].
  repeat case_match; [apply IH|done].
Qed.

(** Every exception of the wrappers is an [SQLException]. *)
Definition is_sql (e : exn) : Prop := exists code what, e = SQLException code what.

Lemma open_throws p ms : throws is_sql (SQLDatabase_open p ms).
Proof. intros w e. unfold SQLDatabase_open. repeat case_match; simpl; intros; simplify_eq; by do 2 eexists. Qed.

Lemma prepare_throws fuel db q : throws is_sql (SQLStatement_prepare fuel db q).
Proof.
  intros w e. unfold SQLStatement_prepare.
  pose proof (prepare_loop_no_throw fuel db q w) as Hn.
  repeat case_match; simpl in *; intros; simplify_eq; (by do 2 eexists) || by destruct (Hn e).
Qed.

Lemma next_row_throws s : throws is_sql (next_row s).
Proof. intros w e. unfold next_row. repeat case_match; simpl; intros; simplify_eq; by do 2 eexists. Qed.

(** ** Properties *)

(** Constructing a statement returns if and only if some call of [sqlite3_prepare_v2]
    answers something other than [SQLITE_BUSY]: then one call more than the busy answers is
    enough, and the outcome is the statement, [SQLException(errcode, errmsg)] on an error code,
    or [SQLException(SQLITE_MISUSE, "empty query")] when there is nothing to run; while every
    answer is [SQLITE_BUSY] no number of retries ends the loop. *)
Theorem statement_constructor (db : sqlite3 A) (query : string) (w : W) :
  (forall n fuel, (forall k, (k < n)%nat -> prepare_rc k db query w = SQLITE_BUSY) ->
    prepare_rc n db query w <> SQLITE_BUSY -> (n < fuel)%nat ->
    exists stmt, let w' := prepared (S n) db query w in
      prepare_loop fuel db query w = (Ret (prepare_rc n db query w, stmt), w')
      /\ SQLStatement_prepare fuel db query w
         = (if prepare_rc n db query w =? SQLITE_OK then
              match stmt with
              | Some s => Ret s
              | None => Throw (SQLException SQLITE_MISUSE "empty query")
              end
            else Throw (SQLException (sqlite3_errcode db w') (sqlite3_errmsg db w')), w'))
  /\ ((forall k, prepare_rc k db query w = SQLITE_BUSY) ->
      forall fuel, fst (SQLStatement_prepare fuel db query w) = NoFuel).
Proof.
  split.
  - intros n fuel Hb Hn Hf. destruct (prepare_loop_enough n fuel db query w Hb Hn Hf) as [st Hst].
    exists st. cbv zeta. split; [done|]. unfold SQLStatement_prepare. rewrite Hst.
    destruct (_ =? SQLITE_OK); simpl; [by destruct st|done].
  - intros Hb fuel. pose proof (prepare_loop_busy fuel db query w) as Hl.
    unfold SQLStatement_prepare. destruct (prepare_loop fuel db query w) as [r w'].
    simpl in Hl. rewrite Hl by auto. done.
Qed.

(** Opening a database either returns a handle on which the busy timeout was set, or throws
    the handle's error after closing that same handle; nothing else is opened or leaked. *)
Lemma database_constructor (p : string) (ms : Z) (w : W) :
  let '(rc, db, w1) := sqlite3_open p w in
  SQLDatabase_open p ms w
  = if rc =? SQLITE_OK then (Ret db, sqlite3_busy_timeout db ms w1)
    else (Throw (SQLException (sqlite3_errcode db w1) (sqlite3_errmsg db w1)), sqlite3_close db w1).
Proof.
  unfold SQLDatabase_open. destruct (sqlite3_open p w) as [[rc db] w1].
  by destruct (rc =? SQLITE_OK).
Qed.

(** A step of a statement looks like success only when it is one: [next_row] answers [true]
    exactly on [SQLITE_ROW], [false] exactly on [SQLITE_DONE], and on every other result code
    throws the connection's extended error code and message. *)
Theorem next_row_spec (s : sqlite3_stmt A) (w : W) :
  let '(rc, w1) := sqlite3_step s w in
  snd (next_row s w) = w1
  /\ (fst (next_row s w) = Ret true <-> rc = SQLITE_ROW)
  /\ (fst (next_row s w) = Ret false <-> rc = SQLITE_DONE)
  /\ (rc <> SQLITE_ROW -> rc <> SQLITE_DONE ->
      fst (next_row s w) = Throw (SQLException (sqlite3_extended_errcode (sqlite3_db_handle s) w1)
                                    (sqlite3_errmsg (sqlite3_db_handle s) w1))).
Proof.
  unfold next_row. destruct (sqlite3_step s w) as [rc w1].
  destruct (rc =? SQLITE_ROW) eqn:E1; [|destruct (rc =? SQLITE_DONE) eqn:E2];
    breflect; simpl; unfold SQLITE_ROW, SQLITE_DONE in *; split_and!; naive_solver lia.
Qed.
End Wrapper.

#[export] Hint Resolve open_throws prepare_throws next_row_throws : throws.
