(* ===== verification/RequestHandler.v ===== *)
(** * RequestHandler: one client's commands (RequestHandler.h, RequestHandler.cpp)

[handle_request] is the whole of [RequestHandler::handle_request] with the private members it
calls: the authentication gate, the three commands, the per-connection cache of open
databases, the name check and the encoding of rows.  Its state is the handler's members
[hstate] and the outside world [W]; an exception that leaves it is a [Throw].  The row loop
and the statement constructor's retry loop take fuel. *)

From S2P Require Import Prelude External Config SqlWrapper.
From stdpp Require Import options.

(** [enum GenericErrorCode] *)
Definition INVALID_FORMAT : Z := 0.
Definition NO_COMMAND_SPECIFIED : Z := 1.
Definition UNKNOWN_COMMAND : Z := 2.
Definition NO_DATABASE_SPECIFIED : Z := 3.
Definition ERROR_READING_FROM_CLIENT : Z := 4.

(** ** BLOB encoding *)

Definition hexmap : list Ascii.ascii :=
  ["0"; "1"; "2"; "3"; "4"; "5"; "6"; "7"; "8"; "9"; "a"; "b"; "c"; "d"; "e"; "f"]%char.

Definition hexdigit (i : Z) : Ascii.ascii := nth (Z.to_nat i) hexmap " "%char.

(** The lambda [hexStr]; [data[j]] is a [char], promoted to [int] with its sign. *)
Fixpoint hexStr (data : list Z) : string :=
  match data with
  | [] => EmptyString
  | b :: data' =>
      let d := i8 b in
      String (hexdigit (Z.shiftr (Z.land d 240) 4))
        (String (hexdigit (Z.land d 15)) (hexStr data'))
  end.

Definition blob_literal (data : list Z) : string := "X'" +:+ hexStr data +:+ "'".

Section Handler.
Context {W double : Type} {A : SqlApi W double} {J : JsonLib double} {F : FsLib W} {T : TextLib}.
Context (cfg : @Config W F).

Record hstate := mkH {
  m_databases : gmap string (sqlite3 A);
  m_authenticated : bool
}.

Abbreviation world := (hstate * W)%type.

(** Lifting an operation on the world outside the handler. *)
Definition out {B} (c : M W exn B) : M world exn B := fun s =>
  let '(r, w') := c (snd s) in (r, (fst s, w')).

(** ** Responses: the constructor of [Response] dumps the JSON value *)

Definition respond (j : json J) : M world exn string := fun s =>
  match dump j with
  | Some text => (Ret text, s)
  | None => (Throw JsonTypeError, s)
  end.

Definition fields (l : list (string * json J)) : json J := j_obj (list_to_map l).

Definition generic_error (code : Z) (request : json J) : M world exn string :=
  respond (fields [("generic_error", j_int code); ("request", request)]).

(** [const std::string x = j[key]] *)
Definition get_string (v : json J) : M world exn string :=
  match as_string v with Some s => mret s | None => mthrow JsonTypeError end.

(** ** is_safe_database_name *)

Definition is_safe_database_name (name : string) (w : W) : bool :=
  let name_path := path_of name in
  if bool_decide (name = EmptyString) || is_absolute name_path then false
  else match weakly_canonical (databases_folder cfg) w with
  | None => false
  | Some base =>
      match weakly_canonical (path_append base name_path) w with
      | None => false
      | Some full =>
          let rel := lexically_relative full base in
          negb (bool_decide (elements rel = [])) && negb (bool_decide (elements rel = ["."]))
          && negb (bool_decide (head (elements rel) = Some "..")) && negb (has_parent_path rel)
      end
  end.

Definition is_sqlite_sidecar_file (filename : string) : bool :=
  ends_with filename "-wal" || ends_with filename "-shm" || ends_with filename "-journal".

(** ** Database connections *)

Definition set_databases (m : gmap string (sqlite3 A)) (s : world) : world :=
  (mkH m (m_authenticated (fst s)), snd s).

Definition get_database_connection (database_name : string) : M world exn (sqlite3 A) := fun s =>
  match m_databases (fst s) !! database_name with
  | Some db => (Ret db, s)
  | None =>
      let database_path := path_append (databases_folder cfg) (path_of database_name) in
      match out (SQLDatabase_open (path_string database_path) (i32 (busy_timeout_ms cfg))) s with
      | (Ret db, s') =>
          (Ret db, set_databases (<[database_name := db]> (m_databases (fst s'))) s')
      | (Throw e, s') => (Throw e, s')
      | (NoFuel, s') => (NoFuel, s')
      end
  end.

(** ** handle_query *)

(** One column of the current row: [None] for a type the switch does not know (nothing is
    stored under the column's name). *)
Definition column_json (st : sqlite3_stmt A) (i : Z) (w : W) : option (json J) :=
  let type := sqlite3_column_type st i w in
  if type =? SQLITE_INTEGER then Some (j_int (sqlite3_value_int64 st i w))
  else if type =? SQLITE_FLOAT then Some (j_real (sqlite3_value_double st i w))
  else if type =? SQLITE3_TEXT then Some (j_str (value_text st i w))
  else if type =? SQLITE_BLOB then Some (j_str (blob_literal (sqlite3_value_blob st i w)))
  else if (type =? 0) || (type =? SQLITE_NULL) then Some j_null
  else None.

Definition row_json (st : sqlite3_stmt A) (columnCount : Z) (w : W) : gmap string (json J) :=
  fold_left (fun rowData i =>
      match column_json st i w with
      | Some v => <[sqlite3_column_name st i w := v]> rowData
      | None => rowData
      end)
    (map Z.of_nat (seq 0 (Z.to_nat columnCount))) ∅.

Definition column_names (st : sqlite3_stmt A) (columnCount : Z) (w : W) : list (json J) :=
  map (fun i => j_str (sqlite3_column_name st (Z.of_nat i) w)) (seq 0 (Z.to_nat columnCount)).

(** [while (statement->next_row())] *)
Fixpoint rows_loop (fuel : nat) (st : sqlite3_stmt A) (columnCount : Z) (rowsData : list (json J))
  : M W exn (list (json J)) := fun w =>
  match fuel with
  | O => (NoFuel, w)
  | S fuel' =>
      match next_row st w with
      | (Ret true, w1) =>
          rows_loop fuel' st columnCount (rowsData ++ [j_obj (row_json st columnCount w1)]) w1
      | (Ret false, w1) => (Ret rowsData, w1)
      | (Throw e, w1) => (Throw e, w1)
      | (NoFuel, w1) => (NoFuel, w1)
      end
  end.

(** The statement's lifetime: whatever [body] does, the destructor runs on the way out. *)
Definition with_statement {B} (st : sqlite3_stmt A) (body : M world exn B) : M world exn B :=
  fun s => let '(r, s') := body s in (r, (fst s', SQLStatement_destroy st (snd s'))).

(** From [columnNames] to the reply. *)
Definition read_rows (fuel : nat) (st : sqlite3_stmt A) : M world exn string := fun s =>
  let columnCount := sqlite3_column_count st (snd s) in
  let columnNames := column_names st columnCount (snd s) in
  (let! rowsData := out (rows_loop fuel st columnCount []) in
   respond (fields [("columns", j_arr columnNames); ("data", j_arr rowsData)])) s.

(** The [try] block. *)
Definition run_query (fuel : nat) (database_name query : string) : M world exn string :=
  let! database := get_database_connection database_name in
  let! st := out (SQLStatement_prepare fuel database query) in
  with_statement st (read_rows fuel st).

(** The [catch (const SQLException &e)] block; other exceptions pass through. *)
Definition query_error (j : json J) (e : exn) : option (M world exn string) :=
  match e with
  | SQLException code what =>
      Some (respond (fields [("error_code", j_int code); ("error_message", j_str what); ("query", j)]))
  | _ => None
  end.

Definition handle_query (fuel : nat) (j : json J) : M world exn string := fun s =>
  match find j "db", find j "query" with
  | None, _ => generic_error NO_DATABASE_SPECIFIED j s
  | Some _, None => generic_error ERROR_READING_FROM_CLIENT j s
  | Some db, Some q =>
      (let! database_name := get_string db in
       let! query := get_string q in
       fun s =>
         if negb (is_safe_database_name database_name (snd s))
         then generic_error NO_DATABASE_SPECIFIED j s
         else mcatch (run_query fuel database_name query) (query_error j) s) s
  end.

(** ** handle_list *)

Fixpoint list_entries (entries : list (path F)) : M W exn (list (json J)) := fun w =>
  match entries with
  | [] => (Ret [], w)
  | e :: es =>
      match is_regular_file e w with
      | None => (Throw FilesystemError, w)
      | Some regular =>
          match list_entries es w with
          | (Ret rest, w') =>
              (Ret (if regular && negb (is_sqlite_sidecar_file (filename e))
                    then j_str (filename e) :: rest else rest), w')
          | r => r
          end
      end
  end.

Definition handle_list : M world exn string := fun s =>
  let dir := databases_folder cfg in
  match is_directory dir (snd s) with
  | None => (Throw FilesystemError, s)
  | Some false => respond (fields [("list", j_arr [])]) s
  | Some true =>
      match directory_entries dir (snd s) with
      | None => (Throw FilesystemError, s)
      | Some entries =>
          (let! databases := out (list_entries entries) in
           respond (fields [("list", j_arr databases)])) s
      end
  end.

(** ** handle_delete_db *)

(** [m_databases.erase]: the last owner of the connection goes, so it is closed. *)
Definition erase_database (database_name : string) (s : world) : world :=
  match m_databases (fst s) !! database_name with
  | None => s
  | Some db => (mkH (delete database_name (m_databases (fst s))) (m_authenticated (fst s)),
                sqlite3_close db (snd s))
  end.

Definition handle_delete_db (j : json J) : M world exn string := fun s =>
  match find j "db" with
  | None => generic_error NO_DATABASE_SPECIFIED j s
  | Some db =>
      (let! database_name := get_string db in
       fun s =>
         if negb (is_safe_database_name database_name (snd s))
         then generic_error NO_DATABASE_SPECIFIED j s
         else
           let database_path := path_append (databases_folder cfg) (path_of database_name) in
           match remove database_path (snd s) with
           | (None, w') => (Throw FilesystemError, (fst s, w'))
           | (Some result, w') =>
               let s1 := (fst s, w') in
               let s2 := if result then erase_database database_name s1 else s1 in
               respond (fields [("result", j_str (if result then "ok" else "error"))]) s2
           end) s
  end.

(** ** handle_request *)

(** [parse_request]: strict parsing, else once more with the keys quoted, throwing. *)
Definition parse_request (req : string) : parse_failure + json J :=
  match parse req with
  | inr j => inr j
  | inl _ => parse (quote_keys req)
  end.

Definition set_authenticated (s : world) : world := (mkH (m_databases (fst s)) true, snd s).

Definition dispatch (fuel : nat) (req : string) (j : json J) : M world exn string :=
  match find j "cmd" with
  | None => generic_error NO_COMMAND_SPECIFIED (j_str req)
  | Some c =>
      let! cmd := get_string c in
      if iequals cmd "QUERY" then handle_query fuel j
      else if iequals cmd "LIST" then handle_list
      else if iequals cmd "DELETE_DB" then handle_delete_db j
      else generic_error UNKNOWN_COMMAND (j_str req)
  end.

(** The password of a request, when its "auth" member is a string. *)
Definition offered_password (j : json J) : option string := find j "auth" ≫= as_string.

Definition handle_request (fuel : nat) (req : string) : M world exn string := fun s =>
  match parse_request req with
  | inl (ParseError what) =>
      respond (fields [("generic_error", j_int INVALID_FORMAT); ("message", j_str what);
                       ("request", j_str req)]) s
  | inl (ParseOutOfRange what) => (Throw (JsonOutOfRange what), s)
  | inr j =>
      if decide (auth cfg = EmptyString) then dispatch fuel req j s
      else if decide (offered_password j = Some (auth cfg)) then
        respond (fields [("result", j_str "ok")]) (set_authenticated s)
      else if m_authenticated (fst s) then dispatch fuel req j s
      else respond (fields [("result", j_str "error")]) s
  end.

(** ** Specifications *)

(** The rows a statement yields from [w]: the world after each row, and how it ends. *)
Inductive cursor (st : sqlite3_stmt A) : W -> list W -> res exn unit -> W -> Prop :=
  | cursor_done w w1 : next_row st w = (Ret false, w1) -> cursor st w [] (Ret tt) w1
  | cursor_fail w e w1 : next_row st w = (Throw e, w1) -> cursor st w [] (Throw e) w1
  | cursor_row w w1 ws r w2 :
      next_row st w = (Ret true, w1) -> cursor st w1 ws r w2 -> cursor st w (w1 :: ws) r w2.

(** Sending a reply, or dying on it. *)
Definition reply (j : json J) : res exn string :=
  match dump j with Some text => Ret text | None => Throw JsonTypeError end.

(** A sequence of requests on one connection: each reply (or exception), and the final state. *)
Fixpoint serve (fuel : nat) (reqs : list string) (s : world) : list (res exn string) * world :=
  match reqs with
  | [] => ([], s)
  | r :: rs =>
      let '(x, s1) := handle_request fuel r s in
      let '(xs, s2) := serve fuel rs s1 in (x :: xs, s2)
  end.

Definition offers_password (req : string) : Prop :=
  exists j, parse_request req = inr j /\ offered_password j = Some (auth cfg).

(** ** Lemmas *)

Lemma respond_reply j s : respond j s = (reply j, s).
Proof. unfold respond, reply. by destruct (dump j). Qed.

Lemma rows_loop_cursor st n acc fuel w ws r w' :
  cursor st w ws r w' -> (length ws < fuel)%nat ->
  rows_loop fuel st n acc w
  = (match r with
     | Ret _ => Ret (acc ++ map (fun x => j_obj (row_json st n x)) ws)
     | Throw e => Throw e
     | NoFuel => NoFuel
     end, w').
Proof.
  intros Hc. revert acc fuel.
  induction Hc as [w w1 H|w e w1 H|w w1 ws r w2 H Hc IH]; intros acc fuel Hf;
    (destruct fuel as [|fuel]; [simpl in Hf; lia|]); cbn [rows_loop]; rewrite H.
  - simpl. by rewrite app_nil_r.
  - done.
  - rewrite IH by (simpl in Hf; lia). destruct r; simpl; try done.
    by rewrite <- app_assoc.
Qed.

(** *** Which exceptions can leave which part *)

Lemma out_throws {B} P (c : M W exn B) : throws P c -> throws P (out c).
Proof.
  intros Hc s e. unfold out. specialize (Hc (snd s) e). by destruct (c (snd s)).
Qed.

Lemma with_statement_throws {B} P st (c : M world exn B) :
  throws P c -> throws P (with_statement st c).
Proof. intros Hc s e. unfold with_statement. specialize (Hc s e). by destruct (c s). Qed.

Lemma rows_loop_throws fuel st n acc : throws is_sql (rows_loop fuel st n acc).
Proof.
  intros w e. revert acc w. induction fuel as [|fuel IH]; intros acc w; simpl; [done|].
  pose proof (next_row_throws st w) as Hn.
  destruct (next_row st w) as [[[|]|e'|] w1]; simpl in *; [apply IH|done| |done].
  intros ?; simplify_eq. by apply Hn.
Qed.

Lemma respond_throws j : throws (eq JsonTypeError) (respond j).
Proof. intros s e. unfold respond. case_match; simpl; intros; by simplify_eq. Qed.

Lemma get_string_throws v : throws (eq JsonTypeError) (get_string v).
Proof. unfold get_string. case_match; auto with throws. Qed.

Lemma get_connection_throws d : throws is_sql (get_database_connection d).
Proof.
  intros s e. unfold get_database_connection. case_match; [done|].
  match goal with |- context [out ?c s] =>
    pose proof (out_throws is_sql c (open_throws _ _) s) as Ho; destruct (out c s) as [[?|?|] ?] end;
    simpl in *; [done| |done].
  intros ?; simplify_eq. by apply Ho.
Qed.

(** Exceptions of the query block: an [SQLException], or the reply cannot be dumped. *)
Definition query_exn (e : exn) : Prop := is_sql e \/ JsonTypeError = e.

Lemma run_query_throws fuel d q : throws query_exn (run_query fuel d q).
Proof.
  unfold run_query. repeat apply throws_bnd.
  - eapply throws_weaken; [apply get_connection_throws|by left].
  - intros db. apply throws_bnd.
    + eapply throws_weaken; [apply out_throws, prepare_throws|by left].
    + intros st. apply with_statement_throws. intros s e. unfold read_rows. revert s e.
      intros s. apply throws_bnd.
      * eapply throws_weaken; [apply out_throws, rows_loop_throws|by left].
      * intros rows. eapply throws_weaken; [apply respond_throws|by right].
Qed.

Lemma list_entries_throws es : throws (eq FilesystemError) (list_entries es).
Proof.
  intros w e. induction es as [|x es IH]; simpl; [done|].
  destruct (is_regular_file x w); simpl; [|intros; by simplify_eq].
  destruct (list_entries es w) as [[r|e'|] w']; simpl in *; auto; done.
Qed.

Lemma handle_query_throws fuel j : throws (eq JsonTypeError) (handle_query fuel j).
Proof.
  intros s. unfold handle_query, generic_error.
  destruct (find j "db"); [|apply respond_throws].
  destruct (find j "query"); [|apply respond_throws].
  apply throws_bnd; [apply get_string_throws|intros d].
  apply throws_bnd; [apply get_string_throws|intros q].
  intros s' e. case_if; [apply respond_throws|]. revert s' e Hif. intros s' e _. revert s' e.
  eapply throws_catch; [apply run_query_throws|..].
  - intros e c' _ H. destruct e; simpl in H; simplify_eq. apply respond_throws.
  - intros e [(code & what & ->)|<-] H; [done|done].
Qed.

Definition command_exn (e : exn) : Prop := e = JsonTypeError \/ e = FilesystemError.

Lemma handle_list_throws : throws command_exn handle_list.
Proof.
  intros s. unfold handle_list. unfold command_exn.
  destruct (is_directory _ _) as [[|]|]; simpl.
  - destruct (directory_entries _ _); simpl; [|intros; simplify_eq; auto].
    apply throws_bnd.
    + eapply throws_weaken; [apply out_throws, list_entries_throws|auto].
    + intros. eapply throws_weaken; [apply respond_throws|auto].
  - intros e He. left. symmetry. by eapply respond_throws.
  - intros; simplify_eq; auto.
Qed.

Lemma handle_delete_throws j : throws command_exn (handle_delete_db j).
Proof.
  intros s. unfold handle_delete_db, command_exn.
  assert (forall j, throws (fun e => e = JsonTypeError \/ e = FilesystemError) (respond j)) as Hr.
  { intros j'. eapply throws_weaken; [apply respond_throws|auto]. }
  destruct (find j "db"); [|apply Hr].
  apply throws_bnd.
  - eapply throws_weaken; [apply get_string_throws|auto].
  - intros d s' e. case_if; [apply Hr|].
    destruct (remove _ _) as [[b|] w']; [apply Hr|]. simpl. intros; simplify_eq; auto.
Qed.

Lemma dispatch_throws fuel req j : throws command_exn (dispatch fuel req j).
Proof.
  unfold dispatch.
  destruct (find j "cmd").
  - apply throws_bnd; [eapply throws_weaken; [apply get_string_throws|by left]|intros c].
    repeat case_if.
    + eapply throws_weaken; [apply handle_query_throws|by left].
    + apply handle_list_throws.
    + apply handle_delete_throws.
    + eapply throws_weaken; [apply respond_throws|by left].
  - eapply throws_weaken; [apply respond_throws|by left].
Qed.

(** ** Properties *)

(** C15: no failure of SQLite ever leaves a request unanswered: an exception that escapes
    [handle_request] is a JSON type error, an out-of-range number or a file system error, never
    an [SQLException], which always becomes an error reply. *)
Theorem sql_errors_are_replies (fuel : nat) (req : string) (s : world) (e : exn) :
  fst (handle_request fuel req s) = Throw e ->
  e = JsonTypeError \/ e = FilesystemError
  \/ exists what, parse_request req = inl (ParseOutOfRange what) /\ e = JsonOutOfRange what.
Proof.
  unfold handle_request.
  assert (forall j s0, fst (respond j s0) = Throw e -> e = JsonTypeError) as Hr.
  { intros j s0 H. symmetry. by eapply respond_throws. }
  destruct (parse_request req) as [[what|what]|j].
  - intros H. left. by eapply Hr.
  - simpl. intros; simplify_eq. eauto.
  - assert (fst (dispatch fuel req j s) = Throw e -> e = JsonTypeError \/ e = FilesystemError)
      as Hd by apply dispatch_throws.
    repeat case_decide; [tauto|by left; eapply Hr|].
    case_if; [tauto|]. by left; eapply Hr.
Qed.

(** What an unauthenticated connection gets for a request that does not carry the password. *)
Definition refusal (req : string) : res exn string :=
  match parse_request req with
  | inl (ParseError what) =>
      reply (fields [("generic_error", j_int INVALID_FORMAT); ("message", j_str what);
                     ("request", j_str req)])
  | inl (ParseOutOfRange what) => Throw (JsonOutOfRange what)
  | inr _ => reply (fields [("result", j_str "error")])
  end.

Lemma handle_request_refused fuel req s :
  auth cfg <> EmptyString -> m_authenticated (fst s) = false -> ~ offers_password req ->
  handle_request fuel req s = (refusal req, s).
Proof.
  intros Ha Hm Ho. unfold handle_request, refusal.
  destruct (parse_request req) as [[what|what]|j] eqn:Hp; try done; try apply respond_reply.
  rewrite decide_False by done. rewrite decide_False by (intros H; apply Ho; by exists j).
  rewrite Hm. apply respond_reply.
Qed.

(** C2: with a password configured, a connection that never sends it gets nothing done.
    Whatever sequence of requests it sends, as long as none of them carries the password the
    handler's state and the whole outside world (databases, files, SQLite) stay exactly as they
    were, and every answer is the refusal [{"result":"error"}] or a parse-error reply. *)
Theorem auth_gate (fuel : nat) (reqs : list string) (s : world) :
  auth cfg <> EmptyString -> m_authenticated (fst s) = false ->
  Forall (fun r => ~ offers_password r) reqs ->
  serve fuel reqs s = (map refusal reqs, s).
Proof.
  intros Ha Hm Hr. induction Hr as [|r rs Hr _ IH]; [done|].
  cbn [serve map]. by rewrite handle_request_refused, IH.
Qed.

(** Sending the password authenticates that connection and nothing else happens; from
    then on no request is refused for lack of authentication: anything that does not carry the
    password again goes to the command dispatch. *)
Theorem auth_opens (fuel : nat) (req req' : string) (j' : json J) (s : world) :
  auth cfg <> EmptyString -> offers_password req ->
  parse_request req' = inr j' -> offered_password j' <> Some (auth cfg) ->
  handle_request fuel req s = (reply (fields [("result", j_str "ok")]), set_authenticated s)
  /\ handle_request fuel req' (set_authenticated s) = dispatch fuel req' j' (set_authenticated s).
Proof.
  intros Ha (j & Hp & Ho) Hp' Ho'. unfold handle_request. rewrite Hp, Hp'.
  rewrite !(decide_False (P := auth cfg = EmptyString)) by done.
  rewrite decide_True, decide_False by done. split; [apply respond_reply|done].
Qed.

(** An unauthenticated peer can make an exception leave the handler (and so, uncaught in a
    worker thread, end the server process): a body whose number overflows a double, or an
    unparsable body that [dump] rejects when it is echoed (one that is not UTF-8); and where the
    gate is open, a "cmd" that is not a string does too. *)
Theorem requests_that_escape (fuel : nat) (req : string) (s : world) :
  (forall what, parse_request req = inl (ParseOutOfRange what) ->
     fst (handle_request fuel req s) = Throw (JsonOutOfRange what))
  /\ (forall what, parse_request req = inl (ParseError what) ->
      dump (fields [("generic_error", j_int INVALID_FORMAT); ("message", j_str what);
                    ("request", j_str req)]) = None ->
      fst (handle_request fuel req s) = Throw JsonTypeError)
  /\ (forall j c, parse_request req = inr j -> auth cfg = EmptyString ->
      find j "cmd" = Some c -> is_string c = false ->
      fst (handle_request fuel req s) = Throw JsonTypeError).
Proof.
  unfold handle_request. split_and!.
  - intros what ->. done.
  - intros what -> Hd. rewrite respond_reply. unfold reply. by rewrite Hd.
  - intros j c -> Ha Hf Hs. rewrite decide_True by done. unfold dispatch. rewrite Hf.
    unfold mbnd, get_string, is_string in *. by destruct (as_string c).
Qed.

(** *** Database names *)

Lemma strip_common_spec p b :
  exists l, p = l ++ fst (strip_common p b) /\ b = l ++ snd (strip_common p b).
Proof.
  revert b. induction p as [|x p IH]; intros [|y b]; try by exists [].
  simpl. case_decide as Hd; [|by exists []]. subst.
  destruct (IH b) as (l & Hp & Hb). exists (y :: l). simpl. by rewrite <- Hp, <- Hb.
Qed.

Lemma strip_common_app l r : strip_common (l ++ r) l = (r, []).
Proof.
  induction l as [|x l IH]; simpl; [by destruct r|]. by rewrite decide_True.
Qed.

Lemma relative_child p b c :
  c <> ".." -> c <> "." -> relative_elements p b = [c] -> b <> [] /\ p = b ++ [c].
Proof.
  intros Hc Hc'. unfold relative_elements.
  destruct (strip_common_spec p b) as (l & Hp & Hb).
  destruct (strip_common p b) as [p' b']; simpl in *. case_decide as Hd; [done|].
  destruct b' as [|y b'].
  - rewrite app_nil_r in Hb. subst b. destruct p' as [|x p']; [congruence|].
    simpl. intros [= -> ->]. split; [|done].
    intros ->. apply Hd. subst p. simpl. split_and!; try done. by intros [? _].
  - destruct p' as [|x p']; simpl; intros [= H ?]; by destruct Hc.
Qed.

Lemma relative_of_child b c : b <> [] -> relative_elements (b ++ [c]) b = [c].
Proof.
  intros Hb. unfold relative_elements. rewrite strip_common_app.
  rewrite decide_False; [done|]. intros (_ & H & _). by destruct Hb.
Qed.

(** C8: a database name is accepted exactly when it denotes a direct child of the databases
    folder: it is neither empty nor absolute, and after resolving symbolic links and dots the
    path of [folder / name] is the resolved folder plus one proper file name (never "." or
    ".."), so nothing outside the folder and nothing in a subfolder is reachable. *)
Theorem safe_name_is_child {HF : FsLaws F} (name : string) (w : W) :
  is_safe_database_name name w = true
  <-> name <> EmptyString /\ is_absolute (path_of name) = false
     /\ exists base full c,
        weakly_canonical (databases_folder cfg) w = Some base
        /\ weakly_canonical (path_append base (path_of name)) w = Some full
        /\ elements full = elements base ++ [c] /\ c <> "." /\ c <> "..".
Proof.
  unfold is_safe_database_name. split.
  - case_if; [done|].
    destruct (weakly_canonical (databases_folder cfg) w) as [base|] eqn:Hb; [|done].
    destruct (weakly_canonical (path_append base _) w) as [full|] eqn:Hf; [|done].
    intros Hs. breflect. split_and!; [done|done|]. exists base, full.
    assert (~ (2 <= length (elements (lexically_relative full base)))%nat) as Hl.
    { rewrite <- parent_spec. congruence. }
    rewrite relative_spec in *.
    destruct (relative_elements (elements full) (elements base)) as [|c [|]] eqn:E;
      simpl in *; [done| |lia].
    exists c. destruct (relative_child (elements full) (elements base) c) as [_ ?]; [congruence..|].
    split_and!; congruence.
  - intros (Hn & Ha & base & full & c & Hb & Hf & He & Hc & Hc').
    rewrite bool_decide_eq_false_2, Ha, Hb, Hf by done. simpl.
    destruct (canonical_root _ _ _ Hb) as [l Hr].
    assert (elements (lexically_relative full base) = [c]) as Hrel.
    { rewrite relative_spec, He. apply relative_of_child. by rewrite Hr. }
    destruct (has_parent_path (lexically_relative full base)) eqn:Hp.
    { apply parent_spec in Hp. rewrite Hrel in Hp. simpl in Hp. lia. }
    rewrite Hrel, !bool_decide_eq_false_2 by (simpl; congruence). done.
Qed.

(** A [QUERY] or [DELETE_DB] whose name is not accepted is answered with
    [NO_DATABASE_SPECIFIED] and the request, and touches nothing: no connection is opened, no
    statement run, no file removed. *)
Theorem unsafe_name_untouched (fuel : nat) (j db q : json J) (name query : string) (s : world) :
  find j "db" = Some db -> as_string db = Some name ->
  find j "query" = Some q -> as_string q = Some query ->
  is_safe_database_name name (snd s) = false ->
  handle_query fuel j s
  = (reply (fields [("generic_error", j_int NO_DATABASE_SPECIFIED); ("request", j)]), s)
  /\ handle_delete_db j s
    = (reply (fields [("generic_error", j_int NO_DATABASE_SPECIFIED); ("request", j)]), s).
Proof.
  intros Hd Hn Hq Hqs Hu. unfold handle_query, handle_delete_db. rewrite Hd, Hq.
  unfold mbnd, get_string, generic_error. rewrite Hn, Hqs. cbn [mret]. unfold mret.
  rewrite Hu. simpl. by rewrite respond_reply.
Qed.

(** *** Queries *)

Definition rows_reply (st : sqlite3_stmt A) (w : W) (ws : list W) : json J :=
  let n := sqlite3_column_count st w in
  fields [("columns", j_arr (column_names st n w));
          ("data", j_arr (map (fun x => j_obj (row_json st n x)) ws))].

Definition sql_reply (j : json J) (code : Z) (what : string) : json J :=
  fields [("error_code", j_int code); ("error_message", j_str what); ("query", j)].

Lemma read_rows_cursor fuel st h w ws r w' :
  cursor st w ws r w' -> (length ws < fuel)%nat ->
  read_rows fuel st (h, w)
  = (match r with
     | Ret _ => reply (rows_reply st w ws)
     | Throw e => Throw e
     | NoFuel => NoFuel
     end, (h, w')).
Proof.
  intros Hc Hf. unfold read_rows, mbnd, out. simpl.
  rewrite (rows_loop_cursor _ _ _ _ _ _ _ _ Hc Hf). simpl.
  destruct r; [|done|done]. apply respond_reply.
Qed.

(** C10: what a [QUERY] answers, on every way the statement can end.  Given an accepted name, an
    open connection and a compiled statement that yields the rows [ws], the answer is the
    column names with one object per row when the statement runs to its end, and the SQL error
    reply with the error's code, message and the request when it fails after any number of
    rows (no partial result is sent); either way the statement is finalized.  An error while
    opening or compiling gives the same error reply.  One unit of fuel more than the rows is
    enough. *)
Theorem query_reply (fuel : nat) (j db q : json J) (name query : string) (s : world) :
  find j "db" = Some db -> as_string db = Some name ->
  find j "query" = Some q -> as_string q = Some query ->
  is_safe_database_name name (snd s) = true ->
  (forall code what s1, get_database_connection name s = (Throw (SQLException code what), s1) ->
     handle_query fuel j s = (reply (sql_reply j code what), s1))
  /\ (forall d h1 w1, get_database_connection name s = (Ret d, (h1, w1)) ->
      (forall code what w2, SQLStatement_prepare fuel d query w1 = (Throw (SQLException code what), w2) ->
        handle_query fuel j s = (reply (sql_reply j code what), (h1, w2)))
      /\ (forall st w2 ws r w3, SQLStatement_prepare fuel d query w1 = (Ret st, w2) ->
        cursor st w2 ws r w3 -> (length ws < fuel)%nat ->
        (r = Ret tt -> handle_query fuel j s
           = (reply (rows_reply st w2 ws), (h1, SQLStatement_destroy st w3)))
        /\ (forall code what, r = Throw (SQLException code what) -> handle_query fuel j s
           = (reply (sql_reply j code what), (h1, SQLStatement_destroy st w3))))).
Proof.
  intros Hd Hn Hq Hqs Hu.
  assert (handle_query fuel j s = mcatch (run_query fuel name query) (query_error j) s) as ->.
  { unfold handle_query. rewrite Hd, Hq. unfold mbnd, get_string. rewrite Hn, Hqs.
    unfold mret. by rewrite Hu. }
  unfold mcatch, run_query, mbnd. split.
  - intros code what s1 ->. simpl. apply respond_reply.
  - intros d h1 w1 ->. unfold out; simpl. split.
    + intros code what w2 ->. simpl. apply respond_reply.
    + intros st w2 ws r w3 -> Hc Hf. unfold with_statement.
      rewrite (read_rows_cursor _ _ _ _ _ _ _ Hc Hf). split.
      * intros ->. unfold reply. simpl. by destruct (dump _).
      * intros code what ->. simpl. apply respond_reply.
Qed.

(** *** The connection cache *)

(** One SQLite connection per database name and client.  Once a name has been opened, using
    it again returns that connection and opens nothing; other names keep theirs; a failed open
    leaves the cache as it was (the failing handle is closed, never cached). *)
Theorem connection_reuse (name : string) (s s1 : world) (r : res exn (sqlite3 A)) :
  get_database_connection name s = (r, s1) ->
  (forall d, r = Ret d ->
     m_databases (fst s1) !! name = Some d
     /\ get_database_connection name s1 = (Ret d, s1))
  /\ (forall n, n <> name -> m_databases (fst s1) !! n = m_databases (fst s) !! n)
  /\ (forall e, r = Throw e -> m_databases (fst s1) = m_databases (fst s)
      /\ exists rc d w1, sqlite3_open (path_string (path_append (databases_folder cfg)
             (path_of name))) (snd s) = (rc, d, w1) /\ rc <> SQLITE_OK
           /\ snd s1 = sqlite3_close d w1)
  /\ m_authenticated (fst s1) = m_authenticated (fst s).
Proof.
  unfold get_database_connection, out, SQLDatabase_open.
  destruct (m_databases (fst s) !! name) as [d0|] eqn:E.
  - intros H; simplify_eq. split_and!; try done. intros d H; simplify_eq. by rewrite E.
  - destruct (sqlite3_open _ _) as [[rc d] w1] eqn:Ho.
    destruct (rc =? SQLITE_OK) eqn:Hrc; simpl; intros H; simplify_eq; simpl.
    + split_and!; try done.
      * intros d' H; simplify_eq. by rewrite lookup_insert_eq.
      * intros n Hne. by rewrite lookup_insert_ne.
    + split_and!; try done. intros e _. split; [done|]. exists rc, d, w1.
      breflect. done.
Qed.

(** C16: [DELETE_DB] of an accepted name answers "ok" exactly when the file system removed the
    file, and only then drops and closes this client's connection of that very name; every
    other cached connection survives, also one opened under another spelling of the same
    file. *)
Theorem delete_reply (j db : json J) (name : string) (s : world) (result : bool) (w1 : W) :
  find j "db" = Some db -> as_string db = Some name ->
  is_safe_database_name name (snd s) = true ->
  remove (path_append (databases_folder cfg) (path_of name)) (snd s) = (Some result, w1) ->
  let '(r, s') := handle_delete_db j s in
  r = reply (fields [("result", j_str (if result then "ok" else "error"))])
  /\ m_databases (fst s') !! name = (if result then None else m_databases (fst s) !! name)
  /\ (forall n, n <> name -> m_databases (fst s') !! n = m_databases (fst s) !! n)
  /\ snd s' = match m_databases (fst s) !! name with
              | Some d => if result then sqlite3_close d w1 else w1
              | None => w1
              end.
Proof.
  intros Hd Hn Hu Hr. unfold handle_delete_db. rewrite Hd. unfold mbnd, get_string. rewrite Hn.
  unfold mret. rewrite Hu, Hr. simpl. rewrite respond_reply. unfold erase_database. simpl.
  destruct result, (m_databases (fst s) !! name) eqn:E; simpl; rewrite ?E; split_and!; try done.
  - by rewrite lookup_delete_eq.
  - intros n Hne. by rewrite lookup_delete_ne.
Qed.

(** *** LIST *)

Lemma list_entries_spec es w :
  Forall (fun e => is_Some (is_regular_file e w)) es ->
  list_entries es w
  = (Ret (map (fun e => j_str (filename e))
           (filter (fun e => is_regular_file e w = Some true
                             /\ is_sqlite_sidecar_file (filename e) = false) es)), w).
Proof.
  induction 1 as [|e es [b Hb] Hes IH]; [done|]. cbn [list_entries]. rewrite Hb, IH.
  rewrite filter_cons. case_decide as Hd.
  - destruct Hd as [Hb' ->]. rewrite Hb in Hb'. by simplify_eq.
  - destruct b, (is_sqlite_sidecar_file (filename e)); simpl; try done. by destruct Hd.
Qed.

(** [LIST] answers with the names of exactly the regular files directly in the folder that
    do not end in "-wal", "-shm" or "-journal", in directory order, and changes nothing. *)
Theorem list_reply {HT : TextLaws T} (s : world) (entries : list (path F)) :
  is_directory (databases_folder cfg) (snd s) = Some true ->
  directory_entries (databases_folder cfg) (snd s) = Some entries ->
  Forall (fun e => is_Some (is_regular_file e (snd s))) entries ->
  exists names,
    handle_list s = (reply (fields [("list", j_arr (map j_str names))]), s)
    /\ names `sublist_of` map filename entries
    /\ forall n, In n names <-> exists e, In e entries /\ filename e = n
         /\ is_regular_file e (snd s) = Some true
         /\ ~ exists p, n = p +:+ "-wal" \/ n = p +:+ "-shm" \/ n = p +:+ "-journal".
Proof.
  intros Hd He Hr. unfold handle_list. rewrite Hd, He. unfold mbnd, out.
  rewrite list_entries_spec by done.
  set (keep := filter _ _). exists (map filename keep).
  rewrite respond_reply, map_map. split; [by destruct s|]. split.
  - apply (fmap_sublist filename), sublist_filter.
  - intros n. rewrite in_map_iff. subst keep. setoid_rewrite <- list_elem_of_In.
    setoid_rewrite list_elem_of_filter. split.
    + intros (e & <- & [Hf Hs] & Hin). exists e. split_and!; try done.
      unfold is_sqlite_sidecar_file in Hs. breflect.
      assert (forall t, ends_with (filename e) t = false -> ~ exists p, filename e = p +:+ t) as Hw.
      { intros t Ht Hp. apply (ends_with_spec (filename e) t) in Hp. congruence. }
      intros (p & [Hp|[Hp|Hp]]);
        [apply (Hw "-wal")|apply (Hw "-shm")|apply (Hw "-journal")]; by eauto.
    + intros (e & Hin & <- & Hf & Hs). exists e. split_and!; try done.
      unfold is_sqlite_sidecar_file.
      destruct (ends_with _ "-wal") eqn:E1; [apply ends_with_spec in E1 as [p ?]; exfalso; eauto|].
      destruct (ends_with _ "-shm") eqn:E2; [apply ends_with_spec in E2 as [p ?]; exfalso; eauto|].
      destruct (ends_with _ "-journal") eqn:E3; [apply ends_with_spec in E3 as [p ?]; exfalso; eauto 6|].
      done.
Qed.
End Handler.

(** ** The BLOB literal read back *)

Definition unhex_digit (c : Ascii.ascii) : option Z :=
  Z.of_nat <$> (fst <$> list_find (fun x => x = c) hexmap).

Fixpoint unhex (s : string) : option (list Z) :=
  match s with
  | EmptyString => Some []
  | String c1 (String c2 s') =>
      h ← unhex_digit c1; l ← unhex_digit c2; rest ← unhex s'; Some (h * 16 + l :: rest)
  | String _ EmptyString => None
  end.

Lemma unhex_hexdigit i : 0 <= i < 16 -> unhex_digit (hexdigit i) = Some i.
Proof.
  intros Hi.
  assert (Forall (fun n => unhex_digit (hexdigit (Z.of_nat n)) = Some (Z.of_nat n)) (seq 0 16)) as H
    by (repeat constructor).
  rewrite List.Forall_forall in H. specialize (H (Z.to_nat i)).
  rewrite Z2Nat.id in H by lia. apply H, in_seq. lia.
Qed.

Lemma i8_nibbles b : is_byte b ->
  Z.shiftr (Z.land (i8 b) 240) 4 = b / 16 /\ Z.land (i8 b) 15 = b mod 16.
Proof.
  intros Hb.
  assert (Z.land (i8 b) 255 = b) as H.
  { change 255 with (Z.ones 8). rewrite <- wrapu_land, wraps_wrapu by lia.
    apply wrapu_small. unfold is_byte in Hb. lia. }
  assert (Z.land (i8 b) 240 = Z.land b 240) as ->
    by (rewrite <- H at 2; by rewrite <- Z.land_assoc).
  assert (Z.land (i8 b) 15 = Z.land b 15) as ->
    by (rewrite <- H at 2; by rewrite <- Z.land_assoc).
  split.
  - rewrite Z.shiftr_land. change (Z.shiftr 240 4) with (Z.ones 4).
    rewrite Z.land_ones, Z.shiftr_div_pow2 by lia. change (2 ^ 4) with 16.
    apply Z.mod_small. unfold is_byte in Hb.
    split; [apply Z.div_pos|apply Z.div_lt_upper_bound]; lia.
  - change 15 with (Z.ones 4). by rewrite Z.land_ones by lia.
Qed.

(** A BLOB survives the trip: the literal [X'<hex>'] in a row is two lowercase hex digits per
    byte, and decoding them gives exactly the blob's bytes (also those above 127, although the
    code computes on a signed [char]). *)
Theorem blob_roundtrip (data : list Z) :
  bytes_ok data ->
  unhex (hexStr data) = Some data /\ String.length (hexStr data) = (2 * length data)%nat.
Proof.
  induction 1 as [|b data Hb _ [IH1 IH2]]; [done|]. cbn [hexStr unhex].
  destruct (i8_nibbles b Hb) as [-> ->].
  pose proof (Z.mod_pos_bound b 16). unfold is_byte in Hb.
  assert (0 <= b / 16 < 16) by (split; [apply Z.div_pos|apply Z.div_lt_upper_bound]; lia).
  rewrite !unhex_hexdigit, IH1 by lia. cbn [mbind option_bind].
  split; [|cbn [String.length length]; lia]. do 2 f_equal.
  rewrite (Z.div_mod b 16) at 3 by lia. lia.
Qed.
