(* ===== verification/Server.v ===== *)
(** * Server: accepting connections and the whole conversation (ListenSocket.h, Network.h)

[on_accept] is the completion handler of [ListenSocket::do_accept]; [server_step] interleaves
the accept handler with the completion handlers of all live connections, each connection
having its own [RequestHandler] and all sharing the outside world.  [conversation] puts the
framing, the socket and the request handler together for one connection. *)

From S2P Require Import Prelude Frame SQLiteSocket External Config SqlWrapper RequestHandler.
From stdpp Require Import options.

Section Server.
Context {W double : Type} {A : SqlApi W double} {J : JsonLib double} {F : FsLib W} {T : TextLib}
  {L : AsioLib W}.
Context (cfg : @Config W F) (host : endian) (fuel : nat).

Abbreviation hs := (hstate (A := A)).
Abbreviation session := (@Socket.conn (hs * W)).

(** [handle_request] as a connection sees it: the response's buffer, or an escaped exception. *)
Definition connection_handler (s : hs * W) (req : list Z) : option (list Z * (hs * W)) :=
  match handle_request cfg fuel (string_of_bytes req) s with
  | (Ret text, s') => Some (response_data (bytes_of_string text), s')
  | _ => None
  end.

Definition session_step : session -> Socket.event -> option session :=
  Socket.conn_step connection_handler (client_max_packet_size cfg) host.

(** ** Listening *)

Record server := mkServer {
  acceptor_open : bool;
  accept_pending : bool;
  sessions : list (address * session);   (* in the order they were accepted *)
  world : W;
  dead : bool                            (* the process was terminated *)
}.

Definition server_init (w : W) : server := mkServer true true [] w false.

(** Completion of an accept: its error code, and what [remote_endpoint] gave ([None]: error). *)
Definition on_accept (ec : bool) (remote : option address) (s : server) : server :=
  if negb (acceptor_open s) then mkServer false false (sessions s) (world s) (dead s)
  else
    let started :=
      if ec then []
      else match remote with
           | Some a => if is_ip_allowed cfg a
                       then [(a, Socket.conn_init (mkH ∅ false, world s))] else []
           | None => []
           end in
    mkServer true true (sessions s ++ started) (world s) (dead s).

(** One session's event, on the world as it is now. *)
Definition with_world (w : W) (c : session) : session :=
  Socket.set_handler (fst (Socket.st c), w) (Socket.terminated c) (Socket.handled c)
    (Socket.produced c) c.

Definition on_session (i : nat) (e : Socket.event) (s : server) : option server :=
  match sessions s !! i with
  | None => None
  | Some (a, c) =>
      match session_step (with_world (world s) c) e with
      | None => None
      | Some c' => Some (mkServer (acceptor_open s) (accept_pending s)
                           (<[i := (a, c')]> (sessions s)) (snd (Socket.st c'))
                           (Socket.terminated c'))
      end
  end.

Inductive server_step : server -> server -> Prop :=
  | step_accept s ec remote :
      dead s = false -> accept_pending s = true -> server_step s (on_accept ec remote s)
  | step_session s i e s' :
      dead s = false -> on_session i e s = Some s' -> server_step s s'.

(** ** Lemmas *)

Lemma string_of_request b : bytes_ok b -> bytes_of_string (string_of_bytes b) = b.
Proof. apply bytes_of_string_of_bytes. Qed.

(** A request leaves the authentication flag alone unless it carries the password. *)
Definition keeps_auth {B} (c : M (hs * W) exn B) : Prop :=
  forall s, m_authenticated (fst (snd (c s))) = m_authenticated (fst s).

Lemma keeps_auth_bnd {B C} (c : M (hs * W) exn B) (k : B -> M (hs * W) exn C) :
  keeps_auth c -> (forall b, keeps_auth (k b)) -> keeps_auth (mbnd c k).
Proof.
  intros Hc Hk s. unfold mbnd. specialize (Hc s).
  destruct (c s) as [[b|e|] s1]; simpl in *; [|done|done]. by rewrite Hk.
Qed.

Lemma keeps_auth_ret {B} (b : B) : keeps_auth (mret b).
Proof. by intros s. Qed.

Lemma keeps_auth_out {B} (c : M W exn B) : keeps_auth (out c).
Proof. intros s. unfold out. by destruct (c (snd s)). Qed.

Lemma keeps_auth_respond j : keeps_auth (respond (J := J) j).
Proof. intros s. by rewrite respond_reply. Qed.

Lemma keeps_auth_get_string v : keeps_auth (get_string (J := J) v).
Proof. intros s. unfold get_string, mret, mthrow. by case_match. Qed.

Lemma keeps_auth_connection d : keeps_auth (get_database_connection cfg d).
Proof.
  intros s. unfold get_database_connection, out. case_match; [done|].
  by destruct (SQLDatabase_open _ _ _) as [[?|?|] ?].
Qed.

Lemma keeps_auth_statement {B} st (c : M (hs * W) exn B) :
  keeps_auth c -> keeps_auth (with_statement st c).
Proof. intros Hc s. unfold with_statement. specialize (Hc s). by destruct (c s). Qed.

Lemma keeps_auth_catch {B} (c : M (hs * W) exn B) h :
  keeps_auth c -> (forall e c', h e = Some c' -> keeps_auth c') -> keeps_auth (mcatch c h).
Proof.
  intros Hc Hh s. unfold mcatch. specialize (Hc s).
  destruct (c s) as [[b|e|] s1]; simpl in *; [done| |done].
  destruct (h e) eqn:E; [|done]. by rewrite (Hh _ _ E).
Qed.

Lemma keeps_auth_query j : keeps_auth (handle_query cfg fuel j).
Proof.
  intros s. unfold handle_query, generic_error.
  destruct (find j "db"); [|apply keeps_auth_respond].
  destruct (find j "query"); [|apply keeps_auth_respond].
  apply keeps_auth_bnd; [apply keeps_auth_get_string|intros d].
  apply keeps_auth_bnd; [apply keeps_auth_get_string|intros q s1].
  case_if; [apply keeps_auth_respond|].
  apply keeps_auth_catch.
  - unfold run_query. repeat (apply keeps_auth_bnd; [|intros]);
      auto using keeps_auth_connection, keeps_auth_out.
    apply keeps_auth_statement. intros s2. unfold read_rows.
    apply keeps_auth_bnd; [apply keeps_auth_out|intros; apply keeps_auth_respond].
  - intros e c'. unfold query_error. destruct e; intros; simplify_eq. apply keeps_auth_respond.
Qed.

Lemma keeps_auth_list : keeps_auth (handle_list (J := J) (A := A) cfg).
Proof.
  intros s. unfold handle_list. repeat case_match; try done; [|apply keeps_auth_respond].
  apply keeps_auth_bnd; [apply keeps_auth_out|intros; apply keeps_auth_respond].
Qed.

Lemma keeps_auth_delete j : keeps_auth (handle_delete_db cfg j).
Proof.
  intros s. unfold handle_delete_db, generic_error.
  destruct (find j "db"); [|apply keeps_auth_respond].
  apply keeps_auth_bnd; [apply keeps_auth_get_string|intros d s1].
  case_if; [apply keeps_auth_respond|].
  destruct (remove _ _) as [[b|] w']; [|done].
  rewrite keeps_auth_respond. unfold erase_database. simpl. destruct b; [by case_match|done].
Qed.

Lemma keeps_auth_dispatch req j : keeps_auth (dispatch cfg fuel req j).
Proof.
  unfold dispatch, generic_error. case_match; [|apply keeps_auth_respond].
  apply keeps_auth_bnd; [apply keeps_auth_get_string|intros c].
  repeat case_if; auto using keeps_auth_query, keeps_auth_list, keeps_auth_delete, keeps_auth_respond.
Qed.

Lemma handle_request_auth req s :
  m_authenticated (fst (snd (handle_request cfg fuel req s))) = true ->
  m_authenticated (fst s) = true \/ offers_password (J := J) cfg req.
Proof.
  unfold handle_request, offers_password.
  destruct (parse_request req) as [[what|what]|j].
  - rewrite keeps_auth_respond. auto.
  - simpl. auto.
  - repeat case_decide; [rewrite keeps_auth_dispatch; auto|right; by exists j|].
    case_if; [auto|]. rewrite keeps_auth_respond. congruence.
Qed.

(** ** The invariant of the whole server *)

Definition session_ok (x : address * session) : Prop :=
  is_ip_allowed cfg (fst x) = true
  /\ (m_authenticated (fst (Socket.st (snd x))) = true ->
      exists r, In r (Socket.handled (snd x))
                /\ offers_password (J := J) cfg (string_of_bytes r)).

Lemma session_step_ok a c e c' :
  session_ok (a, c) -> session_step c e = Some c' -> Socket.terminated c' = false ->
  session_ok (a, c').
Proof.
  intros [Ha Hm] Hs Ht. split; [exact Ha|]. simpl in *.
  unfold session_step, Socket.conn_step in Hs. destruct (Socket.terminated c); [done|].
  destruct e as [bs|ec|ec|ec]; simplify_eq.
  - exact Hm.
  - do 2 (case_if_in Hs; simplify_eq); unfold Socket.header_done; repeat case_if; exact Hm.
  - do 2 (case_if_in Hs; simplify_eq). revert Ht. unfold Socket.body_done.
    destruct ec; [intros; by apply Hm|]. set (rq := take _ _).
    destruct (connection_handler (Socket.st c) rq) as [[resp s']|] eqn:Hh; [|done]. intros _.
    assert (m_authenticated (fst s') = true ->
      exists r, In r (Socket.handled c ++ [rq]) /\ offers_password (J := J) cfg (string_of_bytes r))
      as Hn.
    { intros Hs'. unfold connection_handler in Hh.
      destruct (handle_request cfg fuel (string_of_bytes rq) (Socket.st c)) as [[t| |] s2] eqn:E;
        simplify_eq.
      destruct (handle_request_auth (string_of_bytes rq) (Socket.st c)) as [H|H];
        [by rewrite E| |].
      - destruct (Hm H) as (r & ? & ?). exists r. rewrite in_app_iff. auto.
      - exists rq. rewrite in_app_iff. simpl. auto. }
    unfold Socket.send_response, Socket.do_read; simpl. repeat case_match; exact Hn.
  - case_if_in Hs; simplify_eq. unfold Socket.write_done, Socket.do_write.
    destruct ec; [exact Hm|]. case_match; exact Hm.
Qed.

Definition server_ok (s : server) : Prop :=
  dead s = true \/ (Forall session_ok (sessions s) /\ accept_pending s = acceptor_open s).

Lemma server_step_ok s s' : server_step s s' -> server_ok s -> server_ok s'.
Proof.
  intros Hs Hi. destruct Hs as [s ec remote Hd Hp|s i e s' Hd Hs];
    (destruct Hi as [?|[Hi Ha]]; [congruence|]).
  - right. unfold on_accept. destruct (acceptor_open s); simpl; [|done]. split; [|done].
    apply Forall_app. split; [done|]. destruct ec; [done|]. destruct remote as [a|]; [|done].
    destruct (is_ip_allowed cfg a) eqn:E; [|done]. repeat constructor; done.
  - unfold on_session in Hs. destruct (sessions s !! i) as [[a c]|] eqn:Hc; [|done].
    destruct (session_step _ e) as [c'|] eqn:E; [|done]. simplify_eq.
    destruct (Socket.terminated c') eqn:Ht; [by left|]. right. split; [|done]. simpl.
    apply Forall_insert; [done|]. eapply session_step_ok; [|exact E|done].
    eapply Forall_lookup_1 in Hi; [|exact Hc]. exact Hi.
Qed.

(** ** Properties *)

(** C3: in every reachable state of the running server, whatever the interleaving of accepts
    and of the connections' completions: every live session belongs to a peer the whitelist
    allows, a session is authenticated only if one of the requests it itself sent carried the
    password (one client's login never authenticates another), and the listener has an accept
    outstanding whenever its acceptor is open. *)
Theorem reachable_sessions (w : W) (s : server) :
  rtc server_step (server_init w) s -> dead s = false ->
  Forall (fun x => is_ip_allowed cfg (fst x) = true
            /\ (m_authenticated (fst (Socket.st (snd x))) = true ->
                exists r, In r (Socket.handled (snd x))
                          /\ offers_password (J := J) cfg (string_of_bytes r)))
    (sessions s)
  /\ accept_pending s = acceptor_open s.
Proof.
  intros Hr Hd. assert (server_ok s) as [?|H]; [|congruence|exact H].
  assert (server_ok (server_init w)) as Hi by (right; simpl; auto).
  clear Hd. induction Hr; eauto using server_step_ok.
Qed.


(** A session waiting for a header, with nothing buffered. *)
Definition idle (c : session) : Prop :=
  Socket.reading c = ReadHeader /\ Socket.in_buf c = [] /\ Socket.terminated c = false.

(** The frame of [b] arriving at an idle session is read up to the call of the handler. *)
Lemma idle_reads (s : server) i a c b :
  host = Little -> dead s = false -> sessions s !! i = Some (a, c) -> idle c ->
  zlen b <= client_max_packet_size cfg -> client_max_packet_size cfg < 2 ^ 32 ->
  connection_handler (fst (Socket.st c), world s) b = None ->
  exists s', rtc server_step s s' /\ dead s' = true.
Proof.
  intros Hh Hd Hi (Hr & Hb & Ht) Hl Hm Hc.
  assert (load32 host (take header_size (response_data b)) = zlen b) as Hload.
  { unfold response_data. rewrite take_header, Hh. unfold load32.
    rewrite le_load_header by (apply wrapu_range; lia).
    apply wrapu_small. pose proof (zlen_nonneg b). lia. }
  assert (drop header_size (response_data b) = b) as Hdrop.
  { unfold response_data. apply drop_header. }
  set (c1 := Socket.set_read (response_data b) ReadHeader (Socket.m_packet_size c)
               (Socket.m_request c) (Socket.is_open c) (with_world (world s) c)).
  set (c2 := Socket.set_read b ReadBody (zlen b)
               (str_resize (Z.to_nat (zlen b)) (Socket.m_request c)) (Socket.is_open c) c1).
  assert (forall w d, world s = w -> Socket.st d = (fst (Socket.st c), w) -> with_world w d = d)
    as Hww by (intros w [] _ Hst; unfold with_world, Socket.set_handler; simpl in *; by rewrite Hst).
  assert (session_step (with_world (world s) c) (Socket.Recv (response_data b)) = Some c1) as S1.
  { unfold session_step, Socket.conn_step. simpl. by rewrite Ht, Hb, Hr. }
  assert (session_step c1 (Socket.HeaderDone false) = Some c2) as S2.
  { unfold session_step, Socket.conn_step. change (Socket.terminated c1) with (Socket.terminated c).
    change (Socket.reading c1) with ReadHeader. change (Socket.in_buf c1) with (response_data b).
    rewrite Ht, decide_True by done. cbn [orb]. case_if.
    - unfold Socket.header_done. change (Socket.in_buf c1) with (response_data b).
      rewrite Hload, Hdrop. case_if; [lia|]. done.
    - unfold response_data in Hif. rewrite length_app, length_header in Hif. lia. }
  assert (exists c3, session_step c2 (Socket.BodyDone false) = Some c3
            /\ Socket.terminated c3 = true) as (c3 & S3 & T3).
  { assert (length (Socket.m_request c2) = length b) as Hlen.
    { change (Socket.m_request c2) with (str_resize (Z.to_nat (zlen b)) (Socket.m_request c)).
      rewrite Socket.length_str_resize. unfold zlen. lia. }
    exists (Socket.body_done connection_handler false c2).
    unfold session_step, Socket.conn_step, Socket.body_done. rewrite Hlen.
    change (Socket.terminated c2) with (Socket.terminated c).
    change (Socket.in_buf c2) with b. change (Socket.reading c2) with ReadBody.
    change (Socket.st c2) with (fst (Socket.st c), world s).
    rewrite Ht, decide_True, Nat.leb_refl, take_ge, Hc by (done || lia). done. }
  pose (put := fun d t => mkServer (acceptor_open s) (accept_pending s)
                 (<[i := (a, d)]> (sessions s)) (world s) t).
  assert (i < length (sessions s))%nat as Hlt by (by eapply lookup_lt_Some).
  assert (forall d t, sessions (put d t) !! i = Some (a, d)) as Hput
    by (intros; by apply list_lookup_insert_eq).
  exists (mkServer (acceptor_open s) (accept_pending s) (<[i := (a, c3)]> (sessions s))
            (snd (Socket.st c3)) true). split; [|done].
  apply rtc_l with (put c1 false).
  { apply step_session with i (Socket.Recv (response_data b)); [done|].
    unfold on_session. rewrite Hi, S1. simpl. by rewrite Ht. }
  apply rtc_l with (put c2 false).
  { apply step_session with i (Socket.HeaderDone false); [done|].
    unfold on_session. rewrite Hput, Hww by done. rewrite S2. unfold put. simpl.
    by rewrite list_insert_insert_eq, Ht. }
  apply rtc_once. apply step_session with i (Socket.BodyDone false); [done|].
  unfold on_session. rewrite Hput, Hww by done. rewrite S3. unfold put. simpl.
  by rewrite list_insert_insert_eq, T3.
Qed.

(** C11: one message from any admitted peer, authenticated or not, can end the server process for
    everybody: a body that is not JSON and that [dump] rejects when it is echoed back (one byte
    that is not UTF-8 is enough) makes the reply throw, and nothing between the handler and the
    worker thread catches it.  Likewise a body with a number too large for a double. *)
Theorem one_message_stops_the_server (s : server) (i : nat) (a : address) (c : session)
    (b : list Z) :
  host = Little -> dead s = false -> sessions s !! i = Some (a, c) -> idle c ->
  zlen b <= client_max_packet_size cfg -> client_max_packet_size cfg < 2 ^ 32 ->
  (exists what, parse_request (J := J) (string_of_bytes b) = inl (ParseOutOfRange what)
     \/ parse_request (J := J) (string_of_bytes b) = inl (ParseError what)
        /\ dump (fields [("generic_error", j_int INVALID_FORMAT); ("message", j_str what);
                         ("request", j_str (string_of_bytes b))]) = None) ->
  exists s', rtc server_step s s' /\ dead s' = true.
Proof.
  intros Hh Hd Hi Hc Hl Hm (what & Hp). apply (idle_reads s i a c b); try done.
  unfold connection_handler, handle_request.
  destruct Hp as [Hp|[Hp Hdump]]; rewrite Hp; [done|].
  rewrite respond_reply. unfold reply. by rewrite Hdump.
Qed.
End Server.
