(* ===== verification/Concrete.v ===== *)
(** * Concrete: executable instances of the external interfaces

Small concrete libraries that satisfy the laws of External.v, on which the witnesses of the
server's theorems are evaluated: a JSON value type with a parser that knows a few texts, a
lexical file system, exact text functions, address parsing for a few addresses and a toy
SQLite.  They stand for no particular behaviour of the real libraries beyond the laws. *)

From S2P Require Import Prelude External Config SqlWrapper RequestHandler Frame SQLiteSocket Server.
From stdpp Require Import options.

(** ** JSON *)

#[warnings="-register-all"]
Inductive jv :=
  | VNull | VInt (z : Z) | VReal (z : Z) | VStr (s : string) | VArr (l : list jv)
  | VObj (l : list (string * jv)).

Definition v_find (j : jv) (k : string) : option jv :=
  match j with VObj l => (list_to_map l : gmap string jv) !! k | _ => None end.

(** Every byte is ASCII: what [dump] accepts here. *)
Fixpoint ascii_only (s : string) : bool :=
  match s with EmptyString => true | String c s' => (Z_of_ascii c <? 128) && ascii_only s' end.

Definition quote : string := String (ascii_of_Z 34) EmptyString.

Fixpoint v_dump (j : jv) : option string :=
  match j with
  | VNull => Some "null"
  | VInt z | VReal z => Some (pretty.pretty z)
  | VStr s => if ascii_only s then Some (quote +:+ s +:+ quote) else None
  | VArr l => s ← (fix go l := match l with [] => Some "" | x :: l' =>
                     a ← v_dump x; b ← go l'; Some (a +:+ "," +:+ b) end) l;
              Some ("[" +:+ s +:+ "]")
  | VObj l => s ← (fix go l := match l with [] => Some "" | (k, x) :: l' =>
                     a ← v_dump x; b ← go l'; Some (quote +:+ k +:+ quote +:+ ":" +:+ a +:+ "," +:+ b) end) l;
              Some ("{" +:+ s +:+ "}")
  end.

Definition not_utf8 : string := String (ascii_of_Z 255) EmptyString.

Definition v_parse (s : string) : parse_failure + jv :=
  if decide (s = "login") then inr (VObj [("auth", VStr "secret")])
  else if decide (s = "query") then
    inr (VObj [("cmd", VStr "QUERY"); ("db", VStr "b"); ("query", VStr "SELECT n")])
  else if decide (s = "cmd1") then inr (VObj [("cmd", VInt 1)])
  else if decide (s = "huge") then inl (ParseOutOfRange "number overflow")
  else inl (ParseError "syntax error").

#[export] Instance v_json : JsonLib Z := {|
  json := jv; parse := v_parse; dump := v_dump; find := v_find;
  as_string j := match j with VStr s => Some s | _ => None end;
  as_uint n j := match j with VInt z => Some (wrapu n z) | _ => None end;
  is_number_unsigned j := match j with VInt z => 0 <=? z | _ => false end;
  as_array j := match j with VArr l => Some l | _ => None end;
  j_null := VNull; j_int := VInt; j_real := VReal; j_str := VStr; j_arr := VArr;
  j_obj m := VObj (map_to_list m)
|}.

#[export] Instance v_json_laws : JsonLaws v_json.
Proof. split; try done. intros m k. simpl. by rewrite list_to_map_to_list. Qed.

(** ** Text *)

Fixpoint suffixes (s : string) : list string :=
  s :: match s with EmptyString => [] | String _ s' => suffixes s' end.

#[export] Instance v_text : TextLib := {|
  iequals a b := bool_decide (a = b);
  ends_with s t := bool_decide (t ∈ suffixes s);
  trim s := s;
  quote_keys s := s
|}.

#[export] Instance v_text_laws : TextLaws v_text.
Proof.
  split.
  - intros s. by apply bool_decide_eq_true.
  - intros s t. simpl. rewrite bool_decide_eq_true.
    induction s as [|c s IH]; simpl; rewrite elem_of_cons, ?elem_of_nil.
    + split; [intros [->|[]]; by exists ""|]. intros [[|p] Hp]; by left.
    + rewrite IH. split.
      * intros [->|[p ->]]; [by exists ""|by exists (String c p)].
      * intros [[|x p] Hp]; [by left|]. injection Hp as -> ->. right. by exists p.
Qed.

(** ** World, file system, SQLite *)

Record cworld := mkW { files : list (list string); opened : nat; rows_left : nat }.

Fixpoint split_slash (item s : string) : list string :=
  match s with
  | EmptyString => if decide (item = EmptyString) then [] else [item]
  | String c s' =>
      if Ascii.eqb c "/"%char
      then (if decide (item = EmptyString) then [] else [item]) ++ split_slash EmptyString s'
      else split_slash (item +:+ String c EmptyString) s'
  end.

Definition c_path (s : string) : list string :=
  match s with
  | String "/" s' => "/" :: split_slash EmptyString s'
  | _ => split_slash EmptyString s
  end.

Fixpoint normalize (acc p : list string) : list string :=
  match p with
  | [] => "/" :: rev acc
  | e :: p' =>
      if decide (e = "." \/ e = "/") then normalize acc p'
      else if decide (e = "..") then normalize (tail acc) p'
      else normalize (e :: acc) p'
  end.

#[export] Instance c_fs : FsLib cworld := {|
  path := list string; path_of := c_path; path_string := String.concat "/";
  is_absolute p := bool_decide (head p = Some "/");
  path_append := app;
  weakly_canonical p _ := Some (normalize [] p);
  lexically_relative := relative_elements;
  elements p := p;
  has_parent_path p := (2 <=? length p)%nat;
  filename p := default "" (last p);
  system_complete p _ := p;
  exists_path p _ := true;
  read_file p _ := "";
  is_directory p _ := Some true;
  directory_entries p w := Some (files w);
  is_regular_file p w := Some true;
  remove p w := (Some (bool_decide (normalize [] p ∈ files w)),
                 mkW (filter (fun f => f <> normalize [] p) (files w)) (opened w) (rows_left w))
|}.

#[export] Instance c_fs_laws : FsLaws c_fs.
Proof.
  split.
  - intros p w q H. simpl in *. simplify_eq.
    assert (forall acc, exists l, normalize acc p = "/" :: l) as Hn; [|apply Hn].
    induction p as [|e p IH]; intros acc; simpl; [by eexists|].
    repeat case_decide; apply IH.
  - done.
  - intros p b. apply Nat.leb_le.
Qed.

#[export] Instance c_sql : SqlApi cworld Z := {|
  sqlite3 := string; sqlite3_stmt := string;
  sqlite3_open p w := (if decide (p = "//d/missing") then 14 else 0, p,
                       mkW (files w) (S (opened w)) (rows_left w));
  sqlite3_close _ w := mkW (files w) (pred (opened w)) (rows_left w);
  sqlite3_errcode _ _ := 1; sqlite3_extended_errcode _ _ := 1; sqlite3_errmsg _ _ := "error";
  sqlite3_busy_timeout _ _ w := w;
  sqlite3_prepare_v2 db q _ w := (0, Some q, w);
  sqlite3_step st w :=
    match rows_left w with
    | O => (101, w)
    | S n => (100, mkW (files w) (opened w) n)
    end;
  sqlite3_db_handle _ := "";
  sqlite3_clear_bindings _ w := w; sqlite3_finalize _ w := w;
  sqlite3_column_count _ _ := 1; sqlite3_column_name _ _ _ := "n"; sqlite3_column_type _ _ _ := 1;
  sqlite3_value_int64 _ _ w := Z.of_nat (rows_left w); sqlite3_value_double _ _ _ := 0;
  sqlite3_value_text _ _ _ := ""; sqlite3_value_blob _ _ _ := []
|}.

(** ** Addresses *)

Definition mask (w : Z) (n : network) : network :=
  mkNetwork (net_addr n - net_addr n mod 2 ^ (w - prefix_length n)) (prefix_length n).

#[export] Instance c_asio : AsioLib cworld := {|
  make_network_v4 s := if decide (s = "10.1.2.3/8") then Some (mkNetwork (10 * 2 ^ 24 + 66051) 8) else None;
  make_network_v6 s := if decide (s = "2001:db8::/32") then Some (mkNetwork (536939960 * 2 ^ 96) 32) else None;
  make_address_v4 s := if decide (s = "127.0.0.1") then Some (127 * 2 ^ 24 + 1) else None;
  make_address_v6 s := if decide (s = "::1") then Some 1 else None;
  canonical_v4 := mask 32; canonical_v6 := mask 128;
  network_string_v4 _ := "4"; network_string_v6 _ := "6";
  resolve _ _ _ := Some [mkEndpoint (AddrV6 1) 4000; mkEndpoint (AddrV4 (127 * 2 ^ 24 + 1)) 4000]
|}.

#[export] Instance c_asio_laws : AsioLaws c_asio.
Proof.
  split; simpl; try done; intros s n H; case_decide; simplify_eq; simpl; lia.
Qed.

(** ** Witnesses of Config.v *)

Definition c_options : options :=
  mkOptions None "::1" 4000 "secret" "10.1.2.3/8,127.0.0.1" "/d" 2 1024 5000.

Definition c_config : @Config cworld c_fs := Eval vm_compute in
  match startup (fun _ => "4000") c_options (mkW [] 0 0) with
  | Serve c => c
  | _ => mkConfig 0 0 0 fallback_endpoint ([] : path c_fs) "" [] []
  end.

Lemma whitelist_admits_witness :
  is_ip_allowed c_config (AddrV4 (10 * 2 ^ 24 + 5)) = true
  <-> split_csv (opt_ip_whitelist c_options) = []
      \/ exists e, In e (split_csv (opt_ip_whitelist c_options))
                   /\ entry_allows e (AddrV4 (10 * 2 ^ 24 + 5)).
Proof.
  refine (whitelist_admits (fun _ => "4000") c_options (mkW [] 0 0) (mkW [] 0 0) c_config
            (AddrV4 (10 * 2 ^ 24 + 5)) _ _ _); [reflexivity|vm_compute; reflexivity|].
  simpl. lia.
Defined.

Lemma startup_from_options_witness :
  busy_timeout_ms c_config = 5000.
Proof.
  pose proof (startup_from_options (fun _ => "4000") c_options (mkW [] 0 0) eq_refl) as H.
  vm_compute in H. vm_compute. apply H.
Defined.

(** ** Witnesses of RequestHandler.v *)

Definition c_state : hstate (A := c_sql) * cworld :=
  (mkH ∅ false, mkW [["/"; "d"; "b"]; ["/"; "d"; "b-wal"]] 0 2).

Definition c_authenticated : hstate (A := c_sql) * cworld := (mkH ∅ true, snd c_state).

Definition c_query : json v_json := VObj [("cmd", VStr "QUERY"); ("db", VStr "b"); ("query", VStr "SELECT n")].

Definition c_escape : json v_json := VObj [("db", VStr "../etc/passwd"); ("query", VStr "SELECT n")].

Lemma sql_errors_are_replies_witness :
  JsonOutOfRange "number overflow" = JsonTypeError
  \/ JsonOutOfRange "number overflow" = FilesystemError
  \/ exists what, parse_request (J := v_json) "huge" = inl (ParseOutOfRange what)
       /\ JsonOutOfRange "number overflow" = JsonOutOfRange what.
Proof.
  exact (sql_errors_are_replies c_config 5 "huge" c_state (JsonOutOfRange "number overflow") eq_refl).
Defined.

Lemma auth_gate_witness :
  serve c_config 5 ["query"; "junk"] c_state
  = (map (refusal (J := v_json)) ["query"; "junk"], c_state).
Proof.
  apply (auth_gate c_config 5 ["query"; "junk"] c_state).
  - vm_compute. discriminate.
  - reflexivity.
  - repeat constructor; intros (j & Hp & Ho); vm_compute in Hp; simplify_eq; vm_compute in Ho;
      discriminate Ho.
Defined.

Lemma auth_opens_witness :
  handle_request c_config 5 "login" c_state
  = (reply (fields [("result", j_str "ok")]), set_authenticated c_state)
  /\ fst (handle_request c_config 5 "query" (set_authenticated c_state))
     = Ret (default "" (v_dump (VObj [("columns", VArr [VStr "n"]);
              ("data", VArr [VObj [("n", VInt 1)]; VObj [("n", VInt 0)]])]))).
Proof.
  destruct (auth_opens c_config 5 "login" "query" c_query c_state) as [-> ->].
  - vm_compute. discriminate.
  - exists (VObj [("auth", VStr "secret")]). split; reflexivity.
  - reflexivity.
  - vm_compute. discriminate.
  - split; [reflexivity|]. vm_compute. reflexivity.
Defined.

Lemma requests_that_escape_witness :
  fst (handle_request c_config 5 "huge" c_state) = Throw (JsonOutOfRange "number overflow")
  /\ fst (handle_request c_config 5 not_utf8 c_state) = Throw JsonTypeError.
Proof.
  split.
  - apply (proj1 (requests_that_escape c_config 5 "huge" c_state)). reflexivity.
  - apply (proj1 (proj2 (requests_that_escape c_config 5 not_utf8 c_state)) "syntax error");
      vm_compute; reflexivity.
Defined.

(** The check accepts any spelling that resolves to a direct child of the folder, separators and
    dots included, and rejects what leaves it. *)
Lemma safe_name_is_child_witness :
  is_safe_database_name c_config "b" (snd c_state) = true
  /\ is_safe_database_name c_config "./x/../b" (snd c_state) = true
  /\ is_safe_database_name c_config "../etc/passwd" (snd c_state) = false
  /\ is_safe_database_name c_config "x/b" (snd c_state) = false.
Proof.
  split_and!; [|reflexivity..].
  apply (safe_name_is_child c_config "b" (snd c_state)). split_and!; [done|reflexivity|].
  exists ["/"; "d"], ["/"; "d"; "b"], "b". split_and!; done.
Defined.

Lemma unsafe_name_untouched_witness :
  snd (handle_query c_config 5 c_escape c_state) = c_state
  /\ snd (handle_delete_db c_config c_escape c_state) = c_state.
Proof.
  destruct (unsafe_name_untouched c_config 5 c_escape (VStr "../etc/passwd") (VStr "SELECT n")
              "../etc/passwd" "SELECT n" c_state) as [-> ->];
    [vm_compute; reflexivity..|by split].
Defined.

Lemma query_reply_witness :
  fst (handle_query c_config 5 c_query c_state)
  = reply (rows_reply (A := c_sql) (J := v_json) "SELECT n" (mkW (files (snd c_state)) 1 2)
             [mkW (files (snd c_state)) 1 1; mkW (files (snd c_state)) 1 0]).
Proof.
  destruct (query_reply c_config 5 c_query (VStr "b") (VStr "SELECT n") "b" "SELECT n" c_state)
    as [_ H]; [vm_compute; reflexivity..|].
  destruct (H "//d/b" (mkH (<["b" := "//d/b"]> ∅) false) (mkW (files (snd c_state)) 1 2)) as [_ H'];
    [vm_compute; reflexivity|].
  destruct (H' "SELECT n" (mkW (files (snd c_state)) 1 2)
              [mkW (files (snd c_state)) 1 1; mkW (files (snd c_state)) 1 0] (Ret tt)
              (mkW (files (snd c_state)) 1 0)) as [-> _]; [reflexivity| |simpl; lia|done|done].
  do 2 (eapply cursor_row; [reflexivity|]). apply cursor_done. reflexivity.
Defined.

Lemma connection_reuse_witness :
  exists d s1, get_database_connection c_config "b" c_state = (Ret d, s1)
    /\ get_database_connection c_config "b" s1 = (Ret d, s1).
Proof.
  eexists _, _. split; [reflexivity|].
  exact (proj2 (proj1 (connection_reuse c_config "b" c_state _ _ eq_refl) _ eq_refl)).
Defined.

Lemma delete_reply_witness :
  fst (handle_delete_db c_config c_query c_state) = reply (fields [("result", j_str "ok")]).
Proof.
  pose proof (delete_reply c_config c_query (VStr "b") "b" c_state true
    (mkW [["/"; "d"; "b-wal"]] 0 2) eq_refl eq_refl eq_refl eq_refl) as H.
  destruct (handle_delete_db c_config c_query c_state) as [r s']. exact (proj1 H).
Defined.

Lemma list_reply_witness :
  exists names, handle_list c_config c_state
    = (reply (J := v_json) (fields [("list", j_arr (map j_str names))]), c_state).
Proof.
  destruct (list_reply c_config c_state (files (snd c_state))) as (names & H & _).
  - reflexivity.
  - reflexivity.
  - repeat constructor; by eexists.
  - exists names. exact H.
Defined.

Lemma blob_roundtrip_witness :
  unhex (hexStr [0; 255; 127]) = Some [0; 255; 127] /\ hexStr [0; 255] = "00ff".
Proof.
  split; [|reflexivity]. apply (blob_roundtrip [0; 255; 127]).
  repeat constructor; unfold is_byte; lia.
Defined.

Lemma statement_constructor_witness :
  fst (SQLStatement_prepare (A := c_sql) 1 "/d/b" "SELECT n" (snd c_state)) = Ret "SELECT n".
Proof.
  destruct (proj1 (statement_constructor (A := c_sql) "/d/b" "SELECT n" (snd c_state)) 0%nat 1%nat)
    as (st & Hl & Hs); [lia|discriminate|lia|].
  injection Hl as <-. rewrite Hs. reflexivity.
Defined.

(** ** Witnesses of Server.v *)

Definition c_server : server (A := c_sql) :=
  on_accept c_config false (Some (AddrV4 (127 * 2 ^ 24 + 1))) (server_init (snd c_state)).

Lemma c_server_reachable :
  rtc (server_step c_config Little 5) (server_init (snd c_state)) c_server.
Proof. apply rtc_once. by apply step_accept. Qed.

Lemma reachable_sessions_witness :
  accept_pending c_server = acceptor_open c_server /\ length (sessions c_server) = 1%nat.
Proof.
  split; [|reflexivity].
  exact (proj2 (reachable_sessions c_config Little 5 (snd c_state) c_server
                  c_server_reachable eq_refl)).
Defined.




Lemma one_message_stops_the_server_witness :
  exists s', rtc (server_step c_config Little 5) c_server s' /\ dead s' = true.
Proof.
  eapply (one_message_stops_the_server c_config Little 5 c_server 0%nat
            (AddrV4 (127 * 2 ^ 24 + 1)) _ [255]).
  - reflexivity.
  - reflexivity.
  - reflexivity.
  - repeat split.
  - vm_compute. discriminate.
  - vm_compute. reflexivity.
  - exists "syntax error". right. split; vm_compute; reflexivity.
Defined.
