(* ===== verification/EngineLink.v ===== *)
(** * EngineLink: the server on the bundled SQLite

    Two places where what the server does and what the amalgamation in src/sqlite3 does have to
    fit: the literal in which a BLOB is sent to the client is SQL for the same bytes, and the
    time a request waits for a locked database is the configured one. *)

From S2P Require Import Prelude External SqlText Keywords Tokenizer Busy Config SqlWrapper RequestHandler Concrete.
From stdpp Require Import options.

(** ** BLOB literals *)

(** [case TK_BLOB] of [sqlite3ExprCodeTarget]: the operands of [OP_Blob] for the token. *)
Definition code_blob (zToken : list Z) : Z * list Z :=
  let z := zdrop 2 zToken in
  let n := sqlite3Strlen30 (Some z) - 1 in
  (n / 2, sqlite3HexToBlob z n).

Lemma bytes_of_string_app s t : bytes_of_string (s +:+ t) = bytes_of_string s ++ bytes_of_string t.
Proof.
  induction s as [|c s IH]; [done|]. change (String c s +:+ t) with (String c (s +:+ t)).
  cbn [bytes_of_string app]. by rewrite IH.
Qed.

Lemma hexdigit_value i : 0 <= i < 16 ->
  sqlite3Isxdigit (Z_of_ascii (hexdigit i)) = true /\ sqlite3HexToInt (Z_of_ascii (hexdigit i)) = i
  /\ 0 < Z_of_ascii (hexdigit i) < 256.
Proof.
  intros Hi.
  pose proof (proj1 (forallb_forall (fun n => let c := Z_of_ascii (hexdigit (Z.of_nat n)) in
    sqlite3Isxdigit c && (sqlite3HexToInt c =? Z.of_nat n) && (0 <? c) && (c <? 256)) (seq 0 16))
    ltac:(vm_compute; reflexivity) (Z.to_nat i) ltac:(apply in_seq; lia)) as H.
  cbv beta zeta in H. rewrite Z2Nat.id in H by lia.
  apply andb_true_iff in H as [H H4]. apply andb_true_iff in H as [H H3]. apply andb_true_iff in H as [H1 H2].
  breflect. by split_and!.
Qed.

Lemma hexStr_cons b data : is_byte b ->
  bytes_of_string (hexStr (b :: data)) =
  Z_of_ascii (hexdigit (b / 16)) :: Z_of_ascii (hexdigit (b mod 16)) :: bytes_of_string (hexStr data).
Proof. intros Hb. cbn [hexStr bytes_of_string]. by destruct (i8_nibbles b Hb) as [-> ->]. Qed.

Lemma byte_nibbles b : is_byte b -> 0 <= b / 16 < 16 /\ 0 <= b mod 16 < 16 /\
  u8 (Z.lor (Z.shiftl (b / 16) 4) (b mod 16)) = b.
Proof.
  intros Hb. pose proof Hb as Hr. unfold is_byte in Hr.
  pose proof (all_bytes_spec (fun b => u8 (Z.lor (Z.shiftl (b / 16) 4) (b mod 16)) =? b) b
    ltac:(vm_compute; reflexivity) Hb) as H. cbv beta in H. breflect.
  split_and!; try done; Z.to_euclidean_division_equations; lia.
Qed.

Lemma hexStr_digits data : bytes_ok data ->
  Forall (fun c => sqlite3Isxdigit c = true) (bytes_of_string (hexStr data)) /\
  cstring (bytes_of_string (hexStr data)) /\
  zlen (bytes_of_string (hexStr data)) = 2 * zlen data.
Proof.
  induction 1 as [|b data Hb _ (IH1 & IH2 & IH3)]; [split_and!; [apply Forall_nil_2..|done]|].
  rewrite hexStr_cons by done. destruct (byte_nibbles b Hb) as (H1 & H2 & _).
  destruct (hexdigit_value (b / 16) H1) as (? & _ & ?). destruct (hexdigit_value (b mod 16) H2) as (? & _ & ?).
  split_and!; [by repeat constructor| |rewrite !zlen_cons, IH3; lia].
  repeat (apply Forall_cons_2; [lia|]). done.
Qed.

Lemma hex_to_blob_hexStr data rest : bytes_ok data -> forall k, (length data <= k)%nat ->
  hex_to_blob_loop (bytes_of_string (hexStr data) ++ rest) (2 * zlen data - 1) k = data.
Proof.
  induction 1 as [|b data Hb _ IH]; intros [|k] Hk; try (cbn in Hk; lia); [done..|].
  rewrite hexStr_cons by done. destruct (byte_nibbles b Hb) as (H1 & H2 & H3). cbn [app hex_to_blob_loop tl].
  rewrite zlen_cons, (proj2 (Z.ltb_lt _ _)) by (unfold zlen; lia).
  match goal with |- context [zat (?x :: ?y :: ?l) 0] =>
    change (zat (x :: y :: l) 0) with x; change (zat (x :: y :: l) 1) with y end.
  destruct (hexdigit_value (b / 16) H1) as (_ & -> & _). destruct (hexdigit_value (b mod 16) H2) as (_ & -> & _).
  rewrite H3. f_equal. replace (2 * (1 + zlen data) - 1 - 2) with (2 * zlen data - 1) by lia.
  apply IH. cbn in Hk. lia.
Qed.

(** C39: a BLOB in a reply is an SQL literal for its bytes.  The text [X'<hex>'] the handler sends,
    placed in a statement before anything else, is read by the tokenizer of the bundled SQLite as
    one [TK_BLOB] token, and the code generated for that token loads exactly the bytes of the
    value and their number: a client can send a BLOB back as it received it. *)
Theorem blob_literal_is_sql data rest : bytes_ok data -> zlen data < 2 ^ 29 ->
  let tok := bytes_of_string (blob_literal data) in
  sqlite3GetToken (tok ++ rest) = (zlen tok, TK_BLOB) /\
  code_blob tok = (zlen data, data ++ [0]).
Proof.
  intros Hd Hlen. cbv zeta. unfold blob_literal. rewrite !bytes_of_string_app.
  destruct (hexStr_digits data Hd) as (Hx & Hc & Hl).
  change (bytes_of_string "X'" ++ bytes_of_string (hexStr data) ++ bytes_of_string "'")
    with (blob_text 88 (bytes_of_string (hexStr data))).
  split; [apply get_token_blob; [by right|done|]|].
  { rewrite Hl. by rewrite Z.even_mul. }
  unfold code_blob.
  change (zdrop 2 (blob_text 88 (bytes_of_string (hexStr data)))) with (bytes_of_string (hexStr data) ++ [39]).
  assert (sqlite3Strlen30 (Some (bytes_of_string (hexStr data) ++ [39])) = 2 * zlen data + 1) as ->.
  { unfold sqlite3Strlen30. rewrite zlen_app, Hl. change (zlen [39]) with 1.
    rewrite wraps_small by (unfold zlen in *; lia). change 0x3fffffff with (Z.ones 30). rewrite Z.land_comm, Z.land_ones by lia. apply Z.mod_small. unfold zlen in *. lia. }
  rewrite Z.add_simpl_r. replace (2 * zlen data / 2) with (zlen data) by (rewrite Z.mul_comm, Z.div_mul; lia).
  unfold sqlite3HexToBlob. rewrite hex_to_blob_hexStr by (done || (unfold zlen; lia)). done.
Qed.

Lemma blob_literal_is_sql_witness :
  code_blob (bytes_of_string (blob_literal [0; 127; 255])) = (3, [0; 127; 255; 0]).
Proof.
  refine (proj2 (blob_literal_is_sql [0; 127; 255] [] _ _)); [|vm_compute; reflexivity].
  repeat (apply Forall_cons_2; [unfold is_byte; lia|]). apply Forall_nil_2.
Defined.

(** ** Waiting for a locked database *)

(** The connections of an engine whose [sqlite3_busy_timeout] is the one of Busy.v. *)
Class EngineBusy {W double} (A : SqlApi W double) := {
  busy_of : sqlite3 A -> W -> busy_conn;
  busy_timeout_sets db ms w :
    busy_of db (SqlWrapper.sqlite3_busy_timeout db ms w) = Busy.sqlite3_busy_timeout (busy_of db w) ms
}.

Section Link.
Context {W double : Type} {A : SqlApi W double} {J : JsonLib double} {F : FsLib W} {T : TextLib}.
Context {B : EngineBusy A}.

(** A connection the handler opens has had the configured timeout set on it, as an [int]. *)
Lemma opened_timeout (cfg : @Config W F) name s db s' :
  m_databases (fst s) !! name = None ->
  get_database_connection cfg name s = (Ret db, s') ->
  exists b, busy_of db (snd s') = Busy.sqlite3_busy_timeout b (i32 (busy_timeout_ms cfg)).
Proof.
  unfold get_database_connection, out, SQLDatabase_open. intros ->.
  destruct (sqlite3_open _ _) as [[rc d] w1]. destruct (negb _); [done|]. cbn. intros H. simplify_eq.
  cbn. eexists. apply busy_timeout_sets.
Qed.

(** A request waits for a locked database as long as the configuration says, up to a
    limit.  On a connection the handler opens, with a lock that is never released: a
    [busy_timeout_ms] between 1 and [2^31 - 201] makes the statement fail with [SQLITE_BUSY]
    after sleeping exactly that many milliseconds; a value of [2^31] or more, which the
    configuration accepts, is negative once it is an [int], and the statement fails at the first
    attempt without waiting at all. *)
Theorem connection_waits (cfg : @Config W F) name s db s' :
  m_databases (fst s) !! name = None ->
  get_database_connection cfg name s = (Ret db, s') ->
  let t := busy_timeout_ms cfg in
  (0 < t <= 2 ^ 31 - 201 -> exists fuel n db',
    lock_loop fuel (fun _ => true) 0 (busy_of db (snd s')) 0 = Some (SQLITE_BUSY, 1000 * t, n, db')) /\
  (2 ^ 31 <= t < 2 ^ 32 -> exists db',
    lock_loop 1 (fun _ => true) 0 (busy_of db (snd s')) 0 = Some (SQLITE_BUSY, 0, 1%nat, db')).
Proof.
  intros Hn Hg t. destruct (opened_timeout cfg name s db s' Hn Hg) as (b & ->). fold t. split; intros Ht.
  - rewrite wraps_small by lia.
    destruct (proj1 (busy_wait b (fun _ => true) t) Ht) as (fuel & rc & us & n & db' & E & _ & _ & [[_ ?]|(-> & -> & _)]);
      [done|]. by exists fuel, n, db'.
  - assert (i32 t <= 0) as Hi.
    { unfold wraps. change (2 ^ (32 - 1)) with 2147483648. Z.to_euclidean_division_equations; lia. }
    rewrite (proj2 (busy_wait b (fun _ => true) (i32 t)) Hi eq_refl). by eexists.
Qed.
End Link.

(** ** A concrete engine *)

(** The timeout in force is kept in the field [rows_left] of the concrete world. *)
#[export] Instance c_busy_sql : SqlApi cworld Z := {|
  sqlite3 := string; sqlite3_stmt := string;
  sqlite3_open p w := (0, p, w);
  sqlite3_close _ w := w;
  sqlite3_errcode _ _ := 1; sqlite3_extended_errcode _ _ := 1; sqlite3_errmsg _ _ := "error";
  SqlWrapper.sqlite3_busy_timeout _ ms w := mkW (files w) (opened w) (Z.to_nat ms);
  sqlite3_prepare_v2 db q _ w := (0, Some q, w);
  sqlite3_step st w := (101, w);
  sqlite3_db_handle _ := "";
  sqlite3_clear_bindings _ w := w; sqlite3_finalize _ w := w;
  sqlite3_column_count _ _ := 0; sqlite3_column_name _ _ _ := "n"; sqlite3_column_type _ _ _ := 1;
  sqlite3_value_int64 _ _ w := 0; sqlite3_value_double _ _ _ := 0;
  sqlite3_value_text _ _ _ := ""; sqlite3_value_blob _ _ _ := []
|}.

#[export] Instance c_engine_busy : EngineBusy c_busy_sql.
Proof.
  refine {| busy_of := fun (_ : sqlite3 c_busy_sql) (w : cworld) =>
    if 0 <? Z.of_nat (rows_left w) then mkBusy DefaultCallback 0 (Z.of_nat (rows_left w))
    else mkBusy NoCallback 0 0 |}.
  intros db ms w. cbn. unfold Busy.sqlite3_busy_timeout.
  destruct (Z.ltb_spec 0 ms).
  - rewrite Z2Nat.id, (proj2 (Z.ltb_lt 0 ms)) by lia. done.
  - rewrite Z2Nat.nonpos by lia. done.
Defined.

Definition c_locked : hstate (A := c_busy_sql) * cworld := (mkH ∅ true, mkW [["/"; "d"; "b"]] 0 0).

Lemma connection_waits_witness :
  exists db s', get_database_connection c_config "b" c_locked = (Ret db, s') /\
  exists fuel n db', lock_loop fuel (fun _ => true) 0 (busy_of db (snd s')) 0 = Some (SQLITE_BUSY, 1000 * 5000, n, db').
Proof.
  eexists _, _. split; [reflexivity|].
  refine (proj1 (connection_waits (A := c_busy_sql) c_config "b" c_locked _ _ eq_refl eq_refl) _).
  split; reflexivity || discriminate.
Defined.
